(* ===== verification/_CoqProject ===== *)
-Q . S2P
Prelude.v
Bytes.v
GoStd.v
Float.v
Framing.v
SecsII.v
Hsms.v
HsmsConn.v
Gem.v
Datagram.v
Bus.v
FanIn.v
StoreForward.v
Drain.v
Execution.v
Value.v
Topics.v
FlowFile.v
Runner.v
Deploy.v
WindowAgg.v
Merge.v
SplitBatch.v
Loop.v
Delay.v
Switch.v
Filter.v
Debug.v
Modbus.v
ModbusSource.v
ModbusSink.v
CtxStore.v
State.v
Webhook.v
HttpIn.v
HttpResponse.v
Auth.v
Fleet.v
Alerting.v
DebugHub.v
ExecHistory.v
Registry.v
AuditLog.v
FlowStore.v
Convert.v
Vault.v
Backup.v
SetNode.v
Calculator.v
Template.v
StopError.v
TryCatch.v
Lookup.v
Database.v
RecordFormat.v
FileWatch.v
SecsGemShared.v
SecsGemHost.v
SecsGemAction.v
RuntimeClient.v
SqlShared.v
SqlSink.v
SqlSource.v
Expr.v
ExecApi.v
DebugApi.v
VcsExport.v
HttpRequest.v
Script.v
Schedule.v
Sockets.v
BusNodes.v
Messaging.v
DataStores.v
Routes.v
Metrics.v
ConnTest.v
Preview.v
AuditApi.v
