(* ===== verification/Prelude.v ===== *)
(** * DataPipe: a verification library

    DataPipe runs flows: graphs of source and processor nodes that exchange datagrams
    over bounded in-process queues.  This library models the engine under src/engine/
    that runs them, its processing nodes and its connectors (SECS/GEM, Modbus, HTTP, SQL,
    sockets, message brokers, object and document stores, OPC UA), and the control plane
    under src/controlplane/ that stores, deploys and watches the flows, as executable
    definitions, and proves what makes each part correct.

    ** The program and how its parts interact

    A flow file ([engine/flow/file.go]) lists nodes and wires.  [Deployment.Deploy]
    ([graph.go]) validates it ([validate.go]), gives every input port an inbox (a
    [bus.Wire]), and starts a runner per node ([runner.go]), whose outputs are fan-outs
    over the inboxes of the nodes downstream ([engine/bus]).  A runner receives a
    [datagram.Datagram], calls the node's code with retries and panic recovery,
    dispatches the results, and on failure applies the node's error policy: an error
    port, a dead letter, or the durable queue of [engine/storeforward], from which a
    drain loop delivers later.  Triggered flows report every node event to the
    execution tracker ([execution.go]), which limits concurrency and decides when an
    execution has ended.  Flows also talk through the topic broker ([engine/topics]).
    Connectors turn byte streams into frames ([nodes/framing]) or into HSMS messages
    ([nodes/hsms]) that carry SECS-II items ([nodes/secsii]) of GEM transactions
    ([nodes/gem], and the equipment simulator [nodes/gemsim]), into Modbus registers
    ([nodes/modbusshared]), or into HTTP requests whose routes and pending responses are
    kept by [engine/webhook].  Processing nodes keep state between datagrams: windows,
    joins, batches, loop sessions, throttles, deadbands, and the keys of the context store
    ([engine/ctxstore]).

    The control plane keeps accounts, sessions and roles ([internal/auth]), flows with their
    versions and environment profiles, projects, the device fleet and the history of
    executions ([internal/api]) in SQL tables ([internal/db]), credentials sealed by a vault
    ([internal/crypto]), and an audit log ([internal/audit]).
    Runtimes register with it ([internal/registry], authenticated by the fleet), get flows
    over a deploy stream and commands over an event channel, over which they report what
    their trackers do ([engine/internal/runtimeclient]).  The debug hub
    ([internal/debughub]) relays captured events to browsers, and the evaluator
    ([internal/alerting]) raises alerts for runtimes that are offline.

    ** Files

    - Prelude: outcomes of Go code ([res]: a value, an error, a panic), machine integers
      and their wrap-around, slices with bounds checks, shared lemmas, the hint database
      [go] and the tactics.
    - Bytes, GoStd: big- and little-endian integers; what the code uses of strconv, fmt,
      strings, sort and encoding/base64, with the round trips.
    - Framing ([framing]): [Config.Validate], [extract], [unescapeDelimiter] and the poll
      loop [Run] as a fold over what the polls return.
    - SecsII ([secsii]): [Item], [Encode], [Decode] with every error, constructors,
      [Value], [Int64], [Text].
    - Hsms ([hsms]): [Header], [Message.Encode], [ReadMessage] on a byte stream.
    - HsmsConn ([hsmsconn]): [Conn] with its reader, transactions, select, separate and
      linktest procedures, as steps ([step]) in any interleaving of goroutines and timers;
      a write to the connection begins and ends in steps of its own.
    - Gem ([gem], [gemsim]): every builder and parser of dictionary.go, the host's handler
      and requests, the simulator's handlers.
    - Datagram ([datagram]): headers, payloads, [Clone] over a heap with its sharing,
      [New]/[NewCaused], TTL, quality, batches.
    - Bus ([bus]): the ring buffer [Wire] with [Send], [Receive], [Close] and the overflow
      policies, [FanOut]; the class [Mailbox] states what a queue promises to a publisher,
      and [wire_mailbox] is the wire's instance of it.
    - StoreForward ([storeforward]): [Queue] over a directory of files with operations that
      may fail; Drain ([drain]): runs of producers, the drain loop, whose delivery and removal
      are separate steps, and restarts between any two of them.
    - Execution ([execution]): [Tracker], with the goroutines that are inside [Start] (also
      between the lock and the report to the sink) or before [releaseSlot] as parts of the state.
    - Topics ([topics]): [matchTopic], [tagsMatch], [Subscribe], [Publish], proved against
      [Mailbox].
    - FlowFile ([flowfile]): the document, the node-type registry, [Validate].
    - Runner ([runner]): what a [nodeRunner] does with one datagram, as the sequence of
      calls it makes on the rest of the engine.
    - Deploy ([deploy]): [Deployment] with [Deploy], [Stop], [startNode], the inbox
      reconciliation, the fingerprints and the replay operations; inboxes are addresses in
      a store of wires, so that what a kept node holds can be compared with what is live.
    - FanIn ([fanin]): the goroutines of [FanIn] and its channel, as steps.
    - Float: float64 by its bit pattern, over the Standard Library's binary floats.
    - Value ([value]): the dynamic values ([any]) of a payload, their truth and their
      numbers.
    - WindowAgg, Merge, SplitBatch, Loop, Delay, Switch, Filter: one file per processing
      node of [engine/nodes]; [Process] is the handler, [New] checks the configuration, and
      the node's state (windows by group, pending items by key, the batch, sessions, the
      throttle's window, the deadband's references) is a record.
    - CtxStore ([ctxstore]), State ([state]): the context store over a heap of objects that
      are shared the way the code shares them, and the node that reads and writes it.
    - Debug ([debug]): ring buffer, rate limiter and latency histogram of flow/debug.go and
      flow/histogram.go, and the backoff of internal/backoff.
    - Modbus, ModbusSource, ModbusSink: register codec, one poll, one write.
    - Webhook ([webhook]), HttpIn ([httpin]), HttpResponse ([httpresponse]): routes and
      cancel functions, pending responses, the request handler and its authentication, the
      node that answers.
    - Auth ([auth]): the tables of accounts, sessions and members, the middleware, login,
      logout, the role checks, and what a restore of a backup does to them.
    - Fleet ([fleet]): groups, enrolment tokens, devices, [Authenticate].
    - ExecHistory ([exechistory]): the tables of executions, node traces and dead letters,
      and the messages of the event sink, driven by the tracker of Execution.
    - Registry ([registry]): sessions, deploy streams and event channels with their queues,
      over Fleet and ExecHistory.
    - FlowStore ([flowstore]): flows, versions, profiles and projects, the handlers that
      edit, deploy and roll back, over Auth, FlowFile and Registry.
    - Convert ([convert]), RecordFormat ([recordformat]): binary records, character
      encodings, CSV, XML and base64; the records of a file in every format.
    - SetNode, Calculator, Template, StopError, TryCatch: one file per stateless node, the
      last with [ExecuteNode]; Lookup ([lookup]): the lookup node with its cache.
    - FileWatch ([filewatch]): events, the goroutine per file and post-actions, as steps.
    - Database ([database]): placeholders, statements and migrations.
    - Vault ([vault]): envelope encryption, credentials and connections with their
      handlers, and the resolution of a connection for a runtime, over Auth and Registry.
    - Backup ([backup]): export and restore over the tables with their constraints.
    - AuditLog ([audit]): the hash chain, [Append], [Verify], [List].
    - Alerting ([alerting]): rules, alerts, [evaluateOnce], webhook calls with their outcome.
    - DebugHub ([debughub]): subscriptions and the event cache of the hub, and the sink at
      the runtime's end; sends that follow a critical section are explicit, so that they can
      interleave.
    - SecsGemShared, SecsGemHost, SecsGemAction: the connection of the SECS/GEM nodes, the
      node that configures an equipment and turns its messages into datagrams, the node that
      sends commands; over Gem, whose simulator is one equipment they are run against.
    - SqlShared, SqlSink, SqlSource: data source names, the statements of a batch in one
      transaction over a database that is a world, polls with a watermark.
    - HttpRequest, Script, Schedule, Sockets: the request node with its credentials, the
      script node for every script (a tree of the calls it makes), time triggers, and the TCP,
      UDP, serial and WebSocket nodes over Framing with their hubs.
    - BusNodes ([busnodes]): the nodes that publish to and subscribe to the broker, in any
      interleaving of the snapshots and the single sends of publications, the error flow of a
      project with the trigger that receives it, inject and debug-log.
    - Messaging ([messaging]): MQTT, Kafka and Redis nodes; DataStores ([datastores]):
      MongoDB, S3 and OPC UA nodes.
    - Expr ([expr]): the recognition of expressions, deep resolution, templates and the
      functions bound for scripts.
    - RuntimeClient ([runtimeclient]): the registration loop and the stream goroutines, which
      may outlive their session, as steps.
    - Metrics ([metrics]): counters, snapshots and the Prometheus text.
    - ExecApi, DebugApi, VcsExport, AuditApi: the handlers over executions and dead letters,
      over pins and the debug relay (its sends outside the hub's lock being steps of their
      own), of bundles, and of the audit log; Routes ([routes]): the
      route table, the multiplexer and the middleware in front of it.
    - ConnTest ([conntest]): the connection tests; Preview ([preview]): the values a node's
      context carries, samples of a source and the palette.

    ** What the theorems show

    - Deploy: a successful [Deploy] leaves exactly the flow's nodes running, with the
      definitions of the flow and reading live inboxes ([Deploy_reconciles]); it touches
      only what changed ([Deploy_minimal]), nothing on a redeploy of the same graph
      ([redeploy_noop]); [Validate] decides well-formedness.
    - Bus and topics: the ring buffer refines a bounded FIFO queue, in any interleaving
      ([wire_refines_queue], [wire_history]); fan-outs and publications serve each target by
      its own policy; matching is the topic-filter relation.
    - Delivery: a handled datagram has exactly one fate, whose results are what the node
      returned and what was sent, and is reported once ([handle_no_silent_loss]); the durable
      queue refines a bounded FIFO, survives restarts and is drained in order, an entry more
      than once only after a restart or a removal that failed ([delivery_in_order]).
    - Executions: slots never exceed the limit, releases do not block, every started
      execution ends exactly once, and completion is exactly the pending count.
    - Codecs: SECS-II, HSMS and the framing modes round-trip; the decoders are total and
      never index out of range; a GEM event report reaches the host with the values the
      host asked for.
    - Connection: replies carry the system bytes of their request, the reader is never
      stuck on a reply it hands over (a write or a full queue can hold it:
      [reader_progress]), and a session is selected only after a Select that succeeded.
    - Processing nodes: windows partition the input of each group in order, and each closed
      one is what the node then emits, or its aggregation failed
      ([windows_partition], [sliding_exact]); an inner join emits exactly the pairs of the
      reference join ([join_refines]); batches partition the input; a loop visits its items
      once and ends; no interval of a throttle holds more than its limit; a switch routes
      by the first or by every rule that holds; a deadband reports exactly the values that
      moved away from the last report.
    - Connectors: what the Modbus sink writes the source reads back
      ([sink_then_source]); an HTTP response reaches the request it answers, at most once;
      only authenticated requests enter the flow.
    - Debug: the ring buffer holds the last events in order, histogram buckets are
      cumulative.
    - Control plane: a request acts for a user only with a live session of that user
      ([session_lifecycle]); a runtime's session is the latest registration's
      ([session_is_latest]); an enrolled runtime stays bound to its token
      ([enrollment_binding]); version histories are gap-free, and immutable but for a restore
      of a backup ([versions_immutable]); a deploy publishes the validated draft to every runtime of its
      group and to those that connect later ([deploy_publishes],
      [DeployFlow_reaches_targets], [restart_restores_eight]); a request that succeeds has
      its effect and is audited once; one that is refused leaves nothing, but for a deploy, a
      rollback or a new project that failed half-way ([edits_all_or_nothing]); the audit log is tamper-evident to whoever keeps its
      last hash, up to bars that move between fields ([tamper_evident]); the history shows what
      the tracker did for executions that were reported as started in time
      ([history_follows_tracker]); alerts open and close with their rule's condition, and each
      change is one webhook call, made once ([alerts_follow_rules]); without overlapping sends
      a runtime forwards exactly the flows that are watched
      ([forwards_watched_flows]), and the hub's cache is the last events
      ([cache_holds_last]).
    - Secrets and backups: two histories of requests that differ only in the values of
      credentials get the same answers and audit entries, the connection test, the SVID
      browser and the export of a backup apart ([credentials_write_only]); a
      connection resolves to the values that were stored ([connection_resolution]); the
      export of a valid database restores as the same configuration but for the flows' active
      profiles ([backup_roundtrip]), all or nothing ([restore_all_or_nothing]); through crashes and upgrades every migration is
      applied once and in order ([migrations_once_in_order]).
    - Files and conversion: a file has one goroutine, and its post-action comes after all its
      records ([post_action_last]); binary records and character encodings round-trip
      ([binary_roundtrip], [encoding_roundtrip]); malformed rows are skipped or refused
      ([malformed_rows_policy]); the lookup cache is bounded and serves what was fetched last; the
      set node writes its paths only ([set_writes_exactly]); a
      wrapped node's failure stays inside try-catch ([trycatch_contains]).
    - Connector nodes: the host node configures an equipment so that its events arrive with
      the named values ([setup_configures], [host_node_delivers]), and an action is a command
      the equipment took ([action_accepted]); a batch of the SQL sink is written whole or not
      at all ([sink_all_or_nothing]), the SQL source emits each row once
      ([incremental_once]); templates splice values and nothing else
      ([renderTemplate_splices], [RenderTemplate_splices]); credentials of a request are
      resolved once and win over configured headers ([auth_resolved_once],
      [auth_not_overridden]); a script changes no state but that of its node, its flow
      and the global one ([script_confined]); what a TCP sink writes a source reads back in any chunks
      ([socket_roundtrip]); a broadcast reaches every client or drops it
      ([broadcast_reaches]); cron triggers fire in order, once per instant
      ([cron_fires_in_order]); what a bus-out publishes reaches every bus-in in that
      publisher's order ([bus_in_order]); brokers and stores get and give what is expected
      ([mqtt_in_order], [mqtt_relays], [kafka_relays], [stream_contiguous], [s3_each_once],
      [update_partition], [handles_name_nodes]).
    - Sessions of a runtime: only the streams of the current session are live, and what it
      reports and resolves belongs to it ([one_session]); were the streams joined before the
      next registration, the sinks would follow them ([joined_follows]).
    - Handlers: pages of executions are the whole list, each once ([execution_pages]); a
      re-run replays what was recorded, as its JSON decodes ([rerun_replays]), and a re-injected
      dead letter goes back to its node ([reinject_returns]); a browser is sent events of the
      one flow it was admitted to, in every interleaving
      ([relay_confined]); an exported bundle holds no secret and imports as the same flows in
      canonical order and form ([export_import]); every route reaches its handler, and all but the login and the debug
      WebSocket, which checks its own token, need a session
      ([routes_reached], [served_only_with_session]); the audit log of a project is read by
      its administrators only ([audit_read_scoped]).
    - Editor: for MQTT, Redis, MongoDB, S3 and SQL a connection test succeeds exactly when
      what a node would connect to answers ([test_is_what_nodes_use],
      [sql_test_is_what_nodes_use]); a sample is the first records of a source that stops
      when asked to ([preview_sample]); the palette is the registry ([palette_complete]).
    - Metrics: the exported count of a node is the number of datagrams it processed
      ([count_is_processed]); a label value is scraped as it is when nothing in it needs
      an escape ([label_scraped]).
    - Limits of the connectors and handlers, as theorems: [late_detach_silences],
      [binary_codes_refused], [equal_value_missed], [failed_emission_skipped],
      [watermark_normalized], [exec_needs_an_object], [percentile_nan_panics],
      [nested_braces_cut], [query_not_escaped], [auth_failure_sticks], [failed_state_kept],
      [impossible_schedule_spins], [interval_wraps], [reconnect_blocks_stop],
      [dial_failure_sticks], [text_taken_for_base64], [handler_feeds_itself],
      [errors_seen_by_all], [mqtt_drops_newest], [json_text_changes], [bad_message_ends],
      [header_replaces_topic], [entry_between_reads_lost], [set_key_literal],
      [retried_batch_duplicates], [move_under_prefix], [key_depends_on_order],
      [call_drops_arguments], [fan_in_reported_per_wire], [import_not_atomic],
      [kafka_test_ignores_login], [preview_exceeds_limit], [preview_has_no_connection].
    - Limits of these, as theorems: [credential_of_another_project],
      [connection_without_config], [short_nonce_panics], [profiles_block_restore],
      [profile_is_lost], [torn_export], [write_during_emission_lost], [markers_of_markers],
      [bad_delimiter_hangs], [first_connection_sticks], [negative_offset], [offset_overflow],
      [large_uint64], [xml_singleton].
    - Limits of the control plane, as theorems on concrete runs: [untampered_verifies] and
      [flow_create_fails_verification], [refused_deploy_stays],
      [deploy_snapshots_other_draft], [single_connection_hangs], [delete_does_not_stop],
      [partial_deploy], [stale_close_of_live_runtime], [rerun_runs_twice],
      [unknown_role_reads], [logout_bare_token], [enroll_token_is_shared],
      [unenrolled_cannot_enroll], [restart_resolves], [stale_unsubscribe],
      [reconnect_forwards_unwatched], [overtaken_unsubscribe], [replayed_event_not_loadable],
      [aborted_start_stays_waiting], [cancelled_before_started], [bar_moves_unnoticed],
      [refused_rollback_replaces_draft], [refused_project_stays], [lost_call_not_repeated].
    - Limits of the code in the nodes, as theorems: [left_join_loses],
      [retry_double_counts], [state_scope_is_per_node], [state_get_aliases],
      [string_word_order], [stale_cancel_drops_route], [deadband_stuck_on_nan],
      [raw_poll_not_splittable], [sink_never_reconnects],
      [empty_header_credential_open].
    - Limits of the engine, as theorems on concrete runs: [kept_node_feeds_closed_wire],
      [primary_taken_as_reply], [fanout_finishes_early], [reconfigure_loses_slot],
      [expired_counts_as_success], [sample_eviction_uncounted], [Clone_shares_value],
      [limit_refuses_complete_frames], [sourceless_accepted], [cycle_accepted],
      [any_mode_accepted], [redelivered_after_restart], [reader_stuck_in_write],
      [block_stops_publisher], [overlapping_publications].

    ** Parameters, bounds and fuel

    Code outside src/ and randomness are arguments: the JSON Schema validator, node
    factories, the callback of [Run], the JSON form of a queue entry (with its round trip
    as hypothesis), SHA-256 and the JSON form of a node for fingerprints (with "no two of
    the deployed definitions collide" as hypothesis), fresh ids, clocks, the order of map
    iteration, and the outcome of every file operation; for the nodes, the expression
    engine (compilation and evaluation), the textual form of a dynamic value, the size
    estimate of a payload, HMAC, the JSON encoding of a response body, the Modbus client,
    and the sub-flow that a loop feeds; for the connectors, what brokers, stores, servers,
    databases and sockets answer, call by call, the script engine, and the times of a cron
    schedule; for the control plane, bcrypt, SHA-256, random
    tokens, AES-GCM (with "what is sealed opens" as hypothesis), encoding/json (encoding,
    decoding and the generic values in between) and time texts, the
    outcome of every SQL statement, the order of its rows,
    and of Go's map iteration.  A request of the control plane is one step, except where
    interleaving is the point; so are a deploy's collection of streams and its sends in
    Registry, and the handing of a new session to the sinks in RuntimeClient.  A transaction
    whose commit reports an error is taken not to have happened.  Each hypothesis has a witness with a concrete
    instance.  [Decode] recurses with the input length as fuel, which is
    enough because every nested item consumes two bytes; [drain] with the buffer length,
    because a frame consumes a byte; the retry loop with the policy's maximum; a loop
    session is driven with one step more than it has items; the XML reader with the number of
    tokens, each of which is read once.  Integers
    keep their width where it matters (lengths, sizes, sequence numbers, TTLs, counters).

    ** Not modelled

    The client libraries of brokers, databases and devices, the script engine and the cron
    parser, which are not part of the repository; the system calls behind sockets and
    listeners, dialling and the accept loop of the TCP source among them; loading and
    saving of flow files, JSON texts; listings that only copy columns of a table; health
    endpoints and the wiring of the processes ([main.go]), which read flags and start what is
    modelled; the command line, the SDK stub and the user interface, which are clients of the
    modelled handlers.  JSON schemas of configurations are documents: validation takes the
    schema check as an argument. *)

From stdpp Require Export base tactics numbers list gmap strings.
From Stdlib Require Export ZArith Lia.

Lemma fold_left_map {A B C} (f : A -> B -> A) (g : C -> B) l a :
  fold_left (fun x y => f x (g y)) l a = fold_left f (map g l) a.
Proof. revert a. induction l as [|y l IH]; intros a; cbn; [done|apply IH]. Qed.

(** ** Outcomes of Go code

    A Go function that returns [(T, error)] is a computation in [res E]: it
    returns ([Ok]), returns a non-nil error ([Err]), or panics ([Panic]: an
    index or a slice bound out of range).  Keeping the panic as a value lets a
    theorem say that a decoder never reaches it. *)

Declare Scope go_scope.
Delimit Scope go_scope with go.

Inductive res (E A : Type) : Type :=
| Ok (a : A)
| Err (e : E)
| Panic.
Arguments Ok {E A} a.
Arguments Err {E A} e.
Arguments Panic {E A}.

#[global] Instance res_ret E : MRet (res E) := fun A a => Ok a.
#[global] Instance res_bind E : MBind (res E) := fun A B f m =>
  match m with Ok a => f a | Err e => Err e | Panic => Panic end.
#[global] Instance res_fmap E : FMap (res E) := fun A B f m =>
  match m with Ok a => Ok (f a) | Err e => Err e | Panic => Panic end.

(** [if err := guard(); err != nil { return err }] *)
Definition guard_err {E} (ok : bool) (e : E) : res E unit :=
  if ok then Ok tt else Err e.

Definition is_ok {E A} (m : res E A) : bool :=
  match m with Ok _ => true | _ => false end.

(** [errors.Wrap]-style: the error of [m] rewritten by [f]. *)
Definition map_err {E F A} (f : E -> F) (m : res E A) : res F A :=
  match m with Ok a => Ok a | Err e => Err (f e) | Panic => Panic end.

(** Every element in order, stopping at the first error. *)
Fixpoint res_mapM {E A B} (f : A -> res E B) (l : list A) : res E (list B) :=
  match l with
  | [] => Ok []
  | x :: l' =>
      match f x with
      | Ok y => match res_mapM f l' with
                | Ok ys => Ok (y :: ys)
                | Err e => Err e
                | Panic => Panic
                end
      | Err e => Err e
      | Panic => Panic
      end
  end.

(** The same with state: a computation that reads and changes a world [W] (a connection, a
    table) and returns, fails or panics.  What it did to the world before failing stays done. *)
Definition sres (W E A : Type) : Type := W -> res E A * W.
#[global] Instance sres_ret W E : MRet (sres W E) := fun A a w => (Ok a, w).
#[global] Instance sres_bind W E : MBind (sres W E) := fun A B f m w =>
  match m w with
  | (Ok a, w') => f a w'
  | (Err e, w') => (Err e, w')
  | (Panic, w') => (Panic, w')
  end.
Definition of_res {W E A} (m : res E A) : sres W E A := fun w => (m, w).
Definition smap_err {W E F A} (f : E -> F) (m : sres W E A) : sres W F A :=
  fun w => let '(r, w') := m w in (map_err f r, w').
(** [for _, x := range l { if err := f(x); err != nil { return err } }] *)
Fixpoint sres_each {W E A} (f : A -> sres W E unit) (l : list A) : sres W E unit :=
  match l with
  | [] => mret tt
  | x :: l' => f x ≫= fun _ => sres_each f l'
  end.
Lemma sres_bind_ok {W E A B} (f : A -> sres W E B) (m : sres W E A) w a w' :
  m w = (Ok a, w') -> (m ≫= f) w = f a w'.
Proof. unfold mbind, sres_bind. by intros ->. Qed.
Lemma sres_bind_inv {W E A B} (f : A -> sres W E B) (m : sres W E A) w b w2 :
  (m ≫= f) w = (Ok b, w2) -> exists a w1, m w = (Ok a, w1) /\ f a w1 = (Ok b, w2).
Proof. unfold mbind, sres_bind. destruct (m w) as [[a|e|] w1]; [eauto|done|done]. Qed.

(** ** Machine integers

    A [uintN] value is a [Z] in [0, 2^N); an [intN] value one in
    [-2^(N-1), 2^(N-1)).  A Go conversion keeps the low bits. *)

Definition uwrap (w z : Z) : Z := z mod 2 ^ w.
Definition swrap (w z : Z) : Z := (z + 2 ^ (w - 1)) mod 2 ^ w - 2 ^ (w - 1).

Abbreviation u8 := (uwrap 8).
Abbreviation u16 := (uwrap 16).
Abbreviation u32 := (uwrap 32).
Abbreviation u64 := (uwrap 64).
Abbreviation s8 := (swrap 8).
Abbreviation s16 := (swrap 16).
Abbreviation s32 := (swrap 32).
Abbreviation s64 := (swrap 64).

Definition in_u (w z : Z) : Prop := (0 <= z < 2 ^ w)%Z.
Definition in_s (w z : Z) : Prop := (- 2 ^ (w - 1) <= z < 2 ^ (w - 1))%Z.

#[global] Instance in_u_dec w z : Decision (in_u w z).
Proof. unfold in_u. apply _. Defined.
#[global] Instance in_s_dec w z : Decision (in_s w z).
Proof. unfold in_s. apply _. Defined.

(** A byte slice: Go's [[]byte], one [Z] in [0, 256) per byte. *)
Abbreviation bytes := (list Z).
Abbreviation bytes_ok := (Forall (in_u 8)).

(** ** Slices: Go's bounds checks, written out *)

Definition zlen {A} (l : list A) : Z := Z.of_nat (length l).

(** [l[i]] *)
Definition index {E A} (l : list A) (i : Z) : res E A :=
  if bool_decide (0 <= i)%Z then
    match l !! Z.to_nat i with Some x => Ok x | None => Panic end
  else Panic.

(** [l[:n]] and [l[n:]] (bounds checked against the length). *)
Definition slice_to {E A} (l : list A) (n : Z) : res E (list A) :=
  if bool_decide (0 <= n <= zlen l)%Z then Ok (take (Z.to_nat n) l) else Panic.
Definition slice_from {E A} (l : list A) (n : Z) : res E (list A) :=
  if bool_decide (0 <= n <= zlen l)%Z then Ok (drop (Z.to_nat n) l) else Panic.

(** ** Generic lemmas *)

Lemma zlen_nil {A} : zlen (@nil A) = 0%Z.
Proof. done. Qed.
Lemma zlen_cons {A} (x : A) l : zlen (x :: l) = (1 + zlen l)%Z.
Proof. unfold zlen. simpl. lia. Qed.
Lemma zlen_app {A} (l k : list A) : zlen (l ++ k) = (zlen l + zlen k)%Z.
Proof. unfold zlen. rewrite length_app. lia. Qed.
Lemma zlen_nonneg {A} (l : list A) : (0 <= zlen l)%Z.
Proof. unfold zlen. lia. Qed.
Lemma zlen_map {A B} (f : A -> B) l : zlen (map f l) = zlen l.
Proof. unfold zlen. by rewrite length_map. Qed.

Lemma uwrap_range w z : (0 <= w)%Z -> in_u w (uwrap w z).
Proof. intros ?. apply Z.mod_pos_bound. lia. Qed.
Lemma uwrap_id w z : in_u w z -> uwrap w z = z.
Proof. intros ?. by apply Z.mod_small. Qed.
Lemma swrap_range w z : (1 <= w)%Z -> in_s w (swrap w z).
Proof.
  intros ?. unfold in_s, swrap.
  assert (2 ^ w = 2 * 2 ^ (w - 1))%Z as Hw.
  { rewrite <- Z.pow_succ_r by lia. f_equal. lia. }
  pose proof (Z.mod_pos_bound (z + 2 ^ (w - 1)) (2 ^ w)). lia.
Qed.
Lemma swrap_id w z : (1 <= w)%Z -> in_s w z -> swrap w z = z.
Proof.
  intros ? Hz. unfold in_s, swrap in *.
  assert (2 ^ w = 2 * 2 ^ (w - 1))%Z as Hw.
  { rewrite <- Z.pow_succ_r by lia. f_equal. lia. }
  rewrite Z.mod_small by lia. lia.
Qed.
(** Reinterpreting a signed value as unsigned and back is the identity. *)
Lemma swrap_uwrap w z : (1 <= w)%Z -> swrap w (uwrap w z) = swrap w z.
Proof.
  intros ?. unfold swrap, uwrap. rewrite Zplus_mod_idemp_l. done.
Qed.

Lemma index_lookup {E A} (l : list A) i x :
  l !! i = Some x -> @index E A l (Z.of_nat i) = Ok x.
Proof.
  intros Hi. unfold index. rewrite bool_decide_eq_true_2 by lia.
  by rewrite Nat2Z.id, Hi.
Qed.

Lemma slice_to_app {E A} (l k : list A) :
  @slice_to E A (l ++ k) (zlen l) = Ok l.
Proof.
  unfold slice_to. rewrite bool_decide_eq_true_2.
  - unfold zlen. by rewrite Nat2Z.id, take_app_length.
  - rewrite zlen_app. pose proof (zlen_nonneg l). pose proof (zlen_nonneg k). lia.
Qed.
Lemma slice_from_app {E A} (l k : list A) :
  @slice_from E A (l ++ k) (zlen l) = Ok k.
Proof.
  unfold slice_from. rewrite bool_decide_eq_true_2.
  - unfold zlen. by rewrite Nat2Z.id, drop_app_length.
  - rewrite zlen_app. pose proof (zlen_nonneg l). pose proof (zlen_nonneg k). lia.
Qed.

Lemma res_mapM_map {E A B C} (f : B -> res E C) (g : A -> B) l :
  res_mapM f (map g l) = res_mapM (fun x => f (g x)) l.
Proof. induction l as [|x l IH]; simpl; [done|]. by rewrite IH. Qed.

Lemma res_mapM_ok {E A B} (f : A -> res E B) (g : A -> B) l :
  Forall (fun x => f x = Ok (g x)) l -> res_mapM f l = Ok (map g l).
Proof. induction 1 as [|x l Hx _ IH]; simpl; [done|]. by rewrite Hx, IH. Qed.

Lemma res_bind_Ok {E A B} (m : res E A) (f : A -> res E B) b :
  (x ← m; f x) = Ok b <-> exists a, m = Ok a /\ f a = Ok b.
Proof. destruct m as [a| |]; cbn; split; [by eauto|by intros (? & [= <-] & ?)|done|by intros (? & [=] & _)|done|by intros (? & [=] & _)]. Qed.
Lemma elem_of_snoc_l {A} (x y : A) l : x ∈ l -> x ∈ l ++ [y].
Proof. intros. apply elem_of_app. by left. Qed.
Lemma elem_of_snoc_r {A} (x : A) l : x ∈ l ++ [x].
Proof. apply elem_of_app. right. by apply list_elem_of_singleton. Qed.
Lemma elem_of_snoc {A} (x y : A) l : x ∈ l ++ [y] <-> x ∈ l \/ x = y.
Proof. by rewrite elem_of_app, list_elem_of_singleton. Qed.

(** A function with distinct values on a list tells its elements apart. *)
Lemma NoDup_map_inj {A B} (f : A -> B) l x y :
  NoDup (map f l) -> x ∈ l -> y ∈ l -> f x = f y -> x = y.
Proof.
  induction l as [|z l IH]; cbn; [by intros _ ?%elem_of_nil|].
  intros [Hz Hnd]%NoDup_cons [-> |Hx]%elem_of_cons [-> |Hy]%elem_of_cons E; auto; destruct Hz.
  - rewrite E. by apply (list_elem_of_fmap_2 f).
  - rewrite <- E. by apply (list_elem_of_fmap_2 f).
Qed.

(** ** Automation *)

Create HintDb go discriminated.
#[export] Hint Resolve zlen_nonneg uwrap_range swrap_range elem_of_snoc_l elem_of_snoc_r : go.

(** Case analysis on the conditional or match at the head of the goal, or in a
    hypothesis that equates it with a result. *)
Ltac go_step :=
  match goal with
  | H : Ok _ = Ok _ |- _ => injection H; clear H; intros; subst
  | H : Err _ = Err _ |- _ => injection H; clear H; intros; subst
  | H : Some _ = Some _ |- _ => injection H; clear H; intros; subst
  | H : Ok _ = Err _ |- _ => discriminate H
  | H : Ok _ = Panic |- _ => discriminate H
  | H : Err _ = Ok _ |- _ => discriminate H
  | H : Err _ = Panic |- _ => discriminate H
  | H : Panic = Ok _ |- _ => discriminate H
  | H : Panic = Err _ |- _ => discriminate H
  | H : Some _ = None |- _ => discriminate H
  | H : None = Some _ |- _ => discriminate H
  | H : bool_decide _ = true |- _ => apply bool_decide_eq_true_1 in H
  | H : bool_decide _ = false |- _ => apply bool_decide_eq_false_1 in H
  | H : _ /\ _ |- _ => destruct H
  | H : exists _, _ |- _ => destruct H
  end.
Ltac go_simp := repeat (go_step || (progress simpl in *)).

(** Split a chain of binds that succeeded. *)
Ltac bind_ok H :=
  repeat (let a := fresh "a" in let E := fresh "E" in apply res_bind_Ok in H as (a & E & H); cbn beta in H).

(** Split every [match]/[if] of a hypothesis, closing impossible branches. *)
Ltac go_destruct H :=
  repeat (match type of H with
          | context [match ?x with _ => _ end] =>
              let E := fresh "E" in destruct x eqn:E; try discriminate H
          end; go_simp).
