(* ===== verification/Bytes.v ===== *)
(** * Byte slices: [encoding/binary] and Go strings

    [be_put n]/[be_get] are [binary.BigEndian.PutUintM]/[UintM] with [M = 8 n],
    [le_put]/[le_get] the [LittleEndian] ones.  A Go [string] is a byte sequence;
    it is a [string] here, and [bytes_of_string]/[string_of_bytes] are the
    conversions [[]byte(s)] and [string(b)]. *)

From S2P Require Import Prelude.
Local Open Scope Z_scope.

Fixpoint be_put (n : nat) (v : Z) : bytes :=
  match n with
  | O => []
  | S m => u8 (Z.shiftr v (8 * Z.of_nat m)) :: be_put m v
  end.

Fixpoint be_get_acc (acc : Z) (b : bytes) : Z :=
  match b with
  | [] => acc
  | x :: b' => be_get_acc (Z.lor (Z.shiftl acc 8) x) b'
  end.
Definition be_get (b : bytes) : Z := be_get_acc 0 b.

Definition le_put (n : nat) (v : Z) : bytes := reverse (be_put n v).
Definition le_get (b : bytes) : Z := be_get (reverse b).

(** [binary.BigEndian.UintM(b)]: panics when [b] is shorter than [n] bytes. *)
Definition be_uint {E} (n : nat) (b : bytes) : res E Z :=
  if (length b <? n)%nat then Panic else Ok (be_get (take n b)).
Definition le_uint {E} (n : nat) (b : bytes) : res E Z :=
  if (length b <? n)%nat then Panic else Ok (le_get (take n b)).

Definition byte_of_ascii (a : Ascii.ascii) : Z := Z.of_N (Ascii.N_of_ascii a).
Definition ascii_of_byte (b : Z) : Ascii.ascii := Ascii.ascii_of_N (Z.to_N b).

Fixpoint bytes_of_string (s : string) : bytes :=
  match s with
  | EmptyString => []
  | String a s' => byte_of_ascii a :: bytes_of_string s'
  end.
Fixpoint string_of_bytes (b : bytes) : string :=
  match b with
  | [] => EmptyString
  | x :: b' => String (ascii_of_byte x) (string_of_bytes b')
  end.

(** [for i := range vals { vals[i] = get(rest[i*w:]) }]: [k] fixed-width
    elements read off the front of a buffer, with the panic of a short read. *)
Fixpoint read_elems {E} (w : nat) (dec : Z -> Z) (k : nat) (b : bytes) : res E (list Z) :=
  match k with
  | O => Ok []
  | S k' =>
      v ← be_uint w b;
      vs ← read_elems w dec k' (drop w b);
      Ok (dec v :: vs)
  end.

(** ** Lemmas *)

Lemma length_be_put n v : length (be_put n v) = n.
Proof. induction n; simpl; congruence. Qed.
Lemma zlen_be_put n v : zlen (be_put n v) = Z.of_nat n.
Proof. unfold zlen. by rewrite length_be_put. Qed.
Lemma be_put_ok n v : bytes_ok (be_put n v).
Proof. induction n; simpl; constructor; auto. apply uwrap_range. lia. Qed.

(** [a << k | b] for a [b] of at most [k] bits is [a * 2^k + b]. *)
Lemma lor_shiftl_low k a b :
  0 <= k -> in_u k b -> Z.lor (Z.shiftl a k) b = a * 2 ^ k + b.
Proof.
  intros Hk [Hb0 Hb1].
  assert (Z.land (Z.shiftl a k) b = 0) as Hland.
  { apply Z.bits_inj'. intros i Hi. rewrite Z.land_spec, Z.bits_0.
    destruct (Z.ltb_spec i k); [by rewrite Z.shiftl_spec_low|].
    destruct (decide (b = 0)) as [->|]; [by rewrite Z.bits_0, andb_false_r|].
    assert (Z.log2 b < k) by (apply Z.log2_lt_pow2; lia).
    rewrite (Z.bits_above_log2 b) by lia. by rewrite andb_false_r. }
  rewrite <- Z.lxor_lor, <- Z.add_nocarry_lxor by done.
  by rewrite Z.shiftl_mul_pow2.
Qed.
Lemma lor_shiftl_byte acc b :
  in_u 8 b -> Z.lor (Z.shiftl acc 8) b = acc * 256 + b.
Proof. intros Hb. by rewrite lor_shiftl_low. Qed.

Lemma be_get_acc_lin acc b :
  bytes_ok b -> be_get_acc acc b = acc * 2 ^ (8 * zlen b) + be_get b.
Proof.
  intros Hb. unfold be_get. revert acc. induction Hb as [|x b Hx _ IH]; intros acc.
  - unfold zlen. simpl. lia.
  - cbn [be_get_acc]. rewrite (IH (Z.lor (Z.shiftl acc 8) x)), (IH (Z.lor (Z.shiftl 0 8) x)).
    rewrite !lor_shiftl_byte by done. rewrite zlen_cons. replace (8 * (1 + zlen b)) with (8 + 8 * zlen b) by lia.
    rewrite Z.pow_add_r; pose proof (zlen_nonneg b); lia.
Qed.

Lemma be_get_cons x b :
  bytes_ok b -> be_get (x :: b) = x * 2 ^ (8 * zlen b) + be_get b.
Proof. intros Hb. unfold be_get at 1. simpl. by rewrite be_get_acc_lin. Qed.

Lemma be_get_range b : bytes_ok b -> 0 <= be_get b < 2 ^ (8 * zlen b).
Proof.
  induction 1 as [|x b [Hx0 Hx1] Hb IH]; [done|].
  rewrite be_get_cons by done. rewrite zlen_cons.
  replace (8 * (1 + zlen b)) with (8 + 8 * zlen b) by lia.
  rewrite Z.pow_add_r by (pose proof (zlen_nonneg b); lia). nia.
Qed.

(** Decoding what was encoded gives the value back, cut to the width. *)
Lemma be_get_put n v : be_get (be_put n v) = v mod 2 ^ (8 * Z.of_nat n).
Proof.
  induction n as [|n IH]; [by rewrite Z.mod_1_r|].
  simpl be_put. rewrite be_get_cons by apply be_put_ok.
  rewrite zlen_be_put, IH. unfold uwrap. rewrite Z.shiftr_div_pow2 by lia.
  replace (8 * Z.of_nat (S n)) with (8 * Z.of_nat n + 8) by lia.
  rewrite Z.pow_add_r, Z.rem_mul_r by lia. lia.
Qed.

Lemma be_put_get b : bytes_ok b -> be_put (length b) (be_get b) = b.
Proof.
  intros Hb. induction Hb as [|x b Hx Hb IH]; [done|]. simpl.
  assert (Hgen : forall n v k, be_put n (v + k * 2 ^ (8 * Z.of_nat n)) = be_put n v).
  { clear. induction n as [|n IHn]; intros v k; [done|]. simpl. f_equal.
    - unfold uwrap. rewrite !Z.shiftr_div_pow2 by lia.
      replace (8 * Z.of_nat (S n)) with (8 + 8 * Z.of_nat n) by lia.
      rewrite Z.pow_add_r by lia.
      replace (k * (2 ^ 8 * 2 ^ (8 * Z.of_nat n)))
        with ((k * 2 ^ 8) * 2 ^ (8 * Z.of_nat n)) by lia.
      rewrite Z.div_add by lia. apply Z.mod_add. lia.
    - replace (8 * Z.of_nat (S n)) with (8 + 8 * Z.of_nat n) by lia.
      rewrite Z.pow_add_r, Z.mul_assoc by lia. apply IHn. }
  rewrite be_get_cons by done. f_equal.
  - rewrite Z.shiftr_div_pow2 by lia. unfold zlen.
    rewrite Z.add_comm, Z.div_add, Z.div_small
      by (apply be_get_range in Hb; unfold zlen in Hb; lia).
    by apply uwrap_id.
  - rewrite Z.add_comm. unfold zlen. by rewrite Hgen.
Qed.

Lemma be_uint_app {E} n v rest :
  @be_uint E n (be_put n v ++ rest) = Ok (v mod 2 ^ (8 * Z.of_nat n)).
Proof.
  unfold be_uint. rewrite length_app, length_be_put.
  destruct (Nat.ltb_spec (n + length rest) n); [lia|].
  by rewrite take_app_length', be_get_put by (by rewrite length_be_put).
Qed.

Lemma le_get_put n v : le_get (le_put n v) = v mod 2 ^ (8 * Z.of_nat n).
Proof. unfold le_get, le_put. by rewrite reverse_involutive, be_get_put. Qed.
Lemma length_le_put n v : length (le_put n v) = n.
Proof. unfold le_put. by rewrite length_reverse, length_be_put. Qed.

Lemma be_uint_total {E} n b : (n <= length b)%nat -> exists v, @be_uint E n b = Ok v.
Proof. intros ?. unfold be_uint. destruct (Nat.ltb_spec (length b) n); [lia|eauto]. Qed.

Lemma read_elems_total {E} w dec k b :
  (k * w <= length b)%nat -> exists vs, @read_elems E w dec k b = Ok vs /\ length vs = k.
Proof.
  revert b. induction k as [|k IH]; intros b Hk; simpl; [eauto|].
  destruct (@be_uint_total E w b) as [v ->]; [lia|]. simpl.
  destruct (IH (drop w b)) as (vs & -> & <-); [rewrite length_drop; lia|].
  simpl. eauto.
Qed.

Lemma read_elems_put {E} w dec (enc : Z -> Z) vs rest :
  Forall (fun v => dec (enc v mod 2 ^ (8 * Z.of_nat w)) = v) vs ->
  @read_elems E w dec (length vs) (concat (map (fun v => be_put w (enc v)) vs) ++ rest)
  = Ok vs.
Proof.
  induction 1 as [|v vs Hv _ IH]; simpl; [done|].
  rewrite <- app_assoc, be_uint_app. simpl.
  rewrite drop_app_length' by (by rewrite length_be_put). rewrite IH. simpl. by rewrite Hv.
Qed.

Lemma be_uint_range {E} n b v :
  bytes_ok b -> @be_uint E n b = Ok v -> in_u (8 * Z.of_nat n) v.
Proof.
  intros Hb H. unfold be_uint in H. destruct (Nat.ltb_spec (length b) n); [done|].
  injection H as <-. unfold in_u.
  pose proof (be_get_range (take n b)) as Hr. unfold zlen in Hr.
  rewrite length_take, Nat.min_l in Hr by lia. apply Hr. by apply Forall_take.
Qed.

Lemma read_elems_range {E} w dec (P : Z -> Prop) k b vs :
  (forall v, in_u (8 * Z.of_nat w) v -> P (dec v)) -> bytes_ok b ->
  @read_elems E w dec k b = Ok vs -> Forall P vs.
Proof.
  intros HP. revert b vs. induction k as [|k IH]; intros b vs Hb H; simpl in H.
  - injection H as <-. constructor.
  - destruct (be_uint w b) as [v| |] eqn:Ev; try discriminate. simpl in H.
    destruct (read_elems w dec k (drop w b)) as [vs'| |] eqn:E'; try discriminate.
    simpl in H. injection H as <-.
    constructor; eauto using be_uint_range, Forall_drop.
Qed.

Lemma byte_of_ascii_range a : in_u 8 (byte_of_ascii a).
Proof. unfold in_u, byte_of_ascii. pose proof (Ascii.N_ascii_bounded a). lia. Qed.
Lemma ascii_of_byte_of_ascii a : ascii_of_byte (byte_of_ascii a) = a.
Proof. unfold ascii_of_byte, byte_of_ascii. by rewrite N2Z.id, Ascii.ascii_N_embedding. Qed.
Lemma byte_of_ascii_of_byte b : in_u 8 b -> byte_of_ascii (ascii_of_byte b) = b.
Proof.
  intros Hb. unfold ascii_of_byte, byte_of_ascii, in_u in *.
  rewrite Ascii.N_ascii_embedding; lia.
Qed.
Lemma bytes_of_string_ok s : bytes_ok (bytes_of_string s).
Proof. induction s; simpl; constructor; auto using byte_of_ascii_range. Qed.
Lemma string_of_bytes_of_string s : string_of_bytes (bytes_of_string s) = s.
Proof. induction s; simpl; [done|]. by rewrite ascii_of_byte_of_ascii, IHs. Qed.
Lemma bytes_of_string_of_bytes b : bytes_ok b -> bytes_of_string (string_of_bytes b) = b.
Proof. induction 1; simpl; [done|]. by rewrite byte_of_ascii_of_byte, IHForall. Qed.
Lemma length_string_of_bytes b : String.length (string_of_bytes b) = length b.
Proof. induction b; simpl; congruence. Qed.
Lemma length_bytes_of_string s : length (bytes_of_string s) = String.length s.
Proof. induction s; simpl; congruence. Qed.

Lemma bytes_of_string_app s t : bytes_of_string (s +:+ t) = bytes_of_string s ++ bytes_of_string t.
Proof. induction s as [|a s IH]; cbn; [done|by rewrite <- IH]. Qed.
#[export] Hint Resolve be_put_ok bytes_of_string_ok byte_of_ascii_range : go.
Create Rewrite HintDb zlen.
#[export] Hint Rewrite @zlen_app @zlen_cons @zlen_nil zlen_be_put @zlen_map : zlen.
