(* ===== verification/GoStd.v ===== *)
(** * What the sources use of Go's standard library

    [strconv.ParseInt], [fmt.Sprintf("%020d")], the decimal form [encoding/json]
    gives an int64, [strings.TrimSuffix] and [encoding/base64]'s [StdEncoding],
    over byte slices. *)

From stdpp Require Import sorting.
From S2P Require Import Prelude Bytes.
Local Open Scope Z_scope.

Module gostd.

(** ** Decimal integers *)

Fixpoint digits (k : nat) (n : Z) : bytes :=
  match k with O => [] | S k' => digits k' (n / 10) ++ [48 + n mod 10] end.

(** [fmt.Sprintf("%020d", n)] for an int64: zero padded to 20 characters, sign included. *)
Definition Sprintf020 (n : Z) : bytes :=
  if n <? 0 then 45 :: digits 19 (- n) else digits 20 n.

Definition digit_val (c : Z) : option Z := if (48 <=? c) && (c <=? 57) then Some (c - 48) else None.
Fixpoint parse_digits (acc : Z) (l : bytes) : option Z :=
  match l with
  | [] => Some acc
  | c :: l' => match digit_val c with Some d => parse_digits (acc * 10 + d) l' | None => None end
  end.

(** [strconv.ParseInt(s, 10, 64)] *)
Definition ParseInt (s : bytes) : option Z :=
  let '(neg, ds) := match s with
                    | 45 :: ds => (true, ds)
                    | 43 :: ds => (false, ds)
                    | _ => (false, s)
                    end in
  match ds with
  | [] => None
  | _ => n ← parse_digits 0 ds;
         let v := if neg : bool then - n else n in
         if decide (in_s 64 v) then Some v else None
  end.

(** The decimal form without leading zeros ([strconv.AppendInt]). *)
Fixpoint strip0 (l : bytes) : bytes :=
  match l with
  | [] => []
  | [c] => [c]
  | c :: l' => if c =? 48 then strip0 l' else l
  end.
Definition FormatInt (n : Z) : bytes :=
  if n <? 0 then 45 :: strip0 (digits 19 (- n)) else strip0 (digits 19 n).

Lemma parse_digits_snoc acc l c d :
  digit_val c = Some d ->
  parse_digits acc (l ++ [c]) = (n ← parse_digits acc l; Some (n * 10 + d)).
Proof.
  intros Hc. revert acc. induction l as [|x l IH]; intros acc; cbn; [by rewrite Hc|].
  destruct (digit_val x); [apply IH|done].
Qed.
Lemma digit_val_mod n : digit_val (48 + n mod 10) = Some (n mod 10).
Proof.
  pose proof (Z.mod_pos_bound n 10). unfold digit_val.
  destruct (Z.leb_spec 48 (48 + n mod 10)), (Z.leb_spec (48 + n mod 10) 57); cbn; try lia.
  f_equal. lia.
Qed.
Lemma parse_digits_digits k n acc : 0 <= n < 10 ^ Z.of_nat k ->
  parse_digits acc (digits k n) = Some (acc * 10 ^ Z.of_nat k + n).
Proof.
  revert n. induction k as [|k IH]; intros n Hn; cbn [digits].
  - cbn in *. f_equal. lia.
  - rewrite Nat2Z.inj_succ, Z.pow_succ_r in * by lia.
    rewrite (parse_digits_snoc _ _ _ _ (digit_val_mod n)), IH; cbn.
    + f_equal. pose proof (Z.div_mod n 10). lia.
    + split; [apply Z.div_pos; lia|]. apply Z.div_lt_upper_bound; lia.
Qed.
Lemma length_digits k n : length (digits k n) = k.
Proof. revert n. induction k as [|k IH]; intros n; cbn; [done|]. rewrite length_app, IH. cbn. lia. Qed.
Lemma digits_range k n : Forall (fun c => 48 <= c <= 57) (digits k n).
Proof.
  revert n. induction k as [|k IH]; intros n; cbn; [done|]. apply Forall_app. split; [done|].
  pose proof (Z.mod_pos_bound n 10). constructor; [lia|done].
Qed.
Lemma parse_strip0 acc l : acc = 0 -> parse_digits acc (strip0 l) = parse_digits acc l.
Proof.
  intros ->. induction l as [|c l IH]; [done|]. destruct l as [|c' l]; [done|].
  change (strip0 (c :: c' :: l)) with (if c =? 48 then strip0 (c' :: l) else c :: c' :: l).
  destruct (Z.eqb_spec c 48) as [->|]; [|done]. by rewrite IH.
Qed.
Lemma strip0_incl l : Forall (fun c => 48 <= c <= 57) l -> Forall (fun c => 48 <= c <= 57) (strip0 l).
Proof.
  induction 1 as [|c l Hc Hl IH]; [done|]. destruct l as [|c' l]; [by constructor|].
  cbn [strip0]. destruct (c =? 48); [done|]. by constructor.
Qed.
Lemma strip0_nonempty l : l <> [] -> strip0 l <> [].
Proof.
  induction l as [|c l IH]; [done|]. intros _. destruct l as [|c' l]; [done|].
  cbn [strip0]. destruct (c =? 48); [by apply IH|done].
Qed.

Lemma sign_digit c l : 48 <= c ->
  (match c :: l with 45 :: ds => (true, ds) | 43 :: ds => (false, ds) | _ => (false, c :: l) end)
  = (false, c :: l).
Proof.
  intros. destruct (decide (c = 45)); [lia|]. destruct (decide (c = 43)); [lia|].
  destruct c as [|c|c]; try done. repeat (destruct c as [c|c|]; try done).
Qed.

Lemma ParseInt_Sprintf020 n : 0 <= n < 2 ^ 63 -> ParseInt (Sprintf020 n) = Some n.
Proof.
  intros Hn. unfold Sprintf020. destruct (Z.ltb_spec n 0); [lia|].
  pose proof (parse_digits_digits 20 n 0) as Hp. pose proof (digits_range 20 n) as Hr.
  pose proof (length_digits 20 n) as Hl.
  destruct (digits 20 n) as [|c l]; [done|]. apply Forall_cons in Hr as [Hc _].
  unfold ParseInt.
  rewrite sign_digit by lia.
  rewrite Hp by (cbn; lia). cbn. rewrite decide_True by (unfold in_s; lia). done.
Qed.

Lemma ParseInt_FormatInt n : in_s 64 n -> ParseInt (FormatInt n) = Some n.
Proof.
  intros Hn. unfold FormatInt, in_s in *. destruct (Z.ltb_spec n 0).
  - pose proof (parse_digits_digits 19 (- n) 0) as Hp. pose proof (length_digits 19 (- n)) as Hl.
    pose proof (parse_strip0 0 (digits 19 (- n)) eq_refl) as Hs.
    assert (strip0 (digits 19 (- n)) <> []) as He by (apply strip0_nonempty; by intros E; rewrite E in Hl).
    unfold ParseInt. destruct (strip0 (digits 19 (- n))) as [|c l]; [done|].
    rewrite Hs, Hp by (cbn; lia). cbn -[swrap]. rewrite decide_True by (unfold in_s; lia). f_equal. lia.
  - pose proof (parse_digits_digits 19 n 0) as Hp. pose proof (length_digits 19 n) as Hl.
    pose proof (parse_strip0 0 (digits 19 n) eq_refl) as Hs.
    pose proof (strip0_incl _ (digits_range 19 n)) as Hr.
    assert (strip0 (digits 19 n) <> []) as He by (apply strip0_nonempty; by intros E; rewrite E in Hl).
    destruct (strip0 (digits 19 n)) as [|c l]; [done|]. apply Forall_cons in Hr as [Hc _].
    unfold ParseInt. rewrite sign_digit by lia. rewrite Hs, Hp by (cbn; lia).
    cbn -[swrap]. rewrite decide_True by (unfold in_s; lia). done.
Qed.

(** ** Suffixes *)

(** Decimal forms as text: their characters, and that they tell integers apart. *)
Lemma FormatInt_range n : Forall (fun c => 45 <= c <= 57) (FormatInt n).
Proof.
  assert (forall k m, Forall (fun c => 45 <= c <= 57) (strip0 (digits k m))) as H.
  { intros k m. eapply Forall_impl; [apply strip0_incl, digits_range|]. cbn. lia. }
  unfold FormatInt. case_match; [constructor; [lia|]|]; apply H.
Qed.
Lemma FormatInt_inj n m : in_s 64 n -> in_s 64 m -> string_of_bytes (FormatInt n) = string_of_bytes (FormatInt m) -> n = m.
Proof.
  intros Hn Hm H. apply (f_equal bytes_of_string) in H.
  rewrite !bytes_of_string_of_bytes in H by (eapply Forall_impl; [apply FormatInt_range|]; cbn; unfold in_u; lia).
  apply (f_equal ParseInt) in H. rewrite !ParseInt_FormatInt in H by done. by injection H.
Qed.

(** [strings.HasSuffix(s, suf)] with [strings.TrimSuffix]: the rest when [suf] ends [s]. *)
Definition cut_suffix (suf s : bytes) : option bytes :=
  let n := (length s - length suf)%nat in
  if decide (drop n s = suf) then Some (take n s) else None.

Lemma cut_suffix_app suf s : cut_suffix suf (s ++ suf) = Some s.
Proof.
  unfold cut_suffix. rewrite length_app.
  replace (length s + length suf - length suf)%nat with (length s) by lia.
  rewrite drop_app_length, take_app_length, decide_True by done. done.
Qed.
Lemma cut_suffix_Some suf s r : cut_suffix suf s = Some r -> s = r ++ suf.
Proof.
  unfold cut_suffix. case_decide as E; [|done]. intros [= <-].
  transitivity (take (length s - length suf) s ++ drop (length s - length suf) s);
    [by rewrite take_drop|by rewrite E].
Qed.

(** ** Base 64 ([base64.StdEncoding]) *)

Definition b64char (n : Z) : Z :=
  if n <? 26 then 65 + n else if n <? 52 then 71 + n else if n <? 62 then n - 4
  else if n =? 62 then 43 else 47.
Definition b64val (c : Z) : option Z :=
  if (65 <=? c) && (c <=? 90) then Some (c - 65)
  else if (97 <=? c) && (c <=? 122) then Some (c - 71)
  else if (48 <=? c) && (c <=? 57) then Some (c + 4)
  else if c =? 43 then Some 62 else if c =? 47 then Some 63 else None.

Fixpoint EncodeToString (b : bytes) : bytes :=
  match b with
  | x :: y :: z :: b' =>
      b64char (x / 4) :: b64char (x mod 4 * 16 + y / 16) ::
      b64char (y mod 16 * 4 + z / 64) :: b64char (z mod 64) :: EncodeToString b'
  | [x; y] => [b64char (x / 4); b64char (x mod 4 * 16 + y / 16); b64char (y mod 16 * 4); 61]
  | [x] => [b64char (x / 4); b64char (x mod 4 * 16); 61; 61]
  | [] => []
  end.

(** Line breaks are ignored; padding ends the input; the padded bits are not checked. *)
Fixpoint decode_quads (s : bytes) : option bytes :=
  match s with
  | [] => Some []
  | a :: b :: c :: d :: s' =>
      a ← b64val a; b ← b64val b;
      if (c =? 61) then
        if (d =? 61) && bool_decide (s' = []) then Some [a * 4 + b / 16] else None
      else
        c ← b64val c;
        if (d =? 61) then
          if bool_decide (s' = []) then Some [a * 4 + b / 16; b mod 16 * 16 + c / 4] else None
        else
          d ← b64val d;
          r ← decode_quads s';
          Some (a * 4 + b / 16 :: b mod 16 * 16 + c / 4 :: c mod 4 * 64 + d :: r)
  | _ => None
  end.
Definition DecodeString (s : bytes) : option bytes :=
  decode_quads (filter (fun c => c <> 10 /\ c <> 13) s).

Lemma b64val_char n : 0 <= n < 64 -> b64val (b64char n) = Some n.
Proof.
  intros Hn. unfold b64char.
  destruct (Z.ltb_spec n 26); [|destruct (Z.ltb_spec n 52); [|destruct (Z.ltb_spec n 62)]].
  4: { destruct (Z.eqb_spec n 62) as [->|]; [done|]. by replace n with 63 by lia. }
  all: unfold b64val;
    repeat match goal with |- context [?a <=? ?b] => destruct (Z.leb_spec a b); try lia end;
    cbn; f_equal; lia.
Qed.
Lemma b64char_plain n : 0 <= n < 64 -> b64char n <> 61 /\ b64char n <> 10 /\ b64char n <> 13.
Proof.
  intros Hn. unfold b64char.
  destruct (Z.ltb_spec n 26); [|destruct (Z.ltb_spec n 52); [|destruct (Z.ltb_spec n 62)]];
    try (split_and!; lia).
  destruct (n =? 62); lia.
Qed.

Lemma filter_id {A} (P : A -> Prop) `{!forall x, Decision (P x)} l : Forall P l -> filter P l = l.
Proof. induction 1 as [|x l Hx Hl IH]; [done|]. by rewrite filter_cons_True, IH. Qed.

(** The encoder's output has no line breaks, so the decoder's filter keeps it. *)
Lemma encode_no_breaks b : bytes_ok b ->
  Forall (fun c => c <> 10 /\ c <> 13) (EncodeToString b).
Proof.
  revert b. fix IH 1. intros b Hb.
  assert (forall n, 0 <= n < 64 -> b64char n <> 10 /\ b64char n <> 13) as Hc
    by (intros n Hn; destruct (b64char_plain n Hn) as (_ & ? & ?); done).
  destruct b as [|x [|y [|z b]]]; cbn [EncodeToString]; [done|..];
    repeat match goal with H : bytes_ok (_ :: _) |- _ => apply Forall_cons in H as [? H] end;
    unfold in_u in *;
    repeat (apply Forall_cons; split); try (by constructor); try lia;
    try (apply Hc; Z.div_mod_to_equations; lia).
  by apply IH.
Qed.

Lemma decode_quads_encode b : bytes_ok b -> decode_quads (EncodeToString b) = Some b.
Proof.
  revert b. fix IH 1. intros b Hb.
  assert (forall n, 0 <= n < 64 -> (b64char n =? 61) = false) as Hc.
  { intros n Hn. destruct (b64char_plain n Hn) as (? & _). by apply Z.eqb_neq. }
  destruct b as [|x [|y [|z b]]]; [done|..];
    repeat match goal with H : bytes_ok (_ :: _) |- _ => apply Forall_cons in H as [? H] end;
    unfold in_u in *; cbn [EncodeToString decode_quads];
    rewrite !b64val_char by (Z.div_mod_to_equations; lia); cbn [mbind option_bind];
    rewrite ?Hc by (Z.div_mod_to_equations; lia);
    rewrite ?b64val_char by (Z.div_mod_to_equations; lia); cbn [mbind option_bind].
  - cbn. repeat f_equal. Z.div_mod_to_equations; lia.
  - cbn. repeat f_equal; Z.div_mod_to_equations; lia.
  - rewrite IH by done. cbn. repeat f_equal; Z.div_mod_to_equations; lia.
Qed.

Lemma DecodeString_EncodeToString b : bytes_ok b -> DecodeString (EncodeToString b) = Some b.
Proof.
  intros Hb. unfold DecodeString. rewrite filter_id; [by apply decode_quads_encode|].
  by apply encode_no_breaks.
Qed.
Lemma EncodeToString_ok b : bytes_ok b -> bytes_ok (EncodeToString b).
Proof.
  assert (forall n, 0 <= n < 64 -> in_u 8 (b64char n)) as Hc.
  { intros n Hn. unfold b64char, in_u. repeat case_match; lia. }
  revert b. fix IH 1. intros b Hb. destruct b as [|x [|y [|z b]]]; cbn [EncodeToString]; [done|..];
    repeat match goal with H : bytes_ok (_ :: _) |- _ => apply Forall_cons in H as [? H] end; unfold in_u in *;
    repeat (apply Forall_cons; split); try (by constructor); try lia; try (apply Hc; Z.div_mod_to_equations; lia).
  by apply IH.
Qed.

(** ** Strings and sorting ([sort.Strings], [sort.Slice] by a string key)

    Go compares strings byte by byte.  The sort is the insertion sort Go uses on short
    slices; where no two keys are equal every sort gives this result ([sortBy_perm]). *)

Fixpoint str_leb (s t : string) : bool :=
  match s, t with
  | EmptyString, _ => true
  | String _ _, EmptyString => false
  | String a s', String b t' =>
      match N.compare (Ascii.N_of_ascii a) (Ascii.N_of_ascii b) with
      | Lt => true
      | Eq => str_leb s' t'
      | Gt => false
      end
  end.

Lemma N_of_ascii_inj a b : Ascii.N_of_ascii a = Ascii.N_of_ascii b -> a = b.
Proof. intros H. rewrite <- (Ascii.ascii_N_embedding a), H. apply Ascii.ascii_N_embedding. Qed.
Lemma str_leb_total s : forall t, str_leb s t = false -> str_leb t s = true.
Proof.
  induction s as [|a s IH]; intros [|b t]; cbn; try done.
  rewrite (N.compare_antisym (Ascii.N_of_ascii a)).
  destruct (N.compare _ _); cbn; auto.
Qed.
Lemma str_leb_antisym s : forall t, str_leb s t = true -> str_leb t s = true -> s = t.
Proof.
  induction s as [|a s IH]; intros [|b t]; cbn; try done.
  rewrite (N.compare_antisym (Ascii.N_of_ascii a)).
  destruct (N.compare_spec (Ascii.N_of_ascii a) (Ascii.N_of_ascii b)) as [E| |]; cbn; try done.
  apply N_of_ascii_inj in E as ->. intros. f_equal. auto.
Qed.
Lemma str_leb_trans s : forall t u, str_leb s t = true -> str_leb t u = true -> str_leb s u = true.
Proof.
  induction s as [|a s IH]; intros [|b t] [|c u]; cbn; try done.
  destruct (N.compare_spec (Ascii.N_of_ascii a) (Ascii.N_of_ascii b)) as [E| |]; try done;
    destruct (N.compare_spec (Ascii.N_of_ascii b) (Ascii.N_of_ascii c)) as [E'| |]; try done;
    destruct (N.compare_spec (Ascii.N_of_ascii a) (Ascii.N_of_ascii c)); try done; try lia.
  eauto.
Qed.

Section sort.
Context {A : Type} (key : A -> string).
Definition key_le (x y : A) : Prop := str_leb (key x) (key y) = true.
Fixpoint insertBy (x : A) (l : list A) : list A :=
  match l with
  | [] => [x]
  | y :: l' => if str_leb (key x) (key y) then x :: l else y :: insertBy x l'
  end.
Definition sortBy (l : list A) : list A := foldr insertBy [] l.

Lemma insertBy_perm x l : insertBy x l ≡ₚ x :: l.
Proof.
  induction l as [|y l IH]; cbn; [done|]. destruct (str_leb _ _); [done|].
  rewrite IH. apply Permutation_swap.
Qed.
Lemma sortBy_permutes l : sortBy l ≡ₚ l.
Proof. induction l as [|x l IH]; cbn; [done|]. by rewrite insertBy_perm, IH. Qed.
Lemma insertBy_sorted x l : StronglySorted key_le l -> StronglySorted key_le (insertBy x l).
Proof.
  induction 1 as [|y l Hs IH Hy]; cbn; [repeat constructor|].
  destruct (str_leb (key x) (key y)) eqn:E.
  - constructor; [by constructor|]. constructor; [done|]. eapply Forall_impl; [exact Hy|].
    intros z Hz. by eapply str_leb_trans.
  - constructor; [done|]. rewrite insertBy_perm. constructor; [by apply str_leb_total|done].
Qed.
Lemma sortBy_sorted l : StronglySorted key_le (sortBy l).
Proof. induction l; cbn; [constructor|by apply insertBy_sorted]. Qed.
(** Two orders of the same elements sort alike, when the key tells the elements apart. *)
Lemma sortBy_perm l k : l ≡ₚ k -> (forall x y, x ∈ l -> y ∈ l -> key x = key y -> x = y) ->
  sortBy l = sortBy k.
Proof.
  intros Hp Hk. eapply (StronglySorted_unique_strong key_le);
    [|apply sortBy_sorted|apply sortBy_sorted|by rewrite !sortBy_permutes].
  intros x y Hx Hy Hxy Hyx. rewrite sortBy_permutes in Hx. rewrite sortBy_permutes in Hy.
  rewrite <- Hp in Hy. apply Hk; [done..|]. by apply str_leb_antisym.
Qed.
End sort.

(** A sorted list stays as it is, and a change that keeps the key keeps the order. *)
Lemma sortBy_id {A} (key : A -> string) l : StronglySorted (key_le key) l -> sortBy key l = l.
Proof.
  induction 1 as [|x l Hs IH Hx]; [done|]. change (insertBy key x (sortBy key l) = x :: l). rewrite IH. destruct l as [|y l]; [done|]. cbn. apply Forall_cons in Hx as [Hx _]. by rewrite Hx.
Qed.
Lemma sortBy_map {A B} (key : A -> string) (key' : B -> string) (f : A -> B) l : (forall x, key' (f x) = key x) ->
  sortBy key' (map f l) = map f (sortBy key l).
Proof.
  intros Hk. induction l as [|x l IH]; [done|].
  change (insertBy key' (f x) (sortBy key' (map f l)) = map f (insertBy key x (sortBy key l))). rewrite IH. generalize (sortBy key l). induction l0 as [|y k IHk]; cbn; [done|].
  rewrite !Hk. destruct (str_leb _ _); cbn; [done|]. by rewrite IHk.
Qed.

Definition sortStrings : list string -> list string := sortBy id.
Lemma sortStrings_perm l k : l ≡ₚ k -> sortStrings l = sortStrings k.
Proof. intros H. by apply sortBy_perm. Qed.

(** ** Time: instants and durations in nanoseconds *)

(** [t.Sub(u)]: the difference, saturated to an int64. *)
Definition timeSub (t u : Z) : Z := Z.max (- 2 ^ 63) (Z.min (2 ^ 63 - 1) (t - u)).
(** [time.Duration(ms) * time.Millisecond] *)
Definition millis (ms : Z) : Z := s64 (ms * 1000000).

(** Saturation does not change a comparison with a duration. *)
Lemma timeSub_le t u d : in_s 64 d -> d < 2 ^ 63 - 1 -> (timeSub t u <= d <-> t - u <= d).
Proof. unfold timeSub, in_s. lia. Qed.
Lemma timeSub_ge t u d : in_s 64 d -> - 2 ^ 63 < d -> (d <= timeSub t u <-> d <= t - u).
Proof. unfold timeSub, in_s. lia. Qed.
(** A number of milliseconds is even in nanoseconds, and so never the largest int64. *)
Lemma millis_max ms : millis ms < 2 ^ 63 - 1.
Proof.
  unfold millis, swrap. pose proof (Z.mod_pos_bound (ms * 1000000 + 2 ^ (64 - 1)) (2 ^ 64) ltac:(lia)) as H.
  pose proof (Z.div_mod (ms * 1000000 + 2 ^ (64 - 1)) (2 ^ 64) ltac:(lia)) as E.
  set (q := _ / _) in E. set (r := _ mod _) in *. lia.
Qed.
Lemma millis_range ms : in_s 64 (millis ms).
Proof. apply swrap_range. lia. Qed.

(** The text of an instant in [time.RFC3339], as the seconds it shows: the fraction of a
    second is dropped, and [time.Parse] gives the start of that second. *)
Definition FormatRFC3339 (t : Z) : Z := t / 1000000000.
Definition ParseRFC3339 (s : Z) : Z := s * 1000000000.
(** The text of a time lies less than a second before it. *)
Lemma Parse_Format_RFC3339 t : ParseRFC3339 (FormatRFC3339 t) <= t < ParseRFC3339 (FormatRFC3339 t) + 1000000000.
Proof. unfold ParseRFC3339, FormatRFC3339. Z.div_mod_to_equations. lia. Qed.

(** ** String prefixes *)

(** [strings.CutPrefix] and [strings.TrimPrefix] *)
Fixpoint CutPrefix (p s : string) : option string :=
  match p, s with
  | EmptyString, _ => Some s
  | String a p', String b s' => if decide (a = b) then CutPrefix p' s' else None
  | String _ _, EmptyString => None
  end.
Definition TrimPrefix (p s : string) : string := default s (CutPrefix p s).
(** [s[n:]], for an [n] within the length. *)
Fixpoint str_from (n : nat) (s : string) : string :=
  match n, s with S n', String _ s' => str_from n' s' | _, _ => s end.

Lemma str_app_assoc (s t u : string) : (s +:+ t) +:+ u = s +:+ t +:+ u.
Proof. induction s as [|c s IH]; [done|]. exact (f_equal (String c) IH). Qed.
Lemma str_app_nil (s : string) : s +:+ "" = s.
Proof. induction s as [|c s IH]; [done|]. exact (f_equal (String c) IH). Qed.
Lemma CutPrefix_app p s : CutPrefix p (p +:+ s) = Some s.
Proof. induction p as [|a p IH]; [done|]. simpl. by destruct (decide (a = a)). Qed.
Lemma CutPrefix_length p s r : CutPrefix p s = Some r -> String.length s = (String.length p + String.length r)%nat.
Proof.
  revert s. induction p as [|a p IH]; intros s; [by intros [= ->]|].
  destruct s as [|b s]; [done|]. simpl. destruct (decide (a = b)); [|done]. intros ->%IH. done.
Qed.
Lemma str_from_length n s : (n <= String.length s)%nat -> String.length (str_from n s) = (String.length s - n)%nat.
Proof. revert s. induction n as [|n IH]; intros [|a s]; cbn; intros; try lia. rewrite IH; lia. Qed.
End gostd.
