(* ===== verification/Float.v ===== *)
(** * float64 and float32

    IEEE 754 binary64 arithmetic as the Standard Library's executable specification
    computes it (round to nearest even), with Go's conversions from and to integers,
    [math.Float64bits]/[Float64frombits] and the 32-bit pair.  The lemmas say when a
    conversion is exact. *)

From Stdlib Require Import SpecFloat.
From S2P Require Import Prelude.
Local Open Scope Z_scope.

Module float.

Definition float64 : Type := spec_float.

Definition fadd : float64 -> float64 -> float64 := SFadd 53 1024.
Definition fsub : float64 -> float64 -> float64 := SFsub 53 1024.
Definition fmul : float64 -> float64 -> float64 := SFmul 53 1024.
Definition fdiv : float64 -> float64 -> float64 := SFdiv 53 1024.
Definition fsqrt : float64 -> float64 := SFsqrt 53 1024.
Definition flt (x y : float64) : bool := SFltb x y.
Definition fle (x y : float64) : bool := SFleb x y.
Definition fzero : float64 := S754_zero false.

(** [float64(i)] *)
Definition of_Z (z : Z) : float64 := binary_normalize 53 1024 z 0 false.

(** The integer part, towards zero ([None]: NaN or infinite). *)
Definition trunc (f : float64) : option Z :=
  match f with
  | S754_zero _ => Some 0
  | S754_finite s m e =>
      let z := if 0 <=? e then Z.pos m * 2 ^ e else Z.pos m / 2 ^ (- e) in
      Some (if s then - z else z)
  | _ => None
  end.
(** [int64(f)]: out of range the result is the processor's (the least int64 on amd64). *)
Definition to_int64 (f : float64) : Z :=
  match trunc f with
  | Some z => if bool_decide (in_s 64 z) then z else - 2 ^ 63
  | None => - 2 ^ 63
  end.
(** [math.Floor], [math.Ceil] of a finite value, as integers. *)
Definition floor_Z (f : float64) : option Z :=
  match f with
  | S754_zero _ => Some 0
  | S754_finite s m e =>
      let z := if s then Z.neg m else Z.pos m in
      Some (if 0 <=? e then z * 2 ^ e else z / 2 ^ (- e))
  | _ => None
  end.
Definition ceil_Z (f : float64) : option Z := Z.opp <$> floor_Z (SFopp f).

(** ** Bit patterns: [w]-bit floats with a [t]-bit trailing significand *)

Section bits.
Context (t ew : Z).                       (* trailing significand and exponent widths *)
Definition bprec : Z := t + 1.
Definition bemax : Z := 2 ^ (ew - 1).
Definition of_bits (b : Z) : spec_float :=
  let s := Z.testbit b (t + ew) in
  let e := Z.shiftr b t mod 2 ^ ew in
  let m := b mod 2 ^ t in
  if e =? 0 then
    match m with Z.pos p => S754_finite s p (emin bprec bemax) | _ => S754_zero s end
  else if e =? 2 ^ ew - 1 then (if m =? 0 then S754_infinity s else S754_nan)
  else S754_finite s (Z.to_pos (m + 2 ^ t)) (e - 1 + emin bprec bemax).
Definition sign_bit (s : bool) : Z := if s then 2 ^ (t + ew) else 0.
Definition to_bits (f : spec_float) : Z :=
  match f with
  | S754_zero s => sign_bit s
  | S754_infinity s => sign_bit s + (2 ^ ew - 1) * 2 ^ t
  | S754_nan => (2 ^ ew - 1) * 2 ^ t + 2 ^ (t - 1) + 1
  | S754_finite s m e =>
      sign_bit s + (if Z.pos m <? 2 ^ t then Z.pos m
                    else (e - emin bprec bemax + 1) * 2 ^ t + (Z.pos m - 2 ^ t))
  end.
End bits.
Definition Float64frombits : Z -> float64 := of_bits 52 11.
Definition Float64bits : float64 -> Z := to_bits 52 11.
Definition float32 : Type := spec_float.
Definition Float32frombits : Z -> float32 := of_bits 23 8.
Definition Float32bits : float32 -> Z := to_bits 23 8.

(** [float64(x)] of a float32 and [float32(x)] of a float64. *)
Definition convert (prec emx : Z) (f : spec_float) : spec_float :=
  match f with
  | S754_finite s m e => binary_normalize prec emx (cond_Zopp s (Z.pos m)) e s
  | _ => f
  end.
Definition of_float32 (f : float32) : float64 := convert 53 1024 f.
Definition to_float32 (f : float64) : float32 := convert 24 128 f.

(** ** Exact conversions *)

Lemma digits2_bound p : 2 ^ (Z.pos (digits2_pos p) - 1) <= Z.pos p < 2 ^ Z.pos (digits2_pos p).
Proof.
  induction p as [p IH|p IH|]; cbn [digits2_pos]; [| |cbn; lia].
  all: rewrite Pos2Z.inj_succ; replace (Z.succ (Z.pos (digits2_pos p)) - 1) with (Z.pos (digits2_pos p)) by lia;
    rewrite Z.pow_succ_r by lia;
    assert (2 ^ Z.pos (digits2_pos p) = 2 * 2 ^ (Z.pos (digits2_pos p) - 1)) as E
      by (rewrite <- Z.pow_succ_r by lia; f_equal; lia); lia.
Qed.
Lemma digits2_le p k : 0 <= k -> Z.pos p < 2 ^ k -> Z.pos (digits2_pos p) <= k.
Proof.
  intros Hk Hp. pose proof (digits2_bound p) as [Hb _].
  destruct (Z.le_gt_cases (Z.pos (digits2_pos p)) k) as [|Hgt]; [done|].
  assert (2 ^ k <= 2 ^ (Z.pos (digits2_pos p) - 1)) by (apply Z.pow_le_mono_r; lia). lia.
Qed.
Lemma digits2_shift m d : digits2_pos (Pos.iter xO m d) = (digits2_pos m + d)%positive.
Proof.
  induction d as [|d IH] using Pos.peano_ind; cbn; [lia|]. rewrite Pos.iter_succ. cbn. rewrite IH. lia.
Qed.
Lemma iter_xO m d : Z.pos (Pos.iter xO m d) = Z.pos m * 2 ^ Z.pos d.
Proof.
  induction d as [|d IH] using Pos.peano_ind; [cbn; lia|]. rewrite Pos.iter_succ.
  rewrite Pos2Z.inj_xO, IH, Pos2Z.inj_succ, Z.pow_succ_r by lia. lia.
Qed.

(** A canonical mantissa is rounded to itself. *)
Lemma round_aux_canonical prec emx s m e :
  fexp prec emx (Z.pos (digits2_pos m) + e) = e -> e <= emx - prec ->
  binary_round_aux prec emx s (Z.pos m) e loc_Exact = S754_finite s m e.
Proof.
  intros Hf He. unfold binary_round_aux, shr_fexp. cbn [Zdigits2]. rewrite Hf, Z.sub_diag. cbn.
  unfold shr_fexp. cbn [Zdigits2]. rewrite Hf, Z.sub_diag. cbn. apply Z.leb_le in He. by rewrite He.
Qed.
(** A value that fits the format is only rescaled. *)
Lemma normalize_exact prec emx s m e :
  2 <= emx -> Z.pos (digits2_pos m) <= prec -> emin prec emx <= e -> Z.pos (digits2_pos m) + e <= emx ->
  exists d : Z, 0 <= d /\ exists m', Z.pos m' = Z.pos m * 2 ^ d /\
    binary_round prec emx s m e = S754_finite s m' (e - d) /\
    e - d = fexp prec emx (Z.pos (digits2_pos m) + e).
Proof.
  intros H2 Hd He Hx.
  unfold binary_round, shl_align. set (ex := fexp prec emx (Z.pos (digits2_pos m) + e)).
  assert (ex <= e) as Hle by (unfold ex, fexp; lia).
  assert (ex <= emx - prec) as Hm by (unfold ex, fexp; unfold emin in *; lia).
  destruct (ex - e) as [|p|d] eqn:Ed; [|lia|].
  - exists 0. split; [lia|]. exists m. rewrite Z.sub_0_r, Z.pow_0_r. split_and!; [lia| |lia].
    apply round_aux_canonical; [fold ex; lia|lia].
  - exists (Z.pos d). split; [lia|]. exists (Pos.iter xO m d). split_and!; [apply iter_xO| |lia].
    replace (e - Z.pos d) with ex by lia. apply round_aux_canonical; [|done].
    rewrite digits2_shift, Pos2Z.inj_add. unfold ex at 2. f_equal. lia.
Qed.

(** Integers below 2^53 in magnitude are exact. *)
Lemma trunc_round s p : Z.pos p < 2 ^ 53 ->
  trunc (binary_round 53 1024 s p 0) = Some (if s then Z.neg p else Z.pos p).
Proof.
  intros Hz. destruct (normalize_exact 53 1024 s p 0) as (d & Hd & m' & Em & En & _);
    [lia|apply digits2_le; lia|done|pose proof (digits2_le p 53); lia|].
  rewrite En. unfold trunc. rewrite Em. replace (0 - d) with (- d) by lia. replace (- - d) with d by lia.
  assert ((if 0 <=? - d then Z.pos p * 2 ^ d * 2 ^ (- d) else Z.pos p * 2 ^ d / 2 ^ d) = Z.pos p) as ->; [|by destruct s].
  destruct (Z.leb_spec 0 (- d)); [replace d with 0 by lia; cbn; lia|]. apply Z.div_mul. lia.
Qed.
Lemma trunc_of_Z z : - 2 ^ 53 < z < 2 ^ 53 -> trunc (of_Z z) = Some z.
Proof. intros Hz. destruct z as [|p|p]; [done|apply (trunc_round false); lia|apply (trunc_round true); lia]. Qed.
Lemma to_int64_of_Z z : - 2 ^ 53 < z < 2 ^ 53 -> to_int64 (of_Z z) = z.
Proof.
  intros Hz. unfold to_int64. rewrite trunc_of_Z by done. rewrite bool_decide_eq_true_2; [done|].
  unfold in_s. lia.
Qed.

(** ** Bit patterns round-trip *)

Section bits_facts.
Context (t ew : Z) (Ht : 2 <= t) (Hew : 2 <= ew).
Abbreviation e0 := (emin (bprec t) (bemax ew)).

(** The fields of a bit pattern. *)
Lemma bits_split s e m : 0 <= m < 2 ^ t -> 0 <= e < 2 ^ ew ->
  let b := sign_bit t ew s + e * 2 ^ t + m in
  b mod 2 ^ t = m /\ Z.shiftr b t mod 2 ^ ew = e /\ Z.testbit b (t + ew) = s.
Proof.
  intros Hm He b.
  assert (2 ^ (t + ew) = 2 ^ t * 2 ^ ew) as Ep by (apply Z.pow_add_r; lia).
  assert (0 < 2 ^ t) as Hpt by (apply Z.pow_pos_nonneg; lia).
  assert (0 < 2 ^ ew) as Hpe by (apply Z.pow_pos_nonneg; lia).
  assert (b = (((if s then 1 else 0) * 2 ^ ew + e) * 2 ^ t + m)) as Eb
    by (unfold b, sign_bit; destruct s; rewrite ?Ep; ring).
  assert (b / 2 ^ t = (if s then 1 else 0) * 2 ^ ew + e) as Ed.
  { rewrite Eb, Z.div_add_l, (Z.div_small m), Z.add_0_r by lia. done. }
  split_and!.
  - rewrite Eb, Z.add_comm, Z.mod_add by lia. by apply Z.mod_small.
  - rewrite Z.shiftr_div_pow2, Ed by lia. rewrite Z.add_comm, Z.mod_add by lia. by apply Z.mod_small.
  - rewrite Z.testbit_odd, Z.shiftr_div_pow2, Ep by lia. rewrite <- Z.div_div by lia.
    rewrite Ed, Z.div_add_l, (Z.div_small e), Z.add_0_r by lia. by destruct s.
Qed.

(** A number of the format is the pattern's: canonical mantissa, exponent in range. *)
Lemma of_bits_fields s e m : 0 <= m < 2 ^ t -> 0 <= e < 2 ^ ew ->
  of_bits t ew (sign_bit t ew s + e * 2 ^ t + m) =
  if e =? 0 then match m with Z.pos p => S754_finite s p e0 | _ => S754_zero s end
  else if e =? 2 ^ ew - 1 then (if m =? 0 then S754_infinity s else S754_nan)
  else S754_finite s (Z.to_pos (m + 2 ^ t)) (e - 1 + e0).
Proof.
  intros Hm He. destruct (bits_split s e m Hm He) as (H1 & H2 & H3). unfold of_bits. by rewrite H1, H2, H3.
Qed.

Lemma of_to_bits f : valid_binary (bprec t) (bemax ew) f = true -> of_bits t ew (to_bits t ew f) = f.
Proof.
  assert (0 < 2 ^ t) as Hpt by (apply Z.pow_pos_nonneg; lia).
  assert (4 <= 2 ^ ew) as Hpe by (change 4 with (2 ^ 2); apply Z.pow_le_mono_r; lia).
  assert (2 ^ ew = 2 * bemax ew) as Ebm by (unfold bemax; rewrite <- Z.pow_succ_r by lia; f_equal; lia).
  intros Hv. destruct f as [s|s| |s m e]; cbn [to_bits].
  - transitivity (of_bits t ew (sign_bit t ew s + 0 * 2 ^ t + 0)); [f_equal; lia|].
    by rewrite of_bits_fields by lia.
  - transitivity (of_bits t ew (sign_bit t ew s + (2 ^ ew - 1) * 2 ^ t + 0)); [f_equal; lia|].
    rewrite of_bits_fields by lia. destruct (Z.eqb_spec (2 ^ ew - 1) 0); [lia|]. by rewrite Z.eqb_refl.
  - assert (2 ^ t = 2 * 2 ^ (t - 1)) as Eh by (rewrite <- Z.pow_succ_r by lia; f_equal; lia).
    assert (2 <= 2 ^ (t - 1)) by (change 2 with (2 ^ 1) at 1; apply Z.pow_le_mono_r; lia).
    transitivity (of_bits t ew (sign_bit t ew false + (2 ^ ew - 1) * 2 ^ t + (2 ^ (t - 1) + 1))); [f_equal; cbn; lia|].
    rewrite of_bits_fields by lia. destruct (Z.eqb_spec (2 ^ ew - 1) 0); [lia|]. rewrite Z.eqb_refl.
    destruct (Z.eqb_spec (2 ^ (t - 1) + 1) 0); [lia|done].
  - cbn in Hv. apply andb_true_iff in Hv as [Hc He]. unfold canonical_mantissa in Hc.
    apply Z.eqb_eq in Hc. apply Z.leb_le in He. unfold fexp in Hc. unfold bprec in Hc, He.
    pose proof (digits2_bound m) as [Hlo Hhi].
    destruct (Z.ltb_spec (Z.pos m) (2 ^ t)) as [Hs|Hs].
    + pose proof (digits2_le m t). assert (e = e0) as -> by (unfold bprec; lia).
      transitivity (of_bits t ew (sign_bit t ew s + 0 * 2 ^ t + Z.pos m)); [f_equal; lia|].
      by rewrite of_bits_fields by lia.
    + assert (Z.pos (digits2_pos m) <= t + 1) as HD by lia.
      assert (Z.pos m < 2 ^ (t + 1)) as Hm.
      { eapply Z.lt_le_trans; [exact Hhi|]. apply Z.pow_le_mono_r; lia. }
      rewrite Z.pow_add_r in Hm by lia. unfold emin in *.
      transitivity (of_bits t ew (sign_bit t ew s + (e - e0 + 1) * 2 ^ t + (Z.pos m - 2 ^ t)));
        [f_equal; unfold bprec, emin; lia|].
      rewrite of_bits_fields by (unfold bprec, emin; lia).
      destruct (Z.eqb_spec (e - e0 + 1) 0) as [E|_]; [unfold bprec, emin in E; lia|].
      destruct (Z.eqb_spec (e - e0 + 1) (2 ^ ew - 1)) as [E|_]; [unfold bprec, emin in E; lia|].
      f_equal; [|lia]. rewrite Z.sub_add. done.
Qed.

Lemma to_bits_range f : valid_binary (bprec t) (bemax ew) f = true -> 0 <= to_bits t ew f < 2 ^ (t + ew + 1).
Proof.
  assert (0 < 2 ^ t) as Hpt by (apply Z.pow_pos_nonneg; lia).
  assert (4 <= 2 ^ ew) as Hpe by (change 4 with (2 ^ 2); apply Z.pow_le_mono_r; lia).
  assert (2 ^ ew = 2 * bemax ew) as Ebm by (unfold bemax; rewrite <- Z.pow_succ_r by lia; f_equal; lia).
  assert (2 ^ (t + ew) = 2 ^ t * 2 ^ ew) as Ep by (apply Z.pow_add_r; lia).
  assert (2 ^ (t + ew + 1) = 2 * (2 ^ t * 2 ^ ew)) as Ep1 by (rewrite Z.pow_add_r, Ep by lia; lia).
  assert (forall s x, 0 <= x < 2 ^ t * 2 ^ ew -> 0 <= sign_bit t ew s + x < 2 ^ (t + ew + 1)) as Hx
    by (intros [] x Hx; unfold sign_bit; lia).
  intros Hv. destruct f as [s|s| |s m e]; cbn [to_bits].
  - rewrite <- (Z.add_0_r (sign_bit t ew s)). apply Hx. nia.
  - apply Hx. nia.
  - assert (2 ^ t = 2 * 2 ^ (t - 1)) as Eh by (rewrite <- Z.pow_succ_r by lia; f_equal; lia).
    assert (2 <= 2 ^ (t - 1)) by (change 2 with (2 ^ 1) at 1; apply Z.pow_le_mono_r; lia). nia.
  - cbn in Hv. apply andb_true_iff in Hv as [Hc He]. unfold canonical_mantissa in Hc.
    apply Z.eqb_eq in Hc. apply Z.leb_le in He. unfold fexp in Hc. unfold bprec in Hc, He.
    pose proof (digits2_bound m) as [Hlo Hhi]. apply Hx.
    destruct (Z.ltb_spec (Z.pos m) (2 ^ t)) as [Hs|Hs]; [nia|].
    assert (Z.pos m < 2 ^ (t + 1)) as Hm.
    { eapply Z.lt_le_trans; [exact Hhi|]. apply Z.pow_le_mono_r; lia. }
    rewrite Z.pow_add_r in Hm by lia. unfold bprec, emin in *.
    assert (0 <= e - (3 - bemax ew - (t + 1)) + 1 <= 2 ^ ew - 2) as Hr by lia. nia.
Qed.

Lemma bits_fields b : 0 <= b < 2 ^ (t + ew + 1) ->
  exists s e m, b = sign_bit t ew s + e * 2 ^ t + m /\ 0 <= m < 2 ^ t /\ 0 <= e < 2 ^ ew.
Proof.
  intros Hb. assert (0 < 2 ^ t) as Hpt by (apply Z.pow_pos_nonneg; lia).
  assert (0 < 2 ^ ew) as Hpe by (apply Z.pow_pos_nonneg; lia).
  rewrite !Z.pow_add_r in Hb by lia.
  pose proof (Z.div_mod b (2 ^ t)) as Eb. pose proof (Z.mod_pos_bound b (2 ^ t) Hpt) as Hm.
  pose proof (Z.div_mod (b / 2 ^ t) (2 ^ ew)) as Eq. pose proof (Z.mod_pos_bound (b / 2 ^ t) (2 ^ ew) Hpe) as He.
  set (q := b / 2 ^ t) in *.
  assert (0 <= q / 2 ^ ew < 2) as Hs.
  { split; [apply Z.div_pos; [apply Z.div_pos; lia|lia]|]. apply Z.div_lt_upper_bound; [lia|].
    unfold q. apply Z.div_lt_upper_bound; [lia|]. lia. }
  exists (q / 2 ^ ew =? 1), (q mod 2 ^ ew), (b mod 2 ^ t). split_and!; [|lia..].
  unfold sign_bit. rewrite Z.pow_add_r by lia.
  destruct (Z.eqb_spec (q / 2 ^ ew) 1) as [E|E].
  - rewrite E in Eq. rewrite Eb at 1 by lia. rewrite Eq at 1 by lia. ring.
  - assert (q / 2 ^ ew = 0) as E0 by lia. rewrite E0 in Eq. rewrite Eb at 1 by lia. rewrite Eq at 1 by lia. ring.
Qed.

(** Every bit pattern but a NaN's is recovered. *)
Lemma to_of_bits b : 0 <= b < 2 ^ (t + ew + 1) -> of_bits t ew b <> S754_nan -> to_bits t ew (of_bits t ew b) = b.
Proof.
  intros Hb. destruct (bits_fields b Hb) as (s & e & m & -> & Hm & He). rewrite of_bits_fields by lia.
  assert (0 < 2 ^ t) as Hpt by (apply Z.pow_pos_nonneg; lia).
  destruct (Z.eqb_spec e 0) as [-> |E0].
  - intros _. destruct m as [|p|p]; [cbn; lia| |lia]. cbn [to_bits].
    destruct (Z.ltb_spec (Z.pos p) (2 ^ t)); lia.
  - destruct (Z.eqb_spec e (2 ^ ew - 1)) as [-> |E1].
    + destruct (Z.eqb_spec m 0) as [-> |]; [|done]. intros _. cbn [to_bits]. lia.
    + intros _. cbn [to_bits]. rewrite Z2Pos.id by lia. destruct (Z.ltb_spec (m + 2 ^ t) (2 ^ t)); [lia|]. lia.
Qed.
Lemma of_bits_valid b : 0 <= b < 2 ^ (t + ew + 1) -> valid_binary (bprec t) (bemax ew) (of_bits t ew b) = true.
Proof.
  intros Hb. destruct (bits_fields b Hb) as (s & e & m & -> & Hm & He). rewrite of_bits_fields by lia.
  assert (0 < 2 ^ t) as Hpt by (apply Z.pow_pos_nonneg; lia).
  assert (2 ^ ew = 2 * bemax ew) as Ebm by (unfold bemax; rewrite <- Z.pow_succ_r by lia; f_equal; lia).
  assert (4 <= 2 ^ ew) as Hpe by (change 4 with (2 ^ 2); apply Z.pow_le_mono_r; lia).
  destruct (Z.eqb_spec e 0) as [-> |E0].
  - destruct m as [|p|p]; [done| |lia]. cbn. unfold bounded, canonical_mantissa, fexp.
    pose proof (digits2_le p t). apply andb_true_iff. rewrite Z.eqb_eq, Z.leb_le. unfold emin, bprec in *. lia.
  - destruct (Z.eqb_spec e (2 ^ ew - 1)) as [-> |E1]; [by destruct (m =? 0)|].
    cbn. unfold bounded, canonical_mantissa, fexp. apply andb_true_iff. rewrite Z.eqb_eq, Z.leb_le.
    set (p := Z.to_pos (m + 2 ^ t)). assert (Z.pos p = m + 2 ^ t) as Ep by (apply Z2Pos.id; lia).
    assert (2 ^ (t + 1) = 2 * 2 ^ t) as Et by (rewrite Z.add_1_r, Z.pow_succ_r by lia; lia).
    pose proof (digits2_le p (t + 1)). pose proof (digits2_bound p) as [_ Hhi].
    assert (t < Z.pos (digits2_pos p)).
    { apply (Z.pow_lt_mono_r_iff 2); lia. }
    unfold emin, bprec in *. lia.
Qed.
End bits_facts.

(** ** float32 inside float64 *)

Lemma shr_exact d : forall m, SpecFloat.iter_pos shr_1 d (Build_shr_record (Z.pos m * 2 ^ Z.pos d) false false) =
  Build_shr_record (Z.pos m) false false.
Proof.
  assert (forall m, shr_1 (Build_shr_record (Z.pos (xO m)) false false) = Build_shr_record (Z.pos m) false false) as H1
    by done.
  assert (forall m k, Z.pos m * 2 ^ Z.pos k = Z.pos (Pos.iter xO m k)) as Hk by (intros; symmetry; apply iter_xO).
  induction d as [d IH|d IH|]; intros m; cbn [SpecFloat.iter_pos].
  - replace (Z.pos m * 2 ^ Z.pos d~1) with (Z.pos (xO (Pos.iter xO (Pos.iter xO m d) d))).
    + rewrite H1. rewrite (iter_xO (Pos.iter xO m d) d), IH, iter_xO, IH. done.
    + rewrite Pos2Z.inj_xO, !iter_xO. replace (Z.pos d~1) with (Z.pos d + Z.pos d + 1) by lia.
      rewrite !Z.pow_add_r by lia. lia.
  - replace (Z.pos m * 2 ^ Z.pos d~0) with (Z.pos (Pos.iter xO m d) * 2 ^ Z.pos d).
    + rewrite IH, iter_xO, IH. done.
    + rewrite iter_xO. replace (Z.pos d~0) with (Z.pos d + Z.pos d) by lia. rewrite Z.pow_add_r by lia. lia.
  - replace (Z.pos m * 2 ^ 1) with (Z.pos (xO m)) by lia. apply H1.
Qed.

(** Widening a float32 and narrowing it again is the identity. *)
Lemma float32_roundtrip f : valid_binary 24 128 f = true -> to_float32 (of_float32 f) = f.
Proof.
  destruct f as [s|s| |s m e]; [done..|]. cbn. unfold bounded, canonical_mantissa.
  rewrite andb_true_iff, Z.eqb_eq, Z.leb_le. intros [Hc He].
  assert (forall prec emx, binary_normalize prec emx (cond_Zopp s (Z.pos m)) e s = binary_round prec emx s m e) as Hb
    by (intros; by destruct s). rewrite Hb.
  assert (Z.pos (digits2_pos m) <= 24 /\ -149 <= e) as [HD Hlo] by (unfold fexp, emin in Hc; lia).
  destruct (normalize_exact 53 1024 s m e) as (d & Hd & m' & Em & En & Ex); [lia|lia|unfold emin; lia|lia|].
  rewrite En. unfold to_float32, convert.
  assert (forall z, binary_normalize 24 128 (cond_Zopp s (Z.pos m')) z s = binary_round 24 128 s m' z) as Hb'
    by (intros; by destruct s). rewrite Hb'.
  unfold binary_round, shl_align.
  assert (Z.pos (digits2_pos m') = Z.pos (digits2_pos m) + d) as Hdig.
  { destruct d as [|d|d]; [|assert (m' = Pos.iter xO m d) as -> by (apply (inj Z.pos); rewrite iter_xO; exact Em);
      rewrite digits2_shift; lia|lia]. rewrite Z.mul_1_r in Em. injection Em as ->. lia. }
  replace (Z.pos (digits2_pos m') + (e - d)) with (Z.pos (digits2_pos m) + e) by lia. rewrite Hc.
  replace (e - (e - d)) with d by lia.
  assert (match d with Z.neg k => (Pos.iter xO m' k, e) | _ => (m', e - d) end = (m', e - d)) as Ed by (by destruct d).
  rewrite Ed. unfold binary_round_aux, shr_fexp. cbn [Zdigits2].
  replace (Z.pos (digits2_pos m') + (e - d)) with (Z.pos (digits2_pos m) + e) by lia. rewrite Hc.
  replace (e - (e - d)) with d by lia.
  assert (shr (shr_record_of_loc (Z.pos m') loc_Exact) (e - d) d = (Build_shr_record (Z.pos m) false false, e)) as ->.
  { cbn. destruct d as [|d|d]; cbn; [|rewrite Em, shr_exact; f_equal; lia|lia].
    rewrite Z.mul_1_r in Em. rewrite Em. f_equal. lia. }
  cbn. unfold shr_fexp. cbn [Zdigits2]. rewrite Hc, Z.sub_diag. cbn. apply Z.leb_le in He. by rewrite He.
Qed.
(** Comparison is transitive. *)
Lemma fle_trans x y z : fle x y = true -> fle y z = true -> fle x z = true.
Proof.
  unfold fle, SFleb, SFcompare.
  destruct x as [[]|[]| |[] m1 e1], y as [[]|[]| |[] m2 e2], z as [[]|[]| |[] m3 e3]; try done.
  all: repeat change (Pos.compare_cont Eq ?a ?b) with (Pos.compare a b).
  all: destruct (Z.compare_spec e1 e2), (Z.compare_spec e2 e3), (Z.compare_spec e1 e3); subst; try lia; try done.
  all: destruct (Pos.compare_spec m1 m2), (Pos.compare_spec m2 m3), (Pos.compare_spec m1 m3); subst; try lia; try done.
Qed.
End float.
