(* ===== verification/Framing.v ===== *)
(** * Stream framing ([engine/nodes/framing])

    [Run]'s poll loop as a fold over what the polls return, with [extract] for each
    mode.  The theorems: extraction is stable under more input and always consumes,
    so the frames do not depend on how the stream is chunked; length-prefixed and
    delimited streams round-trip. *)

From S2P Require Import Prelude Bytes.
Local Open Scope Z_scope.

Module framing.

Inductive Mode := MDelimiter | MFixedLength | MLengthPrefix | MTimeout | MOther (s : string).
Record Config := MkConfig {
  mode : Mode; Delimiter : bytes; Length : Z; LengthPrefixBytes : Z;
  littleEndian : bool;                 (* LengthPrefixEndianness == "little" *)
  TimeoutMs : Z; MaxFrameBytes : Z
}.
Definition DefaultMaxFrameBytes : Z := 2 ^ 20.

Definition Validate (cfg : Config) : bool :=
  match mode cfg with
  | MDelimiter => bool_decide (Delimiter cfg <> [])
  | MFixedLength => 0 <? Length cfg
  | MLengthPrefix => (LengthPrefixBytes cfg =? 1) || (LengthPrefixBytes cfg =? 2) || (LengthPrefixBytes cfg =? 4)
  | MTimeout => 0 <? TimeoutMs cfg
  | MOther _ => false
  end.

(** [strings.ReplaceAll] of backslash-[c] by [x]; [pending]: a backslash was just read. *)
Fixpoint replace_escape (c x : Z) (pending : bool) (s : bytes) : bytes :=
  match s with
  | [] => if pending then [92] else []
  | y :: s' =>
      if pending && (y =? c) then x :: replace_escape c x false s'
      else (if pending then [92] else []) ++
           (if y =? 92 then replace_escape c x true s' else y :: replace_escape c x false s')
  end.
Definition unescapeDelimiter (s : bytes) : bytes :=
  replace_escape 116 9 false (replace_escape 114 13 false (replace_escape 110 10 false s)).

(** [bytes.Index] *)
Fixpoint has_prefix (p s : bytes) : bool :=
  match p, s with
  | [], _ => true
  | x :: p', y :: s' => (x =? y) && has_prefix p' s'
  | _, [] => false
  end.
Fixpoint Index (s sep : bytes) : option nat :=
  if has_prefix sep s then Some 0%nat
  else match s with
       | [] => None
       | _ :: s' => i ← Index s' sep; Some (S i)
       end.

(** [order.Uint16/Uint32(buf)] of the first [n] bytes, or [buf[0]]. *)
Definition prefixLength (cfg : Config) (n : nat) (buf : bytes) : Z :=
  if littleEndian cfg then le_get (take n buf) else be_get (take n buf).

(** [None]: no complete frame in [buf]. *)
Definition extract (cfg : Config) (buf delim : bytes) : option (bytes * bytes) :=
  match mode cfg with
  | MDelimiter =>
      idx ← Index buf delim;
      Some (take idx buf, drop (idx + length delim) buf)
  | MFixedLength =>
      if zlen buf <? Length cfg then None
      else Some (take (Z.to_nat (Length cfg)) buf, drop (Z.to_nat (Length cfg)) buf)
  | MLengthPrefix =>
      let n := Z.to_nat (LengthPrefixBytes cfg) in
      if (length buf <? n)%nat then None
      else
        let len := prefixLength cfg n buf in
        if zlen buf <? Z.of_nat n + len then None
        else Some (take (Z.to_nat len) (drop n buf), drop (n + Z.to_nat len) buf)
  | _ => None
  end.

(** What one trip round the poll loop meets: the context is cancelled, the poll fails, or
    it returns [chunk] ([n = 0]: empty); [idle]: by the end of the round, [TimeoutMs] have
    passed since the last data. *)
Inductive poll := PCancel | PErr | PData (chunk : bytes) (idle : bool).
Inductive RunState := Running (buf : bytes) | Cancelled | PollErr | TooLarge | FrameErr.

Definition maxFrame (cfg : Config) : Z :=
  if MaxFrameBytes cfg <=? 0 then DefaultMaxFrameBytes else MaxFrameBytes cfg.

Section loop.
(** The callback: whether it accepts a frame after the ones it has accepted. *)
Context (onFrame : list bytes -> bytes -> bool).

(** The inner loop: every complete frame of the buffer goes to [onFrame].  A frame consumes
    at least one byte, so [S (len buf)] rounds are enough ([split_fuel], [drain_split]). *)
Fixpoint drain (fuel : nat) (cfg : Config) (delim buf : bytes) (out : list bytes)
  : list bytes * RunState :=
  match fuel with
  | O => (out, Running buf)
  | S f =>
      match extract cfg buf delim with
      | None => (out, Running buf)
      | Some (frame, rest) =>
          if onFrame out frame then drain f cfg delim rest (out ++ [frame]) else (out, FrameErr)
      end
  end.

(** One round of the poll loop: the frames accepted so far, and the state. *)
Definition round (cfg : Config) (delim : bytes) (acc : list bytes * RunState) (p : poll)
  : list bytes * RunState :=
  let '(out, st) := acc in
  match st with
  | Running buf =>
      match p with
      | PCancel => (out, Cancelled)
      | PErr => (out, PollErr)
      | PData chunk idle =>
          let buf := buf ++ chunk in
          if bool_decide (chunk <> []) && (maxFrame cfg <? zlen buf) then (out, TooLarge)
          else
            match drain (S (length buf)) cfg delim buf out with
            | (out, Running buf) =>
                match mode cfg with
                | MTimeout =>
                    if bool_decide (buf <> []) && idle then
                      if onFrame out buf then (out ++ [buf], Running []) else (out, FrameErr)
                    else (out, Running buf)
                | _ => (out, Running buf)
                end
            | r => r
            end
      end
  | _ => acc
  end.
Definition Run (cfg : Config) (ps : list poll) : option (list bytes * RunState) :=
  if Validate cfg then Some (fold_left (round cfg (unescapeDelimiter (Delimiter cfg))) ps ([], Running []))
  else None.
End loop.
Definition received : list bytes -> list poll := map (fun chunk => PData chunk false).

(** ** The frames of a stream, as a function of its bytes *)

Fixpoint split (fuel : nat) (cfg : Config) (delim buf : bytes) : list bytes * bytes :=
  match fuel with
  | O => ([], buf)
  | S f =>
      match extract cfg buf delim with
      | None => ([], buf)
      | Some (frame, rest) =>
          let '(fs, b) := split f cfg delim rest in (frame :: fs, b)
      end
  end.
Definition splitAll (cfg : Config) (delim buf : bytes) : list bytes * bytes :=
  split (S (length buf)) cfg delim buf.
#[global] Arguments splitAll : simpl never.

(** The loop that hands frames out either hands out exactly those of [split], or stops
    inside them at a frame the callback refuses. *)
Lemma drain_split onFrame cfg delim fuel : forall buf out,
  let '(fs, rest) := split fuel cfg delim buf in
  drain onFrame fuel cfg delim buf out = (out ++ fs, Running rest) \/
  exists fs1 f fs2, fs = fs1 ++ f :: fs2 /\ onFrame (out ++ fs1) f = false /\
    drain onFrame fuel cfg delim buf out = (out ++ fs1, FrameErr).
Proof.
  induction fuel as [|fuel IH]; intros buf out; cbn; [left; by rewrite app_nil_r|].
  destruct (extract cfg buf delim) as [[frame rest]|]; [|left; by rewrite app_nil_r].
  specialize (IH rest (out ++ [frame])). destruct (split fuel cfg delim rest) as [fs b].
  destruct (onFrame out frame) eqn:Ea.
  - destruct IH as [-> | (fs1 & f & fs2 & -> & Hf & ->)]; rewrite <- ?app_assoc in *; [by left|].
    right. by exists (frame :: fs1), f, fs2.
  - right. exists [], frame, fs. by rewrite app_nil_r.
Qed.

(** ** Extraction *)

Definition streaming (cfg : Config) : Prop :=
  mode cfg = MDelimiter \/ mode cfg = MFixedLength \/ mode cfg = MLengthPrefix.

Lemma has_prefix_app p s t : has_prefix p s = true -> has_prefix p (s ++ t) = true.
Proof.
  revert s. induction p as [|x p IH]; intros s; [done|]. destruct s as [|y s]; cbn; [done|].
  intros [-> H]%andb_true_iff. by rewrite IH.
Qed.
Lemma has_prefix_length p s : has_prefix p s = true -> (length p <= length s)%nat.
Proof.
  revert s. induction p as [|x p IH]; intros s; cbn; [lia|]. destruct s as [|y s]; cbn; [done|].
  intros [_ H%IH]%andb_true_iff. lia.
Qed.
Lemma Index_bound s sep i : Index s sep = Some i -> (i + length sep <= length s)%nat.
Proof.
  revert i. induction s as [|y s IH]; intros i; cbn.
  - destruct (has_prefix sep []) eqn:E; [|done]. intros [= <-]. by apply has_prefix_length in E.
  - destruct (has_prefix sep (y :: s)) eqn:E.
    + intros [= <-]. by apply has_prefix_length in E.
    + destruct (Index s sep) as [j|]; [|done]. cbn. intros [= <-]. specialize (IH j eq_refl). lia.
Qed.
Lemma has_prefix_short p s t : (length p <= length s)%nat -> has_prefix p (s ++ t) = has_prefix p s.
Proof.
  revert s. induction p as [|x p IH]; intros s Hl; [done|]. destruct s as [|y s]; cbn in *; [lia|].
  by rewrite IH by lia.
Qed.
Lemma Index_app s t sep i : Index s sep = Some i -> Index (s ++ t) sep = Some i.
Proof.
  revert i. induction s as [|y s IH]; intros i; cbn [Index app].
  - destruct (has_prefix sep []) eqn:E; [|done]. intros [= <-]. destruct sep; [|done]. by destruct t.
  - destruct (has_prefix sep (y :: s)) eqn:E.
    + intros [= <-]. change (y :: s ++ t) with ((y :: s) ++ t). by rewrite has_prefix_app.
    + destruct (Index s sep) as [j|] eqn:Ej; [|done]. cbn. intros [= <-].
      change (y :: s ++ t) with ((y :: s) ++ t). rewrite has_prefix_short.
      * rewrite E. by rewrite (IH j eq_refl).
      * apply Index_bound in Ej. cbn. lia.
Qed.

(** Extraction is stable: more input does not change the first frame. *)
Lemma extract_app cfg delim buf t frame rest :
  extract cfg buf delim = Some (frame, rest) -> extract cfg (buf ++ t) delim = Some (frame, rest ++ t).
Proof.
  unfold extract, prefixLength. destruct (mode cfg); try done.
  - destruct (Index buf delim) as [i|] eqn:E; [|done]. cbn. intros [= <- <-].
    rewrite (Index_app _ t _ _ E). cbn. pose proof (Index_bound _ _ _ E).
    rewrite take_app_le, drop_app_le by lia. done.
  - rewrite zlen_app. pose proof (zlen_nonneg t).
    destruct (Z.ltb_spec (zlen buf) (Length cfg)) as [|Hl]; [done|]. intros [= <- <-].
    destruct (Z.ltb_spec (zlen buf + zlen t) (Length cfg)); [lia|].
    unfold zlen in Hl. rewrite take_app_le, drop_app_le by lia. done.
  - rewrite zlen_app, length_app. pose proof (zlen_nonneg t).
    destruct (Nat.ltb_spec (length buf) (Z.to_nat (LengthPrefixBytes cfg))) as [|Hn]; [done|].
    rewrite take_app_le by lia. set (len := if littleEndian cfg then _ else _).
    destruct (Z.ltb_spec (zlen buf) (Z.of_nat (Z.to_nat (LengthPrefixBytes cfg)) + len)) as [|Hl]; [done|].
    intros [= <- <-]. destruct (Nat.ltb_spec (length buf + length t) (Z.to_nat (LengthPrefixBytes cfg))); [lia|].
    destruct (Z.ltb_spec (zlen buf + zlen t) (Z.of_nat (Z.to_nat (LengthPrefixBytes cfg)) + len)); [lia|].
    unfold zlen in Hl. rewrite (drop_app_le buf t (Z.to_nat (LengthPrefixBytes cfg))) by lia.
    rewrite take_app_le by (rewrite length_drop; lia). rewrite drop_app_le by lia. done.
Qed.

Lemma replace_escape_nonempty c x p s : s <> [] \/ p = true -> replace_escape c x p s <> [].
Proof.
  revert p. induction s as [|y s IH]; intros p Hp; cbn; [destruct p; naive_solver|].
  destruct (p && (y =? c)); [done|]. destruct p; [done|]. cbn. destruct (y =? 92); [apply IH; auto|done].
Qed.
Lemma unescape_nonempty s : s <> [] -> unescapeDelimiter s <> [].
Proof. intros Hs. unfold unescapeDelimiter. do 3 (apply replace_escape_nonempty; left). done. Qed.

(** Extraction consumes: the buffer gets shorter. *)
Lemma extract_consumes cfg buf frame rest :
  Validate cfg = true -> extract cfg buf (unescapeDelimiter (Delimiter cfg)) = Some (frame, rest) ->
  (length rest < length buf)%nat.
Proof.
  unfold Validate, extract. destruct (mode cfg); try done.
  - intros Hd%bool_decide_eq_true. apply unescape_nonempty in Hd.
    destruct (Index buf _) as [i|] eqn:E; [|done]. cbn. intros [= <- <-].
    pose proof (Index_bound _ _ _ E) as Hb. rewrite length_drop.
    destruct (unescapeDelimiter (Delimiter cfg)); [done|]. cbn in *. lia.
  - intros Hl%Z.ltb_lt. destruct (Z.ltb_spec (zlen buf) (Length cfg)) as [|Hb]; [done|]. intros [= <- <-].
    unfold zlen in Hb. rewrite length_drop. lia.
  - intros Hn. destruct (Nat.ltb_spec (length buf) (Z.to_nat (LengthPrefixBytes cfg))) as [|Hb]; [done|].
    destruct (zlen buf <? _); [done|]. intros [= <- <-]. rewrite length_drop.
    rewrite !orb_true_iff, !Z.eqb_eq in Hn. lia.
Qed.

(** ** Draining *)

Section run.
Context (cfg : Config) (Hv : Validate cfg = true).
Abbreviation delim := (unescapeDelimiter (Delimiter cfg)).

(** Enough fuel is enough: any larger amount gives the same frames. *)
Lemma split_fuel f : forall g buf, (length buf < f)%nat -> (length buf < g)%nat ->
  split f cfg delim buf = split g cfg delim buf.
Proof.
  induction f as [|f IH]; intros g buf Hf Hg; [lia|]. destruct g as [|g]; [lia|]. cbn.
  destruct (extract cfg buf delim) as [[frame rest]|] eqn:E; [|done].
  pose proof (extract_consumes cfg buf frame rest Hv E). by rewrite (IH g rest) by lia.
Qed.
Lemma splitAll_step buf :
  splitAll cfg delim buf =
  match extract cfg buf delim with
  | None => ([], buf)
  | Some (frame, rest) => let '(fs, b) := splitAll cfg delim rest in (frame :: fs, b)
  end.
Proof.
  unfold splitAll at 1. cbn. destruct (extract cfg buf delim) as [[frame rest]|] eqn:E; [|done].
  pose proof (extract_consumes cfg buf frame rest Hv E). unfold splitAll.
  by rewrite (split_fuel (length buf) (S (length rest)) rest) by lia.
Qed.
Lemma splitAll_stuck buf : extract cfg (snd (splitAll cfg delim buf)) delim = None.
Proof.
  induction buf as [buf IH] using (well_founded_ind (well_founded_ltof _ (@length Z))).
  rewrite splitAll_step. destruct (extract cfg buf delim) as [[frame rest]|] eqn:E; [|done].
  specialize (IH rest (extract_consumes cfg buf frame rest Hv E)).
  by destruct (splitAll cfg delim rest).
Qed.

(** Draining in two steps is draining at once. *)
Lemma splitAll_app buf t :
  splitAll cfg delim (buf ++ t) =
  let '(fs, rest) := splitAll cfg delim buf in
  let '(fs', rest') := splitAll cfg delim (rest ++ t) in (fs ++ fs', rest').
Proof.
  induction buf as [buf IH] using (well_founded_ind (well_founded_ltof _ (@length Z))).
  rewrite (splitAll_step buf). destruct (extract cfg buf delim) as [[frame rest]|] eqn:E.
  - rewrite splitAll_step, (extract_app _ _ _ t _ _ E).
    rewrite (IH rest (extract_consumes cfg buf frame rest Hv E)).
    destruct (splitAll cfg delim rest) as [fs r]. by destruct (splitAll cfg delim (r ++ t)).
  - by destruct (splitAll cfg delim (buf ++ t)).
Qed.

Section callback.
Context (onFrame : list bytes -> bytes -> bool).
Lemma round_split out buf c :
  mode cfg <> MTimeout -> zlen (buf ++ c) <= maxFrame cfg ->
  let '(fs, rest) := splitAll cfg delim (buf ++ c) in
  round onFrame cfg delim (out, Running buf) (PData c false) = (out ++ fs, Running rest) \/
  exists fs1 f fs2, fs = fs1 ++ f :: fs2 /\ onFrame (out ++ fs1) f = false /\
    round onFrame cfg delim (out, Running buf) (PData c false) = (out ++ fs1, FrameErr).
Proof.
  intros Hm Hl. cbn -[drain split].
  destruct (Z.ltb_spec (maxFrame cfg) (zlen (buf ++ c))); [lia|]. rewrite andb_false_r.
  pose proof (drain_split onFrame cfg delim (S (length (buf ++ c))) (buf ++ c) out) as Hd.
  unfold splitAll. destruct (split (S (length (buf ++ c))) cfg delim (buf ++ c)) as [fs rest].
  destruct Hd as [-> | (fs1 & f & fs2 & -> & Hf & ->)]; [left; by destruct (mode cfg)|].
  right. by exists fs1, f, fs2.
Qed.
Lemma rounds_stopped out st ps : (forall buf, st <> Running buf) ->
  fold_left (round onFrame cfg delim) ps (out, st) = (out, st).
Proof. intros H. induction ps as [|p ps IH]; cbn; [done|]. destruct st; try done. by destruct (H buf). Qed.
Lemma round_too_large out buf c : extract cfg buf delim = None -> maxFrame cfg < zlen (buf ++ c) ->
  mode cfg <> MTimeout ->
  round onFrame cfg delim (out, Running buf) (PData c false) = (out, TooLarge) \/
  c = [] /\ round onFrame cfg delim (out, Running buf) (PData c false) = (out, Running buf).
Proof.
  intros He Hl Hm. cbn -[drain]. apply Z.ltb_lt in Hl. rewrite Hl, andb_true_r.
  case_bool_decide as Hc; [by left|]. right. assert (c = []) as -> by (by destruct c; [|destruct Hc]).
  split; [done|]. rewrite (app_nil_r buf). cbn. rewrite He. by destruct (mode cfg).
Qed.
Lemma rounds_split chunks : forall out buf out' buf',
  mode cfg <> MTimeout -> extract cfg buf delim = None ->
  fold_left (round onFrame cfg delim) (received chunks) (out, Running buf) = (out', Running buf') ->
  let '(fs, rest) := splitAll cfg delim (buf ++ concat chunks) in out' = out ++ fs /\ buf' = rest.
Proof.
  induction chunks as [|c chunks IH]; intros out buf out' buf' Hm Hb H.
  - cbn in *. rewrite app_nil_r, splitAll_step, Hb. simplify_eq. by rewrite app_nil_r.
  - change (fold_left (round onFrame cfg delim) (received chunks)
      (round onFrame cfg delim (out, Running buf) (PData c false)) = (out', Running buf')) in H.
    cbn [concat]. destruct (Z.le_gt_cases (zlen (buf ++ c)) (maxFrame cfg)) as [Hl|Hl].
    + rewrite app_assoc, splitAll_app. pose proof (splitAll_stuck (buf ++ c)) as Hst.
      pose proof (round_split out buf c Hm Hl) as Hr. destruct (splitAll cfg delim (buf ++ c)) as [fs rest].
      destruct Hr as [Hr | (fs1 & f & fs2 & -> & _ & Hr)]; rewrite Hr in H; [|by rewrite rounds_stopped in H].
      cbn in Hst. specialize (IH _ _ _ _ Hm Hst H). destruct (splitAll cfg delim (rest ++ concat chunks)) as [fs' rest'].
      destruct IH as [-> ->]. by rewrite app_assoc.
    + destruct (round_too_large out buf c Hb Hl Hm) as [Hr | [-> Hr]]; rewrite Hr in H;
        [by rewrite rounds_stopped in H|]. exact (IH _ _ _ _ Hm Hb H).
Qed.
Lemma splitAll_length b fs rest : splitAll cfg delim b = (fs, rest) -> zlen rest <= zlen b.
Proof.
  revert fs rest. induction b as [b IHb] using (well_founded_ind (well_founded_ltof _ (@length Z))).
  intros fs rest. rewrite splitAll_step. destruct (extract cfg b delim) as [[f r]|] eqn:E; [|by intros [= <- <-]].
  pose proof (extract_consumes cfg b f r Hv E) as Hc.
  destruct (splitAll cfg delim r) as [fs' b'] eqn:Er. intros [= <- <-].
  specialize (IHb r Hc _ _ Er). unfold zlen in *. lia.
Qed.
Lemma rounds_fit chunks : forall out buf,
  mode cfg <> MTimeout -> (forall acc f, onFrame acc f = true) ->
  zlen (buf ++ concat chunks) <= maxFrame cfg ->
  exists out' buf', fold_left (round onFrame cfg delim) (received chunks) (out, Running buf) = (out', Running buf').
Proof.
  induction chunks as [|c chunks IH]; intros out buf Hm Ha Hl; [by eexists _, _|].
  cbn in Hl. rewrite app_assoc, zlen_app in Hl. pose proof (zlen_nonneg (concat chunks)).
  change (exists out' buf', fold_left (round onFrame cfg delim) (received chunks)
      (round onFrame cfg delim (out, Running buf) (PData c false)) = (out', Running buf')).
  pose proof (round_split out buf c Hm) as Hr. destruct (splitAll cfg delim (buf ++ c)) as [fs rest] eqn:Es.
  destruct Hr as [-> | (fs1 & f & fs2 & _ & Hf & _)]; [lia| |by rewrite Ha in Hf].
  apply IH; [done|done|]. apply splitAll_length in Es. rewrite zlen_app. lia.
Qed.
End callback.

(** ** Encoding *)

Definition encodeFrame (f : bytes) : bytes :=
  match mode cfg with
  | MDelimiter => f ++ delim
  | MLengthPrefix =>
      let n := Z.to_nat (LengthPrefixBytes cfg) in
      (if littleEndian cfg then le_put n (zlen f) else be_put n (zlen f)) ++ f
  | _ => f
  end.
(** A frame the mode can carry. *)
Definition frame_ok (f : bytes) : Prop :=
  match mode cfg with
  | MDelimiter => Index (f ++ delim) delim = Some (length f)
  | MFixedLength => zlen f = Length cfg
  | MLengthPrefix => zlen f < 2 ^ (8 * LengthPrefixBytes cfg)
  | _ => False
  end.

Lemma extract_encode f t : frame_ok f -> extract cfg (encodeFrame f ++ t) delim = Some (f, t).
Proof.
  unfold frame_ok, encodeFrame, Validate in *. intros Hf. destruct (mode cfg) eqn:Em; try done.
  - unfold extract. rewrite Em, (Index_app _ t _ _ Hf). cbn.
    rewrite <- app_assoc, take_app_length. f_equal. f_equal.
    rewrite app_assoc, <- length_app. apply drop_app_length.
  - unfold extract. rewrite Em, zlen_app. pose proof (zlen_nonneg t).
    destruct (Z.ltb_spec (zlen f + zlen t) (Length cfg)); [lia|].
    rewrite <- Hf. unfold zlen. rewrite Nat2Z.id, take_app_length, drop_app_length. done.
  - unfold extract, prefixLength. rewrite Em. set (n := Z.to_nat (LengthPrefixBytes cfg)).
    assert (Z.of_nat n = LengthPrefixBytes cfg) as Hn.
    { unfold n. rewrite !orb_true_iff, !Z.eqb_eq in Hv. lia. }
    set (pre := if littleEndian cfg then le_put n (zlen f) else be_put n (zlen f)).
    assert (length pre = n) as Hl
      by (unfold pre; destruct (littleEndian cfg); [apply length_le_put|apply length_be_put]).
    assert (take n ((pre ++ f) ++ t) = pre) as Ht
      by (rewrite <- app_assoc; by rewrite <- Hl, take_app_length).
    rewrite Ht.
    assert ((if littleEndian cfg then le_get pre else be_get pre) = zlen f) as ->.
    { unfold pre. destruct (littleEndian cfg); rewrite ?le_get_put, ?be_get_put; apply Z.mod_small;
        rewrite Hn; pose proof (zlen_nonneg f); lia. }
    rewrite !length_app, !zlen_app. pose proof (zlen_nonneg t). unfold zlen in *. rewrite Hl.
    destruct (Nat.ltb_spec (n + length f + length t) n); [lia|].
    destruct (Z.ltb_spec (Z.of_nat n + Z.of_nat (length f) + Z.of_nat (length t)) (Z.of_nat n + Z.of_nat (length f))); [lia|].
    rewrite Nat2Z.id, <- app_assoc. rewrite <- Hl at 1. rewrite drop_app_length, take_app_length.
    f_equal. f_equal. rewrite app_assoc, <- Hl, <- length_app. apply drop_app_length.
Qed.

Lemma splitAll_encode fs t : Forall frame_ok fs -> extract cfg t delim = None ->
  splitAll cfg delim (concat (map encodeFrame fs) ++ t) = (fs, t).
Proof.
  intros Hfs Ht. induction Hfs as [|f fs Hf Hfs IH]; cbn; rewrite splitAll_step.
  - by rewrite Ht.
  - rewrite <- app_assoc, extract_encode by done. by rewrite IH.
Qed.

Lemma extract_nothing : extract cfg [] delim = None.
Proof.
  destruct (extract cfg [] delim) as [[f r]|] eqn:E; [|done].
  apply (extract_consumes cfg [] f r Hv) in E. cbn in E. lia.
Qed.

(** Framing does not depend on how the transport chunks the stream: while the loop
    runs (the limit not exceeded, no frame refused), the frames handed out are those of
    the whole stream, the bytes kept are its incomplete tail, and no complete frame is
    held back. *)
Theorem chunking_irrelevant onFrame chunks out buf :
  mode cfg <> MTimeout -> Run onFrame cfg (received chunks) = Some (out, Running buf) ->
  splitAll cfg delim (concat chunks) = (out, buf) /\ extract cfg buf delim = None.
Proof.
  intros Hm HR. unfold Run in HR. rewrite Hv in HR. injection HR as HR.
  pose proof (rounds_split onFrame chunks [] [] out buf Hm extract_nothing HR) as Hd. cbn [app] in Hd.
  pose proof (splitAll_stuck (concat chunks)) as Hst.
  destruct (splitAll cfg delim (concat chunks)) as [fs rest]. destruct Hd as [-> ->]. done.
Qed.

(** Round trip: a stream of frames the mode can carry, encoded (delimited, fixed
    length or length prefixed) and received in any chunks within the limit by a callback
    that accepts them, yields exactly those frames, in order, with nothing left over. *)
Theorem framing_roundtrip onFrame fs chunks :
  (forall acc f, onFrame acc f = true) ->
  Forall frame_ok fs -> concat chunks = concat (map encodeFrame fs) ->
  zlen (concat chunks) <= maxFrame cfg -> mode cfg <> MTimeout ->
  Run onFrame cfg (received chunks) = Some (fs, Running []).
Proof.
  intros Ha Hfs Hc Hl Hm. unfold Run. rewrite Hv.
  destruct (rounds_fit onFrame chunks [] [] Hm Ha Hl) as (out & buf & HR). rewrite HR.
  pose proof (rounds_split onFrame chunks [] [] out buf Hm extract_nothing HR) as Hd. cbn [app] in Hd.
  pose proof (splitAll_encode fs [] Hfs extract_nothing) as He. rewrite app_nil_r, <- Hc in He. rewrite He in Hd.
  by destruct Hd as [-> ->].
Qed.
End run.

(** ** Witnesses *)

Definition acceptAll (acc : list bytes) (f : bytes) : bool := true.
Definition prefixCfg : Config := MkConfig MLengthPrefix [] 0 2 false 0 0.
Lemma chunking_irrelevant_witness :
  splitAll prefixCfg [] [0; 1; 65; 0; 2; 66] = ([[65]], [0; 2; 66]) /\
  extract prefixCfg [0; 2; 66] [] = None.
Proof.
  apply (chunking_irrelevant prefixCfg eq_refl acceptAll [[0]; [1; 65; 0]; [2; 66]]); [discriminate|].
  vm_compute. reflexivity.
Defined.
Lemma framing_roundtrip_witness :
  Run acceptAll prefixCfg (received [[0]; [1; 65; 0]; [2; 66; 67]]) = Some ([[65]; [66; 67]], Running []).
Proof.
  apply framing_roundtrip; [reflexivity|reflexivity| |vm_compute; reflexivity|vm_compute; discriminate|discriminate].
  repeat constructor.
Defined.

Definition smallLimit : Config := MkConfig MDelimiter [10] 0 0 false 0 4.
(** The limit is checked before complete frames are taken out of the buffer: a
    burst of complete frames, each far below the limit, is refused as "without a
    complete frame". *)
Theorem limit_refuses_complete_frames :
  Run acceptAll smallLimit (received [[65; 10; 66; 10; 67; 10]]) = Some ([], TooLarge) /\
  Run acceptAll smallLimit (received [[65; 10]; [66; 10]; [67; 10]]) = Some ([[65]; [66]; [67]], Running []).
Proof. split; vm_compute; reflexivity. Qed.
End framing.
