(* ===== verification/SecsII.v ===== *)
(** * SECS-II items ([engine/nodes/secsii])

    [Item] is the Go struct with all its fields; [Encode]/[body] and [Decode] are
    the wire codec of [item.go], [Value]/[Int64]/[Text] the accessors of
    [value.go].  A [float32]/[float64] is represented by its IEEE-754 bit pattern,
    so [math.Float32bits] and its inverse are the identity. *)

From S2P Require Import Prelude Bytes.
Local Open Scope Z_scope.

Module secsii.

Definition FormatList    : Z := 0x00.
Definition FormatBinary  : Z := 0x08.
Definition FormatBoolean : Z := 0x09.
Definition FormatASCII   : Z := 0x10.
Definition FormatJIS8    : Z := 0x11.
Definition FormatI8      : Z := 0x18.
Definition FormatI1      : Z := 0x19.
Definition FormatI2      : Z := 0x1A.
Definition FormatI4      : Z := 0x1C.
Definition FormatF8      : Z := 0x20.
Definition FormatF4      : Z := 0x24.
Definition FormatU8      : Z := 0x28.
Definition FormatU1      : Z := 0x29.
Definition FormatU2      : Z := 0x2A.
Definition FormatU4      : Z := 0x2C.

(** The Go switch on a format byte, as a tagged type: [fmt_of] sends a byte to
    the case of the switch it selects. *)
Inductive Fmt :=
| FList | FBinary | FBoolean | FASCII | FJIS8
| FI8 | FI1 | FI2 | FI4 | FF8 | FF4 | FU8 | FU1 | FU2 | FU4
| FUnknown.

Definition fmt_of (f : Z) : Fmt :=
  if f =? FormatList then FList
  else if f =? FormatBinary then FBinary
  else if f =? FormatBoolean then FBoolean
  else if f =? FormatASCII then FASCII
  else if f =? FormatJIS8 then FJIS8
  else if f =? FormatI8 then FI8
  else if f =? FormatI1 then FI1
  else if f =? FormatI2 then FI2
  else if f =? FormatI4 then FI4
  else if f =? FormatF8 then FF8
  else if f =? FormatF4 then FF4
  else if f =? FormatU8 then FU8
  else if f =? FormatU1 then FU1
  else if f =? FormatU2 then FU2
  else if f =? FormatU4 then FU4
  else FUnknown.

(** [fmt.Sprintf("Format(%#x)", byte(f))] of the default case is a parameter of
    the printer, not of the codec. *)
Definition Format_String (sprintf_hex : Z -> string) (f : Z) : string :=
  match fmt_of f with
  | FList => "List" | FBinary => "Binary" | FBoolean => "Boolean"
  | FASCII => "ASCII" | FJIS8 => "JIS8"
  | FI8 => "I8" | FI1 => "I1" | FI2 => "I2" | FI4 => "I4"
  | FF8 => "F8" | FF4 => "F4"
  | FU8 => "U8" | FU1 => "U1" | FU2 => "U2" | FU4 => "U4"
  | FUnknown => sprintf_hex f
  end.

Unset Elimination Schemes.
Inductive Item : Type := MkItem {
  Format : Z;
  List_  : list Item;
  Bytes_ : bytes;
  Bools  : list bool;
  Str    : string;
  I1 : list Z; I2 : list Z; I4 : list Z; I8 : list Z;
  U1 : list Z; U2 : list Z; U4 : list Z; U8 : list Z;
  F4 : list Z; F8 : list Z
}.
Set Elimination Schemes.

(** [Item{}]: every field its zero value. *)
Definition zero_item : Item :=
  MkItem 0 [] [] [] "" [] [] [] [] [] [] [] [] [] [].

Definition L (items : list Item) : Item :=
  MkItem FormatList items [] [] "" [] [] [] [] [] [] [] [] [] [].
Definition A (s : string) : Item :=
  MkItem FormatASCII [] [] [] s [] [] [] [] [] [] [] [] [] [].
Definition JIS8 (s : string) : Item :=
  MkItem FormatJIS8 [] [] [] s [] [] [] [] [] [] [] [] [] [].
Definition B (b : bytes) : Item :=
  MkItem FormatBinary [] b [] "" [] [] [] [] [] [] [] [] [] [].
Definition Bool (v : list bool) : Item :=
  MkItem FormatBoolean [] [] v "" [] [] [] [] [] [] [] [] [] [].
Definition I1v (v : list Z) : Item :=
  MkItem FormatI1 [] [] [] "" v [] [] [] [] [] [] [] [] [].
Definition I2v (v : list Z) : Item :=
  MkItem FormatI2 [] [] [] "" [] v [] [] [] [] [] [] [] [].
Definition I4v (v : list Z) : Item :=
  MkItem FormatI4 [] [] [] "" [] [] v [] [] [] [] [] [] [].
Definition I8v (v : list Z) : Item :=
  MkItem FormatI8 [] [] [] "" [] [] [] v [] [] [] [] [] [].
Definition U1v (v : list Z) : Item :=
  MkItem FormatU1 [] [] [] "" [] [] [] [] v [] [] [] [] [].
Definition U2v (v : list Z) : Item :=
  MkItem FormatU2 [] [] [] "" [] [] [] [] [] v [] [] [] [].
Definition U4v (v : list Z) : Item :=
  MkItem FormatU4 [] [] [] "" [] [] [] [] [] [] v [] [] [].
Definition U8v (v : list Z) : Item :=
  MkItem FormatU8 [] [] [] "" [] [] [] [] [] [] [] v [] [].
Definition F4v (v : list Z) : Item :=
  MkItem FormatF4 [] [] [] "" [] [] [] [] [] [] [] [] v [].
Definition F8v (v : list Z) : Item :=
  MkItem FormatF8 [] [] [] "" [] [] [] [] [] [] [] [] [] v.

(** ** Encoding *)

Definition count (it : Item) : Z :=
  match fmt_of (Format it) with
  | FList => zlen (List_ it)
  | FBinary => zlen (Bytes_ it)
  | FBoolean => zlen (Bools it)
  | FASCII | FJIS8 => zlen (bytes_of_string (Str it))
  | FI1 | FU1 => zlen (I1 it) + zlen (U1 it)
  | FI2 => zlen (I2 it) * 2
  | FU2 => zlen (U2 it) * 2
  | FI4 => zlen (I4 it) * 4
  | FU4 => zlen (U4 it) * 4
  | FF4 => zlen (F4 it) * 4
  | FI8 => zlen (I8 it) * 8
  | FU8 => zlen (U8 it) * 8
  | FF8 => zlen (F8 it) * 8
  | FUnknown => 0
  end.

Definition lengthBytesNeeded (n : Z) : Z :=
  if n <=? 0xFF then 1 else if n <=? 0xFFFF then 2 else 3.

(** [w]-byte big-endian elements, one after the other. *)
Definition put_elems (w : nat) (conv : Z -> Z) (vs : list Z) : bytes :=
  concat (map (fun v => be_put w (conv v)) vs).

(** [body], with the recursive call to [Encode] as a parameter. *)
Definition body_with (enc : Item -> bytes) (it : Item) : bytes :=
  match it with
  | MkItem f l by_ bo s i1 i2 i4 i8 u1 u2 u4 u8_ f4 f8 =>
      match fmt_of f with
      | FList => concat (map enc l)
      | FBinary => by_
      | FBoolean => map (fun v : bool => if v then 1 else 0) bo
      | FASCII | FJIS8 => bytes_of_string s
      | FI1 => map u8 i1
      | FU1 => u1
      | FI2 => put_elems 2 u16 i2
      | FU2 => put_elems 2 id u2
      | FI4 => put_elems 4 u32 i4
      | FU4 => put_elems 4 id u4
      | FF4 => put_elems 4 id f4
      | FI8 => put_elems 8 u64 i8
      | FU8 => put_elems 8 id u8_
      | FF8 => put_elems 8 id f8
      | FUnknown => []
      end
  end.

(** The format byte and the 1 to 3 length bytes that precede the body. *)
Definition item_header (format n : Z) : bytes :=
  let lb := lengthBytesNeeded n in
  let fb := Z.lor (u8 (Z.shiftl format 2)) lb in
  fb :: (if lb =? 1 then [u8 n]
         else if lb =? 2 then be_put 2 (u16 n)
         else [u8 (Z.shiftr n 16); u8 (Z.shiftr n 8); u8 n]).

Fixpoint Encode (it : Item) : bytes :=
  item_header (Format it) (count it) ++ body_with Encode it.
Definition body (it : Item) : bytes := body_with Encode it.

(** ** Decoding *)

Inductive DecodeError :=
| ErrEmpty                          (* "secsii: empty item data" *)
| ErrLengthCount0                   (* "invalid length-byte count 0" *)
| ErrTruncatedLength                (* "truncated length bytes" *)
| ErrShort                          (* errShort *)
| ErrListElement (i : Z) (e : DecodeError)   (* "list element %d: %w" *)
| ErrUnknownFormat (f : Z)          (* "unknown format code %#x" *)
| ErrFuel.                          (* never produced: see [Decode_total] *)

(** The declared length: 1, 2 or 3 big-endian bytes after the format byte. *)
Definition decode_length (lb : Z) (data : bytes) : res DecodeError Z :=
  if lb =? 1 then index data 1
  else if lb =? 2 then
    t ← slice_from data 1; be_uint 2 t
  else
    a ← index data 1; b ← index data 2; c ← index data 3;
    Ok (Z.lor (Z.lor (Z.shiftl a 16) (Z.shiftl b 8)) c).

(** [if n%w != 0 || len(rest) < n { return errShort }] followed by the loop that
    reads [n/w] elements of [w] bytes and the slice [rest[n:]]. *)
Definition decode_elems (w : nat) (conv : Z -> Z) (mk : list Z -> Item) (n : Z)
    (rest : bytes) : res DecodeError (Item * bytes) :=
  if negb (n mod Z.of_nat w =? 0) || (zlen rest <? n) then Err ErrShort else
  vals ← read_elems w conv (Z.to_nat (n / Z.of_nat w)) rest;
  r ← slice_from rest n;
  Ok (mk vals, r).

(** The one-byte-per-element formats: [rest[:n]] converted, and [rest[n:]]. *)
Definition decode_bytes (mk : bytes -> Item) (n : Z) (rest : bytes)
    : res DecodeError (Item * bytes) :=
  if zlen rest <? n then Err ErrShort else
  b ← slice_to rest n;
  r ← slice_from rest n;
  Ok (mk b, r).

(** The non-list cases of [Decode]'s switch. *)
Definition decode_scalar (format n : Z) (rest : bytes) : res DecodeError (Item * bytes) :=
  match fmt_of format with
  | FBinary => decode_bytes B n rest
  | FBoolean => decode_bytes (fun b => Bool (map (fun x => negb (x =? 0)) b)) n rest
  | FASCII | FJIS8 =>
      decode_bytes
        (fun b => MkItem format [] [] [] (string_of_bytes b) [] [] [] [] [] [] [] [] [] [])
        n rest
  | FI1 => decode_bytes (fun b => I1v (map s8 b)) n rest
  | FU1 => decode_bytes U1v n rest
  | FI2 => decode_elems 2 s16 I2v n rest
  | FU2 => decode_elems 2 id U2v n rest
  | FI4 => decode_elems 4 s32 I4v n rest
  | FU4 => decode_elems 4 id U4v n rest
  | FF4 => decode_elems 4 id F4v n rest
  | FI8 => decode_elems 8 s64 I8v n rest
  | FU8 => decode_elems 8 id U8v n rest
  | FF8 => decode_elems 8 id F8v n rest
  | FList | FUnknown => Err (ErrUnknownFormat format)
  end.

(** [Decode] and its list loop [for i := 0; i < n; i++].  Both recur on fuel;
    [Decode_total] shows that [2*len(data)+3] is always enough. *)
Fixpoint Decode_fuel (fuel : nat) (data : bytes) : res DecodeError (Item * bytes) :=
  match fuel with
  | O => Err ErrFuel
  | S fuel' =>
      if zlen data <? 1 then Err ErrEmpty else
      fb ← index data 0;
      let format := Z.shiftr fb 2 in
      let lb := Z.land fb 0x03 in
      if lb =? 0 then Err ErrLengthCount0 else
      if zlen data <? 1 + lb then Err ErrTruncatedLength else
      n ← decode_length lb data;
      rest ← slice_from data (1 + lb);
      match fmt_of format with
      | FList =>
          '(items, remaining) ← Decode_list fuel' 0 n rest;
          Ok (L items, remaining)
      | _ => decode_scalar format n rest
      end
  end
with Decode_list (fuel : nat) (i n : Z) (remaining : bytes)
    : res DecodeError (list Item * bytes) :=
  match fuel with
  | O => Err ErrFuel
  | S fuel' =>
      if i <? n then
        '(item, r) ← map_err (ErrListElement i) (Decode_fuel fuel' remaining);
        '(items, r') ← Decode_list fuel' (i + 1) n r;
        Ok (item :: items, r')
      else Ok ([], remaining)
  end.

Definition Decode (data : bytes) : res DecodeError (Item * bytes) :=
  Decode_fuel (2 * length data + 3) data.

(** ** Accessors ([value.go]) *)

(** The dynamic types [Value] can return, each slice or scalar tagged with the
    numeric width it was declared with. *)
Inductive NumKind := KI8 | KI16 | KI32 | KI64 | KU8 | KU16 | KU32 | KU64 | KF32 | KF64.
Inductive any :=
| VNil
| VList (l : list any)
| VBytes (b : bytes)
| VString (s : string)
| VBool (b : bool)
| VBools (l : list bool)
| VNum (k : NumKind) (z : Z)
| VNums (k : NumKind) (l : list Z).

Definition scalarOrSlice {T} (scalar : T -> any) (slice : list T -> any) (v : list T) : any :=
  match v with
  | [x] => scalar x
  | _ => slice v
  end.
Definition nums (k : NumKind) (v : list Z) : any := scalarOrSlice (VNum k) (VNums k) v.

Fixpoint Value (it : Item) : any :=
  match it with
  | MkItem f l by_ bo s i1 i2 i4 i8 u1 u2 u4 u8_ f4 f8 =>
      match fmt_of f with
      | FList => VList (map Value l)
      | FBinary => VBytes by_
      | FBoolean => scalarOrSlice VBool VBools bo
      | FASCII | FJIS8 => VString s
      | FI1 => nums KI8 i1
      | FI2 => nums KI16 i2
      | FI4 => nums KI32 i4
      | FI8 => nums KI64 i8
      | FU1 => nums KU8 u1
      | FU2 => nums KU16 u2
      | FU4 => nums KU32 u4
      | FU8 => nums KU64 u8_
      | FF4 => nums KF32 f4
      | FF8 => nums KF64 f8
      | FUnknown => VNil
      end
  end.

(** [None] is Go's [(0, false)]. *)
Definition Int64 (it : Item) : option Z :=
  match fmt_of (Format it) with
  | FI1 => head (I1 it)
  | FI2 => head (I2 it)
  | FI4 => head (I4 it)
  | FI8 => head (I8 it)
  | FU1 => head (U1 it)
  | FU2 => head (U2 it)
  | FU4 => head (U4 it)
  | FU8 => s64 <$> head (U8 it)
  | _ => None
  end.

Definition Text (it : Item) : option string :=
  match fmt_of (Format it) with
  | FASCII | FJIS8 => Some (Str it)
  | _ => None
  end.

(** ** Well-formed items

    The items the constructors [L], [A], ... build from in-range elements, each
    declaring fewer than [2^24] elements (bytes): what three length bytes hold. *)

Definition maxCount : Z := 2 ^ 24.

Unset Elimination Schemes.
Inductive item_ok : Item -> Prop :=
| ok_L items : Forall item_ok items -> zlen items < maxCount -> item_ok (L items)
| ok_A s : zlen (bytes_of_string s) < maxCount -> item_ok (A s)
| ok_JIS8 s : zlen (bytes_of_string s) < maxCount -> item_ok (JIS8 s)
| ok_B b : bytes_ok b -> zlen b < maxCount -> item_ok (B b)
| ok_Bool v : zlen v < maxCount -> item_ok (Bool v)
| ok_I1 v : Forall (in_s 8) v -> zlen v < maxCount -> item_ok (I1v v)
| ok_I2 v : Forall (in_s 16) v -> zlen v * 2 < maxCount -> item_ok (I2v v)
| ok_I4 v : Forall (in_s 32) v -> zlen v * 4 < maxCount -> item_ok (I4v v)
| ok_I8 v : Forall (in_s 64) v -> zlen v * 8 < maxCount -> item_ok (I8v v)
| ok_U1 v : Forall (in_u 8) v -> zlen v < maxCount -> item_ok (U1v v)
| ok_U2 v : Forall (in_u 16) v -> zlen v * 2 < maxCount -> item_ok (U2v v)
| ok_U4 v : Forall (in_u 32) v -> zlen v * 4 < maxCount -> item_ok (U4v v)
| ok_U8 v : Forall (in_u 64) v -> zlen v * 8 < maxCount -> item_ok (U8v v)
| ok_F4 v : Forall (in_u 32) v -> zlen v * 4 < maxCount -> item_ok (F4v v)
| ok_F8 v : Forall (in_u 64) v -> zlen v * 8 < maxCount -> item_ok (F8v v).
Set Elimination Schemes.
#[export] Hint Constructors item_ok : go.

(** Decoding fuel is a device of the model: no error mentions it. *)
Fixpoint real_error (e : DecodeError) : Prop :=
  match e with
  | ErrFuel => False
  | ErrListElement _ e' => real_error e'
  | _ => True
  end.

(** ** Lemmas: headers *)

Lemma lengthBytesNeeded_cases n :
  (lengthBytesNeeded n = 1 /\ n <= 0xFF) \/
  (lengthBytesNeeded n = 2 /\ 0xFF < n <= 0xFFFF) \/
  (lengthBytesNeeded n = 3 /\ 0xFFFF < n).
Proof.
  unfold lengthBytesNeeded.
  destruct (Z.leb_spec n 0xFF); [lia|]. destruct (Z.leb_spec n 0xFFFF); lia.
Qed.

Lemma format_byte f lb :
  0 <= f < 64 -> 1 <= lb <= 3 ->
  let fb := Z.lor (u8 (Z.shiftl f 2)) lb in
  Z.shiftr fb 2 = f /\ Z.land fb 3 = lb.
Proof.
  intros Hf Hlb fb.
  assert (fb = f * 4 + lb) as Hfb.
  { unfold fb. rewrite uwrap_id.
    - apply (lor_shiftl_low 2); unfold in_u; lia.
    - rewrite Z.shiftl_mul_pow2 by lia. unfold in_u. lia. }
  rewrite Hfb. change 3 with (Z.ones 2). rewrite Z.land_ones, Z.shiftr_div_pow2 by lia.
  change (2 ^ 2) with 4. split.
  - rewrite Z.add_comm, Z.div_add, Z.div_small by lia. lia.
  - rewrite Z.add_comm, Z.mod_add, Z.mod_small by lia. lia.
Qed.

Lemma three_bytes n :
  0 <= n < maxCount ->
  Z.lor (Z.lor (Z.shiftl (u8 (Z.shiftr n 16)) 16) (Z.shiftl (u8 (Z.shiftr n 8)) 8)) (u8 n) = n.
Proof.
  intros Hn. change maxCount with (2 ^ (8 * Z.of_nat 3)) in Hn.
  rewrite <- (Z.mod_small n (2 ^ (8 * Z.of_nat 3))) at 4 by lia.
  rewrite <- be_get_put. unfold be_get. cbn [be_put be_get_acc].
  change (8 * Z.of_nat 2) with 16. change (8 * Z.of_nat 1) with 8.
  change (8 * Z.of_nat 0) with 0. rewrite Z.shiftr_0_r, Z.shiftl_0_l, Z.lor_0_l.
  by rewrite Z.shiftl_lor, Z.shiftl_shiftl by lia.
Qed.

(** One step of [Decode] on an encoded header: the switch sees the format and the
    declared length the encoder wrote. *)
Lemma Decode_header fuel f n tail :
  0 <= f < 64 -> 0 <= n < maxCount ->
  Decode_fuel (S fuel) (item_header f n ++ tail) =
  match fmt_of f with
  | FList => '(items, remaining) ← Decode_list fuel 0 n tail; Ok (L items, remaining)
  | _ => decode_scalar f n tail
  end.
Proof.
  intros Hf Hn. cbn [Decode_fuel]. unfold item_header.
  set (lb := lengthBytesNeeded n).
  destruct (format_byte f lb Hf) as [Hsh Hld].
  { unfold lb. pose proof (lengthBytesNeeded_cases n). lia. }
  set (fb := Z.lor (u8 (Z.shiftl f 2)) lb) in *.
  pose proof (zlen_nonneg tail) as Htail.
  pose proof (lengthBytesNeeded_cases n) as Hcases. fold lb in Hcases.
  cbn [app]. rewrite zlen_cons, zlen_app.
  replace (index (fb :: _) 0) with (@Ok DecodeError Z fb) by done. simpl mbind.
  rewrite Hsh, Hld.
  destruct Hcases as [[-> Hle]|[[-> Hle]|[-> Hle]]]; cbn -[be_put be_uint zlen index slice_from maxCount].
  all: autorewrite with zlen.
  all: repeat match goal with |- context [?a <? ?b] => destruct (Z.ltb_spec a b); [lia|] end.
  all: unfold decode_length; cbn -[be_put be_uint zlen index slice_from maxCount].
  all: unfold slice_from; rewrite !bool_decide_eq_true_2 by (autorewrite with zlen; lia).
  all: cbn -[be_put be_uint maxCount].
  - rewrite uwrap_id by (unfold in_u; lia). done.
  - match goal with |- context [be_uint 2 ?b] =>
      change (be_uint 2 b) with (@be_uint DecodeError 2 (be_put 2 (u16 n) ++ tail)) end.
    rewrite be_uint_app, (uwrap_id 16 n) by (unfold in_u; lia).
    change (8 * Z.of_nat 2) with 16. rewrite Z.mod_small by lia. done.
  - transitivity (match fmt_of f with
                  | FList => '(items, r) ← Decode_list fuel 0 (Z.lor (Z.lor
                      (Z.shiftl (u8 (Z.shiftr n 16)) 16) (Z.shiftl (u8 (Z.shiftr n 8)) 8)) (u8 n)) tail;
                      Ok (L items, r)
                  | _ => decode_scalar f (Z.lor (Z.lor
                      (Z.shiftl (u8 (Z.shiftr n 16)) 16) (Z.shiftl (u8 (Z.shiftr n 8)) 8)) (u8 n)) tail
                  end); [reflexivity|].
    by rewrite three_bytes by (unfold maxCount in *; lia).
Qed.

(** ** Lemmas: scalar bodies *)

Lemma decode_bytes_app mk b rest :
  decode_bytes mk (zlen b) (b ++ rest) = Ok (mk b, rest).
Proof.
  unfold decode_bytes. rewrite zlen_app.
  destruct (Z.ltb_spec (zlen b + zlen rest) (zlen b)); [pose proof (zlen_nonneg rest); lia|].
  by rewrite slice_to_app; simpl; rewrite slice_from_app.
Qed.

Lemma length_put_elems w conv vs : length (put_elems w conv vs) = (length vs * w)%nat.
Proof.
  unfold put_elems. induction vs; simpl; [done|]. rewrite length_app, length_be_put. lia.
Qed.

Lemma decode_elems_app w conv enc mk vs rest :
  (0 < w)%nat ->
  Forall (fun v => conv (enc v mod 2 ^ (8 * Z.of_nat w)) = v) vs ->
  decode_elems w conv mk (zlen vs * Z.of_nat w) (put_elems w enc vs ++ rest) = Ok (mk vs, rest).
Proof.
  intros Hw Hvs. unfold decode_elems.
  rewrite Z.mod_mul, Z.div_mul by lia. cbn [Z.eqb negb orb].
  assert (zlen (put_elems w enc vs) = zlen vs * Z.of_nat w) as Hlen.
  { unfold zlen. rewrite length_put_elems. lia. }
  rewrite zlen_app, Hlen.
  destruct (Z.ltb_spec (zlen vs * Z.of_nat w + zlen rest) (zlen vs * Z.of_nat w));
    [pose proof (zlen_nonneg rest); lia|].
  assert (Z.to_nat (zlen vs) = length vs) as -> by (unfold zlen; lia).
  assert (@read_elems DecodeError w conv (length vs) (put_elems w enc vs ++ rest) = Ok vs) as ->
    by (by apply read_elems_put).
  simpl. rewrite <- Hlen, slice_from_app. done.
Qed.

(** Converting to the unsigned word and back is the identity on in-range values. *)
Lemma conv_signed w vs :
  1 <= w -> Forall (in_s w) vs -> Forall (fun v => swrap w (uwrap w v mod 2 ^ w) = v) vs.
Proof.
  intros Hw Hvs. eapply Forall_impl; [exact Hvs|]. intros v Hv; simpl.
  rewrite (Z.mod_small (uwrap w v)) by (apply uwrap_range; lia).
  rewrite swrap_uwrap by lia. by apply swrap_id.
Qed.
Lemma conv_unsigned w vs :
  Forall (in_u w) vs -> Forall (fun v => id (id v mod 2 ^ w) = v) vs.
Proof. intros Hvs. eapply Forall_impl; [exact Hvs|]. intros v Hv. by apply Z.mod_small. Qed.

Lemma map_s8_u8 v : Forall (in_s 8) v -> map s8 (map u8 v) = v.
Proof.
  induction 1 as [|x v Hx _ IH]; simpl; [done|].
  rewrite IH, swrap_uwrap, swrap_id by (done || lia). done.
Qed.
Lemma map_bool_byte v :
  map (fun x => negb (x =? 0)) (map (fun b : bool => if b then 1 else 0) v) = v.
Proof. induction v as [|[] v IH]; simpl; congruence. Qed.

(** The declared count of every non-list item is its body's length. *)
Lemma zlen_put_elems w conv vs : zlen (put_elems w conv vs) = zlen vs * Z.of_nat w.
Proof. unfold zlen. rewrite length_put_elems. lia. Qed.

Lemma count_nonneg it : 0 <= count it.
Proof.
  unfold count. destruct (fmt_of (Format it));
    repeat match goal with |- context [zlen ?l] => pose proof (zlen_nonneg l); generalize dependent (zlen l); intros end; lia.
Qed.
Lemma count_max it : item_ok it -> 0 <= count it < maxCount.
Proof. intros H. split; [apply count_nonneg|]. destruct H; cbn -[zlen]; rewrite ?zlen_nil; lia. Qed.
Lemma format_range it : item_ok it -> 0 <= Format it < 64.
Proof. destruct 1; simpl; split; done. Qed.

Lemma decode_scalar_body it rest :
  item_ok it -> fmt_of (Format it) <> FList ->
  decode_scalar (Format it) (count it) (body it ++ rest) = Ok (it, rest).
Proof.
  intros Hok Hf. unfold body, count.
  destruct Hok; try (by destruct Hf); cbn -[zlen put_elems app]; rewrite ?zlen_nil, ?Z.add_0_r;
    unfold decode_scalar; cbn -[zlen put_elems app].
  all: try (apply decode_elems_app; [lia|]; first
         [ by apply (conv_signed 16) | by apply (conv_signed 32) | by apply (conv_signed 64)
         | by apply (conv_unsigned 16) | by apply (conv_unsigned 32)
         | by apply (conv_unsigned 64) ]).
  all: rewrite ?Z.add_0_l, ?decode_bytes_app, ?string_of_bytes_of_string; try done.
  - rewrite <- (zlen_map (fun b : bool => if b then 1 else 0)), decode_bytes_app.
    by rewrite map_bool_byte.
  - rewrite <- (zlen_map u8), decode_bytes_app. by rewrite map_s8_u8.
Qed.

(** ** Round trip *)

Lemma item_ok_ind' (P : Item -> Prop) :
  (forall items, Forall item_ok items -> Forall P items -> zlen items < maxCount -> P (L items)) ->
  (forall it, item_ok it -> fmt_of (Format it) <> FList -> P it) ->
  forall it, item_ok it -> P it.
Proof.
  intros HL HS. fix IH 2. intros it H.
  destruct H as [items Hitems Hn|?|?|?|?|?|?|?|?|?|?|?|?|?|?].
  1: apply HL; [done| |done]; clear Hn; induction Hitems; constructor; auto.
  all: apply HS; [by constructor|discriminate].
Qed.

Lemma Encode_eq it : Encode it = item_header (Format it) (count it) ++ body it.
Proof. by destruct it. Qed.

Lemma length_item_header f n : (2 <= length (item_header f n))%nat.
Proof.
  unfold item_header. destruct (lengthBytesNeeded_cases n) as [[-> _]|[[-> _]|[-> _]]]; simpl; lia.
Qed.
Lemma length_Encode it : (2 <= length (Encode it))%nat.
Proof. rewrite Encode_eq, length_app. pose proof (length_item_header (Format it) (count it)). lia. Qed.

Lemma Decode_list_Encode items :
  Forall (fun it => forall fuel rest,
    (2 * length (Encode it ++ rest) + 2 <= fuel)%nat ->
    Decode_fuel fuel (Encode it ++ rest) = Ok (it, rest)) items ->
  forall fuel i rest,
    (2 * length (concat (map Encode items) ++ rest) + 3 <= fuel)%nat ->
    Decode_list fuel i (i + zlen items) (concat (map Encode items) ++ rest) = Ok (items, rest).
Proof.
  induction 1 as [|it items Hit _ IH]; intros fuel i rest Hf;
    (destruct fuel as [|fuel]; [lia|]); cbn [Decode_list].
  - rewrite zlen_nil, Z.add_0_r, Z.ltb_irrefl. done.
  - rewrite zlen_cons. destruct (Z.ltb_spec i (i + (1 + zlen items)));
      [|pose proof (zlen_nonneg items); lia].
    cbn [concat map] in *. rewrite <- app_assoc in *. rewrite Hit by lia.
    cbn [map_err mbind res_bind].
    replace (i + (1 + zlen items)) with (i + 1 + zlen items) by lia.
    pose proof (length_Encode it). rewrite length_app in Hf.
    rewrite IH by lia. done.
Qed.

Lemma Decode_fuel_Encode it :
  item_ok it -> forall fuel rest, (2 * length (Encode it ++ rest) + 2 <= fuel)%nat ->
  Decode_fuel fuel (Encode it ++ rest) = Ok (it, rest).
Proof.
  intros H. induction H as [items Hok IH Hn|it Hok Hf] using item_ok_ind';
    intros [|fuel] rest Hfuel; try lia.
  - rewrite Encode_eq, <- app_assoc in *.
    rewrite Decode_header by (done || (cbn; split; [apply zlen_nonneg|done])).
    change (fmt_of (Format (L items))) with FList.
    change (body (L items)) with (concat (map Encode items)) in *.
    change (count (L items)) with (zlen items) in *.
    pose proof (Decode_list_Encode items IH fuel 0 rest) as Hl. rewrite Z.add_0_l in Hl.
    rewrite Hl; [done|]. rewrite length_app in Hfuel.
    pose proof (length_item_header (Format (L items)) (zlen items)). lia.
  - rewrite Encode_eq, <- app_assoc.
    rewrite Decode_header by eauto using format_range, count_max.
    pose proof (decode_scalar_body it rest Hok Hf) as Hs.
    destruct (fmt_of (Format it)); done.
Qed.

(** ** Totality and soundness of [Decode] *)

(** What every run of [Decode] on a byte slice gives: an in-range item read off a
    non-trivial prefix, or an error of the source; never a panic. *)
Definition decode_good (data : bytes) (m : res DecodeError (Item * bytes)) : Prop :=
  match m with
  | Ok (it, r) => item_ok it /\ exists p, data = p ++ r /\ (2 <= length p)%nat
  | Err e => real_error e
  | Panic => False
  end.
Definition decode_list_good (i n : Z) (data : bytes)
    (m : res DecodeError (list Item * bytes)) : Prop :=
  match m with
  | Ok (items, r) =>
      Forall item_ok items /\ zlen items = Z.max 0 (n - i) /\ exists p, data = p ++ r
  | Err e => real_error e
  | Panic => False
  end.

Lemma slice_from_ok {E T} (l : list T) n :
  0 <= n <= zlen l -> @slice_from E T l n = Ok (drop (Z.to_nat n) l).
Proof. intros. unfold slice_from. by rewrite bool_decide_eq_true_2. Qed.
Lemma slice_to_ok {E T} (l : list T) n :
  0 <= n <= zlen l -> @slice_to E T l n = Ok (take (Z.to_nat n) l).
Proof. intros. unfold slice_to. by rewrite bool_decide_eq_true_2. Qed.
Lemma index_ok {E T} (l : list T) i :
  0 <= i < zlen l -> exists x, @index E T l i = Ok x /\ x ∈ l.
Proof.
  intros Hi. unfold index. rewrite bool_decide_eq_true_2 by lia.
  destruct (lookup_lt_is_Some_2 l (Z.to_nat i)) as [x Hx]; [unfold zlen in *; lia|].
  rewrite Hx. exists x. split; [done|]. by eapply list_elem_of_lookup_2.
Qed.

(** A scalar body leaves a suffix of the input. *)
Definition scalar_good (rest : bytes) (m : res DecodeError (Item * bytes)) : Prop :=
  match m with
  | Ok (it, r) => item_ok it /\ exists p, rest = p ++ r
  | Err e => real_error e
  | Panic => False
  end.

Lemma decode_bytes_good mk n rest :
  0 <= n -> bytes_ok rest ->
  (forall b, bytes_ok b -> zlen b = n -> item_ok (mk b)) ->
  scalar_good rest (decode_bytes mk n rest).
Proof.
  intros Hn Hok Hmk. unfold decode_bytes. destruct (Z.ltb_spec (zlen rest) n); [done|].
  rewrite slice_to_ok, slice_from_ok by lia. simpl. split.
  - apply Hmk; [by apply Forall_take|]. unfold zlen in *. rewrite length_take. lia.
  - exists (take (Z.to_nat n) rest). by rewrite take_drop.
Qed.

Lemma decode_elems_good w conv mk (P : Z -> Prop) n rest :
  (0 < w)%nat -> 0 <= n -> bytes_ok rest ->
  (forall v, in_u (8 * Z.of_nat w) v -> P (conv v)) ->
  (forall vs, Forall P vs -> zlen vs * Z.of_nat w = n -> item_ok (mk vs)) ->
  scalar_good rest (decode_elems w conv mk n rest).
Proof.
  intros Hw Hn Hok HP Hmk. unfold decode_elems.
  destruct (Z.eqb_spec (n mod Z.of_nat w) 0) as [Hmod|]; [|done].
  destruct (Z.ltb_spec (zlen rest) n) as [|Hlen]; [done|]. cbn [negb orb].
  assert (n = n / Z.of_nat w * Z.of_nat w) as Hdiv
    by (rewrite (Z.div_mod n (Z.of_nat w)) at 1 by lia; lia).
  assert (0 <= n / Z.of_nat w) by (apply Z.div_pos; lia).
  destruct (@read_elems_total DecodeError w conv (Z.to_nat (n / Z.of_nat w)) rest)
    as (vs & Hvs & Hlvs); [unfold zlen in Hlen; nia|].
  rewrite Hvs, slice_from_ok by lia. simpl. split.
  - apply Hmk; [by eapply read_elems_range|]. unfold zlen. rewrite Hlvs. lia.
  - exists (take (Z.to_nat n) rest). by rewrite take_drop.
Qed.

Lemma fmt_of_text f :
  (fmt_of f = FASCII -> f = FormatASCII) /\ (fmt_of f = FJIS8 -> f = FormatJIS8).
Proof.
  unfold fmt_of.
  repeat match goal with |- context [?a =? ?b] => destruct (Z.eqb_spec a b) end; by split.
Qed.

(** Closes a numeric case: elements in [P], of the constructor's width. *)
Ltac elems_good Q :=
  apply decode_elems_good with (P := Q); [lia|lia|done| |];
  [ intros; first [ by apply swrap_range | done ] | intros; constructor; [done|lia] ].

Lemma decode_scalar_good format n rest :
  0 <= n < maxCount -> bytes_ok rest -> fmt_of format <> FList ->
  scalar_good rest (decode_scalar format n rest).
Proof.
  intros [Hn0 Hn] Hok Hf. unfold decode_scalar.
  assert (forall b, bytes_ok b -> zlen b = n ->
            zlen (bytes_of_string (string_of_bytes b)) < maxCount) as Hs
    by (intros b Hb <-; by rewrite bytes_of_string_of_bytes).
  destruct (fmt_of_text format) as [HA HJ].
  destruct (fmt_of format) eqn:Ef; try done;
    try (first [ elems_good (in_s 16) | elems_good (in_s 32) | elems_good (in_s 64)
               | elems_good (in_u 16) | elems_good (in_u 32) | elems_good (in_u 64) ]).
  all: apply decode_bytes_good; [done..|]; intros b Hb Hl.
  - constructor; [done|lia].
  - constructor. rewrite zlen_map. lia.
  - rewrite HA by done. apply ok_A. auto.
  - rewrite HJ by done. apply ok_JIS8. auto.
  - constructor; [|rewrite zlen_map; lia].
    apply Forall_map, Forall_true. intros; by apply swrap_range.
  - constructor; [done|lia].
Qed.

Lemma decode_length_ok lb data :
  bytes_ok data -> 1 <= lb <= 3 -> 1 + lb <= zlen data ->
  exists n, decode_length lb data = Ok n /\ 0 <= n < maxCount.
Proof.
  intros Hok Hlb Hlen. unfold decode_length.
  assert (forall i, 0 <= i < zlen data -> exists x, @index DecodeError Z data i = Ok x /\ in_u 8 x)
    as Hidx.
  { intros i Hi. destruct (@index_ok DecodeError Z data i Hi) as (x & Hx & Hin).
    exists x. split; [done|]. rewrite Forall_forall in Hok. by apply Hok. }
  assert (lb = 1 \/ lb = 2 \/ lb = 3) as [-> | [-> | ->]] by lia; cbn [Z.eqb Pos.eqb].
  - destruct (Hidx 1) as (x & -> & Hx); [lia|]. exists x. split; [done|].
    unfold in_u, maxCount in *. lia.
  - rewrite slice_from_ok by lia. cbn [mbind res_bind].
    destruct (@be_uint_total DecodeError 2 (drop (Z.to_nat 1) data)) as [v Hv].
    { rewrite length_drop. unfold zlen in Hlen. lia. }
    exists v. split; [done|]. apply be_uint_range in Hv; [|by apply Forall_drop].
    unfold in_u, maxCount in *. simpl in Hv. lia.
  - destruct (Hidx 1) as (a & -> & Ha); [lia|]. destruct (Hidx 2) as (b & Hb & Hb'); [lia|].
    destruct (Hidx 3) as (c & Hc & Hc'); [lia|]. cbn [mbind res_bind]. rewrite Hb.
    cbn [mbind res_bind]. rewrite Hc. cbn [mbind res_bind]. eexists. split; [done|].

    replace (Z.shiftl a 16) with (Z.shiftl (Z.shiftl a 8) 8) by (by rewrite Z.shiftl_shiftl).
    rewrite <- Z.shiftl_lor, !lor_shiftl_byte by done.
    unfold in_u, maxCount in *. lia.
Qed.

Lemma Decode_good fuel data :
  bytes_ok data ->
  ((2 * length data + 2 <= fuel)%nat -> decode_good data (Decode_fuel fuel data)) /\
  (forall i n, 0 <= i -> (2 * length data + 3 <= fuel)%nat ->
     decode_list_good i n data (Decode_list fuel i n data)).
Proof.
  revert data. induction fuel as [|fuel IH]; intros data Hok; [split; intros; lia|]. split.
  - intros Hfuel. cbn [Decode_fuel].
    destruct (Z.ltb_spec (zlen data) 1); [done|].
    destruct (@index_ok DecodeError Z data 0) as (fb & -> & Hfb); [lia|].
    cbn [mbind res_bind].
    assert (0 <= Z.land fb 3 <= 3) as Hlb.
    { change 3 with (Z.ones 2). rewrite Z.land_ones by lia.
      pose proof (Z.mod_pos_bound fb (2 ^ 2)). change (Z.ones 2) with 3. lia. }
    set (lb := Z.land fb 3) in *.
    destruct (Z.eqb_spec lb 0) as [|Hlb0]; [done|].
    destruct (Z.ltb_spec (zlen data) (1 + lb)); [done|].
    destruct (decode_length_ok lb data) as (n & -> & Hn); [done|lia..|].
    rewrite slice_from_ok by lia. cbn [mbind res_bind].
    set (rest := drop (Z.to_nat (1 + lb)) data).
    assert (bytes_ok rest) as Hrest by by apply Forall_drop.
    assert (data = take (Z.to_nat (1 + lb)) data ++ rest) as Hdata
      by (symmetry; apply take_drop).
    assert (2 <= length (take (Z.to_nat (1 + lb)) data))%nat as Hpre.
    { rewrite length_take. unfold zlen in *. lia. }
    pose proof (decode_scalar_good (Z.shiftr fb 2) n rest Hn Hrest) as Hs.
    destruct (fmt_of (Z.shiftr fb 2)) eqn:Ef;
      try (specialize (Hs ltac:(discriminate));
           destruct (decode_scalar _ n rest) as [[it r]|e|]; [|done|done];
           destruct Hs as [Hit [p Hp]]; split; [done|];
           exists (take (Z.to_nat (1 + lb)) data ++ p); rewrite <- app_assoc, <- Hp, length_app;
           split; [done|lia]).
    clear Hs. destruct (IH rest Hrest) as [_ Hl].
    assert (2 * length rest + 3 <= fuel)%nat as Hfuel'.
    { rewrite Hdata, length_app in Hfuel. lia. }
    specialize (Hl 0 n ltac:(lia) Hfuel').
    destruct (Decode_list fuel 0 n rest) as [[items r]|e|]; [|done|done].
    destruct Hl as (Hitems & Hlen & p & Hp). split.
    { constructor; [done|lia]. }
    exists (take (Z.to_nat (1 + lb)) data ++ p). rewrite <- app_assoc, <- Hp, length_app.
    split; [done|lia].
  - intros i n Hi Hfuel. cbn [Decode_list].
    destruct (Z.ltb_spec i n); [|cbn; repeat split; [constructor|rewrite zlen_nil; lia|by exists []]].
    destruct (IH data Hok) as [Hd _]. specialize (Hd ltac:(lia)).
    destruct (Decode_fuel fuel data) as [[it r]|e|]; [|done|done].
    destruct Hd as (Hit & p & -> & Hp). cbn [map_err mbind res_bind].
    apply Forall_app in Hok as [Hokp Hokr]. rewrite length_app in Hfuel.
    destruct (IH r Hokr) as [_ Hl]. specialize (Hl (i + 1) n ltac:(lia) ltac:(lia)).
    destruct (Decode_list fuel (i + 1) n r) as [[items r']|e|]; [|done|done].
    destruct Hl as (Hitems & Hlen & p' & ->). cbn.
    split; [by constructor|]. split; [rewrite zlen_cons; lia|].
    exists (p ++ p'). by rewrite app_assoc.
Qed.

Lemma Decode_is_good data : bytes_ok data -> decode_good data (Decode data).
Proof.
  intros Hok. destruct (Decode_good (2 * length data + 3) data Hok) as [H _].
  apply H. lia.
Qed.
Lemma Decode_Encode_app it rest :
  item_ok it -> Decode (Encode it ++ rest) = Ok (it, rest).
Proof. intros Hok. apply Decode_fuel_Encode; [done|lia]. Qed.

(** An encoded item is a byte slice. *)
Lemma Encode_bytes_ok it : item_ok it -> bytes_ok (Encode it).
Proof.
  assert (forall w conv vs, bytes_ok (put_elems w conv vs)) as Hput.
  { intros. unfold put_elems. induction vs; simpl; [constructor|].
    apply Forall_app; split; auto with go. }
  assert (forall f n, 0 <= f < 64 -> bytes_ok (item_header f n)) as Hh.
  { intros f n Hf. unfold item_header.
    assert (in_u 8 (Z.lor (u8 (Z.shiftl f 2)) (lengthBytesNeeded n))).
    { pose proof (lengthBytesNeeded_cases n).
      rewrite uwrap_id by (rewrite Z.shiftl_mul_pow2; unfold in_u; lia).
      rewrite (lor_shiftl_low 2) by (unfold in_u; lia). unfold in_u. lia. }
    constructor; [done|].
    repeat case_match; repeat constructor; auto with go; try apply uwrap_range; lia. }
  induction 1 as [items Hok IH Hn|it Hok Hf] using item_ok_ind'; rewrite Encode_eq.
  - apply Forall_app. split; [by apply Hh|].
    change (body (L items)) with (concat (map Encode items)).
    induction IH; simpl; [constructor|]. apply Forall_app; split; [done|].
    inversion Hok; subst. rewrite zlen_cons in Hn. auto with lia.
  - apply Forall_app. split; [by apply Hh, format_range|].
    destruct Hok; try done; cbn -[put_elems]; auto with go.
    + apply Forall_map, Forall_true. intros []; done.
    + apply Forall_map, Forall_true. intros; apply uwrap_range; lia.
Qed.

(** ** Theorems *)

(** A concrete item tree used by the witnesses: an S6F11-like report. *)
Definition sample_item : Item :=
  L [U4v [1]; U2v [500; 65535]; I4v [-7]; A "ALARM"; Bool [true; false];
     L [B [0; 255]; F8v [4607182418800017408]; I1v [-128; 127]]].

Lemma sample_item_ok : item_ok sample_item.
Proof.
  repeat first [ constructor | progress (unfold sample_item, in_s, in_u, maxCount) | done ].
Qed.

(** [C26] encoding then decoding an in-range SECS-II item gives the item back and
    leaves whatever followed it on the wire untouched. *)
Theorem Decode_Encode (it : Item) (rest : bytes) :
  item_ok it -> Decode (Encode it ++ rest) = Ok (it, rest).
Proof. apply Decode_Encode_app. Qed.

Lemma Decode_Encode_witness :
  item_ok sample_item /\ Decode (Encode sample_item ++ [7; 7]) = Ok (sample_item, [7; 7]).
Proof. split; [exact sample_item_ok | apply (Decode_Encode sample_item [7; 7] sample_item_ok)]. Defined.

(** [C27] on every byte slice [Decode] terminates without an out-of-range access: it
    returns one of the source's own errors, or a well-formed in-range item together
    with the unconsumed suffix, having consumed at least two bytes. *)
Theorem Decode_total (data : bytes) :
  bytes_ok data ->
  (exists e, Decode data = Err e /\ real_error e) \/
  (exists it p r, Decode data = Ok (it, r) /\ data = p ++ r /\ (2 <= length p)%nat /\ item_ok it).
Proof.
  intros Hok. pose proof (Decode_is_good data Hok) as H.
  destruct (Decode data) as [[it r]|e|]; cbn in H; [right|left|done].
  - destruct H as (Hit & p & Hp & Hl). by exists it, p, r.
  - by exists e.
Qed.

Lemma Decode_total_witness :
  bytes_ok [1; 2; 177; 4; 0; 0] /\
  ((exists e, Decode [1; 2; 177; 4; 0; 0] = Err e /\ real_error e) \/
   (exists it p r, Decode [1; 2; 177; 4; 0; 0] = Ok (it, r) /\
      [1; 2; 177; 4; 0; 0] = p ++ r /\ (2 <= length p)%nat /\ item_ok it)).
Proof.
  assert (bytes_ok [1; 2; 177; 4; 0; 0]) as H by (repeat constructor; unfold in_u; lia).
  split; [exact H | apply (Decode_total _ H)].
Defined.

(** re-encoding what was decoded and decoding it again gives the same item: the
    decoder's output is a fixed point, whatever length-byte count the peer chose. *)
Theorem Decode_reencode (data rest r : bytes) (it : Item) :
  bytes_ok data -> Decode data = Ok (it, r) ->
  bytes_ok (Encode it) /\ Decode (Encode it ++ rest) = Ok (it, rest).
Proof.
  intros Hok H. pose proof (Decode_is_good data Hok) as Hg. rewrite H in Hg.
  destruct Hg as [Hit _]. split; [by apply Encode_bytes_ok | by apply Decode_Encode_app].
Qed.

(** The peer wrote the length of a one-byte binary item on three bytes. *)
Lemma Decode_reencode_witness :
  Decode [35; 0; 0; 1; 9; 8] = Ok (B [9], [8]) /\
  bytes_ok (Encode (B [9])) /\ Decode (Encode (B [9]) ++ [5]) = Ok (B [9], [5]).
Proof.
  assert (bytes_ok [35; 0; 0; 1; 9; 8]) as H by (repeat constructor; unfold in_u; lia).
  assert (Decode [35; 0; 0; 1; 9; 8] = Ok (B [9], [8])) as H' by (vm_compute; reflexivity).
  split; [exact H' | apply (Decode_reencode _ [5] _ _ H H')].
Defined.

End secsii.
