(* ===== verification/Hsms.v ===== *)
(** * HSMS messages ([engine/nodes/hsms/message.go])

    The 10-byte header, the length-prefixed block, and reading one block off a
    byte stream.  The session state machine is in [HsmsConn.v]. *)

From S2P Require Import Prelude Bytes.
Local Open Scope Z_scope.

Module hsms.

Definition STypeDataMessage : Z := 0.
Definition STypeSelectReq   : Z := 1.
Definition STypeSelectRsp   : Z := 2.
Definition STypeDeselectReq : Z := 3.
Definition STypeDeselectRsp : Z := 4.
Definition STypeLinktestReq : Z := 5.
Definition STypeLinktestRsp : Z := 6.
Definition STypeRejectReq   : Z := 7.
Definition STypeSeparateReq : Z := 9.

Definition SelectOK            : Z := 0.
Definition SelectAlreadyActive : Z := 1.
Definition SelectNotReady      : Z := 2.
Definition SelectExhausted     : Z := 3.

Record Header := MkHeader {
  SessionID : Z;
  Byte2 : Z;
  Byte3 : Z;
  PType : Z;
  SType : Z;
  System : Z
}.

Definition DataHeader (sessionID stream function : Z) (wBit : bool) (system : Z) : Header :=
  let b2 := Z.land stream 0x7F in
  let b2 := if wBit then Z.lor b2 0x80 else b2 in
  MkHeader sessionID b2 function 0 STypeDataMessage system.

Definition Stream (h : Header) : Z := Z.land (Byte2 h) 0x7F.
Definition WBit (h : Header) : bool := negb (Z.land (Byte2 h) 0x80 =? 0).
Definition Function_ (h : Header) : Z := Byte3 h.

Definition encode (h : Header) : bytes :=
  be_put 2 (SessionID h) ++ [Byte2 h; Byte3 h; PType h; SType h] ++ be_put 4 (System h).

Inductive HsmsError :=
| ErrHeaderSize (got : Z)      (* "header must be 10 bytes, got %d" *)
| ErrLengthShort (length : Z)  (* "message length %d shorter than the 10-byte header" *)
| ErrLengthMax (length : Z)    (* "message length %d exceeds max %d" *)
| ErrEOF                       (* io.EOF: nothing left to read *)
| ErrUnexpectedEOF.            (* io.ErrUnexpectedEOF: the stream ended inside a read *)

Definition decodeHeader (b : bytes) : res HsmsError Header :=
  if negb (zlen b =? 10) then Err (ErrHeaderSize (zlen b)) else
  sid ← be_uint 2 b;
  b2 ← index b 2; b3 ← index b 3; pt ← index b 4; st ← index b 5;
  t ← slice_from b 6;
  sys ← be_uint 4 t;
  Ok (MkHeader sid b2 b3 pt st sys).

Record Message := MkMessage { Hdr : Header; Body : bytes }.

Definition MaxLength : Z := 16 * 1024 * 1024.

Definition Encode (m : Message) : bytes :=
  be_put 4 (u32 (10 + zlen (Body m))) ++ encode (Hdr m) ++ Body m.

(** [io.ReadFull(r, buf)] with [len(buf) = n] on a reader that holds [s] and then
    end of file. *)
Definition ReadFull (n : Z) (s : bytes) : res HsmsError (bytes * bytes) :=
  if n <=? zlen s then Ok (take (Z.to_nat n) s, drop (Z.to_nat n) s)
  else if zlen s =? 0 then Err ErrEOF else Err ErrUnexpectedEOF.

Definition ReadMessage (s : bytes) : res HsmsError (Message * bytes) :=
  '(lenBuf, s1) ← ReadFull 4 s;
  length ← be_uint 4 lenBuf;
  if length <? 10 then Err (ErrLengthShort length) else
  if MaxLength <? length then Err (ErrLengthMax length) else
  '(buf, s2) ← ReadFull length s1;
  h ← slice_to buf 10;
  hdr ← decodeHeader h;
  b ← slice_from buf 10;
  Ok (MkMessage hdr b, s2).

(** ** Well-formed messages: every field in its width, the block within bounds *)

Definition header_ok (h : Header) : Prop :=
  in_u 16 (SessionID h) /\ in_u 8 (Byte2 h) /\ in_u 8 (Byte3 h) /\
  in_u 8 (PType h) /\ in_u 8 (SType h) /\ in_u 32 (System h).
Definition message_ok (m : Message) : Prop :=
  header_ok (Hdr m) /\ bytes_ok (Body m) /\ 10 + zlen (Body m) <= MaxLength.

(** ** Lemmas *)

Lemma zlen_encode h : zlen (encode h) = 10.
Proof. unfold encode. autorewrite with zlen. lia. Qed.

Lemma decodeHeader_encode h : header_ok h -> decodeHeader (encode h) = Ok h.
Proof.
  intros (Hs & _ & _ & _ & _ & Hy). unfold decodeHeader. rewrite zlen_encode. cbn [Z.eqb Pos.eqb negb].
  unfold encode. rewrite be_uint_app.
  change (8 * Z.of_nat 2) with 16. rewrite Z.mod_small by done. cbn -[be_put].
  transitivity (sys ← @be_uint HsmsError 4 (be_put 4 (System h) ++ []);
                Ok (MkHeader (SessionID h) (Byte2 h) (Byte3 h) (PType h) (SType h) sys)).
  { rewrite app_nil_r. reflexivity. }
  rewrite be_uint_app. change (8 * Z.of_nat 4) with 32. rewrite Z.mod_small by done.
  by destruct h.
Qed.

Lemma ReadFull_app n b s : zlen b = n -> ReadFull n (b ++ s) = Ok (b, s).
Proof.
  intros <-. unfold ReadFull. rewrite zlen_app.
  destruct (Z.leb_spec (zlen b) (zlen b + zlen s)); [|pose proof (zlen_nonneg s); lia].
  unfold zlen. by rewrite Nat2Z.id, take_app_length, drop_app_length.
Qed.

Lemma ReadMessage_Encode_app m s : message_ok m -> ReadMessage (Encode m ++ s) = Ok (m, s).
Proof.
  intros (Hh & Hb & Hlen). unfold ReadMessage, Encode.
  pose proof (zlen_nonneg (Body m)). unfold MaxLength in *.
  rewrite <- app_assoc, ReadFull_app by apply zlen_be_put. cbn [mbind res_bind].
  rewrite <- (app_nil_r (be_put 4 _)), be_uint_app. cbn [mbind res_bind].
  change (8 * Z.of_nat 4) with 32.
  rewrite uwrap_id, Z.mod_small by (unfold in_u; lia).
  destruct (Z.ltb_spec (10 + zlen (Body m)) 10); [lia|].
  destruct (Z.ltb_spec (16 * 1024 * 1024) (10 + zlen (Body m))); [lia|].
  rewrite ReadFull_app by (rewrite zlen_app, zlen_encode; lia). cbn [mbind res_bind].
  rewrite <- (zlen_encode (Hdr m)), slice_to_app. cbn [mbind res_bind].
  rewrite decodeHeader_encode by done. cbn [mbind res_bind].
  rewrite slice_from_app. by destruct m.
Qed.

Lemma land_byte_range a b : in_u 8 a -> 0 <= b -> in_u 8 (Z.land a b).
Proof.
  intros [Ha0 Ha1] Hb. unfold in_u. split; [apply Z.land_nonneg; lia|].
  destruct (decide (Z.land a b = 0)) as [->|]; [lia|].
  apply Z.log2_lt_pow2; [pose proof (proj2 (Z.land_nonneg a b)); lia|].
  eapply Z.le_lt_trans; [by apply Z.log2_land|].
  destruct (decide (a = 0)) as [->|]; [done|]. apply Z.min_lt_iff. left.
  apply Z.log2_lt_pow2; lia.
Qed.

(** The stream number and W-bit written by [DataHeader] are what the accessors
    read back, for any byte [stream]. *)
Lemma DataHeader_Stream sid stream fn w sys :
  Stream (DataHeader sid stream fn w sys) = Z.land stream 0x7F.
Proof.
  unfold Stream, DataHeader; simpl. destruct w.
  - rewrite Z.land_lor_distr_l, <- Z.land_assoc. change (Z.land 127 127) with 127.
    change (Z.land 128 127) with 0. by rewrite Z.lor_0_r.
  - by rewrite <- Z.land_assoc.
Qed.
Lemma DataHeader_WBit sid stream fn w sys :
  WBit (DataHeader sid stream fn w sys) = w.
Proof.
  unfold WBit, DataHeader; simpl. destruct w.
  - rewrite Z.land_lor_distr_l, <- Z.land_assoc. change (Z.land 127 128) with 0.
    change (Z.land 128 128) with 128. by rewrite Z.land_0_r, Z.lor_0_l.
  - rewrite <- Z.land_assoc. change (Z.land 127 128) with 0. by rewrite Z.land_0_r.
Qed.

Lemma decodeHeader_inv b h :
  bytes_ok b -> decodeHeader b = Ok h -> encode h = b /\ header_ok h.
Proof.
  intros Hb H.
  assert (zlen b = 10) as Hl.
  { unfold decodeHeader in H. by destruct (Z.eqb_spec (zlen b) 10). }
  unfold zlen in Hl.
  do 10 (destruct b as [|? b]; [simpl in Hl; lia|]). destruct b; [|simpl in Hl; lia].
  clear Hl. repeat (apply Forall_cons in Hb as [? Hb]).
  change (Ok (MkHeader (be_get [z; z0]) z1 z2 z3 z4 (be_get [z5; z6; z7; z8]))
          = @Ok HsmsError _ h) in H.
  injection H as <-.
  assert (bytes_ok [z; z0]) as Ha by (apply Forall_cons; split; [done|]; by apply Forall_singleton).
  assert (bytes_ok [z5; z6; z7; z8]) as Hc
    by (do 3 (apply Forall_cons; split; [done|]); by apply Forall_singleton).
  unfold encode; cbn [SessionID Byte2 Byte3 PType SType System].
  split.
  - pose proof (be_put_get _ Ha) as Ea. pose proof (be_put_get _ Hc) as Ec.
    cbn [length] in Ea, Ec. by rewrite Ea, Ec.
  - unfold header_ok. split_and!; try done; [exact (be_get_range _ Ha)|exact (be_get_range _ Hc)].
Qed.

Lemma decodeHeader_total b : zlen b = 10 -> exists h, decodeHeader b = Ok h.
Proof.
  intros Hl. unfold decodeHeader. rewrite Hl. cbn [Z.eqb Pos.eqb negb]. unfold zlen in Hl.
  do 10 (destruct b as [|? b]; [simpl in Hl; lia|]). destruct b; [|simpl in Hl; lia].
  cbn -[be_uint]. eexists. reflexivity.
Qed.

(** One read: the outcome of [io.ReadFull] determines the bytes consumed. *)
Lemma ReadFull_inv n s b s' :
  0 <= n -> ReadFull n s = Ok (b, s') -> s = b ++ s' /\ zlen b = n.
Proof.
  intros Hn H. unfold ReadFull in H. destruct (Z.leb_spec n (zlen s)); [|by destruct (_ =? _)].
  injection H as <- <-. rewrite take_drop. split; [done|].
  unfold zlen in *. rewrite length_take. lia.
Qed.
Lemma ReadFull_no_panic n s : ReadFull n s <> Panic.
Proof. unfold ReadFull. by repeat case_match. Qed.

Lemma ReadMessage_inv s m s' :
  bytes_ok s -> ReadMessage s = Ok (m, s') -> s = Encode m ++ s' /\ message_ok m.
Proof.
  intros Hs H. unfold ReadMessage in H.
  destruct (ReadFull 4 s) as [[lb s1]| |] eqn:E1; try done. cbn [mbind res_bind] in H.
  apply ReadFull_inv in E1 as [-> Hlb]; [|lia]. apply Forall_app in Hs as [Hlbok Hs1].
  destruct (be_uint 4 lb) as [len| |] eqn:E2; try done. cbn [mbind res_bind] in H.
  destruct (Z.ltb_spec len 10); [done|]. destruct (Z.ltb_spec MaxLength len); [done|].
  destruct (ReadFull len s1) as [[buf s2]| |] eqn:E3; try done. cbn [mbind res_bind] in H.
  apply ReadFull_inv in E3 as [-> Hbuf]; [|lia]. apply Forall_app in Hs1 as [Hbok _].
  unfold slice_to, slice_from in H. rewrite bool_decide_eq_true_2 in H by lia.
  cbn [mbind res_bind] in H.
  destruct (decodeHeader (take (Z.to_nat 10) buf)) as [h| |] eqn:E4; try done.
  cbn [mbind res_bind] in H. injection H as <- <-.
  apply decodeHeader_inv in E4 as [Henc Hh]; [|by apply Forall_take].
  assert (zlen (drop (Z.to_nat 10) buf) = len - 10) as Hbody.
  { unfold zlen in *. rewrite length_drop. lia. }
  assert (lb = be_put 4 (u32 (10 + zlen (drop (Z.to_nat 10) buf)))) as ->.
  { unfold be_uint in E2. unfold zlen in Hlb. rewrite take_ge in E2 by lia.
    destruct (Nat.ltb_spec (length lb) 4); [done|]. injection E2 as E2.
    rewrite Hbody. replace (10 + (len - 10)) with len by lia. rewrite uwrap_id.
    - rewrite <- E2. replace 4%nat with (length lb) by lia. by rewrite be_put_get.
    - unfold MaxLength, in_u in *. lia. }
  split.
  - unfold Encode; cbn [Hdr Body]. rewrite Henc, <- !app_assoc. f_equal.
    by rewrite (app_assoc (take _ _)), take_drop.
  - split; [done|]. split; [by apply Forall_drop|]. cbn [Body]. lia.
Qed.

Lemma ReadMessage_no_panic s : ReadMessage s <> Panic.
Proof.
  unfold ReadMessage. destruct (ReadFull 4 s) as [[lb s1]|e|] eqn:E1; [|done|by apply ReadFull_no_panic in E1].
  apply ReadFull_inv in E1 as [-> Hlb]; [|lia]. cbn [mbind res_bind].
  destruct (@be_uint_total HsmsError 4 lb) as [len ->]; [unfold zlen in Hlb; lia|]. cbn [mbind res_bind].
  destruct (Z.ltb_spec len 10); [done|]. destruct (Z.ltb_spec MaxLength len); [done|].
  destruct (ReadFull len s1) as [[buf s2]|e|] eqn:E3; [|done|by apply ReadFull_no_panic in E3].
  apply ReadFull_inv in E3 as [-> Hbuf]; [|lia]. cbn [mbind res_bind].
  unfold slice_to, slice_from. rewrite !bool_decide_eq_true_2 by lia. cbn [mbind res_bind].
  destruct (decodeHeader_total (take (Z.to_nat 10) buf)) as [h ->]; [|done].
  unfold zlen in *. rewrite length_take. lia.
Qed.

(** ** Theorems *)

Definition sample_message : Message :=
  MkMessage (DataHeader 7 6 11 true 4660) [1; 0].
Lemma sample_message_ok : message_ok sample_message.
Proof. repeat split; try (by vm_compute). by repeat constructor. Qed.

(** reading is the inverse of encoding: a stream that starts with an encoded
    in-bounds message yields exactly that message and the rest of the stream. *)
Theorem ReadMessage_Encode (m : Message) (s : bytes) :
  message_ok m -> ReadMessage (Encode m ++ s) = Ok (m, s).
Proof. apply ReadMessage_Encode_app. Qed.

Lemma ReadMessage_Encode_witness :
  message_ok sample_message /\
  ReadMessage (Encode sample_message ++ [0; 0]) = Ok (sample_message, [0; 0]).
Proof.
  split; [exact sample_message_ok|].
  apply (ReadMessage_Encode sample_message [0; 0] sample_message_ok).
Defined.

(** on any byte stream [ReadMessage] never indexes out of range, and whenever it
    returns a message the bytes consumed are exactly that message's encoding, its
    fields are in range and its block is within [MaxLength]. *)
Theorem ReadMessage_sound (s : bytes) :
  bytes_ok s ->
  ReadMessage s <> Panic /\
  (forall m s', ReadMessage s = Ok (m, s') -> s = Encode m ++ s' /\ message_ok m).
Proof. intros Hs. split; [apply ReadMessage_no_panic | intros; by apply ReadMessage_inv]. Qed.

Lemma ReadMessage_sound_witness :
  bytes_ok (Encode sample_message) /\
  ReadMessage (Encode sample_message) <> Panic /\
  (forall m s', ReadMessage (Encode sample_message) = Ok (m, s') ->
     Encode sample_message = Encode m ++ s' /\ message_ok m).
Proof.
  assert (bytes_ok (Encode sample_message)) as H
    by (vm_compute; repeat constructor; vm_compute; congruence).
  split; [exact H | apply (ReadMessage_sound _ H)].
Defined.

End hsms.
