(* ===== verification/HsmsConn.v ===== *)
(** * HSMS session state machine ([engine/nodes/hsms/conn.go])

    A [Conn] is shared by the reader goroutine ([readLoop]), the linktest loop and
    every caller of [SendAndWait]/[Send]/[Reply].  The model keeps the struct's
    fields, the reply channels a request allocates, and what was written to the
    TCP connection; a session interleaves the goroutines' critical sections, one
    [event] per section.  A write to the TCP connection has no deadline: a goroutine that
    writes may stay in the write for any time, and the environment chooses when it
    returns and whether it succeeded. *)

From S2P Require Import Prelude Bytes Hsms.
Local Open Scope Z_scope.

Module hsmsconn.
Import hsms.

Inductive State := StateNotConnected | StateConnectedNotSelected | StateConnectedSelected.
#[global] Instance State_eq_dec : EqDecision State.
Proof. solve_decision. Defined.

(** What ended a session, as handed to [fail]. *)
Inductive FailReason :=
| FailRead (e : HsmsError)   (* a read or framing error of the reader *)
| FailSeparated              (* errSeparated *)
| FailLinktest.              (* the linktest transaction failed *)

Record Conn := MkConn {
  sessionID : Z;
  state : State;
  nextSystem : Z;
  pending : gmap Z nat;                 (* map[uint32]chan Message *)
  selectReqCh : list Message;           (* capacity 1 *)
  dataCh : list Message;                (* capacity 16 *)
  errCh : option FailReason;            (* capacity 1 *)
  closed : bool;
  replyChs : gmap nat (option Message); (* every [make(chan Message, 1)] so far *)
  written : list Message                (* blocks written to the TCP connection *)
}.

Definition dataChCap : nat := 16.
Definition selectReqChCap : nat := 1.

Definition newConn (sid : Z) : Conn :=
  MkConn sid StateConnectedNotSelected 0 ∅ [] [] None false ∅ [].

(** Field updates. *)
Definition with_state (c : Conn) (s : State) : Conn :=
  MkConn (sessionID c) s (nextSystem c) (pending c) (selectReqCh c) (dataCh c) (errCh c)
         (closed c) (replyChs c) (written c).
Definition with_pending (c : Conn) (p : gmap Z nat) : Conn :=
  MkConn (sessionID c) (state c) (nextSystem c) p (selectReqCh c) (dataCh c) (errCh c)
         (closed c) (replyChs c) (written c).
Definition with_replyChs (c : Conn) (r : gmap nat (option Message)) : Conn :=
  MkConn (sessionID c) (state c) (nextSystem c) (pending c) (selectReqCh c) (dataCh c) (errCh c)
         (closed c) r (written c).
Definition with_sessionID (c : Conn) (sid : Z) : Conn :=
  MkConn sid (state c) (nextSystem c) (pending c) (selectReqCh c) (dataCh c) (errCh c)
         (closed c) (replyChs c) (written c).
Definition with_selectReqCh (c : Conn) (q : list Message) : Conn :=
  MkConn (sessionID c) (state c) (nextSystem c) (pending c) q (dataCh c) (errCh c)
         (closed c) (replyChs c) (written c).
Definition with_dataCh (c : Conn) (q : list Message) : Conn :=
  MkConn (sessionID c) (state c) (nextSystem c) (pending c) (selectReqCh c) q (errCh c)
         (closed c) (replyChs c) (written c).

Definition nextSystemBytes (c : Conn) : Z * Conn :=
  let s := u32 (nextSystem c + 1) in
  (s, MkConn (sessionID c) (state c) s (pending c) (selectReqCh c) (dataCh c) (errCh c)
             (closed c) (replyChs c) (written c)).

Definition setState (c : Conn) (s : State) : Conn := with_state c s.

(** The return of [c.conn.Write(msg.Encode())]. *)
Definition conn_write (ok : bool) (c : Conn) (m : Message) : Conn :=
  if ok then MkConn (sessionID c) (state c) (nextSystem c) (pending c) (selectReqCh c)
                    (dataCh c) (errCh c) (closed c) (replyChs c) (written c ++ [m])
  else c.

(** [c.closeOnce.Do(...)] *)
Definition Close (c : Conn) : Conn :=
  MkConn (sessionID c) (state c) (nextSystem c) (pending c) (selectReqCh c) (dataCh c) (errCh c)
         true (replyChs c) (written c).

Definition fail (c : Conn) (e : FailReason) : Conn :=
  let c := setState c StateNotConnected in
  let c := MkConn (sessionID c) (state c) (nextSystem c) (pending c) (selectReqCh c) (dataCh c)
             (match errCh c with None => Some e | Some e' => Some e' end)
             (closed c) (replyChs c) (written c) in
  Close c.

(** A reply channel not used before: the next [make(chan Message, 1)]. *)
Definition fresh_ch (c : Conn) : nat := fresh (dom (replyChs c)).

(** The start of a transaction: fresh system bytes, a reply channel of capacity
    one, and its entry in [pending]. *)
Definition register (c : Conn) : Z * nat * Conn :=
  let '(system, c) := nextSystemBytes c in
  let ch := fresh_ch c in
  (system, ch,
   with_replyChs (with_pending c (<[system := ch]> (pending c))) (<[ch := None]> (replyChs c))).

Definition control (sid byte3 st system : Z) : Message :=
  MkMessage (MkHeader sid 0 byte3 0 st system) [].

Definition sendControlReply (ok : bool) (c : Conn) (sType sid byte3 system : Z) : Conn :=
  conn_write ok c (control sid byte3 sType system).

(** ** The reader *)

(** What one iteration of [readLoop] does with a message: go on, return, write a
    control reply and go on when the write returns, or wait for a channel to have room. *)
Inductive ReadOutcome := RContinue (c : Conn) | RReturn (c : Conn) | RReply (m : Message) | RBlocked.

(** [replyCh <- msg] on a channel of capacity one. *)
Definition reply_send (c : Conn) (ch : nat) (msg : Message) : ReadOutcome :=
  match replyChs c !! ch with
  | Some None => RContinue (with_replyChs c (<[ch := Some msg]> (replyChs c)))
  | _ => RBlocked
  end.

Definition readLoop_handle (c : Conn) (msg : Message) : ReadOutcome :=
  let h := Hdr msg in
  if SType h =? STypeSeparateReq then RReturn (fail c FailSeparated)
  else if SType h =? STypeLinktestReq then
    RReply (control (SessionID h) 0 STypeLinktestRsp (System h))
  else if SType h =? STypeSelectReq then
    if decide (state c = StateConnectedSelected) then
      RReply (control (SessionID h) SelectAlreadyActive STypeSelectRsp (System h))
    else if (length (selectReqCh c) <? selectReqChCap)%nat then
      RContinue (with_selectReqCh c (selectReqCh c ++ [msg]))
    else if closed c then RReturn c else RBlocked
  else
    match pending c !! System h with
    | Some ch => reply_send (with_pending c (delete (System h) (pending c))) ch msg
    | None =>
        if SType h =? STypeDataMessage then
          if (length (dataCh c) <? dataChCap)%nat then
            RContinue (with_dataCh c (dataCh c ++ [msg]))
          else if closed c then RReturn c else RBlocked
        else RContinue c
    end.

(** ** Transactions *)

Inductive TxKind := TxSelect | TxLinktest | TxData.
Record Waiter := MkWaiter { w_kind : TxKind; w_system : Z; w_ch : nat }.

(** Why a blocked [select] returned. *)
Inductive Wake := WakeReply | WakeTimer | WakeCtx | WakeClosed.

Inductive TxError :=
| ErrWrite | ErrNotSelected | ErrTimeout | ErrCtx | ErrClosed
| ErrNotSelectRsp (st : Z) | ErrSelectRejected (status : Z).

(** The request each kind of transaction writes. *)
Definition tx_message (k : TxKind) (c : Conn) (system : Z) (stream function : Z)
    (body : bytes) : Message :=
  match k with
  | TxSelect => control (sessionID c) 0 STypeSelectReq system
  | TxLinktest => control 0xFFFF 0 STypeLinktestReq system
  | TxData => MkMessage (DataHeader (sessionID c) stream function true system) body
  end.

(** Up to the write: [selectActive], [linktest] and [SendAndWait] register and go on to
    write their request. *)
Definition tx_begin (k : TxKind) (stream function : Z) (body : bytes) (c : Conn)
    : Conn * (TxError + Waiter * Message) :=
  match k with
  | TxData =>
      if decide (state c = StateConnectedSelected) then
        let '(system, ch, c) := register c in
        (c, inr (MkWaiter k system ch, tx_message k c system stream function body))
      else (c, inl ErrNotSelected)
  | _ =>
      let '(system, ch, c) := register c in
      (c, inr (MkWaiter k system ch, tx_message k c system stream function body))
  end.
(** The return of the write: to the blocking [select], or with an error, on which only
    [SendAndWait] unregisters. *)
Definition tx_written (w : Waiter) (m : Message) (wok : bool) (c : Conn) : Conn * option TxError :=
  if wok then (conn_write true c m, None)
  else (match w_kind w with TxData => with_pending c (delete (w_system w) (pending c)) | _ => c end, Some ErrWrite).

(** The case of the [select] that fired.  [None]: not enabled (no reply yet, or
    the connection is not closed). *)
Definition tx_end (w : Waiter) (why : Wake) (c : Conn) : option (Conn * (TxError + Message)) :=
  match why with
  | WakeReply =>
      match replyChs c !! w_ch w with
      | Some (Some reply) =>
          let c := with_replyChs c (<[w_ch w := None]> (replyChs c)) in
          match w_kind w with
          | TxSelect =>
              if negb (SType (Hdr reply) =? STypeSelectRsp) then
                Some (c, inl (ErrNotSelectRsp (SType (Hdr reply))))
              else if negb (Byte3 (Hdr reply) =? SelectOK) then
                Some (c, inl (ErrSelectRejected (Byte3 (Hdr reply))))
              else Some (setState c StateConnectedSelected, inr reply)
          | _ => Some (c, inr reply)
          end
      | _ => None
      end
  | WakeTimer =>
      Some (with_pending c (delete (w_system w) (pending c)), inl ErrTimeout)
  | WakeCtx =>
      match w_kind w with
      | TxLinktest => None
      | _ => Some (with_pending c (delete (w_system w) (pending c)), inl ErrCtx)
      end
  | WakeClosed => if closed c then Some (c, inl ErrClosed) else None
  end.

(** [waitSelectPassive], when a [Select.req] is available. *)
Definition select_passive (wok : bool) (c : Conn) : option (Conn * (TxError + unit)) :=
  match selectReqCh c with
  | [] => None
  | msg :: q =>
      let c := with_sessionID (with_selectReqCh c q) (SessionID (Hdr msg)) in
      let c := sendControlReply wok c STypeSelectRsp (SessionID (Hdr msg)) SelectOK
                 (System (Hdr msg)) in
      if wok then Some (setState c StateConnectedSelected, inr tt) else Some (c, inl ErrWrite)
  end.

Definition Send (wok : bool) (stream function : Z) (body : bytes) (c : Conn)
    : Conn * (TxError + unit) :=
  if decide (state c = StateConnectedSelected) then
    let '(system, c) := nextSystemBytes c in
    (conn_write wok c (MkMessage (DataHeader (sessionID c) stream function false system) body),
     if wok then inr tt else inl ErrWrite)
  else (c, inl ErrNotSelected).

Definition reply_message (to : Message) (function : Z) (body : bytes) : Message :=
  MkMessage (DataHeader (SessionID (Hdr to)) (Stream (Hdr to)) function false (System (Hdr to))) body.
Definition Reply (wok : bool) (to : Message) (function : Z) (body : bytes) (c : Conn) : Conn :=
  conn_write wok c (reply_message to function body).

Definition Separate (wok : bool) (c : Conn) : Conn :=
  let c := if decide (state c = StateConnectedSelected) then
             let '(system, c) := nextSystemBytes c in
             conn_write wok c (control (sessionID c) 0 STypeSeparateReq system)
           else c in
  Close c.

(** [<-c.Recv()] *)
Definition Recv (c : Conn) : option (Message * Conn) :=
  match dataCh c with
  | [] => None
  | m :: q => Some (m, with_dataCh c q)
  end.

(** ** Sessions: the goroutines interleaved *)

Record Sess := MkSess {
  conn : Conn;
  reading : bool;                              (* readLoop has not returned *)
  answering : option Message;                  (* readLoop is writing this control reply *)
  writing : list (Waiter * Message);           (* goroutines writing their request *)
  waiting : list Waiter;                       (* goroutines blocked in a transaction *)
  received : list Message;                     (* messages readLoop took off the wire *)
  results : list (Waiter * (TxError + Message))(* transactions that returned *)
}.

Inductive event :=
| EvBegin (k : TxKind) (stream function : Z) (body : bytes)
| EvWritten (i : nat) (wok : bool)             (* the i-th write of a request returns *)
| EvEnd (i : nat) (why : Wake)                 (* the i-th blocked goroutine wakes *)
| EvRead (msg : Message)
| EvAnswered (wok : bool)                      (* the reader's write returns *)
| EvReadError (e : HsmsError)
| EvSelectPassive (wok : bool)
| EvSend (wok : bool) (stream function : Z) (body : bytes)
| EvReply (wok : bool) (to : Message) (function : Z) (body : bytes)
| EvRecv
| EvSeparate (wok : bool)
| EvClose.

Definition newSess (sid : Z) : Sess := MkSess (newConn sid) true None [] [] [] [].

Definition step (s : Sess) (ev : event) : option Sess :=
  let c := conn s in
  match ev with
  | EvBegin k stream function body =>
      match tx_begin k stream function body c with
      | (c', inr x) => Some (MkSess c' (reading s) (answering s) (writing s ++ [x]) (waiting s) (received s) (results s))
      | (c', inl _) => Some (MkSess c' (reading s) (answering s) (writing s) (waiting s) (received s) (results s))
      end
  | EvWritten i wok =>
      match writing s !! i with
      | None => None
      | Some (w, m) =>
          match tx_written w m wok c with
          | (c', None) => Some (MkSess c' (reading s) (answering s) (delete i (writing s)) (waiting s ++ [w]) (received s) (results s))
          | (c', Some _) =>
              (* linktestLoop fails the connection when its transaction fails, Dial closes on error *)
              let c' := match w_kind w with TxLinktest => fail c' FailLinktest | TxSelect => Close c' | TxData => c' end in
              Some (MkSess c' (reading s) (answering s) (delete i (writing s)) (waiting s) (received s) (results s))
          end
      end
  | EvEnd i why =>
      match waiting s !! i with
      | None => None
      | Some w =>
          match tx_end w why c with
          | None => None
          | Some (c', r) =>
              let c' := match w_kind w, r with
                        | TxLinktest, inl _ => fail c' FailLinktest
                        | TxSelect, inl _ => Close c'          (* Dial closes on error *)
                        | _, _ => c'
                        end in
              Some (MkSess c' (reading s) (answering s) (writing s) (delete i (waiting s)) (received s)
                      (results s ++ [(w, r)]))
          end
      end
  | EvRead msg =>
      if reading s && bool_decide (answering s = None) then
        match readLoop_handle c msg with
        | RContinue c' => Some (MkSess c' true None (writing s) (waiting s) (received s ++ [msg]) (results s))
        | RReturn c' => Some (MkSess c' false None (writing s) (waiting s) (received s ++ [msg]) (results s))
        | RReply m => Some (MkSess c true (Some m) (writing s) (waiting s) (received s ++ [msg]) (results s))
        | RBlocked => None
        end
      else None
  | EvAnswered wok =>
      match answering s with
      | Some m => Some (MkSess (conn_write wok c m) (reading s) None (writing s) (waiting s) (received s) (results s))
      | None => None
      end
  | EvReadError e =>
      if reading s && bool_decide (answering s = None) then
        Some (MkSess (fail c (FailRead e)) false None (writing s) (waiting s) (received s) (results s))
      else None
  | EvSelectPassive wok =>
      match select_passive wok c with
      | None => None
      | Some (c', inr _) => Some (MkSess c' (reading s) (answering s) (writing s) (waiting s) (received s) (results s))
      | Some (c', inl _) =>
          Some (MkSess (Close c') (reading s) (answering s) (writing s) (waiting s) (received s) (results s))
      end
  | EvSend wok stream function body =>
      Some (MkSess (fst (Send wok stream function body c)) (reading s) (answering s) (writing s) (waiting s)
              (received s) (results s))
  | EvReply wok to function body =>
      Some (MkSess (Reply wok to function body c) (reading s) (answering s) (writing s) (waiting s) (received s) (results s))
  | EvRecv =>
      match Recv c with
      | None => None
      | Some (_, c') => Some (MkSess c' (reading s) (answering s) (writing s) (waiting s) (received s) (results s))
      end
  | EvSeparate wok =>
      Some (MkSess (Separate wok c) (reading s) (answering s) (writing s) (waiting s) (received s) (results s))
  | EvClose => Some (MkSess (Close c) (reading s) (answering s) (writing s) (waiting s) (received s) (results s))
  end.

Fixpoint run (s : Sess) (evs : list event) : option Sess :=
  match evs with
  | [] => Some s
  | ev :: evs' => match step s ev with Some s' => run s' evs' | None => None end
  end.

(** ** The session invariant *)

(** A message that completes the Select procedure with status OK. *)
Definition select_ok (m : Message) : Prop :=
  SType (Hdr m) = STypeSelectRsp /\ Byte3 (Hdr m) = SelectOK.

(** The reply channels: what [pending], the channels and the blocked goroutines
    agree on. *)
Record chan_inv (p : gmap Z nat) (r : gmap nat (option Message)) (ws : list Waiter)
    (rcv : list Message) : Prop := MkChanInv {
  (* a pending entry owns an empty reply channel *)
  ci_empty : forall sys ch, p !! sys = Some ch -> r !! ch = Some None;
  (* two entries never share a channel *)
  ci_inj : forall s1 s2 ch, p !! s1 = Some ch -> p !! s2 = Some ch -> s1 = s2;
  (* a blocked goroutine's channel is registered, if at all, under its own system
     bytes, and holds nothing but a received message that carries them *)
  ci_waiter : forall w, w ∈ ws ->
    is_Some (r !! w_ch w) /\
    (forall sys, p !! sys = Some (w_ch w) -> sys = w_system w) /\
    (forall m, r !! w_ch w = Some (Some m) -> System (Hdr m) = w_system w /\ m ∈ rcv)
}.

(** What the reader writes: a Linktest.rsp, or a Select.rsp that says "already active". *)
Definition reply_of_reader (m : Message) : Prop :=
  SType (Hdr m) = STypeLinktestRsp \/ (SType (Hdr m) = STypeSelectRsp /\ Byte3 (Hdr m) = SelectAlreadyActive).

Record sess_inv (s : Sess) : Prop := MkInv {
  inv_chan : chan_inv (pending (conn s)) (replyChs (conn s)) (waiting s ++ map fst (writing s)) (received s);
  (* every transaction that returned a message returned a received one, matched
     by its system bytes *)
  inv_results : forall w m, (w, inr m) ∈ results s ->
    System (Hdr m) = w_system w /\ m ∈ received s;
  (* Recv() only ever carries data messages that were received *)
  inv_data : forall m, m ∈ dataCh (conn s) ->
    SType (Hdr m) = STypeDataMessage /\ m ∈ received s;
  inv_bounds : (length (dataCh (conn s)) <= dataChCap)%nat /\
    (length (selectReqCh (conn s)) <= selectReqChCap)%nat;
  (* CONNECTED/SELECTED is only ever reached through the Select procedure *)
  inv_selected : state (conn s) = StateConnectedSelected ->
    (exists m, m ∈ received s /\ select_ok m) \/ (exists m, m ∈ written (conn s) /\ select_ok m);
  (* once readLoop has returned, the connection is closed *)
  inv_reader : reading s = false -> closed (conn s) = true;
  (* what the reader writes is a control reply *)
  inv_answer : forall m, answering s = Some m -> reply_of_reader m
}.

(** ** Lemmas: the four ways the channels change *)

Lemma chan_shrink p p' r ws ws' rcv rcv' :
  chan_inv p r ws rcv -> p' ⊆ p -> (forall w, w ∈ ws' -> w ∈ ws) ->
  (forall m, m ∈ rcv -> m ∈ rcv') -> chan_inv p' r ws' rcv'.
Proof.
  intros [He Hi Hw] Hp Hws Hr. split.
  - intros sys ch H. eapply He, lookup_weaken; eauto.
  - intros s1 s2 ch H1 H2. eapply Hi; eapply lookup_weaken; eauto.
  - intros w Hin. destruct (Hw w (Hws w Hin)) as (Hs & Hsys & Hm). split_and!; [done| |].
    + intros sys H. eapply Hsys, lookup_weaken; eauto.
    + intros m H. destruct (Hm m H). auto.
Qed.

Lemma chan_register p r ws rcv system ch k :
  chan_inv p r ws rcv -> r !! ch = None ->
  chan_inv (<[system := ch]> p) (<[ch := None]> r) (ws ++ [MkWaiter k system ch]) rcv.
Proof.
  intros [He Hi Hw] Hfresh.
  assert (forall sys ch', <[system := ch]> p !! sys = Some ch' ->
            (sys = system /\ ch' = ch) \/ (ch' <> ch /\ p !! sys = Some ch')) as Hp.
  { intros sys ch'. destruct (decide (sys = system)) as [->|Hne].
    - rewrite lookup_insert_eq. intros [= <-]. auto.
    - rewrite lookup_insert_ne by done. intros H. right. split; [|done].
      intros ->. apply He in H. congruence. }
  split.
  - intros sys ch' [[-> ->]|[Hne H]]%Hp; [by rewrite lookup_insert_eq|].
    rewrite lookup_insert_ne by done. eauto.
  - intros s1 s2 ch' [[-> ->]|[Hn1 H1]]%Hp [[-> E]|[Hn2 H2]]%Hp; try done; eauto.
  - intros w [Hin|Hin]%elem_of_app.
    + destruct (Hw w Hin) as ([o Ho] & Hsys & Hm).
      assert (w_ch w <> ch) as Hwne by congruence. rewrite lookup_insert_ne by done.
      split_and!; [eauto| |done]. intros sys [[-> E]|[_ H]]%Hp; [done|eauto].
    + apply list_elem_of_singleton in Hin as ->. cbn. rewrite lookup_insert_eq.
      split_and!; [eauto| |done]. intros sys [[-> _]|[Hne _]]%Hp; done.
Qed.

Lemma chan_deliver p r ws rcv msg ch :
  chan_inv p r ws rcv -> p !! System (Hdr msg) = Some ch ->
  chan_inv (delete (System (Hdr msg)) p) (<[ch := Some msg]> r) ws (rcv ++ [msg]).
Proof.
  intros [He Hi Hw] Hch. split.
  - intros sys ch' [Hne H]%lookup_delete_Some.
    rewrite lookup_insert_ne; [eauto|]. intros <-. apply Hne. eauto.
  - intros s1 s2 ch' [_ H1]%lookup_delete_Some [_ H2]%lookup_delete_Some. eauto.
  - intros w Hin. destruct (Hw w Hin) as (Hs & Hsys & Hm).
    destruct (decide (w_ch w = ch)) as [E|Hne].
    + rewrite E, lookup_insert_eq. rewrite E in Hsys. split_and!; [eauto| |].
      * intros sys [_ H]%lookup_delete_Some. eauto.
      * intros m [= <-]. split; [by apply Hsys|]. auto with go.
    + rewrite lookup_insert_ne by done. split_and!; [done| |].
      * intros sys [_ H]%lookup_delete_Some. eauto.
      * intros m H. destruct (Hm m H). auto with go.
Qed.

Lemma chan_take p r ws ws' rcv ch m :
  chan_inv p r ws rcv -> r !! ch = Some (Some m) -> (forall w, w ∈ ws' -> w ∈ ws) ->
  chan_inv p (<[ch := None]> r) ws' rcv.
Proof.
  intros [He Hi Hw] Hch Hws. split.
  - intros sys ch' H. destruct (decide (ch' = ch)) as [->|]; [by rewrite lookup_insert_eq|].
    rewrite lookup_insert_ne by done. eauto.
  - done.
  - intros w Hin. destruct (Hw w (Hws w Hin)) as (Hs & Hsys & Hm).
    destruct (decide (w_ch w = ch)) as [->|];
      [rewrite lookup_insert_eq|rewrite lookup_insert_ne by done]; split_and!; naive_solver.
Qed.

Lemma fresh_ch_None c : replyChs c !! fresh_ch c = None.
Proof. apply not_elem_of_dom. unfold fresh_ch. apply is_fresh. Qed.

Lemma elem_of_delete_waiting (i : nat) (ws : list Waiter) w : w ∈ delete i ws -> w ∈ ws.
Proof. intros H. eapply elem_of_sublist; [exact H|apply sublist_delete]. Qed.

(** ** Preservation *)

(** Everything except the channels: a step that only extends histories, keeps or
    leaves the selected state, and bounds its queues. *)
Lemma inv_frame s s' :
  sess_inv s ->
  chan_inv (pending (conn s')) (replyChs (conn s')) (waiting s' ++ map fst (writing s')) (received s') ->
  (forall m, m ∈ received s -> m ∈ received s') ->
  (forall w m, (w, inr m) ∈ results s' -> (w, inr m) ∈ results s \/
     (System (Hdr m) = w_system w /\ m ∈ received s')) ->
  (forall m, m ∈ dataCh (conn s') -> m ∈ dataCh (conn s) \/
     (SType (Hdr m) = STypeDataMessage /\ m ∈ received s')) ->
  (length (dataCh (conn s')) <= dataChCap)%nat ->
  (length (selectReqCh (conn s')) <= selectReqChCap)%nat ->
  (forall m, m ∈ written (conn s) -> m ∈ written (conn s')) ->
  (state (conn s') = StateConnectedSelected -> state (conn s) = StateConnectedSelected \/
     (exists m, m ∈ received s' /\ select_ok m) \/ (exists m, m ∈ written (conn s') /\ select_ok m)) ->
  (reading s' = false -> closed (conn s') = true) ->
  (forall m, answering s' = Some m -> answering s = Some m \/ reply_of_reader m) ->
  sess_inv s'.
Proof.
  intros [_ Hres Hdata _ Hsel _ Hans] Hchan Hrcv Hres' Hdata' Hb1 Hb2 Hwr Hst Hrd Hans'.
  split; [done| | |done| |done|].
  - intros w m [H|H]%Hres'; [|done]. destruct (Hres w m H). auto.
  - intros m [H|H]%Hdata'; [|done]. destruct (Hdata m H). auto.
  - intros [H|H]%Hst; [|done]. destruct (Hsel H) as [(m & ? & ?)|(m & ? & ?)]; eauto 6.
  - intros m [H|H]%Hans'; eauto.
Qed.

(** [inv_frame] with the goals that hold by computation closed. *)
Ltac frame I :=
  eapply (inv_frame _ _ I); cbn; try (by eauto); try (by apply (inv_bounds _ I));
  try (by apply (inv_reader _ I)); auto with go.

Lemma conn_write_written ok c m x : x ∈ written c -> x ∈ written (conn_write ok c m).
Proof. destruct ok; cbn; auto with go. Qed.

Lemma handle_inv s msg :
  sess_inv s -> reading s = true ->
  match readLoop_handle (conn s) msg with
  | RContinue c' => sess_inv (MkSess c' true None (writing s) (waiting s) (received s ++ [msg]) (results s))
  | RReturn c' => sess_inv (MkSess c' false None (writing s) (waiting s) (received s ++ [msg]) (results s))
  | RReply m => sess_inv (MkSess (conn s) true (Some m) (writing s) (waiting s) (received s ++ [msg]) (results s))
  | RBlocked => True
  end.
Proof.
  intros I Hr. pose proof (inv_chan _ I) as Hc. pose proof (inv_bounds _ I) as [Hb1 Hb2].
  assert (forall p, p ⊆ pending (conn s) ->
    chan_inv p (replyChs (conn s)) (waiting s ++ map fst (writing s)) (received s ++ [msg])) as Hgrow.
  { intros p Hp. eapply chan_shrink; eauto with go. }
  unfold readLoop_handle.
  destruct (SType (Hdr msg) =? STypeSeparateReq); [frame I|].
  destruct (SType (Hdr msg) =? STypeLinktestReq).
  { frame I. intros m [= <-]. right. by left. }
  destruct (SType (Hdr msg) =? STypeSelectReq).
  { case_decide; [frame I; intros m [= <-]; right; by right|].
    destruct (Nat.ltb_spec (length (selectReqCh (conn s))) selectReqChCap).
    - frame I. rewrite length_app; cbn. unfold selectReqChCap in *. lia.
    - destruct (closed (conn s)) eqn:E; [|done]. frame I. }
  destruct (pending (conn s) !! System (Hdr msg)) as [ch|] eqn:Ep.
  { unfold reply_send. cbn. rewrite (ci_empty _ _ _ _ Hc _ _ Ep).
    frame I. by apply chan_deliver. }
  destruct (Z.eqb_spec (SType (Hdr msg)) STypeDataMessage); [|frame I].
  destruct (Nat.ltb_spec (length (dataCh (conn s))) dataChCap).
  - frame I; [|rewrite length_app; cbn; unfold dataChCap in *; lia].
    intros m [?| ->]%elem_of_snoc; auto with go.
  - destruct (closed (conn s)) eqn:E; [|done]. frame I.
Qed.

Lemma begin_inv s k stream function body :
  sess_inv s ->
  match tx_begin k stream function body (conn s) with
  | (c', inr x) => sess_inv (MkSess c' (reading s) (answering s) (writing s ++ [x]) (waiting s) (received s) (results s))
  | (c', inl _) => sess_inv (MkSess c' (reading s) (answering s) (writing s) (waiting s) (received s) (results s))
  end.
Proof.
  intros I. pose proof (inv_chan _ I) as Hc. pose proof (inv_bounds _ I) as [Hb1 Hb2].
  pose proof (chan_register _ _ _ _ (u32 (nextSystem (conn s) + 1)) _ k Hc (fresh_ch_None (conn s))) as Hreg.
  unfold tx_begin. destruct k; [| |case_decide]; cbn; frame I; rewrite map_app, app_assoc; exact Hreg.
Qed.
Lemma written_inv s i w m wok : sess_inv s -> writing s !! i = Some (w, m) ->
  match tx_written w m wok (conn s) with
  | (c', None) => sess_inv (MkSess c' (reading s) (answering s) (delete i (writing s)) (waiting s ++ [w]) (received s) (results s))
  | (c', Some _) => sess_inv (MkSess c' (reading s) (answering s) (delete i (writing s)) (waiting s) (received s) (results s))
  end.
Proof.
  intros I Hi. pose proof (inv_chan _ I) as Hc. pose proof (inv_bounds _ I) as [Hb1 Hb2].
  assert (map fst (writing s) ≡ₚ w :: map fst (delete i (writing s))) as Hp by (by rewrite (delete_Permutation _ _ _ Hi) at 1).
  assert (forall p ws, p ⊆ pending (conn s) -> (forall x, x ∈ ws -> x ∈ waiting s ++ [w]) ->
    chan_inv p (replyChs (conn s)) (ws ++ map fst (delete i (writing s))) (received s)) as Hshrink.
  { intros p ws Hsub Hws. eapply chan_shrink; [exact Hc|done| |done]. intros x. specialize (Hws x). rewrite !elem_of_app, Hp in *. set_solver. }
  unfold tx_written. destruct wok; [frame I|]. destruct (w_kind w); frame I; apply Hshrink; first [set_solver|apply delete_subseteq|done].
Qed.

Lemma fail_inv s e rd :
  sess_inv s -> sess_inv (MkSess (fail (conn s) e) rd (answering s) (writing s) (waiting s) (received s) (results s)).
Proof.
  intros I. pose proof (inv_chan _ I). pose proof (inv_bounds _ I) as [Hb1 Hb2]. frame I.
Qed.
Lemma close_inv s :
  sess_inv s -> sess_inv (MkSess (Close (conn s)) (reading s) (answering s) (writing s) (waiting s) (received s) (results s)).
Proof.
  intros I. pose proof (inv_chan _ I). pose proof (inv_bounds _ I) as [Hb1 Hb2]. frame I.
Qed.

Lemma end_inv s i w why c' r :
  sess_inv s -> waiting s !! i = Some w -> tx_end w why (conn s) = Some (c', r) ->
  sess_inv (MkSess c' (reading s) (answering s) (writing s) (delete i (waiting s)) (received s) (results s ++ [(w, r)])).
Proof.
  intros I Hw H. pose proof (inv_chan _ I) as Hc. pose proof (inv_bounds _ I) as [Hb1 Hb2].
  assert (w ∈ waiting s) as Hin by (by eapply list_elem_of_lookup_2).
  assert (forall x, x ∈ delete i (waiting s) ++ map fst (writing s) -> x ∈ waiting s ++ map fst (writing s)) as Hsub.
  { intros x. rewrite !elem_of_app. intros [?%elem_of_delete_waiting|?]; auto. }
  assert (forall p, p ⊆ pending (conn s) ->
    chan_inv p (replyChs (conn s)) (delete i (waiting s) ++ map fst (writing s)) (received s)) as Hshrink.
  { intros p Hp. eapply chan_shrink; [done|done|apply Hsub|done]. }
  assert (forall e w' m, (w', inr m) ∈ results s ++ [(w, inl e)] -> (w', inr m) ∈ results s) as Hnew.
  { intros e w' m [?|?]%elem_of_snoc; [done|congruence]. }
  unfold tx_end in H. destruct why.
  - destruct (replyChs (conn s) !! w_ch w) as [[reply|]|] eqn:Er; try done.
    destruct (ci_waiter _ _ _ _ Hc w ltac:(apply elem_of_app; by left)) as (_ & _ & Hm). destruct (Hm reply Er) as [Hsys Hrcv].
    pose proof (chan_take _ _ _ _ _ _ _ Hc Er Hsub) as Htake.
    assert (forall w' m, (w', inr m) ∈ results s ++ [(w, inr reply)] ->
      (w', inr m) ∈ results s \/ (System (Hdr m) = w_system w' /\ m ∈ received s)) as Hnew'.
    { intros w' m [?|E]%elem_of_snoc; [by left|]. right. injection E as -> ->. done. }
    destruct (w_kind w); [|simplify_eq; frame I..].
    destruct (Z.eqb_spec (SType (Hdr reply)) STypeSelectRsp) as [Hst|]; cbn in H;
      [|simplify_eq; frame I; eauto].
    destruct (Z.eqb_spec (Byte3 (Hdr reply)) SelectOK) as [Hok|]; cbn in H; simplify_eq.
    + frame I. intros _. right. left. exists reply. by split.
    + frame I; eauto.
  - simplify_eq. frame I; eauto; apply Hshrink, delete_subseteq.
  - destruct (w_kind w); simplify_eq; frame I; eauto; apply Hshrink, delete_subseteq.
  - destruct (closed (conn s)) eqn:E; simplify_eq. frame I; eauto.
Qed.

Lemma sess_step_inv s ev s' : sess_inv s -> step s ev = Some s' -> sess_inv s'.
Proof.
  intros I H. pose proof (inv_chan _ I) as Hc. pose proof (inv_bounds _ I) as [Hb1 Hb2].
  destruct ev as [k st fn b|i wok|i why|msg|wok|e|wok|wok st fn b|wok to fn b| |wok|]; cbn in H.
  - pose proof (begin_inv s k st fn b I) as Hb. destruct (tx_begin k st fn b (conn s)) as [c' [e|w]]; by simplify_eq.
  - destruct (writing s !! i) as [[w m]|] eqn:Ew; [|done]. pose proof (written_inv s i w m wok I Ew) as Hb.
    destruct (tx_written w m wok (conn s)) as [c' [e|]]; simplify_eq; [|done].
    destruct (w_kind w); [apply (close_inv _ Hb)|apply (fail_inv _ FailLinktest (reading s) Hb)|done].
  - destruct (waiting s !! i) as [w|] eqn:Ew; [|done].
    destruct (tx_end w why (conn s)) as [[c' r]|] eqn:Ee; [|done].
    pose proof (end_inv s i w why c' r I Ew Ee) as He. simplify_eq.
    destruct (w_kind w), r; try done.
    + apply (close_inv _ He).
    + apply (fail_inv _ FailLinktest (reading s) He).
  - destruct (reading s) eqn:Er; [|done]. destruct (bool_decide (answering s = None)); [|done]. pose proof (handle_inv s msg I Er) as Hh. cbn in H.
    destruct (readLoop_handle (conn s) msg); by simplify_eq.
  - destruct (answering s) as [m|] eqn:Em; [|done]. simplify_eq. destruct wok; cbn; frame I.
  - destruct (reading s && _) eqn:Er; [|done]. apply andb_prop in Er as [_ Er%bool_decide_eq_true]. simplify_eq. rewrite <- Er. by apply fail_inv.
  - unfold select_passive in H. destruct (selectReqCh (conn s)) as [|m q] eqn:Eq; [done|].
    cbn in Hb2. destruct wok; simplify_eq; frame I; try (cbn in Hb2; lia).
    intros _. right. right. eexists. split; [apply elem_of_snoc_r|by split].
  - unfold Send in H. simplify_eq. case_decide; [destruct wok|]; cbn; frame I.
  - simplify_eq. destruct wok; cbn; frame I.
  - unfold Recv in H. destruct (dataCh (conn s)) as [|m q] eqn:Eq; [done|]. simplify_eq.
    frame I; [|cbn in *; lia]. intros x Hx. left. rewrite Eq. by right.
  - simplify_eq. unfold Separate. case_decide; [destruct wok|]; cbn; frame I.
  - simplify_eq. by apply close_inv.
Qed.

Lemma newSess_inv sid : sess_inv (newSess sid).
Proof.
  split; cbn; try done; try (by intros ?? ?%not_elem_of_nil); try (by intros ? ?%not_elem_of_nil);
    try (split; unfold dataChCap, selectReqChCap; lia).
  split; [by intros ?? ?%lookup_empty_Some|by intros ??? ?%lookup_empty_Some|by intros ? ?%not_elem_of_nil].
Qed.

Lemma sess_run_inv evs s s' : sess_inv s -> run s evs = Some s' -> sess_inv s'.
Proof.
  revert s. induction evs as [|ev evs IH]; intros s I H; cbn in H; [by simplify_eq|].
  destruct (step s ev) as [s1|] eqn:E; [|done]. eauto using sess_step_inv.
Qed.

(** ** Theorems *)

(** A run of an active session: Select, one S1F1 request and its reply. *)
Definition sample_events : list event :=
  [EvBegin TxSelect 0 0 []; EvWritten 0 true; EvRead (control 7 SelectOK STypeSelectRsp 1);
   EvEnd 0 WakeReply; EvBegin TxData 1 1 [1; 0]; EvWritten 0 true;
   EvRead (MkMessage (DataHeader 7 6 11 true 900) []);
   EvRead (MkMessage (DataHeader 7 1 2 false 2) [1; 0]); EvEnd 0 WakeReply].

(** [C28] in every interleaving of the reader, the timers, the linktest loop and any
    number of callers, a transaction that returns a message returns one that was
    received on this connection and carries the transaction's own system bytes. *)
Theorem replies_matched (sid : Z) (evs : list event) (s : Sess) (w : Waiter) (m : Message) :
  run (newSess sid) evs = Some s -> (w, inr m) ∈ results s ->
  System (Hdr m) = w_system w /\ m ∈ received s.
Proof. intros H. apply inv_results. eapply sess_run_inv; [apply newSess_inv|exact H]. Qed.

Lemma replies_matched_witness :
  exists s w m, run (newSess 7) sample_events = Some s /\ (w, inr m) ∈ results s /\
    System (Hdr m) = w_system w /\ m ∈ received s.
Proof.
  destruct (run (newSess 7) sample_events) as [s|] eqn:E; [|by vm_compute in E].
  exists s, (MkWaiter TxData 2 1), (MkMessage (DataHeader 7 1 2 false 2) [1; 0]).
  assert ((MkWaiter TxData 2 1, inr (MkMessage (DataHeader 7 1 2 false 2) [1; 0])) ∈ results s) as H.
  { vm_compute in E. injection E as <-. right. left. }
  split; [reflexivity|]. split; [exact H|].
  exact (replies_matched 7 sample_events s _ _ E H).
Defined.

(** [C29] What the reader goroutine can wait for, in every reachable session, with writes to the
    TCP connection that take any time.  It is never stuck on a reply channel: a message
    that matches a pending transaction is handed over at once.  It waits for a full
    [dataCh] (16 messages) or a full [selectReqCh] (one), which never exceed those
    capacities, until there is room or the connection is closed; and it waits in the
    write of its own answer to a Linktest.req, or to a Select.req in the selected state,
    which has no deadline.  When it does neither, it takes the next message. *)
Theorem reader_progress (sid : Z) (evs : list event) (s : Sess) (msg : Message) :
  run (newSess sid) evs = Some s ->
  (length (dataCh (conn s)) <= 16)%nat /\ (length (selectReqCh (conn s)) <= 1)%nat /\
  (forall m, answering s = Some m -> reply_of_reader m) /\
  (reading s = true -> answering s = None -> step s (EvRead msg) = None ->
     closed (conn s) = false /\
     ((SType (Hdr msg) = STypeSelectReq /\ length (selectReqCh (conn s)) = 1%nat) \/
      (SType (Hdr msg) = STypeDataMessage /\ pending (conn s) !! System (Hdr msg) = None /\
       length (dataCh (conn s)) = 16%nat))).
Proof.
  intros H. pose proof (sess_run_inv _ _ _ (newSess_inv sid) H) as I.
  destruct (inv_bounds _ I) as [Hb1 Hb2]. unfold dataChCap, selectReqChCap in *.
  split_and!; [done|done|apply (inv_answer _ I)|]. intros Hr Ha. cbn [step]. rewrite Hr, Ha. cbn. unfold readLoop_handle.
  destruct (SType (Hdr msg) =? STypeSeparateReq); [done|].
  destruct (SType (Hdr msg) =? STypeLinktestReq); [done|].
  destruct (Z.eqb_spec (SType (Hdr msg)) STypeSelectReq).
  { case_decide; [done|]. destruct (Nat.ltb_spec (length (selectReqCh (conn s))) selectReqChCap); [done|].
    destruct (closed (conn s)); [done|]. intros _. split; [done|]. left.
    unfold selectReqChCap in *. split; [done|lia]. }
  destruct (pending (conn s) !! System (Hdr msg)) as [ch|] eqn:Ep.
  { unfold reply_send. cbn. by rewrite (ci_empty _ _ _ _ (inv_chan _ I) _ _ Ep). }
  destruct (Z.eqb_spec (SType (Hdr msg)) STypeDataMessage); [|done].
  destruct (Nat.ltb_spec (length (dataCh (conn s))) dataChCap); [done|].
  destruct (closed (conn s)); [done|]. intros _. split; [done|]. right.
  unfold dataChCap in *. split_and!; [done|done|lia].
Qed.

(** Seventeen events that nobody takes: the reader waits with the seventeenth. *)
Definition s6f11 (system : Z) : Message := MkMessage (DataHeader 7 6 11 true system) [].
Definition crowded : list event := map (fun k => EvRead (s6f11 (900 + Z.of_nat k))) (seq 0 16).
Lemma reader_progress_witness :
  exists s, run (newSess 7) crowded = Some s /\ step s (EvRead (s6f11 1000)) = None /\ closed (conn s) = false /\
    length (dataCh (conn s)) = 16%nat.
Proof.
  destruct (run (newSess 7) crowded) as [s|] eqn:E; [|by vm_compute in E].
  exists s. split; [reflexivity|].
  destruct (reader_progress 7 crowded s (s6f11 1000) E) as (_ & _ & _ & H).
  vm_compute in E. injection E as <-. destruct H as [Hc [[H _]|(_ & _ & Hd)]]; [vm_compute; reflexivity..|vm_compute in H; discriminate|].
  split; [vm_compute; reflexivity|]. split; [exact Hc|exact Hd].
Defined.

(** While the peer does not read, the answer to its Linktest.req keeps the reader in the write, and nothing
    that arrives is taken, not even the reply that another goroutine waits for. *)
Lemma reader_stuck_in_write :
  exists s, run (newSess 7) [EvBegin TxSelect 0 0 []; EvWritten 0 true; EvRead (control 7 0 STypeLinktestReq 5)] = Some s /\
    length (waiting s) = 1%nat /\ forall msg, step s (EvRead msg) = None.
Proof. eexists. split; [vm_compute; reflexivity|]. split; [reflexivity|]. intros msg. reflexivity. Qed.

(** a session is only ever in CONNECTED/SELECTED after a Select procedure that
    ended with status OK: one was received, or one was written by the passive side. *)
Theorem selected_after_select (sid : Z) (evs : list event) (s : Sess) :
  run (newSess sid) evs = Some s -> state (conn s) = StateConnectedSelected ->
  (exists m, m ∈ received s /\ select_ok m) \/ (exists m, m ∈ written (conn s) /\ select_ok m).
Proof. intros H. apply inv_selected. eapply sess_run_inv; [apply newSess_inv|exact H]. Qed.

Lemma selected_after_select_witness :
  exists s, run (newSess 7) sample_events = Some s /\ state (conn s) = StateConnectedSelected /\
   ((exists m, m ∈ received s /\ select_ok m) \/ (exists m, m ∈ written (conn s) /\ select_ok m)).
Proof.
  destruct (run (newSess 7) sample_events) as [s|] eqn:E; [|by vm_compute in E].
  exists s. split; [reflexivity|].
  assert (state (conn s) = StateConnectedSelected) as Hs
    by (vm_compute in E; injection E as <-; reflexivity).
  split; [exact Hs|]. exact (selected_after_select 7 sample_events s E Hs).
Defined.

(** matching is by system bytes alone: a primary message the peer initiated (W-bit
    set) whose system bytes collide with an outstanding request is handed to that
    request as its reply and never reaches [Recv()]. *)
Theorem primary_taken_as_reply :
  exists evs s w m,
    run (newSess 7) evs = Some s /\ (w, inr m) ∈ results s /\
    w_kind w = TxData /\ WBit (Hdr m) = true /\ Stream (Hdr m) = 6 /\ Function_ (Hdr m) = 11 /\
    m ∉ dataCh (conn s).
Proof.
  set (ev6 := MkMessage (DataHeader 7 6 11 true 2) [1; 0]).
  eexists ([EvBegin TxSelect 0 0 []; EvWritten 0 true; EvRead (control 7 SelectOK STypeSelectRsp 1);
            EvEnd 0 WakeReply; EvBegin TxData 1 1 [1; 0]; EvWritten 0 true; EvRead ev6; EvEnd 0 WakeReply]).
  eexists _, (MkWaiter TxData 2 1), ev6. split; [vm_compute; reflexivity|].
  split; [right; left|]. split_and!; try done. by intros ?%not_elem_of_nil.
Qed.

End hsmsconn.
