(* ===== verification/Gem.v ===== *)
(** * GEM: message dictionary, host and equipment simulator
    ([engine/nodes/gem], [engine/nodes/gemsim])

    [gem] holds the message bodies of [dictionary.go] (encoders and parsers) and
    the host of [host.go]; [gemsim] the equipment simulator of [gemsim.go].  A Go
    map iterated with [range] has no fixed order, so an operation that iterates
    one takes the order as an argument. *)

From S2P Require Import Prelude Bytes SecsII Hsms HsmsConn.
Local Open Scope Z_scope.

Module gem.
Import secsii.

Definition AckCode_OK (a : Z) : bool := a =? 0.

(** The [fmt.Errorf] of the parsers: the message they are about, and why. *)
Inductive GemError :=
| ErrShape (msg : string)                          (* not a list, or a wrong element count *)
| ErrNotNumeric (msg field : string)
| ErrNotText (msg : string)
| ErrEntryShape (msg : string) (i : Z)
| ErrEntryNotNumeric (msg : string) (i : Z)
| ErrEntryValues (msg : string) (i : Z).

Definition is_list (it : Item) : bool := Format it =? FormatList.
Definition text_or_empty (it : Item) : string := default "" (Text it).

(** A parser's [x, ok := it.Int64(); if !ok { return err }]. *)
Definition int64_or {E} (it : Item) (e : E) : res E Z :=
  match Int64 it with Some v => Ok v | None => Err e end.

(** ** S1F1/F2 *)
Definition EncodeAreYouThere : Item := L [].
Definition ParseAreYouThereReply (body : Item) : res GemError (string * string) :=
  if negb (is_list body) then Err (ErrShape "S1F2") else
  match List_ body with
  | [] => Ok (EmptyString, EmptyString)
  | [a; b] => Ok (text_or_empty a, text_or_empty b)
  | _ => Err (ErrShape "S1F2")
  end.

(** ** S1F13/F14 *)
Definition EncodeEstablishCommunications (mdln softrev : string) : Item := L [A mdln; A softrev].
Definition ParseEstablishCommunicationsReply (body : Item) : res GemError (Z * string * string) :=
  if negb (is_list body) then Err (ErrShape "S1F14") else
  match List_ body with
  | [c; inner] =>
      ack ← int64_or c (ErrNotNumeric "S1F14" "COMMACK");
      if negb (is_list inner) then Ok (u8 ack, EmptyString, EmptyString) else
      match List_ inner with
      | [a; b] => Ok (u8 ack, text_or_empty a, text_or_empty b)
      | _ => Ok (u8 ack, EmptyString, EmptyString)
      end
  | _ => Err (ErrShape "S1F14")
  end.

(** ** S1F3/F4, S1F11/F12 *)
Definition EncodeStatusVariableRequest (svids : list Z) : Item :=
  L (map (fun v => U4v [v]) svids).
Definition ParseStatusVariableReply (body : Item) : res GemError (list Item) :=
  if negb (is_list body) then Err (ErrShape "S1F4") else Ok (List_ body).

Record SVIDInfo := MkSVIDInfo { SVID : Z; Name : string; Units : string }.
Definition EncodeStatusVariableNamelistRequest (svids : list Z) : Item :=
  EncodeStatusVariableRequest svids.

(** [for i, entry := range list]: [f] on each entry with its index, stopping at the
    first error. *)
Fixpoint each_entry {T} (f : Z -> Item -> res GemError T) (i : Z) (l : list Item)
    : res GemError (list T) :=
  match l with
  | [] => Ok []
  | e :: l' => x ← f i e; xs ← each_entry f (i + 1) l'; Ok (x :: xs)
  end.

Definition parse_svid_entry (i : Z) (entry : Item) : res GemError SVIDInfo :=
  if negb (is_list entry) then Err (ErrEntryShape "S1F12" i) else
  match List_ entry with
  | [a; b; c] =>
      svid ← int64_or a (ErrEntryNotNumeric "S1F12" i);
      Ok (MkSVIDInfo (u32 svid) (text_or_empty b) (text_or_empty c))
  | _ => Err (ErrEntryShape "S1F12" i)
  end.
Definition ParseStatusVariableNamelistReply (body : Item) : res GemError (list SVIDInfo) :=
  if negb (is_list body) then Err (ErrShape "S1F12") else each_entry parse_svid_entry 0 (List_ body).

(** ** S2F17/F18 *)
Definition EncodeDateTimeRequest : Item := L [].
Definition ParseDateTimeReply (body : Item) : res GemError string :=
  match Text body with Some s => Ok s | None => Err (ErrNotText "S2F18") end.

(** ** Acknowledgements *)
Definition parseSingleAck (body : Item) (msg field : string) : res GemError Z :=
  if negb (is_list body) then Err (ErrShape msg) else
  match List_ body with
  | [a] => v ← int64_or a (ErrNotNumeric msg field); Ok (u8 v)
  | _ => Err (ErrShape msg)
  end.

(** ** S2F33/F34: define report *)
Record ReportDef := MkReportDef { RPTID : Z; VIDs : list Z }.
Definition report_item (r : ReportDef) : Item :=
  L [U4v [RPTID r]; L (map (fun v => U4v [v]) (VIDs r))].
Definition EncodeDefineReport (dataID : Z) (reports : list ReportDef) : Item :=
  L [U4v [dataID]; L (map report_item reports)].
Definition ParseDefineReportReply (body : Item) : res GemError Z :=
  parseSingleAck body "S2F34" "DRACK".

(** ** S2F35/F36: link event report *)
Record EventLink := MkEventLink { CEID : Z; RPTIDs : list Z }.
Definition link_item (l : EventLink) : Item :=
  L [U4v [CEID l]; L (map (fun r => U4v [r]) (RPTIDs l))].
Definition EncodeLinkEventReport (dataID : Z) (links : list EventLink) : Item :=
  L [U4v [dataID]; L (map link_item links)].
Definition ParseLinkEventReportReply (body : Item) : res GemError Z :=
  parseSingleAck body "S2F36" "LRACK".

(** ** S2F37/F38, S2F23/F24 *)
Definition EncodeEnableEvents (enable : bool) (ceids : list Z) : Item :=
  L [Bool [enable]; L (map (fun c => U4v [c]) ceids)].
Definition ParseEnableEventsReply (body : Item) : res GemError Z :=
  parseSingleAck body "S2F38" "ERACK".
Definition EncodeEstablishTrace (trid : Z) (period : string) (totalSamples reportEvery : Z)
    (svids : list Z) : Item :=
  L [U4v [trid]; A period; U4v [totalSamples]; U4v [reportEvery]; L (map (fun v => U4v [v]) svids)].
Definition ParseEstablishTraceReply (body : Item) : res GemError Z :=
  parseSingleAck body "S2F24" "TIAACK".

(** ** S6F1: trace data *)
Record TraceData := MkTraceData { TRID : Z; td_Values : list Item }.
Definition ParseTraceData (body : Item) : res GemError TraceData :=
  if negb (is_list body) then Err (ErrShape "S6F1") else
  match List_ body with
  | [t; values] =>
      trid ← int64_or t (ErrNotNumeric "S6F1" "TRID");
      if negb (is_list values) then Err (ErrShape "S6F1 values") else
      Ok (MkTraceData (u32 trid) (List_ values))
  | _ => Err (ErrShape "S6F1")
  end.
Definition EncodeTraceDataAck (ack : Z) : Item := L [U1v [ack]].

(** ** S6F11: event reports *)
Record ReportData := MkReportData { rd_RPTID : Z; rd_Values : list Item }.
Record EventReport := MkEventReport { DataID : Z; er_CEID : Z; Reports : list ReportData }.

Definition parse_report (i : Z) (r : Item) : res GemError ReportData :=
  if negb (is_list r) then Err (ErrEntryShape "S6F11" i) else
  match List_ r with
  | [a; values] =>
      rptid ← int64_or a (ErrEntryNotNumeric "S6F11" i);
      if negb (is_list values) then Err (ErrEntryValues "S6F11" i) else
      Ok (MkReportData (u32 rptid) (List_ values))
  | _ => Err (ErrEntryShape "S6F11" i)
  end.
Definition ParseEventReport (body : Item) : res GemError EventReport :=
  if negb (is_list body) then Err (ErrShape "S6F11") else
  match List_ body with
  | [d; c; reportsList] =>
      dataID ← int64_or d (ErrNotNumeric "S6F11" "DATAID");
      ceid ← int64_or c (ErrNotNumeric "S6F11" "CEID");
      if negb (is_list reportsList) then Err (ErrShape "S6F11 reports") else
      reports ← each_entry parse_report 0 (List_ reportsList);
      Ok (MkEventReport (u32 dataID) (u32 ceid) reports)
  | _ => Err (ErrShape "S6F11")
  end.
Definition EncodeEventReportAck (ack : Z) : Item := L [U1v [ack]].

(** ** S5F1/F2, S5F3/F4: alarms *)
Record Alarm := MkAlarm { Set_ : bool; Code : Z; ALID : Z; al_Text : string }.
Definition ParseAlarmReport (body : Item) : res GemError Alarm :=
  if negb (is_list body) then Err (ErrShape "S5F1") else
  match List_ body with
  | [a; b; c] =>
      alcd ← int64_or a (ErrNotNumeric "S5F1" "ALCD");
      alid ← int64_or b (ErrNotNumeric "S5F1" "ALID");
      Ok (MkAlarm (negb (Z.land alcd 0x80 =? 0)) (Z.land (u8 alcd) 0x7F) (u32 alid)
            (text_or_empty c))
  | _ => Err (ErrShape "S5F1")
  end.
Definition EncodeAlarmAck (ack : Z) : Item := L [U1v [ack]].
Definition EncodeEnableAlarm (enable : bool) (alid : Z) : Item := L [Bool [enable]; U4v [alid]].
Definition ParseEnableAlarmReply (body : Item) : res GemError Z :=
  parseSingleAck body "S5F4" "ACKC5".

(** ** S2F41/F42, S2F15/F16: the map arguments in iteration order *)
Definition EncodeRemoteCommand (rcmd : string) (params : list (string * string)) : Item :=
  L [A rcmd; L (map (fun p => L [A (fst p); A (snd p)]) params)].
Definition ParseRemoteCommandReply (body : Item) : res GemError Z :=
  if negb (is_list body) then Err (ErrShape "S2F42") else
  match List_ body with
  | a :: _ => v ← int64_or a (ErrNotNumeric "S2F42" "HCACK"); Ok (u8 v)
  | [] => Err (ErrShape "S2F42")
  end.
Definition EncodeNewEquipmentConstants (dataID : Z) (values : list (Z * Item)) : Item :=
  L [U4v [dataID]; L (map (fun p => L [U4v [fst p]; snd p]) values)].
Definition ParseNewEquipmentConstantsReply (body : Item) : res GemError Z :=
  parseSingleAck body "S2F16" "EAC".

(** ** The host ([host.go]) *)

Record Host := MkHost {
  h_conn : hsmsconn.Conn;
  mdln : string;
  softrev : string;
  events : list EventReport;   (* capacity 16 *)
  traces : list TraceData;     (* capacity 64 *)
  alarms : list Alarm          (* capacity 16 *)
}.
Definition NewHost (conn : hsmsconn.Conn) (mdln softrev : string) : Host :=
  MkHost conn mdln softrev [] [] [].

(** [select { case ch <- x: default: }] on a channel of capacity [cap]. *)
Definition try_send {T} (cap : nat) (ch : list T) (x : T) : list T :=
  if (length ch <? cap)%nat then ch ++ [x] else ch.

(** [if err == nil { if v, err := parse(body); err == nil {...} }] *)
Definition decode_parse {T} (parse : Item -> res GemError T) (b : bytes) : option T :=
  match Decode b with
  | Ok (body, _) => match parse body with Ok v => Some v | _ => None end
  | _ => None
  end.

(** The reply, if any, [handle] sends to an unsolicited primary message. *)
Definition host_answer (h : Host) (msg : hsms.Message) : option (Z * Item) :=
  let stream := hsms.Stream (hsms.Hdr msg) in
  let function := hsms.Function_ (hsms.Hdr msg) in
  if hsms.WBit (hsms.Hdr msg) then
    if (stream =? 1) && (function =? 1) then Some (2, L [A (mdln h); A (softrev h)])
    else if (stream =? 6) && (function =? 11) then Some (12, EncodeEventReportAck 0)
    else if (stream =? 6) && (function =? 1) then Some (2, EncodeTraceDataAck 0)
    else if (stream =? 5) && (function =? 1) then Some (2, EncodeAlarmAck 0)
    else Some (u8 (function + 1), L [])
  else None.

Definition handle (wok : bool) (h : Host) (msg : hsms.Message) : Host :=
  let stream := hsms.Stream (hsms.Hdr msg) in
  let function := hsms.Function_ (hsms.Hdr msg) in
  let conn' := match host_answer h msg with
               | Some (fn, body) => hsmsconn.Reply wok msg fn (Encode body) (h_conn h)
               | None => h_conn h
               end in
  if (stream =? 1) && (function =? 1) then
    MkHost conn' (mdln h) (softrev h) (events h) (traces h) (alarms h)
  else if (stream =? 6) && (function =? 11) then
    MkHost conn' (mdln h) (softrev h)
      (match decode_parse ParseEventReport (hsms.Body msg) with
       | Some ev => try_send 16 (events h) ev | None => events h end)
      (traces h) (alarms h)
  else if (stream =? 6) && (function =? 1) then
    MkHost conn' (mdln h) (softrev h) (events h)
      (match decode_parse ParseTraceData (hsms.Body msg) with
       | Some td => try_send 64 (traces h) td | None => traces h end)
      (alarms h)
  else if (stream =? 5) && (function =? 1) then
    MkHost conn' (mdln h) (softrev h) (events h) (traces h)
      (match decode_parse ParseAlarmReport (hsms.Body msg) with
       | Some al => try_send 16 (alarms h) al | None => alarms h end)
  else MkHost conn' (mdln h) (softrev h) (events h) (traces h) (alarms h).

(** ** Host-initiated transactions

    [SendAndWait] (modelled step by step in [HsmsConn]) is a parameter here: one transaction
    with the equipment, which changes the world [W] the connection reaches.  [Send] is the
    transaction without a reply. *)

Inductive HostError :=
| ErrSend (e : hsmsconn.TxError)
| ErrDecode (e : DecodeError)
| ErrParse (e : GemError).

Section host_ops.
Context {W : Type} (SendAndWait : Z -> Z -> bytes -> sres W hsmsconn.TxError hsms.Message).
Context (Send : Z -> Z -> bytes -> sres W hsmsconn.TxError unit).

Definition request (stream function : Z) (body : Item) : sres W HostError Item :=
  reply ← smap_err ErrSend (SendAndWait stream function (Encode body));
  '(replyBody, _) ← of_res (map_err ErrDecode (Decode (hsms.Body reply)));
  mret replyBody.
(** [reply, err := h.request(...); if err != nil { return ... }; return Parse(reply)] *)
Definition request_parse {T} (stream function : Z) (body : Item) (parse : Item -> res GemError T)
    : sres W HostError T :=
  r ← request stream function body; of_res (map_err ErrParse (parse r)).

Definition AreYouThere : sres W HostError (string * string) :=
  request_parse 1 1 EncodeAreYouThere ParseAreYouThereReply.
Definition EstablishCommunications (h : Host) : sres W HostError (Z * string * string) :=
  request_parse 1 13 (EncodeEstablishCommunications (mdln h) (softrev h)) ParseEstablishCommunicationsReply.
Definition RequestStatusVariables (svids : list Z) : sres W HostError (list Item) :=
  request_parse 1 3 (EncodeStatusVariableRequest svids) ParseStatusVariableReply.
Definition StatusVariableNamelist (svids : list Z) : sres W HostError (list SVIDInfo) :=
  request_parse 1 11 (EncodeStatusVariableNamelistRequest svids) ParseStatusVariableNamelistReply.
Definition DateTime : sres W HostError string :=
  request_parse 2 17 EncodeDateTimeRequest ParseDateTimeReply.
Definition DefineReport (dataID : Z) (reports : list ReportDef) : sres W HostError Z :=
  request_parse 2 33 (EncodeDefineReport dataID reports) ParseDefineReportReply.
Definition LinkEventReport (dataID : Z) (links : list EventLink) : sres W HostError Z :=
  request_parse 2 35 (EncodeLinkEventReport dataID links) ParseLinkEventReportReply.
Definition EnableEvents (enable : bool) (ceids : list Z) : sres W HostError Z :=
  request_parse 2 37 (EncodeEnableEvents enable ceids) ParseEnableEventsReply.
Definition EstablishTrace (trid : Z) (period : string) (totalSamples reportEvery : Z)
    (svids : list Z) : sres W HostError Z :=
  request_parse 2 23 (EncodeEstablishTrace trid period totalSamples reportEvery svids) ParseEstablishTraceReply.
Definition EnableAlarm (enable : bool) (alid : Z) : sres W HostError Z :=
  request_parse 5 3 (EncodeEnableAlarm enable alid) ParseEnableAlarmReply.
Definition SendRemoteCommand (rcmd : string) (params : list (string * string)) : sres W HostError Z :=
  request_parse 2 41 (EncodeRemoteCommand rcmd params) ParseRemoteCommandReply.
Definition SendNewEquipmentConstants (dataID : Z) (values : list (Z * Item)) : sres W HostError Z :=
  request_parse 2 15 (EncodeNewEquipmentConstants dataID values) ParseNewEquipmentConstantsReply.
Definition SendRaw (stream function : Z) (wBit : bool) (body : Item) : sres W HostError Item :=
  if negb wBit then smap_err ErrSend (Send stream function (Encode body)) ≫= fun _ => mret zero_item
  else request stream function body.
End host_ops.

(** ** Lemmas *)

Lemma Int64_U4 v : Int64 (U4v [v]) = Some v.
Proof. done. Qed.

Lemma each_entry_map {T U} (f : Z -> Item -> res GemError T) (g : U -> Item) (h : U -> T) us :
  (forall i u, u ∈ us -> f i (g u) = Ok (h u)) ->
  forall i, each_entry f i (map g us) = Ok (map h us).
Proof.
  induction us as [|u us IH]; intros Hf i; cbn; [done|].
  rewrite Hf by (by left). cbn. rewrite IH; [done|]. intros; apply Hf. by right.
Qed.

Lemma land_7F_idem z : Z.land (Z.land z 0x7F) 0x7F = Z.land z 0x7F.
Proof. by rewrite <- Z.land_assoc. Qed.

(** Every answer of the host carries the function that follows the request's. *)
Lemma host_answer_function h msg fn body :
  host_answer h msg = Some (fn, body) -> fn = u8 (hsms.Function_ (hsms.Hdr msg) + 1).
Proof.
  unfold host_answer. intros H.
  repeat match type of H with
  | context [?a =? ?x] => destruct (Z.eqb_spec a x); cbn in H
  | context [if ?b then _ else _] => destruct b
  end; simplify_eq; try done;
    first [ congruence | match goal with Hf : hsms.Function_ _ = _ |- _ => by rewrite Hf end ].
Qed.

Lemma handle_conn wok h msg :
  h_conn (handle wok h msg) =
  match host_answer h msg with
  | Some (fn, body) => hsmsconn.Reply wok msg fn (Encode body) (h_conn h)
  | None => h_conn h
  end.
Proof. unfold handle. by repeat case_match. Qed.

Lemma item_ok_U4s vs :
  Forall (in_u 32) vs -> zlen vs < maxCount -> item_ok (L (map (fun v => U4v [v]) vs)).
Proof.
  intros Hvs Hn. constructor; [|by rewrite zlen_map].
  apply Forall_map. eapply Forall_impl; [exact Hvs|]. intros v Hv. constructor; [|done].
  by apply Forall_singleton.
Qed.

(** ** Theorems *)

(** the host answers every primary message that demands a reply exactly once, on
    the same session and stream, with the next function, the request's system bytes and
    the W-bit clear, and answers nothing else; its three delivery channels stay within
    their capacities. *)
Theorem host_answers_once (h : Host) (msg : hsms.Message) :
  (length (events h) <= 16)%nat -> (length (traces h) <= 64)%nat ->
  (length (alarms h) <= 16)%nat ->
  let h' := handle true h msg in
  (exists body,
    hsmsconn.written (h_conn h') =
    hsmsconn.written (h_conn h) ++
    (if hsms.WBit (hsms.Hdr msg) then
       [hsms.MkMessage
          (hsms.MkHeader (hsms.SessionID (hsms.Hdr msg)) (hsms.Stream (hsms.Hdr msg))
             (u8 (hsms.Function_ (hsms.Hdr msg) + 1)) 0 hsms.STypeDataMessage
             (hsms.System (hsms.Hdr msg))) body]
     else [])) /\
  (length (events h') <= 16)%nat /\ (length (traces h') <= 64)%nat /\
  (length (alarms h') <= 16)%nat.
Proof.
  intros He Ht Ha h'. split.
  - unfold h'. rewrite handle_conn. destruct (host_answer h msg) as [[fn body]|] eqn:E.
    + exists (Encode body). rewrite (host_answer_function _ _ _ _ E).
      unfold host_answer in E. destruct (hsms.WBit (hsms.Hdr msg)); [|done].
      cbn. unfold hsmsconn.reply_message, hsms.DataHeader.
      unfold hsms.Stream. by rewrite land_7F_idem.
    + exists []. unfold host_answer in E.
      destruct (hsms.WBit (hsms.Hdr msg)); [by repeat case_match|]. by rewrite app_nil_r.
  - assert (forall T (cap : nat) (ch : list T) x, (length ch <= cap)%nat ->
      (length (try_send cap ch x) <= cap)%nat) as Hsend.
    { intros T cap ch x Hle. unfold try_send. destruct (Nat.ltb_spec (length ch) cap); [|done].
      rewrite length_app; cbn; lia. }
    unfold h', handle.
    repeat match goal with |- context [if ?b then _ else _] => destruct b end; cbn;
      try (destruct (decode_parse _ _)); auto.
Qed.

Lemma host_answers_once_witness :
  exists body,
    hsmsconn.written (h_conn (handle true (NewHost (hsmsconn.newConn 7) "H" "1")
      (hsms.MkMessage (hsms.DataHeader 7 1 1 true 42) []))) =
    [] ++ [hsms.MkMessage (hsms.MkHeader 7 1 2 0 hsms.STypeDataMessage 42) body].
Proof.
  apply (host_answers_once (NewHost (hsmsconn.newConn 7) "H" "1")
           (hsms.MkMessage (hsms.DataHeader 7 1 1 true 42) [])); cbn; lia.
Defined.

End gem.

(** * The equipment simulator *)

Module gemsim.
Import secsii gem.

Record SVIDConfig := MkSV { sv_Name : string; sv_Units : string; sv_Value : Item }.
Record Simulator := MkSim {
  cfg_MDLN : string;
  cfg_SoftRev : string;
  cfg_SVIDs : gmap Z SVIDConfig;
  cfg_EventInterval : Z;
  cfg_TraceInterval : Z;
  reports : gmap Z ReportDef;
  links : gmap Z (list Z);
  sim_traces : gmap Z (list Z);
  event_loops : list (list Z);        (* CEIDs of every fireEventsLoop started *)
  trace_loops : list (Z * list Z)     (* TRID and SVIDs of every fireTraceLoop started *)
}.

(** [s.cfg.SVIDs[id].Value]: the zero [Item] for an unknown id. *)
Definition svid_value (s : Simulator) (id : Z) : Item :=
  match cfg_SVIDs s !! id with Some sv => sv_Value sv | None => zero_item end.
Definition svid_entry (s : Simulator) (id : Z) : Item :=
  match cfg_SVIDs s !! id with
  | Some sv => L [U4v [id]; A (sv_Name sv); A (sv_Units sv)]
  | None => L [U4v [id]; A ""; A ""]
  end.

(** [if v, ok := it.Int64(); ok { ids = append(ids, uint32(v)) }] over a list. *)
Definition int_ids (l : list Item) : list Z :=
  omap (fun it => u32 <$> Int64 it) l.

Definition svidList (s : Simulator) (order : list Z) (body : Item) : list Z :=
  let ids := if is_list body then int_ids (List_ body) else [] in
  match ids with [] => order | _ => ids end.

Definition define_one (m : gmap Z ReportDef) (r : Item) : gmap Z ReportDef :=
  if negb (is_list r) then m else
  match List_ r with
  | [a; vs] => match Int64 a with
               | Some rptid => <[u32 rptid := MkReportDef (u32 rptid) (int_ids (List_ vs))]> m
               | None => m
               end
  | _ => m
  end.
Definition link_one (m : gmap Z (list Z)) (l : Item) : gmap Z (list Z) :=
  if negb (is_list l) then m else
  match List_ l with
  | [a; rs] => match Int64 a with
               | Some ceid => <[u32 ceid := int_ids (List_ rs)]> m
               | None => m
               end
  | _ => m
  end.

Definition with_reports (s : Simulator) (m : gmap Z ReportDef) : Simulator :=
  MkSim (cfg_MDLN s) (cfg_SoftRev s) (cfg_SVIDs s) (cfg_EventInterval s) (cfg_TraceInterval s)
        m (links s) (sim_traces s) (event_loops s) (trace_loops s).
Definition with_links (s : Simulator) (m : gmap Z (list Z)) : Simulator :=
  MkSim (cfg_MDLN s) (cfg_SoftRev s) (cfg_SVIDs s) (cfg_EventInterval s) (cfg_TraceInterval s)
        (reports s) m (sim_traces s) (event_loops s) (trace_loops s).

Definition handleDefineReport (s : Simulator) (body : Item) : Simulator :=
  if negb (is_list body) then s else
  match List_ body with
  | [_; reportsList] => with_reports s (fold_left define_one (List_ reportsList) (reports s))
  | _ => s
  end.
Definition handleLinkEventReport (s : Simulator) (body : Item) : Simulator :=
  if negb (is_list body) then s else
  match List_ body with
  | [_; linksList] => with_links s (fold_left link_one (List_ linksList) (links s))
  | _ => s
  end.

Definition handleEnableEvents (s : Simulator) (link_order : list Z) (body : Item) : Simulator :=
  if negb (is_list body) then s else
  match List_ body with
  | [e; cs] =>
      let enabled := match Value e with VBool b => b | _ => false end in
      if negb enabled || (cfg_EventInterval s <=? 0) then s else
      let ceids := match int_ids (List_ cs) with [] => link_order | ids => ids end in
      MkSim (cfg_MDLN s) (cfg_SoftRev s) (cfg_SVIDs s) (cfg_EventInterval s) (cfg_TraceInterval s)
            (reports s) (links s) (sim_traces s) (event_loops s ++ [ceids]) (trace_loops s)
  | _ => s
  end.
Definition handleEstablishTrace (s : Simulator) (body : Item) : Simulator :=
  if negb (is_list body) then s else
  match List_ body with
  | [t; _; _; _; vs] =>
      match Int64 t with
      | Some trid =>
          let svids := int_ids (List_ vs) in
          MkSim (cfg_MDLN s) (cfg_SoftRev s) (cfg_SVIDs s) (cfg_EventInterval s) (cfg_TraceInterval s)
                (reports s) (links s) (<[u32 trid := svids]> (sim_traces s)) (event_loops s)
                (if cfg_TraceInterval s <=? 0 then trace_loops s
                 else trace_loops s ++ [(u32 trid, svids)])
      | None => s
      end
  | _ => s
  end.

(** [handle]: the new state and the reply's function and body ([s.reply] drops it
    when the W-bit is clear).  [now] is the formatted clock, [order]/[link_order]
    the iteration orders of [cfg.SVIDs] and [links]. *)
Definition sim_handle (now : string) (order link_order : list Z) (s : Simulator)
    (msg : hsms.Message) : Simulator * option (Z * Item) :=
  let body := match hsms.Body msg with
              | [] => zero_item
              | b => match Decode b with Ok (it, _) => it | _ => zero_item end
              end in
  let stream := hsms.Stream (hsms.Hdr msg) in
  let function := hsms.Function_ (hsms.Hdr msg) in
  let reply (fn : Z) (it : Item) := if hsms.WBit (hsms.Hdr msg) then Some (fn, it) else None in
  if (stream =? 1) && (function =? 1) then
    (s, reply 2 (L [A (cfg_MDLN s); A (cfg_SoftRev s)]))
  else if (stream =? 1) && (function =? 13) then
    (s, reply 14 (L [U1v [0]; L [A (cfg_MDLN s); A (cfg_SoftRev s)]]))
  else if (stream =? 1) && (function =? 3) then
    (s, reply 4 (L (map (svid_value s) (svidList s order body))))
  else if (stream =? 1) && (function =? 11) then
    (s, reply 12 (L (map (svid_entry s) (svidList s order body))))
  else if (stream =? 2) && (function =? 17) then (s, reply 18 (A now))
  else if (stream =? 2) && (function =? 33) then (handleDefineReport s body, reply 34 (L [U1v [0]]))
  else if (stream =? 2) && (function =? 35) then (handleLinkEventReport s body, reply 36 (L [U1v [0]]))
  else if (stream =? 2) && (function =? 37) then
    (handleEnableEvents s link_order body, reply 38 (L [U1v [0]]))
  else if (stream =? 2) && (function =? 23) then (handleEstablishTrace s body, reply 24 (L [U1v [0]]))
  else if (stream =? 2) && (function =? 41) then (s, reply 42 (L [U1v [0]; L []]))
  else if (stream =? 2) && (function =? 15) then (s, reply 16 (L [U1v [0]]))
  else if (stream =? 5) && (function =? 3) then (s, reply 4 (L [U1v [0]]))
  else (s, reply (u8 (function + 1)) (L [])).

(** The body [sendEventReport] sends for a CEID. *)
Definition report_values (s : Simulator) (rptid : Z) : Item :=
  let vids := match reports s !! rptid with Some d => VIDs d | None => [] end in
  L [U4v [rptid]; L (map (svid_value s) vids)].
Definition event_body (s : Simulator) (ceid : Z) : Item :=
  let rptids := default [] (links s !! ceid) in
  L [U4v [1]; U4v [ceid]; L (map (report_values s) rptids)].
(** The body of one [fireTraceLoop] tick. *)
Definition trace_body (s : Simulator) (trid : Z) (svids : list Z) : Item :=
  L [U4v [trid]; L (map (svid_value s) svids)].

(** ** Lemmas *)

Lemma int_ids_U4 vs : Forall (in_u 32) vs -> int_ids (map (fun v => U4v [v]) vs) = vs.
Proof.
  induction 1 as [|v vs Hv _ IH]; [done|]. unfold int_ids in *. cbn in *.
  by rewrite uwrap_id, IH.
Qed.

Definition report_ok (r : ReportDef) : Prop :=
  in_u 32 (RPTID r) /\ Forall (in_u 32) (VIDs r) /\ zlen (VIDs r) < maxCount.
Definition link_ok (l : EventLink) : Prop :=
  in_u 32 (CEID l) /\ Forall (in_u 32) (RPTIDs l) /\ zlen (RPTIDs l) < maxCount.

Lemma define_one_item m r : report_ok r -> define_one m (report_item r) = <[RPTID r := r]> m.
Proof.
  intros (Hid & Hv & _). unfold define_one, report_item. cbn -[int_ids].
  rewrite uwrap_id, int_ids_U4 by done. by destruct r.
Qed.
Lemma link_one_item m l : link_ok l -> link_one m (link_item l) = <[CEID l := RPTIDs l]> m.
Proof.
  intros (Hid & Hv & _). unfold link_one, link_item. cbn -[int_ids].
  by rewrite uwrap_id, int_ids_U4 by done.
Qed.

(** Folding insertions over entries with distinct keys keeps every one of them,
    and touches no other key. *)
Section fold_insert.
Context {T V : Type} (step : gmap Z V -> Item -> gmap Z V) (enc : T -> Item)
        (key : T -> Z) (val : T -> V).

Lemma fold_insert_lookup_ne (ts : list T) (m : gmap Z V) k :
  (forall m t, t ∈ ts -> step m (enc t) = <[key t := val t]> m) ->
  k ∉ map key ts -> fold_left step (map enc ts) m !! k = m !! k.
Proof.
  revert m. induction ts as [|t ts IH]; intros m Hs Hk; cbn; [done|].
  rewrite IH; [|intros; apply Hs; by right|set_solver].
  rewrite Hs by (by left). apply lookup_insert_ne. set_solver.
Qed.
Lemma fold_insert_lookup (ts : list T) (m : gmap Z V) t :
  (forall m t, t ∈ ts -> step m (enc t) = <[key t := val t]> m) ->
  NoDup (map key ts) -> t ∈ ts ->
  fold_left step (map enc ts) m !! key t = Some (val t).
Proof.
  revert m. induction ts as [|t' ts IH]; intros m Hs Hnd Hin; [set_solver|].
  cbn in *. apply NoDup_cons in Hnd as [Hk Hnd]. rewrite Hs by (by left).
  apply elem_of_cons in Hin as [->|Hin].
  - rewrite fold_insert_lookup_ne; [by rewrite lookup_insert_eq| |done].
    intros; apply Hs; by right.
  - apply IH; [|done|done]. intros; apply Hs; by right.
Qed.
End fold_insert.

Lemma Encode_nonempty it : exists b bs, Encode it = b :: bs.
Proof. pose proof (length_Encode it). destruct (Encode it); cbn in *; [lia|eauto]. Qed.

(** [L(DATAID, L(L(ID, L(ID...))...))], the shape of S2F33 and S2F35, is encodable. *)
Lemma table_ok {T} (enc : T -> Item) (id : T -> Z) (ids : T -> list Z) (ts : list T) dataID :
  (forall t, enc t = L [U4v [id t]; L (map (fun v => U4v [v]) (ids t))]) ->
  in_u 32 dataID ->
  Forall (fun t => in_u 32 (id t) /\ Forall (in_u 32) (ids t) /\ zlen (ids t) < maxCount) ts ->
  zlen ts < maxCount -> item_ok (L [U4v [dataID]; L (map enc ts)]).
Proof.
  intros Henc Hd Hts Hn. constructor; [|done]. apply Forall_cons. split.
  { constructor; [by apply Forall_singleton|done]. }
  apply Forall_singleton. constructor; [|by rewrite zlen_map].
  apply Forall_map. eapply Forall_impl; [exact Hts|]. intros t (Hid & Hv & Hl). cbn.
  rewrite Henc. constructor; [|done]. apply Forall_cons. split; [|apply Forall_singleton].
  - constructor; [by apply Forall_singleton|done].
  - by apply item_ok_U4s.
Qed.

(** The body the simulator sees is the item the host encoded. *)
Lemma sim_body it :
  item_ok it ->
  match Encode it with [] => zero_item | b => match Decode b with Ok (it, _) => it | _ => zero_item end end
  = it.
Proof.
  intros Hok. pose proof (Decode_Encode_app _ [] Hok) as Hdec. rewrite app_nil_r in Hdec.
  destruct (Encode_nonempty it) as (b & bs & E). rewrite E in *. by rewrite Hdec.
Qed.

Lemma sim_handle_define now o lo s sid sys dataID rs :
  in_u 32 dataID -> Forall report_ok rs -> zlen rs < maxCount ->
  sim_handle now o lo s
    (hsms.MkMessage (hsms.DataHeader sid 2 33 true sys) (Encode (EncodeDefineReport dataID rs)))
  = (with_reports s (fold_left define_one (map report_item rs) (reports s)),
     Some (34, L [U1v [0]])).
Proof.
  intros Hd Hrs Hn. unfold sim_handle. cbn [hsms.Body hsms.Hdr].
  by rewrite sim_body by (by apply (table_ok report_item RPTID VIDs)).
Qed.

Lemma sim_handle_link now o lo s sid sys dataID ls :
  in_u 32 dataID -> Forall link_ok ls -> zlen ls < maxCount ->
  sim_handle now o lo s
    (hsms.MkMessage (hsms.DataHeader sid 2 35 true sys) (Encode (EncodeLinkEventReport dataID ls)))
  = (with_links s (fold_left link_one (map link_item ls) (links s)), Some (36, L [U1v [0]])).
Proof.
  intros Hd Hrs Hn. unfold sim_handle. cbn [hsms.Body hsms.Hdr].
  by rewrite sim_body by (by apply (table_ok link_item CEID RPTIDs)).
Qed.

(** An event body is encodable when the values it carries are. *)
Lemma item_ok_event s ceid :
  in_u 32 ceid ->
  Forall (in_u 32) (default [] (links s !! ceid)) ->
  zlen (default [] (links s !! ceid)) < maxCount ->
  (forall id, item_ok (svid_value s id)) ->
  (forall id d, reports s !! id = Some d -> zlen (VIDs d) < maxCount) ->
  item_ok (event_body s ceid).
Proof.
  intros Hc Hids Hn Hv Hd. unfold event_body. constructor; [|done].
  repeat (apply Forall_cons; split); [| | |done].
  - constructor; [by apply Forall_singleton|done].
  - constructor; [by apply Forall_singleton|done].
  - constructor; [|by rewrite zlen_map]. apply Forall_map.
    eapply Forall_impl; [exact Hids|]. intros id Hid. cbn. unfold report_values.
    constructor; [|done]. apply Forall_cons. split; [|apply Forall_singleton].
    { constructor; [by apply Forall_singleton|done]. }
    constructor; [apply Forall_map, Forall_true; auto|]. rewrite zlen_map.
    destruct (reports s !! id) eqn:E; [by eauto|done].
Qed.

(** Parsing an event body gives the CEID and, per linked report, the values the
    simulator read for it. *)
Lemma parse_event_body s ceid :
  in_u 32 ceid -> Forall (in_u 32) (default [] (links s !! ceid)) ->
  ParseEventReport (event_body s ceid) =
  Ok (MkEventReport 1 ceid
        (map (fun rptid => MkReportData rptid
                (map (svid_value s) (match reports s !! rptid with Some d => VIDs d | None => [] end)))
             (default [] (links s !! ceid)))).
Proof.
  intros Hc Hids. unfold ParseEventReport, event_body.
  set (ids := default [] (links s !! ceid)) in *. cbn -[each_entry].
  rewrite (each_entry_map parse_report (report_values s)
    (fun rptid => MkReportData rptid
       (map (svid_value s) (match reports s !! rptid with Some d => VIDs d | None => [] end)))).
  - cbn. rewrite (uwrap_id 32 ceid) by done. done.
  - intros i id Hin. rewrite Forall_forall in Hids. unfold parse_report, report_values. cbn.
    by rewrite uwrap_id by auto.
Qed.

(** An event report for a linked CEID whose reports are all defined arrives at the host as
    exactly those reports, with the values the simulator holds. *)
Lemma event_parsed s l defs :
  link_ok l -> links s !! CEID l = Some (RPTIDs l) -> RPTIDs l = map RPTID defs ->
  (forall r, r ∈ defs -> reports s !! RPTID r = Some r) ->
  (forall id, item_ok (svid_value s id)) ->
  (forall id d, reports s !! id = Some d -> zlen (VIDs d) < maxCount) ->
  decode_parse ParseEventReport (Encode (event_body s (CEID l))) =
  Some (MkEventReport 1 (CEID l)
          (map (fun r => MkReportData (RPTID r) (map (svid_value s) (VIDs r))) defs)).
Proof.
  intros (Hc & Hr & Hn) Hlink Hids Hrep Hval Hold.
  assert (item_ok (event_body s (CEID l))) as Hok by (apply item_ok_event; by rewrite ?Hlink).
  unfold decode_parse. pose proof (Decode_Encode_app _ [] Hok) as Hdec.
  rewrite app_nil_r in Hdec. rewrite Hdec, parse_event_body by (by rewrite ?Hlink).
  rewrite Hlink, Hids. cbn. rewrite map_map. do 2 f_equal.
  apply map_ext_in. intros r Hr'%list_elem_of_In. rewrite Hrep by auto. done.
Qed.

(** The tables after S2F33 and S2F35. *)
Lemma reports_defined rs m r : Forall report_ok rs -> NoDup (map RPTID rs) -> r ∈ rs ->
  fold_left define_one (map report_item rs) m !! RPTID r = Some r.
Proof.
  intros Hrs Hnd Hr. apply (fold_insert_lookup define_one report_item RPTID (fun r => r)); [|done|done].
  intros m' t Ht. apply define_one_item. rewrite Forall_forall in Hrs. auto.
Qed.
Lemma links_stored ls m l : Forall link_ok ls -> NoDup (map CEID ls) -> l ∈ ls ->
  fold_left link_one (map link_item ls) m !! CEID l = Some (RPTIDs l).
Proof.
  intros Hls Hnd Hl. apply (fold_insert_lookup link_one link_item CEID RPTIDs); [|done|done].
  intros m' t Ht. apply link_one_item. rewrite Forall_forall in Hls. auto.
Qed.
Lemma reports_bounded rs m : Forall report_ok rs -> NoDup (map RPTID rs) ->
  (forall id d, m !! id = Some d -> zlen (VIDs d) < maxCount) ->
  forall id d, fold_left define_one (map report_item rs) m !! id = Some d -> zlen (VIDs d) < maxCount.
Proof.
  intros Hrs Hnd Hold id d Hd. destruct (decide (id ∈ map RPTID rs)) as [Hin|Hout].
  - apply list_elem_of_In, in_map_iff in Hin as (r & <- & Hin). apply list_elem_of_In in Hin.
    rewrite reports_defined in Hd by done. simplify_eq. rewrite Forall_forall in Hrs. by apply Hrs.
  - eapply Hold. rewrite <- Hd. symmetry. apply (fold_insert_lookup_ne define_one report_item RPTID (fun r => r)); [|done].
    intros m' t Ht. apply define_one_item. rewrite Forall_forall in Hrs. auto.
Qed.

(** ** Theorems *)

(** The equipment after the host defined reports and then linked them, both over
    the wire. *)
Definition configured (now : string) (o lo : list Z) (sid d1 d2 y1 y2 : Z) (s : Simulator)
    (rs : list ReportDef) (ls : list EventLink) : Simulator :=
  let s1 := fst (sim_handle now o lo s (hsms.MkMessage (hsms.DataHeader sid 2 33 true y1)
                   (Encode (EncodeDefineReport d1 rs)))) in
  fst (sim_handle now o lo s1 (hsms.MkMessage (hsms.DataHeader sid 2 35 true y2)
         (Encode (EncodeLinkEventReport d2 ls)))).

(** end to end over the wire: after the host's S2F33 and S2F35 have been decoded
    and stored by the equipment, an event report the equipment sends for a linked CEID
    is decoded and parsed by the host into exactly that CEID and, report by report in
    link order, the current values of the variables the host put in the report. *)
Theorem event_report_end_to_end (now : string) (o lo : list Z) (sid d1 d2 y1 y2 : Z)
    (s : Simulator) (rs : list ReportDef) (ls : list EventLink) (l : EventLink)
    (defs : list ReportDef) :
  in_u 32 d1 -> in_u 32 d2 ->
  Forall report_ok rs -> Forall link_ok ls -> zlen rs < maxCount -> zlen ls < maxCount ->
  NoDup (map RPTID rs) -> NoDup (map CEID ls) ->
  l ∈ ls -> RPTIDs l = map RPTID defs -> (forall r, r ∈ defs -> r ∈ rs) ->
  (forall id, item_ok (svid_value s id)) ->
  (forall id d, reports s !! id = Some d -> zlen (VIDs d) < maxCount) ->
  decode_parse ParseEventReport
    (Encode (event_body (configured now o lo sid d1 d2 y1 y2 s rs ls) (CEID l))) =
  Some (MkEventReport 1 (CEID l)
          (map (fun r => MkReportData (RPTID r) (map (svid_value s) (VIDs r))) defs)).
Proof.
  intros Hd1 Hd2 Hrs Hls Hn1 Hn2 Hnd1 Hnd2 Hl Hids Hdefs Hval Hold.
  unfold configured. rewrite sim_handle_define by done. cbn [fst].
  rewrite sim_handle_link by done. cbn [fst].
  rewrite Forall_forall in Hls. pose proof (Hls l Hl) as Hlok. rewrite <- Forall_forall in Hls.
  rewrite (event_parsed _ l defs); cbn [reports links with_reports with_links];
    eauto using reports_defined, links_stored, reports_bounded.
Qed.

Definition sample_sim : Simulator :=
  MkSim "MDL" "1.0" {[ 10 := MkSV "Temp" "C" (I4v [-3]); 11 := MkSV "Lot" "" (A "L42") ]}
        1 0 ∅ ∅ ∅ [] [].
Definition sample_reports : list ReportDef := [MkReportDef 100 [10; 11]; MkReportDef 101 [11]].
Definition sample_links : list EventLink := [MkEventLink 7 [101; 100]; MkEventLink 8 []].

Lemma sample_sim_values id : item_ok (svid_value sample_sim id).
Proof.
  unfold svid_value, sample_sim; cbn [cfg_SVIDs].
  destruct (decide (id = 10)) as [->|]; [|destruct (decide (id = 11)) as [->|]].
  - repeat constructor; done.
  - constructor. done.
  - rewrite lookup_insert_ne, lookup_singleton_ne by done. apply (ok_L []); [constructor|done].
Qed.

Lemma event_report_end_to_end_witness :
  decode_parse ParseEventReport
    (Encode (event_body (configured "" [] [] 7 1 2 5 6 sample_sim sample_reports sample_links) 7)) =
  Some (MkEventReport 1 7
          [MkReportData 101 [A "L42"]; MkReportData 100 [I4v [-3]; A "L42"]]).
Proof.
  apply (event_report_end_to_end "" [] [] 7 1 2 5 6 sample_sim sample_reports sample_links
           (MkEventLink 7 [101; 100]) [MkReportDef 101 [11]; MkReportDef 100 [10; 11]]).
  - done.
  - done.
  - by repeat constructor.
  - by repeat constructor.
  - done.
  - done.
  - by apply (bool_decide_eq_true_1 (NoDup [100; 101])).
  - by apply (bool_decide_eq_true_1 (NoDup [7; 8])).
  - by left.
  - done.
  - intros r Hr. unfold sample_reports. set_solver.
  - exact sample_sim_values.
  - intros id d Hd. change (reports sample_sim) with (∅ : gmap Z ReportDef) in Hd.
    by apply lookup_empty_Some in Hd.
Defined.

End gemsim.
