(* ===== verification/Datagram.v ===== *)
(** * Datagrams ([engine/datagram])

    The envelope every component carries: header, payload, trace; the quality
    lattice of [quality.go]; batches; lineage ([New]/[NewCaused]); and [Clone] on
    an explicit heap, since what it promises is about sharing.  The payload's
    JSON value is a parameter type; ids ([newID], a ULID) and the clock are
    arguments. *)

From S2P Require Import Prelude.
Local Open Scope Z_scope.

Module datagram.

(** ** Quality *)

Definition Quality := string.
Definition QualityGood : Quality := "GOOD".
Definition QualityUncertain : Quality := "UNCERTAIN".
Definition QualityStale : Quality := "STALE".
Definition QualityBad : Quality := "BAD".

(** The [rank] map; a missing key reads as 0. *)
Definition rank (q : Quality) : Z :=
  if decide (q = QualityUncertain) then 1
  else if decide (q = QualityStale) then 2
  else if decide (q = QualityBad) then 3
  else 0.

Definition Combine (qualities : list Quality) : Quality :=
  fold_left (fun worst q => if rank worst <? rank q then q else worst) qualities QualityGood.

(** ** The envelope *)

Record Source := MkSource {
  FlowID : string; NodeID : string; RuntimeID : string; Connector : string; Origin : string
}.
#[global] Instance Source_eq_dec : EqDecision Source.
Proof. solve_decision. Defined.

Record TraceEntry := MkTraceEntry {
  te_NodeID : string; te_In : string; te_Out : string; te_DurationUs : Z
}.

(** Times are nanoseconds since an epoch; a [*T] that may be nil is an option. *)
Record Header := MkHeader {
  ID : string;
  CorrelationID : string;
  CausationID : string;
  Timestamp : Z;
  SourceTimestamp : option Z;
  source : Source;
  SchemaRef : string;
  ContentType : string;
  quality : Quality;
  Priority : Z;
  TTLMillis : option Z;
  Tags : option (gmap string string)
}.

(** [time.Duration(ttl) * time.Millisecond] is an int64 product. *)
Definition ExpiresAt (h : Header) : option Z :=
  ttl ← TTLMillis h; Some (Timestamp h + s64 (ttl * 1000000)).
Definition Expired (h : Header) (now : Z) : bool :=
  match ExpiresAt h with Some exp => exp <? now | None => false end.

Section envelope.
Context {V : Type} (nilV : V).      (* any, and its nil *)

Record Payload := MkPayload { Value : V; Binary : option bytes }.
Definition IsBinary (p : Payload) : bool := match Binary p with Some _ => true | None => false end.
Definition Size (p : Payload) : Z := zlen (default [] (Binary p)).

Record Datagram := MkDatagram { header : Header; payload : Payload; trace : list TraceEntry }.

Definition New (id : string) (now : Z) (src : Source) (p : Payload) : Datagram :=
  MkDatagram (MkHeader id id "" now None src "" "" QualityGood 4 None None) p [].

Definition NewCaused (id : string) (now : Z) (parent : Datagram) (src : Source) (p : Payload)
  : Datagram :=
  let d := New id now src p in
  let h := header d in
  let ph := header parent in
  MkDatagram
    (MkHeader (ID h) (CorrelationID ph) (ID ph) (Timestamp h) (SourceTimestamp h) (source h)
       (SchemaRef h) (ContentType h) (quality ph) (Priority h) (TTLMillis h) (Tags h))
    (payload d) (trace d).

(** ** Batches *)

Record BatchHeader := MkBatchHeader { bh_ID : string; bh_Timestamp : Z; bh_Source : Source }.
Record Batch := MkBatch { bheader : BatchHeader; Datagrams : list Datagram }.
Definition NewBatch (id : string) (now : Z) (src : Source) (ds : list Datagram) : Batch :=
  MkBatch (MkBatchHeader id now src) ds.
Definition BatchQuality (b : Batch) : Quality :=
  Combine (map (fun d => quality (header d)) (Datagrams b)).

(** ** Lineage

    A run of the engine creates datagrams one after the other, each fresh or
    caused by one that exists already. *)

Inductive creation :=
| CNew (src : Source) (p : Payload)
| CCaused (parent : nat) (src : Source) (p : Payload).

Context (ids : nat -> string) (clock : nat -> Z).

Definition create (log : list Datagram) (c : creation) : list Datagram :=
  let n := length log in
  match c with
  | CNew src p => log ++ [New (ids n) (clock n) src p]
  | CCaused i src p =>
      match log !! i with
      | Some parent => log ++ [NewCaused (ids n) (clock n) parent src p]
      | None => log
      end
  end.
Definition create_all (cs : list creation) : list Datagram := fold_left create cs [].

Definition byID (log : list Datagram) (id : string) : option Datagram :=
  snd <$> list_find (fun d => ID (header d) = id) log.

(** Walks the causation ids back to a datagram that has none. *)
Fixpoint origin (fuel : nat) (log : list Datagram) (d : Datagram) : option Datagram :=
  if decide (CausationID (header d) = "") then Some d
  else match fuel with
       | O => None
       | S f => match byID log (CausationID (header d)) with
                | Some p => origin f log p
                | None => None
                end
       end.
End envelope.
Arguments Datagram : clear implicits.
Arguments Payload : clear implicits.

(** ** Quality: the worst of *)

Lemma combine_fold q0 qs :
  let w := fold_left (fun worst q => if rank worst <? rank q then q else worst) qs q0 in
  (w = q0 \/ w ∈ qs) /\ rank q0 <= rank w /\ (forall q, q ∈ qs -> rank q <= rank w).
Proof.
  revert q0. induction qs as [|q qs IH]; intros q0; cbn.
  - split_and!; [by left|lia|]. intros q Hq. by apply elem_of_nil in Hq.
  - destruct (Z.ltb_spec (rank q0) (rank q)) as [Hlt|Hge].
    + destruct (IH q) as (H1 & H2 & H3). split_and!; [|lia|].
      * right. destruct H1 as [-> | H1]; [by left|by right].
      * intros q' [-> | Hq']%elem_of_cons; [done|by apply H3].
    + destruct (IH q0) as (H1 & H2 & H3). split_and!; [|lia|].
      * destruct H1; [by left|right; by right].
      * intros q' [-> | Hq']%elem_of_cons; [lia|by apply H3].
Qed.

Lemma rank_known q : 0 < rank q ->
  q = QualityUncertain /\ rank q = 1 \/ q = QualityStale /\ rank q = 2 \/ q = QualityBad /\ rank q = 3.
Proof. unfold rank. repeat case_decide; subst; auto; lia. Qed.

Lemma rank_inj_pos q q' : rank q = rank q' -> 0 < rank q -> q = q'.
Proof.
  intros E Hp. destruct (rank_known q Hp) as [[-> Hq] | [[-> Hq] | [-> Hq]]];
  (destruct (rank_known q') as [[-> Hq'] | [[-> Hq'] | [-> Hq']]]; [lia|..]); try done; lia.
Qed.

Lemma rank_nonneg q : 0 <= rank q.
Proof. unfold rank. repeat case_decide; lia. Qed.

(** Only a ranked quality replaces the initial GOOD. *)
Lemma combine_good q0 qs :
  rank (fold_left (fun worst q => if rank worst <? rank q then q else worst) qs q0) <= 0 ->
  fold_left (fun worst q => if rank worst <? rank q then q else worst) qs q0 = q0.
Proof.
  revert q0. induction qs as [|q qs IH]; intros q0; cbn; [done|].
  destruct (Z.ltb_spec (rank q0) (rank q)) as [Hlt|Hge]; [|apply IH].
  pose proof (combine_fold q qs) as (_ & Hm & _). pose proof (rank_nonneg q0). lia.
Qed.

(** [Combine] is the worst-of: it is GOOD or one of its inputs, no input ranks
    worse, and neither the order nor repetitions of the inputs matter. *)
Theorem Combine_worst qs :
  (Combine qs = QualityGood \/ Combine qs ∈ qs) /\
  (forall q, q ∈ qs -> rank q <= rank (Combine qs)) /\
  (forall qs', (forall q, q ∈ qs <-> q ∈ qs') -> Combine qs' = Combine qs).
Proof.
  destruct (combine_fold QualityGood qs) as (H1 & _ & H3). split_and!; [done|done|].
  intros qs' Hp. destruct (combine_fold QualityGood qs') as (H1' & _ & H3').
  fold (Combine qs) (Combine qs') in *.
  assert (rank (Combine qs') = rank (Combine qs)) as E.
  { pose proof (rank_nonneg (Combine qs)). pose proof (rank_nonneg (Combine qs')).
    assert (rank QualityGood = 0) as Hg by done.
    apply Z.le_antisymm.
    - destruct H1' as [-> | H1']; [lia|]. by apply H3, Hp.
    - destruct H1 as [-> | H1]; [lia|]. by apply H3', Hp. }
  destruct (decide (0 < rank (Combine qs'))) as [Hpos|Hz]; [by apply rank_inj_pos|].
  transitivity QualityGood; [apply combine_good|symmetry; apply combine_good];
    fold (Combine qs) (Combine qs'); lia.
Qed.

(** ** Expiry *)

(** A datagram with a TTL of at most 2^63-1 ns expires exactly when more than
    that many milliseconds have passed; without a TTL it never does.  A larger TTL
    wraps to a negative duration: the datagram is born expired. *)
Theorem Expired_spec h now :
  (TTLMillis h = None -> Expired h now = false) /\
  (forall ttl, TTLMillis h = Some ttl -> in_s 64 (ttl * 1000000) ->
     (Expired h now = true <-> Timestamp h + ttl * 1000000 < now)) /\
  (TTLMillis h = Some 9223372036855 -> Expired h (Timestamp h) = true).
Proof.
  unfold Expired, ExpiresAt. split_and!.
  - by intros ->.
  - intros ttl -> Hr. cbn. rewrite swrap_id by (done || lia). apply Z.ltb_lt.
  - intros ->. cbn [mbind option_bind]. apply Z.ltb_lt.
    assert (s64 (9223372036855 * 1000000) < 0) by (vm_compute; done). lia.
Qed.

(** ** Lineage *)

Section lineage.
Context {V : Type} (ids : nat -> string) (clock : nat -> Z).
(** ULIDs are unique and not empty. *)
Context (ids_unique : forall i j, ids i = ids j -> i = j) (ids_nonempty : forall i, ids i <> "").

Abbreviation log_ok := (fun log : list (Datagram V) => forall i d, log !! i = Some d ->
  ID (header d) = ids i /\
  (CausationID (header d) = "" /\ CorrelationID (header d) = ID (header d) \/
   exists j p, (j < i)%nat /\ log !! j = Some p /\ CausationID (header d) = ID (header p) /\
               CorrelationID (header d) = CorrelationID (header p))).

Lemma create_ok log c : log_ok log -> log_ok (create ids clock log c).
Proof.
  intros Hlog. destruct c as [src p|k src p]; cbn; [|destruct (log !! k) as [par|] eqn:Ek; [|done]];
    intros i d [Hi | [Hi Hd]]%lookup_app_Some.
  1, 3: destruct (Hlog i d Hi) as [H1 [H2 | (j & q & Hj & Hq & H2)]]; split; auto;
    right; exists j, q; by rewrite lookup_app_l by (by eapply lookup_lt_Some).
  - destruct (i - length log)%nat eqn:E; [|done]. cbn in Hd. simplify_eq. cbn.
    assert (i = length log) as -> by lia. auto.
  - destruct (i - length log)%nat eqn:E; [|done]. cbn in Hd. simplify_eq. cbn.
    assert (i = length log) as -> by lia. split; [done|]. right. exists k, par.
    pose proof (lookup_lt_Some _ _ _ Ek). split_and!; [done| |done..].
    by rewrite lookup_app_l by done.
Qed.
Lemma create_all_ok cs : log_ok (create_all ids clock cs).
Proof.
  unfold create_all. assert (log_ok []) as H by (intros ?? [=]).
  revert H. generalize (@nil (Datagram V)).
  induction cs as [|c cs IH]; intros log H; cbn; [done|]. by apply IH, create_ok.
Qed.

Lemma byID_at log i d : log_ok log -> log !! i = Some d -> byID log (ID (header d)) = Some d.
Proof.
  intros Hlog Hi. unfold byID. destruct (list_find _ log) as [[k e]|] eqn:Ef.
  - apply list_find_Some in Ef as (Hk & He & _). cbn in He.
    destruct (Hlog i d Hi) as [Hid _]. destruct (Hlog k e Hk) as [Hid' _].
    assert (k = i) as -> by (apply ids_unique; congruence). cbn. congruence.
  - eapply list_find_None, Forall_forall in Ef; [|by eapply list_elem_of_lookup_2]. done.
Qed.

Lemma origin_ok log fuel i d : log_ok log -> log !! i = Some d -> (i <= fuel)%nat ->
  exists r, origin fuel log d = Some r /\ r ∈ log /\ CausationID (header r) = "" /\
            ID (header r) = CorrelationID (header d).
Proof.
  intros Hlog. revert i d. induction fuel as [|f IH]; intros i d Hi Hf;
    destruct (Hlog i d Hi) as [Hid [[Hc Hr] | (j & p & Hj & Hp & Hc & Hr)]]; cbn.
  all: try (rewrite decide_True by done; exists d; split_and!; auto;
            by eapply list_elem_of_lookup_2).
  - lia.
  - destruct (Hlog j p Hp) as [Hidp _].
    rewrite decide_False by (rewrite Hc, Hidp; apply ids_nonempty).
    rewrite Hc, (byID_at log j p Hlog Hp), Hr. apply (IH j p Hp). lia.
Qed.

(** Lineage can be reconstructed: in any run that creates datagrams with
    [New]/[NewCaused], walking the causation ids of a datagram ends, within as many
    steps as datagrams were created, at the root datagram its correlation id names. *)
Theorem lineage_reconstructs (cs : list (creation (V := V))) (d : Datagram V) :
  d ∈ create_all ids clock cs ->
  exists r, origin (length (create_all ids clock cs)) (create_all ids clock cs) d = Some r /\
    r ∈ create_all ids clock cs /\ CausationID (header r) = "" /\
    ID (header r) = CorrelationID (header d).
Proof.
  intros [i Hi]%list_elem_of_lookup. eapply origin_ok; [apply create_all_ok|exact Hi|].
  apply lookup_lt_Some in Hi. lia.
Qed.
End lineage.

(** A concrete id supply: one more letter each time. *)
Definition letterID (n : nat) : string := Nat.iter (S n) (String (Ascii.ascii_of_nat 117)) "".
Lemma letterID_length n : String.length (letterID n) = S n.
Proof. unfold letterID. induction n as [|n IH]; [done|]. cbn [Nat.iter nat_rect] in *. cbn in *. congruence. Qed.

Definition noSource : Source := MkSource "f" "n" "r" "c" "o".
Definition sampleChain : list (creation (V := nat)) :=
  [CNew noSource (MkPayload 1%nat None); CCaused 0 noSource (MkPayload 2%nat None);
   CCaused 1 noSource (MkPayload 3%nat None)].

Lemma lineage_reconstructs_witness :
  exists d r, create_all letterID (fun _ => 0) sampleChain !! 2%nat = Some d /\
    origin 3 (create_all letterID (fun _ => 0) sampleChain) d = Some r /\
    ID (header r) = CorrelationID (header d).
Proof.
  pose (log := create_all letterID (fun _ => 0) sampleChain).
  assert (exists d, log !! 2%nat = Some d) as [d Hd] by (eexists; vm_compute; reflexivity).
  destruct (lineage_reconstructs (V := nat) letterID (fun _ => 0)) with (cs := sampleChain) (d := d)
    as (r & Hr & _ & _ & Hc).
  - intros i j E. apply (f_equal String.length) in E. rewrite !letterID_length in E. lia.
  - intros i E. apply (f_equal String.length) in E. rewrite letterID_length in E. discriminate.
  - by eapply list_elem_of_lookup_2.
  - exists d, r. split; [exact Hd|]. split; [exact Hr|exact Hc].
Defined.

(** ** Clone, on a heap

    What [Clone] copies and what it shares is about references: tags maps, the
    pointed-to times, binary and trace backing arrays and the JSON value live in
    a heap, and a [RefDatagram] holds their addresses. *)

Definition loc := nat.

Section clone.
Context {V : Type}.

Record Heap := MkHeap {
  tagsH : gmap loc (gmap string string);
  timeH : gmap loc Z;
  ttlH : gmap loc Z;
  binH : gmap loc bytes;
  traceH : gmap loc (list TraceEntry);
  valueH : gmap loc V;
  next : loc                        (* addresses from here on are unused *)
}.

(** The struct copied by [clone := d]: plain fields and references ([None]: nil;
    a trace with no backing array is [None]). *)
Record RefDatagram := MkRef {
  plain : Header;                   (* the non-reference header fields *)
  r_tags : option loc;
  r_srcts : option loc;
  r_ttl : option loc;
  r_value : loc;
  r_bin : option loc;
  r_trace : option loc
}.

Definition set_tags (h : Heap) (m : gmap loc (gmap string string)) : Heap :=
  MkHeap m (timeH h) (ttlH h) (binH h) (traceH h) (valueH h) (S (next h)).
Definition set_time (h : Heap) (m : gmap loc Z) : Heap :=
  MkHeap (tagsH h) m (ttlH h) (binH h) (traceH h) (valueH h) (S (next h)).
Definition set_ttl (h : Heap) (m : gmap loc Z) : Heap :=
  MkHeap (tagsH h) (timeH h) m (binH h) (traceH h) (valueH h) (S (next h)).
Definition set_bin (h : Heap) (m : gmap loc bytes) : Heap :=
  MkHeap (tagsH h) (timeH h) (ttlH h) m (traceH h) (valueH h) (S (next h)).
Definition set_trace (h : Heap) (m : gmap loc (list TraceEntry)) : Heap :=
  MkHeap (tagsH h) (timeH h) (ttlH h) (binH h) m (valueH h) (S (next h)).

(** A fresh cell holding a copy of the cell at [l]. *)
Definition copy_cell {A} (get : Heap -> gmap loc A) (put : Heap -> gmap loc A -> Heap)
    (h : Heap) (l : option loc) : Heap * option loc :=
  match l with
  | Some a => match get h !! a with
              | Some x => (put h (<[next h := x]> (get h)), Some (next h))
              | None => (h, Some a)
              end
  | None => (h, None)
  end.

(** [if d.Payload.IsBinary() && d.Payload.Size() < threshold] *)
Definition clone_bin (th : Z) (h : Heap) (l : option loc) : Heap * option loc :=
  match l with
  | Some a => match binH h !! a with
              | Some b => if zlen b <? th then copy_cell binH set_bin h (Some a) else (h, Some a)
              | None => (h, Some a)
              end
  | None => (h, None)
  end.
(** [if len(d.Trace) > 0] *)
Definition clone_trace (h : Heap) (l : option loc) : Heap * option loc :=
  match l with
  | Some a => match traceH h !! a with
              | Some (_ :: _) => copy_cell traceH set_trace h (Some a)
              | _ => (h, Some a)
              end
  | None => (h, None)
  end.

Definition Clone (th : Z) (h : Heap) (d : RefDatagram) : Heap * RefDatagram :=
  let '(h, tags) := copy_cell tagsH set_tags h (r_tags d) in
  let '(h, ts) := copy_cell timeH set_time h (r_srcts d) in
  let '(h, ttl) := copy_cell ttlH set_ttl h (r_ttl d) in
  let '(h, bin) := clone_bin th h (r_bin d) in
  let '(h, tr) := clone_trace h (r_trace d) in
  (h, MkRef (plain d) tags ts ttl (r_value d) bin tr).

(** What a datagram reads as. *)
Definition read (h : Heap) (d : RefDatagram) :=
  (plain d, (r_tags d ≫= fun a => tagsH h !! a), (r_srcts d ≫= fun a => timeH h !! a),
   (r_ttl d ≫= fun a => ttlH h !! a), valueH h !! r_value d,
   (r_bin d ≫= fun a => binH h !! a), (r_trace d ≫= fun a => traceH h !! a)).

Definition below {A} (n : loc) (m : gmap loc A) : Prop := forall a x, m !! a = Some x -> (a < n)%nat.
Definition valid {A} (m : gmap loc A) (l : option loc) : Prop :=
  match l with Some a => is_Some (m !! a) | None => True end.

Record heap_ok (h : Heap) : Prop := MkHeapOk {
  hk_tags : below (next h) (tagsH h); hk_time : below (next h) (timeH h);
  hk_ttl : below (next h) (ttlH h); hk_bin : below (next h) (binH h);
  hk_trace : below (next h) (traceH h)
}.
Record ref_ok (h : Heap) (d : RefDatagram) : Prop := MkRefOk {
  rk_tags : valid (tagsH h) (r_tags d); rk_srcts : valid (timeH h) (r_srcts d);
  rk_ttl : valid (ttlH h) (r_ttl d); rk_bin : valid (binH h) (r_bin d);
  rk_trace : valid (traceH h) (r_trace d)
}.

(** A mutation through a datagram's own references, as node code may do it. *)
Inductive mutation :=
| MTags (m : gmap string string) | MTime (t : Z) | MTTL (t : Z)
| MBin (b : bytes) | MTrace (t : list TraceEntry) | MValue (v : V).

Definition write {A} (l : option loc) (x : A) (m : gmap loc A) : gmap loc A :=
  match l with Some a => <[a := x]> m | None => m end.
Definition mutate (h : Heap) (d : RefDatagram) (m : mutation) : Heap :=
  match m with
  | MTags x => MkHeap (write (r_tags d) x (tagsH h)) (timeH h) (ttlH h) (binH h) (traceH h) (valueH h) (next h)
  | MTime x => MkHeap (tagsH h) (write (r_srcts d) x (timeH h)) (ttlH h) (binH h) (traceH h) (valueH h) (next h)
  | MTTL x => MkHeap (tagsH h) (timeH h) (write (r_ttl d) x (ttlH h)) (binH h) (traceH h) (valueH h) (next h)
  | MBin x => MkHeap (tagsH h) (timeH h) (ttlH h) (write (r_bin d) x (binH h)) (traceH h) (valueH h) (next h)
  | MTrace x => MkHeap (tagsH h) (timeH h) (ttlH h) (binH h) (write (r_trace d) x (traceH h)) (valueH h) (next h)
  | MValue x => MkHeap (tagsH h) (timeH h) (ttlH h) (binH h) (traceH h) (<[r_value d := x]> (valueH h)) (next h)
  end.

(** The mutations a clone is protected from: everything but the JSON value, a
    binary of [th] bytes or more, and an empty trace's backing array. *)
Definition protected (th : Z) (h : Heap) (d : RefDatagram) (m : mutation) : Prop :=
  match m with
  | MValue _ => False
  | MBin _ => forall a b, r_bin d = Some a -> binH h !! a = Some b -> zlen b < th
  | MTrace _ => forall a, r_trace d = Some a -> traceH h !! a <> Some []
  | _ => True
  end.

(** One field: every old cell is kept, the new reference reads as the old one, and
    it is the old one ([shared]) or points at or above [n]. *)
Record copied {A} (n : loc) (m m' : gmap loc A) (l l' : option loc) (shared : bool) : Prop := MkCopied {
  cp_kept : forall a x, m !! a = Some x -> m' !! a = Some x;
  cp_read : (l' ≫= fun a => m' !! a) = (l ≫= fun a => m !! a);
  cp_fresh : l' = l /\ (shared = true \/ l = None) \/ exists k, l' = Some k /\ (n <= k)%nat
}.

Lemma copied_same {A} n (m : gmap loc A) l : copied n m m l l true.
Proof. split; [done..|]. left. auto. Qed.

Lemma copy_cell_spec {A} (get : Heap -> gmap loc A) put h l h' l' n :
  (forall h m, get (put h m) = m) -> below (next h) (get h) -> valid (get h) l -> (n <= next h)%nat ->
  copy_cell get put h l = (h', l') ->
  copied n (get h) (get h') l l' false /\ (h' = h \/ exists m, h' = put h m).
Proof.
  intros Hgp Hb Hv Hn H. unfold copy_cell in H. destruct l as [a|].
  - destruct Hv as [x Hx]. rewrite Hx in H. simplify_eq. split; [|by eauto].
    rewrite Hgp. split.
    + intros a' y Hy. rewrite lookup_insert_ne; [done|]. specialize (Hb _ _ Hy). lia.
    + cbn. by rewrite lookup_insert_eq.
    + right. eauto.
  - simplify_eq. split; [|by left]. split; [done..|]. left. auto.
Qed.

(** Writing through an unshared copy is not seen through the original. *)
Lemma copied_write {A} n (m m' : gmap loc A) l l' (x : A) :
  copied n m m' l l' false -> below n m -> valid m l ->
  (l ≫= fun a => write l' x m' !! a) = (l ≫= fun a => m' !! a).
Proof.
  intros [Hk Hr Hf] Hb Hv. destruct l as [a|]; [|done]. destruct Hv as [y Hy].
  destruct Hf as [(-> & [H|H]) | (k & -> & Hle)]; [done..|]. cbn.
  rewrite lookup_insert_ne; [done|]. specialize (Hb _ _ Hy). lia.
Qed.
Lemma copied_original {A} n (m m' : gmap loc A) l l' b :
  copied n m m' l l' b -> valid m l -> (l ≫= fun a => m' !! a) = (l ≫= fun a => m !! a).
Proof.
  intros [Hk _ _] Hv. destruct l as [a|]; [|done]. destruct Hv as [y Hy]. cbn.
  rewrite Hy. by apply Hk.
Qed.

Lemma clone_bin_spec th h l h' l' n :
  below (next h) (binH h) -> valid (binH h) l -> (n <= next h)%nat ->
  clone_bin th h l = (h', l') ->
  exists s, copied n (binH h) (binH h') l l' s /\ (h' = h \/ exists m, h' = set_bin h m) /\
    (s = true -> exists a b, l = Some a /\ binH h !! a = Some b /\ th <= zlen b).
Proof.
  intros Hb Hv Hn H. unfold clone_bin in H. destruct l as [a|].
  - destruct Hv as [b Hx]. rewrite Hx in H. destruct (Z.ltb_spec (zlen b) th).
    + apply (copy_cell_spec _ _ _ _ _ _ n) in H as [H1 H2]; cbn; eauto.
      exists false. split_and!; [done..|by intros [=]].
    + simplify_eq. exists true. split_and!; [apply copied_same|by left|eauto].
  - simplify_eq. exists false. split_and!; [|by left|by intros [=]].
    split; [done..|]. left. auto.
Qed.
Lemma clone_trace_spec h l h' l' n :
  below (next h) (traceH h) -> valid (traceH h) l -> (n <= next h)%nat ->
  clone_trace h l = (h', l') ->
  exists s, copied n (traceH h) (traceH h') l l' s /\ (h' = h \/ exists m, h' = set_trace h m) /\
    (s = true -> exists a, l = Some a /\ traceH h !! a = Some []).
Proof.
  intros Hb Hv Hn H. unfold clone_trace in H. destruct l as [a|].
  - destruct Hv as [b Hx]. rewrite Hx in H. destruct b as [|e b].
    + simplify_eq. exists true. split_and!; [apply copied_same|by left|eauto].
    + apply (copy_cell_spec _ _ _ _ _ _ n) in H as [H1 H2]; cbn; eauto.
      exists false. split_and!; [done..|by intros [=]].
  - simplify_eq. exists false. split_and!; [|by left|by intros [=]].
    split; [done..|]. left. auto.
Qed.

Lemma below_le {A} n k (m : gmap loc A) : below n m -> (n <= k)%nat -> below k m.
Proof. intros Hb Hle a x Hx. specialize (Hb a x Hx). lia. Qed.

(** Storing one field leaves the others. *)
Lemma frame_tags h h' : (h' = h \/ exists m, h' = set_tags h m) ->
  timeH h' = timeH h /\ ttlH h' = ttlH h /\ binH h' = binH h /\ traceH h' = traceH h /\
  valueH h' = valueH h /\ (next h <= next h')%nat.
Proof. intros [-> | [m ->]]; cbn; split_and!; done || lia. Qed.
Lemma frame_time h h' : (h' = h \/ exists m, h' = set_time h m) ->
  tagsH h' = tagsH h /\ ttlH h' = ttlH h /\ binH h' = binH h /\ traceH h' = traceH h /\
  valueH h' = valueH h /\ (next h <= next h')%nat.
Proof. intros [-> | [m ->]]; cbn; split_and!; done || lia. Qed.
Lemma frame_ttl h h' : (h' = h \/ exists m, h' = set_ttl h m) ->
  tagsH h' = tagsH h /\ timeH h' = timeH h /\ binH h' = binH h /\ traceH h' = traceH h /\
  valueH h' = valueH h /\ (next h <= next h')%nat.
Proof. intros [-> | [m ->]]; cbn; split_and!; done || lia. Qed.
Lemma frame_bin h h' : (h' = h \/ exists m, h' = set_bin h m) ->
  tagsH h' = tagsH h /\ timeH h' = timeH h /\ ttlH h' = ttlH h /\ traceH h' = traceH h /\
  valueH h' = valueH h /\ (next h <= next h')%nat.
Proof. intros [-> | [m ->]]; cbn; split_and!; done || lia. Qed.
Lemma frame_trace h h' : (h' = h \/ exists m, h' = set_trace h m) ->
  tagsH h' = tagsH h /\ timeH h' = timeH h /\ ttlH h' = ttlH h /\ binH h' = binH h /\
  valueH h' = valueH h /\ (next h <= next h')%nat.
Proof. intros [-> | [m ->]]; cbn; split_and!; done || lia. Qed.

(** [Clone], field by field. *)
Lemma Clone_fields th h d h' d' :
  heap_ok h -> ref_ok h d -> Clone th h d = (h', d') ->
  exists sb st, plain d' = plain d /\ r_value d' = r_value d /\ valueH h' = valueH h /\
  copied (next h) (tagsH h) (tagsH h') (r_tags d) (r_tags d') false /\
  copied (next h) (timeH h) (timeH h') (r_srcts d) (r_srcts d') false /\
  copied (next h) (ttlH h) (ttlH h') (r_ttl d) (r_ttl d') false /\
  copied (next h) (binH h) (binH h') (r_bin d) (r_bin d') sb /\
  copied (next h) (traceH h) (traceH h') (r_trace d) (r_trace d') st /\
  (sb = true -> exists a b, r_bin d = Some a /\ binH h !! a = Some b /\ th <= zlen b) /\
  (st = true -> exists a, r_trace d = Some a /\ traceH h !! a = Some []).
Proof.
  intros [K1 K2 K3 K4 K5] [V1 V2 V3 V4 V5] H. unfold Clone in H.
  destruct (copy_cell tagsH set_tags h (r_tags d)) as [h1 l1] eqn:E1.
  eapply (copy_cell_spec _ _ _ _ _ _ (next h)) in E1 as [C1 F1]; [|done..].
  apply frame_tags in F1 as (A2 & A3 & A4 & A5 & A6 & A7).
  destruct (copy_cell timeH set_time h1 (r_srcts d)) as [h2 l2] eqn:E2.
  eapply (copy_cell_spec _ _ _ _ _ _ (next h)) in E2 as [C2 F2]; cbn; rewrite ?A2; eauto using below_le.
  apply frame_time in F2 as (B1 & B3 & B4 & B5 & B6 & B7).
  destruct (copy_cell ttlH set_ttl h2 (r_ttl d)) as [h3 l3] eqn:E3.
  eapply (copy_cell_spec _ _ _ _ _ _ (next h)) in E3 as [C3 F3]; cbn; rewrite ?B3, ?A3;
    [|done|eapply below_le; eauto; lia|done|lia].
  apply frame_ttl in F3 as (D1 & D2 & D4 & D5 & D6 & D7).
  destruct (clone_bin th h3 (r_bin d)) as [h4 l4] eqn:E4.
  eapply (clone_bin_spec _ _ _ _ _ (next h)) in E4 as (sb & C4 & F4 & Hsb); cbn;
    rewrite ?D4, ?B4, ?A4; [|eapply below_le; eauto; lia|done|lia].
  apply frame_bin in F4 as (G1 & G2 & G3 & G5 & G6 & G7).
  destruct (clone_trace h4 (r_trace d)) as [h5 l5] eqn:E5.
  eapply (clone_trace_spec _ _ _ _ (next h)) in E5 as (st & C5 & F5 & Hst); cbn;
    rewrite ?G5, ?D5, ?B5, ?A5; [|eapply below_le; eauto; lia|done|lia].
  apply frame_trace in F5 as (I1 & I2 & I3 & I4 & I6 & I7).
  simplify_eq. cbn. exists sb, st.
  rewrite ?I1, ?G1, ?D1, ?B1, ?I2, ?G2, ?D2, ?I3, ?G3, ?I4, ?I6, ?G6, ?D6, ?B6, ?A6 in *.
  rewrite ?A2, ?B3, ?A3, ?D4, ?B4, ?A4, ?G5, ?D5, ?B5, ?A5 in *.
  split_and!; auto.
Qed.

(** [Clone] is an independent copy, up to what it documents as shared: the
    clone reads like the original, the original is unchanged, and mutating the
    clone's tags, timestamps, TTL, trace or a binary below the threshold is not
    visible through the original. *)
Theorem Clone_independent th h d :
  heap_ok h -> ref_ok h d ->
  let '(h', d') := Clone th h d in
  read h' d = read h d /\ read h' d' = read h d /\
  forall m, protected th h d m -> read (mutate h' d' m) d = read h' d.
Proof.
  intros Hh Hd. destruct (Clone th h d) as [h' d'] eqn:E.
  destruct (Clone_fields th h d h' d' Hh Hd E)
    as (sb & st & P1 & P2 & P3 & C1 & C2 & C3 & C4 & C5 & Hsb & Hst).
  destruct Hh as [K1 K2 K3 K4 K5], Hd as [V1 V2 V3 V4 V5].
  unfold read. split_and!.
  - rewrite P3, (copied_original _ _ _ _ _ _ C1 V1), (copied_original _ _ _ _ _ _ C2 V2),
      (copied_original _ _ _ _ _ _ C3 V3), (copied_original _ _ _ _ _ _ C4 V4),
      (copied_original _ _ _ _ _ _ C5 V5). done.
  - rewrite P1, P2, P3, (cp_read _ _ _ _ _ _ C1), (cp_read _ _ _ _ _ _ C2),
      (cp_read _ _ _ _ _ _ C3), (cp_read _ _ _ _ _ _ C4), (cp_read _ _ _ _ _ _ C5). done.
  - intros m Hm. destruct m; cbn in Hm |- *; [by rewrite (copied_write _ _ _ _ _ _ C1 K1 V1)
      |by rewrite (copied_write _ _ _ _ _ _ C2 K2 V2)|by rewrite (copied_write _ _ _ _ _ _ C3 K3 V3)| | |done].
    + destruct sb; [|by rewrite (copied_write _ _ _ _ _ _ C4 K4 V4)].
      destruct (Hsb eq_refl) as (a & b' & Ha & Hb & Hle). specialize (Hm a b' Ha Hb). lia.
    + destruct st; [|by rewrite (copied_write _ _ _ _ _ _ C5 K5 V5)].
      destruct (Hst eq_refl) as (a & Ha & Hb). by destruct (Hm a Ha).
Qed.
End clone.

Definition demoHeap : Heap (V := nat) :=
  MkHeap {[0%nat := {["site" := "fab2"]}]} ∅ {[1%nat := 10]} {[2%nat := [171; 0]]} ∅
         {[3%nat := 42%nat]} 4%nat.
Definition demoDatagram : RefDatagram :=
  MkRef (header (New (V := nat) "01J" 0 noSource (MkPayload 42%nat None)))
        (Some 0%nat) None (Some 1%nat) 3%nat (Some 2%nat) None.

Lemma Clone_independent_witness :
  heap_ok demoHeap /\ ref_ok demoHeap demoDatagram /\
  let '(h', d') := Clone 1024 demoHeap demoDatagram in
  read (mutate h' d' (MBin [255; 0])) demoDatagram = read demoHeap demoDatagram.
Proof.
  assert (heap_ok demoHeap) as Hh.
  { split; intros a x; cbn; rewrite ?lookup_empty, ?lookup_singleton_Some; intros; try done;
      destruct_and?; subst; lia. }
  assert (ref_ok demoHeap demoDatagram) as Hd by (split; cbn; eauto).
  split; [exact Hh|]. split; [exact Hd|].
  pose proof (Clone_independent 1024 demoHeap demoDatagram Hh Hd) as H.
  destruct (Clone 1024 demoHeap demoDatagram) as [h' d']. destruct H as (H1 & _ & H3).
  rewrite H3; [exact H1|]. cbn. intros a b [= <-] Hb. vm_compute in Hb. simplify_eq.
  vm_compute. reflexivity.
Defined.

(** The JSON payload is shared: a branch that mutates the value of its copy in
    place changes what the other branch reads. *)
Theorem Clone_shares_value :
  let '(h', d') := Clone 1024 demoHeap demoDatagram in
  valueH (mutate h' d' (MValue 7%nat)) !! r_value demoDatagram = Some 7%nat /\
  valueH demoHeap !! r_value demoDatagram = Some 42%nat.
Proof. vm_compute. split; reflexivity. Qed.
End datagram.
