(* ===== verification/Bus.v ===== *)
(** * The internal bus ([engine/bus])

    [Wire] is the ring buffer of [wire.go] with its overflow policies and its
    condition-variable waits; [FanOut] the per-output fan-out.  Everything runs
    under the wire's mutex, so an operation is a function of the wire; a blocked
    [Send]/[Receive] is an outcome ([SBlock]/[RBlock]) that leaves the wire
    unchanged and is retried when it is woken.  The abstract specification is a
    bounded FIFO queue. *)

From S2P Require Import Prelude.
Local Open Scope Z_scope.

Module bus.

Inductive OverflowPolicy := OverflowBlock | OverflowDropOldest | OverflowDropNewest | OverflowSample.
#[global] Instance OverflowPolicy_eq_dec : EqDecision OverflowPolicy.
Proof. solve_decision. Defined.

Record WireConfig := MkWireConfig { Capacity : Z; Overflow : OverflowPolicy; SampleEvery : Z }.
Record Metrics := MkMetrics { Delivered : Z; Dropped : Z }.

Section wire.
Context {D : Type} (zeroD : D).    (* datagram.Datagram and its zero value *)

Record Wire := MkWire {
  cfg : WireConfig;
  buf : list D;
  head : nat;
  count : nat;
  closed : bool;
  sampleN : Z;
  metrics : Metrics
}.

Definition NewWire (c : WireConfig) : Wire :=
  let c := if Capacity c <=? 0 then MkWireConfig 1 (Overflow c) (SampleEvery c) else c in
  let c := match Overflow c with
           | OverflowSample => if SampleEvery c <? 1 then MkWireConfig (Capacity c) OverflowSample 1 else c
           | _ => c
           end in
  MkWire c (replicate (Z.to_nat (Capacity c)) zeroD) 0 0 false 0 (MkMetrics 0 0).

Definition full (w : Wire) : bool := Capacity (cfg w) <=? Z.of_nat (count w).

Definition pushLocked (w : Wire) (d : D) : Wire :=
  let tail := ((head w + count w) mod length (buf w))%nat in
  MkWire (cfg w) (<[tail := d]> (buf w)) (head w) (S (count w)) (closed w) (sampleN w) (metrics w).

Definition popOldestLocked (w : Wire) : Wire :=
  MkWire (cfg w) (<[head w := zeroD]> (buf w)) ((head w + 1) mod length (buf w))%nat
         (pred (count w)) (closed w) (sampleN w) (metrics w).

Definition addDelivered (w : Wire) : Wire :=
  MkWire (cfg w) (buf w) (head w) (count w) (closed w) (sampleN w)
         (MkMetrics (u64 (Delivered (metrics w) + 1)) (Dropped (metrics w))).
Definition addDropped (w : Wire) : Wire :=
  MkWire (cfg w) (buf w) (head w) (count w) (closed w) (sampleN w)
         (MkMetrics (Delivered (metrics w)) (u64 (Dropped (metrics w) + 1))).
Definition setSampleN (w : Wire) (n : Z) : Wire :=
  MkWire (cfg w) (buf w) (head w) (count w) (closed w) n (metrics w).

(** [waitLocked]: what it does when it is entered, or after a wake-up: return
    [ctx.Err()], go on, or wait. *)
Inductive WaitOutcome := WCtx | WGo | WWait.
Definition waitLocked (ctxErr : bool) (predicate : bool) : WaitOutcome :=
  if ctxErr then WCtx else if predicate then WWait else WGo.

Inductive SendOutcome :=
| SDelivered   (* true, nil *)
| SDropped     (* false, nil *)
| SClosed      (* false, ErrClosed *)
| SCtx         (* false, ctx.Err() *)
| SBlock.      (* waiting on notFull *)
#[global] Instance SendOutcome_eq_dec : EqDecision SendOutcome.
Proof. solve_decision. Defined.

(** The common tail: push, count, signal. *)
Definition sendPush (w : Wire) (d : D) : Wire * SendOutcome :=
  (addDelivered (pushLocked w d), SDelivered).

(** A [Send] that waits on [notFull]: [ctxErr] is [ctx.Err() != nil] at the check. *)
Definition sendBlock (ctxErr : bool) (w : Wire) (d : D) : Wire * SendOutcome :=
  match waitLocked ctxErr (full w && negb (closed w)) with
  | WCtx => (w, SCtx)
  | WWait => (w, SBlock)
  | WGo => if closed w then (w, SClosed) else sendPush w d
  end.

Definition Send (ctxErr : bool) (w : Wire) (d : D) : Wire * SendOutcome :=
  if closed w then (w, SClosed)
  else if full w then
    match Overflow (cfg w) with
    | OverflowBlock => sendBlock ctxErr w d
    | OverflowDropOldest => sendPush (addDropped (popOldestLocked w)) d
    | OverflowDropNewest => (addDropped w, SDropped)
    | OverflowSample =>
        let w := setSampleN w (s64 (sampleN w + 1)) in
        if negb (Z.rem (sampleN w) (SampleEvery (cfg w)) =? 0) then (addDropped w, SDropped)
        else sendPush (popOldestLocked w) d
    end
  else sendPush w d.

Inductive RecvOutcome :=
| RGot (d : D)
| RClosed      (* ErrClosed *)
| RCtx         (* ctx.Err() *)
| RBlock       (* waiting on notEmpty *)
| RPanic.      (* buf[head] out of range *)

Definition Receive (ctxErr : bool) (w : Wire) : Wire * RecvOutcome :=
  match waitLocked ctxErr ((count w =? 0)%nat && negb (closed w)) with
  | WCtx => (w, RCtx)
  | WWait => (w, RBlock)
  | WGo =>
      if (count w =? 0)%nat then (w, RClosed)
      else match buf w !! head w with
           | Some d => (popOldestLocked w, RGot d)
           | None => (w, RPanic)
           end
  end.

Definition Close (w : Wire) : Wire :=
  MkWire (cfg w) (buf w) (head w) (count w) true (sampleN w) (metrics w).
Definition Depth (w : Wire) : nat := count w.
Definition WireCapacity (w : Wire) : nat := length (buf w).

(** ** Invariant and abstraction *)

Record wire_ok (w : Wire) : Prop := MkWireOk {
  ok_len : Z.of_nat (length (buf w)) = Capacity (cfg w);
  ok_pos : (0 < length (buf w))%nat;
  ok_head : (head w < length (buf w))%nat;
  ok_count : (count w <= length (buf w))%nat;
  ok_sample : Overflow (cfg w) = OverflowSample -> 1 <= SampleEvery (cfg w)
}.

(** The queued datagrams, oldest first: the ring read from [head]. *)
Definition slot (w : Wire) (i : nat) : D :=
  default zeroD (buf w !! ((head w + i) mod length (buf w))%nat).
Definition queue (w : Wire) : list D := map (slot w) (seq 0 (count w)).
#[global] Arguments queue : simpl never.

(** ** Ring lemmas *)

Lemma length_queue w : length (queue w) = count w.
Proof. unfold queue. by rewrite length_map, length_seq. Qed.

Lemma full_spec w : wire_ok w -> full w = true <-> count w = length (buf w).
Proof.
  intros [Hl _ _ Hc _]. unfold full. rewrite Z.leb_le. lia.
Qed.

Lemma NewWire_ok c : wire_ok (NewWire c).
Proof.
  unfold NewWire. destruct (Z.leb_spec (Capacity c) 0); destruct c as [cap [] se]; cbn in *;
    try (destruct (Z.ltb_spec se 1)); cbn; split; cbn; try done; rewrite ?length_replicate; try lia.
Qed.
Lemma NewWire_queue c : queue (NewWire c) = [].
Proof. done. Qed.

Lemma mod_distinct n h i j :
  (0 < n)%nat -> (i < n)%nat -> (j < n)%nat -> ((h + i) mod n = (h + j) mod n)%nat -> i = j.
Proof.
  intros Hn Hi Hj H.
  pose proof (Nat.div_mod_eq (h + i) n). pose proof (Nat.div_mod_eq (h + j) n).
  assert ((h + i) / n = (h + j) / n \/ (h + i) / n <> (h + j) / n)%nat as [E|E] by lia; [nia|].
  nia.
Qed.

Lemma push_ok w d : wire_ok w -> (count w < length (buf w))%nat -> wire_ok (pushLocked w d).
Proof.
  intros [Hl Hp Hh Hc Hs] Hlt. split; cbn; rewrite ?length_insert; auto; lia.
Qed.
Lemma push_queue w d :
  wire_ok w -> (count w < length (buf w))%nat -> queue (pushLocked w d) = queue w ++ [d].
Proof.
  intros [Hl Hp Hh Hc Hs] Hlt. unfold queue at 1. cbn [count pushLocked].
  rewrite seq_S, map_app. f_equal.
  - apply map_ext_in. intros i Hi%in_seq. unfold slot; cbn. rewrite length_insert.
    rewrite list_lookup_insert_ne; [done|].
    intros E. apply mod_distinct in E; lia.
  - cbn. unfold slot; cbn. rewrite length_insert, list_lookup_insert_eq; [done|].
    apply Nat.mod_upper_bound. lia.
Qed.

Lemma pop_ok w : wire_ok w -> wire_ok (popOldestLocked w).
Proof.
  intros [Hl Hp Hh Hc Hs]. split; cbn; rewrite ?length_insert; auto; [|lia].
  apply Nat.mod_upper_bound. lia.
Qed.
Lemma pop_queue w d q : wire_ok w -> queue w = d :: q ->
  buf w !! head w = Some d /\ queue (popOldestLocked w) = q.
Proof.
  intros [Hl Hp Hh Hc Hs] Hq.
  assert (count w = S (length q)) as Hn by (rewrite <- length_queue, Hq; done).
  unfold queue in Hq. rewrite Hn in Hq. cbn in Hq. injection Hq as Hd Hq.
  unfold slot in Hd. rewrite Nat.add_0_r, Nat.mod_small in Hd by lia.
  destruct (lookup_lt_is_Some_2 (buf w) (head w)) as [x Hx]; [lia|].
  rewrite Hx in Hd. cbn in Hd. subst x. split; [done|].
  unfold queue. cbn [count popOldestLocked]. rewrite Hn. cbn [pred].
  transitivity (map (slot w) (seq 1 (length q))); [|exact Hq].
  rewrite <- seq_shift, map_map. apply map_ext_in. intros i Hi%in_seq.
  unfold slot; cbn. rewrite length_insert.
  assert (((head w + 1) mod length (buf w) + i) mod length (buf w) =
          (head w + S i) mod length (buf w))%nat as ->.
  { rewrite Nat.Div0.add_mod_idemp_l. f_equal. lia. }
  rewrite list_lookup_insert_ne; [done|]. intros E.
  replace (head w) with ((head w + 0) mod length (buf w))%nat in E at 1
    by (rewrite Nat.add_0_r; apply Nat.mod_small; lia).
  apply mod_distinct in E; lia.
Qed.

(** ** Specification: a bounded FIFO queue *)

(** What [Send] does to an abstract queue of capacity [cap]: the new queue, the
    datagram evicted if any, and the outcome.  [keep] tells whether the sampling
    policy keeps this datagram. *)
Definition spec_send (pol : OverflowPolicy) (cap : nat) (keep isClosed ctxErr : bool)
    (q : list D) (d : D) : list D * option D * SendOutcome :=
  if isClosed then (q, None, SClosed)
  else if (length q <? cap)%nat then (q ++ [d], None, SDelivered)
  else match pol with
       | OverflowBlock => (q, None, if ctxErr then SCtx else SBlock)
       | OverflowDropOldest => (tail q ++ [d], hd_error q, SDelivered)
       | OverflowDropNewest => (q, None, SDropped)
       | OverflowSample => if keep then (tail q ++ [d], hd_error q, SDelivered)
                           else (q, None, SDropped)
       end.

Definition spec_receive (isClosed ctxErr : bool) (q : list D) : list D * RecvOutcome :=
  if ctxErr then (q, RCtx)
  else match q with
       | d :: q' => (q', RGot d)
       | [] => (q, if isClosed then RClosed else RBlock)
       end.

(** Whether the sampling policy keeps the next datagram that finds the queue full. *)
Definition sample_keeps (w : Wire) : bool :=
  Z.rem (s64 (sampleN w + 1)) (SampleEvery (cfg w)) =? 0.

Lemma meta_queue w w' :
  buf w' = buf w -> head w' = head w -> count w' = count w -> queue w' = queue w.
Proof.
  intros Hb Hh Hc. unfold queue. rewrite Hc. apply map_ext. intros i. unfold slot.
  by rewrite Hb, Hh.
Qed.
Lemma meta_ok w w' :
  cfg w' = cfg w -> buf w' = buf w -> head w' = head w -> count w' = count w ->
  wire_ok w -> wire_ok w'.
Proof.
  intros Hcf Hb Hh Hc [H1 H2 H3 H4 H5]. split; rewrite ?Hcf, ?Hb, ?Hh, ?Hc; done.
Qed.

Lemma sendPush_spec w d :
  wire_ok w -> (count w < length (buf w))%nat ->
  wire_ok (fst (sendPush w d)) /\ queue (fst (sendPush w d)) = queue w ++ [d].
Proof.
  intros Hok Hlt. cbn. split.
  - eapply meta_ok; [..|by apply push_ok]; done.
  - rewrite <- push_queue by done. by apply meta_queue.
Qed.

Lemma evict_push_spec w w0 d :
  wire_ok w -> (0 < count w)%nat -> cfg w0 = cfg w -> buf w0 = buf (popOldestLocked w) ->
  head w0 = head (popOldestLocked w) -> count w0 = count (popOldestLocked w) ->
  wire_ok (fst (sendPush w0 d)) /\ queue (fst (sendPush w0 d)) = tail (queue w) ++ [d].
Proof.
  intros Hok Hpos Hcf Hb Hh Hc.
  assert (wire_ok w0) as Hok0 by (eapply meta_ok; [..|by apply pop_ok]; done).
  destruct (queue w) as [|x q] eqn:Eq.
  { rewrite <- (length_queue w), Eq in Hpos. cbn in Hpos. lia. }
  destruct (pop_queue w x q Hok Eq) as [_ Hq].
  destruct (sendPush_spec w0 d Hok0) as [H1 H2].
  { rewrite Hc, Hb. cbn. rewrite length_insert. pose proof (ok_count _ Hok). lia. }
  split; [done|]. rewrite H2. cbn. f_equal. rewrite <- Hq. by apply meta_queue.
Qed.

(** [Send] implements the specification. *)
Lemma Send_refines ctxErr w d w' o :
  wire_ok w -> Send ctxErr w d = (w', o) ->
  wire_ok w' /\ cfg w' = cfg w /\ closed w' = closed w /\
  exists ev, spec_send (Overflow (cfg w)) (length (buf w)) (sample_keeps w) (closed w) ctxErr
               (queue w) d = (queue w', ev, o).
Proof.
  intros Hok H. unfold Send in H. unfold spec_send.
  destruct (closed w) eqn:Ecl; [simplify_eq; split_and!; eauto|].
  assert (full w = true <-> count w = length (buf w)) as Hfull by by apply full_spec.
  rewrite length_queue. pose proof (ok_pos _ Hok) as Hpos. pose proof (ok_count _ Hok) as Hcnt.
  destruct (full w) eqn:Ef.
  - assert (count w = length (buf w)) as Hc by by apply Hfull.
    destruct (Nat.ltb_spec (count w) (length (buf w))); [lia|].
    destruct (Overflow (cfg w)) eqn:Eo.
    + unfold sendBlock in H. rewrite Ef, Ecl in H. cbn in H.
      destruct ctxErr; cbn in H; simplify_eq; split_and!; eauto.
    + destruct (evict_push_spec w (addDropped (popOldestLocked w)) d Hok) as [H1 H2]; try done; [lia|].
      rewrite (surjective_pairing (sendPush _ d)) in H. simplify_eq.
      split_and!; [done..|]. eexists. rewrite H2. reflexivity.
    + simplify_eq. split_and!; [by apply (meta_ok w)|done..|]. eexists. reflexivity.
    + cbn in H. unfold sample_keeps.
      destruct (Z.rem (s64 (sampleN w + 1)) (SampleEvery (cfg w)) =? 0) eqn:Es; cbn in H.
      * destruct (evict_push_spec w (popOldestLocked (setSampleN w (s64 (sampleN w + 1)))) d Hok)
          as [H1 H2]; try done; [lia|].
        rewrite (surjective_pairing (sendPush _ d)) in H. simplify_eq.
        split_and!; [done..|]. eexists. rewrite H2. reflexivity.
      * simplify_eq. split_and!; [by apply (meta_ok w)|done..|]. eexists. reflexivity.
  - destruct (Nat.ltb_spec (count w) (length (buf w))) as [Hlt|];
      [|assert (count w = length (buf w)) as HX by lia; apply Hfull in HX; congruence].
    destruct (sendPush_spec w d Hok Hlt) as [H1 H2].
    rewrite (surjective_pairing (sendPush _ d)) in H. simplify_eq.
    split_and!; [done..|]. eexists. rewrite H2. reflexivity.
Qed.

Lemma Receive_refines ctxErr w w' o :
  wire_ok w -> Receive ctxErr w = (w', o) ->
  wire_ok w' /\ cfg w' = cfg w /\ closed w' = closed w /\ metrics w' = metrics w /\
  spec_receive (closed w) ctxErr (queue w) = (queue w', o).
Proof.
  intros Hok H. unfold Receive, waitLocked in H. unfold spec_receive.
  destruct ctxErr; [by simplify_eq|].
  destruct (queue w) as [|d q] eqn:Eq.
  - assert (count w = 0%nat) as Hc by (rewrite <- length_queue, Eq; done).
    rewrite Hc in H. cbn in H. destruct (closed w) eqn:Ecl; cbn in H; simplify_eq; by rewrite Eq.
  - assert (count w = S (length q)) as Hc by (rewrite <- length_queue, Eq; done).
    rewrite Hc in H. cbn in H. destruct (pop_queue w d q Hok Eq) as [Hhd Hq].
    rewrite Hhd in H. injection H as <- <-. rewrite Hq. split_and!; try done. by apply pop_ok.
Qed.

(** The effect of a send, by cases: nothing, a refusal, a push, or an eviction
    followed by a push. *)
Inductive send_effect (w : Wire) (d : D) (w' : Wire) : SendOutcome -> Prop :=
| se_quiet o : queue w' = queue w -> metrics w' = metrics w ->
    o = SClosed \/ o = SCtx \/ (o = SBlock /\ Overflow (cfg w) = OverflowBlock) ->
    send_effect w d w' o
| se_refuse : queue w' = queue w -> metrics w' = metrics (addDropped w) ->
    Overflow (cfg w) = OverflowDropNewest \/ Overflow (cfg w) = OverflowSample ->
    send_effect w d w' SDropped
| se_push : full w = false -> queue w' = queue w ++ [d] ->
    metrics w' = metrics (addDelivered w) -> send_effect w d w' SDelivered
| se_evict x q : full w = true -> queue w = x :: q -> queue w' = q ++ [d] ->
    Overflow (cfg w) = OverflowDropOldest /\ metrics w' = metrics (addDelivered (addDropped w)) \/
    Overflow (cfg w) = OverflowSample /\ metrics w' = metrics (addDelivered w) ->
    send_effect w d w' SDelivered.

Lemma evict_effect w w0 d :
  wire_ok w -> full w = true -> cfg w0 = cfg w -> buf w0 = buf (popOldestLocked w) ->
  head w0 = head (popOldestLocked w) -> count w0 = count (popOldestLocked w) ->
  Overflow (cfg w) = OverflowDropOldest /\ metrics w0 = metrics (addDropped w) \/
  Overflow (cfg w) = OverflowSample /\ metrics w0 = metrics w ->
  send_effect w d (fst (sendPush w0 d)) SDelivered.
Proof.
  intros Hok Hf Hcf Hb Hh Hc Hm.
  assert (count w = length (buf w)) as E by by apply full_spec.
  pose proof (ok_pos _ Hok) as Hpos.
  destruct (evict_push_spec w w0 d Hok) as [_ H2]; [lia|done..|].
  destruct (queue w) as [|x q] eqn:Eq.
  { rewrite <- (length_queue w), Eq in E. cbn in E. lia. }
  apply (se_evict _ _ _ x q); [done..|].
  destruct Hm as [[-> Hm]|[-> Hm]]; [left|right]; (split; [done|]); cbn; rewrite Hm; done.
Qed.

Lemma not_full_lt w : wire_ok w -> full w = false -> (count w < length (buf w))%nat.
Proof.
  intros Hok Hf. pose proof (full_spec w Hok) as H. pose proof (ok_count w Hok).
  destruct (decide (count w = length (buf w))) as [E|]; [apply H in E; congruence|lia].
Qed.

Lemma Send_effect ctxErr w d w' o :
  wire_ok w -> Send ctxErr w d = (w', o) -> send_effect w d w' o.
Proof.
  intros Hok H. unfold Send in H.
  destruct (closed w) eqn:Ecl; [simplify_eq; apply se_quiet; auto|].
  destruct (full w) eqn:Ef.
  - destruct (Overflow (cfg w)) eqn:Eo.
    + unfold sendBlock in H. rewrite Ef, Ecl in H.
      destruct ctxErr; cbn in H; simplify_eq; apply se_quiet; auto.
    + assert (w' = fst (sendPush (addDropped (popOldestLocked w)) d) /\ o = SDelivered)
        as [-> ->] by (unfold sendPush in H; by simplify_eq).
      apply evict_effect; auto.
    + simplify_eq. apply se_refuse; auto.
    + cbn -[sendPush popOldestLocked] in H. case_match; simplify_eq.
      * apply se_refuse; auto.
      * assert (w' = fst (sendPush (popOldestLocked (setSampleN w (s64 (sampleN w + 1)))) d)
                /\ o = SDelivered) as [-> ->] by (unfold sendPush in H; by simplify_eq).
        apply evict_effect; auto.
  - destruct (sendPush_spec w d Hok (not_full_lt w Hok Ef)) as [_ Hq].
    unfold sendPush in *. simplify_eq. by apply se_push.
Qed.

(** A blocked [Send] that is woken goes on inside [waitLocked]. *)
Lemma sendBlock_effect ctxErr w d w' o :
  wire_ok w -> Overflow (cfg w) = OverflowBlock -> sendBlock ctxErr w d = (w', o) ->
  wire_ok w' /\ cfg w' = cfg w /\ closed w' = closed w /\ send_effect w d w' o.
Proof.
  intros Hok Ho H. unfold sendBlock, waitLocked in H.
  destruct ctxErr; [simplify_eq; split_and!; auto; apply se_quiet; auto|].
  destruct (full w) eqn:Ef, (closed w) eqn:Ecl; cbn -[sendPush] in H; simplify_eq;
    try (split_and!; auto; apply se_quiet; by auto).
  destruct (sendPush_spec w d Hok (not_full_lt w Hok Ef)) as [Hok' Hq].
  unfold sendPush in *. simplify_eq. split_and!; auto. by apply se_push.
Qed.

(** ** Runs: any interleaving of senders, receivers, wake-ups and [Close] *)

Inductive op :=
| OSend (ctxErr : bool) (d : D)
| OResume (ctxErr : bool) (i : nat)   (* the [i]-th blocked sender is woken *)
| OReceive (ctxErr : bool)
| OClose.

Inductive fate := Received | Evicted.

(** The wire with its history: the blocked senders' datagrams, what was accepted
    into the queue, what left it (in the order it left, and how), and how many
    datagrams the policy refused. *)
Record Run := MkRun {
  wire : Wire; waiting : list D; accepted : list D; departed : list (fate * D); refused : Z
}.

(** The head of a full queue makes room for an accepted datagram. *)
Definition evicts (w : Wire) (o : SendOutcome) : list (fate * D) :=
  match o with
  | SDelivered => if full w then map (pair Evicted) (option_list (hd_error (queue w))) else []
  | _ => []
  end.

(** The history after a send of [d] on [r]'s wire that ended with [w'] and [o]. *)
Definition note_send (r : Run) (ws : list D) (d : D) (w' : Wire) (o : SendOutcome) : Run :=
  MkRun w' (match o with SBlock => ws ++ [d] | _ => ws end)
        (match o with SDelivered => accepted r ++ [d] | _ => accepted r end)
        (departed r ++ evicts (wire r) o)
        (match o with SDropped => refused r + 1 | _ => refused r end).

Definition run_op (r : Run) (x : op) : Run :=
  match x with
  | OSend ctxErr d =>
      let '(w', o) := Send ctxErr (wire r) d in note_send r (waiting r) d w' o
  | OResume ctxErr i =>
      match waiting r !! i with
      | Some d =>
          let '(w', o) := sendBlock ctxErr (wire r) d in
          note_send r (delete i (waiting r)) d w' o
      | None => r
      end
  | OReceive ctxErr =>
      let '(w', o) := Receive ctxErr (wire r) in
      MkRun w' (waiting r) (accepted r)
            (match o with RGot d => departed r ++ [(Received, d)] | _ => departed r end) (refused r)
  | OClose => MkRun (Close (wire r)) (waiting r) (accepted r) (departed r) (refused r)
  end.
Definition run (c : WireConfig) (xs : list op) : Run :=
  fold_left run_op xs (MkRun (NewWire c) [] [] [] 0).

Definition evicted (r : Run) : list D :=
  omap (fun p => match p with (Evicted, d) => Some d | _ => None end) (departed r).
Definition received (r : Run) : list D :=
  omap (fun p => match p with (Received, d) => Some d | _ => None end) (departed r).

(** What the [Dropped] counter counts under each policy. *)
Definition counted (pol : OverflowPolicy) (r : Run) : Z :=
  match pol with
  | OverflowDropOldest => zlen (evicted r)
  | _ => refused r
  end.

Definition evicting (pol : OverflowPolicy) : Prop :=
  pol = OverflowDropOldest \/ pol = OverflowSample.

Record run_inv (c : WireConfig) (r : Run) : Prop := MkRunInv {
  ri_ok : wire_ok (wire r);
  ri_cfg : cfg (wire r) = cfg (NewWire c);
  ri_order : accepted r = map snd (departed r) ++ queue (wire r);
  ri_keeps : ~ evicting (Overflow c) -> evicted r = [];
  ri_refused : Overflow c = OverflowDropOldest -> refused r = 0;
  ri_waiting : Overflow c <> OverflowBlock -> waiting r = [];
  ri_delivered : Delivered (metrics (wire r)) = u64 (zlen (accepted r));
  ri_dropped : Dropped (metrics (wire r)) = u64 (counted (Overflow c) r)
}.

#[local] Arguments NewWire : simpl never.
#[local] Arguments evicted : simpl never.
Lemma NewWire_policy c : Overflow (cfg (NewWire c)) = Overflow c.
Proof. unfold NewWire. repeat case_match; cbn in *; congruence. Qed.
Lemma u64_succ n m : n = u64 m -> u64 (n + 1) = u64 (m + 1).
Proof. intros ->. unfold uwrap. by rewrite Zplus_mod_idemp_l. Qed.


Lemma evicted_app r w ws acc dep n :
  evicted (MkRun w ws acc (departed r ++ dep) n) =
  evicted r ++ omap (fun p => match p with (Evicted, d) => Some d | _ => None end) dep.
Proof. unfold evicted. cbn. by rewrite omap_app. Qed.

Lemma evicted_note r ws d w' o :
  evicted (note_send r ws d w' o) =
  evicted r ++ (if bool_decide (o = SDelivered) && full (wire r)
                then option_list (hd_error (queue (wire r))) else []).
Proof.
  unfold note_send. rewrite evicted_app. f_equal. unfold evicts.
  destruct o; try done. destruct (full (wire r)); [|done]. by destruct (queue (wire r)).
Qed.

(** A send that has one of the effects above keeps the invariant. *)
Lemma note_send_inv c r ws d w' o :
  run_inv c r -> (Overflow c <> OverflowBlock -> ws = []) ->
  wire_ok w' -> cfg w' = cfg (wire r) -> send_effect (wire r) d w' o ->
  run_inv c (note_send r ws d w' o).
Proof.
  intros Hr Hws Hok Hcf He. destruct Hr as [Hok0 Hc0 Hord Hkeep Href Hwait Hdel Hdrop].
  pose proof (NewWire_policy c) as Hpol. rewrite <- Hc0 in Hpol.
  destruct He as [o Hq Hm Ho|Hq Hm Ho|Hf Hq Hm|x q Hf Hq Hq' Hm].
  - destruct Ho as [-> | [-> | [-> Ho]]]; split; unfold counted; rewrite ?evicted_note;
      cbn; rewrite ?app_nil_r, ?Hq, ?Hm; auto; congruence.
  - split; unfold counted; rewrite ?evicted_note; cbn; rewrite ?app_nil_r, ?Hq, ?Hm; auto;
      try congruence.
    + destruct Ho; congruence.
    + cbn. rewrite (u64_succ _ _ Hdrop). unfold counted.
      destruct Ho as [Ho|Ho]; rewrite Hpol in Ho; by rewrite Ho.
  - split; unfold counted; rewrite ?evicted_note; cbn; rewrite ?Hf, ?app_nil_r, ?Hq, ?Hm; auto;
      try congruence.
    + rewrite Hord. by rewrite app_assoc.
    + cbn. rewrite (u64_succ _ _ Hdel), zlen_app. done.
  - split; unfold counted; rewrite ?evicted_note; cbn; rewrite ?Hf, ?Hq; cbn; auto; try congruence.
    + rewrite Hord, Hq, Hq', map_app, <- !app_assoc. done.
    + intros Hn. destruct Hn. rewrite <- Hpol. unfold evicting. tauto.
    + destruct Hm as [[_ Hm]|[_ Hm]]; rewrite Hm; cbn; rewrite (u64_succ _ _ Hdel), zlen_app; done.
    + unfold counted in Hdrop.
      destruct Hm as [[Ho Hm]|[Ho Hm]]; rewrite Hpol in Ho; rewrite Ho in *; rewrite Hm; cbn; [|done].
      rewrite (u64_succ _ _ Hdrop), zlen_app. done.
Qed.

Lemma run_op_inv c r x : run_inv c r -> run_inv c (run_op r x).
Proof.
  intros Hr. pose proof Hr as [Hok Hc Hord Hkeep Href Hwait Hdel Hdrop]. destruct x; cbn.
  - destruct (Send ctxErr (wire r) d) as [w' o] eqn:E.
    destruct (Send_refines _ _ _ _ _ Hok E) as (? & ? & _ & _).
    apply note_send_inv; auto. by eapply Send_effect.
  - destruct (waiting r !! i) as [d|] eqn:Ei; [|done].
    destruct (sendBlock ctxErr (wire r) d) as [w' o] eqn:E.
    assert (Overflow c = OverflowBlock) as Ho.
    { destruct (decide (Overflow c = OverflowBlock)); [done|].
      rewrite Hwait in Ei by done. done. }
    destruct (sendBlock_effect _ _ _ _ _ Hok ltac:(rewrite Hc, NewWire_policy; done) E)
      as (? & ? & _ & ?).
    apply note_send_inv; auto. done.
  - destruct (Receive ctxErr (wire r)) as [w' o] eqn:E.
    destruct (Receive_refines _ _ _ _ Hok E) as (Hok' & Hc' & _ & Hm & Hs).
    unfold spec_receive in Hs. split; cbn; try congruence; try done; rewrite ?Hm; try done.
    + rewrite Hord. destruct ctxErr; [injection Hs as -> <-; done|].
      destruct (queue (wire r)); injection Hs as <- <-; [by destruct (closed (wire r))|].
      by rewrite map_app, <- app_assoc.
    + intros Hn. destruct o; rewrite ?evicted_app, ?app_nil_r; auto.
    + rewrite Hdrop. unfold counted. by destruct o; rewrite ?evicted_app, ?app_nil_r.
  - split; cbn; try done. by apply (meta_ok (wire r)).
Qed.

Lemma run_ok c xs : run_inv c (run c xs).
Proof.
  unfold run. assert (run_inv c (MkRun (NewWire c) [] [] [] 0)) as H.
  { split; try done; cbn; [apply NewWire_ok|by destruct (Overflow c)]. }
  revert H. generalize (MkRun (NewWire c) [] [] [] 0).
  induction xs as [|x xs IH]; intros r H; cbn; [done|]. apply IH. by apply run_op_inv.
Qed.

(** ** Fan-out *)

(** A [FanOut] holds pointers to the wires it feeds: addresses in a store. *)
Record FanOut := MkFanOut { wires : list nat; threshold : Z }.
Definition NewFanOut (threshold : Z) (wires : list nat) : FanOut := MkFanOut wires threshold.

Inductive FanOutcome :=
| FDone                                     (* nil *)
| FErr (e : SendOutcome)                    (* the first hard error *)
| FBlocked (rest : list nat)                (* blocked on the first of [rest] *)
| FPanic.                                   (* nil wire *)

(** [for _, w := range f.wires { w.Send(ctx, dgm.Clone(f.threshold)) }];
    [clone] is [Datagram.Clone]. *)
Fixpoint fanout_loop (clone : Z -> D -> D) (th : Z) (ctxErr : bool) (store : list Wire)
    (ws : list nat) (d : D) : list Wire * FanOutcome :=
  match ws with
  | [] => (store, FDone)
  | a :: ws' =>
      match store !! a with
      | None => (store, FPanic)
      | Some w =>
          let '(w', o) := Send ctxErr w (clone th d) in
          let store := <[a := w']> store in
          match o with
          | SDelivered | SDropped => fanout_loop clone th ctxErr store ws' d
          | SClosed | SCtx => (store, FErr o)
          | SBlock => (store, FBlocked ws)
          end
      end
  end.
Definition FanOutSend (clone : Z -> D -> D) (f : FanOut) (ctxErr : bool) (store : list Wire) (d : D)
  : list Wire * FanOutcome := fanout_loop clone (threshold f) ctxErr store (wires f) d.

(** The wire after [k] sends of [d]. *)
Definition sends (ctxErr : bool) (d : D) (k : nat) (w : Wire) : Wire :=
  Nat.iter k (fun w => fst (Send ctxErr w d)) w.
Definition occurrences (a : nat) (l : list nat) : nat := length (filter (eq a) l).

Lemma sends_S ctxErr d k w : sends ctxErr d (S k) w = sends ctxErr d k (fst (Send ctxErr w d)).
Proof. apply Nat.iter_succ_r. Qed.

(** A send that does not enqueue or drop leaves the wire as it was. *)
Lemma Send_noop ctxErr w d w' o :
  Send ctxErr w d = (w', o) -> o <> SDelivered -> o <> SDropped -> w' = w.
Proof.
  unfold Send, sendBlock, sendPush, waitLocked. intros H H1 H2.
  repeat (case_match; simplify_eq; try done).
Qed.

(** What a fan-out leaves behind once the targets [pre] have taken their copy. *)
Definition fanned (ctxErr : bool) (d : D) (pre : list nat) (store : list Wire) : list Wire :=
  imap (fun a w => sends ctxErr d (occurrences a pre) w) store.

Lemma fanned_nil ctxErr d store : fanned ctxErr d [] store = store.
Proof. apply list_eq. intros i. unfold fanned. rewrite list_lookup_imap. by destruct (store !! i). Qed.
Lemma fanned_cons ctxErr d a pre store w w' o :
  store !! a = Some w -> Send ctxErr w d = (w', o) ->
  fanned ctxErr d pre (<[a := w']> store) = fanned ctxErr d (a :: pre) store.
Proof.
  intros Ha Hs. apply list_eq. intros i. unfold fanned. rewrite !list_lookup_imap.
  unfold occurrences. destruct (decide (a = i)) as [<-|Hne].
  - rewrite list_lookup_insert_eq by by eapply lookup_lt_Some. rewrite Ha.
    rewrite filter_cons_True by done. cbn [length fmap option_fmap option_map]. by rewrite sends_S, Hs.
  - rewrite list_lookup_insert_ne by done. by rewrite filter_cons_False by congruence.
Qed.

(** Whatever the outcome, exactly the targets of a prefix have been served, each
    by its own policy, and a failing or blocking target is left as it was. *)
Lemma fanout_loop_prefix clone th ctxErr ws store d store' o :
  Forall (fun a => (a < length store)%nat) ws ->
  fanout_loop clone th ctxErr store ws d = (store', o) ->
  exists pre post, ws = pre ++ post /\ store' = fanned ctxErr (clone th d) pre store /\
                match o with
  | FDone => post = []
  | FErr e => exists a w post', post = a :: post' /\ store' !! a = Some w /\
                Send ctxErr w (clone th d) = (w, e) /\ (e = SClosed \/ e = SCtx)
  | FBlocked rest => rest = post /\ exists a w post', post = a :: post' /\ store' !! a = Some w /\
                Send ctxErr w (clone th d) = (w, SBlock)
  | FPanic => False
  end.
Proof.
  revert store. induction ws as [|a ws IH]; intros store Hws H; cbn in H.
  - simplify_eq. exists [], []. by rewrite fanned_nil.
  - apply Forall_cons in Hws as [Ha Hws].
    destruct (lookup_lt_is_Some_2 _ _ Ha) as [w Hw]. rewrite Hw in H.
    destruct (Send ctxErr w (clone th d)) as [w' o'] eqn:Es.
    destruct (decide (o' = SDelivered \/ o' = SDropped)) as [Ho'|Ho'].
    + assert (fanout_loop clone th ctxErr (<[a:=w']> store) ws d = (store', o)) as H'
        by (by destruct Ho' as [-> | ->]).
      apply IH in H' as (pre & post & -> & -> & Hm); [|by rewrite length_insert].
      rewrite (fanned_cons _ _ _ _ _ _ _ _ Hw Es) in *.
      exists (a :: pre), post. done.
    + assert (w' = w) as -> by (eapply Send_noop; [done|tauto..]).
      rewrite (list_insert_id _ _ _ Hw) in H.
      exists [], (a :: ws). rewrite fanned_nil.
      destruct o'; [tauto|tauto|simplify_eq; eauto 12..].
Qed.

Lemma departed_received r : evicted r = [] -> map snd (departed r) = received r.
Proof.
  unfold evicted, received. generalize (departed r) as l. clear r.
  induction l as [|[[] x] l IH]; cbn; intros H; [done|by rewrite IH|done].
Qed.

(** [C3] A wire is a bounded FIFO queue with its overflow policy: on a well-formed
    wire, [Send] and [Receive] do to the queued datagrams exactly what the abstract
    queue does, with the same outcome, keep the wire well formed, and [Receive]
    never reads out of range. *)
Theorem wire_refines_queue ctxErr w d : wire_ok w ->
  (let '(w', o) := Send ctxErr w d in
   wire_ok w' /\ cfg w' = cfg w /\ closed w' = closed w /\
   exists ev, spec_send (Overflow (cfg w)) (length (buf w)) (sample_keeps w) (closed w) ctxErr
                (queue w) d = (queue w', ev, o)) /\
  (let '(w', o) := Receive ctxErr w in
   wire_ok w' /\ cfg w' = cfg w /\ closed w' = closed w /\ metrics w' = metrics w /\
   o <> RPanic /\ spec_receive (closed w) ctxErr (queue w) = (queue w', o)).
Proof.
  intros Hok. split.
  - destruct (Send ctxErr w d) as [w' o] eqn:E. eauto using Send_refines.
  - destruct (Receive ctxErr w) as [w' o] eqn:E.
    destruct (Receive_refines _ _ _ _ Hok E) as (? & ? & ? & ? & Hs). split_and!; auto.
    unfold spec_receive in Hs. repeat case_match; by simplify_eq.
Qed.

(** In any interleaving of senders, woken senders, receivers and [Close]: the
    accepted datagrams are, in order, those that left the queue followed by those
    still queued; the queue never exceeds the capacity; only the evicting policies
    lose an accepted datagram; and the counters count what they say. *)
Theorem wire_history c xs :
  let r := run c xs in
  accepted r = map snd (departed r) ++ queue (wire r) /\
  (length (queue (wire r)) <= WireCapacity (wire r))%nat /\
  (~ evicting (Overflow c) -> accepted r = received r ++ queue (wire r)) /\
  Delivered (metrics (wire r)) = u64 (zlen (accepted r)) /\
  Dropped (metrics (wire r)) = u64 (counted (Overflow c) r).
Proof.
  cbv zeta. destruct (run_ok c xs) as [Hok _ Hord Hkeep _ _ Hdel Hdrop].
  split_and!; [done|rewrite length_queue; apply Hok| |done..].
  intros He. rewrite Hord. f_equal. by apply departed_received, Hkeep.
Qed.

(** A fan-out serves its targets in order, each by its own overflow policy and
    independently of the others, up to the first hard error; the failing wire and
    every later target are left untouched. *)
Theorem fanout_serves_prefix clone f ctxErr store d store' o :
  Forall (fun a => (a < length store)%nat) (wires f) ->
  FanOutSend clone f ctxErr store d = (store', o) ->
  exists pre post, wires f = pre ++ post /\
    store' = fanned ctxErr (clone (threshold f) d) pre store /\
    match o with
    | FDone => post = []
    | FErr e => exists a w post', post = a :: post' /\ store' !! a = Some w /\
                  Send ctxErr w (clone (threshold f) d) = (w, e) /\ (e = SClosed \/ e = SCtx)
    | FBlocked rest => rest = post /\ exists a w post', post = a :: post' /\
                         store' !! a = Some w /\ Send ctxErr w (clone (threshold f) d) = (w, SBlock)
    | FPanic => False
    end.
Proof. apply fanout_loop_prefix. Qed.
End wire.

(** ** What a wire promises to its clients *)

Class Mailbox (W D : Type) := {
  mb_new : WireConfig -> W;
  mb_send : bool -> W -> D -> W * SendOutcome;
  mb_close : W -> W;
  mb_queue : W -> list D;
  mb_ok : W -> Prop;
  mb_new_ok c : mb_ok (mb_new c) /\ mb_queue (mb_new c) = [];
  mb_close_ok w : mb_ok w -> mb_ok (mb_close w) /\ mb_queue (mb_close w) = mb_queue w;
  mb_closed ctxErr w d : mb_ok w -> mb_send ctxErr (mb_close w) d = (mb_close w, SClosed);
  mb_send_ok ctxErr w d : mb_ok w -> mb_ok (fst (mb_send ctxErr w d));
  (* an accepted datagram is last; a prefix may have been evicted for it *)
  mb_delivered ctxErr w d w' : mb_ok w -> mb_send ctxErr w d = (w', SDelivered) ->
    exists k, mb_queue w' = drop k (mb_queue w) ++ [d];
  mb_refused ctxErr w d w' o : mb_ok w -> mb_send ctxErr w d = (w', o) -> o <> SDelivered ->
    mb_queue w' = mb_queue w
}.

#[global] Program Instance wire_mailbox {D} (zeroD : D) : Mailbox (Wire (D := D)) D := {|
  mb_new := NewWire zeroD; mb_send := Send zeroD; mb_close := Close; mb_queue := queue zeroD;
  mb_ok := wire_ok
|}.
Next Obligation. intros. split; [apply NewWire_ok|apply NewWire_queue]. Qed.
Next Obligation. intros D zeroD w Hok. split; [by apply (meta_ok w)|by apply meta_queue]. Qed.
Next Obligation. done. Qed.
Next Obligation.
  intros D zeroD c w d Hok. destruct (Send zeroD c w d) as [w' o] eqn:E.
  by apply (Send_refines zeroD _ _ _ _ _ Hok E).
Qed.
Next Obligation.
  intros D zeroD c w d w' Hok E. apply (Send_effect zeroD _ _ _ _ _ Hok) in E.
  inversion E as [? ? ? Ho| |? Hq|x q ? Hq Hq']; subst.
  - naive_solver.
  - exists 0%nat. done.
  - exists 1%nat. by rewrite Hq.
Qed.
Next Obligation.
  intros D zeroD c w d w' o Hok E Ho. apply (Send_effect zeroD _ _ _ _ _ Hok) in E.
  by inversion E.
Qed.

(** ** Witnesses *)

Definition blockWire : Wire (D := nat) := NewWire 0%nat (MkWireConfig 2 OverflowBlock 0).

Lemma wire_refines_queue_witness :
  wire_ok blockWire /\ (let '(w', o) := Send 0%nat false blockWire 7%nat in
   wire_ok w' /\ o = SDelivered).
Proof.
  assert (wire_ok blockWire) as H by apply (NewWire_ok 0%nat).
  split; [exact H|].
  destruct (wire_refines_queue 0%nat false blockWire 7%nat H) as [(H1 & _) _].
  split; [exact H1|reflexivity].
Defined.

Lemma fanout_serves_prefix_witness :
  exists store', FanOutSend 0%nat (fun _ x => x) (NewFanOut 16 [1%nat; 0%nat]) false [blockWire; blockWire] 7%nat
                 = (store', FDone) /\
  exists pre post, [1%nat; 0%nat] = pre ++ post /\
    store' = fanned 0%nat false 7%nat pre [blockWire; blockWire] /\ post = [].
Proof.
  eexists. split; [vm_compute; reflexivity|].
  apply (fanout_serves_prefix 0%nat (fun _ x => x) (NewFanOut 16 [1%nat; 0%nat]) false
           [blockWire; blockWire] 7%nat _ FDone).
  - repeat constructor.
  - vm_compute. reflexivity.
Defined.

(** Under [OverflowSample] an accepted datagram that is evicted to make room is
    lost without being counted in [Dropped]. *)
Theorem sample_eviction_uncounted :
  let r := run 0%nat (MkWireConfig 1 OverflowSample 1) [OSend false 1%nat; OSend false 2%nat] in
  evicted r = [1%nat] /\ Dropped (metrics (wire r)) = 0.
Proof. vm_compute. split; reflexivity. Qed.
End bus.
