(* ===== verification/FanIn.v ===== *)
(** * Fan-in ([engine/bus/fanin.go])

    One goroutine per source wire receives from the wire and forwards into a shared channel.
    The goroutines, the senders on the wires, the reader and [Close] interleave: a step
    relation on the whole, one atomic action per step, with invariants of what is reachable. *)

From S2P Require Import Prelude Bus.
Import bus.
Local Open Scope nat_scope.

Module fanin.
Section fanin.
Context {D : Type} (zeroD : D).

(** Where a goroutine is: in [w.Receive], in the select with a datagram, or returned. *)
Inductive phase := Receiving | Forwarding (d : D) | Returned.

(** [out] and what happened carry the index of the wire. *)
Record FanIn := MkFanIn {
  bufferSize : nat; out : list (nat * D); cancelled : bool; wires : list (Wire (D := D)); gos : list phase;
  taken : list (nat * D); delivered : list (nat * D); lost : list (nat * D)
}.
Definition NewFanIn (bufferSize : nat) (ws : list Wire) : FanIn :=
  MkFanIn bufferSize [] false ws (replicate (length ws) Receiving) [] [] [].

Definition set_go (f : FanIn) (i : nat) (p : phase) : list phase := <[i := p]> (gos f).
Definition set_wire (f : FanIn) (i : nat) (w : Wire) : list Wire := <[i := w]> (wires f).

Inductive step : FanIn -> FanIn -> Prop :=
| step_send f i w ctxErr d :
    (* another node sends on a wire *)
    wires f !! i = Some w ->
    step f (MkFanIn (bufferSize f) (out f) (cancelled f) (set_wire f i (Send zeroD ctxErr w d).1) (gos f)
              (taken f) (delivered f) (lost f))
| step_take f i w w' d :
    (* dgm, err := w.Receive(ctx) *)
    wires f !! i = Some w -> gos f !! i = Some Receiving -> Receive zeroD (cancelled f) w = (w', RGot d) ->
    step f (MkFanIn (bufferSize f) (out f) (cancelled f) (set_wire f i w') (set_go f i (Forwarding d))
              (taken f ++ [(i, d)]) (delivered f) (lost f))
| step_return f i w w' o :
    (* if err != nil { return } *)
    wires f !! i = Some w -> gos f !! i = Some Receiving -> Receive zeroD (cancelled f) w = (w', o) ->
    o = RClosed \/ o = RCtx ->
    step f (MkFanIn (bufferSize f) (out f) (cancelled f) (set_wire f i w') (set_go f i Returned)
              (taken f) (delivered f) (lost f))
| step_forward f i d :
    (* case f.out <- dgm *)
    gos f !! i = Some (Forwarding d) -> length (out f) < bufferSize f ->
    step f (MkFanIn (bufferSize f) (out f ++ [(i, d)]) (cancelled f) (wires f) (set_go f i Receiving)
              (taken f) (delivered f) (lost f))
| step_rendezvous f i d :
    (* the same, on an unbuffered channel with a reader waiting *)
    gos f !! i = Some (Forwarding d) -> out f = [] ->
    step f (MkFanIn (bufferSize f) [] (cancelled f) (wires f) (set_go f i Receiving)
              (taken f) (delivered f ++ [(i, d)]) (lost f))
| step_abandon f i d :
    (* case <-ctx.Done(): return *)
    gos f !! i = Some (Forwarding d) -> cancelled f = true ->
    step f (MkFanIn (bufferSize f) (out f) (cancelled f) (wires f) (set_go f i Returned)
              (taken f) (delivered f) (lost f ++ [(i, d)]))
| step_receive f x rest :
    (* FanIn.Receive *)
    out f = x :: rest ->
    step f (MkFanIn (bufferSize f) rest (cancelled f) (wires f) (gos f)
              (taken f) (delivered f ++ [x]) (lost f))
| step_close f :
    (* FanIn.Close, or the parent context is cancelled *)
    step f (MkFanIn (bufferSize f) (out f) true (wires f) (gos f) (taken f) (delivered f) (lost f)).

Inductive reachable (n : nat) (ws : list Wire) : FanIn -> Prop :=
| reach_new : reachable n ws (NewFanIn n ws)
| reach_step f f' : reachable n ws f -> step f f' -> reachable n ws f'.

(** ** No loss, no duplication, order per wire *)

Definition from (i : nat) (l : list (nat * D)) : list D := omap (fun x => if decide (x.1 = i) then Some x.2 else None) l.
Definition held (f : FanIn) (i : nat) : list D :=
  match gos f !! i with Some (Forwarding d) => [d] | _ => [] end.

#[local] Arguments from : simpl never.
Lemma from_snoc i l j d : from i (l ++ [(j, d)]) = from i l ++ (if decide (j = i) then [d] else []).
Proof. unfold from. rewrite omap_app. cbn. by case_decide. Qed.
Lemma from_eq i d : from i [(i, d)] = [d].
Proof. unfold from. cbn. by rewrite decide_True. Qed.
Lemma from_ne i j d : i <> j -> from j [(i, d)] = [].
Proof. intros H. unfold from. cbn. by rewrite decide_False. Qed.
Lemma from_app i l k : from i (l ++ k) = from i l ++ from i k.
Proof. apply omap_app. Qed.

Record fanin_inv (n : nat) (f : FanIn) : Prop := MkFanInInv {
  fi_size : bufferSize f = n;
  fi_room : length (out f) <= n;
  fi_all : forall i, from i (taken f) = from i (delivered f ++ out f) ++ held f i ++ from i (lost f);
  fi_lost : forall i, from i (lost f) <> [] ->
    cancelled f = true /\ gos f !! i = Some Returned /\ length (from i (lost f)) = 1
}.


(** What one goroutine's step changes, seen from wire [j]. *)
Lemma go_step f i p q : gos f !! i = Some p ->
  set_go f i q !! i = Some q /\ (forall j, i <> j -> set_go f i q !! j = gos f !! j).
Proof.
  intros Hg. unfold set_go. split; [apply list_lookup_insert_eq; by eapply lookup_lt_Some|].
  intros j Hj. by apply list_lookup_insert_ne.
Qed.

Lemma fanin_step_inv n f f' : fanin_inv n f -> step f f' -> fanin_inv n f'.
Proof.
  intros [Hs Hr Ha Hl] Hstep. destruct Hstep as
    [f i w ctxErr d Hw|f i w w' d Hw Hg Hrec|f i w w' o Hw Hg Hrec Ho|f i d Hg Hlen|f i d Hg Hout|f i d Hg Hc|f x rest Hout|f].
  1: by split.
  1-5: assert (from i (lost f) = []) as Hnl
         by (destruct (from i (lost f)) eqn:E; [done|]; destruct (Hl i) as (_ & H & _); [by rewrite E|congruence]).
  1-5: match goal with |- context [set_go ?g ?k ?q] => destruct (go_step g k _ q Hg) as [Hset Hset'] end.
  1-5: split; cbn; [done|rewrite ?length_app; cbn; rewrite ?Hout in *; cbn in *; lia| |];
    intros j; specialize (Ha j); specialize (Hl j); unfold held in *; cbn;
    rewrite ?from_app in *; destruct (decide (i = j)) as [<- |Hne];
    rewrite ?Hset, ?Hset', ?Hg, ?Hnl, ?Hout in * by done; rewrite ?Ha; cbn;
    rewrite ?from_eq, ?(from_ne i j) by done; rewrite ?app_nil_r, <- ?app_assoc; try done.
  - split; cbn; [done|rewrite Hout in Hr; cbn in Hr; lia| |done]. intros j. rewrite <- app_assoc. cbn. by rewrite <- Hout.
  - split; cbn; [done|done|done|]. intros j Hj. destruct (Hl j Hj) as (_ & ? & ?). done.
Qed.

Lemma reachable_inv n ws f : reachable n ws f -> fanin_inv n f.
Proof.
  induction 1 as [|f f' _ IH Hs]; [|by eapply fanin_step_inv].
  split; cbn; [done|lia| |done]. intros i. unfold held. cbn.
  destruct (replicate (length ws) Receiving !! i) as [p|] eqn:E; [|done]. apply lookup_replicate in E as [-> _]. done.
Qed.

(** Fan-in neither loses, repeats nor reorders.  However goroutines, senders, the reader
    and [Close] interleave, what was taken from a wire is, in that order, what the reader got
    of it, then what waits in the channel, then the datagram in its goroutine's hands; only
    after [Close] can one more be missing, the datagram its goroutine held when it returned,
    and never more than one per wire.  The channel never exceeds its buffer. *)
Theorem fanin_conserves n ws f i : reachable n ws f ->
  from i (taken f) = from i (delivered f ++ out f) ++ held f i ++ from i (lost f) /\
  (cancelled f = false -> from i (lost f) = []) /\ length (from i (lost f)) <= 1 /\ length (out f) <= n.
Proof.
  intros H%reachable_inv. destruct H as [Hs Hr Ha Hl]. split_and!; [apply Ha| | |done].
  - intros Hc. destruct (from i (lost f)) eqn:E; [done|]. destruct (Hl i) as (Hc' & _); [by rewrite E|congruence].
  - destruct (decide (from i (lost f) = [])) as [-> |Hne]; [cbn; lia|]. destruct (Hl i Hne) as (_ & _ & ->). lia.
Qed.

End fanin.

(** A datagram taken from the only wire is abandoned by [Close]. *)
Definition example_wire : Wire (D := nat) := (Send 0 false (NewWire 0 (MkWireConfig 4 OverflowBlock 0)) 7).1.
Lemma fanin_conserves_witness : exists f, reachable 0 1 [example_wire] f /\
  from 0 (taken f) = [7] /\ from 0 (delivered f ++ out f) = [] /\ from 0 (lost f) = [7] /\
  from 0 (taken f) = from 0 (delivered f ++ out f) ++ held f 0 ++ from 0 (lost f).
Proof.
  set (f := MkFanIn 1 [] true [(Receive 0 false example_wire).1] [Returned] [(0, 7)] [] [(0, 7)]).
  assert (reachable 0 1 [example_wire] f) as H.
  { set (w := (Receive 0 false example_wire).1).
    set (f1 := MkFanIn 1 [] false [w] [Forwarding 7] [(0, 7)] [] []).
    set (f2 := MkFanIn 1 [] true [w] [Forwarding 7] [(0, 7)] [] []).
    assert (step 0 (NewFanIn 1 [example_wire]) f1) as H1
      by exact (step_take 0 (NewFanIn 1 [example_wire]) 0 example_wire w 7 eq_refl eq_refl eq_refl).
    assert (step 0 f1 f2) as H2 by exact (step_close 0 f1).
    assert (step 0 f2 f) as H3 by exact (step_abandon 0 f2 0 7 eq_refl eq_refl).
    exact (reach_step 0 1 _ f2 f (reach_step 0 1 _ f1 f2 (reach_step 0 1 _ _ f1 (reach_new 0 1 _) H1) H2) H3). }
  exists f. split; [exact H|]. split; [vm_compute; reflexivity|]. split; [vm_compute; reflexivity|].
  split; [vm_compute; reflexivity|]. exact (proj1 (fanin_conserves 0 1 [example_wire] f 0 H)).
Defined.
End fanin.
