(* ===== verification/StoreForward.v ===== *)
(** * Store-and-forward queue ([engine/storeforward])

    [Queue] of [queue.go] over an explicit directory: [Open] rebuilds the index
    from the files, [Enqueue] writes, renames and applies the age and size bounds,
    [Peek]/[Remove] serve [Drain].  File system calls may fail: an [Env] says which
    do.  [Unmarshal] of an entry file is the one part of [encoding/json] that stays
    a parameter; [Marshal] is written out. *)

From stdpp Require Import sorting.
From S2P Require Import Prelude Bytes GoStd.
Import gostd.
Local Open Scope Z_scope.

Module storeforward.

Record entryFile := MkEntryFile { EnqueuedAtUnixNano : Z; ef_Payload : bytes }.
Record Entry := MkEntry { ID : bytes; Payload : bytes; EnqueuedAt : Z }.

(** The regular files of the queue's directory, by name. *)
Abbreviation Disk := (gmap bytes bytes).

Record Queue := MkQueue {
  maxSizeBytes : Z;
  maxAge : Z;
  nextSeq : Z;
  order : list bytes;
  sizes : gmap bytes Z;
  total : Z
}.

(** Which system calls of one operation succeed. *)
Record Env := MkEnv {
  write_ok : bool;                (* os.WriteFile(tmp) *)
  rename_ok : bool;               (* os.Rename *)
  remove_ok : bytes -> bool;      (* os.Remove of an entry *)
  read_ok : bytes -> bool         (* os.ReadFile of an entry *)
}.
Definition goodEnv : Env := MkEnv true true (fun _ => true) (fun _ => true).

Definition json_suffix : bytes := bytes_of_string ".json".
Definition tmp_suffix : bytes := bytes_of_string ".tmp".
Definition file (id : bytes) : bytes := id ++ json_suffix.

(** [json.Marshal(entryFile{...})]; [34] is the double quote. *)
Definition entry_head : bytes :=
  bytes_of_string "{" ++ [34] ++ bytes_of_string "enqueuedAtUnixNano" ++ [34] ++ bytes_of_string ":".
Definition entry_mid : bytes :=
  bytes_of_string "," ++ [34] ++ bytes_of_string "payload" ++ [34] ++ bytes_of_string ":" ++ [34].
Definition entry_tail : bytes := [34] ++ bytes_of_string "}".
Definition Marshal (ef : entryFile) : bytes :=
  entry_head ++ FormatInt (EnqueuedAtUnixNano ef) ++ entry_mid ++ ef_Payload ef ++ entry_tail.

(** ** Open *)

Definition setIndex (q : Queue) (n : Z) (o : list bytes) (s : gmap bytes Z) (t : Z) : Queue :=
  MkQueue (maxSizeBytes q) (maxAge q) n o s t.

(** One directory entry: [name] with its size. *)
Definition openEntry (acc : Queue * list (bytes * Z)) (e : bytes * bytes) : Queue * list (bytes * Z) :=
  let '(q, ids) := acc in
  let '(name, data) := e in
  match cut_suffix json_suffix name with
  | None => acc
  | Some id =>
      match ParseInt id with
      | None => acc
      | Some seq =>
          (setIndex q (if nextSeq q <=? seq then s64 (seq + 1) else nextSeq q) (order q)
             (<[id := zlen data]> (sizes q)) (s64 (total q + zlen data)), ids ++ [(id, seq)])
      end
  end.

Definition bySeq (a b : bytes * Z) : Prop := snd a <= snd b.
#[global] Instance bySeq_dec a b : Decision (bySeq a b).
Proof. unfold bySeq. apply _. Defined.

Definition Open (dk : Disk) (maxSize maxAge : Z) : Queue :=
  let '(q, ids) := fold_left openEntry (map_to_list dk) (MkQueue maxSize maxAge 0 [] ∅ 0, []) in
  setIndex q (nextSeq q) (map fst (merge_sort bySeq ids)) (sizes q) (total q).

(** ** Removing *)

Fixpoint remove_scan (id : bytes) (l : list bytes) : list bytes :=
  match l with
  | [] => []
  | o :: l' => if decide (o = id) then l' else o :: remove_scan id l'
  end.

Definition removeLocked (env : Env) (dk : Disk) (q : Queue) (id : bytes) : Disk * Queue :=
  let dk := if remove_ok env id then delete (file id) dk else dk in
  let t := s64 (total q - default 0 (sizes q !! id)) in
  let s := delete id (sizes q) in
  let o := match order q with
           | o :: l => if decide (o = id) then l else remove_scan id (order q)
           | [] => []
           end in
  (dk, setIndex q (nextSeq q) o s t).

Definition Len (q : Queue) : Z := zlen (order q).
Definition SizeBytes (q : Queue) : Z := total q.

Section codec.
(** [json.Unmarshal] into an [entryFile] ([None]: an error). *)
Context (Unmarshal : bytes -> option entryFile).

Definition readLocked (env : Env) (dk : Disk) (id : bytes) : option entryFile :=
  if read_ok env id then dk !! file id ≫= Unmarshal else None.

(** ** The bounds *)

Fixpoint dropExpired_loop (fuel : nat) (env : Env) (now : Z) (dk : Disk) (q : Queue) (dropped : Z)
  : Disk * Queue * Z :=
  match fuel with
  | O => (dk, q, dropped)
  | S f =>
      match order q with
      | [] => (dk, q, dropped)
      | id :: _ =>
          match readLocked env dk id with
          | None =>
              let '(dk, q) := removeLocked env dk q id in
              dropExpired_loop f env now dk q (dropped + 1)
          | Some ef =>
              if timeSub now (EnqueuedAtUnixNano ef) <=? maxAge q then (dk, q, dropped)
              else
                let '(dk, q) := removeLocked env dk q id in
                dropExpired_loop f env now dk q (dropped + 1)
          end
      end
  end.
(** Every iteration removes the head, so [len(order)] iterations are enough. *)
Definition dropExpiredLocked (env : Env) (now : Z) (dk : Disk) (q : Queue) : Disk * Queue * Z :=
  if maxAge q <=? 0 then (dk, q, 0)
  else dropExpired_loop (length (order q)) env now dk q 0.

Fixpoint dropOverflow_loop (fuel : nat) (env : Env) (dk : Disk) (q : Queue) (dropped : Z)
  : Disk * Queue * Z :=
  match fuel with
  | O => (dk, q, dropped)
  | S f =>
      match order q with
      | [] => (dk, q, dropped)
      | id :: _ =>
          if maxSizeBytes q <? total q then
            let '(dk, q) := removeLocked env dk q id in
            dropOverflow_loop f env dk q (dropped + 1)
          else (dk, q, dropped)
      end
  end.
Definition dropOverflowLocked (env : Env) (dk : Disk) (q : Queue) : Disk * Queue * Z :=
  if maxSizeBytes q <=? 0 then (dk, q, 0)
  else dropOverflow_loop (length (order q)) env dk q 0.

(** ** Enqueue, Peek, Remove *)

Inductive qerr := EWrite | ERename.

(** A failed [os.WriteFile] leaves the temporary file absent or holding any prefix;
    the model leaves it absent. *)
Definition Enqueue (env : Env) (dk : Disk) (q : Queue) (payload : bytes) (enqueuedAt : Z)
  : Disk * Queue * res qerr Z :=
  let id := Sprintf020 (nextSeq q) in
  let q := setIndex q (s64 (nextSeq q + 1)) (order q) (sizes q) (total q) in
  let data := Marshal (MkEntryFile (s64 enqueuedAt) (EncodeToString payload)) in
  let path := file id in
  if negb (write_ok env) then (dk, q, Err EWrite) else
  let dk := <[path ++ tmp_suffix := data]> dk in
  if negb (rename_ok env) then (dk, q, Err ERename) else
  let dk := <[path := data]> (delete (path ++ tmp_suffix) dk) in
  let q := setIndex q (nextSeq q) (order q ++ [id]) (<[id := zlen data]> (sizes q))
             (s64 (total q + zlen data)) in
  let '(dk, q, d1) := dropExpiredLocked env enqueuedAt dk q in
  let '(dk, q, d2) := dropOverflowLocked env dk q in
  (dk, q, Ok (d1 + d2)).

Definition Peek (env : Env) (dk : Disk) (q : Queue) : Disk * Queue * option Entry :=
  match order q with
  | [] => (dk, q, None)
  | id :: _ =>
      match readLocked env dk id with
      | None => let '(dk, q) := removeLocked env dk q id in (dk, q, None)
      | Some ef =>
          match DecodeString (ef_Payload ef) with
          | None => let '(dk, q) := removeLocked env dk q id in (dk, q, None)
          | Some p => (dk, q, Some (MkEntry id p (EnqueuedAtUnixNano ef)))
          end
      end
  end.

Definition Remove (env : Env) (dk : Disk) (q : Queue) (id : bytes) : Disk * Queue :=
  removeLocked env dk q id.

(** ** Specification: the queued entries, oldest first *)

Record item := MkItem { seq : Z; time : Z; body : bytes }.
Definition item_id (e : item) : bytes := Sprintf020 (seq e).
Definition item_data (e : item) : bytes := Marshal (MkEntryFile (time e) (EncodeToString (body e))).
Definition item_size (e : item) : Z := zlen (item_data e).
Fixpoint bytes_used (es : list item) : Z :=
  match es with [] => 0 | e :: es' => item_size e + bytes_used es' end.

Fixpoint expire (maxAge now : Z) (es : list item) : list item :=
  match es with
  | [] => []
  | e :: es' => if timeSub now (time e) <=? maxAge then es else expire maxAge now es'
  end.
Fixpoint shrink (maxSize : Z) (es : list item) : list item :=
  match es with
  | [] => []
  | e :: es' => if maxSize <? bytes_used es then shrink maxSize es' else es
  end.
Definition spec_enqueue (maxSize maxAge : Z) (es : list item) (e : item) : list item :=
  let es := es ++ [e] in
  let es := if maxAge <=? 0 then es else expire maxAge (time e) es in
  if maxSize <=? 0 then es else shrink maxSize es.

(** The queue and its directory hold exactly the items [es]. *)
Record repr (dk : Disk) (q : Queue) (es : list item) : Prop := MkRepr {
  rp_order : order q = map item_id es;
  rp_sorted : StronglySorted Z.lt (map seq es);
  rp_seq : Forall (fun e => 0 <= seq e < nextSeq q) es;
  rp_next : 0 <= nextSeq q < 2 ^ 63;
  rp_ok : Forall (fun e => in_s 64 (time e) /\ bytes_ok (body e)) es;
  rp_files : Forall (fun e => dk !! file (item_id e) = Some (item_data e)) es;
  rp_sizes : sizes q = list_to_map (map (fun e => (item_id e, item_size e)) es);
  rp_total : total q = bytes_used es /\ bytes_used es < 2 ^ 63
}.
(** No other entry file is in the directory. *)
Definition clean (dk : Disk) (es : list item) : Prop :=
  forall name data id n, dk !! name = Some data -> cut_suffix json_suffix name = Some id ->
    ParseInt id = Some n -> exists e, e ∈ es /\ id = item_id e.

#[local] Arguments item_size : simpl never.
#[local] Arguments item_id : simpl never.
#[local] Arguments item_data : simpl never.
#[local] Arguments file : simpl never.
#[local] Arguments Enqueue : simpl never.
#[local] Arguments Marshal : simpl never.
#[local] Arguments Peek : simpl never.
#[local] Arguments json_suffix : simpl never.
#[local] Arguments tmp_suffix : simpl never.
#[local] Arguments removeLocked : simpl never.
#[local] Arguments Z.pow : simpl never.

(** ** Index lemmas *)

Lemma item_size_nonneg e : 0 <= item_size e.
Proof. apply zlen_nonneg. Qed.
Lemma bytes_used_nonneg es : 0 <= bytes_used es.
Proof. induction es as [|e es IH]; cbn; [lia|]. pose proof (item_size_nonneg e). lia. Qed.
Lemma bytes_used_app es es' : bytes_used (es ++ es') = bytes_used es + bytes_used es'.
Proof. induction es as [|e es IH]; cbn; [done|]. lia. Qed.

Lemma Sprintf020_inj n m : 0 <= n < 2 ^ 63 -> 0 <= m < 2 ^ 63 -> Sprintf020 n = Sprintf020 m -> n = m.
Proof.
  intros Hn Hm E. apply (f_equal ParseInt) in E. rewrite !ParseInt_Sprintf020 in E by done. by simplify_eq.
Qed.
Lemma file_inj id id' : file id = file id' -> id = id'.
Proof. unfold file. by intros ?%app_inv_tail. Qed.

(** A later item has another id. *)
Lemma sorted_ids q e es : StronglySorted Z.lt (map seq (e :: es)) ->
  Forall (fun e => 0 <= seq e < nextSeq q) (e :: es) -> nextSeq q < 2 ^ 63 ->
  forall e', e' ∈ es -> item_id e' <> item_id e.
Proof.
  intros Hs Hf Hn e' He' E. apply Forall_cons in Hf as [He Hf].
  eapply Forall_forall in Hf; [|exact He'].
  apply Sprintf020_inj in E; [|lia..]. cbn in Hs. apply StronglySorted_inv in Hs as [_ Hall].
  eapply Forall_forall in Hall; [|apply (list_elem_of_fmap_2 seq); exact He']. lia.
Qed.

Lemma remove_scan_absent id l : id ∉ l -> remove_scan id l = l.
Proof.
  induction l as [|o l IH]; cbn; [done|]. intros Hn. rewrite decide_False by set_solver.
  rewrite IH by set_solver. done.
Qed.

Lemma s64_small z : 0 <= z < 2 ^ 63 -> s64 z = z.
Proof. intros. apply swrap_id; [lia|]. unfold in_s. lia. Qed.

(** Removing the head. *)
Lemma remove_head env dk q e es dk' q' :
  repr dk q (e :: es) -> removeLocked env dk q (item_id e) = (dk', q') ->
  repr dk' q' es /\ nextSeq q' = nextSeq q /\ maxSizeBytes q' = maxSizeBytes q /\ maxAge q' = maxAge q.
Proof.
  intros [Ho Hs Hq Hn Hk Hf Hz [Ht Hb]] H. unfold removeLocked in H.
  rewrite Ho in H. cbn in H. rewrite decide_True in H by done. injection H as <- <-.
  pose proof (sorted_ids q e es Hs Hq (proj2 Hn)) as Hne.
  pose proof (item_size_nonneg e). pose proof (bytes_used_nonneg es). cbn in Hb, Ht.
  split; [|done]. split; cbn.
  - done.
  - cbn in Hs. by apply StronglySorted_inv in Hs as [].
  - by apply Forall_cons in Hq as [].
  - done.
  - by apply Forall_cons in Hk as [].
  - apply Forall_cons in Hf as [_ Hf]. destruct (remove_ok env (item_id e)); [|done].
    apply Forall_forall. intros e' He'. eapply Forall_forall in Hf; [|exact He'].
    rewrite lookup_delete_ne; [done|]. intros E%file_inj. by eapply Hne.
  - rewrite Hz. cbn. apply delete_insert_id. apply not_elem_of_list_to_map_1.
    rewrite <- list_fmap_compose. intros (e' & E & He')%list_elem_of_fmap. cbn in E. by eapply Hne.
  - rewrite Hz, Ht. cbn. rewrite lookup_insert_eq. cbn. rewrite s64_small; lia.
Qed.

(** Removing an id that is not queued. *)
Lemma remove_absent env dk q es id dk' q' :
  repr dk q es -> (forall e, e ∈ es -> item_id e <> id) -> removeLocked env dk q id = (dk', q') ->
  repr dk' q' es /\ nextSeq q' = nextSeq q /\ maxSizeBytes q' = maxSizeBytes q /\ maxAge q' = maxAge q.
Proof.
  intros [Ho Hs Hq Hn Hk Hf Hz [Ht Hb]] Hid H. unfold removeLocked in H. injection H as <- <-.
  assert (id ∉ order q) as Hni.
  { rewrite Ho. intros (e & -> & He)%list_elem_of_fmap. by eapply Hid. }
  assert (sizes q !! id = None) as Hsz.
  { rewrite Hz. apply not_elem_of_list_to_map_1. rewrite <- list_fmap_compose.
    intros (e & E & He)%list_elem_of_fmap. cbn in E. by eapply Hid. }
  pose proof (bytes_used_nonneg es). split; [|done]. split; cbn; try done.
  - rewrite <- Ho. destruct (order q) as [|o l]; [done|].
    rewrite decide_False by set_solver. by apply remove_scan_absent.
  - destruct (remove_ok env id); [|done]. apply Forall_forall. intros e He.
    eapply Forall_forall in Hf; [|exact He]. rewrite lookup_delete_ne; [done|].
    intros E%file_inj. by eapply Hid.
  - rewrite <- Hz. by apply delete_id.
  - rewrite Hsz. cbn. rewrite s64_small; lia.
Qed.

(** With working removals the directory stays clean. *)
Lemma clean_remove env dk q es id dk' q' :
  remove_ok env id = true -> clean dk es -> removeLocked env dk q id = (dk', q') ->
  clean dk' (filter (fun e => item_id e <> id) es).
Proof.
  intros Hr Hc H. unfold removeLocked in H. rewrite Hr in H. injection H as <- <-.
  intros name data i n Hd Hcut Hp. apply lookup_delete_Some in Hd as [Hne Hd].
  destruct (Hc name data i n Hd Hcut Hp) as (e & He & ->). exists e. split; [|done].
  apply list_elem_of_filter. split; [|done]. intros E. apply Hne.
  apply cut_suffix_Some in Hcut. rewrite Hcut, E. done.
Qed.

Definition files_ok (env : Env) : Prop := forall id, remove_ok env id = true /\ read_ok env id = true.
Definition holds (dk : Disk) (q : Queue) (es : list item) : Prop := repr dk q es /\ clean dk es.
Definition same_cfg (q q' : Queue) : Prop :=
  nextSeq q' = nextSeq q /\ maxSizeBytes q' = maxSizeBytes q /\ maxAge q' = maxAge q.

Lemma clean_mono dk es es' : clean dk es -> (forall e, e ∈ es -> e ∈ es') -> clean dk es'.
Proof. intros Hc Hm name data id n H1 H2 H3. destruct (Hc _ _ _ _ H1 H2 H3) as (e & ? & ?). eauto. Qed.

Lemma holds_remove_head env dk q e es dk' q' :
  files_ok env -> holds dk q (e :: es) -> removeLocked env dk q (item_id e) = (dk', q') ->
  holds dk' q' es /\ same_cfg q q'.
Proof.
  intros He [Hr Hc] H. destruct (remove_head _ _ _ _ _ _ _ Hr H) as [Hr' Hcfg].
  split; [|done]. split; [done|]. eapply clean_mono.
  - eapply clean_remove; [apply He|exact Hc|exact H].
  - intros e' [Hne He']%list_elem_of_filter. apply elem_of_cons in He' as [-> | ?]; done.
Qed.
Lemma holds_remove_absent env dk q es id dk' q' :
  files_ok env -> holds dk q es -> (forall e, e ∈ es -> item_id e <> id) ->
  removeLocked env dk q id = (dk', q') -> holds dk' q' es /\ same_cfg q q'.
Proof.
  intros He [Hr Hc] Hid H. destruct (remove_absent _ _ _ _ _ _ _ Hr Hid H) as [Hr' Hcfg].
  split; [|done]. split; [done|]. eapply clean_mono.
  - eapply clean_remove; [apply He|exact Hc|exact H].
  - by intros e' [_ He']%list_elem_of_filter.
Qed.

(** ** The codec *)

(** [json.Unmarshal] reads back what [json.Marshal] wrote. *)
Context (Unmarshal_Marshal : forall t p, in_s 64 t -> bytes_ok p ->
  Unmarshal (Marshal (MkEntryFile t (EncodeToString p))) = Some (MkEntryFile t (EncodeToString p))).

Lemma read_head env dk q e es : files_ok env -> holds dk q (e :: es) ->
  readLocked env dk (item_id e) = Some (MkEntryFile (time e) (EncodeToString (body e))).
Proof.
  intros He [[_ _ _ _ Hk Hf _ _] _]. apply Forall_cons in Hk as [[Ht Hb] _].
  apply Forall_cons in Hf as [Hf _]. unfold readLocked. destruct (He (item_id e)) as [_ ->].
  rewrite Hf. cbn. by apply Unmarshal_Marshal.
Qed.

Lemma holds_order dk q es : holds dk q es -> order q = map item_id es.
Proof. intros [Hr _]. apply Hr. Qed.

Lemma dropExpired_loop_spec env now es : files_ok env -> forall fuel dk q d dk' q' d',
  (length es <= fuel)%nat -> holds dk q es ->
  dropExpired_loop fuel env now dk q d = (dk', q', d') ->
  let es' := expire (maxAge q) now es in
  holds dk' q' es' /\ same_cfg q q' /\ d' = d + (zlen es - zlen es').
Proof.
  intros He. induction es as [|e es IH]; intros fuel dk q d dk' q' d' Hf Hh H.
  - assert ((dk', q', d') = (dk, q, d)) as E.
    { destruct fuel; cbn in H; [done|]. rewrite (holds_order _ _ _ Hh) in H. done. }
    simplify_eq. cbn. unfold zlen. cbn. split_and!; [done|done|lia].
  - destruct fuel as [|fuel]; cbn in Hf; [lia|]. cbn in H.
    rewrite (holds_order _ _ _ Hh) in H. cbn in H. rewrite (read_head env dk q e es) in H by done.
    cbn [EnqueuedAtUnixNano expire] in *. cbn [expire].
    destruct (timeSub now (time e) <=? maxAge q) eqn:E.
    + simplify_eq. split_and!; [done|done|lia].
    + destruct (removeLocked env dk q (item_id e)) as [dk1 q1] eqn:Er.
      destruct (holds_remove_head _ _ _ _ _ _ _ He Hh Er) as [Hh1 (Hc1 & Hc2 & Hc3)].
      destruct (IH fuel _ _ _ _ _ _ ltac:(lia) Hh1 H) as (H1 & (Hc1' & Hc2' & Hc3') & H3).
      rewrite Hc3 in *. split_and!; [done|unfold same_cfg; split_and!; congruence|].
      rewrite H3, zlen_cons. lia.
Qed.

Lemma dropOverflow_loop_spec env es : files_ok env -> forall fuel dk q d dk' q' d',
  (length es <= fuel)%nat -> holds dk q es ->
  dropOverflow_loop fuel env dk q d = (dk', q', d') ->
  let es' := shrink (maxSizeBytes q) es in
  holds dk' q' es' /\ same_cfg q q' /\ d' = d + (zlen es - zlen es').
Proof.
  intros He. induction es as [|e es IH]; intros fuel dk q d dk' q' d' Hf Hh H.
  - assert ((dk', q', d') = (dk, q, d)) as E.
    { destruct fuel; cbn in H; [done|]. rewrite (holds_order _ _ _ Hh) in H. done. }
    simplify_eq. cbn. unfold zlen. cbn. split_and!; [done|done|lia].
  - destruct fuel as [|fuel]; cbn in Hf; [lia|]. cbn in H.
    rewrite (holds_order _ _ _ Hh) in H. cbn [map] in H.
    assert (total q = bytes_used (e :: es)) as Ht by (destruct Hh as [Hr _]; apply Hr).
    rewrite Ht in H. cbn [shrink].
    destruct (maxSizeBytes q <? bytes_used (e :: es)) eqn:E.
    + destruct (removeLocked env dk q (item_id e)) as [dk1 q1] eqn:Er.
      destruct (holds_remove_head _ _ _ _ _ _ _ He Hh Er) as [Hh1 (Hc1 & Hc2 & Hc3)].
      destruct (IH fuel _ _ _ _ _ _ ltac:(lia) Hh1 H) as (H1 & (Hc1' & Hc2' & Hc3') & H3).
      rewrite Hc2 in *. split_and!; [done|unfold same_cfg; split_and!; congruence|].
      rewrite H3, zlen_cons. lia.
    + simplify_eq. split_and!; [done|done|lia].
Qed.

(** ** Enqueue *)

Lemma tmp_not_entry path : cut_suffix json_suffix (path ++ json_suffix ++ tmp_suffix) = None.
Proof.
  destruct (cut_suffix _ _) as [r|] eqn:E; [|done]. exfalso.
  apply cut_suffix_Some in E. apply (f_equal (fun l => last l)) in E.
  rewrite !last_app in E. vm_compute in E. done.
Qed.

Lemma file_not_tmp id id' : file id ++ tmp_suffix <> file id'.
Proof.
  intros E. apply (f_equal (cut_suffix json_suffix)) in E. unfold file in E.
  by rewrite <- app_assoc, tmp_not_entry, cut_suffix_app in E.
Qed.

(** Appending the new entry: file written and renamed, index extended. *)
Lemma repr_append dk q es t p :
  repr dk q es -> in_s 64 t -> bytes_ok p -> nextSeq q + 1 < 2 ^ 63 ->
  let e := MkItem (nextSeq q) t p in
  bytes_used (es ++ [e]) < 2 ^ 63 ->
  let data := item_data e in let id := item_id e in
  repr (<[file id := data]> (delete (file id ++ tmp_suffix) (<[file id ++ tmp_suffix := data]> dk)))
    (setIndex q (s64 (nextSeq q + 1)) (order q ++ [id]) (<[id := zlen data]> (sizes q))
       (s64 (total q + zlen data))) (es ++ [e]).
Proof.
  intros [Ho Hs Hq Hn Hk Hf Hz [Ht Hb]] Hin Hp Hnx e Hroom data id.
  assert (forall e', e' ∈ es -> item_id e' <> id) as Hne.
  { intros e' He' E. eapply Forall_forall in Hq; [|exact He']. apply Sprintf020_inj in E; cbn in *; lia. }
  rewrite delete_insert_eq. split.
  - cbn. by rewrite Ho, map_app.
  - rewrite map_app. cbn. apply StronglySorted_app. split_and!; [|done|by repeat constructor].
    intros x y (e' & -> & He')%list_elem_of_fmap ->%list_elem_of_singleton.
    eapply Forall_forall in Hq; [|exact He']. lia.
  - cbn. rewrite s64_small by lia. apply Forall_app. split; [|constructor; [cbn; lia|done]].
    eapply Forall_impl; [exact Hq|]. cbn. lia.
  - cbn. rewrite s64_small; lia.
  - apply Forall_app. split; [done|]. constructor; [done|constructor].
  - apply Forall_app. split; [|constructor; [|done]; by rewrite lookup_insert_eq].
    apply Forall_forall. intros e' He'. eapply Forall_forall in Hf; [|exact He'].
    rewrite lookup_insert_ne by (intros E%file_inj; by eapply Hne).
    rewrite lookup_delete_ne; [done|]. apply file_not_tmp.
  - cbn. rewrite Hz, map_app. cbn. symmetry. apply list_to_map_snoc.
    rewrite <- list_fmap_compose. intros (e' & E & He')%list_elem_of_fmap. cbn in E. by eapply Hne.
  - cbn. rewrite Ht. rewrite bytes_used_app in *. cbn in *. pose proof (bytes_used_nonneg es).
    pose proof (item_size_nonneg e). unfold data. change (zlen (item_data e)) with (item_size e).
    rewrite Z.add_0_r in *. rewrite s64_small by lia. done.
Qed.
Lemma clean_append dk es e data : clean dk es ->
  clean (<[file (item_id e) := data]> (delete (file (item_id e) ++ tmp_suffix) (<[file (item_id e) ++ tmp_suffix := data]> dk))) (es ++ [e]).
Proof.
  intros Hc name dt i n Hd Hcut Hpi. rewrite delete_insert_eq in Hd. apply lookup_insert_Some in Hd as [[<- _]|[_ Hd]].
  - unfold file in Hcut. rewrite cut_suffix_app in Hcut. simplify_eq. exists e.
    split; [apply elem_of_snoc_r|done].
  - apply lookup_delete_Some in Hd as [_ Hd]. destruct (Hc _ _ _ _ Hd Hcut Hpi) as (e' & He' & ->).
    exists e'. split; [by apply elem_of_snoc_l|done].
Qed.
Lemma holds_append dk q es t p :
  holds dk q es -> in_s 64 t -> bytes_ok p -> nextSeq q + 1 < 2 ^ 63 ->
  let e := MkItem (nextSeq q) t p in
  bytes_used (es ++ [e]) < 2 ^ 63 ->
  let data := item_data e in let id := item_id e in
  holds (<[file id := data]> (delete (file id ++ tmp_suffix) (<[file id ++ tmp_suffix := data]> dk)))
    (setIndex q (s64 (nextSeq q + 1)) (order q ++ [id]) (<[id := zlen data]> (sizes q))
       (s64 (total q + zlen data))) (es ++ [e]).
Proof. intros [Hr Hc] Hin Hp Hnx e Hroom data id. split; [by apply repr_append|by apply clean_append]. Qed.

(** A failed write or rename only consumes a sequence number. *)
Lemma repr_bump dk q es : repr dk q es -> nextSeq q + 1 < 2 ^ 63 ->
  repr dk (setIndex q (s64 (nextSeq q + 1)) (order q) (sizes q) (total q)) es.
Proof.
  intros [Ho Hs Hq Hn Hk Hf Hz Ht] Hnx. split; cbn; try done; rewrite s64_small by lia; [|lia].
  eapply Forall_impl; [exact Hq|]. cbn. lia.
Qed.
Lemma repr_tmp dk q es id data : repr dk q es -> repr (<[file id ++ tmp_suffix := data]> dk) q es.
Proof.
  intros [Ho Hs Hq Hn Hk Hf Hz Ht]. split; try done.
  apply Forall_forall. intros e He. eapply Forall_forall in Hf; [|exact He].
  rewrite lookup_insert_ne; [done|]. apply file_not_tmp.
Qed.
Lemma clean_tmp dk es id data : clean dk es -> clean (<[file id ++ tmp_suffix := data]> dk) es.
Proof.
  intros Hc name dt i n Hd Hcut Hp. apply lookup_insert_Some in Hd as [[<- _]|[_ Hd]].
  - unfold file in Hcut. by rewrite <- app_assoc, tmp_not_entry in Hcut.
  - by eapply Hc.
Qed.

Lemma dropExpired_spec env now dk q es dk' q' d :
  files_ok env -> holds dk q es -> dropExpiredLocked env now dk q = (dk', q', d) ->
  let es' := if maxAge q <=? 0 then es else expire (maxAge q) now es in
  holds dk' q' es' /\ same_cfg q q' /\ d = zlen es - zlen es'.
Proof.
  intros He Hh H. unfold dropExpiredLocked in H. destruct (maxAge q <=? 0).
  - simplify_eq. split_and!; [done|done|lia].
  - eapply dropExpired_loop_spec in H as (H1 & H2 & H3); [|done| |exact Hh]; [done|].
    rewrite (holds_order _ _ _ Hh), length_map. done.
Qed.
Lemma dropOverflow_spec env dk q es dk' q' d :
  files_ok env -> holds dk q es -> dropOverflowLocked env dk q = (dk', q', d) ->
  let es' := if maxSizeBytes q <=? 0 then es else shrink (maxSizeBytes q) es in
  holds dk' q' es' /\ same_cfg q q' /\ d = zlen es - zlen es'.
Proof.
  intros He Hh H. unfold dropOverflowLocked in H. destruct (maxSizeBytes q <=? 0).
  - simplify_eq. split_and!; [done|done|lia].
  - eapply dropOverflow_loop_spec in H as (H1 & H2 & H3); [|done| |exact Hh]; [done|].
    rewrite (holds_order _ _ _ Hh), length_map. done.
Qed.

Lemma Enqueue_spec env dk q es t p dk' q' r :
  files_ok env -> holds dk q es -> in_s 64 t -> bytes_ok p -> nextSeq q + 1 < 2 ^ 63 ->
  let e := MkItem (nextSeq q) t p in
  bytes_used (es ++ [e]) < 2 ^ 63 ->
  Enqueue env dk q p t = (dk', q', r) ->
  nextSeq q' = nextSeq q + 1 /\ maxSizeBytes q' = maxSizeBytes q /\ maxAge q' = maxAge q /\
  match r with
  | Ok n => let es' := spec_enqueue (maxSizeBytes q) (maxAge q) es e in
            holds dk' q' es' /\ n = zlen (es ++ [e]) - zlen es'
  | Err _ => holds dk' q' es
  | Panic => False
  end.
Proof.
  intros He Hh Hin Hp Hnx e Hroom H. unfold Enqueue in H.
  pose proof (holds_append dk q es t p Hh Hin Hp Hnx Hroom) as Happ. cbv zeta in Happ. fold e in Happ.
  rewrite (swrap_id 64 t) in H by (done || lia).
  change (Marshal _) with (item_data e) in H. change (Sprintf020 (nextSeq q)) with (item_id e) in H.
  assert (s64 (nextSeq q + 1) = nextSeq q + 1) as Hs
    by (apply s64_small; destruct Hh as [[] _]; lia).
  destruct (write_ok env); cbn [negb] in H; [destruct (rename_ok env); cbn [negb] in H|].
  - cbn [nextSeq order sizes total setIndex maxSizeBytes maxAge] in H.
    match type of H with context [dropExpiredLocked _ _ ?d ?q] => set (dk1 := d) in *; set (q1 := q) in * end.
    destruct (dropExpiredLocked env t dk1 q1) as [[dk2 q2] d1] eqn:E1.
    destruct (dropOverflowLocked env dk2 q2) as [[dk3 q3] d2] eqn:E2.
    injection H as <- <- <-.
    apply (dropExpired_spec _ _ _ _ (es ++ [e])) in E1 as (Hh2 & (Hc1 & Hc2 & Hc3) & Hd1); [|done..].
    eapply dropOverflow_spec in E2 as (Hh3 & (Hc1' & Hc2' & Hc3') & Hd2); [|done..].
    rewrite Hc1', Hc1, Hc2', Hc2, Hc3', Hc3. cbn. split_and!; [done..| |].
    + rewrite Hc2 in Hh3. exact Hh3.
    + unfold spec_enqueue. rewrite Hd1, Hd2, Hc2. cbn. lia.
  - injection H as <- <- <-. cbn. split_and!; [done..|]. destruct Hh. split; [by apply repr_tmp, repr_bump|by apply clean_tmp].
  - injection H as <- <- <-. cbn. split_and!; [done..|]. destruct Hh. split; [by apply repr_bump|done].
Qed.

(** ** Open: the index read back from the directory *)

(** A directory entry that is one of ours: id, sequence number, size. *)
Definition ours (x : bytes * bytes) : option (bytes * Z * Z) :=
  id ← cut_suffix json_suffix (fst x); n ← ParseInt id; Some (id, n, zlen (snd x)).
Definition bump (n x : Z) : Z := if n <=? x then s64 (x + 1) else n.

Lemma open_fold L : forall q ids,
  fold_left openEntry L (q, ids) =
  (setIndex q (fold_left (fun n (x : bytes * Z * Z) => bump n x.1.2) (omap ours L) (nextSeq q)) (order q)
     (fold_left (fun m (x : bytes * Z * Z) => <[x.1.1 := x.2]> m) (omap ours L) (sizes q))
     (fold_left (fun t (x : bytes * Z * Z) => s64 (t + x.2)) (omap ours L) (total q)),
   ids ++ map fst (omap ours L)).
Proof.
  induction L as [|[name data] L IH]; intros q ids; cbn.
  - rewrite app_nil_r. by destruct q.
  - destruct (ours (name, data)) as [[[id n] z]|] eqn:E; unfold ours in E; cbn in E;
      destruct (cut_suffix json_suffix name) as [i|]; cbn in E; try done; try apply IH;
      destruct (ParseInt i) as [m|]; cbn in E; try done; try apply IH.
    simplify_eq. rewrite IH. cbn. by rewrite <- app_assoc.
Qed.

Lemma fold_bump l n : Forall (fun x => 0 <= x < 2 ^ 63 - 1) l -> 0 <= n ->
  let m := fold_left bump l n in
  n <= m /\ Forall (fun x => x < m) l /\ (m = n \/ exists x, x ∈ l /\ m = x + 1).
Proof.
  revert n. induction l as [|x l IH]; intros n Hl Hn; cbn; [split_and!; auto; lia|].
  apply Forall_cons in Hl as [Hx Hl].
  assert (n <= bump n x /\ x < bump n x /\ (bump n x = n \/ bump n x = x + 1)) as (H1 & H2 & H3).
  { unfold bump. destruct (Z.leb_spec n x); [rewrite s64_small by lia|]; lia. }
  revert H1 H2 H3. generalize (bump n x). intros n' H1 H2 H3.
  destruct (IH n' Hl ltac:(lia)) as (H4 & H5 & H6). revert H4 H5 H6.
  generalize (fold_left bump l n'). intros m H4 H5 H6.
  split_and!; [lia|apply Forall_cons; split; [lia|done]|].
  destruct H6 as [E | (y & Hy & E)].
  - destruct H3 as [E'|E']; [left; lia|right]. exists x. split; [by left|lia].
  - right. exists y. split; [by right|done].
Qed.
Lemma fold_total l t : Forall (fun x => 0 <= x) l -> 0 <= t -> t + foldr Z.add 0 l < 2 ^ 63 ->
  fold_left (fun t x => s64 (t + x)) l t = t + foldr Z.add 0 l.
Proof.
  revert t. induction l as [|x l IH]; intros t Hl Ht Hb; cbn in *; [lia|].
  apply Forall_cons in Hl as [Hx Hl].
  assert (0 <= foldr Z.add 0 l) by (clear -Hl; induction Hl; cbn; lia).
  rewrite s64_small by lia. rewrite IH by (done || lia). lia.
Qed.
Lemma NoDup_omap_key {A B C} (f : A * B -> option C) l :
  NoDup l.*1 -> (forall x y z, f x = Some z -> f y = Some z -> x.1 = y.1) -> NoDup (omap f l).
Proof.
  intros Hnd Hf. induction l as [|x l IH]; cbn; [constructor|].
  cbn in Hnd. apply NoDup_cons in Hnd as [Hx Hnd]. destruct (f x) as [z|] eqn:E; [|by apply IH].
  apply NoDup_cons. split; [|by apply IH]. intros (y & Hy & Ey)%list_elem_of_omap.
  apply Hx. rewrite (Hf _ _ _ E Ey). by apply list_elem_of_fmap_2.
Qed.

Definition triple (e : item) : bytes * Z * Z := (item_id e, seq e, item_size e).

Lemma ours_items dk q es : holds dk q es -> omap ours (map_to_list dk) ≡ₚ map triple es.
Proof.
  intros [[Ho Hs Hq Hn Hk Hf Hz Ht] Hc]. apply NoDup_Permutation.
  - apply NoDup_omap_key; [apply NoDup_fst_map_to_list|].
    intros [n1 d1] [n2 d2] [[i n] z] H1 H2. unfold ours in *. cbn in *.
    destruct (cut_suffix json_suffix n1) as [i1|] eqn:E1; [|done].
    destruct (cut_suffix json_suffix n2) as [i2|] eqn:E2; [|done]. cbn in *.
    apply cut_suffix_Some in E1, E2. destruct (ParseInt i1), (ParseInt i2); cbn in *; by simplify_eq.
  - apply (NoDup_fmap_1 (fun x : bytes * Z * Z => x.1.2)). rewrite <- list_fmap_compose.
    change (NoDup (map seq es)). clear -Hs. induction Hs as [|x l H IH Hx]; constructor; [|done].
    intros Hin. eapply Forall_forall in Hx; [|exact Hin]. lia.
  - intros [[i n] z]. rewrite list_elem_of_omap. split.
    + intros ([name data] & Hin & Hy). apply elem_of_map_to_list in Hin. unfold ours in Hy. cbn in Hy.
      destruct (cut_suffix json_suffix name) as [id|] eqn:Ecut; [|done]. cbn in Hy.
      destruct (ParseInt id) as [m|] eqn:Ep; [|done]. cbn in Hy. simplify_eq.
      destruct (Hc _ _ _ _ Hin Ecut Ep) as (e & He & ->). apply list_elem_of_fmap. exists e.
      split; [|done]. apply cut_suffix_Some in Ecut. change (name = file (item_id e)) in Ecut. subst name.
      eapply Forall_forall in Hf; [|exact He]. cbn in Hf. rewrite Hin in Hf. simplify_eq.
      eapply Forall_forall in Hq; [|exact He]. cbn in Hq. unfold item_id in Ep.
      rewrite ParseInt_Sprintf020 in Ep by lia. simplify_eq. done.
    + intros (e & -> & He)%list_elem_of_fmap. exists (file (item_id e), item_data e). split.
      * apply elem_of_map_to_list. by eapply Forall_forall in Hf; [|exact He].
      * unfold ours, file. cbn. rewrite cut_suffix_app. cbn.
        eapply Forall_forall in Hq; [|exact He]. cbn in Hq.
        assert (ParseInt (item_id e) = Some (seq e)) as -> by (apply ParseInt_Sprintf020; lia). done.
Qed.

Lemma bytes_used_sum es : bytes_used es = foldr Z.add 0 (map item_size es).
Proof. induction es as [|e es IH]; cbn; [done|]. by rewrite IH. Qed.


Lemma sum_perm l l' : l ≡ₚ l' -> foldr Z.add 0 l = foldr Z.add 0 l'.
Proof. induction 1; cbn; lia. Qed.

(** Sorting by sequence number restores the queue order. *)
Lemma sort_items (ids : list (bytes * Z)) es :
  ids ≡ₚ map (fun e => (item_id e, seq e)) es -> StronglySorted Z.lt (map seq es) ->
  map fst (merge_sort bySeq ids) = map item_id es.
Proof.
  intros Hp Hs. rewrite (StronglySorted_unique_strong bySeq (merge_sort bySeq ids)
    (map (fun e => (item_id e, seq e)) es)); [by rewrite map_map|..].
  - intros x y Hx Hy H1 H2. rewrite merge_sort_Permutation, Hp in Hx.
    apply list_elem_of_fmap in Hx as (e & -> & He), Hy as (e' & -> & He').
    unfold bySeq in *. cbn in *. unfold item_id. f_equal; [f_equal|]; lia.
  - apply StronglySorted_merge_sort.
    + intros x y z. unfold bySeq. lia.
    + intros x y. unfold bySeq. lia.
  - clear -Hs. induction es as [|e es IH]; cbn in *; constructor.
    + apply IH. by apply StronglySorted_inv in Hs as [].
    + apply StronglySorted_inv in Hs as [_ Hs]. apply Forall_forall.
      intros x (e' & -> & He')%list_elem_of_fmap. unfold bySeq. cbn.
      eapply Forall_forall in Hs; [|apply (list_elem_of_fmap_2 seq); exact He']. lia.
  - by rewrite merge_sort_Permutation.
Qed.

Lemma fold_insert_sizes (os : list (bytes * Z * Z)) (es : list item) :
  os ≡ₚ map triple es -> NoDup (map item_id es) ->
  fold_left (fun (m : gmap bytes Z) x => <[x.1.1 := x.2]> m) os ∅ =
  list_to_map (map (fun e => (item_id e, item_size e)) es).
Proof.
  intros Hp Hnd.
  transitivity (list_to_map (M := gmap bytes Z) (reverse (map (fun x : bytes * Z * Z => (x.1.1, x.2)) os))).
  - clear Hp Hnd. induction os as [|x os IH] using rev_ind; [done|].
    rewrite fold_left_app, map_app, reverse_app. cbn. by rewrite IH.
  - apply list_to_map_proper.
    + rewrite fmap_reverse, reverse_Permutation. rewrite Hp.
      rewrite <- !list_fmap_compose. done.
    + rewrite reverse_Permutation, Hp, map_map. done.
Qed.

Lemma ids_NoDup q es : StronglySorted Z.lt (map seq es) ->
  Forall (fun e => 0 <= seq e < nextSeq q) es -> nextSeq q < 2 ^ 63 -> NoDup (map item_id es).
Proof.
  intros Hs Hq Hn. induction es as [|e es IH]; cbn; constructor.
  - intros (e' & E & He')%list_elem_of_fmap. by eapply (sorted_ids q e es).
  - cbn in Hs. apply IH; [by apply StronglySorted_inv in Hs as []|by apply Forall_cons in Hq as []].
Qed.

(** [Open] rebuilds the index of the items in the directory, in order. *)
Lemma Open_spec dk q es maxSize maxAge : holds dk q es ->
  let q' := Open dk maxSize maxAge in
  holds dk q' es /\ maxSizeBytes q' = maxSize /\ storeforward.maxAge q' = maxAge.
Proof.
  intros Hh. pose proof (ours_items _ _ _ Hh) as Hp.
  destruct Hh as [[Ho Hs Hq Hn Hk Hf Hz [Ht Hb]] Hc]. unfold Open. rewrite open_fold. cbn.
  set (os := omap ours (map_to_list dk)) in *.
  assert (map (fun x : bytes * Z * Z => x.1.2) os ≡ₚ map seq es) as Hp1.
  { rewrite Hp. by rewrite map_map. }
  assert (map snd os ≡ₚ map item_size es) as Hp2.
  { rewrite Hp. by rewrite map_map. }
  rewrite (fold_left_map bump (fun x : bytes * Z * Z => x.1.2)).
  rewrite (fold_left_map (fun t z => s64 (t + z)) (@snd (bytes * Z) Z)).
  assert (Forall (fun x => 0 <= x < 2 ^ 63 - 1) (map (fun x : bytes * Z * Z => x.1.2) os)) as Hseq.
  { rewrite Hp1. apply Forall_fmap. eapply Forall_impl; [exact Hq|]. cbn. lia. }
  destruct (fold_bump _ 0 Hseq ltac:(lia)) as (Hb1 & Hb2 & Hb3). rewrite Hp1 in Hb2.
  assert (foldr Z.add 0 (map snd os) = bytes_used es) as Hsum.
  { rewrite bytes_used_sum. by apply sum_perm. }
  split; [|done]. split; [split|done]; cbn; try done.
  - apply sort_items; [|done]. rewrite Hp, map_map. done.
  - apply Forall_fmap in Hb2. eapply Forall_impl; [apply Forall_and; split; [exact Hq|exact Hb2]|].
    cbn. lia.
  - split; [lia|]. destruct Hb3 as [-> | (x & Hx & ->)]; [lia|].
    eapply Forall_forall in Hseq; [|exact Hx]. cbn in Hseq. lia.
  - apply fold_insert_sizes; [done|]. apply (ids_NoDup q); done || lia.
  - rewrite fold_total; [lia| |lia|lia].
    rewrite Hp2. apply Forall_fmap, Forall_forall. intros. apply item_size_nonneg.
Qed.

(** ** Peek and Remove *)

Lemma Peek_spec env dk q es : files_ok env -> holds dk q es ->
  Peek env dk q = (dk, q, match es with
                          | [] => None
                          | e :: _ => Some (MkEntry (item_id e) (body e) (time e))
                          end).
Proof.
  intros He Hh. unfold Peek. rewrite (holds_order _ _ _ Hh). destruct es as [|e es]; [done|]. cbn.
  rewrite (read_head env dk q e es) by done. cbn [ef_Payload].
  assert (bytes_ok (body e)) as Hb by (destruct Hh as [[_ _ _ _ Hk _ _ _] _]; by apply Forall_cons in Hk as [[]]).
  by rewrite DecodeString_EncodeToString.
Qed.

(** ** What the bounds drop *)

Lemma expire_suffix a now es : exists pre, es = pre ++ expire a now es.
Proof.
  induction es as [|e es [pre IH]]; cbn; [by exists []|].
  destruct (timeSub now (time e) <=? a); [by exists []|]. exists (e :: pre). cbn. by f_equal.
Qed.
Lemma shrink_suffix m es : exists pre, es = pre ++ shrink m es.
Proof.
  induction es as [|e es [pre IH]]; cbn [shrink]; [by exists []|].
  destruct (m <? bytes_used (e :: es)); [|by exists []]. exists (e :: pre). cbn. by f_equal.
Qed.
Lemma spec_enqueue_suffix m a es e : exists pre, es ++ [e] = pre ++ spec_enqueue m a es e.
Proof.
  unfold spec_enqueue. destruct (expire_suffix a (time e) (es ++ [e])) as [p1 E1].
  set (l := if a <=? 0 then es ++ [e] else expire a (time e) (es ++ [e])).
  assert (exists p, es ++ [e] = p ++ l) as [p Hp].
  { unfold l. destruct (a <=? 0); [by exists []|by exists p1]. }
  destruct (m <=? 0); [by exists p|]. destruct (shrink_suffix m l) as [p2 E2].
  exists (p ++ p2). rewrite <- app_assoc, <- E2. done.
Qed.
Lemma shrink_fits m es : 0 <= m -> bytes_used (shrink m es) <= m.
Proof.
  intros Hm. induction es as [|e es IH]; cbn [shrink]; [cbn; lia|].
  destruct (Z.ltb_spec m (bytes_used (e :: es))); [done|lia].
Qed.

Lemma goodEnv_ok : files_ok goodEnv.
Proof. done. Qed.
Lemma Open_empty m a : holds ∅ (Open ∅ m a) [].
Proof.
  apply (Open_spec ∅ (MkQueue m a 0 [] ∅ 0)).
  split; [split; try done; cbn; constructor|]. intros name data id n H. by rewrite lookup_empty in H.
Qed.

(** [Enqueue] implements the bounded FIFO: when it succeeds, the queue holds the
    old entries and the new one less a prefix, the prefix the age and size bounds
    drop, and reports how many; the index stays within the size bound.  When it
    fails, the queue holds what it held.  It never panics. *)
Theorem Enqueue_refines env dk q es t p :
  files_ok env -> holds dk q es -> in_s 64 t -> bytes_ok p -> nextSeq q + 1 < 2 ^ 63 ->
  let e := MkItem (nextSeq q) t p in
  bytes_used (es ++ [e]) < 2 ^ 63 ->
  let '(dk', q', r) := Enqueue env dk q p t in
  match r with
  | Ok n => exists pre, es ++ [e] = pre ++ spec_enqueue (maxSizeBytes q) (maxAge q) es e /\
              n = zlen pre /\ holds dk' q' (spec_enqueue (maxSizeBytes q) (maxAge q) es e) /\
              (0 < maxSizeBytes q -> SizeBytes q' <= maxSizeBytes q)
  | Err _ => holds dk' q' es
  | Panic => False
  end.
Proof.
  intros He Hh Hin Hp Hnx e Hroom. destruct (Enqueue env dk q p t) as [[dk' q'] r] eqn:E.
  destruct (Enqueue_spec _ _ _ _ _ _ _ _ _ He Hh Hin Hp Hnx Hroom E) as (_ & _ & _ & Hr).
  destruct r as [n| |]; [|done..]. destruct Hr as [Hh' Hn]. fold e in Hh', Hn.
  destruct (spec_enqueue_suffix (maxSizeBytes q) (maxAge q) es e) as [pre Hpre].
  exists pre. split_and!; [done| |done|].
  - rewrite Hn, Hpre, zlen_app. lia.
  - intros Hm. unfold SizeBytes. destruct Hh' as [[_ _ _ _ _ _ _ [-> _]] _].
    unfold spec_enqueue. destruct (Z.leb_spec (maxSizeBytes q) 0); [lia|]. apply shrink_fits. lia.
Qed.

(** [C5] Restarting loses nothing: [Open] on the directory of a queue rebuilds the
    same entries in the same order with the same sizes and total, and a next
    sequence number above all of them. *)
Theorem Open_restores dk q es maxSize maxAge :
  holds dk q es ->
  let q' := Open dk maxSize maxAge in
  holds dk q' es /\ order q' = order q /\ sizes q' = sizes q /\ total q' = total q /\
  (forall e, e ∈ es -> seq e < nextSeq q').
Proof.
  intros Hh. destruct (Open_spec dk q es maxSize maxAge Hh) as (Hh' & _ & _). cbv zeta.
  pose proof Hh as [[Ho _ _ _ _ _ Hz [Ht _]] _]. pose proof Hh' as [[Ho' _ Hq' _ _ _ Hz' [Ht' _]] _].
  split_and!; [done|congruence..|].
  intros e He. eapply Forall_forall in Hq'; [|exact He]. cbn in Hq'. lia.
Qed.

End codec.

(** ** A decoder of the files [Marshal] writes, for the witnesses *)

Fixpoint strip_prefix (p s : bytes) : option bytes :=
  match p, s with
  | [], _ => Some s
  | x :: p', y :: s' => if x =? y then strip_prefix p' s' else None
  | _, [] => None
  end.
Fixpoint span_until (c : Z) (s : bytes) : bytes * bytes :=
  match s with
  | [] => ([], [])
  | x :: s' => if x =? c then ([], s) else let '(a, b) := span_until c s' in (x :: a, b)
  end.
Definition parseEntry (s : bytes) : option entryFile :=
  s ← strip_prefix entry_head s;
  let '(ds, s) := span_until 44 s in
  t ← ParseInt ds;
  s ← strip_prefix entry_mid s;
  let '(p, s) := span_until 34 s in
  Some (MkEntryFile t p).

Lemma strip_prefix_app p s : strip_prefix p (p ++ s) = Some s.
Proof. induction p as [|x p IH]; cbn; [done|]. by rewrite Z.eqb_refl. Qed.
Lemma span_until_app c a b : Forall (fun x => x <> c) a -> span_until c (a ++ c :: b) = (a, c :: b).
Proof.
  induction 1 as [|x a Hx Ha IH]; cbn; [by rewrite Z.eqb_refl|].
  destruct (Z.eqb_spec x c); [done|]. by rewrite IH.
Qed.
Lemma FormatInt_chars t : Forall (fun x => x <> 44) (FormatInt t).
Proof.
  unfold FormatInt. destruct (t <? 0); [constructor; [done|]|];
    (eapply Forall_impl; [apply strip0_incl, digits_range|]); cbn; lia.
Qed.
Lemma b64char_range n : 0 <= n < 64 -> 43 <= b64char n.
Proof.
  intros. unfold b64char. repeat (case_match; rewrite ?Z.ltb_lt, ?Z.ltb_ge in *; try lia).
Qed.
Lemma encode_chars p : bytes_ok p -> Forall (fun x => x <> 34) (EncodeToString p).
Proof.
  revert p. fix IH 1. intros b Hb.
  assert (forall n, 0 <= n < 64 -> b64char n <> 34) as Hc
    by (intros n Hn; pose proof (b64char_range n Hn); lia).
  destruct b as [|x [|y [|z b]]]; cbn [EncodeToString]; [done|..];
    repeat match goal with H : bytes_ok (_ :: _) |- _ => apply Forall_cons in H as [? H] end;
    unfold in_u in *;
    repeat (apply Forall_cons; split); try (by constructor); try lia;
    try (apply Hc; Z.div_mod_to_equations; lia).
  by apply IH.
Qed.
Lemma parseEntry_Marshal t p : in_s 64 t -> bytes_ok p ->
  parseEntry (Marshal (MkEntryFile t (EncodeToString p))) = Some (MkEntryFile t (EncodeToString p)).
Proof.
  intros Ht Hp. unfold parseEntry, Marshal. cbn [EnqueuedAtUnixNano ef_Payload].
  rewrite strip_prefix_app. cbn [mbind option_bind].
  change (entry_mid ++ EncodeToString p ++ entry_tail)
    with (44 :: (tail entry_mid ++ EncodeToString p ++ entry_tail)).
  rewrite span_until_app by apply FormatInt_chars. rewrite ParseInt_FormatInt by done.
  cbn [mbind option_bind].
  change (44 :: (tail entry_mid ++ EncodeToString p ++ entry_tail))
    with (entry_mid ++ EncodeToString p ++ entry_tail).
  rewrite strip_prefix_app. cbn [mbind option_bind].
  change entry_tail with (34 :: bytes_of_string "}").
  rewrite span_until_app by by apply encode_chars. done.
Qed.

(** ** Witnesses *)

Definition hello : bytes := bytes_of_string "hello".
Lemma Enqueue_refines_witness :
  exists dk q n, Enqueue parseEntry goodEnv ∅ (Open ∅ 1000 0) hello 100 = (dk, q, Ok n) /\
    n = 0 /\ SizeBytes q <= 1000.
Proof.
  assert (files_ok goodEnv) as He by done.
  assert (holds ∅ (Open ∅ 1000 0) []) as Hh by apply Open_empty.
  assert (bytes_ok hello) as Hb by apply bytes_of_string_ok.
  pose proof (Enqueue_refines parseEntry parseEntry_Marshal goodEnv ∅ (Open ∅ 1000 0) [] 100 hello
    He Hh ltac:(unfold in_s; lia) Hb ltac:(vm_compute; reflexivity) ltac:(vm_compute; reflexivity)) as H.
  assert (snd (Enqueue parseEntry goodEnv ∅ (Open ∅ 1000 0) hello 100) = Ok 0) as Hr
    by (vm_compute; reflexivity).
  destruct (Enqueue parseEntry goodEnv ∅ (Open ∅ 1000 0) hello 100) as [[dk q] r].
  cbn [snd] in Hr. rewrite Hr in H. destruct H as (pre & _ & _ & _ & Hs).
  exists dk, q, 0. rewrite Hr. split; [reflexivity|]. split; [reflexivity|].
  apply Hs. vm_compute. reflexivity.
Defined.

Lemma Open_restores_witness :
  exists es dk q, holds dk q es /\ zlen es = 1 /\ order (Open dk 5 5) = order q.
Proof.
  destruct (Enqueue parseEntry goodEnv ∅ (Open ∅ 1000 0) hello 100) as [[dk q] r] eqn:E.
  destruct (Enqueue_spec parseEntry parseEntry_Marshal goodEnv ∅ (Open ∅ 1000 0) [] 100 hello dk q r goodEnv_ok (Open_empty 1000 0)
    ltac:(unfold in_s; lia) (bytes_of_string_ok _) ltac:(vm_compute; reflexivity) ltac:(vm_compute; reflexivity) E) as (_ & _ & _ & Hr).
  assert (r = Ok 0) as -> by (apply (f_equal snd) in E; cbn [snd] in E; rewrite <- E; vm_compute; reflexivity).
  destruct Hr as [Hh _]. eexists _, dk, q. split; [exact Hh|]. split; [vm_compute; reflexivity|].
  apply (Open_restores dk q _ 5 5 Hh).
Defined.
End storeforward.
