(* ===== verification/Drain.v ===== *)
(** * Draining the store-and-forward queue ([engine/storeforward/drain.go])

    Runs of the queue of StoreForward: producers, the loop of [Drain], and restarts of the process, in any
    order and with any file operation failing.  An iteration of [Drain] is three steps, [Peek], the [deliver]
    call and [Remove]; a restart can come between any two of them. *)

From stdpp Require Import sorting.
From S2P Require Import Prelude Bytes GoStd StoreForward.
Import gostd storeforward.
Local Open Scope Z_scope.

Module drain.
#[local] Arguments item_size : simpl never.
#[local] Arguments item_id : simpl never.
#[local] Arguments item_data : simpl never.
#[local] Arguments file : simpl never.
#[local] Arguments Enqueue : simpl never.
#[local] Arguments Marshal : simpl never.
#[local] Arguments Peek : simpl never.
#[local] Arguments json_suffix : simpl never.
#[local] Arguments tmp_suffix : simpl never.
#[local] Arguments removeLocked : simpl never.
#[local] Arguments Z.pow : simpl never.

(** [inflight] is the entry of the current iteration, and whether [deliver] has returned without an error so
    that [Remove] comes next.  The history: what was accepted, what was delivered by the processes before and
    by the current one, how many entries the producers were told had been dropped, and how many [Peek] dropped
    because their file could not be read. *)
Record Sys := MkSys {
  disk : Disk; queue : Queue; inflight : option (Entry * bool);
  accepted : list (Z * bytes); past : list (list (Z * bytes)); current : list (Z * bytes); droppedN : Z; unreadN : Z
}.
Definition delivered (s : Sys) : list (Z * bytes) := concat (past s) ++ current s.

Inductive sysop :=
| OpEnqueue (env : Env) (payload : bytes) (enqueuedAt : Z)
| OpPeek (env : Env)           (* the head of an iteration *)
| OpDeliver (ok : bool)        (* deliver returns *)
| OpRemove (env : Env)         (* after a delivery without an error *)
| OpRestart.                   (* the process ends, and the next one calls Open *)

Section codec.
Context (Unmarshal : bytes -> option entryFile).

Definition sys_step (s : Sys) (op : sysop) : Sys :=
  match op with
  | OpEnqueue env p t =>
      let '(dk, q, r) := Enqueue Unmarshal env (disk s) (queue s) p t in
      MkSys dk q (inflight s)
        (match r with Ok _ => accepted s ++ [(t, p)] | _ => accepted s end) (past s) (current s)
        (match r with Ok n => droppedN s + n | _ => droppedN s end) (unreadN s)
  | OpPeek env =>
      match inflight s with
      | Some _ => s
      | None =>
          let '(dk, q, e) := Peek Unmarshal env (disk s) (queue s) in
          MkSys dk q ((fun e => (e, false)) <$> e) (accepted s) (past s) (current s) (droppedN s)
            (match e, order (queue s) with None, _ :: _ => unreadN s + 1 | _, _ => unreadN s end)
      end
  | OpDeliver ok =>
      match inflight s with
      | Some (e, false) =>
          if ok then MkSys (disk s) (queue s) (Some (e, true)) (accepted s) (past s) (current s ++ [(EnqueuedAt e, Payload e)]) (droppedN s) (unreadN s)
          else MkSys (disk s) (queue s) None (accepted s) (past s) (current s) (droppedN s) (unreadN s)
      | _ => s
      end
  | OpRemove env =>
      match inflight s with
      | Some (e, true) =>
          let '(dk, q) := Remove env (disk s) (queue s) (ID e) in
          MkSys dk q None (accepted s) (past s) (current s) (droppedN s) (unreadN s)
      | _ => s
      end
  | OpRestart =>
      MkSys (disk s) (Open (disk s) (maxSizeBytes (queue s)) (maxAge (queue s))) None
        (accepted s) (past s ++ [current s]) [] (droppedN s) (unreadN s)
  end.
Definition sys_init (maxSize maxAge : Z) : Sys := MkSys ∅ (Open ∅ maxSize maxAge) None [] [] [] 0 0.
Definition sys_run (maxSize maxAge : Z) (ops : list sysop) : Sys := fold_left sys_step ops (sys_init maxSize maxAge).

(** ** Queue and directory *)

(** A failed [os.Remove] leaves a file the index has forgotten: the entries [es] of the index are among those,
    [ds], of the directory. *)
Definition index (q : Queue) (ds : list item) : Queue :=
  MkQueue (maxSizeBytes q) (maxAge q) (nextSeq q) (map item_id ds) (list_to_map (map (fun e => (item_id e, item_size e)) ds)) (bytes_used ds).
Record holdsd (dk : Disk) (q : Queue) (ds es : list item) : Prop := MkHoldsd {
  hd_q : repr dk q es; hd_d : holds dk (index q ds) ds; hd_sub : es `sublist_of` ds
}.
(** The first [k] entries of the index go, and at most [k] files. *)
Definition drops (env : Env) (k : Z) (ds es ds' es' : list item) : Prop :=
  exists pre gone, es = pre ++ es' /\ k = zlen pre /\ ds ≡ₚ gone ++ ds' /\ ds' `sublist_of` ds /\ zlen gone <= k /\ (files_ok env -> ds = es -> ds' = es').
Lemma drops_refl env ds es : drops env 0 ds es ds es.
Proof. exists [], []. unfold zlen. cbn. split_and!; [done..|lia|done]. Qed.
Lemma drops_trans env k1 k2 ds es ds1 es1 ds2 es2 : drops env k1 ds es ds1 es1 -> drops env k2 ds1 es1 ds2 es2 -> drops env (k1 + k2) ds es ds2 es2.
Proof.
  intros (p1 & g1 & -> & -> & P1 & S1 & L1 & F1) (p2 & g2 & -> & -> & P2 & S2 & L2 & F2). exists (p1 ++ p2), (g1 ++ g2).
  rewrite !zlen_app. split_and!; [by rewrite <- app_assoc|done|by rewrite P1, P2, app_assoc|by etransitivity|lia|].
  intros Hf E. apply F2; [done|]. by apply F1.
Qed.

(** Entries of one directory have different names. *)
Definition without (id : bytes) (ds : list item) : list item := filter (fun e => item_id e <> id) ds.
Lemma without_absent id ds : (forall e, e ∈ ds -> item_id e <> id) -> without id ds = ds.
Proof.
  induction ds as [|e ds IH]; intros H; [done|]. unfold without. rewrite filter_cons_True by (apply H; by left).
  f_equal. apply IH. intros e' He'. apply H. by right.
Qed.
Lemma without_spec dk q ds id : repr dk q ds ->
  (exists e, e ∈ ds /\ item_id e = id /\ ds ≡ₚ e :: without id ds) \/ ((forall e, e ∈ ds -> item_id e <> id) /\ without id ds = ds).
Proof.
  intros [_ Hs Hq [_ Hn] _ _ _ _]. induction ds as [|e ds IH]; [right; split; [by intros ? ?%elem_of_nil|done]|].
  destruct (decide (item_id e = id)) as [<-|Hne].
  - left. exists e. split_and!; [by left|done|]. unfold without. rewrite filter_cons_False by (by intros []).
    fold (without (item_id e) ds). rewrite without_absent; [done|]. by apply (sorted_ids q).
  - pose proof Hs as Hs'. pose proof Hq as Hq'. cbn in Hs'. apply StronglySorted_inv in Hs' as [Hs' _]. apply Forall_cons in Hq' as [_ Hq'].
    unfold without. rewrite filter_cons_True by done. fold (without id ds).
    destruct (IH Hs' Hq') as [(e' & He' & E & P)|[Ha Hw]].
    + left. exists e'. split_and!; [by right|done|]. rewrite P at 1. apply perm_swap.
    + right. split; [|by rewrite Hw]. intros e' [-> |He']%elem_of_cons; [done|by apply Ha].
Qed.
Lemma same_id dk q ds e e' : repr dk q ds -> e ∈ ds -> e' ∈ ds -> item_id e = item_id e' -> e = e'.
Proof.
  intros [_ Hs Hq [_ Hn] _ _ _ _]. induction ds as [|x ds IH]; [by intros ?%elem_of_nil|].
  pose proof (sorted_ids q x ds Hs Hq Hn) as Hx. cbn in Hs. apply StronglySorted_inv in Hs as [Hs _]. apply Forall_cons in Hq as [_ Hq].
  intros [-> |He]%elem_of_cons [-> |He']%elem_of_cons E; [done| | |by apply IH].
  - by destruct (Hx e' He').
  - by destruct (Hx e He).
Qed.

(** A removal: the index and, when [os.Remove] works, the file. *)
Definition on_disk (env : Env) (id : bytes) (ds : list item) : list item := if remove_ok env id then without id ds else ds.
Lemma on_disk_sub env id ds : on_disk env id ds `sublist_of` ds.
Proof. unfold on_disk. destruct (remove_ok env id); [|done]. apply sublist_filter. Qed.
Lemma Forall_sublist {A} (P : A -> Prop) l k : l `sublist_of` k -> Forall P k -> Forall P l.
Proof. intros Hs H. rewrite Forall_forall in *. intros x Hx. apply H. by eapply elem_of_sublist. Qed.
Lemma sublist_bytes ds ds' : ds' `sublist_of` ds -> bytes_used ds' <= bytes_used ds.
Proof. induction 1 as [|e l k _ IH|e l k _ IH]; cbn; [done|lia|]. pose proof (item_size_nonneg e). lia. Qed.
Lemma sublist_sorted (l k : list item) : l `sublist_of` k -> StronglySorted Z.lt (map seq k) -> StronglySorted Z.lt (map seq l).
Proof.
  induction 1 as [|e l k Hs IH|e l k Hs IH]; [done| |]; cbn; intros [H1 H2]%StronglySorted_inv; [|by apply IH].
  constructor; [by apply IH|]. eapply Forall_sublist; [exact (fmap_sublist seq l k Hs)|done].
Qed.
Lemma removed_index env dk q ds es id dk' q' es' : holdsd dk q ds es -> removeLocked env dk q id = (dk', q') -> repr dk' q' es' -> nextSeq q' = nextSeq q ->
  es' `sublist_of` es -> (forall e, e ∈ es' -> item_id e <> id) -> holdsd dk' q' (on_disk env id ds) es'.
Proof.
  intros [Hq [Hd Hc] Hsub] Hr Hq' Hn Hs' Hid. pose proof (on_disk_sub env id ds) as Hon. split; [done| |].
  - assert (dk' = if remove_ok env id then delete (file id) dk else dk) as Hdk by (unfold removeLocked in Hr; by simplify_eq). split.
    + destruct Hd as [_ Hs Hsq Hnx Hk Hf _ [_ Hb]]. cbn in Hsq, Hnx. pose proof (sublist_bytes _ _ Hon).
      split; cbn; try done.
      * by eapply sublist_sorted.
      * rewrite Hn. by eapply Forall_sublist.
      * by rewrite Hn.
      * by eapply Forall_sublist.
      * rewrite Hdk. unfold on_disk. destruct (remove_ok env id); [|done]. apply Forall_forall. intros e [Hne He]%list_elem_of_filter.
        rewrite lookup_delete_ne by (intros E%file_inj; congruence). rewrite Forall_forall in Hf. by apply Hf.
      * split; [done|lia].
    + unfold on_disk. destruct (remove_ok env id) eqn:E; [by eapply clean_remove|by rewrite Hdk].
  - unfold on_disk. destruct (remove_ok env id); [|by etransitivity].
    rewrite <- (without_absent id es' Hid). unfold without.
    assert (forall l k : list item, l `sublist_of` k -> filter (fun e => item_id e <> id) l `sublist_of` filter (fun e => item_id e <> id) k) as Hf.
    { induction 1 as [|e l k _ IH|e l k _ IH]; [done| |]; rewrite ?filter_cons; destruct (decide _); by try constructor. }
    apply Hf. by etransitivity.
Qed.
Lemma remove_first env dk q ds e es dk' q' : holdsd dk q ds (e :: es) -> removeLocked env dk q (item_id e) = (dk', q') ->
  exists ds', holdsd dk' q' ds' es /\ same_cfg q q' /\ drops env 1 ds (e :: es) ds' es.
Proof.
  intros Hh Hr. pose proof Hh as [Hq [Hd _] Hsub]. destruct (remove_head _ _ _ _ _ _ _ Hq Hr) as [Hq' Hcfg].
  assert (forall e', e' ∈ es -> item_id e' <> item_id e) as Hne by (destruct Hq as [_ Hs Hsq [_ Hn] _ _ _ _]; by apply (sorted_ids q)).
  exists (on_disk env (item_id e) ds). split_and!.
  - eapply removed_index; [done|done|done|apply Hcfg|by constructor|done].
  - done.
  - exists [e]. destruct (without_spec _ _ _ (item_id e) Hd) as [(e' & He' & E & P)|[Ha _]].
    + assert (e' = e) as -> by (eapply same_id; [exact Hd|done| |done]; eapply elem_of_sublist; [by left|done]).
      unfold on_disk. destruct (remove_ok env (item_id e)) eqn:Er.
      * exists [e]. unfold zlen. cbn. split_and!; [done|done|done|apply sublist_filter|lia|]. intros _ ->.
        unfold without. rewrite filter_cons_False by (by intros []). by apply without_absent.
      * exists []. unfold zlen. cbn. split_and!; [done|done|done|done|lia|]. intros Hf. destruct (Hf (item_id e)). congruence.
    + exfalso. apply (Ha e); [|done]. eapply elem_of_sublist; [by left|done].
Qed.

(** ** The operations with any failures *)

Definition shrunk (env : Env) (q : Queue) (d : Z) (ds es : list item) (r : Disk * Queue * Z) : Prop :=
  let '(dk', q', d') := r in
  exists k ds' es', holdsd dk' q' ds' es' /\ same_cfg q q' /\ d' = d + k /\ drops env k ds es ds' es'.
Lemma shrunk_done env dk q d ds es : holdsd dk q ds es -> shrunk env q d ds es (dk, q, d).
Proof. intros H. exists 0, ds, es. split_and!; [done|done|lia|apply drops_refl]. Qed.
Lemma shrunk_trans env q q1 d d1 ds es k ds1 es1 r : same_cfg q q1 -> d1 = d + k -> drops env k ds es ds1 es1 -> shrunk env q1 d1 ds1 es1 r -> shrunk env q d ds es r.
Proof.
  destruct r as [[dk' q'] d']. intros (C1 & C2 & C3) -> Hd (k' & ds' & es' & H & (C1' & C2' & C3') & -> & Hd'). exists (k + k'), ds', es'.
  split_and!; [done|unfold same_cfg; split_and!; congruence|lia|by eapply drops_trans].
Qed.
Lemma holdsd_head dk q ds es id rest : holdsd dk q ds es -> order q = id :: rest -> exists e es', es = e :: es' /\ id = item_id e.
Proof. intros [[Ho _ _ _ _ _ _ _] _ _] E. rewrite Ho in E. destruct es as [|e es]; [done|]. exists e, es. split; [done|]. cbn in E. congruence. Qed.
Lemma shrunk_head env dk q d ds e es r : holdsd dk q ds (e :: es) ->
  (forall dk1 q1 ds1, removeLocked env dk q (item_id e) = (dk1, q1) -> holdsd dk1 q1 ds1 es -> shrunk env q1 (d + 1) ds1 es r) -> shrunk env q d ds (e :: es) r.
Proof.
  intros Hh Hk. destruct (removeLocked env dk q (item_id e)) as [dk1 q1] eqn:Er. destruct (remove_first _ _ _ _ _ _ _ _ Hh Er) as (ds1 & H1 & Hc & Hd).
  eapply shrunk_trans; [exact Hc| |exact Hd|by eapply Hk]. done.
Qed.
Lemma dropExpired_drops env now fuel : forall dk q d ds es, holdsd dk q ds es -> shrunk env q d ds es (dropExpired_loop Unmarshal fuel env now dk q d).
Proof.
  induction fuel as [|fuel IH]; intros dk q d ds es Hh; cbn; [by apply shrunk_done|].
  destruct (order q) as [|id rest] eqn:Eo; [by apply shrunk_done|]. destruct (holdsd_head _ _ _ _ _ _ Hh Eo) as (e & es' & -> & ->).
  assert (shrunk env q d ds (e :: es') (let '(dk, q) := removeLocked env dk q (item_id e) in dropExpired_loop Unmarshal fuel env now dk q (d + 1))) as Hrm.
  { eapply shrunk_head; [done|]. intros dk1 q1 ds1 -> H1. by apply IH. }
  destruct (readLocked _ _ _ _) as [ef|]; [|exact Hrm]. destruct (_ <=? _); [by apply shrunk_done|exact Hrm].
Qed.
Lemma dropOverflow_drops env fuel : forall dk q d ds es, holdsd dk q ds es -> shrunk env q d ds es (dropOverflow_loop fuel env dk q d).
Proof.
  induction fuel as [|fuel IH]; intros dk q d ds es Hh; cbn; [by apply shrunk_done|].
  destruct (order q) as [|id rest] eqn:Eo; [by apply shrunk_done|]. destruct (holdsd_head _ _ _ _ _ _ Hh Eo) as (e & es' & -> & ->).
  destruct (_ <? _); [|by apply shrunk_done]. eapply shrunk_head; [done|]. intros dk1 q1 ds1 -> H1. by apply IH.
Qed.

Lemma holdsd_bump dk q ds es : holdsd dk q ds es -> nextSeq q + 1 < 2 ^ 63 ->
  holdsd dk (setIndex q (s64 (nextSeq q + 1)) (order q) (sizes q) (total q)) ds es.
Proof. intros [Hq [Hd Hc] Hs] Hn. split; [by apply repr_bump| |done]. split; [|done]. exact (repr_bump _ _ _ Hd Hn). Qed.
Lemma holdsd_tmp dk q ds es id data : holdsd dk q ds es -> holdsd (<[file id ++ tmp_suffix := data]> dk) q ds es.
Proof. intros [Hq [Hd Hc] Hs]. split; [by apply repr_tmp| |done]. split; [by apply repr_tmp|by apply clean_tmp]. Qed.
Lemma holdsd_append dk q ds es t p : holdsd dk q ds es -> in_s 64 t -> bytes_ok p -> nextSeq q + 1 < 2 ^ 63 ->
  let e := MkItem (nextSeq q) t p in
  bytes_used (ds ++ [e]) < 2 ^ 63 ->
  let data := item_data e in let id := item_id e in
  holdsd (<[file id := data]> (delete (file id ++ tmp_suffix) (<[file id ++ tmp_suffix := data]> dk)))
    (setIndex q (s64 (nextSeq q + 1)) (order q ++ [id]) (<[id := zlen data]> (sizes q)) (s64 (total q + zlen data))) (ds ++ [e]) (es ++ [e]).
Proof.
  intros [Hq [Hd Hc] Hs] Hin Hp Hn e Hroom data id. split.
  - apply repr_append; [done..|]. pose proof (sublist_bytes _ _ Hs). rewrite bytes_used_app in *. fold e. lia.
  - split; [|by apply clean_append]. pose proof (repr_append _ _ _ t p Hd Hin Hp Hn Hroom) as [A1 A2 A3 A4 A5 A6 A7 [A8 A9]].
    split; try done.
  - by apply sublist_app.
Qed.
Lemma Enqueue_any env dk q ds es t p dk' q' r : holdsd dk q ds es -> in_s 64 t -> bytes_ok p -> nextSeq q + 1 < 2 ^ 63 ->
  let x := MkItem (nextSeq q) t p in
  bytes_used (ds ++ [x]) < 2 ^ 63 -> Enqueue Unmarshal env dk q p t = (dk', q', r) ->
  nextSeq q' = nextSeq q + 1 /\
  match r with
  | Ok k => exists ds' es', holdsd dk' q' ds' es' /\ drops env k (ds ++ [x]) (es ++ [x]) ds' es'
  | Err _ => holdsd dk' q' ds es
  | Panic => False
  end.
Proof.
  intros Hh Hin Hp Hn x Hroom H. unfold Enqueue in H. pose proof (holdsd_append dk q ds es t p Hh Hin Hp Hn Hroom) as Happ. cbv zeta in Happ. fold x in Happ.
  rewrite (swrap_id 64 t) in H by (done || lia). change (Marshal _) with (item_data x) in H. change (Sprintf020 (nextSeq q)) with (item_id x) in H.
  assert (s64 (nextSeq q + 1) = nextSeq q + 1) as Hs by (apply s64_small; destruct Hh as [[] _ _]; lia).
  destruct (write_ok env); cbn [negb] in H; [destruct (rename_ok env); cbn [negb] in H|].
  - cbn [nextSeq order sizes total setIndex maxSizeBytes maxAge] in H.
    match type of H with context [dropExpiredLocked _ _ _ ?d ?q] => set (dk1 := d) in *; set (q1 := q) in * end.
    assert (shrunk env q1 0 (ds ++ [x]) (es ++ [x]) (dropExpiredLocked Unmarshal env t dk1 q1)) as H1.
    { unfold dropExpiredLocked. destruct (maxAge q1 <=? 0); [by apply shrunk_done|by apply dropExpired_drops]. }
    destruct (dropExpiredLocked Unmarshal env t dk1 q1) as [[dk2 q2] d1]. destruct H1 as (k1 & ds2 & es2 & H2 & (Hn2 & _) & -> & D1).
    assert (shrunk env q2 0 ds2 es2 (dropOverflowLocked env dk2 q2)) as H3.
    { unfold dropOverflowLocked. destruct (maxSizeBytes q2 <=? 0); [by apply shrunk_done|by apply dropOverflow_drops]. }
    destruct (dropOverflowLocked env dk2 q2) as [[dk3 q3] d2]. destruct H3 as (k2 & ds3 & es3 & H3 & (Hn3 & _) & -> & D2).
    injection H as <- <- <-. split; [by rewrite Hn3, Hn2|]. exists ds3, es3. split; [done|]. by eapply drops_trans.
  - injection H as <- <- <-. split; [done|]. by apply holdsd_tmp, holdsd_bump.
  - injection H as <- <- <-. split; [done|]. by apply holdsd_bump.
Qed.

Context (Unmarshal_Marshal : forall t p, in_s 64 t -> bytes_ok p ->
  Unmarshal (Marshal (MkEntryFile t (EncodeToString p))) = Some (MkEntryFile t (EncodeToString p))).
Definition entry_of (e : item) : Entry := MkEntry (item_id e) (body e) (time e).
Lemma Peek_any env dk q ds es dk' q' r : holdsd dk q ds es -> Peek Unmarshal env dk q = (dk', q', r) ->
  match r with
  | Some x => (dk', q') = (dk, q) /\ exists e es', es = e :: es' /\ x = entry_of e
  | None => ((dk', q') = (dk, q) /\ es = []) \/
      exists e es' ds', es = e :: es' /\ holdsd dk' q' ds' es' /\ same_cfg q q' /\ drops env 1 ds es ds' es' /\ ~ files_ok env
  end.
Proof.
  intros Hh H. unfold Peek in H. destruct (order q) as [|id rest] eqn:Eo.
  - simplify_eq. left. split; [done|]. destruct Hh as [[Ho _ _ _ _ _ _ _] _ _]. rewrite Eo in Ho. by destruct es.
  - destruct (holdsd_head _ _ _ _ _ _ Hh Eo) as (e & es' & -> & ->). pose proof Hh as [[_ _ _ _ Hk Hf _ _] _ _].
    apply Forall_cons in Hk as [[Ht Hb] _]. apply Forall_cons in Hf as [Hf _]. unfold readLocked in H. destruct (read_ok env (item_id e)) eqn:Er.
    + rewrite Hf in H. cbn [mbind option_bind] in H. unfold item_data in H. rewrite Unmarshal_Marshal in H by done. cbn [ef_Payload EnqueuedAtUnixNano] in H. rewrite DecodeString_EncodeToString in H by done.
      simplify_eq. split; [done|]. by exists e, es'.
    + destruct (removeLocked env dk q (item_id e)) as [dk1 q1] eqn:E1. simplify_eq. right.
      destruct (remove_first _ _ _ _ _ _ _ _ Hh E1) as (ds' & H1 & H2 & H3). exists e, es', ds'. split_and!; [done..|].
      intros Hok. destruct (Hok (item_id e)). congruence.
Qed.
Lemma Open_any dk q ds es maxSize maxAge' : holdsd dk q ds es ->
  let q' := Open dk maxSize maxAge' in holdsd dk q' ds ds /\ maxSizeBytes q' = maxSize /\ maxAge q' = maxAge'.
Proof.
  intros [_ Hd _]. destruct (Open_spec dk _ ds maxSize maxAge' Hd) as ([Hr Hc] & E1 & E2). cbv zeta. split; [|done].
  split; [done| |done]. split; [|done]. destruct Hr as [A1 A2 A3 A4 A5 A6 A7 A8]. split; try done. cbn. split; [done|apply A8].
Qed.

(** ** Any run *)

Definition pair_of (e : item) : Z * bytes := (time e, body e).

(** What was delivered, the entry in flight and the queue are in order part of what was accepted; the entry in
    flight is at or before the head of the queue. *)
Definition flight_ok (es : list item) (dlv acc : list (Z * bytes)) (n : Z) (fl : option (item * bool)) : Prop :=
  match fl with
  | None => dlv ++ map pair_of es `sublist_of` acc
  | Some (e, done) => 0 <= seq e < n /\ exists es', StronglySorted Z.lt (seq e :: map seq es') /\ (es = e :: es' \/ es = es') /\
      dlv ++ (if done then [] else [pair_of e]) ++ map pair_of es' `sublist_of` acc
  end.
Lemma sublist_suffix {A} (d p k acc : list A) : d ++ p ++ k `sublist_of` acc -> d ++ k `sublist_of` acc.
Proof. intros H. etransitivity; [|exact H]. apply sublist_app; [done|]. by apply sublist_inserts_l. Qed.
Lemma flight_dlv es dlv acc n fl : flight_ok es dlv acc n fl -> dlv `sublist_of` acc.
Proof. destruct fl as [[e b]|]; [intros (_ & es' & _ & _ & H)|intros H]; (etransitivity; [|exact H]); by apply sublist_inserts_r. Qed.
Lemma flight_drop pre es dlv acc n n' fl : flight_ok (pre ++ es) dlv acc n fl -> n <= n' -> flight_ok es dlv acc n' fl.
Proof.
  destruct fl as [[e b]|]; cbn.
  - intros (Hr & es' & Hs & Hes & H) Hn. split; [lia|].
    assert (pre = [] /\ es = e :: es' \/ exists p, es' = p ++ es) as [[-> ->]|[p ->]].
    { destruct Hes as [E|E]; [|by right; exists pre]. destruct pre as [|x pre]; [by left|]. right. exists pre. by simplify_eq/=. }
    + exists es'. split_and!; [done|by left|done].
    + exists es. split_and!; [|by right|].
      * apply StronglySorted_inv in Hs as [Ha Hb]. rewrite map_app in Ha, Hb. apply StronglySorted_app in Ha as (_ & _ & Ha).
        apply Forall_app in Hb as [_ Hb]. by constructor.
      * rewrite map_app in H. rewrite app_assoc in *. by eapply sublist_suffix.
  - intros H _. rewrite map_app in H. by eapply sublist_suffix.
Qed.
Lemma flight_snoc es x dlv acc n fl : flight_ok es dlv acc n fl -> StronglySorted Z.lt (map seq (es ++ [x])) -> seq x = n ->
  flight_ok (es ++ [x]) dlv (acc ++ [pair_of x]) (n + 1) fl.
Proof.
  intros Hf Hs Hx. destruct fl as [[e b]|]; cbn in *.
  - destruct Hf as (Hr & es' & Hss & Hes & Hsub). split; [lia|]. exists (es' ++ [x]). split_and!.
    + rewrite map_app. cbn. apply (StronglySorted_app _ (seq e :: map seq es')). split_and!; [|done|by repeat constructor].
      intros a c Ha ->%list_elem_of_singleton. apply elem_of_cons in Ha as [-> |Ha]; [lia|].
      rewrite map_app in Hs. apply StronglySorted_app in Hs as (Hs & _). apply Hs; [|by left].
      destruct Hes as [-> | ->]; [by right|done].
    + destruct Hes as [-> | ->]; [by left|by right].
    + rewrite map_app, !app_assoc. apply sublist_app; [|done]. by rewrite <- app_assoc.
  - rewrite map_app, app_assoc. by apply sublist_app.
Qed.
Lemma flight_drops env k ds es ds' es' dlv acc n n' fl : drops env k ds es ds' es' -> flight_ok es dlv acc n fl -> n <= n' -> flight_ok es' dlv acc n' fl.
Proof. intros (pre & _ & -> & _). apply flight_drop. Qed.

(** [c]: no file operation has failed, and no restart came between a delivery and its [Remove]. *)
Record inv (c : Prop) (s : Sys) (ds es : list item) (fl : option (item * bool)) (del drp : list (Z * bytes)) : Prop := MkInv {
  i_holds : holdsd (disk s) (queue s) ds es;
  i_inflight : inflight s = (fun x => (entry_of x.1, x.2)) <$> fl;
  i_flight : flight_ok es (current s) (accepted s) (nextSeq (queue s)) fl;
  i_unique : match fl with Some (e, _) => forall e', e' ∈ ds -> item_id e' = item_id e -> e' = e | None => True end;
  i_past : Forall (fun l => l `sublist_of` accepted s) (past s);
  i_disk : map pair_of ds `sublist_of` accepted s;
  i_fate : accepted s ≡ₚ del ++ drp ++ map pair_of ds;
  i_del : del ++ match fl with Some (e, true) => [pair_of e] | _ => [] end ⊆+ delivered s;
  i_drp : zlen drp <= droppedN s + unreadN s;
  i_careful : c -> ds = es /\ flight_ok es (delivered s) (accepted s) (nextSeq (queue s)) fl
}.

(** The run stays within the machine's limits: sequence numbers and the bytes of the directory fit in an int64. *)
Definition op_fits (s : Sys) (op : sysop) : Prop :=
  match op with
  | OpEnqueue _ p t => in_s 64 t /\ bytes_ok p /\ nextSeq (queue s) + 1 < 2 ^ 63 /\
      total (Open (disk s) 0 0) + item_size (MkItem (nextSeq (queue s)) t p) < 2 ^ 63
  | _ => True
  end.
Definition op_careful (s : Sys) (op : sysop) : Prop :=
  match op with
  | OpEnqueue env _ _ | OpPeek env | OpRemove env => files_ok env
  | OpDeliver _ => True
  | OpRestart => forall e, inflight s <> Some (e, true)
  end.
Fixpoint all_steps (P : Sys -> sysop -> Prop) (s : Sys) (ops : list sysop) : Prop :=
  match ops with [] => True | op :: ops' => P s op /\ all_steps P (sys_step s op) ops' end.

Lemma inv_enqueue c s ds es fl del drp env p t : inv c s ds es fl del drp -> op_fits s (OpEnqueue env p t) ->
  exists ds' es' drp', inv (c /\ files_ok env) (sys_step s (OpEnqueue env p t)) ds' es' fl del drp'.
Proof.
  intros [Hh Hi Hf Hu Hp Hd Ha Hl Hn Hc] (Ht & Hb & Hx & Hroom). cbn [sys_step].
  destruct (Enqueue Unmarshal env (disk s) (queue s) p t) as [[dk q] r] eqn:E.
  destruct (Open_any _ _ _ _ 0 0 Hh) as ([Ho _ _] & _). set (x := MkItem (nextSeq (queue s)) t p) in *.
  assert (bytes_used (ds ++ [x]) < 2 ^ 63) as Hroom' by (rewrite bytes_used_app; cbn; destruct Ho as [_ _ _ _ _ _ _ [<- _]]; lia).
  destruct (Enqueue_any _ _ _ _ _ _ _ _ _ _ Hh Ht Hb Hx Hroom' E) as [Hq Hr]. fold x in Hr. destruct r as [k|e|]; [| |done].
  - destruct Hr as (ds' & es' & Hh' & Hdr). pose proof Hdr as (pre & gone & Epre & Ek & Pg & Sg & Lg & Fg).
    assert (StronglySorted Z.lt (map seq (es ++ [x]))) as Hs.
    { eapply sublist_sorted; [apply sublist_app; [exact (hd_sub _ _ _ _ Hh)|done]|].
      pose proof (holdsd_append _ _ _ _ _ _ Hh Ht Hb Hx Hroom') as [_ [[_ H' _ _ _ _ _ _] _] _]. exact H'. }
    exists ds', es', (drp ++ map pair_of gone). split; cbn [disk queue inflight accepted past current droppedN unreadN]; try done.
    + eapply flight_drops; [exact Hdr|by eapply flight_snoc|lia].
    + destruct fl as [[e b]|]; [|done]. intros e' He' Eid. eapply elem_of_sublist in He'; [|exact Sg].
      apply elem_of_app in He' as [He'| ->%list_elem_of_singleton]; [by apply Hu|]. cbn in Hf. destruct Hf as [Hr _].
      apply Sprintf020_inj in Eid; cbn in *; destruct Hh as [[] _ _]; lia.
    + eapply Forall_impl; [exact Hp|]. intros l Hl'. by apply sublist_inserts_r.
    + etransitivity; [apply (fmap_sublist pair_of), Sg|]. rewrite fmap_app. by apply sublist_app.
    + change (t, p) with (pair_of x). rewrite Ha. rewrite <- !app_assoc. f_equiv. f_equiv. rewrite <- map_app.
      change [pair_of x] with (map pair_of [x]). rewrite <- map_app. by apply Permutation_map.
    + rewrite zlen_app, zlen_map. lia.
    + intros [Hc' Hok]. destruct (Hc Hc') as [-> Hf']. split; [by apply Fg|].
      eapply flight_drops; [exact Hdr|by eapply flight_snoc|lia].
  - exists ds, es, drp. split; cbn [disk queue inflight accepted past current droppedN unreadN]; try done.
    + eapply (flight_drop []); [exact Hf|lia].
    + intros [Hc' _]. destruct (Hc Hc') as [-> Hf']. split; [done|]. eapply (flight_drop []); [exact Hf'|lia].
Qed.
Lemma inv_peek c s ds es fl del drp env : inv c s ds es fl del drp ->
  exists ds' es' fl' drp', inv (c /\ files_ok env) (sys_step s (OpPeek env)) ds' es' fl' del drp'.
Proof.
  intros [Hh Hi Hf Hu Hp Hd Ha Hl Hn Hc]. cbn [sys_step]. rewrite Hi. destruct fl as [[e b]|]; cbn [fmap option_fmap option_map].
  { exists ds, es, (Some (e, b)), drp. split; try done. by intros [? _]; apply Hc. }
  destruct (Peek Unmarshal env (disk s) (queue s)) as [[dk q] r] eqn:E. pose proof (Peek_any _ _ _ _ _ _ _ _ Hh E) as Hr.
  destruct r as [y|].
  - destruct Hr as [[= -> ->] (e & es' & -> & ->)]. exists ds, (e :: es'), (Some (e, false)), drp.
    assert (forall dlv, flight_ok (e :: es') dlv (accepted s) (nextSeq (queue s)) None -> flight_ok (e :: es') dlv (accepted s) (nextSeq (queue s)) (Some (e, false))) as Hfl.
    { intros dlv H. destruct Hh as [[_ Hs Hq _ _ _ _ _] _ _]. apply Forall_cons in Hq as [Hq _]. split; [done|]. exists es'. split_and!; [done|by left|done]. }
    split; cbn [disk queue inflight accepted past current droppedN unreadN]; try done; [by apply Hfl| |].
    + intros e' He' Eid. destruct Hh as [_ [Hdr _] Hsub]. eapply same_id; [exact Hdr|done| |done]. eapply elem_of_sublist; [by left|done].
    + intros [Hc' _]. destruct (Hc Hc') as [-> Hf']. split; [done|]. by apply Hfl.
  - destruct Hr as [[[= -> ->] ->]|(e & es' & ds' & -> & Hh' & (Hns & _) & Hdr & _)].
    + exists ds, [], None, drp. assert (order (queue s) = []) as -> by (destruct Hh as [[-> _ _ _ _ _ _ _] _ _]; done).
      split; try done. by intros [? _]; apply Hc.
    + assert (exists o l, order (queue s) = o :: l) as (o & l & ->) by (destruct Hh as [[-> _ _ _ _ _ _ _] _ _]; cbn; eauto).
      pose proof Hdr as (pre & gone & Epre & Ek & Pg & Sg & Lg & Fg).
      exists ds', es', None, (drp ++ map pair_of gone). split; cbn [disk queue inflight accepted past current droppedN unreadN]; try done.
      * eapply flight_drops; [exact Hdr|exact Hf|lia].
      * etransitivity; [apply (fmap_sublist pair_of), Sg|done].
      * rewrite Ha, <- !app_assoc. f_equiv. f_equiv. rewrite <- map_app. by apply Permutation_map.
      * rewrite zlen_app, zlen_map. lia.
      * intros [Hc' Hok]. destruct (Hc Hc') as [-> Hf']. split; [by apply Fg|]. eapply flight_drops; [exact Hdr|exact Hf'|lia].
Qed.
Lemma inv_deliver c s ds es fl del drp ok : inv c s ds es fl del drp -> exists fl', inv c (sys_step s (OpDeliver ok)) ds es fl' del drp.
Proof.
  intros [Hh Hi Hf Hu Hp Hd Ha Hl Hn Hc]. cbn [sys_step]. rewrite Hi. destruct fl as [[e [|]]|]; cbn [fmap option_fmap option_map fst snd]; [by eexists..| |by eexists].
  destruct ok.
  - assert (forall dlv, flight_ok es dlv (accepted s) (nextSeq (queue s)) (Some (e, false)) -> flight_ok es (dlv ++ [pair_of e]) (accepted s) (nextSeq (queue s)) (Some (e, true))) as Hfl.
    { intros dlv (Hr & es' & H1 & H2 & H3). split; [done|]. exists es'. split_and!; [done|done|]. by rewrite <- app_assoc. }
    exists (Some (e, true)). split; cbn [disk queue inflight accepted past current droppedN unreadN]; try done; [by apply Hfl| |].
    + unfold delivered. cbn [past current]. rewrite app_assoc. apply submseteq_skips_r. by rewrite app_nil_r in Hl.
    + intros Hc'. destruct (Hc Hc') as [-> Hf']. split; [done|]. unfold delivered. cbn [past current]. rewrite app_assoc. by apply Hfl.
  - assert (forall dlv, flight_ok es dlv (accepted s) (nextSeq (queue s)) (Some (e, false)) -> flight_ok es dlv (accepted s) (nextSeq (queue s)) None) as Hfl.
    { intros dlv (Hr & es' & H1 & [-> | ->] & H3); [done|]. by eapply sublist_suffix. }
    exists None. split; cbn [disk queue inflight accepted past current droppedN unreadN]; try done; [by apply Hfl|].
    intros Hc'. destruct (Hc Hc') as [-> Hf']. split; [done|]. by apply Hfl.
Qed.
Lemma inv_remove c s ds es fl del drp env : inv c s ds es fl del drp ->
  exists ds' es' fl' del', inv (c /\ files_ok env) (sys_step s (OpRemove env)) ds' es' fl' del' drp.
Proof.
  intros [Hh Hi Hf Hu Hp Hd Ha Hl Hn Hc]. cbn [sys_step]. rewrite Hi. destruct fl as [[e [|]]|]; cbn [fmap option_fmap option_map fst snd].
  2: { exists ds, es, (Some (e, false)), del. split; try done. by intros [? _]; apply Hc. }
  2: { exists ds, es, None, del. split; try done. by intros [? _]; apply Hc. }
  unfold Remove. change (ID (entry_of e)) with (item_id e). destruct (removeLocked env (disk s) (queue s) (item_id e)) as [dk q] eqn:E.
  pose proof Hf as (Hr & es' & Hss & Hes & Hsub).
  assert (forall e', e' ∈ es' -> item_id e' <> item_id e) as Hne.
  { intros e' He' Eid. apply Sprintf020_inj in Eid.
    - apply StronglySorted_inv in Hss as [_ Hss]. eapply Forall_forall in Hss; [|apply (list_elem_of_fmap_2 seq); exact He']. lia.
    - destruct Hh as [[_ _ Hq Hnx _ _ _ _] _ _]. rewrite Forall_forall in Hq. pose proof (Hq e' ltac:(destruct Hes as [-> | ->]; [by right|done])). lia.
    - destruct Hh as [[_ _ _ Hnx _ _ _ _] _ _]. lia. }
  assert (repr dk q es' /\ nextSeq q = nextSeq (queue s) /\ es' `sublist_of` es) as (Hr' & Hn' & Hs').
  { destruct Hes as [-> | ->].
    - destruct (remove_head _ _ _ _ _ _ _ (hd_q _ _ _ _ Hh) E) as (? & ? & _). split_and!; [done|done|by constructor].
    - assert (repr dk q es' /\ nextSeq q = nextSeq (queue s) /\ _) as (? & ? & _) by (eapply remove_absent; [exact Unmarshal|exact (hd_q _ _ _ _ Hh)|exact Hne|exact E]). done. }
  assert (exists del', del' ⊆+ delivered s /\ del' ++ drp ++ map pair_of (on_disk env (item_id e) ds) ≡ₚ del ++ drp ++ map pair_of ds) as (del' & Hl' & Ha').
  { assert (del ⊆+ delivered s) as Hl0 by (etransitivity; [|exact Hl]; by apply submseteq_inserts_r).
    unfold on_disk. destruct (remove_ok env (item_id e)); [|by exists del].
    destruct Hh as [_ [Hdr _] _]. destruct (without_spec _ _ _ (item_id e) Hdr) as [(e' & He' & Eid & P)|[_ ->]]; [|by exists del].
    rewrite (Hu e' He' Eid) in P. exists (del ++ [pair_of e]). split; [done|]. rewrite <- (Permutation_map pair_of (Permutation_sym P)).
    cbn [map]. rewrite <- app_assoc. cbn [app]. f_equiv. apply Permutation_middle. }
  exists (on_disk env (item_id e) ds), es', None, del'. split; cbn [disk queue inflight accepted past current droppedN unreadN]; try done.
  - by eapply removed_index.
  - etransitivity; [apply (fmap_sublist pair_of), on_disk_sub|done].
  - by rewrite Ha'.
  - by rewrite app_nil_r.
  - intros [Hc' Hok]. destruct (Hc Hc') as [-> (_ & es2 & Hss2 & Hes2 & Hsub2)]. destruct (Hok (item_id e)) as [Hro _].
    assert (es2 = es') as ->.
    { destruct Hes as [-> | ->], Hes2 as [E2|E2]; simplify_eq; try done; exfalso.
      - cbn in Hss2. apply StronglySorted_inv in Hss2 as [_ Hss2]. apply Forall_cons in Hss2 as [Hss2 _]. lia.
      - apply (Hne e); [by left|done]. }
    split; [|exact Hsub2]. unfold on_disk. rewrite Hro. destruct Hes as [-> | ->]; [|by apply without_absent].
    unfold without. rewrite filter_cons_False by (by intros []). by apply without_absent.
Qed.
Lemma inv_restart c s ds es fl del drp : inv c s ds es fl del drp ->
  inv (c /\ forall e, inflight s <> Some (e, true)) (sys_step s OpRestart) ds ds None del drp.
Proof.
  intros [Hh Hi Hf Hu Hp Hd Ha Hl Hn Hc].
  destruct (Open_any _ _ _ _ (maxSizeBytes (queue s)) (maxAge (queue s)) Hh) as (Hh' & _ & _).
  assert (delivered (sys_step s OpRestart) = delivered s) as Ed.
  { unfold delivered. cbn. by rewrite concat_app, app_nil_r; cbn; rewrite app_nil_r. }
  split; rewrite ?Ed; cbn [sys_step disk queue inflight accepted past current droppedN unreadN]; try done.
  - apply Forall_app. split; [done|]. constructor; [by eapply flight_dlv|constructor].
  - rewrite app_nil_r. etransitivity; [|exact Hl]. by apply submseteq_inserts_r.
  - intros [Hc' Hfl]. destruct (Hc Hc') as [-> Hf']. split; [done|]. rewrite Hi in Hfl. destruct fl as [[e [|]]|]; [by destruct (Hfl (entry_of e))| |done].
    destruct Hf' as (_ & es' & _ & [-> | ->] & H3); [done|]. by eapply sublist_suffix.
Qed.
Lemma drain_step_inv (c : Prop) s op ds es fl del drp : inv c s ds es fl del drp -> op_fits s op ->
  exists ds' es' fl' del' drp', inv (c /\ op_careful s op) (sys_step s op) ds' es' fl' del' drp'.
Proof.
  intros Hi Hop. destruct op as [env p t|env|ok|env|].
  - destruct (inv_enqueue _ _ _ _ _ _ _ _ _ _ Hi Hop) as (ds' & es' & drp' & H). by exists ds', es', fl, del, drp'.
  - destruct (inv_peek _ _ _ _ _ _ _ env Hi) as (ds' & es' & fl' & drp' & H). by exists ds', es', fl', del, drp'.
  - destruct (inv_deliver _ _ _ _ _ _ _ ok Hi) as (fl' & []). exists ds, es, fl', del, drp. split; try done. intros [? _]. auto.
  - destruct (inv_remove _ _ _ _ _ _ _ env Hi) as (ds' & es' & fl' & del' & H). by exists ds', es', fl', del', drp.
  - eexists _, _, _, _, _. exact (inv_restart _ _ _ _ _ _ _ Hi).
Qed.
Lemma inv_init m a : inv True (sys_init m a) [] [] None [] [].
Proof.
  split; cbn; try done. pose proof (Open_empty m a) as [Hr Hc]. split; [done| |done]. split; [|done]. destruct Hr as [A1 A2 A3 A4 A5 A6 A7 A8]. by split.
Qed.
Lemma inv_steps ops : forall (c : Prop) s ds es fl del drp, inv c s ds es fl del drp -> all_steps op_fits s ops ->
  exists ds' es' fl' del' drp', inv (c /\ all_steps op_careful s ops) (fold_left sys_step ops s) ds' es' fl' del' drp'.
Proof.
  induction ops as [|op ops IH]; intros c s ds es fl del drp Hi Hf; cbn.
  - exists ds, es, fl, del, drp. destruct Hi. split; try done. intros [? _]. auto.
  - destruct Hf as [Hop Hf]. destruct (drain_step_inv _ _ _ _ _ _ _ _ Hi Hop) as (ds1 & es1 & fl1 & del1 & drp1 & H1).
    destruct (IH _ _ _ _ _ _ _ H1 Hf) as (ds2 & es2 & fl2 & del2 & drp2 & []). exists ds2, es2, fl2, del2, drp2. split; try done. tauto.
Qed.

End codec.

(** ** Runs *)

Definition hello : bytes := bytes_of_string "hello".
Definition demoOps : list sysop :=
  [OpEnqueue goodEnv hello 100; OpEnqueue goodEnv [1; 2; 3] 200; OpPeek goodEnv; OpDeliver false; OpRestart; OpPeek goodEnv;
   OpEnqueue goodEnv [9] 300; OpDeliver true; OpRemove goodEnv].
(** A restart between the delivery and the removal delivers the entry a second time. *)
Lemma redelivered_after_restart :
  delivered (sys_run parseEntry 1000 0 [OpEnqueue goodEnv hello 100; OpPeek goodEnv; OpDeliver true; OpRestart; OpPeek goodEnv; OpDeliver true]) =
  [(100, hello); (100, hello)].
Proof. vm_compute. reflexivity. Qed.
End drain.
