(* ===== verification/Execution.v ===== *)
(** * Execution tracking ([engine/flow/execution.go])

    [Tracker]: per-flow concurrency slots, pending-datagram counting, timeout and
    cancellation.  Its methods run on several goroutines and take the mutex only
    around the map updates, so each method is split at the points where another
    goroutine can run: a [Start] that waits for a slot, one that holds a slot but
    has not recorded its execution yet, and a finished execution whose slot is not
    released yet are parts of the state. *)

From S2P Require Import Prelude Datagram.
Import datagram.
Local Open Scope Z_scope.

Module execution.

(** ** Data *)

Inductive ExecutionStatus :=
| ExecutionRunning | ExecutionWaiting | ExecutionSuccess | ExecutionFailed
| ExecutionCancelled | ExecutionCrashed.
#[global] Instance ExecutionStatus_eq_dec : EqDecision ExecutionStatus.
Proof. solve_decision. Defined.

Record NodeError := MkNodeError {
  Message : string; Code : string; Node : string; Stack : string; ne_Attempt : Z
}.

Section tracker.
Context {V : Type}.

Record PortDatagram := MkPortDatagram { Port : string; pdDatagram : Datagram V }.
Record NodeIO := MkNodeIO {
  io_NodeID : string; io_Port : string; Attempt : Z; At : Z; DurationUs : Z;
  Input : Datagram V; Outputs : list PortDatagram; io_Err : option NodeError
}.

Record execState := MkExecState { pending : Z; failed : bool; reason : string }.

(** What the attached sink has been told, oldest first. *)
Inductive SinkEvent :=
| EvWaiting (id : string)
| EvStarted (id : string)
| EvNode (id : string) (ev : NodeIO)
| EvFinished (id : string) (s : ExecutionStatus) (reason : string).

(** [sem]: nil, or a channel of the given capacity holding that many tokens. *)
Record Tracker := MkTracker {
  reject : bool;
  timeout : Z;
  sem : option (Z * nat);
  active : gmap string execState;
  timers : gset string;
  (* goroutines inside a method *)
  waiting : list string;                                  (* Start, in [t.sem <- struct{}{}] *)
  starting : list string;                                 (* Start, between the select and Lock *)
  reporting : list string;                                (* Start, between Unlock and Started *)
  finishing : list (string * ExecutionStatus * string);   (* before releaseSlot and Finished *)
  sunk : list SinkEvent
}.

Definition mkSem (maxConcurrency : Z) : option (Z * nat) :=
  if 0 <? maxConcurrency then Some (maxConcurrency, 0%nat) else None.
Definition NewTracker (maxConcurrency : Z) (rej : bool) (tmo : Z) : Tracker :=
  MkTracker rej tmo (mkSem maxConcurrency) ∅ ∅ [] [] [] [] [].

(** Channel send without blocking ([None]: full). *)
Definition sem_put (s : option (Z * nat)) : option (option (Z * nat)) :=
  match s with
  | None => Some None
  | Some (cap, k) => if Z.of_nat k <? cap then Some (Some (cap, S k)) else None
  end.
(** Channel receive ([None]: it blocks). *)
Definition sem_take (s : option (Z * nat)) : option (option (Z * nat)) :=
  match s with
  | None => Some None
  | Some (cap, S k) => Some (Some (cap, k))
  | Some (_, O) => None
  end.

Definition set_sem (t : Tracker) s : Tracker :=
  MkTracker (reject t) (timeout t) s (active t) (timers t) (waiting t) (starting t) (reporting t) (finishing t) (sunk t).
Definition set_maps (t : Tracker) a tm : Tracker :=
  MkTracker (reject t) (timeout t) (sem t) a tm (waiting t) (starting t) (reporting t) (finishing t) (sunk t).
Definition set_go (t : Tracker) w s f : Tracker :=
  MkTracker (reject t) (timeout t) (sem t) (active t) (timers t) w s (reporting t) f (sunk t).
Definition set_reporting (t : Tracker) l : Tracker :=
  MkTracker (reject t) (timeout t) (sem t) (active t) (timers t) (waiting t) (starting t) l (finishing t) (sunk t).
Definition sink (t : Tracker) e : Tracker :=
  MkTracker (reject t) (timeout t) (sem t) (active t) (timers t) (waiting t) (starting t) (reporting t) (finishing t)
    (sunk t ++ [e]).

(** ** Start *)

Inductive StartOutcome := StartAcquired | StartRejected | StartQueued.

(** The outer [select]: acquire, reject or report waiting and block. *)
Definition Start_begin (t : Tracker) (id : string) : Tracker * StartOutcome :=
  match sem_put (sem t) with
  | Some s => (set_go (set_sem t s) (waiting t) (starting t ++ [id]) (finishing t), StartAcquired)
  | None =>
      if reject t then (t, StartRejected)
      else (set_go (sink t (EvWaiting id)) (waiting t ++ [id]) (starting t) (finishing t), StartQueued)
  end.

(** The inner [select] of the [i]-th waiting [Start]: a slot frees, or its ctx is done. *)
Definition Start_acquire (t : Tracker) (i : nat) : option Tracker :=
  id ← waiting t !! i;
  s ← sem_put (sem t);
  Some (set_go (set_sem t s) (delete i (waiting t)) (starting t ++ [id]) (finishing t)).
Definition Start_abort (t : Tracker) (i : nat) : option Tracker :=
  _ ← waiting t !! i;
  Some (set_go t (delete i (waiting t)) (starting t) (finishing t)).

(** The critical section of the [i]-th [Start] holding a slot. *)
Definition Start_commit (t : Tracker) (i : nat) : option Tracker :=
  id ← starting t !! i;
  let t := set_go t (waiting t) (delete i (starting t)) (finishing t) in
  let tm := if 0 <? timeout t then {[id]} ∪ timers t else timers t in
  Some (set_reporting (set_maps t (<[id := MkExecState 1 false ""]> (active t)) tm) (reporting t ++ [id])).
(** [sink.Started] of the [i]-th [Start] that has left its critical section. *)
Definition Start_report (t : Tracker) (i : nat) : option Tracker :=
  id ← reporting t !! i;
  Some (sink (set_reporting t (delete i (reporting t))) (EvStarted id)).

(** ** Ends *)

Definition retire (t : Tracker) (id : string) (s : ExecutionStatus) (r : string) : Tracker :=
  let t := set_maps t (delete id (active t)) (timers t ∖ {[id]}) in
  set_go t (waiting t) (starting t) (finishing t ++ [(id, s, r)]).

Definition timeoutExecution (t : Tracker) (id : string) : Tracker :=
  match active t !! id with
  | None => t
  | Some _ => retire t id ExecutionFailed "timeout"
  end.

Definition Cancel (t : Tracker) (id : string) : Tracker * bool :=
  match active t !! id with
  | None => (t, false)
  | Some _ => (retire t id ExecutionCancelled "cancelled", true)
  end.

(** The report of a node is listed with the critical section that precedes it; see
    [exechistory.arrives] for the order in which such reports come in. *)
Definition NodeEvent (t : Tracker) (inp : Datagram V) (ev : NodeIO) (onError : string) : Tracker :=
  let id := CorrelationID (header inp) in
  match active t !! id with
  | None => t
  | Some st =>
      let pend := pending st + (zlen (Outputs ev) - 1) in
      let '(fl, rs) := match io_Err ev with
                       | Some e => if decide (onError = "fail") then (true, Message e)
                                   else (failed st, reason st)
                       | None => (failed st, reason st)
                       end in
      let t := set_maps t (<[id := MkExecState pend fl rs]> (active t)) (timers t) in
      let t := sink t (EvNode id ev) in
      if pend <=? 0 then
        retire t id (if fl then ExecutionFailed else ExecutionSuccess) (if fl then rs else "")
      else t
  end.

(** [releaseSlot] and [sink.Finished] of the [i]-th finished execution; [None]: it blocks. *)
Definition finish (t : Tracker) (i : nat) : option Tracker :=
  x ← finishing t !! i;
  s ← sem_take (sem t);
  let '(id, st, r) := x in
  Some (sink (set_go (set_sem t s) (waiting t) (starting t) (delete i (finishing t)))
             (EvFinished id st r)).

Definition Tracking (t : Tracker) (id : string) : bool := bool_decide (is_Some (active t !! id)).
Definition Idle (t : Tracker) : bool := bool_decide (active t = ∅).
Definition Reconfigure (t : Tracker) (maxConcurrency : Z) (rej : bool) (tmo : Z) : Tracker :=
  MkTracker rej tmo (mkSem maxConcurrency) (active t) (timers t) (waiting t) (starting t)
    (reporting t) (finishing t) (sunk t).

(** ** Interleavings *)

Inductive event :=
| StartEv (id : string)
| AcquireEv (i : nat)
| AbortEv (i : nat)
| CommitEv (i : nat)
| ReportEv (i : nat)
| NodeEv (inp : Datagram V) (ev : NodeIO) (onError : string)
| TimeoutEv (id : string)
| CancelEv (id : string)
| FinishEv (i : nat)
| ReconfigureEv (maxConcurrency : Z) (rej : bool) (tmo : Z).

(** [None]: the event cannot happen in this state.  [Deployment] reconfigures only
    an [Idle] tracker. *)
Definition step (t : Tracker) (e : event) : option Tracker :=
  match e with
  | StartEv id => Some (fst (Start_begin t id))
  | AcquireEv i => Start_acquire t i
  | AbortEv i => Start_abort t i
  | CommitEv i => Start_commit t i
  | ReportEv i => Start_report t i
  | NodeEv inp ev onError => Some (NodeEvent t inp ev onError)
  | TimeoutEv id => Some (timeoutExecution t id)
  | CancelEv id => Some (fst (Cancel t id))
  | FinishEv i => finish t i
  | ReconfigureEv m r tmo => if Idle t then Some (Reconfigure t m r tmo) else None
  end.
Fixpoint run (t : Tracker) (es : list event) : option Tracker :=
  match es with [] => Some t | e :: es' => t' ← step t e; run t' es' end.

(** The ids a run starts. *)
Definition started_ids (es : list event) : list string :=
  omap (fun e => match e with StartEv id => Some id | _ => None end) es.
Definition no_reconfigure (es : list event) : Prop :=
  Forall (fun e => match e with ReconfigureEv _ _ _ => False | _ => True end) es.

(** ** Slots and lifecycles *)

Definition live (t : Tracker) : list string := elements (dom (active t)).
Definition fins (t : Tracker) : list string := map (fun x => x.1.1) (finishing t).
Definition finished (t : Tracker) : list string :=
  omap (fun e => match e with EvFinished id _ _ => Some id | _ => None end) (sunk t).
(** Executions that the tracker has taken up: reported as started, or about to be. *)
Definition reported (t : Tracker) : list string :=
  omap (fun e => match e with EvStarted id => Some id | _ => None end) (sunk t).
Definition started (t : Tracker) : list string := reported t ++ reporting t.
Definition known (t : Tracker) : list string :=
  waiting t ++ starting t ++ live t ++ fins t ++ finished t.
Definition slots (t : Tracker) : nat := (length (starting t) + length (live t) + length (fins t))%nat.

Record tracker_inv (m : Z) (seen : list string) (t : Tracker) : Prop := MkTrackerInv {
  ti_nodup : NoDup (known t);
  ti_seen : forall x, x ∈ known t -> x ∈ seen;
  ti_started : started t ≡ₚ live t ++ fins t ++ finished t;
  ti_sem : match sem t with
           | None => m <= 0
           | Some (cap, k) => cap = m /\ k = slots t /\ Z.of_nat k <= cap
           end
}.

Lemma live_insert_fresh t id st tm : active t !! id = None ->
  live (set_maps t (<[id := st]> (active t)) tm) ≡ₚ id :: live t.
Proof.
  intros H. unfold live. cbn. rewrite dom_insert, elements_union_singleton; [done|].
  by apply not_elem_of_dom.
Qed.
Lemma dom_insert_same (m : gmap string execState) id st : is_Some (m !! id) ->
  dom (<[id := st]> m) = dom m.
Proof. intros H. by rewrite dom_insert_lookup_L. Qed.
Lemma elements_delete (m : gmap string execState) id : is_Some (m !! id) ->
  elements (dom m) ≡ₚ id :: elements (dom (delete id m)).
Proof.
  intros [st H]. rewrite <- (insert_delete_id m id st H) at 1.
  rewrite dom_insert, elements_union_singleton; [done|].
  apply not_elem_of_dom. by rewrite lookup_delete_eq.
Qed.

(** An invariant-preserving move: the same ids, the same slots. *)
Lemma inv_move m seen t t' :
  tracker_inv m seen t -> known t' ≡ₚ known t -> started t' = started t ->
  live t' ++ fins t' ++ finished t' ≡ₚ live t ++ fins t ++ finished t ->
  sem t' = sem t -> slots t' = slots t -> tracker_inv m seen t'.
Proof.
  intros [H1 H2 H3 H4] Hk Hs Hl He Hn. split.
  - by rewrite Hk.
  - intros x. rewrite Hk. apply H2.
  - by rewrite Hs, Hl.
  - rewrite He. destruct (sem t) as [[cap k]|]; [|done]. by rewrite Hn.
Qed.

Lemma retire_inv m seen t id st r : is_Some (active t !! id) ->
  tracker_inv m seen t -> tracker_inv m seen (retire t id st r).
Proof.
  intros Hid Hi. pose proof (elements_delete _ _ Hid) as Hp.
  assert (live (retire t id st r) ++ fins (retire t id st r) ++ finished t ≡ₚ live t ++ fins t ++ finished t) as Hm.
  { unfold live, fins. cbn. rewrite map_app. cbn. rewrite Hp. solve_Permutation. }
  eapply inv_move; [exact Hi| |done|exact Hm|done|].
  - unfold known. change (finished (retire t id st r)) with (finished t). rewrite Hm. done.
  - unfold slots, live, fins. cbn. rewrite map_app, length_app, Hp. cbn. lia.
Qed.

Lemma sink_other_inv m seen t e :
  match e with EvWaiting _ | EvNode _ _ => True | _ => False end ->
  tracker_inv m seen t -> tracker_inv m seen (sink t e).
Proof.
  intros He Hi. assert (finished (sink t e) = finished t /\ started (sink t e) = started t) as [Hf Hs].
  { unfold finished, started, reported. cbn. rewrite !omap_app. destruct e; cbn; by rewrite ?app_nil_r. }
  eapply inv_move; [exact Hi|..|done]; unfold known; rewrite ?Hf; done.
Qed.

Lemma update_inv m seen t id st : is_Some (active t !! id) ->
  tracker_inv m seen t -> tracker_inv m seen (set_maps t (<[id := st]> (active t)) (timers t)).
Proof.
  intros Hid Hi. assert (live (set_maps t (<[id := st]> (active t)) (timers t)) = live t) as Hl.
  { unfold live. cbn. by rewrite dom_insert_same. }
  eapply inv_move; [exact Hi|..]; unfold known, slots; rewrite ?Hl; done.
Qed.

Lemma NodeEvent_inv m seen t inp ev oe :
  tracker_inv m seen t -> tracker_inv m seen (NodeEvent t inp ev oe).
Proof.
  intros Hi. unfold NodeEvent. destruct (active t !! _) as [st|] eqn:E; [|done].
  destruct (match io_Err ev with Some _ => _ | None => _ end) as [fl rs].
  assert (tracker_inv m seen (sink (set_maps t (<[CorrelationID (header inp) :=
    MkExecState (pending st + (zlen (Outputs ev) - 1)) fl rs]> (active t)) (timers t))
    (EvNode (CorrelationID (header inp)) ev))) as Hi'.
  { apply sink_other_inv; [done|]. apply update_inv; [by eauto|done]. }
  destruct (_ <=? 0); [|done]. apply retire_inv; [|done]. cbn. rewrite lookup_insert_eq. eauto.
Qed.

Lemma sem_put_slots m t s n : sem_put (sem t) = Some s ->
  match sem t with None => m <= 0 | Some (cap, k) => cap = m /\ k = n /\ Z.of_nat k <= cap end ->
  match s with None => m <= 0 | Some (cap, k) => cap = m /\ k = S n /\ Z.of_nat k <= cap end.
Proof.
  unfold sem_put. destruct (sem t) as [[cap k]|]; [|by intros [= <-]].
  destruct (Z.ltb_spec (Z.of_nat k) cap); [|done]. intros [= <-] (-> & -> & _). lia.
Qed.

(** A goroutine with id [id] acquires a slot. *)
Lemma acquire_inv m seen seen' t s w id :
  tracker_inv m seen t -> sem_put (sem t) = Some s ->
  NoDup (w ++ id :: starting t ++ live t ++ fins t ++ finished t) ->
  (forall x, x ∈ w \/ x = id \/ x ∈ seen -> x ∈ seen') ->
  tracker_inv m seen' (set_go (set_sem t s) w (starting t ++ [id]) (finishing t)).
Proof.
  intros [H1 H2 H3 H4] Hs Hnd Hseen. split.
  - unfold known. cbn. rewrite <- app_assoc. cbn.
    assert (w ++ starting t ++ id :: live t ++ fins t ++ finished t
            ≡ₚ w ++ id :: starting t ++ live t ++ fins t ++ finished t) as Hp by solve_Permutation.
    by rewrite <- Hp in Hnd.
  - intros x Hx. unfold known in Hx, H2. cbn in Hx.
    change (live (set_go (set_sem t s) w (starting t ++ [id]) (finishing t))) with (live t) in Hx.
    change (fins (set_go (set_sem t s) w (starting t ++ [id]) (finishing t))) with (fins t) in Hx.
    change (finished (set_go (set_sem t s) w (starting t ++ [id]) (finishing t))) with (finished t) in Hx.
    apply Hseen. rewrite !elem_of_app, list_elem_of_singleton in Hx.
    specialize (H2 x). rewrite !elem_of_app in H2. naive_solver.
  - exact H3.
  - cbn. pose proof (sem_put_slots m t s (slots t) Hs H4) as H5.
    destruct s as [[cap k]|]; [|done]. destruct H5 as (-> & -> & ?). split_and!; [done| |done].
    unfold slots, live, fins. cbn. rewrite length_app. cbn. lia.
Qed.

Lemma known_cons_waiting t id : NoDup (known t) -> id ∉ known t ->
  NoDup (waiting t ++ id :: starting t ++ live t ++ fins t ++ finished t).
Proof.
  intros Hn Hid. assert (waiting t ++ id :: starting t ++ live t ++ fins t ++ finished t ≡ₚ id :: known t)
    as -> by (unfold known; solve_Permutation). by constructor.
Qed.

Lemma Start_begin_inv m seen t id : tracker_inv m seen t -> id ∉ seen ->
  tracker_inv m (id :: seen) (fst (Start_begin t id)).
Proof.
  intros Hi Hid. pose proof Hi as [H1 H2 H3 H4].
  assert (id ∉ known t) as Hk by (intros ?; by apply Hid, H2).
  unfold Start_begin. destruct (sem_put (sem t)) as [s|] eqn:Es; cbn.
  - eapply acquire_inv; [exact Hi|exact Es|by apply known_cons_waiting|].
    intros x [Hx | [-> | Hx]]; [right; apply H2; unfold known; rewrite elem_of_app; by left|by left|by right].
  - assert (tracker_inv m (id :: seen) t) as Hi' by (split; [done|by right; apply H2|done|done]).
    destruct (reject t); [done|].
    assert (tracker_inv m (id :: seen) (sink t (EvWaiting id))) as [G1 G2 G3 G4] by by apply sink_other_inv.
    split.
    + unfold known. cbn. rewrite <- app_assoc. cbn.
      change (NoDup (waiting t ++ id :: starting t ++ live t ++ fins t ++ finished (sink t (EvWaiting id)))).
      assert (finished (sink t (EvWaiting id)) = finished t) as ->
        by (unfold finished; cbn; by rewrite omap_app, app_nil_r).
      by apply known_cons_waiting.
    + intros x Hx. unfold known in Hx. cbn in Hx. rewrite <- app_assoc, elem_of_app in Hx.
      destruct Hx as [Hx|Hx]; [apply G2; unfold known; cbn; rewrite elem_of_app; by left|].
      apply elem_of_app in Hx as [->%list_elem_of_singleton | Hx]; [by left|].
      apply G2. unfold known. rewrite elem_of_app. by right.
    + exact G3.
    + exact G4.
Qed.

Lemma delete_perm {A} (l : list A) i x : l !! i = Some x -> l ≡ₚ x :: delete i l.
Proof. apply delete_Permutation. Qed.

Lemma Start_acquire_inv m seen t i t' :
  tracker_inv m seen t -> Start_acquire t i = Some t' -> tracker_inv m seen t'.
Proof.
  intros Hi H. unfold Start_acquire in H. destruct (waiting t !! i) as [id|] eqn:Ew; [|done].
  cbn in H. destruct (sem_put (sem t)) as [s|] eqn:Es; [|done]. cbn in H. simplify_eq.
  pose proof Hi as [H1 H2 _ _]. pose proof (delete_perm _ _ _ Ew) as Hp.
  eapply acquire_inv; [exact Hi|exact Es| |].
  - unfold known in H1. assert (waiting t ++ starting t ++ live t ++ fins t ++ finished t ≡ₚ
      delete i (waiting t) ++ id :: starting t ++ live t ++ fins t ++ finished t) as Hq
      by (rewrite Hp at 1; solve_Permutation). by rewrite <- Hq.
  - assert (forall x, x ∈ waiting t -> x ∈ seen) as Hw
      by (intros x Hx; apply H2; unfold known; rewrite elem_of_app; by left).
    intros x [Hx | [-> | Hx]]; [apply Hw; rewrite Hp; by right|apply Hw; rewrite Hp; by left|done].
Qed.

Lemma Start_abort_inv m seen t i t' :
  tracker_inv m seen t -> Start_abort t i = Some t' -> tracker_inv m seen t'.
Proof.
  intros [H1 H2 H3 H4] H. unfold Start_abort in H. destruct (waiting t !! i) as [id|] eqn:Ew; [|done].
  cbn in H. simplify_eq. pose proof (delete_perm _ _ _ Ew) as Hp.
  assert (known t ≡ₚ id :: known (set_go t (delete i (waiting t)) (starting t) (finishing t))) as Hk.
  { unfold known at 1. rewrite Hp at 1. done. }
  split; [|intros x Hx; apply H2; rewrite Hk; by right|done..].
  rewrite Hk in H1. by apply NoDup_cons in H1 as [].
Qed.

Lemma Start_commit_inv m seen t i t' :
  tracker_inv m seen t -> Start_commit t i = Some t' -> tracker_inv m seen t'.
Proof.
  intros [H1 H2 H3 H4] H. unfold Start_commit in H. destruct (starting t !! i) as [id|] eqn:Ew; [|done].
  cbn [mbind option_bind] in H. injection H as <-. pose proof (delete_perm _ _ _ Ew) as Hp.
  revert Hp. generalize (delete i (starting t)) as d. intros d Hp. clear Ew.
  set (t1 := set_go t (waiting t) d (finishing t)).
  match goal with |- tracker_inv _ _ (set_reporting ?x _) => set (t2 := x) end.
  assert (active t !! id = None) as Hfresh.
  { destruct (active t !! id) eqn:E; [|done]. exfalso.
    unfold known in H1. apply NoDup_app in H1 as (_ & _ & H1). apply NoDup_app in H1 as (_ & H1 & _).
    apply (H1 id); [rewrite Hp; by left|]. rewrite elem_of_app. left. unfold live.
    apply elem_of_elements, elem_of_dom. by eauto. }
  assert (live t2 ≡ₚ id :: live t) as Hl by by apply (live_insert_fresh t1).
  set (t3 := set_reporting t2 _).
  assert (known t3 ≡ₚ known t) as Hk.
  { unfold known. change (live t3) with (live t2). change (fins t3) with (fins t). change (finished t3) with (finished t).
    cbn. rewrite Hl, Hp. solve_Permutation. }
  split.
  - by rewrite Hk.
  - intros x. rewrite Hk. apply H2.
  - change (live t3) with (live t2). change (fins t3) with (fins t). change (finished t3) with (finished t).
    rewrite Hl. cbn. rewrite <- H3. unfold started. cbn. change (reported t3) with (reported t). solve_Permutation.
  - cbn. destruct (sem t) as [[cap k]|]; [|done]. destruct H4 as (-> & -> & ?). split_and!; [done| |done].
    unfold slots. change (live t3) with (live t2). change (fins t3) with (fins t). change (starting t3) with d.
    apply Permutation_length in Hl, Hp. rewrite Hl, Hp. unfold fins. cbn. lia.
Qed.

Lemma Start_report_inv m seen t i t' :
  tracker_inv m seen t -> Start_report t i = Some t' -> tracker_inv m seen t'.
Proof.
  intros [H1 H2 H3 H4] H. unfold Start_report in H. destruct (reporting t !! i) as [id|] eqn:Ew; [|done].
  cbn [mbind option_bind] in H. injection H as <-. pose proof (delete_perm _ _ _ Ew) as Hp.
  set (t2 := sink _ _). assert (finished t2 = finished t) as Hf by (unfold finished, t2; cbn; by rewrite omap_app, app_nil_r).
  assert (known t2 = known t) as Hk by (unfold known; by rewrite Hf).
  split; [by rewrite Hk|intros x; rewrite Hk; apply H2| |done].
  rewrite Hf. change (live t2) with (live t). change (fins t2) with (fins t). rewrite <- H3. unfold started, reported, t2. cbn.
  rewrite omap_app. cbn. rewrite Hp at 2. solve_Permutation.
Qed.

Lemma finish_inv m seen t i t' :
  tracker_inv m seen t -> finish t i = Some t' -> tracker_inv m seen t'.
Proof.
  intros [H1 H2 H3 H4] H. unfold finish in H. destruct (finishing t !! i) as [[[id st] r]|] eqn:Ef; [|done].
  cbn in H. destruct (sem_take (sem t)) as [s|] eqn:Es; [|done]. cbn in H. injection H as <-.
  match goal with |- tracker_inv _ _ ?x => set (t2 := x) end.
  pose proof (delete_perm _ _ _ Ef) as Hp.
  assert (fins t ≡ₚ id :: fins t2) as Hf by (unfold fins; cbn; by rewrite Hp at 1).
  assert (finished t2 = finished t ++ [id]) as Hfin by (unfold finished; cbn; by rewrite omap_app).
  assert (started t2 = started t) as Hst by (unfold started, reported; cbn; by rewrite omap_app, app_nil_r).
  assert (fins t2 ++ finished t2 ≡ₚ fins t ++ finished t) as Hff by (rewrite Hf, Hfin; solve_Permutation).
  assert (known t2 ≡ₚ known t) as Hk.
  { unfold known. rewrite Hff. done. }
  split.
  - by rewrite Hk.
  - intros x. rewrite Hk. apply H2.
  - rewrite Hst, Hff. exact H3.
  - cbn. unfold sem_take in Es. destruct (sem t) as [[cap [|k]]|]; simplify_eq; [|done].
    destruct H4 as (-> & Hn & ?). split_and!; [done| |lia].
    unfold slots in *. rewrite Hf in Hn. change (live t2) with (live t). cbn in *. lia.
Qed.

Lemma tracker_step_inv m seen t e t' :
  tracker_inv m seen t -> step t e = Some t' ->
  (forall id, e = StartEv id -> id ∉ seen) -> (forall a b c, e <> ReconfigureEv a b c) ->
  tracker_inv m (started_ids [e] ++ seen) t'.
Proof.
  intros Hi H Hfresh Hrc. destruct e; cbn in H |- *.
  - simplify_eq. apply Start_begin_inv; auto.
  - by eapply Start_acquire_inv.
  - by eapply Start_abort_inv.
  - by eapply Start_commit_inv.
  - by eapply Start_report_inv.
  - simplify_eq. by apply NodeEvent_inv.
  - simplify_eq. unfold timeoutExecution. destruct (active t !! id) eqn:E; [|done].
    apply retire_inv; [by eauto|done].
  - simplify_eq. unfold Cancel. destruct (active t !! id) eqn:E; [|done].
    apply retire_inv; [by eauto|done].
  - by eapply finish_inv.
  - by destruct (Hrc maxConcurrency rej tmo).
Qed.

Lemma tracker_run_inv m es : forall seen t t',
  tracker_inv m seen t -> run t es = Some t' -> NoDup (started_ids es) ->
  (forall x, x ∈ started_ids es -> x ∉ seen) -> no_reconfigure es ->
  exists seen', tracker_inv m seen' t'.
Proof.
  induction es as [|e es IH]; intros seen t t' Hi H Hnd Hfresh Hrc; cbn in H; [simplify_eq; by exists seen|].
  destruct (step t e) as [t1|] eqn:E; [|done]. cbn in H.
  apply Forall_cons in Hrc as [He Hrc].
  assert (started_ids (e :: es) = started_ids [e] ++ started_ids es) as Hs
    by (unfold started_ids; cbn; by destruct e).
  rewrite Hs in Hnd, Hfresh. apply NoDup_app in Hnd as (_ & Hdis & Hnd).
  eapply (IH (started_ids [e] ++ seen)); [|exact H|done| |done].
  - eapply tracker_step_inv; [done|done| |].
    + intros id ->. apply Hfresh. by left.
    + intros a b c ->. done.
  - intros x Hx [Hx'|Hx']%elem_of_app; [by eapply Hdis|].
    eapply Hfresh; [|exact Hx']. apply elem_of_app. by right.
Qed.

Lemma NewTracker_inv m r tmo : tracker_inv m [] (NewTracker m r tmo).
Proof.
  split; cbn; [constructor| |done|].
  - intros x Hx. by apply elem_of_nil in Hx.
  - unfold mkSem. destruct (Z.ltb_spec 0 m); [|lia]. split_and!; [done|done|lia].
Qed.

(** [C7] Slots and lifecycles, in every interleaving of [Start], [NodeEvent], timeouts
    and [Cancel] whose execution ids are distinct: at most [maxConcurrency] executions
    hold a slot, releasing a slot never blocks, and every started execution is
    active, finishing, or reported finished, exactly once. *)
Theorem tracker_lifecycle m r tmo es t :
  run (NewTracker m r tmo) es = Some t -> NoDup (started_ids es) -> no_reconfigure es ->
  (0 < m -> Z.of_nat (slots t) <= m) /\
  (forall i, is_Some (finishing t !! i) -> is_Some (finish t i)) /\
  started t ≡ₚ live t ++ fins t ++ finished t /\ NoDup (started t).
Proof.
  intros H Hnd Hrc. destruct (tracker_run_inv m es [] _ _ (NewTracker_inv m r tmo) H Hnd) as [seen [H1 H2 H3 H4]];
    [by intros x _ ?%elem_of_nil|done|]. split_and!.
  - intros Hm. destruct (sem t) as [[cap k]|]; [|lia]. destruct H4 as (-> & -> & ?). done.
  - intros i [[[id st] rs] Hi]. unfold finish. rewrite Hi. cbn. unfold sem_take.
    destruct (sem t) as [[cap [|k]]|]; cbn; [|by eauto..].
    exfalso. destruct H4 as (_ & Hk & _). unfold slots, fins in Hk. rewrite length_map in Hk.
    apply lookup_lt_Some in Hi. lia.
  - done.
  - rewrite H3. unfold known in H1. apply NoDup_app in H1 as (_ & _ & H1).
    by apply NoDup_app in H1 as (_ & _ & H1).
Qed.

(** ** Completion detection *)

(** A node event with its policy outcome; the balance of a sequence of them. *)
Definition weight (x : NodeIO * string) : Z := zlen (Outputs x.1) - 1.
Fixpoint balance (xs : list (NodeIO * string)) : Z :=
  match xs with [] => 0 | x :: xs' => weight x + balance xs' end.
(** The verdict: failed as soon as one event is an error under "fail"; the reason is
    the last such error's message. *)
Definition verdict (acc : bool * string) (x : NodeIO * string) : bool * string :=
  match io_Err x.1 with
  | Some e => if decide (x.2 = "fail") then (true, Message e) else acc
  | None => acc
  end.
Definition feed (inp : Datagram V) (t : Tracker) (x : NodeIO * string) : Tracker :=
  NodeEvent t inp x.1 x.2.

Lemma feed_step inp t st x :
  let id := CorrelationID (header inp) in
  active t !! id = Some st ->
  let v := verdict (failed st, reason st) x in
  let t' := feed inp t x in
  if pending st + weight x <=? 0 then
    active t' !! id = None /\
    finishing t' = finishing t ++ [(id, if v.1 then ExecutionFailed else ExecutionSuccess,
                                    if v.1 then v.2 else "")]
  else active t' !! id = Some (MkExecState (pending st + weight x) v.1 v.2) /\
       finishing t' = finishing t.
Proof.
  intros id Hst. cbv zeta. unfold feed, NodeEvent. fold id. rewrite Hst.
  change (match io_Err x.1 with Some _ => _ | None => _ end) with (verdict (failed st, reason st) x).
  destruct (verdict (failed st, reason st) x) as [fl rs]. fold (weight x).
  destruct (pending st + weight x <=? 0); cbn.
  - by rewrite lookup_delete_eq.
  - by rewrite lookup_insert_eq.
Qed.

(** [C8] An execution completes exactly when its pending count does: fed the events
    of its nodes in an order in which the count stays positive before the last one,
    the tracker keeps it active while the count is positive, and at zero retires it
    once, failed with the last unhandled error's message if there was one. *)
Theorem completion_exact inp xs t st :
  let id := CorrelationID (header inp) in
  active t !! id = Some st -> xs <> [] ->
  (forall pre suf, xs = pre ++ suf -> suf <> [] -> 0 < pending st + balance pre) ->
  let t' := fold_left (feed inp) xs t in
  let v := fold_left verdict xs (failed st, reason st) in
  if pending st + balance xs <=? 0 then
    active t' !! id = None /\
    finishing t' = finishing t ++ [(id, if v.1 then ExecutionFailed else ExecutionSuccess,
                                    if v.1 then v.2 else "")]
  else active t' !! id = Some (MkExecState (pending st + balance xs) v.1 v.2) /\
       finishing t' = finishing t.
Proof.
  intros id. revert t st. induction xs as [|x xs IH]; intros t st Hst Hne Hpre; [done|].
  cbn [fold_left balance]. cbv zeta. pose proof (feed_step inp t st x Hst) as Hs. cbv zeta in Hs. fold id in Hs.
  destruct (decide (xs = [])) as [-> | Hxs].
  - cbn [fold_left balance]. by rewrite Z.add_0_r.
  - assert (0 < pending st + weight x) as Hpos.
    { specialize (Hpre [x] xs eq_refl Hxs). cbn in Hpre. lia. }
    destruct (Z.leb_spec (pending st + weight x) 0); [lia|]. destruct Hs as [Hst' Hfin].
    specialize (IH _ _ Hst' Hxs). cbn [pending failed reason] in IH.
    rewrite Z.add_assoc, <- Hfin. destruct (verdict (failed st, reason st) x) as [fl rs]. apply IH.
    intros pre suf E Hsuf. specialize (Hpre (x :: pre) suf). cbn in Hpre. rewrite E in Hpre.
    specialize (Hpre eq_refl Hsuf). lia.
Qed.
End tracker.

(** ** Witnesses and counterexamples *)

Definition dg (id corr : string) : Datagram nat :=
  MkDatagram (MkHeader id corr "" 0 None noSource "" "" QualityGood 4 None None) (MkPayload 0%nat None) [].
Definition io (node : string) (inp : Datagram nat) (outs : list (Datagram nat)) (err : option NodeError)
  : NodeIO := MkNodeIO node "in" 1 0 0 inp (map (MkPortDatagram "out") outs) err.

Definition seedD : Datagram nat := dg "x" "x".
Definition childD : Datagram nat := dg "y" "x".
Definition oops : NodeError := MkNodeError "boom" "" "b" "" 1.

Definition twoOfThree : list (event (V := nat)) :=
  [StartEv "x"; StartEv "y"; CommitEv 0; StartEv "z"; CommitEv 0; CancelEv "x"; FinishEv 0; AcquireEv 0;
   CommitEv 0].

Lemma tracker_lifecycle_witness : exists t,
  run (NewTracker 2 false 0) twoOfThree = Some t /\ Z.of_nat (slots t) <= 2 /\ finished t = ["x"].
Proof.
  assert (exists t, run (NewTracker 2 false 0) twoOfThree = Some t) as [t Ht]
    by (eexists; vm_compute; reflexivity).
  exists t. split; [exact Ht|].
  destruct (tracker_lifecycle 2 false 0 twoOfThree t Ht) as (H1 & _).
  - apply (bool_decide_eq_true_1 (NoDup _)). vm_compute. reflexivity.
  - repeat constructor.
  - split; [apply H1; lia|]. vm_compute in Ht. injection Ht as <-. vm_compute. reflexivity.
Defined.

Definition oneActive : Tracker (V := nat) :=
  set_maps (NewTracker 0 false 0) {["x" := MkExecState 1 false ""]} ∅.
Definition twoNodes : list (NodeIO (V := nat) * string) :=
  [(io "a" seedD [childD] None, ""); (io "b" childD [] (Some oops), "fail")].

Lemma completion_exact_witness :
  active (fold_left (feed seedD) twoNodes oneActive) !! "x" = None /\
  finishing (fold_left (feed seedD) twoNodes oneActive) = [("x", ExecutionFailed, "boom")].
Proof.
  apply (completion_exact seedD twoNodes oneActive (MkExecState 1 false "")).
  - reflexivity.
  - discriminate.
  - intros pre suf E Hsuf. destruct pre as [|a [|b pre]].
    + vm_compute. reflexivity.
    + cbn in E. injection E as <- <-. vm_compute. reflexivity.
    + cbn in E. injection E as _ _ E. destruct pre, suf; done.
Defined.

(** The pending count takes an output as one datagram however many wires the port
    feeds: with one output fanned out to two nodes, the execution is finished as a
    success when the first of them is done, and the failure of the second is lost. *)
Theorem fanout_finishes_early :
  exists t, run (NewTracker 0 false 0)
    [StartEv "x"; CommitEv 0; ReportEv 0; NodeEv seedD (io "a" seedD [childD] None) "";
     NodeEv childD (io "b" childD [] None) ""; NodeEv childD (io "c" childD [] (Some oops)) "fail";
     FinishEv 0] = Some t /\
    sunk t = [EvStarted "x"; EvNode "x" (io "a" seedD [childD] None);
              EvNode "x" (io "b" childD [] None); EvFinished "x" ExecutionSuccess ""] /\
    finishing t = [] /\ active t = ∅.
Proof. eexists. split; [vm_compute; reflexivity|]. split_and!; vm_compute; reflexivity. Qed.

(** [Idle] does not see a [Start] that holds a slot but is not recorded yet:
    reconfiguring then replaces the semaphore, and when that execution finishes its
    release blocks forever. *)
Theorem reconfigure_loses_slot :
  exists t, run (NewTracker (V := nat) 1 false 0)
    [StartEv "x"; ReconfigureEv 1 false 0; CommitEv 0; CancelEv "x"] = Some t /\
    finishing t = [("x", ExecutionCancelled, "cancelled")] /\ finish t 0 = None.
Proof. eexists. split; [vm_compute; reflexivity|]. split_and!; vm_compute; reflexivity. Qed.
End execution.
