(* ===== verification/Value.v ===== *)
(** * Payload values and what the processing nodes share

    The JSON-like values a payload carries ([any] in the source), paths into them
    ([fieldValue]), numeric coercion ([toFloat]), and the datagrams nodes derive from
    their input. *)

From S2P Require Import Prelude GoStd Float Datagram Execution.
Import gostd float datagram execution.
Local Open Scope Z_scope.

Module value.

(** [AInt]: an [int] or [int64].  [AArr] is a [[]any]; [AFloats] and [ABools] are the typed
    slices [[]float64] and [[]bool] and [AMaps] a [[]map[string]any], which no type assertion to
    [[]any] accepts, and [AStrs] a [map[string]string], which none to [map[string]any] does.  A map is an
    association list with distinct keys; [ADgm] is the datagram an error datagram embeds. *)
Inductive any :=
| ANil
| ABool (b : bool)
| AFloat (f : float64)
| AInt (z : Z)
| AStr (s : string)
| AArr (l : list any)
| AFloats (l : list float64)
| ABools (l : list bool)
| AStrs (m : list (string * string))
| AMaps (l : list (list (string * any)))
| AMap (m : list (string * any))
| ADgm (d : Datagram any).

Abbreviation dgram := (Datagram any).
Abbreviation portDgm := (PortDatagram (V := any)).

(** ** Maps *)

Fixpoint mget (m : list (string * any)) (k : string) : option any :=
  match m with
  | [] => None
  | (k', v) :: m' => if decide (k' = k) then Some v else mget m' k
  end.
Fixpoint mset (m : list (string * any)) (k : string) (v : any) : list (string * any) :=
  match m with
  | [] => [(k, v)]
  | (k', v') :: m' => if decide (k' = k) then (k, v) :: m' else (k', v') :: mset m' k v
  end.

Lemma mget_mset m k v k' : mget (mset m k v) k' = if decide (k' = k) then Some v else mget m k'.
Proof.
  induction m as [|[k0 v0] m IH]; cbn; [repeat case_decide; congruence|].
  destruct (decide (k0 = k)) as [-> |Hne]; cbn.
  - repeat case_decide; congruence.
  - rewrite IH. repeat case_decide; congruence.
Qed.
Lemma mset_keys m k v : NoDup (map fst m) -> NoDup (map fst (mset m k v)).
Proof.
  assert (forall m, map fst (mset m k v) = if decide (k ∈ map fst m) then map fst m else map fst m ++ [k]) as E.
  { clear. intros m. induction m as [|[k0 v0] m IH]; cbn; [done|].
    destruct (decide (k0 = k)) as [-> |Hne]; cbn; [by rewrite decide_True by constructor|].
    rewrite IH. repeat case_decide; rewrite ?elem_of_cons in *; naive_solver. }
  intros H. rewrite E. case_decide; [done|]. apply NoDup_app. split_and!; [done| |apply NoDup_singleton].
  intros x Hx ->%list_elem_of_singleton. done.
Qed.

(** ** Paths *)

(** [strings.Split(path, ".")] *)
Definition dot : Ascii.ascii := Ascii.ascii_of_nat 46.
Fixpoint splitDots (s : string) : list string :=
  match s with
  | EmptyString => [EmptyString]
  | String c s' =>
      if decide (c = dot) then EmptyString :: splitDots s'
      else match splitDots s' with
           | p :: ps => String c p :: ps
           | [] => [String c EmptyString]
           end
  end.
(** One level of [cur = m[key]]; [nil] when [cur] is not an object. *)
Fixpoint walk (cur : any) (keys : list string) : any :=
  match keys with
  | [] => cur
  | k :: ks => match cur with AMap m => walk (default ANil (mget m k)) ks | _ => ANil end
  end.
Definition fieldValue (item : any) (path : string) : any :=
  if decide (path = "") then item else walk item (splitDots path).

Lemma splitDots_nonempty s : splitDots s <> [].
Proof. destruct s; cbn; [done|]. case_decide; [done|]. by destruct (splitDots s). Qed.

(** [applyPath]: set a value at a path, creating the objects on the way. *)
Fixpoint setPath (m : list (string * any)) (keys : list string) (v : any) : list (string * any) :=
  match keys with
  | [] => m
  | [k] => mset m k v
  | k :: ks =>
      let next := match mget m k with Some (AMap m') => m' | _ => [] end in
      mset m k (AMap (setPath next ks v))
  end.
Definition applyPath (root : any) (path : string) (v : any) : any :=
  if decide (path = "") then v
  else AMap (setPath (match root with AMap m => m | _ => [] end) (splitDots path) v).

(** Reading back what was set. *)
Lemma walk_setPath keys v : keys <> [] -> forall m, walk (AMap (setPath m keys v)) keys = v.
Proof.
  induction keys as [|k ks IH]; [done|]. intros _ m. destruct ks as [|k2 ks]; cbn -[decide].
  - by rewrite mget_mset, decide_True.
  - rewrite mget_mset, decide_True by done. cbn -[decide walk setPath]. by apply IH.
Qed.
Lemma fieldValue_applyPath root path v : fieldValue (applyPath root path v) path = v.
Proof.
  unfold fieldValue, applyPath. case_decide; [done|]. apply walk_setPath, splitDots_nonempty.
Qed.

(** [toFloat] *)
Definition toFloat (v : any) : option float64 :=
  match v with
  | AFloat f => Some f
  | AInt z => Some (of_Z z)
  | _ => None
  end.

(** [v.(bool)], false when [v] is no boolean. *)
Definition truth (v : any) : bool := match v with ABool b => b | _ => false end.

(** ** Derived datagrams *)

(** [datagram.NewCaused(in, in.Header.Source, datagram.Payload{Value: v})]. *)
Definition caused (id : string) (now : Z) (inp : dgram) (v : any) : dgram :=
  NewCaused id now inp (source (header inp)) (MkPayload v None).

(** What a node's code returns. *)
Abbreviation nodeResult := (res string (list portDgm)).
End value.
