(* ===== verification/Topics.v ===== *)
(** * Topic broker ([engine/topics])

    MQTT-style matching and the publish/subscribe registry of [broker.go].  The
    broker's theorems are proved against what a subscriber's queue promises
    ([Mailbox]), which [bus.Wire] provides. *)

From S2P Require Import Prelude Bus.
Import bus.
Local Open Scope Z_scope.

Module topics.

(** ** Matching *)

(** [strings.Split(s, "/")] *)
Definition slash : Ascii.ascii := Ascii.ascii_of_nat 47.
Fixpoint Split (s : string) : list string :=
  match s with
  | EmptyString => [EmptyString]
  | String c s' =>
      if decide (c = slash) then EmptyString :: Split s'
      else match Split s' with
           | p :: ps => String c p :: ps
           | [] => [String c EmptyString]
           end
  end.

(** [for i, p := range pParts]; [i] is the loop index. *)
Fixpoint match_loop (i : nat) (pParts tParts : list string) : bool :=
  match pParts with
  | [] => true
  | p :: ps =>
      if decide (p = "#") then true
      else match tParts !! i with
           | None => false
           | Some t => if decide (p <> "+" /\ p <> t) then false else match_loop (S i) ps tParts
           end
  end.
(** Whether the loop returned [true] from inside (a "#" was reached). *)
Fixpoint reached_hash (pParts : list string) : bool :=
  match pParts with [] => false | p :: ps => if decide (p = "#") then true else reached_hash ps end.
Definition matchTopic (pattern topic : string) : bool :=
  let pParts := Split pattern in
  let tParts := Split topic in
  match_loop 0 pParts tParts &&
  (reached_hash pParts || (length pParts =? length tParts)%nat).

Definition tagsMatch (flt tags : gmap string string) : bool :=
  bool_decide (map_Forall (fun k v => default "" (tags !! k) = v) flt).

(** ** The registry *)

Section broker.
Context {W D : Type} `{Mailbox W D} (Clone : D -> D).

Record subscription := MkSub { pattern : string; tags : gmap string string; wire : nat }.

(** Subscriptions by pointer; the wires by address. *)
Record Broker := MkBroker { subs : gmap nat subscription; wires : list W }.
Definition NewBroker : Broker := MkBroker ∅ [].

(** The subscription and its wire are allocated together: one address names both. *)
Definition Subscribe (b : Broker) (pat : string) (flt : gmap string string) (cfg : WireConfig)
  : Broker * nat :=
  let a := length (wires b) in
  (MkBroker (<[a := MkSub pat flt a]> (subs b)) (wires b ++ [mb_new cfg]), a).

(** The returned [cancel] func of the subscription [a]. *)
Definition cancel (b : Broker) (a : nat) : Broker :=
  MkBroker (delete a (subs b)) (alter mb_close a (wires b)).

(** The snapshot [Publish] takes under the lock. *)
Definition sub_matches (topic : string) (tg : gmap string string) (s : subscription) : bool :=
  matchTopic (pattern s) topic && tagsMatch (tags s) tg.
Definition snapshot (b : Broker) (topic : string) (tg : gmap string string) : list subscription :=
  filter (fun s => sub_matches topic tg s = true) (map_to_list (subs b)).*2.

(** [for _, sub := range matches { _, _ = sub.wire.Send(...) }], outside the lock.
    The subscriptions still to serve are returned when a send blocks. *)
Fixpoint deliver (ctxErr : bool) (ws : list W) (ms : list subscription) (d : D)
  : list W * list subscription :=
  match ms with
  | [] => (ws, [])
  | s :: ms' =>
      match ws !! wire s with
      | None => (ws, ms)
      | Some w =>
          let '(w', o) := mb_send ctxErr w (Clone d) in
          let ws := <[wire s := w']> ws in
          match o with SBlock => (ws, ms) | _ => deliver ctxErr ws ms' d end
      end
  end.
Definition Publish (ctxErr : bool) (b : Broker) (topic : string) (tg : gmap string string) (d : D)
  : Broker * list subscription :=
  let '(ws, rest) := deliver ctxErr (wires b) (snapshot b topic tg) d in
  (MkBroker (subs b) ws, rest).

Record broker_ok (b : Broker) : Prop := MkBrokerOk {
  bo_wire : map_Forall (fun a s => wire s = a /\ (a < length (wires b))%nat) (subs b);
  bo_ok : Forall mb_ok (wires b)
}.
End broker.

(** ** Matching: specification *)

Inductive matches : list string -> list string -> Prop :=
| m_end : matches [] []
| m_hash ps ts : matches ("#" :: ps) ts
| m_plus t ps ts : matches ps ts -> matches ("+" :: ps) (t :: ts)
| m_level p ps ts : p <> "#" -> matches ps ts -> matches (p :: ps) (p :: ts).

Lemma match_loop_spec i pParts tParts :
  (match_loop i pParts tParts = true /\
   (reached_hash pParts = true \/ length pParts = length (drop i tParts))) <->
  matches pParts (drop i tParts).
Proof.
  revert i. induction pParts as [|p ps IH]; intros i; cbn.
  - split.
    + intros [_ [|Hl]]; [done|]. destruct (drop i tParts); [constructor|done].
    + intros Hm. inversion Hm. auto.
  - destruct (decide (p = "#")) as [-> | Hp].
    + split; [constructor|auto].
    + destruct (tParts !! i) as [t|] eqn:Ei.
      * rewrite (drop_S tParts t i Ei). cbn. rewrite <- Nat.succ_inj_wd. destruct (decide (p <> "+" /\ p <> t)) as [Hn|Hn].
        -- split; [by intros []|]. intros Hm. inversion Hm; naive_solver.
        -- specialize (IH (S i)). split.
           ++ intros [Hl Hr]. assert (matches ps (drop (S i) tParts)) as Hm by (apply IH; naive_solver).
              destruct (decide (p = "+")) as [-> | Hne]; [by constructor|].
              assert (p = t) as -> by (destruct (decide (p = t)); naive_solver). by constructor.
           ++ intros Hm. assert (matches ps (drop (S i) tParts)) as Hm' by (inversion Hm; naive_solver).
              apply IH in Hm'. naive_solver.
      * rewrite (drop_ge tParts i) by by apply lookup_ge_None. split; [by intros []|].
        intros Hm. inversion Hm; naive_solver.
Qed.

(** A topic is its levels joined with "/". *)
Fixpoint Join (l : list string) : string :=
  match l with
  | [] => ""
  | [p] => p
  | p :: l' => p +:+ String slash (Join l')
  end.

Lemma Split_Join s : Join (Split s) = s.
Proof.
  induction s as [|c s IH]; [done|]. cbn [Split]. destruct (decide (c = slash)) as [-> | Hc].
  - destruct (Split s) as [|p ps] eqn:E; [by destruct s; cbn in E; repeat case_match|].
    rewrite <- IH. done.
  - destruct (Split s) as [|p ps]; [by rewrite <- IH|]. rewrite <- IH. by destruct ps.
Qed.

(** Topic matching: a pattern matches a topic exactly when, level by level, "+"
    stands for one level, "#" for all the remaining ones (none included), and any
    other level for itself; and the levels of a topic determine it. *)
Theorem matchTopic_spec pat topic :
  (matchTopic pat topic = true <-> matches (Split pat) (Split topic)) /\ Join (Split topic) = topic.
Proof.
  split; [|apply Split_Join]. unfold matchTopic. rewrite andb_true_iff, orb_true_iff, Nat.eqb_eq.
  apply (match_loop_spec 0 (Split pat) (Split topic)).
Qed.

Lemma tagsMatch_spec flt tg :
  tagsMatch flt tg = true <-> forall k v, flt !! k = Some v -> default "" (tg !! k) = v.
Proof. apply bool_decide_eq_true. Qed.

(** ** The registry *)

Section broker_props.
Context {W D : Type} `{Mailbox W D} (Clone : D -> D).

Lemma Subscribe_ok b pat flt cfg : broker_ok b -> broker_ok (fst (Subscribe b pat flt cfg)).
Proof.
  intros [Hw Hk]. split; cbn.
  - apply map_Forall_insert_2; [rewrite length_app; cbn; split; [done|lia]|].
    eapply map_Forall_impl; [exact Hw|]. intros a s [Ha Hl]. rewrite length_app. split; [done|lia].
  - apply Forall_app. split; [done|]. apply Forall_singleton, mb_new_ok.
Qed.
Lemma cancel_ok b a : broker_ok b -> broker_ok (cancel b a).
Proof.
  intros [Hw Hk]. split; cbn.
  - rewrite length_alter. by apply map_Forall_delete.
  - apply Forall_alter; [done|]. intros w Ha Hm. by apply mb_close_ok.
Qed.

Lemma deliver_all ctxErr ms d : forall ws ws',
  NoDup (map wire ms) -> deliver Clone ctxErr ws ms d = (ws', []) ->
  forall a w, ws !! a = Some w ->
    ws' !! a = Some (if decide (a ∈ map wire ms) then fst (mb_send ctxErr w (Clone d)) else w).
Proof.
  induction ms as [|s ms IH]; intros ws ws' Hnd Hd a w Ha; cbn in Hd |- *.
  - simplify_eq. by rewrite decide_False by (by intros ?%elem_of_nil).
  - apply NoDup_cons in Hnd as [Hs Hnd].
    destruct (ws !! wire s) as [w0|] eqn:Ew; [|done].
    destruct (mb_send ctxErr w0 (Clone d)) as [w1 o] eqn:Es.
    assert (deliver Clone ctxErr (<[wire s := w1]> ws) ms d = (ws', [])) as Hd' by (by destruct o).
    destruct (decide (a = wire s)) as [-> | Hne].
    + rewrite (IH _ _ Hnd Hd' _ w1) by (rewrite list_lookup_insert_eq; [done|by eapply lookup_lt_Some]).
      rewrite decide_False by done. rewrite decide_True by by left. simplify_eq. by rewrite Es.
    + rewrite (IH _ _ Hnd Hd' _ w) by by rewrite list_lookup_insert_ne.
      f_equal. destruct (decide (a ∈ map wire ms)) as [Hi|Hi].
      * by rewrite decide_True by by right.
      * by rewrite decide_False by (by intros [?|?]%elem_of_cons).
Qed.

Lemma snapshot_wire b topic tg : broker_ok b -> NoDup (map wire (snapshot b topic tg)).
Proof.
  intros [Hw _]. unfold snapshot.
  assert (forall l, (forall a s, (a, s) ∈ l -> wire s = a) -> NoDup l.*1 ->
    NoDup (map wire (filter (fun s => sub_matches topic tg s = true) l.*2))) as Hg.
  { induction l as [|[a s] l IH]; intros Hl Hnd; cbn; [constructor|]. cbn in Hnd.
    apply NoDup_cons in Hnd as [Ha Hnd].
    assert (NoDup (map wire (filter (fun s => sub_matches topic tg s = true) l.*2))) as IH'
      by (apply IH; [intros a' s' Hin; apply Hl; by right|done]).
    destruct (decide (sub_matches topic tg s = true)); [|done]. cbn. constructor; [|done].
    rewrite (Hl a s) by by left. intros (s' & E & Hs')%list_elem_of_fmap.
    apply list_elem_of_filter in Hs' as [_ Hs']. apply list_elem_of_fmap in Hs' as ([a' s2] & -> & Hin).
    apply Ha. apply list_elem_of_fmap. exists (a', s2). split; [|done]. cbn in *.
    rewrite E. apply Hl. by right. }
  apply Hg; [|apply NoDup_fst_map_to_list].
  intros a s Hin%elem_of_map_to_list. by apply (Hw a s Hin).
Qed.

Lemma snapshot_elem b topic tg a s : broker_ok b -> subs b !! a = Some s ->
  a ∈ map wire (snapshot b topic tg) <-> sub_matches topic tg s = true.
Proof.
  intros [Hw _] Ha. unfold snapshot. rewrite list_elem_of_fmap. split.
  - intros (s' & E & Hs'). apply list_elem_of_filter in Hs' as [Hm Hs'].
    apply list_elem_of_fmap in Hs' as ([a' s2] & -> & Hin). apply elem_of_map_to_list in Hin.
    destruct (Hw a' s2 Hin) as [E' _]. cbn in *. congruence.
  - intros Hm. exists s. split; [by rewrite (proj1 (Hw a s Ha))|]. apply list_elem_of_filter. split; [done|].
    apply list_elem_of_fmap. exists (a, s). split; [done|]. by apply elem_of_map_to_list.
Qed.

(** A publish that is not blocked offers its own copy exactly once to every
    subscriber whose pattern and tag filter match, by that subscriber's own queue
    policy, where an accepted copy is the newest entry; no other queue is touched. *)
Theorem Publish_delivers ctxErr b topic tg d b' a s w :
  broker_ok b -> Publish Clone ctxErr b topic tg d = (b', []) ->
  subs b !! a = Some s -> wires b !! a = Some w ->
  exists w', wires b' !! a = Some w' /\ subs b' = subs b /\
    if matchTopic (pattern s) topic && tagsMatch (tags s) tg then
      exists o, mb_send ctxErr w (Clone d) = (w', o) /\
        (o = SDelivered -> last (mb_queue w') = Some (Clone d)) /\
        (o <> SDelivered -> mb_queue w' = mb_queue w)
    else w' = w.
Proof.
  intros Hb Hp Hs Hw. unfold Publish in Hp.
  destruct (deliver Clone ctxErr (wires b) (snapshot b topic tg) d) as [ws rest] eqn:Ed. simplify_eq. cbn.
  pose proof (deliver_all _ _ _ _ _ (snapshot_wire b topic tg Hb) Ed a w Hw) as Ha.
  eexists. split; [exact Ha|]. split; [done|]. fold (sub_matches topic tg s).
  pose proof (snapshot_elem b topic tg a s Hb Hs) as Hin.
  assert (mb_ok w) as Hok by (eapply Forall_lookup_1; [apply Hb|exact Hw]).
  destruct (sub_matches topic tg s).
  - rewrite decide_True by by apply Hin.
    destruct (mb_send ctxErr w (Clone d)) as [w' o] eqn:E. cbn [fst]. exists o. split_and!; [done| |].
    + intros ->. destruct (mb_delivered _ _ _ _ Hok E) as [k ->]. by rewrite last_snoc.
    + intros Ho. by eapply mb_refused.
  - rewrite decide_False; [done|]. intros ?%Hin. done.
Qed.
End broker_props.

Lemma Send_nonblocking {D} (zeroD : D) ctxErr w d w' o :
  Overflow (cfg w) <> OverflowBlock -> Send zeroD ctxErr w d = (w', o) ->
  o <> SBlock /\ cfg w' = cfg w.
Proof.
  intros Hp E. unfold Send, sendPush in E. repeat (case_match; simplify_eq; try done).
Qed.

(** A slow subscriber never blocks a publisher when its queue has a
    non-blocking policy: with such queues every publish serves all its matches. *)
Theorem Publish_never_blocks {D} (zeroD : D) (Clone : D -> D) ctxErr
    (b : Broker (W := Wire (D := D))) topic tg d :
  broker_ok (H := wire_mailbox zeroD) b -> (forall w, w ∈ wires b -> Overflow (cfg w) <> OverflowBlock) ->
  snd (Publish (H := wire_mailbox zeroD) Clone ctxErr b topic tg d) = [].
Proof.
  intros Hb Hnb. unfold Publish.
  assert (forall ms ws, Forall (fun s => (wire s < length ws)%nat) ms ->
    (forall w, w ∈ ws -> Overflow (cfg w) <> OverflowBlock) ->
    snd (deliver (H := wire_mailbox zeroD) Clone ctxErr ws ms d) = []) as Hg.
  { induction ms as [|s ms IH]; intros ws Hms Hws; cbn; [done|].
    apply Forall_cons in Hms as [Hs Hms]. destruct (lookup_lt_is_Some_2 ws (wire s) Hs) as [w Hw]. rewrite Hw.
    destruct (Send zeroD ctxErr w (Clone d)) as [w' o] eqn:E.
    destruct (Send_nonblocking zeroD _ _ _ _ _ (Hws w ltac:(by eapply list_elem_of_lookup_2)) E) as [Ho Hc].
    assert (snd (deliver (H := wire_mailbox zeroD) Clone ctxErr (<[wire s := w']> ws) ms d) = []) as Hd.
    { apply IH; [by rewrite length_insert|]. intros x [i Hi]%list_elem_of_lookup.
      apply list_lookup_insert_Some in Hi as [(_ & -> & _) | [_ Hi]].
      - rewrite Hc. apply Hws. by eapply list_elem_of_lookup_2.
      - apply Hws. by eapply list_elem_of_lookup_2. }
    by destruct o. }
  specialize (Hg (snapshot b topic tg) (wires b)).
  destruct (deliver (H := wire_mailbox zeroD) Clone ctxErr (wires b) (snapshot b topic tg) d) as [ws rest]. cbn in *.
  apply Hg; [|done]. apply Forall_forall. intros s Hs. unfold snapshot in Hs.
  apply list_elem_of_filter in Hs as [_ Hs]. apply list_elem_of_fmap in Hs as ([a s'] & -> & Hin).
  apply elem_of_map_to_list in Hin. destruct Hb as [Hw _]. destruct (Hw a s' Hin) as [<- Hl]. done.
Qed.

(** ** Witnesses *)

Definition demoBroker : Broker (W := Wire (D := nat)) :=
  let '(b, _) := Subscribe (H := wire_mailbox 0%nat) NewBroker "plant/+/temp" ∅
                   (MkWireConfig 2 OverflowDropOldest 0) in
  fst (Subscribe (H := wire_mailbox 0%nat) b "plant/#" {["site" := "a"]}
         (MkWireConfig 1 OverflowDropNewest 0)).
Lemma demoBroker_ok : broker_ok (H := wire_mailbox 0%nat) demoBroker.
Proof.
  apply Subscribe_ok, (Subscribe_ok (H := wire_mailbox 0%nat)).
  split; [apply map_Forall_empty|constructor].
Qed.

Lemma Publish_delivers_witness :
  exists b' w', Publish (H := wire_mailbox 0%nat) (fun x => x) false demoBroker "plant/line1/temp" ∅ 7%nat
    = (b', []) /\ wires b' !! 0%nat = Some w' /\ last (queue 0%nat w') = Some 7%nat.
Proof.
  destruct (Publish (H := wire_mailbox 0%nat) (fun x => x) false demoBroker "plant/line1/temp" ∅ 7%nat)
    as [b' rest] eqn:E.
  assert (rest = []) as -> by (vm_compute in E; congruence).
  destruct (Publish_delivers (H := wire_mailbox 0%nat) (fun x => x) false demoBroker "plant/line1/temp" ∅ 7%nat
    b' 0 (MkSub "plant/+/temp" ∅ 0) (NewWire 0%nat (MkWireConfig 2 OverflowDropOldest 0)) demoBroker_ok E)
    as (w' & Hw & _ & Hd); [vm_compute; reflexivity..|].
  cbn -[matchTopic tagsMatch mb_send queue] in Hd. destruct Hd as (o & Ho & Hd & _).
  exists b', w'. split; [reflexivity|]. split; [exact Hw|]. apply Hd.
  vm_compute in Ho. congruence.
Defined.

Lemma Publish_never_blocks_witness :
  snd (Publish (H := wire_mailbox 0%nat) (fun x => x) false demoBroker "plant/line1/temp" ∅ 7%nat) = [].
Proof.
  apply Publish_never_blocks; [exact demoBroker_ok|].
  intros w Hw. vm_compute in Hw.
  apply elem_of_cons in Hw as [-> | Hw]; [discriminate|].
  apply elem_of_cons in Hw as [-> | Hw]; [discriminate|]. by apply elem_of_nil in Hw.
Defined.
End topics.
