(* ===== verification/FlowFile.v ===== *)
(** * Flow files, node types and validation ([engine/flow/file.go], [registry.go],
      [validate.go])

    The flow document, the node-type registry, and [Validate] with the predicate
    it decides.  A node's config is raw JSON (a string here); the JSON Schema
    check (a third-party validator) is a parameter; a factory is what a node
    package registers. *)

From S2P Require Import Prelude.
Local Open Scope Z_scope.

Module flowfile.

(** ** The document *)

Record RuntimeAssignment := MkRuntimeAssignment { ra_Group : string }.
Record Settings := MkSettings {
  ErrorFlow : string; GuaranteedDelivery : bool; MaxConcurrency : option Z;
  ConcurrencyPolicy : string; ExecutionTimeoutMs : option Z
}.
Record RetryPolicy := MkRetryPolicy { Max : Z; BackoffMs : Z; MaxBackoffMs : Z; Jitter : bool }.
Record StoreForwardPolicy := MkStoreForwardPolicy { MaxSizeMb : Z; MaxAgeSec : Z }.
Record ErrorPolicy := MkErrorPolicy {
  OnError : string; Retry : option RetryPolicy; StoreForward : option StoreForwardPolicy
}.
Record Node := MkNode {
  ID : string; Type_ : string; TypeVersion : Z; Name : string; Disabled : bool;
  Connection : string; Config : string; errorPolicy : option ErrorPolicy; Overflow : string
}.
Record Endpoint := MkEndpoint { ep_Node : string; ep_Port : string }.
Record Wire := MkWire { w_ID : string; From : Endpoint; To : Endpoint }.
Record Graph := MkGraph { Nodes : list Node; Wires : list Wire }.
(** A default is any JSON value, as its text; [None] is nil. *)
Record EnvVar := MkEnvVar { ev_Name : string; ev_Type : string; ev_Default : option string }.
(** Coordinates are float64 values, by their bits. *)
Record NodePosition := MkNodePosition { np_X : Z; np_Y : Z }.
Record Group := MkGroup { g_ID : string; g_Label : string; g_Nodes : list string; g_Color : string }.
Record Note := MkNote { note_ID : string; note_X : Z; note_Y : Z; note_Md : string }.
Record Layout := MkLayout { l_Nodes : gmap string NodePosition; l_Groups : list Group; l_Notes : list Note }.
Record Port := MkPort { po_Port : string; po_Description : string }.
Record SubflowParam := MkSubflowParam { pa_Name : string; pa_Type : string; pa_Default : option string; pa_ConnectionType : string }.
Record SubflowInterface := MkSubflowInterface { si_Inputs : list Port; si_Outputs : list Port; si_Params : list SubflowParam }.
Record FlowFile := MkFlowFile {
  FormatVersion : Z; Kind : string; ff_ID : string; ff_Name : string; Description : string;
  Mode : string; ff_Disabled : bool; runtimeAssignment : option RuntimeAssignment;
  settings : Settings; Env : list EnvVar; graph : Graph; layout : option Layout; interface : option SubflowInterface
}.
Definition ModeStreaming := "streaming".
Definition ModeTriggered := "triggered".

#[global] Instance Endpoint_eq_dec : EqDecision Endpoint.
Proof. solve_decision. Defined.
#[global] Instance Wire_eq_dec : EqDecision Wire.
Proof. solve_decision. Defined.
#[global] Instance RetryPolicy_eq_dec : EqDecision RetryPolicy.
Proof. solve_decision. Defined.
#[global] Instance StoreForwardPolicy_eq_dec : EqDecision StoreForwardPolicy.
Proof. solve_decision. Defined.
#[global] Instance ErrorPolicy_eq_dec : EqDecision ErrorPolicy.
Proof. solve_decision. Defined.
#[global] Instance Node_eq_dec : EqDecision Node.
Proof. solve_decision. Defined.
#[global] Instance EnvVar_eq_dec : EqDecision EnvVar.
Proof. solve_decision. Defined.
#[global] Instance RuntimeAssignment_eq_dec : EqDecision RuntimeAssignment.
Proof. solve_decision. Defined.
#[global] Instance Settings_eq_dec : EqDecision Settings.
Proof. solve_decision. Defined.
#[global] Instance Graph_eq_dec : EqDecision Graph.
Proof. solve_decision. Defined.
#[global] Instance NodePosition_eq_dec : EqDecision NodePosition.
Proof. solve_decision. Defined.
#[global] Instance Group_eq_dec : EqDecision Group.
Proof. solve_decision. Defined.
#[global] Instance Note_eq_dec : EqDecision Note.
Proof. solve_decision. Defined.
#[global] Instance Layout_eq_dec : EqDecision Layout.
Proof. solve_decision. Defined.
#[global] Instance Port_eq_dec : EqDecision Port.
Proof. solve_decision. Defined.
#[global] Instance SubflowParam_eq_dec : EqDecision SubflowParam.
Proof. solve_decision. Defined.
#[global] Instance SubflowInterface_eq_dec : EqDecision SubflowInterface.
Proof. solve_decision. Defined.
#[global] Instance FlowFile_eq_dec : EqDecision FlowFile.
Proof. solve_decision. Defined.

(** ** Registry *)

Inductive NodeKind := KindSource | KindProcessor.
Record NodeTypeInfo := MkNodeTypeInfo {
  nt_Kind : NodeKind; Inputs : list string; nt_Outputs : list string; Trigger : bool;
  DisplayName : string; Category : string; nt_Description : string; ConfigSchema : string
}.

(** What a factory returns: the interfaces the instance implements, and its
    [OutputPorts()] when it is a [DynamicOutputs]. *)
Record Instance_ := MkInstance {
  isSource : bool; isProcessor : bool; isMulti : bool; dynOutputs : option (list string)
}.
Definition Factory := string -> res string Instance_.

Record registration := MkRegistration { info : NodeTypeInfo; factory : Factory }.
Abbreviation Registry := (gmap string registration).

(** Panics on a duplicate. *)
Definition Register (reg : Registry) (typeName : string) (i : NodeTypeInfo) (f : Factory)
  : res string Registry :=
  match reg !! typeName with
  | Some _ => Panic
  | None => Ok (<[typeName := MkRegistration i f]> reg)
  end.
Definition Lookup (reg : Registry) (typeName : string) : option (NodeTypeInfo * Factory) :=
  r ← reg !! typeName; Some (info r, factory r).

(** ** Validate *)

Inductive Problem :=
| PDuplicateNode (id : string)
| PUnknownType (id ty : string)
| PSchema (id : string)
| PInvalidConfig (id : string)
| PWireNoID
| PDuplicateWire (id : string)
| PNoNode (wire side node : string)
| PNoPort (wire side port node : string)
| PModeRequired
| PMixedEntry
| PSourceMode
| PTriggerMode
| PNoTrigger.

Definition containsString (haystack : list string) (needle : string) : bool :=
  existsb (fun s => bool_decide (s = needle)) haystack.

Section validate.
Context (reg : Registry).
(** [schema.Validate] of a compiled schema against a config document. *)
Context (schemaValid : string -> string -> bool).

Definition validateConfigSchema (schemaJSON config : string) : bool :=
  if decide (schemaJSON = "") then true
  else schemaValid schemaJSON (if decide (config = "") then "{}" else config).

(** First loop: [nodeByID]. *)
Definition indexNode (acc : list Problem * gmap string Node) (n : Node) : list Problem * gmap string Node :=
  let '(ps, m) := acc in
  match m !! ID n with
  | Some _ => (ps ++ [PDuplicateNode (ID n)], m)
  | None => (ps, <[ID n := n]> m)
  end.

(** Second loop: node types and configs. *)
Record NodePass := MkNodePass {
  np_problems : list Problem; hasSource : bool; hasTrigger : bool;
  nodeInfo : gmap string NodeTypeInfo; nodeOutputs : gmap string (list string)
}.
Definition checkNode (s : NodePass) (n : Node) : NodePass :=
  match Lookup reg (Type_ n) with
  | None => MkNodePass (np_problems s ++ [PUnknownType (ID n) (Type_ n)]) (hasSource s) (hasTrigger s)
              (nodeInfo s) (nodeOutputs s)
  | Some (i, fac) =>
      let infos := <[ID n := i]> (nodeInfo s) in
      let src := match nt_Kind i with KindSource => negb (Trigger i) | _ => false end in
      let trg := match nt_Kind i with KindSource => Trigger i | _ => false end in
      let hs := hasSource s || src in
      let ht := hasTrigger s || trg in
      if negb (validateConfigSchema (ConfigSchema i) (Config n)) then
        MkNodePass (np_problems s ++ [PSchema (ID n)]) hs ht infos
          (<[ID n := nt_Outputs i]> (nodeOutputs s))
      else
        let '(ps, outs) :=
          match fac (Config n) with
          | Ok inst => ([], default (nt_Outputs i) (dynOutputs inst))
          | _ => ([PInvalidConfig (ID n)], nt_Outputs i)
          end in
        MkNodePass (np_problems s ++ ps) hs ht infos (<[ID n := outs]> (nodeOutputs s))
  end.

Definition outputPortExists (outputs : list string) (n : option Node) (port : string) : bool :=
  containsString outputs port ||
  (bool_decide (port = "error") &&
   match n with
   | Some n => match errorPolicy n with Some p => bool_decide (OnError p = "errorPort") | None => false end
   | None => false
   end).

Definition validateEndpoint (wireID side : string) (ep : Endpoint) (nodeByID : gmap string Node)
    (infos : gmap string NodeTypeInfo) (portOK : NodeTypeInfo -> string -> bool) : list Problem :=
  match nodeByID !! ep_Node ep with
  | None => [PNoNode wireID side (ep_Node ep)]
  | Some _ =>
      match infos !! ep_Node ep with
      | None => []
      | Some i => if portOK i (ep_Port ep) then []
                  else [PNoPort wireID side (ep_Port ep) (ep_Node ep)]
      end
  end.

(** Third loop: wires. *)
Definition checkWire (nodeByID : gmap string Node) (np : NodePass)
    (acc : list Problem * gset string) (w : Wire) : list Problem * gset string :=
  let '(ps, ids) := acc in
  let p1 := if decide (w_ID w = "") then [PWireNoID]
            else if decide (w_ID w ∈ ids) then [PDuplicateWire (w_ID w)] else [] in
  let p2 := validateEndpoint (w_ID w) "from" (From w) nodeByID (nodeInfo np)
              (fun _ port => outputPortExists (default [] (nodeOutputs np !! ep_Node (From w)))
                               (nodeByID !! ep_Node (From w)) port) in
  let p3 := validateEndpoint (w_ID w) "to" (To w) nodeByID (nodeInfo np)
              (fun i port => containsString (Inputs i) port) in
  (ps ++ p1 ++ p2 ++ p3, {[w_ID w]} ∪ ids).

Definition checkMode (mode : string) (hs ht : bool) : list Problem :=
  if decide (mode = "") then [PModeRequired]
  else if hs && ht then [PMixedEntry]
  else if hs && bool_decide (mode <> ModeStreaming) then [PSourceMode]
  else if ht && bool_decide (mode <> ModeTriggered) then [PTriggerMode]
  else if bool_decide (mode = ModeTriggered) && negb ht then [PNoTrigger]
  else [].

(** The problems found, in order; [nil] is [Validate]'s nil error. *)
Definition Validate (f : FlowFile) : list Problem :=
  let '(p1, nodeByID) := fold_left indexNode (Nodes (graph f)) ([], ∅) in
  let np := fold_left checkNode (Nodes (graph f)) (MkNodePass [] false false ∅ ∅) in
  let '(p3, _) := fold_left (checkWire nodeByID np) (Wires (graph f)) ([], ∅) in
  p1 ++ np_problems np ++ p3 ++ checkMode (Mode f) (hasSource np) (hasTrigger np).

(** ** What a valid flow is *)

Definition info_of (n : Node) : option NodeTypeInfo := fst <$> Lookup reg (Type_ n).
Definition node_ok (n : Node) : Prop := exists i fac inst,
  Lookup reg (Type_ n) = Some (i, fac) /\ validateConfigSchema (ConfigSchema i) (Config n) = true /\
  fac (Config n) = Ok inst.
(** The ports an instance of the node can emit on. *)
Definition outputs_of (n : Node) : list string :=
  match Lookup reg (Type_ n) with
  | Some (i, fac) => match fac (Config n) with
                     | Ok inst => default (nt_Outputs i) (dynOutputs inst)
                     | _ => nt_Outputs i
                     end
  | None => []
  end.
Definition is_source (n : Node) : bool :=
  match info_of n with
  | Some i => match nt_Kind i with KindSource => negb (Trigger i) | _ => false end
  | None => false
  end.
Definition is_trigger (n : Node) : bool :=
  match info_of n with
  | Some i => match nt_Kind i with KindSource => Trigger i | _ => false end
  | None => false
  end.

Definition error_port_of (n : Node) : Prop :=
  exists p, errorPolicy n = Some p /\ OnError p = "errorPort".
Definition from_ok (ns : list Node) (ep : Endpoint) : Prop :=
  exists n, n ∈ ns /\ ID n = ep_Node ep /\
    (ep_Port ep ∈ outputs_of n \/ ep_Port ep = "error" /\ error_port_of n).
Definition to_ok (ns : list Node) (ep : Endpoint) : Prop :=
  exists n i, n ∈ ns /\ ID n = ep_Node ep /\ info_of n = Some i /\ ep_Port ep ∈ Inputs i.

(** ENG-100: the mode agrees with the entry nodes. *)
Definition mode_ok (mode : string) (hs ht : bool) : Prop :=
  mode <> "" /\ ~ (hs = true /\ ht = true) /\ (hs = true -> mode = ModeStreaming) /\
  (ht = true <-> mode = ModeTriggered).

Record well_formed (f : FlowFile) : Prop := MkWellFormed {
  wf_ids : NoDup (map ID (Nodes (graph f)));
  wf_nodes : Forall node_ok (Nodes (graph f));
  wf_wire_ids : NoDup (map w_ID (Wires (graph f))) /\ Forall (fun w => w_ID w <> "") (Wires (graph f));
  wf_from : Forall (fun w => from_ok (Nodes (graph f)) (From w)) (Wires (graph f));
  wf_to : Forall (fun w => to_ok (Nodes (graph f)) (To w)) (Wires (graph f));
  wf_mode : mode_ok (Mode f) (existsb is_source (Nodes (graph f))) (existsb is_trigger (Nodes (graph f)))
}.

(** ** Loop lemmas *)

Lemma containsString_spec l s : containsString l s = true <-> s ∈ l.
Proof.
  unfold containsString. rewrite existsb_exists. split.
  - intros (x & Hx & E%bool_decide_eq_true). subst. by apply list_elem_of_In.
  - intros Hs. exists s. split; [by apply list_elem_of_In|]. by apply bool_decide_eq_true.
Qed.

Lemma index_spec ns : forall ps m,
  let '(ps', m') := fold_left indexNode ns (ps, m) in
  (ps' = [] <-> ps = [] /\ NoDup (map ID ns) /\ forall n, n ∈ ns -> m !! ID n = None) /\
  (ps' = [] -> forall id n, m' !! id = Some n <-> m !! id = Some n \/ (n ∈ ns /\ ID n = id)).
Proof.
  induction ns as [|x ns IH]; intros ps m; cbn.
  - split.
    + split; [|by intros []]. intros ->. split_and!; [done|constructor|by intros n ?%elem_of_nil].
    + intros _ id n. split; [auto|]. intros [?|[?%elem_of_nil _]]; done.
  - destruct (m !! ID x) as [y|] eqn:E.
    + specialize (IH (ps ++ [PDuplicateNode (ID x)]) m).
      destruct (fold_left indexNode ns _) as [ps' m']. destruct IH as [IH1 IH2].
      assert (ps' <> []) as Hne by (intros ->; destruct IH1 as [IH1 _]; destruct (IH1 eq_refl) as [H _]; by destruct ps).
      split; [|done]. split; [done|]. intros (_ & _ & Hf). specialize (Hf x ltac:(by left)). congruence.
    + specialize (IH ps (<[ID x := x]> m)).
      destruct (fold_left indexNode ns _) as [ps' m']. destruct IH as [IH1 IH2]. split.
      * rewrite IH1. split.
        -- intros (-> & Hnd & Hf). split_and!; [done| |].
           ++ constructor; [|done]. intros (n & En & Hn)%list_elem_of_fmap.
              specialize (Hf n Hn). by rewrite <- En, lookup_insert_eq in Hf.
           ++ intros n [-> | Hn]%elem_of_cons; [done|]. specialize (Hf n Hn).
              by apply lookup_insert_None in Hf as [].
        -- intros (-> & [Hx Hnd]%NoDup_cons & Hf). split_and!; [done..|].
           intros n Hn. rewrite lookup_insert_ne; [apply Hf; by right|].
           intros En. apply Hx. rewrite En. by apply (list_elem_of_fmap_2 ID).
      * intros Hp id n. rewrite (IH2 Hp), lookup_insert_Some, elem_of_cons.
        apply IH1 in Hp as (_ & _ & Hf). naive_solver.
Qed.

Lemma checkNode_fields s n :
  (np_problems (checkNode s n) = [] <-> np_problems s = [] /\ node_ok n) /\
  hasSource (checkNode s n) = hasSource s || is_source n /\
  hasTrigger (checkNode s n) = hasTrigger s || is_trigger n /\
  (node_ok n -> exists i, info_of n = Some i /\ nodeInfo (checkNode s n) = <[ID n := i]> (nodeInfo s) /\
     nodeOutputs (checkNode s n) = <[ID n := outputs_of n]> (nodeOutputs s)).
Proof.
  unfold checkNode, is_source, is_trigger, info_of, outputs_of, node_ok.
  destruct (Lookup reg (Type_ n)) as [[i fac]|] eqn:E; cbn.
  - destruct (validateConfigSchema (ConfigSchema i) (Config n)) eqn:Ev; cbn.
    + destruct (fac (Config n)) as [inst| |] eqn:Ef; cbn; rewrite ?app_nil_r.
      * split_and!; try done; [split; [eauto 10|by intros []]|by eauto].
      * split_and!; try done; [|intros (i' & f' & inst' & ? & ? & ?); congruence].
        split; [by intros [_ ?]%app_eq_nil|intros (_ & i' & f' & inst' & ? & ? & ?); congruence].
      * split_and!; try done; [|intros (i' & f' & inst' & ? & ? & ?); congruence].
        split; [by intros [_ ?]%app_eq_nil|intros (_ & i' & f' & inst' & ? & ? & ?); congruence].
    + split_and!; try done; [|intros (i' & f' & inst' & ? & ? & ?); congruence].
      split; [by intros [_ ?]%app_eq_nil|intros (_ & i' & f' & inst' & ? & ? & ?); congruence].
  - rewrite !orb_false_r. split_and!; try done; [|intros (i' & f' & inst' & ? & ? & ?); congruence].
    split; [by intros [_ ?]%app_eq_nil|intros (_ & i' & f' & inst' & ? & ? & ?); congruence].
Qed.

Lemma nodes_spec ns : forall s,
  let s' := fold_left checkNode ns s in
  (np_problems s' = [] <-> np_problems s = [] /\ Forall node_ok ns) /\
  hasSource s' = hasSource s || existsb is_source ns /\
  hasTrigger s' = hasTrigger s || existsb is_trigger ns /\
  (Forall node_ok ns -> NoDup (map ID ns) -> forall n, n ∈ ns ->
     nodeInfo s' !! ID n = info_of n /\ nodeOutputs s' !! ID n = Some (outputs_of n)) /\
  (Forall node_ok ns -> forall id, (forall n, n ∈ ns -> ID n <> id) ->
     nodeInfo s' !! id = nodeInfo s !! id /\ nodeOutputs s' !! id = nodeOutputs s !! id).
Proof.
  induction ns as [|x ns IH]; intros s; cbn -[checkNode].
  - rewrite !orb_false_r. split_and!; try done; [split; [done|by intros []]|].
    intros _ _ n ?%elem_of_nil. done.
  - destruct (IH (checkNode s x)) as (H1 & H2 & H3 & H4 & H5).
    destruct (checkNode_fields s x) as (G1 & G2 & G3 & G4).
    rewrite H1, G1, H2, G2, H3, G3, <- !orb_assoc, Forall_cons. split_and!; [naive_solver|done|done|..].
    + intros [Hx Hns] [Hnx Hnd]%NoDup_cons n [-> | Hn]%elem_of_cons; [|by apply H4].
      destruct (H5 Hns (ID x)) as [-> ->].
      * intros n Hn E. apply Hnx. rewrite <- E. by apply (list_elem_of_fmap_2 ID).
      * destruct (G4 Hx) as (i & -> & -> & ->). by rewrite !lookup_insert_eq.
    + intros [Hx Hns] id Hid. destruct (H5 Hns id) as [-> ->]; [intros n Hn; apply Hid; by right|].
      destruct (G4 Hx) as (i & _ & -> & ->).
      rewrite !lookup_insert_ne by (apply Hid; by left). done.
Qed.

(** The maps the wire pass reads, as [index_spec] and [nodes_spec] leave them. *)
Section wires.
Context (ns : list Node) (byID : gmap string Node) (np : NodePass).
Hypothesis Hby : forall id n, byID !! id = Some n <-> n ∈ ns /\ ID n = id.
Hypothesis Hok : Forall node_ok ns.
Hypothesis Hinfo : forall n, n ∈ ns ->
  nodeInfo np !! ID n = info_of n /\ nodeOutputs np !! ID n = Some (outputs_of n).

Lemma info_some n : n ∈ ns -> exists i, info_of n = Some i.
Proof.
  intros Hn. eapply Forall_forall in Hok; [|exact Hn]. destruct Hok as (i & f & _ & E & _).
  exists i. unfold info_of. by rewrite E.
Qed.

Lemma endpoint_spec wid side ep portOK :
  validateEndpoint wid side ep byID (nodeInfo np) portOK = [] <->
  exists n i, n ∈ ns /\ ID n = ep_Node ep /\ info_of n = Some i /\ portOK i (ep_Port ep) = true.
Proof.
  unfold validateEndpoint. destruct (byID !! ep_Node ep) as [n|] eqn:E.
  - apply Hby in E as [Hn E]. destruct (Hinfo n Hn) as [Hi _]. rewrite E in Hi. rewrite Hi.
    destruct (info_some n Hn) as [i Ei]. rewrite Ei. split.
    + destruct (portOK i (ep_Port ep)) eqn:Ep; [|done]. eauto 10.
    + intros (n' & i' & Hn' & E' & Ei' & Hp).
      assert (n' = n) as ->.
      { assert (byID !! ep_Node ep = Some n') as A by (apply Hby; auto).
        assert (byID !! ep_Node ep = Some n) as B by (apply Hby; auto). congruence. }
      rewrite Ei in Ei'. simplify_eq. by rewrite Hp.
  - split; [done|]. intros (n & i & Hn & En & _).
    assert (byID !! ep_Node ep = Some n) as A by (apply Hby; auto). congruence.
Qed.

Lemma from_spec wid ep :
  validateEndpoint wid "from" ep byID (nodeInfo np)
    (fun _ port => outputPortExists (default [] (nodeOutputs np !! ep_Node ep)) (byID !! ep_Node ep) port) = []
  <-> from_ok ns ep.
Proof.
  rewrite endpoint_spec. unfold from_ok. split.
  - intros (n & i & Hn & En & Ei & Hp). exists n. split_and!; [done|done|].
    destruct (Hinfo n Hn) as [_ Ho]. rewrite <- En, Ho in Hp.
    assert (byID !! ID n = Some n) as Hb by (apply Hby; auto). rewrite Hb in Hp. cbn in Hp.
    unfold outputPortExists in Hp. apply orb_true_iff in Hp as [Hp|Hp]; [left; by apply containsString_spec|].
    right. apply andb_true_iff in Hp as [Hp1%bool_decide_eq_true Hp2]. split; [done|].
    unfold error_port_of. destruct (errorPolicy n) as [p|]; [|done]. exists p. split; [done|].
    by apply bool_decide_eq_true in Hp2.
  - intros (n & Hn & En & Hp). destruct (info_some n Hn) as [i Ei]. exists n, i. split_and!; [done..|].
    destruct (Hinfo n Hn) as [_ Ho]. rewrite <- En, Ho.
    assert (byID !! ID n = Some n) as -> by (apply Hby; auto). cbn.
    unfold outputPortExists. apply orb_true_iff. destruct Hp as [Hp | [-> (p & E & Ep)]].
    + left. by apply containsString_spec.
    + right. rewrite E, Ep. done.
Qed.

Lemma to_spec wid ep :
  validateEndpoint wid "to" ep byID (nodeInfo np) (fun i port => containsString (Inputs i) port) = []
  <-> to_ok ns ep.
Proof.
  rewrite endpoint_spec. unfold to_ok. split; intros (n & i & Hn & En & Ei & Hp); exists n, i;
    split_and!; try done; by apply containsString_spec.
Qed.

Lemma wires_spec ws : forall ps ids,
  fst (fold_left (checkWire byID np) ws (ps, ids)) = [] <->
  ps = [] /\ NoDup (map w_ID ws) /\ Forall (fun w => w_ID w <> "" /\ w_ID w ∉ ids) ws /\
  Forall (fun w => from_ok ns (From w)) ws /\ Forall (fun w => to_ok ns (To w)) ws.
Proof.
  induction ws as [|w ws IH]; intros ps ids; cbn [fold_left].
  - cbn. split; [intros ->; split_and!; auto; constructor|by intros []].
  - cbn [checkWire]. rewrite IH, !Forall_cons. cbn [map]. rewrite NoDup_cons.
    rewrite <- (from_spec (w_ID w)), <- (to_spec (w_ID w)).
    assert ((if decide (w_ID w = "") then [PWireNoID]
             else if decide (w_ID w ∈ ids) then [PDuplicateWire (w_ID w)] else []) = [] <->
            w_ID w <> "" /\ w_ID w ∉ ids) as <-.
    { repeat case_decide; naive_solver. }
    assert (forall l1 l2 : list Problem, l1 ++ l2 = [] <-> l1 = [] /\ l2 = []) as Happ.
    { intros l1 l2. split; [apply app_eq_nil|by intros [-> ->]]. }
    rewrite !Happ.
    assert (Forall (fun w0 => w_ID w0 <> "" /\ w_ID w0 ∉ {[w_ID w]} ∪ ids) ws <->
            Forall (fun w0 => w_ID w0 <> "" /\ w_ID w0 ∉ ids) ws /\ w_ID w ∉ map w_ID ws) as ->.
    { rewrite !Forall_forall. split.
      - intros Hf. split; [intros x Hx; specialize (Hf x Hx); set_solver|].
        intros (x & E & Hx)%list_elem_of_fmap. specialize (Hf x Hx). set_solver.
      - intros [Hf Hn] x Hx. specialize (Hf x Hx).
        assert (w_ID x <> w_ID w) by (intros E; apply Hn; rewrite <- E; by apply (list_elem_of_fmap_2 w_ID)).
        set_solver. }
    tauto.
Qed.
End wires.

Lemma checkMode_spec mode hs ht : checkMode mode hs ht = [] <-> mode_ok mode hs ht.
Proof.
  unfold checkMode, mode_ok. destruct (decide (mode = "")) as [-> |Hm]; [naive_solver|].
  destruct hs, ht; cbn; repeat case_bool_decide; cbn; try naive_solver.
  all: split; [done|]; intros (_ & _ & H1 & H2); try naive_solver.
Qed.

Lemma Validate_spec f : Validate f = [] <-> well_formed f.
Proof.
  unfold Validate. pose proof (index_spec (Nodes (graph f)) [] ∅) as Hi.
  destruct (fold_left indexNode _ _) as [p1 byID]. destruct Hi as [Hi1 Hi2].
  pose proof (nodes_spec (Nodes (graph f)) (MkNodePass [] false false ∅ ∅)) as (Hn1 & Hn2 & Hn3 & Hn4 & _).
  cbv zeta in *. cbn [hasSource hasTrigger np_problems orb] in *.
  set (np := fold_left checkNode _ _) in *.
  destruct (fold_left (checkWire byID np) (Wires (graph f)) ([], ∅)) as [p3 ids] eqn:Ew.
  assert (forall l1 l2 : list Problem, l1 ++ l2 = [] <-> l1 = [] /\ l2 = []) as Happ.
  { intros l1 l2. split; [apply app_eq_nil|by intros [-> ->]]. }
  rewrite !Happ, checkMode_spec, Hn1, Hi1, Hn2, Hn3.
  assert (NoDup (map ID (Nodes (graph f))) -> Forall node_ok (Nodes (graph f)) ->
    (p3 = [] <-> NoDup (map w_ID (Wires (graph f))) /\
       Forall (fun w => w_ID w <> "" /\ w_ID w ∉ (∅ : gset string)) (Wires (graph f)) /\
       Forall (fun w => from_ok (Nodes (graph f)) (From w)) (Wires (graph f)) /\
       Forall (fun w => to_ok (Nodes (graph f)) (To w)) (Wires (graph f)))) as Hw.
  { intros Hnd Hok. pose proof (wires_spec (Nodes (graph f)) byID np) as Hs.
    specialize (Hs ltac:(intros id n; rewrite Hi2;
      [rewrite lookup_empty; naive_solver
      |apply Hi1; split_and!; [done|done|intros; apply lookup_empty]])).
    specialize (Hs Hok ltac:(intros n Hn; by apply Hn4) (Wires (graph f)) [] ∅).
    rewrite Ew in Hs. cbn in Hs. rewrite Hs. naive_solver. }
  split.
  - intros ((_ & Hnd & _) & (_ & Hok) & Hp3 & Hm). apply (Hw Hnd Hok) in Hp3 as (W1 & W2 & W3 & W4).
    split; try done. split; [done|]. eapply Forall_impl; [exact W2|]. naive_solver.
  - intros [Hnd Hok [W1 W2] W3 W4 Hm]. split_and!; try done.
    apply Hw; [done..|]. split_and!; [done| |done..].
    eapply Forall_impl; [exact W2|]. intros w Hne. split; [done|set_solver].
Qed.

(** [C9] [Validate] accepts exactly the flows that are well-formed in the sense the code checks: node ids unique,
    node types registered and constructible from their schema-valid config, wire ids present and unique, every
    wire from a port its source node has (the implicit error port included) to an input its target has, a mode
    that is not empty, not both a plain source and a trigger, a plain source only in mode streaming, and mode
    triggered exactly when there is a trigger.  This is less than section 7 of the flow file format asks for: a
    streaming flow without a source, a cycle and a mode that is neither of the two are accepted
    ([sourceless_accepted], [cycle_accepted], [any_mode_accepted]). *)
Theorem Validate_iff_well_formed f : Validate f = [] <-> well_formed f.
Proof. apply Validate_spec. Qed.
End validate.

(** ** Where [Validate] and section 7 of the flow file format differ *)

Module divergence.
Definition proc : Registry :=
  {["p" := MkRegistration (MkNodeTypeInfo KindProcessor ["in"] ["out"] false "" "" "" "") (fun _ => Ok (MkInstance false true false None))]}.
Definition flowOf (mode : string) (ns : list Node) (ws : list Wire) : FlowFile :=
  MkFlowFile 1 "flow" "f" "" "" mode false None (MkSettings "" false None "" None) [] (MkGraph ns ws) None None.
Definition nodeOf (id : string) : Node := MkNode id "p" 1 "" false "" "" None "".
(** Rule 4: a streaming flow must contain a source node. *)
Lemma sourceless_accepted schemaValid : Validate proc schemaValid (flowOf ModeStreaming [nodeOf "a"] []) = [].
Proof. vm_compute. reflexivity. Qed.
(** Rule 5: cycles, other than through the port of a loop node, are rejected. *)
Lemma cycle_accepted schemaValid : Validate proc schemaValid (flowOf ModeStreaming [nodeOf "a"; nodeOf "b"]
  [MkWire "w1" (MkEndpoint "a" "out") (MkEndpoint "b" "in"); MkWire "w2" (MkEndpoint "b" "out") (MkEndpoint "a" "in")]) = [].
Proof. vm_compute. reflexivity. Qed.
(** The mode is one of streaming and triggered. *)
Lemma any_mode_accepted schemaValid : Validate proc schemaValid (flowOf "batch" [nodeOf "a"] []) = [].
Proof. vm_compute. reflexivity. Qed.
End divergence.
End flowfile.
