(* ===== verification/Runner.v ===== *)
(** * Node execution ([engine/flow/runner.go])

    What a [nodeRunner] does with one datagram: TTL check, invocation with panic
    recovery, retries, the error policy, dispatch, reporting.  A runner acts on the
    rest of the engine only through calls (fan-out sends, the execution tracker,
    the dead-letter sink, the durable queue, the error-flow topic, counters), so it
    is modelled as the sequence of calls it makes, each an [effect], given what the
    node's code and the environment answer. *)

From S2P Require Import Prelude Datagram Execution Value FlowFile.
Import datagram execution value.
Local Open Scope Z_scope.

Module runner.

(** ** Errors *)

(** A Go [error]: one that [errors.As] finds a [*NodeError] in, or another. *)
Inductive goerr := EPlain (msg : string) | ENode (e : NodeError).

Definition Error (e : goerr) : string := match e with EPlain m => m | ENode e => Message e end.

(** What calling the node's code does: return, return an error, or panic. *)
Inductive outcome := IOk (results : list portDgm) | IErr (e : goerr) | IPanic (rec stack : string).

Definition invokeWithRecover (o : outcome) : list portDgm + goerr :=
  match o with
  | IOk rs => inl rs
  | IErr e => inr e
  | IPanic rec stack => inr (ENode (MkNodeError rec "" "" stack 0))
  end.

Definition AsNodeError (e : goerr) (nodeID : string) (attempt : Z) : NodeError :=
  match e with
  | ENode ne => MkNodeError (Message ne) (Code ne) nodeID (Stack ne) attempt
  | EPlain m => MkNodeError m "" nodeID "" attempt
  end.

(** [id] and [now]: the fresh ULID and the clock [NewCaused] reads. *)
Definition BuildErrorDatagram (id : string) (now : Z) (original : dgram) (ne : NodeError) : dgram :=
  let d := NewCaused id now original (MkSource "" (Node ne) "" "" "")
             (MkPayload (AMap [("original", ADgm original);
                               ("error", AMap [("message", AStr (Message ne)); ("code", AStr (Code ne));
                                               ("node", AStr (Node ne)); ("stack", AStr (Stack ne));
                                               ("attempt", AInt (ne_Attempt ne))])]) None) in
  let h := header d in
  MkDatagram (MkHeader (ID h) (CorrelationID h) (CausationID h) (Timestamp h) (SourceTimestamp h)
                (source h) (SchemaRef h) (ContentType h) QualityBad (Priority h) (TTLMillis h) (Tags h))
             (payload d) (trace d).

Definition ErrorFlowTopic (flowID : string) : string :=
  if decide (flowID = "*") then "$errors/#" else "$errors/" +:+ flowID.

(** ** The runner *)

Inductive Counter := Processed | Errors | Retries.
Inductive DebugDirection := DirIn | DirOut | DirSidebar.

Inductive effect :=
| FCount (c : Counter)                                       (* metrics *)
| FObserve                                                   (* processing-time histogram *)
| FDebug (dir : DebugDirection) (port : string) (d : dgram)  (* captureDebug *)
| FSend (port : string) (d : dgram)                          (* outputs[port].Send *)
| FTrack (inp : dgram) (ev : NodeIO (V := any)) (onError : string)   (* Tracker.NodeEvent *)
| FDeadLetter (port reason : string) (d : dgram)
| FErrorFlow (topic : string) (d : dgram)                    (* DefaultBroker.Publish *)
| FEnqueue (port : string) (d : dgram)                       (* sfQueue.Enqueue *)
| FWait                                                      (* the retry backoff *)
| FNilPanic.                                                 (* bo.Next() on a nil backoff *)

(** What storing an entry durably does. *)
Inductive EnqueueResult := EnqOk (dropped : Z) | EnqMarshalErr | EnqErr.

Record nodeRunner := MkNodeRunner {
  id : string;
  flowID : string;
  inputPort : string;
  errorPolicy : option flowfile.ErrorPolicy;
  outputs : gset string;                          (* the ports with a fan-out *)
  isTrigger : bool;
  errorFlowTarget : option string;                (* nil, or what the func returns *)
  sfQueue : option (string -> dgram -> EnqueueResult)
}.

Definition defaultErrorPolicy : flowfile.ErrorPolicy := flowfile.MkErrorPolicy "fail" None None.
Definition policy (r : nodeRunner) : flowfile.ErrorPolicy := default defaultErrorPolicy (errorPolicy r).

(** Clock readings and fresh ids used by one call. *)
Record Env := MkEnv { startAt : Z; tookUs : Z; nowAt : Z; freshID : string }.

Definition captureDebug (dir : DebugDirection) (port : string) (d : dgram) : list effect :=
  [FDebug dir port d].

Definition reportNode (r : nodeRunner) (env : Env) (inp : dgram) (port : string) (attempt : Z)
    (outs : list portDgm) (nodeErr : option NodeError) (onError : string) : list effect :=
  let ev := MkNodeIO (id r) port attempt (startAt env) (tookUs env) inp outs nodeErr in
  FTrack inp ev onError ::
  match nodeErr with
  | None => []
  | Some ne =>
      (if decide (onError = "fail" \/ onError = "discard") then [FDeadLetter port "node_error" inp] else [])
      ++
      (if decide (onError = "fail") then
         match errorFlowTarget r with
         | Some target =>
             if decide (target = "") then []
             else [FErrorFlow (ErrorFlowTopic target) (BuildErrorDatagram (freshID env) (nowAt env) inp ne)]
         | None => []
         end
       else [])
  end.

Definition dispatch (r : nodeRunner) (results : list portDgm) : list effect :=
  flat_map (fun res =>
    if decide (Port res ∈ outputs r) then
      captureDebug DirOut (Port res) (pdDatagram res) ++ [FSend (Port res) (pdDatagram res)]
    else []) results.

Definition storeForward (r : nodeRunner) (env : Env) (port : string) (attempt : Z) (inp : dgram)
    (ne : NodeError) : list effect :=
  match sfQueue r with
  | None => reportNode r env inp port attempt [] (Some ne) "fail"
  | Some enq =>
      match enq port inp with
      | EnqMarshalErr => reportNode r env inp port attempt [] (Some ne) "fail"
      | EnqErr => FEnqueue port inp :: reportNode r env inp port attempt [] (Some ne) "fail"
      | EnqOk _ => FEnqueue port inp :: reportNode r env inp port attempt [] (Some ne) "storeForward"
      end
  end.

Definition applyTerminalPolicy (r : nodeRunner) (env : Env) (pol : flowfile.ErrorPolicy) (port : string)
    (attempt : Z) (inp : dgram) (ne : NodeError) : list effect :=
  if decide (flowfile.OnError pol = "errorPort") then
    if decide ("error" ∈ outputs r) then
      let errDgm := BuildErrorDatagram (freshID env) (nowAt env) inp ne in
      captureDebug DirOut "error" errDgm ++ [FSend "error" errDgm] ++
      reportNode r env inp port attempt [MkPortDatagram "error" errDgm] (Some ne) "errorPort"
    else reportNode r env inp port attempt [] (Some ne) "fail"
  else if decide (flowfile.OnError pol = "discard") then
    reportNode r env inp port attempt [] (Some ne) "discard"
  else if decide (flowfile.OnError pol = "storeForward") then
    storeForward r env port attempt inp ne
  else reportNode r env inp port attempt [] (Some ne) "fail".

Definition retryMax (pol : flowfile.ErrorPolicy) : Z :=
  match flowfile.Retry pol with Some rp => flowfile.Max rp | None => 0 end.

(** The retry loop.  [invoke k] is what attempt [k] does, [cancelled k] whether ctx is
    done during the wait after attempt [k]; the loop goes round at most
    [max + 1] times. *)
Fixpoint handle_loop (fuel : nat) (r : nodeRunner) (env : Env) (port : string) (inp : dgram)
    (invoke : Z -> outcome) (cancelled : Z -> bool) (attempt : Z) : list effect :=
  let pol := policy r in
  match invokeWithRecover (invoke attempt) with
  | inl results =>
      [FCount Processed; FObserve] ++ dispatch r results ++
      reportNode r env inp port attempt results None ""
  | inr err =>
      let ne := AsNodeError err (id r) attempt in
      FCount Errors ::
      (if decide (flowfile.OnError pol = "retry") then
         if attempt <=? retryMax pol then
           FCount Retries ::
           match flowfile.Retry pol with
           | None => [FNilPanic]
           | Some _ =>
               FWait ::
               (if cancelled attempt then []
                else match fuel with
                     | O => []
                     | S f => handle_loop f r env port inp invoke cancelled (attempt + 1)
                     end)
           end
         else reportNode r env inp port attempt [] (Some ne) "fail"
       else applyTerminalPolicy r env pol port attempt inp ne)
  end.
Definition handle (r : nodeRunner) (env : Env) (port : string) (inp : dgram)
    (invoke : Z -> outcome) (cancelled : Z -> bool) : list effect :=
  handle_loop (Z.to_nat (retryMax (policy r))) r env port inp invoke cancelled 1.

(** [None]: not expired. *)
Definition dropExpired (r : nodeRunner) (env : Env) (inp : dgram) (port : string) : option (list effect) :=
  if Expired (header inp) (nowAt env) then
    Some [FDeadLetter port "ttl_expired" inp;
          FTrack inp (MkNodeIO (id r) port 1 (nowAt env) 0 inp [] None) "fail"]
  else None.

(** One iteration of [runProcessor] (and of [runMultiProcessor] for its port). *)
Definition processOne (r : nodeRunner) (env : Env) (port : string) (inp : dgram)
    (invoke : Z -> outcome) (cancelled : Z -> bool) : list effect :=
  captureDebug DirIn port inp ++
  match dropExpired r env inp port with
  | Some fx => fx
  | None => handle r env port inp invoke cancelled
  end.

(** [emit] of [runSource]: [started] is what [Tracker.Start] answers. *)
Inductive emitResult := EmitNoPort | EmitStartErr | EmitSent.
Definition emit (r : nodeRunner) (started : bool) (port : string) (d : dgram) : list effect * emitResult :=
  if decide (port ∈ outputs r) then
    if isTrigger r && bool_decide (CorrelationID (header d) = ID (header d)) && negb started
    then ([], EmitStartErr)
    else (captureDebug DirOut port d ++ [FSend port d], EmitSent)
  else ([], EmitNoPort).

(** The [deliver] function of [runStoreForwardDrain] for one queued entry ([None]: it
    does not unmarshal); the flag is [Drain]'s "delivered". *)
Definition drainDeliver (r : nodeRunner) (env : Env) (entry : option (string * dgram))
    (invoke : outcome) : list effect * bool :=
  match entry with
  | None => ([], true)
  | Some (port, d) =>
      match invokeWithRecover invoke with
      | inr _ => ([], false)
      | inl results =>
          ([FCount Processed; FObserve] ++ dispatch r results ++ reportNode r env d port 1 results None "", true)
      end
  end.

(** ** Reading a run *)

Definition sameCounter (c c' : Counter) : bool :=
  match c, c' with
  | Processed, Processed | Errors, Errors | Retries, Retries => true
  | _, _ => false
  end.
Definition countOf (c : Counter) (fx : list effect) : nat :=
  length (omap (fun e => match e with FCount c' => if sameCounter c c' then Some tt else None | _ => None end) fx).
Definition tracks (fx : list effect) : list (dgram * NodeIO (V := any) * string) :=
  omap (fun e => match e with FTrack i ev oe => Some (i, ev, oe) | _ => None end) fx.
Definition deadLetters (fx : list effect) : list (string * dgram) :=
  omap (fun e => match e with FDeadLetter _ rs d => Some (rs, d) | _ => None end) fx.
Definition sends (fx : list effect) : list (string * dgram) :=
  omap (fun e => match e with FSend p d => Some (p, d) | _ => None end) fx.
Definition enqueued (fx : list effect) : list (string * dgram) :=
  omap (fun e => match e with FEnqueue p d => Some (p, d) | _ => None end) fx.
Definition waits (fx : list effect) : nat :=
  length (omap (fun e => match e with FWait => Some tt | _ => None end) fx).

(** Failed attempts that were retried. *)
Fixpoint retryPrefix (n : nat) : list effect :=
  match n with O => [] | S n' => [FCount Errors; FCount Retries; FWait] ++ retryPrefix n' end.

Definition fails (invoke : Z -> outcome) (k : Z) : Prop := exists e, invokeWithRecover (invoke k) = inr e.

(** How the loop ends at attempt [k]. *)
Inductive ending (r : nodeRunner) (env : Env) (port : string) (inp : dgram)
    (invoke : Z -> outcome) (cancelled : Z -> bool) (k : Z) : list effect -> Prop :=
| end_ok results : invokeWithRecover (invoke k) = inl results ->
    ending r env port inp invoke cancelled k
      ([FCount Processed; FObserve] ++ dispatch r results ++ reportNode r env inp port k results None "")
| end_terminal e : invokeWithRecover (invoke k) = inr e -> flowfile.OnError (policy r) <> "retry" ->
    ending r env port inp invoke cancelled k
      (FCount Errors :: applyTerminalPolicy r env (policy r) port k inp (AsNodeError e (id r) k))
| end_exhausted e : invokeWithRecover (invoke k) = inr e -> flowfile.OnError (policy r) = "retry" ->
    retryMax (policy r) < k ->
    ending r env port inp invoke cancelled k
      (FCount Errors :: reportNode r env inp port k [] (Some (AsNodeError e (id r) k)) "fail")
| end_cancelled : fails invoke k -> flowfile.OnError (policy r) = "retry" -> k <= retryMax (policy r) ->
    cancelled k = true ->
    ending r env port inp invoke cancelled k [FCount Errors; FCount Retries; FWait].

Lemma handle_loop_shape fuel r env port inp invoke cancelled : forall a, 1 <= a ->
  retryMax (policy r) - a < Z.of_nat fuel \/ retryMax (policy r) < a ->
  exists n fx, handle_loop fuel r env port inp invoke cancelled a = retryPrefix n ++ fx /\
    (n <> 0%nat -> flowfile.OnError (policy r) = "retry" /\ a + Z.of_nat n <= retryMax (policy r) + 1) /\
    (forall j, a <= j < a + Z.of_nat n -> fails invoke j /\ cancelled j = false) /\
    ending r env port inp invoke cancelled (a + Z.of_nat n) fx.
Proof.
  induction fuel as [|f IH]; intros a H1 Ha; cbn [handle_loop];
    destruct (invokeWithRecover (invoke a)) as [results|e] eqn:Ei.
  all: try (exists 0%nat; eexists; cbn [retryPrefix app]; rewrite Z.add_0_r;
            split_and!; [reflexivity|done|lia|by apply end_ok]).
  all: destruct (decide (flowfile.OnError (policy r) = "retry")) as [Hr|Hr];
    [|exists 0%nat; eexists; cbn [retryPrefix app]; rewrite Z.add_0_r;
      split_and!; [reflexivity|done|lia|by apply end_terminal]].
  all: destruct (Z.leb_spec a (retryMax (policy r))) as [Hle|Hgt];
    [|exists 0%nat; eexists; cbn [retryPrefix app]; rewrite Z.add_0_r;
      split_and!; [reflexivity|done|lia|by eapply end_exhausted]].
  { lia. }
  destruct (flowfile.Retry (policy r)) as [rp|] eqn:Erp;
    [|unfold retryMax in Hle; rewrite Erp in Hle; lia].
  destruct (cancelled a) eqn:Ec.
  - exists 0%nat. eexists. cbn [retryPrefix app]. rewrite Z.add_0_r.
    split_and!; [reflexivity|done|lia|]. apply end_cancelled; auto. by exists e.
  - destruct (IH (a + 1) ltac:(lia) ltac:(lia)) as (n & fx & E & Hn & Hf & He).
    exists (S n), fx. rewrite E. cbn [retryPrefix app]. split_and!; [done| | |].
    + intros _. split; [done|]. destruct n; [lia|]. destruct (Hn ltac:(done)) as [_ ?]. lia.
    + intros j Hj. destruct (decide (j = a)) as [-> | Hne]; [split; [by exists e|done]|apply Hf; lia].
    + replace (a + Z.of_nat (S n)) with (a + 1 + Z.of_nat n) by lia. done.
Qed.

Lemma handle_shape r env port inp invoke cancelled :
  exists n fx, handle r env port inp invoke cancelled = retryPrefix n ++ fx /\
    (n <> 0%nat -> flowfile.OnError (policy r) = "retry" /\ Z.of_nat n <= retryMax (policy r)) /\
    (forall j, 1 <= j <= Z.of_nat n -> fails invoke j /\ cancelled j = false) /\
    ending r env port inp invoke cancelled (1 + Z.of_nat n) fx.
Proof.
  destruct (handle_loop_shape (Z.to_nat (retryMax (policy r))) r env port inp invoke cancelled 1)
    as (n & fx & E & Hn & Hf & He); [lia|lia|].
  exists n, fx. split_and!; [done| |intros j Hj; apply Hf; lia|done].
  intros H0. destruct (Hn H0). split; [done|lia].
Qed.

(** The projections of a run's parts. *)
Lemma proj_prefix n :
  tracks (retryPrefix n) = [] /\ deadLetters (retryPrefix n) = [] /\ sends (retryPrefix n) = [] /\
  enqueued (retryPrefix n) = [] /\ countOf Processed (retryPrefix n) = 0%nat /\
  countOf Errors (retryPrefix n) = n /\ countOf Retries (retryPrefix n) = n /\ waits (retryPrefix n) = n.
Proof.
  induction n as [|n (H1 & H2 & H3 & H4 & H5 & H6 & H7 & H8)]; [done|]. cbn [retryPrefix].
  unfold tracks, deadLetters, sends, enqueued, countOf, waits in *. cbn.
  split_and!; first [done|f_equal; done].
Qed.

Lemma proj_report r env inp port k outs ne oe :
  tracks (reportNode r env inp port k outs ne oe) =
    [(inp, MkNodeIO (id r) port k (startAt env) (tookUs env) inp outs ne, oe)] /\
  deadLetters (reportNode r env inp port k outs ne oe) =
    (if decide (ne <> None /\ (oe = "fail" \/ oe = "discard")) then [("node_error", inp)] else []) /\
  sends (reportNode r env inp port k outs ne oe) = [] /\
  enqueued (reportNode r env inp port k outs ne oe) = [] /\
  (forall c, countOf c (reportNode r env inp port k outs ne oe) = 0%nat) /\
  waits (reportNode r env inp port k outs ne oe) = 0%nat.
Proof.
  unfold reportNode. destruct ne as [ne|]; [|split_and!; done].
  destruct (decide (oe = "fail")) as [-> | Hf].
  - repeat (case_decide; try naive_solver); destruct (errorFlowTarget r) as [t|];
      try (destruct (decide (t = ""))); split_and!; done.
  - repeat (case_decide; try naive_solver); split_and!; done.
Qed.

Definition wired (r : nodeRunner) (results : list portDgm) : list (string * dgram) :=
  omap (fun res => if decide (Port res ∈ outputs r) then Some (Port res, pdDatagram res) else None) results.

Lemma proj_dispatch r results :
  sends (dispatch r results) = wired r results /\ tracks (dispatch r results) = [] /\
  deadLetters (dispatch r results) = [] /\ enqueued (dispatch r results) = [] /\
  (forall c, countOf c (dispatch r results) = 0%nat) /\ waits (dispatch r results) = 0%nat.
Proof.
  induction results as [|res rs (H1 & H2 & H3 & H4 & H5 & H6)]; [done|].
  unfold dispatch, wired in *. cbn. destruct (decide (Port res ∈ outputs r)); cbn; [|done].
  split_and!; try done. by f_equal.
Qed.

Lemma proj_app l1 l2 :
  tracks (l1 ++ l2) = tracks l1 ++ tracks l2 /\ deadLetters (l1 ++ l2) = deadLetters l1 ++ deadLetters l2 /\
  sends (l1 ++ l2) = sends l1 ++ sends l2 /\ enqueued (l1 ++ l2) = enqueued l1 ++ enqueued l2 /\
  (forall c, countOf c (l1 ++ l2) = (countOf c l1 + countOf c l2)%nat) /\
  waits (l1 ++ l2) = (waits l1 + waits l2)%nat.
Proof.
  unfold tracks, deadLetters, sends, enqueued, countOf, waits.
  split_and!; intros; rewrite ?omap_app, ?length_app; done.
Qed.
Lemma tracks_app l1 l2 : tracks (l1 ++ l2) = tracks l1 ++ tracks l2.
Proof. apply proj_app. Qed.
Lemma dead_app l1 l2 : deadLetters (l1 ++ l2) = deadLetters l1 ++ deadLetters l2.
Proof. apply proj_app. Qed.
Lemma sends_app l1 l2 : sends (l1 ++ l2) = sends l1 ++ sends l2.
Proof. apply proj_app. Qed.
Lemma enqueued_app l1 l2 : enqueued (l1 ++ l2) = enqueued l1 ++ enqueued l2.
Proof. apply proj_app. Qed.
Lemma countOf_app c l1 l2 : countOf c (l1 ++ l2) = (countOf c l1 + countOf c l2)%nat.
Proof. apply proj_app. Qed.
Lemma waits_app l1 l2 : waits (l1 ++ l2) = (waits l1 + waits l2)%nat.
Proof. apply proj_app. Qed.

(** Distributes the projections over a run and rewrites with the known ones. *)
Ltac proj_simpl :=
  rewrite ?dead_app, ?sends_app, ?countOf_app, ?tracks_app, ?enqueued_app, ?waits_app;
  repeat match goal with
         | H : tracks ?l = _ |- context [tracks ?l] => rewrite H
         | H : deadLetters ?l = _ |- context [deadLetters ?l] => rewrite H
         | H : sends ?l = _ |- context [sends ?l] => rewrite H
         | H : enqueued ?l = _ |- context [enqueued ?l] => rewrite H
         | H : countOf ?c ?l = _ |- context [countOf ?c ?l] => rewrite H
         | H : forall c, countOf c ?l = _ |- context [countOf _ ?l] => rewrite H
         | H : waits ?l = _ |- context [waits ?l] => rewrite H
         end; rewrite ?app_nil_r.

(** The number of retries the policy allows. *)
Definition allowedRetries (r : nodeRunner) : nat :=
  if decide (flowfile.OnError (policy r) = "retry") then Z.to_nat (retryMax (policy r)) else 0%nat.

(** What becomes of a datagram, given what the node's code does at each attempt: exactly one of these.  Attempt
    [k] decides, after [k - 1] failed ones; one that fails decides only when no retry is left. *)
Definition decides (r : nodeRunner) (invoke : Z -> outcome) (k : Z) : Prop :=
  1 <= k <= 1 + Z.of_nat (allowedRetries r) /\ forall j, 1 <= j < k -> fails invoke j.
Definition fails_last (r : nodeRunner) (invoke : Z -> outcome) (k : Z) (e : goerr) : Prop :=
  decides r invoke k /\ k = 1 + Z.of_nat (allowedRetries r) /\ invokeWithRecover (invoke k) = inr e.
Definition report (r : nodeRunner) (env : Env) (port : string) (inp : dgram) (k : Z) (outs : list portDgm) (ne : option NodeError) (oe : string)
  : list (dgram * NodeIO (V := any) * string) := [(inp, MkNodeIO (id r) port k (startAt env) (tookUs env) inp outs ne, oe)].
(** No other place takes a failed datagram: no error port is asked for and wired, no durable queue asked for and accepting it. *)
Definition unclaimed (r : nodeRunner) (port : string) (inp : dgram) : Prop :=
  (flowfile.OnError (policy r) = "errorPort" -> "error" ∉ outputs r) /\
  (flowfile.OnError (policy r) = "storeForward" -> forall enq n, sfQueue r = Some enq -> enq port inp <> EnqOk n).
Inductive fate (r : nodeRunner) (env : Env) (port : string) (inp : dgram) (invoke : Z -> outcome) (fx : list effect) : Prop :=
| FProcessed k results : decides r invoke k -> invokeWithRecover (invoke k) = inl results ->
    sends fx = wired r results -> tracks fx = report r env port inp k results None "" ->
    deadLetters fx = [] -> enqueued fx = [] -> countOf Processed fx = 1%nat -> fate r env port inp invoke fx
| FDead k e oe : fails_last r invoke k e -> unclaimed r port inp ->
    oe = (if decide (flowfile.OnError (policy r) = "discard") then "discard" else "fail") ->
    deadLetters fx = [("node_error", inp)] -> tracks fx = report r env port inp k [] (Some (AsNodeError e (id r) k)) oe ->
    sends fx = [] -> countOf Processed fx = 0%nat -> fate r env port inp invoke fx
| FRouted k e : fails_last r invoke k e -> flowfile.OnError (policy r) = "errorPort" -> "error" ∈ outputs r ->
    let d := BuildErrorDatagram (freshID env) (nowAt env) inp (AsNodeError e (id r) k) in
    sends fx = [("error", d)] -> tracks fx = report r env port inp k [MkPortDatagram "error" d] (Some (AsNodeError e (id r) k)) "errorPort" ->
    deadLetters fx = [] -> enqueued fx = [] -> countOf Processed fx = 0%nat -> fate r env port inp invoke fx
| FStored k e enq n : fails_last r invoke k e -> flowfile.OnError (policy r) = "storeForward" ->
    sfQueue r = Some enq -> enq port inp = EnqOk n -> enqueued fx = [(port, inp)] ->
    tracks fx = report r env port inp k [] (Some (AsNodeError e (id r) k)) "storeForward" ->
    sends fx = [] -> deadLetters fx = [] -> countOf Processed fx = 0%nat -> fate r env port inp invoke fx.

(** Effects that neither report nor move the datagram. *)
Definition inert (fx : list effect) : Prop :=
  tracks fx = [] /\ deadLetters fx = [] /\ sends fx = [] /\ enqueued fx = [] /\ countOf Processed fx = 0%nat.

(** A failure report after inert effects (or a failed enqueue) is a dead letter. *)
Lemma dead_fate r env port k inp invoke e oe pre :
  tracks pre = [] -> deadLetters pre = [] -> sends pre = [] -> countOf Processed pre = 0%nat ->
  fails_last r invoke k e -> unclaimed r port inp ->
  oe = (if decide (flowfile.OnError (policy r) = "discard") then "discard" else "fail") ->
  fate r env port inp invoke (pre ++ reportNode r env inp port k [] (Some (AsNodeError e (id r) k)) oe).
Proof.
  intros P1 P2 P3 P4 Hk Hu Ho.
  destruct (proj_report r env inp port k [] (Some (AsNodeError e (id r) k)) oe) as (H1 & H2 & H3 & H4 & H5 & H6).
  assert (oe = "fail" \/ oe = "discard") as Ho' by (subst oe; destruct (decide _); auto).
  rewrite decide_True in H2 by (split; [done|tauto]).
  apply (FDead _ _ _ _ _ _ k e oe); proj_simpl; done.
Qed.

Lemma terminal_fate r env port k inp invoke e pre : inert pre -> fails_last r invoke k e ->
  fate r env port inp invoke (pre ++ FCount Errors :: applyTerminalPolicy r env (policy r) port k inp (AsNodeError e (id r) k)).
Proof.
  intros (P1 & P2 & P3 & P4 & P5) Hk. unfold applyTerminalPolicy, storeForward.
  assert (forall l, pre ++ FCount Errors :: l = (pre ++ [FCount Errors]) ++ l) as Hsplit
    by (intros; by rewrite <- app_assoc).
  assert (tracks (pre ++ [FCount Errors]) = [] /\ deadLetters (pre ++ [FCount Errors]) = [] /\
          sends (pre ++ [FCount Errors]) = [] /\ countOf Processed (pre ++ [FCount Errors]) = 0%nat /\
          enqueued (pre ++ [FCount Errors]) = []) as (Q1 & Q2 & Q3 & Q4 & Q5).
  { split_and!; proj_simpl; done. }
  set (ne := AsNodeError e (id r) k).
  destruct (decide (flowfile.OnError (policy r) = "errorPort")) as [Hp|Hp];
    [destruct (decide ("error" ∈ outputs r)) as [Ho|Ho]
    |destruct (decide (flowfile.OnError (policy r) = "discard")) as [Hd|Hd];
     [|destruct (decide (flowfile.OnError (policy r) = "storeForward")) as [Hs|Hs]]];
    try (rewrite Hsplit; apply dead_fate; [done..|split; [first [by intros _|intros; congruence]|intros; congruence]|destruct (decide _); congruence]).
  - set (d := BuildErrorDatagram _ _ _ _).
    destruct (proj_report r env inp port k [MkPortDatagram "error" d] (Some ne) "errorPort")
      as (H1 & H2 & H3 & H4 & H5 & H6). rewrite decide_False in H2 by naive_solver.
    rewrite Hsplit. apply (FRouted _ _ _ _ _ _ k e); proj_simpl; done.
  - assert ("fail" = if decide (flowfile.OnError (policy r) = "discard") then "discard" else "fail") as Hf by (by rewrite decide_False).
    destruct (sfQueue r) as [enq|] eqn:Esf; [|rewrite Hsplit; apply dead_fate; [done..|split; congruence|done]].
    destruct (enq port inp) as [n| |] eqn:Ee; [|rewrite Hsplit; apply dead_fate; [done..|split; congruence|done]|].
    + destruct (proj_report r env inp port k [] (Some ne) "storeForward") as (H1 & H2 & H3 & H4 & H5 & H6).
      rewrite decide_False in H2 by naive_solver. rewrite Hsplit.
      change (FEnqueue port inp :: ?l) with ([FEnqueue port inp] ++ l).
      apply (FStored _ _ _ _ _ _ k e enq n); proj_simpl; done.
    + rewrite Hsplit. change (FEnqueue port inp :: ?l) with ([FEnqueue port inp] ++ l). rewrite app_assoc.
      apply dead_fate; [proj_simpl; done..|done|split; congruence|done].
Qed.

Lemma retries_allowed r n : (n <> 0%nat -> flowfile.OnError (policy r) = "retry" /\ Z.of_nat n <= retryMax (policy r)) -> (n <= allowedRetries r)%nat.
Proof. intros Hn. unfold allowedRetries. destruct n; [lia|]. destruct (Hn ltac:(done)) as [-> ?]. rewrite decide_True by done. lia. Qed.
Lemma prefix_inert n : inert (retryPrefix n).
Proof. destruct (proj_prefix n) as (H1 & H2 & H3 & H4 & H5 & _). by split_and!. Qed.

(** [C6] no silent loss: unless the context is cancelled while waiting to retry, a datagram a node handles has
    exactly one fate, decided by the first attempt that does not fail or, when all the attempts do that the
    policy allows, by the last.  What the node's code returned at that attempt is what is handed to the fan-outs
    of the wired ports, in order, and reported once as its outputs; or else, by the policy, an error datagram
    built from the input and the error is handed to the error port, the durable queue accepts the input, or,
    when neither is asked for and possible, the input is dead-lettered, and the error is reported once.  Panics of the node's code included.  What a fan-out does with a datagram is [Bus]'s part. *)
Theorem handle_no_silent_loss r env port inp invoke cancelled :
  (forall k, cancelled k = false) -> fate r env port inp invoke (handle r env port inp invoke cancelled).
Proof.
  intros Hc. destruct (handle_shape r env port inp invoke cancelled) as (n & fx & -> & Hn & Hf & He).
  pose proof (prefix_inert n) as Hi. pose proof Hi as (P1 & P2 & P3 & P4 & P5).
  pose proof (retries_allowed r n Hn) as Hle.
  assert (decides r invoke (1 + Z.of_nat n)) as Hk by (split; [lia|]; intros j Hj; apply Hf; lia).
  destruct He as [results E|e E Hp|e E Hp Hm|_ _ _ Hcn].
  - destruct (proj_report r env inp port (1 + Z.of_nat n) results None "") as (H1 & H2 & H3 & H4 & H5 & H6).
    destruct (proj_dispatch r results) as (D1 & D2 & D3 & D4 & D5 & D6).
    rewrite decide_False in H2 by naive_solver.
    apply (FProcessed _ _ _ _ _ _ (1 + Z.of_nat n) results); proj_simpl; done.
  - apply terminal_fate; [done|]. split_and!; [done| |done]. unfold allowedRetries in *. rewrite decide_False in * by done. lia.
  - change (FCount Errors :: ?l) with ([FCount Errors] ++ l). rewrite app_assoc.
    apply dead_fate; [proj_simpl; done..| |split; congruence|rewrite decide_False; congruence]. split_and!; [done| |done].
    unfold allowedRetries in *. rewrite decide_True in * by done. lia.
  - by rewrite Hc in Hcn.
Qed.

Lemma report_no_nil r env inp port k outs ne oe : FNilPanic ∉ reportNode r env inp port k outs ne oe.
Proof. unfold reportNode. repeat case_match; set_solver. Qed.
Lemma dispatch_no_nil r rs : FNilPanic ∉ dispatch r rs.
Proof.
  unfold dispatch. induction rs as [|x rs IH]; cbn; [set_solver|].
  case_decide; cbn; [|done]. set_solver.
Qed.
Lemma prefix_no_nil n : FNilPanic ∉ retryPrefix n.
Proof. induction n as [|n IH]; cbn; set_solver. Qed.
Lemma terminal_no_nil r env port k inp ne : FNilPanic ∉ applyTerminalPolicy r env (policy r) port k inp ne.
Proof.
  pose proof (report_no_nil r env inp port k) as Hr. unfold applyTerminalPolicy, storeForward, captureDebug.
  repeat case_match; cbn; rewrite ?elem_of_cons; try apply Hr; intros Hin;
    repeat (destruct Hin as [?|Hin]; [done|]); by eapply Hr.
Qed.

Lemma terminal_counts r env port k inp ne :
  let fx := applyTerminalPolicy r env (policy r) port k inp ne in
  (forall c, countOf c fx = 0%nat) /\ waits fx = 0%nat.
Proof.
  assert (forall outs ne oe, (forall c, countOf c (reportNode r env inp port k outs ne oe) = 0%nat) /\
          waits (reportNode r env inp port k outs ne oe) = 0%nat) as Hr
    by (intros outs ne' oe; by destruct (proj_report r env inp port k outs ne' oe) as (_ & _ & _ & _ & ? & ?)).
  cbv zeta. unfold applyTerminalPolicy, storeForward, captureDebug.
  repeat case_match; cbn [app]; try apply Hr; split; intros; cbn; apply Hr.
Qed.

(** Retries are bounded and counted: a handled datagram makes at most one attempt
    more than the policy's retries, waits once per retry, counts every failed attempt
    as an error and every retry as one, counts as processed at most once, and never
    asks a missing backoff for a delay. *)
Theorem handle_retries_bounded r env port inp invoke cancelled :
  let fx := handle r env port inp invoke cancelled in
  (countOf Errors fx + countOf Processed fx <= allowedRetries r + 1)%nat /\
  (countOf Retries fx <= allowedRetries r)%nat /\ waits fx = countOf Retries fx /\
  (countOf Retries fx <= countOf Errors fx)%nat /\ (countOf Processed fx <= 1)%nat /\ FNilPanic ∉ fx.
Proof.
  destruct (handle_shape r env port inp invoke cancelled) as (n & fx & -> & Hn & Hf & He).
  destruct (proj_prefix n) as (_ & _ & _ & _ & P5 & P6 & P7 & P8).
  pose proof (retries_allowed r n Hn) as Hle.
  assert (exists e p w rt : nat, countOf Errors fx = e /\ countOf Processed fx = p /\ waits fx = w /\
    countOf Retries fx = rt /\ (FNilPanic ∉ fx) /\ w = rt /\ (rt <= e)%nat /\ (e + p = 1)%nat /\
    (n + rt <= allowedRetries r)%nat) as (e & p & w & rt & H1 & H2 & H3 & H4 & H5 & H6 & H7 & H8 & H9).
  { destruct He as [results E|e E Hp|e E Hp Hm|_ Hp Hm _].
    - destruct (proj_report r env inp port (1 + Z.of_nat n) results None "") as (_ & _ & _ & _ & R1 & R2).
      destruct (proj_dispatch r results) as (_ & _ & _ & _ & D1 & D2).
      exists 0%nat, 1%nat, 0%nat, 0%nat. split_and!; try (proj_simpl; done); try lia.
      rewrite !not_elem_of_app. split_and!; [set_solver|apply dispatch_no_nil|apply report_no_nil].
    - destruct (terminal_counts r env port (1 + Z.of_nat n) inp (AsNodeError e (id r) (1 + Z.of_nat n))) as [T1 T2].
      exists 1%nat, 0%nat, 0%nat, 0%nat. change (FCount Errors :: ?l) with ([FCount Errors] ++ l).
      split_and!; try (proj_simpl; done); try lia.
      apply not_elem_of_app. split; [set_solver|apply terminal_no_nil].
    - destruct (proj_report r env inp port (1 + Z.of_nat n) []
        (Some (AsNodeError e (id r) (1 + Z.of_nat n))) "fail") as (_ & _ & _ & _ & R1 & R2).
      exists 1%nat, 0%nat, 0%nat, 0%nat. change (FCount Errors :: ?l) with ([FCount Errors] ++ l).
      split_and!; try (proj_simpl; done); try lia.
      apply not_elem_of_app. split; [set_solver|apply report_no_nil].
    - exists 1%nat, 0%nat, 1%nat, 1%nat. split_and!; try done; [set_solver|].
      unfold allowedRetries. rewrite decide_True by done. lia. }
  cbv zeta. rewrite !countOf_app, !waits_app, P5, P6, P7, P8, H1, H2, H3, H4.
  split_and!; try lia. apply not_elem_of_app. split; [apply prefix_no_nil|done].
Qed.

(** ** Expired datagrams and the tracker *)

(** The tracker after the calls of a run. *)
Definition trackAll (t : Tracker) (fx : list effect) : Tracker :=
  fold_left (fun t x => NodeEvent t x.1.1 x.1.2 x.2) (tracks fx) t.

(** A datagram whose TTL has passed is never handed to the node's code: it is
    dead-lettered as expired and reported once; one that has not is handled. *)
Theorem expired_dead_lettered r env port inp invoke cancelled :
  let fx := processOne r env port inp invoke cancelled in
  if Expired (header inp) (nowAt env) then
    deadLetters fx = [("ttl_expired", inp)] /\ length (tracks fx) = 1%nat /\ sends fx = [] /\
    (forall c, countOf c fx = 0%nat)
  else fx = FDebug DirIn port inp :: handle r env port inp invoke cancelled.
Proof.
  unfold processOne, dropExpired, captureDebug. by destruct (Expired (header inp) (nowAt env)).
Qed.

(** ** Witnesses and counterexamples *)

Definition retryTwice : flowfile.ErrorPolicy :=
  flowfile.MkErrorPolicy "retry" (Some (flowfile.MkRetryPolicy 2 10 100 false)) None.
Definition demoRunner : nodeRunner :=
  MkNodeRunner "n1" "f1" "in" (Some retryTwice) {["out"]} false None None.
Definition demoEnv : Env := MkEnv 5 1 10000000 "01ERR".
Definition demoIn : dgram := New "01A" 0 noSource (MkPayload ANil None).

(** Fails once, then returns two results, one of them for a port that is not wired. *)
Definition demoInvoke (k : Z) : outcome :=
  if k =? 1 then IPanic "boom" "stack" else IOk [MkPortDatagram "out" demoIn; MkPortDatagram "nowhere" demoIn].
Lemma handle_no_silent_loss_witness :
  fate demoRunner demoEnv "in" demoIn demoInvoke (handle demoRunner demoEnv "in" demoIn demoInvoke (fun _ => false)) /\
  sends (handle demoRunner demoEnv "in" demoIn demoInvoke (fun _ => false)) = [("out", demoIn)].
Proof.
  split; [|vm_compute; reflexivity].
  apply (handle_no_silent_loss demoRunner demoEnv "in" demoIn demoInvoke (fun _ => false)).
  intros k. reflexivity.
Defined.

Definition expiredIn : dgram :=
  MkDatagram (MkHeader "01A" "01A" "" 0 None noSource "" "" QualityGood 4 (Some 1) None) (MkPayload ANil None) [].
Definition trackingIt : Tracker (V := any) :=
  set_maps (NewTracker 0 false 0) (<["01A" := MkExecState 1 false ""]> ∅) ∅.

(** The report of an expired datagram carries no error, so the tracker finishes its
    execution as a success although the datagram was dead-lettered as a failure. *)
Theorem expired_counts_as_success :
  let fx := processOne demoRunner demoEnv "in" expiredIn (fun _ => IOk []) (fun _ => false) in
  deadLetters fx = [("ttl_expired", expiredIn)] /\
  finishing (trackAll trackingIt fx) = [("01A", ExecutionSuccess, "")].
Proof. split; vm_compute; reflexivity. Qed.
End runner.
