(* ===== verification/Deploy.v ===== *)
(** * Hot deploy ([engine/flow/graph.go])

    [Deployment] with [Deploy], the reconciliation of the running graph with a flow
    file, [startNode], [Stop] and the replay operations.  The bus wires are a store of
    [bus.Wire]s, and an inbox is an address in it: fan-outs and node loops hold
    addresses, so that what a node was started with can be compared with the current
    inboxes.  A Go map is iterated in an unspecified order, which is an argument
    ([Range]).  The hash and the JSON encoding of the fingerprints are parameters. *)

From S2P Require Import Prelude Bytes GoStd Datagram Bus Execution FlowFile.
Import gostd flowfile.
Local Open Scope Z_scope.

Module deploy.

(** ** Data *)

Record nodePort := MkNodePort { node : string; port : string }.
#[global] Instance nodePort_eq_dec : EqDecision nodePort.
Proof. solve_decision. Defined.
#[global] Instance nodePort_countable : Countable nodePort.
Proof.
  refine (inj_countable' (fun p => (node p, port p)) (fun p => MkNodePort p.1 p.2) _).
  by intros [].
Defined.
Definition endpoint (e : Endpoint) : nodePort := MkNodePort (ep_Node e) (ep_Port e).

Definition DefaultWireCapacity : Z := 1024.
Definition DefaultBinaryRefThreshold : Z := 256 * 1024.

(** What [nodeFingerprint] hashes. *)
Record nodeKey := MkNodeKey {
  k_Type : string; k_TypeVersion : Z; k_Config : string; k_ErrorPolicy : option ErrorPolicy;
  k_Overflow : string; k_Connection : string; k_Disabled : bool; k_Wires : list Wire
}.

(** [parseOverflow] *)
Definition parseOverflow (spec : string) : bus.OverflowPolicy * Z :=
  if String.prefix "sample:" spec then
    let n := match ParseInt (bytes_of_string (String.substring 7 (String.length spec - 7) spec)) with
             | Some n => if n <? 1 then 1 else n
             | None => 1
             end in
    (bus.OverflowSample, n)
  else if decide (spec = "dropOldest") then (bus.OverflowDropOldest, 0)
  else if decide (spec = "dropNewest") then (bus.OverflowDropNewest, 0)
  else (bus.OverflowBlock, 0).

(** The order in which [range] visits the keys of a map. *)
Record Range := MkRange {
  rangePorts : list nodePort -> list nodePort;
  rangeIDs : list string -> list string;
  rangePorts_perm : forall l, rangePorts l ≡ₚ l;
  rangeIDs_perm : forall l, rangeIDs l ≡ₚ l
}.

Inductive startErr :=
| SEUnknownType | SEConfig (msg : string) | SEQueue | SENotSource | SENoInputs | SENotProcessor
| SEPanic.                                             (* the factory panics *)
Inductive deployErr := DEInvalid (ps : list Problem) | DEStart (id : string) (e : startErr).

(** A started node: the fields of [runningNode], and what its goroutines captured. *)
Record runningNode := MkRunningNode {
  fingerprint : string;
  startCount : Z;
  rn_node : Node;
  rn_flowID : string;
  inputPort : string;
  outputs : gmap string bus.FanOut;
  loops : list (string * option nat);                  (* the inboxes its loops receive from *)
  isTrigger : bool;
  sfQueue : option (list string * Z * Z);              (* directory, maxSizeBytes, maxAge *)
  ring : nat; limiter : nat;
  rn_env : option (gmap string string)
}.

Section deploy.
Context (reg : Registry) (schemaValid : string -> string -> bool).
(** [hex(sha256(...))], and [encoding/json] of the fingerprint structure. *)
Context (sha256 : string -> string) (nodeJSON : nodeKey -> string).
(** Whether [storeforward.Open] succeeds on a directory. *)
Context (openOK : list string -> bool).
Context {V : Type} (zeroD : datagram.Datagram V).

Abbreviation dgram := (datagram.Datagram V).
Abbreviation busWire := (@bus.Wire dgram).

Record Deployment := MkDeployment {
  nodes : gmap string runningNode;
  inboxes : gmap nodePort nat;
  inboxFP : gmap nodePort string;
  outputTargets : gmap nodePort (list nodePort);
  flowID : string;
  g_wires : list Wire;
  ringBuffers : gmap string nat;
  limiters : gmap string nat;
  execTracker : execution.Tracker (V := V);
  flowSettings : Settings;
  defaultErrorFlow : string;
  dataDir : string;
  resolvedEnv : option (gmap string string);
  metricsStopped : bool;
  store : list busWire;                                (* every bus.Wire allocated so far *)
  nextRing : nat;
  undrained : list runningNode                         (* cancelled, still running after the timeout *)
}.

Definition noSettings : Settings := MkSettings "" false None "" None.
Definition NewDeployment : Deployment :=
  MkDeployment ∅ ∅ ∅ ∅ "" [] ∅ ∅ (execution.NewTracker 0 false 0) noSettings "" "" None false [] 0 [].

(** ** Fingerprints *)

Definition zeroInfo : NodeTypeInfo := MkNodeTypeInfo KindSource [] [] false "" "" "" "".
Definition infoOf (n : Node) : NodeTypeInfo :=
  match Lookup reg (Type_ n) with Some (i, _) => i | None => zeroInfo end.

(** [sources[key]] *)
Definition sources (ws : list Wire) (key : nodePort) : list string :=
  map (fun w => (ep_Node (From w) +:+ ":") +:+ ep_Port (From w)) (filter (fun w => endpoint (To w) = key) ws).
Definition inboxFingerprint (overflow : string) (srcs : list string) : string :=
  sha256 (overflow +:+ String.concat "," (sortStrings srcs)).
Definition computeInboxFingerprints (f : FlowFile) : gmap nodePort string :=
  fold_left (fun m n =>
    fold_left (fun m p =>
      let key := MkNodePort (ID n) p in
      <[key := inboxFingerprint (Overflow n) (sources (Wires (graph f)) key)]> m)
      (Inputs (infoOf n)) m)
    (Nodes (graph f)) ∅.

(** [wiresByNode[id]]: a wire is appended once for its source and once for its target. *)
Definition wiresByNode (ws : list Wire) (id : string) : list Wire :=
  flat_map (fun w => (if decide (ep_Node (From w) = id) then [w] else []) ++
                     (if decide (ep_Node (To w) = id) then [w] else [])) ws.
Definition keyOf (n : Node) (touchingWires : list Wire) : nodeKey :=
  MkNodeKey (Type_ n) (TypeVersion n) (Config n) (errorPolicy n) (Overflow n)
    (Connection n) (Disabled n) (sortBy w_ID touchingWires).
Definition nodeFingerprint (n : Node) (touchingWires : list Wire) : string :=
  sha256 (nodeJSON (keyOf n touchingWires)).

(** ** Inboxes *)

Definition setInboxes (g : Deployment) ib fp st : Deployment :=
  MkDeployment (nodes g) ib fp (outputTargets g) (flowID g) (g_wires g) (ringBuffers g) (limiters g)
    (execTracker g) (flowSettings g) (defaultErrorFlow g) (dataDir g) (resolvedEnv g) (metricsStopped g)
    st (nextRing g) (undrained g).
Definition closeAt (st : list busWire) (a : nat) : list busWire := alter bus.Close a st.

(** First loop of [reconcileInboxes], for one key. *)
Definition dropInbox (newFP : gmap nodePort string) (g : Deployment) (key : nodePort) : Deployment :=
  match newFP !! key, inboxes g !! key with
  | None, Some a => setInboxes g (delete key (inboxes g)) (delete key (inboxFP g)) (closeAt (store g) a)
  | _, _ => g
  end.
(** Second loop, for one key. *)
Definition refreshInbox (nodeByID : gmap string Node) (newFP : gmap nodePort string) (g : Deployment)
    (key : nodePort) : Deployment :=
  match newFP !! key with
  | None => g
  | Some fp =>
      if decide (inboxFP g !! key = Some fp) then g
      else
        let st := match inboxes g !! key with Some a => closeAt (store g) a | None => store g end in
        let '(overflow, sampleEvery) :=
          parseOverflow (match nodeByID !! node key with Some n => Overflow n | None => "" end) in
        let w := bus.NewWire zeroD (bus.MkWireConfig DefaultWireCapacity overflow sampleEvery) in
        setInboxes g (<[key := length st]> (inboxes g)) (<[key := fp]> (inboxFP g)) (st ++ [w])
  end.
Definition keysOf {A} (m : gmap nodePort A) : list nodePort := map fst (map_to_list m).
Definition reconcileInboxes (rg : Range) (nodeByID : gmap string Node) (newFP : gmap nodePort string)
    (g : Deployment) : Deployment :=
  let g := fold_left (dropInbox newFP) (rangePorts rg (keysOf (inboxes g))) g in
  fold_left (refreshInbox nodeByID newFP) (rangePorts rg (keysOf newFP)) g.

(** ** Starting and stopping nodes *)

Definition setNodes (g : Deployment) ns rb lm nr un : Deployment :=
  MkDeployment ns (inboxes g) (inboxFP g) (outputTargets g) (flowID g) (g_wires g) rb lm
    (execTracker g) (flowSettings g) (defaultErrorFlow g) (dataDir g) (resolvedEnv g) (metricsStopped g)
    (store g) nr un.

Definition inboxesForOutput (g : Deployment) (nodeID p : string) : list nat :=
  omap (fun key => inboxes g !! key) (default [] (outputTargets g !! MkNodePort nodeID p)).

Definition effectiveOutputs (n : Node) (i : NodeTypeInfo) (inst : Instance_) : list string :=
  default (nt_Outputs i) (dynOutputs inst) ++
  match errorPolicy n with
  | Some p => if decide (OnError p = "errorPort") then ["error"] else []
  | None => []
  end.
Definition buildOutputs (g : Deployment) (nodeID : string) (ports : list string) : gmap string bus.FanOut :=
  fold_left (fun m p => <[p := bus.NewFanOut DefaultBinaryRefThreshold (inboxesForOutput g nodeID p)]> m) ports ∅.

(** The store-and-forward queue: its configuration, none, or an error. *)
Definition openQueue (g : Deployment) (n : Node) : res startErr (option (list string * Z * Z)) :=
  match errorPolicy n with
  | Some p =>
      if decide (OnError p = "storeForward") then
        if decide (dataDir g = "") then Ok None
        else
          let '(maxSizeBytes, maxAge) :=
            match StoreForward p with
            | Some sf => (s64 (s64 (MaxSizeMb sf * 1024) * 1024), s64 (MaxAgeSec sf * 1000000000))
            | None => (0, 0)
            end in
          let dir := [dataDir g; "storeforward"; flowID g; ID n] in
          if openOK dir then Ok (Some (dir, maxSizeBytes, maxAge)) else Err SEQueue
      else Ok None
  | None => Ok None
  end.

(** The goroutines [startNode] launches: the inboxes they receive from, or why it refuses. *)
Definition launch (g : Deployment) (n : Node) (i : NodeTypeInfo) (inst : Instance_)
  : res startErr (list (string * option nat)) :=
  match nt_Kind i with
  | KindSource => if isSource inst then Ok [] else Err SENotSource
  | KindProcessor =>
      match Inputs i with
      | [] => Err SENoInputs
      | p0 :: _ =>
          if isMulti inst then Ok (map (fun p => (p, inboxes g !! MkNodePort (ID n) p)) (Inputs i))
          else if isProcessor inst then Ok [(p0, inboxes g !! MkNodePort (ID n) p0)]
          else Err SENotProcessor
      end
  end.

(** Ring buffer and limiter of a node, created on its first start. *)
Definition ensureRing (g : Deployment) (id : string) : Deployment * nat * nat :=
  let '(rb, nr, r) := match ringBuffers g !! id with
                      | Some r => (ringBuffers g, nextRing g, r)
                      | None => (<[id := nextRing g]> (ringBuffers g), S (nextRing g), nextRing g)
                      end in
  let '(lm, nr, l) := match limiters g !! id with
                      | Some l => (limiters g, nr, l)
                      | None => (<[id := nr]> (limiters g), S nr, nr)
                      end in
  (setNodes g (nodes g) rb lm nr (undrained g), r, l).

Definition startNode (g : Deployment) (n : Node) (i : NodeTypeInfo) (fp : string) (priorStartCount : Z)
  : Deployment * option startErr :=
  match Lookup reg (Type_ n) with
  | None => (g, Some SEUnknownType)
  | Some (_, fac) =>
      match fac (Config n) with
      | Panic => (g, Some SEPanic)
      | Err e => (g, Some (SEConfig e))
      | Ok inst =>
          let outs := buildOutputs g (ID n) (effectiveOutputs n i inst) in
          let '(g, r, l) := ensureRing g (ID n) in
          let inp := match Inputs i with p :: _ => p | [] => "" end in
          match openQueue g n with
          | Err e => (g, Some e)
          | Panic => (g, Some SEPanic)
          | Ok q =>
              match launch g n i inst with
              | Err e => (g, Some e)
              | Panic => (g, Some SEPanic)
              | Ok ls =>
                  let trig := match nt_Kind i with KindSource => Trigger i | KindProcessor => false end in
                  let rn := MkRunningNode fp (priorStartCount + 1) n (flowID g) inp outs ls trig q r l
                              (resolvedEnv g) in
                  (setNodes g (<[ID n := rn]> (nodes g)) (ringBuffers g) (limiters g) (nextRing g) (undrained g),
                   None)
              end
          end
      end
  end.

(** [drained id]: the node's goroutines end within the drain timeout after the cancel. *)
Definition drainStop (drained : string -> bool) (stopped : gmap string runningNode) : list runningNode :=
  map snd (filter (fun p => drained p.1 = false) (map_to_list stopped)).

(** ** Deploy *)

Definition reconfigureTrackerLocked (t : execution.Tracker (V := V)) (s : Settings) : execution.Tracker :=
  if execution.Idle t then
    execution.Reconfigure t (default 0 (MaxConcurrency s)) (bool_decide (ConcurrencyPolicy s = "reject"))
      (match ExecutionTimeoutMs s with Some ms => s64 (ms * 1000000) | None => 0 end)
  else t.

Definition nodeByID (f : FlowFile) : gmap string Node :=
  fold_left (fun m n => <[ID n := n]> m) (Nodes (graph f)) ∅.
Definition outputTargetsOf (ws : list Wire) : gmap nodePort (list nodePort) :=
  fold_left (fun m w => <[endpoint (From w) := default [] (m !! endpoint (From w)) ++ [endpoint (To w)]]> m) ws ∅.
Definition newNodeFP (f : FlowFile) : gmap string string :=
  map_imap (fun id n => Some (nodeFingerprint n (wiresByNode (Wires (graph f)) id))) (nodeByID f).

(** [newNodeFP[id] == rn.fingerprint] ("" for a node that is gone). *)
Definition unaffected (fps : gmap string string) (p : string * runningNode) : Prop :=
  default "" (fps !! p.1) = fingerprint p.2.
#[global] Instance unaffected_dec fps p : Decision (unaffected fps p).
Proof. unfold unaffected. apply _. Defined.

Fixpoint startAll (byID : gmap string Node) (fps : gmap string string) (prior : gmap string runningNode)
    (g : Deployment) (ids : list string) : Deployment * option deployErr :=
  match ids with
  | [] => (g, None)
  | id :: ids' =>
      match nodes g !! id with
      | Some _ => startAll byID fps prior g ids'
      | None =>
          match byID !! id with
          | None => startAll byID fps prior g ids'
          | Some n =>
              let '(g, e) := startNode g n (infoOf n) (default "" (fps !! id))
                               (match prior !! id with Some rn => startCount rn | None => 0 end) in
              match e with
              | Some e => (g, Some (DEStart id e))
              | None => startAll byID fps prior g ids'
              end
          end
      end
  end.

Definition Deploy (rg : Range) (drained : string -> bool) (g : Deployment) (f : FlowFile)
  : Deployment * option deployErr :=
  match Validate reg schemaValid f with
  | (_ :: _) as ps => (g, Some (DEInvalid ps))
  | [] =>
      let byID := nodeByID f in
      let g := MkDeployment (nodes g) (inboxes g) (inboxFP g) (outputTargets g) (ff_ID f) (Wires (graph f))
                 (ringBuffers g) (limiters g) (reconfigureTrackerLocked (execTracker g) (settings f))
                 (settings f) (defaultErrorFlow g) (dataDir g) (resolvedEnv g) (metricsStopped g) (store g)
                 (nextRing g) (undrained g) in
      let g := reconcileInboxes rg byID (computeInboxFingerprints f) g in
      let g := MkDeployment (nodes g) (inboxes g) (inboxFP g) (outputTargetsOf (Wires (graph f))) (flowID g)
                 (g_wires g) (ringBuffers g) (limiters g) (execTracker g) (flowSettings g) (defaultErrorFlow g)
                 (dataDir g) (resolvedEnv g) (metricsStopped g) (store g) (nextRing g) (undrained g) in
      let fps := newNodeFP f in
      let kept := filter (unaffected fps) (nodes g) in
      let stopped := filter (fun p => ~ unaffected fps p) (nodes g) in
      let stillExists := fun p : string * nat => is_Some (byID !! p.1) in
      let lims := filter (fun p => stillExists p \/ ringBuffers g !! p.1 = None) (limiters g) in
      let g := setNodes g kept (filter stillExists (ringBuffers g)) lims
                 (nextRing g) (undrained g ++ drainStop drained stopped) in
      startAll byID fps stopped g (rangeIDs rg (map fst (map_to_list byID)))
  end.

(** [Stop] *)
Definition Stop (drained : string -> bool) (g : Deployment) : Deployment :=
  MkDeployment ∅ ∅ ∅ (outputTargets g) (flowID g) (g_wires g) (ringBuffers g) (limiters g) (execTracker g)
    (flowSettings g) (defaultErrorFlow g) (dataDir g) (resolvedEnv g) true
    (foldr (fun p st => closeAt st p.2) (store g) (map_to_list (inboxes g))) (nextRing g)
    (undrained g ++ drainStop drained (nodes g)).

Definition setConfig (g : Deployment) t ef dir env st : Deployment :=
  MkDeployment (nodes g) (inboxes g) (inboxFP g) (outputTargets g) (flowID g) (g_wires g) (ringBuffers g)
    (limiters g) t (flowSettings g) ef dir env (metricsStopped g) st (nextRing g) (undrained g).
Definition SetDataDir (g : Deployment) (dir : string) : Deployment :=
  setConfig g (execTracker g) (defaultErrorFlow g) dir (resolvedEnv g) (store g).
Definition SetDefaultErrorFlow (g : Deployment) (id : string) : Deployment :=
  setConfig g (execTracker g) id (dataDir g) (resolvedEnv g) (store g).
Definition SetResolvedEnv (g : Deployment) (env : option (gmap string string)) : Deployment :=
  setConfig g (execTracker g) (defaultErrorFlow g) (dataDir g) env (store g).
Definition ErrorFlowTarget (g : Deployment) : string :=
  if decide (ErrorFlow (flowSettings g) = "") then defaultErrorFlow g else ErrorFlow (flowSettings g).

(** ** Replay and re-injection *)

Context (clone : Z -> dgram -> dgram).                 (* Datagram.Clone *)

(** [id] and [now]: the fresh ULID and the clock [datagram.New] reads. *)
Definition freshRootFrom (id : string) (now : Z) (seed : dgram) : dgram :=
  let s := datagram.header seed in
  let d := datagram.New id now (datagram.source s) (datagram.payload seed) in
  let h := datagram.header d in
  datagram.MkDatagram
    (datagram.MkHeader (datagram.ID h) (datagram.CorrelationID h) (datagram.CausationID h) (datagram.Timestamp h)
       (datagram.SourceTimestamp h) (datagram.source h) (datagram.SchemaRef s) (datagram.ContentType s)
       (datagram.quality s) (datagram.Priority h) (datagram.TTLMillis h) (datagram.Tags s))
    (datagram.payload d) (datagram.trace d).

(** [Tracker.Start] run to its end ([StartQueued]: it is still waiting for a slot). *)
Definition startExecution (t : execution.Tracker (V := V)) (id : string)
  : execution.Tracker (V := V) * execution.StartOutcome :=
  match execution.Start_begin t id with
  | (t', execution.StartAcquired) =>
      (default t' (execution.Start_commit t' (length (execution.starting t))), execution.StartAcquired)
  | r => r
  end.

Inductive replayResult :=
| ReplayNoTarget                                       (* an error, nothing started *)
| ReplayRejected                                       (* Start's error *)
| ReplayWaiting                                        (* blocked in Start *)
| ReplayFailed (executionID : string)                  (* the execution's id and an error *)
| ReplayBlocked (executionID : string)                 (* blocked in a Send *)
| ReplayOK (executionID : string).

(** What follows the lookup in both replays: start an execution, then send the datagram. *)
Definition replayInto (freshID : string) (send : list busWire -> list busWire * option bool) (g : Deployment)
  : Deployment * replayResult :=
  let '(t, o) := startExecution (execTracker g) freshID in
  let g := setConfig g t (defaultErrorFlow g) (dataDir g) (resolvedEnv g) (store g) in
  match o with
  | execution.StartRejected => (g, ReplayRejected)
  | execution.StartQueued => (g, ReplayWaiting)
  | execution.StartAcquired =>
      let '(st, r) := send (store g) in
      (setInboxes g (inboxes g) (inboxFP g) st,
       match r with None => ReplayBlocked freshID | Some false => ReplayFailed freshID | Some true => ReplayOK freshID end)
  end.

Definition ReplayOutput (ctxErr : bool) (freshID : string) (now : Z) (g : Deployment) (nodeID p : string)
    (seed : dgram) : Deployment * replayResult :=
  match inboxesForOutput g nodeID p with
  | [] => (g, ReplayNoTarget)
  | ws =>
      replayInto freshID (fun st =>
        match bus.FanOutSend zeroD clone (bus.NewFanOut DefaultBinaryRefThreshold ws) ctxErr st
                (freshRootFrom freshID now seed) with
        | (st, bus.FDone) => (st, Some true)
        | (st, bus.FBlocked _) => (st, None)
        | (st, _) => (st, Some false)
        end) g
  end.

(** [w.Send] on the wire at [a]. *)
Definition sendAt (ctxErr : bool) (a : nat) (d : dgram) (st : list busWire) : list busWire * option bool :=
  match st !! a with
  | None => (st, Some false)
  | Some w =>
      let '(w', o) := bus.Send zeroD ctxErr w d in
      (<[a := w']> st,
       match o with
       | bus.SDelivered | bus.SDropped => Some true
       | bus.SClosed | bus.SCtx => Some false
       | bus.SBlock => None
       end)
  end.
Definition ReplayInput (ctxErr : bool) (freshID : string) (now : Z) (g : Deployment) (nodeID p : string)
    (seed : dgram) : Deployment * replayResult :=
  match inboxes g !! MkNodePort nodeID p with
  | None => (g, ReplayNoTarget)
  | Some a => replayInto freshID (sendAt ctxErr a (freshRootFrom freshID now seed)) g
  end.

(** [None]: blocked in the Send; otherwise whether it returned nil. *)
Definition ReinjectDeadLetter (ctxErr : bool) (g : Deployment) (nodeID p : string) (d : dgram)
  : Deployment * option bool :=
  match inboxes g !! MkNodePort nodeID p with
  | None => (g, Some false)
  | Some a => let '(st, r) := sendAt ctxErr a d (store g) in (setInboxes g (inboxes g) (inboxFP g) st, r)
  end.

Definition CancelExecution (g : Deployment) (executionID : string) : Deployment * bool :=
  let '(t, ok) := execution.Cancel (execTracker g) executionID in
  (setConfig g t (defaultErrorFlow g) (dataDir g) (resolvedEnv g) (store g), ok).

(** ** The maps built from the flow *)

Lemma fold_insert_Some {K A B} `{Countable K} (key : B -> K) (val : B -> A) (l : list B) k v : 
  forall m : gmap K A,
  (forall x y, x ∈ l -> y ∈ l -> key x = key y -> val x = val y) ->
  (forall x, x ∈ l -> m !! key x = None) ->
  (fold_left (fun m x => <[key x := val x]> m) l m !! k = Some v <->
   m !! k = Some v \/ exists x, x ∈ l /\ key x = k /\ val x = v).
Proof.
  intros m. revert m. induction l as [|x l IH] using rev_ind; intros m Hc Hm.
  - cbn. split; [auto|]. intros [?|(x & ?%elem_of_nil & _)]; done.
  - rewrite fold_left_app. cbn. rewrite lookup_insert_Some, IH.
    + setoid_rewrite elem_of_snoc. split.
      * intros [[<- <-]|[Hne [?|(y & Hy & <- & <-)]]]; eauto 10.
      * destruct (decide (key x = k)) as [<-|Hne].
        -- intros [E|(y & Hy & E & <-)]; [rewrite Hm in E by (apply elem_of_snoc; auto); done|].
           left. split; [done|]. symmetry. apply Hc; [by apply elem_of_snoc|by apply elem_of_snoc; right|done].
        -- right. split; [done|]. destruct H0 as [?|(y & [Hy| ->] & <- & <-)]; eauto; done.
    + intros y z Hy Hz. apply Hc; apply elem_of_snoc; auto.
    + intros y Hy. apply Hm, elem_of_snoc; auto.
Qed.

Lemma nodeByID_Some f id n : NoDup (map ID (Nodes (graph f))) ->
  nodeByID f !! id = Some n <-> n ∈ Nodes (graph f) /\ ID n = id.
Proof.
  intros Hnd. unfold nodeByID. rewrite (fold_insert_Some ID (fun n => n)).
  - rewrite lookup_empty. naive_solver.
  - intros x y Hx Hy E. by eapply NoDup_map_inj.
  - intros. apply lookup_empty.
Qed.

Lemma fold_left_flat_map {A B C} (g : C -> B -> C) (h : A -> list B) l : forall c,
  fold_left (fun c x => fold_left g (h x) c) l c = fold_left g (flat_map h l) c.
Proof. induction l as [|x l IH]; intros c; cbn; [done|]. by rewrite fold_left_app, IH. Qed.

(** The inbox fingerprint of a node's input under the wires [ws]. *)
Definition inboxFPof (ws : list Wire) (n : Node) (p : string) : string :=
  inboxFingerprint (Overflow n) (sources ws (MkNodePort (ID n) p)).

Lemma computeInbox_Some f k v : NoDup (map ID (Nodes (graph f))) ->
  computeInboxFingerprints f !! k = Some v <->
  exists n p, n ∈ Nodes (graph f) /\ p ∈ Inputs (infoOf n) /\ k = MkNodePort (ID n) p /\
    v = inboxFPof (Wires (graph f)) n p.
Proof.
  intros Hnd. unfold computeInboxFingerprints.
  set (pairs := flat_map (fun n => map (pair n) (Inputs (infoOf n))) (Nodes (graph f))).
  assert (forall n p, (n, p) ∈ pairs <-> n ∈ Nodes (graph f) /\ p ∈ Inputs (infoOf n)) as Hin.
  { intros n p. unfold pairs. rewrite !list_elem_of_In, in_flat_map. setoid_rewrite in_map_iff.
    split; [by intros (m & Hm & q & [= -> ->] & Hq)|]. intros [H1 H2]. eauto. }
  transitivity (fold_left (fun m x => <[MkNodePort (ID x.1) x.2 := inboxFPof (Wires (graph f)) x.1 x.2]> m) pairs (∅ : gmap nodePort string) !! k = Some v).
  { unfold pairs. rewrite <- fold_left_flat_map.
    match goal with |- ?a !! _ = _ <-> ?b !! _ = _ => cut (a = b); [by intros ->|] end.
    clear Hnd Hin pairs. generalize (∅ : gmap nodePort string).
    induction (Nodes (graph f)) as [|n ns IH]; intros m; cbn; [done|]. rewrite IH. f_equal. revert m.
    induction (Inputs (infoOf n)) as [|p ps IH']; intros m; cbn; [done|]. apply IH'. }
  rewrite (fold_insert_Some (fun x => MkNodePort (ID x.1) x.2) (fun x => inboxFPof (Wires (graph f)) x.1 x.2)).
  - rewrite lookup_empty. split.
    + intros [?|([n p] & [Hn Hp]%Hin & <- & <-)]; [done|]. by exists n, p.
    + intros (n & p & Hn & Hp & -> & ->). right. exists (n, p). split; [by apply Hin|done].
  - intros [n p] [n' p'] [Hn _]%Hin [Hn' _]%Hin [= E ->]. cbn in *.
    by rewrite (NoDup_map_inj ID _ n n' Hnd Hn Hn' E).
  - intros. apply lookup_empty.
Qed.

(** ** Fingerprints determine the inboxes *)

Lemma elem_of_wiresByNode w ws id :
  w ∈ wiresByNode ws id <-> w ∈ ws /\ (ep_Node (From w) = id \/ ep_Node (To w) = id).
Proof.
  unfold wiresByNode. rewrite list_elem_of_In, in_flat_map. setoid_rewrite <- list_elem_of_In.
  split.
  - intros (x & Hx & Hw). repeat case_decide; cbn in Hw; rewrite ?elem_of_cons, ?elem_of_nil in Hw; naive_solver.
  - intros [Hw Ho]. exists w. split; [done|].
    repeat case_decide; cbn; rewrite ?elem_of_cons, ?elem_of_nil; naive_solver.
Qed.

Lemma sources_eq ws1 ws2 id p :
  NoDup (map w_ID ws1) -> NoDup (map w_ID ws2) ->
  (forall w, w ∈ wiresByNode ws1 id <-> w ∈ wiresByNode ws2 id) ->
  sources ws1 (MkNodePort id p) ≡ₚ sources ws2 (MkNodePort id p).
Proof.
  intros H1 H2 Hw. unfold sources. apply fmap_Permutation.
  apply NoDup_Permutation; [apply NoDup_filter; by eapply NoDup_fmap_1..|].
  intros w. rewrite !list_elem_of_filter. unfold endpoint.
  specialize (Hw w). rewrite !elem_of_wiresByNode in Hw. split; intros [[= E1 E2] Hin]; naive_solver.
Qed.

(** Nothing in a fingerprint depends on the order of the wires in the file. *)
Lemma nodeFingerprint_perm n ws ws' id : NoDup (map w_ID ws) -> ws ≡ₚ ws' ->
  nodeFingerprint n (wiresByNode ws id) = nodeFingerprint n (wiresByNode ws' id).
Proof.
  intros Hnd Hp. unfold nodeFingerprint, keyOf. do 3 f_equal. apply sortBy_perm.
  - by apply Permutation_flat_map.
  - intros x y Hx Hy. apply elem_of_wiresByNode in Hx as [Hx _], Hy as [Hy _]. by eapply NoDup_map_inj.
Qed.

(** ** Reconciling the inboxes *)

(** Inboxes and their fingerprints go together; each is its own open wire. *)
Record inbox_inv (g : Deployment) : Prop := MkInboxInv {
  ii_dom : forall k, is_Some (inboxes g !! k) <-> is_Some (inboxFP g !! k);
  ii_inj : forall k k' a, inboxes g !! k = Some a -> inboxes g !! k' = Some a -> k = k';
  ii_open : forall k a, inboxes g !! k = Some a ->
    exists w, store g !! a = Some w /\ bus.closed w = false
}.

(** An inbox: its address, its fingerprint and its wire. *)
Definition view (g : Deployment) (k : nodePort) : option (nat * string * busWire) :=
  a ← inboxes g !! k; fp ← inboxFP g !! k; w ← store g !! a; Some (a, fp, w).

Lemma view_Some g k : inbox_inv g -> is_Some (inboxes g !! k) ->
  exists a fp w, inboxes g !! k = Some a /\ inboxFP g !! k = Some fp /\ store g !! a = Some w /\
    bus.closed w = false /\ view g k = Some (a, fp, w).
Proof.
  intros [Hd _ Ho] Hs. pose proof Hs as [a Ha]. apply Hd in Hs as [fp Hfp]. destruct (Ho k a Ha) as (w & Hw & Hc).
  exists a, fp, w. unfold view. by rewrite Ha, Hfp; cbn; rewrite Hw.
Qed.
Lemma view_None g k : inboxes g !! k = None -> view g k = None.
Proof. intros H. unfold view. by rewrite H. Qed.
Lemma view_inv g k a fp w : view g k = Some (a, fp, w) ->
  inboxes g !! k = Some a /\ inboxFP g !! k = Some fp /\ store g !! a = Some w.
Proof.
  unfold view. destruct (inboxes g !! k) as [a'|], (inboxFP g !! k) as [fp'|]; try done. cbn.
  destruct (store g !! a') as [w'|] eqn:E; [|done]. cbn. by intros [= <- <- <-].
Qed.
Lemma view_fp g k : inbox_inv g -> inboxFP g !! k = (fun x => x.1.2) <$> view g k.
Proof.
  intros Hi. destruct (inboxes g !! k) as [a|] eqn:E.
  - destruct (view_Some g k Hi) as (a' & fp & w & _ & -> & _ & _ & ->); [by rewrite E|done].
  - rewrite view_None by done. destruct (inboxFP g !! k) eqn:E'; [|done].
    destruct (ii_dom g Hi k) as [_ H]. rewrite E, E' in H. destruct H as [? ?]; [by eauto|done].
Qed.

(** What a loop over keys does, from what one round does. *)
Lemma fold_view (step : Deployment -> nodePort -> Deployment)
    (Q : nodePort -> option (nat * string * busWire) -> option (nat * string * busWire) -> Prop) :
  (forall g k, inbox_inv g -> inbox_inv (step g k) /\
     (forall k', k' <> k -> view (step g k) k' = view g k') /\ Q k (view g k) (view (step g k) k)) ->
  forall l g, NoDup l -> inbox_inv g ->
  inbox_inv (fold_left step l g) /\
  (forall k, k ∉ l -> view (fold_left step l g) k = view g k) /\
  (forall k, k ∈ l -> Q k (view g k) (view (fold_left step l g) k)).
Proof.
  intros Hs l. induction l as [|x l IH]; intros g Hnd Hi; cbn.
  - split_and!; [done|done|by intros k ?%elem_of_nil].
  - apply NoDup_cons in Hnd as [Hx Hnd]. destruct (Hs g x Hi) as (H1 & H2 & H3).
    destruct (IH (step g x) Hnd H1) as (I1 & I2 & I3). split_and!; [done| |].
    + intros k [Hk Hkl]%not_elem_of_cons. by rewrite I2, H2.
    + intros k [-> |Hk]%elem_of_cons; [by rewrite I2|]. rewrite <- (H2 k); [by apply I3|congruence].
Qed.

Lemma closeAt_ne st a b : a <> b -> closeAt st a !! b = st !! b.
Proof. intros H. unfold closeAt. by rewrite list_lookup_alter_ne. Qed.
Lemma length_closeAt st a : length (closeAt st a) = length st.
Proof. apply length_alter. Qed.

Lemma dropInbox_step newFP g k : inbox_inv g ->
  inbox_inv (dropInbox newFP g k) /\
  (forall k', k' <> k -> view (dropInbox newFP g k) k' = view g k') /\
  view (dropInbox newFP g k) k = match newFP !! k with Some _ => view g k | None => None end.
Proof.
  intros Hi. unfold dropInbox. destruct (newFP !! k) as [fp|]; [by split_and!|].
  destruct (inboxes g !! k) as [a|] eqn:Ea; [|split_and!; [done|done|by apply view_None]].
  assert (forall k' a', k' <> k -> inboxes g !! k' = Some a' -> a <> a') as Hne.
  { intros k' a' Hk Ha' ->. by apply Hk, (ii_inj g Hi k' k a'). }
  split_and!.
  - destruct Hi as [Hd Hj Ho]. split; cbn.
    + intros k'. destruct (decide (k = k')) as [<-|]; [rewrite !lookup_delete_eq; split; by intros []|].
      by rewrite !lookup_delete_ne.
    + intros k1 k2 b [_ H1]%lookup_delete_Some [_ H2]%lookup_delete_Some. eauto.
    + intros k' a' [Hk Ha']%lookup_delete_Some. rewrite closeAt_ne; [eauto|]. apply (Hne k'); congruence.
  - intros k' Hk. unfold view. cbn. rewrite !lookup_delete_ne by done.
    destruct (inboxes g !! k') as [a'|] eqn:Ea'; [|done]. cbn. rewrite closeAt_ne; [done|]. apply (Hne k'); congruence.
  - apply view_None. cbn. apply lookup_delete_eq.
Qed.

Definition freshWire (byID : gmap string Node) (k : nodePort) : busWire :=
  let '(overflow, sampleEvery) :=
    parseOverflow (match byID !! node k with Some n => Overflow n | None => "" end) in
  bus.NewWire zeroD (bus.MkWireConfig DefaultWireCapacity overflow sampleEvery).
Lemma freshWire_open byID k : bus.closed (freshWire byID k) = false.
Proof. unfold freshWire. by destruct (parseOverflow _). Qed.

Definition refreshed (byID : gmap string Node) (newFP : gmap nodePort string) (k : nodePort)
    (v v' : option (nat * string * busWire)) : Prop :=
  match newFP !! k with
  | None => v' = v
  | Some fp => if decide ((fun x => x.1.2) <$> v = Some fp) then v' = v
               else exists a, v' = Some (a, fp, freshWire byID k)
  end.

Lemma refreshInbox_step byID newFP g k : inbox_inv g ->
  inbox_inv (refreshInbox byID newFP g k) /\
  (forall k', k' <> k -> view (refreshInbox byID newFP g k) k' = view g k') /\
  refreshed byID newFP k (view g k) (view (refreshInbox byID newFP g k) k).
Proof.
  intros Hi. unfold refreshInbox, refreshed. destruct (newFP !! k) as [fp|]; [|by split_and!].
  rewrite <- view_fp by done. destruct (decide (inboxFP g !! k = Some fp)) as [E|E]; [by split_and!|].
  pose proof (freshWire_open byID k) as Hf. unfold freshWire in *. destruct (parseOverflow _) as [ov se].
  set (st := match inboxes g !! k with Some a => closeAt (store g) a | None => store g end).
  assert (length st = length (store g)) as Hl
    by (unfold st; destruct (inboxes g !! k); [apply length_closeAt|done]).
  assert (forall k' a w, k' <> k -> inboxes g !! k' = Some a -> store g !! a = Some w -> st !! a = Some w) as Hst.
  { intros k' a w Hk Ha Hw. unfold st. destruct (inboxes g !! k) as [b|] eqn:Eb; [|done].
    rewrite closeAt_ne; [done|]. intros ->. by apply Hk, (ii_inj g Hi k' k a). }
  assert (forall k' a, inboxes g !! k' = Some a -> (a < length st)%nat) as Hlt.
  { intros k' a Ha. destruct (ii_open g Hi k' a Ha) as (w & Hw & _). rewrite Hl. by eapply lookup_lt_Some. }
  split_and!.
  - destruct Hi as [Hd Hj Ho]. split; cbn.
    + intros k'. destruct (decide (k = k')) as [<-|]; [rewrite !lookup_insert_eq; split; by eauto|].
      by rewrite !lookup_insert_ne.
    + intros k1 k2 b [[<- <-]|[N1 H1]]%lookup_insert_Some [[<- E2]|[N2 H2]]%lookup_insert_Some; eauto.
      * apply Hlt in H2. lia.
      * apply Hlt in H1. lia.
    + intros k' a [[<- <-]|[Hk Ha]]%lookup_insert_Some.
      * eexists. split; [|exact Hf]. by apply list_lookup_middle.
      * destruct (Ho k' a Ha) as (w & Hw & Hc). exists w. split; [|done].
        apply lookup_app_l_Some. eapply Hst; [|done..]. done.
  - intros k' Hk. unfold view. cbn. rewrite !lookup_insert_ne by done.
    destruct (inboxes g !! k') as [a|] eqn:Ea; [|done]. cbn. destruct (ii_open g Hi k' a Ea) as (w & Hw & _).
    rewrite Hw, (lookup_app_l_Some _ _ _ _ (Hst k' a w Hk Ea Hw)). done.
  - exists (length st). unfold view. cbn. rewrite !lookup_insert_eq. cbn. by rewrite list_lookup_middle.
Qed.

Lemma elem_of_keysOf {A} (m : gmap nodePort A) k : k ∈ keysOf m <-> is_Some (m !! k).
Proof.
  unfold keysOf. split.
  - intros ([k' v] & -> & Hv%elem_of_map_to_list)%list_elem_of_fmap. by eauto.
  - intros [v Hv]. apply (list_elem_of_fmap_2 fst _ (k, v)). by apply elem_of_map_to_list.
Qed.
Lemma NoDup_keysOf {A} (m : gmap nodePort A) : NoDup (keysOf m).
Proof. apply NoDup_fst_map_to_list. Qed.

(** The inboxes a flow needs exist, those whose fingerprint is unchanged are the same
    wire at the same address, the others are new, and the rest are gone. *)
Lemma reconcile_spec rg byID newFP g : inbox_inv g ->
  inbox_inv (reconcileInboxes rg byID newFP g) /\
  forall k, match newFP !! k with
            | None => view (reconcileInboxes rg byID newFP g) k = None
            | Some fp => if decide (inboxFP g !! k = Some fp)
                         then view (reconcileInboxes rg byID newFP g) k = view g k
                         else exists a, view (reconcileInboxes rg byID newFP g) k = Some (a, fp, freshWire byID k)
            end.
Proof.
  intros Hi. unfold reconcileInboxes.
  destruct (fold_view (dropInbox newFP) (fun k v v' => v' = match newFP !! k with Some _ => v | None => None end)
    ltac:(intros; by apply dropInbox_step) (rangePorts rg (keysOf (inboxes g))) g) as (I1 & V1 & W1);
    [rewrite rangePorts_perm; apply NoDup_keysOf|done|].
  set (g1 := fold_left _ _ g) in *.
  destruct (fold_view (refreshInbox byID newFP) (refreshed byID newFP)
    ltac:(intros; by apply refreshInbox_step) (rangePorts rg (keysOf newFP)) g1) as (I2 & V2 & W2);
    [rewrite rangePorts_perm; apply NoDup_keysOf|done|].
  split; [done|]. intros k.
  assert (view g1 k = match newFP !! k with Some _ => view g k | None => None end) as Hv.
  { destruct (inboxes g !! k) as [a|] eqn:Ea.
    - apply W1. rewrite rangePorts_perm. apply elem_of_keysOf. by rewrite Ea.
    - rewrite V1, view_None by (rewrite ?rangePorts_perm, ?elem_of_keysOf, ?Ea; try done; by intros []).
      by destruct (newFP !! k). }
  destruct (newFP !! k) as [fp|] eqn:Efp.
  - assert (k ∈ rangePorts rg (keysOf newFP)) as Hin
      by (rewrite rangePorts_perm; apply elem_of_keysOf; by rewrite Efp).
    specialize (W2 k Hin). unfold refreshed in W2. rewrite Efp, Hv, <- (view_fp g k Hi) in W2. done.
  - rewrite V2; [done|]. rewrite rangePorts_perm, elem_of_keysOf, Efp. by intros [].
Qed.

(** What inboxes have to do with is untouched by the reconciliation. *)
Lemma reconcile_frame rg byID newFP g :
  nodes (reconcileInboxes rg byID newFP g) = nodes g /\
  flowID (reconcileInboxes rg byID newFP g) = flowID g.
Proof.
  unfold reconcileInboxes.
  assert (forall l g, nodes (fold_left (dropInbox newFP) l g) = nodes g /\
                      flowID (fold_left (dropInbox newFP) l g) = flowID g) as H1.
  { intros l. induction l as [|k l IH]; intros h; cbn; [done|]. destruct (IH (dropInbox newFP h k)) as [-> ->].
    unfold dropInbox. by destruct (newFP !! k), (inboxes h !! k). }
  assert (forall l g, nodes (fold_left (refreshInbox byID newFP) l g) = nodes g /\
                      flowID (fold_left (refreshInbox byID newFP) l g) = flowID g) as H2.
  { intros l. induction l as [|k l IH]; intros h; cbn; [done|]. destruct (IH (refreshInbox byID newFP h k)) as [-> ->].
    unfold refreshInbox. destruct (newFP !! k); [|done]. case_decide; [done|]. by destruct (parseOverflow _). }
  cbv zeta. destruct (H2 (rangePorts rg (keysOf newFP))
    (fold_left (dropInbox newFP) (rangePorts rg (keysOf (inboxes g))) g)) as [-> ->]. apply H1.
Qed.

(** ** Starting nodes *)

(** Two deployments with the same inboxes. *)
Definition same_wiring (g g' : Deployment) : Prop :=
  inboxes g' = inboxes g /\ inboxFP g' = inboxFP g /\ store g' = store g /\
  outputTargets g' = outputTargets g.

(** [rn] is what [startNode] makes of [n] in [g]. *)
Record started (g : Deployment) (n : Node) (fp : string) (prior : Z) (rn : runningNode) : Prop := MkStarted {
  st_fp : fingerprint rn = fp;
  st_count : startCount rn = prior + 1;
  st_node : rn_node rn = n;
  st_inst : exists fac inst, Lookup reg (Type_ n) = Some (infoOf n, fac) /\ fac (Config n) = Ok inst /\
    outputs rn = buildOutputs g (ID n) (effectiveOutputs n (infoOf n) inst) /\
    launch g n (infoOf n) inst = Ok (loops rn)
}.

Lemma buildOutputs_wiring g g' id ps : same_wiring g g' -> buildOutputs g' id ps = buildOutputs g id ps.
Proof.
  intros (H1 & _ & _ & H4). unfold buildOutputs, inboxesForOutput. by rewrite H1, H4.
Qed.
Lemma launch_wiring g g' n i inst : same_wiring g g' -> launch g' n i inst = launch g n i inst.
Proof. intros (H1 & _). unfold launch. by rewrite H1. Qed.
Lemma started_wiring g g' n fp prior rn : same_wiring g g' -> started g' n fp prior rn -> started g n fp prior rn.
Proof.
  intros Hw [H1 H2 H3 (fac & inst & H4 & H5 & H6 & H7)]. split; try done. exists fac, inst.
  by rewrite <- (buildOutputs_wiring g g') , <- (launch_wiring g g').
Qed.
Lemma same_wiring_refl g : same_wiring g g.
Proof. done. Qed.
Lemma same_wiring_trans g1 g2 g3 : same_wiring g1 g2 -> same_wiring g2 g3 -> same_wiring g1 g3.
Proof. unfold same_wiring. intuition congruence. Qed.

Lemma ensureRing_frame g id g1 r l : ensureRing g id = (g1, r, l) ->
  same_wiring g g1 /\ nodes g1 = nodes g.
Proof.
  unfold ensureRing. intros H.
  destruct (ringBuffers g !! id), (limiters g !! id); injection H as <- _ _; done.
Qed.

Lemma startNode_spec g n fp prior g' e : startNode g n (infoOf n) fp prior = (g', e) ->
  same_wiring g g' /\
  match e with
  | Some _ => nodes g' = nodes g
  | None => exists rn, nodes g' = <[ID n := rn]> (nodes g) /\ started g n fp prior rn
  end.
Proof.
  unfold startNode. destruct (Lookup reg (Type_ n)) as [[i fac]|] eqn:El; [|by intros [= <- <-]].
  assert (infoOf n = i) as Ei by (unfold infoOf; by rewrite El). rewrite Ei.
  destruct (fac (Config n)) as [inst|e1|] eqn:Ef; [|by intros [= <- <-]..].
  destruct (ensureRing g (ID n)) as [[g1 r] l] eqn:Er. apply ensureRing_frame in Er as [Hw Hn].
  destruct (openQueue g1 n) as [q|e1|] eqn:Eq; [|by intros [= <- <-]..].
  destruct (launch g1 n i inst) as [ls|e1|] eqn:Ea; [|by intros [= <- <-]..].
  intros [= <- <-]. split; [by destruct Hw as (? & ? & ? & ?)|].
  eexists. cbn. rewrite Hn. split; [done|]. split; [done..|]. cbn. exists fac, inst. rewrite Ei.
  split_and!; [done..|]. by rewrite (launch_wiring g g1) in Ea.
Qed.

Lemma startAll_spec byID fps prior ids : forall g g' e,
  (forall id n, byID !! id = Some n -> ID n = id) ->
  startAll byID fps prior g ids = (g', e) ->
  same_wiring g g' /\
  (forall id rn, nodes g !! id = Some rn -> nodes g' !! id = Some rn) /\
  (forall id rn, nodes g' !! id = Some rn -> nodes g !! id = Some rn \/
     nodes g !! id = None /\ exists n, byID !! id = Some n /\
       started g n (default "" (fps !! id)) (match prior !! id with Some rn => startCount rn | None => 0 end) rn) /\
  (e = None -> forall id, id ∈ ids -> is_Some (byID !! id) -> is_Some (nodes g' !! id)).
Proof.
  intros g g' e Hid. revert g g' e. induction ids as [|id ids IH]; intros g g' e; cbn.
  - intros [= <- <-]. split_and!; [done|done|auto|]. by intros _ id ?%elem_of_nil.
  - destruct (nodes g !! id) as [rn0|] eqn:En.
    { intros H. destruct (IH _ _ _ H) as (H1 & H2 & H3 & H4). split_and!; [done..|].
      intros He x [-> |Hx]%elem_of_cons Hs; [|by apply H4]. rewrite (H2 _ _ En). by eauto. }
    destruct (byID !! id) as [n|] eqn:Eb.
    2:{ intros H. destruct (IH _ _ _ H) as (H1 & H2 & H3 & H4). split_and!; [done..|].
        intros He x [-> |Hx]%elem_of_cons Hs; [|by apply H4]. rewrite Eb in Hs. by destruct Hs. }
    pose proof (Hid _ _ Eb) as Ein.
    destruct (startNode g n _ _ _) as [g1 e1] eqn:Es. apply startNode_spec in Es as [Hw Hs].
    destruct e1 as [e1|].
    { intros [= <- <-]. rewrite Hs. split_and!; [done|done|auto|done]. }
    destruct Hs as (rn & En1 & Hst). rewrite Ein in En1. intros H.
    destruct (IH _ _ _ H) as (H1 & H2 & H3 & H4). split_and!.
    + by eapply same_wiring_trans.
    + intros x rx Hx. apply H2. rewrite En1, lookup_insert_ne; [done|]. intros ->. congruence.
    + intros x rx Hx. destruct (H3 x rx Hx) as [Hx1|(Hx1 & nx & Hnx & Hsx)].
      * rewrite En1 in Hx1. apply lookup_insert_Some in Hx1 as [[<- <-]|[_ ?]]; [|by left].
        right. split; [done|]. by exists n.
      * rewrite En1 in Hx1. apply lookup_insert_None in Hx1 as [Hx1 _]. right. split; [done|].
        exists nx. split; [done|]. by eapply started_wiring.
    + intros He x [-> |Hx]%elem_of_cons Hs; [|by apply H4].
      rewrite (H2 id rn); [by eauto|]. by rewrite En1, lookup_insert_eq.
Qed.

(** ** One Deploy *)

Definition priorCount (g : Deployment) (id : string) : Z :=
  match nodes g !! id with Some rn => startCount rn | None => 0 end.

Lemma newNodeFP_Some f id v : NoDup (map ID (Nodes (graph f))) ->
  newNodeFP f !! id = Some v <->
  exists n, n ∈ Nodes (graph f) /\ ID n = id /\ v = nodeFingerprint n (wiresByNode (Wires (graph f)) id).
Proof.
  intros Hnd. unfold newNodeFP. rewrite map_lookup_imap.
  destruct (nodeByID f !! id) as [n|] eqn:E; cbn.
  - apply nodeByID_Some in E as [Hn Hi]; [|done]. split; [intros [= <-]; by exists n|].
    intros (n' & Hn' & Hi' & ->). by rewrite (NoDup_map_inj ID _ n n' Hnd Hn Hn') by congruence.
  - split; [done|]. intros (n & Hn & Hi & _). rewrite (proj2 (nodeByID_Some f id n Hnd)) in E; done.
Qed.

Lemma view_wiring g g' k : same_wiring g g' -> view g' k = view g k.
Proof. intros (H1 & H2 & H3 & _). unfold view. by rewrite H1, H2, H3. Qed.
Lemma inbox_inv_wiring g g' : inboxes g' = inboxes g -> inboxFP g' = inboxFP g -> store g' = store g ->
  inbox_inv g -> inbox_inv g'.
Proof. intros H1 H2 H3 [A B C]. split; rewrite ?H1, ?H2, ?H3; done. Qed.

Lemma Deploy_spec rg drained g f g' e : inbox_inv g -> Deploy rg drained g f = (g', e) ->
  (Validate reg schemaValid f <> [] /\ e = Some (DEInvalid (Validate reg schemaValid f)) /\ g' = g) \/
  (well_formed reg schemaValid f /\ inbox_inv g' /\ outputTargets g' = outputTargetsOf (Wires (graph f)) /\
   (forall k, match computeInboxFingerprints f !! k with
              | None => view g' k = None
              | Some fp => if decide (inboxFP g !! k = Some fp) then view g' k = view g k
                           else exists a, view g' k = Some (a, fp, freshWire (nodeByID f) k)
              end) /\
   (forall id rn, nodes g !! id = Some rn -> unaffected (newNodeFP f) (id, rn) -> nodes g' !! id = Some rn) /\
   (forall id rn, nodes g' !! id = Some rn ->
      nodes g !! id = Some rn /\ unaffected (newNodeFP f) (id, rn) \/
      exists n, n ∈ Nodes (graph f) /\ ID n = id /\
        (forall rn0, nodes g !! id = Some rn0 -> ~ unaffected (newNodeFP f) (id, rn0)) /\
        started g' n (nodeFingerprint n (wiresByNode (Wires (graph f)) id)) (priorCount g id) rn) /\
   (e = None -> forall n, n ∈ Nodes (graph f) -> is_Some (nodes g' !! ID n))).
Proof.
  intros Hi. unfold Deploy. pose proof (Validate_spec reg schemaValid f) as HV.
  destruct (Validate reg schemaValid f) as [|p ps]; [|intros [= <- <-]; by left].
  destruct HV as [HV _]. specialize (HV eq_refl). pose proof (wf_ids _ _ _ HV) as Hnd.
  match goal with |- context [reconcileInboxes rg _ _ ?h] => set (g0 := h) end.
  destruct (reconcile_spec rg (nodeByID f) (computeInboxFingerprints f) g0) as [I1 V1];
    [by eapply (inbox_inv_wiring g)|].
  destruct (reconcile_frame rg (nodeByID f) (computeInboxFingerprints f) g0) as [N1 _].
  cbv zeta. match goal with |- startAll _ _ _ ?h _ = _ -> _ => set (g2 := h) end.
  intros H. apply startAll_spec in H as (Hw & K1 & K2 & K3);
    [|intros id n E; by apply (nodeByID_Some f id n Hnd) in E as []].
  right. split; [done|]. pose proof Hw as (W1 & W2 & W3 & W4). split_and!.
  - eapply inbox_inv_wiring; [exact W1|exact W2|exact W3|]. by eapply (inbox_inv_wiring); [..|exact I1].
  - by rewrite W4.
  - intros k. rewrite (view_wiring g2 g' k Hw). exact (V1 k).
  - intros id rn Hrn Hun. apply K1. cbn. rewrite N1. cbn. by apply map_lookup_filter_Some.
  - intros id rn Hrn. destruct (K2 id rn Hrn) as [Hk|(Hk & n & Hn & Hst)]; cbn in Hk; rewrite N1 in Hk; cbn in Hk.
    + left. by apply map_lookup_filter_Some in Hk.
    + right. apply (nodeByID_Some f id n Hnd) in Hn as [Hn Hid]. exists n. split_and!; [done|done| |].
      * intros rn0 H0. apply map_lookup_filter_None in Hk as [Hk|Hk]; [congruence|by apply Hk].
      * assert (newNodeFP f !! id = Some (nodeFingerprint n (wiresByNode (Wires (graph f)) id))) as Ef
          by (apply newNodeFP_Some; [done|]; by exists n). rewrite Ef in Hst. cbn in Hst.
        eapply started_wiring; [|].
        2:{ replace (priorCount g id) with (match filter (fun p => ~ unaffected (newNodeFP f) p) (nodes (reconcileInboxes rg (nodeByID f) (computeInboxFingerprints f) g0)) !! id with Some rn => startCount rn | None => 0 end); [exact Hst|].
            unfold priorCount. rewrite N1. cbn. rewrite map_lookup_filter. destruct (nodes g !! id) as [rn0|] eqn:E0; cbn; [|done].
            apply map_lookup_filter_None in Hk as [Hk|Hk]; [congruence|]. specialize (Hk rn0 E0).
            by rewrite option_guard_True. }
        split_and!; by symmetry.
  - intros He n Hn. apply K3; [done| |].
    + rewrite rangeIDs_perm. apply (list_elem_of_fmap_2 fst _ (ID n, n)), elem_of_map_to_list.
      by apply nodeByID_Some.
    + exists n. by apply nodeByID_Some.
Qed.

(** ** Runs of a deployment *)

(** [reach fs g]: a deployment in state [g] after attempts to deploy [fs] (the last first),
    with stops, settings, executions and traffic on the wires in between. *)
Inductive reach : list FlowFile -> Deployment -> Prop :=
| reach_new : reach [] NewDeployment
| reach_deploy fs g rg drained f : reach fs g -> reach (f :: fs) (fst (Deploy rg drained g f))
| reach_stop fs g drained : reach fs g -> reach fs (Stop drained g)
| reach_send fs g a w ctxErr d : reach fs g -> store g !! a = Some w ->
    reach fs (setInboxes g (inboxes g) (inboxFP g) (<[a := fst (bus.Send zeroD ctxErr w d)]> (store g)))
| reach_receive fs g a w ctxErr : reach fs g -> store g !! a = Some w ->
    reach fs (setInboxes g (inboxes g) (inboxFP g) (<[a := fst (bus.Receive zeroD ctxErr w)]> (store g)))
| reach_exec fs g ev t : reach fs g -> execution.step (execTracker g) ev = Some t ->
    reach fs (setConfig g t (defaultErrorFlow g) (dataDir g) (resolvedEnv g) (store g))
| reach_dataDir fs g dir : reach fs g -> reach fs (SetDataDir g dir)
| reach_errorFlow fs g id : reach fs g -> reach fs (SetDefaultErrorFlow g id)
| reach_env fs g env : reach fs g -> reach fs (SetResolvedEnv g env).

(** A raw JSON value with its insignificant spaces removed, as the encoder writes it. *)
Context (compact : string -> string).
Definition same_key (k k' : nodeKey) : Prop :=
  k_Type k = k_Type k' /\ k_TypeVersion k = k_TypeVersion k' /\ compact (k_Config k) = compact (k_Config k') /\
  k_ErrorPolicy k = k_ErrorPolicy k' /\ k_Overflow k = k_Overflow k' /\ k_Connection k = k_Connection k' /\
  k_Disabled k = k_Disabled k' /\ k_Wires k = k_Wires k'.
Definition fileKey (f : FlowFile) (n : Node) : nodeKey := keyOf n (wiresByNode (Wires (graph f)) (ID n)).
(** The hash tells apart the node definitions of these flows. *)
Definition collision_free (fs : list FlowFile) : Prop :=
  (forall s, sha256 s <> "") /\
  forall f f' n n', f ∈ fs -> f' ∈ fs -> n ∈ Nodes (graph f) -> n' ∈ Nodes (graph f') ->
  sha256 (nodeJSON (fileKey f n)) = sha256 (nodeJSON (fileKey f' n')) -> same_key (fileKey f n) (fileKey f' n').

(** A running node was started from a node of a deployed flow, and reads its live inboxes. *)
Record node_inv (fs : list FlowFile) (g : Deployment) (id : string) (rn : runningNode) (f0 : FlowFile) : Prop := MkNodeInv {
  ni_flow : f0 ∈ fs;
  ni_wf : well_formed reg schemaValid f0;
  ni_node : rn_node rn ∈ Nodes (graph f0);
  ni_id : ID (rn_node rn) = id;
  ni_fp : fingerprint rn = sha256 (nodeJSON (fileKey f0 (rn_node rn)));
  ni_inboxFP : forall p, p ∈ Inputs (infoOf (rn_node rn)) ->
    inboxFP g !! MkNodePort id p = Some (inboxFPof (Wires (graph f0)) (rn_node rn) p);
  ni_loops : forall p oa, (p, oa) ∈ loops rn ->
    p ∈ Inputs (infoOf (rn_node rn)) /\ exists a, oa = Some a /\ inboxes g !! MkNodePort id p = Some a;
  ni_reads : nt_Kind (infoOf (rn_node rn)) = KindProcessor ->
    exists p ps, Inputs (infoOf (rn_node rn)) = p :: ps /\ p ∈ map fst (loops rn)
}.
Definition deploy_inv (fs : list FlowFile) (g : Deployment) : Prop :=
  inbox_inv g /\ forall id rn, nodes g !! id = Some rn -> exists f0, node_inv fs g id rn f0.

Lemma infoOf_type n n' : Type_ n = Type_ n' -> infoOf n = infoOf n'.
Proof. intros E. unfold infoOf. by rewrite E. Qed.

(** Equal fingerprints: the same inboxes under the two flows. *)
Lemma same_key_inboxes f f' n n' p :
  NoDup (map w_ID (Wires (graph f))) -> NoDup (map w_ID (Wires (graph f'))) -> ID n = ID n' ->
  same_key (fileKey f n) (fileKey f' n') ->
  infoOf n = infoOf n' /\ inboxFPof (Wires (graph f)) n p = inboxFPof (Wires (graph f')) n' p.
Proof.
  intros H1 H2 Hid (T & _ & _ & _ & O & _ & _ & W). cbn in *. split; [by apply infoOf_type|].
  unfold inboxFPof, inboxFingerprint. rewrite O, Hid. do 3 f_equal. apply sortStrings_perm, sources_eq; [done..|].
  intros w. rewrite Hid in W. rewrite <- (sortBy_permutes w_ID (wiresByNode (Wires (graph f)) _)), W.
  by rewrite sortBy_permutes.
Qed.

(** A kept node: what it was started from is what the new flow says. *)
Lemma kept_same fs g f id rn f0 : well_formed reg schemaValid f -> collision_free (f :: fs) ->
  node_inv fs g id rn f0 -> unaffected (newNodeFP f) (id, rn) ->
  exists n, n ∈ Nodes (graph f) /\ ID n = id /\ same_key (fileKey f0 (rn_node rn)) (fileKey f n).
Proof.
  intros Hwf [Hne Hcf] Hi Hun. unfold unaffected in Hun. cbn in Hun. rewrite (ni_fp _ _ _ _ _ Hi) in Hun.
  destruct (newNodeFP f !! id) as [fp|] eqn:E; cbn in Hun; [|by destruct (Hne _ (eq_sym Hun))].
  apply newNodeFP_Some in E as (n & Hn & Hid & ->); [|apply (wf_ids _ _ _ Hwf)].
  exists n. split_and!; [done..|]. symmetry in Hun. apply Hcf; [right; apply Hi|by left|apply Hi|done|].
  rewrite Hun. unfold nodeFingerprint, fileKey. by rewrite Hid.
Qed.

(** After a reconciliation, an inbox of the flow exists with its fingerprint. *)
Lemma reconciled_live g g' byID k fp : inbox_inv g ->
  (if decide (inboxFP g !! k = Some fp) then view g' k = view g k
   else exists a, view g' k = Some (a, fp, freshWire byID k)) ->
  exists a w, view g' k = Some (a, fp, w).
Proof.
  intros Hi. destruct (decide _) as [E|E]; [|intros [a ->]; by eauto]. intros ->.
  rewrite (view_fp g k Hi) in E. destruct (view g k) as [[[a fp'] w]|]; [|done]. cbn in E. simplify_eq. by eauto.
Qed.
Lemma launch_loops g n i inst ls p oa : launch g n i inst = Ok ls -> (p, oa) ∈ ls ->
  p ∈ Inputs i /\ oa = inboxes g !! MkNodePort (ID n) p.
Proof.
  unfold launch. destruct (nt_Kind i).
  - destruct (isSource inst); [|done]. intros [= <-] ?%elem_of_nil. done.
  - destruct (Inputs i) as [|p0 ps]; [done|]. destruct (isMulti inst); [|destruct (isProcessor inst); [|done]].
    + intros [= <-] [[= -> ->]|(q & [= -> ->] & Hq)%list_elem_of_fmap]%elem_of_cons; split; try done; by constructor.
    + intros [= <-] [= -> ->]%list_elem_of_singleton. split; [by constructor|done].
Qed.
Lemma launch_reads g n i inst ls : launch g n i inst = Ok ls -> nt_Kind i = KindProcessor ->
  exists p ps, Inputs i = p :: ps /\ p ∈ map fst ls.
Proof.
  unfold launch. intros H Hk. rewrite Hk in H. destruct (Inputs i) as [|p0 ps]; [done|]. exists p0, ps. split; [done|].
  destruct (isMulti inst); [|destruct (isProcessor inst); [|done]]; injection H as <-; by constructor.
Qed.

Lemma Deploy_inv fs rg drained g f : deploy_inv fs g -> collision_free (f :: fs) ->
  deploy_inv (f :: fs) (fst (Deploy rg drained g f)).
Proof.
  intros [Hi Hn] Hcf. destruct (Deploy rg drained g f) as [g' e] eqn:ED. cbn.
  destruct (Deploy_spec _ _ _ _ _ _ Hi ED) as [(_ & _ & ->)|(Hwf & Hi' & _ & Hv & _ & Hnew & _)].
  { split; [done|]. intros id rn Hrn. destruct (Hn id rn Hrn) as [f0 [? ? ? ? ? ? ? ?]].
    exists f0. split; try done. by right. }
  split; [done|]. intros id rn Hrn. destruct (Hnew id rn Hrn) as [[Hold Hun]|(n & Hin & Hid & _ & Hst)].
  - destruct (Hn id rn Hold) as [f0 N]. exists f0.
    destruct (kept_same _ _ _ _ _ _ Hwf Hcf N Hun) as (n & Hin & Hid & Hk).
    assert (forall p, p ∈ Inputs (infoOf (rn_node rn)) ->
      view g' (MkNodePort id p) = view g (MkNodePort id p)) as Hsame.
    { intros p Hp. specialize (Hv (MkNodePort id p)).
      destruct (same_key_inboxes f0 f (rn_node rn) n p) as [Ei Ef];
        [apply (wf_wire_ids _ _ _ (ni_wf _ _ _ _ _ N))|apply (wf_wire_ids _ _ _ Hwf)|by rewrite Hid; apply N|done|].
      rewrite (proj2 (computeInbox_Some f (MkNodePort id p) (inboxFPof (Wires (graph f)) n p) (wf_ids _ _ _ Hwf))) in Hv.
      - rewrite (ni_inboxFP _ _ _ _ _ N p Hp), Ef in Hv. rewrite decide_True in Hv by done. done.
      - exists n, p. rewrite <- Ei. by rewrite Hid. }
    destruct N as [N1 N2 N3 N4 N5 N6 N7 N8]. split; try done; [by right| |].
    + intros p Hp. rewrite (view_fp g' _ Hi'), (Hsame p Hp), <- (view_fp g _ Hi). by apply N6.
    + intros p oa Hl. destruct (N7 p oa Hl) as (Hp & a & -> & Ha). split; [done|]. exists a. split; [done|].
      destruct (view_Some g _ Hi (ex_intro _ a Ha)) as (a' & fp & w & Ha' & _ & _ & _ & Hvw).
      rewrite <- (Hsame p Hp) in Hvw. apply view_inv in Hvw as (-> & _). congruence.
  - exists f. destruct Hst as [S1 S2 S3 (fac & inst & S4 & S5 & S6 & S7)].
    assert (forall p, p ∈ Inputs (infoOf n) -> exists a w,
      view g' (MkNodePort id p) = Some (a, inboxFPof (Wires (graph f)) n p, w)) as Hlive.
    { intros p Hp. specialize (Hv (MkNodePort id p)).
      rewrite (proj2 (computeInbox_Some f (MkNodePort id p) (inboxFPof (Wires (graph f)) n p) (wf_ids _ _ _ Hwf))) in Hv;
        [exact (reconciled_live g g' _ _ _ Hi Hv)|]. exists n, p. by rewrite Hid. }
    split; rewrite ?S3; try done; [by left|by rewrite S1; unfold fileKey; rewrite Hid| | |].
    + intros p Hp. destruct (Hlive p Hp) as (a & w & Hw). by apply view_inv in Hw as (_ & -> & _).
    + intros p oa Hl. destruct (launch_loops _ _ _ _ _ _ _ S7 Hl) as [Hp ->]. split; [done|].
      destruct (Hlive p Hp) as (a & w & Hw). apply view_inv in Hw as (Ha & _). rewrite Hid. by eauto.
    + intros Hk. by eapply launch_reads.
Qed.

Lemma Send_closed ctxErr (w : busWire) d : bus.closed (fst (bus.Send zeroD ctxErr w d)) = bus.closed w.
Proof. unfold bus.Send, bus.sendBlock, bus.waitLocked. repeat (case_match; cbn; try done). Qed.
Lemma Receive_closed ctxErr (w : busWire) : bus.closed (fst (bus.Receive zeroD ctxErr w)) = bus.closed w.
Proof. unfold bus.Receive, bus.waitLocked. repeat (case_match; cbn; try done). Qed.

Lemma traffic_inbox_inv g a w w' : inbox_inv g -> store g !! a = Some w -> bus.closed w' = bus.closed w ->
  inbox_inv (setInboxes g (inboxes g) (inboxFP g) (<[a := w']> (store g))).
Proof.
  intros [H1 H2 H3] Ha Hc. split; cbn; try done. intros k b Hb. destruct (H3 k b Hb) as (v & Hv & Hvc).
  destruct (decide (a = b)) as [<-|]; [|by rewrite list_lookup_insert_ne; eauto].
  rewrite list_lookup_insert_eq by (by eapply lookup_lt_Some). exists w'. split; [done|]. congruence.
Qed.
Lemma traffic_inv fs g a w w' : deploy_inv fs g -> store g !! a = Some w -> bus.closed w' = bus.closed w ->
  deploy_inv fs (setInboxes g (inboxes g) (inboxFP g) (<[a := w']> (store g))).
Proof.
  intros [Hi Hn] Ha Hc. split; [by eapply traffic_inbox_inv|].
  intros id rn Hrn. destruct (Hn id rn Hrn) as [f0 [? ? ? ? ? ? ? ?]]. by exists f0.
Qed.

Lemma collision_free_tail f fs : collision_free (f :: fs) -> collision_free fs.
Proof. intros [H1 H2]. split; [done|]. intros f1 f2 n n' Hf1 Hf2. apply H2; by right. Qed.

Lemma reach_inv fs g : reach fs g -> collision_free fs -> deploy_inv fs g.
Proof.
  induction 1 as [|fs g rg drained f _ IH|fs g drained _ IH|fs g a w ce d _ IH Hw|fs g a w ce _ IH Hw| | | |];
    intros Hcf.
  1:{ split; [split; cbn|done]; try done. intros k. by rewrite !lookup_empty. }
  1:{ apply Deploy_inv; [|done]. by apply IH, (collision_free_tail f). }
  1:{ split; [split; cbn|done]; try done. intros k. by rewrite !lookup_empty. }
  1:{ eapply traffic_inv; [by apply IH|done|apply Send_closed]. }
  1:{ eapply traffic_inv; [by apply IH|done|apply Receive_closed]. }
  all: destruct (IHreach Hcf) as [[? ? ?] Hn]; split; [done|];
    intros id' rn Hrn; destruct (Hn id' rn Hrn) as [f0 [? ? ? ? ? ? ? ?]]; by exists f0.
Qed.

(** What a node runs with agrees with its definition: every field that the fingerprint covers. *)
Definition same_definition (n n' : Node) : Prop :=
  ID n = ID n' /\ Type_ n = Type_ n' /\ TypeVersion n = TypeVersion n' /\
  compact (Config n) = compact (Config n') /\ errorPolicy n = errorPolicy n' /\
  Overflow n = Overflow n' /\ Connection n = Connection n' /\ Disabled n = Disabled n'.

(** The inputs of a running node: the loops of a processor receive from its live, open inboxes. *)
Definition reads_live (g : Deployment) (rn : runningNode) (n : Node) : Prop :=
  (forall p oa, (p, oa) ∈ loops rn -> exists a w, oa = Some a /\
     inboxes g !! MkNodePort (ID n) p = Some a /\ store g !! a = Some w /\ bus.closed w = false) /\
  (nt_Kind (infoOf n) = KindProcessor ->
     exists p ps, Inputs (infoOf n) = p :: ps /\ p ∈ map fst (loops rn)).

Lemma node_inv_reads fs g id rn f0 n : deploy_inv fs g -> node_inv fs g id rn f0 ->
  same_definition (rn_node rn) n -> reads_live g rn n.
Proof.
  intros [Hi _] N (Hid & HT & _). rewrite (ni_id _ _ _ _ _ N) in Hid. split.
  - intros p oa Hl. destruct (ni_loops _ _ _ _ _ N p oa Hl) as (_ & a & -> & Ha).
    destruct (ii_open g Hi _ a Ha) as (w & Hw & Hc). rewrite <- Hid. by exists a, w.
  - rewrite <- (infoOf_type _ _ HT). apply N.
Qed.

(** [C1] A successful Deploy makes the running graph match the flow: exactly the flow's
    nodes run, each with the definition the flow gives it (whether it was kept or
    restarted) and receiving from its live, open inboxes, and exactly the flow's input
    ports have inboxes. *)
Theorem Deploy_reconciles fs g rg drained f g' :
  reach fs g -> collision_free (f :: fs) -> Deploy rg drained g f = (g', None) ->
  (forall id, is_Some (nodes g' !! id) <-> id ∈ map ID (Nodes (graph f))) /\
  (forall n, n ∈ Nodes (graph f) -> exists rn, nodes g' !! ID n = Some rn /\
     same_definition (rn_node rn) n /\ reads_live g' rn n) /\
  (forall k, is_Some (inboxes g' !! k) <->
     exists n p, n ∈ Nodes (graph f) /\ p ∈ Inputs (infoOf n) /\ k = MkNodePort (ID n) p).
Proof.
  intros HR Hcf ED. pose proof (reach_inv _ _ HR (collision_free_tail _ _ Hcf)) as HI.
  pose proof (Deploy_inv fs rg drained g f HI Hcf) as HI'. rewrite ED in HI'. cbn in HI'.
  destruct (Deploy_spec _ _ _ _ _ _ (proj1 HI) ED) as [(_ & ? & _)|(Hwf & Hi' & _ & Hv & _ & Hnew & Hall)]; [done|].
  specialize (Hall eq_refl). pose proof (wf_ids _ _ _ Hwf) as Hnd.
  assert (forall id rn, nodes g' !! id = Some rn -> exists n, n ∈ Nodes (graph f) /\ ID n = id /\
            same_definition (rn_node rn) n) as Hdef.
  { intros id rn Hrn. destruct (Hnew id rn Hrn) as [[Hold Hun]|(n & Hin & Hid & _ & Hst)].
    - destruct (proj2 HI id rn Hold) as [f0 N].
      destruct (kept_same _ _ _ _ _ _ Hwf Hcf N Hun) as (n & Hin & Hid & Hk).
      exists n. split_and!; [done..|]. destruct Hk as (? & ? & ? & ? & ? & ? & ? & _). cbn in *.
      split_and!; try done. by rewrite Hid; apply N.
    - exists n. split_and!; [done..|]. by rewrite (st_node _ _ _ _ _ Hst). }
  split_and!.
  - intros id. split.
    + intros [rn Hrn]. destruct (Hdef id rn Hrn) as (n & Hin & <- & _). by apply (list_elem_of_fmap_2 ID).
    + intros (n & -> & Hn)%list_elem_of_fmap. by apply Hall.
  - intros n Hn. destruct (Hall n Hn) as [rn Hrn]. exists rn. split; [done|].
    destruct (Hdef _ rn Hrn) as (n' & Hn' & Hid & Hs). rewrite (NoDup_map_inj ID _ n' n Hnd Hn' Hn Hid) in Hs.
    split; [done|]. destruct (proj2 HI' _ rn Hrn) as [f0 N]. by eapply node_inv_reads.
  - intros k. specialize (Hv k). destruct (computeInboxFingerprints f !! k) as [fp|] eqn:Ek.
    + destruct (reconciled_live _ _ _ _ _ (proj1 HI) Hv) as (a & w & (Ha & _)%view_inv). rewrite Ha.
      apply computeInbox_Some in Ek as (n & p & Hn & Hp & -> & _); [|done]. split; [eauto|by eauto].
    + split.
      * intros Hs. destruct (view_Some g' k Hi' Hs) as (? & ? & ? & _ & _ & _ & _ & E). congruence.
      * intros (n & p & Hn & Hp & ->).
        rewrite (proj2 (computeInbox_Some f _ (inboxFPof (Wires (graph f)) n p) Hnd)) in Ek; [done|]. by exists n, p.
Qed.

(** ** What a Deploy leaves alone, and what it starts *)

Lemma reach_inbox_inv fs g : reach fs g -> inbox_inv g.
Proof.
  induction 1 as [|fs g rg drained f _ IH|fs g drained _ IH|fs g a w ce d _ IH Hw|fs g a w ce _ IH Hw| | | |];
    try done.
  1,3: split; cbn; try done; intros k; by rewrite !lookup_empty.
  - destruct (Deploy rg drained g f) as [g' e] eqn:E. cbn.
    destruct (Deploy_spec _ _ _ _ _ _ IH E) as [(_ & _ & ->)|(_ & H & _)]; done.
  - eapply traffic_inbox_inv; [done..|apply Send_closed].
  - eapply traffic_inbox_inv; [done..|apply Receive_closed].
  - by destruct IHreach.
  - by destruct IHreach.
  - by destruct IHreach.
  - by destruct IHreach.
Qed.

Lemma outputTargetsOf_lookup ws k :
  default [] (outputTargetsOf ws !! k) = map (fun w => endpoint (To w)) (filter (fun w => endpoint (From w) = k) ws).
Proof.
  unfold outputTargetsOf. induction ws as [|w ws IH] using rev_ind; [done|].
  rewrite fold_left_app, filter_app, map_app. cbn [fold_left]. rewrite <- IH.
  destruct (decide (endpoint (From w) = k)) as [<-|Hne].
  - rewrite lookup_insert_eq, filter_cons_True by done. done.
  - rewrite lookup_insert_ne, filter_cons_False by done. cbn. by rewrite app_nil_r.
Qed.

Lemma buildOutputs_lookup g id ps p :
  buildOutputs g id ps !! p =
  if decide (p ∈ ps) then Some (bus.NewFanOut DefaultBinaryRefThreshold (inboxesForOutput g id p)) else None.
Proof.
  unfold buildOutputs.
  destruct (decide (p ∈ ps)) as [Hp|Hp].
  - apply (fold_insert_Some (fun p => p) (fun p => bus.NewFanOut DefaultBinaryRefThreshold (inboxesForOutput g id p))).
    + by intros x y _ _ ->.
    + intros. apply lookup_empty.
    + right. by exists p.
  - destruct (fold_left _ ps ∅ !! p) as [o|] eqn:E; [|done].
    apply (fold_insert_Some (fun p => p) (fun p => bus.NewFanOut DefaultBinaryRefThreshold (inboxesForOutput g id p))) in E
      as [E|(x & Hx & -> & _)]; [by rewrite lookup_empty in E|done| |].
    + by intros x y _ _ ->.
    + intros. apply lookup_empty.
Qed.

(** Every output of a node started by this Deploy feeds the live inbox of each of its wires,
    in the order of the file. *)
Definition feeds_live (g : Deployment) (f : FlowFile) (rn : runningNode) (n : Node) : Prop :=
  (forall p fo, outputs rn !! p = Some fo ->
     Forall2 (fun w a => inboxes g !! endpoint (To w) = Some a)
       (filter (fun w => endpoint (From w) = MkNodePort (ID n) p) (Wires (graph f))) (bus.wires fo)) /\
  (forall w, w ∈ Wires (graph f) -> ep_Node (From w) = ID n -> is_Some (outputs rn !! ep_Port (From w))).

Lemma started_feeds g f n fp prior rn : well_formed reg schemaValid f -> n ∈ Nodes (graph f) ->
  outputTargets g = outputTargetsOf (Wires (graph f)) ->
  (forall n p, n ∈ Nodes (graph f) -> p ∈ Inputs (infoOf n) -> is_Some (inboxes g !! MkNodePort (ID n) p)) ->
  started g n fp prior rn -> feeds_live g f rn n.
Proof.
  intros Hwf Hn Ho Hin [_ _ _ (fac & inst & El & Ef & Eo & _)]. split.
  - intros p fo Hfo. rewrite Eo, buildOutputs_lookup in Hfo. destruct (decide _); [|done]. injection Hfo as <-. cbn.
    unfold inboxesForOutput. rewrite Ho, outputTargetsOf_lookup.
    pose proof (wf_to _ _ _ Hwf) as Hto. clear Ho. induction Hto as [|w ws Hw _ IH]; [constructor|].
    destruct (decide (endpoint (From w) = MkNodePort (ID n) p)).
    + rewrite filter_cons_True by done. cbn. destruct Hw as (m & i & Hm & Em & Ei & Hp).
      assert (infoOf m = i) as Eim.
      { unfold infoOf, info_of in *. destruct (Lookup reg (Type_ m)) as [[? ?]|]; cbn in *; congruence. }
      destruct (Hin m (ep_Port (To w)) Hm) as [a Ha]; [by rewrite Eim|].
      rewrite Em in Ha. change (inboxes g !! endpoint (To w) = Some a) in Ha. rewrite Ha.
      constructor; [done|exact IH].
    + by rewrite filter_cons_False.
  - intros w Hw Hid. pose proof (wf_from _ _ _ Hwf) as Hfrom. eapply Forall_forall in Hfrom; [|exact Hw].
    destruct Hfrom as (m & Hm & Em & Hp).
    assert (m = n) as -> by (eapply (NoDup_map_inj ID); [apply (wf_ids _ _ _ Hwf)|done..|congruence]).
    rewrite Eo, buildOutputs_lookup. rewrite decide_True; [by eauto|]. unfold effectiveOutputs.
    apply elem_of_app. destruct Hp as [Hp|[-> (pol & Epol & Eon)]].
    + left. unfold outputs_of in Hp. by rewrite El, Ef in Hp.
    + right. rewrite Epol, decide_True by done. by constructor.
Qed.

(** [C2] Deploy touches only what changed: an inbox whose fingerprint is unchanged stays the
    same wire with the same contents, a node whose fingerprint is unchanged keeps
    running (same goroutines, fan-outs and start count), and every other running node
    was started by this Deploy from the flow's definition, with its start count one
    more than before and its outputs feeding the live inboxes of all its wires. *)
Theorem Deploy_minimal fs g rg drained f g' e :
  reach fs g -> well_formed reg schemaValid f -> Deploy rg drained g f = (g', e) ->
  (forall k, is_Some (inboxFP g !! k) -> inboxFP g !! k = computeInboxFingerprints f !! k ->
     exists a w, inboxes g !! k = Some a /\ store g !! a = Some w /\
       inboxes g' !! k = Some a /\ store g' !! a = Some w) /\
  (forall id rn, nodes g !! id = Some rn -> unaffected (newNodeFP f) (id, rn) -> nodes g' !! id = Some rn) /\
  (forall id rn, nodes g' !! id = Some rn ->
     nodes g !! id = Some rn /\ unaffected (newNodeFP f) (id, rn) \/
     exists n, n ∈ Nodes (graph f) /\ ID n = id /\ rn_node rn = n /\
       startCount rn = priorCount g id + 1 /\ feeds_live g' f rn n).
Proof.
  intros HR Hwf ED. pose proof (reach_inbox_inv _ _ HR) as Hi.
  destruct (Deploy_spec _ _ _ _ _ _ Hi ED) as [(E & _)|(_ & Hi' & Ho & Hv & Hkeep & Hnew & _)].
  { by destruct E; apply Validate_spec. }
  split_and!; [|done|].
  - intros k [fp Hfp] E. specialize (Hv k). rewrite <- E, Hfp, decide_True in Hv by done.
    destruct (view_Some g k Hi) as (a & fp' & w & Ha & _ & Hw & _ & Hg); [apply (ii_dom g Hi); by rewrite Hfp|].
    rewrite Hg in Hv. apply view_inv in Hv as (? & _ & ?). by exists a, w.
  - intros id rn Hrn. destruct (Hnew id rn Hrn) as [?|(n & Hin & Hid & _ & Hst)]; [by left|].
    right. exists n. split_and!; [done..|apply Hst|apply Hst|]. eapply started_feeds; [done..| |exact Hst].
    intros m p Hm Hp. specialize (Hv (MkNodePort (ID m) p)).
    rewrite (proj2 (computeInbox_Some f _ (inboxFPof (Wires (graph f)) m p) (wf_ids _ _ _ Hwf))) in Hv;
      [|by exists m, p].
    destruct (reconciled_live _ _ _ _ _ Hi Hv) as (a & w & (Ha & _)%view_inv). by eauto.
Qed.

(** ** Redeploying the same graph *)

Lemma fold_noop {A B} (h : A -> B -> A) l a : (forall b, b ∈ l -> h a b = a) -> fold_left h l a = a.
Proof.
  induction l as [|b l IH]; intros H; cbn; [done|]. rewrite (H b) by (by constructor).
  apply IH. intros c Hc. apply H. by constructor.
Qed.
Lemma reconcile_noop rg byID newFP g : inbox_inv g -> newFP = inboxFP g -> reconcileInboxes rg byID newFP g = g.
Proof.
  intros Hi ->. unfold reconcileInboxes. rewrite (fold_noop (dropInbox (inboxFP g))).
  - apply fold_noop. intros k Hk. rewrite rangePorts_perm, elem_of_keysOf in Hk. destruct Hk as [fp Hfp].
    unfold refreshInbox. rewrite Hfp. by rewrite decide_True.
  - intros k Hk. rewrite rangePorts_perm, elem_of_keysOf in Hk. apply (ii_dom g Hi) in Hk as [fp Hfp].
    unfold dropInbox. by rewrite Hfp.
Qed.
Lemma startAll_noop byID fps prior g ids : (forall id, is_Some (byID !! id) -> is_Some (nodes g !! id)) ->
  startAll byID fps prior g ids = (g, None).
Proof.
  intros H. induction ids as [|id ids IH]; cbn; [done|]. destruct (nodes g !! id) eqn:E; [done|].
  destruct (byID !! id) eqn:Eb; [|done]. destruct (H id) as [? ?]; [by rewrite Eb|congruence].
Qed.

(** The same nodes and wires, in any order. *)
Definition same_graph (f f' : FlowFile) : Prop :=
  Nodes (graph f) ≡ₚ Nodes (graph f') /\ Wires (graph f) ≡ₚ Wires (graph f').

Lemma same_graph_fps f f' : same_graph f f' -> well_formed reg schemaValid f ->
  computeInboxFingerprints f' = computeInboxFingerprints f /\ newNodeFP f' = newNodeFP f /\
  NoDup (map ID (Nodes (graph f'))).
Proof.
  intros [Hn Hw] Hwf. pose proof (wf_ids _ _ _ Hwf) as Hnd. pose proof (proj1 (wf_wire_ids _ _ _ Hwf)) as Hwd.
  assert (NoDup (map ID (Nodes (graph f')))) as Hnd' by by rewrite <- Hn.
  split_and!; [| |done]; apply map_eq; intros k; apply option_eq; intros v.
  - rewrite !computeInbox_Some by done. setoid_rewrite <- Hn. unfold inboxFPof, inboxFingerprint.
    assert (forall n p, sortStrings (sources (Wires (graph f')) (MkNodePort (ID n) p)) =
                        sortStrings (sources (Wires (graph f)) (MkNodePort (ID n) p))) as Es.
    { intros n p. apply sortStrings_perm. unfold sources. by rewrite Hw. }
    by setoid_rewrite Es.
  - rewrite !newNodeFP_Some by done. setoid_rewrite <- Hn.
    assert (forall n, nodeFingerprint n (wiresByNode (Wires (graph f)) k) =
                      nodeFingerprint n (wiresByNode (Wires (graph f')) k)) as Es
      by (intros n; by apply nodeFingerprint_perm).
    by setoid_rewrite Es.
Qed.

(** Deploying a graph that runs already, its nodes and wires listed in any order,
    disturbs nothing: no node is stopped or started, and every inbox is the same wire
    with the same contents. *)
Theorem redeploy_noop fs g rg drained f g1 rg' drained' f' :
  reach fs g -> Deploy rg drained g f = (g1, None) -> same_graph f f' -> well_formed reg schemaValid f' ->
  exists g2, Deploy rg' drained' g1 f' = (g2, None) /\ nodes g2 = nodes g1 /\
    inboxes g2 = inboxes g1 /\ store g2 = store g1 /\ undrained g2 = undrained g1.
Proof.
  intros HR ED Hsg Hwf'. pose proof (reach_inbox_inv _ _ HR) as Hi.
  destruct (Deploy_spec _ _ _ _ _ _ Hi ED) as [(_ & ? & _)|(Hwf & Hi1 & _ & Hv & _ & Hnew & Hall)]; [done|].
  destruct (same_graph_fps f f' Hsg Hwf) as (Ei & En & Hnd').
  assert (computeInboxFingerprints f' = inboxFP g1) as Efp.
  { rewrite Ei. apply map_eq. intros k. specialize (Hv k). rewrite (view_fp g1 k Hi1).
    destruct (computeInboxFingerprints f !! k) as [fp|]; [|by rewrite Hv].
    by destruct (reconciled_live _ _ _ _ _ Hi Hv) as (a & w & ->). }
  assert (map_Forall (fun id rn => unaffected (newNodeFP f') (id, rn)) (nodes g1)) as Hun.
  { intros id rn Hrn. rewrite En. destruct (Hnew id rn Hrn) as [[_ ?]|(n & Hn & Hid & _ & Hst)]; [done|].
    unfold unaffected. cbn. rewrite (proj2 (newNodeFP_Some f id _ (wf_ids _ _ _ Hwf)) ltac:(by exists n)).
    symmetry. apply Hst. }
  unfold Deploy. rewrite (proj2 (Validate_spec reg schemaValid f') Hwf'). cbv zeta.
  rewrite reconcile_noop by (try done; by eapply (inbox_inv_wiring g1)). cbn.
  assert (filter (unaffected (newNodeFP f')) (nodes g1) = nodes g1) as ->
    by (apply map_filter_id; intros id rn Hrn; by apply Hun).
  assert (filter (fun p => ~ unaffected (newNodeFP f') p) (nodes g1) = ∅) as ->.
  { apply map_empty. intros id. apply map_lookup_filter_None. right. intros rn Hrn Hno. by apply Hno, Hun. }
  rewrite startAll_noop.
  - eexists. split; [done|]. cbn. unfold drainStop. rewrite map_to_list_empty. cbn. by rewrite app_nil_r.
  - intros id [n (Hn & <-)%nodeByID_Some]; [|done]. cbn. apply Hall; [done|]. by rewrite (proj1 Hsg).
Qed.
End deploy.

(** ** A concrete engine *)

Module example.

(** A hash without collisions: the structure's own code, in binary. *)
#[global] Instance Endpoint_countable : Countable Endpoint.
Proof. by refine (inj_countable' (fun e => (ep_Node e, ep_Port e)) (fun p => MkEndpoint p.1 p.2) _); intros []. Defined.
#[global] Instance Wire_countable : Countable Wire.
Proof. by refine (inj_countable' (fun w => (w_ID w, From w, To w)) (fun p => MkWire p.1.1 p.1.2 p.2) _); intros []. Defined.
#[global] Instance RetryPolicy_countable : Countable RetryPolicy.
Proof.
  by refine (inj_countable' (fun r => (Max r, BackoffMs r, MaxBackoffMs r, Jitter r))
               (fun p => MkRetryPolicy p.1.1.1 p.1.1.2 p.1.2 p.2) _); intros [].
Defined.
#[global] Instance StoreForwardPolicy_countable : Countable StoreForwardPolicy.
Proof.
  by refine (inj_countable' (fun s => (MaxSizeMb s, MaxAgeSec s)) (fun p => MkStoreForwardPolicy p.1 p.2) _); intros [].
Defined.
#[global] Instance ErrorPolicy_countable : Countable ErrorPolicy.
Proof.
  by refine (inj_countable' (fun e => (OnError e, Retry e, StoreForward e))
               (fun p => MkErrorPolicy p.1.1 p.1.2 p.2) _); intros [].
Defined.
#[global] Instance nodeKey_eq_dec : EqDecision nodeKey.
Proof. solve_decision. Defined.
#[global] Instance nodeKey_countable : Countable nodeKey.
Proof.
  by refine (inj_countable'
    (fun k => (k_Type k, k_TypeVersion k, k_Config k, k_ErrorPolicy k, k_Overflow k, k_Connection k, k_Disabled k, k_Wires k))
    (fun '(a, b, c, d, e, f, g, h) => MkNodeKey a b c d e f g h) _); intros [].
Defined.
Fixpoint bits (p : positive) : string :=
  match p with xH => "1" | xO q => "0" +:+ bits q | xI q => "1" +:+ bits q end.
Lemma bits_inj p : forall q, bits p = bits q -> p = q.
Proof.
  assert (forall p, bits p <> "") as Hne by (intros []; done).
  induction p as [p IH|p IH|]; intros [q|q|]; cbn; intros E; try (injection E as E); try done;
    try (f_equal; by apply IH); by destruct (Hne p) || destruct (Hne q).
Qed.
Definition hash (s : string) : string := "h" +:+ s.
Definition json (k : nodeKey) : string := bits (encode k).

Lemma hash_collision_free fs : collision_free hash json (fun s => s) fs.
Proof.
  split; [done|]. intros f f' n n' _ _ _ _ [= E]. apply bits_inj, (inj encode) in E. by rewrite E.
Qed.

(** A source type and a sink type. *)
Definition genType : registration :=
  MkRegistration (MkNodeTypeInfo KindSource [] ["out"] false "" "" "" "") (fun _ => Ok (MkInstance true false false None)).
Definition logType : registration :=
  MkRegistration (MkNodeTypeInfo KindProcessor ["in"] [] false "" "" "" "") (fun _ => Ok (MkInstance false true false None)).
Definition reg0 : Registry := {["gen" := genType; "log" := logType]}.
Definition schema0 (s c : string) : bool := true.
Definition open0 (dir : list string) : bool := true.
Definition zero0 : datagram.Datagram Z :=
  datagram.New "" 0 (datagram.MkSource "" "" "" "" "") (datagram.MkPayload 0 None).
Definition inOrder : Range := MkRange (fun l => l) (fun l => l) (fun l => reflexivity l) (fun l => reflexivity l).
Definition allDrain (id : string) : bool := true.

Definition mkNode (id ty : string) : Node := MkNode id ty 1 "" false "" "" None "".
Definition link (id from to : string) : Wire := MkWire id (MkEndpoint from "out") (MkEndpoint to "in").
Definition flow (ns : list Node) (ws : list Wire) : FlowFile :=
  MkFlowFile 1 "flow" "f" "" "" ModeStreaming false None noSettings [] (MkGraph ns ws) None None.
(** A feeds B; then a second source C is wired into B. *)
Definition flowAB : FlowFile := flow [mkNode "A" "gen"; mkNode "B" "log"] [link "w1" "A" "B"].
Definition flowABC : FlowFile :=
  flow [mkNode "A" "gen"; mkNode "B" "log"; mkNode "C" "gen"] [link "w1" "A" "B"; link "w2" "C" "B"].
Definition flowCBA : FlowFile :=
  flow [mkNode "C" "gen"; mkNode "B" "log"; mkNode "A" "gen"] [link "w2" "C" "B"; link "w1" "A" "B"].

Abbreviation deploy0 := (Deploy reg0 schema0 hash json open0 zero0 inOrder allDrain).
Abbreviation reach0 := (reach reg0 schema0 hash json open0 zero0).
Abbreviation gAB := (fst (deploy0 NewDeployment flowAB)).
Abbreviation gABC := (fst (deploy0 gAB flowABC)).

Lemma reach_AB : reach0 [flowAB] gAB.
Proof. apply reach_deploy. apply reach_new. Qed.
Lemma with_result {A B} (x : A * B) b : snd x = b -> x = (fst x, b).
Proof. by destruct x; cbn; intros ->. Qed.
Lemma deploy_AB : deploy0 NewDeployment flowAB = (gAB, None).
Proof. apply with_result. vm_compute. reflexivity. Qed.
Lemma deploy_ABC : deploy0 gAB flowABC = (gABC, None).
Proof. apply with_result. vm_compute. reflexivity. Qed.
Lemma valid_ABC : well_formed reg0 schema0 flowABC.
Proof. apply Validate_spec. vm_compute. reflexivity. Qed.
Lemma valid_CBA : well_formed reg0 schema0 flowCBA.
Proof. apply Validate_spec. vm_compute. reflexivity. Qed.
End example.
Import example.

Lemma Deploy_reconciles_witness :
  is_Some (nodes gABC !! "C") /\ exists rn, nodes gABC !! "B" = Some rn /\ reads_live reg0 gABC rn (mkNode "B" "log").
Proof.
  destruct (Deploy_reconciles reg0 schema0 hash json open0 zero0 (fun s => s) [flowAB] gAB inOrder allDrain flowABC gABC)
    as (H1 & H2 & _).
  - exact reach_AB.
  - apply hash_collision_free.
  - exact deploy_ABC.
  - split; [apply H1; by repeat constructor|].
    destruct (H2 (mkNode "B" "log")) as (rn & Hrn & _ & Hl); [by repeat constructor|].
    exists rn. split; [exact Hrn|exact Hl].
Defined.
Lemma Deploy_minimal_witness :
  nodes gABC !! "A" = nodes gAB !! "A" /\
  forall rn, nodes gABC !! "C" = Some rn -> nodes gAB !! "C" = None ->
    startCount rn = 1 /\ feeds_live gABC flowABC rn (mkNode "C" "gen").
Proof.
  destruct (Deploy_minimal reg0 schema0 hash json open0 zero0 [flowAB] gAB inOrder allDrain flowABC gABC None)
    as (_ & Hk & Hn); [exact reach_AB|exact valid_ABC|exact deploy_ABC|].
  split.
  - destruct (nodes gAB !! "A") as [rn|] eqn:E; [|vm_compute in E; discriminate E].
    apply Hk; [exact E|]. assert (bool_decide (unaffected (newNodeFP hash json flowABC)
      ("A", default rn (nodes gAB !! "A"))) = true) as Hb by (vm_compute; reflexivity).
    rewrite E in Hb. apply bool_decide_eq_true in Hb. exact Hb.
  - intros rn Hrn Hno. destruct (Hn "C" rn Hrn) as [[Hold _]|(n & Hin & Hid & _ & Hc & Hf)].
    { rewrite Hno in Hold. discriminate Hold. }
    unfold priorCount in Hc. rewrite Hno in Hc. split; [exact Hc|].
    replace (mkNode "C" "gen") with n; [exact Hf|].
    repeat (apply elem_of_cons in Hin as [-> |Hin]; [try discriminate Hid; try reflexivity|]).
    apply elem_of_nil in Hin. destruct Hin.
Defined.
Lemma redeploy_noop_witness :
  exists g2, deploy0 gABC flowCBA = (g2, None) /\ nodes g2 = nodes gABC /\
    inboxes g2 = inboxes gABC /\ store g2 = store gABC /\ undrained g2 = undrained gABC.
Proof.
  apply (redeploy_noop reg0 schema0 hash json open0 zero0 [flowAB] gAB inOrder allDrain flowABC gABC);
    [exact reach_AB|exact deploy_ABC| |exact valid_CBA].
  split; cbn; solve_Permutation.
Defined.

(** Rewiring the input of a node leaves its unchanged upstream nodes connected to the
    old inbox: after C is wired into B, node A is kept (its own definition and wires are
    the same), but its fan-out still holds B's former wire, which is closed, so what A
    emits fails with ErrClosed and never reaches B. *)
Theorem kept_node_feeds_closed_wire :
  deploy0 gAB flowABC = (gABC, None) /\
    nodes gABC !! "A" = nodes gAB !! "A" /\
    exists fo, (rn ← nodes gABC !! "A"; outputs rn !! "out") = Some fo /\ bus.wires fo = [0%nat] /\
    inboxes gABC !! MkNodePort "B" "in" = Some 1%nat /\
    bus.closed <$> (store gABC !! 0%nat) = Some true /\
    forall d, snd (bus.FanOutSend zero0 (fun _ d => d) fo false (store gABC) d) = bus.FErr bus.SClosed.
Proof.
  split; [exact deploy_ABC|]. split.
  - vm_compute. reflexivity.
  - eexists. split; [vm_compute; reflexivity|]. split; [reflexivity|]. split; [vm_compute; reflexivity|].
    split; [vm_compute; reflexivity|]. intros d. vm_compute. reflexivity.
Qed.
End deploy.
