(* ===== verification/WindowAgg.v ===== *)
(** * The window-aggregate node ([engine/nodes/windowagg])

    Tumbling, sliding and session windows per group, and the aggregates computed over a
    closed window.  The group expression is a parameter; the clock is an argument.  The
    theorems read a run of the node group by group: which items each window holds. *)

From Stdlib Require Import SpecFloat.
From stdpp Require Import sorting.
From S2P Require Import Prelude GoStd Float Datagram Execution Value.
Import gostd float datagram execution value.
Local Open Scope Z_scope.

Module windowagg.

Record AggregateOp := MkAggregateOp { Field : string; Op : string; Percentile : float64; As : string }.
Record Config := MkConfig {
  WindowType : string; WindowBy : string; SizeMs : Z; Count : Z; SessionGapMs : Z; GroupBy : string;
  Aggregates : list AggregateOp
}.
Definition validOps : list string :=
  ["min"; "max"; "avg"; "sum"; "count"; "first"; "last"; "stddev"; "percentile"; "collect"].

(** [windowStart], [lastItem]: [None] is the zero time. *)
Record groupState := MkGroupState {
  items : list any; itemTimes : list Z; windowStart : option Z; lastItem : option Z
}.
Definition newGroup : groupState := MkGroupState [] [] None None.

(** ** Aggregates *)

(** [sort.Float64s]: NaNs first. *)
Definition isNaN (f : float64) : bool := match f with S754_nan => true | _ => false end.
Definition fless (x y : float64) : bool := flt x y || (isNaN x && negb (isNaN y)).
Fixpoint finsert (x : float64) (l : list float64) : list float64 :=
  match l with
  | [] => [x]
  | y :: l' => if fless y x then y :: finsert x l' else x :: l
  end.
Definition fsort (l : list float64) : list float64 := foldr finsert [] l.

Definition fsum (xs : list float64) : float64 := fold_left fadd xs fzero.
Definition flen {A} (l : list A) : float64 := of_Z (zlen l).

(** [sorted[i]] *)
Definition at_ (l : list float64) (i : option Z) : res string float64 :=
  match i with Some i => index l i | None => Panic end.
Definition percentileOf (p : float64) (xs : list float64) : res string float64 :=
  let sorted := fsort xs in
  match sorted with
  | [x] => Ok x
  | _ =>
      let rank := fmul (fdiv p (of_Z 100)) (of_Z (zlen sorted - 1)) in
      let lo := floor_Z rank in
      let hi := ceil_Z rank in
      if decide (lo = hi) then at_ sorted lo
      else
        let frac := fsub rank (of_Z (default 0 lo)) in
        x ← at_ sorted lo; y ← at_ sorted hi;
        Ok (fadd (fmul x (fsub (of_Z 1) frac)) (fmul y frac))
  end.
Definition stddevOf (xs : list float64) : float64 :=
  if zlen xs <? 2 then fzero
  else
    let mean := fdiv (fsum xs) (flen xs) in
    let sq := fold_left (fun sq x => fadd sq (fmul (fsub x mean) (fsub x mean))) xs fzero in
    fsqrt (fdiv sq (of_Z (zlen xs - 1))).

Definition numeric (op : string) (p : float64) (x : float64) (xs : list float64) : res string float64 :=
  if decide (op = "sum") then Ok (fsum (x :: xs))
  else if decide (op = "avg") then Ok (fdiv (fsum (x :: xs)) (flen (x :: xs)))
  else if decide (op = "min") then Ok (fold_left (fun m y => if flt y m then y else m) xs x)
  else if decide (op = "max") then Ok (fold_left (fun m y => if flt m y then y else m) xs x)
  else if decide (op = "stddev") then Ok (stddevOf (x :: xs))
  else if decide (op = "percentile") then percentileOf p (x :: xs)
  else Err "unhandled op".

Fixpoint floats (field : string) (l : list any) : option (list float64) :=
  match l with
  | [] => Some []
  | it :: l' => f ← toFloat (fieldValue it field); fs ← floats field l'; Some (f :: fs)
  end.
Definition computeOne (l : list any) (a : AggregateOp) : res string any :=
  if decide (Op a = "count") then Ok (AFloat (flen l))
  else if decide (Op a = "first") then
    Ok (match l with [] => ANil | it :: _ => fieldValue it (Field a) end)
  else if decide (Op a = "last") then
    Ok (match last l with None => ANil | Some it => fieldValue it (Field a) end)
  else if decide (Op a = "collect") then Ok (AArr (map (fun it => fieldValue it (Field a)) l))
  else
    match floats (Field a) l with
    | None => Err "not numeric in every item"
    | Some [] => Err "no items to aggregate"
    | Some (x :: xs) => AFloat <$> numeric (Op a) (Percentile a) x xs
    end.
Fixpoint computeAggregates (aggs : list AggregateOp) (l : list any) (out : list (string * any))
  : res string (list (string * any)) :=
  match aggs with
  | [] => Ok out
  | a :: aggs' => v ← computeOne l a; computeAggregates aggs' l (mset out (As a) v)
  end.

(** ** Configuration *)

Definition checkAggregate (a : AggregateOp) : res string unit :=
  if decide (Op a ∉ validOps) then Err "unknown aggregate op"
  else if decide (As a = "") then Err "as is required"
  else if bool_decide (Op a = "percentile") && (flt (Percentile a) fzero || flt (of_Z 100) (Percentile a))
  then Err "percentile must be 0..100" else Ok tt.
Definition checkWindow (c : Config) : res string unit :=
  if decide (WindowType c = "tumbling" \/ WindowType c = "sliding") then
    if decide (WindowBy c = "time") then guard_err (0 <? SizeMs c) "sizeMs is required"
    else if decide (WindowBy c = "count") then guard_err (0 <? Count c) "count is required"
    else Err "windowBy must be time or count"
  else if decide (WindowType c = "session") then guard_err (0 <? SessionGapMs c) "sessionGapMs is required"
  else Err "unknown windowType".

(** ** Windows *)

(** The leading timestamps before the cutoff. *)
Fixpoint stale (cutoff : Z) (ts : list Z) : nat :=
  match ts with
  | t :: ts' => if t <? cutoff then S (stale cutoff ts') else 0%nat
  | [] => 0%nat
  end.

(** The window part of [Process]: the group after the datagram, and the window it closes. *)
Definition window (cfg : Config) (g : groupState) (now : Z) (v : any) : groupState * option (list any) :=
  if decide (WindowType cfg = "tumbling") then
    if decide (WindowBy cfg = "time") then
      let start := default now (windowStart g) in
      if (millis (SizeMs cfg) <=? timeSub now start) && bool_decide (items g <> []) then
        (MkGroupState [v] (itemTimes g) (Some now) (lastItem g), Some (items g))
      else (MkGroupState (items g ++ [v]) (itemTimes g) (Some start) (lastItem g), None)
    else
      let l := items g ++ [v] in
      if Count cfg <=? zlen l then (MkGroupState [] (itemTimes g) (windowStart g) (lastItem g), Some l)
      else (MkGroupState l (itemTimes g) (windowStart g) (lastItem g), None)
  else if decide (WindowType cfg = "sliding") then
    if decide (WindowBy cfg = "time") then
      let l := items g ++ [v] in
      let ts := itemTimes g ++ [now] in
      let i := stale (now + millis (- SizeMs cfg)) ts in
      (MkGroupState (drop i l) (drop i ts) (windowStart g) (lastItem g), Some (drop i l))
    else
      let l := items g ++ [v] in
      let l := if Count cfg <? zlen l then drop (Z.to_nat (zlen l - Count cfg)) l else l in
      (MkGroupState l (itemTimes g) (windowStart g) (lastItem g), Some l)
  else if decide (WindowType cfg = "session") then
    let closes := match lastItem g with
                  | Some t => (millis (SessionGapMs cfg) <? timeSub now t) && bool_decide (items g <> [])
                  | None => false
                  end in
    if closes then (MkGroupState [v] (itemTimes g) (windowStart g) (Some now), Some (items g))
    else (MkGroupState (items g ++ [v]) (itemTimes g) (windowStart g) (Some now), None)
  else (g, None).

(** ** One group, on its own *)

Definition group_step (c : Config) (acc : groupState * list (list any)) (x : Z * any)
  : groupState * list (list any) :=
  let '(g, ws) := acc in
  let '(g', o) := window c g x.1 x.2 in (g', ws ++ option_list o).
Definition group_run (c : Config) (l : list (Z * any)) : groupState * list (list any) :=
  fold_left (group_step c) l (newGroup, []).

Lemma group_run_snoc c l x : group_run c (l ++ [x]) = group_step c (group_run c l) x.
Proof. unfold group_run. by rewrite fold_left_app. Qed.

(** Whether an item that arrives at [t] belongs to the window [seg]. *)
Definition joins (c : Config) (seg : list (Z * any)) (t : Z) : Prop :=
  if decide (WindowType c = "session") then
    forall x, last seg = Some x -> t - x.1 <= millis (SessionGapMs c)
  else if decide (WindowBy c = "time") then
    forall x, head seg = Some x -> t - x.1 < millis (SizeMs c)
  else zlen seg < Count c.
(** A window: each item joins the ones before it. *)
Inductive window_of (c : Config) : list (Z * any) -> Prop :=
| window_one x : window_of c [x]
| window_snoc seg x : window_of c seg -> joins c seg x.1 -> window_of c (seg ++ [x]).

(** Windows that close when the next item does not join them. *)
Definition partitions (c : Config) : Prop := WindowType c = "tumbling" \/ WindowType c = "session".
(** The size, in nanoseconds, is not the lowest int64 (which [Sub] saturates to). *)
Definition durations_ok (c : Config) : Prop := - 2 ^ 63 < millis (SizeMs c).

(** [segs] are the closed windows of [l], oldest first, and [cur] the open one. *)
Record segmentation (c : Config) (l : list (Z * any)) (segs : list (list (Z * any))) (cur : list (Z * any)) : Prop :=
  MkSegmentation {
  sg_all : l = concat segs ++ cur;
  sg_closed : Forall (window_of c) segs;
  sg_open : cur = [] \/ window_of c cur;
  sg_cut : forall i s s' x, (segs ++ [cur]) !! i = Some s -> (segs ++ [cur]) !! S i = Some s' ->
    head s' = Some x -> ~ joins c s x.1
}.

Lemma window_nonempty c seg : window_of c seg -> seg <> [].
Proof. destruct 1; [done|]. by destruct seg. Qed.

(** The open window grows, or is closed and a new one starts. *)
Lemma segmentation_grow c l segs cur x : segmentation c l segs cur -> cur <> [] -> joins c cur x.1 ->
  segmentation c (l ++ [x]) segs (cur ++ [x]).
Proof.
  intros [Ha Hc Ho Hx] Hne Hj. split; [by rewrite Ha, app_assoc|done| |].
  - right. destruct Ho as [|Ho]; [done|]. by constructor.
  - intros i s s' y Hs Hs' Hy.
    destruct (decide (S i = length segs)) as [Hi|Hi].
    + assert (s' = cur ++ [x]) as ->.
      { rewrite Hi, list_lookup_middle in Hs' by done. by injection Hs'. }
      assert (head cur = Some y) as Hy' by (by destruct cur).
      apply (Hx i s cur y); [|by rewrite Hi, list_lookup_middle|done].
      rewrite lookup_app_l in Hs |- * by lia. done.
    + assert (S i < length segs)%nat as Hlt.
      { apply lookup_lt_Some in Hs'. rewrite length_app in Hs'. cbn in Hs'. lia. }
      rewrite lookup_app_l in Hs by lia. rewrite lookup_app_l in Hs' by lia.
      apply (Hx i s s' y); [rewrite lookup_app_l by lia; done|rewrite lookup_app_l by lia; done|done].
Qed.
Lemma segmentation_cut c l segs cur x : segmentation c l segs cur -> cur <> [] -> ~ joins c cur x.1 ->
  segmentation c (l ++ [x]) (segs ++ [cur]) [x].
Proof.
  intros [Ha Hc Ho Hx] Hne Hj. split.
  - rewrite concat_app. cbn. by rewrite app_nil_r, Ha.
  - apply Forall_app. split; [done|]. constructor; [by destruct Ho|constructor].
  - right. constructor.
  - intros i s s' y Hs Hs' Hy. destruct (decide (S i = length (segs ++ [cur]))) as [Hi|Hi].
    + rewrite Hi, list_lookup_middle in Hs' by done. injection Hs' as <-. injection Hy as <-.
      rewrite length_app in Hi. cbn in Hi. assert (i = length segs) as -> by lia.
      rewrite <- app_assoc in Hs. cbn in Hs. rewrite list_lookup_middle in Hs by done. by injection Hs as <-.
    + assert (S i < length (segs ++ [cur]))%nat as Hlt.
      { apply lookup_lt_Some in Hs'. rewrite length_app in Hs'. cbn in Hs'. lia. }
      rewrite lookup_app_l in Hs by lia. rewrite lookup_app_l in Hs' by lia. by apply (Hx i s s' y).
Qed.
Lemma segmentation_first c x : segmentation c [x] [] [x].
Proof.
  split; [done|constructor|right; constructor|]. intros [|i] s s' y Hs Hs' Hy; cbn in *; [|]; discriminate Hs'.
Qed.
(** A full count window is closed at once. *)
Lemma segmentation_close c l segs cur : segmentation c l segs cur -> window_of c cur ->
  segmentation c l (segs ++ [cur]) [].
Proof.
  intros [Ha Hc Ho Hx] Hw. split.
  - rewrite concat_app. cbn. by rewrite !app_nil_r.
  - apply Forall_app. split; [done|]. by constructor.
  - by left.
  - intros i s s' y Hs Hs' Hy. destruct (decide (S i = length (segs ++ [cur]))) as [Hi|Hi].
    + rewrite Hi, list_lookup_middle in Hs' by done. injection Hs' as <-. discriminate Hy.
    + assert (S i < length (segs ++ [cur]))%nat as Hlt.
      { apply lookup_lt_Some in Hs'. rewrite length_app in Hs'. cbn in Hs'. lia. }
      rewrite lookup_app_l in Hs by lia. rewrite lookup_app_l in Hs' by lia. by apply (Hx i s s' y).
Qed.

Lemma segmentation_nil c : segmentation c [] [] [].
Proof. split; [done|constructor|by left|]. intros [|i] s s' y Hs Hs'; discriminate Hs'. Qed.
(** After a window closed at once, the next item opens one. *)
Lemma segmentation_next c l segs x : segmentation c l segs [] -> (forall s, last segs = Some s -> ~ joins c s x.1) ->
  segmentation c (l ++ [x]) segs [x].
Proof.
  intros [Ha Hf _ Hx] Hl. rewrite app_nil_r in Ha. split; [by rewrite Ha|done|right; constructor|].
  intros i s s' y H1 H2 H3. destruct (decide (S i = length segs)) as [Hi|Hi].
  - rewrite Hi, list_lookup_middle in H2 by done. injection H2 as <-. injection H3 as <-.
    rewrite lookup_app_l in H1 by lia. apply Hl. by rewrite last_lookup, <- Hi.
  - assert (S i < length segs)%nat as Hlt.
    { apply lookup_lt_Some in H2. rewrite length_app in H2. cbn in H2. lia. }
    rewrite lookup_app_l in H1 by lia. rewrite lookup_app_l in H2 by lia.
    apply (Hx i s s' y); [rewrite lookup_app_l by lia; done|rewrite lookup_app_l by lia; done|done].
Qed.

(** What the state of a group says about the window that is open. *)
Definition tracks (c : Config) (g : groupState) (l : list (Z * any))
  (segs : list (list (Z * any))) (cur : list (Z * any)) : Prop :=
  if decide (WindowType c = "session") then
    (cur = [] -> l = []) /\ lastItem g = fst <$> last cur
  else if decide (WindowBy c = "time") then
    (cur = [] -> l = []) /\ windowStart g = fst <$> head cur
  else zlen cur < Count c /\ Forall (fun s => zlen s = Count c) segs.
Definition group_inv (c : Config) (l : list (Z * any)) (acc : groupState * list (list any)) : Prop :=
  exists segs cur, segmentation c l segs cur /\ acc.2 = map (map snd) segs /\
    items acc.1 = map snd cur /\ tracks c acc.1 l segs cur.

(** One item, when windows are cut by time: the window is closed exactly when the item does
    not join it, and a group's first item opens one. *)
Lemma group_inv_cut c l g ws (x : Z * any) (g' : groupState) (o : option (list any)) (segs : list (list (Z * any))) cur :
  segmentation c l segs cur -> ws = map (map snd) segs -> items g = map snd cur -> (cur = [] -> l = []) ->
  (cur <> [] -> ~ joins c cur x.1 -> o = Some (items g) /\ items g' = [x.2] /\ tracks c g' (l ++ [x]) (segs ++ [cur]) [x]) ->
  (cur = [] \/ joins c cur x.1 -> o = None /\ items g' = items g ++ [x.2] /\ tracks c g' (l ++ [x]) segs (cur ++ [x])) ->
  (cur = [] \/ joins c cur x.1 \/ ~ joins c cur x.1) ->
  group_inv c (l ++ [x]) (g', ws ++ option_list o).
Proof.
  intros Hs -> Hi Hl Hc Ho Hd. destruct (decide (cur = [])) as [-> |Hne].
  - rewrite (Hl eq_refl) in *. cbn in *. destruct Ho as (-> & Hi' & Ht); [by left|].
    assert (segs = []) as ->.
    { destruct Hs as [Ha Hf _ _]. rewrite app_nil_r in Ha. destruct segs as [|s segs]; [done|].
      apply Forall_inv in Hf as Hw. apply window_nonempty in Hw. by destruct s. }
    exists [], [x]. split_and!; [apply segmentation_first|done|by cbn; rewrite Hi', Hi|done].
  - destruct Hd as [Hd|[Hj|Hj]]; [done| |].
    + destruct Ho as (-> & Hi' & Ht); [by right|]. exists segs, (cur ++ [x]).
      split_and!; [by apply segmentation_grow|by cbn; rewrite app_nil_r|by cbn; rewrite Hi', Hi, map_app|done].
    + destruct (Hc Hne Hj) as (-> & Hi' & Ht). exists (segs ++ [cur]), [x].
      split_and!; [by apply segmentation_cut|by cbn; rewrite map_app, Hi|done|done].
Qed.

Lemma items_nonempty g (cur : list (Z * any)) : items g = map snd cur -> items g <> [] <-> cur <> [].
Proof. intros ->. by destruct cur. Qed.

Lemma step_session c l acc x : WindowType c = "session" -> group_inv c l acc ->
  group_inv c (l ++ [x]) (group_step c acc x).
Proof.
  intros Ht (segs & cur & Hs & Hws & Hi & Htr). destruct acc as [g ws]. cbn in *.
  unfold tracks in Htr. rewrite decide_True in Htr by done. destruct Htr as [Hl Hlast].
  assert (forall y, last cur = Some y -> (millis (SessionGapMs c) <? timeSub x.1 y.1) = false <-> joins c cur x.1) as Hj.
  { intros y Hy. unfold joins. rewrite decide_True, Z.ltb_ge by done.
    rewrite timeSub_le by (apply millis_range || apply millis_max). split; [|auto].
    intros H z Hz. rewrite Hy in Hz. by injection Hz as <-. }
  destruct (window c g x.1 x.2) as [g' o] eqn:Hw. unfold window in Hw.
  rewrite decide_False, decide_False, decide_True, Hlast in Hw by (rewrite ?Ht; done).
  assert (forall k, tracks c (MkGroupState k (itemTimes g) (windowStart g) (Some x.1)) (l ++ [x]) (segs ++ [cur]) [x] /\
    tracks c (MkGroupState k (itemTimes g) (windowStart g) (Some x.1)) (l ++ [x]) segs (cur ++ [x])) as Htr'.
  { intros k. unfold tracks. rewrite !decide_True by done. rewrite (last_snoc x cur). split; (split; [|done]); [done|by destruct cur]. }
  eapply group_inv_cut; try eassumption.
  - intros Hne Hnj. destruct (last cur) as [y|] eqn:Hy; [|by apply last_None in Hy]. cbn in Hw.
    destruct (millis _ <? _) eqn:E; [|by apply (Hj y eq_refl) in E].
    rewrite bool_decide_true in Hw by (by apply (items_nonempty g cur)).
    injection Hw as <- <-. split_and!; [done..|apply Htr'].
  - intros Hor. destruct (last cur) as [y|] eqn:Hy; cbn in Hw.
    + assert ((millis (SessionGapMs c) <? timeSub x.1 y.1) = false) as E.
      { destruct Hor as [-> |Hjj]; [done|]. by apply (Hj y eq_refl). }
      rewrite E in Hw. injection Hw as <- <-. split_and!; [done..|apply Htr'].
    + injection Hw as <- <-. split_and!; [done..|apply Htr'].
  - destruct (last cur) as [y|] eqn:Hy; [|by left; apply last_None].
    right. destruct (Hj y eq_refl). destruct (millis _ <? _); [right|left]; intuition congruence.
Qed.

Lemma step_tumbling_time c l acc x : WindowType c = "tumbling" -> WindowBy c = "time" -> durations_ok c ->
  group_inv c l acc -> group_inv c (l ++ [x]) (group_step c acc x).
Proof.
  intros Ht Hb Hsz (segs & cur & Hs & Hws & Hi & Htr). destruct acc as [g ws]. cbn in *.
  unfold tracks in Htr. rewrite decide_False, decide_True in Htr by (rewrite ?Ht; done). destruct Htr as [Hl Hst].
  assert (forall y, head cur = Some y -> (millis (SizeMs c) <=? timeSub x.1 y.1) = false <-> joins c cur x.1) as Hj.
  { intros y Hy. unfold joins. rewrite decide_False, decide_True by (rewrite ?Ht; done).
    rewrite Z.leb_gt. assert (in_s 64 (millis (SizeMs c))) as Hr by apply millis_range.
    pose proof (timeSub_ge x.1 y.1 _ Hr Hsz). split; [intros H0 z Hz; rewrite Hy in Hz; injection Hz as <-; lia|].
    intros H0. specialize (H0 y Hy). lia. }
  destruct (window c g x.1 x.2) as [g' o] eqn:Hw. unfold window in Hw.
  rewrite decide_True, decide_True, Hst in Hw by (rewrite ?Ht; done).
  assert (forall k s, s = fst <$> head (cur ++ [x]) ->
    tracks c (MkGroupState k (itemTimes g) s (lastItem g)) (l ++ [x]) segs (cur ++ [x])) as Htr2.
  { intros k s ->. unfold tracks. rewrite decide_False, decide_True by (rewrite ?Ht; done). split; [by destruct cur|done]. }
  eapply group_inv_cut; try eassumption.
  - intros Hne Hnj. destruct cur as [|y cur]; [done|]. cbn in Hw.
    destruct (millis _ <=? _) eqn:E; [|by apply (Hj y eq_refl) in E].
    rewrite bool_decide_true in Hw by (by apply (items_nonempty g (y :: cur))).
    injection Hw as <- <-. split_and!; [done..|].
    unfold tracks. by rewrite decide_False, decide_True by (rewrite ?Ht; done).
  - intros Hor. destruct cur as [|y cur].
    + rewrite (bool_decide_false _) in Hw by (rewrite (items_nonempty g []) by done; naive_solver).
      rewrite andb_false_r in Hw. injection Hw as <- <-. split_and!; [done..|by apply Htr2].
    + cbn in Hw. assert ((millis (SizeMs c) <=? timeSub x.1 y.1) = false) as E.
      { destruct Hor as [Hor|Hjj]; [done|]. by apply (Hj y eq_refl). }
      rewrite E in Hw. injection Hw as <- <-. split_and!; [done..|by apply Htr2].
  - destruct cur as [|y cur]; [by left|]. right. destruct (Hj y eq_refl).
    destruct (millis _ <=? _); [right|left]; intuition congruence.
Qed.

Lemma step_tumbling_count c l acc x : WindowType c = "tumbling" -> WindowBy c <> "time" ->
  group_inv c l acc -> group_inv c (l ++ [x]) (group_step c acc x).
Proof.
  intros Ht Hb (segs & cur & Hs & Hws & Hi & Htr). destruct acc as [g ws]. cbn in *.
  unfold tracks in Htr. rewrite decide_False, decide_False in Htr by (rewrite ?Ht; done). destruct Htr as [Hcur Hfull].
  assert (forall s t, joins c s t <-> zlen s < Count c) as Hj.
  { intros s t. unfold joins. by rewrite decide_False, decide_False by (rewrite ?Ht; done). }
  assert (segmentation c (l ++ [x]) segs (cur ++ [x])) as Hg.
  { destruct (decide (cur = [])) as [-> |Hne]; [|by apply segmentation_grow; [..|apply Hj]].
    apply segmentation_next; [done|]. intros s Hs'. rewrite Hj.
    rewrite last_lookup in Hs'. pose proof (Forall_lookup_1 _ _ _ _ Hfull Hs') as E. cbn in E. lia. }
  assert (window_of c (cur ++ [x])) as Hw by (destruct Hg as [_ _ [H|H] _]; [by destruct cur|done]).
  unfold window. rewrite decide_True, decide_False by done. rewrite Hi. change [x.2] with (map snd [x]).
  rewrite <- map_app, zlen_map.
  assert (forall g' k, zlen k < Count c -> forall segs', Forall (fun s => zlen s = Count c) segs' ->
    tracks c g' (l ++ [x]) segs' k) as Htr.
  { intros g' k Hk segs' Hf. unfold tracks. by rewrite decide_False, decide_False by (rewrite ?Ht; done). }
  case (Z.leb_spec (Count c) (zlen (cur ++ [x]))) as [Hle|Hlt].
  - exists (segs ++ [cur ++ [x]]), []. split_and!; [by apply segmentation_close| |done|].
    + cbn. by rewrite Hws, (map_app (map snd) segs).
    + apply Htr; [pose proof (zlen_nonneg cur); rewrite zlen_nil; lia|].
      apply Forall_app. split; [done|]. constructor; [|done]. rewrite zlen_app, zlen_cons, zlen_nil in *. lia.
  - exists segs, (cur ++ [x]). split_and!; [done|by cbn; rewrite app_nil_r|done|by apply Htr].
Qed.

(** The windows of a group, and what is left open in it. *)
Lemma group_run_segments c l : partitions c -> durations_ok c -> is_ok (checkWindow c) = true ->
  group_inv c l (group_run c l).
Proof.
  intros Hp Hd Hok. induction l as [|x l IH] using rev_ind.
  - exists [], []. split_and!; [apply segmentation_nil|done|done|]. unfold tracks.
    case_decide as Hse; [by split|]. case_decide as Hti; [by split|]. split; [|constructor].
    destruct Hp as [Ht|]; [|done]. unfold checkWindow in Hok. rewrite decide_True, decide_False in Hok by auto.
    case_decide; [|done]. destruct (Z.ltb_spec 0 (Count c)); [done|discriminate Hok].
  - rewrite group_run_snoc. destruct Hp as [Ht|Ht]; [|by apply step_session].
    destruct (decide (WindowBy c = "time")); [by apply step_tumbling_time|by apply step_tumbling_count].
Qed.

(** ** Sliding windows *)

Lemma stale_sorted cutoff l : StronglySorted Z.le (map fst l) ->
  drop (stale cutoff (map fst l)) (l : list (Z * any)) = filter (fun x => cutoff <= x.1) l.
Proof.
  induction l as [|[t v] l IH]; [done|]. intros H.
  change (StronglySorted Z.le (t :: map fst l)) in H. apply StronglySorted_inv in H as [Hs Hf].
  rewrite filter_cons. cbn [fst map stale].
  destruct (Z.ltb_spec t cutoff) as [Hlt|Hge].
  - rewrite decide_False by lia. cbn. by apply IH.
  - rewrite decide_True by done. cbn [drop]. f_equal. symmetry. apply filter_id.
    rewrite Forall_map in Hf. eapply Forall_impl; [exact Hf|]. cbn. lia.
Qed.
Lemma filter_later c1 c2 (l : list (Z * any)) : c1 <= c2 ->
  filter (fun x => c2 <= x.1) (filter (fun x => c1 <= x.1) l) = filter (fun x => c2 <= x.1) l.
Proof. intros H. rewrite list_filter_filter. apply list_filter_iff. intros x. lia. Qed.

(** The items of [l] that a sliding window holds after the last of them. *)
Definition slides (c : Config) (l : list (Z * any)) : list (Z * any) :=
  if decide (WindowBy c = "time") then
    match last l with Some x => filter (fun y => x.1 + millis (- SizeMs c) <= y.1) l | None => [] end
  else drop (Z.to_nat (zlen l - Count c)) l.

Lemma slides_sublist c l : slides c l `sublist_of` l.
Proof.
  unfold slides. case_decide; [|apply sublist_drop]. destruct (last l); [apply sublist_filter|apply sublist_nil_l].
Qed.
Lemma sorted_sublist (l k : list Z) : l `sublist_of` k -> StronglySorted Z.le k -> StronglySorted Z.le l.
Proof.
  induction 1 as [|x l k Hs IH|x l k Hs IH]; intros H; [done| |by apply IH; inversion H].
  apply StronglySorted_inv in H as [H Hf]. constructor; [by apply IH|].
  rewrite Forall_forall in *. intros y Hy. eapply Hf, sublist_subseteq; eassumption.
Qed.
Lemma sorted_snoc (l : list Z) x : StronglySorted Z.le (l ++ [x]) -> StronglySorted Z.le l /\ Forall (fun y => y <= x) l.
Proof.
  induction l as [|y l IH]; cbn; [by repeat constructor|]. intros [Hs Hf]%StronglySorted_inv.
  destruct (IH Hs) as [H1 H2]. rewrite Forall_app in Hf. destruct Hf as [Hf Hx%Forall_inv].
  split; constructor; done.
Qed.

Lemma sliding_time c l : WindowType c = "sliding" -> WindowBy c = "time" -> StronglySorted Z.le (map fst l) ->
  items (group_run c l).1 = map snd (slides c l) /\ itemTimes (group_run c l).1 = map fst (slides c l).
Proof.
  intros Ht Hb. induction l as [|x l IH] using rev_ind; [intros _; unfold slides; by rewrite decide_True by done|].
  intros Hs. rewrite map_app in Hs. cbn in Hs. destruct (sorted_snoc _ _ Hs) as [Hl Hx].
  destruct (IH Hl) as [Hi Hti]. rewrite group_run_snoc. destruct (group_run c l) as [g ws]. cbn in *.
  unfold window. rewrite decide_False, decide_True, decide_True by (rewrite ?Ht; done). cbn.
  set (cut := x.1 + millis (- SizeMs c)).
  assert (slides c (l ++ [x]) = filter (fun y => cut <= y.1) (slides c l ++ [x])) as ->.
  { unfold slides. rewrite decide_True, last_snoc by done. rewrite !filter_app. f_equal. rewrite decide_True by done.
    destruct (last l) as [y|] eqn:Hy; [|by apply last_None in Hy as ->]. symmetry. apply filter_later.
    rewrite Forall_map in Hx. rewrite last_lookup in Hy. apply (Forall_lookup_1 _ _ _ _ Hx) in Hy. cbn in Hy. lia. }
  rewrite Hi, Hti. change [x.2] with (map snd [x]). change [x.1] with (map fst [x]). rewrite <- !map_app.
  rewrite <- stale_sorted; [by rewrite !skipn_map|].
  rewrite map_app. apply sorted_sublist with (map fst l ++ [x.1]); [|done].
  apply sublist_app; [|done]. apply (fmap_sublist fst), slides_sublist.
Qed.

Lemma sliding_count c l : WindowType c = "sliding" -> WindowBy c <> "time" -> 0 < Count c ->
  items (group_run c l).1 = map snd (slides c l).
Proof.
  intros Ht Hb Hc. induction l as [|x l IH] using rev_ind; [unfold slides; by rewrite decide_False, drop_nil by done|].
  rewrite group_run_snoc. destruct (group_run c l) as [g ws]. cbn in *.
  unfold window. rewrite decide_False, decide_True, decide_False by (rewrite ?Ht; done). cbn. rewrite IH.
  change [x.2] with (map snd [x]). rewrite <- map_app, zlen_map. unfold slides. rewrite !decide_False by done.
  set (k := drop (Z.to_nat (zlen l - Count c)) l).
  assert (zlen k = Z.min (zlen l) (Count c)) as Hk by (unfold k, zlen; rewrite length_drop; lia).
  assert (drop (Z.to_nat (zlen (l ++ [x]) - Count c)) (l ++ [x]) = drop (Z.to_nat (zlen (k ++ [x]) - Count c)) (k ++ [x])) as ->.
  { assert (k ++ [x] = drop (Z.to_nat (zlen l - Count c)) (l ++ [x])) as ->.
    { unfold k. rewrite drop_app_le; [done|]. pose proof (zlen_nonneg l). unfold zlen in *. lia. }
    rewrite drop_drop. f_equal. unfold zlen. rewrite !length_drop, !length_app. cbn. lia. }
  destruct (Z.ltb_spec (Count c) (zlen (k ++ [x]))) as [Hlt|Hge]; [by rewrite skipn_map|].
  rewrite Z2Nat.nonpos by lia. by rewrite drop_0.
Qed.

Section node.
(** [expr.Compile], running a compiled expression on a datagram, and [fmt.Sprint]. *)
Context {prog : Type} (compile : string -> res string prog).
Context (eval : prog -> dgram -> res string any) (sprint : any -> string).
(** [strings.TrimSpace(s) != ""] *)
Context (blank : string -> bool).

Record node := MkNode { cfg : Config; groupProg : option prog; groups : gmap string groupState }.

(** [New] on a decoded config. *)
Definition New (c : Config) : res string node :=
  _ ← checkWindow c;
  _ ← guard_err (bool_decide (Aggregates c <> [])) "aggregates is required";
  _ ← res_mapM checkAggregate (Aggregates c);
  if blank (GroupBy c) then Ok (MkNode c None ∅)
  else p ← compile (GroupBy c); Ok (MkNode c (Some p) ∅).

Definition groupKey (n : node) (inp : dgram) : res string string :=
  match groupProg n with
  | None => Ok "_"
  | Some p => sprint <$> eval p inp
  end.

(** The state change of [Process], and the window it closes. *)
Definition arrive (n : node) (now : Z) (inp : dgram) : res string (node * option (list any)) :=
  key ← groupKey n inp;
  let '(g, closed) := window (cfg n) (default newGroup (groups n !! key)) now (Value (payload inp)) in
  Ok (MkNode (cfg n) (groupProg n) (<[key := g]> (groups n)), closed).

(** The answer to the datagram that closes the window [l]. *)
Definition aggregated (aggs : list AggregateOp) (l : list any) (id : string) (now : Z) (inp : dgram) : nodeResult :=
  fields ← computeAggregates aggs l []; Ok [MkPortDatagram "out" (caused id now inp (AMap fields))].
Definition Process (n : node) (id : string) (now : Z) (inp : dgram) : node * nodeResult :=
  match arrive n now inp with
  | Ok (n', None) => (n', Ok [])
  | Ok (n', Some l) => (n', aggregated (Aggregates (cfg n)) l id now inp)
  | Err e => (n, Err e)
  | Panic => (n, Panic)
  end.

(** ** Runs *)

(** A call of [Process]: the fresh id, the clock and the datagram.  A run records what has arrived in each group,
    with its time, and what every call answered. *)
Record call := MkCall { c_id : string; c_now : Z; c_inp : dgram }.
Record Run := MkRun { at_node : node; arrived : list (string * Z * any); answers : list (string * call * nodeResult) }.
Definition step (r : Run) (x : call) : Run :=
  let '(n', res) := Process (at_node r) (c_id x) (c_now x) (c_inp x) in
  match groupKey (at_node r) (c_inp x) with
  | Ok key => MkRun n' (arrived r ++ [(key, c_now x, Value (payload (c_inp x)))]) (answers r ++ [(key, x, res)])
  | _ => MkRun n' (arrived r) (answers r)
  end.
Definition run (n : node) (xs : list call) : Run := fold_left step xs (MkRun n [] []).

(** The arrivals of one group, and its calls that answered something else than no output. *)
Definition arrivals (key : string) (l : list (string * Z * any)) : list (Z * any) :=
  omap (fun x => if decide (x.1.1 = key) then Some (x.1.2, x.2) else None) l.
Definition silent (r : nodeResult) : bool := match r with Ok [] => true | _ => false end.
Definition answersOf (key : string) (l : list (string * call * nodeResult)) : list (call * nodeResult) :=
  omap (fun x => if decide (x.1.1 = key) then if silent x.2 then None else Some (x.1.2, x.2) else None) l.

(** ** A run, group by group *)

Definition empty_node (n : node) : Prop := groups n = ∅.
Lemma New_empty c n : New c = Ok n -> cfg n = c /\ empty_node n /\ is_ok (checkWindow c) = true.
Proof.
  unfold New. destruct (checkWindow c) as [[]| |] eqn:E; [|done..]. cbn.
  destruct (guard_err _ _) as [[]| |]; [|done..]. cbn. destruct (res_mapM _ _); [|done..]. cbn.
  destruct (blank (GroupBy c)); [by intros [= <-]|]. destruct (compile (GroupBy c)); [|done..]. cbn. by intros [= <-].
Qed.

Lemma arrive_key n now inp n' o : arrive n now inp = Ok (n', o) ->
  exists key, groupKey n inp = Ok key /\ cfg n' = cfg n /\ groupProg n' = groupProg n /\
    groups n' = <[key := (window (cfg n) (default newGroup (groups n !! key)) now (Value (payload inp))).1]> (groups n) /\
    o = (window (cfg n) (default newGroup (groups n !! key)) now (Value (payload inp))).2.
Proof.
  unfold arrive. destruct (groupKey n inp) as [key| |] eqn:Hk; [|done..]. cbn.
  destruct (window _ _ _ _) as [g c] eqn:Hw. intros [= <- <-]. exists key. by rewrite Hw.
Qed.

(** Each group is run on its own arrivals, and each window it closes is answered. *)
Definition answered (aggs : list AggregateOp) (l : list any) (a : call * nodeResult) : Prop :=
  a.2 = aggregated aggs l (c_id a.1) (c_now a.1) (c_inp a.1).
Lemma aggregated_not_silent aggs l id now inp : silent (aggregated aggs l id now inp) = false.
Proof. unfold aggregated. by destruct (computeAggregates _ _ _). Qed.
Definition run_inv (n : node) (r : Run) : Prop :=
  cfg (at_node r) = cfg n /\ groupProg (at_node r) = groupProg n /\
  forall key, default newGroup (groups (at_node r) !! key) = (group_run (cfg n) (arrivals key (arrived r))).1 /\
    Forall2 (answered (Aggregates (cfg n))) (group_run (cfg n) (arrivals key (arrived r))).2 (answersOf key (answers r)).
Lemma window_step_inv n r x : run_inv n r -> run_inv n (step r x).
Proof.
  intros (Hc & Hp & Hg). destruct x as [id now inp]. unfold step, Process. cbn [c_id c_now c_inp].
  destruct (arrive (at_node r) now inp) as [[n' o]| |] eqn:Ha.
  2,3: assert (is_ok (groupKey (at_node r) inp) = false) as Hk by (unfold arrive in Ha; destruct (groupKey _ _); cbn in Ha; [by destruct (window _ _ _ _)|done|done]);
    destruct (groupKey _ _); [done|by split_and!..].
  destruct (arrive_key _ _ _ _ _ Ha) as (key & Hk & Hc' & Hp' & Hg' & Ho). rewrite Hk.
  pose (res := match o with None => Ok [] | Some l => aggregated (Aggregates (cfg (at_node r))) l id now inp end : nodeResult).
  assert ((match o with None => (n', Ok []) | Some l => (n', aggregated (Aggregates (cfg (at_node r))) l id now inp) end) = (n', res)) as -> by (by destruct o).
  split_and!; [by cbn; rewrite Hc'|by cbn; rewrite Hp'|]. intros key'. cbn [at_node answers arrived].
  unfold answersOf, arrivals. rewrite !omap_app. fold (answersOf key' (answers r)) (arrivals key' (arrived r)). cbn -[decide].
  rewrite Hg'. destruct (Hg key') as [H1 H2]. destruct (decide (key = key')) as [-> |Hne].
  - rewrite lookup_insert_eq, group_run_snoc. destruct (group_run (cfg n) _) as [g ws]. cbn [fst snd] in H1, H2. rewrite H1, Hc in Ho |- *.
    unfold group_step. cbn [fst snd]. destruct (window (cfg n) g now _) as [g2 o2]. cbn [fst snd] in *. subst o2. split; [done|].
    apply Forall2_app; [done|]. unfold res. destruct o as [l|]; [|constructor]. rewrite aggregated_not_silent. cbn. constructor; [|constructor].
    unfold answered. cbn. by rewrite Hc.
  - rewrite lookup_insert_ne by done. by rewrite !app_nil_r.
Qed.
Lemma run_groups n xs : empty_node n -> run_inv n (run n xs).
Proof.
  intros He. assert (run_inv n (MkRun n [] [])) as H.
  { split_and!; [done..|]. intros key. cbn. rewrite He, lookup_empty. by split. }
  unfold run. revert H. generalize (MkRun n [] []). induction xs as [|x xs IH]; intros r H; [done|].
  cbn. apply IH. by apply window_step_inv.
Qed.

(** [C10] tumbling and session windows partition the input.  In every run of a node that [New] built, the items
    of a group fall into consecutive, non-empty windows, the closed ones oldest first and the open one, which is
    what the group still buffers.  Within a window each item joins the ones before it (time since the first item
    below [sizeMs], fewer than [count] items, or a gap of at most [sessionGapMs]), and the first item of the next
    window is one that does not: no item is lost, repeated or put in a wrong window, and groups do not interfere.
    The calls of [Process] for the group that answer anything but "no output" are, in order, one per closed
    window: each emits on [out] one datagram, caused by the input of that call, with the aggregates over exactly
    the items of its window; or, when the aggregates of the window fail, returns that error (the window is then
    not emitted later: [retry_double_counts]). *)
Theorem windows_partition c n xs key : New c = Ok n -> partitions c -> durations_ok c ->
  let r := run n xs in
  exists segs cur, segmentation c (arrivals key (arrived r)) segs cur /\
    items (default newGroup (groups (at_node r) !! key)) = map snd cur /\
    Forall2 (fun seg a => answered (Aggregates c) (map snd seg) a) segs (answersOf key (answers r)).
Proof.
  intros Hn Hp Hd. cbv zeta. destruct (New_empty c n Hn) as (Hc & He & Hok).
  destruct (run_groups n xs He) as (_ & _ & Hg). destruct (Hg key) as [H1 H2]. rewrite Hc in H1, H2.
  destruct (group_run_segments c (arrivals key (arrived (run n xs))) Hp Hd Hok) as (segs & cur & Hs & Hw & Hi & _).
  exists segs, cur. split_and!; [done|by rewrite H1|]. rewrite Hw in H2. exact (proj1 (Forall2_fmap_l (map snd) _ segs _) H2).
Qed.

(** A sliding window is exact: the window each datagram closes holds, oldest first, the
    last [count] items of its group, or, under a clock that does not go back, exactly the items
    of its group that arrived no earlier than [sizeMs] before it, and [Process] answers with the aggregates
    over it. *)
Theorem sliding_exact c n xs key id now inp : New c = Ok n -> WindowType c = "sliding" ->
  groupKey (at_node (run n xs)) inp = Ok key ->
  let l := arrivals key (arrived (run n xs)) ++ [(now, Value (payload inp))] in
  (WindowBy c = "time" -> StronglySorted Z.le (map fst l)) ->
  (Process (at_node (run n xs)) id now inp).2 = aggregated (Aggregates c) (map snd (slides c l)) id now inp.
Proof.
  intros Hn Ht Hk l Hs. destruct (New_empty c n Hn) as (Hc & He & Hok).
  destruct (run_groups n xs He) as (Hcf & _ & Hg). destruct (Hg key) as [H1 _]. unfold Process, arrive. rewrite Hk. cbn.
  assert (items (group_run c l).1 = map snd (slides c l)) as E.
  { destruct (decide (WindowBy c = "time")) as [Hb|Hb]; [by apply sliding_time; auto|].
    apply sliding_count; [done..|]. unfold checkWindow in Hok. rewrite decide_True, decide_False in Hok by auto.
    case_decide; [|done]. destruct (Z.ltb_spec 0 (Count c)); [done|discriminate Hok]. }
  unfold l in E at 1. rewrite group_run_snoc in E. rewrite Hc in H1.
  destruct (group_run c (arrivals key (arrived (run n xs)))) as [g0 ws]. cbn [fst] in H1. rewrite H1. unfold group_step in E. cbn in E.
  rewrite Hcf, Hc. destruct (window c g0 now _) as [g o] eqn:Hw. cbn in E. rewrite <- E.
  assert (o = Some (items g)) as ->; [|done]. revert Hw. unfold window. rewrite decide_False, decide_True by (rewrite ?Ht; done).
  case_decide; intros [= <- <-]; done.
Qed.

(** A retried aggregate counts its item twice and loses the window.  When the aggregates
    of a session that just closed fail (a field that is not numeric), [Process] has already
    dropped the session's items and buffered the new one: the error leaves no trace of the
    closed window in the state, and invoking the node again with the same datagram, as the
    node runner's retry policy does, buffers the datagram a second time and returns no error. *)
Theorem retry_double_counts n id now inp key l n' e : WindowType (cfg n) = "session" ->
  0 <= millis (SessionGapMs (cfg n)) -> groupKey n inp = Ok key ->
  arrive n now inp = Ok (n', Some l) -> computeAggregates (Aggregates (cfg n)) l [] = Err e ->
  Process n id now inp = (n', Err e) /\
  items (default newGroup (groups n' !! key)) = [Value (payload inp)] /\
  (exists n'', Process n' id now inp = (n'', Ok []) /\
    items (default newGroup (groups n'' !! key)) = [Value (payload inp); Value (payload inp)]).
Proof.
  intros Ht Hg Hk Ha He.
  assert (Process n id now inp = (n', Err e)) as HP by (unfold Process, aggregated; by rewrite Ha, He).
  split; [exact HP|]. clear HP. apply arrive_key in Ha as Hak.
  destruct Hak as (key' & Hk' & Hc & Hp & Hgr & Ho). rewrite Hk in Hk'. injection Hk' as <-.
  unfold window in Ho, Hgr. rewrite decide_False, decide_False, decide_True in Ho by (rewrite ?Ht; done).
  rewrite decide_False, decide_False, decide_True in Hgr by (rewrite ?Ht; done).
  set (closes := match lastItem _ with Some _ => _ | None => _ end) in Ho, Hgr. destruct closes; [|done].
  cbn in Hgr. rewrite Hgr, lookup_insert_eq. split; [done|].
  unfold Process, arrive. assert (groupKey n' inp = Ok key) as Hk2 by (unfold groupKey in *; by rewrite Hp).
  rewrite Hk2. cbn. rewrite Hgr, lookup_insert_eq. unfold window at 1. rewrite Hc.
  rewrite decide_False, decide_False, decide_True by (rewrite ?Ht; done). cbn.
  assert ((millis (SessionGapMs (cfg n)) <? timeSub now now) = false) as ->.
  { apply Z.ltb_ge. unfold timeSub. lia. }
  cbn. eexists. split; [done|]. cbn. by rewrite lookup_insert_eq.
Qed.

End node.

(** ** Witnesses *)

Module examples.
Definition dg (v : any) : dgram := datagram.New "d" 0 (MkSource "n" "" "" "" "") (MkPayload v None).
(** One group, keyed by nothing. *)
Definition isBlank (s : string) : bool := bool_decide (s = "").
Definition ungrouped (c : Config) : node (prog := unit) := MkNode c None ∅.
Definition eval (_ : unit) (_ : dgram) : res string any := Err "".
Abbreviation run := (run eval (fun _ => "")).
Definition count1 : list AggregateOp := [MkAggregateOp "" "count" fzero "n"].
Definition cfg_of (t b : string) (size count gap : Z) (op : list AggregateOp) : Config := MkConfig t b size count gap "" op.
Definition xs : list call :=
  [MkCall "1" 0 (dg (AInt 1)); MkCall "2" 400000 (dg (AInt 2)); MkCall "3" 1000000 (dg (AInt 3)); MkCall "4" 2500000 (dg (AStr "x"))].

(** Tumbling windows of one millisecond: the third and the fourth call emit. *)
Lemma windows_partition_witness :
  let r := run (ungrouped (cfg_of "tumbling" "time" 1 0 0 count1)) xs in
  (exists segs cur, segmentation (cfg_of "tumbling" "time" 1 0 0 count1)
    [(0, AInt 1); (400000, AInt 2); (1000000, AInt 3); (2500000, AStr "x")] segs cur /\ [AStr "x"] = map snd cur) /\
  answersOf "_" (answers r) =
    [(MkCall "3" 1000000 (dg (AInt 3)), Ok [MkPortDatagram "out" (caused "3" 1000000 (dg (AInt 3)) (AMap [("n", AFloat (of_Z 2))]))]);
     (MkCall "4" 2500000 (dg (AStr "x")), Ok [MkPortDatagram "out" (caused "4" 2500000 (dg (AStr "x")) (AMap [("n", AFloat (of_Z 1))]))])].
Proof.
  cbv zeta. split; [|vm_compute; reflexivity].
  destruct (windows_partition (fun _ => Err "") eval (fun _ => "") isBlank
    (cfg_of "tumbling" "time" 1 0 0 count1) (ungrouped (cfg_of "tumbling" "time" 1 0 0 count1)) xs "_"
    ltac:(vm_compute; reflexivity) ltac:(left; reflexivity) ltac:(vm_compute; reflexivity)) as (segs & cur & H1 & H2 & _).
  exists segs, cur. split; [exact H1|exact H2].
Defined.

Lemma sliding_exact_witness :
  (Process eval (fun _ => "") (at_node (run (ungrouped (cfg_of "sliding" "time" 1 0 0 count1)) (take 3 xs))) "9" 1400001 (dg (AInt 4))).2
  = aggregated count1 [AInt 3; AInt 4] "9" 1400001 (dg (AInt 4)).
Proof.
  apply (sliding_exact (fun _ => Err "") eval (fun _ => "") isBlank
    (cfg_of "sliding" "time" 1 0 0 count1) (ungrouped (cfg_of "sliding" "time" 1 0 0 count1))
    (take 3 xs) "_" "9" 1400001 (dg (AInt 4))); [vm_compute; reflexivity|reflexivity|reflexivity|].
  intros _. vm_compute. repeat constructor; discriminate.
Defined.

Definition summed : Config := cfg_of "session" "" 0 0 1 [MkAggregateOp "" "sum" fzero "s"].
Lemma retry_double_counts_witness : exists n' n'',
  Process eval (fun _ => "") (at_node (run (ungrouped summed) (drop 3 xs))) "i" 9000000 (dg (AInt 5))
    = (n', Err "not numeric in every item") /\
  items (default newGroup (groups n' !! "_")) = [AInt 5] /\
  Process eval (fun _ => "") n' "i" 9000000 (dg (AInt 5)) = (n'', Ok []) /\
  items (default newGroup (groups n'' !! "_")) = [AInt 5; AInt 5].
Proof.
  destruct (arrive eval (fun _ => "") (at_node (run (ungrouped summed) (drop 3 xs))) 9000000 (dg (AInt 5)))
    as [[n' [l|]]| |] eqn:E; try (vm_compute in E; discriminate E).
  assert (l = [AStr "x"]) as Hl by (vm_compute in E; injection E; auto).
  destruct (retry_double_counts eval (fun _ => "") (at_node (run (ungrouped summed) (drop 3 xs))) "i" 9000000
    (dg (AInt 5)) "_" l n' "not numeric in every item" eq_refl ltac:(vm_compute; discriminate) eq_refl E
    ltac:(rewrite Hl; reflexivity)) as (H1 & H2 & n'' & H3 & H4).
  exists n', n''. split; [exact H1|]. split; [exact H2|]. split; [exact H3|exact H4].
Defined.
End examples.
End windowagg.
