(* ===== verification/Merge.v ===== *)
(** * The merge node ([engine/nodes/merge])

    Two input ports: concatenation, the latest of each side, a windowed join on a key and a
    merge by correlation id.  The key expressions are parameters, the clock an argument, and a
    fresh id is taken from a supply for each datagram made.  Go visits a map in no fixed order;
    the model visits it in one, and no theorem depends on which. *)

From stdpp Require Import sorting.
From S2P Require Import Prelude GoStd Datagram Execution Value.
Import gostd datagram execution value.
Local Open Scope Z_scope.

Module merge.

Record Config := MkConfig {
  Mode : string; KeyA : string; KeyB : string; WindowMs : Z; JoinType : string; TimeoutMs : Z
}.
Record pendingItem := MkPendingItem { pdatagram : dgram; parrived : Z }.
Record batchPair := MkBatchPair { pa : option dgram; pb : option dgram }.

Definition combinedDatagram (id : string) (now : Z) (a b : dgram) : dgram :=
  caused id now a (AMap [("a", Value (payload a)); ("b", Value (payload b))]).
Definition combinedDatagramNilB (id : string) (now : Z) (a : dgram) : dgram :=
  caused id now a (AMap [("a", Value (payload a)); ("b", ANil)]).
Definition out (d : dgram) : portDgm := MkPortDatagram "out" d.

Section node.
(** [expr.Compile], running a compiled expression on a datagram with a timeout, [fmt.Sprint]. *)
Context {prog : Type} (compile : string -> res string prog).
Context (eval : prog -> dgram -> Z -> res string any) (sprint : any -> string).

Record node := MkNode {
  cfg : Config; keyA : option prog; keyB : option prog; timeout : Z; window : Z;
  lastA : option dgram; lastB : option dgram;
  pendingA : gmap string pendingItem; pendingB : gmap string pendingItem;
  batchByCorrelation : gmap string batchPair
}.
Definition set_last (n : node) (a b : option dgram) : node :=
  MkNode (cfg n) (keyA n) (keyB n) (timeout n) (window n) a b (pendingA n) (pendingB n) (batchByCorrelation n).
Definition set_pending (n : node) (a b : gmap string pendingItem) : node :=
  MkNode (cfg n) (keyA n) (keyB n) (timeout n) (window n) (lastA n) (lastB n) a b (batchByCorrelation n).
Definition set_batch (n : node) (m : gmap string batchPair) : node :=
  MkNode (cfg n) (keyA n) (keyB n) (timeout n) (window n) (lastA n) (lastB n) (pendingA n) (pendingB n) m.

(** ** Construction *)

Definition checkMode (c : Config) (joinType : string) : res string Z :=
  if decide (Mode c = "concatenate" \/ Mode c = "batchMerge") then Ok 0
  else if decide (Mode c = "combineLatest") then
    _ ← guard_err (bool_decide (KeyA c <> "") && bool_decide (KeyB c <> "")) "keyA and keyB are required"; Ok 0
  else if decide (Mode c = "join") then
    _ ← guard_err (bool_decide (KeyA c <> "") && bool_decide (KeyB c <> "")) "keyA and keyB are required";
    _ ← guard_err (0 <? WindowMs c) "windowMs is required";
    _ ← guard_err (bool_decide (joinType = "inner") || bool_decide (joinType = "left")) "unknown joinType";
    Ok (millis (WindowMs c))
  else Err "unknown mode".
Definition compileKey (s : string) : res string (option prog) :=
  if decide (s = "") then Ok None else p ← compile s; Ok (Some p).
Definition New (c : Config) : res string node :=
  let joinType := if decide (JoinType c = "") then "inner" else JoinType c in
  w ← checkMode c joinType;
  a ← compileKey (KeyA c);
  b ← compileKey (KeyB c);
  Ok (MkNode (MkConfig (Mode c) (KeyA c) (KeyB c) (WindowMs c) joinType (TimeoutMs c)) a b
    (millis (TimeoutMs c)) w None None ∅ ∅ ∅).

(** ** Combine latest *)

Definition processCombineLatest (n : node) (id : nat -> string) (now : Z) (port : string) (inp : dgram)
  : node * nodeResult :=
  let n' := if decide (port = "a") then set_last n (Some inp) (lastB n) else set_last n (lastA n) (Some inp) in
  match lastA n', lastB n' with
  | Some a, Some b => (n', Ok [out (combinedDatagram (id 0%nat) now a b)])
  | _, _ => (n', Ok [])
  end.

(** ** Join *)

(** [expireStale]: what is left of each side, and the expired items of side "a". *)
Definition fresh (w now : Z) (kv : string * pendingItem) : Prop := timeSub now (parrived kv.2) <= w.
#[global] Instance fresh_dec w now kv : Decision (fresh w now kv).
Proof. unfold fresh. apply _. Defined.
Definition expired (n : node) (now : Z) : list dgram :=
  map (fun kv => pdatagram kv.2) (map_to_list (filter (fun kv => ~ fresh (window n) now kv) (pendingA n))).
Definition expireStale (n : node) (id : nat -> string) (now : Z) : node * list portDgm :=
  (set_pending n (filter (fresh (window n) now) (pendingA n)) (filter (fresh (window n) now) (pendingB n)),
   if decide (JoinType (cfg n) = "left") then imap (fun i d => out (combinedDatagramNilB (id i) now d)) (expired n now)
   else []).

(** The key of a datagram; an expression that was not compiled is a nil dereference. *)
Definition joinKey (n : node) (port : string) (inp : dgram) : res string string :=
  match (if decide (port = "b") then keyB n else keyA n) with
  | None => Panic
  | Some p => sprint <$> eval p inp (timeout n)
  end.
(** The part of [processJoin] before [expireStale]: the pair joined, if any. *)
Definition matchKey (n : node) (now : Z) (port key : string) (inp : dgram) : node * option (dgram * dgram) :=
  let isB := bool_decide (port = "b") in
  let other := if isB then pendingA n else pendingB n in
  let update (mine : gmap string pendingItem -> gmap string pendingItem) :=
    if isB then set_pending n (delete key (pendingA n)) (mine (pendingB n))
    else set_pending n (mine (pendingA n)) (delete key (pendingB n)) in
  match other !! key with
  | Some m =>
      if timeSub now (parrived m) <=? window n then
        (update id, Some (if decide (port = "a") then (inp, pdatagram m) else (pdatagram m, inp)))
      else (update (insert key (MkPendingItem inp now)), None)
  | None => (update (insert key (MkPendingItem inp now)), None)
  end.
Definition processJoin (n : node) (id : nat -> string) (now : Z) (port : string) (inp : dgram) : node * nodeResult :=
  match joinKey n port inp with
  | Ok key =>
      let '(n1, m) := matchKey n now port key inp in
      let results := match m with Some (a, b) => [out (combinedDatagram (id 0%nat) now a b)] | None => [] end in
      let '(n2, expired) := expireStale n1 (fun i => id (S i)) now in
      (n2, Ok (results ++ expired))
  | Err e => (n, Err e)
  | Panic => (n, Panic)
  end.

(** ** Batch merge *)

Definition processBatchMerge (n : node) (id : nat -> string) (now : Z) (port : string) (inp : dgram) : node * nodeResult :=
  let corrID := CorrelationID (header inp) in
  if decide (corrID = "") then (n, Err "datagram has no correlationId to merge on")
  else
    let pair := default (MkBatchPair None None) (batchByCorrelation n !! corrID) in
    let pair := if decide (port = "a") then MkBatchPair (Some inp) (pb pair) else MkBatchPair (pa pair) (Some inp) in
    match pa pair, pb pair with
    | Some a, Some b =>
        (set_batch n (delete corrID (batchByCorrelation n)), Ok [out (combinedDatagram (id 0%nat) now a b)])
    | _, _ => (set_batch n (<[corrID := pair]> (batchByCorrelation n)), Ok [])
    end.

Definition ProcessPort (n : node) (id : nat -> string) (now : Z) (port : string) (inp : dgram) : node * nodeResult :=
  if decide (Mode (cfg n) = "concatenate") then (n, Ok [out inp])
  else if decide (Mode (cfg n) = "combineLatest") then processCombineLatest n id now port inp
  else if decide (Mode (cfg n) = "join") then processJoin n id now port inp
  else if decide (Mode (cfg n) = "batchMerge") then processBatchMerge n id now port inp
  else (n, Err "unhandled mode").

(** ** The join, key by key *)

(** What a key waits for: side "a" ([false]) or "b" ([true]) and the pending item. *)
Definition slot : Type := option (bool * pendingItem).
Definition slot_at (n : node) (k : string) : slot :=
  match pendingA n !! k, pendingB n !! k with
  | Some p, None => Some (false, p)
  | None, Some p => Some (true, p)
  | _, _ => None
  end.
(** No key waits on both sides. *)
Definition one_sided (n : node) : Prop := forall k, pendingA n !! k = None \/ pendingB n !! k = None.

(** The specification of one key: an arrival joins the item that waits on the other side if
    that one arrived at most [w] ago; otherwise it is the one that waits. *)
Definition pair_of (isB : bool) (inp other : dgram) : dgram * dgram := if isB then (other, inp) else (inp, other).
Definition spec_step (w : Z) (st : slot * list (option (dgram * dgram))) (x : bool * Z * dgram) : slot * list (option (dgram * dgram)) :=
  let '(isB, now, inp) := x in
  match st.1 with
  | Some (side, m) =>
      if negb (eqb side isB) && (now - parrived m <=? w)
      then (None, st.2 ++ [Some (pair_of isB inp (pdatagram m))])
      else (Some (isB, MkPendingItem inp now), st.2 ++ [None])
  | None => (Some (isB, MkPendingItem inp now), st.2 ++ [None])
  end.
(** What waits after the arrivals of a key, and the pair that each of them makes, if any. *)
Definition spec_run (w : Z) (l : list (bool * Z * dgram)) : slot * list (option (dgram * dgram)) :=
  fold_left (spec_step w) l (None, []).

Lemma spec_run_snoc w l x : spec_run w (l ++ [x]) = spec_step w (spec_run w l) x.
Proof. unfold spec_run. by rewrite fold_left_app. Qed.

(** [window] is a duration [Sub] does not saturate to. *)
Definition window_ok (n : node) : Prop := in_s 64 (window n) /\ window n < 2 ^ 63 - 1.

Lemma matchKey_slot n now port key inp n' o : one_sided n -> window_ok n -> port = "a" \/ port = "b" ->
  matchKey n now port key inp = (n', o) ->
  one_sided n' /\ (forall out, (slot_at n' key, out ++ [o])
    = spec_step (window n) (slot_at n key, out) (bool_decide (port = "b"), now, inp)) /\
  (forall k, k <> key -> slot_at n' k = slot_at n k) /\
  cfg n' = cfg n /\ keyA n' = keyA n /\ keyB n' = keyB n /\ timeout n' = timeout n /\ window n' = window n.
Proof.
  intros H1 [Hw1 Hw2] Hp. unfold matchKey, slot_at.
  assert (forall m, (timeSub now (parrived m) <=? window n) = (now - parrived m <=? window n)) as Hsub.
  { intros m. pose proof (timeSub_le now (parrived m) (window n) Hw1 Hw2).
    destruct (Z.leb_spec (timeSub now (parrived m)) (window n)), (Z.leb_spec (now - parrived m) (window n)); lia. }
  specialize (H1 key) as Hk.
  destruct Hp as [-> | ->];
    [change (bool_decide ("a" = "b")) with false|change (bool_decide ("b" = "b")) with true]; cbn -[decide].
  all: destruct (pendingA n !! key) as [ma|] eqn:Ea, (pendingB n !! key) as [mb|] eqn:Eb; try (exfalso; naive_solver).
  all: rewrite ?Hsub; cbn -[decide]; try (rewrite decide_True by done); try (rewrite decide_False by done).
  all: try match goal with |- context [?a <=? ?b] => destruct (a <=? b) end.
  all: intros H; apply pair_equal_spec in H as [<- <-]; cbn; rewrite ?lookup_delete_eq, ?lookup_insert_eq, ?Ea, ?Eb.
  all: split_and!; try done; try (intros; by rewrite ?app_nil_r).
  all: try (intros k Hne; by rewrite ?lookup_insert_ne, ?lookup_delete_ne by done).
  all: intros k; cbn; destruct (decide (k = key)) as [-> |Hne];
    rewrite ?lookup_delete_eq by done; rewrite ?lookup_delete_ne, ?lookup_insert_ne by done; auto.
Qed.

Definition keep (w now : Z) (k : string) (s : slot) : slot :=
  match s with Some (side, m) => if decide (fresh w now (k, m)) then s else None | None => None end.
Lemma expire_slot n id now : one_sided n -> let n' := (expireStale n id now).1 in
  one_sided n' /\ window n' = window n /\ cfg n' = cfg n /\ keyA n' = keyA n /\ keyB n' = keyB n /\ timeout n' = timeout n /\
  forall k, slot_at n' k = keep (window n) now k (slot_at n k).
Proof.
  intros H1. cbn. split_and!; [|done..|].
  - intros k. cbn. rewrite !map_lookup_filter. destruct (H1 k) as [-> | ->]; [by left|by right].
  - intros k. unfold slot_at. cbn -[decide fresh]. rewrite !map_lookup_filter.
    destruct (H1 k) as [-> | ->]; [destruct (pendingB n !! k) as [p|]|destruct (pendingA n !! k) as [p|]];
      cbn -[decide fresh]; try done.
    all: case_decide; [rewrite option_guard_True by done|rewrite option_guard_False by done]; done.
Qed.

(** ** Runs of the join *)

(** An arrival: port, clock, supply of ids and datagram.  A run records the arrivals of each key, with side and
    time, and what [ProcessPort] answered to each. *)
Record JRun := MkJRun {
  jnode : node; jseen : list (string * (bool * Z * dgram)); janswers : list (string * ((nat -> string) * Z * nodeResult))
}.
Definition jstep (r : JRun) (x : string * Z * (nat -> string) * dgram) : JRun :=
  let '(port, now, id, inp) := x in
  let '(n', res) := ProcessPort (jnode r) id now port inp in
  match joinKey (jnode r) port inp with
  | Ok key => MkJRun n' (jseen r ++ [(key, (bool_decide (port = "b"), now, inp))]) (janswers r ++ [(key, (id, now, res))])
  | _ => MkJRun n' (jseen r) (janswers r)
  end.
Definition jrun (n : node) (xs : list (string * Z * (nat -> string) * dgram)) : JRun :=
  fold_left jstep xs (MkJRun n [] []).
Definition of_key {A} (key : string) (l : list (string * A)) : list A :=
  omap (fun x => if decide (x.1 = key) then Some x.2 else None) l.

(** An answer that is the pair [o], if any, followed, in a left join only, by items of side "a" that arrived
    more than the window before, with a nil counterpart. *)
Definition answer_ok (n0 : node) (seen : list (string * (bool * Z * dgram))) (o : option (dgram * dgram)) (a : (nat -> string) * Z * nodeResult) : Prop :=
  exists exp, a.2 = Ok (map (fun p => out (combinedDatagram (a.1.1 0%nat) a.1.2 p.1 p.2)) (option_list o) ++ exp) /\
    (JoinType (cfg n0) <> "left" -> exp = []) /\
    Forall (fun e => exists i k t d, e = out (combinedDatagramNilB (a.1.1 i) a.1.2 d) /\ (k, (false, t, d)) ∈ seen /\ window n0 < a.1.2 - t) exp.
Lemma answer_ok_later n0 seen x o a : answer_ok n0 seen o a -> answer_ok n0 (seen ++ x) o a.
Proof.
  intros (exp & H1 & H2 & H3). exists exp. split_and!; [done..|]. eapply Forall_impl; [exact H3|].
  intros e (i & k & t & d & E & Hin & Hw). exists i, k, t, d. split_and!; [done| |done]. apply elem_of_app. by left.
Qed.

(** A key's slot is the specification's, except that what has expired is already gone. *)
Definition slot_rel (w T : Z) (s s' : slot) : Prop :=
  s = s' \/ (s = None /\ exists side m, s' = Some (side, m) /\ w < T - parrived m).
(** What waits on side "a" has arrived there. *)
Definition pending_seen (n : node) (seen : list (string * (bool * Z * dgram))) : Prop :=
  forall k it, pendingA n !! k = Some it -> (k, (false, parrived it, pdatagram it)) ∈ seen.
Definition join_inv (n0 : node) (T : Z) (r : JRun) : Prop :=
  one_sided (jnode r) /\ window (jnode r) = window n0 /\ cfg (jnode r) = cfg n0 /\ pending_seen (jnode r) (jseen r) /\
  forall key, slot_rel (window n0) T (slot_at (jnode r) key) (spec_run (window n0) (of_key key (jseen r))).1 /\
    Forall2 (answer_ok n0 (jseen r)) (spec_run (window n0) (of_key key (jseen r))).2 (of_key key (janswers r)).

Lemma matchKey_pending n now port key inp n' o seen : port = "a" \/ port = "b" -> matchKey n now port key inp = (n', o) -> pending_seen n seen ->
  pending_seen n' (seen ++ [(key, (bool_decide (port = "b"), now, inp))]).
Proof.
  intros Hp Hm Hs k it Hk.
  assert (pendingA n !! k = Some it \/ (k = key /\ it = MkPendingItem inp now /\ port = "a")) as [H|(-> & -> & ->)].
  { unfold matchKey in Hm. destruct Hp as [-> | ->];
      [change (bool_decide ("a" = "b")) with false in Hm|change (bool_decide ("b" = "b")) with true in Hm]; cbn -[decide] in Hm.
    - assert (pendingA n' = pendingA n \/ pendingA n' = <[key := MkPendingItem inp now]> (pendingA n)) as [E|E].
      { destruct (pendingB n !! key); [destruct (_ <=? _)|]; apply pair_equal_spec in Hm as [<- _]; cbn; [by left|by right..]. }
      + left. by rewrite <- E.
      + rewrite E in Hk. apply lookup_insert_Some in Hk as [[<- <-]|[_ Hk]]; [by right|by left].
    - assert (pendingA n' = delete key (pendingA n)) as E.
      { destruct (pendingA n !! key); [destruct (_ <=? _)|]; by apply pair_equal_spec in Hm as [<- _]. }
      rewrite E in Hk. apply lookup_delete_Some in Hk as [_ Hk]. by left. }
  - apply elem_of_app. left. by apply Hs.
  - apply elem_of_app. right. apply list_elem_of_singleton. done.
Qed.
Lemma expire_answers n n0 id now seen : window n = window n0 -> cfg n = cfg n0 -> window_ok n0 -> pending_seen n seen ->
  let exp := (expireStale n id now).2 in
  (JoinType (cfg n0) <> "left" -> exp = []) /\
  Forall (fun e => exists i k t d, e = out (combinedDatagramNilB (id i) now d) /\ (k, (false, t, d)) ∈ seen /\ window n0 < now - t) exp.
Proof.
  intros Hw Hc [Hw1 Hw2] Hs. cbn -[decide]. rewrite Hc. split; [intros H; by rewrite decide_False|].
  case_decide; [|constructor]. apply Forall_lookup. intros i e He. rewrite list_lookup_imap in He.
  destruct (expired n now !! i) as [d|] eqn:Ed; [|done]. cbn in He. injection He as <-.
  unfold expired in Ed. rewrite list_lookup_fmap in Ed.
  destruct (map_to_list _ !! i) as [[k it]|] eqn:Em; [|done]. cbn in Ed. injection Ed as <-.
  apply list_elem_of_lookup_2, elem_of_map_to_list, map_lookup_filter_Some in Em as [Hk Hf].
  exists i, k, (parrived it), (pdatagram it). split_and!; [done|by apply Hs|].
  unfold fresh in Hf. cbn in Hf. rewrite Hw, timeSub_le in Hf by done. lia.
Qed.

(** A later arrival sees no difference. *)
Lemma slot_rel_step w T s s' out isB now inp : slot_rel w T s s' -> T <= now ->
  spec_step w (s, out) (isB, now, inp) = spec_step w (s', out) (isB, now, inp).
Proof.
  intros [-> |(-> & side & m & -> & Hm)] Hle; [done|]. cbn.
  assert ((now - parrived m <=? w) = false) as -> by (apply Z.leb_gt; lia). by rewrite andb_false_r.
Qed.
Lemma slot_rel_later w T T' s s' : slot_rel w T s s' -> T <= T' -> slot_rel w T' s s'.
Proof. intros [-> |(-> & side & m & -> & Hm)] Hle; [by left|right]. split; [done|]. exists side, m. split; [done|lia]. Qed.
Lemma slot_rel_expire n w T k s' : window n = w -> window_ok n -> slot_rel w T (slot_at n k) s' ->
  slot_rel w T (keep w T k (slot_at n k)) s'.
Proof.
  intros <- [Hw1 Hw2] [E|(E & H)]; rewrite E; [|right; done].
  destruct s' as [[side m]|]; [|by left]. cbn -[decide]. case_decide as Hf; [by left|]. right. split; [done|].
  exists side, m. split; [done|]. unfold fresh in Hf. cbn in Hf. rewrite timeSub_le in Hf by done. lia.
Qed.

Lemma jstep_inv n0 T r port now id inp : Mode (cfg n0) = "join" -> window_ok n0 -> port = "a" \/ port = "b" ->
  T <= now -> join_inv n0 T r -> join_inv n0 now (jstep r (port, now, id, inp)).
Proof.
  intros Hm Hw Hp Hle (H1 & Hwin & Hcfg & Hps & Hk). unfold jstep.
  assert (ProcessPort (jnode r) id now port inp = processJoin (jnode r) id now port inp) as ->.
  { unfold ProcessPort. rewrite decide_False, decide_False, decide_True by (rewrite Hcfg, Hm; done). done. }
  unfold processJoin. destruct (joinKey (jnode r) port inp) as [key| |].
  2,3: split_and!; [done..|]; intros k; split; [by eapply slot_rel_later; [apply Hk|]|apply Hk].
  destruct (matchKey (jnode r) now port key inp) as [n1 o] eqn:Em.
  assert (window_ok (jnode r)) as Hw' by (unfold window_ok in *; by rewrite Hwin).
  destruct (matchKey_slot _ _ _ _ _ _ _ H1 Hw' Hp Em) as (H1' & Hs & Ho & Hc1 & _ & _ & _ & Hw1).
  pose proof (matchKey_pending _ _ _ _ _ _ _ _ Hp Em Hps) as Hps1.
  destruct (expire_slot n1 (fun i => id (S i)) now H1') as (H2 & Hw2 & Hc2 & _ & _ & _ & Hsl).
  destruct (expire_answers n1 n0 (fun i => id (S i)) now _ ltac:(congruence) ltac:(congruence) Hw Hps1) as [He1 He2].
  assert (pending_seen (expireStale n1 (fun i => id (S i)) now).1 (jseen r ++ [(key, (bool_decide (port = "b"), now, inp))])) as Hps2.
  { intros k it Hit. cbn in Hit. apply map_lookup_filter_Some in Hit as [Hit _]. by apply Hps1. }
  destruct (expireStale n1 _ now) as [n2 ex] eqn:Ee. cbn [fst snd] in *. cbn [jnode jseen janswers snd].
  split_and!; [done|cbn; congruence|cbn; congruence|done|]. intros k. cbn [jnode jseen janswers]. rewrite Hsl.
  destruct (Hk k) as [Hr Hj]. unfold of_key. rewrite !omap_app. fold (of_key k (jseen r)) (of_key k (janswers r)).
  rewrite Hw1, Hwin.
  assert (forall l l', Forall2 (answer_ok n0 (jseen r)) l l' -> Forall2 (answer_ok n0 (jseen r ++ [(key, (bool_decide (port = "b"), now, inp))])) l l') as Hmono.
  { intros l l' Hf. eapply Forall2_impl; [exact Hf|]. intros. by apply answer_ok_later. }
  destruct (decide (key = k)) as [-> |Hne].
  - replace (omap _ [(k, (bool_decide (port = "b"), now, inp))]) with [(bool_decide (port = "b"), now, inp)] by (cbn; by rewrite decide_True).
    match goal with |- context [omap ?f [(k, (id, now, ?x))]] => replace (omap f [(k, (id, now, x))]) with [(id, now, x)] by (cbn; by rewrite decide_True) end.
    rewrite spec_run_snoc. specialize (Hs (spec_run (window n0) (of_key k (jseen r))).2). rewrite Hwin in Hs.
    rewrite (slot_rel_step _ _ _ _ _ _ _ _ Hr Hle), <- surjective_pairing in Hs. rewrite <- Hs. cbn [fst snd].
    split; [apply slot_rel_expire; [congruence|by unfold window_ok in *; rewrite Hw1, Hwin|by left]|].
    apply Forall2_app; [by apply Hmono|]. constructor; [|constructor]. exists ex. cbn [fst snd]. split_and!; [|done|].
    + f_equal. by destruct o as [[a b]|].
    + eapply Forall_impl; [exact He2|]. intros e (i & kk & t & d & E & Hin & Hww). by exists (S i), kk, t, d.
  - replace (omap _ [(key, (bool_decide (port = "b"), now, inp))]) with (@nil (bool * Z * dgram)) by (cbn; by rewrite decide_False).
    match goal with |- context [omap ?f [(key, (id, now, ?x))]] => replace (omap f [(key, (id, now, x))]) with (@nil ((nat -> string) * Z * nodeResult)) by (cbn; by rewrite decide_False) end.
    rewrite !app_nil_r. split; [|by apply Hmono]. apply slot_rel_expire; [congruence|by unfold window_ok in *; rewrite Hw1, Hwin|].
    rewrite Ho by done. by eapply slot_rel_later.
Qed.

Lemma New_join c n : New c = Ok n -> Mode c = "join" ->
  Mode (cfg n) = "join" /\ window_ok n /\ pendingA n = ∅ /\ pendingB n = ∅.
Proof.
  unfold New, checkMode. intros H Hm. cbv zeta in H. rewrite Hm in H.
  set (jt := if decide (JoinType c = "") then _ else _) in H. rewrite decide_False, decide_False, decide_True in H by naive_solver.
  bind_ok H. bind_ok E. injection E as <-.
  injection H as <-. split_and!; [done|split; [apply millis_range|apply millis_max]|done|done].
Qed.

Definition time_of (x : string * Z * (nat -> string) * dgram) : Z := x.1.1.2.
Definition port_of (x : string * Z * (nat -> string) * dgram) : string := x.1.1.1.
Lemma jrun_inv n xs : Mode (cfg n) = "join" -> window_ok n -> pendingA n = ∅ -> pendingB n = ∅ ->
  Forall (fun x => port_of x = "a" \/ port_of x = "b") xs -> StronglySorted Z.le (map time_of xs) ->
  exists T, join_inv n T (jrun n xs) /\ (forall x, last xs = Some x -> T = time_of x).
Proof.
  intros Hm Hw Ha Hb. induction xs as [|[[[port now] id] inp] xs IH] using rev_ind; intros Hp Hs.
  - exists 0. split; [|done]. split_and!; [|done|done| |].
    + intros k. cbn. rewrite Ha, lookup_empty. by left.
    + intros k it. cbn. by rewrite Ha, lookup_empty.
    + intros k. cbn. unfold slot_at. rewrite Ha, Hb, lookup_empty. split; [by left|constructor].
  - rewrite Forall_app in Hp. destruct Hp as [Hp Hpx%Forall_inv]. rewrite map_app in Hs.
    destruct IH as (T & HT & Hl); [done|by eapply StronglySorted_app_1_l|].
    exists now. split; [|intros x; rewrite last_snoc; by intros [= <-]].
    unfold jrun. rewrite fold_left_app. cbn [fold_left]. fold (jrun n xs).
    destruct (last xs) as [y|] eqn:Hy.
    + apply jstep_inv with T; try done. rewrite (Hl y eq_refl).
      eapply StronglySorted_app_1_elem_of; [exact Hs| |by apply list_elem_of_singleton].
      apply list_elem_of_fmap_2. rewrite last_lookup in Hy. by eapply list_elem_of_lookup_2.
    + apply last_None in Hy as ->. apply jstep_inv with now; try done.
      destruct HT as (H1 & H2 & H3 & H4 & Hk). split_and!; [done..|]. intros k. destruct (Hk k) as [Hr Hj]. split; [|done].
      left. cbn. unfold slot_at. by rewrite Ha, Hb, lookup_empty.
Qed.

(** [C23] the windowed join implements its specification key by key.  In every run of a node that [New] built in
    mode "join", under a clock that does not go back, what [ProcessPort] emits is decided, key by key, by a
    one-slot machine that sees the key's arrivals only: an arrival is paired with the item waiting on the other
    side exactly when that item arrived at most [windowMs] before it, and otherwise it becomes the one that
    waits.  The call for an arrival that is paired emits on [out] the combination of the two, and any other call
    emits none; beyond this an inner join emits nothing, and a left join only items of side "a", of any key, that
    arrived more than [windowMs] before, with a nil counterpart.  So a joined pair has equal keys, an arrival is
    in at most one pair, and the eviction of stale items on every arrival never costs a pair; no key waits on
    both sides.  Calls whose key expression fails emit nothing and are not arrivals of a key. *)
Theorem join_refines c n xs key : New c = Ok n -> Mode c = "join" ->
  Forall (fun x => port_of x = "a" \/ port_of x = "b") xs -> StronglySorted Z.le (map time_of xs) ->
  let r := jrun n xs in
  Forall2 (answer_ok n (jseen r)) (spec_run (window n) (of_key key (jseen r))).2 (of_key key (janswers r)) /\
  (pendingA (jnode r) !! key = None \/ pendingB (jnode r) !! key = None).
Proof.
  intros Hn Hm Hp Hs. cbv zeta. destruct (New_join c n Hn Hm) as (Hm' & Hw & Ha & Hb).
  destruct (jrun_inv n xs Hm' Hw Ha Hb Hp Hs) as (T & (H1 & _ & _ & _ & Hk) & _). split; [apply Hk|apply H1].
Qed.

(** A left join loses unmatched items of the left side.  An item that waits on side "a"
    and has outlived the window is emitted with a nil counterpart by [expireStale], unless the
    next arrival is a "b" of the same key: then it is evicted and nothing is emitted for it,
    nor is it pending any more.  Likewise a second "a" of the same key replaces it silently,
    even within the window. *)
Theorem left_join_loses n id now port inp key item :
  Mode (cfg n) = "join" -> JoinType (cfg n) = "left" -> pendingA n = {[key := item]} -> pendingB n = ∅ ->
  0 <= window n -> joinKey n port inp = Ok key ->
  (port = "b" /\ window n < timeSub now (parrived item)) \/ port = "a" ->
  exists n', ProcessPort n id now port inp = (n', Ok []) /\
    pendingA n' !! key = (if decide (port = "a") then Some (MkPendingItem inp now) else None).
Proof.
  intros Hm Hj Ha Hb Hw0 Hk Hor.
  assert (ProcessPort n id now port inp = processJoin n id now port inp) as ->.
  { unfold ProcessPort. by rewrite decide_False, decide_False, decide_True by (rewrite Hm; done). }
  unfold processJoin. rewrite Hk. unfold matchKey.
  assert (timeSub now now = 0) as Ht by (unfold timeSub; lia).
  destruct Hor as [[-> Hst] | ->].
  - rewrite bool_decide_true by done. rewrite Ha, lookup_singleton_eq.
    destruct (Z.leb_spec (timeSub now (parrived item)) (window n)); [lia|].
    cbn -[decide]. rewrite Hj, decide_True by done.
    eexists. split.
    + unfold expired. cbn. rewrite delete_singleton_eq, !map_filter_empty. done.
    + cbn [pendingA set_pending]. rewrite decide_False by done. apply lookup_empty.
  - change (bool_decide ("a" = "b")) with false. cbn -[decide]. rewrite Hb, lookup_empty. cbn -[decide]. rewrite Hj, decide_True by done.
    eexists. split.
    + unfold expired. cbn. rewrite Ha, insert_singleton_eq. rewrite (map_filter_singleton_False (fun kv => ~ fresh (window n) now kv)); [done|].
      unfold fresh. cbn. rewrite Ht. lia.
    + cbn [pendingA set_pending]. rewrite decide_True by done. rewrite map_filter_singleton_True.
      * apply lookup_singleton_eq.
      * unfold fresh. cbn. rewrite Ht. lia.
Qed.

End node.

(** ** Witnesses *)

Module examples.
Definition dg (id : string) (v : any) : dgram := datagram.New id 0 (MkSource "n" "" "" "" "") (MkPayload v None).
(** The key expression is the payload's field "k". *)
Definition compile (s : string) : res string string := Ok s.
Definition eval (p : string) (d : dgram) (_ : Z) : res string any := Ok (fieldValue (Value (payload d)) p).
Definition sprint (v : any) : string := match v with AStr s => s | _ => "?" end.
Definition ids (i : nat) : string := "id".
Definition item (id k : string) : dgram := dg id (AMap [("k", AStr k)]).
Definition jcfg : Config := MkConfig "join" "k" "k" 1 "left" 0.
Definition joiner : node := MkNode jcfg (Some "k") (Some "k") 0 1000000 None None ∅ ∅ ∅.
Definition xs : list (string * Z * (nat -> string) * dgram) :=
  [("a", 0, ids, item "1" "x"); ("b", 10, ids, item "2" "y"); ("b", 500000, ids, item "3" "x");
   ("a", 3000000, ids, item "4" "y")].

Lemma join_refines_witness :
  let r := jrun eval sprint joiner xs in
  Forall2 (answer_ok joiner (jseen r)) [None; Some (item "1" "x", item "3" "x")] (of_key "x" (janswers r)) /\
  map (fun a => a.2) (of_key "x" (janswers r)) = [Ok []; Ok [out (combinedDatagram "id" 500000 (item "1" "x") (item "3" "x"))]] /\
  Forall2 (answer_ok joiner (jseen r)) [None; None] (of_key "y" (janswers r)).
Proof.
  cbv zeta. assert (Forall (fun x => port_of x = "a" \/ port_of x = "b") xs) as Hp by (repeat constructor; auto).
  assert (StronglySorted Z.le (map time_of xs)) as Hs by (repeat constructor; discriminate).
  split; [exact (proj1 (join_refines compile eval sprint jcfg joiner xs "x" eq_refl eq_refl Hp Hs))|].
  split; [vm_compute; reflexivity|].
  exact (proj1 (join_refines compile eval sprint jcfg joiner xs "y" eq_refl eq_refl Hp Hs)).
Defined.

Definition waiting : node :=
  MkNode jcfg (Some "k") (Some "k") 0 1000000 None None {["x" := MkPendingItem (item "1" "x") 0]} ∅ ∅.
Lemma left_join_loses_witness : exists n', ProcessPort eval sprint waiting ids 2000000 "b" (item "2" "x") = (n', Ok []) /\
  pendingA n' !! "x" = None.
Proof.
  apply (left_join_loses eval sprint waiting ids 2000000 "b" (item "2" "x") "x" (MkPendingItem (item "1" "x") 0));
    [reflexivity..|cbn; lia|reflexivity|]. left. split; [reflexivity|vm_compute; reflexivity].
Defined.
End examples.
End merge.
