(* ===== verification/SplitBatch.v ===== *)
(** * The split-batch node ([engine/nodes/splitbatch])

    One datagram per element of an array, or batches bounded by count, time and estimated
    size.  The estimate (the length of the JSON encoding) is a parameter; lengths of values
    held in memory add up without overflow. *)

From S2P Require Import Prelude GoStd Datagram Execution Value.
Import gostd datagram execution value.
Local Open Scope Z_scope.

Module splitbatch.

Record Config := MkConfig { Mode : string; Field : string; MaxCount : Z; MaxIntervalMs : Z; MaxBytes : Z }.
(** [batchStart] is read only while the batch is not empty. *)
Record node := MkNode { cfg : Config; batch : list any; batchStart : Z; batchBytes : Z }.

Definition New (c : Config) : res string node :=
  if decide (Mode c = "split") then Ok (MkNode c [] 0 0)
  else if decide (Mode c = "batch") then
    if (MaxCount c <=? 0) && (MaxIntervalMs c <=? 0) && (MaxBytes c <=? 0)
    then Err "requires at least one of maxCount/maxIntervalMs/maxBytes" else Ok (MkNode c [] 0 0)
  else Err "unknown mode".

Section batching.
(** [estimateBytes] *)
Context (estimateBytes : any -> Z).

Definition processSplit (n : node) (id : nat -> string) (now : Z) (inp : dgram) : nodeResult :=
  match fieldValue (Value (payload inp)) (Field (cfg n)) with
  | AArr arr => Ok (imap (fun i item => MkPortDatagram "out" (caused (id i) now inp item)) arr)
  | _ => Err "field is not an array"
  end.

Definition flush (n : node) (id : string) (now : Z) (cause : dgram) : node * portDgm :=
  (MkNode (cfg n) [] (batchStart n) 0, MkPortDatagram "out" (caused id now cause (AArr (batch n)))).

Definition overflows (n : node) (itemBytes : Z) : bool :=
  (0 <? MaxBytes (cfg n)) && (0 <? zlen (batch n)) && (MaxBytes (cfg n) <? batchBytes n + itemBytes).
Definition add (n : node) (now : Z) (v : any) : node :=
  MkNode (cfg n) (batch n ++ [v]) (if decide (zlen (batch n) = 0) then now else batchStart n)
    (batchBytes n + estimateBytes v).
Definition due (n : node) (now : Z) : bool :=
  let full := (0 <? MaxCount (cfg n)) && (MaxCount (cfg n) <=? zlen (batch n)) in
  let expired := (0 <? MaxIntervalMs (cfg n)) && (millis (MaxIntervalMs (cfg n)) <=? timeSub now (batchStart n)) in
  full || expired.
Definition processBatch (n : node) (id : nat -> string) (now : Z) (inp : dgram) : node * list portDgm :=
  let v := Value (payload inp) in
  let '(n1, results) :=
    if overflows n (estimateBytes v) then let '(n', d) := flush n (id 0%nat) now inp in (n', [d]) else (n, []) in
  let n2 := add n1 now v in
  if due n2 now then let '(n3, d) := flush n2 (id 1%nat) now inp in (n3, results ++ [d]) else (n2, results).

Definition Process (n : node) (id : nat -> string) (now : Z) (inp : dgram) : node * nodeResult :=
  if decide (Mode (cfg n) = "split") then (n, processSplit n id now inp)
  else let '(n', l) := processBatch n id now inp in (n', Ok l).

(** ** Runs *)

(** The values that went in, and the payloads that came out. *)
Record Run := MkRun { rnode : node; rin : list any; rout : list any }.
Definition out_values (l : nodeResult) : list any :=
  match l with Ok l => map (fun d => Value (payload (pdDatagram d))) l | _ => [] end.
Definition step (r : Run) (x : (nat -> string) * Z * dgram) : Run :=
  let '(id, now, inp) := x in
  let '(n', l) := Process (rnode r) id now inp in
  MkRun n' (rin r ++ [Value (payload inp)]) (rout r ++ out_values l).
Definition run (n : node) (xs : list ((nat -> string) * Z * dgram)) : Run := fold_left step xs (MkRun n [] []).

Definition total (l : list any) : Z := foldr Z.add 0 (map estimateBytes l).
(** A batch that respects the configured limits. *)
Definition batch_ok (c : Config) (l : list any) : Prop :=
  l <> [] /\ (0 < MaxCount c -> zlen l <= MaxCount c) /\ (0 < MaxBytes c -> total l <= MaxBytes c \/ length l = 1%nat).

(** ** Batches *)

Lemma total_app l k : total (l ++ k) = total l + total k.
Proof. unfold total. rewrite map_app. induction (map estimateBytes l) as [|x xs IH]; cbn in *; lia. Qed.

(** The state between two datagrams: [l] went in, the batches [bs] came out. *)
Record batching (c : Config) (n : node) (l : list any) (bs : list (list any)) : Prop := MkBatching {
  bt_cfg : cfg n = c;
  bt_all : l = concat bs ++ batch n;
  bt_out : Forall (batch_ok c) bs;
  bt_open : batch n = [] \/ batch_ok c (batch n);
  bt_room : 0 < MaxCount c -> zlen (batch n) < MaxCount c;
  bt_bytes : batchBytes n = total (batch n)
}.

Lemma flush_batching c n l bs id now inp : cfg n = c -> l = concat bs ++ batch n -> Forall (batch_ok c) bs -> batch_ok c (batch n) ->
  batching c (flush n id now inp).1 l (bs ++ [batch n]).
Proof.
  intros Hc Ha Hf Hb. split; cbn; [done| | |by left|done|done].
  - rewrite concat_app. cbn. by rewrite !app_nil_r.
  - apply Forall_app. split; [done|by constructor].
Qed.

(** Adding an item that fits keeps the batch within its limits. *)
Lemma add_batching c n l bs now v : batching c n l bs -> overflows n (estimateBytes v) = false ->
  cfg (add n now v) = c /\ l ++ [v] = concat bs ++ batch (add n now v) /\ batch_ok c (batch (add n now v)) /\
  batchBytes (add n now v) = total (batch (add n now v)).
Proof.
  intros [Hc Ha Hf Ho Hr Hb] Hov. unfold add. cbn [batchBytes batch cfg]. split_and!; [done|by rewrite Ha, app_assoc| |].
  - split_and!; [by destruct (batch n)| |].
    + intros Hp. specialize (Hr Hp). rewrite zlen_app. change (zlen [v]) with 1. lia.
    + intros Hp. destruct (decide (batch n = [])) as [E|Hne]; [right; by rewrite E|left].
      unfold overflows in Hov. rewrite Hc in Hov. rewrite total_app. change (total [v]) with (estimateBytes v + 0).
      assert (0 < zlen (batch n)) by (destruct (batch n); [done|rewrite zlen_cons; pose proof (zlen_nonneg l0); lia]).
      lia.
  - rewrite total_app, Hb. change (total [v]) with (estimateBytes v + 0). lia.
Qed.

Lemma processBatch_batching c n l bs id now inp : batching c n l bs ->
  let '(n', out) := processBatch n id now inp in
  exists bs', batching c n' (l ++ [Value (payload inp)]) (bs ++ bs') /\
    map (fun d => Value (payload (pdDatagram d))) out = map AArr bs'.
Proof.
  intros H. unfold processBatch. set (v := Value (payload inp)).
  assert (exists n1 bs1 out1, (if overflows n (estimateBytes v) then let '(n', d) := flush n (id 0%nat) now inp in (n', [d])
    else (n, [])) = (n1, out1) /\ batching c n1 l (bs ++ bs1) /\ overflows n1 (estimateBytes v) = false /\
    map (fun d => Value (payload (pdDatagram d))) out1 = map AArr bs1) as (n1 & bs1 & out1 & -> & H1 & Hov & Hout).
  { destruct (overflows n (estimateBytes v)) eqn:E.
    - assert (batch n <> []) as Hne.
      { intros Hn. unfold overflows in E. rewrite Hn in E. change (zlen []) with 0 in E. lia. }
      destruct H as [Hc Ha Hf [Ho|Ho] Hr Hb]; [done|].
      eexists _, [batch n], _. split; [reflexivity|]. split_and!; [by apply (flush_batching c n l bs (id 0%nat) now inp)|cbn|done].
      unfold overflows. cbn. by rewrite andb_false_r.
    - exists n, [], []. rewrite app_nil_r. done. }
  destruct (add_batching c n1 l (bs ++ bs1) now v H1 Hov) as (Hc & Ha & Hb & Hby).
  destruct (due (add n1 now v) now) eqn:Ed.
  - exists (bs1 ++ [batch (add n1 now v)]). rewrite app_assoc. split.
    + apply (flush_batching c _ _ _ (id 1%nat) now inp); try done. apply H1.
    + rewrite !map_app, Hout. done.
  - exists bs1. split; [|done]. split; [done|done|apply H1|by right| |done].
    intros Hp. unfold due in Ed. rewrite Hc in Ed. apply orb_false_iff in Ed as [Ed _].
    destruct (Z.ltb_spec 0 (MaxCount c)); [|lia]. cbn [andb] in Ed. apply Z.leb_gt in Ed. done.
Qed.

Lemma run_batching c n xs : New c = Ok n -> Mode c = "batch" ->
  let r := run n xs in exists bs, batching c (rnode r) (rin r) bs /\ rout r = map AArr bs.
Proof.
  intros Hn Hm. cbv zeta. induction xs as [|[[id now] inp] xs IH] using rev_ind.
  - exists []. split; [|done]. unfold New in Hn. rewrite decide_False, decide_True in Hn by (rewrite Hm; done).
    destruct (_ && _ && _); [done|]. injection Hn as <-. split; cbn; try done; by left.
  - unfold run. rewrite fold_left_app. cbn [fold_left]. fold (run n xs).
    destruct IH as (bs & Hb & Ho). unfold step, Process.
    rewrite decide_False by (rewrite (bt_cfg _ _ _ _ Hb), Hm; done).
    pose proof (processBatch_batching c _ _ _ id now inp Hb) as Hp.
    destruct (processBatch (rnode (run n xs)) id now inp) as [n' l]. destruct Hp as (bs' & Hb' & Hl).
    exists (bs ++ bs'). split; [done|]. cbn. by rewrite Hl, Ho, map_app.
Qed.

(** Batches partition the input and keep their limits.  In every run of a node that
    [New] built in mode "batch", the payloads that come out are arrays that, one after the
    other and followed by the items still buffered, are exactly the payloads that went in.
    Each array is non-empty, has at most [maxCount] items when that is set, and at most
    [maxBytes] estimated bytes when that is set, unless it is a single item; and fewer than
    [maxCount] items wait. *)
Theorem batches_partition c n xs : New c = Ok n -> Mode c = "batch" ->
  let r := run n xs in
  exists bs, rout r = map AArr bs /\ rin r = concat bs ++ batch (rnode r) /\ Forall (batch_ok c) bs /\
    (0 < MaxCount c -> zlen (batch (rnode r)) < MaxCount c).
Proof.
  intros Hn Hm. cbv zeta. destruct (run_batching c n xs Hn Hm) as (bs & [Hc Ha Hf _ Hr _] & Ho). exists bs. done.
Qed.

(** Splitting yields one datagram per element, in order, with the lineage of the array. *)
Lemma processSplit_elements n id now inp arr : fieldValue (Value (payload inp)) (Field (cfg n)) = AArr arr ->
  out_values (processSplit n id now inp) = arr.
Proof.
  intros H. unfold processSplit. rewrite H. cbn.
  apply list_eq. intros i. rewrite list_lookup_fmap, list_lookup_imap. by destruct (arr !! i).
Qed.

End batching.

(** Batches of at most two items and at most ten bytes. *)
Definition example_cfg : Config := MkConfig "batch" "" 2 0 10.
Definition example_dgm (v : any) : dgram := datagram.New "d" 0 (MkSource "n" "" "" "" "") (MkPayload v None).
Definition example_size (v : any) : Z := match v with AInt z => z | _ => 0 end.
Lemma batches_partition_witness :
  exists bs, map AArr [[AInt 9]; [AInt 20]; [AInt 1; AInt 2]] = map AArr bs /\
    [AInt 9; AInt 20; AInt 1; AInt 2; AInt 3] = concat bs ++ [AInt 3] /\
    Forall (batch_ok example_size example_cfg) bs /\ (0 < 2 -> 1 < 2).
Proof.
  exact (batches_partition example_size example_cfg (MkNode example_cfg [] 0 0)
    (map (fun z => (fun _ => "id", 0, example_dgm (AInt z))) [9; 20; 1; 2; 3]) eq_refl eq_refl).
Defined.
End splitbatch.
