(* ===== verification/Loop.v ===== *)
(** * The loop node ([engine/nodes/loop])

    Iterates an array one item at a time over loop-back wiring; a session per correlation id
    holds the array and the index.  The sub-flow between the "loop" output and the "in" port
    is a function on datagrams that keeps the correlation id. *)

From S2P Require Import Prelude GoStd Float Datagram Execution Value.
Import gostd float datagram execution value.
Local Open Scope Z_scope.

Module loop.

Definition DefaultMaxIterations : Z := 100000.
Record Config := MkConfig { ItemsField : string; MaxIterations : Z }.
Record session := MkSession { items : list any; index : Z }.
Record node := MkNode { cfg : Config; sessions : gmap string session }.

(** [New] on a decoded config. *)
Definition New (c : Config) : node :=
  MkNode (if MaxIterations c <=? 0 then MkConfig (ItemsField c) DefaultMaxIterations else c) ∅.

Definition loopResult (id : string) (now : Z) (cause : dgram) (item : any) : portDgm :=
  MkPortDatagram "loop" (caused id now cause item).
Definition doneResult (id : string) (now : Z) (cause : dgram) (l : list any) : portDgm :=
  MkPortDatagram "done" (caused id now cause (AMap [("count", AFloat (of_Z (zlen l)))])).

Definition startSession (n : node) (id : string) (now : Z) (inp : dgram) (corrID : string) : node * nodeResult :=
  match fieldValue (Value (payload inp)) (ItemsField (cfg n)) with
  | AArr [] => (n, Ok [doneResult id now inp []])
  | AArr (it :: l) =>
      (MkNode (cfg n) (<[corrID := MkSession (it :: l) 0]> (sessions n)), Ok [loopResult id now inp it])
  | _ => (n, Err "field is not an array")
  end.
Definition continueSession (n : node) (id : string) (now : Z) (inp : dgram) (corrID : string) (sess : session)
  : node * nodeResult :=
  let i := index sess + 1 in
  if (zlen (items sess) <=? i) || (MaxIterations (cfg n) <=? i) then
    (MkNode (cfg n) (delete corrID (sessions n)), Ok [doneResult id now inp (items sess)])
  else
    (MkNode (cfg n) (<[corrID := MkSession (items sess) i]> (sessions n)),
     item ← Prelude.index (items sess) i; Ok [loopResult id now inp item]).
Definition Process (n : node) (id : string) (now : Z) (inp : dgram) : node * nodeResult :=
  let corrID := CorrelationID (header inp) in
  match sessions n !! corrID with
  | Some sess => continueSession n id now inp corrID sess
  | None => startSession n id now inp corrID
  end.

(** ** The loop-back wiring *)

Section wiring.
(** The sub-flow, and the id and time of each datagram. *)
Context (body : dgram -> dgram) (id : nat -> string) (clock : nat -> Z).

(** Feeding each "loop" datagram back through the sub-flow until one leaves on "done": the
    items that were sent through, and the final datagram; [None] when [fuel] runs out. *)
Fixpoint drive (fuel step : nat) (n : node) (inp : dgram) (sent : list any) : option (node * list any * dgram) :=
  match fuel with
  | O => None
  | S fuel =>
      match Process n (id step) (clock step) inp with
      | (n', Ok [MkPortDatagram port d]) =>
          if decide (port = "done") then Some (n', sent, d)
          else drive fuel (S step) n' (body d) (sent ++ [Value (payload d)])
      | _ => None
      end
  end.

Lemma drive_S fuel step n inp sent : drive (S fuel) step n inp sent =
  match Process n (id step) (clock step) inp with
  | (n', Ok [MkPortDatagram port d]) =>
      if decide (port = "done") then Some (n', sent, d)
      else drive fuel (S step) n' (body d) (sent ++ [Value (payload d)])
  | _ => None
  end.
Proof. done. Qed.

Context (body_corr : forall d, CorrelationID (header (body d)) = CorrelationID (header d)).

(** From the [i]-th item of a session on. *)
Lemma drive_session l corr max extra : forall k i step n inp sent,
  CorrelationID (header inp) = corr -> sessions n !! corr = Some (MkSession l (Z.of_nat i)) ->
  MaxIterations (cfg n) = max -> Z.min (zlen l) max = Z.of_nat i + 1 + Z.of_nat k ->
  exists d, drive (S k + extra) step n inp sent
    = Some (MkNode (cfg n) (delete corr (sessions n)), sent ++ take k (drop (S i) l), d) /\
    Value (payload d) = AMap [("count", AFloat (of_Z (zlen l)))].
Proof.
  induction k as [|k IH]; intros i step n inp sent Hc Hs Hm Hk; rewrite Nat.add_succ_l, drive_S; unfold Process; rewrite Hc, Hs;
    unfold continueSession; cbn [items index]; rewrite Hm.
  - assert ((zlen l <=? Z.of_nat i + 1) || (max <=? Z.of_nat i + 1) = true) as -> by lia.
    unfold doneResult. rewrite decide_True by done. eexists. by rewrite take_0, app_nil_r.
  - assert ((zlen l <=? Z.of_nat i + 1) || (max <=? Z.of_nat i + 1) = false) as -> by lia.
    destruct (lookup_lt_is_Some_2 l (S i)) as [it Hit]; [unfold zlen in Hk; lia|].
    replace (Z.of_nat i + 1) with (Z.of_nat (S i)) by lia. rewrite (index_lookup l (S i) it Hit). cbn [mbind res_bind].
    unfold loopResult. rewrite decide_False by done.
    edestruct (IH (S i) (S step)) as (d & -> & Hd); [by rewrite body_corr|apply lookup_insert_eq|done|lia|].
    exists d. split; [|done]. cbn. rewrite delete_insert_eq. rewrite (drop_S l it (S i) Hit). cbn.
    by rewrite <- app_assoc.
Qed.

(** [C38] The loop terminates.  A trigger whose correlation id has no session, and whose
    payload holds an array, leaves the loop on "done": for any sub-flow that keeps the
    correlation id, after exactly the first [maxIterations] items (all of them when there are
    fewer) have been sent through it, one at a time and in order, the node emits one "done"
    datagram with the array's length and forgets the session. *)
Theorem loop_terminates c n inp l :
  let corr := CorrelationID (header inp) in
  cfg n = cfg (New c) -> sessions n !! corr = None -> fieldValue (Value (payload inp)) (ItemsField (cfg n)) = AArr l ->
  exists d, drive (S (length l)) 0 n inp []
    = Some (n, take (Z.to_nat (MaxIterations (cfg n))) l, d) /\
    Value (payload d) = AMap [("count", AFloat (of_Z (zlen l)))].
Proof.
  intros corr Hcfg Hs Hv.
  assert (0 < MaxIterations (cfg n)) as Hmax.
  { rewrite Hcfg. cbn. destruct (Z.leb_spec (MaxIterations c) 0); [done|lia]. }
  rewrite drive_S. unfold Process. fold corr. rewrite Hs. unfold startSession. rewrite Hv.
  destruct l as [|it l]; unfold doneResult, loopResult.
  - rewrite decide_True by done. eexists. by rewrite take_nil.
  - rewrite decide_False by done.
    set (n1 := MkNode _ _). set (k := (Nat.min (S (length l)) (Z.to_nat (MaxIterations (cfg n))) - 1)%nat).
    change (length (it :: l)) with (S (length l)).
    assert (S (length l) = S k + (length l - k))%nat as -> by (unfold k; lia).
    edestruct (drive_session (it :: l) corr (MaxIterations (cfg n)) (length l - k) k 0 1 n1) as (d & -> & Hd);
      [by rewrite body_corr|apply lookup_insert_eq|done|unfold zlen, k; change (length (it :: l)) with (S (length l)); lia|].
    exists d. split; [|done]. unfold n1. cbn. rewrite delete_insert_id by done.
    destruct n as [c0 s0]. do 3 f_equal. cbn in *. rewrite drop_0.
    destruct (Z.to_nat (MaxIterations c0)) as [|m] eqn:E; [lia|]. cbn. f_equal. unfold k. cbn.
    rewrite Nat.sub_0_r. destruct (Nat.min_spec (length l) m) as [[? ->]|[? ->]]; [|done]. rewrite !take_ge by lia. done.
Qed.
End wiring.

(** Three items, at most two iterations. *)
Definition example_cfg : Config := MkConfig "" 2.
Definition example_dgm (v : any) : dgram := datagram.New "d" 0 (MkSource "n" "" "" "" "") (MkPayload v None).
Lemma loop_terminates_witness :
  exists d, drive (fun d => d) (fun _ => "i") (fun _ => 0) 4 0 (New example_cfg)
      (example_dgm (AArr [AInt 1; AInt 2; AInt 3])) []
    = Some (New example_cfg, [AInt 1; AInt 2], d) /\ Value (payload d) = AMap [("count", AFloat (of_Z 3))].
Proof.
  exact (loop_terminates (fun d => d) (fun _ => "i") (fun _ => 0) (fun d => eq_refl) example_cfg (New example_cfg)
    (example_dgm (AArr [AInt 1; AInt 2; AInt 3])) [AInt 1; AInt 2; AInt 3] eq_refl eq_refl eq_refl).
Defined.
End loop.
