(* ===== verification/Delay.v ===== *)
(** * The delay node ([engine/nodes/delay])

    A delay, or rate limiting per key with a sliding window of release times.  [Process]
    blocks; what it sees of the world while it does, one clock reading per attempt and whether
    the sleep that followed ran to its end, is an argument. *)

From stdpp Require Import sorting.
From S2P Require Import Prelude GoStd Float Datagram Execution Value.
Import gostd float datagram execution value.
Local Open Scope Z_scope.

Module delay.

Record Config := MkConfig {
  Mode : string; DelayMs : Z; DelayExpression : string; MaxPerInterval : Z; IntervalMs : Z; GroupBy : string; TimeoutMs : Z
}.
(** The clock at an attempt, and whether the sleep after it completed ([false]: cancelled). *)
Abbreviation tick := (Z * bool)%type.

(** [sleep]: whether it returns nil. *)
Definition sleep (d : Z) (completes : bool) : bool := (d <=? 0) || completes.

Fixpoint dropBefore (cutoff : Z) (timestamps : list Z) : list Z :=
  match timestamps with
  | t :: l => if t <? cutoff then dropBefore cutoff l else timestamps
  | [] => []
  end.
Definition pruneWindow (timestamps : list Z) (now interval : Z) : list Z :=
  dropBefore (now + s64 (- interval)) timestamps.

(** The loop of [applyThrottle] on a key's window: the release time and the new window;
    [None] when the readings end before the loop does. *)
Fixpoint throttle (maxPer interval : Z) (stored : list Z) (ticks : list tick) : option (res string (Z * list Z)) :=
  match ticks with
  | [] => None
  | (now, completes) :: rest =>
      let window := pruneWindow stored now interval in
      if zlen window <? maxPer then Some (Ok (now, window ++ [now]))
      else
        match window with
        | [] => Some Panic
        | t :: _ =>
            let wait := s64 (interval - timeSub now t) in
            let wait := if wait <? 0 then 0 else wait in
            if sleep wait completes then throttle maxPer interval stored rest else Some (Err "context canceled")
        end
  end.

(** ** The rate limit on one key *)

Lemma dropBefore_split cutoff l : exists p, l = p ++ dropBefore cutoff l /\ Forall (fun t => t < cutoff) p.
Proof.
  induction l as [|t l (p & Hp & Hf)]; cbn; [by exists []; split|].
  destruct (Z.ltb_spec t cutoff); [|by exists []; split]. exists (t :: p). split; [by cbn; f_equal|by constructor].
Qed.

Section rate.
Context (maxPer interval : Z) (Hmax : 0 < maxPer) (Hint : 0 < interval) (Hlim : in_s 64 interval).

Lemma pruneWindow_cutoff l now : pruneWindow l now interval = dropBefore (now - interval) l.
Proof. unfold pruneWindow. rewrite swrap_id; [f_equal; lia|lia|]. unfold in_s in *. lia. Qed.

(** [acc] are the release times of a key, oldest first, [w] its stored window, [T] the last
    release: what has left the window is older than the interval. *)
Definition rate_inv (T : Z) (acc w : list Z) : Prop :=
  exists old, acc = old ++ w /\ Forall (fun t => t < T - interval) old /\ zlen w <= maxPer /\
  forall i t t', acc !! i = Some t -> acc !! (i + Z.to_nat maxPer)%nat = Some t' -> interval < t' - t.

(** The attempt at which the datagram was released is one of the readings. *)
Lemma throttle_release stored ticks now w : throttle maxPer interval stored ticks = Some (Ok (now, w)) ->
  now ∈ map fst ticks /\ w = dropBefore (now - interval) stored ++ [now] /\ zlen (dropBefore (now - interval) stored) < maxPer.
Proof.
  induction ticks as [|[t ok] ticks IH]; [done|]. cbn. rewrite pruneWindow_cutoff.
  destruct (Z.ltb_spec (zlen (dropBefore (t - interval) stored)) maxPer) as [Hlt|Hge].
  - intros [= <- <-]. split_and!; [constructor|done..].
  - destruct (dropBefore (t - interval) stored); [done|]. destruct (sleep _ _); [|done]. intros H. destruct (IH H) as (? & ? & ?).
    split_and!; [by constructor|done..].
Qed.

Lemma rate_inv_release T acc w now w' ticks : rate_inv T acc w -> T <= now ->
  throttle maxPer interval w ticks = Some (Ok (now, w')) -> rate_inv now (acc ++ [now]) w'.
Proof.
  intros (old & -> & Hold & Hlen & Hr) Hle Ht. destruct (throttle_release _ _ _ _ Ht) as (_ & -> & Hlt).
  destruct (dropBefore_split (now - interval) w) as (p & Hp & Hf). set (k := dropBefore _ _) in *.
  exists (old ++ p). split_and!.
  - rewrite Hp. by rewrite <- !app_assoc.
  - apply Forall_app. split; [|done]. eapply Forall_impl; [exact Hold|]. cbn. lia.
  - rewrite zlen_app. change (zlen [now]) with 1. lia.
  - intros i t t' Hi Hj. rewrite Hp in *. destruct (decide ((i + Z.to_nat maxPer)%nat < length (old ++ p ++ k))%nat) as [Hin|Hin].
    + rewrite lookup_app_l in Hi by lia. rewrite lookup_app_l in Hj by lia. by eapply Hr.
    + assert (i + Z.to_nat maxPer = length (old ++ p ++ k))%nat as E.
      { apply lookup_lt_Some in Hj. rewrite (length_app _ [now]) in Hj. cbn in Hj. lia. }
      rewrite E, lookup_app_r, Nat.sub_diag in Hj by lia. injection Hj as <-.
      assert (i < length (old ++ p))%nat as Hi'.
      { rewrite !length_app in *. unfold zlen in Hlt. lia. }
      rewrite app_assoc, <- (app_assoc _ k), lookup_app_l in Hi by done.
      assert (Forall (fun t => t < now - interval) (old ++ p)) as Hall.
      { apply Forall_app. split; [|done]. eapply Forall_impl; [exact Hold|]. cbn. lia. }
      pose proof (Forall_lookup_1 _ _ _ _ Hall Hi). cbn in *. lia.
Qed.

(** One sleep is enough. *)
Lemma throttle_one_sleep stored now now' ok : zlen stored <= maxPer ->
  (forall t, head (dropBefore (now - interval) stored) = Some t -> now + (interval - (now - t)) < now') ->
  exists t w, throttle maxPer interval stored [(now, true); (now', ok)] = Some (Ok (t, w)).
Proof.
  intros Hlen Hw. cbn. rewrite !pruneWindow_cutoff.
  destruct (Z.ltb_spec (zlen (dropBefore (now - interval) stored)) maxPer) as [Hlt|Hge]; [by eauto|].
  destruct (dropBefore_split (now - interval) stored) as (p & Hp & Hf).
  destruct (dropBefore (now - interval) stored) as [|t l] eqn:E; [change (zlen []) with 0 in Hge; lia|].
  assert (p = []) as ->.
  { destruct p as [|x p]; [done|]. rewrite Hp, zlen_app, zlen_cons in Hlen. pose proof (zlen_nonneg p). lia. }
  cbn in Hp. assert (sleep (if s64 (interval - timeSub now t) <? 0 then 0 else s64 (interval - timeSub now t)) true = true) as ->.
  { unfold sleep. by rewrite orb_true_r. }
  assert ((zlen (dropBefore (now' - interval) stored) <? maxPer) = true) as ->.
  { rewrite Hp in *. cbn. specialize (Hw t eq_refl). destruct (Z.ltb_spec t (now' - interval)); [|lia].
    destruct (dropBefore_split (now' - interval) l) as (q & Hq & _). apply Z.ltb_lt.
    rewrite Hq, zlen_cons, zlen_app in Hlen. pose proof (zlen_nonneg q). lia. }
  eauto.
Qed.
End rate.

Section node.
(** [expr.Compile], running a compiled expression on a datagram with a timeout, [fmt.Sprint]. *)
Context {prog : Type} (compile : string -> res string prog).
Context (eval : prog -> dgram -> Z -> res string any) (sprint : any -> string).

Record node := MkNode {
  cfg : Config; delayProg : option prog; groupProg : option prog; timeout : Z; windowByKey : gmap string (list Z)
}.

Definition New (c : Config) : res string node :=
  if decide (Mode c = "delay") then
    p ← (if decide (DelayExpression c = "") then Ok None else Some <$> compile (DelayExpression c));
    Ok (MkNode c p None (millis (TimeoutMs c)) ∅)
  else if decide (Mode c = "throttle") then
    if (MaxPerInterval c <=? 0) || (IntervalMs c <=? 0) then Err "maxPerInterval and intervalMs are required"
    else
      p ← (if decide (GroupBy c = "") then Ok None else Some <$> compile (GroupBy c));
      Ok (MkNode c None p (millis (TimeoutMs c)) ∅)
  else Err "unknown mode".

(** [applyDelay]; a number out of the range of [int] gives the lowest one. *)
Definition delayMs (n : node) (inp : dgram) : res string Z :=
  match delayProg n with
  | None => Ok (DelayMs (cfg n))
  | Some p =>
      v ← eval p inp (timeout n);
      match toFloat v with
      | Some f => Ok (to_int64 f)
      | None => Err "delayExpression did not evaluate to a number"
      end
  end.
Definition applyDelay (n : node) (completes : bool) (inp : dgram) : res string unit :=
  ms ← delayMs n inp;
  if ms <=? 0 then Ok tt else guard_err (sleep (millis ms) completes) "context canceled".

Definition throttleKey (n : node) (inp : dgram) : res string string :=
  match groupProg n with
  | None => Ok "_"
  | Some p => sprint <$> eval p inp (timeout n)
  end.
Definition applyThrottle (n : node) (ticks : list tick) (inp : dgram) : option (node * res string Z) :=
  match throttleKey n inp with
  | Ok key =>
      match throttle (MaxPerInterval (cfg n)) (millis (IntervalMs (cfg n))) (default [] (windowByKey n !! key)) ticks with
      | Some (Ok (now, w)) =>
          Some (MkNode (cfg n) (delayProg n) (groupProg n) (timeout n) (<[key := w]> (windowByKey n)), Ok now)
      | Some (Err e) => Some (n, Err e)
      | Some Panic => Some (n, Panic)
      | None => None
      end
  | Err e => Some (n, Err e)
  | Panic => Some (n, Panic)
  end.

(** [Process]; [None] while it blocks. *)
Definition Process (n : node) (ticks : list tick) (inp : dgram) : option (node * nodeResult) :=
  if decide (Mode (cfg n) = "delay") then
    match ticks with
    | (_, completes) :: _ => Some (n, _ ← applyDelay n completes inp; Ok [MkPortDatagram "out" inp])
    | [] => None
    end
  else
    '(n', r) ← applyThrottle n ticks inp;
    Some (n', _ ← r; Ok [MkPortDatagram "out" inp]).

(** ** Runs *)

(** What was released, by key. *)
Record Run := MkRun { rnode : node; released : list (string * Z) }.
Definition step (r : Run) (x : list tick * dgram) : Run :=
  let '(ticks, inp) := x in
  match applyThrottle (rnode r) ticks inp, throttleKey (rnode r) inp with
  | Some (n', Ok now), Ok key => MkRun n' (released r ++ [(key, now)])
  | Some (n', _), _ => MkRun n' (released r)
  | None, _ => r
  end.
Definition run (n : node) (xs : list (list tick * dgram)) : Run := fold_left step xs (MkRun n []).
Definition times (key : string) (l : list (string * Z)) : list Z :=
  omap (fun x => if decide (x.1 = key) then Some x.2 else None) l.
(** All the clock readings of a run, in order. *)
Definition readings (xs : list (list tick * dgram)) : list Z := concat (map (fun x => map fst x.1) xs).

Definition interval (n : node) : Z := millis (IntervalMs (cfg n)).
Definition run_inv (n0 : node) (past : Z -> Prop) (r : Run) : Prop :=
  cfg (rnode r) = cfg n0 /\
  forall key, exists T, (past T \/ times key (released r) = []) /\
    rate_inv (MaxPerInterval (cfg n0)) (interval n0) T (times key (released r)) (default [] (windowByKey (rnode r) !! key)).

Lemma throttle_step_inv n0 (past : Z -> Prop) r ticks inp : 0 < MaxPerInterval (cfg n0) -> 0 < interval n0 ->
  (forall T t, past T -> t ∈ map fst ticks -> T <= t) ->
  run_inv n0 past r -> run_inv n0 (fun t => past t \/ t ∈ map fst ticks) (step r (ticks, inp)).
Proof.
  intros Hm Hi Hle (Hc & Hk). unfold step, applyThrottle.
  assert (in_s 64 (interval n0)) as Hs by apply millis_range.
  destruct (throttleKey (rnode r) inp) as [key| |]; [|split; [done|]; intros k; destruct (Hk k) as (T & [?|?] & ?); eauto..].
  destruct (throttle _ _ _ ticks) as [[[now w]| |]|] eqn:Et;
    [|split; [done|]; intros k; destruct (Hk k) as (T & [?|?] & ?); eauto..].
  split; [done|]. intros k. cbn [rnode released windowByKey]. unfold times. rewrite omap_app. fold (times k (released r)).
  destruct (Hk k) as (T & HT & Hr). destruct (decide (key = k)) as [-> |Hne].
  - replace (omap _ [(k, now)]) with [now] by (cbn; by rewrite decide_True). rewrite lookup_insert_eq. cbn [default from_option id].
    rewrite Hc in Et. fold (interval n0) in Et.
    destruct (throttle_release _ _ Hi Hs _ _ _ _ Et) as (Hin & _ & _).
    exists now. split; [by left; right|].
    destruct HT as [HT|HT].
    + eapply (rate_inv_release _ _ Hm Hi Hs); [exact Hr|by apply Hle|exact Et].
    + eapply (rate_inv_release _ _ Hm Hi Hs now); [|done|exact Et]. rewrite HT in *.
      destruct Hr as (old & E & _ & Hl & _). symmetry in E. apply app_eq_nil in E as [-> E]. rewrite E.
      exists []. split_and!; [done|by apply Forall_nil|unfold zlen; cbn; lia|done].
  - replace (omap _ [(key, now)]) with (@nil Z) by (cbn; by rewrite decide_False). rewrite app_nil_r.
    rewrite lookup_insert_ne by done. exists T. split; [|done]. destruct HT; auto.
Qed.

Lemma run_inv_all n xs : windowByKey n = ∅ -> 0 < MaxPerInterval (cfg n) -> 0 < interval n ->
  StronglySorted Z.le (readings xs) -> run_inv n (fun t => t ∈ readings xs) (run n xs).
Proof.
  intros He Hm Hi. induction xs as [|[ticks inp] xs IH] using rev_ind; intros Hs.
  - split; [done|]. intros key. exists 0. split; [by right|]. cbn. rewrite He, lookup_empty.
    exists []. split_and!; [done|by apply Forall_nil|unfold zlen; cbn; lia|done].
  - unfold readings in *. rewrite map_app, concat_app in *. cbn in *. rewrite app_nil_r in *.
    unfold run. rewrite fold_left_app. cbn [fold_left]. fold (run n xs).
    pose proof (throttle_step_inv n (fun t => t ∈ concat (map (fun x => map fst x.1) xs)) (run n xs) ticks inp Hm Hi) as H.
    destruct H as (Hc & Hk).
    + intros T t HT Ht. by eapply StronglySorted_app_1_elem_of.
    + apply IH. by eapply StronglySorted_app_1_l.
    + split; [done|]. intros key. destruct (Hk key) as (T & HT & Hr). exists T. split; [|done].
      destruct HT as [HT|HT]; [left|by right]. by apply elem_of_app.
Qed.

Lemma New_throttle c n : New c = Ok n -> Mode c = "throttle" ->
  cfg n = c /\ windowByKey n = ∅ /\ 0 < MaxPerInterval c.
Proof.
  unfold New. intros H Hm. rewrite decide_False, decide_True in H by (rewrite Hm; done).
  destruct (Z.leb_spec (MaxPerInterval c) 0); [done|]. destruct (IntervalMs c <=? 0); [done|]. cbn in H.
  apply res_bind_Ok in H as (p & _ & [= <-]). done.
Qed.

(** [C39] The throttle keeps its rate.  In every run of a node that [New] built in mode
    "throttle", under a clock that does not go back, any [maxPerInterval + 1] consecutive
    releases of one key span more than [intervalMs]; other keys do not matter, and neither do
    datagrams that were cancelled while they waited. *)
Theorem throttle_rate c n xs key i t t' : New c = Ok n -> Mode c = "throttle" -> 0 < interval n ->
  StronglySorted Z.le (readings xs) ->
  times key (released (run n xs)) !! i = Some t ->
  times key (released (run n xs)) !! (i + Z.to_nat (MaxPerInterval c))%nat = Some t' -> interval n < t' - t.
Proof.
  intros Hn Hm Hi Hs H1 H2. destruct (New_throttle c n Hn Hm) as (Hc & He & Hp). rewrite <- Hc in Hp.
  destruct (run_inv_all n xs He Hp Hi Hs) as (_ & Hk). destruct (Hk key) as (T & _ & old & _ & _ & _ & Hr).
  rewrite Hc in Hr. by eapply Hr.
Qed.

(** The throttle releases what it holds after one sleep.  After any run of a node that
    [New] built in mode "throttle", a datagram of any key is released at the first attempt or
    at the second, provided the sleep the code asks for in between completes and the clock has
    then advanced by more than it: [Process] does not block for ever. *)
Theorem throttle_releases c n xs inp key now now' ok : New c = Ok n -> Mode c = "throttle" -> 0 < interval n ->
  StronglySorted Z.le (readings xs) ->
  throttleKey (rnode (run n xs)) inp = Ok key ->
  (forall t, head (pruneWindow (default [] (windowByKey (rnode (run n xs)) !! key)) now (interval n)) = Some t ->
    now + (interval n - (now - t)) < now') ->
  exists n' d, Process (rnode (run n xs)) [(now, true); (now', ok)] inp = Some (n', Ok [MkPortDatagram "out" d]) /\ d = inp.
Proof.
  intros Hn Hm Hi Hs Hkey Hw. destruct (New_throttle c n Hn Hm) as (Hc & He & Hp). rewrite <- Hc in Hp.
  destruct (run_inv_all n xs He Hp Hi Hs) as (Hcf & Hk). destruct (Hk key) as (T & HT & old & Hacc & _ & Hlen & _).
  assert (in_s 64 (interval n)) as Hr by apply millis_range.
  destruct (throttle_one_sleep (MaxPerInterval (cfg n)) (interval n) Hp Hi Hr
    (default [] (windowByKey (rnode (run n xs)) !! key)) now now' ok Hlen) as (t & w & Et).
  - intros t Ht. apply Hw. by rewrite pruneWindow_cutoff.
  - unfold Process. rewrite decide_False by (rewrite Hcf, Hc, Hm; done). unfold applyThrottle.
    rewrite Hkey, Hcf. fold (interval n). rewrite Et. cbn. eauto.
Qed.

End node.

(** ** Witnesses *)

Module examples.
(** One release per millisecond, keyed by nothing. *)
Definition tcfg : Config := MkConfig "throttle" 0 "" 1 1 "" 0.
Definition compile (s : string) : res string unit := Err "".
Definition eval (_ : unit) (_ : dgram) (_ : Z) : res string any := Err "".
Definition throttled : node (prog := unit) := MkNode tcfg None None 0 ∅.
Definition dg : dgram := datagram.New "d" 0 (MkSource "n" "" "" "" "") (MkPayload ANil None).
(** The second datagram has to wait for the clock to pass one millisecond. *)
Definition xs : list (list tick * dgram) := [([(0, true)], dg); ([(10, true); (1000001, true)], dg)].

Lemma throttle_rate_witness :
  times "_" (released (run eval (fun _ => "") throttled xs)) = [0; 1000001] /\ 1000000 < 1000001 - 0.
Proof.
  split; [vm_compute; reflexivity|].
  apply (throttle_rate compile eval (fun _ => "") tcfg throttled xs "_" 0 0 1000001);
    [reflexivity|reflexivity|vm_compute; reflexivity| |vm_compute; reflexivity|vm_compute; reflexivity].
  vm_compute. repeat constructor; discriminate.
Defined.

Lemma throttle_releases_witness :
  exists n' d, Process eval (fun _ => "") (rnode (run eval (fun _ => "") throttled (take 1 xs))) [(10, true); (1000001, true)] dg
    = Some (n', Ok [MkPortDatagram "out" d]) /\ d = dg.
Proof.
  apply (throttle_releases compile eval (fun _ => "") tcfg throttled (take 1 xs) dg "_" 10 1000001 true);
    [reflexivity|reflexivity|vm_compute; reflexivity| |vm_compute; reflexivity|].
  - vm_compute. repeat constructor.
  - intros t Ht. vm_compute in Ht. injection Ht as <-. vm_compute. reflexivity.
Defined.
End examples.
End delay.
