(* ===== verification/Switch.v ===== *)
(** * The switch node ([engine/nodes/switchroute])

    Rule-based routing: the first or all of the matching rules, or the default port.
    Expressions are parameters. *)

From stdpp Require Import pretty.
From S2P Require Import Prelude GoStd Datagram Execution Value.
Import gostd datagram execution value.
Local Open Scope Z_scope.

Module switchroute.

(** [fmt.Sprintf("out%d", i)] *)
Definition outN (i : nat) : string := "out" +:+ pretty i.

Section node.
(** [expr.Compile], and running a compiled expression on a datagram with a timeout. *)
Context {prog : Type} (compile : string -> res string prog).
Context (eval : prog -> dgram -> Z -> res string any).

Record Rule := MkRule { Expression : string }.
Record Config := MkConfig { Rules : list Rule; Mode : string; TimeoutMs : Z }.
Record compiledRule := MkCompiledRule { port : string; rprog : prog }.
Record node := MkNode { rules : list compiledRule; allMatches : bool; timeout : Z; outputs : list string }.

Fixpoint compileRules (i : nat) (l : list Rule) : res string (list compiledRule) :=
  match l with
  | [] => Ok []
  | r :: l' => p ← compile (Expression r); rs ← compileRules (S i) l'; Ok (MkCompiledRule (outN i) p :: rs)
  end.
Definition New (c : Config) : res string node :=
  _ ← guard_err (bool_decide (Rules c <> [])) "rules is required";
  let mode := if decide (Mode c = "") then "firstMatch" else Mode c in
  _ ← guard_err (bool_decide (mode = "firstMatch") || bool_decide (mode = "allMatches")) "unknown mode";
  rs ← compileRules 0 (Rules c);
  Ok (MkNode rs (bool_decide (mode = "allMatches")) (millis (TimeoutMs c)) (map port rs ++ ["default"])).

Definition OutputPorts (n : node) : list string := outputs n.

(** The loop over the rules. *)
Fixpoint matches (all : bool) (timeout : Z) (inp : dgram) (l : list compiledRule) (results : list portDgm)
  : nodeResult :=
  match l with
  | [] => Ok results
  | r :: l' =>
      v ← eval (rprog r) inp timeout;
      if truth v then
        let results := results ++ [MkPortDatagram (port r) inp] in
        if all then matches all timeout inp l' results else Ok results
      else matches all timeout inp l' results
  end.
Definition Process (n : node) (inp : dgram) : nodeResult :=
  results ← matches (allMatches n) (timeout n) inp (rules n) [];
  Ok (match results with [] => [MkPortDatagram "default" inp] | _ => results end).

(** ** What is routed where *)

(** Whether a rule holds on a datagram. *)
Definition holds (timeout : Z) (inp : dgram) (r : compiledRule) : Prop :=
  exists v, eval (rprog r) inp timeout = Ok v /\ truth v = true.
Definition fails (timeout : Z) (inp : dgram) (r : compiledRule) : Prop :=
  exists v, eval (rprog r) inp timeout = Ok v /\ truth v = false.
(** [hits] are the ports of the rules that hold. *)
Inductive routed (timeout : Z) (inp : dgram) : list compiledRule -> list string -> Prop :=
| routed_nil : routed timeout inp [] []
| routed_hit r l ps : holds timeout inp r -> routed timeout inp l ps -> routed timeout inp (r :: l) (port r :: ps)
| routed_miss r l ps : fails timeout inp r -> routed timeout inp l ps -> routed timeout inp (r :: l) ps.

Lemma matches_app all t inp l : forall acc, matches all t inp l acc =
  (rs ← matches all t inp l []; Ok (acc ++ rs)).
Proof.
  induction l as [|r l IH]; intros acc; cbn; [by rewrite app_nil_r|].
  destruct (eval (rprog r) inp t) as [v| |]; cbn; [|done..]. destruct (truth v); [|apply IH].
  destruct all; [|done]. rewrite IH, (IH [_]). destruct (matches true t inp l []); cbn; [|done..]. by rewrite <- app_assoc.
Qed.

Lemma compileRules_ports l : forall i rs, compileRules i l = Ok rs -> map port rs = map outN (seq i (length l)).
Proof.
  induction l as [|r l IH]; intros i rs H; cbn in H; [by injection H as <-|].
  apply res_bind_Ok in H as (p & _ & H). apply res_bind_Ok in H as (rs' & H & [= <-]). cbn. f_equal. by apply IH.
Qed.

Lemma matches_all t inp l ps : routed t inp l ps -> matches true t inp l [] = Ok (map (fun p => MkPortDatagram p inp) ps).
Proof.
  induction 1 as [|r l ps (v & Hv & Ht) H IH|r l ps (v & Hv & Ht) H IH]; cbn; [done|rewrite Hv; cbn; rewrite Ht..].
  - rewrite matches_app, IH. done.
  - done.
Qed.
Lemma matches_first t inp l ps : routed t inp l ps ->
  matches false t inp l [] = Ok (map (fun p => MkPortDatagram p inp) (take 1 ps)).
Proof.
  induction 1 as [|r l ps (v & Hv & Ht) H IH|r l ps (v & Hv & Ht) H IH]; cbn; [done|rewrite Hv; cbn; by rewrite Ht..].
Qed.

(** The switch routes by its rules.  For a node that [New] built and a datagram on which
    every rule evaluates, [Process] sends the unchanged datagram to the ports of the rules that
    hold, in the order of the rules, and to no other: to all of them in mode "allMatches", to
    the first one in mode "firstMatch", and to "default" exactly when no rule holds.  Every
    port it uses is one that [OutputPorts] announces. *)
Theorem switch_routes c n inp ps : New c = Ok n -> routed (timeout n) inp (rules n) ps ->
  let hit := if decide (Mode c = "allMatches") then ps else take 1 ps in
  let used := match hit with [] => ["default"] | _ => hit end in
  Process n inp = Ok (map (fun p => MkPortDatagram p inp) used) /\ (forall p, p ∈ used -> p ∈ OutputPorts n) /\
  OutputPorts n = map outN (seq 0 (length (Rules c))) ++ ["default"].
Proof.
  intros Hn Hr hit used. unfold New in Hn. bind_ok Hn. injection Hn as <-. cbn in Hr |- *.
  assert (forall p, p ∈ ps -> p ∈ map port a1) as Hsub.
  { clear -Hr. induction Hr; intros p Hp; [by apply not_elem_of_nil in Hp| |].
    - apply elem_of_cons in Hp as [-> |Hp]; cbn; apply elem_of_cons; auto.
    - cbn. apply elem_of_cons. auto. }
  assert (forall p, p ∈ hit -> p ∈ ps) as Hsub'.
  { intros p. unfold hit. destruct (decide (Mode c = "allMatches")); [done|]. intros Hp. by eapply sublist_subseteq; [apply sublist_take|]. }
  split_and!.
  - unfold Process. cbn.
    assert (matches (bool_decide ((if decide (Mode c = "") then "firstMatch" else Mode c) = "allMatches"))
      (millis (TimeoutMs c)) inp a1 [] = Ok (map (fun p => MkPortDatagram p inp) hit)) as ->.
    { unfold hit. destruct (decide (Mode c = "allMatches")) as [Em|Em].
      - rewrite decide_False, bool_decide_true by (rewrite Em; done). by apply matches_all.
      - rewrite bool_decide_false by (destruct (decide (Mode c = "")); done). by apply matches_first. }
    cbn. unfold used. by destruct hit.
  - intros p Hp. apply elem_of_app. unfold used in Hp. destruct hit as [|h hit']; [right|left]; [done|]. auto.
  - f_equal. by apply compileRules_ports.
Qed.

End node.

(** Two rules, tested by constant expressions. *)
Definition example_dgm : dgram := datagram.New "d" 0 (MkSource "n" "" "" "" "") (MkPayload ANil None).
Definition example_compile (s : string) : res string bool := Ok (bool_decide (s = "true")).
Definition example_eval (b : bool) (_ : dgram) (_ : Z) : res string any := Ok (ABool b).
Definition example_cfg (s1 s2 : string) : Config := MkConfig [MkRule s1; MkRule s2] "" 0.
Lemma switch_routes_witness :
  Process example_eval (MkNode [MkCompiledRule "out0" false; MkCompiledRule "out1" true] false 0 ["out0"; "out1"; "default"]) example_dgm
  = Ok [MkPortDatagram "out1" example_dgm].
Proof.
  apply (switch_routes example_compile example_eval (example_cfg "false" "true") _ _ ["out1"]); [reflexivity|].
  apply routed_miss; [by exists (ABool false)|]. apply (routed_hit _ _ _ (MkCompiledRule "out1" true)); [by exists (ABool true)|].
  constructor.
Defined.
End switchroute.
