(* ===== verification/Filter.v ===== *)
(** * The filter node ([engine/nodes/filter])

    Pass or drop by a predicate, or report by exception with a deadband and a heartbeat.
    Expressions are parameters; the clock is an argument. *)

From Stdlib Require Import SpecFloat.
From S2P Require Import Prelude GoStd Float Datagram Execution Value.
Import gostd float datagram execution value.
Local Open Scope Z_scope.

Module filter.

Record Config := MkConfig {
  Mode : string; Predicate : string; Field : string; Deadband : float64; MinIntervalMs : Z; GroupBy : string; TimeoutMs : Z
}.
Record deadbandState := MkDeadbandState { hasValue : bool; lastv : float64; lastTime : Z }.
Definition noState : deadbandState := MkDeadbandState false fzero 0.

Definition abs (f : float64) : float64 := if flt f fzero then SFopp f else f.

(** The deadband test of one group: whether the sample passes, and the state after it. *)
Definition deadband (c : Config) (st : deadbandState) (now : Z) (f : float64) : bool * deadbandState :=
  let changed := negb (hasValue st) || fle (Deadband c) (abs (fsub f (lastv st))) in
  let heartbeat := (0 <? MinIntervalMs c) && hasValue st && (millis (MinIntervalMs c) <=? timeSub now (lastTime st)) in
  if changed || heartbeat then (true, MkDeadbandState true f now) else (false, st).

Section node.
(** [expr.Compile], running a compiled expression on a datagram with a timeout, [fmt.Sprint],
    and whether a string is blank. *)
Context {prog : Type} (compile : string -> res string prog).
Context (eval : prog -> dgram -> Z -> res string any) (sprint : any -> string) (blank : string -> bool).

Record node := MkNode {
  cfg : Config; predicate : option prog; groupProg : option prog; timeout : Z; deadbandByID : gmap string deadbandState
}.

Definition checkMode (c : Config) : res string (option prog) :=
  if decide (Mode c = "predicate") then
    _ ← guard_err (bool_decide (Predicate c <> "")) "predicate is required";
    Some <$> compile (Predicate c)
  else if decide (Mode c = "deadband") then
    _ ← guard_err (bool_decide (Field c <> "")) "field is required";
    _ ← guard_err (negb (flt (Deadband c) fzero)) "deadband must be >= 0";
    Ok None
  else Err "unknown mode".
Definition New (c : Config) : res string node :=
  p ← checkMode c;
  g ← (if blank (GroupBy c) then Ok None else Some <$> compile (GroupBy c));
  Ok (MkNode c p g (millis (TimeoutMs c)) ∅).

Definition evalPredicate (n : node) (inp : dgram) : res string bool :=
  match predicate n with
  | None => Panic
  | Some p => truth <$> eval p inp (timeout n)
  end.
Definition deadbandKey (n : node) (inp : dgram) : res string string :=
  match groupProg n with
  | None => Ok "_"
  | Some p => sprint <$> eval p inp (timeout n)
  end.
Definition evalDeadband (n : node) (now : Z) (inp : dgram) : node * res string bool :=
  match toFloat (fieldValue (Value (payload inp)) (Field (cfg n))) with
  | None => (n, Err "field is not numeric")
  | Some f =>
      match deadbandKey n inp with
      | Ok key =>
          let '(pass, st) := deadband (cfg n) (default noState (deadbandByID n !! key)) now f in
          (MkNode (cfg n) (predicate n) (groupProg n) (timeout n) (<[key := st]> (deadbandByID n)), Ok pass)
      | Err e => (n, Err e)
      | Panic => (n, Panic)
      end
  end.
Definition Process (n : node) (now : Z) (inp : dgram) : node * nodeResult :=
  let '(n', r) :=
    if decide (Mode (cfg n) = "predicate") then (n, evalPredicate n inp)
    else if decide (Mode (cfg n) = "deadband") then evalDeadband n now inp
    else (n, Ok false) in
  (n', pass ← r; Ok [MkPortDatagram (if (pass : bool) then "pass" else "drop") inp]).

(** ** Report by exception, group by group *)

Definition group_run (c : Config) (l : list (Z * float64)) : deadbandState * list bool :=
  fold_left (fun acc x => let '(b, st) := deadband c acc.1 x.1 x.2 in (st, acc.2 ++ [b])) l (noState, []).

(** The last sample that passed. *)
Definition reported (l : list (Z * float64)) (bs : list bool) : option (Z * float64) :=
  last (omap (fun p => if (p.2 : bool) then Some p.1 else None) (zip l bs)).

Lemma deadband_run_snoc c l x : group_run c (l ++ [x]) =
  let '(st, bs) := group_run c l in let '(b, st') := deadband c st x.1 x.2 in (st', bs ++ [b]).
Proof. unfold group_run. rewrite fold_left_app. cbn. by destruct (fold_left _ l _) as [st bs]. Qed.

Lemma group_run_state c l : let '(st, bs) := group_run c l in
  length bs = length l /\
  match reported l bs with
  | Some (t, f) => st = MkDeadbandState true f t
  | None => st = noState /\ l = []
  end.
Proof.
  induction l as [|[now f] l IH] using rev_ind; [done|].
  rewrite deadband_run_snoc. destruct (group_run c l) as [st bs]. destruct IH as [Hlen IH].
  cbn [fst snd]. unfold reported in *. destruct (deadband c st now f) as [b st'] eqn:Ed.
  split; [rewrite !length_app; cbn; lia|]. rewrite zip_with_app, omap_app by done. cbn.
  unfold deadband in Ed. destruct (negb _ || _ || _) eqn:Ep in Ed; injection Ed as <- <-.
  - by rewrite last_snoc.
  - rewrite app_nil_r. destruct (last _) as [[t g]|]; [done|]. destruct IH as [-> _]. done.
Qed.

(** A run: the samples of each key and whether each passed. *)
Record Run := MkRun { fnode : node; seen : list (string * (Z * float64)); passes : list (string * bool) }.
Definition step (r : Run) (x : Z * dgram) : Run :=
  let '(now, inp) := x in
  let '(n', res) := Process (fnode r) now inp in
  match toFloat (fieldValue (Value (payload inp)) (Field (cfg (fnode r)))), deadbandKey (fnode r) inp, res with
  | Some f, Ok key, Ok [d] =>
      MkRun n' (seen r ++ [(key, (now, f))]) (passes r ++ [(key, bool_decide (Port d = "pass"))])
  | _, _, _ => MkRun n' (seen r) (passes r)
  end.
Definition run (n : node) (xs : list (Z * dgram)) : Run := fold_left step xs (MkRun n [] []).
Definition of_key {A} (key : string) (l : list (string * A)) : list A :=
  omap (fun x => if decide (x.1 = key) then Some x.2 else None) l.

Lemma of_key_snoc {A} key (l : list (string * A)) k x :
  of_key key (l ++ [(k, x)]) = of_key key l ++ (if decide (k = key) then [x] else []).
Proof. unfold of_key. rewrite omap_app. cbn. by case_decide. Qed.

Definition run_inv (n0 : node) (r : Run) : Prop :=
  cfg (fnode r) = cfg n0 /\
  forall key, (default noState (deadbandByID (fnode r) !! key), of_key key (passes r))
    = group_run (cfg n0) (of_key key (seen r)).
Lemma deadband_step_inv n0 r x : Mode (cfg n0) = "deadband" -> run_inv n0 r -> run_inv n0 (step r x).
Proof.
  intros Hm (Hc & Hk). destruct x as [now inp]. unfold step, Process.
  rewrite decide_False, decide_True by (rewrite Hc, Hm; done). unfold evalDeadband.
  destruct (toFloat _) as [f|]; [|by split]. destruct (deadbandKey (fnode r) inp) as [key| |]; [|by split..].
  destruct (deadband _ _ now f) as [b st] eqn:Ed. cbn [mbind res_bind]. split; [done|].
  intros k. cbn [fnode seen passes deadbandByID Port]. rewrite !of_key_snoc.
  specialize (Hk k). destruct (decide (key = k)) as [-> |Hne].
  - rewrite lookup_insert_eq, deadband_run_snoc, <- Hk. cbn. rewrite Hc in Ed. rewrite Ed. by destruct b.
  - by rewrite lookup_insert_ne, !app_nil_r by done.
Qed.
Lemma deadband_run_groups n xs : Mode (cfg n) = "deadband" -> deadbandByID n = ∅ -> run_inv n (run n xs).
Proof.
  intros Hm He. assert (run_inv n (MkRun n [] [])) as H.
  { split; [done|]. intros k. cbn. by rewrite He, lookup_empty. }
  unfold run. revert H. generalize (MkRun n [] []). induction xs as [|x xs IH]; intros r H; [done|].
  cbn. apply IH. by apply deadband_step_inv.
Qed.
Lemma New_cfg c n : New c = Ok n -> cfg n = c /\ deadbandByID n = ∅.
Proof. unfold New. intros H. bind_ok H. by injection H as <-. Qed.

(** Report by exception.  In every run of a node that [New] built in mode "deadband", a
    numeric sample passes exactly when it is the first of its group, or differs from the last
    sample of its group that passed by at least the deadband, or [minIntervalMs] is set and
    has elapsed since that one; otherwise it is dropped.  Samples that were dropped, and other
    groups, do not move the reference. *)
Theorem deadband_reports c n xs now inp key f : New c = Ok n -> Mode c = "deadband" ->
  let r := run n xs in
  toFloat (fieldValue (Value (payload inp)) (Field c)) = Some f -> deadbandKey (fnode r) inp = Ok key ->
  let pass := match reported (of_key key (seen r)) (of_key key (passes r)) with
              | None => true
              | Some (t0, f0) => fle (Deadband c) (abs (fsub f f0)) ||
                  ((0 <? MinIntervalMs c) && (millis (MinIntervalMs c) <=? timeSub now t0))
              end in
  exists n', Process (fnode r) now inp = (n', Ok [MkPortDatagram (if pass then "pass" else "drop") inp]).
Proof.
  intros Hn Hm r Hf Hk pass. destruct (New_cfg c n Hn) as [Hc He].
  assert (Mode (cfg n) = "deadband") as Hm' by (by rewrite Hc).
  destruct (deadband_run_groups n xs Hm' He) as (Hc' & Hg). fold r in Hc', Hg. specialize (Hg key).
  pose proof (group_run_state (cfg n) (of_key key (seen r))) as Hst. rewrite <- Hg in Hst. destruct Hst as [_ Hst].
  unfold Process. rewrite decide_False, decide_True by (rewrite Hc', Hc, Hm; done). unfold evalDeadband.
  rewrite Hc', Hc, Hf, Hk.
  assert ((deadband c (default noState (deadbandByID (fnode r) !! key)) now f).1 = pass) as Hp.
  { unfold deadband, pass. destruct (reported _ _) as [[t0 f0]|]; [rewrite Hst|destruct Hst as [-> _]; done].
    cbn [hasValue lastv lastTime negb orb andb]. rewrite andb_true_r. by destruct (_ || _). }
  destruct (deadband c _ now f) as [b st]. cbn in Hp. rewrite Hp. eexists. cbn. done.
Qed.

(** A NaN sample silences a group.  Once the sample a group last reported is NaN, and
    without a heartbeat ([minIntervalMs] not set), every later numeric sample of that group is
    dropped, whatever its value, and the group's state never changes again. *)
Theorem deadband_stuck_on_nan n now inp key f t0 : Mode (cfg n) = "deadband" -> MinIntervalMs (cfg n) <= 0 ->
  deadbandByID n !! key = Some (MkDeadbandState true S754_nan t0) ->
  toFloat (fieldValue (Value (payload inp)) (Field (cfg n))) = Some f -> deadbandKey n inp = Ok key ->
  exists n', Process n now inp = (n', Ok [MkPortDatagram "drop" inp]) /\
    deadbandByID n' !! key = Some (MkDeadbandState true S754_nan t0) /\ cfg n' = cfg n.
Proof.
  intros Hm Hi Hst Hf Hk. unfold Process. rewrite decide_False, decide_True by (rewrite Hm; done).
  unfold evalDeadband. rewrite Hf, Hk, Hst.
  assert (deadband (cfg n) (MkDeadbandState true S754_nan t0) now f = (false, MkDeadbandState true S754_nan t0)) as E.
  { unfold deadband. cbn [hasValue lastv lastTime negb orb].
    assert (abs (fsub f S754_nan) = S754_nan) as -> by (by destruct f as [| | |]).
    assert (fle (Deadband (cfg n)) S754_nan = false) as -> by (by destruct (Deadband (cfg n)) as [[]|[]| |[]]).
    destruct (Z.ltb_spec 0 (MinIntervalMs (cfg n))); [lia|done]. }
  cbn [default from_option id]. rewrite E. eexists. split; [reflexivity|]. cbn. by rewrite lookup_insert_eq.
Qed.

End node.

Module examples.
Definition compile (s : string) : res string unit := Err "".
Definition eval (_ : unit) (_ : dgram) (_ : Z) : res string any := Err "".
Definition isBlank (s : string) : bool := bool_decide (s = "").
(** Report a change of at least 5 in field "v". *)
Definition dcfg : Config := MkConfig "deadband" "" "v" (of_Z 5) 0 "" 0.
Definition fresh : node (prog := unit) := MkNode dcfg None None 0 ∅.
Definition stuck : node (prog := unit) := MkNode dcfg None None 0 {["_" := MkDeadbandState true S754_nan 0]}.
Definition sample (f : float64) : dgram :=
  datagram.New "d" 0 (MkSource "n" "" "" "" "") (MkPayload (AMap [("v", AFloat f)]) None).
Lemma deadband_reports_witness : exists n',
  Process eval (fun _ => "") (fnode (run eval (fun _ => "") fresh [(0, sample (of_Z 10)); (1, sample (of_Z 14))])) 2 (sample (of_Z 15))
  = (n', Ok [MkPortDatagram "pass" (sample (of_Z 15))]).
Proof.
  exact (deadband_reports compile eval (fun _ => "") isBlank dcfg fresh [(0, sample (of_Z 10)); (1, sample (of_Z 14))]
    2 (sample (of_Z 15)) "_" (of_Z 15) ltac:(vm_compute; reflexivity) eq_refl ltac:(vm_compute; reflexivity)
    ltac:(vm_compute; reflexivity)).
Defined.
Lemma deadband_stuck_on_nan_witness : exists n',
  Process eval (fun _ => "") stuck 9 (sample (of_Z 1000))
  = (n', Ok [MkPortDatagram "drop" (sample (of_Z 1000))]) /\
  deadbandByID n' !! "_" = Some (MkDeadbandState true S754_nan 0) /\ cfg n' = dcfg.
Proof.
  exact (deadband_stuck_on_nan eval (fun _ => "") stuck 9
    (sample (of_Z 1000)) "_" (of_Z 1000) 0 eq_refl ltac:(cbn; lia) ltac:(vm_compute; reflexivity) ltac:(vm_compute; reflexivity) eq_refl).
Defined.
End examples.
End filter.
