(* ===== verification/Debug.v ===== *)
(** * Live debugging and processing-time metrics ([engine/flow/debug.go], [debugctx.go],
    [histogram.go], [engine/internal/backoff])

    The ring buffer that holds a node's recent datagrams, the token bucket in front of the
    live sink, the capture path, the processing-time histogram and the reconnect backoff.
    Each operation runs under the component's mutex, or is one atomic addition, so a
    sequence of operations is a run. *)

From Stdlib Require Import SpecFloat.
From S2P Require Import Prelude GoStd Float Datagram Execution Value Runner.
Import gostd float datagram execution value runner.
Local Open Scope Z_scope.

Module debug.

Definition DefaultRingBufferSize : Z := 50.
Definition DefaultDebugRateLimit : Z := 20.

(** ** Events *)

Record DebugEvent := MkDebugEvent {
  evID : string; evFlowID : string; evNodeID : string; evPort : string; evDirection : DebugDirection; evLabel : string;
  evTime : Z; evDatagramID : string; evCorrelationID : string; evCausationID : string; evQuality : string; evValue : any
}.
Definition zeroEvent : DebugEvent := MkDebugEvent "" "" "" "" DirIn "" 0 "" "" "" "" ANil.

Definition debugValue (p : Payload any) : any :=
  if IsBinary p then AMap [("binary", ABool true); ("bytes", AInt (Size p))] else Value p.
Definition newDebugEvent (id : string) (now : Z) (flowID nodeID port : string) (dir : DebugDirection) (label : string) (d : dgram)
  : DebugEvent :=
  MkDebugEvent id flowID nodeID port dir label now (ID (header d)) (CorrelationID (header d)) (CausationID (header d))
    (quality (header d)) (debugValue (payload d)).

(** ** The ring buffer *)

Record ringBuffer := MkRingBuffer { events : list DebugEvent; cap : Z; next : Z; filled : bool }.
Definition newRingBuffer (capacity : Z) : ringBuffer :=
  let capacity := if capacity <=? 0 then DefaultRingBufferSize else capacity in
  MkRingBuffer (replicate (Z.to_nat capacity) zeroEvent) capacity 0 false.
Definition push (b : ringBuffer) (e : DebugEvent) : ringBuffer :=
  let n := (next b + 1) mod cap b in
  MkRingBuffer (<[Z.to_nat (next b) := e]> (events b)) (cap b) n (if n =? 0 then true else filled b).
Definition snapshot (b : ringBuffer) : list DebugEvent :=
  if filled b then drop (Z.to_nat (next b)) (events b) ++ take (Z.to_nat (next b)) (events b)
  else take (Z.to_nat (next b)) (events b).

(** ** The token bucket *)

Record rateLimiter := MkRateLimiter { perSec : Z; tokens : float64; lastFill : Z }.
Definition newRateLimiter (n now : Z) : rateLimiter :=
  let n := if n <=? 0 then DefaultDebugRateLimit else n in MkRateLimiter n (of_Z n) now.
(** [Duration.Seconds] *)
Definition Seconds (d : Z) : float64 :=
  fadd (of_Z (Z.quot d 1000000000)) (fdiv (of_Z (Z.rem d 1000000000)) (of_Z 1000000000)).
Definition allow (r : rateLimiter) (now : Z) : rateLimiter * bool :=
  let elapsed := Seconds (timeSub now (lastFill r)) in
  let t := fadd (tokens r) (fmul elapsed (of_Z (perSec r))) in
  let t := if flt (of_Z (perSec r)) t then of_Z (perSec r) else t in
  if flt t (of_Z 1) then (MkRateLimiter (perSec r) t now, false)
  else (MkRateLimiter (perSec r) (fsub t (of_Z 1)) now, true).

(** ** Capture *)

(** A node's buffer and limiter, and what reached the sink. *)
Record capture := MkCapture { ring : ringBuffer; limiter : rateLimiter; sunk : list DebugEvent }.
Definition forward (c : capture) (now : Z) (e : DebugEvent) : capture :=
  let '(l, ok) := allow (limiter c) now in
  MkCapture (push (ring c) e) l (if ok then sunk c ++ [e] else sunk c).
Definition captureDebug (c : option capture) (id : string) (now : Z) (flowID nodeID : string) (dir : DebugDirection)
    (port label : string) (d : dgram) : option capture :=
  match c with
  | None => None
  | Some c => Some (forward c now (newDebugEvent id now flowID nodeID port dir label d))
  end.
Definition SidebarEvent (c : option capture) (id : string) (now : Z) (flowID nodeID label : string) (src : dgram) (v : any)
  : option capture :=
  match c with
  | None => None
  | Some c =>
      Some (forward c now (MkDebugEvent id flowID nodeID "" DirSidebar label now (ID (header src))
        (CorrelationID (header src)) (CausationID (header src)) (quality (header src)) v))
  end.

(** [NodeDebugSnapshot], [FlowDebugSnapshot] on the buffers of a deployment. *)
Definition NodeDebugSnapshot (buffers : gmap string ringBuffer) (nodeID : string) : list DebugEvent :=
  match buffers !! nodeID with Some rb => snapshot rb | None => [] end.
Definition FlowDebugSnapshot (current : string) (buffers : gmap string ringBuffer) (flowID : string) : list DebugEvent :=
  if decide (current = flowID) then concat (map (fun kv => snapshot kv.2) (map_to_list buffers)) else [].

(** ** The buffer holds the last events *)

Definition lastn {A} (n : nat) (l : list A) : list A := drop (length l - n) l.
Lemma lastn_all {A} n (l : list A) : (length l <= n)%nat -> lastn n l = l.
Proof. intros H. unfold lastn. by replace (length l - n)%nat with 0%nat by lia. Qed.
Lemma lastn_snoc {A} n (l : list A) x : (0 < n)%nat -> (n <= length l)%nat ->
  lastn n (l ++ [x]) = drop 1 (lastn n l) ++ [x].
Proof.
  intros Hn Hl. unfold lastn. rewrite drop_drop, length_app. cbn [length].
  rewrite drop_app_le by lia. do 2 f_equal. lia.
Qed.

(** The state of the buffer after the events [l]. *)
Definition ring_inv (b : ringBuffer) (l : list DebugEvent) : Prop :=
  0 < cap b /\ zlen (events b) = cap b /\ 0 <= next b < cap b /\
  (filled b = false -> next b = zlen l /\ take (length l) (events b) = l) /\
  (filled b = true -> cap b <= zlen l /\ snapshot b = lastn (Z.to_nat (cap b)) l).

Lemma newRingBuffer_inv capacity : ring_inv (newRingBuffer capacity) [].
Proof.
  unfold newRingBuffer, ring_inv. cbn. set (c := if capacity <=? 0 then DefaultRingBufferSize else capacity).
  assert (0 < c) by (unfold c, DefaultRingBufferSize; destruct (Z.leb_spec capacity 0); lia).
  split_and!; try done; try lia. unfold zlen. rewrite length_replicate. lia.
Qed.

(** The buffer, split at the slot that is written next. *)
Lemma ring_split b l : ring_inv b l -> exists xs x ys, events b = xs ++ x :: ys /\ Z.to_nat (next b) = length xs /\
  cap b = zlen xs + 1 + zlen ys.
Proof.
  intros (H0 & Hl & Hn & _). exists (take (Z.to_nat (next b)) (events b)).
  destruct (lookup_lt_is_Some_2 (events b) (Z.to_nat (next b))) as [x Hx]; [unfold zlen in Hl; lia|].
  exists x, (drop (S (Z.to_nat (next b))) (events b)). split_and!.
  - symmetry. by apply take_drop_middle.
  - rewrite length_take. unfold zlen in Hl. lia.
  - unfold zlen in *. rewrite length_take, length_drop. lia.
Qed.

Lemma push_inv b l e : ring_inv b l -> ring_inv (push b e) (l ++ [e]).
Proof.
  intros H. destruct (ring_split b l H) as (xs & x & ys & He & Hx & Hc).
  destruct H as (H0 & Hl & Hn & Hnf & Hf).
  assert (events (push b e) = xs ++ e :: ys) as He'.
  { unfold push. cbn. rewrite He, Hx. by rewrite insert_app_r_alt, Nat.sub_diag by lia. }
  assert (next b = zlen xs) as Hnx by (unfold zlen; lia).
  assert (next (push b e) = if decide (ys = []) then 0 else zlen xs + 1) as Hn'.
  { unfold push. cbn. rewrite Hnx, Hc. case_decide as Hy; [subst ys|].
    - change (zlen []) with 0. rewrite Z.add_0_r. apply Z_mod_same_full.
    - pose proof (zlen_nonneg xs). destruct ys as [|y ys]; [done|]. rewrite zlen_cons. pose proof (zlen_nonneg ys).
      apply Z.mod_small. lia. }
  assert (filled (push b e) = if decide (ys = []) then true else filled b) as Hfl.
  { change (filled (push b e)) with (if next (push b e) =? 0 then true else filled b). rewrite Hn'.
    pose proof (zlen_nonneg xs). case_decide; [done|]. destruct (Z.eqb_spec (zlen xs + 1) 0); [lia|done]. }
  assert (cap (push b e) = cap b) as Hcap by done.
  assert (filled b = false -> xs = l) as Hxl.
  { intros E. destruct (Hnf E) as [E1 E2]. rewrite He in E2. rewrite take_app_length' in E2; [done|].
    unfold zlen in *. lia. }
  unfold ring_inv. rewrite He', Hn', Hfl, Hcap. split_and!.
  - done.
  - rewrite zlen_app, zlen_cons. lia.
  - pose proof (zlen_nonneg xs). case_decide; [lia|]. lia || (destruct ys; [done|rewrite zlen_cons in Hc; pose proof (zlen_nonneg ys); lia]).
  - pose proof (zlen_nonneg ys). case_decide as Hy; [lia|]. destruct ys as [|y ys]; [done|]. rewrite zlen_cons in *.
    pose proof (zlen_nonneg ys). lia.
  - case_decide as Hy; [done|]. intros E. rewrite (Hxl E) in *. split; [by rewrite zlen_app|].
    rewrite (cons_middle e l ys), app_assoc. by rewrite take_app_length'.
  - intros E. unfold snapshot. rewrite Hfl, E, He', Hn'.
    assert (forall z, filled b = true -> snapshot b = z -> x :: ys ++ xs = z) as Hs.
    { intros z Eb <-. unfold snapshot. rewrite Eb, He, Hx, drop_app_length, take_app_length. done. }
    assert (Z.to_nat (cap b) = (length xs + 1 + length ys)%nat) as Hcn by (rewrite Hc; unfold zlen; lia).
    destruct (filled b) eqn:Eb.
    + destruct (Hf eq_refl) as [Hle Hsn]. specialize (Hs _ eq_refl Hsn). split; [rewrite zlen_app; pose proof (zlen_nonneg [e]); lia|].
      rewrite lastn_snoc by (unfold zlen in *; lia). rewrite <- Hs. cbn [drop].
      case_decide as Hy; [subst ys; by rewrite drop_0, take_0, app_nil_r|].
      replace (Z.to_nat (zlen xs + 1)) with (length (xs ++ [e])) by (rewrite length_app; unfold zlen; cbn; lia).
      rewrite (cons_middle e xs ys), (app_assoc xs), drop_app_length, take_app_length. by rewrite app_assoc.
    + case_decide as Hy; [|done]. subst ys. rewrite (Hxl eq_refl) in *. cbn [length] in Hcn.
      split; [rewrite zlen_app; change (zlen []) with 0 in Hc; change (zlen [e]) with 1; lia|].
      rewrite lastn_all by (rewrite length_app; cbn; lia). by rewrite drop_0, take_0, app_nil_r.
Qed.

Lemma pushes_inv l : forall b k, ring_inv b k -> ring_inv (fold_left push l b) (k ++ l).
Proof.
  induction l as [|e l IH]; intros b k H; [by rewrite app_nil_r|]. cbn. rewrite (cons_middle e k l), app_assoc. apply IH. by apply push_inv.
Qed.
Lemma pushes_cap l : forall b, cap (fold_left push l b) = cap b.
Proof. induction l as [|e l IH]; intros b; [done|]. cbn. by rewrite IH. Qed.

(** The ring buffer refines "the last events".  After any sequence of pushes into a new
    buffer, the circular array read from the write position on is exactly the list of the last
    [capacity] events pushed, oldest first, and all of them while there are fewer (a capacity
    that is not positive is 50); no write is out of range. *)
Theorem ring_snapshot capacity l :
  let b := fold_left push l (newRingBuffer capacity) in
  snapshot b = lastn (Z.to_nat (if capacity <=? 0 then 50 else capacity)) l /\ 0 <= next b < zlen (events b).
Proof.
  cbv zeta. pose proof (pushes_inv l _ _ (newRingBuffer_inv capacity)) as H. cbn in H.
  pose proof (pushes_cap l (newRingBuffer capacity)) as Hcap. set (b := fold_left _ _ _) in *.
  destruct (ring_split b l H) as (xs & x & ys & He & Hx & Hc).
  destruct H as (H0 & Hl & Hn & Hnf & Hf). split; [|lia]. cbn in Hcap.
  change (if capacity <=? 0 then 50 else capacity) with (if capacity <=? 0 then DefaultRingBufferSize else capacity).
  rewrite <- Hcap. destruct (filled b) eqn:E; [by apply Hf|]. destruct (Hnf eq_refl) as [E1 E2].
  rewrite lastn_all by (unfold zlen in *; lia). unfold snapshot. rewrite E, E1. unfold zlen. by rewrite Nat2Z.id.
Qed.

(** ** The histogram *)

Definition procHistogramBucketsMs : list float64 := map of_Z [1; 5; 10; 50; 100; 500; 1000; 5000].
Record procHistogram := MkProcHistogram { buckets : list Z; sumUs : Z; count : Z }.
Definition newProcHistogram : procHistogram := MkProcHistogram (replicate (length procHistogramBucketsMs) 0) 0 0.
Definition within (us : Z) (bound : float64) : bool := fle (fdiv (of_Z us) (of_Z 1000)) bound.
Definition Observe (h : procHistogram) (us : Z) : procHistogram :=
  MkProcHistogram
    (zip_with (fun c bound => if within us bound then u64 (c + 1) else c) (buckets h) procHistogramBucketsMs)
    (u64 (sumUs h + us)) (u64 (count h + 1)).
Record HistogramSnapshot := MkHistogramSnapshot { BucketBounds : list float64; BucketCounts : list Z; SumUs : Z; Count : Z }.
Definition Snapshot (h : procHistogram) : HistogramSnapshot :=
  MkHistogramSnapshot procHistogramBucketsMs (buckets h) (sumUs h) (count h).

(** How many samples are within a bound. *)
Definition below (l : list Z) (bound : float64) : Z := zlen (filter (fun us => within us bound = true) l).
Definition total (l : list Z) : Z := foldr Z.add 0 l.

Lemma u64_add_u64 a b : u64 (u64 a + b) = u64 (a + b).
Proof. unfold uwrap. by rewrite Zplus_mod_idemp_l. Qed.
Lemma below_snoc l us bound : below (l ++ [us]) bound = below l bound + (if within us bound then 1 else 0).
Proof.
  unfold below. rewrite filter_app, zlen_app. destruct (within us bound) eqn:E.
  - rewrite filter_cons_True by done. done.
  - rewrite filter_cons_False by congruence. done.
Qed.
Lemma observe_all l : fold_left Observe l newProcHistogram
  = MkProcHistogram (map (fun b => u64 (below l b)) procHistogramBucketsMs) (u64 (total l)) (u64 (zlen l)).
Proof.
  induction l as [|us l IH] using rev_ind; [reflexivity|]. rewrite fold_left_app, IH. cbn [fold_left]. unfold Observe.
  cbn [buckets sumUs count]. f_equal.
  - generalize procHistogramBucketsMs as bs. induction bs as [|b bs IHb]; [done|]. cbn. f_equal; [|done].
    rewrite below_snoc. destruct (within us b); [apply u64_add_u64|by rewrite Z.add_0_r].
  - rewrite u64_add_u64. f_equal. unfold total. rewrite foldr_app. cbn.
    clear. induction l as [|x l IH]; cbn; lia.
  - by rewrite u64_add_u64, zlen_app.
Qed.

Lemma bounds_sorted i j b1 b2 : (i <= j)%nat -> procHistogramBucketsMs !! i = Some b1 ->
  procHistogramBucketsMs !! j = Some b2 -> fle b1 b2 = true.
Proof.
  intros Hij H1 H2.
  assert (Forall (fun i => Forall (fun j => (i <= j)%nat -> default true (x ← procHistogramBucketsMs !! i;
    y ← procHistogramBucketsMs !! j; Some (fle x y)) = true) (seq 0 8)) (seq 0 8)) as H.
  { repeat constructor; intros ?; try (vm_compute; reflexivity); lia. }
  assert (i ∈ seq 0 8 /\ j ∈ seq 0 8) as [Hi Hj].
  { apply lookup_lt_Some in H1, H2. rewrite !elem_of_seq. cbn in *. lia. }
  rewrite Forall_forall in H. specialize (H i Hi). rewrite Forall_forall in H. specialize (H j Hj Hij).
  by rewrite H1, H2 in H.
Qed.
Lemma below_mono l b1 b2 : fle b1 b2 = true -> below l b1 <= below l b2.
Proof.
  intros H. induction l as [|us l IH] using rev_ind; [done|]. rewrite !below_snoc.
  destruct (within us b1) eqn:E1; [|destruct (within us b2); lia].
  assert (within us b2 = true) as -> by (unfold within in *; by eapply fle_trans). lia.
Qed.
Lemma below_length l b : 0 <= below l b <= zlen l.
Proof. split; [apply zlen_nonneg|]. unfold below, zlen. pose proof (length_filter (fun us => within us b = true) l). lia. Qed.

(** The histogram is exact and cumulative.  After any sequence of fewer than 2^64
    samples, the count of each bucket is the number of samples within its bound, the counts
    never decrease from one bound to the next nor exceed the number of samples, which is
    [Count], and the sum is the samples' sum modulo 2^64. *)
Theorem histogram_cumulative l : zlen l < 2 ^ 64 ->
  let s := Snapshot (fold_left Observe l newProcHistogram) in
  BucketCounts s = map (below l) (BucketBounds s) /\ Count s = zlen l /\ SumUs s = total l mod 2 ^ 64 /\
  (forall i j c c', (i <= j)%nat -> BucketCounts s !! i = Some c -> BucketCounts s !! j = Some c' -> c <= c' <= Count s).
Proof.
  intros Hl. cbv zeta. rewrite observe_all. unfold Snapshot. cbn [BucketCounts BucketBounds Count SumUs buckets sumUs count].
  assert (forall b, u64 (below l b) = below l b) as Hb.
  { intros b. apply uwrap_id. unfold in_u. pose proof (below_length l b). lia. }
  assert (u64 (zlen l) = zlen l) as Hz by (apply uwrap_id; unfold in_u; pose proof (zlen_nonneg l); lia).
  rewrite Hz. split_and!; [|done|done|].
  - apply map_ext. intros b. apply Hb.
  - intros i j c c' Hij Hi Hj. rewrite list_lookup_fmap in Hi, Hj.
    destruct (procHistogramBucketsMs !! i) as [b1|] eqn:E1; [|done]. destruct (procHistogramBucketsMs !! j) as [b2|] eqn:E2; [|done].
    injection Hi as <-. injection Hj as <-. rewrite !Hb. split; [|apply below_length]. apply below_mono.
    apply (bounds_sorted i j); done.
Qed.

(** ** Reconnect backoff *)

Record Backoff := MkBackoff { Min : Z; Max : Z; Factor : float64; attempt : Z }.
Definition NewBackoff (mn mx : Z) (factor : float64) : Backoff := MkBackoff mn mx factor 0.
Definition pow (base : float64) (exp : Z) : float64 := Nat.iter (Z.to_nat exp) (fun r => fmul r base) (of_Z 1).
(** [Next]; [rnd] is what [rand.Float64] returns. *)
Definition Next (b : Backoff) (rnd : float64) : Backoff * Z :=
  let d := fmul (of_Z (Min b)) (pow (Factor b) (attempt b)) in
  let '(d, b') := if flt (of_Z (Max b)) d then (of_Z (Max b), b)
                  else (d, MkBackoff (Min b) (Max b) (Factor b) (s64 (attempt b + 1))) in
  let jitter := fadd (fdiv (of_Z 4) (of_Z 5)) (fmul (fdiv (of_Z 2) (of_Z 5)) rnd) in
  (b', to_int64 (fmul d jitter)).
Definition Reset (b : Backoff) : Backoff := MkBackoff (Min b) (Max b) (Factor b) 0.

Lemma histogram_cumulative_witness :
  let s := Snapshot (fold_left Observe [500; 7000; 5000; 9000000] newProcHistogram) in
  BucketCounts s = [1; 2; 3; 3; 3; 3; 3; 3] /\ Count s = 4.
Proof.
  cbv zeta. destruct (histogram_cumulative [500; 7000; 5000; 9000000]) as (H1 & H2 & _ & _); [vm_compute; reflexivity|].
  split; [rewrite H1; vm_compute; reflexivity|rewrite H2; reflexivity].
Defined.

End debug.
