(* ===== verification/Modbus.v ===== *)
(** * Modbus registers and transport ([engine/nodes/modbusshared])

    Typed values in blocks of 16-bit registers: decoding a polled block, encoding a value to
    write; and the transport configuration.  The Modbus client library is a parameter. *)

From Stdlib Require Import SpecFloat.
From S2P Require Import Prelude Bytes GoStd Float Datagram Execution Value.
Import gostd float datagram execution value.
Local Open Scope Z_scope.

Module modbusshared.

Record Field := MkField {
  Name : string; Register : Z; Type_ : string; Length : Z; BitOffset : Z; WordOrder : string
}.

Definition registerCount (f : Field) : res string Z :=
  if decide (Type_ f = "uint16" \/ Type_ f = "int16" \/ Type_ f = "bit") then Ok 1
  else if decide (Type_ f = "uint32" \/ Type_ f = "int32" \/ Type_ f = "float32") then Ok 2
  else if decide (Type_ f = "uint64" \/ Type_ f = "int64" \/ Type_ f = "float64") then Ok 4
  else if decide (Type_ f = "string") then
    (if Length f <=? 0 then Err "length is required" else Ok (Length f))
  else Err "unknown type".

(** [binary.BigEndian.Uint16(raw[start+i*2 : start+i*2+2])] for [i] below [n]. *)
Fixpoint readWords (raw : bytes) (start : Z) (n : nat) : res string (list Z) :=
  match n with
  | O => Ok []
  | S n' =>
      a ← index raw start; b ← index raw (start + 1);
      ws ← readWords raw (start + 2) n'; Ok (Z.lor (Z.shiftl a 8) b :: ws)
  end.
Definition reorder (f : Field) (words : list Z) : list Z :=
  if decide (WordOrder f = "little") then reverse words else words.
Definition registerWords (raw : bytes) (f : Field) (n : Z) : res string (list Z) :=
  let start := s64 (Register f * 2) in
  let end_ := s64 (start + s64 (n * 2)) in
  if (start <? 0) || (zlen raw <? end_) then Err "exceeds the polled block"
  else ws ← readWords raw start (Z.to_nat n); Ok (reorder f ws).

Definition words64 (words : list Z) : Z := fold_left (fun v w => u64 (Z.lor (Z.shiftl v 16) w)) words 0.
Definition words32 (w0 w1 : Z) : Z := Z.lor (u32 (Z.shiftl w0 16)) w1.
Fixpoint trimNulls (b : bytes) : bytes :=
  match b with
  | [] => []
  | c :: b' => if c =? 0 then [] else c :: trimNulls b'
  end.

(** One field of [DecodeRegisters]. *)
Definition decodeField (raw : bytes) (f : Field) : res string any :=
  if decide (Type_ f = "bit") then
    words ← registerWords raw f 1;
    if (BitOffset f <? 0) || (15 <? BitOffset f) then Err "bitOffset must be 0-15"
    else w ← index words 0; Ok (ABool (negb (Z.land w (u16 (Z.shiftl 1 (BitOffset f))) =? 0)))
  else
    n ← registerCount f;
    words ← registerWords raw f n;
    if decide (Type_ f = "uint16") then w ← index words 0; Ok (AFloat (of_Z w))
    else if decide (Type_ f = "int16") then w ← index words 0; Ok (AFloat (of_Z (s16 w)))
    else if decide (Type_ f = "uint32") then w ← index words 0; w' ← index words 1; Ok (AFloat (of_Z (words32 w w')))
    else if decide (Type_ f = "int32") then w ← index words 0; w' ← index words 1; Ok (AFloat (of_Z (s32 (words32 w w'))))
    else if decide (Type_ f = "uint64") then Ok (AFloat (of_Z (words64 words)))
    else if decide (Type_ f = "int64") then Ok (AFloat (of_Z (s64 (words64 words))))
    else if decide (Type_ f = "float32") then
      w ← index words 0; w' ← index words 1; Ok (AFloat (of_float32 (Float32frombits (words32 w w'))))
    else if decide (Type_ f = "float64") then Ok (AFloat (Float64frombits (words64 words)))
    else Ok (AStr (string_of_bytes (trimNulls (concat (map (fun w => [u8 (Z.shiftr w 8); u8 w]) words))))).
Fixpoint decodeFields (raw : bytes) (fields : list Field) (out : list (string * any)) : res string (list (string * any)) :=
  match fields with
  | [] => Ok out
  | f :: l => v ← decodeField raw f; decodeFields raw l (mset out (Name f) v)
  end.
Definition DecodeRegisters (raw : bytes) (fields : list Field) : res string (list (string * any)) := decodeFields raw fields [].

Definition toNumber (v : any) : res string float64 :=
  match v with
  | AFloat f => Ok f
  | AInt z => Ok (of_Z z)
  | ABool b => Ok (of_Z (if b then 1 else 0))
  | _ => Err "unsupported numeric type"
  end.

Definition split32 (v : Z) : list Z := [u16 (Z.shiftr v 16); u16 v].
Definition split64 (v : Z) : list Z := [u16 (Z.shiftr v 48); u16 (Z.shiftr v 32); u16 (Z.shiftr v 16); u16 v].
(** [copy(b, s)] into [n] zero bytes. *)
Definition padded (n : nat) (b : bytes) : bytes := take n (b ++ replicate n 0).
Definition EncodeField (f : Field) (v : any) : res string (list Z) :=
  if decide (Type_ f = "string") then
    match v with
    | AStr s => n ← registerCount f; readWords (padded (Z.to_nat (n * 2)) (bytes_of_string s)) 0 (Z.to_nat n)
    | _ => Err "expected a string value"
    end
  else
    n ← toNumber v;
    words ← (if decide (Type_ f = "uint16" \/ Type_ f = "int16") then Ok [u16 (to_int64 n)]
             else if decide (Type_ f = "uint32" \/ Type_ f = "int32") then Ok (split32 (u32 (to_int64 n)))
             else if decide (Type_ f = "uint64" \/ Type_ f = "int64") then Ok (split64 (u64 (to_int64 n)))
             else if decide (Type_ f = "float32") then Ok (split32 (Float32bits (to_float32 n)))
             else if decide (Type_ f = "float64") then Ok (split64 (Float64bits n))
             else Err "unknown type");
    Ok (reorder f words).

(** ** Registers on the wire *)

(** The bytes of a block of registers, high byte first. *)
Definition wire (words : list Z) : bytes := concat (map (fun w => [u8 (Z.shiftr w 8); u8 w]) words).

Lemma word_bytes w : in_u 16 w -> Z.lor (Z.shiftl (u8 (Z.shiftr w 8)) 8) (u8 w) = w.
Proof.
  intros H. rewrite lor_shiftl_low; [|lia|apply uwrap_range; lia]. unfold uwrap, in_u in *.
  rewrite Z.shiftr_div_pow2 by lia. change (2 ^ 8) with 256. change (2 ^ 16) with 65536 in H. Z.div_mod_to_equations. lia.
Qed.
Lemma zlen_wire words : zlen (wire words) = 2 * zlen words.
Proof. induction words as [|w l IH]; [done|]. unfold wire in *. cbn [map concat]. rewrite zlen_app, IH, !zlen_cons, zlen_nil. lia. Qed.

Lemma index_app {E A} (pre : list A) x post : @index E A (pre ++ x :: post) (zlen pre) = Ok x.
Proof. apply index_lookup. by apply list_lookup_middle. Qed.
Lemma readWords_wire words : forall pre post, Forall (in_u 16) words ->
  readWords (pre ++ wire words ++ post) (zlen pre) (length words) = Ok words.
Proof.
  induction words as [|w l IH]; intros pre post Hf; [done|]. apply Forall_cons in Hf as [Hw Hf]. cbn [readWords length].
  change (wire (w :: l)) with (u8 (Z.shiftr w 8) :: u8 w :: wire l). cbn [app].
  rewrite index_app. cbn [mbind res_bind].
  replace (pre ++ u8 (Z.shiftr w 8) :: u8 w :: wire l ++ post) with ((pre ++ [u8 (Z.shiftr w 8)]) ++ u8 w :: wire l ++ post)
    by (by rewrite <- app_assoc).
  replace (zlen pre + 1) with (zlen (pre ++ [u8 (Z.shiftr w 8)])) by (by rewrite zlen_app).
  rewrite index_app. cbn [mbind res_bind].
  replace ((pre ++ [u8 (Z.shiftr w 8)]) ++ u8 w :: wire l ++ post)
    with ((pre ++ [u8 (Z.shiftr w 8); u8 w]) ++ wire l ++ post) by (by rewrite <- !app_assoc).
  replace (zlen pre + 2) with (zlen (pre ++ [u8 (Z.shiftr w 8); u8 w])) by (by rewrite zlen_app).
  rewrite IH by done. cbn. by rewrite word_bytes.
Qed.

Lemma registerWords_wire f words pre post : Forall (in_u 16) words -> zlen pre = 2 * Register f ->
  zlen (pre ++ wire words ++ post) < 2 ^ 63 -> registerWords (pre ++ wire words ++ post) f (zlen words) = Ok (reorder f words).
Proof.
  intros Hf Hp Hlen. unfold registerWords. rewrite !zlen_app, zlen_wire in *.
  pose proof (zlen_nonneg pre). pose proof (zlen_nonneg words). pose proof (zlen_nonneg post).
  rewrite (swrap_id 64 (Register f * 2)), (swrap_id 64 (zlen words * 2)), swrap_id by (lia || (unfold in_s; lia)).
  destruct (Z.ltb_spec (Register f * 2) 0); [lia|].
  destruct (Z.ltb_spec (zlen pre + (2 * zlen words + zlen post)) (Register f * 2 + zlen words * 2)); [lia|]. cbn [orb].
  replace (Register f * 2) with (zlen pre) by lia. replace (Z.to_nat (zlen words)) with (length words) by (unfold zlen; lia).
  rewrite readWords_wire by done. done.
Qed.
Lemma reorder_reorder f words : reorder f (reorder f words) = words.
Proof. unfold reorder. case_decide; [by rewrite reverse_involutive|done]. Qed.
Lemma reorder_zlen f words : zlen (reorder f words) = zlen words.
Proof. unfold reorder, zlen. case_decide; [by rewrite length_reverse|done]. Qed.
Lemma reorder_range f words : Forall (in_u 16) words -> Forall (in_u 16) (reorder f words).
Proof. unfold reorder. case_decide; [by intros; apply Forall_reverse|done]. Qed.

(** The words of a 32-bit and of a 64-bit value. *)
Lemma split32_range v : Forall (in_u 16) (split32 v).
Proof. repeat constructor; apply uwrap_range; lia. Qed.
Lemma split64_range v : Forall (in_u 16) (split64 v).
Proof. repeat constructor; apply uwrap_range; lia. Qed.
Lemma split32_index v : @index string _ (split32 v) 0 = Ok (u16 (Z.shiftr v 16)) /\ @index string _ (split32 v) 1 = Ok (u16 v).
Proof. by split. Qed.
Lemma words32_split v : in_u 32 v -> words32 (u16 (Z.shiftr v 16)) (u16 v) = v.
Proof.
  intros H. unfold words32. rewrite (uwrap_id 32).
  - rewrite lor_shiftl_low; [|lia|apply uwrap_range; lia]. unfold uwrap, in_u in *. rewrite Z.shiftr_div_pow2 by lia.
    change (2 ^ 16) with 65536. change (2 ^ 32) with 4294967296 in H. Z.div_mod_to_equations. lia.
  - pose proof (uwrap_range 16 (Z.shiftr v 16) ltac:(lia)). unfold in_u in *. rewrite Z.shiftl_mul_pow2 by lia.
    change (2 ^ 16) with 65536 in *. change (2 ^ 32) with 4294967296. lia.
Qed.
Lemma words64_split v : in_u 64 v -> words64 (split64 v) = v.
Proof.
  intros H. unfold words64, split64. cbn [fold_left].
  assert (forall k, in_u 16 (u16 k)) as Hr by (intros k; apply uwrap_range; lia).
  rewrite !lor_shiftl_low by (lia || apply Hr). rewrite !Z.shiftr_div_pow2 by lia.
  unfold uwrap, in_u in *.
  change (2 ^ 16) with 65536. change (2 ^ 32) with 4294967296. change (2 ^ 48) with 281474976710656.
  change (2 ^ 64) with 18446744073709551616 in *. Z.div_mod_to_equations. lia.
Qed.

(** ** Values that survive *)

Definition fits (f : Field) (v : any) : Prop :=
  match v with
  | AFloat x =>
      (exists z, x = of_Z z /\
         ((Type_ f = "uint16" /\ 0 <= z < 2 ^ 16) \/ (Type_ f = "int16" /\ - 2 ^ 15 <= z < 2 ^ 15) \/
          (Type_ f = "uint32" /\ 0 <= z < 2 ^ 32) \/ (Type_ f = "int32" /\ - 2 ^ 31 <= z < 2 ^ 31) \/
          (Type_ f = "uint64" /\ 0 <= z < 2 ^ 53) \/ (Type_ f = "int64" /\ - 2 ^ 53 < z < 2 ^ 53))) \/
      (Type_ f = "float32" /\ exists g, valid_binary 24 128 g = true /\ x = of_float32 g) \/
      (Type_ f = "float64" /\ valid_binary 53 1024 x = true)
  | AStr s =>
      Type_ f = "string" /\ 0 < Length f /\ (Z.of_nat (String.length s) <= 2 * Length f) /\
      ~ 0 ∈ bytes_of_string s /\ WordOrder f <> "little"
  | _ => False
  end.

Lemma swrap_uwrap_id w z : 1 <= w -> in_s w z -> swrap w (uwrap w z) = z.
Proof. intros Hw H. rewrite swrap_uwrap by done. by apply swrap_id. Qed.

(** The words [EncodeField] makes are registers, as many as the type has. *)
Lemma EncodeField_numeric f x words : Type_ f <> "string" -> EncodeField f (AFloat x) = Ok words ->
  exists ws, words = reorder f ws /\ Forall (in_u 16) ws /\ registerCount f = Ok (zlen ws) /\
    ((Type_ f = "uint16" \/ Type_ f = "int16") /\ ws = [u16 (to_int64 x)] \/
     (Type_ f = "uint32" \/ Type_ f = "int32") /\ ws = split32 (u32 (to_int64 x)) \/
     (Type_ f = "uint64" \/ Type_ f = "int64") /\ ws = split64 (u64 (to_int64 x)) \/
     Type_ f = "float32" /\ ws = split32 (Float32bits (to_float32 x)) \/
     Type_ f = "float64" /\ ws = split64 (Float64bits x)).
Proof.
  intros Hs H. unfold EncodeField in H. rewrite decide_False in H by done. cbn [toNumber] in H.
  apply res_bind_Ok in H as (n & [= <-] & H). apply res_bind_Ok in H as (ws & Hw & [= <-]). exists ws. split; [done|].
  unfold registerCount.
  destruct (decide (Type_ f = "uint16" \/ Type_ f = "int16")) as [Ht|_];
    [|destruct (decide (Type_ f = "uint32" \/ Type_ f = "int32")) as [Ht|_];
      [|destruct (decide (Type_ f = "uint64" \/ Type_ f = "int64")) as [Ht|_];
        [|destruct (decide (Type_ f = "float32")) as [Ht|_];
          [|destruct (decide (Type_ f = "float64")) as [Ht|_]; [|done]]]]].
  all: injection Hw as <-.
  all: split; [first [apply split32_range|apply split64_range|constructor; [apply uwrap_range; lia|constructor]]|].
  all: split; [|tauto].
  all: repeat (case_decide; [naive_solver congruence|]); naive_solver congruence.
Qed.

(** Reading back a block of registers, by type. *)
Ltac by_type Ht := rewrite ?Ht; repeat first [rewrite decide_False by (try tauto; done) | rewrite decide_True by (try tauto; done)].
Lemma decodeField_words raw f n ws : registerCount f = Ok n -> registerWords raw f n = Ok ws ->
  (forall w, Type_ f = "uint16" -> ws = [w] -> decodeField raw f = Ok (AFloat (of_Z w))) /\
  (forall w, Type_ f = "int16" -> ws = [w] -> decodeField raw f = Ok (AFloat (of_Z (s16 w)))) /\
  (forall v, in_u 32 v -> Type_ f = "uint32" -> ws = split32 v -> decodeField raw f = Ok (AFloat (of_Z v))) /\
  (forall v, in_u 32 v -> Type_ f = "int32" -> ws = split32 v -> decodeField raw f = Ok (AFloat (of_Z (s32 v)))) /\
  (forall v, in_u 64 v -> Type_ f = "uint64" -> ws = split64 v -> decodeField raw f = Ok (AFloat (of_Z v))) /\
  (forall v, in_u 64 v -> Type_ f = "int64" -> ws = split64 v -> decodeField raw f = Ok (AFloat (of_Z (s64 v)))) /\
  (forall v, in_u 32 v -> Type_ f = "float32" -> ws = split32 v -> decodeField raw f = Ok (AFloat (of_float32 (Float32frombits v)))) /\
  (forall v, in_u 64 v -> Type_ f = "float64" -> ws = split64 v -> decodeField raw f = Ok (AFloat (Float64frombits v))) /\
  (Type_ f = "string" -> decodeField raw f = Ok (AStr (string_of_bytes (trimNulls (wire ws))))).
Proof.
  intros Hn Hw. unfold decodeField. rewrite Hn. cbn [mbind res_bind]. rewrite Hw. cbn [mbind res_bind].
  split_and!.
  1,2: intros w Ht ->; by_type Ht; done.
  1,2,5: intros v Hv Ht ->; by_type Ht;
    destruct (split32_index v) as [-> ->]; cbn [mbind res_bind]; by rewrite words32_split.
  1-3: intros v Hv Ht ->; by_type Ht; by rewrite words64_split.
  intros Ht. by_type Ht. done.
Qed.

(** [copy] into zero bytes, and back. *)
Lemma trimNulls_padded b k : ~ 0 ∈ b -> trimNulls (b ++ replicate k 0) = b.
Proof.
  induction b as [|c b IH]; intros H; cbn; [by destruct k|].
  destruct (Z.eqb_spec c 0) as [-> |]; [by destruct H; left|]. f_equal. apply IH. intros ?. by apply H; right.
Qed.
Lemma readWords_bytes : forall n pre b, bytes_ok b -> length b = (2 * n)%nat -> exists ws,
  readWords (pre ++ b) (zlen pre) n = Ok ws /\ length ws = n /\ wire ws = b /\ Forall (in_u 16) ws.
Proof.
  induction n as [|n IH]; intros pre b Hok Hl; [destruct b; [by exists []|done]|].
  destruct b as [|x [|y b]]; [cbn in Hl; lia..|]. apply Forall_cons in Hok as [Hx Hok]. apply Forall_cons in Hok as [Hy Hok].
  cbn [readWords]. rewrite index_app. cbn [mbind res_bind].
  assert (pre ++ x :: y :: b = (pre ++ [x]) ++ y :: b) as E1 by (by rewrite <- app_assoc).
  assert (pre ++ x :: y :: b = (pre ++ [x; y]) ++ b) as E2 by (by rewrite <- app_assoc).
  rewrite E1. replace (zlen pre + 1) with (zlen (pre ++ [x])) by (by rewrite zlen_app). rewrite index_app. cbn [mbind res_bind].
  rewrite <- E1, E2. replace (zlen pre + 2) with (zlen (pre ++ [x; y])) by (by rewrite zlen_app).
  destruct (IH (pre ++ [x; y]) b Hok) as (ws & -> & Hlen & Hw & Hf); [cbn in Hl; lia|]. cbn.
  assert (Z.lor (Z.shiftl x 8) y = x * 256 + y) as Ew by (by rewrite lor_shiftl_low).
  eexists. split; [reflexivity|]. rewrite Ew. unfold in_u in Hx, Hy. change (2 ^ 8) with 256 in *. split_and!.
  - cbn. lia.
  - change (wire (x * 256 + y :: ws)) with (u8 (Z.shiftr (x * 256 + y) 8) :: u8 (x * 256 + y) :: wire ws).
    rewrite Hw, Z.shiftr_div_pow2 by lia. unfold uwrap. change (2 ^ 8) with 256.
    repeat f_equal; Z.div_mod_to_equations; lia.
  - constructor; [unfold in_u; change (2 ^ 16) with 65536; lia|done].
Qed.

Lemma reorder_big f words : WordOrder f <> "little" -> reorder f words = words.
Proof. intros H. unfold reorder. by rewrite decide_False. Qed.

(** What [EncodeField] makes of a string that fits. *)
Lemma EncodeField_string f s words : fits f (AStr s) -> EncodeField f (AStr s) = Ok words ->
  registerCount f = Ok (zlen words) /\ Forall (in_u 16) words /\
  string_of_bytes (trimNulls (wire words)) = s.
Proof.
  intros (Ht & Hl & Hs & H0 & _) H. unfold EncodeField in H. rewrite decide_True in H by done.
  assert (registerCount f = Ok (Length f)) as Hc.
  { unfold registerCount. by_type Ht. destruct (Z.leb_spec (Length f) 0); [lia|done]. }
  rewrite Hc in H. cbn [mbind res_bind] in H. set (b := bytes_of_string s) in *.
  assert (length b = String.length s) as Hb by apply length_bytes_of_string.
  set (n := Z.to_nat (Length f)) in *. assert (Z.to_nat (Length f * 2) = 2 * n)%nat as En by lia. rewrite En in H.
  assert (padded (2 * n) b = b ++ replicate (2 * n - length b) 0) as Ep.
  { unfold padded. rewrite take_app, take_ge, take_replicate by lia. do 2 f_equal. lia. }
  destruct (readWords_bytes n [] (padded (2 * n) b)) as (ws & Hr & Hlen & Hw & Hf).
  { rewrite Ep. apply Forall_app. split; [apply bytes_of_string_ok|]. apply Forall_replicate. unfold in_u. lia. }
  { rewrite Ep, length_app, length_replicate. lia. }
  change (readWords (padded (2 * n) b) 0 n = Ok ws) in Hr. rewrite Hr in H. injection H as <-. split_and!; [|done|].
  - rewrite Hc. f_equal. unfold zlen. lia.
  - rewrite Hw, Ep, trimNulls_padded by done. apply string_of_bytes_of_string.
Qed.

(** A value that fits is encoded. *)
Lemma EncodeField_fits f v : fits f v -> exists words, EncodeField f v = Ok words.
Proof.
  intros Hfit. unfold EncodeField. destruct v as [|b|x|z|s|l|l|l|ms|ml|m|d]; try done.
  - assert (exists ws, (if decide (Type_ f = "uint16" \/ Type_ f = "int16") then Ok [u16 (to_int64 x)]
      else if decide (Type_ f = "uint32" \/ Type_ f = "int32") then Ok (split32 (u32 (to_int64 x)))
      else if decide (Type_ f = "uint64" \/ Type_ f = "int64") then Ok (split64 (u64 (to_int64 x)))
      else if decide (Type_ f = "float32") then Ok (split32 (Float32bits (to_float32 x)))
      else if decide (Type_ f = "float64") then Ok (split64 (Float64bits x)) else Err "unknown type") = Ok ws /\
      Type_ f <> "string") as (ws & Hws & Hns).
    { unfold fits in Hfit.
      destruct Hfit as [(z & _ & [[Ht _]|[[Ht _]|[[Ht _]|[[Ht _]|[[Ht _]|[Ht _]]]]]])|[[Ht _]|[Ht _]]]; rewrite Ht;
        by_type Ht; (eexists; split; [reflexivity|done]). }
    rewrite decide_False by done. cbn [toNumber mbind res_bind]. rewrite Hws. cbn. eauto.
  - destruct Hfit as (Ht & Hl & _). rewrite decide_True by done.
    assert (registerCount f = Ok (Length f)) as ->.
    { unfold registerCount. by_type Ht. destruct (Z.leb_spec (Length f) 0); [lia|done]. }
    cbn [mbind res_bind]. set (n := Z.to_nat (Length f)). replace (Z.to_nat (Length f * 2)) with (2 * n)%nat by lia.
    destruct (readWords_bytes n [] (padded (2 * n) (bytes_of_string s))) as (ws & Hr & _); [| |by exists ws].
    + unfold padded. apply Forall_take, Forall_app. split; [apply bytes_of_string_ok|]. apply Forall_replicate. unfold in_u. lia.
    + unfold padded. rewrite length_take, length_app, length_replicate. lia.
Qed.

(** Two different names of a type. *)
Ltac absurd_type K := first [discriminate K | destruct K as [K|K]; discriminate K].

(** A value written by [EncodeField] and read back by [DecodeRegisters] from the registers it
    was written to, wherever they lie in the polled block, is the same value. *)
Lemma registers_roundtrip f v words pre post : fits f v -> EncodeField f v = Ok words ->
  zlen pre = 2 * Register f -> zlen (pre ++ wire words ++ post) < 2 ^ 63 ->
  DecodeRegisters (pre ++ wire words ++ post) [f] = Ok [(Name f, v)].
Proof.
  intros Hfit Henc Hp Hlen. unfold DecodeRegisters. cbn [decodeFields].
  enough (decodeField (pre ++ wire words ++ post) f = Ok v) as -> by done.
  destruct v as [|b|x|z|s|l|l|l|ms|ml|m|d]; try done.
  - unfold fits in Hfit. assert (Type_ f <> "string") as Hns by (intros E; rewrite E in Hfit; naive_solver).
    destruct (EncodeField_numeric f x words Hns Henc) as (ws & -> & Hr & Hc & Hws).
    assert (registerWords (pre ++ wire (reorder f ws) ++ post) f (zlen ws) = Ok ws) as Hrw.
    { rewrite <- (reorder_zlen f ws), registerWords_wire by (try apply reorder_range; done). by rewrite reorder_reorder. }
    destruct (decodeField_words _ f _ ws Hc Hrw) as (D1 & D2 & D3 & D4 & D5 & D6 & D7 & D8 & _).
    destruct Hfit as [(z & -> & Hz)|[(Ht & g & Hg & ->)|(Ht & Hx)]].
    + assert (to_int64 (of_Z z) = z) as Ez by (apply to_int64_of_Z; lia). rewrite Ez in Hws.
      assert (forall w, 0 <= w -> in_u w (uwrap w z)) as Hu by (intros; by apply uwrap_range).
      destruct Hz as [[Ht Hz]|[[Ht Hz]|[[Ht Hz]|[[Ht Hz]|[[Ht Hz]|[Ht Hz]]]]]]; rewrite Ht in Hws;
        destruct Hws as [[K Hws]|[[K Hws]|[[K Hws]|[[K Hws]|[K Hws]]]]]; try (exfalso; absurd_type K); subst ws.
      * rewrite (D1 _ Ht eq_refl), uwrap_id by done. done.
      * rewrite (D2 _ Ht eq_refl), swrap_uwrap_id by (done || lia). done.
      * rewrite (D3 _ (Hu 32 ltac:(lia)) Ht eq_refl), uwrap_id by done. done.
      * rewrite (D4 _ (Hu 32 ltac:(lia)) Ht eq_refl), swrap_uwrap_id by (done || lia). done.
      * rewrite (D5 _ (Hu 64 ltac:(lia)) Ht eq_refl), uwrap_id by (unfold in_u; lia). done.
      * rewrite (D6 _ (Hu 64 ltac:(lia)) Ht eq_refl), swrap_uwrap_id by (lia || (unfold in_s; lia)). done.
    + rewrite Ht in Hws. destruct Hws as [[K Hws]|[[K Hws]|[[K Hws]|[[K Hws]|[K Hws]]]]]; try (exfalso; absurd_type K); subst ws.
      rewrite float32_roundtrip in * by done.
      rewrite (D7 (Float32bits g) (to_bits_range 23 8 ltac:(lia) ltac:(lia) g Hg) Ht eq_refl).
      unfold Float32frombits, Float32bits. by rewrite of_to_bits by (lia || done).
    + rewrite Ht in Hws. destruct Hws as [[K Hws]|[[K Hws]|[[K Hws]|[[K Hws]|[K Hws]]]]]; try (exfalso; absurd_type K); subst ws.
      rewrite (D8 (Float64bits x) (to_bits_range 52 11 ltac:(lia) ltac:(lia) x Hx) Ht eq_refl).
      unfold Float64frombits, Float64bits. by rewrite of_to_bits by (lia || done).
  - destruct (EncodeField_string f s words Hfit Henc) as (Hc & Hr & Hs). destruct Hfit as (Ht & _ & _ & _ & Hw).
    pose proof (registerWords_wire f words pre post Hr Hp Hlen) as Hrw. rewrite reorder_big in Hrw by done.
    destruct (decodeField_words _ f _ words Hc Hrw) as (_ & _ & _ & _ & _ & _ & _ & _ & D9).
    by rewrite (D9 Ht), Hs.
Qed.

(** Strings do not survive the little word order.  [DecodeRegisters] reverses the words
    of a string field whose word order is "little" and [EncodeField] does not: a string of
    more than one register that was written reads back with its registers in reverse order. *)
Theorem string_word_order f s words pre post : Type_ f = "string" -> WordOrder f = "little" -> 0 < Length f ->
  EncodeField f (AStr s) = Ok words -> zlen pre = 2 * Register f -> zlen (pre ++ wire words ++ post) < 2 ^ 63 ->
  DecodeRegisters (pre ++ wire words ++ post) [f]
  = Ok [(Name f, AStr (string_of_bytes (trimNulls (wire (reverse words)))))].
Proof.
  intros Ht Hw Hl Henc Hp Hlen. unfold DecodeRegisters. cbn [decodeFields].
  assert (registerCount f = Ok (Length f)) as Hc.
  { unfold registerCount. by_type Ht. destruct (Z.leb_spec (Length f) 0); [lia|done]. }
  unfold EncodeField in Henc. rewrite decide_True, Hc in Henc by done. cbn [mbind res_bind] in Henc.
  set (n := Z.to_nat (Length f)) in *. replace (Z.to_nat (Length f * 2)) with (2 * n)%nat in Henc by lia.
  destruct (readWords_bytes n [] (padded (2 * n) (bytes_of_string s))) as (ws & Hr & Hn & _ & Hf).
  { unfold padded. apply Forall_take, Forall_app. split; [apply bytes_of_string_ok|]. apply Forall_replicate. unfold in_u. lia. }
  { unfold padded. rewrite length_take, length_app, length_replicate. lia. }
  change (readWords (padded (2 * n) (bytes_of_string s)) 0 n = Ok ws) in Hr. rewrite Hr in Henc. injection Henc as <-.
  assert (Length f = zlen ws) as Hz by (unfold zlen; lia). rewrite Hz in Hc.
  pose proof (registerWords_wire f ws pre post Hf Hp Hlen) as Hrw.
  destruct (decodeField_words _ f _ _ Hc Hrw) as (_ & _ & _ & _ & _ & _ & _ & _ & D9).
  rewrite (D9 Ht). unfold reorder. by rewrite decide_True by done.
Qed.

Lemma string_word_order_witness :
  DecodeRegisters (wire [16706; 17152]) [MkField "s" 0 "string" 2 0 "little"] = Ok [("s", AStr "C")] /\
  EncodeField (MkField "s" 0 "string" 2 0 "little") (AStr "ABC") = Ok [16706; 17152].
Proof.
  split; [|vm_compute; reflexivity].
  exact (string_word_order (MkField "s" 0 "string" 2 0 "little") "ABC" [16706; 17152] [] [] eq_refl eq_refl
    ltac:(cbn; lia) ltac:(vm_compute; reflexivity) ltac:(vm_compute; reflexivity) ltac:(vm_compute; reflexivity)).
Defined.

(** ** Transport *)

Record TCPConfig := MkTCPConfig { Host : string; TPort : Z }.
Record RTUConfig := MkRTUConfig { RPort : string; BaudRate : Z; DataBits : Z; Parity : string; StopBits : Z }.
Record Config := MkConfig { Mode : string; TCP : TCPConfig; RTU : RTUConfig; SlaveID : Z; TimeoutMs : Z }.
Definition Validate (c : Config) : res string unit :=
  _ ← (if decide (Mode c = "tcp") then
         guard_err (bool_decide (Host (TCP c) <> "") && negb (TPort (TCP c) =? 0)) "tcp.host and tcp.port are required"
       else if decide (Mode c = "rtu") then guard_err (bool_decide (RPort (RTU c) <> "")) "rtu.port is required"
       else Err "mode must be tcp or rtu");
  guard_err ((0 <=? SlaveID c) && (SlaveID c <=? 255)) "slaveId must be 0-255".

(** What [Open] asks of the library: a handler's settings, then [Connect]. *)
Inductive handler :=
| TCPHandler (host : string) (port slave timeout : Z)
| RTUHandler (port : string) (slave timeout baud data stop : Z) (parity : string).
Definition orDefault (z d : Z) : Z := if z =? 0 then d else z.
Definition Open (connect : handler -> res string unit) (c : Config) : res string handler :=
  let timeout := if millis (TimeoutMs c) <=? 0 then 5000000000 else millis (TimeoutMs c) in
  if decide (Mode c = "tcp") then
    let h := TCPHandler (Host (TCP c)) (TPort (TCP c)) (u8 (SlaveID c)) timeout in
    _ ← connect h; Ok h
  else if decide (Mode c = "rtu") then
    parity ← (if decide (Parity (RTU c) = "" \/ Parity (RTU c) = "N") then Ok "N"
              else if decide (Parity (RTU c) = "E" \/ Parity (RTU c) = "O") then Ok (Parity (RTU c))
              else Err "rtu.parity");
    let h := RTUHandler (RPort (RTU c)) (u8 (SlaveID c)) timeout (orDefault (BaudRate (RTU c)) 19200)
               (orDefault (DataBits (RTU c)) 8) (orDefault (StopBits (RTU c)) 1) parity in
    _ ← connect h; Ok h
  else Err "unknown mode".

End modbusshared.
