(* ===== verification/ModbusSource.v ===== *)
(** * The Modbus source ([engine/nodes/modbussource])

    Polling groups over coils and registers.  What a request to the device returns is an
    argument. *)

From S2P Require Import Prelude Bytes GoStd Float Datagram Execution Value SplitBatch Modbus.
Import gostd float datagram execution value.
Local Open Scope Z_scope.

Module modbussource.
Import modbusshared.

Record PollingGroup := MkPollingGroup {
  GName : string; GArea : string; Address : Z; Quantity : Z; IntervalMs : Z; Fields : list Field
}.
Record Config := MkConfig { transport : modbusshared.Config; PollingGroups : list PollingGroup }.
Definition areas : list string := ["coils"; "discreteInputs"; "holdingRegisters"; "inputRegisters"].
Definition checkGroup (g : PollingGroup) : res string unit :=
  _ ← guard_err (bool_decide (GName g <> "")) "polling group name is required";
  _ ← guard_err (bool_decide (GArea g ∈ areas)) "unknown area";
  _ ← guard_err (negb (Quantity g =? 0)) "quantity must be positive";
  guard_err (0 <? IntervalMs g) "intervalMs must be positive".
Definition New (c : Config) : res string Config :=
  _ ← Validate (transport c);
  _ ← guard_err (bool_decide (PollingGroups c <> [])) "at least one polling group is required";
  _ ← res_mapM checkGroup (PollingGroups c);
  Ok c.

(** [decodeBits]: one bit per input, low bit first. *)
Definition decodeBit (raw : bytes) (i : Z) : res string bool :=
  b ← index raw (i / 8); Ok (negb (Z.land b (u8 (Z.shiftl 1 (i mod 8))) =? 0)).
Definition decodeBits (raw : bytes) (quantity : Z) : res string (list bool) :=
  res_mapM (fun i => decodeBit raw (Z.of_nat i)) (seq 0 (Z.to_nat quantity)).
Fixpoint rawWords (raw : bytes) : list float64 :=
  match raw with
  | a :: b :: raw' => of_Z (Z.lor (u16 (Z.shiftl a 8)) b) :: rawWords raw'
  | _ => []
  end.
Definition decodeRegisterValue (raw : bytes) (fields : list Field) : res string any :=
  match fields with
  | [] => Ok (AFloats (rawWords raw))
  | _ =>
      match DecodeRegisters raw fields with
      | Ok m => Ok (AMap m)
      | Err e => Ok (AMap [("error", AStr e)])
      | Panic => Panic
      end
  end.

(** [pollOnce]; [read] is what the request for the group returns. *)
Definition pollOnce (id : string) (now : Z) (read : PollingGroup -> res string bytes) (g : PollingGroup) : res string dgram :=
  raw ← read g;
  value ← (if decide (GArea g = "coils" \/ GArea g = "discreteInputs") then ABools <$> decodeBits raw (Quantity g)
           else if decide (GArea g = "holdingRegisters" \/ GArea g = "inputRegisters") then
             decodeRegisterValue raw (Fields g)
           else Ok ANil);
  let d := datagram.New id now (MkSource "" "modbus-source" "" "" "") (MkPayload value None) in
  let h := header d in
  Ok (MkDatagram (MkHeader (ID h) (CorrelationID h) (CausationID h) (Timestamp h) (SourceTimestamp h) (source h)
        (SchemaRef h) (ContentType h) (quality h) (Priority h) (TTLMillis h) (Some {["modbus.group" := GName g]}))
      (payload d) (trace d)).

(** ** What a poll yields *)

Lemma land_bit b i : 0 <= i < 8 -> negb (Z.land b (u8 (Z.shiftl 1 i)) =? 0) = Z.testbit b i.
Proof.
  intros Hi. assert (u8 (Z.shiftl 1 i) = 2 ^ i) as ->.
  { rewrite Z.shiftl_mul_pow2, Z.mul_1_l by lia. apply uwrap_id. unfold in_u. split; [apply Z.pow_nonneg; lia|].
    apply Z.pow_lt_mono_r; lia. }
  destruct (Z.testbit b i) eqn:E.
  - apply negb_true_iff, Z.eqb_neq. intros H. assert (Z.testbit (Z.land b (2 ^ i)) i = false) as F by (rewrite H; apply Z.bits_0).
    rewrite Z.land_spec, E, Z.pow2_bits_true in F by lia. done.
  - apply negb_false_iff, Z.eqb_eq. apply Z.bits_inj'. intros n Hn. rewrite Z.land_spec, Z.bits_0, Z.pow2_bits_eqb by lia.
    destruct (Z.eqb_spec i n) as [<- |]; [by rewrite E|apply andb_false_r].
Qed.

(** A device that returns a bit for each input asked for. *)
Lemma decodeBits_spec raw quantity : 0 <= quantity <= 8 * zlen raw ->
  exists bits, decodeBits raw quantity = Ok bits /\ length bits = Z.to_nat quantity /\
  forall i, Z.of_nat i < quantity -> exists b, raw !! (i / 8)%nat = Some b /\ bits !! i = Some (Z.testbit b (Z.of_nat i mod 8)).
Proof.
  intros Hq. set (bit := fun i : nat => Z.testbit (default 0 (raw !! (i / 8)%nat)) (Z.of_nat i mod 8)).
  assert (forall i, (i < Z.to_nat quantity)%nat -> is_Some (raw !! (i / 8)%nat) /\ decodeBit raw (Z.of_nat i) = Ok (bit i)) as Hb.
  { intros i Hi. assert (i / 8 < length raw)%nat as Hlt.
    { unfold zlen in Hq. apply Nat.Div0.div_lt_upper_bound. lia. }
    destruct (lookup_lt_is_Some_2 raw (i / 8)%nat Hlt) as [b Hb]. split; [by exists b|].
    unfold decodeBit, bit. rewrite Hb. replace (Z.of_nat i / 8) with (Z.of_nat (i / 8)) by (by rewrite Nat2Z.inj_div).
    rewrite (index_lookup raw _ b Hb).
    cbn -[Z.modulo Z.land]. rewrite land_bit; [done|]. apply Z.mod_pos_bound. lia. }
  exists (map bit (seq 0 (Z.to_nat quantity))). split_and!.
  - unfold decodeBits. assert (forall l, (forall i, i ∈ l -> (i < Z.to_nat quantity)%nat) ->
      res_mapM (fun i => decodeBit raw (Z.of_nat i)) l = Ok (map bit l)) as H.
    { induction l as [|i l IH]; intros Hl; [done|]. cbn. destruct (Hb i) as [_ ->]; [apply Hl; by left|].
      cbn. rewrite IH; [done|]. intros j Hj. apply Hl. by right. }
    apply H. intros i Hi. apply elem_of_seq in Hi. lia.
  - by rewrite length_map, length_seq.
  - intros i Hi. destruct (Hb i) as [[b Hb'] _]; [lia|]. exists b. split; [done|].
    rewrite list_lookup_fmap, lookup_seq_lt by lia. cbn. unfold bit. by rewrite Hb'.
Qed.

(** Raw registers cannot be split.  A polling group without fields yields its registers
    as a [[]float64]; the split-batch node (and so any node that asserts [[]any]) rejects it,
    so a flow that wires the source to a split never passes a datagram. *)
Theorem raw_poll_not_splittable id now read g d n ids now' : pollOnce id now read g = Ok d ->
  GArea g = "holdingRegisters" \/ GArea g = "inputRegisters" -> Fields g = [] -> splitbatch.Field (splitbatch.cfg n) = "" ->
  splitbatch.processSplit n ids now' d = Err "field is not an array".
Proof.
  intros Hp Ha Hf Hn. unfold pollOnce in Hp. apply res_bind_Ok in Hp as (raw & _ & Hp).
  apply res_bind_Ok in Hp as (value & Hv & [= <-]).
  rewrite decide_False, decide_True, Hf in Hv by (naive_solver congruence). injection Hv as <-.
  unfold splitbatch.processSplit. rewrite Hn. done.
Qed.
Lemma raw_poll_not_splittable_witness :
  match pollOnce "i" 0 (fun _ => Ok [1; 2; 3; 4]) (MkPollingGroup "g" "holdingRegisters" 0 2 1000 []) with
  | Ok d => splitbatch.processSplit (splitbatch.MkNode (splitbatch.MkConfig "split" "" 0 0 0) [] 0 0) (fun _ => "j") 1 d
            = Err "field is not an array" /\ Value (payload d) = AFloats [of_Z 258; of_Z 772]
  | _ => False
  end.
Proof.
  split; [|vm_compute; reflexivity].
  exact (raw_poll_not_splittable "i" 0 (fun _ => Ok [1; 2; 3; 4]) (MkPollingGroup "g" "holdingRegisters" 0 2 1000 [])
    _ (splitbatch.MkNode (splitbatch.MkConfig "split" "" 0 0 0) [] 0 0) (fun _ => "j") 1 eq_refl (or_introl eq_refl) eq_refl eq_refl).
Defined.

End modbussource.
