(* ===== verification/ModbusSink.v ===== *)
(** * The Modbus sink ([engine/nodes/modbussink])

    Writing a coil or a typed register value, over a connection that is opened once; and the
    sink and the source together. *)

From S2P Require Import Prelude Bytes GoStd Float Datagram Execution Value Modbus ModbusSource.
Import gostd float datagram execution value.
Local Open Scope Z_scope.

Module modbussink.
Import modbusshared.

Record Config := MkConfig { transport : modbusshared.Config; Area : string; Address : Z; Field_ : option Field; ValueField : string }.
(** [connected]: what the one call of [Open] returned, once it was made ([sync.Once]). *)
Record node := MkNode { cfg : Config; connected : option (res string unit) }.
Definition New (c : Config) : res string node :=
  _ ← Validate (transport c);
  _ ← guard_err (bool_decide (Area c = "coil") || bool_decide (Area c = "register")) "area must be coil or register";
  Ok (MkNode c None).

(** A request to the device. *)
Inductive request :=
| WriteSingleCoil (address value : Z)
| WriteSingleRegister (address value : Z)
| WriteMultipleRegisters (address quantity : Z) (data : bytes).

(** [connect]; [open_] is what [Open] would return now. *)
Definition connect (n : node) (open_ : res string unit) : node * res string unit :=
  match connected n with
  | Some r => (n, r)
  | None => (MkNode (cfg n) (Some open_), open_)
  end.

Definition toUint16 (v : any) : option Z :=
  match v with
  | AFloat f => Some (u16 (to_int64 f))
  | AInt z => Some (u16 z)
  | _ => None
  end.
Definition valueOf (c : Config) (inp : dgram) : any :=
  match Value (payload inp) with
  | AMap m => if decide (ValueField c = "") then AMap m else default ANil (mget m (ValueField c))
  | v => v
  end.
Definition requestFor (c : Config) (v : any) : res string request :=
  if decide (Area c = "coil") then
    match v with
    | ABool b => Ok (WriteSingleCoil (Address c) (if b then 65280 else 0))
    | _ => Err "area coil requires a boolean value"
    end
  else
    match Field_ c with
    | None =>
        match toUint16 v with
        | Some r => Ok (WriteSingleRegister (Address c) r)
        | None => Err "requires a numeric value"
        end
    | Some f =>
        words ← EncodeField f v;
        Ok (WriteMultipleRegisters (Address c) (u16 (zlen words)) (wire words))
    end.
(** [Process]: the node after it, the request sent, and the result; [send] is the device's answer. *)
Definition Process (n : node) (open_ : res string unit) (send : request -> res string unit) (inp : dgram)
  : node * option request * nodeResult :=
  let '(n', c) := connect n open_ in
  match c with
  | Ok _ =>
      match requestFor (cfg n) (valueOf (cfg n) inp) with
      | Ok q => (n', Some q, _ ← send q; Ok [MkPortDatagram "out" inp])
      | Err e => (n', None, Err e)
      | Panic => (n', None, Panic)
      end
  | Err e => (n', None, Err e)
  | Panic => (n', None, Panic)
  end.

(** [C37] What the sink writes, the source reads.  A datagram whose value fits the sink's
    field makes the sink send one request, to its address, of the field's registers; a poll
    of a block of registers that holds them, at the offset of a source field of the same type,
    length and word order, yields that value: integers within the type (and within 2^53, where
    [float64] is exact), every [float32] and [float64], and strings without NUL that fit in a field
    whose word order is not "little": reading applies the word order to strings and writing does not,
    so a string written to a "little" field is read back with its registers reversed
    ([string_word_order] of Modbus). *)
Theorem sink_then_source n inp f v pre post g id now : Area (cfg n) = "register" -> connected n = Some (Ok tt) ->
  Field_ (cfg n) = Some f -> valueOf (cfg n) inp = v -> fits f v ->
  Type_ g = Type_ f -> Length g = Length f -> WordOrder g = WordOrder f -> zlen pre = 2 * Register g ->
  exists words, EncodeField f v = Ok words /\
    (forall send, let q := WriteMultipleRegisters (Address (cfg n)) (u16 (zlen words)) (wire words) in
      Process n (Ok tt) send inp = (n, Some q, _ ← send q; Ok [MkPortDatagram "out" inp])) /\
    (zlen (pre ++ wire words ++ post) < 2 ^ 63 -> forall grp, modbussource.Fields grp = [g] ->
     modbussource.GArea grp = "holdingRegisters" ->
     exists d, modbussource.pollOnce id now (fun _ => Ok (pre ++ wire words ++ post)) grp = Ok d /\
       Value (payload d) = AMap [(Name g, v)]).
Proof.
  intros Ha Hc Hf Hv Hfit Ht Hl Hw Hp. destruct (EncodeField_fits f v Hfit) as [words He]. exists words. split; [done|]. split.
  - intros send. cbv zeta. unfold Process, connect, requestFor. rewrite Hc, Hv, decide_False, Hf by (rewrite Ha; done).
    by rewrite He.
  - intros Hlen grp Hg Hga.
    assert (fits g v) as Hfit' by (unfold fits in *; by rewrite Ht, Hl, Hw).
    assert (EncodeField g v = Ok words) as He'.
    { rewrite <- He. unfold EncodeField, registerCount, reorder. by rewrite Ht, Hl, Hw. }
    unfold modbussource.pollOnce. cbn [mbind res_bind]. rewrite decide_False, decide_True by (rewrite Hga; naive_solver).
    unfold modbussource.decodeRegisterValue. rewrite Hg, (registers_roundtrip g v words pre post) by done.
    eexists. split; [reflexivity|]. done.
Qed.

(** Once the first attempt to connect has failed, every later datagram fails with that error
    and nothing is sent, whatever [Open] would return by then. *)
Lemma sink_never_reconnects n e open_ send inp : connected n = Some (Err e) ->
  Process n open_ send inp = (n, None, Err e).
Proof. intros H. unfold Process, connect. by rewrite H. Qed.

(** A 32-bit counter, low word first, written at register 10 and polled from register 8 on. *)
Definition example_field (reg : Z) : Field := MkField "count" reg "uint32" 0 0 "little".
Definition example_sink : node :=
  MkNode (MkConfig (modbusshared.MkConfig "tcp" (MkTCPConfig "h" 502) (MkRTUConfig "" 0 0 "" 0) 1 0) "register" 10
    (Some (example_field 0)) "v") (Some (Ok tt)).
Definition example_dgm : dgram :=
  datagram.New "d" 0 (MkSource "n" "" "" "" "") (MkPayload (AMap [("v", AFloat (of_Z 70000))]) None).
Lemma sink_then_source_witness :
  Process example_sink (Ok tt) (fun _ => Ok tt) example_dgm =
      (example_sink, Some (WriteMultipleRegisters 10 2 [17; 112; 0; 1]), Ok [MkPortDatagram "out" example_dgm]) /\
  exists d, modbussource.pollOnce "i" 5 (fun _ => Ok ([0; 0; 0; 0] ++ [17; 112; 0; 1] ++ []))
    (modbussource.MkPollingGroup "g" "holdingRegisters" 8 4 1000 [example_field 2]) = Ok d /\
    Value (payload d) = AMap [("count", AFloat (of_Z 70000))].
Proof.
  destruct (sink_then_source example_sink example_dgm (example_field 0) (AFloat (of_Z 70000)) [0; 0; 0; 0] [] (example_field 2)
    "i" 5 eq_refl eq_refl eq_refl eq_refl) as (words & H0 & H1 & H2);
    [left; exists 70000; split; [reflexivity|]; right; right; left; split; [reflexivity|lia]|reflexivity..|].
  assert (words = [4464; 1]) as -> by (vm_compute in H0; by injection H0 as <-).
  split; [exact (H1 (fun _ => Ok tt))|]. apply H2; reflexivity.
Defined.
End modbussink.
