(* ===== verification/CtxStore.v ===== *)
(** * The context store ([engine/ctxstore], [engine/nodes/nodeutil])

    The keyed store behind node, flow and global state, and the bindings through which
    expressions reach it.  A stored object is shared: [Get] returns
    a reference, and the state node writes paths in place.  Objects therefore live in a heap
    and a value is a scalar or a reference into it. *)

From stdpp Require Import sorting.
From S2P Require Import Prelude GoStd Float Datagram Execution Value.
Import gostd float datagram execution value.

Module ctxstore.

(** ** Shared values *)

Inductive hval :=
| HNil
| HScalar (v : any)           (* a value without maps or [[]any] *)
| HMap (l : nat)
| HArr (l : nat).
Inductive obj := OMap (m : list (string * hval)) | OArr (l : list hval).
Record heap := MkHeap { objs : gmap nat obj; fresh : nat }.
Definition emptyHeap : heap := MkHeap ∅ 0.
Definition alloc (h : heap) (o : obj) : nat * heap := (fresh h, MkHeap (<[fresh h := o]> (objs h)) (S (fresh h))).
Definition write (h : heap) (l : nat) (o : obj) : heap := MkHeap (<[l := o]> (objs h)) (fresh h).

(** [deepCopy]: objects of its own for a value. *)
Fixpoint deepCopy (v : any) (h : heap) : hval * heap :=
  match v with
  | ANil => (HNil, h)
  | AMap m =>
      let '(fields, h) :=
        (fix go (m : list (string * any)) (h : heap) : list (string * hval) * heap :=
           match m with
           | [] => ([], h)
           | (k, x) :: m' => let '(hv, h) := deepCopy x h in let '(r, h) := go m' h in ((k, hv) :: r, h)
           end) m h in
      let '(l, h) := alloc h (OMap fields) in (HMap l, h)
  | AArr l =>
      let '(items, h) :=
        (fix go (l : list any) (h : heap) : list hval * heap :=
           match l with
           | [] => ([], h)
           | x :: l' => let '(hv, h) := deepCopy x h in let '(r, h) := go l' h in (hv :: r, h)
           end) l h in
      let '(l, h) := alloc h (OArr items) in (HArr l, h)
  | v => (HScalar v, h)
  end.

(** The value a reference stands for; objects nested deeper than [fuel] read as nil. *)
Fixpoint read (fuel : nat) (h : heap) (v : hval) : any :=
  match fuel with
  | O => ANil
  | S fuel =>
      match v with
      | HNil => ANil
      | HScalar v => v
      | HMap l => match objs h !! l with Some (OMap m) => AMap (map (fun kv => (kv.1, read fuel h kv.2)) m) | _ => ANil end
      | HArr l => match objs h !! l with Some (OArr a) => AArr (map (read fuel h) a) | _ => ANil end
      end
  end.

Fixpoint hget (m : list (string * hval)) (k : string) : option hval :=
  match m with
  | [] => None
  | (k', v) :: m' => if decide (k' = k) then Some v else hget m' k
  end.
Fixpoint hset (m : list (string * hval)) (k : string) (v : hval) : list (string * hval) :=
  match m with
  | [] => [(k, v)]
  | (k', v') :: m' => if decide (k' = k) then (k, v) :: m' else (k', v') :: hset m' k v
  end.
Definition fields (h : heap) (l : nat) : list (string * hval) :=
  match objs h !! l with Some (OMap m) => m | _ => [] end.

(** [applyPath]: set a value at a path, in place. *)
Fixpoint setPath (h : heap) (l : nat) (keys : list string) (v : hval) : heap :=
  match keys with
  | [] => h
  | [k] => write h l (OMap (hset (fields h l) k v))
  | k :: ks =>
      match hget (fields h l) k with
      | Some (HMap l') => setPath h l' ks v
      | _ => let '(l', h) := alloc h (OMap []) in
             setPath (write h l (OMap (hset (fields h l) k (HMap l')))) l' ks v
      end
  end.
Definition applyPath (h : heap) (root : hval) (path : string) (v : hval) : hval * heap :=
  if decide (path = "") then (v, h)
  else
    match root with
    | HMap l => (root, setPath h l (splitDots path) v)
    | _ => let '(l, h) := alloc h (OMap []) in (HMap l, setPath h l (splitDots path) v)
    end.

(** ** The store *)

Definition ScopeNode : string := "node".
Definition ScopeFlow : string := "flow".
Definition ScopeGlobal : string := "global".
Record Key := MkKey { Scope : string; KFlowID : string; KNodeID : string; Name : string }.
#[global] Instance Key_eq_dec : EqDecision Key.
Proof. solve_decision. Defined.
#[global] Instance Key_countable : Countable Key.
Proof.
  by refine (inj_countable' (fun k => (Scope k, KFlowID k, KNodeID k, Name k)) (fun p => MkKey p.1.1.1 p.1.1.2 p.1.2 p.2) _); intros [].
Defined.

Definition validate (k : Key) : res string unit :=
  _ ← guard_err (bool_decide (Name k <> "")) "key name is required";
  if decide (Scope k = ScopeGlobal) then Ok tt
  else if decide (Scope k = ScopeFlow) then guard_err (bool_decide (KFlowID k <> "")) "flow scope requires FlowID"
  else if decide (Scope k = ScopeNode) then
    guard_err (bool_decide (KFlowID k <> "") && bool_decide (KNodeID k <> "")) "node scope requires FlowID and NodeID"
  else Err "unknown scope".

Definition ErrNotFound : string := "ctxstore: key not found".
Abbreviation MemoryStore := (gmap Key hval).
Definition NewMemoryStore : MemoryStore := ∅.
Definition Get (s : MemoryStore) (k : Key) : res string (option hval) := _ ← validate k; Ok (s !! k).
Definition Set_ (s : MemoryStore) (k : Key) (v : hval) : res string MemoryStore := _ ← validate k; Ok (<[k := v]> s).
Definition Delete (s : MemoryStore) (k : Key) : res string MemoryStore :=
  _ ← validate k; match s !! k with None => Err ErrNotFound | Some _ => Ok (delete k s) end.
Definition storedFloat (v : hval) : option float64 := match v with HScalar v => toFloat v | _ => None end.
Definition Increment (s : MemoryStore) (k : Key) (delta : float64) : res string (MemoryStore * float64) :=
  _ ← validate k;
  current ← (match s !! k with
             | None => Ok fzero
             | Some v => match storedFloat v with Some f => Ok f | None => Err "value is not numeric" end
             end);
  let next := fadd current delta in
  Ok (<[k := HScalar (AFloat next)]> s, next).
Definition Keys (s : MemoryStore) (scope flowID nodeID : string) : list string :=
  sortStrings (map Name (filter (fun k => Scope k = scope /\ KFlowID k = flowID /\ KNodeID k = nodeID) (elements (dom s)))).

(** ** The bindings of expressions ([ExprData]) *)

Definition FlowGet (s : MemoryStore) (flowID key : string) : option hval :=
  match Get s (MkKey ScopeFlow flowID "" key) with Ok v => v | _ => None end.
Definition FlowSet (s : MemoryStore) (flowID key : string) (v : hval) : res string MemoryStore :=
  Set_ s (MkKey ScopeFlow flowID "" key) v.
Definition GlobalGet (s : MemoryStore) (key : string) : option hval :=
  match Get s (MkKey ScopeGlobal "" "" key) with Ok v => v | _ => None end.
Definition GlobalSet (s : MemoryStore) (key : string) (v : hval) : res string MemoryStore :=
  Set_ s (MkKey ScopeGlobal "" "" key) v.
(** [Env]: the process environment overlaid with the resolved one. *)
Definition exprEnv (process : gmap string string) (resolved : option (gmap string string)) : gmap string string :=
  match resolved with Some r => r ∪ process | None => process end.

(** ** Laws *)

Lemma Set_Get s k v s' : Set_ s k v = Ok s' -> Get s' k = Ok (Some v).
Proof.
  unfold Set_, Get. intros H. apply res_bind_Ok in H as (u & -> & [= <-]). cbn. by rewrite lookup_insert_eq.
Qed.
Lemma Set_lookup s k v s' : Set_ s k v = Ok s' -> s' = <[k := v]> s.
Proof. unfold Set_. intros H. by apply res_bind_Ok in H as (u & _ & [= <-]). Qed.
Lemma Delete_lookup s k s' : Delete s k = Ok s' -> s' = delete k s.
Proof. unfold Delete. intros H. apply res_bind_Ok in H as (u & _ & H). destruct (s !! k); [by injection H|done]. Qed.
Lemma Increment_lookup s k d s' f : Increment s k d = Ok (s', f) -> s' = <[k := HScalar (AFloat f)]> s.
Proof.
  unfold Increment. intros H. apply res_bind_Ok in H as (u & _ & H). apply res_bind_Ok in H as (c & _ & [= <- <-]). done.
Qed.
(** [Keys] lists the names under a scope, sorted, each once. *)
Lemma Keys_spec s scope flowID nodeID name :
  name ∈ Keys s scope flowID nodeID <-> is_Some (s !! MkKey scope flowID nodeID name).
Proof.
  unfold Keys, sortStrings. rewrite sortBy_permutes. rewrite <- elem_of_dom. split.
  - intros H. apply list_elem_of_fmap in H as (k & -> & H). apply list_elem_of_filter in H as [(<- & <- & <-) H].
    apply elem_of_elements in H. by destruct k.
  - intros H. apply list_elem_of_fmap. exists (MkKey scope flowID nodeID name). split; [done|].
    apply list_elem_of_filter. split; [done|]. by apply elem_of_elements.
Qed.

End ctxstore.
