(* ===== verification/State.v ===== *)
(** * The state node ([engine/nodes/state])

    Reads and writes the context store and the payload, over the heap both share.  The value
    expressions are a parameter. *)

From S2P Require Import Prelude GoStd Float Datagram Execution Value CtxStore.
Import gostd float datagram execution value.

Module state.
Import ctxstore.

Section node.
(** A JSON literal or expression of the configuration, and its value on a datagram, the
    current payload and the store: an object of its own. *)
Context {raw : Type} (ResolveValue : raw -> dgram -> any -> MemoryStore -> res string any).
(** How deep the objects an expression sees may nest. *)
Context (depth : nat).

Record Operation := MkOperation { Op : string; OKey : string; OValue : option raw; As : string }.
Record Config := MkConfig { CScope : string; Operations : list Operation }.
Definition validOps : list string := ["get"; "set"; "delete"; "increment"].
Definition New (c : Config) : res string Config :=
  _ ← guard_err (bool_decide (CScope c ∈ ["node"; "flow"; "global"])) "scope must be node, flow or global";
  _ ← guard_err (bool_decide (Operations c <> [])) "operations is required";
  _ ← res_mapM (fun op =>
        _ ← guard_err (bool_decide (Op op ∈ validOps)) "unknown op";
        guard_err (bool_decide (OKey op <> "")) "key is required") (Operations c);
  Ok c.

(** The store and the heap, which every node of the runtime shares. *)
Record world := MkWorld { store : MemoryStore; hp : heap }.

Definition resolveValue (w : world) (r : option raw) (inp : dgram) (payload : hval) : res string (hval * heap) :=
  match r with
  | None => Err "unexpected end of JSON input"
  | Some r => v ← ResolveValue r inp (read depth (hp w) payload) (store w); Ok (deepCopy v (hp w))
  end.
Definition delta (w : world) (op : Operation) (inp : dgram) (payload : hval) : res string (float64 * heap) :=
  match OValue op with
  | None => Ok (of_Z 1, hp w)
  | Some _ =>
      '(v, h) ← resolveValue w (OValue op) inp payload;
      match storedFloat v with Some f => Ok (f, h) | None => Err "increment delta did not evaluate to a number" end
  end.
Definition put (h : heap) (op : Operation) (payload v : hval) : hval * heap :=
  if decide (As op = "") then (payload, h) else applyPath h payload (As op) v.
Definition applyOp (w : world) (k : Key) (op : Operation) (payload : hval) (inp : dgram) : res string (hval * world) :=
  if decide (Op op = "get") then
    v ← Get (store w) k;
    let '(p, h) := put (hp w) op payload (default HNil v) in Ok (p, MkWorld (store w) h)
  else if decide (Op op = "set") then
    '(v, h) ← resolveValue w (OValue op) inp payload;
    s ← Set_ (store w) k v; Ok (payload, MkWorld s h)
  else if decide (Op op = "delete") then
    match Delete (store w) k with
    | Ok s => Ok (payload, MkWorld s (hp w))
    | Err e => if decide (e = ErrNotFound) then Ok (payload, w) else Err e
    | Panic => Panic
    end
  else if decide (Op op = "increment") then
    '(d, h) ← delta w op inp payload;
    '(s, next) ← Increment (store w) k d;
    let '(p, h) := put h op payload (HScalar (AFloat next)) in Ok (p, MkWorld s h)
  else Err "unhandled op".

(** The loop over the operations: the store keeps what was done before an error. *)
Fixpoint applyOps (w : world) (scope flowID nodeID : string) (ops : list Operation) (payload : hval) (inp : dgram)
  : world * res string hval :=
  match ops with
  | [] => (w, Ok payload)
  | op :: l =>
      match applyOp w (MkKey scope flowID nodeID (OKey op)) op payload inp with
      | Ok (p, w') => applyOps w' scope flowID nodeID l p inp
      | Err e => (w, Err e)
      | Panic => (w, Panic)
      end
  end.
(** [Process]: the payload that leaves is a reference too. *)
Definition Process (c : Config) (w : world) (flowID nodeID : string) (inp : dgram) : world * res string hval :=
  let '(p, h) := deepCopy (Value (payload inp)) (hp w) in
  applyOps (MkWorld (store w) h) (CScope c) flowID nodeID (Operations c) p inp.

(** ** Who sees what a state node stores *)

Lemma applyOp_local w k op p inp p' w' : applyOp w k op p inp = Ok (p', w') -> forall k', k' <> k -> store w' !! k' = store w !! k'.
Proof.
  intros H k' Hk. unfold applyOp in H. case_decide; [|case_decide; [|case_decide; [|case_decide; [|done]]]].
  - apply res_bind_Ok in H as (v & _ & H). destruct (put _ _ _ _). by injection H as <- <-.
  - apply res_bind_Ok in H as ([v h] & _ & H). apply res_bind_Ok in H as (s & Hs & H). injection H as <- <-.
    apply Set_lookup in Hs as ->. cbn. by rewrite lookup_insert_ne.
  - destruct (Delete (store w) k) as [s|e|] eqn:Hs; [|case_decide; [by injection H as <- <-|done]|done].
    injection H as <- <-. apply Delete_lookup in Hs as ->. cbn. by rewrite lookup_delete_ne.
  - apply res_bind_Ok in H as ([d h] & _ & H). apply res_bind_Ok in H as ([s f] & Hs & H). destruct (put _ _ _ _).
    injection H as <- <-. apply Increment_lookup in Hs as ->. cbn. by rewrite lookup_insert_ne.
Qed.
Lemma applyOps_local scope flowID nodeID inp ops : forall w p k, KNodeID k <> nodeID \/ KFlowID k <> flowID \/ Scope k <> scope ->
  store (applyOps w scope flowID nodeID ops p inp).1 !! k = store w !! k.
Proof.
  induction ops as [|op ops IH]; intros w p k Hk; [done|]. cbn.
  destruct (applyOp w _ op p inp) as [[p' w']| |] eqn:E; [|done..]. rewrite IH by done.
  eapply applyOp_local; [exact E|]. intros ->. cbn in Hk. naive_solver.
Qed.

(** Every scope of the state node is private to the node.  Whatever its scope, a state
    node with id [nodeID] in flow [flowID] reads and writes only keys that carry both ids: what
    every other node of the same flow stores is unchanged, and so are the flow and global
    variables that expressions see, for all names.  So state of scope "flow" or "global" is
    not shared with the rest of the flow, nor with the bindings of expressions. *)
Theorem state_scope_is_per_node c w flowID nodeID inp : nodeID <> "" ->
  let w' := (Process c w flowID nodeID inp).1 in
  (forall k, KNodeID k <> nodeID -> store w' !! k = store w !! k) /\
  (forall f name, FlowGet (store w') f name = FlowGet (store w) f name) /\
  (forall name, GlobalGet (store w') name = GlobalGet (store w) name).
Proof.
  intros Hn. cbv zeta. unfold Process. destruct (deepCopy _ (hp w)) as [p h].
  assert (forall k, KNodeID k <> nodeID -> store (applyOps (MkWorld (store w) h) (CScope c) flowID nodeID (Operations c) p inp).1 !! k
    = store w !! k) as H by (intros k Hk; rewrite applyOps_local; auto).
  split_and!; [exact H|intros f name|intros name]; unfold FlowGet, GlobalGet, Get; by rewrite H.
Qed.

(** ** Aliasing *)

Lemma hget_hset m k v : hget (hset m k v) k = Some v.
Proof. induction m as [|[k' v'] m IH]; cbn; [by rewrite decide_True|]. case_decide as E; cbn; [by rewrite decide_True|by rewrite decide_False]. Qed.
Lemma splitDots_plain s : (forall t u, s <> t +:+ String dot u) -> splitDots s = [s].
Proof.
  induction s as [|c s IH]; intros H; cbn; [done|]. case_decide as E; [subst c; exfalso; by apply (H "" s)|].
  rewrite IH; [done|]. intros t u ->. by apply (H (String c t) u).
Qed.
Lemma splitDots_app s t : (forall t u, s <> t +:+ String dot u) -> splitDots (s +:+ String dot t) = s :: splitDots t.
Proof.
  induction s as [|c s IH]; intros H; [done|].
  change (splitDots (String c (s +:+ String dot t)) = String c s :: splitDots t). cbn [splitDots].
  case_decide as E; [subst c; exfalso; by apply (H "" s)|]. rewrite IH; [done|]. intros t' u ->. by apply (H (String c t') u).
Qed.

(** [deepCopy] only adds objects. *)
Definition extends (h h' : heap) : Prop :=
  (fresh h <= fresh h')%nat /\ forall l, (l < fresh h)%nat -> objs h' !! l = objs h !! l.
Lemma extends_refl h : extends h h.
Proof. by split. Qed.
Lemma extends_trans h1 h2 h3 : extends h1 h2 -> extends h2 h3 -> extends h1 h3.
Proof. intros [H1 K1] [H2 K2]. split; [lia|]. intros l Hl. rewrite K2, K1 by lia. done. Qed.
Lemma extends_alloc h o : extends h (alloc h o).2.
Proof. split; cbn; [lia|]. intros l Hl. rewrite lookup_insert_ne by lia. done. Qed.
Lemma deepCopy_extends : forall v h, extends h (deepCopy v h).2.
Proof.
  fix IH 1. intros v h. destruct v as [|b|f|z|s|l|l|l|ms|ml|m|d]; try apply extends_refl; cbn.
  - match goal with |- extends _ (let '(_, _) := ?F l h in _).2 => set (go := F) end.
    assert (forall l h, extends h (go l h).2) as Hgo.
    { clear -IH. induction l as [|x l IHl]; intros h; [apply extends_refl|]. cbn.
      pose proof (IH x h) as H1. destruct (deepCopy x h) as [hv h1]. pose proof (IHl h1) as H2. cbn in H1.
      destruct (go l h1) as [r h2]. by eapply extends_trans. }
    specialize (Hgo l h). destruct (go l h) as [items h']. eapply extends_trans; [exact Hgo|apply extends_alloc].
  - match goal with |- extends _ (let '(_, _) := ?F m h in _).2 => set (go := F) end.
    assert (forall l h, extends h (go l h).2) as Hgo.
    { clear -IH. induction l as [|[k x] l IHl]; intros h; [apply extends_refl|]. cbn.
      pose proof (IH x h) as H1. destruct (deepCopy x h) as [hv h1]. pose proof (IHl h1) as H2. cbn in H1.
      destruct (go l h1) as [r h2]. by eapply extends_trans. }
    specialize (Hgo m h). destruct (go m h) as [items h']. eapply extends_trans; [exact Hgo|apply extends_alloc].
Qed.
(** The fields of a copied map. *)
Definition copyFields : list (string * any) -> heap -> list (string * hval) * heap :=
  fix go m h :=
    match m with
    | [] => ([], h)
    | (k, x) :: m' => let '(hv, h) := deepCopy x h in let '(r, h) := go m' h in ((k, hv) :: r, h)
    end.
Lemma copyFields_extends m : forall h, extends h (copyFields m h).2.
Proof.
  induction m as [|[k x] m IH]; intros h; [apply extends_refl|]. cbn. pose proof (deepCopy_extends x h) as H1.
  destruct (deepCopy x h) as [hv h1]. pose proof (IH h1) as H2. destruct (copyFields m h1) as [r h2]. by eapply extends_trans.
Qed.
Lemma deepCopy_map m h : exists p fs h', deepCopy (AMap m) h = (HMap p, h') /\ extends h h' /\
  (fresh h <= p < fresh h')%nat /\ objs h' !! p = Some (OMap fs).
Proof.
  change (deepCopy (AMap m) h) with (let '(fs, h) := copyFields m h in let '(l, h) := alloc h (OMap fs) in (HMap l, h)).
  pose proof (copyFields_extends m h) as He. destruct (copyFields m h) as [fs h1]. cbn in He.
  exists (fresh h1), fs, (alloc h1 (OMap fs)).2. split; [done|].
  split; [eapply extends_trans; [exact He|apply extends_alloc]|]. destruct He as [Hf _]. cbn. split; [lia|apply lookup_insert_eq].
Qed.

(** Reading state into the payload hands out the stored object.  With the operations
    "get [k] as [x]" and then "increment [c] as [x.y]", on a node whose state [k] is an object
    and a payload that is an object, the increment's result is written into the object that is
    still stored under [k]: the value of [k] changes although no operation wrote it. *)
Theorem state_get_aliases scope flowID nodeID k c x y w l m inp fieldsIn f :
  let kk := MkKey scope flowID nodeID k in
  let kc := MkKey scope flowID nodeID c in
  let ops := [MkOperation "get" k None x; MkOperation "increment" c None (x +:+ String dot y)] in
  (forall t u, x <> t +:+ String dot u) -> (forall t u, y <> t +:+ String dot u) -> x <> "" ->
  k <> c -> store w !! kk = Some (HMap l) -> objs (hp w) !! l = Some (OMap m) -> (l < fresh (hp w))%nat ->
  validate kk = Ok tt -> validate kc = Ok tt ->
  (store w !! kc = None /\ f = fadd fzero (of_Z 1) \/ exists f0, store w !! kc = Some (HScalar (AFloat f0)) /\ f = fadd f0 (of_Z 1)) ->
  Value (payload inp) = AMap fieldsIn ->
  let w' := (Process (MkConfig scope ops) w flowID nodeID inp).1 in
  store w' !! kk = Some (HMap l) /\ objs (hp w') !! l = Some (OMap (hset m y (HScalar (AFloat f)))).
Proof.
  intros kk kc ops Hx Hy Hx0 Hkc Hk Hl Hfr Hvk Hvc Hf Hin. cbv zeta. unfold Process. rewrite Hin.
  destruct (deepCopy_map fieldsIn (hp w)) as (p & fs & h1 & -> & [_ Hext] & Hp & Hfs).
  unfold ops. cbn [Operations CScope applyOps OKey].
  assert (forall v h, applyPath h (HMap p) x v = (HMap p, write h p (OMap (hset (fields h p) x v)))) as Hpath.
  { intros v h. unfold applyPath. rewrite decide_False by done. by rewrite splitDots_plain. }
  fold kk kc.
  assert (applyOp (MkWorld (store w) h1) kk (MkOperation "get" k None x) (HMap p) inp
    = Ok (HMap p, MkWorld (store w) (write h1 p (OMap (hset fs x (HMap l)))))) as ->.
  { unfold applyOp, Get, put. cbn [Op As]. rewrite decide_True by done. cbn [store hp]. rewrite Hvk, Hk. cbn [mbind res_bind default from_option id].
    rewrite decide_False, Hpath by done. unfold fields. by rewrite Hfs. }
  cbv iota. set (h2 := write h1 p (OMap (hset fs x (HMap l)))).
  assert (Increment (store w) kc (of_Z 1) = Ok (<[kc := HScalar (AFloat f)]> (store w), f)) as Hinc.
  { unfold Increment. rewrite Hvc. cbn [mbind res_bind].
    destruct Hf as [[-> ->]|(f0 & -> & ->)]; cbn [mbind res_bind storedFloat toFloat]; done. }
  assert (fields h2 p = hset fs x (HMap l)) as Hp2 by (unfold fields, h2, write; cbn; by rewrite lookup_insert_eq).
  assert (fields h2 l = m) as Hl2.
  { unfold fields, h2, write. cbn. rewrite lookup_insert_ne, Hext, Hl by lia. done. }
  assert (applyOp (MkWorld (store w) h2) kc (MkOperation "increment" c None (x +:+ String dot y)) (HMap p) inp
    = Ok (HMap p, MkWorld (<[kc := HScalar (AFloat f)]> (store w)) (write h2 l (OMap (hset m y (HScalar (AFloat f))))))) as ->.
  { unfold applyOp, delta, put. cbn [Op As OValue]. rewrite decide_False, decide_False, decide_False, decide_True by done.
    cbn [mbind res_bind store hp]. rewrite Hinc. cbn [mbind res_bind].
    rewrite decide_False by (by destruct x). unfold applyPath. rewrite decide_False by (by destruct x).
    rewrite splitDots_app, (splitDots_plain y) by done. cbn [setPath]. rewrite Hp2, hget_hset. by rewrite Hl2. }
  cbn. split; [|apply lookup_insert_eq]. rewrite lookup_insert_ne; [done|]. unfold kk, kc. congruence.
Qed.


End node.

(** ** Witnesses *)

Module examples.
Definition resolve (r : any) (_ : dgram) (_ : any) (_ : MemoryStore) : res string any := Ok r.
Definition dg (v : any) : dgram := datagram.New "d" 0 (MkSource "n" "" "" "" "") (MkPayload v None).
Definition setter : Config (raw := any) := MkConfig "flow" [MkOperation "set" "x" (Some (AInt 1)) ""].
Definition w0 : world := MkWorld ∅ emptyHeap.
Lemma state_scope_is_per_node_witness :
  let w' := (Process resolve 9 setter w0 "f" "node1" (dg ANil)).1 in
  store w' !! MkKey "flow" "f" "node1" "x" = Some (HScalar (AInt 1)) /\
  store w' !! MkKey "flow" "f" "node2" "x" = None /\ FlowGet (store w') "f" "x" = None.
Proof.
  destruct (state_scope_is_per_node resolve 9 setter w0 "f" "node1" (dg ANil)) as (H1 & H2 & _); [discriminate|].
  split; [vm_compute; reflexivity|]. split; [exact (H1 (MkKey "flow" "f" "node2" "x") ltac:(discriminate))|exact (H2 "f" "x")].
Defined.

(** The node keeps an object under "m" and a counter under "c". *)
Definition w1 : world :=
  MkWorld {[MkKey "node" "f" "n" "m" := HMap 0]} (MkHeap {[0 := OMap [("a", HScalar (AInt 7))]]} 1).
Lemma state_get_aliases_witness :
  let w' := (Process resolve 9 (MkConfig "node" [MkOperation "get" "m" None "x"; MkOperation "increment" "c" None "x.y"])
    w1 "f" "n" (dg (AMap []))).1 in
  store w' !! MkKey "node" "f" "n" "m" = Some (HMap 0) /\
  objs (hp w') !! 0 = Some (OMap [("a", HScalar (AInt 7)); ("y", HScalar (AFloat (fadd fzero (of_Z 1))))]).
Proof.
  apply (state_get_aliases resolve 9 "node" "f" "n" "m" "c" "x" "y" w1 0 [("a", HScalar (AInt 7))] (dg (AMap [])) []
    (fadd fzero (of_Z 1))).
  - intros [|a [|b t]] u; discriminate.
  - intros [|a [|b t]] u; discriminate.
  - discriminate.
  - discriminate.
  - vm_compute. reflexivity.
  - vm_compute. reflexivity.
  - cbn. lia.
  - reflexivity.
  - reflexivity.
  - left. split; [vm_compute; reflexivity|reflexivity].
  - reflexivity.
Defined.
End examples.
End state.
