(* ===== verification/Webhook.v ===== *)
(** * Webhooks ([engine/webhook])

    The registry of routes, the table that pairs a waiting request with the response a flow
    produces for it.  Requests, replies, timeouts and cancellations
    interleave: a run is a sequence of atomic operations. *)

From S2P Require Import Prelude Bytes GoStd Datagram Execution Value.
Import gostd datagram execution value.
Local Open Scope Z_scope.

Module webhook.

(** ** Routes *)

(** [strings.ToUpper] on ASCII. *)
Definition upper (a : Ascii.ascii) : Ascii.ascii :=
  let n := Ascii.nat_of_ascii a in
  if (97 <=? n)%nat && (n <=? 122)%nat then Ascii.ascii_of_nat (n - 32) else a.
Fixpoint ToUpper (s : string) : string :=
  match s with EmptyString => EmptyString | String a s' => String (upper a) (ToUpper s') end.

Section registry.
Context {handler : Type}.

Abbreviation routes := (gmap (string * string) handler).
Definition routeKey (method path : string) : string * string := (ToUpper method, path).
(** [Register], and the cancel function it returns. *)
Definition Register (r : routes) (method path : string) (h : handler) : routes := <[routeKey method path := h]> r.
Definition Cancel (r : routes) (method path : string) : routes := delete (routeKey method path) r.
(** [ServeHTTP]: the handler called, or not found. *)
Definition ServeHTTP (r : routes) (method path : string) : option handler := r !! (method, path).

Lemma Register_serves r method path h : ServeHTTP (Register r method path h) (ToUpper method) path = Some h.
Proof. apply lookup_insert_eq. Qed.
Lemma Register_other r method path h method' path' : (method', path') <> routeKey method path ->
  ServeHTTP (Register r method path h) method' path' = ServeHTTP r method' path'.
Proof. intros H. unfold ServeHTTP, Register. by rewrite lookup_insert_ne by congruence. Qed.

(** Cancelling a replaced registration takes the new handler down.  When a second node
    registers the method and path of a first one and the first one's cancel function runs
    afterwards, the route is gone, although the second node is registered. *)
Theorem stale_cancel_drops_route r method path h1 h2 :
  ServeHTTP (Register (Register r method path h1) method path h2) (ToUpper method) path = Some h2 /\
  ServeHTTP (Cancel (Register (Register r method path h1) method path h2) method path) (ToUpper method) path = None.
Proof. split; [apply lookup_insert_eq|apply lookup_delete_eq]. Qed.
End registry.

(** ** Pending responses *)

Record Response := MkResponse { Status : Z; Headers : gmap string string; Body : bytes }.

(** [m]: the channel of each awaited id; [chans]: what a channel of capacity one holds.
    History: the id each channel was made for, the replies that found their id awaited, and
    what each request received. *)
Record world := MkWorld {
  m : gmap string nat; chans : gmap nat (option Response); owner : list string;
  accepted : list (nat * (string * Response)); received : gmap nat Response
}.
Definition NewPendingResponses : world := MkWorld ∅ ∅ [] [] ∅.

Definition Await (w : world) (id : string) : world * nat :=
  let c := length (owner w) in
  (MkWorld (<[id := c]> (m w)) (<[c := None]> (chans w)) (owner w ++ [id]) (accepted w) (received w), c).
Definition Reply (w : world) (id : string) (resp : Response) : world * bool :=
  match m w !! id with
  | None => (w, false)
  | Some c =>
      let acc := accepted w ++ [(c, (id, resp))] in
      match chans w !! c with
      | Some None => (MkWorld (m w) (<[c := Some resp]> (chans w)) (owner w) acc (received w), true)
      | _ => (MkWorld (m w) (chans w) (owner w) acc (received w), false)
      end
  end.
(** The request that waits on [c] receives, once. *)
Definition Take (w : world) (c : nat) : world :=
  match chans w !! c, received w !! c with
  | Some (Some resp), None =>
      MkWorld (m w) (<[c := None]> (chans w)) (owner w) (accepted w) (<[c := resp]> (received w))
  | _, _ => w
  end.
(** The cancel function of [Await]. *)
Definition CancelAwait (w : world) (id : string) : world :=
  MkWorld (delete id (m w)) (chans w) (owner w) (accepted w) (received w).

Inductive event := EAwait (id : string) | EReply (id : string) (resp : Response) | ETake (c : nat) | ECancel (id : string).
Definition step (w : world) (e : event) : world :=
  match e with
  | EAwait id => (Await w id).1
  | EReply id resp => (Reply w id resp).1
  | ETake c => Take w c
  | ECancel id => CancelAwait w id
  end.
Definition run (es : list event) : world := fold_left step es NewPendingResponses.

(** The first reply a channel was offered. *)
Definition first_reply (w : world) (c : nat) : option (string * Response) :=
  head (omap (fun x => if decide (x.1 = c) then Some x.2 else None) (accepted w)).

#[local] Arguments first_reply : simpl never.

Record pending_inv (w : world) : Prop := MkPendingInv {
  pi_chan : forall c, (c < length (owner w))%nat -> is_Some (chans w !! c);
  pi_m : forall id c, m w !! id = Some c -> owner w !! c = Some id;
  pi_acc : forall c id r, (c, (id, r)) ∈ accepted w -> owner w !! c = Some id;
  pi_rec : forall c r, received w !! c = Some r -> snd <$> first_reply w c = Some r;
  pi_wait : forall c r, received w !! c = None -> chans w !! c = Some r -> r = snd <$> first_reply w c
}.

Lemma first_reply_snoc w w' c c' r : accepted w' = accepted w ++ [(c', r)] ->
  first_reply w' c = match first_reply w c with Some x => Some x | None => if decide (c' = c) then Some r else None end.
Proof.
  intros E. unfold first_reply. rewrite E, omap_app. cbn.
  destruct (omap _ (accepted w)) as [|x l]; cbn; [by case_decide|done].
Qed.
Lemma first_reply_none w c : (forall r, (c, r) ∈ accepted w -> False) -> first_reply w c = None.
Proof.
  unfold first_reply. induction (accepted w) as [|[c' r] l IH]; intros H; [done|]. cbn. case_decide as E; cbn in E.
  - subst c'. destruct (H r). by left.
  - apply IH. intros r' Hr. apply (H r'). by right.
Qed.

Lemma pending_step_inv w e : pending_inv w -> pending_inv (step w e).
Proof.
  intros [Hc Hm Ha Hr Hw]. destruct e as [id|id resp|c|id]; cbn.
  - assert (first_reply w (length (owner w)) = None) as Hn.
    { apply first_reply_none. intros [i r] Hin. apply Ha, lookup_lt_Some in Hin. lia. }
    split; cbn.
    + intros c Hlt. rewrite length_app in Hlt. cbn in Hlt. destruct (decide (c = length (owner w))) as [-> |].
      * rewrite lookup_insert_eq. eauto.
      * rewrite lookup_insert_ne by done. apply Hc. lia.
    + intros id' c H. apply lookup_insert_Some in H as [[<- <-]|[Hne H]]; [by apply list_lookup_middle|].
      apply Hm in H. by apply lookup_app_l_Some.
    + intros c i r H. apply Ha in H. by apply lookup_app_l_Some.
    + intros c r H. by apply Hr.
    + intros c r H1 H2. apply lookup_insert_Some in H2 as [[<- <-]|[Hne H2]]; [by change (None = snd <$> first_reply w (length (owner w))); rewrite Hn|]. by apply Hw.
  - unfold Reply. destruct (m w !! id) as [c0|] eqn:Em; [|done].
    assert (c0 < length (owner w))%nat as Hlt by (by eapply lookup_lt_Some, Hm).
    assert (forall w', accepted w' = accepted w ++ [(c0, (id, resp))] -> forall c r, snd <$> first_reply w c = Some r -> snd <$> first_reply w' c = Some r) as Hkeep.
    { intros w' E c r H. rewrite (first_reply_snoc w w' c c0 (id, resp) E). by destruct (first_reply w c). }
    destruct (chans w !! c0) as [[r0|]|] eqn:Ec.
    + split; cbn; [done|done| | |].
      * intros c i r H. apply elem_of_app in H as [H|H%list_elem_of_singleton]; [by eapply Ha|]. injection H as -> -> ->. by apply Hm.
      * intros c r H. eapply Hkeep; [done|]. by apply Hr.
      * intros c r H1 H2. specialize (Hw c r H1 H2). destruct (decide (c = c0)) as [-> |Hne].
        { rewrite Ec in H2. injection H2 as <-. symmetry. eapply Hkeep; [done|]. by symmetry. }
        erewrite (first_reply_snoc w _ c c0 (id, resp)) by reflexivity. rewrite decide_False by done. by destruct (first_reply w c).
    + split; cbn.
      * intros c Hl. destruct (decide (c = c0)) as [-> |]; [rewrite lookup_insert_eq; eauto|].
        rewrite lookup_insert_ne by done. by apply Hc.
      * done.
      * intros c i r H. apply elem_of_app in H as [H|H%list_elem_of_singleton]; [by eapply Ha|]. injection H as -> -> ->. by apply Hm.
      * intros c r H. eapply Hkeep; [done|]. by apply Hr.
      * intros c r H1 H2. erewrite (first_reply_snoc w _ c c0 (id, resp)) by reflexivity.
        apply lookup_insert_Some in H2 as [[<- <-]|[Hne H2]].
        { pose proof (Hw c0 None H1 Ec) as E. destruct (first_reply w c0); [done|]. by rewrite decide_True. }
        rewrite (Hw c r H1 H2), decide_False by done. by destruct (first_reply w c).
    + destruct (Hc c0 Hlt) as [? E]. congruence.
  - unfold Take. destruct (chans w !! c) as [[resp|]|] eqn:Ec; [|done..]. destruct (received w !! c) eqn:Er; [done|].
    split; cbn; [|done|done| |].
    + intros c' Hl. destruct (decide (c' = c)) as [-> |]; [rewrite lookup_insert_eq; eauto|].
      rewrite lookup_insert_ne by done. by apply Hc.
    + intros c' r H. apply lookup_insert_Some in H as [[<- <-]|[Hne H]]; [symmetry; exact (Hw c (Some resp) Er Ec)|by apply Hr].
    + intros c' r H1 H2. apply lookup_insert_None in H1 as [H1 Hne]. rewrite lookup_insert_ne in H2 by done. by apply Hw.
  - split; cbn; [done| |done|done|done]. intros id' c H. apply lookup_delete_Some in H as [_ H]. by apply Hm.
Qed.
Lemma run_inv es : pending_inv (run es).
Proof.
  unfold run. assert (pending_inv NewPendingResponses) as H.
  { split; cbn; try done; try lia; intros; try (by rewrite lookup_empty in *); try set_solver. }
  revert H. generalize NewPendingResponses. induction es as [|e es IH]; intros w H; [done|]. cbn. apply IH. by apply pending_step_inv.
Qed.

Lemma first_reply_in w c x : first_reply w c = Some x -> (c, x) ∈ accepted w.
Proof.
  unfold first_reply. induction (accepted w) as [|[c' y] l IH]; [done|]. cbn. case_decide as E; cbn in E.
  - intros [= ->]. subst c'. by left.
  - intros H. right. by apply IH.
Qed.

(** A response goes to its request, the first one only.  In every interleaving of
    requests, replies, timeouts and cancellations, what a request receives is the response of
    the first [Reply] that found the request awaited, and that [Reply] was called with the very
    id the request's [Await] registered. *)
Theorem response_matched es c resp : received (run es) !! c = Some resp ->
  exists id, first_reply (run es) c = Some (id, resp) /\ owner (run es) !! c = Some id.
Proof.
  intros H. destruct (run_inv es) as [Hc Hm Ha Hr Hw]. specialize (Hr c resp H).
  destruct (first_reply (run es) c) as [[id r]|] eqn:E; [|done]. injection Hr as ->. exists id. split; [done|].
  eapply Ha. by apply first_reply_in.
Qed.
Lemma response_matched_witness :
  let r1 := MkResponse 200 ∅ [79; 75] in
  let es := [EAwait "a"; EAwait "b"; EReply "b" r1; EReply "b" (MkResponse 500 ∅ []); ETake 1; ECancel "b"] in
  exists id, first_reply (run es) 1 = Some (id, r1) /\ owner (run es) !! 1%nat = Some id.
Proof.
  cbv zeta. apply (response_matched _ 1). vm_compute. reflexivity.
Defined.

End webhook.
