(* ===== verification/HttpIn.v ===== *)
(** * The http-in node ([engine/nodes/httpin])

    Authentication and the handler of one request: what is emitted and what the client gets.
    The HMAC is a parameter. *)

From S2P Require Import Prelude Bytes GoStd Datagram Execution Value Webhook.
Import gostd datagram execution value.
Local Open Scope Z_scope.

Module httpin.
Import webhook.

Record Config := MkConfig { Path : string; Method : string; AuthType : string; ResponseTimeoutMs : Z }.
Definition DefaultResponseTimeout : Z := 30000000000.
Definition New (c : Config) : res string Config :=
  _ ← guard_err (bool_decide (Path c <> "")) "path is required";
  _ ← guard_err (bool_decide (Method c <> "")) "method is required";
  Ok c.

(** A request: its headers as [Header.Get] reads them ("" when absent), the credentials of
    [BasicAuth], the query and the body. *)
Record Request := MkRequest {
  RMethod : string; RPath : string; header_get : string -> string; header_names : list string;
  basicAuth : option (string * string); query : list (string * string); body : option bytes
}.

(** The credential a connection holds: the fields that its JSON sets, the others empty. *)
Record credential := MkCredential {
  Username : string; Password : string; HeaderName : string; HeaderValue : string; Secret : string
}.

Section auth.
(** HMAC-SHA256 of a body under a secret, in hex. *)
Context (hmacHex : string -> bytes -> string).

Definition buildAuthChecker (authType : string) (conn : res string credential) : res string (Request -> bytes -> bool) :=
  if decide (authType = "" \/ authType = "none") then Ok (fun _ _ => true)
  else if decide (authType = "basic") then
    cred ← conn;
    Ok (fun r _ => match basicAuth r with
                   | Some (u, p) => bool_decide (u = Username cred) && bool_decide (p = Password cred)
                   | None => false
                   end)
  else if decide (authType = "header") then
    cred ← conn; Ok (fun r _ => bool_decide (header_get r (HeaderName cred) = HeaderValue cred))
  else if decide (authType = "hmac") then
    cred ← conn; Ok (fun r b => bool_decide (header_get r (HeaderName cred) = hmacHex (Secret cred) b))
  else Err "unknown auth type".

(** What the client gets. *)
Inductive outcome :=
| Answer (status : Z) (headers : gmap string string) (b : bytes)
| Gone.           (* the client went away *)
(** [http.Error] *)
Definition Error_ (status : Z) (msg : string) : outcome :=
  Answer status {["Content-Type" := "text/plain; charset=utf-8"; "X-Content-Type-Options" := "nosniff"]} (bytes_of_string msg ++ [10]).
Inductive emitResult := EmitOk | EmitRejected | EmitFailed.
(** Which case of the final select fires. *)
Inductive wait := WaitResponse (resp : Response) | WaitTimeout | WaitClientGone.

Definition requestValue (r : Request) (b : bytes) : any :=
  AMap [("method", AStr (RMethod r)); ("path", AStr (RPath r));
        ("headers", AStrs (map (fun k => (k, header_get r k)) (header_names r))); ("query", AStrs (query r));
        ("body", AStr (string_of_bytes b))].
(** [handler]: the datagram emitted, if any, and the answer. *)
Definition handler (id : string) (now : Z) (check : Request -> bytes -> bool) (emit : dgram -> emitResult) (w : wait) (r : Request)
  : option dgram * outcome :=
  match body r with
  | None => (None, Error_ 400 "reading body")
  | Some b =>
      if negb (check r b) then (None, Error_ 401 "unauthorized")
      else
        let d := datagram.New id now (MkSource "" "http-in" "" "" "http") (MkPayload (requestValue r b) None) in
        (Some d,
         match emit d with
         | EmitRejected => Error_ 429 "too many concurrent executions"
         | EmitFailed => Error_ 500 "internal error"
         | EmitOk =>
             match w with
             | WaitResponse resp => Answer (if Status resp =? 0 then 200 else Status resp) (Headers resp) (Body resp)
             | WaitTimeout => Answer 200 ∅ []
             | WaitClientGone => Gone
             end
         end)
  end.
Definition timeout (c : Config) : Z :=
  let t := millis (ResponseTimeoutMs c) in if t <=? 0 then DefaultResponseTimeout else t.

(** No request enters a flow unauthenticated.  Whatever the request, the flow's answer
    and the timing, the node emits a datagram only when the configured check passed: with
    "basic" only for the connection's user and password, with "header" only when the named
    header has the secret value, with "hmac" only when it has the signature of the body under
    the secret; otherwise the client gets 401 and nothing is emitted. *)
Theorem emits_only_authenticated authType conn check id now emit w r b : buildAuthChecker authType conn = Ok check ->
  body r = Some b ->
  let authentic cred :=
    (authType = "basic" /\ basicAuth r = Some (Username cred, Password cred)) \/
    (authType = "header" /\ header_get r (HeaderName cred) = HeaderValue cred) \/
    (authType = "hmac" /\ header_get r (HeaderName cred) = hmacHex (Secret cred) b) in
  (is_Some (handler id now check emit w r).1 <->
   authType = "" \/ authType = "none" \/ exists cred, conn = Ok cred /\ authentic cred) /\
  ((handler id now check emit w r).1 = None -> (handler id now check emit w r).2 = Error_ 401 "unauthorized").
Proof.
  intros Hb Hbody authentic.
  assert (check r b = true <-> authType = "" \/ authType = "none" \/ exists cred, conn = Ok cred /\ authentic cred) as Hc.
  { unfold authentic, buildAuthChecker in *. case_decide as E0; [injection Hb as <-; tauto|].
    case_decide as E1; [subst authType|case_decide as E2; [subst authType|case_decide as E3; [subst authType|done]]].
    all: apply res_bind_Ok in Hb as (cred & -> & [= <-]).
    - destruct (basicAuth r) as [[u p]|]; [|naive_solver]. rewrite andb_true_iff, !bool_decide_eq_true. naive_solver.
    - rewrite bool_decide_eq_true. naive_solver.
    - rewrite bool_decide_eq_true. naive_solver. }
  unfold handler. rewrite Hbody. destruct (check r b) eqn:E; cbn [negb fst snd].
  - split; [|done]. split; [intros _; by apply Hc|by intros _].
  - split; [|done]. split; [by intros [? ?]|]. intros H. by apply Hc in H.
Qed.

(** An empty header credential lets everyone in.  With auth type "header" and a
    connection whose credential sets neither header name nor value, every request whose
    headers do not include the empty name (that is, every request) is accepted. *)
Theorem empty_header_credential_open conn cred check id now emit w r b : conn = Ok cred ->
  buildAuthChecker "header" conn = Ok check -> HeaderName cred = "" -> HeaderValue cred = "" -> header_get r "" = "" ->
  body r = Some b -> is_Some (handler id now check emit w r).1.
Proof.
  intros -> Hb Hn Hv Hg Hbody. unfold buildAuthChecker in Hb.
  rewrite decide_False, decide_False, decide_True in Hb by naive_solver. injection Hb as <-.
  unfold handler. rewrite Hbody, Hn, Hv, Hg, bool_decide_true by done. done.
Qed.
End auth.

Definition example_request : Request :=
  MkRequest "POST" "/x" (fun _ => "") [] None [] (Some [1]).
Definition no_credential : credential := MkCredential "" "" "" "" "".
Lemma emits_only_authenticated_witness :
  let check := fun (r : Request) (_ : bytes) => match basicAuth r with
    | Some (u, p) => bool_decide (u = "u") && bool_decide (p = "p") | None => false end in
  (handler "i" 0 check (fun _ => EmitOk) WaitTimeout example_request).2 = Error_ 401 "unauthorized".
Proof.
  cbv zeta.
  destruct (emits_only_authenticated (fun _ _ => "") "basic" (Ok (MkCredential "u" "p" "" "" "")) _ "i" 0 (fun _ => EmitOk) WaitTimeout
    example_request [1] eq_refl eq_refl) as [_ H]. apply H. reflexivity.
Defined.
Lemma empty_header_credential_open_witness :
  is_Some (handler "i" 0 (fun r _ => bool_decide (header_get r "" = "")) (fun _ => EmitOk) WaitTimeout example_request).1.
Proof.
  exact (empty_header_credential_open (fun _ _ => "") (Ok no_credential) no_credential _ "i" 0 (fun _ => EmitOk) WaitTimeout
    example_request [1] eq_refl eq_refl eq_refl eq_refl eq_refl eq_refl).
Defined.
End httpin.
