(* ===== verification/HttpResponse.v ===== *)
(** * The http-response node ([engine/nodes/httpresponse])

    Replies through the table of pending responses.  The JSON encoder is a parameter. *)

From S2P Require Import Prelude Bytes GoStd Datagram Execution Value Webhook.
Import gostd datagram execution value.
Local Open Scope Z_scope.

Module httpresponse.
Import webhook.

Record Config := MkConfig { CStatus : Z; CHeaders : gmap string string }.
Section node.
(** [json.Marshal]. *)
Context (Marshal : any -> option bytes).

Definition responseBody (v : any) : bytes * string :=
  match v with
  | AStr s => (bytes_of_string s, "text/plain; charset=utf-8")
  | _ => match Marshal v with Some b => (b, "application/json") | None => ([], "") end
  end.
Definition Process (c : Config) (w : world) (inp : dgram) : world * bool :=
  let status := if CStatus c =? 0 then 200 else CStatus c in
  let '(b, contentType) := responseBody (Value (payload inp)) in
  let inferred : gmap string string := if decide (contentType = "") then ∅ else {["Content-Type" := contentType]} in
  Reply w (CorrelationID (header inp)) (MkResponse status (CHeaders c ∪ inferred) b).
End node.
End httpresponse.
