(* ===== verification/Auth.v ===== *)
(** * Accounts, sessions and roles of the control plane ([controlplane/internal/auth])

    The tables [users], [sessions] and [project_members], the store's operations on them, the
    middleware, and the handlers that log in, log out, create accounts and set members
    ([api/users.go], [api/projects.go], [api/httputil.go]).  A table is a map by its primary
    key; every statement may fail ([ok] false), which leaves the tables alone.  bcrypt,
    SHA-256, fresh ids, random tokens and the clock are arguments. *)

From S2P Require Import Prelude GoStd.
Import gostd.
Local Open Scope Z_scope.

Module auth.

Definition SystemRoleNone : string := "none".
Definition SystemRoleAdmin : string := "system_admin".
Definition RoleViewer : string := "viewer".
Definition RoleOperator : string := "operator".
Definition RoleEditor : string := "editor".
Definition RoleProjectAdmin : string := "project_admin".

Definition roleRank : gmap string Z :=
  <[RoleViewer := 0]> (<[RoleOperator := 1]> (<[RoleEditor := 2]> {[RoleProjectAdmin := 3]})).
(** [roleRank[r]]: a Go map gives the zero value for a key it does not have. *)
Definition rank (r : string) : Z := default 0 (roleRank !! r).
Definition AtLeast (r min : string) : bool := rank min <=? rank r.

Inductive AuthError :=
| ErrForbidden | ErrInvalidCredentials | ErrUnauthorized
| ErrNoRows          (* sql.ErrNoRows *)
| ErrPolicy          (* the password is too short *)
| ErrHash            (* bcrypt refuses the password *)
| ErrRandom          (* the random source fails *)
| ErrDB.             (* a statement fails *)

Record User := MkUser {
  ID : string; Username : string; SystemRole : string; PasswordHash : string; CreatedAt : Z
}.
Record sessionRow := MkSessionRow { user_id : string; expires_at : Z; created_at : Z }.
Record DB := MkDB {
  users : gmap string User;
  sessions : gmap string sessionRow;
  project_members : gmap (string * string) string
}.
Definition emptyDB : DB := MkDB ∅ ∅ ∅.

Definition DefaultSessionTTL : Z := 24 * 3600 * 1000000000.
Definition MinPasswordLength : nat := 8.

Definition ValidatePassword (password : string) : res AuthError unit :=
  guard_err (bool_decide (MinPasswordLength <= String.length password)%nat) ErrPolicy.

Section store.
(** [bcrypt.GenerateFromPassword] (the salt is random), [bcrypt.CompareHashAndPassword], and
    the hex form of SHA-256. *)
Context (generate : string -> string -> option string) (compare : string -> string -> bool)
        (hashToken : string -> string).

Definition CreateUser (db : DB) (ok : bool) (id salt : string) (now : Z) (username password systemRole : string)
  : DB * res AuthError User :=
  match ValidatePassword password with
  | Ok _ =>
      match generate salt password with
      | None => (db, Err ErrHash)
      | Some hash =>
          let u := MkUser id username systemRole hash now in
          let taken := bool_decide (is_Some (users db !! id)) ||
                       existsb (fun kv => bool_decide (Username (snd kv) = username)) (map_to_list (users db)) in
          if ok && negb taken then
            (MkDB (<[id := MkUser id username systemRole hash (ParseRFC3339 (FormatRFC3339 now))]> (users db))
                  (sessions db) (project_members db), Ok u)
          else (db, Err ErrDB)
      end
  | Err e => (db, Err e)
  | Panic => (db, Panic)
  end.

Definition getUserByUsername (db : DB) (ok : bool) (username : string) : res AuthError User :=
  if ok then
    match List.find (fun kv => bool_decide (Username (snd kv) = username)) (map_to_list (users db)) with
    | Some (_, u) => Ok u
    | None => Err ErrNoRows
    end
  else Err ErrDB.

Definition GetUser (db : DB) (ok : bool) (id : string) : res AuthError User :=
  if ok then match users db !! id with Some u => Ok u | None => Err ErrNoRows end else Err ErrDB.

Definition Authenticate (db : DB) (ok : bool) (username password : string) : res AuthError User :=
  match getUserByUsername db ok username with
  | Err ErrNoRows => Err ErrInvalidCredentials
  | Err e => Err e
  | Panic => Panic
  | Ok u => if compare (PasswordHash u) password then Ok u else Err ErrInvalidCredentials
  end.

(** [token] is the base64 text of the 32 random bytes; [None] when there are none. *)
Definition CreateSession (db : DB) (ok : bool) (token : option string) (now : Z) (userID : string)
  : DB * res AuthError (string * Z) :=
  match token with
  | None => (db, Err ErrRandom)
  | Some tok =>
      let expiresAt := now + DefaultSessionTTL in
      if ok && bool_decide (sessions db !! hashToken tok = None) then
        (MkDB (users db)
              (<[hashToken tok := MkSessionRow userID (FormatRFC3339 expiresAt) (FormatRFC3339 now)]> (sessions db))
              (project_members db), Ok (tok, expiresAt))
      else (db, Err ErrDB)
  end.

Definition ValidateSession (db : DB) (ok1 ok2 : bool) (now : Z) (token : string) : res AuthError User :=
  if ok1 then
    match sessions db !! hashToken token with
    | None => Err ErrUnauthorized
    | Some row =>
        if ParseRFC3339 (expires_at row) <? now then Err ErrUnauthorized
        else GetUser db ok2 (user_id row)
    end
  else Err ErrDB.

Definition RevokeSession (db : DB) (ok : bool) (token : string) : DB * res AuthError unit :=
  if ok then (MkDB (users db) (delete (hashToken token) (sessions db)) (project_members db), Ok tt)
  else (db, Err ErrDB).

Definition SetProjectRole (db : DB) (ok : bool) (projectID userID role : string) : DB * res AuthError unit :=
  if ok then (MkDB (users db) (sessions db) (<[(projectID, userID) := role]> (project_members db)), Ok tt)
  else (db, Err ErrDB).

Definition RemoveProjectMember (db : DB) (ok : bool) (projectID userID : string) : DB * res AuthError unit :=
  if ok then (MkDB (users db) (sessions db) (delete (projectID, userID) (project_members db)), Ok tt)
  else (db, Err ErrDB).

Definition ProjectRoleOf (db : DB) (ok : bool) (userID projectID : string) : res AuthError (option string) :=
  if ok then Ok (project_members db !! (projectID, userID)) else Err ErrDB.

Definition RequireProjectRole (db : DB) (ok : bool) (user : User) (projectID min : string) : res AuthError unit :=
  if decide (SystemRole user = SystemRoleAdmin) then Ok tt
  else
    match ProjectRoleOf db ok (ID user) projectID with
    | Ok (Some role) => if AtLeast role min then Ok tt else Err ErrForbidden
    | Ok None => Err ErrForbidden
    | Err e => Err e
    | Panic => Panic
    end.

(** [Middleware]: the user the request acts for, or a refusal with 401. *)
Definition Middleware (db : DB) (ok1 ok2 : bool) (now : Z) (authorization : string) : option User :=
  let token := TrimPrefix "Bearer " authorization in
  if decide (token = "") then None
  else match ValidateSession db ok1 ok2 now token with Ok u => Some u | _ => None end.

(** ** Handlers (a status and, for a login, the token) *)

Definition requireSystemAdmin (user : User) : option Z :=
  if decide (SystemRole user <> SystemRoleAdmin) then Some 403 else None.
Definition requireProjectRole (db : DB) (ok : bool) (user : User) (projectID min : string) : option Z :=
  match RequireProjectRole db ok user projectID min with
  | Ok _ => None
  | Err ErrForbidden => Some 403
  | _ => Some 500
  end.

(** [login]; [body] is the decoded request, or a body that does not decode. *)
Definition login (db : DB) (ok1 ok2 : bool) (token : option string) (now : Z) (body : option (string * string))
  : DB * (Z * option (string * Z)) :=
  match body with
  | None => (db, (400, None))
  | Some (username, password) =>
      match Authenticate db ok1 username password with
      | Err ErrInvalidCredentials => (db, (401, None))
      | Ok u =>
          match CreateSession db ok2 token now (ID u) with
          | (db', Ok r) => (db', (200, Some r))
          | (db', _) => (db', (500, None))
          end
      | _ => (db, (500, None))
      end
  end.

(** The token that [logout] revokes. *)
Definition logoutToken (authorization : string) : string :=
  if decide (7 < String.length authorization)%nat then str_from 7 authorization else authorization.
Definition logout (db : DB) (ok : bool) (authorization : string) : DB * Z :=
  match RevokeSession db ok (logoutToken authorization) with
  | (db', Ok _) => (db', 204)
  | (db', _) => (db', 500)
  end.

Definition createUser (db : DB) (ok : bool) (id salt : string) (now : Z) (actor : User)
    (body : option (string * string * string)) : DB * Z :=
  match requireSystemAdmin actor with
  | Some st => (db, st)
  | None =>
      match body with
      | None => (db, 400)
      | Some (username, password, systemRole) =>
          if decide (username = "" \/ password = "") then (db, 400)
          else
            let role := if decide (systemRole = SystemRoleAdmin) then SystemRoleAdmin else SystemRoleNone in
            match CreateUser db ok id salt now username password role with
            | (db', Ok _) => (db', 201)
            | (db', _) => (db', 400)
            end
      end
  end.

Definition setProjectMember (db : DB) (ok1 ok2 : bool) (user : User) (projectID targetUserID : string)
    (body : option string) : DB * Z :=
  match requireProjectRole db ok1 user projectID RoleProjectAdmin with
  | Some st => (db, st)
  | None =>
      match body with
      | None => (db, 400)
      | Some role =>
          if decide (role = "") then (db, 400)
          else match SetProjectRole db ok2 projectID targetUserID role with
               | (db', Ok _) => (db', 200)
               | (db', _) => (db', 500)
               end
      end
  end.

Definition removeProjectMember (db : DB) (ok1 ok2 : bool) (user : User) (projectID targetUserID : string) : DB * Z :=
  match requireProjectRole db ok1 user projectID RoleProjectAdmin with
  | Some st => (db, st)
  | None => match RemoveProjectMember db ok2 projectID targetUserID with
            | (db', Ok _) => (db', 204)
            | (db', _) => (db', 500)
            end
  end.

(** What [POST /backup/restore] does to these tables ([Backup] has the others): all rows are
    deleted, those of the bundle are inserted, a duplicate id or name being refused, and nobody
    has a session any more.  [ok]: every other statement of the transaction succeeds. *)
Definition insertUser (m : gmap string User) (u : User) : option (gmap string User) :=
  if bool_decide (is_Some (m !! ID u)) || existsb (fun kv => bool_decide (Username kv.2 = Username u)) (map_to_list m)
  then None else Some (<[ID u := u]> m).
Definition restoreUsers (us : list User) : option (gmap string User) := fold_left (fun acc u => m ← acc; insertUser m u) us (Some ∅).
Definition restoreAccounts (db : DB) (ok : bool) (actor : User) (body : option (bool * list User * gmap (string * string) string)) : DB * Z :=
  match requireSystemAdmin actor with
  | Some st => (db, st)
  | None =>
      match body with
      | None | Some (false, _, _) => (db, 400)
      | Some (true, us, members) =>
          match restoreUsers us with
          | Some m => if ok then (MkDB m ∅ members, 200) else (db, 500)
          | None => (db, 500)
          end
      end
  end.

(** ** The server: requests in the order it handles them *)

Inductive request :=
| RLogin (ok1 ok2 : bool) (token : option string) (now : Z) (body : option (string * string))
| RLogout (ok1 ok2 ok3 : bool) (now : Z) (authorization : string)
| RCreateUser (ok1 ok2 ok3 : bool) (id salt : string) (now : Z) (authorization : string)
    (body : option (string * string * string))
| RSetMember (ok1 ok2 ok3 ok4 : bool) (now : Z) (authorization projectID userID : string) (body : option string)
| RRemoveMember (ok1 ok2 ok3 ok4 : bool) (now : Z) (authorization projectID userID : string)
| RRestore (ok1 ok2 ok3 : bool) (now : Z) (authorization : string) (body : option (bool * list User * gmap (string * string) string)).
Definition response : Type := Z * option (string * Z).

(** A protected route: the middleware, then the handler for the user it found. *)
Definition protected (db : DB) (ok1 ok2 : bool) (now : Z) (authorization : string)
    (handler : User -> DB * Z) : DB * response :=
  match Middleware db ok1 ok2 now authorization with
  | None => (db, (401, None))
  | Some u => let '(db', st) := handler u in (db', (st, None))
  end.

Definition serve (db : DB) (r : request) : DB * response :=
  match r with
  | RLogin ok1 ok2 token now body => login db ok1 ok2 token now body
  | RLogout ok1 ok2 ok3 now a => protected db ok1 ok2 now a (fun _ => logout db ok3 a)
  | RCreateUser ok1 ok2 ok3 id salt now a body =>
      protected db ok1 ok2 now a (fun u => createUser db ok3 id salt now u body)
  | RSetMember ok1 ok2 ok3 ok4 now a p u body =>
      protected db ok1 ok2 now a (fun actor => setProjectMember db ok3 ok4 actor p u body)
  | RRemoveMember ok1 ok2 ok3 ok4 now a p u =>
      protected db ok1 ok2 now a (fun actor => removeProjectMember db ok3 ok4 actor p u)
  | RRestore ok1 ok2 ok3 now a body => protected db ok1 ok2 now a (fun actor => restoreAccounts db ok3 actor body)
  end.

(** What was answered, oldest first. *)
Fixpoint run (db : DB) (rs : list request) : DB * list (request * response) :=
  match rs with
  | [] => (db, [])
  | r :: rs' =>
      let '(db', a) := serve db r in
      let '(db'', tr) := run db' rs' in
      (db'', (r, a) :: tr)
  end.

(** ** Specification: who a token stands for, from the answers alone *)

(** An answer that revokes [tk], and one that issues it.  A restore revokes every token. *)
Definition revokes (tk : string) (e : request * response) : Prop :=
  match e with
  | (RLogout _ _ _ _ a, (204, _)) => logoutToken a = tk
  | (RRestore _ _ _ _ _ _, (200, _)) => True
  | _ => False
  end.
Definition issues (tk : string) (t : Z) (name pw : string) (e : request * response) : Prop :=
  match e with
  | (RLogin _ _ (Some tk') t' (Some (name', pw')), (200, _)) => tk' = tk /\ t' = t /\ name' = name /\ pw' = pw
  | _ => False
  end.
(** The token was issued and not revoked since. *)
Definition granted (tr : list (request * response)) (tk : string) (t : Z) (name pw : string) : Prop :=
  exists tr1 e tr2, tr = tr1 ++ e :: tr2 /\ issues tk t name pw e /\ Forall (fun e => ~ revokes tk e) tr2.

(** The tables a server starts from: rows under their id, one account per name. *)
Definition users_ok (m : gmap string User) : Prop :=
  (forall i u, m !! i = Some u -> ID u = i) /\
  (forall i j u v, m !! i = Some u -> m !! j = Some v -> Username u = Username v -> i = j).

(** The tokens that requests mention, and that no two of them have the same hash. *)
Definition mentions (r : request) : list string :=
  match r with
  | RLogin _ _ (Some tk) _ _ => [tk]
  | RLogout _ _ _ _ a => [logoutToken a]
  | _ => []
  end.
Definition collision_free (tks : list string) : Prop :=
  forall a b, a ∈ tks -> b ∈ tks -> hashToken a = hashToken b -> a = b.

(** The row that a token granted to a user has. *)
Definition session_of (u : User) (t : Z) : sessionRow :=
  MkSessionRow (ID u) (FormatRFC3339 (t + DefaultSessionTTL)) (FormatRFC3339 t).
Definition granted_row (us : gmap string User) (tr : list (request * response)) (tk : string) (row : sessionRow) : Prop :=
  exists t name pw u, granted tr tk t name pw /\ us !! ID u = Some u /\ Username u = name /\ row = session_of u t.

Record session_inv (tks : list string) (tr : list (request * response)) (db : DB) : Prop := {
  si_users : users_ok (users db);
  si_logins : forall tk t name pw, granted tr tk t name pw ->
    exists u, users db !! ID u = Some u /\ Username u = name /\ compare (PasswordHash u) pw = true;
  si_rows : forall tk row, tk ∈ tks -> sessions db !! hashToken tk = Some row <-> granted_row (users db) tr tk row
}.

(** What a request does to the tables. *)
Inductive effect (db : DB) (e : request * response) (db' : DB) : Prop :=
| effect_issue tk t name pw u :
    issues tk t name pw e -> tk ∈ mentions e.1 -> users db !! ID u = Some u -> Username u = name ->
    compare (PasswordHash u) pw = true -> users db' = users db -> sessions db !! hashToken tk = None ->
    sessions db' = <[hashToken tk := session_of u t]> (sessions db) ->
    effect db e db'
| effect_revoke tk :
    (forall tk', revokes tk' e <-> tk' = tk) -> tk ∈ mentions e.1 -> users db' = users db ->
    sessions db' = delete (hashToken tk) (sessions db) ->
    effect db e db'
| effect_reset :
    (forall tk, revokes tk e) -> sessions db' = ∅ ->
    effect db e db'
| effect_none :
    (forall tk, ~ revokes tk e) -> (forall tk t name pw, ~ issues tk t name pw e) ->
    users db ⊆ users db' -> sessions db' = sessions db ->
    effect db e db'.

Lemma issues_not_revokes tk tk' t name pw e : issues tk t name pw e -> ~ revokes tk' e.
Proof. destruct e as [[] [st r]]; cbn; tauto. Qed.

Lemma granted_snoc tr e tk t name pw :
  granted (tr ++ [e]) tk t name pw <-> (granted tr tk t name pw /\ ~ revokes tk e) \/ issues tk t name pw e.
Proof.
  split.
  - intros (tr1 & x & tr2 & E & Hi & Hf).
    destruct tr2 as [|y tr2 _] using rev_ind.
    + apply app_inj_tail in E as [-> ->]. by right.
    + rewrite app_comm_cons, app_assoc in E. apply app_inj_tail in E as [-> ->].
      apply Forall_app in Hf as [Hf [Hy _]%Forall_cons]. left. split; [|done]. by exists tr1, x, tr2.
  - intros [[(tr1 & x & tr2 & -> & Hi & Hf) Hn]|Hi].
    + exists tr1, x, (tr2 ++ [e]). rewrite <- app_assoc. split_and!; [done..|]. apply Forall_app. by repeat constructor.
    + exists tr, e, []. by split_and!.
Qed.

Lemma CreateUser_users db ok id salt now username password role :
  users_ok (users db) ->
  let db' := (CreateUser db ok id salt now username password role).1 in
  users_ok (users db') /\ users db ⊆ users db' /\ sessions db' = sessions db.
Proof.
  intros Hok. unfold CreateUser.
  destruct (ValidatePassword password); [|done..]. destruct (generate salt password) as [h|]; [|done].
  destruct (ok && _) eqn:E; [|done]. cbn.
  apply andb_prop in E as [_ [Hid Hn]%negb_true_iff%orb_false_elim].
  apply bool_decide_eq_false in Hid. rewrite <- eq_None_not_Some in Hid.
  assert (forall i u, users db !! i = Some u -> Username u <> username) as Hfresh.
  { intros i u Hu Hname. apply not_true_iff_false in Hn. apply Hn, existsb_exists.
    exists (i, u). split; [|by apply bool_decide_eq_true].
    by apply list_elem_of_In, elem_of_map_to_list. }
  destruct Hok as [Hk Hu]. split_and!; [split| |done].
  - intros i u [[<- <-]|[_ ?]]%lookup_insert_Some; eauto.
  - intros i j u v [[<- <-]|[_ Hi]]%lookup_insert_Some [[<- <-]|[_ Hj]]%lookup_insert_Some Hname; cbn in *; eauto;
      exfalso; eapply Hfresh; eauto.
  - by apply insert_subseteq.
Qed.

Lemma insertUser_ok m u m' : users_ok m -> insertUser m u = Some m' -> users_ok m'.
Proof.
  intros [Hk Hu]. unfold insertUser. destruct (_ || _) eqn:E; [done|]. intros [= <-].
  apply orb_false_elim in E as [_ Hn].
  assert (forall i v, m !! i = Some v -> Username v <> Username u) as Hfresh.
  { intros i v Hv Hname. apply not_true_iff_false in Hn. apply Hn, existsb_exists. exists (i, v).
    split; [by apply list_elem_of_In, elem_of_map_to_list|by apply bool_decide_eq_true]. }
  split.
  - intros i v [[<- <-]|[_ ?]]%lookup_insert_Some; eauto.
  - intros i j v w [[<- <-]|[_ Hi]]%lookup_insert_Some [[<- <-]|[_ Hj]]%lookup_insert_Some Hname; cbn in *; eauto; exfalso; eapply Hfresh; eauto.
Qed.
Lemma restoreUsers_ok us m : restoreUsers us = Some m -> users_ok m.
Proof.
  unfold restoreUsers. assert (forall m, Some ∅ = Some m -> users_ok m) as H.
  { intros m0 [= <-]. split; intros i; [|intros j]; intros ?; rewrite lookup_empty; intros; done. }
  revert H. generalize (Some (∅ : gmap string User)). induction us as [|u us IH]; intros acc Hacc; [apply Hacc|]. cbn. apply IH.
  intros m'. destruct acc as [m0|]; [|done]. cbn. apply insertUser_ok. by apply Hacc.
Qed.

Lemma find_user db username kv :
  List.find (fun kv => bool_decide (Username (snd kv) = username)) (map_to_list (users db)) = Some kv ->
  users db !! kv.1 = Some kv.2 /\ Username kv.2 = username.
Proof.
  intros [Hin Hb]%find_some. apply bool_decide_eq_true in Hb. split; [|done].
  apply list_elem_of_In in Hin. destruct kv. by apply elem_of_map_to_list.
Qed.

Lemma Authenticate_Ok db ok username password u :
  users_ok (users db) -> Authenticate db ok username password = Ok u ->
  users db !! ID u = Some u /\ Username u = username /\ compare (PasswordHash u) password = true.
Proof.
  intros [Hk _]. unfold Authenticate, getUserByUsername. destruct ok; [|done].
  destruct (List.find _ _) as [[i v]|] eqn:E; [|done]. apply find_user in E as [Hi Hn]. cbn in *.
  destruct (compare _ _) eqn:Hc; [|done]. intros [= ->]. by rewrite (Hk _ _ Hi).
Qed.

(** An answer that changes neither accounts nor sessions. *)
Ltac no_effect := split; [apply effect_none|]; cbn; auto.

Lemma login_effect db ok1 ok2 token now body :
  users_ok (users db) ->
  let '(db', a) := login db ok1 ok2 token now body in
  effect db (RLogin ok1 ok2 token now body, a) db' /\ users_ok (users db').
Proof.
  intros Hok. unfold login.
  destruct body as [[name pw]|]; [|no_effect; destruct token; auto].
  destruct (Authenticate db ok1 name pw) as [u|err|] eqn:Ha;
    [|destruct err; (no_effect; destruct token; auto)
     |no_effect; destruct token; auto].
  apply Authenticate_Ok in Ha as (Hu & Hn & Hc); [|done].
  unfold CreateSession. destruct token as [tk|]; [|no_effect].
  destruct (ok2 && _) eqn:E; [|no_effect].
  apply andb_prop in E as [_ E%bool_decide_eq_true].
  split; [|done]. eapply (effect_issue _ _ _ tk now name pw u); cbn; auto. set_solver.
Qed.

Lemma protected_effect db ok1 ok2 now a r handler :
  (forall tk x, ~ revokes tk (r, (401, x))) -> (forall tk t name pw x, ~ issues tk t name pw (r, x)) ->
  (forall u, let '(db', st) := handler u in effect db (r, (st, None)) db' /\ users_ok (users db')) ->
  users_ok (users db) ->
  let '(db', resp) := protected db ok1 ok2 now a handler in
  effect db (r, resp) db' /\ users_ok (users db').
Proof.
  intros Hr Hi Hh Hok. unfold protected. destruct (Middleware _ _ _ _ _) as [u|].
  - specialize (Hh u). by destruct (handler u).
  - split; [apply effect_none|]; auto.
Qed.

Lemma serve_effect db r : users_ok (users db) ->
  let '(db', a) := serve db r in effect db (r, a) db' /\ users_ok (users db').
Proof.
  intros Hok. destruct r; cbn [serve]; [by apply login_effect|apply protected_effect; auto; intros u..].
  - unfold logout, RevokeSession. destruct ok3.
    + split; [|done]. eapply effect_revoke; cbn; auto; [|set_solver]. by intros tk'; split.
    + no_effect.
  - unfold createUser. destruct (requireSystemAdmin u); [no_effect|].
    destruct body as [[[name pw] role]|]; [|no_effect].
    case_decide; [no_effect|].
    set (role' := if decide _ then _ else _).
    pose proof (CreateUser_users db ok3 id salt now name pw role' Hok) as Hc.
    destruct (CreateUser _ _ _ _ _ _ _ _) as [db' []]; destruct Hc as (? & ? & ?);
      no_effect.
  - unfold setProjectMember, SetProjectRole. destruct (requireProjectRole _ _ _ _ _); [no_effect|].
    destruct body; [|no_effect].
    case_decide; [no_effect|]. destruct ok4; no_effect.
  - unfold removeProjectMember, RemoveProjectMember. destruct (requireProjectRole _ _ _ _ _); [no_effect|].
    destruct ok4; no_effect.
  - unfold restoreAccounts. destruct (requireSystemAdmin u) as [st|] eqn:Er.
    { assert (st = 403) as -> by (revert Er; unfold requireSystemAdmin; case_decide; congruence). no_effect. }
    destruct body as [[[[] us] members]|]; [|no_effect..]. destruct (restoreUsers us) as [m|] eqn:Em; [|no_effect].
    destruct ok3; [|no_effect]. split; [by apply effect_reset|]. by eapply restoreUsers_ok.
Qed.

Lemma users_unique m u v : users_ok m -> m !! ID u = Some u -> m !! ID v = Some v -> Username u = Username v -> u = v.
Proof. intros [_ Hu] Hi Hj Hn. pose proof (Hu _ _ _ _ Hi Hj Hn) as E. rewrite E in Hi. congruence. Qed.

Lemma issues_fun tk tk' t t' name name' pw pw' e : issues tk t name pw e -> issues tk' t' name' pw' e ->
  tk = tk' /\ t = t' /\ name = name' /\ pw = pw'.
Proof. destruct e as [[? ? [?|] ? [[? ?]|]| | | | |] [[|p|p] ?]]; cbn; try tauto. repeat (destruct p; cbn; try tauto); naive_solver. Qed.

(** What a grant says about its user does not depend on the accounts added since. *)
Lemma granted_row_weaken tks tr db us tk row :
  session_inv tks tr db -> users_ok us -> users db ⊆ us ->
  granted_row (users db) tr tk row <-> granted_row us tr tk row.
Proof.
  intros [_ Hl _] Hok Hsub. split; intros (t & name & pw & u & Hg & Hx & Hn & ->); exists t, name, pw, u; split_and!;
    eauto using lookup_weaken.
  destruct (Hl _ _ _ _ Hg) as (v & Hv & Hnv & _).
  assert (u = v) as -> by (eapply (users_unique us); eauto using lookup_weaken; congruence). done.
Qed.

Lemma granted_row_other us tr e tk row :
  ~ revokes tk e -> (forall t name pw, ~ issues tk t name pw e) ->
  granted_row us (tr ++ [e]) tk row <-> granted_row us tr tk row.
Proof. intros Hr Hi. unfold granted_row. setoid_rewrite granted_snoc. naive_solver. Qed.

(** Who holds a granted token still has an account after a request that keeps accounts. *)
Lemma logins_step tks tr db e db' :
  session_inv tks tr db -> users db ⊆ users db' ->
  (forall tk t name pw, issues tk t name pw e ->
    exists u, users db !! ID u = Some u /\ Username u = name /\ compare (PasswordHash u) pw = true) ->
  forall tk t name pw, granted (tr ++ [e]) tk t name pw ->
    exists u, users db' !! ID u = Some u /\ Username u = name /\ compare (PasswordHash u) pw = true.
Proof.
  intros [_ Hl _] Hsub He tk t name pw. rewrite granted_snoc. intros [[Hg _]|Hi].
  - destruct (Hl _ _ _ _ Hg) as (u & ? & ?). exists u. eauto using lookup_weaken.
  - destruct (He _ _ _ _ Hi) as (u & ? & ?). exists u. eauto using lookup_weaken.
Qed.
Lemma session_reset tks tr e db' : (forall tk, revokes tk e) -> sessions db' = ∅ -> users_ok (users db') -> session_inv tks (tr ++ [e]) db'.
Proof.
  intros Hr Hs Hu. assert (forall tk t name pw, ~ granted (tr ++ [e]) tk t name pw) as Hn.
  { intros tk t name pw. rewrite granted_snoc. intros [[_ H]|H]; [by apply H|]. by destruct (issues_not_revokes _ tk _ _ _ _ H). }
  split; [done|intros tk t name pw H; by destruct (Hn tk t name pw)|]. intros tk row _. rewrite Hs, lookup_empty.
  split; [done|]. intros (t & name & pw & u & Hg & _). by destruct (Hn tk t name pw).
Qed.

Lemma session_step tks tr db e db' :
  collision_free tks -> mentions e.1 ⊆ tks -> session_inv tks tr db ->
  effect db e db' -> users_ok (users db') -> session_inv tks (tr ++ [e]) db'.
Proof.
  intros Hcf Hm Hinv Heff Hu'. destruct Heff as [tk0 t0 name0 pw0 u0 Hi0 Hm0 Hx0 Hn0 Hc0 Hus Hnone Hse|tk0 Hr0 Hm0 Hus Hse|Hall Hse|Hnr Hni Hsub Hse];
    [| |by apply session_reset|].
  1-2: assert (users db ⊆ users db') as Hsub by (by rewrite Hus).
  all: (split; [done|apply (logins_step tks _ db); [done|done|]|]; [|intros tk row Htk;
    assert (sessions db !! hashToken tk = Some row <-> granted_row (users db') tr tk row) as Hs by (rewrite <- granted_row_weaken by done; by apply Hinv)]).
  1: { intros tk t name pw Hi. destruct (issues_fun _ _ _ _ _ _ _ _ _ Hi Hi0) as (-> & -> & -> & ->). eauto. }
  2: { intros tk t name pw Hi. by destruct (issues_not_revokes _ tk0 _ _ _ _ Hi); apply Hr0. }
  3: { intros tk t name pw Hi. by destruct (Hni tk t name pw). }
  all: [> destruct (decide (tk = tk0)) as [-> |Hne]|destruct (decide (tk = tk0)) as [-> |Hne]|].
  - rewrite Hse, lookup_insert_eq. unfold granted_row. setoid_rewrite granted_snoc. split.
    + intros [= <-]. exists t0, name0, pw0, u0. rewrite Hus. eauto 6.
    + intros (t & name & pw & u & [[Hg _]|Hi] & Hx & Hn & ->).
      * exfalso. destruct Hinv as [_ _ Hrows].
        assert (granted_row (users db) tr tk0 (session_of u t)) as Hg'
          by (exists t, name, pw, u; rewrite <- Hus; eauto).
        apply Hrows in Hg'; [congruence|done].
      * destruct (issues_fun _ _ _ _ _ _ _ _ _ Hi Hi0) as (_ & -> & -> & ->).
        assert (u = u0) as -> by (eapply (users_unique (users db')); eauto; congruence). done.
  - rewrite Hse, lookup_insert_ne by (intros E; apply Hne; symmetry; apply Hcf; set_solver).
    rewrite Hs, granted_row_other; [done|by eapply issues_not_revokes|].
    intros t name pw Hi. by destruct (issues_fun _ _ _ _ _ _ _ _ _ Hi Hi0) as [-> _].
  - rewrite Hse, lookup_delete_eq. unfold granted_row. setoid_rewrite granted_snoc. split; [done|].
    intros (t & name & pw & u & [[_ Hn]|Hi] & _); [by destruct Hn; apply Hr0|]. destruct (issues_not_revokes _ tk0 _ _ _ _ Hi). by apply Hr0.
  - rewrite Hse, lookup_delete_ne by (intros E; apply Hne; symmetry; apply Hcf; set_solver).
    rewrite Hs, granted_row_other; [done| |].
    + intros Hr. by apply Hne, Hr0.
    + intros t name pw Hi. apply (issues_not_revokes _ tk0 _ _ _ _ Hi). by apply Hr0.
  - rewrite Hse, Hs, granted_row_other; auto.
Qed.

Lemma session_run tks rs : forall tr db,
  collision_free tks -> Forall (fun r => mentions r ⊆ tks) rs -> session_inv tks tr db ->
  session_inv tks (tr ++ (run db rs).2) (run db rs).1.
Proof.
  induction rs as [|r rs IH]; intros tr db Hcf Hm Hinv; cbn; [by rewrite app_nil_r|].
  apply Forall_cons in Hm as [Hr Hm].
  pose proof (serve_effect db r (si_users _ _ _ Hinv)) as Hs. destruct (serve db r) as [db' a].
  destruct Hs as [Heff Hu'].
  specialize (IH (tr ++ [(r, a)]) db' Hcf Hm). destruct (run db' rs) as [db'' tr'']. cbn in *.
  rewrite <- app_assoc in IH. apply IH. by apply (session_step _ _ db).
Qed.

(** [C18] Over all sequences of logins, logouts, changes of accounts and members, and restores of
    backups: a request is handled for user [u] exactly when its token was issued to a login with
    [u]'s name and a password that matches [u]'s hash, since then neither a logout of that token
    nor a restore of a backup (which ends all sessions) was answered with success, and the 24 hours (in
    whole seconds) have not passed.  So the sessions table says neither more nor less than the
    answers of the server so far, for tokens whose hashes do not collide. *)
Theorem session_lifecycle db0 rs authorization now u :
  users_ok (users db0) -> sessions db0 = ∅ ->
  collision_free (TrimPrefix "Bearer " authorization :: flat_map mentions rs) ->
  Middleware (run db0 rs).1 true true now authorization = Some u <->
  TrimPrefix "Bearer " authorization <> "" /\
  exists t pw, granted (run db0 rs).2 (TrimPrefix "Bearer " authorization) t (Username u) pw /\
    compare (PasswordHash u) pw = true /\
    users (run db0 rs).1 !! ID u = Some u /\
    now <= ParseRFC3339 (FormatRFC3339 (t + DefaultSessionTTL)).
Proof.
  intros Hok Hemp Hcf. set (tk := TrimPrefix _ _) in *.
  pose proof (session_run (tk :: flat_map mentions rs) rs [] db0 Hcf) as Hinv. rewrite app_nil_l in Hinv.
  destruct (run db0 rs) as [db tr]. cbn [fst snd] in *.
  destruct Hinv as [Hu Hl Hs].
  { apply Forall_forall. intros r Hr x Hx. right. apply list_elem_of_In, in_flat_map.
    exists r. split; by apply list_elem_of_In. }
  { split; [done|intros tk' t name pw (tr1 & e & tr2 & Hnil & _); by destruct tr1|]. intros tk' row _. rewrite Hemp, lookup_empty.
    split; [done|]. intros (? & ? & ? & ? & (tr1 & e & tr2 & Hnil & _) & _). by destruct tr1. }
  unfold Middleware. fold tk. destruct (decide (tk = "")) as [E|Hne]; [by split; [|intros [Hn _]]|].
  specialize (Hs tk). unfold ValidateSession, GetUser. destruct (sessions db !! hashToken tk) as [row|] eqn:Hrow.
  - destruct (proj1 (Hs row ltac:(set_solver)) eq_refl) as (t & name & pw & v & Hg & Hv & <- & ->).
    destruct (Hl _ _ _ _ Hg) as (v' & Hv' & Hn' & Hc).
    assert (v' = v) as -> by by eapply (users_unique (users db)).
    cbn [session_of expires_at user_id]. rewrite Hv. destruct (Z.ltb_spec (ParseRFC3339 (FormatRFC3339 (t + DefaultSessionTTL))) now) as [Hlt|Hle].
    + split; [done|]. intros (_ & t' & pw' & Hg' & _ & Hu0 & Hle).
      assert (Some (session_of v t) = Some (session_of u t')) as E
        by (apply Hs; [set_solver|]; by exists t', (Username u), pw', u).
      injection E as _ Ht _. rewrite Ht in Hlt. lia.
    + split.
      * intros [= ->]. eauto 8.
      * intros (_ & t' & pw' & Hg' & _ & Hu0 & _).
        assert (Some (session_of v t) = Some (session_of u t')) as E
          by (apply Hs; [set_solver|]; by exists t', (Username u), pw', u).
        injection E as E _ _. congruence.
  - split; [done|]. intros (_ & t & pw & Hg & _ & Hu0 & _). exfalso.
    enough (None = Some (session_of u t)) by done. apply Hs; [set_solver|]. exists t, (Username u), pw, u. done.
Qed.

(** A logout with the bare token in the header, which the middleware accepts, is answered with
    204 and revokes another token: the session stays usable. *)
Theorem logout_bare_token db now authorization u :
  CutPrefix "Bearer " authorization = None -> (7 < String.length authorization)%nat ->
  collision_free [authorization; str_from 7 authorization] ->
  Middleware db true true now authorization = Some u ->
  let '(db', a) := serve db (RLogout true true true now authorization) in
  a = (204, None) /\ Middleware db' true true now authorization = Some u.
Proof.
  intros Hp Hlen Hcf Hm. cbn [serve]. unfold protected. rewrite Hm. split; [done|].
  assert (TrimPrefix "Bearer " authorization = authorization) as Ht by (unfold TrimPrefix; by rewrite Hp).
  unfold Middleware in *. rewrite Ht in *. case_decide; [done|].
  unfold ValidateSession in *. cbn [logout RevokeSession sessions users].
  rewrite lookup_delete_ne; [done|]. unfold logoutToken. rewrite decide_True by done.
  intros E%Hcf; [|set_solver..]. apply (f_equal String.length) in E. rewrite str_from_length in E by lia. lia.
Qed.

End store.

(** ** Authorization *)

Lemma RequireProjectRole_spec db user projectID min :
  RequireProjectRole db true user projectID min = Ok tt <->
  SystemRole user = SystemRoleAdmin \/
  exists role, project_members db !! (projectID, ID user) = Some role /\ rank min <= rank role.
Proof.
  unfold RequireProjectRole, ProjectRoleOf, AtLeast. case_decide; [tauto|].
  destruct (project_members db !! _) as [role|] eqn:E.
  - destruct (Z.leb_spec (rank min) (rank role)); [naive_solver|].
    split; [done|]. intros [?|(? & [= <-] & ?)]; [done|lia].
  - naive_solver.
Qed.

(** The four roles are ordered as listed, and roles are transitive. *)
Lemma AtLeast_trans r s t : AtLeast r s = true -> AtLeast s t = true -> AtLeast r t = true.
Proof. unfold AtLeast. rewrite !Z.leb_le. lia. Qed.

(** A project admin can give a member a role that does not exist; it counts as viewer, and
    the member reads the project. *)
Theorem unknown_role_reads db ok actor projectID u role :
  roleRank !! role = None -> role <> "" ->
  requireProjectRole db ok actor projectID RoleProjectAdmin = None ->
  let '(db', st) := setProjectMember db ok true actor projectID (ID u) (Some role) in
  st = 200 /\ requireProjectRole db' true u projectID RoleViewer = None.
Proof.
  intros Hr Hne Ha. unfold setProjectMember. rewrite Ha, decide_False by done. split; [done|].
  unfold requireProjectRole. replace (RequireProjectRole _ _ u _ _) with (Ok (E := AuthError) tt); [done|].
  symmetry. apply RequireProjectRole_spec. right. exists role. cbn. rewrite lookup_insert_eq. split; [done|].
  unfold rank. by rewrite Hr.
Qed.

(** ** Examples: hashing that keeps its input, one administrator, one session *)
Module examples.
Definition gen (salt pw : string) : option string := Some pw.
Definition cmp (hash pw : string) : bool := bool_decide (hash = pw).
Definition root : User := MkUser "u0" "root" SystemRoleAdmin "correct-horse" 0.
Definition db0 : DB := MkDB {["u0" := root]} ∅ ∅.
Definition reqs : list request :=
  [RLogin true true (Some "token-a") 5 (Some ("root", "wrong"));
   RLogin true true (Some "token-b") 10 (Some ("root", "correct-horse"));
   RCreateUser true true true "u1" "s" 20 "Bearer token-b" (Some ("bob", "bobs-password", "none"));
   RLogin true true (Some "token-c") 30 (Some ("bob", "bobs-password"));
   RLogout true true true 40 "Bearer token-c"].

Lemma db0_ok : users_ok (users db0).
Proof.
  unfold db0, users. split.
  - by intros i u [<- <-]%lookup_singleton_Some.
  - by intros i j u v [<- <-]%lookup_singleton_Some [<- <-]%lookup_singleton_Some _.
Qed.

Lemma session_lifecycle_witness :
  Middleware id (run gen cmp id db0 reqs).1 true true 1000000000 "Bearer token-b" = Some root /\
  exists t pw, granted (run gen cmp id db0 reqs).2 "token-b" t "root" pw /\ cmp "correct-horse" pw = true.
Proof.
  assert (Middleware id (run gen cmp id db0 reqs).1 true true 1000000000 "Bearer token-b" = Some root) as H
    by (vm_compute; reflexivity).
  split; [exact H|].
  apply (session_lifecycle gen cmp id db0 reqs "Bearer token-b" 1000000000 root) in H; [|exact db0_ok|reflexivity|].
  - destruct H as (_ & t & pw & Hg & Hc & _). exists t, pw. split; [exact Hg|exact Hc].
  - intros a b _ _ E. exact E.
Defined.

(** The session of the logout no longer passes. *)
Example logged_out : Middleware id (run gen cmp id db0 reqs).1 true true 1000000000 "Bearer token-c" = None.
Proof. vm_compute. reflexivity. Qed.

(** After a restore nobody's session passes, not even that of the administrator who asked for it. *)
Example restored_out :
  let '(db, tr) := run gen cmp id db0 (reqs ++ [RRestore true true true 50 "Bearer token-b" (Some (true, [root], ∅))]) in
  last (map (fun e => e.2.1) tr) = Some 200 /\ Middleware id db true true 60 "Bearer token-b" = None.
Proof. vm_compute. split; reflexivity. Qed.

Definition db1 : DB := (run gen cmp id db0 reqs).1.
Definition db2 : DB := (CreateSession id db0 true (Some "a-long-token") 0 "u0").1.
Lemma logout_bare_token_witness :
  Middleware id (serve gen cmp id db2 (RLogout true true true 7 "a-long-token")).1 true true 7 "a-long-token" = Some root.
Proof.
  refine (proj2 (logout_bare_token gen cmp id db2 7 "a-long-token" root _ _ _ _)).
  - reflexivity.
  - apply Nat.ltb_lt. reflexivity.
  - intros a b _ _ E. exact E.
  - vm_compute. reflexivity.
Defined.

Lemma unknown_role_reads_witness :
  requireProjectRole (setProjectMember db1 true true root "p" "u1" (Some "guest")).1 true
    (MkUser "u1" "bob" "none" "bobs-password" 0) "p" RoleViewer = None.
Proof.
  refine (proj2 (unknown_role_reads db1 true root "p" (MkUser "u1" "bob" "none" "bobs-password" 0) "guest" _ _ _)).
  - vm_compute. reflexivity.
  - discriminate.
  - vm_compute. reflexivity.
Defined.
End examples.
End auth.
