(* ===== verification/Fleet.v ===== *)
(** * Fleet enrollment of the control plane ([controlplane/internal/api/fleet.go])

    The tables [runtime_groups], [runtime_enroll_tokens] and [devices], the store's operations
    on them and the administrative handlers.  A table is a map by its primary key; every
    statement may fail ([ok] false), which leaves the tables alone.  SHA-256, fresh ids, random
    tokens and the clock are arguments. *)

From S2P Require Import Prelude GoStd Auth.
Import gostd.
Local Open Scope Z_scope.

Module fleet.

Record RuntimeGroup := MkRuntimeGroup { Description : string; g_created_at : Z }.
Record RuntimeEnrollToken := MkToken {
  token_hash : string; t_display_name : string; t_group_name : option string; created_by : string;
  t_created_at : Z; used_by_runtime_id : option string; revoked_at : option Z
}.
Record Device := MkDevice {
  kind : string; display_name : string; group_name : option string; enroll_token_id : option string; enrolled_at : Z
}.
Record DB := MkDB {
  runtime_groups : gmap string RuntimeGroup;
  runtime_enroll_tokens : gmap string RuntimeEnrollToken;
  devices : gmap string Device
}.
Definition emptyDB : DB := MkDB ∅ ∅ ∅.

Inductive FleetError :=
| ErrDB                     (* a statement fails *)
| ErrRandom                 (* no random bytes for a token *)
| ErrTokenRequired          (* enrolled with a token; it must be presented on every registration *)
| ErrInvalidToken           (* invalid enrollment token *)
| ErrRevoked                (* enrollment token has been revoked *)
| ErrDifferentToken.        (* already enrolled with a different token *)

Definition set_devices (db : DB) (m : gmap string Device) : DB := MkDB (runtime_groups db) (runtime_enroll_tokens db) m.
Definition set_tokens (db : DB) (m : gmap string RuntimeEnrollToken) : DB := MkDB (runtime_groups db) m (devices db).
Definition set_groups (db : DB) (m : gmap string RuntimeGroup) : DB := MkDB m (runtime_enroll_tokens db) (devices db).

(** A string column that takes NULL for "". *)
Definition nullable (s : string) : option string := if decide (s = "") then None else Some s.

Definition device_without_group (d : Device) : Device :=
  MkDevice (kind d) (display_name d) None (enroll_token_id d) (enrolled_at d).
Definition token_without_group (t : RuntimeEnrollToken) : RuntimeEnrollToken :=
  MkToken (token_hash t) (t_display_name t) None (created_by t) (t_created_at t) (used_by_runtime_id t) (revoked_at t).

(** ** Groups *)

Definition CreateRuntimeGroup (db : DB) (ok : bool) (now : Z) (name description : string) : DB * res FleetError unit :=
  if ok && bool_decide (runtime_groups db !! name = None) then
    (set_groups db (<[name := MkRuntimeGroup description (FormatRFC3339 now)]> (runtime_groups db)), Ok tt)
  else (db, Err ErrDB).

(** [SELECT ... ORDER BY name] *)
Definition ListRuntimeGroups (db : DB) (ok : bool) : res FleetError (list (string * RuntimeGroup)) :=
  if ok then Ok (sortBy fst (map_to_list (runtime_groups db))) else Err ErrDB.

(** Three statements, each of which may fail and leave the earlier ones done. *)
Definition DeleteRuntimeGroup (db : DB) (ok1 ok2 ok3 : bool) (name : string) : DB * res FleetError unit :=
  if ok1 then
    let db := set_devices db ((fun d => if decide (group_name d = Some name) then device_without_group d else d) <$> devices db) in
    if ok2 then
      let db := set_tokens db ((fun t => if decide (t_group_name t = Some name) then token_without_group t else t)
                                 <$> runtime_enroll_tokens db) in
      if ok3 then (set_groups db (delete name (runtime_groups db)), Ok tt)
      else (db, Err ErrDB)
    else (db, Err ErrDB)
  else (db, Err ErrDB).

Section store.
(** The hex form of SHA-256. *)
Context (hashEnrollToken : string -> string).

(** ** Enrollment tokens *)

(** The token hash is unique in its table. *)
Definition CreateEnrollToken (db : DB) (ok : bool) (id : string) (plaintext : option string) (now : Z)
    (displayName group createdByUserID : string) : DB * res FleetError (string * string) :=
  match plaintext with
  | None => (db, Err ErrRandom)
  | Some tok =>
      let taken := bool_decide (is_Some (runtime_enroll_tokens db !! id)) ||
                   existsb (fun kv => bool_decide (token_hash (snd kv) = hashEnrollToken tok))
                     (map_to_list (runtime_enroll_tokens db)) in
      if ok && negb taken then
        (set_tokens db (<[id := MkToken (hashEnrollToken tok) displayName (nullable group) createdByUserID
                                  (FormatRFC3339 now) None None]> (runtime_enroll_tokens db)), Ok (id, tok))
      else (db, Err ErrDB)
  end.

Definition RevokeEnrollToken (db : DB) (ok : bool) (now : Z) (id : string) : DB * res FleetError unit :=
  if ok then
    (set_tokens db (alter (fun t => MkToken (token_hash t) (t_display_name t) (t_group_name t) (created_by t)
                                      (t_created_at t) (used_by_runtime_id t) (Some (FormatRFC3339 now))) id
                      (runtime_enroll_tokens db)), Ok tt)
  else (db, Err ErrDB).

(** [findEnrollTokenByHash]: the row of the hash, with its id. *)
Definition findEnrollTokenByHash (db : DB) (ok : bool) (hash : string) : option (string * RuntimeEnrollToken) :=
  if ok then List.find (fun kv => bool_decide (token_hash (snd kv) = hash)) (map_to_list (runtime_enroll_tokens db))
  else None.

(** ** Devices *)

(** [Authenticate]; the arguments [ok1] to [ok4] are the outcomes of the device query, of the
    token query or the first insert, of the second insert, and of the final update. *)
Definition Authenticate (db : DB) (ok1 ok2 ok3 ok4 : bool) (now : Z) (runtimeID kind_ enrollmentToken : string)
  : DB * res FleetError unit :=
  if ok1 then
    let existing := devices db !! runtimeID in
    if decide (enrollmentToken = "") then
      match existing with
      | Some d => if decide (enroll_token_id d <> None) then (db, Err ErrTokenRequired) else (db, Ok tt)
      | None =>
          if ok2 then (set_devices db (<[runtimeID := MkDevice kind_ "" None None (FormatRFC3339 now)]> (devices db)), Ok tt)
          else (db, Err ErrDB)
      end
    else
      match findEnrollTokenByHash db ok2 (hashEnrollToken enrollmentToken) with
      | None => (db, Err ErrInvalidToken)
      | Some (id, tok) =>
          if decide (revoked_at tok <> None) then (db, Err ErrRevoked)
          else
            match existing with
            | Some d => if decide (enroll_token_id d <> Some id) then (db, Err ErrDifferentToken) else (db, Ok tt)
            | None =>
                if ok3 then
                  let db := set_devices db (<[runtimeID := MkDevice kind_ "" (t_group_name tok) (Some id) (FormatRFC3339 now)]>
                                              (devices db)) in
                  let use t := MkToken (token_hash t) (t_display_name t) (t_group_name t) (created_by t) (t_created_at t)
                                 (Some runtimeID) (revoked_at t) in
                  (if ok4 then set_tokens db (alter use id (runtime_enroll_tokens db)) else db, Ok tt)
                else (db, Err ErrDB)
            end
      end
  else (db, Err ErrDB).

Definition GroupOf (db : DB) (ok : bool) (runtimeID : string) : res FleetError string :=
  if ok then Ok (match devices db !! runtimeID with Some d => default "" (group_name d) | None => "" end) else Err ErrDB.

Record DeviceInfo_ := MkDeviceInfo { Kind : string; DisplayName : string; GroupName : string; Enrolled : bool }.
Definition DeviceInfo (db : DB) (ok : bool) (runtimeID : string) : res FleetError DeviceInfo_ :=
  if ok then
    Ok (match devices db !! runtimeID with
        | Some d => MkDeviceInfo (kind d) (display_name d) (default "" (group_name d)) (bool_decide (enroll_token_id d <> None))
        | None => MkDeviceInfo "" "" "" false
        end)
  else Err ErrDB.

(** The device query, the insert, the rename and the assignment, each of which may fail. *)
Definition AssignRuntimeGroup (db : DB) (ok1 ok2 ok3 ok4 : bool) (now : Z) (runtimeID displayName : string)
    (group : option string) : DB * res FleetError unit :=
  if ok1 then
    let created :=
      match devices db !! runtimeID with
      | Some _ => Some db
      | None => if ok2 then Some (set_devices db (<[runtimeID := MkDevice "server" "" None None (FormatRFC3339 now)]> (devices db)))
                else None
      end in
    match created with
    | None => (db, Err ErrDB)
    | Some db =>
        let rename d := MkDevice (kind d) displayName (group_name d) (enroll_token_id d) (enrolled_at d) in
        if decide (displayName <> "" /\ ok3 = false) then (db, Err ErrDB)
        else
          let db := if decide (displayName <> "") then set_devices db (alter rename runtimeID (devices db)) else db in
          match group with
          | None => (db, Ok tt)
          | Some g =>
              let assign d := MkDevice (kind d) (display_name d) (nullable g) (enroll_token_id d) (enrolled_at d) in
              if ok4 then (set_devices db (alter assign runtimeID (devices db)), Ok tt) else (db, Err ErrDB)
          end
    end
  else (db, Err ErrDB).

(** ** Handlers: the status they answer *)

Definition admin_only (db : DB) (user : auth.User) (act : DB * Z) : DB * Z :=
  match auth.requireSystemAdmin user with Some st => (db, st) | None => act end.

Definition createRuntimeGroup (db : DB) (ok : bool) (now : Z) (user : auth.User) (body : option (string * string)) : DB * Z :=
  admin_only db user
    match body with
    | Some (name, description) =>
        if decide (name = "") then (db, 400)
        else match CreateRuntimeGroup db ok now name description with (db', Ok _) => (db', 201) | (db', _) => (db', 400) end
    | None => (db, 400)
    end.
Definition deleteRuntimeGroup (db : DB) (ok1 ok2 ok3 : bool) (user : auth.User) (name : string) : DB * Z :=
  admin_only db user
    match DeleteRuntimeGroup db ok1 ok2 ok3 name with (db', Ok _) => (db', 204) | (db', _) => (db', 500) end.
Definition createEnrollToken (db : DB) (ok : bool) (id : string) (plaintext : option string) (now : Z) (user : auth.User)
    (displayName group : string) : DB * Z :=
  admin_only db user
    match CreateEnrollToken db ok id plaintext now displayName group (auth.ID user) with
    | (db', Ok _) => (db', 201)
    | (db', _) => (db', 500)
    end.
Definition deleteEnrollToken (db : DB) (ok : bool) (now : Z) (user : auth.User) (id : string) : DB * Z :=
  admin_only db user
    match RevokeEnrollToken db ok now id with (db', Ok _) => (db', 204) | (db', _) => (db', 500) end.
(** [live]: the ids that [ListRuntimes] returns at the end. *)
Definition updateRuntime (db : DB) (ok1 ok2 ok3 ok4 : bool) (now : Z) (live : list string) (user : auth.User) (runtimeID : string)
    (body : option (string * option string)) : DB * Z :=
  admin_only db user
    match body with
    | None => (db, 400)
    | Some (displayName, group) =>
        match AssignRuntimeGroup db ok1 ok2 ok3 ok4 now runtimeID displayName group with
        | (db', Ok _) => (db', if bool_decide (runtimeID ∈ live) then 200 else 404)
        | (db', _) => (db', 500)
        end
    end.

(** ** Runs *)

Inductive op :=
| OCreateGroup (ok : bool) (now : Z) (name description : string)
| ODeleteGroup (ok1 ok2 ok3 : bool) (name : string)
| OCreateToken (ok : bool) (id : string) (plaintext : option string) (now : Z) (displayName group by_ : string)
| ORevoke (ok : bool) (now : Z) (id : string)
| OAuthenticate (ok1 ok2 ok3 ok4 : bool) (now : Z) (runtimeID kind token : string)
| OAssign (ok1 ok2 ok3 ok4 : bool) (now : Z) (runtimeID displayName : string) (group : option string).
Definition step (db : DB) (o : op) : DB :=
  match o with
  | OCreateGroup ok now name description => (CreateRuntimeGroup db ok now name description).1
  | ODeleteGroup ok1 ok2 ok3 name => (DeleteRuntimeGroup db ok1 ok2 ok3 name).1
  | OCreateToken ok id tok now d g b => (CreateEnrollToken db ok id tok now d g b).1
  | ORevoke ok now id => (RevokeEnrollToken db ok now id).1
  | OAuthenticate ok1 ok2 ok3 ok4 now r k tok => (Authenticate db ok1 ok2 ok3 ok4 now r k tok).1
  | OAssign ok1 ok2 ok3 ok4 now r d g => (AssignRuntimeGroup db ok1 ok2 ok3 ok4 now r d g).1
  end.
Definition run (db : DB) (ops : list op) : DB := fold_left step ops db.
Definition revokes (tid : string) (o : op) : bool :=
  match o with ORevoke true _ id => bool_decide (id = tid) | _ => false end.

(** The constraint UNIQUE on the token hash. *)
Definition tokens_ok (m : gmap string RuntimeEnrollToken) : Prop :=
  forall i j t u, m !! i = Some t -> m !! j = Some u -> token_hash t = token_hash u -> i = j.

(** The device is bound to a token, which is revoked or not. *)
Record bound (r tid hash : string) (revoked : bool) (db : DB) : Prop := {
  b_device : exists d, devices db !! r = Some d /\ enroll_token_id d = Some tid;
  b_token : exists t, runtime_enroll_tokens db !! tid = Some t /\ token_hash t = hash /\
                      bool_decide (revoked_at t <> None) = revoked;
  b_unique : tokens_ok (runtime_enroll_tokens db)
}.

Lemma tokens_fmap f m : (forall t, token_hash (f t) = token_hash t) -> tokens_ok m -> tokens_ok (f <$> m).
Proof.
  intros Hf Hok i j t u. rewrite !lookup_fmap, !fmap_Some. intros (t' & ? & ->) (u' & ? & ->). rewrite !Hf. eauto.
Qed.
Lemma tokens_alter f k m : (forall t, token_hash (f t) = token_hash t) -> tokens_ok m -> tokens_ok (alter f k m).
Proof.
  intros Hf Hok i j t u. rewrite !lookup_alter_Some.
  intros [(-> & t' & ? & ->)|[_ ?]] [(-> & u' & ? & ->)|[_ ?]]; rewrite ?Hf; eauto.
Qed.
Lemma token_alter f k (m : gmap string RuntimeEnrollToken) i t : m !! i = Some t -> alter f k m !! i = Some (if decide (k = i) then f t else t).
Proof. intros H. case_decide; subst; [rewrite lookup_alter_eq, H|rewrite lookup_alter_ne]; done. Qed.

Lemma bound_devices r tid h rv db m :
  bound r tid h rv db -> (exists d, m !! r = Some d /\ enroll_token_id d = Some tid) -> bound r tid h rv (set_devices db m).
Proof. by intros [_ ? ?] ?. Qed.

Lemma bound_alter r tid h rv db f k :
  (forall d, enroll_token_id (f d) = enroll_token_id d) -> bound r tid h rv db ->
  bound r tid h rv (set_devices db (alter f k (devices db))).
Proof.
  intros Hf Hb. apply bound_devices; [done|]. destruct (b_device _ _ _ _ _ Hb) as (d & Hd & Ht).
  destruct (decide (k = r)) as [-> |]; [rewrite lookup_alter_eq, Hd|rewrite lookup_alter_ne by done]; eexists; split; eauto.
  by rewrite Hf.
Qed.

Lemma bound_insert r tid h rv db k d :
  devices db !! k = None -> bound r tid h rv db -> bound r tid h rv (set_devices db (<[k := d]> (devices db))).
Proof.
  intros Hk Hb. apply bound_devices; [done|]. destruct (b_device _ _ _ _ _ Hb) as (d' & Hd & Ht).
  exists d'. rewrite lookup_insert_ne by congruence. done.
Qed.

Lemma bound_tokens r tid h rv db f k :
  (forall t, token_hash (f t) = token_hash t /\ revoked_at (f t) = revoked_at t) ->
  bound r tid h rv db -> bound r tid h rv (set_tokens db (alter f k (runtime_enroll_tokens db))).
Proof.
  intros Hf [Hd (t & Ht & Hh & Hr) Hu]. split; [done| |apply tokens_alter; [apply Hf|done]].
  cbn. rewrite (token_alter _ _ _ _ _ Ht). eexists. split; [done|].
  destruct (Hf t) as [E1 E2]. case_decide; rewrite ?E1, ?E2; done.
Qed.

Lemma DeleteRuntimeGroup_bound r tid h rv db ok1 ok2 ok3 name :
  bound r tid h rv db -> bound r tid h rv (DeleteRuntimeGroup db ok1 ok2 ok3 name).1.
Proof.
  intros Hb. unfold DeleteRuntimeGroup. destruct ok1; [|done].
  set (db1 := set_devices db _). assert (bound r tid h rv db1) as Hb1.
  { apply bound_devices; [done|]. destruct (b_device _ _ _ _ _ Hb) as (d & Hd & Ht).
    rewrite lookup_fmap, Hd. eexists. split; [done|]. by case_decide. }
  clearbody db1. destruct ok2; [|done].
  set (db2 := set_tokens db1 _). assert (bound r tid h rv db2) as Hb2.
  { destruct Hb1 as [Hd (t & Ht & Hh & Hr) Hu]. split; [done| |].
    - cbn. rewrite lookup_fmap, Ht. eexists. split; [done|]. by case_decide.
    - apply tokens_fmap; [|done]. intros t'. by case_decide. }
  clearbody db2. destruct ok3; [|done]. by destruct Hb2.
Qed.

Lemma CreateEnrollToken_bound r tid h rv db ok id tok now d g b :
  bound r tid h rv db -> bound r tid h rv (CreateEnrollToken db ok id tok now d g b).1.
Proof.
  intros [Hd (t & Ht & Hh & Hr) Hu]. unfold CreateEnrollToken. destruct tok as [tok|]; [|by split; eauto].
  destruct (ok && _) eqn:E; [|by split; eauto].
  apply andb_prop in E as [_ [Hid Hn]%negb_true_iff%orb_false_elim].
  apply bool_decide_eq_false in Hid. rewrite <- eq_None_not_Some in Hid.
  assert (forall i u, runtime_enroll_tokens db !! i = Some u -> token_hash u <> hashEnrollToken tok) as Hfresh.
  { intros i u Hi He. apply not_true_iff_false in Hn. apply Hn, existsb_exists.
    exists (i, u). split; [|by apply bool_decide_eq_true]. by apply list_elem_of_In, elem_of_map_to_list. }
  split; [done| |]; cbn.
  - exists t. rewrite lookup_insert_ne by congruence. done.
  - intros i j u v [[<- <-]|[_ Hi]]%lookup_insert_Some [[<- <-]|[_ Hj]]%lookup_insert_Some He; cbn in *; eauto;
      exfalso; eapply Hfresh; eauto.
Qed.

Lemma Authenticate_bound r tid h rv db ok1 ok2 ok3 ok4 now r' k tok :
  bound r tid h rv db -> bound r tid h rv (Authenticate db ok1 ok2 ok3 ok4 now r' k tok).1.
Proof.
  intros Hb. unfold Authenticate. destruct ok1; [|done]. case_decide.
  - destruct (devices db !! r') eqn:E; [by case_decide|]. destruct ok2; [|done]. by apply bound_insert.
  - destruct (findEnrollTokenByHash _ _ _) as [[id t]|]; [|done]. case_decide; [done|].
    destruct (devices db !! r') eqn:E; [by case_decide|]. destruct ok3; [|done].
    assert (bound r tid h rv (set_devices db (<[r' := MkDevice k "" (t_group_name t) (Some id) (FormatRFC3339 now)]> (devices db))))
      as Hb' by by apply bound_insert.
    destruct ok4; [|done]. by apply (bound_tokens _ _ _ _ _ _ id) with (2 := Hb').
Qed.

Lemma AssignRuntimeGroup_bound r tid h rv db ok1 ok2 ok3 ok4 now r' dn g :
  bound r tid h rv db -> bound r tid h rv (AssignRuntimeGroup db ok1 ok2 ok3 ok4 now r' dn g).1.
Proof.
  intros Hb. unfold AssignRuntimeGroup. destruct ok1; [|done].
  destruct (match devices db !! r' with Some _ => _ | None => _ end) as [db1|] eqn:E; [|done].
  assert (bound r tid h rv db1) as Hb1.
  { destruct (devices db !! r') eqn:E'; [by injection E as <-|]. destruct ok2; [|done]. injection E as <-. by apply bound_insert. }
  case_decide; [done|]. set (db2 := if decide _ then _ else _).
  assert (bound r tid h rv db2) as Hb2 by (unfold db2; case_decide; [by apply bound_alter|done]).
  destruct g; [|done]. destruct ok4; [|done]. by apply bound_alter.
Qed.

Lemma step_bound r tid h rv db o : bound r tid h rv db -> bound r tid h (rv || revokes tid o) (step db o).
Proof.
  intros Hb. destruct o; cbn [revokes step]; rewrite ?orb_false_r;
    eauto using DeleteRuntimeGroup_bound, CreateEnrollToken_bound, Authenticate_bound, AssignRuntimeGroup_bound.
  - unfold CreateRuntimeGroup. by destruct (ok && _); [destruct Hb|].
  - unfold RevokeEnrollToken. destruct ok; [|by rewrite orb_false_r].
    destruct Hb as [Hd (t & Ht & Hh & Hr) Hu]. split; [done| |by apply tokens_alter].
    cbn. rewrite (token_alter _ _ _ _ _ Ht). eexists. split; [done|].
    destruct (decide (id = tid)) as [-> |Hne]; [rewrite (bool_decide_true (tid = tid)) by done|rewrite (bool_decide_false (id = tid)) by done].
    + by rewrite orb_true_r.
    + by rewrite orb_false_r.
Qed.

Lemma run_bound r tid h ops : forall rv db, bound r tid h rv db -> bound r tid h (rv || existsb (revokes tid) ops) (run db ops).
Proof.
  induction ops as [|o ops IH]; intros rv db Hb; cbn; [by rewrite orb_false_r|].
  rewrite orb_assoc. apply IH. by apply step_bound.
Qed.

Lemma find_token db ok hash id t :
  findEnrollTokenByHash db ok hash = Some (id, t) -> runtime_enroll_tokens db !! id = Some t /\ token_hash t = hash.
Proof.
  unfold findEnrollTokenByHash. destruct ok; [|done]. intros [Hin Hb%bool_decide_eq_true]%find_some.
  split; [|done]. by apply elem_of_map_to_list, list_elem_of_In.
Qed.
Lemma find_token_Some db id t :
  tokens_ok (runtime_enroll_tokens db) -> runtime_enroll_tokens db !! id = Some t ->
  findEnrollTokenByHash db true (token_hash t) = Some (id, t).
Proof.
  intros Hu Ht. destruct (findEnrollTokenByHash db true (token_hash t)) as [[j u]|] eqn:E.
  - apply find_token in E as [Hj Hh]. assert (id = j) as <- by eauto. congruence.
  - exfalso. unfold findEnrollTokenByHash in E. eapply find_none with (x := (id, t)) in E.
    + by apply bool_decide_eq_false in E.
    + by apply list_elem_of_In, elem_of_map_to_list.
Qed.

(** [C21] Once a runtime is enrolled with a token, then whatever registrations, group
    assignments, deletions and revocations follow, a registration under its id is accepted
    exactly when it presents that token and the token was not revoked in between. *)
Theorem enrollment_binding db ops r k tid plaintext presented now :
  plaintext <> "" ->
  (forall a b, a ∈ [plaintext; presented] -> b ∈ [plaintext; presented] -> hashEnrollToken a = hashEnrollToken b -> a = b) ->
  bound r tid (hashEnrollToken plaintext) false db ->
  (Authenticate (run db ops) true true true true now r k presented).2 = Ok tt <->
  presented = plaintext /\ Forall (fun o => revokes tid o = false) ops.
Proof.
  intros Hne Hcf Hb. apply (run_bound _ _ _ ops) in Hb. rewrite orb_false_l in Hb. set (db' := run db ops) in *.
  destruct Hb as [(d & Hd & Hid) (t & Ht & Hh & Hr) Hu].
  assert (Forall (fun o => revokes tid o = false) ops <-> existsb (revokes tid) ops = false) as ->.
  { rewrite <- not_true_iff_false, existsb_exists, Forall_forall. setoid_rewrite <- list_elem_of_In.
    split; [intros H (o & Ho & E); by rewrite H in E|].
    intros H o Ho. apply not_true_iff_false. eauto. }
  rewrite <- Hr, bool_decide_eq_false. unfold Authenticate. rewrite Hd. case_decide as Hp.
  - rewrite decide_True by congruence. cbn. split; [done|]. intros [-> _]. done.
  - destruct (findEnrollTokenByHash db' true _) as [[id t']|] eqn:E.
    + apply find_token in E as [Ht' Hh']. case_decide as Hrev; cbn.
      * split; [done|]. intros [-> Hn]. exfalso. apply Hn. assert (tid = id) as <- by (eapply Hu; eauto; congruence). congruence.
      * case_decide as Hdiff; cbn.
        -- split; [done|]. intros [-> Hn]. exfalso. apply Hdiff. rewrite Hid. f_equal. eapply Hu; eauto. congruence.
        -- split; [|done]. intros _. assert (Some id = Some tid) as [= ->] by (rewrite <- Hid; apply dec_stable; congruence).
           assert (t = t') as <- by congruence. split; [apply Hcf; [set_solver..|congruence]|]. auto.
    + split; [done|]. intros [-> _]. pose proof (find_token_Some db' tid t Hu Ht) as E'. rewrite Hh in E'. congruence.
Qed.

(** The row of a token once a runtime has enrolled with it. *)
Definition used_by (r : string) (t : RuntimeEnrollToken) : RuntimeEnrollToken :=
  MkToken (token_hash t) (t_display_name t) (t_group_name t) (created_by t) (t_created_at t) (Some r) (revoked_at t).

Lemma Authenticate_new db id t plaintext r k now :
  plaintext <> "" -> tokens_ok (runtime_enroll_tokens db) -> runtime_enroll_tokens db !! id = Some t ->
  token_hash t = hashEnrollToken plaintext -> revoked_at t = None -> devices db !! r = None ->
  Authenticate db true true true true now r k plaintext =
    (MkDB (runtime_groups db) (alter (used_by r) id (runtime_enroll_tokens db))
       (<[r := MkDevice k "" (t_group_name t) (Some id) (FormatRFC3339 now)]> (devices db)), Ok tt).
Proof.
  intros Hp Hu Ht Hh Hr Hd. unfold Authenticate. rewrite decide_False, Hd by done.
  rewrite <- Hh, (find_token_Some _ id t) by done. by destruct (decide (revoked_at t <> None)).
Qed.

(** One token enrolls any number of runtimes: its [used_by_runtime_id] is written and never
    read. *)
Theorem enroll_token_is_shared db id t plaintext r1 r2 k1 k2 now :
  plaintext <> "" -> tokens_ok (runtime_enroll_tokens db) -> runtime_enroll_tokens db !! id = Some t ->
  token_hash t = hashEnrollToken plaintext -> revoked_at t = None ->
  devices db !! r1 = None -> devices db !! r2 = None -> r1 <> r2 ->
  let '(db1, a1) := Authenticate db true true true true now r1 k1 plaintext in
  let '(db2, a2) := Authenticate db1 true true true true now r2 k2 plaintext in
  a1 = Ok tt /\ a2 = Ok tt /\
  (enroll_token_id <$> devices db2 !! r1) = Some (Some id) /\ (enroll_token_id <$> devices db2 !! r2) = Some (Some id).
Proof.
  intros Hp Hu Ht Hh Hr H1 H2 Hne. rewrite (Authenticate_new db id t) by done.
  rewrite (Authenticate_new _ id (used_by r1 t)); cbn; try done.
  - rewrite lookup_insert_ne, !lookup_insert_eq by done. done.
  - by apply tokens_alter.
  - by rewrite lookup_alter_eq, Ht.
  - by rewrite lookup_insert_ne.
Qed.

(** A runtime that has a device row without a token (it registered without one, or an
    administrator gave it a group first) can never enroll: the valid token it presents is
    refused as a different one. *)
Theorem unenrolled_cannot_enroll db r d id t plaintext k now :
  plaintext <> "" -> tokens_ok (runtime_enroll_tokens db) -> runtime_enroll_tokens db !! id = Some t ->
  token_hash t = hashEnrollToken plaintext -> revoked_at t = None ->
  devices db !! r = Some d -> enroll_token_id d = None ->
  Authenticate db true true true true now r k plaintext = (db, Err ErrDifferentToken).
Proof.
  intros Hp Hu Ht Hh Hr Hd He. unfold Authenticate. rewrite decide_False, Hd by done.
  rewrite <- Hh, (find_token_Some _ id t) by done. destruct (decide (revoked_at t <> None)); [done|].
  destruct (decide (enroll_token_id d <> Some id)) as [|Hn]; [done|]. rewrite He in Hn. by destruct Hn.
Qed.
End store.

(** ** Examples *)
Module examples.
Definition db0 : DB :=
  (Authenticate id (CreateEnrollToken id emptyDB true "t1" (Some "secret") 0 "press 1" "" "u0").1
     true true true true 1 "press-1" "edge" "secret").1.

Lemma db0_bound : bound "press-1" "t1" "secret" false db0.
Proof.
  split.
  - eexists. split; vm_compute; reflexivity.
  - eexists. split; [vm_compute; reflexivity|]. split; vm_compute; reflexivity.
  - replace (runtime_enroll_tokens db0) with ({["t1" := MkToken "secret" "press 1" None "u0" 0 (Some "press-1") None]}
      : gmap string RuntimeEnrollToken) by (vm_compute; reflexivity).
    by intros i j t u [<- <-]%lookup_singleton_Some [<- <-]%lookup_singleton_Some _.
Qed.

Lemma enrollment_binding_witness :
  (Authenticate id (run id db0 [OAuthenticate true true true true 2 "press-2" "edge" "secret"])
     true true true true 3 "press-1" "edge" "secret").2 = Ok tt.
Proof.
  apply (enrollment_binding id db0 [OAuthenticate true true true true 2 "press-2" "edge" "secret"]
           "press-1" "edge" "t1" "secret" "secret" 3).
  - discriminate.
  - intros a b _ _ E. exact E.
  - exact db0_bound.
  - split; [reflexivity|]. repeat constructor.
Defined.

(** Another token, no token, and a revoked token are refused. *)
Example binding_refuses :
  (Authenticate id db0 true true true true 3 "press-1" "edge" "other").2 = Err ErrInvalidToken /\
  (Authenticate id db0 true true true true 3 "press-1" "edge" "").2 = Err ErrTokenRequired /\
  (Authenticate id (RevokeEnrollToken db0 true 2 "t1").1 true true true true 3 "press-1" "edge" "secret").2 = Err ErrRevoked.
Proof. vm_compute. split_and!; reflexivity. Qed.
End examples.
End fleet.
