(* ===== verification/Alerting.v ===== *)
(** * Alert rules ([controlplane/internal/alerting/evaluator.go], [api/alerting.go])

    The evaluator and the store it works on: rules and alerts as tables, the periodic
    evaluation of every enabled rule against the runtimes' state, and the webhook calls it
    makes, in order, each with its outcome.  Every statement and every call may fail; fresh
    ids and the clock are arguments. *)

From S2P Require Import Prelude Bytes GoStd Auth.
Import gostd.
Local Open Scope Z_scope.

Module alerting.

Definition MetricConnectionDown : string := "connectionDown".
Definition MetricEdgeOffline : string := "edgeOffline".

Record AlertRule := MkAlertRule {
  ID : string; Name : string; Metric : string; TargetRuntimeID : string; WebhookURL : string; Enabled : bool; CreatedAt : Z
}.
Record Alert := MkAlert {
  a_ID : string; RuleID : string; State : string; Message : string; FiredAt : Z; ResolvedAt : option Z
}.
Record RuntimeStatus := MkRuntimeStatus { RuntimeID : string; Online : bool }.

(** The outcome of a webhook call: no request could be built (encoding the payload or parsing the URL
    failed), the request failed, or the server answered, with a status that nobody looks at. *)
Inductive delivery := Unbuilt | Failed | Answered (status : Z).
Record call := MkCall { c_rule : string; c_state : string; c_message : string; c_out : delivery }.
(** The tables, and the webhook calls made so far. *)
Record world := MkWorld { rules : list AlertRule; alerts : list Alert; hooks : list call }.

(** ** The store *)

Definition CreateAlertRule (w : world) (ok : bool) (id : string) (now : Z) (name metric target url : string)
  : world * res string AlertRule :=
  let rule := MkAlertRule id name metric target url true (FormatRFC3339 now) in
  if ok && bool_decide (id ∉ map ID (rules w)) then (MkWorld (rules w ++ [rule]) (alerts w) (hooks w), Ok rule)
  else (w, Err "api: creating alert rule").

Definition DeleteAlertRule (w : world) (ok : bool) (id : string) : world * res string unit :=
  if ok then (MkWorld (filter (fun r => ID r <> id) (rules w)) (alerts w) (hooks w), Ok tt) else (w, Err "db").

(** [ListEnabledRules] of the adapter in main.go. *)
Definition ListEnabledRules (w : world) (ok : bool) : res string (list AlertRule) :=
  if ok then Ok (filter (fun r => Enabled r = true) (rules w)) else Err "api: listing alert rules".

(** The alerts of a rule that are firing. *)
Definition firing_of (ruleID : string) (l : list Alert) : list Alert :=
  filter (fun a => RuleID a = ruleID /\ State a = "firing") l.
(** [ORDER BY fired_at DESC LIMIT 1] *)
Fixpoint latest (l : list Alert) : option Alert :=
  match l with
  | [] => None
  | a :: l' => match latest l' with
               | Some b => Some (if FiredAt a <? FiredAt b then b else a)
               | None => Some a
               end
  end.
Definition OpenAlert (w : world) (ok : bool) (ruleID : string) : res string (option string) :=
  if ok then Ok (a_ID <$> latest (firing_of ruleID (alerts w))) else Err "api: finding open alert".

Definition CreateAlert (w : world) (ok : bool) (id : string) (now : Z) (ruleID message : string) : world * res string unit :=
  if ok && bool_decide (id ∉ map a_ID (alerts w)) then
    (MkWorld (rules w) (alerts w ++ [MkAlert id ruleID "firing" message (FormatRFC3339 now) None]) (hooks w), Ok tt)
  else (w, Err "api: creating alert").

Definition resolve (now : Z) (id : string) (a : Alert) : Alert :=
  if decide (a_ID a = id) then MkAlert (a_ID a) (RuleID a) "resolved" (Message a) (FiredAt a) (Some (FormatRFC3339 now)) else a.
Definition ResolveAlert (w : world) (ok : bool) (now : Z) (id : string) : world * res string unit :=
  if ok then (MkWorld (rules w) (map (resolve now id) (alerts w)) (hooks w), Ok tt) else (w, Err "api: resolving alert").

(** [createAlertRule]: who may create which rule. *)
Definition createAlertRule (w : world) (ok : bool) (id : string) (now : Z) (user : auth.User)
    (body : option (string * string * string * string)) : world * Z :=
  match auth.requireSystemAdmin user with
  | Some st => (w, st)
  | None =>
      match body with
      | None => (w, 400)
      | Some (name, metric, target, url) =>
          if decide (name = "") then (w, 400)
          else if decide (metric <> MetricConnectionDown /\ metric <> MetricEdgeOffline) then (w, 400)
          else if decide (metric = MetricConnectionDown /\ target = "") then (w, 400)
          else match CreateAlertRule w ok id now name metric target url with
               | (w', Ok _) => (w', 201)
               | (w', _) => (w', 500)
               end
      end
  end.
Definition deleteAlertRule (w : world) (ok : bool) (user : auth.User) (id : string) : world * Z :=
  match auth.requireSystemAdmin user with
  | Some st => (w, st)
  | None => match DeleteAlertRule w ok id with (w', Ok _) => (w', 204) | (w', _) => (w', 500) end
  end.

(** ** The evaluator *)

(** The elements of a string slice as [%v] prints them. *)
Definition brackets (l : list string) : string := "[" +:+ String.concat " " l +:+ "]".

Definition evaluateRule (rule : AlertRule) (statuses : list RuntimeStatus) : bool * string :=
  if decide (Metric rule = MetricConnectionDown) then
    match List.find (fun s => bool_decide (RuntimeID s = TargetRuntimeID rule) && negb (Online s)) statuses with
    | Some s => (true, "runtime " +:+ RuntimeID s +:+ " is offline")
    | None => (false, "")
    end
  else if decide (Metric rule = MetricEdgeOffline) then
    let offline := map RuntimeID (filter (fun s => Online s = false) statuses) in
    if 0 <? zlen offline then
      (true, string_of_bytes (FormatInt (zlen offline)) +:+ " runtime(s) offline: " +:+ brackets offline)
    else (false, "")
  else (false, "").

(** Whatever comes of the call, [fireWebhook] returns nothing: a failure is at most logged. *)
Definition fireWebhook (w : world) (out : delivery) (rule : AlertRule) (state message : string) : world :=
  if decide (WebhookURL rule = "") then w
  else MkWorld (rules w) (alerts w) (hooks w ++ [MkCall (ID rule) state message out]).

(** The outcome of the two statements that a rule needs and of its webhook call, and the id of a new alert. *)
Record attempt := MkAttempt { ok_open : bool; ok_write : bool; hook : delivery; newID : string }.

Definition applyResult (w : world) (t : attempt) (now : Z) (rule : AlertRule) (firing : bool) (message : string)
  : world * res string unit :=
  match OpenAlert w (ok_open t) (ID rule) with
  | Err e => (w, Err e)
  | Panic => (w, Panic)
  | Ok found =>
      match firing, found with
      | true, None =>
          match CreateAlert w (ok_write t) (newID t) now (ID rule) message with
          | (w', Ok _) => (fireWebhook w' (hook t) rule "firing" message, Ok tt)
          | (w', e) => (w', e)
          end
      | false, Some openID =>
          match ResolveAlert w (ok_write t) now openID with
          | (w', Ok _) => (fireWebhook w' (hook t) rule "resolved" "", Ok tt)
          | (w', e) => (w', e)
          end
      | _, _ => (w, Ok tt)
      end
  end.

(** One evaluation: the outcome of the two queries, the runtimes' state, and the attempts by
    rule. *)
Record evaluation := MkEvaluation {
  ok_rules : bool; statuses : res string (list RuntimeStatus); at_ : Z; attempts : string -> attempt
}.

Definition evaluateRules (w : world) (e : evaluation) (ss : list RuntimeStatus) (l : list AlertRule) : world :=
  fold_left (fun w rule =>
    let '(firing, message) := evaluateRule rule ss in
    (applyResult w (attempts e (ID rule)) (at_ e) rule firing message).1) l w.
Definition evaluateOnce (w : world) (e : evaluation) : world :=
  match ListEnabledRules w (ok_rules e) with
  | Ok l =>
      if decide (l = []) then w
      else match statuses e with Ok ss => evaluateRules w e ss l | _ => w end
  | _ => w
  end.
(** [Run]: an evaluation per tick. *)
Definition Run (w : world) (l : list evaluation) : world := fold_left evaluateOnce l w.

(** ** What it keeps *)

(** The states that calls to a rule's webhook carried, oldest first; and those the server answered. *)
Definition hooks_of (id : string) (l : list call) : list string := map c_state (filter (fun h => c_rule h = id) l).
Definition answered (h : call) : bool := match c_out h with Answered _ => true | _ => false end.
Definition received (id : string) (l : list call) : list string := hooks_of id (filter (fun h => answered h = true) l).
(** Calls alternate, starting with "firing"; the flag says whether an alert is open. *)
Inductive alternates : list string -> bool -> Prop :=
| alt_nil : alternates [] false
| alt_fire l : alternates l false -> alternates (l ++ ["firing"]) true
| alt_resolve l : alternates l true -> alternates (l ++ ["resolved"]) false.

Record rule_inv (rule : AlertRule) (w : world) : Prop := {
  ri_ids : NoDup (map a_ID (alerts w));
  ri_one : (length (firing_of (ID rule) (alerts w)) <= 1)%nat;
  ri_hooks : WebhookURL rule <> "" ->
    alternates (hooks_of (ID rule) (hooks w)) (bool_decide (firing_of (ID rule) (alerts w) <> []))
}.

Arguments firing_of : simpl never.
Arguments hooks_of : simpl never.

Lemma latest_elem l a : latest l = Some a -> a ∈ l.
Proof.
  revert a. induction l as [|b l IH]; intros a; cbn; [done|].
  destruct (latest l) as [c|]; intros [= <-]; [case_match|]; set_solver.
Qed.
Lemma latest_nil l : latest l = None <-> l = [].
Proof. split; [|by intros ->]. destruct l as [|a l]; cbn; [done|]. by destruct (latest l). Qed.

Lemma firing_of_app q l k : firing_of q (l ++ k) = firing_of q l ++ firing_of q k.
Proof. apply filter_app. Qed.
Lemma firing_of_resolve q now id l :
  firing_of q (map (resolve now id) l) = filter (fun a => a_ID a <> id) (firing_of q l).
Proof.
  unfold firing_of. induction l as [|a l IH]; [done|]. rewrite map_cons, !filter_cons, IH. unfold resolve.
  destruct (decide (a_ID a = id)) as [E|Hne]; cbn.
  - destruct (decide (RuleID a = q /\ "resolved" = "firing")) as [[_ ?]|_]; [done|].
    destruct (decide (RuleID a = q /\ State a = "firing")); [|done].
    by rewrite filter_cons, decide_False by auto.
  - destruct (decide (RuleID a = q /\ State a = "firing")); [|done]. by rewrite filter_cons, decide_True.
Qed.
Lemma resolve_ids now id l : map a_ID (map (resolve now id) l) = map a_ID l.
Proof. rewrite map_map. apply map_ext. intros a. unfold resolve. by case_decide. Qed.

Lemma hooks_fire_same w out rule state message : WebhookURL rule <> "" ->
  hooks_of (ID rule) (hooks (fireWebhook w out rule state message)) = hooks_of (ID rule) (hooks w) ++ [state].
Proof.
  intros H. unfold fireWebhook. rewrite decide_False by done. unfold hooks_of. cbn.
  rewrite filter_app, map_app. f_equal. by rewrite filter_cons, decide_True.
Qed.
Lemma hooks_fire_other w out rule state message q : ID rule <> q ->
  hooks_of q (hooks (fireWebhook w out rule state message)) = hooks_of q (hooks w).
Proof.
  intros H. unfold fireWebhook. case_decide; [done|]. unfold hooks_of. cbn.
  rewrite filter_app, map_app, (filter_cons_False) by done. by rewrite app_nil_r.
Qed.
Lemma alerts_fire w out rule state message : alerts (fireWebhook w out rule state message) = alerts w.
Proof. unfold fireWebhook. by case_decide. Qed.

(** A rule that is not the one evaluated keeps its alerts and notifications. *)
Lemma apply_other w t now rule firing message q :
  NoDup (map a_ID (alerts w)) -> ID rule <> q ->
  let w' := (applyResult w t now rule firing message).1 in
  firing_of q (alerts w') = firing_of q (alerts w) /\ hooks_of q (hooks w') = hooks_of q (hooks w) /\
  NoDup (map a_ID (alerts w')).
Proof.
  intros Hnd Hne. unfold applyResult, OpenAlert. destruct (ok_open t); [|done].
  destruct (latest (firing_of (ID rule) (alerts w))) as [a|] eqn:E; destruct firing; cbn; try done.
  - unfold ResolveAlert. destruct (ok_write t); [|done]. cbn. rewrite alerts_fire, hooks_fire_other by done. cbn.
    rewrite resolve_ids. split_and!; [|done..]. rewrite firing_of_resolve. apply filter_id.
    apply latest_elem in E. unfold firing_of in E. apply list_elem_of_filter in E as [[Ha _] Hin].
    apply Forall_forall. intros b Hb Eid. unfold firing_of in Hb. apply list_elem_of_filter in Hb as [[Hb _] Hinb].
    assert (b = a) as -> by (by eapply NoDup_map_inj). congruence.
  - unfold CreateAlert. destruct (ok_write t && _) eqn:Ec; [|done]. cbn.
    apply andb_prop in Ec as [_ Hfresh%bool_decide_eq_true].
    rewrite alerts_fire, hooks_fire_other by done. cbn. rewrite firing_of_app, map_app. split_and!; [|done|].
    + unfold firing_of at 2. rewrite filter_cons_False by (cbn; tauto). by rewrite app_nil_r.
    + apply NoDup_app. split_and!; [done|set_solver|apply NoDup_singleton].
Qed.

(** Whether the rule has an open alert. *)
Definition open (rule : AlertRule) (w : world) : bool := bool_decide (firing_of (ID rule) (alerts w) <> []).
(** The rule that is evaluated: its invariant is kept, a call is made only when an alert opens or
    closes, and when its statements succeed an alert is open exactly when the rule holds. *)
Lemma apply_same w t now rule firing message :
  rule_inv rule w ->
  let w' := (applyResult w t now rule firing message).1 in
  rule_inv rule w' /\
  (open rule w' = open rule w -> hooks_of (ID rule) (hooks w') = hooks_of (ID rule) (hooks w)) /\
  (ok_open t = true -> ok_write t = true -> newID t ∉ map a_ID (alerts w) ->
   firing_of (ID rule) (alerts w') <> [] <-> firing = true).
Proof.
  intros Hinv. unfold open. pose proof Hinv as [Hnd Hone Hh]. unfold applyResult, OpenAlert. destruct (ok_open t); [|done].
  destruct (latest (firing_of (ID rule) (alerts w))) as [a|] eqn:E.
  - pose proof (latest_elem _ _ E) as Ha. destruct (firing_of (ID rule) (alerts w)) as [|b [|]] eqn:El; [set_solver| |cbn in Hone; lia].
    apply list_elem_of_singleton in Ha as ->.
    destruct firing; cbn; [split; [done|]; split; [done|]; intros; rewrite El; split; congruence|].
    unfold ResolveAlert. destruct (ok_write t); cbn; [|done].
    assert (firing_of (ID rule) (map (resolve now (a_ID b)) (alerts w)) = []) as Enil.
    { rewrite firing_of_resolve, El, filter_cons_False by (intros H; by apply H). done. }
    split; [split|split]; rewrite ?alerts_fire; cbn; rewrite ?resolve_ids, ?Enil, ?El; [done|cbn; lia| |done|by split; [congruence|]].
    intros Hu. rewrite hooks_fire_same by done. rewrite bool_decide_false by auto. apply alt_resolve. by apply Hh.
  - apply latest_nil in E. destruct firing; cbn; [|split; [done|]; split; [done|]; by rewrite E].
    unfold CreateAlert. destruct (ok_write t && _) eqn:Ec; cbn.
    + apply andb_prop in Ec as [_ Hfresh%bool_decide_eq_true].
      assert (firing_of (ID rule) (alerts w ++ [MkAlert (newID t) (ID rule) "firing" message (FormatRFC3339 now) None]) =
              [MkAlert (newID t) (ID rule) "firing" message (FormatRFC3339 now) None]) as E1.
      { rewrite firing_of_app, E. unfold firing_of. by rewrite filter_cons_True. }
      split; [split|split]; rewrite ?alerts_fire; cbn; rewrite ?E1, ?E; [|cbn; lia| |done|done].
      * rewrite map_app. apply NoDup_app. split_and!; [done|set_solver|apply NoDup_singleton].
      * intros Hu. rewrite hooks_fire_same by done. rewrite bool_decide_true by done. apply alt_fire.
        specialize (Hh Hu). rewrite E in Hh. done.
    + split; [done|]. split; [done|]. intros _ Hw Hf. rewrite Hw, bool_decide_true in Ec by done. done.
Qed.

Lemma apply_ids w t now rule firing message x :
  x ∈ map a_ID (alerts (applyResult w t now rule firing message).1) -> x ∈ map a_ID (alerts w) \/ x = newID t.
Proof.
  unfold applyResult, OpenAlert. destruct (ok_open t); [|by left].
  destruct (latest _), firing; cbn; try by left.
  - unfold ResolveAlert. destruct (ok_write t); [|by left]. cbn. rewrite alerts_fire. cbn. rewrite resolve_ids. by left.
  - unfold CreateAlert. destruct (ok_write t && _); [|by left]. cbn. rewrite alerts_fire. cbn. rewrite map_app. set_solver.
Qed.

Lemma rule_inv_frame rule w w' :
  rule_inv rule w -> firing_of (ID rule) (alerts w') = firing_of (ID rule) (alerts w) ->
  hooks_of (ID rule) (hooks w') = hooks_of (ID rule) (hooks w) -> NoDup (map a_ID (alerts w')) -> rule_inv rule w'.
Proof. intros [? ? ?] Ef Eh ?. split; [done|by rewrite Ef|]. by rewrite Ef, Eh. Qed.

(** The rules before and after one rule do not touch its alerts. *)
Lemma evaluate_others e ss l q : forall w,
  q ∉ map ID l -> NoDup (map a_ID (alerts w)) ->
  let w' := evaluateRules w e ss l in
  firing_of q (alerts w') = firing_of q (alerts w) /\ hooks_of q (hooks w') = hooks_of q (hooks w) /\
  NoDup (map a_ID (alerts w')) /\
  forall x, x ∈ map a_ID (alerts w') -> x ∈ map a_ID (alerts w) \/ exists r, r ∈ l /\ x = newID (attempts e (ID r)).
Proof.
  induction l as [|r l IH]; intros w Hq Hnd; [by eauto|].
  change (evaluateRules w e ss (r :: l)) with
    (evaluateRules (let '(firing, message) := evaluateRule r ss in
       (applyResult w (attempts e (ID r)) (at_ e) r firing message).1) e ss l).
  destruct (evaluateRule r ss) as [firing message].
  destruct (apply_other w (attempts e (ID r)) (at_ e) r firing message q) as (Ef & Eh & Hnd'); [done|set_solver|].
  pose proof (apply_ids w (attempts e (ID r)) (at_ e) r firing message) as Hids.
  destruct (IH (applyResult w (attempts e (ID r)) (at_ e) r firing message).1) as (Ef' & Eh' & Hnd'' & Hids'); [set_solver|done|].
  cbv zeta in *. rewrite Ef', Eh'. split_and!; [done..|]. intros x Hx.
  destruct (Hids' x Hx) as [H|(r' & ? & ?)]; [|right; exists r'; set_solver].
  destruct (Hids x H); [by left|]. right. exists r. set_solver.
Qed.

(** Ids for new alerts are fresh. *)
Definition fresh_for (rule : AlertRule) (e : evaluation) (w : world) : Prop :=
  (newID (attempts e (ID rule)) ∉ map a_ID (alerts w)) /\
  forall r, r ∈ rules w -> newID (attempts e (ID r)) = newID (attempts e (ID rule)) -> ID r = ID rule.

Lemma evaluateRules_inv e ss l w rule :
  l ⊆ rules w -> NoDup (map ID l) -> rule ∈ l -> rule_inv rule w ->
  let w' := evaluateRules w e ss l in
  rule_inv rule w' /\
  (open rule w' = open rule w -> hooks_of (ID rule) (hooks w') = hooks_of (ID rule) (hooks w)) /\
  (ok_open (attempts e (ID rule)) = true -> ok_write (attempts e (ID rule)) = true -> fresh_for rule e w ->
   firing_of (ID rule) (alerts w') <> [] <-> (evaluateRule rule ss).1 = true).
Proof.
  intros Hsub Hnd (l1 & l2 & ->)%list_elem_of_split Hinv.
  rewrite map_app, map_cons in Hnd. apply NoDup_app in Hnd as (_ & Hd & [Hr2 _]%NoDup_cons).
  assert (ID rule ∉ map ID l1) as Hr1 by set_solver.
  unfold evaluateRules. rewrite fold_left_app. cbn [fold_left]. fold (evaluateRules w e ss l1).
  destruct (evaluate_others e ss l1 (ID rule) w Hr1 (ri_ids _ _ Hinv)) as (Ef & Eh & Hnd1 & Hids).
  set (w1 := evaluateRules w e ss l1) in *.
  assert (rule_inv rule w1) as Hinv1 by by eapply rule_inv_frame.
  destruct (evaluateRule rule ss) as [firing message].
  destruct (apply_same w1 (attempts e (ID rule)) (at_ e) rule firing message Hinv1) as (Hinv2 & Hcall & Hf).
  set (w2 := (applyResult w1 _ _ _ _ _).1) in *. fold (evaluateRules w2 e ss l2).
  destruct (evaluate_others e ss l2 (ID rule) w2 Hr2 (ri_ids _ _ Hinv2)) as (Ef2 & Eh2 & Hnd2 & _).
  split; [by eapply rule_inv_frame|]. split; [unfold open in *; by rewrite Ef2, Eh2, <- Eh, <- Ef|]. rewrite Ef2. intros Ho Hw [Hn Hu]. apply Hf; [done..|].
  intros [?|(r & Hr & E)]%Hids; [done|]. apply Hr1. rewrite <- (Hu r); [|set_solver|done].
  apply list_elem_of_fmap. eauto.
Qed.

(** When a rule holds: its runtime is known to be offline, or any runtime is. *)
Definition rule_holds (rule : AlertRule) (ss : list RuntimeStatus) : Prop :=
  (Metric rule = MetricConnectionDown /\ exists s, s ∈ ss /\ RuntimeID s = TargetRuntimeID rule /\ Online s = false) \/
  (Metric rule = MetricEdgeOffline /\ exists s, s ∈ ss /\ Online s = false).

Lemma evaluateRule_holds rule ss : (evaluateRule rule ss).1 = true <-> rule_holds rule ss.
Proof.
  unfold evaluateRule, rule_holds. destruct (decide (Metric rule = MetricConnectionDown)) as [E|Hne].
  - rewrite E. destruct (List.find _ ss) as [s|] eqn:F; cbn.
    + apply find_some in F as [Hin [Hid%bool_decide_eq_true Ho%negb_true_iff]%andb_prop].
      split; [|done]. intros _. left. split; [done|]. exists s. split; [by apply list_elem_of_In|done].
    + split; [done|]. intros [[_ (s & Hin & Hid & Ho)]|[? _]]; [|done].
      apply list_elem_of_In in Hin. apply (find_none _ _ F) in Hin. rewrite bool_decide_true, Ho in Hin by done. done.
  - destruct (decide (Metric rule = MetricEdgeOffline)) as [E|Hne']; [|naive_solver].
    destruct (filter (fun s => Online s = false) ss) as [|s l] eqn:F.
    + split; [done|]. intros [[? _]|[_ (s & Hin & Ho)]]; [done|].
      assert (s ∈ filter (fun s => Online s = false) ss) as Hs by by apply list_elem_of_filter. rewrite F in Hs. set_solver.
    + assert (s ∈ filter (fun s => Online s = false) ss) as [Ho Hin]%list_elem_of_filter by (rewrite F; set_solver).
      destruct (Z.ltb_spec 0 (zlen (map RuntimeID (s :: l)))) as [_|H]; [|unfold zlen in H; cbn in H; lia].
      split; [|done]. intros _. right. eauto.
Qed.

Lemma apply_rules w t now rule firing message : rules (applyResult w t now rule firing message).1 = rules w.
Proof.
  unfold applyResult, OpenAlert, ResolveAlert, CreateAlert, fireWebhook. destruct (ok_open t); [|done].
  destruct (latest _), firing; cbn; repeat (case_match; simplify_eq; cbn); done.
Qed.
Lemma evaluateRules_rules e ss l : forall w, rules (evaluateRules w e ss l) = rules w.
Proof.
  induction l as [|r l IH]; intros w; [done|]. cbn. unfold evaluateRules in IH. rewrite IH.
  destruct (evaluateRule r ss). apply apply_rules.
Qed.
Lemma evaluateOnce_rules w e : rules (evaluateOnce w e) = rules w.
Proof.
  unfold evaluateOnce. destruct (ListEnabledRules w (ok_rules e)); [|done..]. case_decide; [done|].
  destruct (statuses e); [|done..]. apply evaluateRules_rules.
Qed.

Lemma NoDup_map_filter (l : list AlertRule) :
  NoDup (map ID l) -> NoDup (map ID (filter (fun r => Enabled r = true) l)).
Proof.
  induction l as [|r l IH]; [done|]. rewrite map_cons. intros [Hr Hnd]%NoDup_cons. rewrite filter_cons.
  case_decide; [|auto]. rewrite map_cons. apply NoDup_cons. split; [|auto]. contradict Hr.
  apply list_elem_of_fmap in Hr as (x & E & [_ Hx]%list_elem_of_filter). apply list_elem_of_fmap. eauto.
Qed.

Lemma evaluateOnce_inv w e rule :
  NoDup (map ID (rules w)) -> rule ∈ rules w -> Enabled rule = true -> rule_inv rule w ->
  rule_inv rule (evaluateOnce w e) /\
  (open rule (evaluateOnce w e) = open rule w ->
   hooks_of (ID rule) (hooks (evaluateOnce w e)) = hooks_of (ID rule) (hooks w)) /\
  (forall ss, ok_rules e = true -> statuses e = Ok ss -> ok_open (attempts e (ID rule)) = true ->
     ok_write (attempts e (ID rule)) = true -> fresh_for rule e w ->
     firing_of (ID rule) (alerts (evaluateOnce w e)) <> [] <-> rule_holds rule ss).
Proof.
  intros Hnd Hin Hen Hinv. unfold evaluateOnce, ListEnabledRules. destruct (ok_rules e); [|done].
  assert (rule ∈ filter (fun r => Enabled r = true) (rules w)) as Hrule by by apply list_elem_of_filter.
  rewrite decide_False by (intros E; rewrite E in Hrule; set_solver).
  destruct (statuses e) as [ss|err|]; [|done..].
  destruct (evaluateRules_inv e ss (filter (fun r => Enabled r = true) (rules w)) w rule) as (Hinv' & Hcall & Hf); auto.
  - intros r [_ ?]%list_elem_of_filter. done.
  - by apply NoDup_map_filter.
  - split; [done|]. split; [done|]. intros ss' _ [= <-] Ho Hw Hfr. rewrite <- evaluateRule_holds. by apply Hf.
Qed.

Lemma hooks_sublist id l : received id l `sublist_of` hooks_of id l /\ (Forall (fun h => answered h = true) l -> received id l = hooks_of id l).
Proof.
  unfold received, hooks_of. split; [|intros H; by rewrite (filter_id _ _ H)].
  induction l as [|h l IH]; [constructor|]. rewrite !filter_cons. destruct (decide (answered h = true)), (decide (c_rule h = id)) as [E|E];
    rewrite ?filter_cons, ?(decide_True _ _ E), ?(decide_False _ _ E); cbn; by try constructor.
Qed.

(** [C40] Along any sequence of evaluations, with statements and webhook calls failing in any way: a
    rule has at most one open alert; the calls made to its webhook carry "firing" and "resolved" in
    turn, the last one telling whether an alert is open; the server hears of them in that order, of all
    of them when no call fails, and a call that fails is not made again: an evaluation that leaves the
    rule's alert open, or without one, as it was makes no call for it; and after an evaluation in which
    the rule's statements succeed, an alert is open exactly when the rule holds for the runtimes' state. *)
Theorem alerts_follow_rules w0 evs rule :
  NoDup (map ID (rules w0)) -> alerts w0 = [] -> hooks w0 = [] -> rule ∈ rules w0 -> Enabled rule = true ->
  let w := Run w0 evs in
  (length (firing_of (ID rule) (alerts w)) <= 1)%nat /\
  (WebhookURL rule <> "" -> alternates (hooks_of (ID rule) (hooks w)) (open rule w)) /\
  received (ID rule) (hooks w) `sublist_of` hooks_of (ID rule) (hooks w) /\
  (Forall (fun h => answered h = true) (hooks w) -> received (ID rule) (hooks w) = hooks_of (ID rule) (hooks w)) /\
  forall e,
    (open rule (evaluateOnce w e) = open rule w ->
     hooks_of (ID rule) (hooks (evaluateOnce w e)) = hooks_of (ID rule) (hooks w)) /\
    forall ss, ok_rules e = true -> statuses e = Ok ss -> ok_open (attempts e (ID rule)) = true ->
      ok_write (attempts e (ID rule)) = true -> fresh_for rule e w ->
      open rule (evaluateOnce w e) = true <-> rule_holds rule ss.
Proof.
  intros Hnd Ha Hh Hin Hen w.
  assert (rules w = rules w0 /\ rule_inv rule w) as [Hr Hinv].
  { unfold w, Run. induction evs as [|e evs IH] using rev_ind.
    - split; [done|]. cbn. split; rewrite ?Ha, ?Hh; [apply NoDup_nil_2|apply Nat.le_0_l|intros _; apply alt_nil].
    - rewrite fold_left_app. destruct IH as [Hr Hinv]. cbn. rewrite evaluateOnce_rules. split; [done|].
      apply evaluateOnce_inv; [congruence..|done]. }
  pose proof Hinv as [_ Hone Hhooks]. destruct (hooks_sublist (ID rule) (hooks w)). split_and!; [done..|]. intros e.
  destruct (evaluateOnce_inv w e rule) as (_ & Hcall & Hf); [congruence..|done|]. split; [done|]. intros ss. unfold open.
  rewrite bool_decide_eq_true. apply Hf.
Qed.

(** The evaluator knows the runtimes of its own process only: after a restart of the control
    plane, before an offline runtime has registered again, its open alert is resolved. *)
Theorem restart_resolves w e rule :
  NoDup (map ID (rules w)) -> rule ∈ rules w -> Enabled rule = true -> rule_inv rule w ->
  ok_rules e = true -> statuses e = Ok [] -> ok_open (attempts e (ID rule)) = true ->
  ok_write (attempts e (ID rule)) = true -> fresh_for rule e w ->
  firing_of (ID rule) (alerts (evaluateOnce w e)) = [].
Proof.
  intros Hnd Hin Hen Hinv Hr Hs Ho Hw Hf.
  destruct (evaluateOnce_inv w e rule Hnd Hin Hen Hinv) as (_ & _ & Hiff).
  apply dec_stable. intros Hne. apply (Hiff []) in Hne; auto. unfold rule_holds in Hne. set_solver.
Qed.

(** ** Examples *)
Module examples.
Definition rule : AlertRule := MkAlertRule "r1" "press down" MetricConnectionDown "press-1" "http://hook" true 0.
Definition w0 : world := MkWorld [rule] [] [].
Definition ev (on : bool) (id : string) : evaluation :=
  MkEvaluation true (Ok [MkRuntimeStatus "press-1" on; MkRuntimeStatus "press-2" true]) 1
    (fun _ => MkAttempt true true (Answered 200) id).
Definition evs : list evaluation := [ev true "a1"; ev false "a2"; ev false "a3"; ev true "a4"].

Example notified : hooks (Run w0 evs) = 
  [MkCall "r1" "firing" "runtime press-1 is offline" (Answered 200); MkCall "r1" "resolved" "" (Answered 200)].
Proof. vm_compute. reflexivity. Qed.

(** The call that announces an alert fails: the alert stays open through later evaluations, and the
    server first hears of it when it is resolved. *)
Definition lost : evaluation := MkEvaluation true (Ok [MkRuntimeStatus "press-1" false]) 1 (fun _ => MkAttempt true true Failed "a1").
Example lost_call_not_repeated :
  open rule (Run w0 [lost; ev false "a2"; ev false "a3"]) = true /\
  received "r1" (hooks (Run w0 [lost; ev false "a2"; ev false "a3"])) = [] /\
  received "r1" (hooks (Run w0 [lost; ev false "a2"; ev true "a3"])) = ["resolved"].
Proof. vm_compute. done. Qed.

Lemma alerts_follow_rules_witness : open rule (evaluateOnce (Run w0 evs) (ev false "a5")) = true.
Proof.
  destruct (alerts_follow_rules w0 evs rule) as (_ & _ & _ & _ & H);
    [repeat constructor; intros []%elem_of_nil|reflexivity|reflexivity|constructor|reflexivity|].
  apply (proj2 (H (ev false "a5")) [MkRuntimeStatus "press-1" false; MkRuntimeStatus "press-2" true]); try reflexivity.
  - split; [|intros r [-> | []%elem_of_nil]%elem_of_cons _; reflexivity].
    vm_compute. intros [[=] |[]%elem_of_nil]%elem_of_cons.
  - left. split; [reflexivity|]. exists (MkRuntimeStatus "press-1" false). split; [constructor|]. split; reflexivity.
Defined.
End examples.
End alerting.
