(* ===== verification/DebugHub.v ===== *)
(** * The debug hub ([controlplane/internal/debughub/hub.go]) and the runtime's end of its
    stream ([engine/internal/runtimeclient/debugchannel.go])

    The hub counts the browsers that watch a flow and tells the runtimes to start and stop
    forwarding it; it keeps the last events of a flow and relays new ones to the browsers'
    channels.  An operation changes the hub under its lock and then, after the lock is
    released, makes the sends it decided on: it returns them as [act]s, which [perform]
    executes.  [run] executes an operation's sends before the next operation; [istep] lets
    them interleave. *)

From S2P Require Import Prelude GoStd Debug.
Import gostd.
Local Open Scope Z_scope.

Module debughub.

Definition MaxInlinePayloadBytes : nat := 4096.
Definition CacheSize : nat := 200.
Definition SubscriberBuffer : nat := 256.

(** An event as a runtime sends it ([runtimev1.DebugEvent]). *)
Record DebugEvent := MkDebugEvent {
  Id : string; FlowId : string; NodeId : string; Port_ : string; Direction_ : string; Label_ : string;
  TimeMs : Z; DatagramId : string; CorrelationId : string; CausationId : string; Quality_ : string; ValueJson : string
}.
Record Event := MkEvent {
  ID : string; FlowID : string; NodeID : string; Port : string; Direction : string; Label : string;
  TimeUnixMs : Z; DatagramID : string; CorrelationID : string; CausationID : string; Quality : string;
  ValueJSON : string; Truncated : bool; FullLength : Z
}.
Record WireMetric := MkWireMetric {
  m_FlowID : string; FromNode : string; FromPort : string; ToNode : string; ToPort : string; Delivered : Z; Dropped : Z
}.
Inductive Item := IEvent (e : Event) | IMetric (m : WireMetric).

Record flowState := MkFlowState {
  refCount : Z; subscribers : gset nat; cache : list Event; cacheIDs : gmap string string; cacheOrder : list string
}.
Definition newFlowState : flowState := MkFlowState 0 ∅ [] ∅ [].
(** Handles of runtime streams and channels are numbers. *)
Record Hub := MkHub { runtimes : gmap string nat; flows : gmap string flowState }.
Definition New : Hub := MkHub ∅ ∅.

(** Messages to a runtime, and the sends an operation makes. *)
Inductive downlink := DSubscribe (flowID : string) | DUnsubscribe (flowID : string).
Inductive act := ASend (handle : nat) (d : downlink) | AItem (ch : nat) (it : Item).

(** [flowStateLocked] *)
Definition flowStateLocked (h : Hub) (flowID : string) : flowState := default newFlowState (flows h !! flowID).
Definition put_flow (h : Hub) (flowID : string) (fs : flowState) : Hub := MkHub (runtimes h) (<[flowID := fs]> (flows h)).
Definition handles (h : Hub) : list nat := map snd (map_to_list (runtimes h)).

Definition attachRuntime (h : Hub) (runtimeID : string) (handle : nat) : Hub * list act :=
  (MkHub (<[runtimeID := handle]> (runtimes h)) (flows h),
   map (fun kv => ASend handle (DSubscribe kv.1)) (filter (fun kv => 0 < refCount kv.2) (map_to_list (flows h)))).

Definition detachRuntime (h : Hub) (runtimeID : string) (handle : nat) : Hub :=
  if decide (runtimes h !! runtimeID = Some handle) then MkHub (delete runtimeID (runtimes h)) (flows h) else h.

(** [pushCache]; [cacheOrder[0]] panics on an empty slice. *)
Definition pushCache (fs : flowState) (ev : Event) (full : string) : res unit flowState :=
  let add fs := MkFlowState (refCount fs) (subscribers fs) (cache fs ++ [ev]) (<[ID ev := full]> (cacheIDs fs))
                  (cacheOrder fs ++ [ID ev]) in
  if (CacheSize <=? length (cache fs))%nat then
    match cacheOrder fs with
    | [] => Panic
    | oldest :: order =>
        Ok (add (MkFlowState (refCount fs) (subscribers fs) (tail (cache fs)) (delete oldest (cacheIDs fs)) order))
    end
  else Ok (add fs).

(** The event as browsers see it. *)
Definition toEvent (e : DebugEvent) : Event :=
  let full := ValueJson e in
  let long := (MaxInlinePayloadBytes <? String.length full)%nat in
  MkEvent (Id e) (FlowId e) (NodeId e) (Port_ e) (Direction_ e) (Label_ e) (TimeMs e) (DatagramId e) (CorrelationId e)
    (CausationId e) (Quality_ e)
    (if long then String.substring 0 MaxInlinePayloadBytes full else full) long
    (if long then Z.of_nat (String.length full) else 0).

Definition dispatchEvent (h : Hub) (e : DebugEvent) : res unit (Hub * list act) :=
  let ev := toEvent e in
  fs ← pushCache (flowStateLocked h (FlowID ev)) ev (ValueJson e);
  Ok (put_flow h (FlowID ev) fs, map (fun ch => AItem ch (IEvent ev)) (elements (subscribers fs))).

Definition dispatchWireMetrics (h : Hub) (m : WireMetric) : Hub * list act :=
  let fs := flowStateLocked h (m_FlowID m) in
  (put_flow h (m_FlowID m) fs, map (fun ch => AItem ch (IMetric m)) (elements (subscribers fs))).

(** [handleUplink] of [Serve]: a message with no payload announces the runtime. *)
Inductive uplink := UHello | UEvent (e : DebugEvent) | UMetrics (m : WireMetric).
Definition handleUplink (h : Hub) (u : uplink) : res unit (Hub * list act) :=
  match u with
  | UHello => Ok (h, [])
  | UEvent e => dispatchEvent h e
  | UMetrics m => Ok (dispatchWireMetrics h m)
  end.

(** [Subscribe], with the channel it makes. *)
Definition Subscribe (h : Hub) (ch : nat) (flowID : string) : Hub * list act :=
  let fs := flowStateLocked h flowID in
  let fs' := MkFlowState (refCount fs + 1) ({[ch]} ∪ subscribers fs) (cache fs) (cacheIDs fs) (cacheOrder fs) in
  let first := refCount fs' =? 1 in
  (put_flow h flowID fs',
   map (fun e => AItem ch (IEvent e)) (cache fs) ++
   (if first then map (fun rt => ASend rt (DSubscribe flowID)) (handles h) else [])).

Definition unsubscribe (h : Hub) (flowID : string) (ch : nat) : Hub * list act :=
  match flows h !! flowID with
  | None => (h, [])
  | Some fs =>
      if decide (ch ∉ subscribers fs) then (h, [])
      else
        let fs' := MkFlowState (refCount fs - 1) (subscribers fs ∖ {[ch]}) (cache fs) (cacheIDs fs) (cacheOrder fs) in
        let last := refCount fs' =? 0 in
        (put_flow h flowID fs',
         if last then map (fun rt => ASend rt (DUnsubscribe flowID)) (handles h) else [])
  end.

Definition LoadFull (h : Hub) (flowID eventID : string) : option string :=
  match flows h !! flowID with None => None | Some fs => cacheIDs fs !! eventID end.

(** [nonBlockingSend] on a channel of capacity [SubscriberBuffer]. *)
Definition nonBlockingSend (q : list Item) (it : Item) : list Item :=
  if (length q <? SubscriberBuffer)%nat then q ++ [it] else tail q ++ [it].

(** ** The runtime's end *)

(** [DebugSink]: the flows it forwards, and whether a stream is attached. *)
Record DebugSink := MkDebugSink { subscribed : gset string; attached : bool }.
Definition NewDebugSink : DebugSink := MkDebugSink ∅ false.
Definition attach (s : DebugSink) : DebugSink := MkDebugSink (subscribed s) true.
Definition detach (s : DebugSink) : DebugSink := MkDebugSink (subscribed s) false.
Definition setSubscribed (s : DebugSink) (flowID : string) (on : bool) : DebugSink :=
  MkDebugSink (if on then {[flowID]} ∪ subscribed s else subscribed s ∖ {[flowID]}) (attached s).
(** [handleDebugDownlink]: the sink, and the flow whose ring buffers are replayed. *)
Definition handleDebugDownlink (s : DebugSink) (d : downlink) : DebugSink :=
  match d with DSubscribe f => setSubscribed s f true | DUnsubscribe f => setSubscribed s f false end.
(** [trySend]: whether an event of the flow leaves the runtime. *)
Definition trySend (s : DebugSink) (flowID : string) : bool := attached s && bool_decide (flowID ∈ subscribed s).

(** ** Hub, runtimes and browsers together *)

(** Every stream has the sink at its other end; every browser its channel.  The counters give
    fresh handles and channels. *)
Record world := MkWorld {
  hub : Hub; sinks : gmap nat DebugSink; chans : gmap nat (list Item); next_handle : nat; next_chan : nat
}.
Definition initWorld : world := MkWorld New ∅ ∅ 0 0.
Definition set_hub (w : world) (h : Hub) : world := MkWorld h (sinks w) (chans w) (next_handle w) (next_chan w).

Definition perform (w : world) (a : act) : world :=
  match a with
  | ASend hd d => MkWorld (hub w) (alter (fun s => handleDebugDownlink s d) hd (sinks w)) (chans w) (next_handle w) (next_chan w)
  | AItem ch it => MkWorld (hub w) (sinks w) (alter (fun q => nonBlockingSend q it) ch (chans w)) (next_handle w) (next_chan w)
  end.
Definition performs (w : world) (l : list act) : world := fold_left perform l w.

(** [OConnect]: a stream's first message; its sink still has what an earlier connection left. *)
Inductive op :=
| OConnect (runtimeID : string) (left_ : gset string)
| OUplink (u : uplink)
| ODisconnect (runtimeID : string) (handle : nat)
| OSubscribe (flowID : string)
| OCancel (flowID : string) (ch : nat)
| OReceive (ch : nat).

(** What an operation does under the lock, and the sends that remain. *)
Definition locked (w : world) (o : op) : res unit (world * list act) :=
  match o with
  | OConnect rid left_ =>
      let '(h, acts) := attachRuntime (hub w) rid (next_handle w) in
      Ok (MkWorld h (<[next_handle w := attach (MkDebugSink left_ false)]> (sinks w)) (chans w) (S (next_handle w)) (next_chan w), acts)
  | OUplink u => '(h, acts) ← handleUplink (hub w) u; Ok (set_hub w h, acts)
  | ODisconnect rid hd =>
      Ok (MkWorld (detachRuntime (hub w) rid hd) (alter detach hd (sinks w)) (chans w) (next_handle w) (next_chan w), [])
  | OSubscribe f =>
      let '(h, acts) := Subscribe (hub w) (next_chan w) f in
      Ok (MkWorld h (sinks w) (<[next_chan w := []]> (chans w)) (next_handle w) (S (next_chan w)), acts)
  | OCancel f ch => let '(h, acts) := unsubscribe (hub w) f ch in Ok (set_hub w h, acts)
  | OReceive ch => Ok (MkWorld (hub w) (sinks w) (alter tail ch (chans w)) (next_handle w) (next_chan w), [])
  end.

Definition step (w : world) (o : op) : res unit world := '(w', acts) ← locked w o; Ok (performs w' acts).
Fixpoint run (w : world) (ops : list op) : res unit world :=
  match ops with [] => Ok w | o :: ops' => w' ← step w o; run w' ops' end.

(** Operations of several goroutines: the sends of an operation that has released the lock
    are still to come, in its order. *)
Definition iworld : Type := world * list (list act).
Inductive istep : iworld -> iworld -> Prop :=
| istep_lock w gs o w' acts : locked w o = Ok (w', acts) -> istep (w, gs) (w', gs ++ [acts])
| istep_send w gs1 a acts gs2 : istep (w, gs1 ++ (a :: acts) :: gs2) (perform w a, gs1 ++ acts :: gs2).

(** ** Sends and the sinks they reach *)

Definition downlinks_of (hd : nat) (acts : list act) : list downlink :=
  omap (fun a => match a with ASend h d => if decide (h = hd) then Some d else None | AItem _ _ => None end) acts.

Lemma performs_hub acts : forall w,
  hub (performs w acts) = hub w /\ next_handle (performs w acts) = next_handle w /\ next_chan (performs w acts) = next_chan w.
Proof.
  unfold performs. induction acts as [|a acts IH]; intros w; [done|]. cbn [fold_left].
  destruct (IH (perform w a)) as (-> & -> & ->). by destruct a.
Qed.
Lemma performs_sinks acts hd : forall w,
  sinks (performs w acts) !! hd = (fun s => fold_left handleDebugDownlink (downlinks_of hd acts) s) <$> (sinks w !! hd).
Proof.
  unfold performs. induction acts as [|a acts IH]; intros w; cbn; [by rewrite option_fmap_id|].
  rewrite IH. destruct a as [h d|ch it]; cbn; [|done]. destruct (decide (h = hd)) as [-> |Hne].
  - rewrite lookup_alter_eq. by destruct (sinks w !! hd).
  - by rewrite lookup_alter_ne.
Qed.

(** Downlinks that all start, or all stop, flows. *)
Lemma fold_subscribe l f : forall s, Forall (fun d => exists g, d = DSubscribe g) l ->
  f ∈ subscribed (fold_left handleDebugDownlink l s) <-> DSubscribe f ∈ l \/ f ∈ subscribed s.
Proof.
  induction l as [|d l IH]; intros s; cbn; [set_solver|]. intros [(g & ->) Hl]%Forall_cons.
  rewrite IH by done. cbn. set_solver.
Qed.
Lemma fold_unsubscribe l f : forall s, Forall (fun d => exists g, d = DUnsubscribe g) l ->
  f ∈ subscribed (fold_left handleDebugDownlink l s) <-> (DUnsubscribe f ∉ l) /\ f ∈ subscribed s.
Proof.
  induction l as [|d l IH]; intros s; cbn; [set_solver|]. intros [(g & ->) Hl]%Forall_cons.
  rewrite IH by done. cbn. set_solver.
Qed.

Lemma elem_of_downlinks hd d acts : d ∈ downlinks_of hd acts <-> ASend hd d ∈ acts.
Proof.
  unfold downlinks_of. rewrite list_elem_of_omap. split.
  - intros ([h d'|ch it] & Ha & E); [|done]. case_decide; naive_solver.
  - intros Ha. exists (ASend hd d). by rewrite decide_True.
Qed.

(** Sends that only start flows, or only stop them, and what a sink then forwards. *)
Definition starts (acts : list act) : Prop := forall hd d, ASend hd d ∈ acts -> exists f, d = DSubscribe f.
Definition stops (acts : list act) : Prop := forall hd d, ASend hd d ∈ acts -> exists f, d = DUnsubscribe f.

Lemma performs_starts w acts hd s : starts acts -> sinks w !! hd = Some s ->
  exists s', sinks (performs w acts) !! hd = Some s' /\
    forall f, f ∈ subscribed s' <-> ASend hd (DSubscribe f) ∈ acts \/ f ∈ subscribed s.
Proof.
  intros Hst Hs. rewrite performs_sinks, Hs. eexists. split; [done|]. intros f. rewrite <- elem_of_downlinks.
  apply fold_subscribe, Forall_forall. intros d Hd%elem_of_downlinks. eauto.
Qed.
Lemma performs_stops w acts hd s : stops acts -> sinks w !! hd = Some s ->
  exists s', sinks (performs w acts) !! hd = Some s' /\
    forall f, f ∈ subscribed s' <-> (ASend hd (DUnsubscribe f) ∉ acts) /\ f ∈ subscribed s.
Proof.
  intros Hst Hs. rewrite performs_sinks, Hs. eexists. split; [done|]. intros f. rewrite <- elem_of_downlinks.
  apply fold_unsubscribe, Forall_forall. intros d Hd%elem_of_downlinks. eauto.
Qed.

(** ** The invariant *)

Definition flow_ok (fs : flowState) : Prop :=
  refCount fs = Z.of_nat (size (subscribers fs)) /\ cacheOrder fs = map ID (cache fs) /\ (length (cache fs) <= CacheSize)%nat.
Lemma newFlowState_ok : flow_ok newFlowState.
Proof. split_and!; [done..|]. cbn. lia. Qed.
Lemma flow_ok_watched fs : flow_ok fs -> 0 < refCount fs <-> subscribers fs <> ∅.
Proof.
  intros (-> & _). pose proof (size_empty_iff (subscribers fs)) as E. unfold_leibniz.
  destruct (size (subscribers fs)) eqn:Es; [|split; [|lia]; intros _ H; apply E in H; lia].
  split; [lia|]. intros H. destruct H. by apply E.
Qed.

(** The hub's own part: counts, caches, and channels that were handed out. *)
Record hub_ok (h : Hub) (nc : nat) : Prop := {
  ho_flow : forall f fs, flows h !! f = Some fs -> flow_ok fs;
  ho_chan : forall f fs ch, flows h !! f = Some fs -> ch ∈ subscribers fs -> (ch < nc)%nat
}.
Lemma ho_state h nc f : hub_ok h nc -> flow_ok (flowStateLocked h f).
Proof. intros [H _]. unfold flowStateLocked. destruct (flows h !! f) eqn:E; [by eapply H|apply newFlowState_ok]. Qed.
Lemma ho_fresh h nc f : hub_ok h nc -> nc ∉ subscribers (flowStateLocked h f).
Proof.
  intros [_ H] Hin. unfold flowStateLocked in Hin. destruct (flows h !! f) eqn:E; [|set_solver].
  pose proof (H _ _ _ E Hin). lia.
Qed.
Lemma put_flow_state h f fs g :
  flowStateLocked (put_flow h f fs) g = if decide (f = g) then fs else flowStateLocked h g.
Proof. unfold flowStateLocked. cbn. case_decide; subst; [by rewrite lookup_insert_eq|by rewrite lookup_insert_ne]. Qed.
Lemma put_flow_ok h nc nc' f fs : (nc <= nc')%nat -> flow_ok fs -> (forall ch, ch ∈ subscribers fs -> (ch < nc')%nat) ->
  hub_ok h nc -> hub_ok (put_flow h f fs) nc'.
Proof.
  intros Hle Hfs Hch [H1 H2]. split; cbn.
  - intros g gs [[_ <-]|[_ ?]]%lookup_insert_Some; eauto.
  - intros g gs ch [[_ <-]|[_ Hg]]%lookup_insert_Some Hin; [eauto|]. pose proof (H2 _ _ _ Hg Hin). lia.
Qed.

(** Every attached runtime forwards exactly the flows that someone watches. *)
Definition watch_ok (h : Hub) (ss : gmap nat DebugSink) : Prop :=
  forall rid hd, runtimes h !! rid = Some hd ->
    exists s, ss !! hd = Some s /\ forall f, f ∈ subscribed s <-> subscribers (flowStateLocked h f) <> ∅.
Record inv (w : world) : Prop := {
  i_hub : hub_ok (hub w) (next_chan w);
  i_handle : forall hd, is_Some (sinks w !! hd) -> (hd < next_handle w)%nat;
  i_watch : watch_ok (hub w) (sinks w)
}.

Lemma inv_performs w acts :
  hub_ok (hub w) (next_chan w) -> (forall hd, is_Some (sinks w !! hd) -> (hd < next_handle w)%nat) ->
  watch_ok (hub w) (sinks (performs w acts)) -> inv (performs w acts).
Proof.
  intros Hh Hb Hw. destruct (performs_hub acts w) as (E1 & E2 & E3). split; rewrite ?E1, ?E2, ?E3; [done| |done].
  intros hd. rewrite performs_sinks, fmap_is_Some. apply Hb.
Qed.

Lemma connect_inv w rid : inv w ->
  let '(h, acts) := attachRuntime (hub w) rid (next_handle w) in
  inv (performs (MkWorld h (<[next_handle w := attach (MkDebugSink ∅ false)]> (sinks w)) (chans w) (S (next_handle w)) (next_chan w)) acts).
Proof.
  intros [Hh Hb Hw]. unfold attachRuntime. set (acts := map _ _). set (w1 := MkWorld _ _ _ _ _).
  assert (forall hd d, ASend hd d ∈ acts <-> hd = next_handle w /\ exists f, d = DSubscribe f /\ subscribers (flowStateLocked (hub w) f) <> ∅) as Ha.
  { intros hd d. unfold acts. rewrite list_elem_of_fmap. setoid_rewrite list_elem_of_filter. setoid_rewrite elem_of_map_to_list'.
    split.
    - intros ([f fs] & [= -> ->] & Hr & Hf). split; [done|]. exists f. split; [done|].
      unfold flowStateLocked. cbn in Hf. rewrite Hf. apply flow_ok_watched; [by eapply Hh|done].
    - intros (-> & f & -> & Hne). unfold flowStateLocked in Hne. destruct (flows (hub w) !! f) as [fs|] eqn:Hf; [|done].
      exists (f, fs). split_and!; [done| |done]. apply flow_ok_watched; [by eapply Hh|done]. }
  apply inv_performs.
  - by destruct Hh.
  - intros hd. cbn. destruct (decide (hd = next_handle w)) as [-> |]; [lia|].
    rewrite lookup_insert_ne by done. intros ?%Hb. lia.
  - assert (starts acts) as Hst by (intros hd d (_ & f & -> & _)%Ha; eauto).
    intros rid' hd Hrid. cbn in Hrid. change (flowStateLocked (hub w1)) with (flowStateLocked (hub w)).
    apply lookup_insert_Some in Hrid as [[<- <-]|[_ Hrid]].
    + destruct (performs_starts w1 acts (next_handle w) (attach (MkDebugSink ∅ false)) Hst) as (s & Hs & Hf).
      { cbn. by rewrite lookup_insert_eq. }
      exists s. split; [done|]. intros f. rewrite Hf, Ha. cbn. set_solver.
    + destruct (Hw rid' hd Hrid) as (s0 & Hs0 & Hf0). pose proof (Hb hd (mk_is_Some _ _ Hs0)) as Hlt.
      destruct (performs_starts w1 acts hd s0 Hst) as (s & Hs & Hf).
      { cbn. by rewrite lookup_insert_ne by lia. }
      exists s. split; [done|]. intros f. rewrite Hf, Ha, Hf0. split; [|by right]. intros [[? _]|?]; [lia|done].
Qed.

Lemma elem_of_handles h rid hd : runtimes h !! rid = Some hd -> hd ∈ handles h.
Proof. intros H. unfold handles. apply list_elem_of_fmap. exists (rid, hd). split; [done|]. by apply elem_of_map_to_list. Qed.
Lemma elem_of_sends hd d d' hs : ASend hd d ∈ map (fun rt => ASend rt d') hs <-> hd ∈ hs /\ d = d'.
Proof. rewrite list_elem_of_fmap. naive_solver. Qed.
Lemma not_send_item {A} (g : A -> nat) (f : A -> Item) hd d l : ASend hd d ∉ map (fun x => AItem (g x) (f x)) l.
Proof. rewrite list_elem_of_fmap. naive_solver. Qed.

(** Sends that no sink listens to, and flows that keep their watchers. *)
Lemma watch_same w h acts :
  runtimes h = runtimes (hub w) -> (forall f, subscribers (flowStateLocked h f) = ∅ <-> subscribers (flowStateLocked (hub w) f) = ∅) ->
  (forall hd d, ASend hd d ∉ acts) -> inv w -> forall cs nh nc, watch_ok h (sinks (performs (MkWorld h (sinks w) cs nh nc) acts)).
Proof.
  intros Er Es Ha [_ _ Hw] cs nh nc rid hd Hrid. rewrite Er in Hrid. destruct (Hw rid hd Hrid) as (s & Hs & Hf).
  rewrite performs_sinks. cbn. rewrite Hs.
  replace (downlinks_of hd acts) with (@nil downlink); [by exists s; split; [|intros f; rewrite Hf, Es]|].
  destruct (downlinks_of hd acts) as [|d l] eqn:E; [done|]. exfalso. apply (Ha hd d), elem_of_downlinks. rewrite E. set_solver.
Qed.

Lemma subscribe_inv w f cs : inv w ->
  let '(h, acts) := Subscribe (hub w) (next_chan w) f in
  inv (performs (MkWorld h (sinks w) cs (next_handle w) (S (next_chan w))) acts).
Proof.
  intros Hinv. pose proof Hinv as [Hh Hb Hw]. unfold Subscribe.
  pose proof (ho_state _ _ f Hh) as Hok. pose proof (ho_fresh _ _ f Hh) as Hfr.
  set (fs := flowStateLocked (hub w) f) in *. set (fs' := MkFlowState _ _ _ _ _).
  assert (flow_ok fs') as Hok'.
  { destruct Hok as (H1 & H2 & H3). split_and!; [|done..]. cbn. rewrite size_union, size_singleton by set_solver. lia. }
  set (w1 := MkWorld _ _ _ _ _).
  apply inv_performs; [|done|].
  { apply (put_flow_ok _ (next_chan w) (S (next_chan w)) f fs'); [lia|done| |done]. cbn. intros ch [->%elem_of_singleton|Hc]%elem_of_union; [lia|].
    unfold fs, flowStateLocked in Hc. destruct (flows (hub w) !! f) eqn:E; [|set_solver]. cbn in Hc.
    pose proof (ho_chan _ _ Hh _ _ _ E Hc). lia. }
  destruct (Z.eqb_spec (refCount fs') 1) as [E1|E1]; cbn [refCount fs'] in E1.
  - intros rid hd Hrid. destruct (Hw rid hd Hrid) as (s0 & Hs0 & Hf0).
    match goal with |- context [performs w1 ?acts] => assert (starts acts) as Hst; [|destruct (performs_starts w1 acts hd s0 Hst Hs0) as (s & Hs & Hf)] end.
    { intros hd' d [H|H]%elem_of_app; [by apply (not_send_item (fun _ => next_chan w) IEvent) in H|]. apply elem_of_sends in H as [_ ->]. eauto. }
    exists s. split; [done|]. intros g. rewrite Hf, elem_of_app, elem_of_sends, Hf0. cbn. rewrite put_flow_state.
    pose proof (not_send_item (fun _ => next_chan w) IEvent hd (DSubscribe g) (cache fs)).
    destruct (decide (f = g)) as [-> |Hne]; [|naive_solver].
    split; [set_solver|]. intros _. left. right. split; [by eapply elem_of_handles|done].
  - rewrite app_nil_r. apply watch_same; [done| |intros hd d; apply (not_send_item (fun _ => next_chan w) IEvent)|done].
    intros g. cbn. rewrite put_flow_state. destruct (decide (f = g)) as [<- |]; [|done]. cbn.
    assert (subscribers fs <> ∅) by (apply flow_ok_watched; [done|destruct Hok as [Hr _]; lia]). set_solver.
Qed.

Lemma state_chan h nc f ch : hub_ok h nc -> ch ∈ subscribers (flowStateLocked h f) -> (ch < nc)%nat.
Proof.
  intros Hh Hc. unfold flowStateLocked in Hc. destruct (flows h !! f) eqn:E; [|set_solver]. by eapply Hh.
Qed.

Lemma cancel_inv w f ch cs : inv w ->
  let '(h, acts) := unsubscribe (hub w) f ch in inv (performs (MkWorld h (sinks w) cs (next_handle w) (next_chan w)) acts).
Proof.
  intros Hinv. pose proof Hinv as [Hh Hb Hw]. unfold unsubscribe.
  destruct (flows (hub w) !! f) as [fs|] eqn:Ef; [|by split]. case_decide as Hin; [by split|].
  pose proof (ho_flow _ _ Hh _ _ Ef) as Hok.
  assert (flowStateLocked (hub w) f = fs) as Efs by (unfold flowStateLocked; by rewrite Ef).
  set (fs' := MkFlowState _ _ _ _ _).
  assert (size (subscribers fs ∖ {[ch]}) = size (subscribers fs) - 1)%nat as Hsz.
  { rewrite size_difference by set_solver. by rewrite size_singleton. }
  assert (0 < size (subscribers fs))%nat as Hpos.
  { apply Nat.neq_0_lt_0. intros H%size_empty_inv. set_solver. }
  assert (flow_ok fs') as Hok'.
  { destruct Hok as (H1 & H2 & H3). split_and!; [|done..]. cbn. lia. }
  set (w1 := MkWorld _ _ _ _ _). apply inv_performs; [|done|].
  { apply (put_flow_ok _ (next_chan w) (next_chan w) f fs'); [lia|done| |done]. cbn.
    intros c [Hc _]%elem_of_difference. by eapply Hh. }
  pose proof (flow_ok_watched fs' Hok') as Hwat.
  destruct (Z.eqb_spec (refCount fs') 0) as [E0|E0].
  - assert (subscribers fs' = ∅) as Hemp by (apply dec_stable; rewrite <- Hwat; lia).
    intros rid hd Hrid. destruct (Hw rid hd Hrid) as (s0 & Hs0 & Hf0).
    match goal with |- context [performs w1 ?acts] => assert (stops acts) as Hst; [|destruct (performs_stops w1 acts hd s0 Hst Hs0) as (s & Hs & Hf)] end.
    { intros hd' d [_ ->]%elem_of_sends. eauto. }
    exists s. split; [done|]. intros g. rewrite Hf, elem_of_sends, Hf0. cbn [hub w1]. rewrite put_flow_state.
    destruct (decide (f = g)) as [<- |Hne]; [|naive_solver].
    rewrite Hemp. split; [|done]. intros [Hn _]. destruct Hn. split; [by eapply elem_of_handles|done].
  - apply watch_same; [done| |set_solver|done].
    intros g. cbn. rewrite put_flow_state. destruct (decide (f = g)) as [<- |]; [|done].
    assert (subscribers fs' <> ∅) by (apply Hwat; destruct Hok' as [Hr _]; lia). rewrite Efs. cbn in *. set_solver.
Qed.

Lemma pushCache_ok fs ev full : flow_ok fs ->
  exists fs', pushCache fs ev full = Ok fs' /\ flow_ok fs' /\ subscribers fs' = subscribers fs.
Proof.
  intros (H1 & H2 & H3). unfold pushCache. destruct (Nat.leb_spec CacheSize (length (cache fs))) as [Hle|Hlt].
  - rewrite H2. destruct (cache fs) as [|c l] eqn:E; [cbn in Hle; unfold CacheSize in Hle; lia|]. cbn.
    eexists. split; [done|]. split; [|done]. split_and!; cbn; [done|by rewrite map_app|].
    rewrite length_app. cbn in *. lia.
  - eexists. split; [done|]. split; [|done]. split_and!; cbn; [done|by rewrite map_app, H2|]. rewrite length_app. cbn. lia.
Qed.

Lemma uplink_inv w u cs : inv w ->
  exists h acts, handleUplink (hub w) u = Ok (h, acts) /\ inv (performs (MkWorld h (sinks w) cs (next_handle w) (next_chan w)) acts).
Proof.
  intros Hinv. pose proof Hinv as [Hh Hb Hw]. destruct u as [|e|m]; cbn.
  - eexists _, _. split; [done|]. cbn. by split.
  - unfold dispatchEvent. cbn zeta.
    destruct (pushCache_ok (flowStateLocked (hub w) (FlowID (toEvent e))) (toEvent e) (ValueJson e)) as (fs & -> & Hok & Hs).
    { by eapply ho_state. }
    eexists _, _. split; [done|]. apply inv_performs; cbn; [|done|].
    + apply (put_flow_ok _ (next_chan w)); [lia|done| |done]. rewrite Hs. intros ch. by apply state_chan.
    + apply watch_same; [done| |intros hd d; apply (not_send_item id)|done].
      intros g. rewrite put_flow_state. case_decide; subst; by rewrite ?Hs.
  - eexists _, _. split; [done|]. apply inv_performs; cbn; [|done|].
    + apply (put_flow_ok _ (next_chan w)); [lia|by eapply ho_state| |done]. intros ch. by apply state_chan.
    + apply watch_same; [done| |intros hd d; apply (not_send_item id (fun _ => IMetric m))|done].
      intros g. rewrite put_flow_state. by case_decide; subst.
Qed.

(** The locked part of every operation succeeds, whatever sends are still to come, and keeps the hub's own part. *)
Lemma Subscribe_hub_ok h nc f : hub_ok h nc -> hub_ok (Subscribe h nc f).1 (S nc).
Proof.
  intros Hh. pose proof (ho_state _ _ f Hh) as (H1 & H2 & H3). pose proof (ho_fresh _ _ f Hh) as Hfr. cbn.
  apply (put_flow_ok _ nc); [lia| | |done].
  - split_and!; [|done..]. cbn. rewrite size_union, size_singleton by set_solver. lia.
  - cbn. intros ch [->%elem_of_singleton|Hc]%elem_of_union; [lia|]. pose proof (state_chan _ _ _ _ Hh Hc). lia.
Qed.
Lemma unsubscribe_hub_ok h nc f ch : hub_ok h nc -> hub_ok (unsubscribe h f ch).1 nc.
Proof.
  intros Hh. unfold unsubscribe. destruct (flows h !! f) as [fs|] eqn:Ef; [|done]. case_decide as Hin; [done|]. cbn.
  pose proof (ho_flow _ _ Hh _ _ Ef) as (H1 & H2 & H3). apply (put_flow_ok _ nc); [lia| | |done].
  - split_and!; [|done..]. cbn.
    rewrite size_difference, size_singleton by set_solver.
    assert (size (subscribers fs) <> 0%nat) by (intros H%size_empty_inv; set_solver). lia.
  - cbn. intros c [Hc _]%elem_of_difference. by eapply Hh.
Qed.
Lemma locked_hub_ok w o : hub_ok (hub w) (next_chan w) ->
  exists w' acts, locked w o = Ok (w', acts) /\ hub_ok (hub w') (next_chan w').
Proof.
  intros Hh. destruct o as [rid left_|[|e|m]|rid hd|f|f ch|ch]; cbn.
  - eexists _, _. split; [done|]. by destruct Hh.
  - eexists _, _. by split.
  - unfold dispatchEvent. cbn zeta.
    destruct (pushCache_ok (flowStateLocked (hub w) (FlowID (toEvent e))) (toEvent e) (ValueJson e)) as (fs & -> & Hok & Hs); [by eapply ho_state|].
    eexists _, _. split; [done|]. apply (put_flow_ok _ (next_chan w) (next_chan w)); [lia|done| |done]. rewrite Hs. intros ch. by apply state_chan.
  - eexists _, _. split; [done|]. apply (put_flow_ok _ (next_chan w) (next_chan w)); [lia|by eapply ho_state| |done]. intros ch. by apply state_chan.
  - eexists _, _. split; [done|]. cbn. unfold detachRuntime. case_decide; [|done]. by destruct Hh.
  - eexists _, _. split; [done|]. exact (Subscribe_hub_ok _ _ f Hh).
  - pose proof (unsubscribe_hub_ok _ _ f ch Hh) as H. destruct (unsubscribe _ _ _). eexists _, _. by split.
  - eexists _, _. by split.
Qed.

(** A runtime process that connects for the first time has nothing left to forward. *)
Definition first_connection (o : op) : Prop := match o with OConnect _ left_ => left_ = ∅ | _ => True end.

Lemma step_hub_inv w o : first_connection o -> inv w -> exists w', step w o = Ok w' /\ inv w'.
Proof.
  intros Hfirst Hinv. pose proof Hinv as [Hh Hb Hw]. destruct o as [rid left_|u|rid hd|f|f ch|ch]; cbn [first_connection] in Hfirst.
  - subst. pose proof (connect_inv w rid Hinv) as H. unfold step, locked. destruct (attachRuntime _ _ _). by eexists.
  - destruct (uplink_inv w u (chans w) Hinv) as (h & acts & E & H). unfold step, locked. rewrite E. by eexists.
  - eexists. split; [done|]. cbn. split; cbn.
    + unfold detachRuntime. case_decide; [|done]. by destruct Hh.
    + intros hd'. destruct (decide (hd = hd')) as [-> |]; [rewrite lookup_alter_eq, fmap_is_Some|rewrite lookup_alter_ne by done]; apply Hb.
    + intros rid' hd' Hrid. assert (runtimes (hub w) !! rid' = Some hd') as Hrid'.
      { unfold detachRuntime in Hrid. case_decide; [|done]. cbn in Hrid. by apply lookup_delete_Some in Hrid as [_ ?]. }
      assert (flowStateLocked (detachRuntime (hub w) rid hd) = flowStateLocked (hub w)) as -> by (unfold detachRuntime; by case_decide).
      destruct (Hw rid' hd' Hrid') as (s & Hs & Hf).
      destruct (decide (hd = hd')) as [-> |]; [rewrite lookup_alter_eq, Hs|rewrite lookup_alter_ne by done]; eexists; by split.
  - pose proof (subscribe_inv w f (<[next_chan w := []]> (chans w)) Hinv) as H. unfold step, locked. destruct (Subscribe _ _ _). by eexists.
  - pose proof (cancel_inv w f ch (chans w) Hinv) as H. unfold step, locked. destruct (unsubscribe _ _ _). by eexists.
  - eexists. split; [done|]. by split.
Qed.

Lemma hub_run_inv ops : forall w, Forall first_connection ops -> inv w -> exists w', run w ops = Ok w' /\ inv w'.
Proof.
  induction ops as [|o ops IH]; intros w; [by eauto|]. intros [Ho Hops]%Forall_cons Hinv.
  destruct (step_hub_inv w o Ho Hinv) as (w1 & E1 & Hinv1). cbn. rewrite E1. by apply IH.
Qed.
Lemma initWorld_inv : inv initWorld.
Proof. split; [split|..]; cbn; intros *; rewrite ?lookup_empty; try done. Qed.

(** Whatever browsers and runtimes do, in any order, the hub never fails, and every
    attached runtime forwards exactly the flows that some browser watches: the first watcher
    starts the forwarding, the last one to leave stops it, and a runtime that connects is told
    about the flows that are already watched. *)
Theorem forwards_watched_flows ops : Forall first_connection ops ->
  exists w, run initWorld ops = Ok w /\
  forall rid hd, runtimes (hub w) !! rid = Some hd ->
    exists s, sinks w !! hd = Some s /\ forall f, f ∈ subscribed s <-> subscribers (flowStateLocked (hub w) f) <> ∅.
Proof.
  intros H. destruct (hub_run_inv ops initWorld H initWorld_inv) as (w & E & [_ _ Hw]). exists w. split; [done|exact Hw].
Qed.

(** ** The cache of a flow *)

(** The events of a flow among the operations. *)
Definition event_of (f : string) (o : op) : option DebugEvent :=
  match o with OUplink (UEvent e) => if decide (FlowId e = f) then Some e else None | _ => None end.

Definition cache_rel (es : list DebugEvent) (fs : flowState) : Prop :=
  cache fs = map toEvent (debug.lastn CacheSize es) /\ cacheOrder fs = map Id (debug.lastn CacheSize es) /\
  (NoDup (map Id es) -> forall id v, cacheIDs fs !! id = Some v <->
     exists e, e ∈ debug.lastn CacheSize es /\ Id e = id /\ ValueJson e = v).

Lemma lastn_incl {A} n (l : list A) x : x ∈ debug.lastn n l -> x ∈ l.
Proof. unfold debug.lastn. intros H. rewrite <- (take_drop (length l - n) l). set_solver. Qed.

Lemma pushCache_rel es fs e fs' :
  cache_rel es fs -> pushCache fs (toEvent e) (ValueJson e) = Ok fs' -> cache_rel (es ++ [e]) fs'.
Proof.
  intros (Hc & Ho & Hi). unfold pushCache. replace (length (cache fs)) with (length (debug.lastn CacheSize es)) by (by rewrite Hc, length_map).
  destruct (Nat.leb_spec CacheSize (length (debug.lastn CacheSize es))) as [Hle|Hlt].
  - assert (CacheSize <= length es)%nat as Hlen by (unfold debug.lastn in Hle; rewrite length_drop in Hle; lia).
    unfold cache_rel. rewrite debug.lastn_snoc by (unfold CacheSize in *; lia).
    rewrite Ho. destruct (debug.lastn CacheSize es) as [|x l] eqn:El; [done|]. cbn [map tail drop].
    intros [= <-]. cbn. rewrite Hc. cbn. split_and!; [by rewrite map_app|by rewrite map_app|].
    rewrite map_app. intros Hnd id v. apply NoDup_app in Hnd as (Hnd & Hd & _).
    assert (Id e ∉ map Id es) as He by (intros H; apply (Hd _ H); set_solver).
    assert (forall y, y ∈ x :: l -> y ∈ es) as Hsub by (intros y; rewrite <- El; apply lastn_incl).
    assert (NoDup (map Id (x :: l))) as [Hx _]%NoDup_cons.
    { rewrite <- El. unfold debug.lastn. rewrite <- (take_drop (length es - CacheSize) es), map_app in Hnd.
      by apply NoDup_app in Hnd as (_ & _ & ?). }
    rewrite lookup_insert_Some, lookup_delete_Some, (Hi Hnd). setoid_rewrite elem_of_app. setoid_rewrite list_elem_of_singleton.
    split.
    + intros [[<- <-]|(Hne & Hnx & y & Hy & <- & <-)]; [eauto|]. exists y. split; [|done].
      apply elem_of_cons in Hy as [-> |Hy]; [done|by left].
    + intros (y & [Hy| ->] & <- & <-); [|by left]. right. split_and!.
      * intros E. apply He. rewrite E. apply list_elem_of_fmap. exists y. split; [done|]. apply Hsub. by right.
      * intros E. apply Hx. rewrite E. apply list_elem_of_fmap. eauto.
      * exists y. split_and!; [by right|done..].
  - assert (length es < CacheSize)%nat as Hlen by (unfold debug.lastn in Hlt; rewrite length_drop in Hlt; lia).
    intros [= <-]. unfold cache_rel. rewrite !debug.lastn_all in * by (rewrite ?length_app; cbn; lia). cbn.
    rewrite Hc, Ho, !map_app. split_and!; [done..|]. intros Hnd id v. apply NoDup_app in Hnd as (Hnd & Hd & _).
    rewrite lookup_insert_Some, (Hi Hnd). setoid_rewrite elem_of_app. setoid_rewrite list_elem_of_singleton. split.
    + intros [[<- <-]|(Hne & y & Hy & <- & <-)]; eauto.
    + intros (y & [Hy| ->] & <- & <-); [|by left]. right. split; [|eauto].
      intros E. apply (Hd (Id y)); [apply list_elem_of_fmap; eauto|set_solver].
Qed.

Lemma cache_rel_same es fs fs' :
  cache fs' = cache fs -> cacheIDs fs' = cacheIDs fs -> cacheOrder fs' = cacheOrder fs -> cache_rel es fs -> cache_rel es fs'.
Proof. unfold cache_rel. by intros -> -> ->. Qed.

Lemma step_cache f w o w' es : step w o = Ok w' -> cache_rel es (flowStateLocked (hub w) f) ->
  cache_rel (es ++ omap (event_of f) [o]) (flowStateLocked (hub w') f).
Proof.
  unfold step. destruct (locked w o) as [[w1 acts]|e|] eqn:El; [|done..]. cbn. intros [= <-] Hrel.
  destruct (performs_hub acts w1) as (-> & _). rewrite <- (app_nil_r es) in Hrel.
  destruct o as [rid left_|[|e|m]|rid hd|g|g ch|ch]; cbn in El |- *.
  - by injection El as <- <-.
  - by injection El as <- <-.
  - unfold dispatchEvent in El. destruct (pushCache _ _ _) as [fs|err|] eqn:Ep; [|done..].
    injection El as <- <-. cbn [hub set_hub]. rewrite put_flow_state. cbn in *.
    destruct (decide (FlowId e = f)) as [<- |]; [|done]. rewrite app_nil_r in Hrel. by eapply pushCache_rel.
  - injection El as <- <-. cbn [hub set_hub]. rewrite put_flow_state. by case_decide; subst.
  - injection El as <- <-. cbn. unfold detachRuntime. by case_decide.
  - injection El as <- <-. cbn [hub]. rewrite put_flow_state. case_decide; subst; [|done]. by eapply cache_rel_same.
  - unfold unsubscribe in El. destruct (flows (hub w) !! g) as [fs|] eqn:Eg; [|by injection El as <- <-].
    case_decide; [by injection El as <- <-|]. injection El as <- <-. cbn [hub set_hub]. rewrite put_flow_state.
    case_decide; subst; [|done]. eapply cache_rel_same; [..|done]; unfold flowStateLocked; by rewrite Eg.
  - by injection El as <- <-.
Qed.

Lemma run_cache f ops : forall w w' es, run w ops = Ok w' -> cache_rel es (flowStateLocked (hub w) f) ->
  cache_rel (es ++ omap (event_of f) ops) (flowStateLocked (hub w') f).
Proof.
  induction ops as [|o ops IH]; intros w w' es; cbn [run]; [intros [= <-]; cbn; by rewrite app_nil_r|].
  destruct (step w o) as [w1|e|] eqn:Es; [|done..]. intros Hr Hrel. apply (step_cache f) with (es := es) in Es; [|done].
  apply (IH _ _ _ Hr) in Es. rewrite <- app_assoc in Es. cbn in *. by destruct (event_of f o).
Qed.

(** Along any operations, the cache of a flow holds its last 200 events, oldest first, as
    browsers see them; and when no event id repeats, [LoadFull] gives the untruncated value of
    exactly those events. *)
Theorem cache_holds_last ops w f : run initWorld ops = Ok w ->
  let es := omap (event_of f) ops in
  cache (flowStateLocked (hub w) f) = map toEvent (debug.lastn 200 es) /\
  (NoDup (map Id es) -> forall id v, LoadFull (hub w) f id = Some v <->
     exists e, e ∈ debug.lastn 200 es /\ Id e = id /\ ValueJson e = v).
Proof.
  intros Hr es. destruct (run_cache f ops initWorld w [] Hr) as (Hc & _ & Hi).
  { split_and!; [done..|]. intros _ id v. split; [done|]. intros (e & He & _). by apply elem_of_nil in He. }
  rewrite app_nil_l in *. change 200%nat with CacheSize. split; [done|]. intros Hnd id v. unfold es. rewrite <- (Hi Hnd id v).
  unfold LoadFull, flowStateLocked. by destruct (flows (hub w) !! f).
Qed.

(** ** Examples, and what the design does not give *)
Module examples.
Definition event (id value : string) : DebugEvent := MkDebugEvent id "flow" "n" "out" "out" "" 0 "" "" "" "" value.
Definition ops1 : list op :=
  [OConnect "rt" ∅; OSubscribe "flow"; OSubscribe "other"; OUplink (UEvent (event "e1" "1")); OCancel "flow" 0].

Definition w1 : world := match run initWorld ops1 with Ok w => w | _ => initWorld end.
Lemma w1_run : run initWorld ops1 = Ok w1.
Proof. vm_compute. reflexivity. Qed.

Lemma forwards_watched_flows_witness :
  exists s, sinks w1 !! 0%nat = Some s /\ ("other" ∈ subscribed s) /\ ("flow" ∉ subscribed s).
Proof.
  destruct (forwards_watched_flows ops1) as (w & Hr & H); [repeat constructor|].
  rewrite w1_run in Hr. apply (f_equal (fun r => match r with Ok w => w | _ => initWorld end)) in Hr. cbn iota beta in Hr. subst w.
  destruct (H "rt" 0%nat) as (s & Hs & Hf); [vm_compute; reflexivity|].
  exists s. split; [exact Hs|]. split.
  - apply Hf. vm_compute. discriminate.
  - intros Hin. apply Hf in Hin. apply Hin. vm_compute. reflexivity.
Defined.

Lemma cache_holds_last_witness : LoadFull (hub w1) "flow" "e1" = Some "1".
Proof.
  apply (proj2 (cache_holds_last ops1 w1 "flow" w1_run)).
  - vm_compute. repeat constructor. apply not_elem_of_nil.
  - exists (event "e1" "1"). split; [vm_compute; constructor|]. split; reflexivity.
Defined.

(** A runtime that reconnects after the last watcher of a flow left while it was away keeps
    forwarding the flow: its sink is not cleared, and the hub sends nothing. *)
Theorem reconnect_forwards_unwatched :
  exists w s, run initWorld [OConnect "rt" ∅; OSubscribe "flow"; ODisconnect "rt" 0; OCancel "flow" 0; OConnect "rt" {["flow"]}] = Ok w /\
    sinks w !! 1%nat = Some s /\ trySend s "flow" = true /\ subscribers (flowStateLocked (hub w) "flow") = ∅.
Proof. eexists _, _. split; [vm_compute; reflexivity|]. split_and!; vm_compute; reflexivity. Qed.

(** The sends come after the lock: when the last watcher leaves and another one joins, the
    runtime may get "unsubscribe" last, and the new watcher sees nothing. *)
Theorem stale_unsubscribe :
  exists w0 w gs s, run initWorld [OConnect "rt" ∅; OSubscribe "flow"] = Ok w0 /\
    rtc istep (w0, []) (w, gs) /\ Forall (fun g => g = []) gs /\
    sinks w !! 0%nat = Some s /\ trySend s "flow" = false /\ refCount (flowStateLocked (hub w) "flow") = 1.
Proof.
  eexists _, _, [[]; []], _. split; [vm_compute; reflexivity|]. split.
  - eapply rtc_l; [apply (istep_lock _ _ (OCancel "flow" 0)); vm_compute; reflexivity|].
    eapply rtc_l; [apply (istep_lock _ _ (OSubscribe "flow")); vm_compute; reflexivity|].
    eapply rtc_l; [apply (istep_send _ [[ASend 0 (DUnsubscribe "flow")]] (ASend 0 (DSubscribe "flow")) [] [])|].
    eapply rtc_l; [apply (istep_send _ [] (ASend 0 (DUnsubscribe "flow")) [] [[]])|]. apply rtc_refl.
  - split; [by repeat constructor|]. split_and!; vm_compute; reflexivity.
Qed.

(** A runtime replays its buffers to every first watcher, so that the same event reaches the
    hub again; when the older copy leaves the cache, the newer one cannot be loaded. *)
Definition replayed : list op :=
  OUplink (UEvent (event "e1" "1")) :: OUplink (UEvent (event "e1" "1")) ::
  replicate 199 (OUplink (UEvent (event "e2" "2"))).
Theorem replayed_event_not_loadable :
  exists w, run initWorld replayed = Ok w /\ head (cache (flowStateLocked (hub w) "flow")) = Some (toEvent (event "e1" "1")) /\
    LoadFull (hub w) "flow" "e1" = None.
Proof. eexists. split; [vm_compute; reflexivity|]. split; vm_compute; reflexivity. Qed.
End examples.
End debughub.
