(* ===== verification/ExecHistory.v ===== *)
(** * The history of executions

    The control plane's tables [executions], [execution_node_io] and [dead_letters]
    ([controlplane/internal/api/executions.go], [deadletters.go]) and the messages a runtime
    fills them with ([engine/internal/runtimeclient/eventchannel.go]).  A table is a map by its
    primary key, or a list in insertion order where the key is a fresh id; every statement may
    fail.  Clocks, fresh ids and the JSON of datagrams are arguments. *)

From S2P Require Import Prelude GoStd Datagram Execution Auth.
Import gostd.
Local Open Scope Z_scope.

Module exechistory.

(** [string(status)] *)
Definition status_text (s : execution.ExecutionStatus) : string :=
  match s with
  | execution.ExecutionRunning => "running"
  | execution.ExecutionWaiting => "waiting"
  | execution.ExecutionSuccess => "success"
  | execution.ExecutionFailed => "failed"
  | execution.ExecutionCancelled => "cancelled"
  | execution.ExecutionCrashed => "crashed"
  end.

(** ** The messages *)

Record ExecutionEvent := MkExecutionEvent {
  ExecutionID : string; FlowID : string; Phase : string; TimeUnixMs : Z;
  TriggerNodeID : string; TriggerKind : string; ReRunOf : string; SeedDatagramJSON : string;
  NodeID : string; Port : string; Attempt : Z; DurationUs : Z; InputJSON : string; OutputsJSON : string;
  ErrorMessage : string; ErrorCode : string; ErrorStack : string;
  Status : string; Reason : string
}.
Record DeadLetterEvent := MkDeadLetterEvent {
  dl_FlowID : string; dl_NodeID : string; dl_Port : string; dl_Reason : string; dl_DatagramJSON : string; dl_TimeUnixMs : Z
}.

(** [EventSink]: the methods that the tracker calls; times are in nanoseconds. *)
Definition UnixMilli (t : Z) : Z := t / 1000000.
Definition Waiting (flowID executionID triggerNodeID : string) (at_ : Z) (seed : string) : ExecutionEvent :=
  MkExecutionEvent executionID flowID "waiting" (UnixMilli at_) triggerNodeID "" "" seed "" "" 0 0 "" "" "" "" "" "" "".
Definition Started (flowID executionID triggerNodeID triggerKind reRunOf : string) (at_ : Z) (seed : string) : ExecutionEvent :=
  MkExecutionEvent executionID flowID "started" (UnixMilli at_) triggerNodeID triggerKind reRunOf seed "" "" 0 0 "" "" "" "" "" "" "".
Definition Finished (flowID executionID : string) (status : execution.ExecutionStatus) (at_ : Z) (reason : string) : ExecutionEvent :=
  MkExecutionEvent executionID flowID "finished" (UnixMilli at_) "" "" "" "" "" "" 0 0 "" "" "" "" "" (status_text status) reason.
Definition Capture (flowID nodeID port reason datagramJSON : string) (at_ : Z) : DeadLetterEvent :=
  MkDeadLetterEvent flowID nodeID port reason datagramJSON (UnixMilli at_).

(** ** The tables *)

Record Execution := MkExecution {
  FlowID_ : string; RuntimeID : string; Status_ : string; TriggerNodeID_ : string; TriggerKind_ : string;
  ReRunOf_ : option string; SeedDatagram : string; started_at : Z; finished_at : option Z; Reason_ : string
}.
Record ExecutionNodeIO := MkExecutionNodeIO {
  execution_id : string; node_id : string; port : string; attempt : Z; at_ : Z; duration_us : Z;
  input : string; outputs : string; error_message : string; error_code : string; error_stack : string
}.
Record DeadLetter := MkDeadLetter {
  d_ID : string; d_FlowID : string; d_NodeID : string; d_Port : string; d_Reason : string; d_Datagram : string;
  created_at : Z; reinjected_at : option Z
}.
Record DB := MkDB {
  executions : gmap string Execution;
  execution_node_io : list ExecutionNodeIO;
  dead_letters : list DeadLetter
}.
Definition emptyDB : DB := MkDB ∅ [] [].
Definition set_executions (db : DB) (m : gmap string Execution) : DB := MkDB m (execution_node_io db) (dead_letters db).

(** [time.UnixMilli(ms).UTC().Format(time.RFC3339)] *)
Definition millis_text (ms : Z) : Z := FormatRFC3339 (ms * 1000000).

(** An UPDATE, and an INSERT when it found no row; [ok1] and [ok2] are their outcomes. *)
Definition upsertExecution (db : DB) (ok1 ok2 : bool) (runtimeID : string) (ev : ExecutionEvent) (status : string)
  : DB * res string unit :=
  let reRunOf := if decide (ReRunOf ev = "") then None else Some (ReRunOf ev) in
  if ok1 then
    match executions db !! ExecutionID ev with
    | Some e =>
        (set_executions db (<[ExecutionID ev := MkExecution (FlowID_ e) runtimeID status (TriggerNodeID ev) (TriggerKind ev)
           reRunOf (SeedDatagramJSON ev) (started_at e) (finished_at e) (Reason_ e)]> (executions db)), Ok tt)
    | None =>
        if ok2 then
          (set_executions db (<[ExecutionID ev := MkExecution (FlowID ev) runtimeID status (TriggerNodeID ev) (TriggerKind ev)
             reRunOf (SeedDatagramJSON ev) (millis_text (TimeUnixMs ev)) None ""]> (executions db)), Ok tt)
        else (db, Err "api: creating execution")
    end
  else (db, Err "api: updating execution").

Definition insertExecutionNodeIO (db : DB) (ok : bool) (ev : ExecutionEvent) : DB * res string unit :=
  if ok then
    (MkDB (executions db)
       (execution_node_io db ++ [MkExecutionNodeIO (ExecutionID ev) (NodeID ev) (Port ev) (Attempt ev) (millis_text (TimeUnixMs ev))
          (DurationUs ev) (InputJSON ev) (OutputsJSON ev) (ErrorMessage ev) (ErrorCode ev) (ErrorStack ev)])
       (dead_letters db), Ok tt)
  else (db, Err "api: recording execution node I/O").

Definition finishExecution (db : DB) (ok : bool) (ev : ExecutionEvent) : DB * res string unit :=
  if ok then
    (set_executions db (alter (fun e => MkExecution (FlowID_ e) (RuntimeID e) (Status ev) (TriggerNodeID_ e) (TriggerKind_ e)
       (ReRunOf_ e) (SeedDatagram e) (started_at e) (Some (millis_text (TimeUnixMs ev))) (Reason ev))
       (ExecutionID ev) (executions db)), Ok tt)
  else (db, Err "api: finishing execution").

Definition RecordExecutionEvent (db : DB) (ok1 ok2 : bool) (runtimeID : string) (ev : ExecutionEvent) : DB * res string unit :=
  if decide (Phase ev = "waiting") then upsertExecution db ok1 ok2 runtimeID ev "waiting"
  else if decide (Phase ev = "started") then upsertExecution db ok1 ok2 runtimeID ev "running"
  else if decide (Phase ev = "node") then insertExecutionNodeIO db ok1 ev
  else if decide (Phase ev = "finished") then finishExecution db ok1 ev
  else (db, Ok tt).

Definition crash (now : Z) (e : Execution) : Execution :=
  MkExecution (FlowID_ e) (RuntimeID e) "crashed" (TriggerNodeID_ e) (TriggerKind_ e) (ReRunOf_ e) (SeedDatagram e)
    (started_at e) (Some (FormatRFC3339 now)) "runtime disconnected".
Definition MarkRuntimeExecutionsCrashed (db : DB) (ok : bool) (now : Z) (runtimeID : string) : DB * res string unit :=
  if ok then
    (set_executions db ((fun e => if decide (RuntimeID e = runtimeID /\ (Status_ e = "running" \/ Status_ e = "waiting"))
                                  then crash now e else e) <$> executions db), Ok tt)
  else (db, Err "api: marking runtime executions crashed").

(** [GetExecution] with [fillExecutionTimes]: the row and the duration in milliseconds. *)
Definition durationMs (e : Execution) : option Z :=
  (fun f => timeSub (ParseRFC3339 f) (ParseRFC3339 (started_at e)) / 1000000) <$> finished_at e.
Definition GetExecution (db : DB) (ok : bool) (id : string) : res string (option (Execution * option Z)) :=
  if ok then Ok ((fun e => (e, durationMs e)) <$> executions db !! id) else Err "api: scanning execution".

(** [GetExecutionNodeInput]: the earliest recorded input of a node ([ORDER BY at ASC LIMIT 1]). *)
Fixpoint earliest (l : list ExecutionNodeIO) : option ExecutionNodeIO :=
  match l with
  | [] => None
  | x :: l' => match earliest l' with Some y => Some (if at_ y <? at_ x then y else x) | None => Some x end
  end.
Definition GetExecutionNodeInput (db : DB) (ok : bool) (executionID nodeID : string) : res string (option (string * string)) :=
  if ok then
    Ok ((fun x => (input x, port x)) <$>
        earliest (filter (fun x => execution_id x = executionID /\ node_id x = nodeID) (execution_node_io db)))
  else Err "api: scanning execution node input".

(** ** Dead letters *)

Definition RecordDeadLetter (db : DB) (ok : bool) (id : string) (ev : DeadLetterEvent) : DB * res string unit :=
  if ok && bool_decide (id ∉ map d_ID (dead_letters db)) then
    (MkDB (executions db) (execution_node_io db)
       (dead_letters db ++ [MkDeadLetter id (dl_FlowID ev) (dl_NodeID ev) (dl_Port ev) (dl_Reason ev) (dl_DatagramJSON ev)
          (millis_text (dl_TimeUnixMs ev)) None]), Ok tt)
  else (db, Err "api: recording dead letter").
Definition GetDeadLetter (db : DB) (ok : bool) (id : string) : res string (option DeadLetter) :=
  if ok then Ok (List.find (fun d => bool_decide (d_ID d = id)) (dead_letters db)) else Err "api: scanning dead letter".
Definition DeleteDeadLetter (db : DB) (ok : bool) (id : string) : DB * res string unit :=
  if ok then (MkDB (executions db) (execution_node_io db) (filter (fun d => d_ID d <> id) (dead_letters db)), Ok tt)
  else (db, Err "db").
Definition MarkDeadLetterReinjected (db : DB) (ok : bool) (now : Z) (id : string) : DB * res string unit :=
  if ok then
    (MkDB (executions db) (execution_node_io db)
       (map (fun d => if decide (d_ID d = id) then
                        MkDeadLetter (d_ID d) (d_FlowID d) (d_NodeID d) (d_Port d) (d_Reason d) (d_Datagram d) (created_at d)
                          (Some (FormatRFC3339 now))
                      else d) (dead_letters db)), Ok tt)
  else (db, Err "db").

(** ** From the tracker to the tables *)

Section messages.
Context {V : Type}.
(** [marshalDatagram] and [marshalOutputs] *)
Context (marshalDatagram : datagram.Datagram V -> string) (marshalOutputs : list (@execution.PortDatagram V) -> string).

Definition NodeEvent (flowID executionID : string) (ev : @execution.NodeIO V) : ExecutionEvent :=
  let '(m, c, s) := match execution.io_Err ev with
                    | Some e => (execution.Message e, execution.Code e, execution.Stack e)
                    | None => ("", "", "")
                    end in
  MkExecutionEvent executionID flowID "node" (UnixMilli (execution.At ev)) "" "" "" ""
    (execution.io_NodeID ev) (execution.io_Port ev) (s32 (execution.Attempt ev)) (execution.DurationUs ev)
    (marshalDatagram (execution.Input ev)) (marshalOutputs (execution.Outputs ev)) m c s "" "".

(** What the tracker knows about an event besides its id. *)
Record meta := MkMeta {
  m_flow : string; m_trigger : string; m_kind : string; m_rerun : string; m_at : Z; m_seed : datagram.Datagram V
}.
Definition message (x : @execution.SinkEvent V * meta) : ExecutionEvent :=
  let '(e, m) := x in
  match e with
  | execution.EvWaiting id => Waiting (m_flow m) id (m_trigger m) (m_at m) (marshalDatagram (m_seed m))
  | execution.EvStarted id => Started (m_flow m) id (m_trigger m) (m_kind m) (m_rerun m) (m_at m) (marshalDatagram (m_seed m))
  | execution.EvNode id ev => NodeEvent (m_flow m) id ev
  | execution.EvFinished id s r => Finished (m_flow m) id s (m_at m) r
  end.
(** The control plane records the messages of a runtime in the order of its stream. *)
Definition record (rt : string) (db : DB) (x : @execution.SinkEvent V * meta) : DB :=
  (RecordExecutionEvent db true true rt (message x)).1.
Definition record_all (rt : string) (db : DB) (l : list (@execution.SinkEvent V * meta)) : DB := fold_left (record rt) l db.

(** What a sequence of events says about one execution: its last status and reason. *)
Definition phase_step (id : string) (acc : option (string * string)) (e : @execution.SinkEvent V) : option (string * string) :=
  match e with
  | execution.EvWaiting i => if decide (i = id) then Some ("waiting", default "" (snd <$> acc)) else acc
  | execution.EvStarted i => if decide (i = id) then Some ("running", default "" (snd <$> acc)) else acc
  | execution.EvNode _ _ => acc
  | execution.EvFinished i s r => if decide (i = id) then (fun _ => (status_text s, r)) <$> acc else acc
  end.
Definition phase (id : string) (l : list (@execution.SinkEvent V)) : option (string * string) := fold_left (phase_step id) l None.

(** [RecordExecutionEvent] on each kind of message. *)
Lemma record_event rt db x : record rt db x =
  (match x.1 with
   | execution.EvWaiting _ => upsertExecution db true true rt (message x) "waiting"
   | execution.EvStarted _ => upsertExecution db true true rt (message x) "running"
   | execution.EvNode _ _ => insertExecutionNodeIO db true (message x)
   | execution.EvFinished _ _ _ => finishExecution db true (message x)
   end).1.
Proof.
  destruct x as [[i|i|i ev|i s r] m]; unfold record, RecordExecutionEvent; cbn [message fst].
  - by rewrite decide_True.
  - by rewrite decide_False, decide_True.
  - assert (Phase (NodeEvent (m_flow m) i ev) = "node") as -> by (unfold NodeEvent; by destruct (execution.io_Err ev)).
    do 2 (rewrite decide_False by done). by rewrite decide_True.
  - do 3 (rewrite decide_False by done). by rewrite decide_True.
Qed.

Lemma upsert_row db rt ev status id :
  (fun e => (Status_ e, Reason_ e)) <$> executions (upsertExecution db true true rt ev status).1 !! id =
  (if decide (ExecutionID ev = id) then Some (status, default "" (Reason_ <$> executions db !! id))
   else (fun e => (Status_ e, Reason_ e)) <$> executions db !! id).
Proof.
  unfold upsertExecution. destruct (executions db !! ExecutionID ev) as [e|] eqn:E; cbn; destruct (decide (ExecutionID ev = id)) as [<- |];
    by rewrite ?lookup_insert_eq, ?lookup_insert_ne, ?E.
Qed.

Lemma record_row rt db x id :
  (fun e => (Status_ e, Reason_ e)) <$> executions (record rt db x) !! id =
  phase_step id ((fun e => (Status_ e, Reason_ e)) <$> executions db !! id) x.1.
Proof.
  rewrite record_event. destruct x as [[i|i|i ev|i s r] m]; cbn [fst].
  - rewrite upsert_row. cbn. case_decide; [|done]. by destruct (executions db !! id).
  - rewrite upsert_row. cbn. case_decide; [|done]. by destruct (executions db !! id).
  - done.
  - cbn. case_decide; subst; [rewrite lookup_alter_eq|by rewrite lookup_alter_ne]. by destruct (executions db !! id).
Qed.
Lemma record_all_row rt l id : forall db acc,
  (fun e => (Status_ e, Reason_ e)) <$> executions db !! id = acc ->
  (fun e => (Status_ e, Reason_ e)) <$> executions (record_all rt db l) !! id = fold_left (phase_step id) (map fst l) acc.
Proof.
  unfold record_all. induction l as [|x l IH]; intros db acc Hacc; [done|]. cbn [fold_left map]. apply IH. by rewrite record_row, Hacc.
Qed.

(** The rows of the node trace. *)
Definition node_row (x : @execution.SinkEvent V * meta) : option ExecutionNodeIO :=
  match x.1 with
  | execution.EvNode id ev =>
      let m := message x in
      Some (MkExecutionNodeIO id (execution.io_NodeID ev) (execution.io_Port ev) (Attempt m) (millis_text (TimeUnixMs m))
              (DurationUs m) (InputJSON m) (OutputsJSON m) (ErrorMessage m) (ErrorCode m) (ErrorStack m))
  | _ => None
  end.
Lemma record_all_nodes rt l : forall db,
  execution_node_io (record_all rt db l) = execution_node_io db ++ omap node_row l.
Proof.
  unfold record_all. induction l as [|x l IH]; intros db; [by rewrite app_nil_r|]. cbn [fold_left]. rewrite IH, record_event.
  destruct x as [[i|i|i ev|i s r] m]; cbn [fst];
    [unfold upsertExecution; by destruct (executions db !! _)..| |done].
  unfold node_row. cbn. unfold NodeEvent. by destruct (execution.io_Err ev); cbn; rewrite <- app_assoc.
Qed.

(** ** The phases of a tracker's run *)

Lemma phase_snoc id l e : phase id (l ++ [e]) = phase_step id (phase id l) e.
Proof. unfold phase. by rewrite fold_left_app. Qed.
Lemma phase_sink id (t : @execution.Tracker V) e : phase id (execution.sunk (execution.sink t e)) = phase_step id (phase id (execution.sunk t)) e.
Proof. apply phase_snoc. Qed.

(** The execution was reported as started before it was reported as finished. *)
Definition in_time (l : list (@execution.SinkEvent V)) (id : string) (s : execution.ExecutionStatus) (r : string) : Prop :=
  exists a b, l = a ++ execution.EvFinished id s r :: b /\ execution.EvStarted id ∈ a.
Record phase_inv (t : @execution.Tracker V) : Prop := {
  pi_live : forall id, id ∈ execution.live t ++ execution.fins t -> id ∉ execution.reporting t -> fst <$> phase id (execution.sunk t) = Some "running";
  pi_fin : forall id s r, in_time (execution.sunk t) id s r -> phase id (execution.sunk t) = Some (status_text s, r)
}.

Lemma in_time_snoc l e id s r : in_time (l ++ [e]) id s r -> in_time l id s r \/ (e = execution.EvFinished id s r /\ execution.EvStarted id ∈ l).
Proof.
  intros (a & b & E & Ha). destruct b as [|y b _] using rev_ind.
  - apply app_inj_tail in E as [-> ->]. by right.
  - rewrite app_comm_cons, app_assoc in E. apply app_inj_tail in E as [-> ->]. left. by exists a, b.
Qed.
Lemma in_time_finished (t : @execution.Tracker V) id s r : in_time (execution.sunk t) id s r -> id ∈ execution.finished t /\ id ∈ execution.reported t.
Proof.
  intros (a & b & E & Ha). unfold execution.finished, execution.reported. rewrite E. rewrite !list_elem_of_omap. split.
  - exists (execution.EvFinished id s r). set_solver.
  - exists (execution.EvStarted id). set_solver.
Qed.
(** What was started is in the history. *)
Lemma phase_known id l : execution.EvStarted id ∈ l -> is_Some (phase id l).
Proof.
  induction l as [|e l IH] using rev_ind; [by intros ?%elem_of_nil|]. rewrite phase_snoc. intros [H| <-%list_elem_of_singleton]%elem_of_app.
  - destruct (IH H) as [x ->]. destruct e; cbn; repeat case_decide; eauto.
  - cbn. rewrite decide_True by done. eauto.
Qed.
(** An event that concerns [id] other than by its node. *)
Definition concerns (e : @execution.SinkEvent V) : option string :=
  match e with execution.EvWaiting i | execution.EvStarted i | execution.EvFinished i _ _ => Some i | execution.EvNode _ _ => None end.
Lemma phase_step_other id acc e : concerns e <> Some id -> phase_step id acc e = acc.
Proof. destruct e; cbn; intros H; [rewrite decide_False by congruence..| |rewrite decide_False by congruence]; done. Qed.

(** A move that adds no event and no execution but one that is about to be reported. *)
Lemma phase_move t t' : phase_inv t -> execution.sunk t' = execution.sunk t -> execution.reporting t ⊆ execution.reporting t' ->
  (forall id, id ∈ execution.live t' ++ execution.fins t' -> id ∈ execution.live t ++ execution.fins t \/ id ∈ execution.reporting t') -> phase_inv t'.
Proof. intros [H1 H2] Es Hr Hsub. split; rewrite Es; [|done]. intros id Hid Hn. destruct (Hsub id Hid); [apply H1; set_solver|done]. Qed.
(** A new event: it concerns no execution that was finished in time, nor one that is running unless it starts it. *)
Lemma phase_event t t' e : phase_inv t -> execution.sunk t' = execution.sunk t ++ [e] ->
  (forall id s r, in_time (execution.sunk t) id s r -> concerns e <> Some id) ->
  (forall id, id ∈ execution.live t' ++ execution.fins t' -> id ∉ execution.reporting t' ->
     e = execution.EvStarted id \/ (concerns e <> Some id /\ id ∈ execution.live t ++ execution.fins t /\ id ∉ execution.reporting t)) ->
  phase_inv t'.
Proof.
  intros [H1 H2] Es Hfin Hlive. split; rewrite Es.
  - intros id Hid Hn. rewrite phase_snoc. destruct (Hlive id Hid Hn) as [-> |(He & Hid' & Hn')]; [cbn; by rewrite decide_True|].
    rewrite phase_step_other by done. by apply H1.
  - intros id s r [Hi|[-> Hst]]%in_time_snoc; rewrite phase_snoc.
    + rewrite phase_step_other by eauto. by apply H2.
    + cbn. rewrite decide_True by done. by destruct (phase_known _ _ Hst) as [x ->].
Qed.

Lemma retire_phase t id s r : is_Some (execution.active t !! id) -> phase_inv t -> phase_inv (execution.retire t id s r).
Proof.
  intros Hid Hi. eapply phase_move; [exact Hi|done|done|]. intros i. pose proof (execution.elements_delete _ _ Hid) as Hp.
  unfold execution.live, execution.fins. cbn. rewrite map_app. cbn. rewrite Hp. set_solver.
Qed.

(** What the invariant of the tracker says about the ids of its parts. *)
Lemma finished_apart m seen (t : @execution.Tracker V) id : execution.tracker_inv m seen t -> id ∈ execution.finished t ->
  id ∉ execution.live t ++ execution.fins t /\ id ∈ seen.
Proof.
  intros [Hnd Hseen _ _] Hf. unfold execution.known in *. split; [|apply Hseen; set_solver].
  apply NoDup_app in Hnd as (_ & _ & Hnd). apply NoDup_app in Hnd as (_ & _ & Hnd). rewrite app_assoc in Hnd.
  apply NoDup_app in Hnd as (_ & Hd & _). intros Hi. by apply (Hd id).
Qed.
Lemma started_once m seen (t : @execution.Tracker V) : execution.tracker_inv m seen t -> NoDup (execution.started t).
Proof.
  intros [Hnd _ Hst _]. rewrite Hst. unfold execution.known in Hnd. apply NoDup_app in Hnd as (_ & _ & Hnd).
  by apply NoDup_app in Hnd as (_ & _ & Hnd).
Qed.

Lemma start_phase m seen t id : execution.tracker_inv m seen t -> phase_inv t -> id ∉ seen -> phase_inv (execution.Start_begin t id).1.
Proof.
  intros Hi Hp Hid. unfold execution.Start_begin. destruct (execution.sem_put _) as [s|]; [eapply phase_move; eauto|].
  destruct (execution.reject t); [done|]. eapply phase_event; [done|done| |].
  - intros i s r [Hf _]%in_time_finished [= <-]. apply Hid. by eapply finished_apart.
  - cbn. intros i Hin Hn. right. split; [|done]. intros [= <-]. apply Hid, (execution.ti_seen _ _ _ Hi). unfold execution.known.
    change (id ∈ execution.live t ++ execution.fins t) in Hin. set_solver.
Qed.
Lemma report_phase m seen t i t' : execution.tracker_inv m seen t -> phase_inv t -> execution.Start_report t i = Some t' -> phase_inv t'.
Proof.
  intros Hi Hp. unfold execution.Start_report. destruct (execution.reporting t !! i) as [id|] eqn:Ei; [|done]. cbn. intros [= <-].
  pose proof (execution.delete_perm _ _ _ Ei) as Hperm. pose proof (started_once _ _ _ Hi) as Hnd.
  eapply phase_event; [done|done| |].
  - intros j s r [_ Hr]%in_time_finished [= <-]. unfold execution.started in Hnd. apply NoDup_app in Hnd as (_ & Hd & _).
    apply (Hd id Hr). rewrite Hperm. by left.
  - cbn. intros j Hj Hn. destruct (decide (id = j)) as [-> |Hne]; [by left|]. right. split_and!; [congruence|exact Hj|].
    rewrite Hperm. set_solver.
Qed.
Lemma finish_phase m seen t i t' : execution.tracker_inv m seen t -> phase_inv t -> execution.finish t i = Some t' -> phase_inv t'.
Proof.
  intros Hi Hp. unfold execution.finish. destruct (execution.finishing t !! i) as [[[id st] r]|] eqn:Ef; [|done]. cbn.
  destruct (execution.sem_take _); [|done]. cbn. intros [= <-]. pose proof (execution.delete_perm _ _ _ Ef) as Hperm.
  assert (execution.fins t ≡ₚ id :: map (fun x => x.1.1) (delete i (execution.finishing t))) as Hf by (unfold execution.fins; by rewrite Hperm at 1).
  assert (NoDup (execution.live t ++ execution.fins t)) as Hnd.
  { destruct Hi as [Hnd _ _ _]. unfold execution.known in Hnd. apply NoDup_app in Hnd as (_ & _ & Hnd).
    apply NoDup_app in Hnd as (_ & _ & Hnd). rewrite app_assoc in Hnd. by apply NoDup_app in Hnd as (Hnd & _ & _). }
  rewrite Hf, <- Permutation_middle in Hnd. apply NoDup_cons in Hnd as [Hnot _].
  eapply phase_event; [done|done| |].
  - intros j s' r' [Hj _]%in_time_finished [= <-]. destruct (finished_apart _ _ _ _ Hi Hj) as [Hn _]. apply Hn. rewrite Hf. set_solver.
  - cbn. intros j Hj Hn. right. unfold execution.live, execution.fins in Hj. cbn in Hj. fold (execution.live t) in Hj.
    split_and!; [intros [= <-]; done| |done]. rewrite Hf. set_solver.
Qed.

Lemma step_phase m seen t e t' :
  execution.tracker_inv m seen t -> phase_inv t -> execution.step t e = Some t' ->
  (forall id, e = execution.StartEv id -> id ∉ seen) -> phase_inv t'.
Proof.
  intros Hi Hp H Hfresh. destruct e as [id|i|i|i|i|inp ev oe|id|id|i|a b c]; cbn in H.
  - injection H as <-. eapply start_phase; eauto.
  - unfold execution.Start_acquire in H. destruct (_ !! i); [|done]. cbn in H. destruct (execution.sem_put _); [|done].
    cbn in H. injection H as <-. eapply phase_move; eauto.
  - unfold execution.Start_abort in H. destruct (_ !! i); [|done]. cbn in H. injection H as <-. eapply phase_move; eauto.
  - unfold execution.Start_commit in H. destruct (execution.starting t !! i) as [id|] eqn:Ei; [|done]. cbn in H. injection H as <-.
    eapply phase_move; [done|done|set_solver|]. intros j Hj. unfold execution.live, execution.fins in *. cbn in Hj. rewrite dom_insert in Hj. cbn. set_solver.
  - by eapply report_phase.
  - injection H as <-. unfold execution.NodeEvent. destruct (execution.active t !! _) as [st|] eqn:E; [|done].
    destruct (match execution.io_Err ev with Some _ => _ | None => _ end) as [fl rs].
    match goal with |- context [execution.sink ?t1 ?e1] => assert (phase_inv (execution.sink t1 e1)) as Hp' end.
    { eapply phase_event; [exact Hp|done|done|]. intros j Hj Hn. right. split_and!; [done| |done]. revert Hj. unfold execution.live. cbn.
      by rewrite execution.dom_insert_same by eauto. }
    destruct (_ <=? 0); [|done]. apply retire_phase; [|done]. cbn. rewrite lookup_insert_eq. eauto.
  - injection H as <-. unfold execution.timeoutExecution. destruct (execution.active t !! id) eqn:E; [|done]. apply retire_phase; eauto.
  - injection H as <-. unfold execution.Cancel. destruct (execution.active t !! id) eqn:E; [|done]. apply retire_phase; eauto.
  - by eapply finish_phase.
  - destruct (execution.Idle t); [|done]. injection H as <-. eapply phase_move; eauto.
Qed.

Lemma run_phase m es : forall seen t t',
  execution.tracker_inv m seen t -> phase_inv t -> execution.run t es = Some t' -> NoDup (execution.started_ids es) ->
  (forall x, x ∈ execution.started_ids es -> x ∉ seen) -> execution.no_reconfigure es -> phase_inv t'.
Proof.
  induction es as [|e es IH]; intros seen t t' Hi Hp H Hnd Hfresh Hrc; cbn in H; [by injection H as <-|].
  destruct (execution.step t e) as [t1|] eqn:E; [|done]. cbn in H.
  apply Forall_cons in Hrc as [He Hrc].
  assert (execution.started_ids (e :: es) = execution.started_ids [e] ++ execution.started_ids es) as Hs
    by (unfold execution.started_ids; cbn; by destruct e).
  rewrite Hs in Hnd, Hfresh. apply NoDup_app in Hnd as (_ & Hdis & Hnd).
  assert (forall id, e = execution.StartEv id -> id ∉ seen) as Hf1 by (intros id ->; apply Hfresh; by left).
  eapply (IH (execution.started_ids [e] ++ seen) t1); [|by eapply step_phase|exact H|done| |done].
  - eapply execution.tracker_step_inv; [done|done|done|]. intros a b c ->. done.
  - intros x Hx [Hx'|Hx']%elem_of_app; [by eapply Hdis|]. eapply Hfresh; [|exact Hx']. apply elem_of_app. by right.
Qed.

(** An order in which the reports of a run may come in.  A node reports after it has left the critical
    section, so that its report may come before or after those of other goroutines; the reports of
    phases come in the order in which the tracker makes them. *)
Definition is_node (e : @execution.SinkEvent V) : bool := match e with execution.EvNode _ _ => true | _ => false end.
Definition arrives (l sunk : list (@execution.SinkEvent V)) : Prop :=
  l ≡ₚ sunk /\ filter (fun e => is_node e = false) l = filter (fun e => is_node e = false) sunk.
Lemma phase_filter id l : phase id l = phase id (filter (fun e => is_node e = false) l).
Proof.
  unfold phase. generalize (None : option (string * string)). induction l as [|e l IH]; intros acc; [done|]. rewrite filter_cons. cbn [fold_left].
  destruct (decide (is_node e = false)) as [E|E]; [apply IH|]. rewrite <- IH. by destruct e.
Qed.

(** [C22] What a runtime reports is what the history shows, for every run of the execution tracker whose
    execution ids are distinct and that is not reconfigured, every order in which the nodes'
    reports come in, and a control plane whose statements succeed: an execution that still runs, and was
    reported as started, has status "running"; one that was reported as started and later as
    finished has the status and the reason it finished with; and the node trace holds every node
    report in the order in which they came.  [Start] reports after it has left its critical section, so that a cancel
    or a timeout can be reported first: nothing is said about such an execution, which
    [cancelled_before_started] shows to stay "running" for ever. *)
Theorem history_follows_tracker m rej tmo es t rt (l : list (@execution.SinkEvent V * meta)) :
  execution.run (execution.NewTracker m rej tmo) es = Some t -> NoDup (execution.started_ids es) ->
  execution.no_reconfigure es -> arrives (map fst l) (execution.sunk t) ->
  let db := record_all rt emptyDB l in
  (forall id, id ∈ execution.live t ++ execution.fins t -> id ∉ execution.reporting t -> Status_ <$> executions db !! id = Some "running") /\
  (forall id s r, in_time (execution.sunk t) id s r ->
     (fun e => (Status_ e, Reason_ e)) <$> executions db !! id = Some (status_text s, r)) /\
  execution_node_io db = omap node_row l.
Proof.
  intros Hrun Hnd Hrc [_ Hl] db.
  assert (phase_inv t) as [H1 H2].
  { eapply run_phase; [apply execution.NewTracker_inv| |exact Hrun|done| |done].
    - split; cbn; [intros id Hid; by apply elem_of_nil in Hid|intros id s r (a & b & E & _); by destruct a].
    - intros x _ Hx. by apply elem_of_nil in Hx. }
  assert (forall id, (fun e => (Status_ e, Reason_ e)) <$> executions db !! id = phase id (execution.sunk t)) as Hrow.
  { intros id. rewrite phase_filter, <- Hl, <- phase_filter. by apply record_all_row. }
  split_and!.
  - intros id Hid Hn. specialize (H1 id Hid Hn). rewrite <- Hrow in H1. by destruct (executions db !! id).
  - intros id s r Hs. rewrite Hrow. by apply H2.
  - unfold db. by rewrite record_all_nodes.
Qed.
End messages.

(** A disconnect marks what the runtime had open, and nothing else. *)
Lemma crash_marks db now rt id e : executions db !! id = Some e ->
  exists e', executions (MarkRuntimeExecutionsCrashed db true now rt).1 !! id = Some e' /\
  (Status_ e' = if decide (RuntimeID e = rt /\ (Status_ e = "running" \/ Status_ e = "waiting")) then "crashed" else Status_ e) /\
  RuntimeID e' = RuntimeID e /\ started_at e' = started_at e.
Proof. intros H. cbn. rewrite lookup_fmap, H. eexists. split; [done|]. by case_decide. Qed.

(** ** Examples *)
Module examples.
Definition d0 : datagram.Datagram unit := datagram.New "d0" 0 (datagram.MkSource "" "" "" "" "") (datagram.MkPayload tt None).
Definition m0 : @meta unit := MkMeta "flow" "n1" "manual" "" 5000000 d0.
Definition T0 : @execution.Tracker unit := execution.NewTracker 1 false 0.
Definition run1 : list (@execution.event unit) := [execution.StartEv "a"; execution.CommitEv 0; execution.ReportEv 0; execution.CancelEv "a"; execution.FinishEv 0].

Lemma history_follows_tracker_witness :
  (fun e => (Status_ e, Reason_ e)) <$>
    executions (record_all (fun _ => "{}") (fun _ => "[]") "rt" emptyDB
      [(execution.EvStarted "a", m0); (execution.EvFinished "a" execution.ExecutionCancelled "cancelled", m0)]) !! "a"
  = Some ("cancelled", "cancelled").
Proof.
  destruct (execution.run T0 run1) as [t|] eqn:E; [|vm_compute in E; discriminate].
  pose proof (history_follows_tracker (fun _ => "{}") (fun _ => "[]") 1 false 0 run1 t "rt"
    [(execution.EvStarted "a", m0); (execution.EvFinished "a" execution.ExecutionCancelled "cancelled", m0)]) as H.
  vm_compute in E. injection E as <-.
  refine (proj1 (proj2 (H _ _ _ (conj _ _))) "a" execution.ExecutionCancelled "cancelled" _).
  - vm_compute. reflexivity.
  - repeat constructor. apply not_elem_of_nil.
  - repeat constructor.
  - reflexivity.
  - reflexivity.
  - exists [execution.EvStarted "a"], []. split; [reflexivity|constructor].
Defined.

(** A cancel that is reported before the start it cancels: the execution is over, and the history
    shows it as running. *)
Definition run3 : list (@execution.event unit) :=
  [execution.StartEv "a"; execution.CommitEv 0; execution.CancelEv "a"; execution.FinishEv 0; execution.ReportEv 0].
Theorem cancelled_before_started :
  exists t : @execution.Tracker unit, execution.run T0 run3 = Some t /\
    (execution.live t, execution.fins t, execution.starting t, execution.reporting t) = ([], [], [], []) /\
    Status_ <$> executions (record_all (fun _ => "{}") (fun _ => "[]") "rt" emptyDB (map (fun e => (e, m0)) (execution.sunk t))) !! "a"
      = Some "running".
Proof. eexists. split; [vm_compute; reflexivity|]. split; vm_compute; reflexivity. Qed.

(** A queued start that is aborted stays "waiting" in the history: the tracker reports nothing
    more about it, here with every slot free again. *)
Definition run2 : list (@execution.event unit) :=
  [execution.StartEv "a"; execution.CommitEv 0; execution.ReportEv 0; execution.StartEv "b"; execution.AbortEv 0; execution.CancelEv "a"; execution.FinishEv 0].
Theorem aborted_start_stays_waiting :
  exists t : @execution.Tracker unit, execution.run T0 run2 = Some t /\
    (execution.live t, execution.fins t, execution.waiting t, execution.starting t) = ([], [], [], []) /\
    Status_ <$> executions (record_all (fun _ => "{}") (fun _ => "[]") "rt" emptyDB (map (fun e => (e, m0)) (execution.sunk t))) !! "b"
      = Some "waiting".
Proof. eexists. split; [vm_compute; reflexivity|]. split; vm_compute; reflexivity. Qed.
End examples.
End exechistory.
