(* ===== verification/Registry.v ===== *)
(** * The runtime registry ([controlplane/internal/registry/registry.go])

    Registration and sessions, heartbeats, the deploy stream with its queue, the event channel
    with its queue, group-targeted deploys and execution commands.  The device store is the
    fleet database, the execution store the history; a nil store is [None].  Streams have a
    number; Go's map order, random session tokens, the clock and the outcome of statements are
    arguments. *)

From S2P Require Import Prelude GoStd Fleet ExecHistory.
Import gostd.
Local Open Scope Z_scope.

Module registry.

Definition deployChanBuffer : nat := 8.
Definition eventChanBuffer : nat := 8.

Record FlowStatus := MkFlowStatus { fs_FlowID : string; fs_Status : string }.
Record runtimeState := MkRuntimeState {
  edge : bool; version : string; sessionToken : string; lastSeen : Z;
  deployCh : option nat; eventCh : option nat;
  cpuPercent : Z; memoryBytes : Z; flowStatuses : list FlowStatus
}.
Definition runtimeKindString (edge : bool) : string := if edge then "edge" else "server".

Record DeployedFlowInfo := MkDeployedFlowInfo {
  FlowID : string; Version : Z; ContentJSON : string; DefaultErrorFlow : string; TargetGroup : string; LogLevel : string;
  ResolvedEnv : gmap string string
}.
(** [runtimev1.DeployStreamResponse] *)
Record DeployCmd := MkDeployCmd {
  c_FlowId : string; c_Version : Z; c_FlowJson : string; c_DefaultErrorFlow : string; c_LogLevel : string; c_ResolvedEnv : gmap string string
}.
Definition cmdOf (f : DeployedFlowInfo) : DeployCmd :=
  MkDeployCmd (FlowID f) (Version f) (ContentJSON f) (DefaultErrorFlow f) (LogLevel f) (ResolvedEnv f).
(** [runtimev1.EventChannelResponse] *)
Inductive command :=
| CRunExecution (flowID from nodeID port datagramJSON reRunOf : string)
| CCancelExecution (executionID : string)
| CReinjectDeadLetter (flowID nodeID port datagramJSON : string).

Record Service := MkService {
  runtimes : gmap string runtimeState;
  deployChans : gmap nat (list DeployCmd);
  eventChans : gmap nat (list command);
  next_ch : nat;
  deviceStore : option fleet.DB;
  executionStore : option exechistory.DB
}.
Definition NewService (dev : option fleet.DB) (ex : option exechistory.DB) : Service := MkService ∅ ∅ ∅ 0 dev ex.
Definition set_runtimes (s : Service) m : Service :=
  MkService m (deployChans s) (eventChans s) (next_ch s) (deviceStore s) (executionStore s).
Definition set_store (s : Service) d : Service :=
  MkService (runtimes s) (deployChans s) (eventChans s) (next_ch s) d (executionStore s).
Definition set_deployChans (s : Service) m : Service :=
  MkService (runtimes s) m (eventChans s) (next_ch s) (deviceStore s) (executionStore s).
Definition set_eventChans (s : Service) m : Service :=
  MkService (runtimes s) (deployChans s) m (next_ch s) (deviceStore s) (executionStore s).
Definition set_history (s : Service) h : Service :=
  MkService (runtimes s) (deployChans s) (eventChans s) (next_ch s) (deviceStore s) h.

Definition validSession (s : Service) (runtimeID token : string) : bool :=
  match runtimes s !! runtimeID with Some rt => bool_decide (sessionToken rt = token) | None => false end.

Section service.
Context (hashEnrollToken : string -> string).

(** [Register]: the new state, and the session token or an error. *)
Definition Register (s : Service) (ok1 ok2 ok3 ok4 : bool) (now : Z) (token : string)
    (runtimeID : string) (edge_ : bool) (version_ enrollmentToken : string) : Service * res string string :=
  if decide (runtimeID = "") then (s, Err "runtime_id is required")
  else
    let '(s, accepted) :=
      match deviceStore s with
      | None => (s, true)
      | Some db =>
          let '(db', r) := fleet.Authenticate hashEnrollToken db ok1 ok2 ok3 ok4 now runtimeID (runtimeKindString edge_) enrollmentToken in
          (set_store s (Some db'), is_ok r)
      end in
    if accepted then
      (set_runtimes s (<[runtimeID := MkRuntimeState edge_ version_ token now None None 0 0 []]> (runtimes s)), Ok token)
    else (s, Err "fleet authentication failed").

Definition Heartbeat (s : Service) (now : Z) (runtimeID token : string) (cpu mem : Z) (statuses : list FlowStatus)
  : Service * res string unit :=
  match runtimes s !! runtimeID with
  | Some rt =>
      if decide (sessionToken rt = token) then
        (set_runtimes s (<[runtimeID := MkRuntimeState (edge rt) (version rt) (sessionToken rt) now (deployCh rt) (eventCh rt)
           cpu mem statuses]> (runtimes s)), Ok tt)
      else (s, Err "unknown runtime or session")
  | None => (s, Err "unknown runtime or session")
  end.

(** ** The deploy stream *)

Definition with_deployCh (rt : runtimeState) (c : option nat) : runtimeState :=
  MkRuntimeState (edge rt) (version rt) (sessionToken rt) (lastSeen rt) c (eventCh rt) (cpuPercent rt) (memoryBytes rt) (flowStatuses rt).
Definition with_eventCh (rt : runtimeState) (c : option nat) : runtimeState :=
  MkRuntimeState (edge rt) (version rt) (sessionToken rt) (lastSeen rt) (deployCh rt) c (cpuPercent rt) (memoryBytes rt) (flowStatuses rt).

(** The critical section that opens a stream: its channel. *)
Definition DeployStream_open (s : Service) (runtimeID token : string) : Service * res string nat :=
  match runtimes s !! runtimeID with
  | Some rt =>
      if decide (sessionToken rt = token) then
        let ch := next_ch s in
        (MkService (<[runtimeID := with_deployCh rt (Some ch)]> (runtimes s)) (<[ch := []]> (deployChans s)) (eventChans s)
           (S ch) (deviceStore s) (executionStore s), Ok ch)
      else (s, Err "unknown runtime or session")
  | None => (s, Err "unknown runtime or session")
  end.

(** A send that does not block: whether there was room. *)
Definition try_send {A} (cap : nat) (q : list A) (x : A) : option (list A) :=
  if (length q <? cap)%nat then Some (q ++ [x]) else None.
Definition push_or_drop (q : list DeployCmd) (x : DeployCmd) : list DeployCmd := default q (try_send deployChanBuffer q x).

(** The flows re-pushed to a runtime of group [g]. *)
Definition in_scope (g : string) (f : DeployedFlowInfo) : Prop := TargetGroup f = "" \/ TargetGroup f = g.
#[local] Instance in_scope_dec g f : Decision (in_scope g f).
Proof. unfold in_scope. apply _. Defined.
Definition groupOf (s : Service) (ok : bool) (runtimeID : string) : option string :=
  match deviceStore s with
  | None => None
  | Some db => match fleet.GroupOf db ok runtimeID with Ok g => Some g | _ => None end
  end.
(** The re-push loop, before the stream's own loop starts; [flows]: what the lister returns. *)
Definition DeployStream_repush (s : Service) (ok : bool) (runtimeID : string) (ch : nat) (flows : res string (list DeployedFlowInfo)) : Service :=
  let myGroup := default "" (groupOf s ok runtimeID) in
  match flows with
  | Ok l => set_deployChans s (alter (fun q => fold_left (fun q f => push_or_drop q (cmdOf f)) (filter (in_scope myGroup) l) q) ch (deployChans s))
  | _ => s
  end.
(** One turn of the loop: the command that goes down the stream. *)
Definition DeployStream_send (s : Service) (ch : nat) : option (DeployCmd * Service) :=
  match deployChans s !! ch with
  | Some (c :: q) => Some (c, set_deployChans s (<[ch := q]> (deployChans s)))
  | _ => None
  end.
(** The deferred function. *)
Definition DeployStream_close (s : Service) (runtimeID : string) (ch : nat) : Service :=
  match runtimes s !! runtimeID with
  | Some rt => if decide (deployCh rt = Some ch) then set_runtimes s (<[runtimeID := with_deployCh rt None]> (runtimes s)) else s
  | None => s
  end.

(** The sends of a command, one channel after the other; [done i]: the [i]-th select takes the
    cancelled context. *)
Fixpoint send_each {A} (cap : nat) (full : string) (done : nat -> bool) (i : nat) (chans : gmap nat (list A)) (l : list nat) (x : A)
  : gmap nat (list A) * res string unit :=
  match l with
  | [] => (chans, Ok tt)
  | ch :: l' =>
      if done i then (chans, Err "context canceled")
      else
        match try_send cap (default [] (chans !! ch)) x with
        | Some q => send_each cap full done (S i) (<[ch := q]> chans) l' x
        | None => (chans, Err full)
        end
  end.

(** The channel of a runtime that a deploy reaches; [oks]: the outcomes of the group queries. *)
Definition deployTarget (s : Service) (oks : string -> bool) (targetGroup id : string) : option nat :=
  rt ← runtimes s !! id;
  ch ← deployCh rt;
  if decide (targetGroup = "") then Some ch
  else match groupOf s (oks id) id with
       | Some g => if decide (g = targetGroup) then Some ch else None
       | None => None
       end.
(** [order]: the runtimes in the order of Go's map iteration. *)
Definition deployTargets (s : Service) (order : list string) (oks : string -> bool) (targetGroup : string) : list nat :=
  omap (deployTarget s oks targetGroup) order.
Definition DeployFlow (s : Service) (order : list string) (oks : string -> bool) (done : nat -> bool) (f : DeployedFlowInfo)
  : Service * res string unit :=
  let channels := deployTargets s order oks (TargetGroup f) in
  if decide (channels = []) then (s, Err "no runtime currently connected in the target scope")
  else let '(chans, r) := send_each deployChanBuffer "runtime deploy queue full" done 0 (deployChans s) channels (cmdOf f) in
       (set_deployChans s chans, r).

(** ** The event channel *)

Definition EventChannel_open (s : Service) (runtimeID token : string) : Service * res string nat :=
  if validSession s runtimeID token then
    match runtimes s !! runtimeID with
    | Some rt =>
        let ch := next_ch s in
        (MkService (<[runtimeID := with_eventCh rt (Some ch)]> (runtimes s)) (deployChans s) (<[ch := []]> (eventChans s))
           (S ch) (deviceStore s) (executionStore s), Ok ch)
    | None => (s, Err "unknown runtime")
    end
  else (s, Err "unknown runtime or session").

Inductive uplink := UHello | UExecution (ev : exechistory.ExecutionEvent) | UDeadLetter (id : string) (ev : exechistory.DeadLetterEvent).
Definition handleEventUplink (s : Service) (ok1 ok2 : bool) (runtimeID : string) (u : uplink) : Service :=
  match executionStore s with
  | None => s
  | Some db =>
      set_history s (Some (match u with
                           | UHello => db
                           | UExecution ev => (exechistory.RecordExecutionEvent db ok1 ok2 runtimeID ev).1
                           | UDeadLetter id ev => (exechistory.RecordDeadLetter db ok1 id ev).1
                           end))
  end.

Definition EventChannel_close (s : Service) (ok : bool) (now : Z) (runtimeID : string) (ch : nat) : Service :=
  let s := match runtimes s !! runtimeID with
           | Some rt => if decide (eventCh rt = Some ch) then set_runtimes s (<[runtimeID := with_eventCh rt None]> (runtimes s)) else s
           | None => s
           end in
  match executionStore s with
  | None => s
  | Some db => set_history s (Some (exechistory.MarkRuntimeExecutionsCrashed db ok now runtimeID).1)
  end.

(** One turn of its loop. *)
Definition EventChannel_send (s : Service) (ch : nat) : option (command * Service) :=
  match eventChans s !! ch with
  | Some (c :: q) => Some (c, set_eventChans s (<[ch := q]> (eventChans s)))
  | _ => None
  end.

Definition eventTargets (s : Service) (order : list string) : list nat := omap (fun id => rt ← runtimes s !! id; eventCh rt) order.
Definition sendExecutionCommand (s : Service) (order : list string) (done : nat -> bool) (c : command) : Service * res string unit :=
  let channels := eventTargets s order in
  if decide (channels = []) then (s, Err "no runtime currently connected")
  else let '(chans, r) := send_each eventChanBuffer "runtime event command queue full" done 0 (eventChans s) channels c in
       (set_eventChans s chans, r).
Definition RunExecution (s : Service) order done (flowID from nodeID port datagramJSON reRunOf : string) :=
  sendExecutionCommand s order done (CRunExecution flowID from nodeID port datagramJSON reRunOf).
Definition CancelExecution (s : Service) order done (executionID : string) := sendExecutionCommand s order done (CCancelExecution executionID).
Definition ReinjectDeadLetter (s : Service) order done (flowID nodeID port datagramJSON : string) :=
  sendExecutionCommand s order done (CReinjectDeadLetter flowID nodeID port datagramJSON).

(** ** The listing *)

Record RuntimeSnapshot := MkRuntimeSnapshot {
  r_RuntimeID : string; r_Kind : string; r_Version : string; r_LastSeen : Z; r_Online : bool;
  r_CPUPercent : option Z; r_MemoryBytes : option Z; r_FlowCount : Z; r_DisplayName : string; r_Group : string; r_Enrolled : bool
}.
Definition snapshotOf (s : Service) (ok : bool) (id : string) (rt : runtimeState) : RuntimeSnapshot :=
  let online := bool_decide (deployCh rt <> None) in
  let info := match deviceStore s with
              | Some db => match fleet.DeviceInfo db ok id with Ok i => i | _ => fleet.MkDeviceInfo "" "" "" false end
              | None => fleet.MkDeviceInfo "" "" "" false
              end in
  MkRuntimeSnapshot id (runtimeKindString (edge rt)) (version rt) (lastSeen rt) online
    (if online then Some (cpuPercent rt) else None) (if online then Some (memoryBytes rt) else None)
    (zlen (flowStatuses rt)) (fleet.DisplayName info) (fleet.GroupName info) (fleet.Enrolled info).
Definition ListRuntimes (s : Service) (order : list string) (oks : string -> bool) : list RuntimeSnapshot :=
  omap (fun id => snapshotOf s (oks id) id <$> runtimes s !! id) order.
Definition Count (s : Service) : nat := size (runtimes s).

(** ** Runs *)

Inductive op :=
| ORegister (ok1 ok2 ok3 ok4 : bool) (now : Z) (token runtimeID : string) (edge_ : bool) (version_ enrollmentToken : string)
| OHeartbeat (now : Z) (runtimeID token : string) (cpu mem : Z) (statuses : list FlowStatus)
| OOpenDeploy (runtimeID token : string)
| ORepush (ok : bool) (runtimeID : string) (ch : nat) (flows : res string (list DeployedFlowInfo))
| OSendDeploy (ch : nat)
| OCloseDeploy (runtimeID : string) (ch : nat)
| ODeployFlow (order : list string) (oks : string -> bool) (done : nat -> bool) (f : DeployedFlowInfo)
| OOpenEvent (runtimeID token : string)
| OUplink (ok1 ok2 : bool) (runtimeID : string) (u : uplink)
| OCloseEvent (ok : bool) (now : Z) (runtimeID : string) (ch : nat)
| OCommand (order : list string) (done : nat -> bool) (c : command)
| OFleet (o : fleet.op)
| OSendEvent (ch : nat).

(** The new state, and the token that a registration returned. *)
Definition step (s : Service) (o : op) : Service * option string :=
  match o with
  | ORegister ok1 ok2 ok3 ok4 now tok r e v et =>
      let '(s', a) := Register s ok1 ok2 ok3 ok4 now tok r e v et in (s', match a with Ok t => Some t | _ => None end)
  | OHeartbeat now r tok cpu mem st => ((Heartbeat s now r tok cpu mem st).1, None)
  | OOpenDeploy r tok => ((DeployStream_open s r tok).1, None)
  | ORepush ok r ch fl => (DeployStream_repush s ok r ch fl, None)
  | OSendDeploy ch => (match DeployStream_send s ch with Some (_, s') => s' | None => s end, None)
  | OCloseDeploy r ch => (DeployStream_close s r ch, None)
  | ODeployFlow order oks done f => ((DeployFlow s order oks done f).1, None)
  | OOpenEvent r tok => ((EventChannel_open s r tok).1, None)
  | OUplink ok1 ok2 r u => (handleEventUplink s ok1 ok2 r u, None)
  | OCloseEvent ok now r ch => (EventChannel_close s ok now r ch, None)
  | OCommand order done c => ((sendExecutionCommand s order done c).1, None)
  | OFleet o => (set_store s ((fun db => fleet.step hashEnrollToken db o) <$> deviceStore s), None)
  | OSendEvent ch => (match EventChannel_send s ch with Some (_, s') => s' | None => s end, None)
  end.
Fixpoint run (s : Service) (ops : list op) : Service * list (op * option string) :=
  match ops with
  | [] => (s, [])
  | o :: ops' => let '(s1, a) := step s o in let '(s2, tr) := run s1 ops' in (s2, (o, a) :: tr)
  end.

(** The token of the latest accepted registration of a runtime. *)
Definition issued (r : string) (x : op * option string) : option string :=
  match x.1 with ORegister _ _ _ _ _ _ r' _ _ _ => if decide (r' = r) then x.2 else None | _ => None end.
Definition latest (r : string) (tr : list (op * option string)) (tok0 : option string) : option string :=
  fold_left (fun acc x => match issued r x with Some t => Some t | None => acc end) tr tok0.

Lemma insert_same_token (m : gmap string runtimeState) k rt rt' r : m !! k = Some rt -> sessionToken rt' = sessionToken rt ->
  sessionToken <$> <[k := rt']> m !! r = sessionToken <$> m !! r.
Proof. intros Hk E. destruct (decide (k = r)) as [<- |]; [rewrite lookup_insert_eq, Hk; cbn; by f_equal|by rewrite lookup_insert_ne]. Qed.

(** Only a registration changes a session. *)
Lemma step_token s o r :
  sessionToken <$> runtimes (step s o).1 !! r =
  match issued r (o, (step s o).2) with Some t => Some t | None => sessionToken <$> runtimes s !! r end.
Proof.
  destruct o; cbn [step issued fst snd].
  - unfold Register. destruct (decide (runtimeID = "")) as [-> |]; [cbn; by case_decide|].
    destruct (match deviceStore s with Some _ => _ | None => _ end) as [s1 acc] eqn:E.
    assert (runtimes s1 = runtimes s) as Hr.
    { destruct (deviceStore s); [|by injection E as <- _]. destruct (fleet.Authenticate _ _ _ _ _ _ _ _ _ _). by injection E as <- _. }
    destruct acc; cbn; [|case_decide; by rewrite Hr].
    destruct (decide (runtimeID = r)) as [-> |]; [by rewrite lookup_insert_eq|by rewrite lookup_insert_ne, Hr].
  - unfold Heartbeat. destruct (runtimes s !! runtimeID) eqn:E; [|done]. case_decide; [|done]. by eapply insert_same_token.
  - unfold DeployStream_open. destruct (runtimes s !! runtimeID) eqn:E; [|done]. case_decide; [|done]. by eapply insert_same_token.
  - unfold DeployStream_repush. by destruct flows.
  - unfold DeployStream_send. by destruct (deployChans s !! ch) as [[]|].
  - unfold DeployStream_close. destruct (runtimes s !! runtimeID) eqn:E; [|done]. case_decide; [|done]. by eapply insert_same_token.
  - unfold DeployFlow. case_decide; [done|]. by destruct (send_each _ _ _ _ _ _ _).
  - unfold EventChannel_open. destruct (validSession s runtimeID token); [|done]. destruct (runtimes s !! runtimeID) eqn:E; [|done].
    by eapply insert_same_token.
  - unfold handleEventUplink. by destruct (executionStore s).
  - unfold EventChannel_close. destruct (runtimes s !! runtimeID) eqn:E; [|by destruct (executionStore s)]. case_decide; cbn.
    + destruct (executionStore s); by eapply insert_same_token.
    + by destruct (executionStore s).
  - unfold sendExecutionCommand. case_decide; [done|]. by destruct (send_each _ _ _ _ _ _ _).
  - done.
  - unfold EventChannel_send. by destruct (eventChans s !! ch) as [[]|].
Qed.

Lemma run_token ops r : forall s,
  sessionToken <$> runtimes (run s ops).1 !! r = latest r (run s ops).2 (sessionToken <$> runtimes s !! r).
Proof.
  induction ops as [|o ops IH]; intros s; [done|]. cbn [run]. pose proof (step_token s o r) as H.
  destruct (step s o) as [s1 a]. specialize (IH s1). destruct (run s1 ops) as [s2 tr]. cbn in *. by rewrite IH, H.
Qed.

(** [C19] A session token opens the registry exactly when the latest accepted registration of
    that runtime returned it: a new registration ends the session before it, and nothing else
    creates, changes or ends one. *)
Theorem session_is_latest dev ex ops r tok :
  validSession (run (NewService dev ex) ops).1 r tok = true <-> latest r (run (NewService dev ex) ops).2 None = Some tok.
Proof.
  pose proof (run_token ops r (NewService dev ex)) as H. cbn in H. rewrite lookup_empty in H. cbn in H. rewrite <- H.
  unfold validSession. destruct (runtimes _ !! r) as [rt|]; [|done]. rewrite bool_decide_eq_true. cbn. split; [by intros ->|by intros [= ->]].
Qed.

(** ** Queues *)

(** The streams that runtimes have open are distinct, and their queues exist within bounds. *)
Definition streams_ok {A} (get : runtimeState -> option nat) (cap : nat) (m : gmap string runtimeState) (chans : gmap nat (list A)) (nx : nat) : Prop :=
  (forall r rt ch, m !! r = Some rt -> get rt = Some ch -> (ch < nx)%nat /\ exists q, chans !! ch = Some q) /\
  (forall r r' rt rt' ch, m !! r = Some rt -> m !! r' = Some rt' -> get rt = Some ch -> get rt' = Some ch -> r = r') /\
  (forall ch q, chans !! ch = Some q -> (length q <= cap)%nat).
Definition registry_ok (s : Service) : Prop :=
  streams_ok deployCh deployChanBuffer (runtimes s) (deployChans s) (next_ch s) /\
  streams_ok eventCh eventChanBuffer (runtimes s) (eventChans s) (next_ch s).

Lemma streams_same {A} get cap m (chans chans' : gmap nat (list A)) nx nx' r rt rt' :
  streams_ok get cap m chans nx -> m !! r = Some rt -> (get rt' = get rt \/ get rt' = None) -> (nx <= nx')%nat ->
  (forall ch q, chans !! ch = Some q -> exists q', chans' !! ch = Some q') ->
  (forall ch q, chans' !! ch = Some q -> (length q <= cap)%nat) ->
  streams_ok get cap (<[r := rt']> m) chans' nx'.
Proof.
  intros (H1 & H2 & H3) Hr Hg Hn Hk Hc. split_and!; [| |done].
  - intros a x ch [[<- <-]|[_ Ha]]%lookup_insert_Some Hx.
    + destruct Hg as [Hg|Hg]; [|congruence]. rewrite Hg in Hx. destruct (H1 _ _ _ Hr Hx) as [? [q Hq]]. split; [lia|eauto].
    + destruct (H1 _ _ _ Ha Hx) as [? [q Hq]]. split; [lia|eauto].
  - intros a b x y ch [[<- <-]|[_ Ha]]%lookup_insert_Some [[<- <-]|[_ Hb]]%lookup_insert_Some Hx Hy; [done|..|eauto];
      (destruct Hg as [Hg|Hg]; [rewrite Hg in *; eauto|congruence]).
Qed.
(** A runtime that registers has no stream. *)
Lemma streams_reset {A} get cap m (chans : gmap nat (list A)) nx r rt' : get rt' = None ->
  streams_ok get cap m chans nx -> streams_ok get cap (<[r := rt']> m) chans nx.
Proof.
  intros Hg (H1 & H2 & H3). split_and!; [| |done].
  - intros a x ch [[<- <-]|[_ Ha]]%lookup_insert_Some Hx; [congruence|eauto].
  - intros a b x y ch [[<- <-]|[_ Ha]]%lookup_insert_Some [[<- <-]|[_ Hb]]%lookup_insert_Some Hx Hy; congruence || eauto.
Qed.
(** A fresh stream. *)
Lemma streams_open {A} get cap m (chans : gmap nat (list A)) nx r rt' : get rt' = Some nx ->
  streams_ok get cap m chans nx -> streams_ok get cap (<[r := rt']> m) (<[nx := []]> chans) (S nx).
Proof.
  intros Hg (H1 & H2 & H3). split_and!.
  - intros a x ch [[<- <-]|[_ Ha]]%lookup_insert_Some Hx.
    + rewrite Hg in Hx. injection Hx as <-. rewrite lookup_insert_eq. split; [lia|eauto].
    + destruct (H1 _ _ _ Ha Hx) as [? [q Hq]]. split; [lia|]. rewrite lookup_insert_ne by lia. eauto.
  - intros a b x y ch [[<- <-]|[_ Ha]]%lookup_insert_Some [[<- <-]|[_ Hb]]%lookup_insert_Some Hx Hy; [done|..|eauto].
    + rewrite Hg in Hx. injection Hx as <-. destruct (H1 _ _ _ Hb Hy). lia.
    + rewrite Hg in Hy. injection Hy as <-. destruct (H1 _ _ _ Ha Hx). lia.
  - intros ch q [[<- <-]|[_ Hq]]%lookup_insert_Some; [cbn; lia|eauto].
Qed.
(** Queues that change within their bound. *)
Lemma streams_queues {A} get cap m (chans chans' : gmap nat (list A)) nx :
  (forall ch q, chans !! ch = Some q -> exists q', chans' !! ch = Some q') ->
  (forall ch q, chans' !! ch = Some q -> (length q <= cap)%nat) ->
  streams_ok get cap m chans nx -> streams_ok get cap m chans' nx.
Proof.
  intros Hk Hc (H1 & H2 & H3). split_and!; [|done|done].
  intros r rt ch Hr Hx. destruct (H1 _ _ _ Hr Hx) as [? [q Hq]]. eauto.
Qed.

(** A command taken out of a queue. *)
Lemma streams_take {A} get cap m (chans : gmap nat (list A)) nx ch c q : chans !! ch = Some (c :: q) ->
  streams_ok get cap m chans nx -> streams_ok get cap m (<[ch := q]> chans) nx.
Proof.
  intros Hq Hok. apply (streams_queues _ _ _ chans); [| |done].
  - intros c' q' Hq'. destruct (decide (ch = c')) as [<- |]; [rewrite lookup_insert_eq|rewrite lookup_insert_ne by done]; eauto.
  - destruct Hok as (_ & _ & H3). intros c' q' [[<- <-]|[_ Hq']]%lookup_insert_Some; [|eauto]. specialize (H3 _ _ Hq). cbn in H3. lia.
Qed.
(** Flows pushed into a queue. *)
Lemma repush_queue l : forall q, (length q <= deployChanBuffer)%nat ->
  fold_left (fun q f => push_or_drop q (cmdOf f)) l q = q ++ map cmdOf (take (deployChanBuffer - length q) l).
Proof.
  induction l as [|f l IH]; intros q Hq; [by rewrite take_nil, app_nil_r|]. cbn [fold_left].
  destruct (Nat.ltb_spec (length q) deployChanBuffer) as [Hlt|Hge].
  - assert (push_or_drop q (cmdOf f) = q ++ [cmdOf f]) as -> by (unfold push_or_drop, try_send; by apply Nat.ltb_lt in Hlt as ->).
    rewrite IH by (rewrite length_app; cbn; lia). rewrite length_app. cbn [length].
    replace (deployChanBuffer - length q)%nat with (S (deployChanBuffer - (length q + 1))) by lia. cbn [take map]. by rewrite <- app_assoc.
  - assert (push_or_drop q (cmdOf f) = q) as -> by (unfold push_or_drop, try_send; by apply Nat.ltb_ge in Hge as ->).
    rewrite IH by done. by replace (deployChanBuffer - length q)%nat with 0%nat by lia.
Qed.

Lemma take_incl {A} n (l : list A) x : x ∈ take n l -> x ∈ l.
Proof. intros H. rewrite <- (take_drop n l). set_solver. Qed.

(** A command sent to channels, one after the other. *)
Lemma send_each_spec {A} cap full done (x : A) l : forall i chans,
  NoDup l -> (forall ch, ch ∈ l -> exists q, chans !! ch = Some q) ->
  exists k, let '(chans', r) := send_each cap full done i chans l x in
  (forall ch, chans' !! ch = if decide (ch ∈ take k l) then (fun q => q ++ [x]) <$> chans !! ch else chans !! ch) /\
  (forall ch q, ch ∈ take k l -> chans !! ch = Some q -> (length q < cap)%nat) /\
  ((r = Ok tt /\ k = length l) \/
   (exists ch, l !! k = Some ch /\
     ((r = Err "context canceled" /\ done (i + k)%nat = true) \/
      (r = Err full /\ exists q, chans !! ch = Some q /\ (cap <= length q)%nat)))).
Proof.
  induction l as [|ch l IH]; intros i chans Hnd Hsome; cbn [send_each].
  - exists 0%nat. split_and!; [done|by intros ? ? ?%elem_of_nil|by left].
  - destruct (done i) eqn:Ed.
    { exists 0%nat. split_and!; [done|by intros ? ? ?%elem_of_nil|]. right. exists ch. rewrite Nat.add_0_r. eauto. }
    apply NoDup_cons in Hnd as [Hch Hnd]. destruct (Hsome ch) as [q Hq]; [by left|]. rewrite Hq. cbn. unfold try_send.
    destruct (Nat.ltb_spec (length q) cap) as [Hlt|Hge].
    + destruct (IH (S i) (<[ch := q ++ [x]]> chans) Hnd) as [k Hk].
      { intros c Hc. rewrite lookup_insert_ne by congruence. apply Hsome. by right. }
      exists (S k). destruct (send_each _ _ _ _ _ _ _) as [chans' r]. destruct Hk as (Hk & Hb & Hr). cbn [take]. split_and!.
      * intros c. rewrite Hk. destruct (decide (c = ch)) as [-> |Hne].
        -- rewrite lookup_insert_eq, Hq. rewrite decide_False by (intros H; apply Hch; by eapply take_incl).
           by rewrite decide_True by left.
        -- rewrite lookup_insert_ne by done. apply decide_ext. set_solver.
      * intros c q' [-> |Hc]%elem_of_cons Hq'; [congruence|]. apply (Hb c); [done|]. rewrite lookup_insert_ne; [done|].
        intros <-. apply Hch. by eapply take_incl.
      * destruct Hr as [[-> ->]|(c & Hc & [[-> ?]|[-> (q' & Hq' & ?)]])]; [by left|right; exists c..].
        -- split; [done|]. left. split; [done|]. by rewrite Nat.add_succ_r.
        -- split; [done|]. right. split; [done|]. exists q'. split; [|done]. rewrite lookup_insert_ne in Hq'; [done|].
           intros <-. apply Hch. by eapply list_elem_of_lookup_2.
    + exists 0%nat. split_and!; [done|by intros ? ? ?%elem_of_nil|]. right. exists ch. split; [done|]. right. eauto.
Qed.

Lemma NoDup_omap_inj {A B} (f : A -> option B) l :
  NoDup l -> (forall x y z, x ∈ l -> y ∈ l -> f x = Some z -> f y = Some z -> x = y) -> NoDup (omap f l).
Proof.
  induction l as [|x l IH]; intros Hnd Hinj; [constructor|]. apply NoDup_cons in Hnd as [Hx Hnd]. cbn.
  assert (NoDup (omap f l)) as Hl by (apply IH; [done|]; intros; eapply Hinj; eauto; by right).
  destruct (f x) as [y|] eqn:E; [|done]. apply NoDup_cons. split; [|done].
  intros (x' & Hx' & E')%list_elem_of_omap. apply Hx. rewrite (Hinj x x' y); [done|by left|by right|done|done].
Qed.

Lemma deployTarget_Some s oks g id ch : deployTarget s oks g id = Some ch <->
  exists rt, runtimes s !! id = Some rt /\ deployCh rt = Some ch /\ (g = "" \/ groupOf s (oks id) id = Some g).
Proof.
  unfold deployTarget. destruct (runtimes s !! id) as [rt|]; cbn; [|naive_solver].
  destruct (deployCh rt) as [c|] eqn:Ec; cbn; [|naive_solver]. case_decide; [naive_solver|].
  destruct (groupOf s (oks id) id) as [g'|]; [|naive_solver]. case_decide; naive_solver.
Qed.
Lemma elem_of_targets s order oks g ch : ch ∈ deployTargets s order oks g <->
  exists id rt, id ∈ order /\ runtimes s !! id = Some rt /\ deployCh rt = Some ch /\ (g = "" \/ groupOf s (oks id) id = Some g).
Proof. unfold deployTargets. rewrite list_elem_of_omap. setoid_rewrite deployTarget_Some. naive_solver. Qed.
Lemma targets_NoDup s order oks g : registry_ok s -> NoDup order -> NoDup (deployTargets s order oks g).
Proof.
  intros [(_ & Hinj & _) _] Hnd. apply NoDup_omap_inj; [done|].
  intros a b ch _ _ (ra & Ea & Ca & _)%deployTarget_Some (rb & Eb & Cb & _)%deployTarget_Some. by eapply Hinj.
Qed.
Lemma targets_some s order oks g ch : registry_ok s -> ch ∈ deployTargets s order oks g -> exists q, deployChans s !! ch = Some q.
Proof. intros [(H & _) _] (id & rt & _ & Hr & Hc & _)%elem_of_targets. by eapply H. Qed.
Lemma event_targets_ok s order : registry_ok s -> NoDup order ->
  NoDup (eventTargets s order) /\ forall ch, ch ∈ eventTargets s order -> exists q, eventChans s !! ch = Some q.
Proof.
  intros [_ (H & Hinj & _)] Hnd. unfold eventTargets. split.
  - apply NoDup_omap_inj; [done|]. intros a b ch _ _ Ha Hb.
    destruct (runtimes s !! a) eqn:Ea; [|done]. destruct (runtimes s !! b) eqn:Eb; [|done]. by eapply Hinj.
  - intros ch (id & _ & E)%list_elem_of_omap. destruct (runtimes s !! id) eqn:Er; [|done]. by eapply H.
Qed.

(** Go's iteration visits every key once. *)
Definition order_ok (o : op) : Prop :=
  match o with ODeployFlow order _ _ _ | OCommand order _ _ => NoDup order | _ => True end.

Lemma send_each_streams {A} get cap m full done (chans : gmap nat (list A)) nx l (x : A) :
  NoDup l -> (forall ch, ch ∈ l -> exists q, chans !! ch = Some q) ->
  streams_ok get cap m chans nx -> streams_ok get cap m (send_each cap full done 0 chans l x).1 nx.
Proof.
  intros Hnd Hsome Hok. destruct (send_each_spec cap full done x l 0 chans Hnd Hsome) as [k Hk].
  destruct (send_each _ _ _ _ _ _ _) as [chans' r]. destruct Hk as (Hk & Hb & _). cbn.
  apply (streams_queues _ _ _ chans); [| |done].
  - intros ch q Hq. rewrite Hk, Hq. case_decide; eauto.
  - intros ch q. rewrite Hk. case_decide as Hin; [|by apply Hok]. intros (q0 & Hq0 & ->)%fmap_Some.
    rewrite length_app. specialize (Hb ch q0 Hin Hq0). cbn. lia.
Qed.

(** An operation that keeps the streams of a kind, or closes one. *)
Ltac same_streams E := eapply streams_same; [done|exact E|first [by left|by right]|cbn; lia|by eauto|by eauto].

Lemma step_registry_ok s o : order_ok o -> registry_ok s -> registry_ok (step s o).1.
Proof.
  intros Ho Hok. pose proof Hok as [Hd He]. pose proof Hd as (_ & _ & Hd3). pose proof He as (_ & _ & He3).
  destruct o; cbn [step fst order_ok] in *.
  - unfold Register. case_decide; [done|].
    destruct (match deviceStore s with Some _ => _ | None => _ end) as [s1 acc] eqn:E.
    assert (registry_ok s1) as [Hd1 He1].
    { destruct (deviceStore s); [|by injection E as <- _]. destruct (fleet.Authenticate _ _ _ _ _ _ _ _ _ _). by injection E as <- _. }
    destruct acc; [|by split]. split; cbn; by apply streams_reset.
  - unfold Heartbeat. destruct (runtimes s !! runtimeID) eqn:E; [|done]. case_decide; [|done].
    split; cbn; same_streams E.
  - unfold DeployStream_open. destruct (runtimes s !! runtimeID) eqn:E; [|done]. case_decide; [|done]. split; cbn.
    + by apply streams_open.
    + same_streams E.
  - unfold DeployStream_repush. destruct flows; [|done..]. split; cbn; [|done]. apply (streams_queues _ _ _ (deployChans s)); [| |done].
    + intros c q Hq. destruct (decide (ch = c)) as [<- |]; [rewrite lookup_alter_eq, Hq|rewrite lookup_alter_ne by done]; by eexists.
    + intros c q [(-> & q0 & Hq0 & ->)|[_ Hq]]%lookup_alter_Some; [|eauto]. specialize (Hd3 _ _ Hq0).
      rewrite repush_queue by done. rewrite length_app, length_map, length_take. lia.
  - unfold DeployStream_send. destruct (deployChans s !! ch) as [[|c q]|] eqn:E; [done| |done]. split; cbn; [|done].
    by eapply streams_take.
  - unfold DeployStream_close. destruct (runtimes s !! runtimeID) eqn:E; [|done]. case_decide; [|done].
    split; cbn; same_streams E.
  - unfold DeployFlow. case_decide; [done|].
    pose proof (send_each_streams deployCh deployChanBuffer (runtimes s) "runtime deploy queue full" done (deployChans s) (next_ch s)
      (deployTargets s order oks (TargetGroup f)) (cmdOf f)) as Hse.
    destruct (send_each _ _ _ _ _ _ _) as [chans r]. split; cbn; [|done].
    apply Hse; [by apply targets_NoDup|intros; by eapply targets_some|done].
  - unfold EventChannel_open. destruct (validSession s runtimeID token); [|done]. destruct (runtimes s !! runtimeID) eqn:E; [|done].
    split; cbn; [same_streams E|by apply streams_open].
  - unfold handleEventUplink. by destruct (executionStore s).
  - unfold EventChannel_close. destruct (runtimes s !! runtimeID) eqn:E; [|by destruct (executionStore s)]. case_decide; cbn.
    + destruct (executionStore s); split; cbn; same_streams E.
    + by destruct (executionStore s).
  - unfold sendExecutionCommand. case_decide; [done|]. destruct (event_targets_ok s order Hok Ho) as [Hnd Hsome].
    pose proof (send_each_streams eventCh eventChanBuffer (runtimes s) "runtime event command queue full" done (eventChans s) (next_ch s)
      (eventTargets s order) c Hnd Hsome He) as Hse.
    destruct (send_each _ _ _ _ _ _ _) as [chans r]. by split.
  - done.
  - unfold EventChannel_send. destruct (eventChans s !! ch) as [[|c q]|] eqn:E; [done| |done]. split; cbn; [done|].
    by eapply streams_take.
Qed.

Lemma run_registry_ok ops : forall s, Forall order_ok ops -> registry_ok s -> registry_ok (run s ops).1.
Proof.
  induction ops as [|o ops IH]; intros s; [done|]. intros [Ho Hops]%Forall_cons Hok. cbn [run].
  pose proof (step_registry_ok s o Ho Hok) as H. destruct (step s o) as [s1 a]. specialize (IH s1 Hops H).
  by destruct (run s1 ops).
Qed.
Lemma NewService_ok dev ex : registry_ok (NewService dev ex).
Proof. split; split_and!; cbn; intros *; rewrite ?lookup_empty; done. Qed.

(** ** Deploys and commands *)

(** The connected runtimes in the scope of a deploy. *)
Definition reached (s : Service) (oks : string -> bool) (f : DeployedFlowInfo) (r : string) (rt : runtimeState) : Prop :=
  deployCh rt <> None /\ (TargetGroup f = "" \/ groupOf s (oks r) r = Some (TargetGroup f)).
Lemma DeployFlow_spec s order oks done f : registry_ok s -> NoDup order -> (forall r, is_Some (runtimes s !! r) -> r ∈ order) ->
  let '(s', a) := DeployFlow s order oks done f in
  (a = Ok tt -> exists r rt, runtimes s !! r = Some rt /\ reached s oks f r rt) /\
  (forall r rt ch, runtimes s !! r = Some rt -> deployCh rt = Some ch -> exists q, deployChans s !! ch = Some q /\
    (deployChans s' !! ch = Some q \/ deployChans s' !! ch = Some (q ++ [cmdOf f])) /\
    (~ reached s oks f r rt -> deployChans s' !! ch = Some q) /\
    (a = Ok tt -> reached s oks f r rt -> deployChans s' !! ch = Some (q ++ [cmdOf f]))).
Proof.
  intros Hok Hnd Hall.
  destruct (send_each_spec deployChanBuffer "runtime deploy queue full" done (cmdOf f) (deployTargets s order oks (TargetGroup f)) 0
    (deployChans s)) as [k Hk]; [by apply targets_NoDup|intros; by eapply targets_some|].
  pose proof Hok as [(Hq & Hinj & _) _].
  unfold DeployFlow. destruct (decide (deployTargets s order oks (TargetGroup f) = [])) as [Hnil|Hne].
  { split; [done|]. intros r rt ch Hr Hc. destruct (Hq _ _ _ Hr Hc) as [_ [q Hqq]]. exists q. split_and!; [done|by left|done|done]. }
  destruct (send_each _ _ _ _ _ _ _) as [chans a]. destruct Hk as (Hk & _ & Hr). cbn. split.
  - intros _. destruct (deployTargets s order oks (TargetGroup f)) as [|c l] eqn:E; [done|].
    assert (c ∈ deployTargets s order oks (TargetGroup f)) as (id & rt & _ & Ht & Hc & Hs)%elem_of_targets by (rewrite E; by left).
    exists id, rt. split; [done|]. split; [congruence|done].
  - intros r rt ch Hrt Hc. destruct (Hq _ _ _ Hrt Hc) as [_ [q Hqq]]. exists q. rewrite Hk, Hqq. split_and!; [done|case_decide; auto|..].
    + intros Hn. rewrite decide_False; [done|]. intros (id & rt' & _ & Ht & Hc' & Hs)%take_incl%elem_of_targets. apply Hn.
      assert (id = r) as -> by (by eapply Hinj). split; [congruence|done].
    + intros -> [_ Hs]. destruct Hr as [[_ ->]|(? & _ & [[? _]|[? _]])]; [|done..]. rewrite decide_True; [done|]. rewrite firstn_all.
      apply elem_of_targets. exists r, rt. split; [by apply Hall|done].
Qed.


(** A runtime that opens its deploy stream is sent exactly the deployed flows of its scope,
    in the lister's order, cut off after the eighth: the stream's buffer, filled before the first
    command is taken out. *)
Theorem restart_restores_eight s runtimeID token s1 ch ok flows :
  DeployStream_open s runtimeID token = (s1, Ok ch) ->
  deployChans (DeployStream_repush s1 ok runtimeID ch (Ok flows)) !! ch =
    Some (map cmdOf (take 8 (filter (in_scope (default "" (groupOf s ok runtimeID))) flows))).
Proof.
  unfold DeployStream_open. destruct (runtimes s !! runtimeID) as [rt|]; [|done]. case_decide; [|done].
  intros [= <- <-]. unfold DeployStream_repush. cbn [deployChans set_deployChans]. rewrite lookup_alter_eq, lookup_insert_eq. cbn [fmap option_fmap option_map].
  rewrite repush_queue by (cbn; lia). done.
Qed.

(** The close of a stream that a newer one has replaced leaves the newer one open, and yet marks
    the executions that the runtime is running as crashed. *)
Lemma stale_close_marks_crashed s db now r rt old ch id e :
  runtimes s !! r = Some rt -> eventCh rt = Some ch -> old <> ch -> executionStore s = Some db ->
  exechistory.executions db !! id = Some e -> exechistory.RuntimeID e = r -> exechistory.Status_ e = "running" ->
  runtimes (EventChannel_close s true now r old) !! r = Some rt /\
  exists db' e', executionStore (EventChannel_close s true now r old) = Some db' /\
    exechistory.executions db' !! id = Some e' /\ exechistory.Status_ e' = "crashed".
Proof.
  intros Hr Hc Hne Hdb He Hre Hs. unfold EventChannel_close. rewrite Hr, decide_False by congruence. rewrite Hdb. split; [done|].
  destruct (exechistory.crash_marks db now r id e He) as (e' & He' & Hst & _). eexists _, e'. split; [done|]. split; [done|].
  rewrite Hst. rewrite decide_True; [done|]. auto.
Qed.

(** A command that reports success is in the queue of every open event channel. *)
Lemma command_reaches_all s order done c s' r rt ch : registry_ok s -> NoDup order -> r ∈ order ->
  sendExecutionCommand s order done c = (s', Ok tt) -> runtimes s !! r = Some rt -> eventCh rt = Some ch ->
  eventChans s' !! ch = (fun q => q ++ [c]) <$> eventChans s !! ch.
Proof.
  intros Hok Hnd Hin. destruct (event_targets_ok s order Hok Hnd) as [Hn Hsome].
  destruct (send_each_spec eventChanBuffer "runtime event command queue full" done c (eventTargets s order) 0 (eventChans s) Hn Hsome) as [k Hk].
  unfold sendExecutionCommand. case_decide; [done|]. destruct (send_each _ _ _ _ _ _ _) as [chans a]. destruct Hk as (Hk & _ & Hr).
  intros [= <- ->] Hrt Hc. cbn. rewrite Hk. destruct Hr as [[_ ->]|(? & _ & [[? _]|[? _]])]; [|done..].
  rewrite firstn_all, decide_True; [done|]. apply list_elem_of_omap. exists r. split; [done|]. by rewrite Hrt.
Qed.
End service.

(** ** Examples *)
Module examples.
Definition flow (i : Z) (g : string) : DeployedFlowInfo := MkDeployedFlowInfo "f" i "{}" "" g "info" ∅.
(** Two servers with a deploy stream each. *)
Definition ops0 : list op :=
  [ORegister true true true true 1 "t1" "r1" false "1.0" ""; ORegister true true true true 1 "t2" "r2" false "1.0" "";
   OOpenDeploy "r1" "t1"; OOpenDeploy "r2" "t2"].
Definition s0 : Service := Eval vm_compute in (run id (NewService None None) ops0).1.
Definition rt0 (tok : string) (ch : nat) : runtimeState := MkRuntimeState false "1.0" tok 1 (Some ch) None 0 0 [].
Lemma s0_run : (run id (NewService None None) ops0).1 = s0.
Proof. vm_compute. reflexivity. Qed.
Lemma s0_runtimes : runtimes s0 = <["r2" := rt0 "t2" 1]> {["r1" := rt0 "t1" 0]}.
Proof. vm_compute. reflexivity. Qed.


(** Nine flows are deployed; the runtime restarts and gets eight. *)
Definition nine : list DeployedFlowInfo := map (fun i => flow (Z.of_nat i) "") (seq 1 9).
Lemma restart_restores_eight_witness :
  deployChans (DeployStream_repush (DeployStream_open s0 "r1" "t1").1 true "r1" 2 (Ok nine)) !! 2%nat =
    Some (map (fun i => cmdOf (flow (Z.of_nat i) "")) (seq 1 8)).
Proof. 
  pose proof (restart_restores_eight s0 "r1" "t1" (DeployStream_open s0 "r1" "t1").1 2 true nine) as H.
  rewrite H by (vm_compute; reflexivity). vm_compute. reflexivity.
Defined.

(** The first queue takes the command, the second is full: the deploy fails, and one of the two
    runtimes runs the new version. *)
Definition fill (n : nat) : list op := repeat (ORepush true "r2" 1 (Ok [flow 0 ""])) n.
Lemma partial_deploy :
  let s := (run id (NewService None None) (ops0 ++ fill 8)).1 in
  let '(s', a) := DeployFlow s ["r1"; "r2"] (fun _ => true) (fun _ => false) (flow 1 "") in
  a = Err "runtime deploy queue full" /\ deployChans s' !! 0%nat = Some [cmdOf (flow 1 "")] /\
  (length <$> deployChans s' !! 1%nat) = Some 8%nat.
Proof. vm_compute. split_and!; reflexivity. Qed.

(** The connection of "r1" is lost and opened again before the server notices; its late close
    marks the execution that "r1" is running as crashed. *)
Definition running : exechistory.ExecutionEvent := exechistory.Started "f" "x1" "n1" "manual" "" 5000000 "{}".
Definition ops1 : list op :=
  [ORegister true true true true 1 "t1" "r1" false "1.0" ""; OOpenEvent "r1" "t1"; OUplink true true "r1" (UExecution running);
   OOpenEvent "r1" "t1"].
Lemma stale_close_of_live_runtime :
  let s := (run id (NewService None (Some exechistory.emptyDB)) ops1).1 in
  let s' := EventChannel_close s true 9 "r1" 0 in
  (runtimes s' !! "r1" ≫= eventCh) = Some 1%nat /\
  (db ← executionStore s'; exechistory.Status_ <$> exechistory.executions db !! "x1") = Some "crashed".
Proof. vm_compute. split; reflexivity. Qed.

(** A re-run is queued for both connected runtimes, which hold the same flow. *)
Lemma rerun_runs_twice :
  let s := (run id (NewService None None) (firstn 2 ops0 ++ [OOpenEvent "r1" "t1"; OOpenEvent "r2" "t2"])).1 in
  let '(s', a) := RunExecution s ["r1"; "r2"] (fun _ => false) "f" "start" "" "" "{}" "x1" in
  a = Ok tt /\ eventChans s' !! 0%nat = Some [CRunExecution "f" "start" "" "" "{}" "x1"] /\
  eventChans s' !! 1%nat = Some [CRunExecution "f" "start" "" "" "{}" "x1"].
Proof. vm_compute. split_and!; reflexivity. Qed.
End examples.
End registry.
