(* ===== verification/AuditLog.v ===== *)
(** * The audit log ([controlplane/internal/audit/audit.go])

    Every row holds the hash of its own text and of its predecessor's hash; [Verify] walks the
    table and recomputes them.  The table is the list of its rows in insertion order.  JSON
    values are syntax trees that keep the order of object members, because that order is part
    of the hashed text; the text of a tree, the format of times, SHA-256 in hex, fresh ids and
    the clock are arguments. *)

From Stdlib Require Import Ascii.
From stdpp Require Import sorting.
From S2P Require Import Prelude Bytes GoStd.
Import gostd.
Local Open Scope Z_scope.

Module audit.

(** ** JSON values *)

Inductive json :=
| JNull | JBool (b : bool) | JNum (lit : string) | JStr (s : string) | JArr (l : list json) | JObj (l : list (string * json)).

(** A later member of the same name replaces the value. *)
Fixpoint put {A} (k : string) (v : A) (l : list (string * A)) : list (string * A) :=
  match l with
  | [] => [(k, v)]
  | (k', v') :: l' => if decide (k' = k) then (k, v) :: l' else (k', v') :: put k v l'
  end.
Definition members {A} (l : list (string * A)) : list (string * A) := fold_left (fun acc kv => put kv.1 kv.2 acc) l [].

(** What [json.Unmarshal] into an [any] followed by [json.Marshal] makes of a value: objects
    become maps, which are written with sorted keys, and numbers become [float64]s; [renum] is
    the effect on a number's literal. *)
Section canon.
Context (renum : string -> string).
Fixpoint canon (v : json) : json :=
  match v with
  | JNum lit => JNum (renum lit)
  | JArr l => JArr (map canon l)
  | JObj l => JObj (sortBy fst (members (map (fun '(k, x) => (k, canon x)) l)))
  | _ => v
  end.
End canon.

(** ** The table *)

Record row := MkRow {
  id : string; seq : Z; at_ : string; actor_user_id : string; action : string; object_type : string; object_id : string;
  project_id : option string; before_json : string; after_json : string; prev_hash : string; hash : string
}.
(** [Entry], with [Before] and [After] as the trees that [json.Marshal] gives; [None] is nil. *)
Record Entry := MkEntry {
  ID : string; Seq : Z; At : Z; ActorUserID : string; Action : string; ObjectType : string; ObjectID : string;
  ProjectID : string; Before : option json; After : option json; PrevHash : string; Hash : string
}.
Inductive AuditError := ErrDB | ErrMarshal | ErrParseAt | ErrUnmarshal | ErrPrevHash (seq : Z) | ErrTampered (id : string) (seq : Z).
(** A Go value to be recorded: nil, a value with its JSON, or one that has none. *)
Inductive goval := GNil | GVal (v : json) | GBad.
Definition nullableString (s : string) : option string := if decide (s = "") then None else Some s.

(** [ORDER BY seq ASC] *)
Definition seq_le (r r' : row) : Prop := seq r <= seq r'.
#[global] Instance seq_le_dec r r' : Decision (seq_le r r').
Proof. unfold seq_le. apply _. Defined.
#[global] Instance seq_le_trans : Transitive seq_le.
Proof. intros a b c. unfold seq_le. lia. Qed.
#[global] Instance seq_le_total : Total seq_le.
Proof. intros a b. unfold seq_le. lia. Qed.
Definition by_seq (t : list row) : list row := merge_sort seq_le t.

Section log.
Context (sha256hex : string -> string) (render : json -> string) (parse : string -> option json)
        (formatNano : Z -> string) (parseNano : string -> option Z) (renum : string -> string).

(** The text that is hashed. *)
Definition hashText (prevHash : string) (seq : Z) (at_ actor action otype oid before after : string) : string :=
  prevHash +:+ "|" +:+ string_of_bytes (FormatInt seq) +:+ "|" +:+ at_ +:+ "|" +:+ actor +:+ "|" +:+ action +:+ "|" +:+
  otype +:+ "|" +:+ oid +:+ "|" +:+ before +:+ "|" +:+ after.
Definition computeHash (prevHash : string) (seq : Z) (at_ : Z) (actor action otype oid before after : string) : string :=
  sha256hex (hashText prevHash seq (formatNano at_) actor action otype oid before after).

Definition marshalOrEmpty (v : goval) : res AuditError string :=
  match v with GNil => Ok "{}" | GVal j => Ok (render j) | GBad => Err ErrMarshal end.

Definition tail (t : list row) (ok : bool) : res AuditError (Z * string) :=
  if ok then match last (by_seq t) with Some r => Ok (seq r, hash r) | None => Ok (0, "") end else Err ErrDB.

(** The new table, and the entry or the error. *)
Definition Append (t : list row) (ok1 ok2 : bool) (newID : string) (now : Z) (actor action otype oid project : string)
    (before after : goval) : list row * res AuditError row :=
  match ('(lastSeq, prevHash) ← tail t ok1;
         beforeJSON ← marshalOrEmpty before;
         afterJSON ← marshalOrEmpty after;
         let seq := s64 (lastSeq + 1) in
         let hash := computeHash prevHash seq now actor action otype oid beforeJSON afterJSON in
         Ok (MkRow newID seq (formatNano now) actor action otype oid (nullableString project) beforeJSON afterJSON prevHash hash)) with
  | Ok e => if ok2 && bool_decide (newID ∉ map id t) then (t ++ [e], Ok e) else (t, Err ErrDB)
  | Err x => (t, Err x)
  | Panic => (t, Panic)
  end.

(** [json.Unmarshal] into a nil [any], and what [marshalOrEmpty] then writes. *)
Definition unmarshal (s : string) : option (option json) :=
  match parse s with Some JNull => Some None | Some v => Some (Some (canon renum v)) | None => None end.
Definition remarshal (v : option json) : string := match v with None => "{}" | Some j => render j end.

Definition scanEntry (r : row) : res AuditError Entry :=
  match parseNano (at_ r) with
  | None => Err ErrParseAt
  | Some t =>
      match unmarshal (before_json r), unmarshal (after_json r) with
      | Some b, Some a =>
          Ok (MkEntry (id r) (seq r) t (actor_user_id r) (action r) (object_type r) (object_id r) (default "" (project_id r)) b a
                (prev_hash r) (hash r))
      | _, _ => Err ErrUnmarshal
      end
  end.

Fixpoint verifyRows (prevHash : string) (rows : list row) : res AuditError unit :=
  match rows with
  | [] => Ok tt
  | r :: rows' =>
      match scanEntry r with
      | Err x => Err x
      | Panic => Panic
      | Ok e =>
          if decide (PrevHash e <> prevHash) then Err (ErrPrevHash (Seq e))
          else
            let want := computeHash (PrevHash e) (Seq e) (At e) (ActorUserID e) (Action e) (ObjectType e) (ObjectID e)
                          (remarshal (Before e)) (remarshal (After e)) in
            if decide (want <> Hash e) then Err (ErrTampered (ID e) (Seq e)) else verifyRows (Hash e) rows'
      end
  end.
Definition Verify (t : list row) (ok : bool) : res AuditError unit := if ok then verifyRows "" (by_seq t) else Err ErrDB.

(** [List]: newest first, of one project or of all. *)
Definition List_ (t : list row) (ok : bool) (project : string) : res AuditError (list Entry) :=
  if ok then
    res_mapM scanEntry (filter (fun r => project = "" \/ project_id r = Some project) (reverse (by_seq t)))
  else Err ErrDB.

(** ** Logs that were only appended to *)

Record op := MkOp {
  o_ok1 : bool; o_ok2 : bool; o_id : string; o_now : Z; o_actor : string; o_action : string; o_otype : string; o_oid : string;
  o_project : string; o_before : goval; o_after : goval
}.
Definition step (t : list row) (o : op) : list row :=
  (Append t (o_ok1 o) (o_ok2 o) (o_id o) (o_now o) (o_actor o) (o_action o) (o_otype o) (o_oid o) (o_project o) (o_before o) (o_after o)).1.
Definition run (ops : list op) : list row := fold_left step ops [].

Definition row_text (r : row) : string :=
  hashText (prev_hash r) (seq r) (at_ r) (actor_user_id r) (action r) (object_type r) (object_id r) (before_json r) (after_json r).
(** The text of a value that can be recorded. *)
Definition value_text (s : string) : Prop := s = "{}" \/ exists v, s = render v.
(** A row as [Append] writes it, after [n] rows, of which the last has hash [prev]. *)
Definition appended (prev : string) (n : Z) (r : row) : Prop :=
  prev_hash r = prev /\ seq r = n + 1 /\ hash r = sha256hex (row_text r) /\ (exists now, at_ r = formatNano now) /\
  value_text (before_json r) /\ value_text (after_json r).
Fixpoint chained (prev : string) (n : Z) (t : list row) : Prop :=
  match t with [] => True | r :: t' => appended prev n r /\ chained (hash r) (n + 1) t' end.
Definition tail_hash (prev : string) (t : list row) : string := match last t with Some r => hash r | None => prev end.

Lemma tail_hash_cons prev r t : tail_hash prev (r :: t) = tail_hash (hash r) t.
Proof. unfold tail_hash. by rewrite last_cons; destruct (last t). Qed.
Lemma chained_snoc t r : forall prev n,
  chained prev n (t ++ [r]) <-> chained prev n t /\ appended (tail_hash prev t) (n + zlen t) r.
Proof.
  induction t as [|x t IH]; intros prev n; cbn [app chained].
  - unfold tail_hash, zlen. cbn. rewrite Z.add_0_r. tauto.
  - rewrite IH, tail_hash_cons. unfold zlen. cbn [length]. replace (n + 1 + Z.of_nat (length t)) with (n + Z.of_nat (S (length t))) by lia. tauto.
Qed.
Lemma chained_seq t : forall prev n, chained prev n t -> Forall (fun r => n < seq r) t /\ StronglySorted (fun r r' => seq r < seq r') t.
Proof.
  induction t as [|r t IH]; intros prev n; [by repeat constructor|]. intros [(_ & Hs & _) Hc].
  destruct (IH _ _ Hc) as [Hf Hss]. split.
  - constructor; [lia|]. eapply Forall_impl; [exact Hf|]. cbn. lia.
  - constructor; [done|]. eapply Forall_impl; [exact Hf|]. cbn. lia.
Qed.
Lemma by_seq_sorted t : StronglySorted (fun r r' => seq r < seq r') t -> by_seq t = t.
Proof.
  intros Hs. apply (StronglySorted_unique_strong seq_le).
  - intros x y Hx%(elem_of_Permutation_proper _ _ _ (merge_sort_Permutation _ _)) Hy. unfold seq_le. intros H1 H2.
    revert x y Hx Hy H1 H2. induction Hs as [|r t Hs IH Hr]; intros x y Hx Hy H1 H2; [by apply elem_of_nil in Hx|].
    rewrite Forall_forall in Hr. apply elem_of_cons in Hx as [-> |Hx], Hy as [-> |Hy]; [done|..|eauto];
      [specialize (Hr _ Hy)|specialize (Hr _ Hx)]; lia.
  - apply StronglySorted_merge_sort; apply _.
  - induction Hs as [|r t Hs IH Hr]; constructor; [done|]. eapply Forall_impl; [exact Hr|]. unfold seq_le. cbn. lia.
  - apply merge_sort_Permutation.
Qed.

Lemma chained_by_seq t : chained "" 0 t -> by_seq t = t.
Proof. intros [_ H]%chained_seq. by apply by_seq_sorted. Qed.
Lemma marshal_text g s : marshalOrEmpty g = Ok s -> value_text s.
Proof. destruct g; cbn; [intros [= <-]; by left|intros [= <-]; right; eauto|done]. Qed.

Lemma step_chained t o : chained "" 0 t -> zlen t < 2 ^ 63 - 1 ->
  chained "" 0 (step t o) /\ zlen (step t o) <= zlen t + 1.
Proof.
  intros Hc Hn. unfold step, Append, tail. destruct (o_ok1 o); cbn; [|split; [done|lia]].
  rewrite chained_by_seq by done.
  assert (match last t with Some r => Ok (seq r, hash r) | None => Ok (0, "") end = @Ok AuditError _ (zlen t, tail_hash "" t)) as ->.
  { unfold tail_hash. destruct t as [|r t _] using rev_ind; [done|]. apply chained_snoc in Hc as [_ (_ & Hs & _)].
    rewrite last_snoc. rewrite Hs. unfold zlen. rewrite length_app. cbn. f_equal. f_equal. lia. }
  cbn. destruct (marshalOrEmpty (o_before o)) as [b| |] eqn:Eb; cbn; [|split; [done|lia]..].
  destruct (marshalOrEmpty (o_after o)) as [a| |] eqn:Ea; cbn; [|split; [done|lia]..].
  destruct (o_ok2 o && _); cbn; [|split; [done|lia]]. split; [|unfold zlen; rewrite length_app; cbn; lia].
  apply chained_snoc. split; [done|]. rewrite (swrap_id 64) by (unfold in_s, zlen in *; lia). unfold appended. cbn.
  split_and!; try done; [by eexists|by eapply marshal_text..].
Qed.
Lemma run_chained ops : zlen ops < 2 ^ 63 -> chained "" 0 (run ops) /\ zlen (run ops) <= zlen ops.
Proof.
  induction ops as [|o ops IH] using rev_ind; intros Hn; [done|]. unfold run. rewrite fold_left_app. cbn.
  unfold zlen in *. rewrite length_app in *. cbn in *. destruct IH as [Hc Hl]; [lia|]. fold (run ops).
  destruct (step_chained (run ops) o Hc) as [? ?]; unfold zlen in *; [lia|]. split; [done|lia].
Qed.

(** ** What [Verify] accepts *)

(** The text whose hash [Verify] compares, and what an auditor reads of a row. *)
Definition check_text (r : row) : option string :=
  match scanEntry r with
  | Ok e => Some (hashText (PrevHash e) (Seq e) (formatNano (At e)) (ActorUserID e) (Action e) (ObjectType e) (ObjectID e)
                    (remarshal (Before e)) (remarshal (After e)))
  | _ => None
  end.
Definition content (r : row) : option (Z * Z * string * string * string * string * string * string) :=
  match scanEntry r with
  | Ok e => Some (Seq e, At e, ActorUserID e, Action e, ObjectType e, ObjectID e, remarshal (Before e), remarshal (After e))
  | _ => None
  end.
Fixpoint linked (prev : string) (rows : list row) : Prop :=
  match rows with
  | [] => True
  | r :: rows' => prev_hash r = prev /\ (exists x, check_text r = Some x /\ hash r = sha256hex x) /\ linked (hash r) rows'
  end.
Definition collision_free (l : list string) : Prop := forall x y, x ∈ l -> y ∈ l -> sha256hex x = sha256hex y -> x = y.

Lemma verifyRows_linked rows : forall prev, verifyRows prev rows = Ok tt <-> linked prev rows.
Proof.
  induction rows as [|r rows IH]; intros prev; cbn [verifyRows linked]; [done|]. unfold check_text.
  destruct (scanEntry r) as [e| |] eqn:E; [|naive_solver..]. unfold scanEntry in E. destruct (parseNano (at_ r)); [|done].
  destruct (unmarshal (before_json r)); [|done]. destruct (unmarshal (after_json r)); [|done]. injection E as <-. cbn.
  destruct (decide (prev_hash r <> prev)) as [|Hp%dec_stable]; [naive_solver|]. destruct (decide (_ <> hash r)) as [Hh|Hh%dec_stable].
  - split; [done|]. intros (_ & (x & [= <-] & E) & _). by symmetry in E.
  - rewrite IH. split; [|naive_solver]. intros Hl. split_and!; [done|eauto|done].
Qed.
Lemma linked_snoc rows r : forall prev,
  linked prev (rows ++ [r]) <-> linked prev rows /\ prev_hash r = tail_hash prev rows /\ exists x, check_text r = Some x /\ hash r = sha256hex x.
Proof.
  induction rows as [|r' rows IH]; intros prev; cbn [app linked].
  - unfold tail_hash. cbn. tauto.
  - rewrite IH, tail_hash_cons. tauto.
Qed.

(** Recorded text that is written again as it was. *)
Definition rereads (s : string) : Prop := remarshal <$> unmarshal s = Some s.

(** The JSON, time and hash texts, as their documentation describes them. *)
Context (parse_render : forall v, parse (render v) = Some v)
        (render_empty : render (JObj []) = "{}")
        (render_delimited : forall v w x y, render v +:+ "|" +:+ x = render w +:+ "|" +:+ y -> v = w)
        (parse_formatNano : forall t, parseNano (formatNano t) = Some t).

Lemma str_app_inj (p x y : string) : p +:+ x = p +:+ y -> x = y.
Proof. induction p as [|c p IH]; [done|]. intros [= H]. auto. Qed.
Lemma render_inj v w : render v = render w -> v = w.
Proof. intros H. apply (f_equal parse) in H. rewrite !parse_render in H. by injection H. Qed.
Lemma remarshal_render b : exists v, remarshal b = render v.
Proof. destruct b as [v|]; [by exists v|]. by exists (JObj []). Qed.
Lemma value_text_render s : value_text s -> exists v, s = render v.
Proof. intros [-> |[v ->]]; [by exists (JObj [])|eauto]. Qed.
(** Two values with a bar between them. *)
Lemma delimited b b' (x y : string) : (exists v, b = render v) -> (exists v, b' = render v) -> b +:+ "|" +:+ x = b' +:+ "|" +:+ y -> b = b' /\ x = y.
Proof.
  intros [v ->] [w ->] H. assert (v = w) as -> by (by eapply render_delimited). split; [done|]. by apply str_app_inj, str_app_inj in H.
Qed.

(** A value is written again as it was when it is not null and its members are sorted. *)
Lemma rereads_render v : rereads (render v) <-> v <> JNull /\ canon renum v = v.
Proof.
  assert (forall w, Some (render (canon renum w)) = Some (render w) <-> canon renum w = w) as H.
  { intros w. split; [intros [= E]; by apply render_inj|by intros ->]. }
  unfold rereads, unmarshal. rewrite parse_render. destruct v.
  1:{ split; [|by intros [? _]]. intros [= E]. rewrite <- render_empty in E. by apply render_inj in E. }
  all: cbn [fmap option_fmap option_map remarshal]; rewrite H; split; [by intros ->|by intros [_ ->]].
Qed.

Lemma appended_check prev n r : appended prev n r ->
  exists b a, unmarshal (before_json r) = Some b /\ unmarshal (after_json r) = Some a /\
  check_text r = Some (hashText (prev_hash r) (seq r) (at_ r) (actor_user_id r) (action r) (object_type r) (object_id r) (remarshal b) (remarshal a)).
Proof.
  intros (_ & _ & _ & [now Hat] & [v Hb]%value_text_render & [w Ha]%value_text_render).
  unfold check_text, scanEntry. rewrite Hat, parse_formatNano, Hb, Ha. unfold unmarshal at 1 3. rewrite !parse_render.
  destruct v, w; cbn; unfold unmarshal; rewrite !parse_render; eauto.
Qed.
Lemma hashText_values p s t a c o i b x b' x' :
  (exists v, b = render v) -> (exists v, b' = render v) ->
  hashText p s t a c o i b x = hashText p s t a c o i b' x' -> b = b' /\ x = x'.
Proof. intros Hb Hb' H. unfold hashText in H. do 14 apply str_app_inj in H. by apply delimited. Qed.

Lemma linked_chained t : forall prev n, chained prev n t -> collision_free (map row_text t ++ omap check_text t) ->
  linked prev t <-> Forall (fun r => rereads (before_json r) /\ rereads (after_json r)) t.
Proof.
  induction t as [|r t IH]; intros prev n; [done|]. intros [Hr Hc] Hcf. cbn [linked]. rewrite Forall_cons.
  rewrite <- (IH _ _ Hc).
  2:{ intros x y Hx Hy. apply Hcf; cbn; destruct (check_text r); set_solver. }
  destruct (appended_check _ _ _ Hr) as (b & a & Eb & Ea & Ec). destruct Hr as (Hp & _ & Hh & _ & Hvb & Hva).
  rewrite Ec. unfold rereads. rewrite Eb, Ea. cbn. split.
  - intros (_ & (x & [= <-] & Hx) & Hl). split; [|done]. rewrite Hh in Hx. apply Hcf in Hx; cbn; [|by left|rewrite Ec; set_solver].
    apply hashText_values in Hx as [-> ->]; [done|by apply value_text_render|by apply remarshal_render].
  - intros [[[= Hb] [= Ha]] Hl]. split_and!; [done| |done]. eexists. split; [done|]. by rewrite Hb, Ha.
Qed.

(** [C16] A log that was only appended to passes [Verify] exactly when every recorded value is
    written again as it was: values that are not null and whose members are in the order that
    Go writes maps in. *)
Theorem untampered_verifies ops : zlen ops < 2 ^ 63 -> collision_free (map row_text (run ops) ++ omap check_text (run ops)) ->
  Verify (run ops) true = Ok tt <-> Forall (fun r => rereads (before_json r) /\ rereads (after_json r)) (run ops).
Proof.
  intros Hn Hcf. destruct (run_chained ops Hn) as [Hc _]. unfold Verify. rewrite chained_by_seq by done.
  rewrite verifyRows_linked. by eapply linked_chained.
Qed.

(** ** Tampering *)

Fixpoint no_bar (s : string) : bool :=
  match s with "" => true | String c s' => negb (Ascii.eqb c "|"%char) && no_bar s' end.
Lemma cut_bar a : forall b x y, no_bar a = true -> no_bar b = true -> a +:+ "|" +:+ x = b +:+ "|" +:+ y -> a = b /\ x = y.
Proof.
  induction a as [|c a IH]; intros [|d b] x y; cbn.
  - by intros _ _ [= H].
  - intros _ H [= <- _]. by rewrite Ascii.eqb_refl in H.
  - intros H _ [= -> _]. by rewrite Ascii.eqb_refl in H.
  - intros [_ Ha]%andb_prop [_ Hb]%andb_prop [= -> H]. by destruct (IH b x y Ha Hb H) as [-> ->].
Qed.
Lemma digits_no_bar l : Forall (fun c => 45 <= c <= 57) l -> no_bar (string_of_bytes l) = true.
Proof.
  induction 1 as [|c l Hc _ IH]; [done|]. cbn. rewrite IH, andb_true_r. unfold ascii_of_byte.
  assert (c = 45 \/ c = 46 \/ c = 47 \/ c = 48 \/ c = 49 \/ c = 50 \/ c = 51 \/ c = 52 \/ c = 53 \/ c = 54 \/ c = 55 \/ c = 56 \/ c = 57) as H by lia.
  by repeat (destruct H as [-> |H]; [done|]); subst.
Qed.
Context (hash_hex : forall x, sha256hex x <> "" /\ no_bar (sha256hex x) = true)
        (format_no_bar : forall t, no_bar (formatNano t) = true).

(** Rows as the columns allow them, with names that contain no bar. *)
Definition plain (r : row) : Prop :=
  in_s 64 (seq r) /\ no_bar (actor_user_id r) = true /\ no_bar (action r) = true /\ no_bar (object_type r) = true /\ no_bar (object_id r) = true.

Lemma check_text_inj r r' x : plain r -> plain r' -> no_bar (prev_hash r) = true -> no_bar (prev_hash r') = true ->
  check_text r = Some x -> check_text r' = Some x -> prev_hash r = prev_hash r' /\ content r = content r'.
Proof.
  intros (Hs & Ha & Hc & Ho & Hi) (Hs' & Ha' & Hc' & Ho' & Hi') Hp Hp'. unfold check_text, content.
  unfold scanEntry. destruct (parseNano (at_ r)) as [t|]; [|done]. destruct (unmarshal (before_json r)) as [b|]; [|done].
  destruct (unmarshal (after_json r)) as [a|]; [|done]. destruct (parseNano (at_ r')) as [t'|]; [|done].
  destruct (unmarshal (before_json r')) as [b'|]; [|done]. destruct (unmarshal (after_json r')) as [a'|]; [|done]. cbn.
  intros [= <-] [= H]. symmetry in H. unfold hashText in H. apply cut_bar in H as [-> H]; [|done..].
  apply cut_bar in H as [->%FormatInt_inj H]; [|done|done|by apply digits_no_bar, FormatInt_range..].
  apply cut_bar in H as [Ht H]; [|done..]. apply (f_equal parseNano) in Ht. rewrite !parse_formatNano in Ht. injection Ht as ->.
  apply cut_bar in H as [-> H]; [|done..]. apply cut_bar in H as [-> H]; [|done..]. apply cut_bar in H as [-> H]; [|done..].
  apply cut_bar in H as [-> H]; [|done..]. apply delimited in H as [-> ->]; [done|apply remarshal_render..].
Qed.

Lemma tail_hash_no_bar rows : linked "" rows -> no_bar (tail_hash "" rows) = true.
Proof.
  destruct rows as [|r rows _] using rev_ind; [done|]. intros (_ & _ & x & _ & Hx)%linked_snoc.
  unfold tail_hash. rewrite last_snoc, Hx. apply hash_hex.
Qed.
Lemma scanEntry_prev r e : scanEntry r = Ok e -> PrevHash e = prev_hash r.
Proof.
  unfold scanEntry. destruct (parseNano (at_ r)); [|done]. destruct (unmarshal (before_json r)); [|done].
  destruct (unmarshal (after_json r)); [|done]. by intros [= <-].
Qed.
(** The hashed text begins with the previous hash, so that equal texts follow equal texts. *)
Lemma check_text_prev r r' x : no_bar (prev_hash r) = true -> no_bar (prev_hash r') = true ->
  check_text r = Some x -> check_text r' = Some x -> prev_hash r = prev_hash r'.
Proof.
  intros Hp Hp'. unfold check_text. destruct (scanEntry r) as [e| |] eqn:E; [|done..]. destruct (scanEntry r') as [e'| |] eqn:E'; [|done..].
  intros [= <-] [= H]. unfold hashText in H. apply scanEntry_prev in E, E'. by apply cut_bar in H as [H _]; congruence.
Qed.
Lemma linked_unique rows : forall rows', collision_free (omap check_text (rows ++ rows')) ->
  linked "" rows -> linked "" rows' -> tail_hash "" rows = tail_hash "" rows' ->
  map check_text rows = map check_text rows' /\ (Forall plain rows -> Forall plain rows' -> map content rows = map content rows').
Proof.
  induction rows as [|r rows IH] using rev_ind; intros rows' Hcf; destruct rows' as [|r' rows' _] using rev_ind; [done|..].
  - intros _ (_ & _ & x & _ & Hx)%linked_snoc. unfold tail_hash. rewrite last_snoc, Hx. cbn. intros H. by destruct (hash_hex x).
  - intros (_ & _ & x & _ & Hx)%linked_snoc _. unfold tail_hash. rewrite last_snoc, Hx. cbn. intros H. by destruct (hash_hex x).
  - intros (Hl & Hp & x & Ex & Hx)%linked_snoc (Hl' & Hp' & x' & Ex' & Hx')%linked_snoc.
    unfold tail_hash at 1 2. rewrite !last_snoc, Hx, Hx'. intros Hh. apply Hcf in Hh as ->.
    2-3: rewrite !omap_app; cbn; rewrite Ex, Ex'; set_solver.
    assert (no_bar (prev_hash r) = true) as Hb by (rewrite Hp; by apply tail_hash_no_bar).
    assert (no_bar (prev_hash r') = true) as Hb' by (rewrite Hp'; by apply tail_hash_no_bar).
    pose proof (check_text_prev r r' x' Hb Hb' Ex Ex') as Hpp. destruct (IH rows') as [IHt IHc]; [|done|done|congruence|].
    { intros y z Hy Hz. apply Hcf; rewrite !omap_app in *; set_solver. }
    rewrite !map_app. cbn. split; [by rewrite IHt, Ex, Ex'|].
    intros [Hw [Hr _]%Forall_cons]%Forall_app [Hw' [Hr' _]%Forall_cons]%Forall_app. rewrite IHc by done. do 2 f_equal.
    by apply (check_text_inj r r' x').
Qed.


(** The last entries can be removed, and the project of an entry changed, without notice. *)
Lemma truncation_verifies t : forall prev u, verifyRows prev (t ++ u) = Ok tt -> verifyRows prev t = Ok tt.
Proof.
  induction t as [|r t IH]; intros prev u; [done|]. rewrite !verifyRows_linked. cbn [app linked]. intros (? & ? & Hl).
  split_and!; [done|done|]. apply verifyRows_linked, (IH _ u). by apply verifyRows_linked.
Qed.
Definition set_project (p : option string) (r : row) : row :=
  MkRow (id r) (seq r) (at_ r) (actor_user_id r) (action r) (object_type r) (object_id r) p (before_json r) (after_json r) (prev_hash r) (hash r).
(** A row with the same text and hashes can be put in the place of another. *)
Lemma same_text_verifies t u r r' prev : check_text r' = check_text r -> prev_hash r' = prev_hash r -> hash r' = hash r ->
  verifyRows prev (t ++ r :: u) = Ok tt -> verifyRows prev (t ++ r' :: u) = Ok tt.
Proof.
  intros Ht Hp Hh. revert prev. induction t as [|x t IH]; intros prev; rewrite !verifyRows_linked; cbn [app linked].
  - by rewrite Ht, Hp, Hh.
  - intros (? & ? & Hl). split_and!; [done|done|]. apply verifyRows_linked, IH. by apply verifyRows_linked.
Qed.
Lemma project_not_protected t u r p prev :
  verifyRows prev (t ++ r :: u) = Ok tt -> verifyRows prev (t ++ set_project p r :: u) = Ok tt.
Proof.
  apply same_text_verifies; [|done..]. unfold check_text, scanEntry. cbn. destruct (parseNano (at_ r)); [|done].
  destruct (unmarshal (before_json r)); [|done]. by destruct (unmarshal (after_json r)).
Qed.
(** So can the bars of an entry be moved: the actor [x|y] with the action [z] is hashed like the actor [x] with
    the action [y|z]. *)
Definition set_actor (a c : string) (r : row) : row :=
  MkRow (id r) (seq r) (at_ r) a c (object_type r) (object_id r) (project_id r) (before_json r) (after_json r) (prev_hash r) (hash r).
Lemma hashText_bar p s t x y z o i b a : hashText p s t (x +:+ "|" +:+ y) z o i b a = hashText p s t x (y +:+ "|" +:+ z) o i b a.
Proof. unfold hashText. by rewrite !str_app_assoc. Qed.
Lemma bar_moves_unnoticed t u r x y z prev :
  verifyRows prev (t ++ set_actor (x +:+ "|" +:+ y) z r :: u) = Ok tt -> verifyRows prev (t ++ set_actor x (y +:+ "|" +:+ z) r :: u) = Ok tt.
Proof.
  apply same_text_verifies; [|done..]. unfold check_text, scanEntry. cbn -[hashText String.app]. destruct (parseNano (at_ r)); [|done].
  destruct (unmarshal (before_json r)); [|done]. destruct (unmarshal (after_json r)); [|done]. cbn -[hashText String.app]. by rewrite hashText_bar.
Qed.
End log.

(** ** Examples *)
Module examples.

(** Texts with the properties above: the digits of a number that stands for the value. *)
Fixpoint pos_str (p : positive) : string :=
  match p with xH => "" | xO p => String "0"%char (pos_str p) | xI p => String "1"%char (pos_str p) end.
Fixpoint str_pos (s : string) : positive :=
  match s with "" => xH | String c s' => if Ascii.eqb c "0"%char then xO (str_pos s') else xI (str_pos s') end.
Lemma str_pos_str p : str_pos (pos_str p) = p.
Proof. induction p; cbn; by f_equal. Qed.
Lemma pos_str_no_bar p : no_bar (pos_str p) = true.
Proof. by induction p. Qed.

Fixpoint enc (v : json) : gen_tree string :=
  match v with
  | JNull => GenNode 0 []
  | JBool b => GenNode (if b then 2 else 1) []
  | JNum s => GenNode 3 [GenLeaf s]
  | JStr s => GenNode 4 [GenLeaf s]
  | JArr l => GenNode 5 (map enc l)
  | JObj l => GenNode 6 (map (fun '(k, x) => GenNode 0 [GenLeaf k; enc x]) l)
  end.
Fixpoint dec (t : gen_tree string) : json :=
  match t with
  | GenNode 1 [] => JBool false
  | GenNode 2 [] => JBool true
  | GenNode 3 [GenLeaf s] => JNum s
  | GenNode 4 [GenLeaf s] => JStr s
  | GenNode 5 l => JArr (map dec l)
  | GenNode 6 l => JObj (map (fun t => match t with GenNode _ [GenLeaf k; x] => (k, dec x) | _ => ("", JNull) end) l)
  | _ => JNull
  end.
Lemma dec_enc : forall v, dec (enc v) = v.
Proof.
  fix IH 1. intros [|[]| | |l|l]; cbn; [done..| |]; f_equal.
  - induction l as [|x l IHl]; cbn; [done|]. by rewrite IH, IHl.
  - induction l as [|[k x] l IHl]; cbn; [done|]. by rewrite IH, IHl.
Qed.
Definition render (v : json) : string := match v with JObj [] => "{}" | _ => pos_str (encode (enc v)) end.
Definition parse (s : string) : option json := if decide (s = "{}") then Some (JObj []) else dec <$> decode (str_pos s).
Lemma pos_str_brace p : pos_str p <> "{}".
Proof. by destruct p. Qed.
Lemma parse_render v : parse (render v) = Some v.
Proof.
  assert (forall w, parse (pos_str (encode (enc w))) = Some w) as H.
  { intros w. unfold parse. rewrite decide_False by apply pos_str_brace. rewrite str_pos_str, decode_encode. cbn. by rewrite dec_enc. }
  destruct v as [| | | | |[|]]; [apply (H _)..|done|apply (H _)].
Qed.
Lemma render_delimited v w x y : render v +:+ "|" +:+ x = render w +:+ "|" +:+ y -> v = w.
Proof.
  assert (forall u, no_bar (render u) = true) as H by (intros [| | | | |[|]]; first [done|apply pos_str_no_bar]).
  intros [E _]%cut_bar; [|done..]. apply (f_equal parse) in E. rewrite !parse_render in E. by injection E.
Qed.
Definition formatNano (t : Z) : string := pos_str (encode t).
Definition parseNano (s : string) : option Z := decode (str_pos s).
Lemma parse_formatNano t : parseNano (formatNano t) = Some t.
Proof. unfold parseNano, formatNano. by rewrite str_pos_str, decode_encode. Qed.
(** A hash that has no collision on the texts below. *)
Fixpoint poly (acc : Z) (s : string) : Z :=
  match s with "" => acc | String c s' => poly ((acc * 257 + Z.of_nat (Ascii.nat_of_ascii c)) mod 2305843009213693951) s' end.
Definition toyHash (s : string) : string := String "h"%char (string_of_bytes (FormatInt (poly 7 s))).
Lemma toyHash_hex x : toyHash x <> "" /\ no_bar (toyHash x) = true.
Proof. split; [done|]. cbn. by apply digits_no_bar, FormatInt_range. Qed.

Definition deployed : goval := GVal (JObj [("comment", JStr "x"); ("version", JNum "2")]).
Definition op0 (i : string) (n : Z) (b a : goval) : op := MkOp true true i n "u1" "flow.deploy" "flow" "f1" "p1" b a.
Definition log0 : list row :=
  run toyHash render formatNano [op0 "e1" 1 GNil GNil; op0 "e2" 2 GNil deployed].
Definition no_collision (l : list string) : bool := forallb (fun x => forallb (fun y => negb (toyHash x =? toyHash y)%string || (x =? y)%string) l) l.
Lemma no_collision_free l : no_collision l = true -> collision_free toyHash l.
Proof.
  unfold no_collision. rewrite forallb_forall. intros H x y Hx Hy E. specialize (H x). rewrite forallb_forall in H.
  rewrite list_elem_of_In in *. specialize (H Hx y Hy). apply orb_prop in H as [H|H%String.eqb_eq]; [|done].
  rewrite E, String.eqb_refl in H. done.
Qed.

Lemma untampered_verifies_witness : Verify toyHash render parse formatNano parseNano (fun s => s) log0 true = Ok tt.
Proof.
  apply (untampered_verifies toyHash render parse formatNano parseNano (fun s => s) parse_render eq_refl render_delimited parse_formatNano
           [op0 "e1" 1 GNil GNil; op0 "e2" 2 GNil deployed]).
  - vm_compute. reflexivity.
  - apply no_collision_free. vm_compute. reflexivity.
  - repeat constructor; vm_compute; reflexivity.
Defined.


(** A created flow is recorded as the struct [Flow] is written, with its members in the order
    of the struct; [Verify] then reports a log that nobody touched as tampered with. *)
Definition flow_json : json :=
  JObj [("id", JStr "f1"); ("projectId", JStr "p1"); ("name", JStr "Press"); ("content", JObj []); ("deployedVersion", JNull);
        ("logLevel", JStr "info"); ("activeProfileId", JNull); ("createdAt", JStr "2026-01-01T00:00:00Z"); ("updatedAt", JStr "2026-01-01T00:00:00Z")].
Lemma flow_create_fails_verification :
  Verify toyHash render parse formatNano parseNano (fun s => s)
    (run toyHash render formatNano [MkOp true true "e1" 1 "u1" "flow.create" "flow" "f1" "p1" GNil (GVal flow_json)]) true =
  Err (ErrTampered "e1" 1).
Proof. vm_compute. reflexivity. Qed.
End examples.
End audit.
