(* ===== verification/FlowStore.v ===== *)
(** * Flows, versions and deploys in the control plane

    The tables [projects], [flows], [flow_versions] and [environment_profiles], the store's
    operations on them ([controlplane/internal/api/flows.go], [projects.go],
    [envprofiles.go]), and the handlers that edit, deploy and roll back flows.  A deploy goes
    on to the runtime registry; the calls of the audit log are kept in order.  A table is a map
    by its primary key; [ok i] is the outcome of the [i]-th statement of a request, and a
    transaction is one statement.  JSON texts of flow files, the printing of defaults, fresh
    ids, the clock and the order of rows are arguments. *)

From S2P Require Import Prelude Bytes GoStd FlowFile Auth Registry.
Import gostd.
Local Open Scope Z_scope.

Module flowstore.

Record Project := MkProject { p_Name : string; p_Description : string; p_CreatedAt : Z; DefaultErrorFlow : option string }.
Record Flow := MkFlow {
  ProjectID : string; Name : string; Content : string; DeployedVersion : option Z; LogLevel : string;
  ActiveProfileID : option string; CreatedAt : Z; UpdatedAt : Z
}.
Record FlowVersion := MkFlowVersion { v_Content : string; Author : string; Comment : string; v_CreatedAt : Z; DeployedAt : option Z }.
Record EnvironmentProfile := MkEnvironmentProfile { e_ProjectID : string; e_Name : string; Values : gmap string string; e_CreatedAt : Z }.
Record DB := MkDB {
  projects : gmap string Project; flows : gmap string Flow; flow_versions : gmap (string * Z) FlowVersion;
  environment_profiles : gmap string EnvironmentProfile
}.
Definition emptyDB : DB := MkDB ∅ ∅ ∅ ∅.
Definition set_flows (db : DB) m : DB := MkDB (projects db) m (flow_versions db) (environment_profiles db).
Definition set_profiles (db : DB) m : DB := MkDB (projects db) (flows db) (flow_versions db) m.
Definition set_projects (db : DB) m : DB := MkDB m (flows db) (flow_versions db) (environment_profiles db).

Inductive StoreError := ErrNoRows | ErrDB.

(** ** The store: projects *)

Definition CreateProject (db : DB) (ok : bool) (id : string) (now : Z) (name description : string) : DB * res StoreError string :=
  if ok && bool_decide (projects db !! id = None) then
    (set_projects db (<[id := MkProject name description (FormatRFC3339 now) None]> (projects db)), Ok id)
  else (db, Err ErrDB).
Definition GetProject (db : DB) (ok : bool) (id : string) : res StoreError Project :=
  if ok then match projects db !! id with Some p => Ok p | None => Err ErrNoRows end else Err ErrDB.
Definition UpdateProject (db : DB) (ok1 ok2 : bool) (id : string) (name description defaultErrorFlow : option string)
  : DB * res StoreError Project :=
  match GetProject db ok1 id with
  | Ok p =>
      let p' := MkProject (default (p_Name p) name) (default (p_Description p) description) (p_CreatedAt p)
                  (match defaultErrorFlow with Some d => if decide (d = "") then None else Some d | None => DefaultErrorFlow p end) in
      if ok2 then (set_projects db (<[id := p']> (projects db)), Ok p') else (db, Err ErrDB)
  | Err e => (db, Err e)
  | Panic => (db, Panic)
  end.
Definition DeleteProject (db : DB) (ok : bool) (id : string) : DB * res StoreError unit :=
  if ok then (set_projects db (delete id (projects db)), Ok tt) else (db, Err ErrDB).

(** ** The store: flows and versions *)

Definition CreateFlow (db : DB) (ok : bool) (id : string) (now : Z) (projectID name content : string) : DB * res StoreError string :=
  if ok && bool_decide (flows db !! id = None) then
    (set_flows db (<[id := MkFlow projectID name content None "info" None (FormatRFC3339 now) (FormatRFC3339 now)]> (flows db)), Ok id)
  else (db, Err ErrDB).
Definition GetFlow (db : DB) (ok : bool) (id : string) : res StoreError Flow :=
  if ok then match flows db !! id with Some f => Ok f | None => Err ErrNoRows end else Err ErrDB.

Definition with_draft (now : Z) (name content : string) (f : Flow) : Flow :=
  MkFlow (ProjectID f) name content (DeployedVersion f) (LogLevel f) (ActiveProfileID f) (CreatedAt f) (FormatRFC3339 now).
Definition UpdateFlowDraft (db : DB) (ok1 ok2 : bool) (now : Z) (id : string) (name content : option string) : DB * res StoreError unit :=
  match GetFlow db ok1 id with
  | Ok f =>
      if ok2 then (set_flows db (alter (with_draft now (default (Name f) name) (default (Content f) content)) id (flows db)), Ok tt)
      else (db, Err ErrDB)
  | Err e => (db, Err e)
  | Panic => (db, Panic)
  end.
Definition DeleteFlow (db : DB) (ok : bool) (id : string) : DB * res StoreError unit :=
  if ok then (set_flows db (delete id (flows db)), Ok tt) else (db, Err ErrDB).

Definition with_level (level : string) (f : Flow) : Flow :=
  MkFlow (ProjectID f) (Name f) (Content f) (DeployedVersion f) level (ActiveProfileID f) (CreatedAt f) (UpdatedAt f).
Definition SetFlowLogLevel (db : DB) (ok : bool) (id level : string) : DB * res StoreError unit :=
  if ok then
    match flows db !! id with
    | Some _ => (set_flows db (alter (with_level level) id (flows db)), Ok tt)
    | None => (db, Err ErrNoRows)
    end
  else (db, Err ErrDB).

Definition nullableString (s : string) : option string := if decide (s = "") then None else Some s.
Definition with_profile (p : option string) (f : Flow) : Flow :=
  MkFlow (ProjectID f) (Name f) (Content f) (DeployedVersion f) (LogLevel f) p (CreatedAt f) (UpdatedAt f).
Definition SetFlowActiveProfile (db : DB) (ok : bool) (flowID profileID : string) : DB * res StoreError unit :=
  if ok then (set_flows db (alter (with_profile (nullableString profileID)) flowID (flows db)), Ok tt) else (db, Err ErrDB).

(** [SELECT MAX(version)] *)
Definition versions_of (m : gmap (string * Z) FlowVersion) (flowID : string) : list Z :=
  omap (fun kv => if decide (kv.1.1 = flowID) then Some kv.1.2 else None) (map_to_list m).
Definition maxVersion (m : gmap (string * Z) FlowVersion) (flowID : string) : option Z :=
  match versions_of m flowID with [] => None | v :: l => Some (foldr Z.max v l) end.
Definition nextVersion (m : gmap (string * Z) FlowVersion) (flowID : string) : Z :=
  match maxVersion m flowID with Some v => v + 1 | None => 1 end.
Definition with_deployed (now v : Z) (f : Flow) : Flow :=
  MkFlow (ProjectID f) (Name f) (Content f) (Some v) (LogLevel f) (ActiveProfileID f) (CreatedAt f) (FormatRFC3339 now).
(** [ok2]: the transaction commits; otherwise it is rolled back.  The primary key refuses a
    version that exists. *)
Definition CreateDeployedVersion (db : DB) (ok1 ok2 : bool) (now : Z) (flowID author comment : string) : DB * res StoreError Z :=
  match GetFlow db ok1 flowID with
  | Ok f =>
      let v := nextVersion (flow_versions db) flowID in
      if ok2 && bool_decide (flow_versions db !! (flowID, v) = None) then
        (MkDB (projects db) (alter (with_deployed now v) flowID (flows db))
           (<[(flowID, v) := MkFlowVersion (Content f) author comment (FormatRFC3339 now) (Some (FormatRFC3339 now))]> (flow_versions db))
           (environment_profiles db), Ok v)
      else (db, Err ErrDB)
  | Err e => (db, Err e)
  | Panic => (db, Panic)
  end.
Definition GetFlowVersion (db : DB) (ok : bool) (flowID : string) (v : Z) : res StoreError FlowVersion :=
  if ok then match flow_versions db !! (flowID, v) with Some x => Ok x | None => Err ErrNoRows end else Err ErrDB.

(** ** The store: environment profiles *)

Definition CreateEnvironmentProfile (db : DB) (ok : bool) (id : string) (now : Z) (projectID name : string) (values : gmap string string)
  : DB * res StoreError string :=
  if ok && bool_decide (environment_profiles db !! id = None) then
    (set_profiles db (<[id := MkEnvironmentProfile projectID name values (FormatRFC3339 now)]> (environment_profiles db)), Ok id)
  else (db, Err ErrDB).
Definition GetEnvironmentProfile (db : DB) (ok : bool) (id : string) : res StoreError EnvironmentProfile :=
  if ok then match environment_profiles db !! id with Some p => Ok p | None => Err ErrNoRows end else Err ErrDB.
Definition UpdateEnvironmentProfileValues (db : DB) (ok1 ok2 : bool) (id : string) (values : gmap string string) : DB * res StoreError unit :=
  match GetEnvironmentProfile db ok1 id with
  | Ok _ =>
      if ok2 then
        (set_profiles db (alter (fun p => MkEnvironmentProfile (e_ProjectID p) (e_Name p) values (e_CreatedAt p)) id (environment_profiles db)), Ok tt)
      else (db, Err ErrDB)
  | Err e => (db, Err e)
  | Panic => (db, Panic)
  end.
Definition DeleteEnvironmentProfile (db : DB) (ok : bool) (id : string) : DB * res StoreError unit :=
  if ok then (set_profiles db (delete id (environment_profiles db)), Ok tt) else (db, Err ErrDB).

(** [MarshalCanonical] writes nodes and wires by id and variables by name. *)
Definition sorted (ff : flowfile.FlowFile) : flowfile.FlowFile :=
  flowfile.MkFlowFile (flowfile.FormatVersion ff) (flowfile.Kind ff) (flowfile.ff_ID ff) (flowfile.ff_Name ff) (flowfile.Description ff)
    (flowfile.Mode ff) (flowfile.ff_Disabled ff) (flowfile.runtimeAssignment ff) (flowfile.settings ff)
    (sortBy flowfile.ev_Name (flowfile.Env ff))
    (flowfile.MkGraph (sortBy flowfile.ID (flowfile.Nodes (flowfile.graph ff))) (sortBy flowfile.w_ID (flowfile.Wires (flowfile.graph ff))))
    (flowfile.layout ff) (flowfile.interface ff).
Definition targetGroup (ff : flowfile.FlowFile) : string :=
  match flowfile.runtimeAssignment ff with Some a => flowfile.ra_Group a | None => "" end.

(** What [canonical.go] uses of [encoding/json]: [json.Marshal] of a flow file, the decoder with
    [UseNumber] into a generic value, and the encoder with its indent, which ends its output with a
    newline. *)
Record jsonCodec := MkCodec {
  j_value : Type; j_Marshal : flowfile.FlowFile -> option string; j_Decode : string -> option j_value; j_Encode : j_value -> option string
}.
Definition newline : Ascii.ascii := Ascii.ascii_of_nat 10.
(** [bytes.TrimRight(b, "\n")] *)
Fixpoint trimNewlines (s : string) : string :=
  match s with
  | EmptyString => ""
  | String c r => let r' := trimNewlines r in if decide (r' = "" /\ c = newline) then "" else String c r'
  end.
Definition canonicalizeJSON (codec : jsonCodec) (raw : string) : option string :=
  generic ← j_Decode codec raw; out ← j_Encode codec generic; Some (trimNewlines out).
Definition MarshalCanonical (codec : jsonCodec) (ff : flowfile.FlowFile) : option string :=
  raw ← j_Marshal codec (sorted ff); canonicalizeJSON codec raw.

Section handlers.
(** [flow.Parse], the JSON of flow files, [fmt.Sprint] of a default, the node types and
    the schema check of [flow.Validate]. *)
Context (Parse : string -> option flowfile.FlowFile) (codec : jsonCodec) (Sprint : string -> string)
        (types : gmap string flowfile.registration) (schemaValid : string -> string -> bool).

(** The variables that resolve, and the sorted names of the others. *)
Definition resolveVar (profile : option EnvironmentProfile) (acc : gmap string string * list string) (v : flowfile.EnvVar)
  : gmap string string * list string :=
  let '(resolved, missing) := acc in
  match p ← profile; Values p !! flowfile.ev_Name v with
  | Some val => (<[flowfile.ev_Name v := val]> resolved, missing)
  | None =>
      match flowfile.ev_Default v with
      | Some d => (<[flowfile.ev_Name v := Sprint d]> resolved, missing)
      | None => (resolved, missing ++ [flowfile.ev_Name v])
      end
  end.
Definition resolveEnv (ff : flowfile.FlowFile) (profile : option EnvironmentProfile) : gmap string string * list string :=
  let '(resolved, missing) := fold_left (resolveVar profile) (flowfile.Env ff) (∅, []) in (resolved, sortStrings missing).
(** [None]: the profile cannot be read, or a variable has no value. *)
Definition resolveEnvForDeploy (db : DB) (ok : bool) (f : Flow) (ff : flowfile.FlowFile) : option (gmap string string) :=
  let finish profile := let '(resolved, missing) := resolveEnv ff profile in if decide (missing = []) then Some resolved else None in
  match ActiveProfileID f with
  | Some id =>
      if decide (id = "") then finish None
      else match GetEnvironmentProfile db ok id with
           | Ok p => finish (Some p)
           | Err ErrNoRows => finish None
           | _ => None
           end
  | None => finish None
  end.

(** [ListDeployedFlows]: [order] is the order of the rows.  A row's profile is read while the
    rows are open, on another connection of the pool: with a single one the query waits for
    ever ([None]). *)
Definition deployedRow (db : DB) (pool : option nat) (ok : string -> bool) (id : string) : option (option registry.DeployedFlowInfo) :=
  match f ← flows db !! id; v ← DeployedVersion f; fv ← flow_versions db !! (id, v); p ← projects db !! (ProjectID f); Some (f, v, fv, p) with
  | None => Some None
  | Some (f, v, fv, p) =>
      let info g env := registry.MkDeployedFlowInfo id v (v_Content fv) (default "" (DefaultErrorFlow p)) g (LogLevel f) env in
      match Parse (v_Content fv) with
      | None => Some (Some (info "" ∅))
      | Some ff =>
          match ActiveProfileID f with
          | None => Some (Some (info (targetGroup ff) (resolveEnv ff None).1))
          | Some pid =>
              if decide (pool = Some 1%nat) then None
              else
                let profile := match GetEnvironmentProfile db (ok id) pid with Ok p => Some p | _ => None end in
                Some (Some (info (targetGroup ff) (resolveEnv ff profile).1))
          end
      end
  end.
Definition ListDeployedFlows (db : DB) (pool : option nat) (ok0 : bool) (ok : string -> bool) (order : list string)
  : option (res StoreError (list registry.DeployedFlowInfo)) :=
  if ok0 then (fun l => Ok (omap (fun x => x) l)) <$> mapM (deployedRow db pool ok) order else Some (Err ErrDB).

(** ** Requests *)

Record auditCall := MkAuditCall { a_actor : string; a_action : string; a_type : string; a_object : string; a_project : string }.
Record world := MkWorld { db : DB; accounts : auth.DB; reg : registry.Service; log : list auditCall }.
Definition set_db (w : world) (d : DB) : world := MkWorld d (accounts w) (reg w) (log w).
Definition set_reg (w : world) (s : registry.Service) : world := MkWorld (db w) (accounts w) s (log w).
Definition set_accounts (w : world) (a : auth.DB) : world := MkWorld (db w) a (reg w) (log w).
(** [h.audit]: an append that fails is only logged. *)
Definition audit (w : world) (ok : bool) (actor action otype object project : string) : world :=
  if ok then MkWorld (db w) (accounts w) (reg w) (log w ++ [MkAuditCall actor action otype object project]) else w.

(** What a request meets: the outcomes of its statements, the time, the runtimes in the order
    of Go's iteration with the outcomes of their group queries and of the selects. *)
Record env := MkEnv {
  ok : nat -> bool; now : Z; order : list string; gok : string -> bool; done : nat -> bool
}.

Definition flowAndAuthorize (w : world) (e : env) (user : auth.User) (flowID min : string) : Flow + Z :=
  match GetFlow (db w) (ok e 0) flowID with
  | Err ErrNoRows => inr 404
  | Ok f => match auth.requireProjectRole (accounts w) (ok e 1) user (ProjectID f) min with Some st => inr st | None => inl f end
  | _ => inr 500
  end.

Definition createFlow (w : world) (e : env) (user : auth.User) (projectID id : string) (body : option (string * string)) : world * Z :=
  match auth.requireProjectRole (accounts w) (ok e 1) user projectID auth.RoleEditor with
  | Some st => (w, st)
  | None =>
      match body with
      | None => (w, 400)
      | Some (name, content) =>
          if decide (name = "" \/ content = "") then (w, 400)
          else match CreateFlow (db w) (ok e 2) id (now e) projectID name content with
               | (d, Ok _) => (audit (set_db w d) (ok e 9) (auth.ID user) "flow.create" "flow" id projectID, 201)
               | (d, _) => (set_db w d, 500)
               end
      end
  end.
Definition updateFlow (w : world) (e : env) (user : auth.User) (flowID : string) (body : option (option string * option string)) : world * Z :=
  match flowAndAuthorize w e user flowID auth.RoleEditor with
  | inr st => (w, st)
  | inl f =>
      match body with
      | None => (w, 400)
      | Some (name, content) =>
          match UpdateFlowDraft (db w) (ok e 2) (ok e 3) (now e) flowID name content with
          | (d, Ok _) => (audit (set_db w d) (ok e 9) (auth.ID user) "flow.update" "flow" flowID (ProjectID f), 200)
          | (d, _) => (set_db w d, 500)
          end
      end
  end.
Definition deleteFlow (w : world) (e : env) (user : auth.User) (flowID : string) : world * Z :=
  match flowAndAuthorize w e user flowID auth.RoleEditor with
  | inr st => (w, st)
  | inl f =>
      match DeleteFlow (db w) (ok e 2) flowID with
      | (d, Ok _) => (audit (set_db w d) (ok e 9) (auth.ID user) "flow.delete" "flow" flowID (ProjectID f), 204)
      | (d, _) => (set_db w d, 500)
      end
  end.

Definition push (w : world) (e : env) (flowID : string) (v : Z) (content defaultErrorFlow group level : string) (env : gmap string string)
  : world * res string unit :=
  let '(s, r) := registry.DeployFlow (reg w) (order e) (gok e) (done e)
                   (registry.MkDeployedFlowInfo flowID v content defaultErrorFlow group level env) in
  (set_reg w s, r).

Definition validLogLevels : list string := ["debug"; "info"; "warn"; "error"].
(** The push of an unchanged version with a new level: errors are ignored. *)
Definition repushLevel (w : world) (e : env) (flowID level : string) (f : Flow) : world :=
  match DeployedVersion f with
  | None => w
  | Some v =>
      match GetFlowVersion (db w) (ok e 3) flowID v with
      | Ok fv =>
          match Parse (v_Content fv), GetProject (db w) (ok e 4) (ProjectID f) with
          | Some ff, Ok p =>
              let env := default ∅ (resolveEnvForDeploy (db w) (ok e 5) f ff) in
              (push w e flowID v (v_Content fv) (default "" (DefaultErrorFlow p)) (targetGroup ff) level env).1
          | _, _ => w
          end
      | _ => w
      end
  end.
Definition setFlowLogLevel (w : world) (e : env) (user : auth.User) (flowID : string) (body : option string) : world * Z :=
  match flowAndAuthorize w e user flowID auth.RoleEditor with
  | inr st => (w, st)
  | inl f =>
      match body with
      | None => (w, 400)
      | Some level =>
          if decide (level ∉ validLogLevels) then (w, 400)
          else match SetFlowLogLevel (db w) (ok e 2) flowID level with
               | (d, Ok _) =>
                   (audit (repushLevel (set_db w d) e flowID level f) (ok e 9) (auth.ID user) "flow.setLogLevel" "flow" flowID (ProjectID f), 200)
               | (d, _) => (set_db w d, 500)
               end
      end
  end.

(** What a deploy and a rollback do after their checks: the version, the push, the audit. *)
Definition publish (w : world) (e : env) (user : auth.User) (flowID : string) (f : Flow) (ff : flowfile.FlowFile)
    (resolved : gmap string string) (comment action : string) : world * Z :=
  match CreateDeployedVersion (db w) (ok e 5) (ok e 6) (now e) flowID (auth.Username user) comment with
  | (d, Ok v) =>
      let w := set_db w d in
      match MarshalCanonical codec ff, GetProject (db w) (ok e 7) (ProjectID f) with
      | Some canonical, Ok p =>
          match push w e flowID v canonical (default "" (DefaultErrorFlow p)) (targetGroup ff) (LogLevel f) resolved with
          | (w, Ok _) => (audit w (ok e 9) (auth.ID user) action "flow" flowID (ProjectID f), 201)
          | (w, _) => (w, 409)
          end
      | _, _ => (w, 500)
      end
  | (d, _) => (set_db w d, 500)
  end.

(** [deployFlow] up to the check of the draft, and from there on. *)
Definition deployFlow_check (w : world) (e : env) (user : auth.User) (flowID : string) : (Flow * flowfile.FlowFile) + Z :=
  match flowAndAuthorize w e user flowID auth.RoleEditor with
  | inr st => inr st
  | inl f =>
      match Parse (Content f) with
      | None => inr 400
      | Some ff => if decide (flowfile.Validate types schemaValid ff = []) then inl (f, ff) else inr 400
      end
  end.
Definition deployFlow_publish (w : world) (e : env) (user : auth.User) (flowID : string) (f : Flow) (ff : flowfile.FlowFile)
    (body : string * option string) : world * Z :=
  let '(comment, profileID) := body in
  match (match profileID with
         | None => Some (w, f)
         | Some pid => match SetFlowActiveProfile (db w) (ok e 2) flowID pid with
                       | (d, Ok _) => Some (set_db w d, with_profile (Some pid) f)
                       | (d, _) => None
                       end
         end) with
  | None => (w, 500)
  | Some (w, f) =>
      match resolveEnvForDeploy (db w) (ok e 3) f ff with
      | None => (w, 400)
      | Some resolved => publish w e user flowID f ff resolved comment "flow.deploy"
      end
  end.
Definition deployFlow (w : world) (e : env) (user : auth.User) (flowID : string) (body : string * option string) : world * Z :=
  match deployFlow_check w e user flowID with
  | inr st => (w, st)
  | inl (f, ff) => deployFlow_publish w e user flowID f ff body
  end.

Definition rollbackComment (v : Z) : string := "rollback to version " +:+ string_of_bytes (FormatInt v).
(** [version]: the path value, when it is a number. *)
Definition rollbackFlow (w : world) (e : env) (user : auth.User) (flowID : string) (version : option Z) : world * Z :=
  match flowAndAuthorize w e user flowID auth.RoleEditor with
  | inr st => (w, st)
  | inl f =>
      match version with
      | None => (w, 400)
      | Some v =>
          match GetFlowVersion (db w) (ok e 2) flowID v with
          | Err ErrNoRows => (w, 404)
          | Ok old =>
              match UpdateFlowDraft (db w) (ok e 3) (ok e 8) (now e) flowID None (Some (v_Content old)) with
              | (d, Ok _) =>
                  let w := set_db w d in
                  match Parse (v_Content old) with
                  | None => (w, 400)
                  | Some ff =>
                      if decide (flowfile.Validate types schemaValid ff = []) then
                        match resolveEnvForDeploy (db w) (ok e 4) f ff with
                        | None => (w, 400)
                        | Some resolved => publish w e user flowID f ff resolved (rollbackComment v) "flow.rollback"
                        end
                      else (w, 400)
                  end
              | (d, _) => (set_db w d, 500)
              end
          | _ => (w, 500)
          end
      end
  end.

Definition createEnvProfile (w : world) (e : env) (user : auth.User) (projectID id : string) (body : option (string * gmap string string)) : world * Z :=
  match auth.requireProjectRole (accounts w) (ok e 1) user projectID auth.RoleEditor with
  | Some st => (w, st)
  | None =>
      match body with
      | None => (w, 400)
      | Some (name, values) =>
          if decide (name = "") then (w, 400)
          else match CreateEnvironmentProfile (db w) (ok e 2) id (now e) projectID name values with
               | (d, Ok _) => (audit (set_db w d) (ok e 9) (auth.ID user) "envprofile.create" "environment_profile" id projectID, 201)
               | (d, _) => (set_db w d, 500)
               end
      end
  end.
(** [updateEnvProfile] and [deleteEnvProfile] begin alike. *)
Definition profileAndAuthorize (w : world) (e : env) (user : auth.User) (id : string) : EnvironmentProfile + Z :=
  match GetEnvironmentProfile (db w) (ok e 0) id with
  | Ok p => match auth.requireProjectRole (accounts w) (ok e 1) user (e_ProjectID p) auth.RoleEditor with Some st => inr st | None => inl p end
  | _ => inr 404
  end.
Definition updateEnvProfile (w : world) (e : env) (user : auth.User) (id : string) (body : option (gmap string string)) : world * Z :=
  match profileAndAuthorize w e user id with
  | inr st => (w, st)
  | inl p =>
      match body with
      | None => (w, 400)
      | Some values =>
          match UpdateEnvironmentProfileValues (db w) (ok e 2) (ok e 3) id values with
          | (d, Ok _) => (audit (set_db w d) (ok e 9) (auth.ID user) "envprofile.update" "environment_profile" id (e_ProjectID p), 200)
          | (d, _) => (set_db w d, 500)
          end
      end
  end.
Definition deleteEnvProfile (w : world) (e : env) (user : auth.User) (id : string) : world * Z :=
  match profileAndAuthorize w e user id with
  | inr st => (w, st)
  | inl p =>
      match DeleteEnvironmentProfile (db w) (ok e 2) id with
      | (d, Ok _) => (audit (set_db w d) (ok e 9) (auth.ID user) "envprofile.delete" "environment_profile" id (e_ProjectID p), 204)
      | (d, _) => (set_db w d, 500)
      end
  end.

(** The creator becomes the project's administrator. *)
Definition createProject (w : world) (e : env) (user : auth.User) (id : string) (body : option (string * string)) : world * Z :=
  match body with
  | None => (w, 400)
  | Some (name, description) =>
      if decide (name = "") then (w, 400)
      else match CreateProject (db w) (ok e 2) id (now e) name description with
           | (d, Ok _) =>
               let w := set_db w d in
               match auth.SetProjectRole (accounts w) (ok e 3) id (auth.ID user) auth.RoleProjectAdmin with
               | (a, Ok _) => (audit (set_accounts w a) (ok e 9) (auth.ID user) "project.create" "project" id id, 201)
               | (a, _) => (set_accounts w a, 500)
               end
           | (d, _) => (set_db w d, 500)
           end
  end.
Definition updateProject (w : world) (e : env) (user : auth.User) (id : string) (body : option (option string * option string * option string))
  : world * Z :=
  match auth.requireProjectRole (accounts w) (ok e 1) user id auth.RoleProjectAdmin with
  | Some st => (w, st)
  | None =>
      match GetProject (db w) (ok e 0) id with
      | Err ErrNoRows => (w, 404)
      | _ =>
          match body with
          | None => (w, 400)
          | Some (name, description, errorFlow) =>
              match UpdateProject (db w) (ok e 2) (ok e 3) id name description errorFlow with
              | (d, Ok _) => (audit (set_db w d) (ok e 9) (auth.ID user) "project.update" "project" id id, 200)
              | (d, _) => (set_db w d, 500)
              end
          end
      end
  end.
Definition deleteProject (w : world) (e : env) (user : auth.User) (id : string) : world * Z :=
  match auth.requireProjectRole (accounts w) (ok e 1) user id auth.RoleProjectAdmin with
  | Some st => (w, st)
  | None =>
      match DeleteProject (db w) (ok e 2) id with
      | (d, Ok _) => (audit (set_db w d) (ok e 9) (auth.ID user) "project.delete" "project" id id, 204)
      | (d, _) => (set_db w d, 500)
      end
  end.

(** ** Runs *)

Inductive request :=
| RCreateFlow (projectID id : string) (body : option (string * string))
| RUpdateFlow (flowID : string) (body : option (option string * option string))
| RDeleteFlow (flowID : string)
| RSetLogLevel (flowID : string) (body : option string)
| RDeploy (flowID : string) (body : string * option string)
| RRollback (flowID : string) (version : option Z)
| RCreateProfile (projectID id : string) (body : option (string * gmap string string))
| RUpdateProfile (id : string) (body : option (gmap string string))
| RDeleteProfile (id : string)
| RCreateProject (id : string) (body : option (string * string))
| RUpdateProject (id : string) (body : option (option string * option string * option string))
| RDeleteProject (id : string).
Definition handle (w : world) (e : env) (user : auth.User) (r : request) : world * Z :=
  match r with
  | RCreateFlow p id b => createFlow w e user p id b
  | RUpdateFlow id b => updateFlow w e user id b
  | RDeleteFlow id => deleteFlow w e user id
  | RSetLogLevel id b => setFlowLogLevel w e user id b
  | RDeploy id b => deployFlow w e user id b
  | RRollback id v => rollbackFlow w e user id v
  | RCreateProfile p id b => createEnvProfile w e user p id b
  | RUpdateProfile id b => updateEnvProfile w e user id b
  | RDeleteProfile id => deleteEnvProfile w e user id
  | RCreateProject id b => createProject w e user id b
  | RUpdateProject id b => updateProject w e user id b
  | RDeleteProject id => deleteProject w e user id
  end.
(** Between requests, accounts and runtimes change in any way.  [POST /backup/restore] replaces the
    tables by what the uploaded bundle has for them, whatever that is, and the accounts with them. *)
Inductive event :=
| EvRequest (e : env) (user : auth.User) (r : request)
| EvElsewhere (a : auth.DB) (s : registry.Service)
| EvRestore (d : DB) (a : auth.DB) (entry : list auditCall).
Definition step (w : world) (ev : event) : world :=
  match ev with
  | EvRequest e user r => (handle w e user r).1
  | EvElsewhere a s => MkWorld (db w) a s (log w)
  | EvRestore d a entry => MkWorld d a (reg w) (log w ++ entry)
  end.
Definition run (w : world) (l : list event) : world := fold_left step l w.

(** ** Versions *)

Definition versions_ok (m : gmap (string * Z) FlowVersion) : Prop := forall f, exists n, forall v, is_Some (m !! (f, v)) <-> 1 <= v <= n.
Definition store_ok (d : DB) : Prop :=
  versions_ok (flow_versions d) /\
  forall id f, flows d !! id = Some f ->
    ActiveProfileID f <> Some "" /\ forall v, DeployedVersion f = Some v -> is_Some (flow_versions d !! (id, v)).
(** A change that keeps the invariant and every version. *)
Definition evolves (d d' : DB) : Prop := (store_ok d -> store_ok d') /\ flow_versions d ⊆ flow_versions d'.
#[global] Instance evolves_preorder : PreOrder evolves.
Proof.
  split.
  - by intros d.
  - intros a b c [Hab ?] [Hbc ?]. split; [auto|]. by etrans.
Qed.

Lemma elem_of_versions m f v : v ∈ versions_of m f <-> is_Some (m !! (f, v)).
Proof.
  unfold versions_of. rewrite list_elem_of_omap. split.
  - intros ([[f' v'] x] & Hx%elem_of_map_to_list & E). cbn in E. case_decide; [|done]. simplify_eq. by exists x.
  - intros [x Hx]. exists ((f, v), x). split; [by apply elem_of_map_to_list|]. cbn. by rewrite decide_True.
Qed.
Lemma foldr_max_spec v l : foldr Z.max v l ∈ v :: l /\ forall x, x ∈ v :: l -> x <= foldr Z.max v l.
Proof.
  induction l as [|y l [IHin IHmax]]; cbn.
  - split; [by left|]. intros x [-> |[]%elem_of_nil]%elem_of_cons. lia.
  - split.
    + destruct (Z.max_spec y (foldr Z.max v l)) as [[_ ->]|[_ ->]]; set_solver.
    + intros x. rewrite !elem_of_cons. intros [-> |[-> |Hx]]; [|lia|].
      * specialize (IHmax v ltac:(by left)). lia.
      * specialize (IHmax x ltac:(by right)). lia.
Qed.
(** Versions are numbered from 1 without gaps, so the next one is one past the last. *)
Lemma nextVersion_spec m f n : (forall v, is_Some (m !! (f, v)) <-> 1 <= v <= n) -> nextVersion m f = Z.max n 0 + 1.
Proof.
  intros H. unfold nextVersion, maxVersion. setoid_rewrite <- elem_of_versions in H. destruct (versions_of m f) as [|v l] eqn:E.
  - assert (~ 1 <= n) by (intros Hn; apply (elem_of_nil (A := Z) 1), H; lia). lia.
  - destruct (foldr_max_spec v l) as [Hin Hmax]. apply H in Hin. assert (n <= foldr Z.max v l) by (apply Hmax, H; lia). lia.
Qed.

Arguments resolveEnvForDeploy : simpl never.
Arguments publish : simpl never.

Lemma set_flows_evolves d m :
  (store_ok d -> forall id f', m !! id = Some f' -> ActiveProfileID f' <> Some "" /\
     (DeployedVersion f' = None \/ exists f, flows d !! id = Some f /\ DeployedVersion f' = DeployedVersion f)) ->
  evolves d (set_flows d m).
Proof.
  intros H. split; [|done]. intros Hd. specialize (H Hd). destruct Hd as [Hv Hf]. split; [done|]. cbn. intros id f' Hf'.
  destruct (H _ _ Hf') as [Ha [Hn|(f & Hfl & He)]]; (split; [done|]); intros v Hdv; [congruence|].
  apply (Hf id f Hfl). congruence.
Qed.
Lemma alter_flow_evolves d g id :
  (forall f, DeployedVersion (g f) = DeployedVersion f /\ (ActiveProfileID f <> Some "" -> ActiveProfileID (g f) <> Some "")) ->
  evolves d (set_flows d (alter g id (flows d))).
Proof.
  intros Hg. apply set_flows_evolves. intros [_ Hf] i f'. rewrite lookup_alter_Some. intros [(-> & f & E & ->)|[_ E]].
  - destruct (Hg f) as [-> Ha], (Hf _ _ E). split; eauto.
  - destruct (Hf _ _ E). split; eauto.
Qed.
Lemma set_projects_evolves d m : evolves d (set_projects d m).
Proof. by split. Qed.
Lemma set_profiles_evolves d m : evolves d (set_profiles d m).
Proof. by split. Qed.

Lemma CreateFlow_evolves d k id t p n c : evolves d (CreateFlow d k id t p n c).1.
Proof.
  unfold CreateFlow. case_match; [|done]. apply set_flows_evolves. cbn. intros [_ Hf] i f' [[<- <-]|[_ E]]%lookup_insert_Some; cbn; [auto|].
  destruct (Hf _ _ E). split; eauto.
Qed.
Lemma UpdateFlowDraft_evolves d k1 k2 t id n c : evolves d (UpdateFlowDraft d k1 k2 t id n c).1.
Proof. unfold UpdateFlowDraft. destruct (GetFlow d k1 id); [|done..]. destruct k2; [|done]. by apply alter_flow_evolves. Qed.
Lemma DeleteFlow_evolves d k id : evolves d (DeleteFlow d k id).1.
Proof.
  unfold DeleteFlow. destruct k; [|done]. apply set_flows_evolves. intros [_ Hf] i f' [_ E]%lookup_delete_Some. destruct (Hf _ _ E). split; eauto.
Qed.
Lemma SetFlowLogLevel_evolves d k id l : evolves d (SetFlowLogLevel d k id l).1.
Proof.
  unfold SetFlowLogLevel. destruct k; [|done]. destruct (flows d !! id); [|done]. by apply alter_flow_evolves.
Qed.
Lemma SetFlowActiveProfile_evolves d k id p : evolves d (SetFlowActiveProfile d k id p).1.
Proof. unfold SetFlowActiveProfile. destruct k; [|done]. apply alter_flow_evolves. intros f. split; [done|]. cbn. unfold nullableString. by case_decide; intros _ [=]. Qed.
(** The new version is the next number. *)
Lemma CreateDeployedVersion_evolves d k1 k2 t id a c : evolves d (CreateDeployedVersion d k1 k2 t id a c).1.
Proof.
  unfold CreateDeployedVersion. destruct (GetFlow d k1 id) as [f0| |]; [|done..].
  destruct (k2 && _) eqn:E; [|done]. apply andb_prop in E as [_ Hnone%bool_decide_eq_true]. cbn. split; [|by apply insert_subseteq]. intros [Hv Hf].
  split.
  - intros g. destruct (Hv g) as [n Hn]. cbn [flow_versions]. destruct (decide (g = id)) as [-> |Hne].
    + rewrite (nextVersion_spec _ _ _ Hn). exists (Z.max n 0 + 1). intros v. rewrite lookup_insert_is_Some', Hn.
      split; [intros [[= <-]|?]; lia|]. intros Hb. destruct (decide (v = Z.max n 0 + 1)) as [-> |]; [by left|right; lia].
    + exists n. intros v. by rewrite lookup_insert_ne by congruence.
  - cbn. intros i f' H. rewrite lookup_alter_Some in H. destruct H as [(-> & f & E & ->)|[Hne E]].
    + destruct (Hf _ _ E). split; [done|]. cbn. intros v [= <-]. rewrite lookup_insert_eq. by eexists.
    + destruct (Hf _ _ E) as [? Hd]. split; [done|]. intros v Hv'. rewrite lookup_insert_ne by congruence. eauto.
Qed.

Lemma audit_db w k a c o i p : db (audit w k a c o i p) = db w.
Proof. unfold audit. by destruct k. Qed.
Lemma push_db w e id v c de g l en : db (push w e id v c de g l en).1 = db w.
Proof. unfold push. by destruct (registry.DeployFlow _ _ _ _ _). Qed.
Lemma repushLevel_db w e id l f : db (repushLevel w e id l f) = db w.
Proof. unfold repushLevel. repeat (case_match; try done). apply push_db. Qed.
Lemma publish_evolves w e user id f ff en c a : evolves (db w) (db (publish w e user id f ff en c a).1).
Proof.
  unfold publish. pose proof (CreateDeployedVersion_evolves (db w) (ok e 5) (ok e 6) (now e) id (auth.Username user) c) as H.
  destruct (CreateDeployedVersion _ _ _ _ _ _ _) as [d [v| |]]; cbn in *; [|done..].
  destruct (MarshalCanonical codec ff); [|done]. destruct (GetProject _ _ _) as [p| |]; [|done..].
  pose proof (push_db (set_db w d) e id v s (default "" (DefaultErrorFlow p)) (targetGroup ff) (LogLevel f) en) as Hp.
  destruct (push _ _ _ _ _ _ _ _ _) as [w' [| |]]; cbn in *; rewrite ?audit_db, Hp; done.
Qed.
Lemma deployFlow_publish_evolves w e user id f ff b : evolves (db w) (db (deployFlow_publish w e user id f ff b).1).
Proof.
  destruct b as [c [pid|]]; cbn.
  - pose proof (SetFlowActiveProfile_evolves (db w) (ok e 2) id pid) as H. destruct (SetFlowActiveProfile _ _ _ _) as [d [| |]]; cbn in *; [|done..].
    destruct (resolveEnvForDeploy _ _ _ _); [|done]. etrans; [exact H|]. apply (publish_evolves (set_db w d)).
  - destruct (resolveEnvForDeploy _ _ _ _); [|done]. apply publish_evolves.
Qed.

(** A request whose only write is one statement of the store. *)
Ltac one_write H :=
  let E := fresh in
  match type of H with evolves _ (?op).1 => destruct op as [d [| |]] eqn:E; cbn in H |- *; rewrite ?audit_db, ?repushLevel_db; done end.

Lemma handle_evolves w e user r : evolves (db w) (db (handle w e user r).1).
Proof.
  destruct r; cbn [handle].
  - unfold createFlow. destruct (auth.requireProjectRole _ _ _ _ _); [done|]. destruct body as [[n c]|]; [|done]. case_decide; [done|].
    pose proof (CreateFlow_evolves (db w) (ok e 2) id (now e) projectID n c) as Hev. one_write Hev.
  - unfold updateFlow. destruct (flowAndAuthorize _ _ _ _ _); [|done]. destruct body as [[n c]|]; [|done].
    pose proof (UpdateFlowDraft_evolves (db w) (ok e 2) (ok e 3) (now e) flowID n c) as Hev. one_write Hev.
  - unfold deleteFlow. destruct (flowAndAuthorize _ _ _ _ _); [|done].
    pose proof (DeleteFlow_evolves (db w) (ok e 2) flowID) as Hev. one_write Hev.
  - unfold setFlowLogLevel. destruct (flowAndAuthorize _ _ _ _ _); [|done]. destruct body as [l|]; [|done].
    destruct (decide (l ∉ validLogLevels)); [done|].
    pose proof (SetFlowLogLevel_evolves (db w) (ok e 2) flowID l) as Hev. one_write Hev.
  - unfold deployFlow. destruct (deployFlow_check _ _ _ _) as [[f ff]|]; [|done]. apply deployFlow_publish_evolves.
  - unfold rollbackFlow. destruct (flowAndAuthorize _ _ _ _ _); [|done]. destruct version as [v|]; [|done].
    destruct (GetFlowVersion _ _ _ _) as [old|[]|]; [|done..].
    pose proof (UpdateFlowDraft_evolves (db w) (ok e 3) (ok e 8) (now e) flowID None (Some (v_Content old))) as Hev.
    destruct (UpdateFlowDraft _ _ _ _ _ _ _) as [d [| |]]; cbn in *; [|done..].
    destruct (Parse _); [|done]. case_decide; [|done]. destruct (resolveEnvForDeploy _ _ _ _); [|done]. etrans; [exact Hev|].
    apply (publish_evolves (set_db w d)).
  - unfold createEnvProfile. destruct (auth.requireProjectRole _ _ _ _ _); [done|]. destruct body as [[n v]|]; [|done]. case_decide; [done|].
    unfold CreateEnvironmentProfile. destruct (_ && _); [|done]. cbn. rewrite audit_db. apply set_profiles_evolves.
  - unfold updateEnvProfile. destruct (profileAndAuthorize _ _ _ _); [|done]. destruct body as [v|]; [|done].
    unfold UpdateEnvironmentProfileValues. destruct (GetEnvironmentProfile _ _ _); [|done..]. destruct (ok e 3); [|done].
    cbn. rewrite audit_db. apply set_profiles_evolves.
  - unfold deleteEnvProfile. destruct (profileAndAuthorize _ _ _ _); [|done]. unfold DeleteEnvironmentProfile. destruct (ok e 2); [|done].
    cbn. rewrite audit_db. apply set_profiles_evolves.
  - unfold createProject. destruct body as [[n c]|]; [|done]. case_decide; [done|]. unfold CreateProject. destruct (_ && _); [|done].
    unfold auth.SetProjectRole. destruct (ok e 3); cbn; rewrite ?audit_db; apply set_projects_evolves.
  - unfold updateProject. destruct (auth.requireProjectRole _ _ _ _ _); [done|]. destruct (GetProject _ _ _) as [|[]|]; [|done|..];
      (destruct body as [[[n c] x]|]; [|done]); unfold UpdateProject; (destruct (GetProject _ _ _); [|done..]); (destruct (ok e 3); [|done]);
      cbn; rewrite audit_db; apply set_projects_evolves.
  - unfold deleteProject. destruct (auth.requireProjectRole _ _ _ _ _); [done|]. unfold DeleteProject. destruct (ok e 2); [|done].
    cbn. rewrite audit_db. apply set_projects_evolves.
Qed.
(** Events that keep versions, and events after which the store is as it should be if it was before. *)
Definition keeps_versions (ev : event) : Prop := match ev with EvRestore _ _ _ => False | _ => True end.
Definition restores_ok (ev : event) : Prop := match ev with EvRestore d _ _ => store_ok d | _ => True end.
Lemma run_keeps l : Forall keeps_versions l -> forall w, evolves (db w) (db (run w l)).
Proof.
  induction 1 as [|ev l Hev _ IH]; intros w; [done|]. cbn. etrans; [|apply IH]. destruct ev; [apply handle_evolves|done|done].
Qed.
Lemma run_store_ok l : Forall restores_ok l -> forall w, store_ok (db w) -> store_ok (db (run w l)).
Proof.
  induction 1 as [|ev l Hev _ IH]; intros w Hw; [done|]. cbn. apply IH. destruct ev; [|done|exact Hev]. by apply handle_evolves.
Qed.
Lemma emptyDB_ok : store_ok emptyDB.
Proof. split; [|done]. intros f. exists 0. intros v. cbn. rewrite lookup_empty. split; [by intros [? [=]]|lia]. Qed.

(** [C11] Version history, over all sequences of requests that edit, deploy and roll back flows, by
    anyone and with any statement failing, and of restores of backups.  As long as no backup is
    restored, a version, once there, stays as it is; a restore replaces all versions by those of
    the bundle.  If the bundles that were restored have it so, the versions of a flow are numbered
    from 1 without gaps, and the version a flow is marked as running exists. *)
Theorem versions_immutable w l1 l2 : db w = emptyDB ->
  let d1 := db (run w l1) in let d2 := db (run w (l1 ++ l2)) in
  (Forall keeps_versions l2 -> forall id v x, flow_versions d1 !! (id, v) = Some x -> flow_versions d2 !! (id, v) = Some x) /\
  (Forall restores_ok (l1 ++ l2) ->
    (forall id, exists n, forall v, is_Some (flow_versions d2 !! (id, v)) <-> 1 <= v <= n) /\
    (forall id f v, flows d2 !! id = Some f -> DeployedVersion f = Some v -> is_Some (flow_versions d2 !! (id, v)))).
Proof.
  intros Hw d1 d2. unfold d2. split.
  - intros Hk id v x Hx. unfold run. rewrite fold_left_app. destruct (run_keeps l2 Hk (run w l1)) as [_ Hs]. by eapply lookup_weaken.
  - intros Hr. destruct (run_store_ok (l1 ++ l2) Hr w) as [Hv Hf]; [rewrite Hw; apply emptyDB_ok|].
    split; [exact Hv|]. intros id f v Hfl. by apply Hf.
Qed.

(** ** Deploys *)

Lemma publish_spec w e user id f ff en c a w' : publish w e user id f ff en c a = (w', 201) ->
  exists fl v text p,
    flows (db w) !! id = Some fl /\ flow_versions (db w) !! (id, v) = None /\ v = nextVersion (flow_versions (db w)) id /\
    db w' = MkDB (projects (db w)) (alter (with_deployed (now e) v) id (flows (db w)))
      (<[(id, v) := MkFlowVersion (Content fl) (auth.Username user) c (FormatRFC3339 (now e)) (Some (FormatRFC3339 (now e)))]> (flow_versions (db w)))
      (environment_profiles (db w)) /\
    MarshalCanonical codec ff = Some text /\ projects (db w) !! ProjectID f = Some p /\
    registry.DeployFlow (reg w) (order e) (gok e) (done e)
      (registry.MkDeployedFlowInfo id v text (default "" (DefaultErrorFlow p)) (targetGroup ff) (LogLevel f) en) = (reg w', Ok tt) /\
    log w' = log w ++ if ok e 9 then [MkAuditCall (auth.ID user) a "flow" id (ProjectID f)] else [].
Proof.
  unfold publish, CreateDeployedVersion, GetFlow. destruct (ok e 5); [|done]. destruct (flows (db w) !! id) as [fl|] eqn:Efl; [|done].
  destruct (ok e 6 && _) eqn:E; [|done]. apply andb_prop in E as [_ Hnone%bool_decide_eq_true]. cbn.
  destruct (MarshalCanonical codec ff) as [text|]; [|done]. unfold GetProject. destruct (ok e 7); [|done]. cbn.
  destruct (projects (db w) !! ProjectID f) as [p|] eqn:Ep; [|done]. unfold push. cbn.
  destruct (registry.DeployFlow _ _ _ _ _) as [s [[]| |]] eqn:Ed; [|done..]. intros [= <-].
  exists fl, (nextVersion (flow_versions (db w)) id), text, p. rewrite audit_db. unfold audit.
  destruct (ok e 9); cbn; rewrite ?app_nil_r; split_and!; try done.
Qed.

(** The profile that a flow's row names, and the variables that are resolved from it. *)
Definition storedProfile (d : DB) (stored : option string) : option EnvironmentProfile :=
  id ← stored; match GetEnvironmentProfile d true id with Ok p => Some p | _ => None end.
Lemma resolve_stored d k f ff en : resolveEnvForDeploy d k f ff = Some en ->
  en = (resolveEnv ff (storedProfile d (id ← ActiveProfileID f; nullableString id))).1.
Proof.
  unfold resolveEnvForDeploy, storedProfile, nullableString.
  assert (forall p, (let '(resolved, missing) := resolveEnv ff p in if decide (missing = []) then Some resolved else None) = Some en ->
    en = (resolveEnv ff p).1) as Hfin.
  { intros p. destruct (resolveEnv ff p) as [r m]. case_decide; [|done]. by intros [= ->]. }
  destruct (ActiveProfileID f) as [id|]; cbn; [|apply Hfin]. case_decide; cbn; [apply Hfin|].
  unfold GetEnvironmentProfile. destruct k; [|done]. destruct (environment_profiles d !! id); apply Hfin.
Qed.
Lemma deployedRow_spec d id f v fv p ff : flows d !! id = Some f -> DeployedVersion f = Some v -> flow_versions d !! (id, v) = Some fv ->
  projects d !! ProjectID f = Some p -> Parse (v_Content fv) = Some ff ->
  deployedRow d None (fun _ => true) id =
    Some (Some (registry.MkDeployedFlowInfo id v (v_Content fv) (default "" (DefaultErrorFlow p)) (targetGroup ff) (LogLevel f)
      (resolveEnv ff (storedProfile d (ActiveProfileID f))).1)).
Proof.
  intros Hf Hv Hfv Hp Hff. unfold deployedRow. rewrite Hf. cbn. rewrite Hv. cbn. rewrite Hfv. cbn. rewrite Hp. cbn. rewrite Hff.
  unfold storedProfile. by destruct (ActiveProfileID f).
Qed.

(** What the checks and the choice of a profile lead to. *)
Lemma deployFlow_inv w e user id b w' : store_ok (db w) -> deployFlow w e user id b = (w', 201) ->
  exists f ff en w1 f1, flows (db w) !! id = Some f /\ Parse (Content f) = Some ff /\ flowfile.Validate types schemaValid ff = [] /\
    projects (db w1) = projects (db w) /\ flow_versions (db w1) = flow_versions (db w) /\ reg w1 = reg w /\ log w1 = log w /\
    flows (db w1) !! id = Some (with_profile (ActiveProfileID f1 ≫= nullableString) f) /\
    ProjectID f1 = ProjectID f /\ LogLevel f1 = LogLevel f /\
    resolveEnvForDeploy (db w1) (ok e 3) f1 ff = Some en /\ publish w1 e user id f1 ff en b.1 "flow.deploy" = (w', 201).
Proof.
  intros [_ Hok]. unfold deployFlow, deployFlow_check, flowAndAuthorize, GetFlow.
  destruct (ok e 0); [|done]. destruct (flows (db w) !! id) as [f|] eqn:Ef; [|done].
  destruct (auth.requireProjectRole _ _ _ _ _) as [st|] eqn:Er.
  { intros [= _ ->]. revert Er. unfold auth.requireProjectRole. by destruct (auth.RequireProjectRole _ _ _ _ _) as [|[]|]. }
  destruct (Parse (Content f)) as [ff|] eqn:Eff; [|done]. case_decide as Hval; [|done]. unfold deployFlow_publish.
  destruct b as [c [pid|]]; cbn.
  - unfold SetFlowActiveProfile. destruct (ok e 2); [|done]. cbn.
    destruct (resolveEnvForDeploy _ _ _ _) as [en|] eqn:Een; [|done]. intros Hp.
    exists f, ff, en, (set_db w (set_flows (db w) (alter (with_profile (nullableString pid)) id (flows (db w))))), (with_profile (Some pid) f).
    split_and!; try done. cbn. by rewrite lookup_alter_eq, Ef.
  - destruct (resolveEnvForDeploy _ _ _ _) as [en|] eqn:Een; [|done]. intros Hp.
    exists f, ff, en, w, f. split_and!; try done.
    destruct (Hok _ _ Ef) as [Ha _]. rewrite Ef. f_equal. destruct f as [? ? ? ? ? [a|] ? ?]; cbn in *; [|done].
    unfold nullableString. rewrite decide_False by congruence. done.
Qed.

(** A deploy that answers 201: the draft parses and is valid; it is now the content of the
    next version, which is new and names the caller as its author; every connected runtime of
    the flow's group has that version as its last command, in the canonical form of the draft;
    and what a runtime gets that connects later agrees with it in everything but that form. *)
Theorem deploy_publishes w e user id b w' :
  store_ok (db w) -> registry.registry_ok (reg w) -> NoDup (order e) -> (forall r, is_Some (registry.runtimes (reg w) !! r) -> r ∈ order e) ->
  deployFlow w e user id b = (w', 201) ->
  exists f ff v text p en,
    flows (db w) !! id = Some f /\ Parse (Content f) = Some ff /\ flowfile.Validate types schemaValid ff = [] /\
    flow_versions (db w) !! (id, v) = None /\
    flow_versions (db w') = <[(id, v) := MkFlowVersion (Content f) (auth.Username user) b.1 (FormatRFC3339 (now e)) (Some (FormatRFC3339 (now e)))]>
                              (flow_versions (db w)) /\
    MarshalCanonical codec ff = Some text /\
    let info content := registry.MkDeployedFlowInfo id v content (default "" (DefaultErrorFlow p)) (targetGroup ff) (LogLevel f) en in
    deployedRow (db w') None (fun _ => true) id = Some (Some (info (Content f))) /\
    forall r rt ch, registry.runtimes (reg w) !! r = Some rt -> registry.deployCh rt = Some ch ->
      (registry.reached (reg w) (gok e) (info text) r rt ->
         last <$> registry.deployChans (reg w') !! ch = Some (Some (registry.cmdOf (info text)))) /\
      (~ registry.reached (reg w) (gok e) (info text) r rt -> registry.deployChans (reg w') !! ch = registry.deployChans (reg w) !! ch).
Proof.
  intros Hs Hreg Hnd Hall Hd. destruct (deployFlow_inv _ _ _ _ _ _ Hs Hd) as (f & ff & en & w1 & f1 & Hf & Hff & Hval & Hpr & Hve & Hrg & _ & Hf1 & Hpid & Hll & Hen & Hp).
  apply publish_spec in Hp as (fl & v & text & p & Hfl & Hnone & _ & Hdb & Htext & Hproj & Hdep & _).
  rewrite Hf1 in Hfl. injection Hfl as <-. rewrite Hrg, Hll in *. rewrite Hve in *. rewrite Hpr, Hpid in *.
  exists f, ff, v, text, p, en. split_and!; [done..|by rewrite Hdb|done|].
  split.
  - apply resolve_stored in Hen as ->.
    rewrite (deployedRow_spec _ _ (with_deployed (now e) v (with_profile (ActiveProfileID f1 ≫= nullableString) f)) v
      (MkFlowVersion (Content f) (auth.Username user) b.1 (FormatRFC3339 (now e)) (Some (FormatRFC3339 (now e)))) p ff).
    + rewrite Hdb. done.
    + rewrite Hdb. cbn. by rewrite lookup_alter_eq, Hf1.
    + done.
    + rewrite Hdb. cbn. by rewrite lookup_insert_eq.
    + by rewrite Hdb.
    + done.
  - intros r rt ch Hr Hc. pose proof (registry.DeployFlow_spec (fun x => x) (reg w) (order e) (gok e) (done e)
      (registry.MkDeployedFlowInfo id v text (default "" (DefaultErrorFlow p)) (targetGroup ff) (LogLevel f) en) Hreg Hnd Hall) as H.
    rewrite Hdep in H. destruct H as [_ H]. destruct (H r rt ch Hr Hc) as (q & Hq & _ & Hno & Hyes). split.
    + intros Hre. rewrite (Hyes eq_refl Hre). cbn. by rewrite last_snoc.
    + intros Hre. by rewrite (Hno Hre), Hq.
Qed.

(** A rollback that answers 201 makes a new version with the old one's content, and a
    draft with that content, and changes no other version. *)
Theorem rollback_restores w e user id v w' : store_ok (db w) -> rollbackFlow w e user id (Some v) = (w', 201) ->
  exists old n x f', flow_versions (db w) !! (id, v) = Some old /\ flow_versions (db w) !! (id, n) = None /\
    flow_versions (db w') = <[(id, n) := x]> (flow_versions (db w)) /\ v_Content x = v_Content old /\ Author x = auth.Username user /\
    flows (db w') !! id = Some f' /\ DeployedVersion f' = Some n /\ Content f' = v_Content old.
Proof.
  intros Hs. unfold rollbackFlow. destruct (flowAndAuthorize w e user id auth.RoleEditor) as [f|st] eqn:Ef.
  2:{ intros [= _ ->]. revert Ef. unfold flowAndAuthorize. destruct (GetFlow _ _ _) as [f|[]|]; try done.
      unfold auth.requireProjectRole. by destruct (auth.RequireProjectRole _ _ _ _ _) as [|[]|]. }
  unfold GetFlowVersion. destruct (ok e 2); [|done]. destruct (flow_versions (db w) !! (id, v)) as [old|] eqn:Eold; [|done].
  unfold UpdateFlowDraft, GetFlow. destruct (ok e 3); [|done]. destruct (flows (db w) !! id) as [fl|] eqn:Efl; [|done].
  destruct (ok e 8); [|done]. cbn. destruct (Parse (v_Content old)) as [ff|]; [|done]. case_decide; [|done].
  destruct (resolveEnvForDeploy _ _ _ _) as [en|]; [|done].
  intros (fl' & n & text & p & Hfl & Hnone & _ & Hdb & _)%publish_spec. cbn in *. rewrite lookup_alter_eq, Efl in Hfl. injection Hfl as <-.
  eexists old, n, _, _. rewrite Hdb. cbn. split_and!; [done|done|done|done|done|by rewrite !lookup_alter_eq, Efl|done|done].
Qed.

(** ** What a request records *)

(** What a request that answers an error may leave behind.  A deploy and a rollback go on after their
    first write, and so does the creation of a project: they may leave changes to the flow and its
    versions, and the project without its administrator. *)
Definition only_flow (w w' : world) (id : string) : Prop :=
  accounts w' = accounts w /\ projects (db w') = projects (db w) /\ environment_profiles (db w') = environment_profiles (db w) /\
  forall i, i <> id -> flows (db w') !! i = flows (db w) !! i /\ forall v, flow_versions (db w') !! (i, v) = flow_versions (db w) !! (i, v).
Definition only_project (w w' : world) (id : string) : Prop :=
  accounts w' = accounts w /\ reg w' = reg w /\ flows (db w') = flows (db w) /\ flow_versions (db w') = flow_versions (db w) /\
  environment_profiles (db w') = environment_profiles (db w) /\ forall i, i <> id -> projects (db w') !! i = projects (db w) !! i.
Definition left_behind (w : world) (r : request) (w' : world) : Prop :=
  match r with
  | RDeploy id _ | RRollback id _ => only_flow w w' id
  | RCreateProject id _ => only_project w w' id
  | _ => w' = w
  end.
Definition subject (r : request) : string :=
  match r with
  | RCreateFlow _ id _ | RUpdateFlow id _ | RDeleteFlow id | RSetLogLevel id _ | RDeploy id _ | RRollback id _ | RCreateProfile _ id _
  | RUpdateProfile id _ | RDeleteProfile id | RCreateProject id _ | RUpdateProject id _ | RDeleteProject id => id
  end.
Definition one_entry (w : world) (e : env) (user : auth.User) (id : string) (w' : world) : Prop :=
  exists a, a_actor a = auth.ID user /\ a_object a = id /\ log w' = log w ++ if ok e 9 then [a] else [].
(** A new version of the flow, with this content, is the one that is marked as deployed. *)
Definition wrote_version (w w' : world) (id content : string) : Prop :=
  exists v x f, flow_versions (db w) !! (id, v) = None /\ flow_versions (db w') !! (id, v) = Some x /\ v_Content x = content /\
    flows (db w') !! id = Some f /\ DeployedVersion f = Some v.
(** What a request that succeeds has done. *)
Definition took_effect (w : world) (user : auth.User) (r : request) (w' : world) : Prop :=
  match r with
  | RCreateFlow p id (Some (n, c)) => flows (db w) !! id = None /\
      exists f, flows (db w') !! id = Some f /\ ProjectID f = p /\ Name f = n /\ Content f = c /\ DeployedVersion f = None
  | RUpdateFlow id (Some (n, c)) => exists f f', flows (db w) !! id = Some f /\ flows (db w') !! id = Some f' /\
      Name f' = default (Name f) n /\ Content f' = default (Content f) c /\ DeployedVersion f' = DeployedVersion f
  | RDeleteFlow id => flows (db w') !! id = None
  | RSetLogLevel id (Some l) => l ∈ validLogLevels /\ LogLevel <$> flows (db w') !! id = Some l
  | RDeploy id _ => exists f, flows (db w) !! id = Some f /\ wrote_version w w' id (Content f)
  | RRollback id (Some v) => exists old, flow_versions (db w) !! (id, v) = Some old /\ wrote_version w w' id (v_Content old)
  | RCreateProfile p id (Some (n, vs)) =>
      exists x, environment_profiles (db w') !! id = Some x /\ e_ProjectID x = p /\ e_Name x = n /\ Values x = vs
  | RUpdateProfile id (Some vs) => Values <$> environment_profiles (db w') !! id = Some vs
  | RDeleteProfile id => environment_profiles (db w') !! id = None
  | RCreateProject id (Some (n, c)) => auth.project_members (accounts w') !! (id, auth.ID user) = Some auth.RoleProjectAdmin /\
      exists x, projects (db w') !! id = Some x /\ p_Name x = n /\ p_Description x = c
  | RUpdateProject id (Some (n, c, _)) => exists x x', projects (db w) !! id = Some x /\ projects (db w') !! id = Some x' /\
      p_Name x' = default (p_Name x) n /\ p_Description x' = default (p_Description x) c
  | RDeleteProject id => projects (db w') !! id = None
  | _ => False
  end.
Definition recorded (w : world) (e : env) (user : auth.User) (r : request) (w' : world) (st : Z) : Prop :=
  (400 <= st /\ log w' = log w /\ left_behind w r w') \/ (st < 400 /\ one_entry w e user (subject r) w' /\ took_effect w user r w').

Lemma role_status w e user p min st : auth.requireProjectRole (accounts w) (ok e 1) user p min = Some st -> 400 <= st.
Proof. unfold auth.requireProjectRole. destruct (auth.RequireProjectRole _ _ _ _ _) as [|[]|]; intros [= <-]; lia. Qed.
Lemma flow_status w e user id min st : flowAndAuthorize w e user id min = inr st -> 400 <= st.
Proof.
  unfold flowAndAuthorize. destruct (GetFlow _ _ _) as [f|[]|]; try (intros [= <-]; lia).
  destruct (auth.requireProjectRole _ _ _ _ _) eqn:E; [|done]. intros [= <-]. by eapply role_status.
Qed.
Lemma profile_status w e user id st : profileAndAuthorize w e user id = inr st -> 400 <= st.
Proof.
  unfold profileAndAuthorize. destruct (GetEnvironmentProfile _ _ _) as [f| |]; try (intros [= <-]; lia).
  destruct (auth.requireProjectRole _ _ _ _ _) eqn:E; [|done]. intros [= <-]. by eapply role_status.
Qed.
Lemma only_flow_refl w id : only_flow w w id.
Proof. by split_and!. Qed.
Lemma only_flow_trans w1 w2 w3 id : only_flow w1 w2 id -> only_flow w2 w3 id -> only_flow w1 w3 id.
Proof.
  intros (A1 & A2 & A3 & A4) (B1 & B2 & B3 & B4). split_and!; [congruence..|]. intros i Hi.
  destruct (A4 i Hi) as [Af Av], (B4 i Hi) as [Bf Bv]. split; [congruence|]. intros v. by rewrite Bv.
Qed.
Lemma only_flow_alter w g id : only_flow w (set_db w (set_flows (db w) (alter g id (flows (db w))))) id.
Proof. split_and!; [done..|]. intros i Hi. cbn. by rewrite lookup_alter_ne. Qed.
Lemma recorded_refused w e user r st : 400 <= st -> recorded w e user r w st.
Proof. left. split_and!; [done..|]. by destruct r. Qed.
Lemma recorded_failed w e user r st : 400 <= st -> recorded w e user r (set_db w (db w)) st.
Proof. replace (set_db w (db w)) with w by (by destruct w). apply recorded_refused. Qed.
Lemma one_entry_audit w w1 e user c o i p : log w1 = log w -> one_entry w e user i (audit w1 (ok e 9) (auth.ID user) c o i p).
Proof. intros Hl. exists (MkAuditCall (auth.ID user) c o i p). split_and!; [done..|]. unfold audit. destruct (ok e 9); cbn; by rewrite ?app_nil_r, Hl. Qed.
Lemma audit_keeps w k a c o i p : db (audit w k a c o i p) = db w /\ accounts (audit w k a c o i p) = accounts w.
Proof. unfold audit. by destruct k. Qed.
Lemma recorded_done w w1 e user r st c o p : st < 400 -> log w1 = log w -> took_effect w user r w1 ->
  recorded w e user r (audit w1 (ok e 9) (auth.ID user) c o (subject r) p) st.
Proof.
  intros Hst Hl He. right. split; [done|]. split; [by apply one_entry_audit|]. unfold took_effect, wrote_version in *.
  destruct (audit_keeps w1 (ok e 9) (auth.ID user) c o (subject r) p) as [-> ->]. exact He.
Qed.
Lemma repushLevel_log w e id l f : log (repushLevel w e id l f) = log w /\ db (repushLevel w e id l f) = db w.
Proof. unfold repushLevel. repeat (case_match; try done). unfold push. by destruct (registry.DeployFlow _ _ _ _ _). Qed.

(** [publish] answers an error, having changed the flow only, or succeeds, has written the draft as a new version, and records it. *)
Definition published (w : world) (e : env) (user : auth.User) (id : string) (w' : world) (st : Z) : Prop :=
  (400 <= st /\ log w' = log w /\ only_flow w w' id) \/
  (st < 400 /\ one_entry w e user id w' /\ exists f, flows (db w) !! id = Some f /\ wrote_version w w' id (Content f)).
Lemma publish_published w e user id f ff en c a : published w e user id (publish w e user id f ff en c a).1 (publish w e user id f ff en c a).2.
Proof.
  unfold publish, CreateDeployedVersion. destruct (GetFlow _ _ _) as [fl| |] eqn:Ef; [|left; by split_and!..].
  destruct (ok e 6 && _) eqn:Ev; [|left; by split_and!]. apply andb_prop in Ev as [_ Hv%bool_decide_eq_true].
  set (w1 := set_db w _). assert (only_flow w w1 id) as Hw1.
  { split_and!; [done..|]. intros i Hi. unfold w1. cbn. rewrite lookup_alter_ne by congruence. split; [done|]. intros v. by rewrite lookup_insert_ne by congruence. }
  destruct (MarshalCanonical codec ff) as [text|]; [|by left; split_and!]. destruct (GetProject _ _ _) as [p| |]; [|by left; split_and!..].
  unfold push. destruct (registry.DeployFlow _ _ _ _ _) as [s [| |]]; cbn [fst snd].
  - right. split; [done|]. split; [by apply one_entry_audit|]. unfold GetFlow in Ef. destruct (ok e 5); [|done].
    destruct (flows (db w) !! id) as [fl'|] eqn:Efl; [|done]. injection Ef as ->. exists fl. split; [done|].
    unfold wrote_version. destruct (audit_keeps (set_reg w1 s) (ok e 9) (auth.ID user) a "flow" id (ProjectID f)) as [-> _].
    eexists _, _, _. split; [exact Hv|]. cbn. rewrite lookup_insert_eq, lookup_alter_eq, Efl. by split_and!.
  - by left; split_and!.
  - by left; split_and!.
Qed.
(** What was written before [publish] concerns the flow as well. *)
Lemma publish_recorded w w1 e user r id f ff en c a : subject r = id -> (forall w', only_flow w w' id -> left_behind w r w') -> only_flow w w1 id -> log w1 = log w ->
  (forall w' g, flows (db w1) !! id = Some g -> wrote_version w1 w' id (Content g) -> took_effect w user r w') ->
  let '(w', st) := publish w1 e user id f ff en c a in recorded w e user r w' st.
Proof.
  intros Hid Hr Hw1 Hl He. pose proof (publish_published w1 e user id f ff en c a) as H. destruct (publish _ _ _ _ _ _ _ _ _) as [w' st].
  cbn [fst snd] in H. destruct H as [(Hst & Hlog & Ho)|(Hst & (x & Hx & Hi & Hlog) & g & Hg & Hv)].
  - left. split_and!; [done|congruence|]. apply Hr. by eapply only_flow_trans.
  - right. split; [done|]. split; [exists x; by rewrite Hlog, Hl, Hid|]. by eapply He.
Qed.
Lemma recorded_left w e user r w' id st : (forall x, only_flow w x id -> left_behind w r x) -> 400 <= st -> log w' = log w -> only_flow w w' id -> recorded w e user r w' st.
Proof. intros Hr Hst Hl Ho. left. split_and!; [done..|]. by apply Hr. Qed.

Ltac rec := first [apply recorded_refused; first [done|by eapply role_status|by eapply flow_status|by eapply profile_status]
                  |apply recorded_failed; done].
(** A request that has done its work. *)
Ltac rec_done := apply recorded_done; [done|done|].
Lemma flowAndAuthorize_flow w e user id min f : flowAndAuthorize w e user id min = inl f -> flows (db w) !! id = Some f.
Proof.
  unfold flowAndAuthorize, GetFlow. destruct (ok e 0); [|done]. destruct (flows (db w) !! id); [|done].
  destruct (auth.requireProjectRole _ _ _ _ _); [done|]. by intros [= ->].
Qed.

Lemma deploy_recorded w e user id b : let '(w', st) := deployFlow w e user id b in recorded w e user (RDeploy id b) w' st.
Proof.
  unfold deployFlow, deployFlow_check. destruct (flowAndAuthorize _ _ _ _ _) as [f|] eqn:E; [|rec].
  destruct (Parse _) as [ff|]; [|rec]. case_decide; [|rec]. unfold deployFlow_publish. destruct b as [c [pid|]].
  - unfold SetFlowActiveProfile. destruct (ok e 2); [|rec]. cbn [set_db]. destruct (resolveEnvForDeploy _ _ _ _).
    + apply publish_recorded; [done|done|apply only_flow_alter|done|]. cbn. rewrite lookup_alter_eq, (flowAndAuthorize_flow _ _ _ _ _ _ E).
      intros w' y [= <-] Hw. exists f. split; [done|]. exact Hw.
    + by apply (recorded_left _ _ _ _ _ id); [| | |apply only_flow_alter].
  - destruct (resolveEnvForDeploy _ _ _ _); [|rec]. apply publish_recorded; [done|done|apply only_flow_refl|done|]. intros w' y Hy Hw. by exists y.
Qed.
Lemma rollback_recorded w e user id v : let '(w', st) := rollbackFlow w e user id v in recorded w e user (RRollback id v) w' st.
Proof.
  unfold rollbackFlow. destruct (flowAndAuthorize _ _ _ _ _) as [f|] eqn:E; [|rec]. destruct v as [v|]; [|rec].
  destruct (GetFlowVersion _ _ _ _) as [old|[]|] eqn:Eo; [|rec..]. unfold UpdateFlowDraft. destruct (GetFlow _ _ _) as [fl| |]; [|rec..].
  destruct (ok e 8); [|rec]. set (w1 := set_db w _). assert (only_flow w w1 id) by apply only_flow_alter.
  destruct (Parse _) as [ff|]; [|by apply (recorded_left _ _ _ _ _ id)]. case_decide; [|by apply (recorded_left _ _ _ _ _ id)].
  destruct (resolveEnvForDeploy _ _ _ _); [|by apply (recorded_left _ _ _ _ _ id)].
  apply publish_recorded; [done..|]. cbn. rewrite lookup_alter_eq, (flowAndAuthorize_flow _ _ _ _ _ _ E). intros w' y [= <-] Hw.
  exists old. split; [|exact Hw]. unfold GetFlowVersion in Eo. destruct (ok e 2); [|done]. destruct (flow_versions (db w) !! (id, v)); [|done]. by injection Eo as ->.
Qed.
Lemma createProject_recorded w e user id b : let '(w', st) := createProject w e user id b in recorded w e user (RCreateProject id b) w' st.
Proof.
  unfold createProject. destruct b as [[n c]|]; [|rec]. case_decide; [rec|]. unfold CreateProject. destruct (_ && _); [|rec].
  unfold auth.SetProjectRole. destruct (ok e 3); [rec_done; cbn; rewrite !lookup_insert_eq; split; [done|]; by eexists|]. left. split_and!; [done|done|]. split_and!; try done.
  intros i Hi. cbn. by rewrite lookup_insert_ne by congruence.
Qed.

End handlers.

(** ** Examples *)
Module examples.

(** A flow file with a variable, in two texts: one as drafted, one canonical. *)
Definition ff (id : string) (env : list flowfile.EnvVar) : flowfile.FlowFile :=
  flowfile.MkFlowFile 1 "flow" id "Press" "" "streaming" false None (flowfile.MkSettings "" false None "" None) env (flowfile.MkGraph [] []) None None.
Definition ffA : flowfile.FlowFile := ff "A" [flowfile.MkEnvVar "url" "string" None].
Definition ffB : flowfile.FlowFile := ff "B" [].
Definition ffBad : flowfile.FlowFile := flowfile.MkFlowFile 1 "flow" "bad" "" "" "" false None (flowfile.MkSettings "" false None "" None) [] (flowfile.MkGraph [] []) None None.
Definition Parse0 (s : string) : option flowfile.FlowFile :=
  if decide (s = "a" \/ s = "A") then Some ffA else if decide (s = "b" \/ s = "B") then Some ffB else if decide (s = "bad") then Some ffBad else None.
Definition marshal0 (f : flowfile.FlowFile) : option string :=
  if decide (f = ffA) then Some "A" else if decide (f = ffB) then Some "B" else None.
(** A codec whose encoder writes the text it decoded, and the newline. *)
Definition codec0 : jsonCodec := MkCodec string marshal0 Some (fun s => Some (s +:+ String newline "")).

Definition admin : auth.User := auth.MkUser "u0" "root" auth.SystemRoleAdmin "" 0.
Definition e0 : env := MkEnv (fun _ => true) 0 ["r1"] (fun _ => true) (fun _ => false).
Definition reg0 : registry.Service :=
  Eval vm_compute in (registry.run (fun x => x) (registry.NewService None None)
    [registry.ORegister true true true true 1 "t1" "r1" false "1.0" ""; registry.OOpenDeploy "r1" "t1"]).1.
Definition w0 : world := MkWorld emptyDB auth.emptyDB reg0 [].
Definition requests (w : world) (l : list request) : world := run Parse0 codec0 (fun s => s) ∅ (fun _ _ => true) w (map (EvRequest e0 admin) l).
Definition setup : list request :=
  [RCreateProject "p" (Some ("Plant", "")); RCreateFlow "p" "f" (Some ("Press", "a")); RCreateProfile "p" "dev" (Some ("dev", {["url" := "http://dev"]}))].
Definition w1 : world := requests w0 setup.
Definition deploy (w : world) (e : env) (b : string * option string) : world * Z :=
  deployFlow Parse0 codec0 (fun s => s) ∅ (fun _ _ => true) w e admin "f" b.

Definition w2 : world := (deploy w1 e0 ("first", Some "dev")).1.

Lemma requests_ok l : store_ok (db (requests w0 l)).
Proof.
  unfold requests. apply run_store_ok; [|exact emptyDB_ok]. apply Forall_map, Forall_true. done.
Qed.
Lemma reg0_ok : registry.registry_ok reg0.
Proof.
  replace reg0 with (registry.run (fun x => x) (registry.NewService None None)
    [registry.ORegister true true true true 1 "t1" "r1" false "1.0" ""; registry.OOpenDeploy "r1" "t1"]).1 by (vm_compute; reflexivity).
  apply registry.run_registry_ok; [repeat constructor|apply registry.NewService_ok].
Qed.
Lemma reg0_runtimes r : is_Some (registry.runtimes reg0 !! r) -> r ∈ ["r1"].
Proof.
  replace (registry.runtimes reg0) with ({["r1" := registry.MkRuntimeState false "1.0" "t1" 1 (Some 0%nat) None 0 0 []]} : gmap string registry.runtimeState)
    by (vm_compute; reflexivity).
  intros [x [<- _]%lookup_singleton_Some]. by left.
Qed.

Lemma deploy_publishes_witness : (deploy w1 e0 ("first", Some "dev")).2 = 201 /\
  exists v, flow_versions (db w1) !! ("f", v) = None /\ v_Content <$> flow_versions (db w2) !! ("f", v) = Some "a".
Proof.
  split; [vm_compute; reflexivity|].
  destruct (deploy_publishes Parse0 codec0 (fun s => s) ∅ (fun _ _ => true) w1 e0 admin "f" ("first", Some "dev") w2)
    as (f & ff' & v & text & p & en & Hf & _ & _ & Hnone & Hv & _).
  - exact (requests_ok setup).
  - exact reg0_ok.
  - apply NoDup_singleton.
  - exact reg0_runtimes.
  - vm_compute. reflexivity.
  - exists v. split; [exact Hnone|]. rewrite Hv, lookup_insert_eq. vm_compute in Hf. injection Hf as <-. reflexivity.
Defined.

Definition steps3 : list request :=
  setup ++ [RDeploy "f" ("first", Some "dev"); RUpdateFlow "f" (Some (None, Some "b")); RDeploy "f" ("second", None)].
Definition w3 : world := requests w0 steps3.
Definition rollback (w : world) (v : Z) : world * Z := rollbackFlow Parse0 codec0 (fun s => s) ∅ (fun _ _ => true) w e0 admin "f" (Some v).
Lemma rollback_restores_witness : exists n x, flow_versions (db (rollback w3 1).1) !! ("f", n) = Some x /\ v_Content x = "a".
Proof.
  destruct (rollback_restores Parse0 codec0 (fun s => s) ∅ (fun _ _ => true) w3 e0 admin "f" 1 (rollback w3 1).1)
    as (old & n & x & f' & Hold & _ & Hv & Hc & _).
  - exact (requests_ok steps3).
  - vm_compute. reflexivity.
  - exists n, x. rewrite Hv, lookup_insert_eq. split; [reflexivity|]. rewrite Hc. vm_compute in Hold. injection Hold as <-. reflexivity.
Defined.

Lemma versions_immutable_witness :
  v_Content <$> flow_versions (db (run Parse0 codec0 (fun s => s) ∅ (fun _ _ => true) w0
    (map (EvRequest e0 admin) (setup ++ [RDeploy "f" ("first", Some "dev")]) ++ [EvRequest e0 admin (RDeleteFlow "f")]))) !! ("f", 1) = Some "a".
Proof.
  destruct (versions_immutable Parse0 codec0 (fun s => s) ∅ (fun _ _ => true) w0
    (map (EvRequest e0 admin) (setup ++ [RDeploy "f" ("first", Some "dev")])) [EvRequest e0 admin (RDeleteFlow "f")] eq_refl) as [H _].
  rewrite (H ltac:(by repeat constructor) "f" 1 (MkFlowVersion "a" "root" "first" 0 (Some 0))); [reflexivity|]. vm_compute. reflexivity.
Defined.

(** Without a runtime a deploy is refused with 409; its version is stored and marked as
    deployed all the same, the next runtime gets it, and the audit log does not mention it. *)
Definition e1 : env := MkEnv (fun _ => true) 0 [] (fun _ => true) (fun _ => false).
Lemma refused_deploy_stays :
  let '(w', st) := deploy w1 e1 ("first", Some "dev") in
  st = 409 /\ (f ← flows (db w') !! "f"; DeployedVersion f) = Some 1 /\ log w' = log w1 /\
  registry.Version <$> (deployedRow Parse0 (fun s => s) (db w') None (fun _ => true) "f" ≫= fun x => x) = Some 1.
Proof. vm_compute. split_and!; reflexivity. Qed.

(** The draft changes between the check and the snapshot: the stored version is one that was
    never validated, and not what the runtime got. *)
Lemma deploy_snapshots_other_draft :
  match deployFlow_check Parse0 ∅ (fun _ _ => true) w1 e0 admin "f" with
  | inl (f, ff) =>
      let w' := requests w1 [RUpdateFlow "f" (Some (None, Some "bad"))] in
      let '(w'', st) := deployFlow_publish codec0 (fun s => s) w' e0 admin "f" f ff ("first", Some "dev") in
      st = 201 /\ v_Content <$> flow_versions (db w'') !! ("f", 1) = Some "bad" /\
      (map registry.c_FlowJson <$> registry.deployChans (reg w'') !! 0%nat) = Some ["A"]
  | inr _ => False
  end.
Proof. vm_compute. split_and!; reflexivity. Qed.

(** With the single connection of SQLite, a connecting runtime waits for ever once a deployed
    flow has a profile. *)
Lemma single_connection_hangs : ListDeployedFlows Parse0 (fun s => s) (db w2) (Some 1%nat) true (fun _ => true) ["f"] = None.
Proof. vm_compute. reflexivity. Qed.

(** A deleted flow keeps running: nothing is sent to the runtimes. *)
Lemma delete_does_not_stop : reg (requests w2 [RDeleteFlow "f"]) = reg w2 /\ flows (db (requests w2 [RDeleteFlow "f"])) !! "f" = None.
Proof. vm_compute. split; reflexivity. Qed.

(** The three exceptions of an error: a rollback to a version that no longer validates answers 400 with the
    draft replaced, and a project whose creator could not be made its administrator stays. *)
Definition steps4 : list request := setup ++ [RDeploy "f" ("first", Some "dev"); RUpdateFlow "f" (Some (None, Some "b")); RDeleteProfile "dev"].
Lemma refused_rollback_replaces_draft :
  let w := requests w0 steps4 in
  (rollback w 1).2 = 400 /\ Content <$> flows (db w) !! "f" = Some "b" /\ Content <$> flows (db (rollback w 1).1) !! "f" = Some "a".
Proof. vm_compute. split_and!; reflexivity. Qed.
Lemma refused_project_stays :
  let e := MkEnv (fun k => bool_decide (k <> 3%nat)) 0 [] (fun _ => true) (fun _ => false) in
  let '(w', st) := createProject w0 e admin "p" (Some ("Plant", "")) in st = 500 /\ is_Some (projects (db w') !! "p") /\ log w' = [].
Proof. vm_compute. split_and!; [done|by eexists|done]. Qed.
End examples.
End flowstore.
