(* ===== verification/Convert.v ===== *)
(** * The convert node: binary records, character encodings and base64
      ([engine/nodes/convert])

    [New], [Process] and every mode of [convert]: binary records with their byte order and
    overlapping fields, Latin-1 and UTF-8, base64, CSV rows to records and back, XML elements to
    values and back.  The lines of a CSV text, the tokens and the escaping of XML, gzip, JSON
    text and the text of a value ([fmt.Sprint]) are arguments.  Strings are Go strings: bytes. *)

From Stdlib Require Import SpecFloat.
From S2P Require Import Prelude Bytes GoStd Float Datagram Execution Value.
Import gostd float datagram execution value.
Local Open Scope Z_scope.

Module convert.

Record Field := MkField { Name : string; Offset : Z; Length : Z; Type_ : string; Endianness : string }.

(** ** Binary records *)

Definition getUint (f : Field) (b : bytes) : Z := if decide (Endianness f = "little") then le_get b else be_get b.
Definition putUint (f : Field) (n : nat) (v : Z) : bytes := if decide (Endianness f = "little") then le_put n v else be_put n v.

Definition fieldSize (f : Field) : res string Z :=
  if decide (Type_ f = "uint8" \/ Type_ f = "int8") then Ok 1
  else if decide (Type_ f = "uint16" \/ Type_ f = "int16") then Ok 2
  else if decide (Type_ f = "uint32" \/ Type_ f = "int32" \/ Type_ f = "float32") then Ok 4
  else if decide (Type_ f = "uint64" \/ Type_ f = "int64" \/ Type_ f = "float64") then Ok 8
  else if decide (Type_ f = "string") then (if Length f <=? 0 then Err "length is required" else Ok (Length f))
  else Err "unknown type".

(** [data[lo:hi]] *)
Definition slice (data : bytes) (lo hi : Z) : res string bytes :=
  if bool_decide (0 <= lo <= hi /\ hi <= zlen data) then Ok (take (Z.to_nat (hi - lo)) (drop (Z.to_nat lo) data)) else Panic.

Definition parseChunk (f : Field) (chunk : bytes) : option any :=
  if decide (Type_ f = "uint8") then Some (AFloat (of_Z (be_get chunk)))
  else if decide (Type_ f = "int8") then Some (AFloat (of_Z (s8 (be_get chunk))))
  else if decide (Type_ f = "uint16") then Some (AFloat (of_Z (getUint f chunk)))
  else if decide (Type_ f = "int16") then Some (AFloat (of_Z (s16 (getUint f chunk))))
  else if decide (Type_ f = "uint32") then Some (AFloat (of_Z (getUint f chunk)))
  else if decide (Type_ f = "int32") then Some (AFloat (of_Z (s32 (getUint f chunk))))
  else if decide (Type_ f = "uint64") then Some (AFloat (of_Z (getUint f chunk)))
  else if decide (Type_ f = "int64") then Some (AFloat (of_Z (s64 (getUint f chunk))))
  else if decide (Type_ f = "float32") then Some (AFloat (of_float32 (Float32frombits (getUint f chunk))))
  else if decide (Type_ f = "float64") then Some (AFloat (Float64frombits (getUint f chunk)))
  else if decide (Type_ f = "string") then Some (AStr (string_of_bytes chunk))
  else None.
Definition parseField (data : bytes) (f : Field) : res string any :=
  size ← fieldSize f;
  if (Offset f <? 0) || (zlen data <? s64 (Offset f + size)) then Err "field exceeds payload length"
  else
    chunk ← slice data (Offset f) (s64 (Offset f + size));
    match parseChunk f chunk with Some v => Ok v | None => Err "unreachable" end.
Fixpoint parseFields (data : bytes) (fields : list Field) (out : list (string * any)) : res string (list (string * any)) :=
  match fields with
  | [] => Ok out
  | f :: l => v ← parseField data f; parseFields data l (mset out (Name f) v)
  end.
Definition binaryParse (b64 : string) (fields : list Field) : res string (list (string * any)) :=
  match DecodeString (bytes_of_string b64) with
  | None => Err "binaryParse: invalid base64"
  | Some data => parseFields data fields []
  end.

(** The bytes of a field's value; a string fills its chunk from the left and leaves the rest. *)
Definition fieldBytes (f : Field) (size : Z) (v : any) : res string bytes :=
  if decide (Type_ f = "string") then
    match v with AStr s => Ok (take (Z.to_nat size) (bytes_of_string s)) | _ => Err "expected a string value" end
  else
    match toFloat v with
    | None => Err "expected a numeric value"
    | Some n =>
        if decide (Type_ f = "uint8" \/ Type_ f = "int8") then Ok [u8 (to_int64 n)]
        else if decide (Type_ f = "uint16" \/ Type_ f = "int16") then Ok (putUint f 2 (to_int64 n))
        else if decide (Type_ f = "uint32" \/ Type_ f = "int32") then Ok (putUint f 4 (to_int64 n))
        else if decide (Type_ f = "uint64" \/ Type_ f = "int64") then Ok (putUint f 8 (to_int64 n))
        else if decide (Type_ f = "float32") then Ok (putUint f 4 (Float32bits (to_float32 n)))
        else Ok (putUint f 8 (Float64bits n))
    end.
(** Bytes written at an offset. *)
Definition write (data : bytes) (off : nat) (b : bytes) : bytes := take off data ++ b ++ drop (off + length b) data.

Fixpoint totalSize (fields : list Field) (total : Z) : res string Z :=
  match fields with
  | [] => Ok total
  | f :: l => size ← fieldSize f; totalSize l (if total <? s64 (Offset f + size) then s64 (Offset f + size) else total)
  end.
Fixpoint writeFields (data : bytes) (values : list (string * any)) (fields : list Field) : res string bytes :=
  match fields with
  | [] => Ok data
  | f :: l =>
      size ← fieldSize f;
      match mget values (Name f) with
      | None => Err "missing from payload"
      | Some v =>
          _ ← slice data (Offset f) (s64 (Offset f + size));
          b ← fieldBytes f size v;
          writeFields (write data (Z.to_nat (Offset f)) b) values l
      end
  end.
Definition binarySerialize (values : list (string * any)) (fields : list Field) : res string string :=
  total ← totalSize fields 0;
  data ← writeFields (repeat 0 (Z.to_nat total)) values fields;
  Ok (string_of_bytes (EncodeToString data)).

(** ** Character encodings *)

(** [string(rune)] of a code point below 256. *)
Definition encodeLatin1Rune (r : Z) : bytes := if r <? 128 then [r] else [Z.lor 192 (Z.shiftr r 6); Z.lor 128 (Z.land r 63)].
Definition latin1ToUTF8 (s : bytes) : bytes := concat (map encodeLatin1Rune s).

(** One step of a [range] over a string: the rune and its width; bytes that are no UTF-8 give
    U+FFFD and width 1. *)
Definition cont (b : Z) : bool := (128 <=? b) && (b <=? 191).
Definition between (lo hi b : Z) : bool := (lo <=? b) && (b <=? hi).
Definition decodeRune (b0 : Z) (rest : bytes) : Z * nat :=
  let bad := (65533, 1%nat) in
  if b0 <? 128 then (b0, 1%nat)
  else if between 194 223 b0 then
    match rest with
    | b1 :: _ => if cont b1 then (Z.lor (Z.shiftl (Z.land b0 31) 6) (Z.land b1 63), 2%nat) else bad
    | _ => bad
    end
  else if between 224 239 b0 then
    match rest with
    | b1 :: b2 :: _ =>
        let lo := if b0 =? 224 then 160 else 128 in
        let hi := if b0 =? 237 then 159 else 191 in
        if between lo hi b1 && cont b2 then
          (Z.lor (Z.shiftl (Z.land b0 15) 12) (Z.lor (Z.shiftl (Z.land b1 63) 6) (Z.land b2 63)), 3%nat)
        else bad
    | _ => bad
    end
  else if between 240 244 b0 then
    match rest with
    | b1 :: b2 :: b3 :: _ =>
        let lo := if b0 =? 240 then 144 else 128 in
        let hi := if b0 =? 244 then 143 else 191 in
        if between lo hi b1 && cont b2 && cont b3 then
          (Z.lor (Z.shiftl (Z.land b0 7) 18)
             (Z.lor (Z.shiftl (Z.land b1 63) 12) (Z.lor (Z.shiftl (Z.land b2 63) 6) (Z.land b3 63))), 4%nat)
        else bad
    | _ => bad
    end
  else bad.
Fixpoint runes (fuel : nat) (s : bytes) : list Z :=
  match fuel, s with
  | S k, b0 :: rest => let '(r, w) := decodeRune b0 rest in r :: runes k (drop w s)
  | _, _ => []
  end.
Definition utf8ToLatin1 (s : bytes) : res string bytes :=
  let rs := runes (length s) s in
  let out := filter (fun r => r <= 255) rs in
  if (length out =? length rs)%nat then Ok out else Err "characters have no Latin-1 representation".
Definition convertEncoding (s : string) (from to : string) : res string string :=
  if decide (from = to) then Ok s
  else if decide (from = "utf8" /\ to = "latin1") then string_of_bytes <$> utf8ToLatin1 (bytes_of_string s)
  else if decide (from = "latin1" /\ to = "utf8") then Ok (string_of_bytes (latin1ToUTF8 (bytes_of_string s)))
  else Err "unsupported conversion".

(** ** The node *)

Record CSVConfig := MkCSVConfig { Delimiter : string; HasHeader : option bool }.
Record EncodingConfig := MkEncodingConfig { From : string; To : string }.
Record Config := MkConfig {
  Mode : string; RootElement : string; ItemElement : string; CSV : CSVConfig; Encoding : option EncodingConfig; Fields : list Field
}.
Definition validModes : list string :=
  ["json2xml"; "xml2json"; "csv2json"; "json2csv"; "base64encode"; "base64decode"; "gzipCompress"; "gzipDecompress"; "encodingConvert";
   "binaryParse"; "binarySerialize"].
Definition orDefault (s d : string) : string := if decide (s = "") then d else s.
Definition New (cfg : Config) : res string Config :=
  if decide (Mode cfg ∉ validModes) then Err "convert: unknown mode"
  else if decide (Mode cfg = "encodingConvert") then
    match Encoding cfg with
    | Some e => if decide (From e = "" \/ To e = "") then Err "convert: encoding.from and encoding.to are required"
                else Ok (MkConfig (Mode cfg) (orDefault (RootElement cfg) "root") (orDefault (ItemElement cfg) "item")
                           (MkCSVConfig (orDefault (Delimiter (CSV cfg)) ",") (HasHeader (CSV cfg))) (Encoding cfg) (Fields cfg))
    | None => Err "convert: encoding.from and encoding.to are required"
    end
  else if decide ((Mode cfg = "binaryParse" \/ Mode cfg = "binarySerialize") /\ Fields cfg = []) then Err "convert: fields is required"
  else Ok (MkConfig (Mode cfg) (orDefault (RootElement cfg) "root") (orDefault (ItemElement cfg) "item")
             (MkCSVConfig (orDefault (Delimiter (CSV cfg)) ",") (HasHeader (CSV cfg))) (Encoding cfg) (Fields cfg)).

(** What [xml.Decoder.Token] returns; comments, directives and instructions are [TOther]. *)
Inductive token := TStart (name : string) | TEnd | TText (s : string) | TOther.

Section node.
(** The lines of a CSV text and back (for a delimiter), [strconv.ParseFloat], [fmt.Sprint],
    [strings.TrimSpace], the escaping of XML text, the tokens of an XML text up to the first error or its end, gzip, and
    [json.Marshal]. *)
Context (readAll : string -> string -> option (list (list string))) (writeAll : string -> list (list string) -> option string)
        (ParseFloat : string -> option float64) (Sprint : any -> string) (TrimSpace : string -> string)
        (EscapeText : string -> string) (tokens : string -> list token)
        (gzip gunzip : bytes -> option bytes) (Marshal : any -> option string).

Definition csvHasHeader (c : CSVConfig) : bool := default true (HasHeader c).
(** The first character (of an ASCII delimiter). *)
Definition csvDelimiter (c : CSVConfig) : string := if decide (Delimiter c = "") then "," else String.substring 0 1 (Delimiter c).
Definition csvCellValue (s : string) : any := match ParseFloat s with Some f => AFloat f | None => AStr s end.
Fixpoint csvRecord (header row : list string) (out : list (string * any)) : list (string * any) :=
  match header with
  | [] => out
  | col :: header' =>
      match row with
      | cell :: row' => csvRecord header' row' (mset out col (csvCellValue cell))
      | [] => csvRecord header' [] (mset out col ANil)
      end
  end.
Definition csvToJSON (raw : string) (c : CSVConfig) : res string any :=
  match readAll (csvDelimiter c) raw with
  | None => Err "csv2json"
  | Some [] => Ok (AArr [])
  | Some (header :: rows) =>
      if csvHasHeader c then Ok (AArr (map (fun row => AMap (csvRecord header row [])) rows))
      else Ok (AArr (map (fun row => AArr (map csvCellValue row)) (header :: rows)))
  end.

(** The union of the keys of the objects, sorted. *)
Definition csvColumnUnion (arr : list any) : list string :=
  sortStrings (remove_dups (concat (map (fun v => match v with AMap m => map fst m | _ => [] end) arr))).
Definition csvObjectRow (columns : list string) (v : any) : res string (list string) :=
  match v with
  | AMap m => Ok (map (fun col => Sprint (default ANil (mget m col))) columns)
  | _ => Err "json2csv: mixed array element types are not supported"
  end.
Definition csvArrayRow (v : any) : res string (list string) :=
  match v with AArr cells => Ok (map Sprint cells) | _ => Err "json2csv: array elements must all be objects or all be arrays" end.
Definition jsonToCSV (v : any) (c : CSVConfig) : res string string :=
  match v with
  | AArr arr =>
      rows ← match arr with
             | [] => Ok []
             | AMap _ :: _ =>
                 let columns := csvColumnUnion arr in
                 rows ← res_mapM (csvObjectRow columns) arr;
                 Ok (if csvHasHeader c then columns :: rows else rows)
             | _ => res_mapM csvArrayRow arr
             end;
      match writeAll (csvDelimiter c) rows with Some s => Ok s | None => Err "csv" end
  | _ => Err "json2csv: payload must be an array"
  end.

(** *** XML: elements without attributes *)

Definition dquote : string := String (Ascii.ascii_of_nat 34) EmptyString.
Definition newline : string := String (Ascii.ascii_of_nat 10) EmptyString.
Definition xmlHeader : string := "<?xml version=" +:+ dquote +:+ "1.0" +:+ dquote +:+ " encoding=" +:+ dquote +:+ "UTF-8" +:+ dquote +:+ "?>" +:+ newline.
Definition xmlEscape (s : string) : string := EscapeText s.
(** The members of an object are written in the order of their keys. *)
Fixpoint writeXMLElement (name : string) (value : any) : string :=
  match value with
  | AMap m =>
      "<" +:+ name +:+ ">" +:+
      String.concat "" (map snd (sortBy fst (map (fun '(k, x) => (k, writeXMLElement k x)) m))) +:+ "</" +:+ name +:+ ">"
  | AArr l => String.concat "" (map (writeXMLElement name) l)
  | ANil => "<" +:+ name +:+ "/>"
  | _ => "<" +:+ name +:+ ">" +:+ xmlEscape (Sprint value) +:+ "</" +:+ name +:+ ">"
  end.
Definition jsonToXML (root item : string) (value : any) : string :=
  xmlHeader +:+
  match value with
  | AArr arr => "<" +:+ root +:+ ">" +:+ String.concat "" (map (writeXMLElement item) arr) +:+ "</" +:+ root +:+ ">"
  | _ => writeXMLElement root value
  end.

Definition ParseBool (s : string) : option bool :=
  if decide (s ∈ ["1"; "t"; "T"; "TRUE"; "true"; "True"]) then Some true
  else if decide (s ∈ ["0"; "f"; "F"; "FALSE"; "false"; "False"]) then Some false else None.
Definition parseScalar (s : string) : any :=
  if decide (s = "") then ANil
  else match ParseFloat s with
       | Some f => AFloat f
       | None => match ParseBool s with Some b => ABool b | None => AStr s end
       end.
(** [children[name] = append(children[name], child)] *)
Fixpoint addChild (children : list (string * list any)) (name : string) (child : any) : list (string * list any) :=
  match children with
  | [] => [(name, [child])]
  | (k, l) :: children' => if decide (k = name) then (k, l ++ [child]) :: children' else (k, l) :: addChild children' name child
  end.
Definition element (children : list (string * list any)) : any :=
  AMap (map (fun '(name, values) => (name, match values with [v] => v | _ => AArr values end)) children).
(** The tokens of one element after its start; [None] is the end of the fuel. *)
Fixpoint parseXMLElement (fuel : nat) (toks : list token) (children : list (string * list any)) (text : string) (hasChildren : bool)
  : option (res string (any * list token)) :=
  match fuel with
  | O => None
  | S k =>
      match toks with
      | [] => Some (Err "xml2json")
      | TStart name :: toks' =>
          match parseXMLElement k toks' [] "" false with
          | Some (Ok (child, rest)) => parseXMLElement k rest (addChild children name child) text true
          | r => r
          end
      | TText t :: toks' => parseXMLElement k toks' children (text +:+ t) hasChildren
      | TOther :: toks' => parseXMLElement k toks' children text hasChildren
      | TEnd :: toks' =>
          Some (Ok (if hasChildren then element children else parseScalar (TrimSpace text), toks'))
      end
  end.
(** Tokens before the first element are skipped, and what follows it is not read. *)
Fixpoint parseDocument (toks : list token) : res string any :=
  match toks with
  | [] => Err "xml2json"
  | TStart _ :: toks' =>
      match parseXMLElement (S (length toks')) toks' [] "" false with
      | Some (Ok (v, _)) => Ok v
      | Some (Err e) => Err e
      | Some Panic | None => Panic
      end
  | _ :: toks' => parseDocument toks'
  end.
(** Every element ends with its tokens: the fuel is never used up. *)
Lemma parseXMLElement_total fuel : forall toks children text h, (length toks < fuel)%nat ->
  (exists e, parseXMLElement fuel toks children text h = Some (Err e)) \/
  exists v rest, parseXMLElement fuel toks children text h = Some (Ok (v, rest)) /\ (length rest < length toks)%nat.
Proof.
  induction fuel as [|k IH]; intros toks children text h Hk; [lia|]. destruct toks as [|[name| |t|] toks]; cbn [parseXMLElement length] in *.
  - eauto.
  - destruct (IH toks [] "" false ltac:(lia)) as [(e & ->)|(v & rest & -> & Hl)]; [eauto|].
    destruct (IH rest (addChild children name v) text true ltac:(lia)) as [(e & ->)|(v' & rest' & -> & Hl')]; [eauto|].
    right. do 2 eexists. split; [done|lia].
  - right. do 2 eexists. split; [done|lia].
  - destruct (IH toks children (text +:+ t) h ltac:(lia)) as [(e & ->)|(v & rest & -> & Hl)]; [eauto|]. right. do 2 eexists. split; [done|lia].
  - destruct (IH toks children text h ltac:(lia)) as [(e & ->)|(v & rest & -> & Hl)]; [eauto|]. right. do 2 eexists. split; [done|lia].
Qed.
Lemma parseDocument_total toks : parseDocument toks <> Panic.
Proof.
  induction toks as [|[name| |t|] toks IH]; cbn [parseDocument]; [done| |done..].
  by destruct (parseXMLElement_total (S (length toks)) toks [] "" false ltac:(lia)) as [(e & ->)|(v & rest & -> & _)].
Qed.
Definition XMLToJSON (raw : string) : res string any := parseDocument (tokens raw).

Definition gzipCompress (s : string) : res string string :=
  match gzip (bytes_of_string s) with Some b => Ok (string_of_bytes (EncodeToString b)) | None => Err "gzip" end.
Definition gzipDecompress (b64 : string) : res string string :=
  match DecodeString (bytes_of_string b64) with
  | None => Err "gzip: invalid base64"
  | Some raw => match gunzip raw with Some b => Ok (string_of_bytes b) | None => Err "gzip" end
  end.
Definition str (v : any) : res string string := match v with AStr s => Ok s | _ => Err "payload must be a string" end.

Definition convert (cfg : Config) (v : any) : res string any :=
  let m := Mode cfg in
  if decide (m = "json2xml") then Ok (AStr (jsonToXML (RootElement cfg) (ItemElement cfg) v))
  else if decide (m = "xml2json") then s ← str v; XMLToJSON s
  else if decide (m = "csv2json") then s ← str v; csvToJSON s (CSV cfg)
  else if decide (m = "json2csv") then AStr <$> jsonToCSV v (CSV cfg)
  else if decide (m = "base64encode") then s ← str v; Ok (AStr (string_of_bytes (EncodeToString (bytes_of_string s))))
  else if decide (m = "base64decode") then
    s ← str v; match DecodeString (bytes_of_string s) with Some b => Ok (AStr (string_of_bytes b)) | None => Err "base64decode" end
  else if decide (m = "gzipCompress") then
    match v with
    | AStr s => AStr <$> gzipCompress s
    | _ => match Marshal v with Some s => AStr <$> gzipCompress s | None => Err "gzipCompress" end
    end
  else if decide (m = "gzipDecompress") then s ← str v; AStr <$> gzipDecompress s
  else if decide (m = "encodingConvert") then
    s ← str v; match Encoding cfg with Some e => AStr <$> convertEncoding s (From e) (To e) | None => Panic end
  else if decide (m = "binaryParse") then s ← str v; AMap <$> binaryParse s (Fields cfg)
  else if decide (m = "binarySerialize") then
    match v with AMap values => AStr <$> binarySerialize values (Fields cfg) | _ => Err "binarySerialize: payload must be an object" end
  else Err "unhandled mode".
Definition Process (cfg : Config) (id : string) (now : Z) (inp : dgram) : nodeResult :=
  out ← convert cfg (Value (payload inp));
  Ok [MkPortDatagram "out" (caused id now inp out)].
End node.

(** ** Round trips *)

Definition size (f : Field) : Z := match fieldSize f with Ok n => n | _ => 0 end.
(** The values that a field can hold exactly. *)
Definition fits (f : Field) (v : any) : Prop :=
  match v with
  | AFloat x =>
      (exists z, x = of_Z z /\
         ((Type_ f = "uint8" /\ in_u 8 z) \/ (Type_ f = "int8" /\ in_s 8 z) \/ (Type_ f = "uint16" /\ in_u 16 z) \/
          (Type_ f = "int16" /\ in_s 16 z) \/ (Type_ f = "uint32" /\ in_u 32 z) \/ (Type_ f = "int32" /\ in_s 32 z) \/
          (Type_ f = "uint64" /\ 0 <= z < 2 ^ 53) \/ (Type_ f = "int64" /\ - 2 ^ 53 < z < 2 ^ 53))) \/
      (Type_ f = "float32" /\ exists g, valid_binary 24 128 g = true /\ x = of_float32 g) \/
      (Type_ f = "float64" /\ valid_binary 53 1024 x = true)
  | AStr s => Type_ f = "string" /\ Length f = Z.of_nat (String.length s) /\ 0 < Length f
  | _ => False
  end.

Lemma getUint_put f n v : getUint f (putUint f n v) = v mod 2 ^ (8 * Z.of_nat n).
Proof. unfold getUint, putUint. case_decide; [apply le_get_put|apply be_get_put]. Qed.
Lemma uint_back f (n : nat) z : in_u (8 * Z.of_nat n) z -> getUint f (putUint f n z) = z.
Proof. intros H. rewrite getUint_put. by apply Z.mod_small. Qed.
Lemma sint_back f (n : nat) z : (0 < n)%nat -> in_s (8 * Z.of_nat n) z -> swrap (8 * Z.of_nat n) (getUint f (putUint f n z)) = z.
Proof. intros Hn H. rewrite getUint_put. fold (uwrap (8 * Z.of_nat n) z). rewrite swrap_uwrap, swrap_id by (lia || done). done. Qed.
Lemma byte_back z : be_get [u8 z] = u8 z.
Proof. by change (be_get [u8 z]) with (Z.lor (Z.shiftl 0 8) (u8 z)). Qed.
Lemma length_putUint f n v : length (putUint f n v) = n.
Proof. unfold putUint. case_decide; [apply length_le_put|apply length_be_put]. Qed.
Lemma putUint_ok f n v : bytes_ok (putUint f n v).
Proof. unfold putUint. case_decide; [apply Forall_reverse|]; apply be_put_ok. Qed.

Ltac by_type Ht := rewrite ?Ht; repeat first [rewrite decide_False by (try tauto; done) | rewrite decide_True by (try tauto; done)].

(** A number written with [putUint] in [n] bytes. *)
Ltac put_number f n z back :=
  exists (putUint f n z); unfold zlen; rewrite length_putUint; split_and!; [done|done| |apply putUint_ok];
  do 3 f_equal; apply back; first [done|lia|unfold in_u, in_s in *; lia].

(** What a field writes, it reads. *)
Lemma chunk_roundtrip f v : fits f v ->
  exists b, fieldSize f = Ok (zlen b) /\ fieldBytes f (zlen b) v = Ok b /\ parseChunk f b = Some v /\ bytes_ok b.
Proof.
  destruct v as [| |x| |s| | | | | | |]; try done; cbn [fits].
  - intros [(z & -> & H)|[[Ht (g & Hg & ->)]|[Ht Hx]]].
    + assert (- 2 ^ 53 < z < 2 ^ 53) as Hz by (unfold in_u, in_s in H; lia). pose proof (to_int64_of_Z z Hz) as Hi.
      assert (bytes_ok [u8 z]) as Hb by (repeat constructor; apply uwrap_range; lia).
      destruct H as [[Ht H]|[[Ht H]|[[Ht H]|[[Ht H]|[[Ht H]|[[Ht H]|[[Ht H]|[Ht H]]]]]]]];
        unfold fieldSize, fieldBytes, parseChunk; by_type Ht; cbn [toFloat]; rewrite Hi.
      * exists [u8 z]. split_and!; [done|done| |done]. by rewrite byte_back, uwrap_id.
      * exists [u8 z]. split_and!; [done|done| |done]. by rewrite byte_back, swrap_uwrap, swrap_id by (done || lia).
      * put_number f 2%nat z uint_back.
      * put_number f 2%nat z (sint_back f 2).
      * put_number f 4%nat z uint_back.
      * put_number f 4%nat z (sint_back f 4).
      * put_number f 8%nat z uint_back.
      * put_number f 8%nat z (sint_back f 8).
    + unfold fieldSize, fieldBytes, parseChunk; by_type Ht; cbn [toFloat]. rewrite float32_roundtrip by done.
      exists (putUint f 4 (Float32bits g)). unfold zlen. rewrite length_putUint. split_and!; [done|done| |apply putUint_ok].
      rewrite uint_back by exact (to_bits_range 23 8 ltac:(lia) ltac:(lia) g Hg).
      unfold Float32frombits, Float32bits. by rewrite of_to_bits by (lia || done).
    + unfold fieldSize, fieldBytes, parseChunk; by_type Ht; cbn [toFloat].
      exists (putUint f 8 (Float64bits x)). unfold zlen. rewrite length_putUint. split_and!; [done|done| |apply putUint_ok].
      rewrite uint_back by exact (to_bits_range 52 11 ltac:(lia) ltac:(lia) x Hx).
      unfold Float64frombits, Float64bits. by rewrite of_to_bits by (lia || done).
  - intros (Ht & Hl & H0). unfold fieldSize, fieldBytes, parseChunk; by_type Ht.
    exists (bytes_of_string s). destruct (Z.leb_spec (Length f) 0); [lia|]. unfold zlen. rewrite length_bytes_of_string, Hl.
    split_and!; [done| |by rewrite string_of_bytes_of_string|apply bytes_of_string_ok].
    f_equal. rewrite Nat2Z.id. apply take_ge. by rewrite length_bytes_of_string.
Qed.

(** *** Reading and writing parts of a record *)

Definition read (data : bytes) (off n : nat) : bytes := take n (drop off data).
Lemma length_write data off b : (off + length b <= length data)%nat -> length (write data off b) = length data.
Proof. intros H. unfold write. rewrite !length_app, length_take, length_drop. lia. Qed.
Lemma write_ok data off b : bytes_ok data -> bytes_ok b -> bytes_ok (write data off b).
Proof. intros H Hb. unfold write. apply Forall_app. split; [by apply Forall_take|]. apply Forall_app. split; [done|by apply Forall_drop]. Qed.
Lemma read_write_same data off b : (off + length b <= length data)%nat -> read (write data off b) off (length b) = b.
Proof.
  intros H. unfold read, write. rewrite drop_app_length' by (rewrite length_take; lia). by rewrite take_app_length.
Qed.
Lemma lookup_write data off b i : (off + length b <= length data)%nat ->
  (i < off \/ off + length b <= i)%nat -> write data off b !! i = data !! i.
Proof.
  intros H Hi. unfold write. destruct (decide (i < off)%nat) as [Hlt|Hge].
  - rewrite lookup_app_l by (rewrite length_take; lia). by rewrite lookup_take_lt.
  - rewrite lookup_app_r by (rewrite length_take; lia). rewrite lookup_app_r by (rewrite length_take; lia).
    rewrite lookup_drop, length_take. f_equal. lia.
Qed.
Lemma read_write_other data off b o n : (off + length b <= length data)%nat ->
  (o + n <= off \/ off + length b <= o)%nat -> read (write data off b) o n = read data o n.
Proof.
  intros H Ho. unfold read. apply list_eq. intros i. destruct (decide (i < n)%nat).
  - rewrite !lookup_take_lt, !lookup_drop by done. apply lookup_write; [done|lia].
  - by rewrite !lookup_take_ge by lia.
Qed.

(** Fields that lie next to each other under different names. *)
Definition apart (f g : Field) : Prop := Name f <> Name g /\ (Offset f + size f <= Offset g \/ Offset g + size g <= Offset f).
Fixpoint layout (fields : list Field) : Prop :=
  match fields with [] => True | f :: l => Forall (apart f) l /\ layout l end.
Definition placed (n : Z) (f : Field) : Prop := 0 <= Offset f /\ Offset f + size f <= n.

Lemma slice_read data lo hi : 0 <= lo <= hi -> hi <= zlen data -> slice data lo hi = Ok (read data (Z.to_nat lo) (Z.to_nat (hi - lo))).
Proof. intros H1 H2. unfold slice. by rewrite bool_decide_eq_true_2. Qed.

Lemma writeFields_spec values fields : forall data, zlen data < 2 ^ 63 -> bytes_ok data -> layout fields -> Forall (placed (zlen data)) fields ->
  (forall f, f ∈ fields -> exists v, mget values (Name f) = Some v /\ fits f v) ->
  exists data', writeFields data values fields = Ok data' /\ length data' = length data /\ bytes_ok data' /\
    (forall o n, (forall f, f ∈ fields -> Z.of_nat o + Z.of_nat n <= Offset f \/ Offset f + size f <= Z.of_nat o) -> read data' o n = read data o n) /\
    (forall f, f ∈ fields -> exists v, mget values (Name f) = Some v /\ parseChunk f (read data' (Z.to_nat (Offset f)) (Z.to_nat (size f))) = Some v).
Proof.
  induction fields as [|f fields IH]; intros data Hn Hok Hl Hp Hv.
  { exists data. split_and!; [done..|]. by intros f ?%elem_of_nil. }
  destruct Hl as [Ha Hl]. apply Forall_cons in Hp as [[Ho He] Hp]. destruct (Hv f) as (v & Hm & Hf); [by left|].
  destruct (chunk_roundtrip f v Hf) as (b & Hs & Hb & Hc & Hbo). assert (size f = zlen b) as Hsz by (unfold size; by rewrite Hs).
  cbn [writeFields]. rewrite Hs. cbn [mbind res_bind]. rewrite Hm, swrap_id by (unfold in_s; unfold zlen in *; lia).
  rewrite slice_read by (unfold zlen in *; lia). cbn [mbind res_bind]. rewrite Hb. cbn [mbind res_bind].
  assert (Z.to_nat (Offset f) + length b <= length data)%nat as Hfit by (unfold zlen in *; lia).
  set (d1 := write data (Z.to_nat (Offset f)) b). assert (length d1 = length data) as Hl1 by (by apply length_write).
  destruct (IH d1) as (data' & Hw & Hlen & Hok' & Hother & Hread); unfold zlen; rewrite ?Hl1; try done.
  { by apply write_ok. }
  { intros g Hg. apply Hv. by right. }
  exists data'. split_and!; [done|congruence|done| |].
  - intros o n Ho'. rewrite Hother by (intros g Hg; apply Ho'; by right).
    apply read_write_other; [done|]. destruct (Ho' f ltac:(by left)); unfold zlen in *; lia.
  - intros g [-> |Hg]%elem_of_cons; [|by apply Hread]. exists v. split; [done|].
    rewrite Hother.
    + unfold d1. rewrite Hsz. unfold zlen. rewrite Nat2Z.id, read_write_same by done. done.
    + intros g' Hg'. rewrite Forall_forall in Ha. destruct (Ha g' Hg') as [_ H]. rewrite !Z2Nat.id by (unfold zlen in *; lia). lia.
Qed.

Lemma totalSize_spec fields : forall t, 0 <= t < 2 ^ 63 -> Forall (fun f => is_ok (fieldSize f) = true /\ 0 <= Offset f /\ 0 <= size f /\ Offset f + size f < 2 ^ 63) fields ->
  exists n, totalSize fields t = Ok n /\ t <= n < 2 ^ 63 /\ Forall (placed n) fields.
Proof.
  induction fields as [|f l IH]; intros t Ht; cbn [totalSize]; [eexists; split_and!; [done|lia|lia|done]|].
  intros [(Hok & Ho & Hs & He) Hl]%Forall_cons. destruct (fieldSize f) as [n| |] eqn:E; [|done..].
  assert (size f = n) as Hn by (unfold size; by rewrite E). cbn [mbind res_bind]. rewrite swrap_id by (unfold in_s; lia).
  destruct (IH (if t <? Offset f + n then Offset f + n else t)) as (m & Hm & Hb & Hp); [destruct (Z.ltb_spec t (Offset f + n)); lia|done|].
  exists m. split; [done|]. destruct (Z.ltb_spec t (Offset f + n)); (split; [lia|]); constructor; try done; split; lia.
Qed.

Lemma parseFields_spec data (g : Field -> any) fields : forall out, layout fields -> (forall f, f ∈ fields -> parseField data f = Ok (g f)) ->
  exists out', parseFields data fields out = Ok out' /\ (forall f, f ∈ fields -> mget out' (Name f) = Some (g f)) /\
    (forall k, (forall f, f ∈ fields -> Name f <> k) -> mget out' k = mget out k).
Proof.
  induction fields as [|f fields IH]; intros out Hl Hg; cbn [parseFields].
  { exists out. split_and!; [done| |done]. by intros f ?%elem_of_nil. }
  destruct Hl as [Ha Hl]. rewrite (Hg f) by (by left). cbn [mbind res_bind].
  destruct (IH (mset out (Name f) (g f)) Hl) as (out' & Ho & Hin & Hout); [intros; apply Hg; by right|].
  exists out'. split_and!; [done| |].
  - intros f' [-> |Hf']%elem_of_cons; [|by apply Hin]. rewrite Hout, mget_mset; [by rewrite decide_True|].
    intros f' Hf'. rewrite Forall_forall in Ha. destruct (Ha f' Hf'). congruence.
  - intros k Hk. rewrite Hout, mget_mset by (intros f' Hf'; apply Hk; by right). rewrite decide_False; [done|].
    intros ->. by apply (Hk f ltac:(by left)).
Qed.

Lemma base64_roundtrip b : bytes_ok b -> DecodeString (bytes_of_string (string_of_bytes (EncodeToString b))) = Some b.
Proof. intros H. rewrite bytes_of_string_of_bytes by (by apply EncodeToString_ok). by apply DecodeString_EncodeToString. Qed.

(** Binary records round-trip: values that their fields can hold exactly, laid out without
    overlap in any order and byte order, are serialized without an error, and parsing the
    result gives every field its value back. *)
Theorem binary_roundtrip values fields :
  layout fields -> Forall (fun f => 0 <= Offset f /\ Offset f + size f < 2 ^ 63) fields ->
  (forall f, f ∈ fields -> exists v, mget values (Name f) = Some v /\ fits f v) ->
  exists s out, binarySerialize values fields = Ok s /\ binaryParse s fields = Ok out /\
    forall f, f ∈ fields -> mget out (Name f) = mget values (Name f).
Proof.
  intros Hl Hp Hv. assert (forall f, f ∈ fields -> exists n, fieldSize f = Ok n /\ 0 <= n) as Hs.
  { intros f Hf. destruct (Hv f Hf) as (v & _ & Hfit). destruct (chunk_roundtrip f v Hfit) as (b & Hb & _). exists (zlen b). split; [done|apply zlen_nonneg]. }
  destruct (totalSize_spec fields 0 ltac:(lia)) as (n & Hn & Hb & Hpl).
  { apply Forall_forall. intros f Hf. rewrite Forall_forall in Hp. destruct (Hs f Hf) as (m & Hm & H0). unfold size in *.
    rewrite Hm. destruct (Hp f Hf) as [? Hx]. rewrite Hm in Hx. done. }
  assert (zlen (repeat 0 (Z.to_nat n)) = n) as Hz by (unfold zlen; rewrite repeat_length; lia).
  destruct (writeFields_spec values fields (repeat 0 (Z.to_nat n))) as (data & Hw & Hlen & Hok & _ & Hread).
  { lia. }
  { apply Forall_forall. intros x Hx. apply list_elem_of_In, repeat_spec in Hx as ->. unfold in_u. lia. }
  { done. }
  { by rewrite Hz. }
  { done. }
  destruct (parseFields_spec data (fun f => default ANil (mget values (Name f))) fields [] Hl) as (out & Hout & Hin & _).
  { intros f Hf. destruct (Hread f Hf) as (v & Hm & Hc). rewrite Hm. cbn [default]. destruct (Hs f Hf) as (m & Hm' & H0).
    rewrite Forall_forall in Hpl. destruct (Hpl f Hf) as [Ho He]. unfold size in *. rewrite Hm' in *.
    assert (zlen data = n) as Hd by (unfold zlen in *; lia).
    unfold parseField. rewrite Hm'. cbn [mbind res_bind]. rewrite swrap_id by (unfold in_s; lia).
    destruct (Z.ltb_spec (Offset f) 0); [lia|]. destruct (Z.ltb_spec (zlen data) (Offset f + m)); [lia|]. cbn [orb].
    rewrite slice_read by lia. cbn [mbind res_bind]. replace (Offset f + m - Offset f) with m by lia. by rewrite Hc. }
  exists (string_of_bytes (EncodeToString data)), out. unfold binarySerialize, binaryParse. rewrite Hn. cbn [mbind res_bind]. rewrite Hw.
  split; [done|]. rewrite base64_roundtrip by done. split; [done|].
  intros f Hf. rewrite Hin by done. destruct (Hv f Hf) as (v & -> & _). done.
Qed.

(** *** Latin-1 and UTF-8 *)

Lemma land_ones_mod x k : 0 <= k -> Z.land x (2 ^ k - 1) = x mod 2 ^ k.
Proof. intros Hk. rewrite <- Z.land_ones by done. by rewrite Z.ones_equiv, <- Z.sub_1_r. Qed.
(** All pairs of bytes that encode a character of the upper half of Latin-1. *)
Definition upper_check (r : Z) : bool :=
  let b0 := Z.lor 192 (Z.shiftr r 6) in let b1 := Z.lor 128 (Z.land r 63) in
  between 194 195 b0 && cont b1 && (Z.lor (Z.shiftl (Z.land b0 31) 6) (Z.land b1 63) =? r).
Definition lower_check (p : Z * Z) : bool :=
  let '(b0, b1) := p in bool_decide (encodeLatin1Rune (Z.lor (Z.shiftl (Z.land b0 31) 6) (Z.land b1 63)) = [b0; b1]).
Lemma in_zrange lo n x : lo <= x < lo + Z.of_nat n -> x ∈ map (fun i => lo + Z.of_nat i) (seq 0 n).
Proof. intros H. apply list_elem_of_fmap. exists (Z.to_nat (x - lo)). split; [lia|]. apply elem_of_seq. lia. Qed.
Lemma upper_ok r : 128 <= r <= 255 -> upper_check r = true.
Proof.
  intros H. assert (forallb upper_check (map (fun i => 128 + Z.of_nat i) (seq 0 128)) = true) as Hall by (vm_compute; reflexivity).
  rewrite forallb_forall in Hall. apply Hall, list_elem_of_In, in_zrange. lia.
Qed.
Lemma lower_ok b0 b1 : 194 <= b0 <= 195 -> 128 <= b1 <= 191 -> encodeLatin1Rune (Z.lor (Z.shiftl (Z.land b0 31) 6) (Z.land b1 63)) = [b0; b1].
Proof.
  intros H0 H1. assert (forallb (fun b0 => forallb (fun b1 => lower_check (b0, b1)) (map (fun i => 128 + Z.of_nat i) (seq 0 64)))
    (map (fun i => 194 + Z.of_nat i) (seq 0 2)) = true) as Hall by (vm_compute; reflexivity).
  rewrite forallb_forall in Hall. specialize (Hall b0 ltac:(apply list_elem_of_In, in_zrange; lia)).
  rewrite forallb_forall in Hall. specialize (Hall b1 ltac:(apply list_elem_of_In, in_zrange; lia)).
  by apply bool_decide_eq_true in Hall.
Qed.

Lemma decode_encoded r rest : in_u 8 r ->
  exists b0 tl, encodeLatin1Rune r = b0 :: tl /\ decodeRune b0 (tl ++ rest) = (r, S (length tl)).
Proof.
  unfold in_u, encodeLatin1Rune. intros Hr. destruct (Z.ltb_spec r 128) as [Hlt|Hge].
  - exists r, []. split; [done|]. unfold decodeRune. by apply Z.ltb_lt in Hlt as ->.
  - exists (Z.lor 192 (Z.shiftr r 6)), [Z.lor 128 (Z.land r 63)]. split; [done|].
    pose proof (upper_ok r ltac:(lia)) as H. unfold upper_check in H. rewrite !andb_true_iff in H. destruct H as [[Hb Hc] He%Z.eqb_eq].
    unfold between in Hb. rewrite andb_true_iff, !Z.leb_le in Hb. unfold decodeRune, between. cbn [app].
    destruct (Z.ltb_spec (Z.lor 192 (Z.shiftr r 6)) 128); [lia|]. destruct (Z.leb_spec 194 (Z.lor 192 (Z.shiftr r 6))); [|lia].
    destruct (Z.leb_spec (Z.lor 192 (Z.shiftr r 6)) 223); [|lia]. cbn [andb]. by rewrite Hc, He.
Qed.

Lemma land_low x : Z.land x 63 = x mod 64 /\ Z.land x 31 = x mod 32 /\ Z.land x 15 = x mod 16 /\ Z.land x 7 = x mod 8.
Proof. split_and!; [apply (land_ones_mod x 6)|apply (land_ones_mod x 5)|apply (land_ones_mod x 4)|apply (land_ones_mod x 3)]; lia. Qed.
Lemma rune2_value b0 b1 : Z.lor (Z.shiftl (Z.land b0 31) 6) (Z.land b1 63) = b0 mod 32 * 64 + b1 mod 64.
Proof.
  destruct (land_low b0) as (_ & -> & _), (land_low b1) as (-> & _). rewrite lor_shiftl_low; [done|lia|]. apply Z.mod_pos_bound. lia.
Qed.
Lemma rune3_value b0 b1 b2 :
  Z.lor (Z.shiftl (Z.land b0 15) 12) (Z.lor (Z.shiftl (Z.land b1 63) 6) (Z.land b2 63)) = b0 mod 16 * 4096 + (b1 mod 64 * 64 + b2 mod 64).
Proof.
  destruct (land_low b0) as (_ & _ & -> & _), (land_low b1) as (-> & _), (land_low b2) as (-> & _).
  pose proof (Z.mod_pos_bound b1 64). pose proof (Z.mod_pos_bound b2 64). rewrite (lor_shiftl_low 6), lor_shiftl_low by (unfold in_u; lia). done.
Qed.
Lemma rune4_value b0 b1 b2 b3 :
  Z.lor (Z.shiftl (Z.land b0 7) 18) (Z.lor (Z.shiftl (Z.land b1 63) 12) (Z.lor (Z.shiftl (Z.land b2 63) 6) (Z.land b3 63))) =
  b0 mod 8 * 262144 + (b1 mod 64 * 4096 + (b2 mod 64 * 64 + b3 mod 64)).
Proof.
  destruct (land_low b0) as (_ & _ & _ & ->), (land_low b1) as (-> & _), (land_low b2) as (-> & _), (land_low b3) as (-> & _).
  pose proof (Z.mod_pos_bound b1 64). pose proof (Z.mod_pos_bound b2 64). pose proof (Z.mod_pos_bound b3 64).
  rewrite (lor_shiftl_low 6), (lor_shiftl_low 12), lor_shiftl_low by (unfold in_u; lia). done.
Qed.

(** What a rune of Latin-1 was decoded from is its encoding. *)
Lemma decoded_encoding b0 rest r w : 0 <= b0 -> decodeRune b0 rest = (r, w) -> r <= 255 -> 0 <= r /\ encodeLatin1Rune r = take w (b0 :: rest).
Proof.
  intros Hb0. unfold decodeRune, between, cont. destruct (Z.ltb_spec b0 128).
  { intros [= <- <-] _. unfold encodeLatin1Rune. destruct (Z.ltb_spec b0 128); [done|lia]. }
  destruct ((194 <=? b0) && (b0 <=? 223)) eqn:E2.
  { destruct rest as [|b1 rest]; [intros [= <- <-]; lia|]. destruct ((128 <=? b1) && (b1 <=? 191)) eqn:E1; [|intros [= <- <-]; lia].
    rewrite andb_true_iff, !Z.leb_le in E1, E2. intros [= <- <-] Hr. destruct (Z.le_gt_cases b0 195).
    - rewrite lower_ok by lia. split; [|done]. rewrite rune2_value. Z.div_mod_to_equations; lia.
    - exfalso. rewrite rune2_value in Hr. assert (4 <= b0 mod 32 /\ 0 <= b1 mod 64) by (Z.div_mod_to_equations; lia). lia. }
  destruct ((224 <=? b0) && (b0 <=? 239)) eqn:E3.
  { destruct rest as [|b1 [|b2 rest]]; [intros [= <- <-]; lia..|].
    destruct (_ && _ && (_ && _)) eqn:E1; [|intros [= <- <-]; lia]. intros [= <- <-] Hr. exfalso. rewrite rune3_value in Hr.
    rewrite !andb_true_iff, !Z.leb_le in *. assert (0 <= b1 mod 64 /\ 0 <= b2 mod 64) by (Z.div_mod_to_equations; lia).
    destruct (Z.eqb_spec b0 224); destruct (Z.eqb_spec b0 237); try lia.
    - assert (32 <= b1 mod 64) by (Z.div_mod_to_equations; lia). assert (0 <= b0 mod 16) by (apply Z.mod_pos_bound; lia). lia.
    - assert (1 <= b0 mod 16) by (Z.div_mod_to_equations; lia). lia.
    - assert (1 <= b0 mod 16) by (Z.div_mod_to_equations; lia). lia. }
  destruct ((240 <=? b0) && (b0 <=? 244)) eqn:E4; [|intros [= <- <-]; lia].
  destruct rest as [|b1 [|b2 [|b3 rest]]]; [intros [= <- <-]; lia..|].
  destruct (_ && _ && (_ && _) && (_ && _)) eqn:E1; [|intros [= <- <-]; lia]. intros [= <- <-] Hr. exfalso. rewrite rune4_value in Hr.
  rewrite !andb_true_iff, !Z.leb_le in *. assert (0 <= b1 mod 64 /\ 0 <= b2 mod 64 /\ 0 <= b3 mod 64) by (Z.div_mod_to_equations; lia).
  destruct (Z.eqb_spec b0 240); destruct (Z.eqb_spec b0 244); try lia.
  - assert (16 <= b1 mod 64) by (Z.div_mod_to_equations; lia). assert (0 <= b0 mod 8) by (apply Z.mod_pos_bound; lia). lia.
  - assert (1 <= b0 mod 8) by (Z.div_mod_to_equations; lia). lia.
  - assert (1 <= b0 mod 8) by (Z.div_mod_to_equations; lia). lia.
Qed.

Lemma decodeRune_width b0 rest r w : decodeRune b0 rest = (r, w) -> (1 <= w)%nat.
Proof.
  unfold decodeRune. repeat first [case_match | intros [= <- <-]; lia].
Qed.
(** Every character of Latin-1 survives the way to UTF-8 and back. *)
Lemma runes_encoded s : bytes_ok s -> forall k, (length (latin1ToUTF8 s) <= k)%nat -> runes k (latin1ToUTF8 s) = s.
Proof.
  unfold latin1ToUTF8. induction s as [|r s IH]; intros Hs k Hk; [by destruct k|]. apply Forall_cons in Hs as [Hr Hs].
  cbn [map concat] in *. destruct (decode_encoded r (concat (map encodeLatin1Rune s)) Hr) as (b0 & tl & He & Hd).
  rewrite He in *. rewrite <- app_comm_cons in *. cbn [length] in Hk. rewrite length_app in Hk.
  destruct k as [|k]; [lia|]. cbn [runes]. rewrite Hd. f_equal. cbn [drop]. rewrite drop_app_length. apply IH; [done|lia].
Qed.
Lemma latin1_utf8_latin1 s : bytes_ok s -> utf8ToLatin1 (latin1ToUTF8 s) = Ok s.
Proof.
  intros Hs. unfold utf8ToLatin1. rewrite runes_encoded by done.
  assert (filter (fun r => r <= 255) s = s) as ->; [|by rewrite Nat.eqb_refl].
  induction s as [|r s IH]; [done|]. apply Forall_cons in Hs as [Hr Hs]. unfold in_u in Hr. rewrite filter_cons_True by lia. f_equal. by apply IH.
Qed.

(** And what the conversion to Latin-1 accepts is the UTF-8 form of its result. *)
Lemma encoded_runes k : forall s, bytes_ok s -> (length s <= k)%nat -> Forall (fun r => r <= 255) (runes k s) ->
  latin1ToUTF8 (runes k s) = s /\ bytes_ok (runes k s).
Proof.
  induction k as [|k IH]; intros [|b0 s] Hs Hk Hr; cbn [length] in Hk; [done|lia|done|]. apply Forall_cons in Hs as [Hb Hs]. unfold in_u in Hb.
  cbn [runes] in *. destruct (decodeRune b0 s) as [r w] eqn:E. apply Forall_cons in Hr as [Hr Hrs].
  destruct (decoded_encoding b0 s r w ltac:(lia) E Hr) as [H0 He]. pose proof (decodeRune_width _ _ _ _ E).
  destruct (IH (drop w (b0 :: s))) as [Hl Hok]; [by apply Forall_drop, Forall_cons|rewrite length_drop; cbn [length]; lia|done|].
  split; [|constructor; [unfold in_u; lia|done]]. change (encodeLatin1Rune r ++ latin1ToUTF8 (runes k (drop w (b0 :: s))) = b0 :: s).
  by rewrite Hl, He, take_drop.
Qed.
Lemma filter_all (rs : list Z) : length (filter (fun r => r <= 255) rs) = length rs ->
  filter (fun r => r <= 255) rs = rs /\ Forall (fun r => r <= 255) rs.
Proof.
  induction rs as [|r rs IH]; [done|]. intros H. destruct (decide (r <= 255)).
  - rewrite filter_cons_True in * by done. cbn [length] in H. destruct IH as [-> ?]; [lia|]. split; [done|by constructor].
  - rewrite filter_cons_False in H by done. pose proof (length_filter (fun r => r <= 255) rs). cbn [length] in H. lia.
Qed.
Lemma utf8_latin1_utf8 s t : bytes_ok s -> utf8ToLatin1 s = Ok t -> latin1ToUTF8 t = s /\ bytes_ok t.
Proof.
  intros Hs. unfold utf8ToLatin1. destruct (Nat.eqb_spec (length (filter (fun r => r <= 255) (runes (length s) s))) (length (runes (length s) s))) as [E|]; [|done].
  intros [= <-]. apply filter_all in E as [-> HF]. by apply encoded_runes.
Qed.
Lemma convertEncoding_utf8 s : convertEncoding s "utf8" "latin1" = (string_of_bytes <$> utf8ToLatin1 (bytes_of_string s)).
Proof. reflexivity. Qed.
Lemma convertEncoding_latin1 s : convertEncoding s "latin1" "utf8" = Ok (string_of_bytes (latin1ToUTF8 (bytes_of_string s))).
Proof. reflexivity. Qed.
Lemma latin1ToUTF8_ok s : bytes_ok s -> bytes_ok (latin1ToUTF8 s).
Proof.
  intros Hs. apply Forall_concat, Forall_fmap. eapply Forall_impl; [exact Hs|]. intros r Hr. cbn. unfold encodeLatin1Rune, in_u in *.
  destruct (Z.ltb_spec r 128) as [Hlt|Hge]; [repeat constructor; unfold in_u; lia|].
  pose proof (upper_ok r ltac:(lia)) as H. unfold upper_check, between, cont in H. rewrite !andb_true_iff, !Z.leb_le in H.
  repeat constructor; unfold in_u; lia.
Qed.

(** The two character encodings of the node convert into each other without loss: every
    Latin-1 string converts to UTF-8 and back to itself, and a UTF-8 string that the conversion
    to Latin-1 accepts comes back as the same bytes, so no ill-formed or overlong sequence is
    ever accepted as a character of Latin-1. *)
Theorem encoding_roundtrip s :
  (exists u, convertEncoding s "latin1" "utf8" = Ok u /\ convertEncoding u "utf8" "latin1" = Ok s) /\
  forall t, convertEncoding s "utf8" "latin1" = Ok t -> convertEncoding t "latin1" "utf8" = Ok s.
Proof.
  pose proof (bytes_of_string_ok s) as Hs. split.
  - eexists. split; [apply convertEncoding_latin1|]. rewrite convertEncoding_utf8, bytes_of_string_of_bytes by (by apply latin1ToUTF8_ok).
    rewrite latin1_utf8_latin1 by done. cbn. by rewrite string_of_bytes_of_string.
  - intros t. rewrite convertEncoding_utf8. destruct (utf8ToLatin1 (bytes_of_string s)) as [u| |] eqn:E; try done. intros [= <-].
    destruct (utf8_latin1_utf8 _ _ Hs E) as [He Hu]. rewrite convertEncoding_latin1, bytes_of_string_of_bytes by done.
    by rewrite He, string_of_bytes_of_string.
Qed.

Module examples.
Definition u16 : Field := MkField "temp" 4 0 "int16" "little".
Definition u32 : Field := MkField "count" 0 0 "uint32" "big".
Definition name : Field := MkField "name" 6 3 "string" "".
Definition values : list (string * any) := [("name", AStr "abc"); ("temp", AFloat (of_Z (-300))); ("count", AFloat (of_Z 4000000000))].

Lemma binary_roundtrip_witness : exists s out, binarySerialize values [u16; u32; name] = Ok s /\ binaryParse s [u16; u32; name] = Ok out /\
  forall f, f ∈ [u16; u32; name] -> mget out (Name f) = mget values (Name f).
Proof.
  apply (binary_roundtrip values [u16; u32; name]).
  - vm_compute. repeat split; repeat constructor; try discriminate; (left; discriminate) || (right; discriminate).
  - repeat constructor; vm_compute; try discriminate; reflexivity.
  - intros f Hf. repeat (apply elem_of_cons in Hf as [->|Hf]); [..|by apply elem_of_nil in Hf].
    + exists (AFloat (of_Z (-300))). split; [reflexivity|]. left. exists (-300). split; [reflexivity|].
      right; right; right; left. split; [reflexivity|vm_compute; split; [discriminate|reflexivity]].
    + exists (AFloat (of_Z 4000000000)). split; [reflexivity|]. left. exists 4000000000. split; [reflexivity|].
      right; right; right; right; left. split; [reflexivity|vm_compute; split; [discriminate|reflexivity]].
    + exists (AStr "abc"). split; [reflexivity|]. vm_compute. repeat split.
Defined.
Lemma encoding_roundtrip_witness : convertEncoding "a" "utf8" "latin1" = Ok "a" /\ convertEncoding "a" "latin1" "utf8" = Ok "a".
Proof. split; [reflexivity|]. exact (proj2 (encoding_roundtrip "a") "a" eq_refl). Defined.

(** An array of one element is written as the element and read back without the array. *)
Lemma xml_singleton :
  let w := writeXMLElement (fun _ => "x") (fun s => s) "root" in
  w (AMap [("k", AArr [AStr "x"])]) = w (AMap [("k", AStr "x")]).
Proof. reflexivity. Qed.
(** A negative offset is an error for the parser and a panic for the serializer. *)
Definition neg : Field := MkField "x" (-1) 0 "uint8" "big".
Lemma negative_offset : is_ok (binaryParse "AA==" [neg]) = false /\ binaryParse "AA==" [neg] <> Panic /\
  binarySerialize [("x", AFloat (of_Z 1))] [neg] = Panic.
Proof. vm_compute. repeat split. discriminate. Qed.
(** An offset near the largest [int] passes the bounds check of the parser by overflow. *)
Lemma offset_overflow : binaryParse "AA==" [MkField "x" (2 ^ 63 - 1) 0 "uint8" "big"] = Panic.
Proof. vm_compute. reflexivity. Qed.
(** A string shorter than its field comes back with the zero bytes that fill it. *)
Lemma short_string : exists s out, binarySerialize [("name", AStr "a")] [MkField "name" 0 2 "string" ""] = Ok s /\
  binaryParse s [MkField "name" 0 2 "string" ""] = Ok out /\ mget out "name" = Some (AStr (string_of_bytes [97; 0])).
Proof. do 2 eexists. vm_compute. repeat split. Qed.
(** A [uint64] of 2^63 and more is converted through [int64]: 1.5 * 2^63 comes back as 2^63. *)
Lemma large_uint64 : exists s out, binarySerialize [("n", AFloat (of_Z (3 * 2 ^ 62)))] [MkField "n" 0 0 "uint64" "big"] = Ok s /\
  binaryParse s [MkField "n" 0 0 "uint64" "big"] = Ok out /\ mget out "n" = Some (AFloat (of_Z (2 ^ 63))).
Proof. do 2 eexists. vm_compute. repeat split. Qed.
End examples.

End convert.
