(* ===== verification/Vault.v ===== *)
(** * Credentials and connections of the control plane

    The envelope encryption of credentials ([controlplane/internal/crypto/vault.go]), the
    tables [credentials] and [connections] with their handlers ([internal/api/credentials.go],
    [connections.go], [conntest_handler.go], [secsgem_browse_handler.go]), and the resolution of
    a connection for a runtime ([connresolve.go], [registry.ResolveConnection]).  AES-GCM, the
    random bytes, fresh ids, the clock, the outcome of every statement, JSON texts and the test
    of a connection are arguments.  The audit entries are kept in order, with their values. *)

From S2P Require Import Prelude Bytes GoStd Datagram Execution Value Auth Registry Convert.
Import gostd value.
Local Open Scope Z_scope.

Module vault.

(** ** Envelope encryption *)

Definition keyLen : nat := 32.
Record Vault := MkVault { keys : gmap Z bytes; currentVersion : Z }.
Record Sealed := MkSealed { KeyVersion : Z; WrappedDEK : string; WrappedDEKNonce : string; Ciphertext : string; Nonce : string }.
(** What [rand.Read] fills in one [Seal]: the key, its nonce and the nonce of the value. *)
Record random := MkRandom { r_dek : option bytes; r_nonce : option bytes; r_wrapNonce : option bytes }.

Definition NewVault (masterKey : bytes) : res string Vault :=
  if decide (length masterKey = keyLen) then Ok (MkVault {[1 := masterKey]} 1) else Err "crypto: master key must be 32 bytes".

Definition encode64 (b : bytes) : string := string_of_bytes (EncodeToString b).
Definition decode64 (s : string) : res string bytes :=
  match DecodeString (bytes_of_string s) with Some b => Ok b | None => Err "crypto: decoding" end.

Section handlers.
(** [cipher.AEAD] for a key: [Seal] and [Open] without additional data. *)
Context (aeadSeal : bytes -> bytes -> bytes -> bytes) (aeadOpen : bytes -> bytes -> bytes -> option bytes).
(** [json.Marshal] of a value, whether a text is JSON, and the checks of a connection. *)
Context (Marshal : any -> option bytes) (validJSON : string -> bool)
        (Test : string -> string -> option bytes -> bool * string)
        (SECSGEMBrowseSVIDs : string -> (bool * string) * list (Z * string * string)).

(** [aes.NewCipher] accepts keys of 16, 24 and 32 bytes. *)
Definition newGCM (key : bytes) : res string unit :=
  if decide (length key = 16 \/ length key = 24 \/ length key = 32)%nat then Ok tt else Err "crypto: aes cipher".
Definition aesGCMEncrypt (key plaintext : bytes) (rnd : option bytes) : res string (bytes * bytes) :=
  _ ← newGCM key;
  match rnd with
  | Some nonce => Ok (aeadSeal key nonce plaintext, nonce)
  | None => Err "crypto: generating nonce"
  end.
(** [gcm.Open] panics on a nonce that is not 12 bytes long. *)
Definition aesGCMDecrypt (key nonce ciphertext : bytes) : res string bytes :=
  _ ← newGCM key;
  if decide (length nonce = 12%nat) then
    match aeadOpen key nonce ciphertext with Some p => Ok p | None => Err "crypto: decrypt" end
  else Panic.

Definition Seal (v : Vault) (rnd : random) (plaintext : bytes) : res string Sealed :=
  match r_dek rnd with
  | None => Err "crypto: generating DEK"
  | Some dek =>
      '(ciphertext, nonce) ← aesGCMEncrypt dek plaintext (r_nonce rnd);
      let kek := default [] (keys v !! currentVersion v) in
      '(wrappedDEK, wrappedNonce) ← aesGCMEncrypt kek dek (r_wrapNonce rnd);
      Ok (MkSealed (currentVersion v) (encode64 wrappedDEK) (encode64 wrappedNonce) (encode64 ciphertext) (encode64 nonce))
  end.
Definition Open (v : Vault) (s : Sealed) : res string bytes :=
  match keys v !! KeyVersion s with
  | None => Err "crypto: unknown key version"
  | Some kek =>
      wrappedDEK ← decode64 (WrappedDEK s);
      wrappedNonce ← decode64 (WrappedDEKNonce s);
      dek ← aesGCMDecrypt kek wrappedNonce wrappedDEK;
      ciphertext ← decode64 (Ciphertext s);
      nonce ← decode64 (Nonce s);
      aesGCMDecrypt dek nonce ciphertext
  end.

(** ** The tables *)

Record CredentialMeta := MkCredentialMeta { m_ID : string; m_ProjectID : string; m_Name : string; m_CreatedAt : Z }.
Record Credential := MkCredential { c_meta : CredentialMeta; c_sealed : Sealed }.
Record Connection := MkConnection {
  ID : string; ProjectID : string; Name : string; Type_ : string; Config : string; CredentialID : option string
}.
Record DB := MkDB { credentials : gmap string Credential; connections : gmap string Connection }.
Inductive StoreError := ErrNoRows | ErrDB.

Definition CreateCredential (db : DB) (ok : bool) (id : string) (now : Z) (projectID name : string) (sealed : Sealed)
  : DB * res StoreError CredentialMeta :=
  if ok && bool_decide (credentials db !! id = None) then
    (MkDB (<[id := MkCredential (MkCredentialMeta id projectID name (ParseRFC3339 (FormatRFC3339 now))) sealed]> (credentials db)) (connections db),
     Ok (MkCredentialMeta id projectID name now))
  else (db, Err ErrDB).
(** The rows of a project by name; rows of one name in the order of the table. *)
Definition ListCredentials (db : DB) (ok : bool) (projectID : string) : res StoreError (list CredentialMeta) :=
  if ok then
    Ok (sortBy m_Name (filter (fun m => m_ProjectID m = projectID)
          (omap (fun id => c_meta <$> credentials db !! id) (elements (dom (credentials db))))))
  else Err ErrDB.
Definition getCredentialProjectID (db : DB) (ok : bool) (id : string) : res StoreError string :=
  if ok then match credentials db !! id with Some c => Ok (m_ProjectID (c_meta c)) | None => Err ErrNoRows end else Err ErrDB.
Definition GetCredentialSealed (db : DB) (ok : bool) (id : string) : res StoreError Sealed :=
  if ok then match credentials db !! id with Some c => Ok (c_sealed c) | None => Err ErrNoRows end else Err ErrDB.
Definition DeleteCredential (db : DB) (ok : bool) (id : string) : DB * res StoreError unit :=
  if ok then (MkDB (delete id (credentials db)) (connections db), Ok tt) else (db, Err ErrDB).

(** A config that was not sent is stored as the empty text. *)
Definition CreateConnection (db : DB) (ok : bool) (id projectID name connType : string) (config credentialID : option string)
  : DB * res StoreError Connection :=
  if ok && bool_decide (connections db !! id = None) then
    (MkDB (credentials db) (<[id := MkConnection id projectID name connType (default "" config) credentialID]> (connections db)),
     Ok (MkConnection id projectID name connType (default "null" config) credentialID))
  else (db, Err ErrDB).
Definition GetConnection (db : DB) (ok : bool) (id : string) : res StoreError Connection :=
  if ok then match connections db !! id with Some c => Ok c | None => Err ErrNoRows end else Err ErrDB.
Definition ListConnections (db : DB) (ok : bool) (projectID : string) : res StoreError (list Connection) :=
  if ok then
    Ok (sortBy Name (filter (fun c => ProjectID c = projectID)
          (omap (fun id => connections db !! id) (elements (dom (connections db))))))
  else Err ErrDB.
Definition UpdateConnection (db : DB) (ok1 ok2 : bool) (id : string) (name config credentialID : option string)
  : DB * res StoreError Connection :=
  match GetConnection db ok1 id with
  | Ok c =>
      let c' := MkConnection (ID c) (ProjectID c) (default (Name c) name) (Type_ c) (default (Config c) config)
                  (match credentialID with Some x => Some x | None => CredentialID c end) in
      if ok2 then (MkDB (credentials db) (<[id := c']> (connections db)), Ok c') else (db, Err ErrDB)
  | Err e => (db, Err e)
  | Panic => (db, Panic)
  end.
Definition DeleteConnection (db : DB) (ok : bool) (id : string) : DB * res StoreError unit :=
  if ok then (MkDB (credentials db) (delete id (connections db)), Ok tt) else (db, Err ErrDB).

(** ** Resolving a connection *)

Record ConnectionInfo := MkConnectionInfo { i_Type : string; ConfigJSON : string; CredentialJSON : option bytes }.
Definition ResolveConnection (v : Vault) (db : DB) (ok1 ok2 : bool) (connectionID : string) : res string ConnectionInfo :=
  match GetConnection db ok1 connectionID with
  | Err ErrNoRows => Err "connresolve: connection not found"
  | Ok conn =>
      match CredentialID conn with
      | None => Ok (MkConnectionInfo (Type_ conn) (Config conn) None)
      | Some cid =>
          match GetCredentialSealed db ok2 cid with
          | Ok sealed => p ← Open v sealed; Ok (MkConnectionInfo (Type_ conn) (Config conn) (Some p))
          | _ => Err "connresolve: loading credential"
          end
      end
  | _ => Err "connresolve: loading connection"
  end.
(** The call of a runtime. *)
Definition ServiceResolveConnection (s : registry.Service) (v : Vault) (db : DB) (ok1 ok2 : bool) (runtimeID token connectionID : string)
  : res string ConnectionInfo :=
  if registry.validSession s runtimeID token then ResolveConnection v db ok1 ok2 connectionID else Err "unknown runtime or session".

(** ** Requests *)

Definition isNil (v : any) : bool := match v with ANil => true | _ => false end.

(** The body of a response or a value of the audit log.  A text that is no JSON makes the
    encoder fail: the body is empty. *)
Inductive body :=
| BNone | BError | BCredential (m : CredentialMeta) | BCredentials (l : list CredentialMeta)
| BConnection (c : Connection) | BConnections (l : list Connection) | BResult (ok : bool) (message : string)
| BSVIDs (l : list (Z * string * string)).
Definition json (b : body) : body :=
  match b with
  | BConnection c => if validJSON (Config c) then b else BNone
  | BConnections l => if forallb (fun c => validJSON (Config c)) l then b else BNone
  | _ => b
  end.
Record auditCall := MkAuditCall {
  a_actor : string; a_action : string; a_object : string; a_project : string; a_before : body; a_after : body
}.
Record world := MkWorld { db : DB; accounts : auth.DB; log : list auditCall }.
Definition set_db (w : world) (d : DB) : world := MkWorld d (accounts w) (log w).
Definition audit (w : world) (ok : bool) (actor action object project : string) (before after : body) : world :=
  if ok then MkWorld (db w) (accounts w) (log w ++ [MkAuditCall actor action object project (json before) (json after)]) else w.
(** The outcomes of the statements of a request, its time, the id of a new row and the random
    bytes it draws. *)
Record env := MkEnv { ok : nat -> bool; now : Z; newID : string; rnd : random }.

Definition listCredentials (w : world) (e : env) (user : auth.User) (projectID : string) : world * (Z * body) :=
  match auth.requireProjectRole (accounts w) (ok e 0) user projectID auth.RoleViewer with
  | Some st => (w, (st, BError))
  | None => match ListCredentials (db w) (ok e 1) projectID with Ok l => (w, (200, BCredentials l)) | _ => (w, (500, BError)) end
  end.
Definition createCredential (v : Vault) (w : world) (e : env) (user : auth.User) (projectID : string) (req : option (string * any))
  : world * (Z * body) :=
  match auth.requireProjectRole (accounts w) (ok e 0) user projectID auth.RoleEditor with
  | Some st => (w, (st, BError))
  | None =>
      match req with
      | None => (w, (400, BError))
      | Some (name, value) =>
          if bool_decide (name = "") || isNil value then (w, (400, BError))
          else
            match Marshal value with
            | None => (w, (400, BError))
            | Some valueJSON =>
                match Seal v (rnd e) valueJSON with
                | Ok sealed =>
                    match CreateCredential (db w) (ok e 1) (newID e) (now e) projectID name sealed with
                    | (d, Ok m) =>
                        (audit (set_db w d) (ok e 9) (auth.ID user) "credential.create" (m_ID m) projectID BNone (BCredential m), (201, BCredential m))
                    | (d, _) => (set_db w d, (500, BError))
                    end
                | _ => (w, (500, BError))
                end
            end
      end
  end.
Definition deleteCredential (w : world) (e : env) (user : auth.User) (id : string) : world * (Z * body) :=
  match getCredentialProjectID (db w) (ok e 0) id with
  | Err ErrNoRows => (w, (404, BError))
  | Ok projectID =>
      match auth.requireProjectRole (accounts w) (ok e 1) user projectID auth.RoleEditor with
      | Some st => (w, (st, BError))
      | None =>
          match DeleteCredential (db w) (ok e 2) id with
          | (d, Ok _) => (audit (set_db w d) (ok e 9) (auth.ID user) "credential.delete" id projectID BNone BNone, (204, BNone))
          | (d, _) => (set_db w d, (500, BError))
          end
      end
  | _ => (w, (500, BError))
  end.

Definition listConnections (w : world) (e : env) (user : auth.User) (projectID : string) : world * (Z * body) :=
  match auth.requireProjectRole (accounts w) (ok e 0) user projectID auth.RoleViewer with
  | Some st => (w, (st, BError))
  | None => match ListConnections (db w) (ok e 1) projectID with Ok l => (w, (200, json (BConnections l))) | _ => (w, (500, BError)) end
  end.
(** The body: name, type, config and credential. *)
Definition createConnection (w : world) (e : env) (user : auth.User) (projectID : string)
    (req : option (string * string * option string * option string)) : world * (Z * body) :=
  match auth.requireProjectRole (accounts w) (ok e 0) user projectID auth.RoleEditor with
  | Some st => (w, (st, BError))
  | None =>
      match req with
      | None => (w, (400, BError))
      | Some (name, type, config, credentialID) =>
          if decide (name = "" \/ type = "") then (w, (400, BError))
          else match CreateConnection (db w) (ok e 1) (newID e) projectID name type config credentialID with
               | (d, Ok c) =>
                   (audit (set_db w d) (ok e 9) (auth.ID user) "connection.create" (ID c) projectID BNone (BConnection c), (201, json (BConnection c)))
               | (d, _) => (set_db w d, (500, BError))
               end
      end
  end.
Definition connectionAndAuthorize (w : world) (e : env) (user : auth.User) (id min : string) : Connection + Z :=
  match GetConnection (db w) (ok e 0) id with
  | Err ErrNoRows => inr 404
  | Ok c => match auth.requireProjectRole (accounts w) (ok e 1) user (ProjectID c) min with Some st => inr st | None => inl c end
  | _ => inr 500
  end.
Definition updateConnection (w : world) (e : env) (user : auth.User) (id : string)
    (req : option (option string * option string * option string)) : world * (Z * body) :=
  match connectionAndAuthorize w e user id auth.RoleEditor with
  | inr st => (w, (st, BError))
  | inl before =>
      match req with
      | None => (w, (400, BError))
      | Some (name, config, credentialID) =>
          match UpdateConnection (db w) (ok e 2) (ok e 3) id name config credentialID with
          | (d, Ok after) =>
              (audit (set_db w d) (ok e 9) (auth.ID user) "connection.update" id (ProjectID before) (BConnection before) (BConnection after),
               (200, json (BConnection after)))
          | (d, _) => (set_db w d, (500, BError))
          end
      end
  end.
Definition deleteConnection (w : world) (e : env) (user : auth.User) (id : string) : world * (Z * body) :=
  match connectionAndAuthorize w e user id auth.RoleEditor with
  | inr st => (w, (st, BError))
  | inl c =>
      match DeleteConnection (db w) (ok e 2) id with
      | (d, Ok _) => (audit (set_db w d) (ok e 9) (auth.ID user) "connection.delete" id (ProjectID c) (BConnection c) BNone, (204, BNone))
      | (d, _) => (set_db w d, (500, BError))
      end
  end.

(** The checks of a connection; [None]: the handler panics. *)
Definition testConnection (v : Vault) (w : world) (e : env) (user : auth.User) (id : string) : option (world * (Z * body)) :=
  match connectionAndAuthorize w e user id auth.RoleEditor with
  | inr st => Some (w, (st, BError))
  | inl c =>
      match ResolveConnection v (db w) (ok e 2) (ok e 3) id with
      | Err m => Some (w, (200, BResult false m))
      | Panic => None
      | Ok info =>
          let '(r, m) := Test (i_Type info) (ConfigJSON info) (CredentialJSON info) in
          Some (audit w (ok e 9) (auth.ID user) "connection.test" id (ProjectID c) BNone (BResult r m), (200, BResult r m))
      end
  end.
Definition secsgemBrowse (v : Vault) (w : world) (e : env) (user : auth.User) (id : string) : option (world * (Z * body)) :=
  match connectionAndAuthorize w e user id auth.RoleEditor with
  | inr st => Some (w, (st, BError))
  | inl c =>
      match ResolveConnection v (db w) (ok e 2) (ok e 3) id with
      | Err m => Some (w, (200, BResult false m))
      | Panic => None
      | Ok info =>
          if decide (i_Type info <> "secsgem") then Some (w, (200, BResult false "not a secsgem connection"))
          else
            let '((r, m), svids) := SECSGEMBrowseSVIDs (ConfigJSON info) in
            let b := if r then BSVIDs svids else BResult false m in
            Some (audit w (ok e 9) (auth.ID user) "connection.secsgemBrowse" id (ProjectID c) BNone b, (200, b))
      end
  end.

(** The requests that change the tables or read them. *)
Inductive request :=
| ListCredentialsOf (projectID : string)
| NewCredential (projectID : string) (req : option (string * any))
| DropCredential (id : string)
| ListConnectionsOf (projectID : string)
| NewConnection (projectID : string) (req : option (string * string * option string * option string))
| EditConnection (id : string) (req : option (option string * option string * option string))
| DropConnection (id : string).
Definition serve (v : Vault) (w : world) (e : env) (user : auth.User) (r : request) : world * (Z * body) :=
  match r with
  | ListCredentialsOf p => listCredentials w e user p
  | NewCredential p req => createCredential v w e user p req
  | DropCredential id => deleteCredential w e user id
  | ListConnectionsOf p => listConnections w e user p
  | NewConnection p req => createConnection w e user p req
  | EditConnection id req => updateConnection w e user id req
  | DropConnection id => deleteConnection w e user id
  end.
Fixpoint serve_all (v : Vault) (w : world) (l : list (env * auth.User * request)) : world * list (Z * body) :=
  match l with
  | [] => (w, [])
  | (e, user, r) :: l' =>
      let '(w, resp) := serve v w e user r in let '(w, resps) := serve_all v w l' in (w, resp :: resps)
  end.

(** ** What is sealed opens *)

(** The random bytes that [rand.Read] returns. *)
Definition random_ok (r : random) : Prop :=
  (forall b, r_dek r = Some b -> length b = keyLen /\ bytes_ok b) /\ (forall b, r_nonce r = Some b -> length b = 12%nat /\ bytes_ok b) /\
  (forall b, r_wrapNonce r = Some b -> length b = 12%nat /\ bytes_ok b).
(** [cipher.AEAD]: what is sealed opens; and [json.Marshal] gives bytes. *)
Definition aead_law : Prop :=
  (forall k n p, aeadOpen k n (aeadSeal k n p) = Some p) /\ (forall k n p, bytes_ok k -> bytes_ok n -> bytes_ok p -> bytes_ok (aeadSeal k n p)).

Lemma decode_encode b : bytes_ok b -> decode64 (encode64 b) = Ok b.
Proof. intros H. unfold decode64, encode64. by rewrite convert.base64_roundtrip. Qed.
Lemma newGCM_32 k : length k = keyLen -> newGCM k = Ok tt.
Proof. intros H. unfold newGCM, keyLen in *. rewrite decide_True by lia. done. Qed.

Lemma Seal_result key v r p : NewVault key = Ok v -> random_ok r ->
  (exists dek n wn, r_dek r = Some dek /\ r_nonce r = Some n /\ r_wrapNonce r = Some wn /\
     Seal v r p = Ok (MkSealed 1 (encode64 (aeadSeal key wn dek)) (encode64 wn) (encode64 (aeadSeal dek n p)) (encode64 n))) \/
  ((r_dek r = None \/ r_nonce r = None \/ r_wrapNonce r = None) /\ exists e, Seal v r p = Err e).
Proof.
  unfold NewVault. destruct (decide _) as [Hk|]; [|done]. intros [= <-] (Hd & Hn & Hw). unfold Seal.
  destruct (r_dek r) as [dek|]; [|right; split; [by eauto|eexists; reflexivity]]. destruct (Hd dek eq_refl) as [Hd' _].
  unfold aesGCMEncrypt. rewrite (newGCM_32 dek) by done. cbn [mbind res_bind].
  destruct (r_nonce r) as [n|]; cbn [mbind res_bind]; [|right; split; [by eauto|eexists; reflexivity]].
  cbn [keys currentVersion]. rewrite lookup_singleton_eq. change (default [] (Some key)) with key. rewrite (newGCM_32 key) by done. cbn [mbind res_bind].
  destruct (r_wrapNonce r) as [wn|]; cbn [mbind res_bind]; [|right; split; [by eauto|eexists; reflexivity]]. left. exists dek, n, wn. done.
Qed.
Lemma Open_Seal key v r p s : aead_law -> NewVault key = Ok v -> bytes_ok key -> random_ok r -> bytes_ok p -> Seal v r p = Ok s -> Open v s = Ok p.
Proof.
  intros [Ho Hb] Hv Hk Hr Hp Hs. destruct (Seal_result key v r p Hv Hr) as [(dek & n & wn & Ed & En & Ew & E)|(_ & e & E)]; [|congruence].
  rewrite E in Hs. injection Hs as <-. destruct Hr as (Hd & Hn & Hw). destruct (Hd _ Ed), (Hn _ En), (Hw _ Ew).
  unfold NewVault in Hv. destruct (decide _); [|done]. injection Hv as <-. unfold Open. cbn [keys KeyVersion WrappedDEK WrappedDEKNonce Ciphertext Nonce].
  rewrite lookup_singleton_eq, !decode_encode by auto. cbn [mbind res_bind]. unfold aesGCMDecrypt.
  rewrite newGCM_32 by done. cbn [mbind res_bind]. rewrite decide_True, Ho by done. cbn [mbind res_bind].
  rewrite ?decode_encode by auto. cbn [mbind res_bind]. rewrite newGCM_32 by done. cbn [mbind res_bind]. by rewrite decide_True, Ho by done.
Qed.
(** Whether a value can be sealed does not depend on the value. *)
Lemma Seal_blind v r p p' : is_ok (Seal v r p) = is_ok (Seal v r p') /\ (Seal v r p = Panic <-> Seal v r p' = Panic).
Proof.
  unfold Seal, aesGCMEncrypt. destruct (r_dek r) as [dek|]; [|done]. destruct (newGCM dek); cbn [mbind res_bind]; [|done..].
  destruct (r_nonce r); cbn [mbind res_bind]; [|done]. destruct (newGCM _); cbn [mbind res_bind]; [|done..].
  by destruct (r_wrapNonce r).
Qed.

(** ** Credentials are write-only *)

(** Two requests that differ at most in the value of a new credential. *)
Definition same_request (r r' : request) : Prop :=
  match r, r' with
  | NewCredential p (Some (name, value)), NewCredential p' (Some (name', value')) =>
      p = p' /\ name = name' /\ isNil value = isNil value' /\ (Marshal value = None <-> Marshal value' = None)
  | _, _ => r = r'
  end.
Definition same_call (c c' : env * auth.User * request) : Prop := c.1 = c'.1 /\ same_request c.2 c'.2.
(** Two states that differ at most in the envelopes of credentials. *)
Definition same_world (w w' : world) : Prop :=
  accounts w = accounts w' /\ log w = log w' /\ connections (db w) = connections (db w') /\
  c_meta <$> credentials (db w) = c_meta <$> credentials (db w').
Definition same_outcome (o o' : world * (Z * body)) : Prop := same_world o.1 o'.1 /\ o.2 = o'.2.

#[local] Instance same_world_refl : Reflexive same_world.
Proof. intros w. done. Qed.

Lemma same_meta (m m' : gmap string Credential) id : c_meta <$> m = c_meta <$> m' -> c_meta <$> m !! id = c_meta <$> m' !! id.
Proof. intros H. rewrite <- !lookup_fmap. by rewrite H. Qed.
Lemma same_none (m m' : gmap string Credential) id : c_meta <$> m = c_meta <$> m' -> m !! id = None <-> m' !! id = None.
Proof. intros H. rewrite <- (fmap_None c_meta (m !! id)), <- (fmap_None c_meta (m' !! id)). by rewrite (same_meta m m'). Qed.
Lemma ListCredentials_same d d' k p : c_meta <$> credentials d = c_meta <$> credentials d' -> ListCredentials d k p = ListCredentials d' k p.
Proof.
  intros H. unfold ListCredentials. destruct k; [|done]. do 3 f_equal.
  assert (dom (credentials d) = dom (credentials d')) as ->.
  { rewrite <- (dom_fmap_L c_meta (credentials d)), <- (dom_fmap_L c_meta (credentials d')). by rewrite H. }
  induction (elements (dom (credentials d'))) as [|id l IH]; [done|]. cbn [omap list_omap]. by rewrite (same_meta _ _ id H), IH.
Qed.
Lemma getCredentialProjectID_same d d' k id : c_meta <$> credentials d = c_meta <$> credentials d' ->
  getCredentialProjectID d k id = getCredentialProjectID d' k id.
Proof.
  intros H. unfold getCredentialProjectID. destruct k; [|done]. pose proof (same_meta _ _ id H) as E.
  destruct (credentials d !! id), (credentials d' !! id); cbn in E; [|done..]. injection E as ->. done.
Qed.
Lemma audit_same w w' k a b c d x y : same_world w w' -> same_world (audit w k a b c d x y) (audit w' k a b c d x y).
Proof. unfold audit, same_world. intros (Ha & Hl & Hc & Hm). destruct k; [|done]. cbn. by rewrite Hl. Qed.
Lemma set_db_same w w' d d' : accounts w = accounts w' -> log w = log w' -> connections d = connections d' ->
  c_meta <$> credentials d = c_meta <$> credentials d' -> same_world (set_db w d) (set_db w' d').
Proof. done. Qed.

Lemma createCredential_same v w w' e user p name value value' : same_world w w' -> isNil value = isNil value' ->
  (Marshal value = None <-> Marshal value' = None) ->
  same_outcome (createCredential v w e user p (Some (name, value))) (createCredential v w' e user p (Some (name, value'))).
Proof.
  intros Hw Hn Hm. pose proof Hw as (Ha & Hl & Hc & Hk). unfold createCredential. rewrite Ha, Hn.
  destruct (auth.requireProjectRole _ _ _ _ _); [done|]. destruct (_ || _); [done|].
  destruct (Marshal value) as [b|], (Marshal value') as [b'|]; [|by destruct Hm as [_ Hm]; specialize (Hm eq_refl)|by destruct Hm as [Hm _]; specialize (Hm eq_refl)|done].
  destruct (Seal_blind v (rnd e) b b') as [Hok Hp].
  destruct (Seal v (rnd e) b) as [s| |], (Seal v (rnd e) b') as [s'| |]; try done; try (by destruct Hp as [Hp1 Hp2]; (specialize (Hp1 eq_refl) || specialize (Hp2 eq_refl))).
  unfold CreateCredential. pose proof (same_none _ _ (newID e) Hk) as Hz.
  destruct (ok e 1); cbn [andb]; [|done].
  rewrite (bool_decide_ext _ _ Hz). destruct (bool_decide _); [|done].
  split; [|done]. apply audit_same, set_db_same; [done..|]. cbn [credentials]. by rewrite !fmap_insert, Hk.
Qed.
Lemma deleteCredential_same w w' e user id : same_world w w' -> same_outcome (deleteCredential w e user id) (deleteCredential w' e user id).
Proof.
  intros Hw. pose proof Hw as (Ha & Hl & Hc & Hk). unfold deleteCredential. rewrite (getCredentialProjectID_same _ _ _ _ Hk), Ha.
  destruct (getCredentialProjectID _ _ _) as [p|[]|]; [|done..]. destruct (auth.requireProjectRole _ _ _ _ _); [done|].
  unfold DeleteCredential. destruct (ok e 2); [|done].
  split; [|done]. apply audit_same, set_db_same; [done..|]. cbn [credentials]. by rewrite !fmap_delete, Hk.
Qed.
Lemma GetConnection_same d d' k id : connections d = connections d' -> GetConnection d k id = GetConnection d' k id.
Proof. unfold GetConnection. by intros ->. Qed.
Lemma createConnection_same w w' e user p req : same_world w w' -> same_outcome (createConnection w e user p req) (createConnection w' e user p req).
Proof.
  intros Hw. pose proof Hw as (Ha & Hl & Hc & Hk). unfold createConnection. rewrite Ha.
  destruct (auth.requireProjectRole _ _ _ _ _); [done|]. destruct req as [[[[name type] config] cid]|]; [|done]. case_decide; [done|].
  unfold CreateConnection. rewrite Hc. destruct (_ && _); [|done]. split; [|done]. by apply audit_same, set_db_same.
Qed.
Lemma connectionAndAuthorize_same w w' e user id min : same_world w w' -> connectionAndAuthorize w e user id min = connectionAndAuthorize w' e user id min.
Proof. intros (Ha & Hl & Hc & Hk). unfold connectionAndAuthorize. by rewrite (GetConnection_same _ _ _ _ Hc), Ha. Qed.
Lemma updateConnection_same w w' e user id req : same_world w w' -> same_outcome (updateConnection w e user id req) (updateConnection w' e user id req).
Proof.
  intros Hw. pose proof Hw as (Ha & Hl & Hc & Hk). unfold updateConnection. rewrite (connectionAndAuthorize_same w w') by done.
  destruct (connectionAndAuthorize _ _ _ _ _) as [c|]; [|done]. destruct req as [[[name config] cid]|]; [|done].
  unfold UpdateConnection. rewrite (GetConnection_same _ _ _ _ Hc), Hc. destruct (GetConnection _ _ _); [|done..].
  destruct (ok e 3); [|done]. split; [|done]. by apply audit_same, set_db_same.
Qed.
Lemma deleteConnection_same w w' e user id : same_world w w' -> same_outcome (deleteConnection w e user id) (deleteConnection w' e user id).
Proof.
  intros Hw. pose proof Hw as (Ha & Hl & Hc & Hk). unfold deleteConnection. rewrite (connectionAndAuthorize_same w w') by done.
  destruct (connectionAndAuthorize _ _ _ _ _) as [c|]; [|done]. unfold DeleteConnection. rewrite Hc.
  destruct (ok e 2); [|done]. split; [|done]. by apply audit_same, set_db_same.
Qed.

Lemma serve_same v w w' e user r r' : same_world w w' -> same_request r r' -> same_outcome (serve v w e user r) (serve v w' e user r').
Proof.
  intros Hw Hr. assert (same_outcome (serve v w e user r) (serve v w' e user r)) as Hsame.
  { pose proof Hw as (Ha & Hl & Hc & Hk). destruct r as [p|p [[name value]|]|id|p|p req|id req|id]; cbn [serve].
    - unfold listCredentials. rewrite Ha, (ListCredentials_same _ _ _ _ Hk). by repeat case_match.
    - by apply createCredential_same.
    - unfold createCredential. rewrite Ha. by repeat case_match.
    - by apply deleteCredential_same.
    - unfold listConnections, ListConnections. rewrite Ha, Hc. by repeat case_match.
    - by apply createConnection_same.
    - by apply updateConnection_same.
    - by apply deleteConnection_same. }
  destruct r as [p|p [[name value]|]|id|p|p req|id req|id], r' as [p'|p' [[name' value']|]|id'|p'|p' req'|id' req'|id']; cbn [same_request] in Hr;
    try (injection Hr; intros; subst; done); try done.
  destruct Hr as (<- & <- & Hn & Hm). by apply createCredential_same.
Qed.

(** [C12] Credentials are write-only for the requests that list, create, change and delete credentials
    and connections: two sequences of such requests that differ only in the secret values they
    store get the same responses and leave the same audit log, the same accounts, connections and
    names of credentials.  Three requests are outside of this statement, because they use the stored
    values: testing a connection and browsing a SECS/GEM connection resolve the secret, log in with it
    and answer (and audit) what the other system said; the export of a backup has the sealed
    envelopes in its bundle. *)
Theorem credentials_write_only v w l l' : Forall2 same_call l l' ->
  (serve_all v w l).2 = (serve_all v w l').2 /\ same_world (serve_all v w l).1 (serve_all v w l').1.
Proof.
  intros H. assert (forall w', same_world w w' -> (serve_all v w l).2 = (serve_all v w' l').2 /\ same_world (serve_all v w l).1 (serve_all v w' l').1) as Hall;
    [|by apply Hall].
  revert w. induction H as [|[[e u] r] [[e' u'] r'] l l' [Heu Hr] _ IH]; intros w w' Hw; [done|]. cbn [fst snd] in *. injection Heu as <- <-.
  cbn [serve_all]. destruct (serve_same v w w' e u r r' Hw Hr) as [Hs He].
  destruct (serve v w e u r) as [w1 resp], (serve v w' e u r') as [w2 resp']. cbn [fst snd] in Hs, He. subst resp'.
  destruct (IH w1 w2 Hs) as [Hresp Hw']. destruct (serve_all v w1 l), (serve_all v w2 l'). cbn [fst snd] in *. by subst.
Qed.

(** ** Resolution gives back what was stored *)

(** The specification: secret values in the clear, and connections. *)
Record spec := MkSpec { values : gmap string bytes; conns : gmap string Connection }.
(** What a successful request means. *)
Definition spec_step (s : spec) (c : env * auth.User * request) (status : Z) : spec :=
  let e := c.1.1 in
  match c.2 with
  | NewCredential _ (Some (_, value)) =>
      if decide (status = 201) then MkSpec (<[newID e := default [] (Marshal value)]> (values s)) (conns s) else s
  | DropCredential id => if decide (status = 204) then MkSpec (delete id (values s)) (conns s) else s
  | NewConnection p (Some (name, type, config, cid)) =>
      if decide (status = 201) then MkSpec (values s) (<[newID e := MkConnection (newID e) p name type (default "" config) cid]> (conns s)) else s
  | EditConnection id (Some (name, config, cid)) =>
      if decide (status = 200) then
        MkSpec (values s) (alter (fun c => MkConnection (ID c) (ProjectID c) (default (Name c) name) (Type_ c) (default (Config c) config)
                                             (match cid with Some x => Some x | None => CredentialID c end)) id (conns s))
      else s
  | DropConnection id => if decide (status = 204) then MkSpec (values s) (delete id (conns s)) else s
  | _ => s
  end.
Definition spec_run (l : list (env * auth.User * request)) (resps : list (Z * body)) : spec :=
  fold_left (fun s x => spec_step s x.1 x.2.1) (zip l resps) (MkSpec ∅ ∅).
Definition resolve (s : spec) (id : string) : res string ConnectionInfo :=
  match conns s !! id with
  | None => Err "connresolve: connection not found"
  | Some c =>
      match CredentialID c with
      | None => Ok (MkConnectionInfo (Type_ c) (Config c) None)
      | Some cid =>
          match values s !! cid with
          | Some p => Ok (MkConnectionInfo (Type_ c) (Config c) (Some p))
          | None => Err "connresolve: loading credential"
          end
      end
  end.

Definition opens (v : Vault) (c : option Credential) (p : option bytes) : Prop :=
  match c, p with
  | Some c, Some p => Open v (c_sealed c) = Ok p
  | None, None => True
  | _, _ => False
  end.
Definition refines (v : Vault) (d : DB) (s : spec) : Prop :=
  (forall id, opens v (credentials d !! id) (values s !! id)) /\ connections d = conns s.

Lemma resolve_refines v d s id : refines v d s -> ResolveConnection v d true true id = resolve s id.
Proof.
  intros [Hv Hc]. unfold ResolveConnection, resolve, GetConnection. rewrite Hc. destruct (conns s !! id) as [c|]; [|done].
  destruct (CredentialID c) as [cid|]; [|done]. unfold GetCredentialSealed. specialize (Hv cid).
  destruct (credentials d !! cid) as [x|], (values s !! cid) as [p|]; cbn in Hv; [|done..]. by rewrite Hv.
Qed.
Lemma refused_status a k user p min st : auth.requireProjectRole a k user p min = Some st -> st = 403 \/ st = 500.
Proof. unfold auth.requireProjectRole. repeat case_match; intros [= <-]; auto. Qed.
Lemma audit_tables w k a b c d x y : db (audit w k a b c d x y) = db w.
Proof. unfold audit. by destruct k. Qed.
Lemma authorize_status w e user id min st : connectionAndAuthorize w e user id min = inr st -> st <> 200 /\ st <> 204.
Proof.
  unfold connectionAndAuthorize. repeat case_match; intros [= <-]; try done.
  all: match goal with H : auth.requireProjectRole _ _ _ _ _ = Some _ |- _ => apply refused_status in H as [->| ->]; done end.
Qed.

Section refinement.
Context (key : bytes) (v : Vault) (Hlaw : aead_law) (Hmarshal : forall x b, Marshal x = Some b -> bytes_ok b)
        (Hv : NewVault key = Ok v) (Hkey : bytes_ok key).

Lemma serve_refines w e user r s : random_ok (rnd e) -> refines v (db w) s ->
  let '(w', resp) := serve v w e user r in refines v (db w') (spec_step s (e, user, r) resp.1).
Proof.
  intros Hr Href. pose proof Href as [Hval Hc]. destruct r as [p|p req|id|p|p req|id req|id]; cbn [serve].
  - unfold listCredentials. destruct (auth.requireProjectRole _ _ _ _ _); [done|]. by destruct (ListCredentials _ _ _).
  - unfold createCredential. destruct (auth.requireProjectRole _ _ _ _ _) as [st|] eqn:Ea.
    { apply refused_status in Ea as [->| ->]; by destruct req as [[name value]|]. }
    destruct req as [[name value]|]; [|done]. destruct (_ || _); [done|].
    destruct (Marshal value) as [b|] eqn:Em; [|done].
    destruct (Seal v (rnd e) b) as [sealed| |] eqn:Es; [|done..]. unfold CreateCredential.
    destruct (ok e 1); cbn [andb]; [|done]. case_bool_decide as Hid; [|done].
    rewrite audit_tables. cbn [spec_step fst snd]. rewrite decide_True, Em by done. split; [|done]. intros id.
    cbn [credentials set_db db values]. destruct (decide (id = newID e)) as [->|Hne].
    + rewrite !lookup_insert_eq. cbn. by eapply Open_Seal; eauto.
    + rewrite !lookup_insert_ne by done. apply Hval.
  - unfold deleteCredential. destruct (getCredentialProjectID _ _ _) as [p|[]|]; [|done..].
    destruct (auth.requireProjectRole _ _ _ _ _) as [st|] eqn:Ea. { by apply refused_status in Ea as [->| ->]. }
    unfold DeleteCredential. destruct (ok e 2); [|done]. rewrite audit_tables. cbn [spec_step fst snd]. rewrite decide_True by done. split; [|done].
    intros id'. cbn [credentials set_db db values]. destruct (decide (id' = id)) as [->|Hne].
    + by rewrite !lookup_delete_eq.
    + rewrite !lookup_delete_ne by done. apply Hval.
  - unfold listConnections. destruct (auth.requireProjectRole _ _ _ _ _); [done|]. by destruct (ListConnections _ _ _).
  - unfold createConnection. destruct (auth.requireProjectRole _ _ _ _ _) as [st|] eqn:Ea.
    { apply refused_status in Ea as [->| ->]; by destruct req as [[[[name type] config] cid]|]. }
    destruct req as [[[[name type] config] cid]|]; [|done]. case_decide; [done|]. unfold CreateConnection.
    destruct (_ && _); [|done]. rewrite audit_tables. cbn [spec_step fst snd]. rewrite decide_True by done. split; [done|]. cbn. by rewrite Hc.
  - unfold updateConnection. destruct (connectionAndAuthorize _ _ _ _ _) as [c|st] eqn:Ea.
    2: { apply authorize_status in Ea as [? ?]. destruct req as [[[name config] cid]|]; [|done]. cbn [spec_step fst snd]. by rewrite decide_False. }
    destruct req as [[[name config] cid]|]; [|done]. unfold UpdateConnection, GetConnection. destruct (ok e 2); [|done].
    destruct (connections (db w) !! id) as [c'|] eqn:El; [|done]. destruct (ok e 3); [|done]. rewrite audit_tables.
    cbn [spec_step fst snd]. rewrite decide_True by done. split; [done|]. cbn [set_db db connections conns]. rewrite <- Hc.
    apply map_eq. intros i. destruct (decide (i = id)) as [->|Hne]; [by rewrite lookup_insert_eq, lookup_alter_eq, El|].
    by rewrite lookup_insert_ne, lookup_alter_ne.
  - unfold deleteConnection. destruct (connectionAndAuthorize _ _ _ _ _) as [c|st] eqn:Ea.
    2: { apply authorize_status in Ea as [? ?]. cbn [spec_step fst snd]. by rewrite decide_False. }
    unfold DeleteConnection. destruct (ok e 2); [|done]. rewrite audit_tables. cbn [spec_step fst snd]. rewrite decide_True by done.
    split; [done|]. cbn. by rewrite Hc.
Qed.
End refinement.

End handlers.

(** ** Examples: a cipher that puts its key and nonce before the text *)
Module examples.
Definition sealP (k n p : bytes) : bytes := k ++ n ++ p.
Definition openP (k n c : bytes) : option bytes :=
  if decide (take (length (k ++ n)) c = k ++ n) then Some (drop (length (k ++ n)) c) else None.
Definition marshalP (x : any) : option bytes := match x with AStr s => Some (bytes_of_string s) | _ => None end.
Definition validP (s : string) : bool := negb (bool_decide (s = "")).
Lemma lawP : aead_law sealP openP.
Proof.
  split.
  - intros k n p. unfold sealP, openP. rewrite app_assoc, take_app_length, drop_app_length. by rewrite decide_True.
  - intros k n p Hk Hn Hp. by repeat apply Forall_app_2.
Qed.
Lemma marshalP_ok x b : marshalP x = Some b -> bytes_ok b.
Proof. destruct x; try done. intros [= <-]. apply bytes_of_string_ok. Qed.
Definition key : bytes := repeat 7 32.
Definition v : Vault := MkVault {[1 := key]} 1.
Definition r0 : random := MkRandom (Some (repeat 5 32)) (Some (repeat 1 12)) (Some (repeat 2 12)).
Lemma repeat_ok x n : in_u 8 x -> bytes_ok (repeat x n).
Proof. intros H. apply Forall_forall. intros y Hy. apply list_elem_of_In, repeat_spec in Hy as ->. done. Qed.
Lemma r0_ok : random_ok r0.
Proof. split_and!; intros b [= <-]; (split; [reflexivity|]); repeat constructor; unfold in_u; lia. Qed.
Definition call (id : string) : env := MkEnv (fun _ => true) 0 id r0.
(** Ann edits project a, Bob edits project b. *)
Definition ann : auth.User := auth.MkUser "ann" "ann" auth.SystemRoleNone "" 0.
Definition bob : auth.User := auth.MkUser "bob" "bob" auth.SystemRoleNone "" 0.
Definition people : auth.DB := auth.MkDB ∅ ∅ {[("a", "ann") := auth.RoleEditor; ("b", "bob") := auth.RoleEditor]}.
Definition calls (secret : string) : list (env * auth.User * request) :=
  [(call "c1", ann, NewCredential "a" (Some ("db", AStr secret)));
   (call "x", bob, NewCredential "a" (Some ("db", AStr "no")));
   (call "k1", bob, NewConnection "b" (Some ("conn", "sql", Some "{}", Some "c1")));
   (call "k2", ann, NewConnection "a" (Some ("file", "file", None, None)));
   (call "y", ann, ListCredentialsOf "a"); (call "y", ann, ListConnectionsOf "a")].
Definition start : world := MkWorld (MkDB ∅ ∅) people [].

Lemma write_only_witness : (serve_all sealP marshalP validP v start (calls "s1")).2 = (serve_all sealP marshalP validP v start (calls "other")).2 /\
  same_world (serve_all sealP marshalP validP v start (calls "s1")).1 (serve_all sealP marshalP validP v start (calls "other")).1.
Proof.
  apply (credentials_write_only sealP marshalP validP v start (calls "s1") (calls "other")).
  repeat (constructor; [split; [reflexivity|]; cbn; try reflexivity; repeat split; done|]). constructor.
Defined.

(** Bob has no role in project a, and cannot store a credential there (403); he can name its
    credential in a connection of his own project and resolve it. *)
Lemma credential_of_another_project : map fst (serve_all sealP marshalP validP v start (calls "s1")).2 = [201; 403; 201; 201; 200; 200] /\
  ResolveConnection openP v (db (serve_all sealP marshalP validP v start (calls "s1")).1) true true "k1" =
    Ok (MkConnectionInfo "sql" "{}" (Some (bytes_of_string "s1"))).
Proof. split; vm_compute; reflexivity. Qed.
(** A connection without a config makes the list of its project's connections an empty body. *)
Lemma connection_without_config : (serve_all sealP marshalP validP v start (calls "s1")).2 !! 5%nat = Some (200, BNone).
Proof. vm_compute. reflexivity. Qed.
(** A nonce of the wrong length in the table makes [Open] panic. *)
Lemma short_nonce_panics : Open openP v (MkSealed 1 "" "" "" "") = Panic.
Proof. vm_compute. reflexivity. Qed.
End examples.

End vault.
