(* ===== verification/Backup.v ===== *)
(** * Backup and restore of the configuration ([controlplane/internal/api/backup.go])

    The tables of the database as lists of rows with their primary keys, unique columns and
    foreign keys ([internal/db/migrations]), the export of the configuration into a bundle, and
    the restore of a bundle in one transaction.  [fk] says whether the database enforces
    foreign keys: PostgreSQL does, SQLite does not unless it is told to, which the program does
    not do.  Times are texts; the columns of the tables that a restore only clears are left
    out, except the row's key and the row it refers to.  [ok t i] is the outcome of the [i]-th
    statement on table [t]. *)

From stdpp Require Import sorting.
From S2P Require Import Prelude GoStd Auth.
Import gostd.
Local Open Scope Z_scope.

Module backup.

(** ** Rows *)

Record backupUser := MkBackupUser { u_ID : string; Username : string; PasswordHash : string; SystemRole : string; u_CreatedAt : string }.
Record backupProject := MkBackupProject {
  p_ID : string; p_Name : string; p_Description : string; p_CreatedAt : string; DefaultErrorFlow : option string
}.
Record backupProjectMember := MkBackupProjectMember { m_ProjectID : string; m_UserID : string; Role : string }.
Record backupFlow := MkBackupFlow {
  f_ID : string; f_ProjectID : string; f_Name : string; DraftContent : string; DeployedVersion : option Z;
  f_CreatedAt : string; UpdatedAt : string; LogLevel : string
}.
Record backupFlowVersion := MkBackupFlowVersion {
  FlowID : string; Version : Z; v_Content : string; Author : string; Comment : string; v_CreatedAt : string; DeployedAt : option string
}.
Record backupConnection := MkBackupConnection {
  c_ID : string; c_ProjectID : string; c_Name : string; c_Type : string; c_Config : string; CredentialID : option string
}.
Record backupCredential := MkBackupCredential {
  k_ID : string; k_ProjectID : string; k_Name : string; KeyVersion : Z; WrappedDEK : string; WrappedDEKNonce : string;
  Ciphertext : string; Nonce : string; k_CreatedAt : string
}.
Record backupRuntimeGroup := MkBackupRuntimeGroup { g_Name : string; g_Description : string; g_CreatedAt : string }.
Record backupEnrollToken := MkBackupEnrollToken {
  t_ID : string; TokenHash : string; t_DisplayName : string; t_GroupName : option string; CreatedBy : string; t_CreatedAt : string;
  UsedByRuntimeID : option string; RevokedAt : option string
}.
Record backupDevice := MkBackupDevice {
  RuntimeID : string; Kind : string; d_DisplayName : string; d_GroupName : option string; EnrollTokenID : option string; EnrolledAt : string
}.
Record backupAlertRule := MkBackupAlertRule {
  a_ID : string; a_Name : string; Metric : string; TargetRuntimeID : string; WebhookURL : string; Enabled : bool; a_CreatedAt : string
}.
Record Bundle := MkBundle {
  FormatVersion : Z; ExportedAt : Z; Users : list backupUser; Projects : list backupProject; ProjectMembers : list backupProjectMember;
  Flows : list backupFlow; FlowVersions : list backupFlowVersion; Connections : list backupConnection; Credentials : list backupCredential;
  RuntimeGroups : list backupRuntimeGroup; RuntimeEnrollTokens : list backupEnrollToken; Devices : list backupDevice;
  AlertRules : list backupAlertRule
}.
Definition backupFormatVersion : Z := 1.

(** Rows with a column that the bundle has not, or has in another form. *)
Record flowRow := MkFlowRow { f_row : backupFlow; active_profile_id : option string }.
Record ruleRow := MkRuleRow { r_id : string; r_name : string; r_metric : string; r_target : string; r_url : string; r_enabled : Z; r_created : string }.
Record profileRow := MkProfileRow { e_id : string; e_project : string; e_name : string; e_variables : string; e_created : string }.

(** A row that a restore only deletes: its key and the id that it refers to. *)
Definition opRow : Type := string * string.
Record DB := MkDB {
  users : list backupUser; projects : list backupProject; project_members : list backupProjectMember; flows : list flowRow;
  flow_versions : list backupFlowVersion; connections : list backupConnection; credentials : list backupCredential;
  runtime_groups : list backupRuntimeGroup; runtime_enroll_tokens : list backupEnrollToken; devices : list backupDevice;
  alert_rules : list ruleRow; environment_profiles : list profileRow;
  sessions : list opRow; debug_pins : list opRow; executions : list opRow; execution_node_io : list opRow; dead_letters : list opRow;
  alerts : list opRow; audit_log : list string
}.

(** A table: its primary key, by which it is exported, and its other unique column. *)
Class Table (A : Type) := { pk : A -> string * string * Z; alt : A -> option string }.
#[export] Instance users_table : Table backupUser := { pk u := (u_ID u, "", 0); alt u := Some (Username u) }.
#[export] Instance projects_table : Table backupProject := { pk p := (p_ID p, "", 0); alt _ := None }.
#[export] Instance members_table : Table backupProjectMember := { pk m := (m_ProjectID m, m_UserID m, 0); alt _ := None }.
#[export] Instance flows_table : Table flowRow := { pk f := (f_ID (f_row f), "", 0); alt _ := None }.
#[export] Instance versions_table : Table backupFlowVersion := { pk v := (FlowID v, "", Version v); alt _ := None }.
#[export] Instance connections_table : Table backupConnection := { pk c := (c_ID c, "", 0); alt _ := None }.
#[export] Instance credentials_table : Table backupCredential := { pk k := (k_ID k, "", 0); alt _ := None }.
#[export] Instance groups_table : Table backupRuntimeGroup := { pk g := (g_Name g, "", 0); alt _ := None }.
#[export] Instance tokens_table : Table backupEnrollToken := { pk t := (t_ID t, "", 0); alt t := Some (TokenHash t) }.
#[export] Instance devices_table : Table backupDevice := { pk d := (RuntimeID d, "", 0); alt _ := None }.
#[export] Instance rules_table : Table ruleRow := { pk r := (r_id r, "", 0); alt _ := None }.

Definition pk_leb (a b : string * string * Z) : bool :=
  let '(s, t, z) := a in let '(s', t', z') := b in
  if decide (s = s') then (if decide (t = t') then z <=? z' else str_leb t t') else str_leb s s'.
Definition pk_le {A} `{Table A} (x y : A) : Prop := pk_leb (pk x) (pk y) = true.
#[export] Instance pk_le_dec {A} `{Table A} : RelDecision (pk_le (A := A)).
Proof. intros x y. unfold pk_le. apply _. Defined.
(** [ORDER BY] the primary key. *)
Definition ordered {A} `{Table A} (l : list A) : list A := merge_sort pk_le l.
Arguments ordered : simpl never.

(** ** Export *)

Definition ruleOf (r : ruleRow) : backupAlertRule :=
  MkBackupAlertRule (r_id r) (r_name r) (r_metric r) (r_target r) (r_url r) (negb (r_enabled r =? 0)) (r_created r).
(** [queryAll]: the rows of a query, scanned one by one. *)
Definition queryAll {A B} (ok : nat -> bool) (scan : A -> B) (rows : list A) : res string (list B) :=
  if ok 0%nat then Ok (map scan rows) else Err "api: querying backup data".
(** [seen t] is the database that the query of table [t] sees: a read-only transaction of
    PostgreSQL gives every statement its own snapshot, unless its isolation level is raised. *)
Definition ExportBackup (ok : string -> nat -> bool) (now : Z) (seen : string -> DB) : res string Bundle :=
  _ ← guard_err (ok "begin" 0%nat) "api: beginning export transaction";
  us ← queryAll (ok "users") id (ordered (users (seen "users")));
  ps ← queryAll (ok "projects") id (ordered (projects (seen "projects")));
  ms ← queryAll (ok "project_members") id (ordered (project_members (seen "project_members")));
  fs ← queryAll (ok "flows") f_row (ordered (flows (seen "flows")));
  vs ← queryAll (ok "flow_versions") id (ordered (flow_versions (seen "flow_versions")));
  cs ← queryAll (ok "connections") id (ordered (connections (seen "connections")));
  ks ← queryAll (ok "credentials") id (ordered (credentials (seen "credentials")));
  gs ← queryAll (ok "runtime_groups") id (ordered (runtime_groups (seen "runtime_groups")));
  ts ← queryAll (ok "runtime_enroll_tokens") id (ordered (runtime_enroll_tokens (seen "runtime_enroll_tokens")));
  ds ← queryAll (ok "devices") id (ordered (devices (seen "devices")));
  rs ← queryAll (ok "alert_rules") ruleOf (ordered (alert_rules (seen "alert_rules")));
  _ ← guard_err (ok "commit" 0%nat) "api: committing export transaction";
  Ok (MkBundle backupFormatVersion now us ps ms fs vs cs ks gs ts ds rs).

(** ** Restore *)

(** The columns of other tables that refer to a table's rows. *)
Definition references (db : DB) (table : string) : list (string * list (option string)) :=
  if decide (table = "users") then
    [("sessions", map (fun r => Some r.2) (sessions db)); ("project_members", map (fun m => Some (m_UserID m)) (project_members db))]
  else if decide (table = "projects") then
    [("project_members", map (fun m => Some (m_ProjectID m)) (project_members db)); ("flows", map (fun f => Some (f_ProjectID (f_row f))) (flows db));
     ("connections", map (fun c => Some (c_ProjectID c)) (connections db)); ("credentials", map (fun k => Some (k_ProjectID k)) (credentials db));
     ("environment_profiles", map (fun e => Some (e_project e)) (environment_profiles db))]
  else if decide (table = "flows") then
    [("flow_versions", map (fun v => Some (FlowID v)) (flow_versions db)); ("debug_pins", map (fun r => Some r.2) (debug_pins db));
     ("executions", map (fun r => Some r.2) (executions db)); ("dead_letters", map (fun r => Some r.2) (dead_letters db))]
  else if decide (table = "executions") then [("execution_node_io", map (fun r => Some r.2) (execution_node_io db))]
  else if decide (table = "runtime_groups") then
    [("runtime_enroll_tokens", map t_GroupName (runtime_enroll_tokens db)); ("devices", map d_GroupName (devices db))]
  else if decide (table = "runtime_enroll_tokens") then [("devices", map EnrollTokenID (devices db))]
  else if decide (table = "alert_rules") then [("alerts", map (fun r => Some r.2) (alerts db))]
  else [].
(** [DELETE FROM table] after the tables in [gone]: no row left refers to it. *)
Definition deletable (fk : bool) (db : DB) (gone : list string) (table : string) : bool :=
  negb fk || forallb (fun '(child, refs) => bool_decide (child ∈ gone) || forallb (fun r => negb (bool_decide (is_Some r))) refs) (references db table).
Definition restoreTables : list string :=
  ["debug_pins"; "execution_node_io"; "executions"; "dead_letters"; "alerts"; "project_members"; "flow_versions"; "flows"; "connections";
   "credentials"; "devices"; "runtime_enroll_tokens"; "runtime_groups"; "alert_rules"; "sessions"; "projects"; "users"].
Fixpoint clearTables (fk : bool) (ok : string -> nat -> bool) (db : DB) (gone tables : list string) : bool :=
  match tables with
  | [] => true
  | t :: tables' => ok t 0%nat && deletable fk db gone t && clearTables fk ok db (t :: gone) tables'
  end.

(** The inserts of one table: the keys and the references of every row are checked. *)
Definition conflict {A} `{Table A} (tbl : list A) (r : A) : bool :=
  bool_decide (pk r ∈ map pk tbl) || match alt r with Some x => bool_decide (x ∈ omap alt tbl) | None => false end.
Fixpoint insertAll {A} `{Table A} (ok : nat -> bool) (i : nat) (refOK : A -> bool) (tbl rows : list A) : res string (list A) :=
  match rows with
  | [] => Ok tbl
  | r :: rows' =>
      if ok i && negb (conflict tbl r) && refOK r then insertAll ok (S i) refOK (tbl ++ [r]) rows' else Err "api: restoring"
  end.
Definition has (fk : bool) (ids : list string) (x : string) : bool := negb fk || bool_decide (x ∈ ids).
Definition hasOpt (fk : bool) (ids : list string) (x : option string) : bool := match x with Some x => has fk ids x | None => true end.
Definition rowOfRule (r : backupAlertRule) : ruleRow :=
  MkRuleRow (a_ID r) (a_Name r) (Metric r) (TargetRuntimeID r) (WebhookURL r) (if Enabled r then 1 else 0) (a_CreatedAt r).

(** The transaction; an error rolls it back. *)
Definition restore (fk : bool) (ok : string -> nat -> bool) (db : DB) (b : Bundle) : res string DB :=
  _ ← guard_err (ok "begin" 0%nat) "api: beginning restore transaction";
  _ ← guard_err (clearTables fk ok db [] restoreTables) "api: clearing";
  us ← insertAll (ok "users") 1 (fun _ => true) [] (Users b);
  ps ← insertAll (ok "projects") 1 (fun _ => true) [] (Projects b);
  ms ← insertAll (ok "project_members") 1 (fun m => has fk (map p_ID ps) (m_ProjectID m) && has fk (map u_ID us) (m_UserID m)) [] (ProjectMembers b);
  fs ← insertAll (ok "flows") 1 (fun f => has fk (map p_ID ps) (f_ProjectID (f_row f))) [] (map (fun f => MkFlowRow f None) (Flows b));
  vs ← insertAll (ok "flow_versions") 1 (fun v => has fk (map (fun f => f_ID (f_row f)) fs) (FlowID v)) [] (FlowVersions b);
  cs ← insertAll (ok "connections") 1 (fun c => has fk (map p_ID ps) (c_ProjectID c)) [] (Connections b);
  ks ← insertAll (ok "credentials") 1 (fun k => has fk (map p_ID ps) (k_ProjectID k)) [] (Credentials b);
  gs ← insertAll (ok "runtime_groups") 1 (fun _ => true) [] (RuntimeGroups b);
  ts ← insertAll (ok "runtime_enroll_tokens") 1 (fun t => hasOpt fk (map g_Name gs) (t_GroupName t)) [] (RuntimeEnrollTokens b);
  ds ← insertAll (ok "devices") 1 (fun d => hasOpt fk (map g_Name gs) (d_GroupName d) && hasOpt fk (map t_ID ts) (EnrollTokenID d)) [] (Devices b);
  rs ← insertAll (ok "alert_rules") 1 (fun _ => true) [] (map rowOfRule (AlertRules b));
  _ ← guard_err (ok "commit" 0%nat) "api: committing restore transaction";
  Ok (MkDB us ps ms fs vs cs ks gs ts ds rs (environment_profiles db) [] [] [] [] [] [] (audit_log db)).
Definition RestoreBackup (fk : bool) (ok : string -> nat -> bool) (db : DB) (b : Bundle) : DB * res string unit :=
  match restore fk ok db b with Ok db' => (db', Ok tt) | Err e => (db, Err e) | Panic => (db, Panic) end.

(** ** Handlers *)

Definition logAudit (ok : bool) (db : DB) (entry : string) : DB :=
  if ok then
    MkDB (users db) (projects db) (project_members db) (flows db) (flow_versions db) (connections db) (credentials db) (runtime_groups db)
      (runtime_enroll_tokens db) (devices db) (alert_rules db) (environment_profiles db) (sessions db) (debug_pins db) (executions db)
      (execution_node_io db) (dead_letters db) (alerts db) (audit_log db ++ [entry])
  else db.
Definition exportBackup (ok : string -> nat -> bool) (now : Z) (seen : string -> DB) (db : DB) (user : auth.User) : DB * (Z * option Bundle) :=
  if negb (bool_decide (auth.SystemRole user = auth.SystemRoleAdmin)) then (db, (403, None))
  else match ExportBackup ok now seen with
       | Ok b => (logAudit (ok "audit_log" 0%nat) db "backup.export", (200, Some b))
       | _ => (db, (500, None))
       end.
(** The body: the confirmation and the bundle. *)
Definition restoreBackup (fk : bool) (ok : string -> nat -> bool) (db : DB) (user : auth.User) (req : option (bool * Bundle)) : DB * Z :=
  if negb (bool_decide (auth.SystemRole user = auth.SystemRoleAdmin)) then (db, 403)
  else match req with
       | None => (db, 400)
       | Some (confirm, b) =>
           if negb confirm then (db, 400)
           else match RestoreBackup fk ok db b with
                | (db', Ok _) => (logAudit (ok "audit_log" 0%nat) db' "backup.restore", 200)
                | (db', _) => (db', 500)
                end
       end.
(** ** A restored backup is the configuration that was exported *)

Definition keys_ok {A} `{Table A} (l : list A) : Prop := NoDup (map pk l) /\ NoDup (omap alt l).
(** The constraints of the schema on the exported tables. *)
Definition keysValid (db : DB) : Prop :=
  keys_ok (users db) /\ keys_ok (projects db) /\ keys_ok (project_members db) /\ keys_ok (flows db) /\ keys_ok (flow_versions db) /\
  keys_ok (connections db) /\ keys_ok (credentials db) /\ keys_ok (runtime_groups db) /\ keys_ok (runtime_enroll_tokens db) /\
  keys_ok (devices db) /\ keys_ok (alert_rules db).
Definition refsValid (fk : bool) (db : DB) : Prop :=
  Forall (fun m => has fk (map p_ID (projects db)) (m_ProjectID m) && has fk (map u_ID (users db)) (m_UserID m) = true) (project_members db) /\
  Forall (fun f => has fk (map p_ID (projects db)) (f_ProjectID (f_row f)) = true) (flows db) /\
  Forall (fun v => has fk (map (fun f => f_ID (f_row f)) (flows db)) (FlowID v) = true) (flow_versions db) /\
  Forall (fun c => has fk (map p_ID (projects db)) (c_ProjectID c) = true) (connections db) /\
  Forall (fun k => has fk (map p_ID (projects db)) (k_ProjectID k) = true) (credentials db) /\
  Forall (fun t => hasOpt fk (map g_Name (runtime_groups db)) (t_GroupName t) = true) (runtime_enroll_tokens db) /\
  Forall (fun d => hasOpt fk (map g_Name (runtime_groups db)) (d_GroupName d) &&
                   hasOpt fk (map t_ID (runtime_enroll_tokens db)) (EnrollTokenID d) = true) (devices db).
(** The flag of a rule is stored as 0 or 1. *)
Definition valid (fk : bool) (db : DB) : Prop :=
  keysValid db /\ refsValid fk db /\ Forall (fun r => r_enabled r = 0 \/ r_enabled r = 1) (alert_rules db).

(** *** The order of the export *)

Lemma pk_leb_total a b : pk_leb a b = false -> pk_leb b a = true.
Proof.
  destruct a as [[s t] z], b as [[s' t'] z']. unfold pk_leb. repeat case_decide; subst; try done; try apply str_leb_total.
  rewrite Z.leb_gt, Z.leb_le. lia.
Qed.
Lemma pk_leb_antisym a b : pk_leb a b = true -> pk_leb b a = true -> a = b.
Proof.
  destruct a as [[s t] z], b as [[s' t'] z']. unfold pk_leb. repeat case_decide; subst; try done.
  - rewrite !Z.leb_le. intros. f_equal. lia.
  - intros Ha Hb. by pose proof (str_leb_antisym _ _ Ha Hb).
  - intros Ha Hb. by pose proof (str_leb_antisym _ _ Ha Hb).
Qed.
Lemma pk_leb_trans a b c : pk_leb a b = true -> pk_leb b c = true -> pk_leb a c = true.
Proof.
  destruct a as [[s t] z], b as [[s' t'] z'], c as [[s2 t2] z2]. unfold pk_leb. repeat case_decide; subst; try done;
    try (intros Ha Hb; by eapply str_leb_trans); try (intros Ha Hb; by pose proof (str_leb_antisym _ _ Ha Hb)).
  rewrite !Z.leb_le. lia.
Qed.

Section tables.
Context {A : Type} `{Table A}.
Implicit Types l k : list A.

#[local] Instance pk_le_total : Total (pk_le (A := A)).
Proof. intros x y. unfold pk_le. destruct (pk_leb (pk x) (pk y)) eqn:E; [by left|right; by apply pk_leb_total]. Qed.
#[local] Instance pk_le_trans : Transitive (pk_le (A := A)).
Proof. intros x y z. apply pk_leb_trans. Qed.
Lemma ordered_permutes l : ordered l ≡ₚ l.
Proof. apply merge_sort_Permutation. Qed.
Lemma ordered_sorted l : StronglySorted pk_le (ordered l).
Proof. apply StronglySorted_merge_sort; apply _. Qed.
Lemma pk_inj l x y : NoDup (map pk l) -> x ∈ l -> y ∈ l -> pk x = pk y -> x = y.
Proof.
  induction l as [|z l IH]; intros Hn Hx Hy E; [by apply elem_of_nil in Hx|]. cbn in Hn. apply NoDup_cons in Hn as [Hz Hn].
  apply elem_of_cons in Hx as [->|Hx]; apply elem_of_cons in Hy as [->|Hy]; [done| | |by apply IH].
  - destruct Hz. apply list_elem_of_fmap. eauto.
  - destruct Hz. apply list_elem_of_fmap. eauto.
Qed.
Lemma sorted_ordered l : StronglySorted pk_le l -> NoDup (map pk l) -> ordered l = l.
Proof.
  intros Hs Hn. eapply (StronglySorted_unique_strong pk_le); [|apply ordered_sorted|done|apply ordered_permutes].
  intros x y Hx Hy H1 H2. rewrite ordered_permutes in Hx. eapply pk_inj; [done..|]. by apply pk_leb_antisym.
Qed.
Lemma keys_perm l k : l ≡ₚ k -> keys_ok l -> keys_ok k.
Proof. intros Hp [H1 H2]. split; [by rewrite <- Hp|]. by rewrite <- Hp. Qed.
Lemma keys_ordered l : keys_ok l -> keys_ok (ordered l).
Proof. apply keys_perm. by rewrite ordered_permutes. Qed.
Lemma ordered_twice l : keys_ok l -> ordered (ordered l) = ordered l.
Proof. intros Hk. apply sorted_ordered; [apply ordered_sorted|]. apply keys_ordered, Hk. Qed.
Lemma Forall_ordered (P : A -> Prop) l : Forall P l -> Forall P (ordered l).
Proof. by rewrite ordered_permutes. Qed.

Lemma insertAll_ok ok i refOK tbl rows : (forall j, ok j = true) -> keys_ok (tbl ++ rows) -> Forall (fun r => refOK r = true) rows ->
  insertAll ok i refOK tbl rows = Ok (tbl ++ rows).
Proof.
  intros Hok. revert i tbl. induction rows as [|r rows IH]; intros i tbl Hk Hr; cbn [insertAll]; [by rewrite app_nil_r|].
  apply Forall_cons in Hr as [Hr Hrs]. rewrite Hok, Hr, andb_true_r. cbn [andb].
  assert (conflict tbl r = false) as ->.
  { unfold conflict. destruct Hk as [H1 H2]. rewrite map_app in H1. rewrite omap_app in H2. apply orb_false_iff. split.
    - apply bool_decide_false. intros Hin. apply NoDup_app in H1 as (_ & H1 & _). apply (H1 _ Hin). cbn. apply elem_of_cons. by left.
    - destruct (alt r) as [x|] eqn:E; [|done]. apply bool_decide_false. intros Hin. apply NoDup_app in H2 as (_ & H2 & _).
      apply (H2 _ Hin). cbn. rewrite E. apply elem_of_cons. by left. }
  cbn [negb]. rewrite IH; [by rewrite <- app_assoc| |done]. by rewrite <- app_assoc.
Qed.
End tables.

(** *** Rows that keep their keys *)

Lemma map_keys {A B} `{Table A, Table B} (f : A -> B) l : (forall x, pk (f x) = pk x /\ alt (f x) = alt x) -> keys_ok l -> keys_ok (map f l).
Proof.
  intros Hf [H1 H2]. split.
  - rewrite map_map. rewrite (map_ext _ pk); [done|]. intros x. apply Hf.
  - assert (omap alt (map f l) = omap alt l) as ->; [|done]. clear -Hf. induction l as [|x l IH]; [done|]. cbn. by rewrite (proj2 (Hf x)), IH.
Qed.
Lemma map_sorted {A B} `{Table A, Table B} (f : A -> B) l : (forall x, pk (f x) = pk x) -> StronglySorted pk_le l -> StronglySorted pk_le (map f l).
Proof.
  intros Hf. induction 1 as [|x l Hs IH Hx]; cbn; constructor; [done|]. apply Forall_fmap. eapply Forall_impl; [exact Hx|].
  intros y Hy. cbn. unfold pk_le in *. by rewrite !Hf.
Qed.

Lemma rule_back r : r_enabled r = 0 \/ r_enabled r = 1 -> rowOfRule (ruleOf r) = r.
Proof. destruct r. cbn. by intros [-> | ->]. Qed.
Lemma rules_back l : Forall (fun r => r_enabled r = 0 \/ r_enabled r = 1) l -> map rowOfRule (map ruleOf l) = l.
Proof. intros H. rewrite map_map, <- (map_id l) at 1. rewrite map_id. induction H as [|r l Hr _ IH]; [done|]. cbn. by rewrite rule_back, IH. Qed.

Lemma has_mono fk ids ids' x : (forall y, y ∈ ids -> y ∈ ids') -> has fk ids x = true -> has fk ids' x = true.
Proof. unfold has. intros Hs. destruct fk; cbn; [|done]. rewrite !bool_decide_eq_true. auto. Qed.
Lemma hasOpt_mono fk ids ids' x : (forall y, y ∈ ids -> y ∈ ids') -> hasOpt fk ids x = true -> hasOpt fk ids' x = true.
Proof. destruct x; [|done]. apply has_mono. Qed.
Lemma in_ordered {A} `{Table A} (f : A -> string) l y : y ∈ map f l -> y ∈ map f (ordered l).
Proof. by rewrite ordered_permutes. Qed.

(** *** The deletions *)

Lemma clearTables_ok fk ok db : (forall t i, ok t i = true) -> (fk = true -> environment_profiles db = []) ->
  clearTables fk ok db [] restoreTables = true.
Proof.
  intros Hok He. unfold restoreTables. cbn [clearTables]. rewrite !Hok. destruct fk; [|reflexivity].
  unfold deletable, references. rewrite He by done. vm_compute. reflexivity.
Qed.
Lemma clearTables_each fk ok db t tables : forall gone, clearTables fk ok db gone tables = true -> t ∈ tables ->
  exists gone', deletable fk db gone' t = true /\ forall x, x ∈ gone' -> x ∈ gone \/ x ∈ tables.
Proof.
  induction tables as [|t' tables IH]; intros gone H Hin; [by apply elem_of_nil in Hin|]. cbn [clearTables] in H.
  apply andb_true_iff in H as [[_ Hd]%andb_true_iff H]. apply elem_of_cons in Hin as [->|Hin]; [exists gone; auto|].
  destruct (IH _ H Hin) as (gone' & Hd' & Hg). exists gone'. split; [done|]. intros x [[->|Hx]%elem_of_cons|Hx]%Hg; rewrite ?elem_of_cons; auto.
Qed.
Lemma profiles_block db gone : environment_profiles db <> [] -> "environment_profiles" ∉ gone -> deletable true db gone "projects" = false.
Proof.
  intros He Hg. unfold deletable. cbn [negb orb]. apply not_true_is_false. rewrite forallb_forall. intros H.
  specialize (H ("environment_profiles", map (fun e => Some (e_project e)) (environment_profiles db))). cbn beta iota in H.
  assert (In ("environment_profiles", map (fun e => Some (e_project e)) (environment_profiles db)) (references db "projects")) as Hin
    by (do 4 right; left; reflexivity).
  apply H in Hin. rewrite bool_decide_false in Hin by done. destruct (environment_profiles db); [done|]. cbn in Hin. done.
Qed.

(** What a restore leaves of the configuration: flows lose their environment profile. *)
Definition withoutProfile (f : flowRow) : flowRow := MkFlowRow (f_row f) None.
Definition sameConfig (src dst : DB) : Prop :=
  users dst ≡ₚ users src /\ projects dst ≡ₚ projects src /\ project_members dst ≡ₚ project_members src /\
  flows dst ≡ₚ map withoutProfile (flows src) /\ flow_versions dst ≡ₚ flow_versions src /\ connections dst ≡ₚ connections src /\
  credentials dst ≡ₚ credentials src /\ runtime_groups dst ≡ₚ runtime_groups src /\
  runtime_enroll_tokens dst ≡ₚ runtime_enroll_tokens src /\ devices dst ≡ₚ devices src /\ alert_rules dst ≡ₚ alert_rules src.
(** The database that a restore of the export of [src] into [tgt] leaves. *)
Definition restored (src tgt : DB) : DB :=
  MkDB (ordered (users src)) (ordered (projects src)) (ordered (project_members src)) (map withoutProfile (ordered (flows src)))
    (ordered (flow_versions src)) (ordered (connections src)) (ordered (credentials src)) (ordered (runtime_groups src))
    (ordered (runtime_enroll_tokens src)) (ordered (devices src)) (ordered (alert_rules src)) (environment_profiles tgt)
    [] [] [] [] [] [] (audit_log tgt).
Definition exported (now : Z) (db : DB) : Bundle :=
  MkBundle backupFormatVersion now (ordered (users db)) (ordered (projects db)) (ordered (project_members db)) (map f_row (ordered (flows db)))
    (ordered (flow_versions db)) (ordered (connections db)) (ordered (credentials db)) (ordered (runtime_groups db))
    (ordered (runtime_enroll_tokens db)) (ordered (devices db)) (map ruleOf (ordered (alert_rules db))).

Lemma ExportBackup_ok ok now db : (forall t i, ok t i = true) -> ExportBackup ok now (fun _ => db) = Ok (exported now db).
Proof. intros Hok. unfold ExportBackup, queryAll. rewrite !Hok. cbn [guard_err mbind res_bind]. by rewrite !map_id. Qed.

Lemma withoutProfile_rows l : map (fun f => MkFlowRow f None) (map f_row l) = map withoutProfile l.
Proof. by rewrite map_map. Qed.

Lemma load {A} `{Table A} ok refOK (l : list A) : (forall j, ok j = true) -> keys_ok l -> Forall (fun r => refOK r = true) l ->
  insertAll ok 1 refOK [] (ordered l) = Ok (ordered l).
Proof. intros Hok Hk Hr. apply (insertAll_ok ok 1 refOK []); [done|by apply keys_ordered|by apply Forall_ordered]. Qed.
Lemma all_true {A} (l : list A) : Forall (fun _ => true = true) l.
Proof. by apply Forall_true. Qed.

Lemma restore_ok fk ok src tgt now : (forall t i, ok t i = true) -> valid fk src -> (fk = true -> environment_profiles tgt = []) ->
  restore fk ok tgt (exported now src) = Ok (restored src tgt).
Proof.
  intros Hok ((Ku & Kp & Km & Kf & Kv & Kc & Kk & Kg & Kt & Kd & Kr) & (Rm & Rf & Rv & Rc & Rk & Rt & Rd) & He) Hfk.
  unfold restore. rewrite Hok, clearTables_ok by done. cbn [guard_err mbind res_bind]. unfold exported.
  cbn [Users Projects ProjectMembers Flows FlowVersions Connections Credentials RuntimeGroups RuntimeEnrollTokens Devices AlertRules].
  rewrite (load (ok "users")), (load (ok "projects")) by auto using all_true. cbn [mbind res_bind].
  rewrite (load (ok "project_members")); [|auto|done|].
  2: { eapply Forall_impl; [exact Rm|]. intros m [H1 H2]%andb_true_iff. apply andb_true_iff. split; (eapply has_mono; [apply in_ordered|done]). }
  cbn [mbind res_bind]. rewrite withoutProfile_rows, (insertAll_ok (ok "flows")); [|auto|by apply map_keys, keys_ordered|].
  2: { apply Forall_fmap, Forall_ordered. eapply Forall_impl; [exact Rf|]. intros f Hf. cbn. by eapply has_mono; [apply in_ordered|]. }
  cbn [app mbind res_bind]. rewrite (load (ok "flow_versions")); [|auto|done|].
  2: { eapply Forall_impl; [exact Rv|]. intros v. apply has_mono. intros y Hy. rewrite map_map. by apply in_ordered. }
  cbn [mbind res_bind].
  rewrite (load (ok "connections")), (load (ok "credentials")), (load (ok "runtime_groups"));
    [|auto using all_true..|auto|done| |auto|done|].
  cbn [mbind res_bind]. rewrite (load (ok "runtime_enroll_tokens")); [|auto|done|].
  2: { eapply Forall_impl; [exact Rt|]. intros c. apply hasOpt_mono, in_ordered. }
  cbn [mbind res_bind]. rewrite (load (ok "devices")); [|auto|done|].
  2: { eapply Forall_impl; [exact Rd|]. intros d [H1 H2]%andb_true_iff. apply andb_true_iff. split; (eapply hasOpt_mono; [apply in_ordered|done]). }
  cbn [mbind res_bind]. rewrite rules_back by (by apply Forall_ordered). rewrite (load (ok "alert_rules")) by auto using all_true.
  cbn [mbind res_bind]. rewrite Hok. done.
  all: (eapply Forall_impl; [eassumption|]); intros c; apply has_mono, in_ordered.
Qed.

Lemma restored_config src tgt : sameConfig src (restored src tgt).
Proof. unfold sameConfig, restored. cbn. rewrite !ordered_permutes. split_and!; reflexivity. Qed.
Lemma exported_restored now src tgt : keysValid src -> exported now (restored src tgt) = exported now src.
Proof.
  intros (Ku & Kp & Km & Kf & Kv & Kc & Kk & Kg & Kt & Kd & Kr). unfold exported, restored. cbn. rewrite !ordered_twice by done.
  f_equal. rewrite sorted_ordered; [by rewrite map_map|apply map_sorted; [done|apply ordered_sorted]|].
  apply (map_keys withoutProfile (ordered (flows src))); [done|]. by apply keys_ordered.
Qed.

(** [C14] Backups round-trip, except for the profiles that flows use: the export of a database that
    satisfies its schema restores, when all statements succeed, into any database that has no
    environment profiles or does not enforce foreign keys, as the same users, projects, members,
    versions, connections, credentials, groups, tokens, devices and alert rules, and as the same flows but
    for their active profile: a bundle does not carry [active_profile_id], so every
    restored flow has none.  Every session and all operational history is gone, the audit log and the
    environment profiles of the target stay, and exporting again gives the same bundle. *)
Theorem backup_roundtrip fk ok src tgt now : (forall t i, ok t i = true) -> valid fk src -> (fk = true -> environment_profiles tgt = []) ->
  exists b db', ExportBackup ok now (fun _ => src) = Ok b /\ RestoreBackup fk ok tgt b = (db', Ok tt) /\ sameConfig src db' /\
    sessions db' = [] /\ debug_pins db' = [] /\ executions db' = [] /\ execution_node_io db' = [] /\ dead_letters db' = [] /\ alerts db' = [] /\
    audit_log db' = audit_log tgt /\ environment_profiles db' = environment_profiles tgt /\
    ExportBackup ok now (fun _ => db') = Ok b.
Proof.
  intros Hok Hv Hfk. exists (exported now src), (restored src tgt). rewrite !ExportBackup_ok by done.
  unfold RestoreBackup. rewrite restore_ok by done. split_and!; try reflexivity; [apply restored_config|].
  rewrite exported_restored; [done|apply Hv].
Qed.

(** A database that enforces foreign keys and has an environment profile cannot be restored
    into: the profiles are not cleared, and their projects cannot be deleted. *)
Lemma profiles_block_restore ok tgt b : environment_profiles tgt <> [] -> exists e, RestoreBackup true ok tgt b = (tgt, Err e).
Proof.
  intros He. unfold RestoreBackup, restore. destruct (ok "begin" 0%nat); cbn [guard_err mbind res_bind]; [|eauto].
  destruct (clearTables true ok tgt [] restoreTables) eqn:E; [|cbn; eauto].
  apply (clearTables_each true ok tgt "projects") in E as (gone & Hd & Hg); [|apply (bool_decide_unpack _); vm_compute; exact I].
  rewrite profiles_block in Hd; [done|done|]. intros [?%elem_of_nil|Hin]%Hg; [done|].
  revert Hin. apply (bool_decide_unpack _). vm_compute. exact I.
Qed.

(** A restore is all or nothing: unless the answer is 200 the database is as it was,
    whatever statement failed; 200 is only given to a system administrator who confirmed, and
    then the configuration is the one that the whole transaction built. *)
Theorem restore_all_or_nothing fk ok db user req :
  let '(db', status) := restoreBackup fk ok db user req in
  (status <> 200 -> db' = db) /\
  (status = 200 -> auth.SystemRole user = auth.SystemRoleAdmin /\
     exists b r, req = Some (true, b) /\ restore fk ok db b = Ok r /\ db' = logAudit (ok "audit_log" 0%nat) r "backup.restore").
Proof.
  unfold restoreBackup, RestoreBackup. case_bool_decide as Ha; cbn [negb]; [|split; [done|lia]].
  destruct req as [[[] b]|]; cbn [negb]; [|split; [done|lia]..].
  destruct (restore fk ok db b) as [r| |] eqn:E; (split; [done || lia|]); [|lia..]. intros _. split; [done|]. by exists b, r.
Qed.

Module examples.
Definition yes : string -> nat -> bool := fun _ _ => true.
Definition ann : backupUser := MkBackupUser "u1" "ann" "h" "system_admin" "t0".
Definition bob : backupUser := MkBackupUser "u0" "bob" "h" "none" "t0".
Definition plant : backupProject := MkBackupProject "p1" "plant" "" "t0" None.
Definition flow : flowRow := MkFlowRow (MkBackupFlow "f1" "p1" "line" "{}" (Some 2) "t0" "t1" "info") (Some "e1").
Definition version (n : Z) : backupFlowVersion := MkBackupFlowVersion "f1" n "{}" "ann" "" "t1" None.
Definition conn : backupConnection := MkBackupConnection "c1" "p1" "db" "sql" "{}" (Some "k1").
Definition cred : backupCredential := MkBackupCredential "k1" "p1" "db" 1 "w" "n" "c" "n" "t0".
Definition grp : backupRuntimeGroup := MkBackupRuntimeGroup "edge" "" "t0".
Definition tok : backupEnrollToken := MkBackupEnrollToken "t1" "hash" "" (Some "edge") "u1" "t0" (Some "r1") None.
Definition dev : backupDevice := MkBackupDevice "r1" "edge" "" (Some "edge") (Some "t1") "t1".
Definition rule : ruleRow := MkRuleRow "a1" "down" "connectionDown" "" "" 1 "t0".
Definition profile : profileRow := MkProfileRow "e1" "p1" "prod" "{}" "t0".
Definition src : DB :=
  MkDB [ann; bob] [plant] [MkBackupProjectMember "p1" "u0" "editor"] [flow] [version 2; version 1] [conn] [cred] [grp] [tok] [dev] [rule] [profile]
    [("s", "u1")] [] [("x1", "f1")] [] [] [] ["e"].
Definition empty : DB := MkDB [ann] [] [] [] [] [] [] [] [] [] [] [] [("s2", "u1")] [] [] [] [] [] ["start"].
Lemma src_valid : valid true src.
Proof. unfold valid, keysValid, refsValid, keys_ok. split_and!; apply (bool_decide_unpack _); vm_compute; exact I. Qed.

Lemma backup_roundtrip_witness : exists b db', ExportBackup yes 7 (fun _ => src) = Ok b /\ RestoreBackup true yes empty b = (db', Ok tt) /\ sameConfig src db' /\
  sessions db' = [] /\ debug_pins db' = [] /\ executions db' = [] /\ execution_node_io db' = [] /\ dead_letters db' = [] /\ alerts db' = [] /\
  audit_log db' = audit_log empty /\ environment_profiles db' = environment_profiles empty /\ ExportBackup yes 7 (fun _ => db') = Ok b.
Proof. apply (backup_roundtrip true yes src empty 7); [done|exact src_valid|done]. Defined.

(** The profile of a flow is in no backup: after a restore into its own database the flow has
    none, although the profile is still there. *)
Lemma profile_is_lost : active_profile_id <$> flows src = [Some "e1"] /\
  active_profile_id <$> flows (RestoreBackup false yes src (exported 7 src)).1 = [None] /\
  environment_profiles (RestoreBackup false yes src (exported 7 src)).1 = [profile].
Proof. vm_compute. repeat split. Qed.

(** A member and its user added between two queries of an export: the bundle has the member
    without the user and cannot be restored where foreign keys are enforced. *)
Definition later : DB := MkDB [ann; bob] [plant] [MkBackupProjectMember "p1" "u0" "editor"] [] [] [] [] [] [] [] [] [] [] [] [] [] [] [] [].
Definition earlier : DB := MkDB [ann] [plant] [] [] [] [] [] [] [] [] [] [] [] [] [] [] [] [] [].
Definition seen (t : string) : DB := if decide (t = "users") then earlier else later.
Lemma torn_export : exists b, ExportBackup yes 7 seen = Ok b /\ RestoreBackup true yes empty b = (empty, Err "api: restoring").
Proof. eexists. split; vm_compute; reflexivity. Qed.

Definition root : auth.User := auth.MkUser "u1" "ann" auth.SystemRoleAdmin "h" 0.
Lemma restore_all_or_nothing_witness :
  (restoreBackup false yes empty root (Some (false, exported 7 src))).1 = empty.
Proof.
  pose proof (restore_all_or_nothing false yes empty root (Some (false, exported 7 src))) as H. cbn in H. exact (proj1 H ltac:(discriminate)).
Defined.
End examples.
End backup.
