(* ===== verification/SetNode.v ===== *)
(** * The set node ([engine/nodes/set])

    Writes literal values at paths of the payload.  Objects are values here: [deepCopy] makes
    the objects of the input unreachable from the result, and the objects of the configuration
    that end up in a result are only ever overwritten with the same values. *)

From S2P Require Import Prelude GoStd Datagram Execution Value.
Import gostd datagram execution value.
Local Open Scope Z_scope.

Module set_.
Record SetOp := MkSetOp { Path : string; Value_ : any }.
Record Config := MkConfig { Sets : list SetOp }.
Definition New (cfg : Config) : res string Config := Ok cfg.
Definition applySet (root : any) (path : string) (value : any) : any := applyPath root path value.
Definition sets (ops : list SetOp) (value : any) : any := fold_left (fun v op => applySet v (Path op) (Value_ op)) ops value.
Definition Process (cfg : Config) (id : string) (now : Z) (inp : dgram) : nodeResult :=
  Ok [MkPortDatagram "out" (caused id now inp (sets (Sets cfg) (Value (payload inp))))].

(** Two paths of which neither lies below the other. *)
Definition apart (p q : string) : Prop :=
  p <> "" /\ q <> "" /\ ~ splitDots p `prefix_of` splitDots q /\ ~ splitDots q `prefix_of` splitDots p.
Lemma walk_nil ks : walk ANil ks = ANil.
Proof. by destruct ks. Qed.
Lemma walk_empty k ks : walk (AMap []) (k :: ks) = ANil.
Proof. cbn. apply walk_nil. Qed.
Lemma walk_setPath_other keys v : forall m keys', ~ keys `prefix_of` keys' -> ~ keys' `prefix_of` keys ->
  walk (AMap (setPath m keys v)) keys' = walk (AMap m) keys'.
Proof.
  induction keys as [|k ks IH]; intros m keys' H1 H2; [destruct H1; apply prefix_nil|].
  destruct keys' as [|k' ks']; [destruct H2; apply prefix_nil|].
  destruct (decide (k = k')) as [<-|Hne].
  - assert (~ ks `prefix_of` ks') as H1' by (intros H; by apply H1, prefix_cons).
    assert (~ ks' `prefix_of` ks) as H2' by (intros H; by apply H2, prefix_cons).
    destruct ks as [|k2 ks]; [destruct H1'; apply prefix_nil|].
    destruct ks' as [|k2' ks']; [destruct H2'; apply prefix_nil|].
    change (walk (AMap (setPath m (k :: k2 :: ks) v)) (k :: k2' :: ks'))
      with (walk (default ANil (mget (mset m k (AMap (setPath (match mget m k with Some (AMap m') => m' | _ => [] end) (k2 :: ks) v))) k)) (k2' :: ks')).
    change (walk (AMap m) (k :: k2' :: ks')) with (walk (default ANil (mget m k)) (k2' :: ks')).
    rewrite mget_mset, decide_True by done. cbn [from_option]. unfold id at 1.
    rewrite IH by done. destruct (mget m k) as [[]|]; try apply walk_empty. done.
  - assert (forall x, walk (AMap (mset m k x)) (k' :: ks') = walk (AMap m) (k' :: ks')) as Hm.
    { intros x. cbn [walk]. by rewrite mget_mset, decide_False. }
    destruct ks; apply Hm.
Qed.
Lemma fieldValue_other root path v path' : apart path path' -> fieldValue (applyPath root path v) path' = fieldValue root path'.
Proof.
  intros (H1 & H2 & H3 & H4). unfold fieldValue, applyPath. rewrite !decide_False by done. rewrite walk_setPath_other by done.
  destruct root; try done; destruct (splitDots path') as [|k ks] eqn:E; try (by apply splitDots_nonempty in E); apply walk_empty.
Qed.
Lemma sets_other ops p : forall v, Forall (fun op => apart (Path op) p) ops -> fieldValue (sets ops v) p = fieldValue v p.
Proof.
  induction ops as [|op ops IH]; intros v H; [done|]. apply Forall_cons in H as [Ho H]. cbn. fold (sets ops (applySet v (Path op) (Value_ op))).
  rewrite IH by done. by apply fieldValue_other.
Qed.

(** The set node writes what its operations say and nothing else: every datagram gives one
    datagram, caused by it, in which a path holds the value of the last operation that touches
    it, and a path that no operation touches holds what it held in the input. *)
Theorem set_writes_exactly cfg id now inp :
  exists d, Process cfg id now inp = Ok [MkPortDatagram "out" d] /\ d = caused id now inp (Value (payload d)) /\
    (forall p, Forall (fun op => apart (Path op) p) (Sets cfg) -> fieldValue (Value (payload d)) p = fieldValue (Value (payload inp)) p) /\
    (forall before op after, Sets cfg = before ++ op :: after -> Forall (fun op' => apart (Path op') (Path op)) after ->
       fieldValue (Value (payload d)) (Path op) = Value_ op).
Proof.
  eexists. split; [reflexivity|]. split; [reflexivity|]. cbn [caused NewCaused payload Value]. split; [intros p; apply sets_other|].
  intros before op after -> Ha. unfold sets. rewrite fold_left_app. cbn [fold_left].
  etransitivity; [apply (sets_other after (Path op) _ Ha)|apply fieldValue_applyPath].
Qed.

Module examples.
Definition input : dgram :=
  NewCaused "d1" 5 (MkDatagram (MkHeader "d0" "c" "" 0 None (MkSource "" "" "" "" "") "" "" QualityGood 0 None None) (MkPayload ANil None) [])
    (MkSource "" "" "" "" "") (MkPayload (AMap [("a", AMap [("x", AInt 1); ("y", AInt 2)]); ("b", AInt 3)]) None).
Definition cfg : Config := MkConfig [MkSetOp "a.x" (AInt 7); MkSetOp "c.d" (AStr "new"); MkSetOp "a.x" (AInt 8)].
(** The last write wins, its neighbours stay. *)
Lemma set_writes_exactly_witness : exists d, Process cfg "d2" 6 input = Ok [MkPortDatagram "out" d] /\
  fieldValue (Value (payload d)) "a.x" = AInt 8 /\ fieldValue (Value (payload d)) "a.y" = AInt 2.
Proof.
  destruct (set_writes_exactly cfg "d2" 6 input) as (d & Hd & _ & Hp & Hw). exists d. split; [exact Hd|]. split.
  - apply (Hw [MkSetOp "a.x" (AInt 7); MkSetOp "c.d" (AStr "new")] (MkSetOp "a.x" (AInt 8)) []); [reflexivity|constructor].
  - rewrite (Hp "a.y"); [reflexivity|]. repeat (constructor; [unfold apart; repeat split; try discriminate; apply (bool_decide_unpack _); vm_compute; exact I|]). constructor.
Defined.
End examples.
End set_.
