(* ===== verification/Calculator.v ===== *)
(** * The calculator node ([engine/nodes/calculator])

    Evaluates expressions one after the other and writes their results at paths of the payload;
    an expression sees the results of those before it.  Expressions are arguments. *)

From S2P Require Import Prelude GoStd Datagram Execution Value.
Import gostd datagram execution value.
Local Open Scope Z_scope.

Module calculator.
Section node.
Context {prog : Type} (compile : string -> res string prog) (eval : prog -> dgram -> any -> Z -> res string any).
Record FieldOp := MkFieldOp { Path : string; Expression : string }.
Record Config := MkConfig { Fields : list FieldOp; TimeoutMs : Z }.
Record compiledField := MkCompiledField { path : string; cprog : prog }.
Record node := MkNode { fields : list compiledField; timeout : Z }.
Definition New (cfg : Config) : res string node :=
  _ ← guard_err (bool_decide (Fields cfg <> [])) "calculator: fields is required";
  fs ← res_mapM (fun f => p ← compile (Expression f); Ok (MkCompiledField (Path f) p)) (Fields cfg);
  Ok (MkNode fs (millis (TimeoutMs cfg))).
(** [eval p inp value t]: the expression sees the datagram with the payload computed so far. *)
Fixpoint calculate (t : Z) (inp : dgram) (fs : list compiledField) (value : any) : res string any :=
  match fs with
  | [] => Ok value
  | f :: fs' => r ← eval (cprog f) inp value t; calculate t inp fs' (applyPath value (path f) r)
  end.
Definition Process (n : node) (id : string) (now : Z) (inp : dgram) : nodeResult :=
  v ← calculate (timeout n) inp (fields n) (Value (payload inp));
  Ok [MkPortDatagram "out" (caused id now inp v)].
End node.
End calculator.
