(* ===== verification/Template.v ===== *)
(** * The template node ([engine/nodes/template])

    Renders a text from a datagram, and parses it as JSON if asked to.  Templates and JSON
    texts are arguments. *)

From S2P Require Import Prelude GoStd Datagram Execution Value.
Import gostd datagram execution value.
Local Open Scope Z_scope.

Module template.
Section node.
(** [expr.RenderTemplate] on a datagram with a timeout, and [json.Unmarshal]. *)
Context (RenderTemplate : string -> dgram -> Z -> res string string) (Unmarshal : string -> option any).
Record Config := MkConfig { Template : string; ParseJSON : bool; TimeoutMs : Z }.
Definition New (cfg : Config) : res string Config :=
  _ ← guard_err (bool_decide (Template cfg <> "")) "template: template is required"; Ok cfg.
Definition Process (cfg : Config) (id : string) (now : Z) (inp : dgram) : nodeResult :=
  rendered ← RenderTemplate (Template cfg) inp (millis (TimeoutMs cfg));
  value ← (if ParseJSON cfg then
             match Unmarshal rendered with Some v => Ok v | None => Err "template: rendered text is not valid JSON" end
           else Ok (AStr rendered));
  Ok [MkPortDatagram "out" (caused id now inp value)].
End node.
End template.
