(* ===== verification/StopError.v ===== *)
(** * The stop-and-error node ([engine/nodes/stoperror])

    Fails with a structured error rendered from the datagram. *)

From S2P Require Import Prelude GoStd Datagram Execution Value Runner.
Import gostd datagram execution value.
Local Open Scope Z_scope.

Module stoperror.
Section node.
Context (RenderTemplate : string -> dgram -> Z -> res string string).
Record Config := MkConfig { Message : string; Code : string; TimeoutMs : Z }.
Definition New (cfg : Config) : res string Config :=
  _ ← guard_err (bool_decide (Message cfg <> "")) "stop-and-error: message is required"; Ok cfg.
(** Always an error: the structured one, unless a text cannot be rendered. *)
Definition Process (cfg : Config) (inp : dgram) : runner.outcome :=
  let t := millis (TimeoutMs cfg) in
  match RenderTemplate (Message cfg) inp t with
  | Err e => runner.IErr (runner.EPlain ("stop-and-error: rendering message: " +:+ e))
  | Panic => runner.IPanic "" ""
  | Ok message =>
      match (if decide (Code cfg = "") then Ok "" else RenderTemplate (Code cfg) inp t) with
      | Err e => runner.IErr (runner.EPlain ("stop-and-error: rendering code: " +:+ e))
      | Panic => runner.IPanic "" ""
      | Ok code => runner.IErr (runner.ENode (MkNodeError message code "" "" 0))
      end
  end.
End node.
End stoperror.
