(* ===== verification/TryCatch.v ===== *)
(** * The try-catch node ([engine/nodes/trycatch]) and [ExecuteNode] ([engine/flow/exec.go])

    Runs one node of another type in isolation, and turns its errors and panics into
    datagrams. *)

From S2P Require Import Prelude GoStd Datagram Execution Value FlowFile Runner.
Import gostd datagram execution value.
Local Open Scope Z_scope.

#[local] Instance NodeKind_eq_dec : EqDecision flowfile.NodeKind.
Proof. solve_decision. Defined.

Module trycatch.
Section node.
(** The node types, and what the code of an instance (by type and configuration) does with a
    datagram. *)
Context (reg : flowfile.Registry) (run : string -> string -> dgram -> runner.outcome).

(** A panic of the factory is not recovered here. *)
Definition ExecuteNode (nodeType config : string) (inp : dgram) : res runner.goerr (list portDgm) :=
  match flowfile.Lookup reg nodeType with
  | None => Err (runner.EPlain "flow: unknown node type")
  | Some (info, factory) =>
      if decide (flowfile.nt_Kind info = flowfile.KindSource) then Err (runner.EPlain "flow: node type is a Source")
      else match factory config with
           | Err e => Err (runner.EPlain ("flow: configuring node: " +:+ e))
           | Panic => Panic
           | Ok instance =>
               if flowfile.isProcessor instance then
                 match runner.invokeWithRecover (run nodeType config inp) with inl rs => Ok rs | inr e => Err e end
               else Err (runner.EPlain "flow: factory did not return a Processor")
           end
  end.

Record Config := MkConfig { TryType : string; TryConfig : string }.
Definition New (cfg : Config) : res string Config :=
  _ ← guard_err (bool_decide (TryType cfg <> "")) "try-catch: tryType is required";
  match flowfile.Lookup reg (TryType cfg) with
  | None => Err "try-catch: unknown node type"
  | Some (info, _) =>
      if decide (flowfile.nt_Kind info = flowfile.KindSource) then Err "try-catch: node type is a Source" else Ok cfg
  end.
Definition Process (cfg : Config) (id : string) (now : Z) (inp : dgram) : nodeResult :=
  match ExecuteNode (TryType cfg) (TryConfig cfg) inp with
  | Err err => Ok [MkPortDatagram "catch" (runner.BuildErrorDatagram id now inp (runner.AsNodeError err (TryType cfg) 1))]
  | Ok results => Ok (map (fun r => MkPortDatagram "out" (pdDatagram r)) results)
  | Panic => Panic
  end.

(** Try-catch contains failures: with a configuration that [New] accepts and a factory that
    does not panic, every datagram is answered without an error.  When the wrapped node returns,
    its datagrams leave by the port [out] as they are; when it fails or panics, one datagram
    leaves by [catch], caused by the input, with the input, the message, the stack and the type
    of the node in it. *)
Theorem trycatch_contains cfg id now inp : New cfg = Ok cfg ->
  (forall r, reg !! TryType cfg = Some r -> flowfile.factory r (TryConfig cfg) <> Panic) ->
  exists out, Process cfg id now inp = Ok out /\
    match ExecuteNode (TryType cfg) (TryConfig cfg) inp with
    | Ok rs => map pdDatagram out = map pdDatagram rs /\ Forall (fun p => Port p = "out") out
    | Err e => exists d, out = [MkPortDatagram "catch" d] /\ CausationID (header d) = ID (header inp) /\
                 fieldValue (Value (payload d)) "original" = ADgm inp /\ fieldValue (Value (payload d)) "error.message" = AStr (runner.Error e) /\
                 fieldValue (Value (payload d)) "error.node" = AStr (TryType cfg)
    | Panic => False
    end.
Proof.
  intros Hnew Hf. unfold Process, ExecuteNode. unfold New in Hnew. destruct (guard_err _ _); [|done..]. cbn [mbind res_bind] in Hnew.
  unfold flowfile.Lookup in *. destruct (reg !! TryType cfg) as [r|] eqn:Er; cbn [mbind option_bind] in *; [|done].
  destruct (decide _); [done|]. destruct (flowfile.factory r (TryConfig cfg)) as [i|e|] eqn:Ef; [| |by destruct (Hf r eq_refl)].
  - destruct (flowfile.isProcessor i).
    + destruct (runner.invokeWithRecover _) as [rs|err].
      * eexists. split; [reflexivity|]. split; [by rewrite map_map|]. apply Forall_fmap, Forall_true. done.
      * eexists. split; [reflexivity|]. eexists. split; [reflexivity|]. by destruct err.
    + eexists. split; [reflexivity|]. eexists. by repeat split.
  - eexists. split; [reflexivity|]. eexists. by repeat split.
Qed.
End node.

Module examples.
Definition input : dgram :=
  NewCaused "d1" 5 (MkDatagram (MkHeader "d0" "c" "" 0 None (MkSource "" "" "" "" "") "" "" QualityGood 0 None None) (MkPayload ANil None) [])
    (MkSource "" "" "" "" "") (MkPayload (AMap [("a", AMap [("x", AInt 1); ("y", AInt 2)]); ("b", AInt 3)]) None).
Definition reg : flowfile.Registry :=
  {["t" := flowfile.MkRegistration (flowfile.MkNodeTypeInfo flowfile.KindProcessor ["in"] ["out"] false "" "" "" "")
             (fun _ => Ok (flowfile.MkInstance false true false None))]}.
Definition boom : string -> string -> dgram -> runner.outcome := fun _ _ _ => runner.IPanic "boom" "stack".
Lemma trycatch_contains_witness : exists out, Process reg boom (MkConfig "t" "{}") "d2" 6 input = Ok out /\
  exists d, out = [MkPortDatagram "catch" d] /\ fieldValue (Value (payload d)) "error.message" = AStr "boom".
Proof.
  destruct (trycatch_contains reg boom (MkConfig "t" "{}") "d2" 6 input) as (out & Hp & d & Hd & _ & _ & Hm & _).
  - reflexivity.
  - intros r [= <-]. discriminate.
  - exists out. split; [exact Hp|]. exists d. split; [exact Hd|exact Hm].
Defined.
End examples.
End trycatch.
