(* ===== verification/Lookup.v ===== *)
(** * The lookup node ([engine/nodes/lookup])

    Enriches a datagram with the value that a static table, a database or an HTTP server has
    for a key, through a cache with a time to live and first-in-first-out eviction.  The check
    and the store of the cache are separate critical sections, so a sequence of stores stands
    for any interleaving of calls.  Expressions, the answers of the database and of the server,
    JSON texts and the clock are arguments. *)

From S2P Require Import Prelude Bytes GoStd Datagram Execution Value.
Import gostd datagram execution value.
Local Open Scope Z_scope.

Module lookup.

Record Config := MkConfig {
  KeyExpression : string; Source_ : string; Static : option (list (string * any)); Query : string; URLTemplate : string;
  TTLMs : Z; MaxEntries : Z; CacheMissPolicy : string; DefaultValue : any; As : string
}.
Definition DefaultMaxEntries : Z := 1000.
Record cacheEntry := MkCacheEntry { value : any; expiresAt : option Z }.

Section node.
(** [expr.Compile], running the key expression, [fmt.Sprint], [strings.Contains],
    [strings.ReplaceAll], [sqlshared.NormalizeValue] and [json.Unmarshal]. *)
Context {prog : Type} (compile : string -> res string prog) (eval : prog -> dgram -> res string any) (sprint : any -> string)
        (Contains : string -> string -> bool) (ReplaceAll : string -> string -> string -> string)
        (NormalizeValue : any -> any) (Unmarshal : string -> option any).

(** [dbConn]: the outcome of the first connection, kept by a [sync.Once]. *)
Record node := MkNode { cfg : Config; keyProg : prog; dbConn : option (option string); cache : gmap string cacheEntry; cacheKeys : list string }.
Definition set_cache (n : node) (c : gmap string cacheEntry) (ks : list string) : node := MkNode (cfg n) (keyProg n) (dbConn n) c ks.
Definition set_db (n : node) (d : option (option string)) : node := MkNode (cfg n) (keyProg n) d (cache n) (cacheKeys n).

Definition checkSource (c : Config) : res string unit :=
  if decide (Source_ c = "static") then guard_err (bool_decide (is_Some (Static c))) "lookup: static is required"
  else if decide (Source_ c = "sql") then guard_err (bool_decide (Query c <> "")) "lookup: sql.query is required"
  else if decide (Source_ c = "http") then
    guard_err (bool_decide (URLTemplate c <> "") && Contains (URLTemplate c) "{key}") "lookup: http.urlTemplate must contain the key"
  else Err "lookup: unknown source".
Definition withDefaults (c : Config) : Config :=
  MkConfig (KeyExpression c) (Source_ c) (Static c) (Query c) (URLTemplate c) (TTLMs c)
    (if MaxEntries c <=? 0 then DefaultMaxEntries else MaxEntries c)
    (if decide (CacheMissPolicy c = "") then "fail" else CacheMissPolicy c) (DefaultValue c) (As c).
Definition New (c : Config) : res string node :=
  _ ← guard_err (bool_decide (KeyExpression c <> "")) "lookup: keyExpression is required";
  _ ← guard_err (bool_decide (As c <> "")) "lookup: as is required";
  _ ← checkSource c;
  let c := withDefaults c in
  _ ← guard_err (bool_decide (CacheMissPolicy c ∈ ["fail"; "passthrough"; "default"])) "lookup: unknown cacheMissPolicy";
  p ← compile (KeyExpression c);
  Ok (MkNode c p None ∅ []).

(** ** The cache *)

Definition hit (n : node) (key : string) (now : Z) : option any :=
  match cache n !! key with
  | Some e => match expiresAt e with
              | None => Some (value e)
              | Some t => if now <? t then Some (value e) else None
              end
  | None => None
  end.
Fixpoint evict (max : Z) (keys : list string) (c : gmap string cacheEntry) : list string * gmap string cacheEntry :=
  match keys with
  | oldest :: keys' => if max <? zlen keys then evict max keys' (delete oldest c) else (keys, c)
  | [] => ([], c)
  end.
Definition store (n : node) (key : string) (v : any) (now : Z) : node :=
  let '(keys, c) :=
    match cache n !! key with
    | None => evict (MaxEntries (cfg n)) (cacheKeys n ++ [key]) (cache n)
    | Some _ => (cacheKeys n, cache n)
    end in
  let expires := if 0 <? TTLMs (cfg n) then Some (now + millis (TTLMs (cfg n))) else None in
  set_cache n (<[key := MkCacheEntry v expires]> c) keys.

(** ** The sources *)

(** What the world answers to one fetch: the connection, the first row of the query if there
    is one, the response of the server with its body. *)
Record answers := MkAnswers {
  connect : option string; sqlRow : res string (option (list (string * any))); httpResponse : res string (Z * res string string)
}.
Definition rowValue (cols : list (string * any)) : any := AMap (fold_left (fun m c => mset m c.1 (NormalizeValue c.2)) cols []).
Definition fetchSQL (n : node) (a : answers) : node * res string (option any) :=
  let n := match dbConn n with None => set_db n (Some (connect a)) | Some _ => n end in
  match dbConn n with
  | Some (Some err) => (n, Err err)
  | _ => (n, match sqlRow a with Ok r => Ok (option_map rowValue r) | Err e => Err e | Panic => Panic end)
  end.
Definition url (n : node) (key : string) : string := ReplaceAll (URLTemplate (cfg n)) "{key}" key.
Definition fetchHTTP (a : answers) : res string (option any) :=
  '(status, body) ← httpResponse a;
  if status =? 404 then Ok None
  else
    b ← body;
    if (status <? 200) || (300 <=? status) then Err "http: status"
    else Ok (Some (default (AStr b) (Unmarshal b))).
Definition fetch (n : node) (a : answers) (key : string) : node * res string (option any) :=
  if decide (Source_ (cfg n) = "static") then (n, Ok (mget (default [] (Static (cfg n))) key))
  else if decide (Source_ (cfg n) = "sql") then fetchSQL n a
  else if decide (Source_ (cfg n) = "http") then (n, fetchHTTP a)
  else (n, Err "unhandled source").

(** [t0] is the time of the check, [t1] that of the store. *)
Definition lookupCached (n : node) (a : answers) (t0 t1 : Z) (key : string) : node * res string (option any) :=
  match hit n key t0 with
  | Some v => (n, Ok (Some v))
  | None =>
      match fetch n a key with
      | (n, Ok (Some v)) => (store n key v t1, Ok (Some v))
      | (n, r) => (n, r)
      end
  end.
Definition Process (n : node) (a : answers) (t0 t1 : Z) (id : string) (now : Z) (inp : dgram) : node * nodeResult :=
  match eval (keyProg n) inp with
  | Err e => (n, Err e)
  | Panic => (n, Panic)
  | Ok k =>
      let key := sprint k in
      let '(n, r) := lookupCached n a t0 t1 key in
      let emit v := Ok [MkPortDatagram "out" (caused id now inp (applyPath (Value (payload inp)) (As (cfg n)) v))] in
      (n, match r with
          | Err e => Err e
          | Panic => Panic
          | Ok (Some v) => emit v
          | Ok None =>
              if decide (CacheMissPolicy (cfg n) = "passthrough") then Ok [MkPortDatagram "out" inp]
              else if decide (CacheMissPolicy (cfg n) = "default") then emit (DefaultValue (cfg n))
              else Err "lookup: no value found"
          end)
  end.

(** ** The cache serves what was fetched last *)

Definition stores (n : node) (l : list (string * any * Z)) : node := fold_left (fun n x => store n x.1.1 x.1.2 x.2) l n.
(** The latest store of a key. *)
Fixpoint last_store (l : list (string * any * Z)) (key : string) : option (any * Z) :=
  match l with
  | [] => None
  | x :: l' => match last_store l' key with
               | Some r => Some r
               | None => if decide (x.1.1 = key) then Some (x.1.2, x.2) else None
               end
  end.
Definition expiry (c : Config) (t : Z) : option Z := if 0 <? TTLMs c then Some (t + millis (TTLMs c)) else None.
Record cache_ok (n : node) (l : list (string * any * Z)) : Prop := {
  ok_max : 0 < MaxEntries (cfg n);
  ok_nodup : NoDup (cacheKeys n);
  ok_keys : forall k, is_Some (cache n !! k) <-> k ∈ cacheKeys n;
  ok_size : zlen (cacheKeys n) <= MaxEntries (cfg n);
  ok_fresh : forall k e, cache n !! k = Some e -> exists t, last_store l k = Some (value e, t) /\ expiresAt e = expiry (cfg n) t
}.

Lemma last_store_app l x key : last_store (l ++ [x]) key = if decide (x.1.1 = key) then Some (x.1.2, x.2) else last_store l key.
Proof.
  induction l as [|y l IH]; cbn; [by case_decide|]. rewrite IH. case_decide; [done|]. done.
Qed.
Lemma evict_spec max keys : forall c, exists m, (evict max keys c).1 = drop m keys /\
  (evict max keys c).2 = foldr delete c (reverse (take m keys)) /\ (m = 0%nat \/ max < zlen keys - Z.of_nat m + 1) /\
  (zlen (drop m keys) <= max \/ drop m keys = []).
Proof.
  induction keys as [|k keys IH]; intros c; cbn [evict]; [exists 0%nat; cbn; auto|].
  destruct (Z.ltb_spec max (zlen (k :: keys))) as [Hlt|Hge].
  - destruct (IH (delete k c)) as (m & H1 & H2 & H3 & H4). exists (S m). cbn [drop take]. rewrite reverse_cons, foldr_app.
    split_and!; [done|done| |done]. right. unfold zlen in *. cbn [length] in *. lia.
  - exists 0%nat. cbn. split_and!; auto.
Qed.
Lemma lookup_foldr_delete (c : gmap string cacheEntry) ks k : foldr delete c ks !! k = if decide (k ∈ ks) then None else c !! k.
Proof.
  induction ks as [|k' ks IH]; cbn [foldr]; [by rewrite decide_False by apply not_elem_of_nil|].
  destruct (decide (k = k')) as [->|Hne].
  - rewrite lookup_delete_eq, decide_True; [done|by apply elem_of_cons; left].
  - rewrite lookup_delete_ne, IH by done. apply decide_ext. rewrite elem_of_cons. split; [by right|by intros [?|?]].
Qed.
Lemma NoDup_take_drop (keys : list string) m k : NoDup keys -> k ∈ keys -> k ∈ take m keys <-> k ∉ drop m keys.
Proof.
  intros Hn Hk. rewrite <- (take_drop m keys) in Hn, Hk. apply NoDup_app in Hn as (_ & Hd & _). apply elem_of_app in Hk. split; [apply Hd|]. intros H. by destruct Hk.
Qed.
Lemma store_ok n l key v t : cache_ok n l -> cache_ok (store n key v t) (l ++ [(key, v, t)]) /\ cfg (store n key v t) = cfg n.
Proof.
  intros [Hmax Hnd Hk Hs Hf]. unfold store. destruct (cache n !! key) as [e|] eqn:E.
  - split; [|done]. split; cbn [set_cache cfg cache cacheKeys]; [done|done| |done|].
    + intros k. rewrite <- Hk. destruct (decide (k = key)) as [->|Hne]; [by rewrite lookup_insert_eq, E|by rewrite lookup_insert_ne].
    + intros k e'. rewrite last_store_app. cbn [fst snd]. destruct (decide (k = key)) as [->|Hne].
      * rewrite lookup_insert_eq, decide_True by done. intros [= <-]. by exists t.
      * rewrite lookup_insert_ne, decide_False by done. apply Hf.
  - assert (key ∉ cacheKeys n) as Hnew by (rewrite <- Hk, E; by intros [? ?]).
    assert (NoDup (cacheKeys n ++ [key])) as Hnd' by (apply NoDup_app; split_and!; [done|intros x Hx ->%list_elem_of_singleton; done|apply NoDup_singleton]).
    destruct (evict_spec (MaxEntries (cfg n)) (cacheKeys n ++ [key]) (cache n)) as (m & H1 & H2 & H3 & H4).
    destruct (evict _ _ _) as [keys c]. cbn [fst snd] in H1, H2. subst keys c. split; [|done].
    assert (m <= length (cacheKeys n))%nat as Hm.
    { destruct H3 as [->|H3]; [lia|]. unfold zlen in H3. rewrite length_app in H3. cbn [length] in H3. lia. }
    assert (forall k, k ∈ drop m (cacheKeys n ++ [key]) <-> k = key \/ k ∈ drop m (cacheKeys n)) as Hd.
    { intros k. rewrite drop_app_le by done. rewrite elem_of_app, list_elem_of_singleton. split; (intros [?|?]; [by right|by left]). }
    split; cbn [set_cache cfg cache cacheKeys]; [done| | | |].
    + rewrite <- (take_drop m (cacheKeys n ++ [key])) in Hnd'. by apply NoDup_app in Hnd' as (_ & _ & ?).
    + intros k. rewrite Hd. destruct (decide (k = key)) as [->|Hne]; [rewrite lookup_insert_eq; split; [by left|by eexists]|].
      rewrite lookup_insert_ne, lookup_foldr_delete by done.
      assert (k ∈ reverse (take m (cacheKeys n ++ [key])) <-> k ∈ take m (cacheKeys n)) as Hr by (rewrite elem_of_reverse, take_app_le by done; done).
      case_decide as Hin; rewrite Hr in Hin.
      * split; [by intros [? ?]|]. intros [?|Hdr]; [done|]. exfalso. revert Hdr. apply NoDup_take_drop; [done| |done].
        rewrite <- (take_drop m (cacheKeys n)). apply elem_of_app. by left.
      * rewrite Hk. split; [intros Hin'; right|intros [?|Hdr]; [done|]].
        -- destruct (decide (k ∈ drop m (cacheKeys n))); [done|]. destruct Hin. by apply NoDup_take_drop.
        -- rewrite <- (take_drop m (cacheKeys n)). apply elem_of_app. by right.
    + destruct H4 as [H4| ->]; [done|]. unfold zlen. cbn. lia.
    + intros k e'. rewrite last_store_app. cbn [fst snd]. destruct (decide (k = key)) as [->|Hne].
      * rewrite lookup_insert_eq, decide_True by done. intros [= <-]. by exists t.
      * rewrite decide_False, lookup_insert_ne, lookup_foldr_delete by done. case_decide; [done|]. apply Hf.
Qed.
Lemma stores_ok l : forall n h, cache_ok n h -> cache_ok (stores n l) (h ++ l) /\ cfg (stores n l) = cfg n.
Proof.
  induction l as [|[[k v] t] l IH]; intros n h H; [by rewrite app_nil_r|]. cbn [stores fold_left fst snd].
  destruct (store_ok n h k v t H) as [H1 H2]. destruct (IH _ _ H1) as [H3 H4]. rewrite <- app_assoc in H3. split; [exact H3|]. by rewrite <- H2.
Qed.
Lemma New_ok c n : New c = Ok n -> cache_ok n [] /\ cfg n = withDefaults c.
Proof.
  intros Hn. unfold New in Hn. repeat (destruct (guard_err _ _) in Hn). all: destruct (checkSource c), (compile _); cbn [mbind res_bind] in Hn; try discriminate Hn.
  injection Hn as <-. split; [|done]. split; cbn [cfg cacheKeys cache].
  - cbn. destruct (Z.leb_spec (MaxEntries c) 0); unfold DefaultMaxEntries; lia.
  - constructor.
  - intros k. rewrite lookup_empty, elem_of_nil. split; [by intros [? ?]|done].
  - cbn. destruct (Z.leb_spec (MaxEntries c) 0); unfold DefaultMaxEntries, zlen; cbn [length]; lia.
  - intros k e. by rewrite lookup_empty.
Qed.

(** The cache of the lookup node: whatever values are stored in it and when, by calls in
    any interleaving, it never holds more keys than configured, a hit is the value stored last
    for that key, and is served only until its time to live is over; and a value just stored is
    a hit as long as it lives. *)
Theorem cache_serves_latest c n l : New c = Ok n ->
  let n' := stores n l in
  zlen (cacheKeys n') <= (if MaxEntries c <=? 0 then DefaultMaxEntries else MaxEntries c) /\ dom (cache n') = list_to_set (cacheKeys n') /\
  (forall key now v, hit n' key now = Some v ->
     exists t, last_store l key = Some (v, t) /\ (0 < TTLMs c -> now < t + millis (TTLMs c))) /\
  (forall key v t now, (0 < TTLMs c -> now < t + millis (TTLMs c)) -> hit (store n' key v t) key now = Some v).
Proof.
  intros Hn. destruct (New_ok c n Hn) as [H0 Hc]. destruct (stores_ok l n [] H0) as [[Hmax Hnd Hk Hs Hf] Hcfg]. cbn [app] in Hf.
  cbn zeta. rewrite Hcfg, Hc in *. cbn [withDefaults MaxEntries TTLMs expiry] in *. split_and!; [done| | |].
  - apply set_eq. intros k. rewrite elem_of_dom, elem_of_list_to_set. apply Hk.
  - intros key now v Hh. unfold hit in Hh. destruct (cache (stores n l) !! key) as [e|] eqn:E; [|done].
    destruct (Hf key e E) as (t & Hl & He). exists t. rewrite He in Hh. unfold expiry in Hh. cbn [withDefaults TTLMs] in Hh.
    destruct (Z.ltb_spec 0 (TTLMs c)).
    + destruct (Z.ltb_spec now (t + millis (TTLMs c))); [|done]. injection Hh as <-. auto.
    + injection Hh as <-. split; [done|lia].
  - intros key v t now Hlive. unfold hit, store. assert (cfg (stores n l) = withDefaults c) as Hcc by (by rewrite Hcfg).
    rewrite Hcc. destruct (match cache (stores n l) !! key with Some _ => _ | None => _ end) as [keys m]. cbn [set_cache cache]. rewrite lookup_insert_eq.
    cbn [value expiresAt withDefaults TTLMs]. destruct (Z.ltb_spec 0 (TTLMs c)); [|done]. by rewrite (proj2 (Z.ltb_lt _ _)) by auto.
Qed.
End node.

Module examples.
Definition compile : string -> res string string := fun s => Ok s.
Definition always : string -> string -> bool := fun _ _ => true.
Definition c : Config := MkConfig "key" "http" None "" "http://host/{key}" 1000 2 "" ANil "info".
Definition n : node (prog := string) := MkNode (withDefaults c) "key" None ∅ [].
Definition l : list (string * any * Z) := [("a", AInt 1, 0); ("b", AInt 2, 10); ("a", AInt 3, 20); ("c", AInt 4, 30)].
Lemma cache_serves_latest_witness : zlen (cacheKeys (stores n l)) <= 2 /\ hit (store (stores n l) "d" (AInt 5) 40) "d" 41 = Some (AInt 5).
Proof.
  destruct (cache_serves_latest compile always c n l eq_refl) as (H1 & _ & _ & H4).
  split; [exact H1|]. apply H4. intros _. vm_compute. reflexivity.
Defined.
(** The first key is evicted although it was refreshed after the second. *)
Lemma fifo_eviction : cacheKeys (stores n l) = ["b"; "c"] /\ hit (stores n l) "a" 31 = None /\ hit (stores n l) "b" 31 = Some (AInt 2).
Proof. vm_compute. repeat split. Qed.
(** A failed first connection fails every later lookup. *)
Lemma first_connection_sticks : let n1 := (fetchSQL (fun v => v) n (MkAnswers (Some "refused") (Ok None) (Err ""))).1 in
  (fetchSQL (fun v => v) n1 (MkAnswers None (Ok (Some [("x", AInt 1)])) (Err ""))).2 = Err "refused".
Proof. reflexivity. Qed.
End examples.

End lookup.
