(* ===== verification/Database.v ===== *)
(** * The database layer ([controlplane/internal/db/db.go])

    The choice of the driver, the numbering of placeholders for PostgreSQL, the splitting of a
    migration into statements, and the migrations with their transactions.  The effect of a
    statement on the schema is an argument; [fails i] says at which of its calls a run of
    [Migrate] meets an error, whatever it is: a broken connection, a refused statement or the
    end of the process. *)

From S2P Require Import Prelude Bytes GoStd.
Import gostd.
Local Open Scope Z_scope.

Module database.

Inductive Dialect := DialectPostgres | DialectSQLite.
Record DB := MkDB { dialect : Dialect; maxOpenConns : option nat }.
(** [ok]: [sql.Open] accepts the driver and the name. *)
Definition Open (ok : bool) (dsn : string) : res string DB :=
  let pg := String.prefix "postgres://" dsn || String.prefix "postgresql://" dsn in
  if ok then Ok (if pg then MkDB DialectPostgres None else MkDB DialectSQLite (Some 1%nat)) else Err "db: open".

(** On the bytes of a query, which is UTF-8: only ["?"] is replaced. *)
Fixpoint rebind (n : Z) (query : bytes) : bytes :=
  match query with
  | [] => []
  | c :: q => if c =? 63 then 36 :: FormatInt (n + 1) ++ rebind (n + 1) q else c :: rebind n q
  end.
Definition Rebind (d : DB) (query : bytes) : bytes :=
  match dialect d with DialectPostgres => rebind 0 query | DialectSQLite => query end.

(** ** Statements of a migration *)

(** [strings.Split(s, sep)] for a separator of one byte. *)
Fixpoint splitByte (sep : Z) (s : bytes) : list bytes :=
  match s with
  | [] => [[]]
  | c :: s' => if c =? sep then [] :: splitByte sep s'
               else match splitByte sep s' with p :: ps => (c :: p) :: ps | [] => [[c]] end
  end.
(** The line up to ["--"]. *)
Fixpoint stripComment (line : bytes) : bytes :=
  match line with
  | 45 :: 45 :: _ => []
  | c :: l => c :: stripComment l
  | [] => []
  end.
(** White space of ASCII. *)
Definition isSpace (c : Z) : bool := (c =? 32) || ((9 <=? c) && (c <=? 13)).
Fixpoint trimLeft (s : bytes) : bytes := match s with c :: s' => if isSpace c then trimLeft s' else s | [] => [] end.
Definition TrimSpace (s : bytes) : bytes := reverse (trimLeft (reverse (trimLeft s))).
Definition splitStatements (sqlText : bytes) : list bytes :=
  let text := concat (map (fun line => stripComment line ++ [10]) (splitByte 10 sqlText)) in
  filter (fun s => s <> []) (map TrimSpace (splitByte 59 text)).

(** ** Migrations *)

Section migrate.
Context {schema : Type} (exec : schema -> bytes -> option schema).

(** What the database keeps: its schema and the versions of [schema_migrations]. *)
Record state := MkState { tables : schema; applied : list string }.

(** The statements of one file, in a transaction; [None]: a statement is refused. *)
Fixpoint execAll (s : schema) (stmts : list bytes) : option schema :=
  match stmts with
  | [] => Some s
  | q :: l => s' ← exec s q; execAll s' l
  end.
(** One file: nothing when it is recorded, else its statements and its record, committed
    together or not at all. *)
Definition migrateOne (s : state) (fails : bool) (file : string * bytes) : state * bool :=
  let '(name, content) := file in
  if fails then (s, false)
  else if decide (name ∈ applied s) then (s, true)
  else match execAll (tables s) (splitStatements content) with
       | Some t => (MkState t (applied s ++ [name]), true)
       | None => (s, false)
       end.
Fixpoint migrateAll (s : state) (fails : nat -> bool) (i : nat) (files : list (string * bytes)) : state * bool :=
  match files with
  | [] => (s, true)
  | f :: l => match migrateOne s (fails i) f with
              | (s, true) => migrateAll s fails (S i) l
              | (s, false) => (s, false)
              end
  end.
(** The files in the order of their names. *)
Definition Migrate (s : state) (fails : nat -> bool) (files : list (string * bytes)) : state * bool :=
  if fails 0%nat then (s, false) else migrateAll s fails 1 (sortBy fst files).

(** ** Every migration is applied once, in the order of the names *)

(** The schema after the first [k] files. *)
Definition after (s0 : schema) (files : list (string * bytes)) (k : nat) : option schema :=
  foldl (fun s f => s ← s; execAll s (splitStatements f.2)) (Some s0) (take k files).
Definition migrated (s0 : schema) (files : list (string * bytes)) (s : state) (k : nat) : Prop :=
  (k <= length files)%nat /\ applied s = map fst (take k files) /\ after s0 files k = Some (tables s).

Lemma take_S_app {A} (l l' : list A) x : take (S (length l)) (l ++ x :: l') = l ++ [x].
Proof. rewrite cons_middle, app_assoc. rewrite take_app_le by (rewrite length_app; cbn; lia). apply take_ge. rewrite length_app. cbn. lia. Qed.

Lemma migrateAll_spec s0 fails extra rest : forall files i s k, NoDup (map fst (files ++ rest ++ extra)) -> (length files <= k)%nat ->
  migrated s0 (files ++ rest ++ extra) s k ->
  exists k', (k <= k')%nat /\ migrated s0 (files ++ rest ++ extra) (migrateAll s fails i rest).1 k' /\
    ((migrateAll s fails i rest).2 = true -> (length (files ++ rest) <= k')%nat).
Proof.
  induction rest as [|[name content] rest IH]; intros files i s k Hn Hk Hm.
  { exists k. cbn. split_and!; [done|done|]. intros _. by rewrite app_nil_r. }
  assert (files ++ ((name, content) :: rest) ++ extra = (files ++ [(name, content)]) ++ rest ++ extra) as E by (by rewrite <- app_assoc).
  assert (length (files ++ (name, content) :: rest) = length ((files ++ [(name, content)]) ++ rest)) as E' by (by rewrite <- app_assoc).
  cbn [migrateAll migrateOne]. destruct (fails i); [exists k; split_and!; [done|exact Hm|done]|].
  destruct Hm as (Hle & Ha & Ht). destruct (decide (name ∈ applied s)) as [Hin|Hnin].
  - assert (length files < k)%nat as Hlt.
    { destruct (decide (k = length files)) as [->|]; [|lia]. exfalso. rewrite Ha, take_app_length in Hin. rewrite map_app in Hn.
      apply NoDup_app in Hn as (_ & Hd & _). apply (Hd name Hin). apply elem_of_cons. by left. }
    rewrite E' in *. rewrite E in *. apply IH; [done|rewrite length_app; cbn; lia|done].
  - assert (k = length files) as ->.
    { destruct (decide (k = length files)); [done|]. exfalso. apply Hnin. rewrite Ha. apply list_elem_of_fmap. exists (name, content). split; [done|].
      apply (list_elem_of_lookup_2 _ (length files)). rewrite lookup_take_lt by lia. rewrite lookup_app_r, Nat.sub_diag by lia. done. }
    destruct (execAll (tables s) (splitStatements content)) as [t|] eqn:Ex.
    2: { exists (length files). split_and!; [done| |done]. by split. }
    assert (migrated s0 (files ++ ((name, content) :: rest) ++ extra) (MkState t (applied s ++ [name])) (S (length files))) as Hm'.
    { cbn [app] in *. split_and!; [rewrite length_app; cbn; lia| |].
      - rewrite take_S_app, map_app. cbn [applied]. by rewrite Ha, take_app_length.
      - unfold after in *. rewrite take_S_app, foldl_app. rewrite take_app_length in Ht. cbn [foldl]. rewrite Ht. cbn. exact Ex. }
    rewrite E' in *. rewrite E in *.
    destruct (IH (files ++ [(name, content)]) (S i) (MkState t (applied s ++ [name])) (S (length files))) as (k' & H1 & H2 & H3);
      [done|rewrite length_app; cbn; lia|done|]. exists k'. split_and!; [lia|done|done].
Qed.

(** Runs of the program: each with the files that its binary carries and its failures. *)
Definition runs (s : state) (l : list (list (string * bytes) * (nat -> bool))) : state := foldl (fun s r => (Migrate s r.2 r.1).1) s l.
Lemma Migrate_spec s0 all s fails files k : NoDup (map fst all) -> sortBy fst files `prefix_of` all -> migrated s0 all s k ->
  exists k', (k <= k')%nat /\ migrated s0 all (Migrate s fails files).1 k' /\
    ((Migrate s fails files).2 = true -> (length files <= k')%nat).
Proof.
  intros Hn [extra ->] Hm. unfold Migrate. destruct (fails 0%nat); [by exists k|].
  destruct (migrateAll_spec s0 fails extra (sortBy fst files) [] 1 s k Hn ltac:(cbn; lia) Hm) as (k' & H1 & H2 & H3).
  exists k'. split_and!; [done|done|]. cbn [app] in H3. by rewrite (Permutation_length (sortBy_permutes fst files)) in H3.
Qed.
(** A run whose files are all recorded changes nothing. *)
Lemma migrateAll_recorded s fails files : forall i, Forall (fun f => f.1 ∈ applied s) files -> (migrateAll s fails i files).1 = s.
Proof.
  induction files as [|[name content] files IH]; intros i H; [done|]. apply Forall_cons in H as [Hin H]. cbn [migrateAll migrateOne].
  destruct (fails i); [done|]. rewrite decide_True by done. by apply IH.
Qed.
Lemma rerun_nothing s0 all s fails files k : sortBy fst files `prefix_of` all -> (length files <= k)%nat -> migrated s0 all s k ->
  (Migrate s fails files).1 = s.
Proof.
  intros [extra ->] Hk (_ & Ha & _). unfold Migrate. destruct (fails 0%nat); [done|]. apply migrateAll_recorded.
  rewrite Ha, Forall_forall. intros f Hf. apply list_elem_of_fmap. exists f. split; [done|].
  rewrite take_app_ge by (rewrite (Permutation_length (sortBy_permutes fst files)); lia). apply elem_of_app. by left.
Qed.

(** Migrations are applied once and in order: through any runs of the program, of older and
    newer binaries and each failing at any point or not at all, the database holds exactly the
    schema that the first [k] migrations build from the empty one, in the order of their names,
    with exactly these recorded; no run undoes or repeats one.  A run that succeeds leaves all
    the migrations of its binary applied, and another run of it changes nothing. *)
Theorem migrations_once_in_order s0 all l : NoDup (map fst all) -> Forall (fun r => sortBy fst r.1 `prefix_of` all) l ->
  exists k, migrated s0 all (runs (MkState s0 []) l) k /\
    forall files fails, sortBy fst files `prefix_of` all -> (Migrate (runs (MkState s0 []) l) fails files).2 = true ->
      let s := (Migrate (runs (MkState s0 []) l) fails files).1 in
      (exists k', (k <= k')%nat /\ (length files <= k')%nat /\ migrated s0 all s k') /\ forall fails', (Migrate s fails' files).1 = s.
Proof.
  intros Hn Hl. assert (exists k, migrated s0 all (runs (MkState s0 []) l) k) as [k Hk].
  { unfold runs. assert (exists k, migrated s0 all (MkState s0 []) k) as H0 by (exists 0%nat; split_and!; [lia|done|done]).
    revert H0. generalize (MkState s0 []) as s. induction Hl as [|[files fails] l Hp _ IH]; intros s [k Hk]; [by exists k|]. cbn [foldl].
    destruct (Migrate_spec s0 all s fails files k Hn Hp Hk) as (k' & _ & H & _). apply IH. by exists k'. }
  exists k. split; [done|]. intros files fails Hp Hok. cbn zeta.
  destruct (Migrate_spec s0 all _ fails files k Hn Hp Hk) as (k' & H1 & H2 & H3). specialize (H3 Hok).
  split; [by exists k'|]. intros fails'. apply rerun_nothing with (all := all) (s0 := s0) (k := k'); done.
Qed.
End migrate.
Arguments state : clear implicits.

Module examples.
Definition b (s : string) : bytes := bytes_of_string s.
Definition exec (t : list bytes) (q : bytes) : option (list bytes) := if decide (q = b "BAD") then None else Some (t ++ [q]).
Definition files : list (string * bytes) := [("0002.sql", b "ALTER a;-- add; b" ++ [10] ++ b "CREATE c;"); ("0001.sql", b "CREATE a; CREATE b;")].
Definition all : list (string * bytes) := sortBy fst files.
Definition never : nat -> bool := fun _ => false.
Lemma statements_example : splitStatements (b "ALTER a;-- add; b" ++ [10] ++ b "CREATE c;") = [b "ALTER a"; b "CREATE c"].
Proof. vm_compute. reflexivity. Qed.
Lemma rebind_example : Rebind (MkDB DialectPostgres None) (b "a = ? AND b = ?") = b "a = $1 AND b = $2".
Proof. vm_compute. reflexivity. Qed.
(** A crash after the first file, then a complete run. *)
Definition history : list (list (string * bytes) * (nat -> bool)) := [(files, fun i => bool_decide (i = 2%nat)); (files, never)].
Lemma migrations_witness : exists k, migrated exec [] all (runs exec (MkState [] []) history) k /\
  forall files fails, sortBy fst files `prefix_of` all -> (Migrate exec (runs exec (MkState [] []) history) fails files).2 = true ->
    let s := (Migrate exec (runs exec (MkState [] []) history) fails files).1 in
    (exists k', (k <= k')%nat /\ (length files <= k')%nat /\ migrated exec [] all s k') /\ forall fails', (Migrate exec s fails' files).1 = s.
Proof.
  apply (migrations_once_in_order exec [] all history).
  - apply (bool_decide_unpack _). vm_compute. exact I.
  - repeat (constructor; [exists []; vm_compute; reflexivity|]). constructor.
Defined.
Lemma history_result : runs exec (MkState [] []) history = MkState [b "CREATE a"; b "CREATE b"; b "ALTER a"; b "CREATE c"] ["0001.sql"; "0002.sql"].
Proof. vm_compute. reflexivity. Qed.
End examples.

End database.
