(* ===== verification/RecordFormat.v ===== *)
(** * Records of a file ([engine/nodes/recordformat])

    Turning the bytes of a file into records: CSV and TSV, JSON with a path to an array, JSON
    lines, XML elements, spreadsheets, raw.  The rows of a CSV text, the lines of a text, JSON
    and XML texts and the rows of a workbook are arguments.  [None] means that the function
    does not return. *)

From S2P Require Import Prelude Bytes GoStd Float Datagram Execution Value Convert.
Import gostd value.
Local Open Scope Z_scope.

Module recordformat.

Record CSVConfig := MkCSVConfig { Delimiter : string; HasHeader : bool; Encoding : string }.
Record ExcelConfig := MkExcelConfig { SheetName : string; x_HasHeader : bool }.
Record Options := MkOptions { CSV : CSVConfig; Excel : ExcelConfig; JSONRoot : string; XMLRecordElement : string; MalformedRowPolicy : string }.

(** [rec[col] = row[i]], or the empty text. *)
Fixpoint headerRecord (header row : list string) (rec : list (string * any)) : list (string * any) :=
  match header with
  | [] => rec
  | col :: header' => headerRecord header' (tail row) (mset rec col (AStr (default "" (head row))))
  end.
Definition rowToRecord (header : option (list string)) (row : list string) : any :=
  match header with
  | Some h => AMap (headerRecord h row [])
  | None => AArr (map AStr row)
  end.
Definition DecodeEncoding (raw : bytes) (encoding : string) : bytes := if decide (encoding = "latin1") then convert.latin1ToUTF8 raw else raw.

Section parse.
(** The reads of a [csv.Reader] up to the end of the text (for a delimiter), [json.Unmarshal],
    the lines of a [bufio.Scanner] with its error, [strings.TrimSpace], [convert.XMLToJSON], and
    the name of the first sheet and the rows of a sheet of a workbook. *)
Context (reads : Z -> bytes -> list (res string (list string))) (Unmarshal : string -> option any)
        (scanLines : bytes -> list string * option string) (TrimSpace : string -> string) (XMLToJSON : string -> res string any)
        (workbook : bytes -> option (string * (string -> option (list (list string))))).

(** The delimiters that [csv.Reader] accepts; with another one every read fails. *)
Definition validDelim (c : Z) : bool := negb (bool_decide (c ∈ [0; 34; 13; 10])) && (c <? 128).

(** The rows that are read, and whether a malformed one ends the parse. *)
Fixpoint csvRows (skip : bool) (l : list (res string (list string))) : res string (list (list string)) :=
  match l with
  | [] => Ok []
  | Ok row :: l' => rows ← csvRows skip l'; Ok (row :: rows)
  | _ :: l' => if skip then csvRows skip l' else Err "recordformat: csv row"
  end.
(** The first row is the header; a row of a CSV text has at least one column. *)
Definition csvRecords (hasHeader : bool) (rows : list (list string)) : list any :=
  match hasHeader, rows with
  | true, header :: rows' => map (rowToRecord (Some header)) rows'
  | _, _ => map (rowToRecord None) rows
  end.
Definition parseCSV (raw : bytes) (format : string) (cfg : CSVConfig) (policy : string) : option (res string (list any)) :=
  let raw := DecodeEncoding raw (Encoding cfg) in
  let delim := if decide (Delimiter cfg = "") then (if decide (format = "tsv") then [9] else [44]) else bytes_of_string (Delimiter cfg) in
  match delim with
  | [c] =>
      if validDelim c then Some (csvRecords (HasHeader cfg) <$> csvRows (bool_decide (policy = "skip")) (reads c raw))
      else if decide (policy = "skip") then None
      else Some (Err "recordformat: csv row")
  | _ => Some (Err "recordformat: csv delimiter must be exactly one character")
  end.

Fixpoint jsonPath (cur : any) (keys : list string) : res string any :=
  match keys with
  | [] => Ok cur
  | k :: ks => match cur with AMap m => jsonPath (default ANil (mget m k)) ks | _ => Err "recordformat: jsonRoot: not an object" end
  end.
Definition parseJSON (raw : bytes) (jsonRoot : string) : res string (list any) :=
  match Unmarshal (string_of_bytes raw) with
  | None => Err "recordformat: parsing json"
  | Some decoded =>
      if decide (jsonRoot = "") then Ok [decoded]
      else cur ← jsonPath decoded (splitDots jsonRoot);
           match cur with AArr arr => Ok arr | _ => Err "recordformat: jsonRoot does not point to an array" end
  end.

Fixpoint jsonLines (skip : bool) (lines : list string) : res string (list any) :=
  match lines with
  | [] => Ok []
  | line :: l =>
      if decide (TrimSpace line = "") then jsonLines skip l
      else match Unmarshal (TrimSpace line) with
           | Some v => rs ← jsonLines skip l; Ok (v :: rs)
           | None => if skip then jsonLines skip l else Err "recordformat: jsonl line"
           end
  end.
(** The error of the scanner comes with the records read before it, which callers drop. *)
Definition parseJSONLines (raw : bytes) (policy : string) : res string (list any) :=
  let '(lines, err) := scanLines raw in
  rs ← jsonLines (bool_decide (policy = "skip")) lines;
  match err with Some e => Err e | None => Ok rs end.

Definition parseXML (raw : bytes) (recordElement : string) : res string (list any) :=
  decoded ← XMLToJSON (string_of_bytes raw);
  if decide (recordElement = "") then Ok [decoded]
  else match decoded with
       | AMap m => match mget m recordElement with
                   | Some (AArr arr) => Ok arr
                   | Some v => Ok [v]
                   | None => Err "recordformat: xmlRecordElement not found at the document root"
                   end
       | _ => Err "recordformat: xmlRecordElement: root is not an object"
       end.
(** A first row without cells is no header: the records are arrays. *)
Definition excelRecords (hasHeader : bool) (rows : list (list string)) : list any :=
  match hasHeader, rows with
  | true, [] :: rows' => map (rowToRecord None) rows'
  | _, _ => csvRecords hasHeader rows
  end.
Definition parseExcel (raw : bytes) (cfg : ExcelConfig) : res string (list any) :=
  match workbook raw with
  | None => Err "recordformat: opening xlsx"
  | Some (first, sheets) =>
      match sheets (if decide (SheetName cfg = "") then first else SheetName cfg) with
      | None => Err "recordformat: reading sheet"
      | Some rows => Ok (excelRecords (x_HasHeader cfg) rows)
      end
  end.

Definition ParseRecords (format : string) (raw : bytes) (opts : Options) : option (res string (list any)) :=
  if decide (format = "csv" \/ format = "tsv") then parseCSV raw format (CSV opts) (MalformedRowPolicy opts)
  else if decide (format = "json") then Some (parseJSON raw (JSONRoot opts))
  else if decide (format = "jsonl") then Some (parseJSONLines raw (MalformedRowPolicy opts))
  else if decide (format = "xml") then Some (parseXML raw (XMLRecordElement opts))
  else if decide (format = "xlsx") then Some (parseExcel raw (Excel opts))
  else if decide (format = "raw") then Some (Ok [AStr (string_of_bytes raw)])
  else Some (Err "recordformat: unknown format").

(** ** Malformed rows *)

Definition rowOf (r : res string (list string)) : option (list string) := match r with Ok row => Some row | _ => None end.
Lemma csvRows_skip l : csvRows true l = Ok (omap rowOf l).
Proof. induction l as [|[row|e|] l IH]; cbn; [done| |done..]. by rewrite IH. Qed.
Lemma csvRows_fail l : csvRows false l = if decide (Forall (fun r => is_Some (rowOf r)) l) then Ok (omap rowOf l) else Err "recordformat: csv row".
Proof.
  induction l as [|[row|e|] l IH]; cbn [csvRows]; [done| | |].
  - rewrite IH. destruct (decide (Forall _ l)) as [H|H].
    + rewrite decide_True; [done|]. constructor; [by eexists|done].
    + rewrite decide_False; [done|]. by intros [_ H']%Forall_cons.
  - rewrite decide_False; [done|]. by intros [[? ?] _]%Forall_cons.
  - rewrite decide_False; [done|]. by intros [[? ?] _]%Forall_cons.
Qed.

(** The value of a line that is JSON. *)
Definition lineValue (line : string) : option any := if decide (TrimSpace line = "") then None else Unmarshal (TrimSpace line).
Definition malformed (line : string) : Prop := TrimSpace line <> "" /\ Unmarshal (TrimSpace line) = None.
#[local] Instance malformed_dec line : Decision (malformed line).
Proof. unfold malformed. destruct (Unmarshal (TrimSpace line)); apply _ || (destruct (decide (TrimSpace line = "")); [right|left]; naive_solver) || (right; naive_solver). Defined.
Lemma jsonLines_skip lines : jsonLines true lines = Ok (omap lineValue lines).
Proof.
  induction lines as [|line l IH]; [done|]. cbn [jsonLines omap list_omap]. unfold lineValue at 1. destruct (decide (TrimSpace line = "")); [done|].
  destruct (Unmarshal (TrimSpace line)); [|done]. by rewrite IH.
Qed.
Lemma jsonLines_fail lines : Forall (fun line => ~ malformed line) lines -> jsonLines false lines = jsonLines true lines.
Proof.
  induction 1 as [|line l H _ IH]; [done|]. cbn [jsonLines]. rewrite IH. unfold malformed in H. destruct (decide (TrimSpace line = "")); [done|].
  destruct (Unmarshal (TrimSpace line)); [done|]. by destruct H.
Qed.
Lemma jsonLines_error lines : Exists malformed lines -> jsonLines false lines = Err "recordformat: jsonl line".
Proof.
  induction 1 as [line l [H1 H2]|line l H IH]; cbn [jsonLines].
  - by rewrite decide_False, H2.
  - destruct (decide (TrimSpace line = "")); [done|]. destruct (Unmarshal (TrimSpace line)); [|done]. by rewrite IH.
Qed.

(** Malformed rows: with the policy [skip] a CSV or JSON-lines file gives exactly the
    records of its well-formed rows, in order; with any other policy the same records when no
    row is malformed, and an error otherwise. *)
Theorem malformed_rows_policy raw cfg policy c : validDelim c = true -> bytes_of_string (Delimiter cfg) = [c] ->
  let rows := reads c (DecodeEncoding raw (Encoding cfg)) in
  let '(lines, err) := scanLines raw in
  (policy = "skip" -> parseCSV raw "csv" cfg policy = Some (Ok (csvRecords (HasHeader cfg) (omap rowOf rows))) /\
     (err = None -> parseJSONLines raw policy = Ok (omap lineValue lines))) /\
  (policy <> "skip" ->
     parseCSV raw "csv" cfg policy =
       Some (if decide (Forall (fun r => is_Some (rowOf r)) rows) then Ok (csvRecords (HasHeader cfg) (omap rowOf rows)) else Err "recordformat: csv row") /\
     (err = None -> parseJSONLines raw policy = if decide (Exists malformed lines) then Err "recordformat: jsonl line" else Ok (omap lineValue lines))).
Proof.
  intros Hc Hd. cbn zeta. destruct (scanLines raw) as [lines err] eqn:El. assert (Delimiter cfg <> "") as Hne by (intros E; by rewrite E in Hd).
  assert (parseCSV raw "csv" cfg policy =
    Some (csvRecords (HasHeader cfg) <$> csvRows (bool_decide (policy = "skip")) (reads c (DecodeEncoding raw (Encoding cfg))))) as Hp.
  { unfold parseCSV. rewrite decide_False, Hd, Hc by done. done. }
  rewrite Hp. unfold parseJSONLines. rewrite El. split; intros Hpol.
  - rewrite bool_decide_true, csvRows_skip, jsonLines_skip by done. split; [done|]. by intros ->.
  - rewrite bool_decide_false, csvRows_fail by done. split; [by destruct (decide (Forall _ _))|]. intros ->. rewrite ?bool_decide_false by done. destruct (decide (Exists malformed lines)) as [Hm|Hm].
    + by rewrite jsonLines_error.
    + rewrite jsonLines_fail, jsonLines_skip; [done|]. by apply Forall_Exists_neg.
Qed.
End parse.

Module examples.
Definition cfg : CSVConfig := MkCSVConfig ";" true "".
Definition reads (c : Z) (raw : bytes) : list (res string (list string)) := [Ok ["a"; "b"]; Ok ["1"; "2"]; Err "quote"; Ok ["3"]].
Definition json (s : string) : option any := if decide (s = "bad") then None else Some (AStr s).
Definition lines (raw : bytes) : list string * option string := (["x"; ""; "bad"; "y"], None).
Lemma malformed_rows_witness : parseCSV reads [] "csv" cfg "skip" = Some (Ok [AMap [("a", AStr "1"); ("b", AStr "2")]; AMap [("a", AStr "3"); ("b", AStr "")]]) /\
  parseJSONLines json lines (fun s => s) [] "skip" = Ok [AStr "x"; AStr "y"].
Proof.
  destruct (malformed_rows_policy reads json lines (fun s => s) [] cfg "skip" 59 eq_refl eq_refl) as [H _].
  destruct (H eq_refl) as [H1 H2]. split; [exact H1|exact (H2 eq_refl)].
Defined.
(** A delimiter that the CSV reader refuses, with the policy [skip]: the loop never ends. *)
Lemma bad_delimiter_hangs : parseCSV reads [] "csv" (MkCSVConfig (string_of_bytes [34]) false "") "skip" = None /\
  parseCSV reads [] "csv" (MkCSVConfig (string_of_bytes [34]) false "") "fail" = Some (Err "recordformat: csv row").
Proof. split; vm_compute; reflexivity. Qed.
End examples.
End recordformat.
