(* ===== verification/FileWatch.v ===== *)
(** * The file-watch node ([engine/nodes/filewatch])

    The watcher's events, the goroutine per file that waits until the file is stable, reads,
    parses and emits it and then applies the post-action, and the set [inFlight] that is to keep
    one goroutine per file.  Writers of files, the event loop and the goroutines interleave: a
    step relation, one atomic action per step.  A goroutine has a number; what each one read and
    emitted is recorded.  The parser is that of the record formats; path functions, the pattern
    and the outcome of every file operation and of [emit] are arguments. *)

From S2P Require Import Prelude Bytes GoStd Datagram Execution Value.
Import gostd value.
Local Open Scope Z_scope.

Module filewatch.

Definition DefaultStabilityMs : Z := 500.
Record PostAction := MkPostAction { Action : string; MoveTo : string; RenamePattern : string }.
Record Config := MkConfig {
  Directory : string; Pattern : string; Recursive : bool; Format : string; Emit : string; StabilityMs : Z; postAction : PostAction
}.
Definition New (cfg : Config) : res string Config :=
  _ ← guard_err (bool_decide (Directory cfg <> "")) "file-watch: directory is required";
  _ ← guard_err (bool_decide (Pattern cfg <> "")) "file-watch: pattern is required";
  _ ← guard_err (bool_decide (Format cfg ∈ ["csv"; "tsv"; "json"; "jsonl"; "xml"; "xlsx"; "raw"])) "file-watch: unknown format";
  Ok cfg.
Definition stability (cfg : Config) : Z := if StabilityMs cfg =? 0 then DefaultStabilityMs else StabilityMs cfg.

Record Event := MkEvent { e_Name : string; e_Create : bool; e_Write : bool }.

(** Where a goroutine is: polling the size, about to read, emitting the rest of its values,
    before the post-action, before the deferred delete. *)
Inductive phase := Waiting (lastSize stableSince : Z) | Reading | Emitting (rest : list any) | Posting | Leaving.

(** [got] and [sent]: what a goroutine read and emitted; [posted]: those that came to their
    post-action. *)
Record world := MkWorld {
  files : gmap string bytes; dirs : gset string; watched : gset string; inFlight : gset string;
  gos : gmap nat (string * phase); next : nat; now : Z;
  got : gmap nat bytes; sent : list (nat * any); posted : gset nat
}.
Definition start (fs : gmap string bytes) (ds ws : gset string) (t : Z) : world := MkWorld fs ds ws ∅ ∅ 0 t ∅ [] ∅.

Definition set_gos (w : world) g : world :=
  MkWorld (files w) (dirs w) (watched w) (inFlight w) g (next w) (now w) (got w) (sent w) (posted w).
Definition set_files (w : world) fs : world :=
  MkWorld fs (dirs w) (watched w) (inFlight w) (gos w) (next w) (now w) (got w) (sent w) (posted w).
Definition goTo (w : world) (i : nat) (path : string) (p : phase) : world := set_gos w (<[i := (path, p)]> (gos w)).

Section node.
(** [recordformat.ParseRecords] with the node's options; [filepath.Match] on the base name;
    [filepath.Base], [Ext], [Dir] and [Join]; [strings.TrimSuffix] and [ReplaceAll]. *)
Context (cfg : Config) (parse : bytes -> option (res string (list any))) (Match : string -> bool)
        (Base Ext Dir : string -> string) (Join TrimSuffix : string -> string -> string) (ReplaceAll : string -> string -> string -> string).

(** [handleEvent]: a new subdirectory is watched; a created or written file gets a goroutine
    unless one is at work on it. *)
Definition handleEvent (w : world) (ev : Event) : world :=
  let p := e_Name ev in
  if decide (p ∈ dirs w) then
    if Recursive cfg && e_Create ev then
      MkWorld (files w) (dirs w) ({[p]} ∪ watched w) (inFlight w) (gos w) (next w) (now w) (got w) (sent w) (posted w)
    else w
  else if negb (e_Create ev) && negb (e_Write ev) then w
  else if negb (Match p) then w
  else if decide (p ∈ inFlight w) then w
  else MkWorld (files w) (dirs w) (watched w) ({[p]} ∪ inFlight w) (<[next w := (p, Waiting (-1) (now w))]> (gos w)) (S (next w)) (now w)
         (got w) (sent w) (posted w).

(** One turn of [waitStable]: [size] is what [os.Stat] says. *)
Definition poll (lastSize stableSince : Z) (size : option Z) (t : Z) : phase :=
  match size with
  | None => Leaving
  | Some s => if negb (s =? lastSize) then Waiting s t
              else if millis (stability cfg) <=? timeSub t stableSince then Reading else Waiting lastSize stableSince
  end.

(** The values of a file: its records, or one value for all of them. *)
Definition values (records : list any) : list any := if decide (Emit cfg = "batch") then [AArr records] else records.
(** [os.ReadFile] and the parse; [None]: the parser does not return. *)
Definition readFile (content : option bytes) : option phase :=
  match content with
  | None => Some Leaving
  | Some raw => r ← parse raw; Some (match r with Ok records => Emitting (values records) | _ => Leaving end)
  end.

Definition newName (path : string) : string :=
  let ext := Ext path in
  let name := TrimSuffix (Base path) ext in
  let pat := if decide (RenamePattern (postAction cfg) = "") then "{{name}}{{ext}}.done" else RenamePattern (postAction cfg) in
  ReplaceAll (ReplaceAll pat "{{name}}" name) "{{ext}}" ext.
Definition rename (fs : gmap string bytes) (from to : string) : gmap string bytes :=
  match fs !! from with Some c => <[to := c]> (delete from fs) | None => fs end.
(** [ok]: the file operation succeeds; an error is only logged. *)
Definition applyPostAction (ok : bool) (fs : gmap string bytes) (path : string) : gmap string bytes :=
  let a := postAction cfg in
  if negb ok then fs
  else if decide (Action a = "markerFile") then <[path +:+ ".processed" := []]> fs
  else if decide (Action a = "move") then (if decide (MoveTo a = "") then fs else rename fs path (Join (MoveTo a) (Base path)))
  else if decide (Action a = "rename") then rename fs path (Join (Dir path) (newName path))
  else if decide (Action a = "delete") then delete path fs
  else fs.

(** ** Interleavings *)

Inductive step : world -> world -> Prop :=
| step_write w path content :
    (* another program writes a file *)
    step w (set_files w (<[path := content]> (files w)))
| step_remove w path :
    step w (set_files w (delete path (files w)))
| step_mkdir w path :
    step w (MkWorld (files w) ({[path]} ∪ dirs w) (watched w) (inFlight w) (gos w) (next w) (now w) (got w) (sent w) (posted w))
| step_time w t :
    now w <= t ->
    step w (MkWorld (files w) (dirs w) (watched w) (inFlight w) (gos w) (next w) t (got w) (sent w) (posted w))
| step_event w ev :
    step w (handleEvent w ev)
| step_poll w i path l s size :
    (* info, err := os.Stat(path) *)
    gos w !! i = Some (path, Waiting l s) -> size = (zlen <$> files w !! path) \/ size = None ->
    step w (goTo w i path (poll l s size (now w)))
| step_cancel w i path l s :
    (* case <-ctx.Done() *)
    gos w !! i = Some (path, Waiting l s) -> step w (goTo w i path Leaving)
| step_read w i path content p :
    (* raw, err := os.ReadFile(path) *)
    gos w !! i = Some (path, Reading) -> content = files w !! path \/ content = None -> readFile content = Some p ->
    step w (MkWorld (files w) (dirs w) (watched w) (inFlight w) (<[i := (path, p)]> (gos w)) (next w) (now w)
              (match content with Some raw => <[i := raw]> (got w) | None => got w end) (sent w) (posted w))
| step_emit w i path v rest :
    (* emit("out", d) *)
    gos w !! i = Some (path, Emitting (v :: rest)) ->
    step w (MkWorld (files w) (dirs w) (watched w) (inFlight w) (<[i := (path, Emitting rest)]> (gos w)) (next w) (now w)
              (got w) (sent w ++ [(i, v)]) (posted w))
| step_emit_fails w i path v rest :
    gos w !! i = Some (path, Emitting (v :: rest)) -> step w (goTo w i path Leaving)
| step_emitted w i path :
    gos w !! i = Some (path, Emitting []) -> step w (goTo w i path Posting)
| step_post w i path ok :
    (* n.applyPostAction(path) *)
    gos w !! i = Some (path, Posting) ->
    step w (MkWorld (applyPostAction ok (files w) path) (dirs w) (watched w) (inFlight w) (<[i := (path, Leaving)]> (gos w)) (next w) (now w)
              (got w) (sent w) ({[i]} ∪ posted w))
| step_leave w i path :
    (* the deferred delete *)
    gos w !! i = Some (path, Leaving) ->
    step w (MkWorld (files w) (dirs w) (watched w) (inFlight w ∖ {[path]}) (delete i (gos w)) (next w) (now w) (got w) (sent w) (posted w)).
Definition reachable (w0 w : world) : Prop := rtc step w0 w.

(** ** One goroutine per file, and the post-action last *)

Definition sentBy (l : list (nat * any)) (i : nat) : list any := omap (fun x => if decide (x.1 = i) then Some x.2 else None) l.
(** All values of what was read, and some of them in order. *)
Definition complete (g : option bytes) (s : list any) : Prop := exists raw records, g = Some raw /\ parse raw = Some (Ok records) /\ s = values records.
Definition partial (g : option bytes) (s : list any) : Prop :=
  (g = None /\ s = []) \/ exists raw r, g = Some raw /\ parse raw = Some r /\ s `prefix_of` match r with Ok records => values records | _ => [] end.
(** What a goroutine has done, by the place where it is. *)
Definition progress (ph : option phase) (g : option bytes) (s : list any) (p : bool) : Prop :=
  match ph with
  | Some (Waiting _ _) | Some Reading => g = None /\ s = [] /\ p = false
  | Some (Emitting rest) => p = false /\ exists raw records, g = Some raw /\ parse raw = Some (Ok records) /\ s ++ rest = values records
  | Some Posting => p = false /\ complete g s
  | Some Leaving | None => partial g s /\ (p = true -> complete g s)
  end.
Definition progress_of (w : world) (i : nat) : Prop :=
  progress (snd <$> gos w !! i) (got w !! i) (sentBy (sent w) i) (bool_decide (i ∈ posted w)).
Record inv (w : world) : Prop := {
  inv_next : forall i, (next w <= i)%nat -> gos w !! i = None /\ got w !! i = None /\ sentBy (sent w) i = [] /\ i ∉ posted w;
  inv_one : forall i j path p q, gos w !! i = Some (path, p) -> gos w !! j = Some (path, q) -> i = j;
  inv_flight : forall path, path ∈ inFlight w <-> exists i p, gos w !! i = Some (path, p);
  inv_progress : forall i, progress_of w i
}.

Lemma sentBy_app l l' i : sentBy (l ++ l') i = sentBy l i ++ sentBy l' i.
Proof. apply omap_app. Qed.
Lemma sentBy_one j v i : sentBy [(j, v)] i = if decide (j = i) then [v] else [].
Proof. unfold sentBy. cbn. by case_decide. Qed.

(** A step of goroutine [i] that keeps its path. *)
Lemma inv_advance w w' i path p p' : inv w -> gos w !! i = Some (path, p) -> gos w' = <[i := (path, p')]> (gos w) -> next w' = next w ->
  inFlight w' = inFlight w -> (forall j, j <> i -> got w' !! j = got w !! j /\ sentBy (sent w') j = sentBy (sent w) j /\ (j ∈ posted w' <-> j ∈ posted w)) ->
  progress_of w' i -> inv w'.
Proof.
  intros [Hn H1 Hf Hp] Hi Hg Hnx Hfl Hrest Hpi. assert (i < next w)%nat as Hlt.
  { destruct (decide (i < next w)%nat); [done|]. destruct (Hn i ltac:(lia)) as [E _]. congruence. }
  assert (forall j x q, gos w' !! j = Some (x, q) -> exists q', gos w !! j = Some (x, q')) as Hback.
  { intros j x q. rewrite Hg. destruct (decide (j = i)) as [->|Hne]; [|rewrite lookup_insert_ne by done; eauto].
    rewrite lookup_insert_eq. intros [= <- <-]. eauto. }
  split.
  - intros j Hj. rewrite Hnx in Hj. destruct (Hrest j ltac:(lia)) as (-> & -> & ->). rewrite Hg, lookup_insert_ne by lia. by apply Hn.
  - intros a b x q q' Ha Hb. destruct (Hback _ _ _ Ha) as [? Ha'], (Hback _ _ _ Hb) as [? Hb']. by eapply H1.
  - intros x. rewrite Hfl, Hf. split; [|intros (j & q & Hj); destruct (Hback _ _ _ Hj); eauto]. intros (j & q & Hj). rewrite Hg.
    destruct (decide (j = i)) as [->|Hne]; [|exists j, q; by rewrite lookup_insert_ne]. rewrite Hi in Hj. injection Hj as <- <-. exists i, p'. by rewrite lookup_insert_eq.
  - intros j. destruct (decide (j = i)) as [->|Hne]; [done|]. destruct (Hrest j Hne) as (E1 & E2 & E3). specialize (Hp j). unfold progress_of in *.
    rewrite Hg, lookup_insert_ne, E1, E2 by done. by rewrite (bool_decide_ext _ _ E3).
Qed.
Lemma others_same (w w' : world) (i : nat) : got w' = got w -> sent w' = sent w -> posted w' = posted w ->
  forall j, j <> i -> got w' !! j = got w !! j /\ sentBy (sent w') j = sentBy (sent w) j /\ (j ∈ posted w' <-> j ∈ posted w).
Proof. intros -> -> -> j _. done. Qed.
Lemma inv_goTo w i path p p' : inv w -> gos w !! i = Some (path, p) ->
  (forall g s b, progress (Some p) g s b -> progress (Some p') g s b) -> inv (goTo w i path p').
Proof.
  intros H Hi Hpp. eapply (inv_advance w (goTo w i path p') i path p p'); [done|done|done|done|done|by apply others_same|].
  unfold progress_of, goTo, set_gos. cbn [gos got sent posted]. rewrite lookup_insert_eq. apply Hpp.
  pose proof (inv_progress w H i) as Hpr. unfold progress_of in Hpr. by rewrite Hi in Hpr.
Qed.
(** Steps that leave the goroutines alone. *)
Lemma inv_unmoved w w' : inv w -> gos w' = gos w -> next w' = next w -> inFlight w' = inFlight w -> got w' = got w -> sent w' = sent w ->
  posted w' = posted w -> inv w'.
Proof. intros [Hn H1 Hf Hp] E1 E2 E3 E4 E5 E6. split; unfold progress_of; rewrite ?E1, ?E2, ?E3, ?E4, ?E5, ?E6; done. Qed.

Lemma inv_event w ev : inv w -> inv (handleEvent w ev).
Proof.
  intros H. unfold handleEvent. case_decide; [case_match; [by apply (inv_unmoved w)|done]|]. destruct (_ && _); [done|]. destruct (negb _); [done|].
  case_decide as Hin; [done|]. pose proof H as [Hn H1 Hf Hp]. set (p := e_Name ev) in *.
  assert (forall i x, gos w !! i = Some x -> i <> next w) as Hfresh by (intros i x Hi ->; destruct (Hn (next w) ltac:(lia)) as [E _]; congruence).
  assert (forall i q, gos w !! i <> Some (p, q)) as Hno by (intros i q Hi; apply Hin, Hf; eauto).
  destruct (Hn (next w) ltac:(lia)) as (_ & Eg & Es & Ep). split; cbn [gos next got sent posted inFlight].
  - intros i Hi. rewrite lookup_insert_ne by lia. apply Hn. lia.
  - intros i j x a b. destruct (decide (i = next w)) as [->|Hi], (decide (j = next w)) as [->|Hj];
      rewrite ?lookup_insert_eq, ?lookup_insert_ne by done; [done| | |apply H1].
    + intros [= <- <-] Hj'. by destruct (Hno j b).
    + intros Hi' [= <- <-]. by destruct (Hno i a).
  - intros x. rewrite elem_of_union, elem_of_singleton, Hf. split.
    + intros [->|(i & q & Hi)]; [exists (next w), (Waiting (-1) (now w)); by rewrite lookup_insert_eq|].
      exists i, q. pose proof (Hfresh _ _ Hi). by rewrite lookup_insert_ne.
    + intros (i & q & Hi). destruct (decide (i = next w)) as [->|Hne].
      * rewrite lookup_insert_eq in Hi. injection Hi as <- <-. by left.
      * rewrite lookup_insert_ne in Hi by done. right. eauto.
  - intros i. unfold progress_of. cbn [gos got sent posted]. destruct (decide (i = next w)) as [->|Hne].
    + rewrite lookup_insert_eq, Eg, Es. cbn. by rewrite bool_decide_false.
    + rewrite lookup_insert_ne by done. apply Hp.
Qed.

Lemma inv_read w i path content p : inv w -> gos w !! i = Some (path, Reading) -> readFile content = Some p ->
  inv (MkWorld (files w) (dirs w) (watched w) (inFlight w) (<[i := (path, p)]> (gos w)) (next w) (now w)
         (match content with Some raw => <[i := raw]> (got w) | None => got w end) (sent w) (posted w)).
Proof.
  intros H Hi Hr. pose proof (inv_progress w H i) as Hpr. unfold progress_of in Hpr. rewrite Hi in Hpr. cbn in Hpr. destruct Hpr as (Eg & Es & Ep).
  eapply (inv_advance w _ i path Reading p); [done|done|done|done|done| |].
  - intros j Hj. cbn [got sent posted]. split; [|done]. destruct content; [by rewrite lookup_insert_ne|done].
  - unfold progress_of. cbn [gos got sent posted]. rewrite lookup_insert_eq. unfold readFile in Hr. destruct content as [raw|].
    + rewrite lookup_insert_eq, Es, Ep. destruct (parse raw) as [r|] eqn:E; [|done]. cbn in Hr. injection Hr as <-.
      destruct r as [records| |]; cbn; [split; [done|]; by exists raw, records| |];
        (split; [right; eexists raw, _; split_and!; [done|exact E|apply prefix_nil]|done]).
    + injection Hr as <-. rewrite Eg, Es, Ep. cbn. split; [by left|done].
Qed.
Lemma inv_emit w i path v rest : inv w -> gos w !! i = Some (path, Emitting (v :: rest)) ->
  inv (MkWorld (files w) (dirs w) (watched w) (inFlight w) (<[i := (path, Emitting rest)]> (gos w)) (next w) (now w)
         (got w) (sent w ++ [(i, v)]) (posted w)).
Proof.
  intros H Hi. pose proof (inv_progress w H i) as Hpr. unfold progress_of in Hpr. rewrite Hi in Hpr. cbn in Hpr.
  destruct Hpr as (Ep & raw & records & Eg & Er & Es). eapply (inv_advance w _ i path _ (Emitting rest)); [done|done|done|done|done| |].
  - intros j Hj. cbn [got sent posted]. rewrite sentBy_app, sentBy_one, decide_False, app_nil_r by done. done.
  - unfold progress_of. cbn [gos got sent posted]. rewrite lookup_insert_eq. cbn. split; [done|]. exists raw, records.
    rewrite sentBy_app, sentBy_one, decide_True, <- app_assoc by done. done.
Qed.
Lemma inv_post w i path fs : inv w -> gos w !! i = Some (path, Posting) ->
  inv (MkWorld fs (dirs w) (watched w) (inFlight w) (<[i := (path, Leaving)]> (gos w)) (next w) (now w) (got w) (sent w) ({[i]} ∪ posted w)).
Proof.
  intros H Hi. pose proof (inv_progress w H i) as Hpr. unfold progress_of in Hpr. rewrite Hi in Hpr. cbn in Hpr. destruct Hpr as [_ Hc].
  eapply (inv_advance w _ i path _ Leaving); [done|done|done|done|done| |].
  - intros j Hj. cbn [got sent posted]. split_and!; [done|done|]. rewrite elem_of_union, elem_of_singleton. split; [by intros [?|?]|by right].
  - unfold progress_of. cbn [gos got sent posted]. rewrite lookup_insert_eq. cbn. split; [|done]. destruct Hc as (raw & records & Eg & Er & Es).
    right. exists raw, (Ok records). by rewrite Eg, Er, Es.
Qed.
Lemma inv_leave w i path : inv w -> gos w !! i = Some (path, Leaving) ->
  inv (MkWorld (files w) (dirs w) (watched w) (inFlight w ∖ {[path]}) (delete i (gos w)) (next w) (now w) (got w) (sent w) (posted w)).
Proof.
  intros H Hi. pose proof H as [Hn H1 Hf Hp].
  assert (forall j x, delete i (gos w) !! j = Some x <-> j <> i /\ gos w !! j = Some x) as Hd.
  { intros j x. destruct (decide (j = i)) as [->|Hne]; [rewrite lookup_delete_eq; split; [done|by intros [? _]]|].
    rewrite lookup_delete_ne by done. split; [done|by intros [_ ?]]. }
  split; cbn [gos next got sent posted inFlight].
  - intros j Hj. destruct (Hn j Hj) as (E & ?). split; [|done]. apply eq_None_not_Some. intros [x Hx]. apply Hd in Hx as [_ Hx]. congruence.
  - intros a b x p q [_ Ha]%Hd [_ Hb]%Hd. by eapply H1.
  - intros x. rewrite elem_of_difference, elem_of_singleton, Hf. split.
    + intros [(j & q & Hj) Hne]. exists j, q. apply Hd. split; [|done]. intros ->. congruence.
    + intros (j & q & [Hji Hj]%Hd). split; [eauto|]. intros ->. apply Hji. by eapply H1.
  - intros j. specialize (Hp j). unfold progress_of in *. cbn [gos got sent posted]. destruct (decide (j = i)) as [->|Hne].
    + rewrite lookup_delete_eq. rewrite Hi in Hp. exact Hp.
    + by rewrite lookup_delete_ne.
Qed.
Lemma inv_step w w' : inv w -> step w w' -> inv w'.
Proof.
  intros H. destruct 1; try (by apply (inv_unmoved w)).
  - by apply inv_event.
  - eapply inv_goTo; [done..|]. intros g s' b Hpr. unfold poll. repeat case_match; try done. cbn in *. destruct Hpr as (-> & -> & ->). split; [by left|done].
  - eapply inv_goTo; [done..|]. intros g s' b Hpr. cbn in *. destruct Hpr as (-> & -> & ->). split; [by left|done].
  - by eapply inv_read.
  - by eapply inv_emit.
  - eapply inv_goTo; [done..|]. intros g s b Hpr. cbn in *. destruct Hpr as (-> & raw & records & -> & Er & Es). split; [|done].
    right. exists raw, (Ok records). split_and!; [done|done|]. rewrite <- Es. by apply prefix_app_r.
  - eapply inv_goTo; [done..|]. intros g s b Hpr. cbn in *. destruct Hpr as (-> & raw & records & -> & Er & Es). split; [done|].
    exists raw, records. by rewrite app_nil_r in Es.
  - by eapply inv_post.
  - by eapply inv_leave.
Qed.
Lemma inv_start fs ds ws t : inv (start fs ds ws t).
Proof.
  split; cbn.
  - done.
  - intros i j path p q Hi. done.
  - intros path. split; [done|]. by intros (i & p & Hi).
  - intros i. unfold progress_of. cbn. rewrite bool_decide_false by done. split; [by left|done].
Qed.

(** [C24] In every interleaving of writers, events and goroutines: a file has at most one
    goroutine, and exactly the files with one are in flight; a goroutine emits the values of
    what it read, in their order and each at most once; and it comes to its post-action, which
    may move or delete the file, only after it has emitted all of them. *)
Theorem post_action_last fs ds ws t w : reachable (start fs ds ws t) w ->
  (forall i j path p q, gos w !! i = Some (path, p) -> gos w !! j = Some (path, q) -> i = j) /\
  (forall path, path ∈ inFlight w <-> exists i p, gos w !! i = Some (path, p)) /\
  (forall i, (got w !! i = None /\ sentBy (sent w) i = []) \/
     exists raw r, got w !! i = Some raw /\ parse raw = Some r /\
       sentBy (sent w) i `prefix_of` match r with Ok records => values records | _ => [] end) /\
  (forall i, i ∈ posted w \/ (exists path, gos w !! i = Some (path, Posting)) -> complete (got w !! i) (sentBy (sent w) i)).
Proof.
  intros Hr. assert (inv w) as H.
  { pose proof (inv_start fs ds ws t) as H0. unfold reachable in Hr. induction Hr as [|x y z Hs _ IH]; [done|]. apply IH. by eapply inv_step. }
  destruct H as [Hn H1 Hf Hp]. split_and!; [done|done| |].
  - intros i. specialize (Hp i). unfold progress_of in Hp. destruct (gos w !! i) as [[path []]|]; cbn in Hp.
    + destruct Hp as (? & ? & _). by left.
    + destruct Hp as (? & ? & _). by left.
    + destruct Hp as (_ & raw & records & E1 & E2 & E3). right. exists raw, (Ok records). split_and!; [done|done|]. rewrite <- E3. by apply prefix_app_r.
    + destruct Hp as (_ & raw & records & E1 & E2 & E3). right. exists raw, (Ok records). by rewrite E3.
    + by destruct Hp as [? _].
    + by destruct Hp as [? _].
  - intros i Hi. specialize (Hp i). unfold progress_of in Hp. destruct Hi as [Hi|[path Hi]].
    + rewrite bool_decide_true in Hp by done. destruct (gos w !! i) as [[path []]|]; cbn in Hp; try (by destruct Hp as (_ & _ & ?)); try (by destruct Hp as [? _]);
        destruct Hp as [_ Hp]; by apply Hp.
    + rewrite Hi in Hp. by destruct Hp as [_ ?].
Qed.
End node.

Module examples.
Definition cfg (action : string) : Config := MkConfig "d" "*" false "raw" "" 0 (MkPostAction action "" "").
Definition parse (raw : bytes) : option (res string (list any)) := Some (Ok [AStr (string_of_bytes raw)]).
Definition all : string -> bool := fun _ => true.
Definition idp : string -> string := fun s => s.
Definition join : string -> string -> string := fun a b => a +:+ "/" +:+ b.
Definition replace : string -> string -> string -> string := fun s _ _ => s.
Abbreviation del_step := (step (cfg "delete") parse all idp idp idp join join replace).
Definition one : bytes := bytes_of_string "1".
Definition two : bytes := bytes_of_string "2".
Definition ev : Event := MkEvent "f" false true.
Definition w0 : world := start {["f" := one]} ∅ {["d"]} 0.
Definition w1 : world := handleEvent (cfg "delete") all w0 ev.
Definition w2 : world := goTo w1 0 "f" (poll (cfg "delete") (-1) 0 (Some 1) 0).
Definition w3 : world := MkWorld (files w2) (dirs w2) (watched w2) (inFlight w2) (gos w2) (next w2) 1000000000 (got w2) (sent w2) (posted w2).
Definition w4 : world := goTo w3 0 "f" (poll (cfg "delete") 1 0 (Some 1) 1000000000).
Definition w5 : world := MkWorld (files w4) (dirs w4) (watched w4) (inFlight w4) (<[0%nat := ("f", Emitting [AStr "1"])]> (gos w4)) (next w4) (now w4)
  (<[0%nat := one]> (got w4)) (sent w4) (posted w4).
Definition w6 : world := set_files w5 (<["f" := two]> (files w5)).
Definition w7 : world := MkWorld (files w6) (dirs w6) (watched w6) (inFlight w6) (<[0%nat := ("f", Emitting [])]> (gos w6)) (next w6) (now w6)
  (got w6) (sent w6 ++ [(0%nat, AStr "1")]) (posted w6).
Definition w8 : world := goTo w7 0 "f" Posting.
Definition w9 : world := MkWorld (applyPostAction (cfg "delete") idp idp idp join join replace true (files w8) "f") (dirs w8) (watched w8) (inFlight w8)
  (<[0%nat := ("f", Leaving)]> (gos w8)) (next w8) (now w8) (got w8) (sent w8) ({[0%nat]} ∪ posted w8).
Definition w10 : world := MkWorld (files w9) (dirs w9) (watched w9) (inFlight w9 ∖ {["f"]}) (delete 0%nat (gos w9)) (next w9) (now w9) (got w9) (sent w9) (posted w9).

Lemma reads_first : rtc del_step w0 w6.
Proof.
  apply (rtc_l _ _ w1); [apply step_event|]. apply (rtc_l _ _ w2); [apply step_poll; [reflexivity|left; reflexivity]|].
  apply (rtc_l _ _ w3); [apply step_time; vm_compute; discriminate|]. apply (rtc_l _ _ w4); [apply step_poll; [reflexivity|left; reflexivity]|].
  apply (rtc_l _ _ w5); [apply (step_read _ _ _ _ _ _ _ _ _ w4 0 "f" (Some one)); [reflexivity|left; reflexivity|reflexivity]|].
  apply (rtc_l _ _ w6); [apply step_write|constructor].
Qed.
Lemma deletes_second : rtc del_step w6 w10.
Proof.
  apply (rtc_l _ _ w7); [apply (step_emit _ _ _ _ _ _ _ _ _ w6 0 "f" (AStr "1") []); reflexivity|].
  apply (rtc_l _ _ w8); [apply step_emitted; reflexivity|]. apply (rtc_l _ _ w9); [apply step_post; reflexivity|].
  apply (rtc_l _ _ w10); [apply step_leave; reflexivity|constructor].
Qed.
(** A file that is written again after it was read: the event is ignored because the file is in
    flight, and the post-action deletes contents that no one has read. *)
Lemma write_during_emission_lost : rtc del_step w0 w6 /\ files w6 !! "f" = Some two /\ handleEvent (cfg "delete") all w6 ev = w6 /\
  rtc del_step w6 w10 /\ files w10 = ∅ /\ gos w10 = ∅ /\ map snd (sent w10) = [AStr "1"].
Proof. split; [apply reads_first|]. split; [reflexivity|]. split; [reflexivity|]. split; [apply deletes_second|]. vm_compute. repeat split. Qed.

Lemma post_action_last_witness : complete (cfg "delete") parse (got w10 !! 0%nat) (sentBy (sent w10) 0).
Proof.
  destruct (post_action_last (cfg "delete") parse all idp idp idp join join replace {["f" := one]} ∅ {["d"]} 0 w10) as (_ & _ & _ & H).
  - unfold reachable. etransitivity; [exact reads_first|exact deletes_second].
  - apply H. left. apply (bool_decide_unpack _). vm_compute. exact I.
Defined.

(** A pattern that matches marker files: every marker is a new file with a marker of its own. *)
Lemma markers_of_markers fs path : let fs' := applyPostAction (cfg "markerFile") idp idp idp join join replace true fs path in
  fs' !! (path +:+ ".processed") = Some [] /\
  e_Name (MkEvent (path +:+ ".processed") true false) ∈ inFlight (handleEvent (cfg "markerFile") all (start fs' ∅ ∅ 0) (MkEvent (path +:+ ".processed") true false)).
Proof. cbn zeta. split; [apply lookup_insert_eq|]. unfold handleEvent. cbn. set_solver. Qed.
End examples.
End filewatch.
