(* ===== verification/SecsGemShared.v ===== *)
(** * What the SECS/GEM nodes share ([engine/nodes/secsgemshared])

    The connection: its configuration, the redialling loop and the listener; and the values of
    payloads with their translation to SECS-II items. *)

From S2P Require Import Prelude Bytes GoStd Float SecsII Hsms HsmsConn Gem Datagram Execution Value Debug.
Import gostd float gem datagram execution.
Import -(notations) secsii.
Local Open Scope Z_scope.

Module secsgemshared.
Record TimersConfig := MkTimersConfig {
  T3Ms : Z; T5Ms : Z; T6Ms : Z; T7Ms : Z; T8Ms : Z; LinktestMs : Z
}.
Record Config := MkConfig {
  Mode : string; Host_ : string; Port_ : Z; ListenHost : string; SessionID : Z;
  MDLN : string; SoftRev : string; Timers_ : option TimersConfig
}.
Record Timers := MkTimers { T3 : Z; T5 : Z; T6 : Z; T7 : Z; T8 : Z; Linktest : Z }.
Definition second : Z := 1000000000.
Definition DefaultTimers : Timers :=
  MkTimers (45 * second) (10 * second) (5 * second) (10 * second) (5 * second) (30 * second).
Definition override (ms dflt : Z) : Z := if 0 <? ms then millis ms else dflt.
Definition HSMSTimers (c : Config) : Timers :=
  let t := DefaultTimers in
  match Timers_ c with
  | None => t
  | Some o => MkTimers (override (T3Ms o) (T3 t)) (override (T5Ms o) (T5 t)) (override (T6Ms o) (T6 t))
                       (override (T7Ms o) (T7 t)) (override (T8Ms o) (T8 t)) (override (LinktestMs o) (Linktest t))
  end.
Definition itoa (n : Z) : string := string_of_bytes (FormatInt n).
Definition Addr (c : Config) : string :=
  if decide (Mode c = "passive") then
    (if decide (ListenHost c = "") then "0.0.0.0" else ListenHost c) +:+ ":" +:+ itoa (Port_ c)
  else Host_ c +:+ ":" +:+ itoa (Port_ c).
Definition Identity (c : Config) : string * string :=
  (if decide (MDLN c = "") then "DataPipe" else MDLN c, if decide (SoftRev c = "") then "1.0" else SoftRev c).

Inductive ConnectError :=
| ErrResolve | ErrConfig | ErrNoPort | ErrNoHost | ErrListen (e : hsmsconn.TxError) | ErrCancelled.

Section connect.
Context {C : Type}.
(** What the environment does in one turn of the loop: whether the context is done at its top,
    what dialling gives, whether the context ends during the wait, and the jitter drawn. *)
Record Attempt := MkAttempt { at_cancelled : bool; at_dial : option C; at_done : bool; at_rnd : float64 }.
(** What the loop did: an outcome ([None]: it is still trying), the addresses dialled and the waits. *)
Record Dialled := MkDialled { outcome : option (res ConnectError C); dials : list (string * Z * Timers); waits : list Z }.

Fixpoint dial_loop (addr : string) (sid : Z) (tm : Timers) (bo : debug.Backoff) (attempts : list Attempt) : Dialled :=
  match attempts with
  | [] => MkDialled None [] []
  | a :: rest =>
      if at_cancelled a then MkDialled (Some (Err ErrCancelled)) [] [] else
      match at_dial a with
      | Some conn => MkDialled (Some (Ok conn)) [(addr, sid, tm)] []
      | None =>
          let '(bo', d) := debug.Next bo (at_rnd a) in
          if at_done a then MkDialled (Some (Err ErrCancelled)) [(addr, sid, tm)] [] else
          let r := dial_loop addr sid tm bo' rest in
          MkDialled (outcome r) ((addr, sid, tm) :: dials r) (d :: waits r)
      end
  end.
(** [info]: the resolved connection's configuration, if it resolves and parses; [listen]: what
    [hsms.Listen] returns. *)
Definition Connect (info : res ConnectError Config) (listen : string -> Z -> Timers -> res hsmsconn.TxError C)
    (attempts : list Attempt) : Dialled :=
  match info with
  | Ok cfg =>
      if Port_ cfg =? 0 then MkDialled (Some (Err ErrNoPort)) [] [] else
      let timers := HSMSTimers cfg in
      let sessionID := u16 (SessionID cfg) in
      if decide (Mode cfg = "passive") then
        MkDialled (Some (map_err ErrListen (listen (Addr cfg) sessionID timers))) [] []
      else if decide (Host_ cfg = "") then MkDialled (Some (Err ErrNoHost)) [] []
      else dial_loop (Addr cfg) sessionID timers (debug.NewBackoff (second / 2) (30 * second) (of_Z 2)) attempts
  | Err e => MkDialled (Some (Err e)) [] []
  | Panic => MkDialled (Some Panic) [] []
  end.

(** The waits of a loop that failed with the draws [rnds]. *)
Fixpoint delays (bo : debug.Backoff) (rnds : list float64) : list Z :=
  match rnds with
  | [] => []
  | r :: rest => let '(bo', d) := debug.Next bo r in d :: delays bo' rest
  end.
Lemma dial_loop_failures addr sid tm rest fails : forall bo,
  Forall (fun a => at_cancelled a = false /\ at_dial a = None /\ at_done a = false) fails ->
  exists bo', dial_loop addr sid tm bo (fails ++ rest) =
    let r := dial_loop addr sid tm bo' rest in
    MkDialled (outcome r) (replicate (length fails) (addr, sid, tm) ++ dials r) (delays bo (map at_rnd fails) ++ waits r).
Proof.
  induction fails as [|a fails IH]; intros bo H; [exists bo; cbn; by destruct (dial_loop addr sid tm bo rest)|].
  apply Forall_cons in H as [(Hc & Hd & Hn) H]. cbn. rewrite Hc, Hd, Hn.
  destruct (debug.Next bo (at_rnd a)) as [b d] eqn:E.
  destruct (IH b H) as (b2 & Hb). exists b2. cbn. by rewrite Hb.
Qed.
(** An active connection redials the same address with the same session until a dial succeeds,
    waiting the next backoff delay after every failure. *)
Theorem connect_redials cfg listen fails c done rnd rest :
  Port_ cfg <> 0 -> Mode cfg <> "passive" -> Host_ cfg <> "" ->
  Forall (fun a => at_cancelled a = false /\ at_dial a = None /\ at_done a = false) fails ->
  Connect (Ok cfg) listen (fails ++ MkAttempt false (Some c) done rnd :: rest) =
  MkDialled (Some (Ok c)) (replicate (S (length fails)) (Addr cfg, u16 (SessionID cfg), HSMSTimers cfg))
    (delays (debug.NewBackoff (second / 2) (30 * second) (of_Z 2)) (map at_rnd fails)).
Proof.
  intros Hp Hm Hh Hf. unfold Connect. apply Z.eqb_neq in Hp. rewrite Hp, !decide_False by done.
  destruct (dial_loop_failures (Addr cfg) (u16 (SessionID cfg)) (HSMSTimers cfg) (MkAttempt false (Some c) done rnd :: rest) fails
              (debug.NewBackoff (second / 2) (30 * second) (of_Z 2)) Hf) as (bo & ->).
  cbn [dial_loop at_cancelled at_dial outcome dials waits]. f_equal; [|by rewrite app_nil_r].
  by rewrite replicate_S_end.
Qed.
End connect.

(** ** Values and items *)

(** The values the SECS/GEM nodes put into payloads or find there: what the other nodes use, what
    [Item.Value] returns, and the fixed-width integers of the message records. *)
Inductive gval :=
| GAny (v : value.any)
| GItem (v : secsii.any)
| GU32 (z : Z)
| GU8 (z : Z)
| GBool (b : bool)
| GStr (s : string)
| GArr (l : list gval)
| GMap (m : list (string * gval)).

Definition F8_of (f : float64) : Item := F8v [Float64bits f].
(** A map's entries, sorted by key. *)
Definition map_item (entries : list (string * Item)) : Item :=
  L (map (fun e => L [A (fst e); snd e]) (sortBy fst entries)).

(** [AnyToItem], by the source of the value. *)
Fixpoint any_item (v : value.any) : Item :=
  match v with
  | value.ANil => L []
  | value.AStr s => A s
  | value.ABool b => Bool [b]
  | value.AFloat f => F8_of f
  | value.AInt z => F8_of (of_Z z)
  | value.AArr l => L (map any_item l)
  | value.AMap m => map_item (map (fun e => (fst e, any_item (snd e))) m)
  | _ => L []
  end.
Fixpoint value_item (v : secsii.any) : Item :=
  match v with
  | VNil => L []
  | VList l => L (map value_item l)
  | VString s => A s
  | VBool b => Bool [b]
  | VNum KF64 bits => F8v [bits]
  | VNum KI64 z => F8_of (of_Z z)
  | _ => L []
  end.
Fixpoint AnyToItem (v : gval) : Item :=
  match v with
  | GAny v => any_item v
  | GItem v => value_item v
  | GU32 _ | GU8 _ => L []
  | GBool b => Bool [b]
  | GStr s => A s
  | GArr l => L (map AnyToItem l)
  | GMap m => map_item (map (fun e => (fst e, AnyToItem (snd e))) m)
  end.

(** [fmt.Sprintf] of [%v] for the values that are neither strings nor nil. *)
Section stringmap.
Context (Sprint : gval -> string).
Definition stringify (v : gval) : string :=
  match v with
  | GAny (value.AStr s) | GItem (VString s) | GStr s => s
  | GAny value.ANil | GItem VNil => ""
  | _ => Sprint v
  end.
Definition StringMap (v : gval) : list (string * string) :=
  match v with
  | GMap m => map (fun e => (fst e, stringify (snd e))) m
  | GAny (value.AMap m) => map (fun e => (fst e, stringify (GAny (snd e)))) m
  | _ => []
  end.
End stringmap.
End secsgemshared.
