(* ===== verification/SecsGemHost.v ===== *)
(** * The SECS/GEM host node ([engine/nodes/secsgemhost])

    Configures an equipment (reports, events, traces) and turns its messages into datagrams.  It
    works over the host of [Gem]; what the equipment does is a world the transactions change, and
    the simulator of [Gem] is one such world. *)

From S2P Require Import Prelude Bytes GoStd Float SecsII Hsms HsmsConn Gem Datagram Execution Value SecsGemShared.
Import gostd float gem datagram execution.
Import -(notations) secsii.
Local Open Scope Z_scope.

Module secsgemhost.
Import secsgemshared.
Record reportCfg := MkReportCfg { rc_RPTID : Z; rc_VIDs : list Z }.
Record eventCfg := MkEventCfg { ec_CEID : Z; ec_RPTIDs : list Z }.
Record traceCfg := MkTraceCfg {
  tc_TRID : Z; PeriodSec : float64; TotalSamples : Z; ReportEvery : Z; tc_SVIDs : list Z
}.
Record Config := MkConfig { cfg_Reports : list reportCfg; cfg_Events : list eventCfg; cfg_Traces : list traceCfg }.

Inductive NewError := NoVids (i : Z) | NoRptids (i : Z) | NoSvids (i : Z) | BadPeriod (i : Z).
(** [for i, x := range l { if err := check(i, x); err != nil { return err } }] *)
Fixpoint each {X} (check : Z -> X -> res NewError unit) (i : Z) (l : list X) : res NewError unit :=
  match l with [] => Ok tt | x :: l' => check i x ≫= fun _ => each check (i + 1) l' end.
Definition is_nil {X} (l : list X) : bool := match l with [] => true | _ => false end.
Definition New (cfg : Config) : res NewError Config :=
  _ ← each (fun i r => guard_err (negb (is_nil (rc_VIDs r))) (NoVids i)) 0 (cfg_Reports cfg);
  _ ← each (fun i e => guard_err (negb (is_nil (ec_RPTIDs e))) (NoRptids i)) 0 (cfg_Events cfg);
  _ ← each (fun i t => _ ← guard_err (negb (is_nil (tc_SVIDs t))) (NoSvids i);
                       guard_err (negb (fle (PeriodSec t) fzero)) (BadPeriod i)) 0 (cfg_Traces cfg);
  Ok cfg.

(** [fmt.Sprintf("%0wd", n)]: zero padded to [w] characters, sign included. *)
Definition Sprintf0 (w : nat) (n : Z) : string :=
  let d := FormatInt (Z.abs n) in
  string_of_bytes (if n <? 0 then 45 :: replicate (w - 1 - length d) 48 ++ d else replicate (w - length d) 48 ++ d).
Definition formatDSPER (periodSec : float64) : string :=
  let seconds := to_int64 periodSec in
  let millis := to_int64 (fmul (fsub periodSec (of_Z seconds)) (of_Z 1000)) in
  Sprintf0 4 seconds +:+ "." +:+ Sprintf0 3 millis.

(** *** Setup *)

Inductive SetupError :=
| ErrStep (step : string) (e : HostError)
| ErrRejected (step : string) (ack : Z).

Section setup.
Context {W : Type} (SendAndWait : Z -> Z -> bytes -> sres W hsmsconn.TxError hsms.Message).

(** [ack, err := op(); if err != nil { return ... }; if !ack.OK() { return ... }] *)
Definition acked (step : string) (op : sres W HostError Z) : sres W SetupError unit :=
  ack ← smap_err (ErrStep step) op;
  if AckCode_OK ack then mret tt else of_res (Err (ErrRejected step ack)).

Definition report_def (r : reportCfg) : ReportDef := MkReportDef (rc_RPTID r) (rc_VIDs r).
Definition event_link (e : eventCfg) : EventLink := MkEventLink (ec_CEID e) (ec_RPTIDs e).
Definition report_every (t : traceCfg) : Z := if ReportEvery t =? 0 then 1 else ReportEvery t.
Definition setup_reports (cfg : Config) : sres W SetupError unit :=
  if is_nil (cfg_Reports cfg) then mret tt else
  acked "define report" (DefineReport SendAndWait 1 (map report_def (cfg_Reports cfg))).
Definition setup_events (cfg : Config) : sres W SetupError unit :=
  if is_nil (cfg_Events cfg) then mret tt else
  _ ← acked "link event report" (LinkEventReport SendAndWait 2 (map event_link (cfg_Events cfg)));
  acked "enable event report" (EnableEvents SendAndWait true (map ec_CEID (cfg_Events cfg))).
Definition setup_trace (t : traceCfg) : sres W SetupError unit :=
  acked "establish trace"
    (EstablishTrace SendAndWait (tc_TRID t) (formatDSPER (PeriodSec t)) (TotalSamples t) (report_every t) (tc_SVIDs t)).
Definition setup (cfg : Config) (h : Host) : sres W SetupError unit :=
  _ ← acked "establish communications" ('(ack, _, _) ← EstablishCommunications SendAndWait h; mret ack);
  _ ← setup_reports cfg;
  _ ← setup_events cfg;
  sres_each setup_trace (cfg_Traces cfg).
End setup.

(** *** Datagrams *)

(** [m[k] = v] *)
Fixpoint put {X} (m : list (string * X)) (k : string) (v : X) : list (string * X) :=
  match m with
  | [] => [(k, v)]
  | (k', v') :: m' => if decide (k' = k) then (k, v) :: m' else (k', v') :: put m' k v
  end.
Definition node_source : Source := MkSource "" "secsgem-in" "" "" "".
Definition item_values (its : list Item) : gval := GArr (map (fun it => GItem (secsii.Value it)) its).
Definition event_value (ev : EventReport) : gval :=
  let reports := fold_left (fun m r => put m (itoa (rd_RPTID r)) (item_values (rd_Values r))) (Reports ev) [] in
  GMap [("dataId", GU32 (DataID ev)); ("ceid", GU32 (er_CEID ev)); ("reports", GMap reports)].
Definition trace_value (td : TraceData) : gval :=
  GMap [("trid", GU32 (TRID td)); ("values", item_values (td_Values td))].
Definition alarm_value (al : Alarm) : gval :=
  GMap [("set", GBool (Set_ al)); ("code", GU8 (gem.Code al)); ("alid", GU32 (ALID al)); ("text", GStr (al_Text al))].
Definition eventDatagram (id : string) (now : Z) (ev : EventReport) : Datagram gval :=
  datagram.New id now node_source (MkPayload (event_value ev) None).
Definition traceDatagram (id : string) (now : Z) (td : TraceData) : Datagram gval :=
  datagram.New id now node_source (MkPayload (trace_value td) None).
Definition alarmDatagram (id : string) (now : Z) (al : Alarm) : Datagram gval :=
  datagram.New id now node_source (MkPayload (alarm_value al) None).
(** *** What setup does *)

(** The requests of a configuration, in order: the specification of [setup]. *)
Record req := MkReq { rq_step : string; rq_stream : Z; rq_function : Z; rq_body : Item; rq_ack : Item -> res GemError Z }.
Definition comm_ack (it : Item) : res GemError Z :=
  '(ack, _, _) ← ParseEstablishCommunicationsReply it; Ok ack.
Definition trace_req (t : traceCfg) : req :=
  MkReq "establish trace" 2 23
    (EncodeEstablishTrace (tc_TRID t) (formatDSPER (PeriodSec t)) (TotalSamples t) (report_every t) (tc_SVIDs t))
    ParseEstablishTraceReply.
Definition plan (cfg : Config) (h : Host) : list req :=
  [MkReq "establish communications" 1 13 (EncodeEstablishCommunications (mdln h) (softrev h)) comm_ack] ++
  (if is_nil (cfg_Reports cfg) then [] else
   [MkReq "define report" 2 33 (EncodeDefineReport 1 (map report_def (cfg_Reports cfg))) ParseDefineReportReply]) ++
  (if is_nil (cfg_Events cfg) then [] else
   [MkReq "link event report" 2 35 (EncodeLinkEventReport 2 (map event_link (cfg_Events cfg))) ParseLinkEventReportReply;
    MkReq "enable event report" 2 37 (EncodeEnableEvents true (map ec_CEID (cfg_Events cfg))) ParseEnableEventsReply]) ++
  map trace_req (cfg_Traces cfg).

Section plan_facts.
Context {W : Type} (SendAndWait : Z -> Z -> bytes -> sres W hsmsconn.TxError hsms.Message).
Definition exchange (r : req) : sres W SetupError unit :=
  acked (rq_step r) (request_parse SendAndWait (rq_stream r) (rq_function r) (rq_body r) (rq_ack r)).

(** Every request of a list was sent and acknowledged, one after the other. *)
Inductive acknowledged : list req -> W -> W -> Prop :=
| ack_nil w : acknowledged [] w w
| ack_cons r rs w w1 w2 : exchange r w = (Ok tt, w1) -> acknowledged rs w1 w2 -> acknowledged (r :: rs) w w2.

Lemma sres_each_app {E X} (f : X -> sres W E unit) l1 l2 w :
  sres_each f (l1 ++ l2) w = (sres_each f l1 ≫= fun _ => sres_each f l2) w.
Proof.
  revert w. induction l1 as [|x l1 IH]; intros w; [done|]. cbn [app sres_each].
  unfold mbind, sres_bind in *. destruct (f x w) as [[u|e|] w1]; [apply IH|done|done].
Qed.
Lemma sres_each_map {E X Y} (f : Y -> sres W E unit) (g : X -> Y) l w :
  sres_each f (map g l) w = sres_each (fun x => f (g x)) l w.
Proof.
  revert w. induction l as [|x l IH]; intros w; [done|]. cbn [map sres_each].
  unfold mbind, sres_bind in *. destruct (f (g x) w) as [[u|e|] w1]; [apply IH|done|done].
Qed.
Lemma sres_each_single {E X} (f : X -> sres W E unit) x w : sres_each f [x] w = f x w.
Proof. cbn. unfold mbind, sres_bind, mret, sres_ret. by destruct (f x w) as [[[]|e|] w1]. Qed.
Lemma sres_bind_ext {E X Y} (m m' : sres W E X) (f f' : X -> sres W E Y) w :
  m w = m' w -> (forall a w1, f a w1 = f' a w1) -> (m ≫= f) w = (m' ≫= f') w.
Proof. unfold mbind, sres_bind. intros -> H. destruct (m' w) as [[a|e|] w1]; [apply H|done|done]. Qed.

Lemma communications_exchange h w :
  acked "establish communications" ('(ack, _, _) ← EstablishCommunications SendAndWait h; mret ack) w =
  exchange (MkReq "establish communications" 1 13 (EncodeEstablishCommunications (mdln h) (softrev h)) comm_ack) w.
Proof.
  unfold exchange, acked, EstablishCommunications, request_parse, smap_err, of_res, comm_ack, mbind, sres_bind, mret, sres_ret.
  cbn. destruct (request SendAndWait 1 13 _ w) as [[r|e|] w1]; cbn; [|done|done].
  by destruct (ParseEstablishCommunicationsReply r) as [[[a m] s]|e|].
Qed.
Lemma setup_plan cfg h w : setup SendAndWait cfg h w = sres_each exchange (plan cfg h) w.
Proof.
  unfold setup, plan. rewrite sres_each_app. apply sres_bind_ext.
  { rewrite sres_each_single. apply communications_exchange. }
  intros _ w1. rewrite sres_each_app. apply sres_bind_ext.
  { unfold setup_reports. destruct (is_nil _); [done|]. by rewrite sres_each_single. }
  intros _ w2. rewrite sres_each_app. apply sres_bind_ext.
  { unfold setup_events. destruct (is_nil _); [done|].
    change (sres_each exchange [?a; ?b] w2) with ((exchange a ≫= fun _ => sres_each exchange [b]) w2).
    apply sres_bind_ext; [done|]. intros _ w3. by rewrite sres_each_single. }
  intros _ w3. by rewrite sres_each_map.
Qed.
Lemma sres_each_acknowledged rs w w' : sres_each exchange rs w = (Ok tt, w') <-> acknowledged rs w w'.
Proof.
  split.
  - revert w. induction rs as [|r rs IH]; intros w H; [injection H as <-; constructor|].
    apply sres_bind_inv in H as ([] & w1 & H1 & H2). econstructor; eauto.
  - induction 1 as [w|r rs w w1 w2 H _ IH]; [done|]. cbn. by rewrite (sres_bind_ok _ _ _ _ _ H).
Qed.
Lemma sres_each_failed rs w e w' : sres_each exchange rs w = (Err e, w') ->
  exists done r rest w1, rs = done ++ r :: rest /\ acknowledged done w w1 /\ exchange r w1 = (Err e, w').
Proof.
  revert w. induction rs as [|r rs IH]; intros w H; [done|]. cbn [sres_each] in H.
  unfold mbind, sres_bind in H. destruct (exchange r w) as [[[]|e1|] w1] eqn:E; [|injection H as -> ->|done].
  - destruct (IH w1 H) as (d & r' & rest & w2 & -> & Hd & Hr). exists (r :: d), r', rest, w2.
    split; [done|]. split; [by econstructor|done].
  - exists [], r, rs, w. repeat split; [constructor|done].
Qed.
End plan_facts.

(** *** Setup against the simulator *)

Import gemsim.
(** One transaction with the simulator: fresh system bytes, its handler, its reply. *)
Definition sim_transport (now : string) (o lo : list Z) (sid : Z) (stream function : Z) (body : bytes)
    : sres (Simulator * Z) hsmsconn.TxError hsms.Message := fun w =>
  let '(s, sys) := w in
  let sys' := u32 (sys + 1) in
  let '(s', ans) := sim_handle now o lo s (hsms.MkMessage (hsms.DataHeader sid stream function true sys') body) in
  match ans with
  | Some (fn, it) => (Ok (hsms.MkMessage (hsms.DataHeader sid stream fn false sys') (Encode it)), (s', sys'))
  | None => (Err hsmsconn.ErrTimeout, (s', sys'))
  end.

Definition trace_ok (t : traceCfg) : Prop :=
  in_u 32 (tc_TRID t) /\ in_u 32 (TotalSamples t) /\ in_u 32 (ReportEvery t) /\
  Forall (in_u 32) (tc_SVIDs t) /\ zlen (tc_SVIDs t) < maxCount.
(** Field values of the declared widths, fewer than [2^24] of each kind. *)
Record config_ok (cfg : Config) : Prop := MkConfigOk {
  ok_reports : Forall report_ok (map report_def (cfg_Reports cfg));
  ok_links : Forall link_ok (map event_link (cfg_Events cfg));
  ok_traces : Forall trace_ok (cfg_Traces cfg);
  ok_nreports : zlen (cfg_Reports cfg) < maxCount;
  ok_nevents : zlen (cfg_Events cfg) < maxCount
}.

(** The simulator after each request. *)
Definition enabled (s : Simulator) (ceids : list Z) : Simulator :=
  if cfg_EventInterval s <=? 0 then s else
  MkSim (cfg_MDLN s) (cfg_SoftRev s) (cfg_SVIDs s) (cfg_EventInterval s) (cfg_TraceInterval s)
        (gemsim.reports s) (links s) (sim_traces s) (event_loops s ++ [ceids]) (trace_loops s).
Definition tracing (s : Simulator) (t : traceCfg) : Simulator :=
  MkSim (cfg_MDLN s) (cfg_SoftRev s) (cfg_SVIDs s) (cfg_EventInterval s) (cfg_TraceInterval s)
        (gemsim.reports s) (links s) (<[tc_TRID t := tc_SVIDs t]> (sim_traces s)) (event_loops s)
        (if cfg_TraceInterval s <=? 0 then trace_loops s else trace_loops s ++ [(tc_TRID t, tc_SVIDs t)]).
Definition set_up (cfg : Config) (s : Simulator) : Simulator :=
  let s := with_reports s (fold_left define_one (map report_item (map report_def (cfg_Reports cfg))) (gemsim.reports s)) in
  let s := with_links s (fold_left link_one (map link_item (map event_link (cfg_Events cfg))) (links s)) in
  let s := if is_nil (cfg_Events cfg) then s else enabled s (map ec_CEID (cfg_Events cfg)) in
  fold_left tracing (cfg_Traces cfg) s.

Section sim.
Context (now : string) (o lo : list Z) (sid : Z).
Abbreviation transport := (sim_transport now o lo sid).

Lemma sim_exchange r s sys s' fn it :
  sim_handle now o lo s (hsms.MkMessage (hsms.DataHeader sid (rq_stream r) (rq_function r) true (u32 (sys + 1))) (Encode (rq_body r)))
    = (s', Some (fn, it)) ->
  item_ok it -> rq_ack r it = Ok 0 -> exchange transport r (s, sys) = (Ok tt, (s', u32 (sys + 1))).
Proof.
  intros Hs Hok Ha. unfold exchange, acked, request_parse, request, smap_err, of_res, mbind, sres_bind, mret, sres_ret.
  unfold sim_transport. rewrite Hs. cbn [hsms.Body map_err]. pose proof (Decode_Encode_app _ [] Hok) as Hd. rewrite app_nil_r in Hd.
  rewrite Hd. cbn [map_err]. by rewrite Ha.
Qed.
Lemma ack_item_ok : item_ok (L [U1v [0]]).
Proof. repeat constructor; done. Qed.

Lemma sim_enable s sys ceids : Forall (in_u 32) ceids -> ceids <> [] -> zlen ceids < maxCount ->
  sim_handle now o lo s (hsms.MkMessage (hsms.DataHeader sid 2 37 true sys) (Encode (EncodeEnableEvents true ceids)))
  = (enabled s ceids, Some (38, L [U1v [0]])).
Proof.
  intros Hu Hne Hn. unfold sim_handle. cbn [hsms.Body hsms.Hdr]. rewrite sim_body.
  2: { constructor; [|done]. repeat (apply Forall_cons; split); [by constructor| |constructor]. by apply item_ok_U4s. }
  cbn -[handleEnableEvents EncodeEnableEvents]. do 2 f_equal. unfold handleEnableEvents, EncodeEnableEvents, enabled.
  cbn -[int_ids Z.leb]. rewrite int_ids_U4 by done. destruct (cfg_EventInterval s <=? 0); [done|]. by destruct ceids.
Qed.
Lemma Sprintf0_length w n : zlen (bytes_of_string (Sprintf0 w n)) <= Z.of_nat w + 30.
Proof.
  unfold Sprintf0. set (d := FormatInt (Z.abs n)).
  assert (length d <= 20)%nat.
  { unfold d, FormatInt. case_match; [lia|].
    assert (forall l, (length (strip0 l) <= length l)%nat) as Hs.
    { induction l as [|c l IH]; [done|]. cbn. destruct l; [cbn; lia|]. case_match; cbn in *; lia. }
    etransitivity; [apply Hs|]. rewrite length_digits. lia. }
  assert (forall l, zlen (bytes_of_string (string_of_bytes l)) = zlen l) as Hl.
  { intros l. unfold zlen. f_equal. induction l as [|c l IH]; [done|]. cbn. by rewrite IH. }
  rewrite Hl. unfold zlen. case_match; cbn; rewrite ?length_app, ?length_replicate; lia.
Qed.
Lemma sim_trace s sys t : trace_ok t ->
  sim_handle now o lo s (hsms.MkMessage (hsms.DataHeader sid 2 23 true sys) (Encode (rq_body (trace_req t))))
  = (tracing s t, Some (24, L [U1v [0]])).
Proof.
  intros (Ht & Hs & Hr & Hv & Hn). unfold sim_handle. cbn [hsms.Body hsms.Hdr]. rewrite sim_body.
  2: { cbn [rq_body trace_req]. unfold EncodeEstablishTrace. constructor; [|done].
       repeat (apply Forall_cons; split); [..|constructor]; try (constructor; [by apply Forall_singleton|done]); [| |by apply item_ok_U4s].
       - constructor. unfold formatDSPER. rewrite !bytes_of_string_app, !zlen_app.
         pose proof (Sprintf0_length 4 (to_int64 (PeriodSec t))).
         pose proof (Sprintf0_length 3 (to_int64 (fmul (fsub (PeriodSec t) (of_Z (to_int64 (PeriodSec t)))) (of_Z 1000)))).
         unfold maxCount. change (zlen (bytes_of_string ".")) with 1. lia.
       - constructor; [|done]. apply Forall_singleton. unfold report_every. by case_match. }
  cbn -[handleEstablishTrace trace_req]. do 2 f_equal. unfold handleEstablishTrace, tracing. cbn -[int_ids Z.leb formatDSPER].
  by rewrite int_ids_U4, uwrap_id.
Qed.
Lemma sim_traces_acknowledged ts s sys : Forall trace_ok ts ->
  exists sys', acknowledged transport (map trace_req ts) (s, sys) (fold_left tracing ts s, sys').
Proof.
  intros H. revert s sys. induction H as [|t ts Ht _ IH]; intros s sys; [exists sys; constructor|].
  destruct (IH (tracing s t) (u32 (sys + 1))) as (sys' & Hs). exists sys'. cbn. econstructor; [|exact Hs].
  eapply sim_exchange; [by apply sim_trace|apply ack_item_ok|done].
Qed.
Lemma acknowledged_app {W} (T : Z -> Z -> bytes -> sres W hsmsconn.TxError hsms.Message) l1 l2 w w1 w2 :
  acknowledged T l1 w w1 -> acknowledged T l2 w1 w2 -> acknowledged T (l1 ++ l2) w w2.
Proof. induction 1 as [|r rs w w1 w3 H1 _ IH]; intros H; [done|]. cbn. econstructor; eauto. Qed.
Lemma sim_reports_acknowledged cfg s sys : config_ok cfg ->
  exists sys', acknowledged transport
    (if is_nil (cfg_Reports cfg) then [] else
     [MkReq "define report" 2 33 (EncodeDefineReport 1 (map report_def (cfg_Reports cfg))) ParseDefineReportReply])
    (s, sys) (with_reports s (fold_left define_one (map report_item (map report_def (cfg_Reports cfg))) (gemsim.reports s)), sys').
Proof.
  intros Hok. destruct (cfg_Reports cfg) eqn:E; cbn [is_nil].
  - exists sys. destruct s. constructor.
  - rewrite <- E. exists (u32 (sys + 1)). econstructor; [|constructor].
    eapply sim_exchange; [apply sim_handle_define; [done|apply Hok|rewrite zlen_map; apply Hok]|apply ack_item_ok|done].
Qed.
Lemma sim_events_acknowledged cfg s sys : config_ok cfg ->
  exists sys', acknowledged transport
    (if is_nil (cfg_Events cfg) then [] else
     [MkReq "link event report" 2 35 (EncodeLinkEventReport 2 (map event_link (cfg_Events cfg))) ParseLinkEventReportReply;
      MkReq "enable event report" 2 37 (EncodeEnableEvents true (map ec_CEID (cfg_Events cfg))) ParseEnableEventsReply])
    (s, sys)
    (let s := with_links s (fold_left link_one (map link_item (map event_link (cfg_Events cfg))) (links s)) in
     if is_nil (cfg_Events cfg) then s else enabled s (map ec_CEID (cfg_Events cfg)), sys').
Proof.
  intros Hok. destruct (cfg_Events cfg) eqn:E; cbn [is_nil].
  - exists sys. destruct s. constructor.
  - rewrite <- E. exists (u32 (u32 (sys + 1) + 1)). econstructor; [|econstructor; [|constructor]].
    + eapply sim_exchange; [apply sim_handle_link; [done|apply Hok|rewrite zlen_map; apply Hok]|apply ack_item_ok|done].
    + eapply sim_exchange; [apply sim_enable|apply ack_item_ok|done].
      * pose proof (ok_links _ Hok) as H. rewrite Forall_map in H. apply Forall_map. eapply Forall_impl; [exact H|]. intros x Hx. apply Hx.
      * by rewrite E.
      * rewrite zlen_map. apply Hok.
Qed.

(** The simulator acknowledges every request of a well-formed configuration. *)
Lemma setup_simulator cfg h s sys : config_ok cfg ->
  zlen (bytes_of_string (cfg_MDLN s)) < maxCount -> zlen (bytes_of_string (cfg_SoftRev s)) < maxCount ->
  exists sys', setup transport cfg h (s, sys) = (Ok tt, (set_up cfg s, sys')).
Proof.
  intros Hok Hm Hr.
  destruct (sim_reports_acknowledged cfg s (u32 (sys + 1)) Hok) as (y1 & H1).
  match type of H1 with acknowledged _ _ _ (?a, _) => destruct (sim_events_acknowledged cfg a y1 Hok) as (y2 & H2) end.
  match type of H2 with acknowledged _ _ _ (?a, _) =>
    destruct (sim_traces_acknowledged (cfg_Traces cfg) a y2 (ok_traces _ Hok)) as (y3 & H3) end.
  exists y3. rewrite setup_plan. apply sres_each_acknowledged. unfold plan. cbn [app]. econstructor.
  - eapply sim_exchange; [reflexivity| |reflexivity].
    constructor; [|done]. repeat (apply Forall_cons; split); [..|constructor]; [by repeat constructor|].
    constructor; [|done]. repeat (apply Forall_cons; split); [..|constructor]; by constructor.
  - eapply acknowledged_app; [exact H1|]. eapply acknowledged_app; [exact H2|exact H3].
Qed.
End sim.

Lemma tracing_frame ts s : let s' := fold_left tracing ts s in
  gemsim.reports s' = gemsim.reports s /\ links s' = links s /\ cfg_SVIDs s' = cfg_SVIDs s /\ event_loops s' = event_loops s.
Proof. revert s. induction ts as [|t ts IH]; intros s; [done|]. apply (IH (tracing s t)). Qed.
Lemma set_up_frame cfg s : let s' := set_up cfg s in
  gemsim.reports s' = fold_left define_one (map report_item (map report_def (cfg_Reports cfg))) (gemsim.reports s) /\
  links s' = fold_left link_one (map link_item (map event_link (cfg_Events cfg))) (links s) /\
  cfg_SVIDs s' = cfg_SVIDs s /\
  event_loops s' = event_loops s ++ (if is_nil (cfg_Events cfg) || (cfg_EventInterval s <=? 0) then [] else [map ec_CEID (cfg_Events cfg)]).
Proof.
  unfold set_up. cbv zeta.
  match goal with |- context [fold_left tracing ?ts ?a] => destruct (tracing_frame ts a) as (-> & -> & -> & ->) end.
  unfold enabled. destruct (is_nil (cfg_Events cfg)); cbn [orb]; [by rewrite app_nil_r|].
  cbn. destruct (cfg_EventInterval s <=? 0); [by rewrite app_nil_r|done].
Qed.
(** Every trace of distinct identifiers is registered with its variables. *)
Lemma set_up_traces cfg s t : NoDup (map tc_TRID (cfg_Traces cfg)) -> t ∈ cfg_Traces cfg ->
  sim_traces (set_up cfg s) !! tc_TRID t = Some (tc_SVIDs t).
Proof.
  unfold set_up. cbv zeta. match goal with |- context [fold_left tracing _ ?a] => generalize a end.
  assert (forall ts s x, tc_TRID x ∉ map tc_TRID ts -> sim_traces s !! tc_TRID x = Some (tc_SVIDs x) ->
            sim_traces (fold_left tracing ts s) !! tc_TRID x = Some (tc_SVIDs x)) as Hkeep.
  { induction ts as [|y ts IH]; intros s0 x Hx Hs; [done|]. cbn in *. apply IH; [set_solver|].
    cbn. rewrite lookup_insert_ne; [done|]. set_solver. }
  induction (cfg_Traces cfg) as [|x ts IH]; intros s0 Hnd Hin; [set_solver|].
  apply NoDup_cons in Hnd as [Hx Hnd]. apply elem_of_cons in Hin as [->|Hin]; cbn [fold_left].
  - apply Hkeep; [done|]. cbn. apply lookup_insert_eq.
  - by apply IH.
Qed.

Lemma put_fresh {X} (m : list (string * X)) k v : k ∉ map fst m -> put m k v = m ++ [(k, v)].
Proof.
  induction m as [|[k' v'] m IH]; intros H; [done|]. cbn in *. rewrite decide_False by set_solver.
  by rewrite IH by set_solver.
Qed.
Lemma fold_put_distinct {X R} (key : R -> string) (val : R -> X) rs m :
  NoDup (map fst m ++ map key rs) ->
  fold_left (fun m r => put m (key r) (val r)) rs m = m ++ map (fun r => (key r, val r)) rs.
Proof.
  revert m. induction rs as [|r rs IH]; intros m H; cbn [fold_left map]; [by rewrite app_nil_r|].
  rewrite put_fresh.
  - rewrite IH, <- app_assoc; [done|]. rewrite map_app, <- app_assoc. exact H.
  - apply NoDup_app in H as (_ & H & _). intros Hk. apply (H _ Hk). by left.
Qed.
Lemma itoa_inj n m : in_u 32 n -> in_u 32 m -> itoa n = itoa m -> n = m.
Proof. intros Hn Hm. apply FormatInt_inj; unfold in_u, in_s in *; lia. Qed.
Lemma NoDup_itoa ids : Forall (in_u 32) ids -> NoDup ids -> NoDup (map itoa ids).
Proof.
  intros Hu. induction 1 as [|x l Hx _ IH]; [constructor|]. apply Forall_cons in Hu as [Hx' Hu].
  cbn. constructor; [|by apply IH]. intros (y & Hy & Hin)%list_elem_of_fmap.
  rewrite Forall_forall in Hu. apply itoa_inj in Hy; [by subst|done|by apply Hu].
Qed.

(** What the host makes of the event report for [e]: its reports under their identifiers, each
    with the current values of its variables. *)
Lemma configured_event cfg s e defs :
  config_ok cfg -> NoDup (map rc_RPTID (cfg_Reports cfg)) -> NoDup (map ec_CEID (cfg_Events cfg)) ->
  (forall id, item_ok (svid_value s id)) ->
  (forall id d, gemsim.reports s !! id = Some d -> zlen (VIDs d) < maxCount) ->
  e ∈ cfg_Events cfg -> ec_RPTIDs e = map rc_RPTID defs -> NoDup (ec_RPTIDs e) -> (forall r, r ∈ defs -> r ∈ cfg_Reports cfg) ->
  event_value <$> decode_parse ParseEventReport (Encode (event_body (set_up cfg s) (ec_CEID e))) =
  Some (GMap [("dataId", GU32 1); ("ceid", GU32 (ec_CEID e));
              ("reports", GMap (map (fun r => (itoa (rc_RPTID r), item_values (map (svid_value s) (rc_VIDs r)))) defs))]).
Proof.
  intros Hok Hnd1 Hnd2 Hval Hold He Hids Hnd Hdefs.
  destruct (set_up_frame cfg s) as (Hr & Hl & Hv & _).
  assert (forall id, svid_value (set_up cfg s) id = svid_value s id) as Hsv by (intros id; unfold svid_value; by rewrite Hv).
  assert (link_ok (event_link e)) as Hlok.
  { pose proof (ok_links _ Hok) as H. rewrite Forall_map in H. rewrite Forall_forall in H. by apply H. }
  assert (NoDup (map RPTID (map report_def (cfg_Reports cfg)))) as Hn1 by (by rewrite map_map).
  assert (NoDup (map CEID (map event_link (cfg_Events cfg)))) as Hn2 by (by rewrite map_map).
  change (ec_CEID e) with (CEID (event_link e)).
  rewrite (event_parsed (set_up cfg s) (event_link e) (map report_def defs)).
  - cbn. unfold event_value. cbn. do 3 f_equal. rewrite map_map, <- fold_left_map. cbn [RPTID VIDs report_def rd_RPTID rd_Values].
    rewrite (fold_put_distinct (fun r => itoa (rc_RPTID r)) (fun r => item_values (map (svid_value (set_up cfg s)) (rc_VIDs r)))).
    + cbn. do 4 f_equal. apply map_ext. intros r. f_equal. unfold item_values. f_equal. rewrite !map_map. apply map_ext. intros id. by rewrite Hsv.
    + cbn. rewrite <- map_map, <- Hids. apply NoDup_itoa; [apply Hlok|done].
  - done.
  - rewrite Hl. apply links_stored; [apply Hok|done|]. by apply list_elem_of_fmap_2.
  - cbn. by rewrite map_map.
  - intros r (r' & -> & Hr')%list_elem_of_fmap. rewrite Hr. apply reports_defined; [apply Hok|done|]. apply list_elem_of_fmap_2. by apply Hdefs.
  - intros id. by rewrite Hsv.
  - rewrite Hr. apply reports_bounded; [apply Hok|done|done].
Qed.

(** [C30] Setup does what the configuration says, end to end.  Against the simulator every request is
    acknowledged and setup returns; afterwards the equipment reports the configured events (when
    it fires them at all), and the report it sends for one of them, decoded by the host, becomes a
    datagram that carries each configured report with the equipment's current values of exactly
    the configured variables, in order.  Against any equipment, setup sends a prefix of its plan:
    it returns without error exactly when all requests were acknowledged, and otherwise stops at
    the first one that was not. *)
Theorem setup_configures cfg h :
  (forall (now : string) (o lo : list Z) (sid sys : Z) (s : Simulator),
     config_ok cfg -> NoDup (map rc_RPTID (cfg_Reports cfg)) -> NoDup (map ec_CEID (cfg_Events cfg)) ->
     zlen (bytes_of_string (cfg_MDLN s)) < maxCount -> zlen (bytes_of_string (cfg_SoftRev s)) < maxCount ->
     (forall id, item_ok (svid_value s id)) ->
     (forall id d, gemsim.reports s !! id = Some d -> zlen (VIDs d) < maxCount) ->
     exists s' sys', setup (sim_transport now o lo sid) cfg h (s, sys) = (Ok tt, (s', sys')) /\
       (cfg_Events cfg <> [] -> 0 < cfg_EventInterval s -> event_loops s' = event_loops s ++ [map ec_CEID (cfg_Events cfg)]) /\
       (forall e defs id at_, e ∈ cfg_Events cfg -> ec_RPTIDs e = map rc_RPTID defs -> NoDup (ec_RPTIDs e) ->
          (forall r, r ∈ defs -> r ∈ cfg_Reports cfg) ->
          exists ev, decode_parse ParseEventReport (Encode (event_body s' (ec_CEID e))) = Some ev /\
            datagram.Value (payload (eventDatagram id at_ ev)) =
            GMap [("dataId", GU32 1); ("ceid", GU32 (ec_CEID e));
                  ("reports", GMap (map (fun r => (itoa (rc_RPTID r), item_values (map (svid_value s) (rc_VIDs r)))) defs))])) /\
  (forall W (T : Z -> Z -> bytes -> sres W hsmsconn.TxError hsms.Message) w w',
     (setup T cfg h w = (Ok tt, w') <-> acknowledged T (plan cfg h) w w') /\
     (forall e, setup T cfg h w = (Err e, w') ->
        exists done r rest w1, plan cfg h = done ++ r :: rest /\ acknowledged T done w w1 /\ exchange T r w1 = (Err e, w'))).
Proof.
  split.
  - intros now o lo sid sys s Hok Hn1 Hn2 Hm Hr Hval Hold.
    destruct (setup_simulator now o lo sid cfg h s sys Hok Hm Hr) as (sys' & Hs).
    exists (set_up cfg s), sys'. split; [done|]. split.
    + intros Hne Hi. destruct (set_up_frame cfg s) as (_ & _ & _ & ->).
      destruct (cfg_Events cfg); [done|]. destruct (Z.leb_spec (cfg_EventInterval s) 0); [lia|done].
    + intros e defs id at_ He Hids Hnd Hdefs.
      pose proof (configured_event cfg s e defs Hok Hn1 Hn2 Hval Hold He Hids Hnd Hdefs) as H.
      destruct (decode_parse _ _) as [ev|] eqn:E; [|done]. exists ev. split; [done|]. cbn in H. by apply (inj Some) in H.
  - intros W T w w'. rewrite setup_plan. split; [apply sres_each_acknowledged|intros e; apply sres_each_failed].
Qed.

(** *** The loop of [Run]

    [host.Run] handles messages as they arrive, the node takes parsed messages from the three
    channels and emits them.  [emit] may fail, which ends the node. *)
Inductive run_event :=
| Arrive (wok : bool) (msg : hsms.Message)
| TakeEvent (emit_ok : bool)
| TakeTrace (emit_ok : bool)
| TakeAlarm (emit_ok : bool)
| Ended.                             (* the context is done or the connection failed *)
Record run_state := MkRun { r_host : Host; r_emitted : list (string * Datagram gval); r_stopped : bool }.

Section run.
Context (ids : nat -> string) (clock : nat -> Z).
Definition emit (st : run_state) (h : Host) (port : string) (mk : string -> Z -> Datagram gval) (ok : bool) : run_state :=
  let n := length (r_emitted st) in
  if ok then MkRun h (r_emitted st ++ [(port, mk (ids n) (clock n))]) false
  else MkRun h (r_emitted st) true.
Definition run_step (st : run_state) (e : run_event) : run_state :=
  if r_stopped st then st else
  let h := r_host st in
  match e with
  | Arrive wok msg => MkRun (handle wok h msg) (r_emitted st) false
  | TakeEvent ok =>
      match gem.events h with
      | ev :: rest => emit st (MkHost (h_conn h) (mdln h) (softrev h) rest (gem.traces h) (gem.alarms h)) "events"
                        (fun id now => eventDatagram id now ev) ok
      | [] => st
      end
  | TakeTrace ok =>
      match gem.traces h with
      | td :: rest => emit st (MkHost (h_conn h) (mdln h) (softrev h) (gem.events h) rest (gem.alarms h)) "traces"
                        (fun id now => traceDatagram id now td) ok
      | [] => st
      end
  | TakeAlarm ok =>
      match gem.alarms h with
      | al :: rest => emit st (MkHost (h_conn h) (mdln h) (softrev h) (gem.events h) (gem.traces h) rest) "alarms"
                        (fun id now => alarmDatagram id now al) ok
      | [] => st
      end
  | Ended => MkRun h (r_emitted st) true
  end.
Definition run (st : run_state) (es : list run_event) : run_state := fold_left run_step es st.

(** What a message of the equipment adds to each channel. *)
Definition arrived {X} (stream function : Z) (parse : Item -> res GemError X) (msg : hsms.Message) : option X :=
  if (hsms.Stream (hsms.Hdr msg) =? stream) && (hsms.Function_ (hsms.Hdr msg) =? function)
  then decode_parse parse (hsms.Body msg) else None.
(** The payload values emitted on a port, in order. *)
Definition port_values (port : string) (st : run_state) : list gval :=
  map (fun pd => datagram.Value (payload (snd pd))) (filter (fun pd => fst pd = port) (r_emitted st)).
Definition arrivals (es : list run_event) : list hsms.Message :=
  omap (fun e => match e with Arrive _ msg => Some msg | _ => None end) es.

Section channel.
Context {X : Type} (q : Host -> list X) (cap : nat) (arr : hsms.Message -> option X) (port : string) (val : X -> gval).
Context (Hq : forall wok h msg, q (handle wok h msg) = match arr msg with Some x => try_send cap (q h) x | None => q h end)
        (Htake : forall st e, (forall wok msg, e <> Arrive wok msg) -> r_stopped (run_step st e) = false ->
           port_values port (run_step st e) ++ map val (q (r_host (run_step st e))) = port_values port st ++ map val (q (r_host st))).
Abbreviation held st := (port_values port st ++ map val (q (r_host st))).
(** Room for every message when it arrived. *)
Definition never_full (st : run_state) (es : list run_event) : Prop :=
  forall es1 wok msg es2, es = es1 ++ Arrive wok msg :: es2 -> (length (q (r_host (run st es1))) < cap)%nat.

Lemma run_snoc st es e : run st (es ++ [e]) = run_step (run st es) e.
Proof. unfold run. by rewrite fold_left_app. Qed.
Lemma stopped_stays st e : r_stopped (run_step st e) = false -> r_stopped st = false.
Proof. unfold run_step. by destruct (r_stopped st) eqn:E; [rewrite E|]. Qed.
Lemma channel_delivers st es : r_stopped (run st es) = false ->
  let vals := map val (omap arr (arrivals es)) in
  (exists kept, kept `sublist_of` vals /\ held (run st es) = held st ++ kept) /\
  (never_full st es -> held (run st es) = held st ++ vals).
Proof.
  induction es as [|e es IH] using rev_ind; cbv zeta; intros Hr.
  { split; [exists []; split; [constructor|]|intros _]; cbn; by rewrite app_nil_r. }
  rewrite run_snoc in *. pose proof (stopped_stays _ _ Hr) as Hr'. destruct (IH Hr') as [(kept & Hk & Hh) Hfull].
  unfold arrivals in *. rewrite omap_app in *. rewrite omap_app, map_app. 
  assert (never_full st (es ++ [e]) -> never_full st es) as Hnf.
  { intros H es1 wok msg es2 ->. apply (H es1 wok msg (es2 ++ [e])). by rewrite <- app_assoc. }
  destruct e as [wok msg|ok|ok|ok|].
  2-5: rewrite Htake by done; cbn [omap list_omap map]; rewrite app_nil_r; split; [by exists kept|auto].
  assert (run_step (run st es) (Arrive wok msg) = MkRun (handle wok (r_host (run st es)) msg) (r_emitted (run st es)) false) as Hst
    by (unfold run_step; by rewrite Hr').
  rewrite Hst. cbn [r_host omap list_omap]. change (port_values port (MkRun _ _ false)) with (port_values port (run st es)). rewrite Hq.
  destruct (arr msg) as [x|]; cbn [map omap list_omap]; [|rewrite app_nil_r; split; [by exists kept|auto]].
  unfold try_send. split.
  - destruct (_ <? _)%nat.
    + exists (kept ++ [val x]). split; [by apply sublist_app|]. rewrite map_app, app_assoc, Hh. by rewrite <- app_assoc.
    + exists kept. split; [by apply sublist_inserts_r|done].
  - intros H. pose proof (H es wok msg [] eq_refl) as Hl. apply Nat.ltb_lt in Hl. rewrite Hl.
    rewrite map_app, app_assoc, Hfull by auto. by rewrite <- app_assoc.
Qed.
End channel.
End run.

Lemma handle_events wok h msg :
  gem.events (handle wok h msg) = match arrived 6 11 ParseEventReport msg with Some x => try_send 16 (gem.events h) x | None => gem.events h end.
Proof.
  unfold handle, arrived. destruct (hsms.Stream _ =? 1) eqn:E1; [apply Z.eqb_eq in E1; rewrite E1; by destruct (_ =? 1)|].
  cbn. destruct (hsms.Stream _ =? 6), (hsms.Function_ _ =? 11); cbn; try done; by repeat case_match.
Qed.
Lemma handle_traces wok h msg :
  gem.traces (handle wok h msg) = match arrived 6 1 ParseTraceData msg with Some x => try_send 64 (gem.traces h) x | None => gem.traces h end.
Proof.
  unfold handle, arrived. destruct (hsms.Stream _ =? 1) eqn:E1; [apply Z.eqb_eq in E1; rewrite E1; by destruct (_ =? 1)|].
  cbn. destruct (hsms.Function_ _ =? 11) eqn:E2; [apply Z.eqb_eq in E2; rewrite E2; by destruct (_ =? 6), (_ =? 5)|].
  destruct (hsms.Stream _ =? 6), (hsms.Function_ _ =? 1); cbn; try done; by repeat case_match.
Qed.
Lemma handle_alarms wok h msg :
  gem.alarms (handle wok h msg) = match arrived 5 1 ParseAlarmReport msg with Some x => try_send 16 (gem.alarms h) x | None => gem.alarms h end.
Proof.
  unfold handle, arrived. destruct (hsms.Stream _ =? 1) eqn:E1; [apply Z.eqb_eq in E1; rewrite E1; by destruct (_ =? 1)|].
  destruct (hsms.Stream _ =? 6) eqn:E2; [apply Z.eqb_eq in E2; rewrite E2; cbn; by repeat case_match|].
  cbn. destruct (hsms.Stream _ =? 5), (hsms.Function_ _ =? 1); cbn; try done; by repeat case_match.
Qed.
Lemma port_values_snoc port p d h em b :
  port_values port (MkRun h (em ++ [(p, d)]) b) =
  port_values port (MkRun h em b) ++ (if decide (p = port) then [datagram.Value (payload d)] else []).
Proof.
  unfold port_values. cbn. rewrite filter_app, map_app. f_equal. rewrite filter_cons. cbn. by destruct (decide (p = port)).
Qed.
Ltac take_step st e :=
  let Hne := fresh in let Hch := fresh in intros Hne; unfold run_step, emit; destruct (r_stopped st) eqn:?; [congruence|];
  destruct e as [wok msg|[]|[]|[]|]; [by destruct (Hne wok msg)|..|done];
  [destruct (gem.events (r_host st)) eqn:Hch|destruct (gem.events (r_host st)) eqn:Hch|destruct (gem.traces (r_host st)) eqn:Hch|destruct (gem.traces (r_host st)) eqn:Hch
   |destruct (gem.alarms (r_host st)) eqn:Hch|destruct (gem.alarms (r_host st)) eqn:Hch];
  try (intros _; rewrite ?Hch; done); try discriminate;
  intros _; rewrite port_values_snoc; cbn [gem.events gem.traces gem.alarms r_host];
  repeat match goal with |- context [decide (?a = ?b)] => first [rewrite (decide_True (P := a = b)) by done | rewrite (decide_False (P := a = b)) by done] end;
  rewrite ?Hch; cbn [map]; rewrite ?app_nil_r, <- ?app_assoc; done.
Lemma take_events ids clock st e : (forall wok msg, e <> Arrive wok msg) -> r_stopped (run_step ids clock st e) = false ->
  port_values "events" (run_step ids clock st e) ++ map event_value (gem.events (r_host (run_step ids clock st e))) = port_values "events" st ++ map event_value (gem.events (r_host st)).
Proof. take_step st e. Qed.
Lemma take_traces ids clock st e : (forall wok msg, e <> Arrive wok msg) -> r_stopped (run_step ids clock st e) = false ->
  port_values "traces" (run_step ids clock st e) ++ map trace_value (gem.traces (r_host (run_step ids clock st e))) = port_values "traces" st ++ map trace_value (gem.traces (r_host st)).
Proof. take_step st e. Qed.
Lemma take_alarms ids clock st e : (forall wok msg, e <> Arrive wok msg) -> r_stopped (run_step ids clock st e) = false ->
  port_values "alarms" (run_step ids clock st e) ++ map alarm_value (gem.alarms (r_host (run_step ids clock st e))) = port_values "alarms" st ++ map alarm_value (gem.alarms (r_host st)).
Proof. take_step st e. Qed.

(** Nothing is invented, duplicated or reordered between the wire and the ports: as long as the
    node runs, what it emitted on a port followed by what waits in that channel is a subsequence
    of the messages of that kind that arrived and parsed, in arrival order; and it is all of them
    when the channel (16 event reports, 64 trace samples, 16 alarms) had room at every arrival. *)
Theorem host_node_delivers ids clock h es :
  gem.events h = [] -> gem.traces h = [] -> gem.alarms h = [] ->
  let st0 := MkRun h [] false in
  let st := run ids clock st0 es in
  r_stopped st = false ->
  let evs := map event_value (omap (arrived 6 11 ParseEventReport) (arrivals es)) in
  let tds := map trace_value (omap (arrived 6 1 ParseTraceData) (arrivals es)) in
  let als := map alarm_value (omap (arrived 5 1 ParseAlarmReport) (arrivals es)) in
  let out_evs := port_values "events" st ++ map event_value (gem.events (r_host st)) in
  let out_tds := port_values "traces" st ++ map trace_value (gem.traces (r_host st)) in
  let out_als := port_values "alarms" st ++ map alarm_value (gem.alarms (r_host st)) in
  (out_evs `sublist_of` evs /\ (never_full ids clock gem.events 16 st0 es -> out_evs = evs)) /\
  (out_tds `sublist_of` tds /\ (never_full ids clock gem.traces 64 st0 es -> out_tds = tds)) /\
  (out_als `sublist_of` als /\ (never_full ids clock gem.alarms 16 st0 es -> out_als = als)).
Proof.
  intros He Ht Ha st0 st Hr evs tds als out_evs out_tds out_als.
  destruct (channel_delivers ids clock gem.events 16 (arrived 6 11 ParseEventReport) "events" event_value
              handle_events (take_events ids clock) st0 es Hr) as [(k1 & Hk1 & Hh1) Hf1].
  destruct (channel_delivers ids clock gem.traces 64 (arrived 6 1 ParseTraceData) "traces" trace_value
              handle_traces (take_traces ids clock) st0 es Hr) as [(k2 & Hk2 & Hh2) Hf2].
  destruct (channel_delivers ids clock gem.alarms 16 (arrived 5 1 ParseAlarmReport) "alarms" alarm_value
              handle_alarms (take_alarms ids clock) st0 es Hr) as [(k3 & Hk3 & Hh3) Hf3].
  cbn [r_host st0] in *. rewrite He in *. rewrite Ht in *. rewrite Ha in *. cbn in Hh1, Hh2, Hh3, Hf1, Hf2, Hf3.
  unfold out_evs, out_tds, out_als, st. rewrite Hh1, Hh2, Hh3. rewrite Hh1 in Hf1. rewrite Hh2 in Hf2. rewrite Hh3 in Hf3. auto.
Qed.

(** *** Sampling periods

    [formatDSPER] truncates the product with 1000, so a period whose binary form lies just below
    its decimal one loses a millisecond, and a positive period below a millisecond becomes zero. *)
Definition seconds_of (n d : Z) : float64 := fdiv (of_Z n) (of_Z d).
Lemma formatDSPER_samples :
  formatDSPER (seconds_of 1 2) = "0000.500" /\ formatDSPER (seconds_of 25 1) = "0025.000" /\
  formatDSPER (seconds_of 1001 1000) = "0001.000" /\ formatDSPER (seconds_of 1005 1000) = "0001.004" /\
  formatDSPER (seconds_of 5 10000) = "0000.000" /\ flt fzero (seconds_of 5 10000) = true.
Proof. vm_compute. done. Qed.

Definition sample_cfg : Config :=
  MkConfig [MkReportCfg 100 [10; 11]; MkReportCfg 101 [11]] [MkEventCfg 7 [101; 100]]
           [MkTraceCfg 5 (seconds_of 1 2) 0 0 [10]].
Definition sample_host : Host := NewHost (hsmsconn.newConn 1) "DataPipe" "1.0".
Lemma sample_cfg_ok : config_ok sample_cfg.
Proof. constructor; repeat constructor; unfold in_u; cbn; lia. Qed.
Lemma setup_configures_witness :
  exists s' sys', setup (sim_transport "" [] [] 1) sample_cfg sample_host (sample_sim, 41) = (Ok tt, (s', sys')) /\
    event_loops s' = [[7]] /\
    exists ev, decode_parse ParseEventReport (Encode (event_body s' 7)) = Some ev /\
      datagram.Value (payload (eventDatagram "d1" 9 ev)) =
      GMap [("dataId", GU32 1); ("ceid", GU32 7);
            ("reports", GMap [("101", item_values [A "L42"]); ("100", item_values [I4v [-3]; A "L42"])])].
Proof.
  destruct (setup_configures sample_cfg sample_host) as [H _].
  destruct (H "" [] [] 1 41 sample_sim sample_cfg_ok) as (s' & sys' & Hs & Hl & He).
  - apply (bool_decide_unpack _); vm_compute; exact I.
  - apply (bool_decide_unpack _); vm_compute; exact I.
  - reflexivity.
  - reflexivity.
  - apply sample_sim_values.
  - intros id d Hd. discriminate Hd.
  - exists s', sys'. split; [exact Hs|]. split; [apply Hl; [discriminate|reflexivity]|].
    apply (He (MkEventCfg 7 [101; 100]) [MkReportCfg 101 [11]; MkReportCfg 100 [10; 11]] "d1" 9).
    + left.
    + reflexivity.
    + cbn. apply NoDup_cons_2; [|apply NoDup_singleton]. intros Hin%list_elem_of_singleton. discriminate Hin.
    + intros r Hr. apply elem_of_cons in Hr as [->|Hr]; [right; left|]. apply list_elem_of_singleton in Hr as ->. left.
Defined.

Definition alarm_msg : hsms.Message :=
  hsms.MkMessage (hsms.DataHeader 1 5 1 false 3) (Encode (L [U1v [0x81]; U4v [77]; A "hot"])).
Definition demo_run : list run_event := [Arrive true alarm_msg; TakeAlarm true; Arrive true alarm_msg].
Lemma host_node_delivers_witness :
  let st := run (fun _ => "d") (fun _ => 0) (MkRun sample_host [] false) demo_run in
  port_values "alarms" st = [alarm_value (MkAlarm true 1 77 "hot")] /\
  port_values "alarms" st ++ map alarm_value (gem.alarms (r_host st)) = repeat (alarm_value (MkAlarm true 1 77 "hot")) 2.
Proof.
  cbv zeta. split; [vm_compute; reflexivity|].
  destruct (host_node_delivers (fun _ => "d") (fun _ => 0) sample_host demo_run eq_refl eq_refl eq_refl ltac:(vm_compute; reflexivity)) as (_ & _ & _ & H).
  rewrite H; [vm_compute; reflexivity|].
  intros es1 wok msg es2 E. assert (es1 = take (length es1) demo_run) as -> by (by rewrite E, take_app_length).
  apply (f_equal length) in E. rewrite length_app in E. cbn in E.
  destruct (length es1) as [|[|[|n]]]; [vm_compute; lia..|lia].
Defined.

(** An acknowledge code sent as a one-byte Binary item, and an alarm whose ALCD is Binary, are
    refused: [Int64] reads integer formats only. *)
Lemma binary_codes_refused a b c : ParseDefineReportReply (L [B [a]]) = Err (ErrNotNumeric "S2F34" "DRACK") /\
  ParseAlarmReport (L [B [a]; b; c]) = Err (ErrNotNumeric "S5F1" "ALCD").
Proof. done. Qed.
End secsgemhost.
