(* ===== verification/SecsGemAction.v ===== *)
(** * The SECS/GEM action node ([engine/nodes/secsgemaction])

    Sends a remote command, new equipment constants or a raw message per datagram, over a session
    of its own. *)

From S2P Require Import Prelude Bytes GoStd Float SecsII Hsms HsmsConn Gem Datagram Execution Value SecsGemShared SecsGemHost.
Import gostd float gem datagram execution.
Import -(notations) secsii.
Local Open Scope Z_scope.

Module secsgemaction.
Import secsgemshared.
(** The three maps are association lists with distinct keys; their order is Go's iteration order. *)
Record Config := MkConfig {
  Action : string; RCMD : string; Params : list (string * string); ParamsFromPayload : bool;
  EquipmentConstants : list (string * float64); DataID_ : Z; Stream_ : Z; Function__ : Z; WBit_ : bool
}.
(** [strconv.ParseUint(k, 10, 32)]: digits only, below [2^32]. *)
Definition ParseUint32 (s : string) : option Z :=
  match bytes_of_string s with
  | [] => None
  | b => v ← parse_digits 0 b; if v <? 2 ^ 32 then Some v else None
  end.

Inductive NewError := NoRcmd | BadECID (k : string) | BadAction.
Fixpoint check_keys (ecs : list (string * float64)) : res NewError unit :=
  match ecs with
  | [] => Ok tt
  | (k, _) :: rest => match ParseUint32 k with Some _ => check_keys rest | None => Err (BadECID k) end
  end.
Definition New (cfg : Config) : res NewError Config :=
  if decide (Action cfg = "remoteCommand") then
    (if decide (RCMD cfg = "") then Err NoRcmd else Ok cfg)
  else if decide (Action cfg = "newEquipmentConstants") then
    _ ← check_keys (EquipmentConstants cfg); Ok cfg
  else if decide (Action cfg = "raw") then Ok cfg
  else Err BadAction.

Inductive ProcessError :=
| ErrConnect
| ErrEstablish (e : HostError) | ErrEstablishRejected (ack : Z)
| ErrAction (e : HostError) | ErrActionRejected (ack : Z).

Section process.
Context {W : Type} (SendAndWait : Z -> Z -> bytes -> sres W hsmsconn.TxError hsms.Message)
        (Send : Z -> Z -> bytes -> sres W hsmsconn.TxError unit) (Sprint : gval -> string).
(** [Clone] with the acknowledge code under a tag. *)
Definition withAckTag (d : Datagram gval) (key : string) (ack : Z) : Datagram gval :=
  let h := header d in
  MkDatagram (datagram.MkHeader (ID h) (CorrelationID h) (CausationID h) (Timestamp h) (SourceTimestamp h) (source h) (SchemaRef h)
                (ContentType h) (quality h) (Priority h) (TTLMillis h)
                (Some (<[ "secsgem." +:+ key := itoa ack ]> (default ∅ (Tags h))))) (payload d) (trace d).
Definition out (d : Datagram gval) : list (PortDatagram (V := gval)) := [MkPortDatagram "out" d].

(** [ack, err := op; if err != nil ...; if !ack.OK() ...; return tagged] *)
Definition tagged (op : sres W HostError Z) (key : string) (inp : Datagram gval) : sres W ProcessError (list (PortDatagram (V := gval))) :=
  ack ← smap_err ErrAction op;
  if AckCode_OK ack then mret (out (withAckTag inp key ack)) else of_res (Err (ErrActionRejected ack)).
Definition command_params (cfg : Config) (inp : Datagram gval) : list (string * string) :=
  let params := Params cfg in
  if ParamsFromPayload cfg
  then fold_left (fun m e => secsgemhost.put m (fst e) (snd e)) (StringMap Sprint (datagram.Value (payload inp))) params
  else params.
Definition sendRemoteCommand (cfg : Config) (inp : Datagram gval) :=
  tagged (SendRemoteCommand SendAndWait (RCMD cfg) (command_params cfg inp)) "hcack" inp.
(** [values[uint32(ecid)] = F8v(v)]: two keys of the same number ("7" and "007") collide. *)
Definition put_ec (m : list (Z * Item)) (ecid : Z) (it : Item) : list (Z * Item) :=
  if existsb (fun e => fst e =? ecid) m then map (fun e => if fst e =? ecid then (ecid, it) else e) m
  else m ++ [(ecid, it)].
Definition constant_values (ecs : list (string * float64)) : list (Z * Item) :=
  fold_left (fun m e => put_ec m (u32 (default 0 (ParseUint32 (fst e)))) (F8_of (snd e))) ecs [].
Definition sendNewEquipmentConstants (cfg : Config) (inp : Datagram gval) :=
  tagged (SendNewEquipmentConstants SendAndWait (DataID_ cfg) (constant_values (EquipmentConstants cfg))) "eac" inp.
Definition sendRaw (cfg : Config) (inp : Datagram gval) : sres W ProcessError (list (PortDatagram (V := gval))) :=
  reply ← smap_err ErrAction (SendRaw SendAndWait Send (Stream_ cfg) (Function__ cfg) (WBit_ cfg) (AnyToItem (datagram.Value (payload inp))));
  mret (out (if WBit_ cfg then MkDatagram (header inp) (MkPayload (GItem (secsii.Value reply)) (Binary (payload inp))) (trace inp) else inp)).

(** [connected]: whether [Connect] gave a session. *)
Definition Process (cfg : Config) (connected : bool) (h : Host) (inp : Datagram gval) : sres W ProcessError (list (PortDatagram (V := gval))) :=
  if negb connected then of_res (Err ErrConnect) else
  '(ack, _, _) ← smap_err ErrEstablish (EstablishCommunications SendAndWait h);
  if negb (AckCode_OK ack) then of_res (Err (ErrEstablishRejected ack)) else
  if decide (Action cfg = "remoteCommand") then sendRemoteCommand cfg inp
  else if decide (Action cfg = "newEquipmentConstants") then sendNewEquipmentConstants cfg inp
  else sendRaw cfg inp.
End process.

(** *** Properties *)

(** A map's encoding does not depend on the order Go iterates it in. *)
Lemma map_item_perm es es' : es ≡ₚ es' -> NoDup (map fst es) -> map_item es = map_item es'.
Proof.
  intros Hp Hnd. unfold map_item. do 2 f_equal. apply sortBy_perm; [done|].
  intros [k x] [k' y] Hx Hy. cbn. intros <-. f_equal.
  apply list_elem_of_lookup in Hx as [i Hi], Hy as [j Hj].
  assert (i = j) as -> by (eapply NoDup_lookup; [exact Hnd|rewrite list_lookup_fmap, Hi; done|rewrite list_lookup_fmap, Hj; done]).
  congruence.
Qed.
Lemma raw_body_unordered m m' : m ≡ₚ m' -> NoDup (map fst m) -> AnyToItem (GMap m) = AnyToItem (GMap m').
Proof.
  intros Hp Hnd. cbn. apply map_item_perm; [by rewrite Hp|]. rewrite map_map. exact Hnd.
Qed.

Lemma list_to_map_put (m : list (string * string)) k v :
  (list_to_map (secsgemhost.put m k v) : gmap string string) = <[k := v]> (list_to_map m).
Proof.
  induction m as [|[k' v'] m IH]; [done|]. cbn. destruct (decide (k' = k)) as [->|Hne]; cbn.
  - by rewrite insert_insert_eq.
  - rewrite IH. by apply insert_insert_ne.
Qed.
Lemma fold_put_union (es m : list (string * string)) : NoDup (map fst es) ->
  (list_to_map (fold_left (fun m e => secsgemhost.put m (fst e) (snd e)) es m) : gmap string string) = list_to_map es ∪ list_to_map m.
Proof.
  revert m. induction es as [|[k v] es IH]; intros m Hnd; cbn [fold_left fst snd].
  { by rewrite list_to_map_nil, (left_id_L ∅ (∪)). }
  rewrite list_to_map_cons.
  apply NoDup_cons in Hnd as [Hk Hnd]. rewrite IH, list_to_map_put by done.
  rewrite <- insert_union_l. symmetry. apply insert_union_r. by apply not_elem_of_list_to_map.
Qed.

Section facts.
Context {W : Type} (SendAndWait : Z -> Z -> bytes -> sres W hsmsconn.TxError hsms.Message)
        (Send : Z -> Z -> bytes -> sres W hsmsconn.TxError unit) (Sprint : gval -> string).
Lemma smap_err_ok {E F A} (f : E -> F) (m : sres W E A) w a w' : smap_err f m w = (Ok a, w') -> m w = (Ok a, w').
Proof. unfold smap_err. destruct (m w) as [[x|e|] w1]; cbn; by intros [= <- <-]. Qed.
Lemma tagged_ok (op : sres W HostError Z) key inp w outs w' : tagged op key inp w = (Ok outs, w') ->
  op w = (Ok 0, w') /\ outs = out (withAckTag inp key 0).
Proof.
  unfold tagged. intros (ack & w1 & H1%smap_err_ok & H2)%sres_bind_inv. unfold AckCode_OK in H2.
  destruct (Z.eqb_spec ack 0) as [->|]; [|done]. by injection H2 as <- <-.
Qed.

(** An action node's output means the equipment accepted: when [Process] returns, communications
    were established and accepted first, the configured message was answered with acknowledge code
    zero, and the one datagram on [out] is the input with that code in its tags, its payload
    untouched (a raw message's reply replaces the payload instead).  A remote command carries every
    static parameter the payload does not override and every field of the payload. *)
Theorem action_accepted cfg h inp w outs w' :
  Process SendAndWait Send Sprint cfg true h inp w = (Ok outs, w') ->
  exists model rev w1, EstablishCommunications SendAndWait h w = (Ok (0, model, rev), w1) /\
  (Action cfg = "remoteCommand" ->
     SendRemoteCommand SendAndWait (RCMD cfg) (command_params Sprint cfg inp) w1 = (Ok 0, w') /\
     outs = out (withAckTag inp "hcack" 0) /\
     (ParamsFromPayload cfg = true -> NoDup (map fst (StringMap Sprint (datagram.Value (payload inp)))) ->
        (list_to_map (command_params Sprint cfg inp) : gmap string string) =
        list_to_map (StringMap Sprint (datagram.Value (payload inp))) ∪ list_to_map (Params cfg))) /\
  (Action cfg = "newEquipmentConstants" ->
     SendNewEquipmentConstants SendAndWait (DataID_ cfg) (constant_values (EquipmentConstants cfg)) w1 = (Ok 0, w') /\
     outs = out (withAckTag inp "eac" 0)) /\
  (Action cfg = "raw" -> exists reply,
     SendRaw SendAndWait Send (Stream_ cfg) (Function__ cfg) (WBit_ cfg) (AnyToItem (datagram.Value (payload inp))) w1 = (Ok reply, w') /\
     outs = out (if WBit_ cfg then MkDatagram (header inp) (MkPayload (GItem (secsii.Value reply)) (Binary (payload inp))) (trace inp) else inp)).
Proof.
  unfold Process. cbn [negb]. intros ([[ack m] s] & w1 & H1%smap_err_ok & H2)%sres_bind_inv. cbn beta iota in H2.
  unfold AckCode_OK in H2. destruct (Z.eqb_spec ack 0) as [->|]; [|done]. cbn [negb] in H2.
  exists m, s, w1. split; [done|].
  destruct (decide (Action cfg = "remoteCommand")) as [Ha|Hn1].
  { apply tagged_ok in H2 as [H2 ->]. rewrite Ha. split_and!; [|done|done]. intros _. split_and!; [done|done|].
    intros Hp Hnd. unfold command_params. rewrite Hp. by apply fold_put_union. }
  destruct (decide (Action cfg = "newEquipmentConstants")) as [Ha|Hn2].
  { apply tagged_ok in H2 as [H2 ->]. rewrite Ha. by split_and!. }
  split_and!; [done|done|]. intros _. apply sres_bind_inv in H2 as (reply & w2 & H2%smap_err_ok & H3).
  injection H3 as <- <-. eauto.
Qed.
End facts.

Definition demo_cfg : Config := MkConfig "remoteCommand" "START" [("LOT", "L0"); ("MODE", "auto")] true [] 0 0 0 false.
Definition demo_in : Datagram gval :=
  datagram.New "d" 3 (MkSource "" "" "" "" "") (MkPayload (GMap [("LOT", GStr "L42")]) None).
Lemma action_accepted_witness :
  exists w', Process (secsgemhost.sim_transport "" [] [] 1) (fun _ _ _ w => (Ok tt, w)) (fun _ => "") demo_cfg true secsgemhost.sample_host demo_in (gemsim.sample_sim, 3)
    = (Ok (out (withAckTag demo_in "hcack" 0)), w') /\
  (list_to_map (command_params (fun _ => "") demo_cfg demo_in) : gmap string string) = {[ "LOT" := "L42"; "MODE" := "auto" ]}.
Proof.
  eexists. assert (Process (secsgemhost.sim_transport "" [] [] 1) (fun _ _ _ w => (Ok tt, w)) (fun _ => "") demo_cfg true secsgemhost.sample_host demo_in (gemsim.sample_sim, 3)
    = (Ok (out (withAckTag demo_in "hcack" 0)), (gemsim.sample_sim, 5))) as H by (vm_compute; reflexivity).
  split; [exact H|].
  destruct (action_accepted _ _ _ _ _ _ _ _ _ H) as (m & r & w1 & _ & Hc & _).
  destruct (Hc eq_refl) as (_ & _ & Hp). rewrite Hp; [|reflexivity|apply NoDup_singleton]. reflexivity.
Defined.
End secsgemaction.
