(* ===== verification/RuntimeClient.v ===== *)
(** * The runtime's side of the control-plane session ([engine/internal/runtimeclient])

    [Run] registers the runtime, keeps heartbeats going and starts, per registration, one
    goroutine for each stream (deploy, debug, event).  The goroutines outlive their registration:
    they end when they notice that their context is cancelled.  They share the sinks through which
    the engine sends events.  A run interleaves the goroutines' steps; the environment decides
    what each remote call returns, when a timer fires and when the process is stopped. *)

From S2P Require Import Prelude Float Debug.
Import float.
Local Open Scope Z_scope.

Module runtimeclient.

(** ** The sinks

    [EventSink] and the stream of [DebugSink]: the attached stream, and the session token that goes
    with it (the runtime's identifier never changes). *)
Record Sink := MkSink { send : option nat; token : string }.
Definition NewSink : Sink := MkSink None "".
Definition attach (s : Sink) (stream : nat) (tok : string) : Sink := MkSink (Some stream) tok.
Definition detach (s : Sink) : Sink := MkSink None (token s).
(** [trySend]: the stream a request goes to and the token it carries. *)
Definition trySend (s : Sink) : option (nat * string) := (fun n => (n, token s)) <$> send s.

(** ** Goroutines *)

Inductive kind := KDeploy | KDebug | KEvent.
#[global] Instance kind_eq_dec : EqDecision kind.
Proof. solve_decision. Defined.

(** Where a stream goroutine is: opening its stream, sending the hello, reading, about to detach
    the sink, in [sleepOrDone], or returned. *)
Inductive phase := POpening | PHello (n : nat) | PReading (n : nat) | PDetaching (n : nat) | PSleeping | PExited.
(** [l_reader]: the goroutine that receives from the stream has not ended. *)
Record loop := MkLoop { l_kind : kind; l_token : string; l_phase : phase; l_reader : bool; l_cancelled : bool }.
Definition with_phase (l : loop) (p : phase) : loop := MkLoop (l_kind l) (l_token l) p (l_reader l) (l_cancelled l).
Definition with_reader (l : loop) (r : bool) : loop := MkLoop (l_kind l) (l_token l) (l_phase l) r (l_cancelled l).
Definition cancel (l : loop) : loop := MkLoop (l_kind l) (l_token l) (l_phase l) (l_reader l) true.

(** Where [Run] is: calling [Register], waiting to try again, in [heartbeatLoop], or returned. *)
Inductive main_phase := MRegistering | MWaiting (d : Z) | MHeartbeat (tok : string) | MReturned.

(** [c_streams]: the token each stream was opened with.  [c_reports]: the calls of [onRegistered];
    [c_deploys]: those of [onDeploy]; [c_commands]: the downlink messages handed on; [c_uplinks]:
    the requests sent through a sink. *)
Record Client := MkClient {
  c_main : main_phase; c_bo : debug.Backoff; c_done : bool;
  c_loops : list loop; c_debug : option Sink; c_event : option Sink; c_resolver : option string;
  c_streams : list string; c_reports : list bool;
  c_deploys : list (string * string); c_commands : list (kind * string);
  c_uplinks : list (nat * string * string)
}.
Definition with_main (c : Client) (m : main_phase) : Client :=
  MkClient m (c_bo c) (c_done c) (c_loops c) (c_debug c) (c_event c) (c_resolver c) (c_streams c) (c_reports c) (c_deploys c) (c_commands c) (c_uplinks c).
Definition with_bo (c : Client) (b : debug.Backoff) : Client :=
  MkClient (c_main c) b (c_done c) (c_loops c) (c_debug c) (c_event c) (c_resolver c) (c_streams c) (c_reports c) (c_deploys c) (c_commands c) (c_uplinks c).
Definition with_loops (c : Client) (ls : list loop) : Client :=
  MkClient (c_main c) (c_bo c) (c_done c) ls (c_debug c) (c_event c) (c_resolver c) (c_streams c) (c_reports c) (c_deploys c) (c_commands c) (c_uplinks c).
Definition onRegistered (c : Client) (b : bool) : Client :=
  MkClient (c_main c) (c_bo c) (c_done c) (c_loops c) (c_debug c) (c_event c) (c_resolver c) (c_streams c) (c_reports c ++ [b]) (c_deploys c) (c_commands c) (c_uplinks c).
Definition with_sink (c : Client) (k : kind) (f : Sink -> Sink) : Client :=
  MkClient (c_main c) (c_bo c) (c_done c) (c_loops c)
    (if decide (k = KDebug) then f <$> c_debug c else c_debug c) (if decide (k = KEvent) then f <$> c_event c else c_event c)
    (c_resolver c) (c_streams c) (c_reports c) (c_deploys c) (c_commands c) (c_uplinks c).
Definition open_stream (c : Client) (tok : string) : Client :=
  MkClient (c_main c) (c_bo c) (c_done c) (c_loops c) (c_debug c) (c_event c) (c_resolver c) (c_streams c ++ [tok]) (c_reports c) (c_deploys c) (c_commands c) (c_uplinks c).
Definition received (c : Client) (k : kind) (tok msg : string) : Client :=
  if decide (k = KDeploy) then
    MkClient (c_main c) (c_bo c) (c_done c) (c_loops c) (c_debug c) (c_event c) (c_resolver c) (c_streams c) (c_reports c) (c_deploys c ++ [(tok, msg)]) (c_commands c) (c_uplinks c)
  else
    MkClient (c_main c) (c_bo c) (c_done c) (c_loops c) (c_debug c) (c_event c) (c_resolver c) (c_streams c) (c_reports c) (c_deploys c) (c_commands c ++ [(k, msg)]) (c_uplinks c).
Definition uplink (c : Client) (n : nat) (tok msg : string) : Client :=
  MkClient (c_main c) (c_bo c) (c_done c) (c_loops c) (c_debug c) (c_event c) (c_resolver c) (c_streams c) (c_reports c) (c_deploys c) (c_commands c) (c_uplinks c ++ [(n, tok, msg)]).

(** [debugSink] and [eventSink] may be nil. *)
Definition NewClient (has_debug has_event : bool) : Client :=
  MkClient MRegistering (debug.NewBackoff 500000000 30000000000 (of_Z 2)) false []
    (if has_debug then Some NewSink else None) (if has_event then Some NewSink else None) None [] [] [] [] [].

(** ** [Run] *)

(** The top of the loop: [if ctx.Err() != nil { return }]. *)
Definition run_top (c : Client) : Client := with_main c (if c_done c then MReturned else MRegistering).
Definition new_loop (tok : string) (done : bool) (k : kind) : loop := MkLoop k tok POpening false done.
Definition stream_kinds (c : Client) : list kind :=
  [KDeploy] ++ (match c_debug c with Some _ => [KDebug] | None => [] end) ++ (match c_event c with Some _ => [KEvent] | None => [] end).
Arguments stream_kinds : simpl never.
Definition registered (c : Client) (tok : string) : Client :=
  let c := onRegistered (with_bo c (debug.Reset (c_bo c))) true in
  MkClient (MHeartbeat tok) (c_bo c) (c_done c) (c_loops c ++ map (new_loop tok (c_done c)) (stream_kinds c)) (c_debug c) (c_event c) (Some tok)
    (c_streams c) (c_reports c) (c_deploys c) (c_commands c) (c_uplinks c).
(** [heartbeatLoop] returned an error: [onRegistered(false)] and [cancelStreams()]. *)
Definition lost (c : Client) : Client :=
  let c := onRegistered c false in run_top (with_loops c (map cancel (c_loops c))).

(** ** The stream goroutines *)

(** The top of [for ctx.Err() == nil]. *)
Definition loop_top (l : loop) : loop := with_phase l (if l_cancelled l then PExited else POpening).
Inductive action :=
| LOpen (ok : bool) | LHello (ok : bool) | LRecv (msg : string) | LRecvErr | LLeave | LDetach | LWake | LDone.
(** The receiver of a stream: a goroutine of its own for the two channels. *)
Definition reader_step (c : Client) (l : loop) (a : action) : option (Client * loop) :=
  match a with
  | LRecv msg => if l_reader l then Some (received c (l_kind l) (l_token l) msg, l) else None
  | LRecvErr => if l_reader l then Some (c, with_reader l false) else None
  | _ => None
  end.
(** [sleepOrDone] *)
Definition sleep_step (c : Client) (l : loop) (a : action) : option (Client * loop) :=
  match a with
  | LWake => Some (c, loop_top l)
  | LDone => if l_cancelled l then Some (c, with_phase l PExited) else None
  | _ => None
  end.
Definition deployStreamLoop (c : Client) (l : loop) (a : action) : option (Client * loop) :=
  match a, l_phase l with
  | LOpen ok, POpening =>
      if l_cancelled l then Some (c, with_phase l PExited) else
      if negb ok then Some (c, with_phase l PSleeping) else
      Some (open_stream c (l_token l), with_reader (with_phase l (PReading (length (c_streams c)))) true)
  | LRecv msg, PReading _ => reader_step c l a
  | LRecvErr, PReading _ => Some (c, with_reader (with_phase l PSleeping) false)
  | _, PSleeping => sleep_step c l a
  | _, _ => None
  end.
(** [debugChannelLoop] and [eventChannelLoop] differ in their sink and messages only. *)
Definition channelLoop (k : kind) (c : Client) (l : loop) (a : action) : option (Client * loop) :=
  match a, l_phase l with
  | (LRecv _ | LRecvErr), _ => reader_step c l a
  | LOpen ok, POpening =>
      if l_cancelled l then Some (c, with_phase l PExited) else
      if negb ok then Some (c, with_phase l PSleeping) else
      Some (open_stream c (l_token l), with_phase l (PHello (length (c_streams c))))
  | LHello ok, PHello n =>
      if ok then Some (with_sink c k (fun s => attach s n (l_token l)), with_reader (with_phase l (PReading n)) true)
      else Some (c, with_phase l PSleeping)
  | LLeave, PReading n => if l_cancelled l || negb (l_reader l) then Some (c, with_phase l (PDetaching n)) else None
  | LDetach, PDetaching _ => Some (with_sink c k detach, with_phase l PSleeping)
  | _, PSleeping => sleep_step c l a
  | _, _ => None
  end.
Definition debugChannelLoop : Client -> loop -> action -> option (Client * loop) := channelLoop KDebug.
Definition eventChannelLoop : Client -> loop -> action -> option (Client * loop) := channelLoop KEvent.
Definition loop_step (c : Client) (l : loop) (a : action) : option (Client * loop) :=
  match l_kind l with
  | KDeploy => deployStreamLoop c l a
  | KDebug => debugChannelLoop c l a
  | KEvent => eventChannelLoop c l a
  end.
Ltac unfold_loops := unfold loop_step, debugChannelLoop, eventChannelLoop, deployStreamLoop, channelLoop, reader_step, sleep_step, received, loop_top, with_reader, with_phase in *.

(** ** Requests and downlink messages *)

Record FlowStatus := MkFlowStatus { fs_FlowID : string; fs_Status : string }.
Record HealthSnapshot := MkHealth { CPUPercent : float64; MemoryBytes : Z; FlowStatuses : list FlowStatus }.
Record RegisterRequest := MkRegisterRequest { rr_RuntimeID : string; rr_Kind : string; rr_Version : string; rr_EnrollmentToken : string }.
Record HeartbeatRequest := MkHeartbeatRequest {
  hr_RuntimeID : string; hr_Token : string; hr_CPU : float64; hr_Memory : Z; hr_Flows : list FlowStatus
}.
Definition registerRequest (runtimeID version enrollmentToken : string) : RegisterRequest :=
  MkRegisterRequest runtimeID "RUNTIME_KIND_SERVER" version enrollmentToken.
(** One tick of [heartbeatLoop]; [health] is what the provider samples, if there is one. *)
Definition heartbeatRequest (runtimeID sessionToken : string) (health : option HealthSnapshot) : HeartbeatRequest :=
  match health with
  | Some snap => MkHeartbeatRequest runtimeID sessionToken (CPUPercent snap) (MemoryBytes snap) (FlowStatuses snap)
  | None => MkHeartbeatRequest runtimeID sessionToken fzero 0 []
  end.

Record ResolvedConnection := MkResolved { rc_Type : string; rc_Config : string; rc_Credential : option string }.
Inductive ResolveError := ErrNotRegistered | ErrRPC (id : string).
(** [rpc]: the control plane's answer to runtime, token and connection id: type, config, credential. *)
Definition ResolveConnection (rpc : string -> string -> string -> option (string * string * string)) (runtimeID : string)
    (resolver : option string) (connectionID : string) : res ResolveError ResolvedConnection :=
  match resolver with
  | None => Err ErrNotRegistered
  | Some tok =>
      match rpc runtimeID tok connectionID with
      | None => Err (ErrRPC connectionID)
      | Some (t, cfg, cred) => Ok (MkResolved t cfg (if decide (cred = "") then None else Some cred))
      end
  end.

Section downlink.
Context {D : Type} (Unmarshal : string -> option D).
Inductive EventDownlink :=
| DRunExecution (from nodeID port datagramJSON reRunOf : string)
| DCancelExecution (executionID : string)
| DReinjectDeadLetter (nodeID port datagramJSON : string)
| DNone.
(** The call [handleEventDownlink] makes on its target. *)
Inductive TargetCall :=
| ReplayOutput (nodeID port : string) (seed : D) (reRunOf : string)
| ReplayInput (nodeID port : string) (seed : D) (reRunOf : string)
| CancelExecution (executionID : string)
| Reinject (nodeID port : string) (d : D).
Definition handleEventDownlink (target : bool) (resp : EventDownlink) : option TargetCall :=
  if negb target then None else
  match resp with
  | DRunExecution from nodeID port js reRunOf =>
      seed ← Unmarshal js;
      if decide (from = "start") then Some (ReplayOutput nodeID port seed reRunOf)
      else if decide (from = "node") then Some (ReplayInput nodeID port seed reRunOf)
      else None
  | DCancelExecution id => Some (CancelExecution id)
  | DReinjectDeadLetter nodeID port js => d ← Unmarshal js; Some (Reinject nodeID port d)
  | DNone => None
  end.
End downlink.

(** ** Steps *)

Inductive event :=
| EStop                                  (* the process context is cancelled *)
| ERegister (r : option string) (rnd : float64)
| EWaited
| EHeartbeat (ok : bool)
| ELoop (i : nat) (a : action)
| EEmit (k : kind) (msg : string).       (* a sink method called by the engine *)

Definition sink_of (c : Client) (k : kind) : option Sink :=
  match k with KDeploy => None | KDebug => c_debug c | KEvent => c_event c end.
Definition step (c : Client) (e : event) : option Client :=
  match e, c_main c with
  | EStop, _ =>
      Some (MkClient (c_main c) (c_bo c) true (map cancel (c_loops c)) (c_debug c) (c_event c) (c_resolver c) (c_streams c) (c_reports c) (c_deploys c) (c_commands c) (c_uplinks c))
  | ERegister (Some tok) _, MRegistering => Some (registered c tok)
  | ERegister None rnd, MRegistering =>
      let '(bo, d) := debug.Next (c_bo c) rnd in
      Some (with_main (with_bo (onRegistered c false) bo) (MWaiting d))
  | EWaited, MWaiting _ => Some (run_top c)
  | EHeartbeat ok, MHeartbeat _ => if ok && negb (c_done c) then Some c else Some (lost c)
  | ELoop i a, _ =>
      match c_loops c !! i with
      | Some l => match loop_step c l a with
                  | Some (c', l') => Some (with_loops c' (<[i := l']> (c_loops c')))
                  | None => None
                  end
      | None => None
      end
  | EEmit k msg, _ =>
      match sink_of c k with
      | Some s => match trySend s with Some (n, tok) => Some (uplink c n tok msg) | None => Some c end
      | None => None
      end
  | _, _ => None
  end.
Fixpoint run (c : Client) (es : list event) : option Client :=
  match es with [] => Some c | e :: es' => match step c e with Some c' => run c' es' | None => None end end.

(** ** Invariants *)

(** The stream a goroutine holds. *)
Definition holds (p : phase) : option nat :=
  match p with PHello n | PReading n | PDetaching n => Some n | _ => None end.
Record inv (c : Client) : Prop := MkInv {
  i_sink : forall k s n, sink_of c k = Some s -> send s = Some n -> c_streams c !! n = Some (token s);
  i_loop : forall i l n, c_loops c !! i = Some l -> holds (l_phase l) = Some n -> c_streams c !! n = Some (l_token l);
  i_uplink : forall n tok msg, (n, tok, msg) ∈ c_uplinks c -> c_streams c !! n = Some tok;
  i_live : forall i l, c_loops c !! i = Some l -> l_cancelled l = false -> c_done c = false /\ c_main c = MHeartbeat (l_token l);
  i_report : last (c_reports c) = Some true <-> exists tok, c_main c = MHeartbeat tok;
  i_resolver : forall tok, c_main c = MHeartbeat tok -> c_resolver c = Some tok
}.

Lemma inv_new d e : inv (NewClient d e).
Proof.
  constructor; cbn.
  - intros [] s n; cbn; [done|destruct d|destruct e]; try done; by intros [= <-].
  - by intros i l n.
  - intros n tok msg H. by apply elem_of_nil in H.
  - by intros i l.
  - split; [done|]. by intros [tok H].
  - done.
Qed.
Lemma lookup_snoc_mono {A} (l : list A) x n y : l !! n = Some y -> (l ++ [x]) !! n = Some y.
Proof. intros H. by apply lookup_app_l_Some. Qed.
Lemma lookup_map_cancel ls (i : nat) l' : map cancel ls !! i = Some l' -> exists l, ls !! i = Some l /\ l' = cancel l.
Proof. intros H. apply list_lookup_fmap_Some in H as (l & -> & Hl). eauto. Qed.
(** A goroutine's own fields change but not its kind, token or cancellation. *)
Lemma loop_step_frame c l a c' l' : loop_step c l a = Some (c', l') ->
  l_kind l' = l_kind l /\ l_token l' = l_token l /\ l_cancelled l' = l_cancelled l /\
  c_loops c' = c_loops c /\ c_main c' = c_main c /\ c_done c' = c_done c /\ c_uplinks c' = c_uplinks c /\ c_reports c' = c_reports c /\ c_resolver c' = c_resolver c.
Proof.
  unfold_loops. intros H. repeat case_match; simplify_eq; cbn; done.
Qed.
Lemma sink_of_with_sink c k f k' : sink_of (with_sink c k f) k' = if decide (k' = k) then f <$> sink_of c k' else sink_of c k'.
Proof. destruct k, k'; done. Qed.
Lemma loop_step_streams c l a c' l' : loop_step c l a = Some (c', l') ->
  (c_streams c' = c_streams c /\ (forall n, holds (l_phase l') = Some n -> holds (l_phase l) = Some n)) \/
  (c_streams c' = c_streams c ++ [l_token l] /\ holds (l_phase l') = Some (length (c_streams c))).
Proof.
  unfold_loops. intros H. repeat case_match; simplify_eq; cbn; auto.
  all: left; split; [done|]; intros n' Hn; try match goal with H : l_phase _ = _ |- _ => rewrite H in Hn end; cbn in *; congruence.
Qed.
Lemma loop_step_sinks c l a c' l' k : loop_step c l a = Some (c', l') ->
  sink_of c' k = sink_of c k \/
  k = l_kind l /\ exists n, (l_phase l = PHello n /\ l_phase l' = PReading n /\ sink_of c' k = (fun s => attach s n (l_token l)) <$> sink_of c k) \/
                       (l_phase l = PDetaching n /\ l_phase l' = PSleeping /\ sink_of c' k = detach <$> sink_of c k).
Proof.
  unfold_loops. intros H. repeat case_match; simplify_eq; try (left; by destruct k); rewrite sink_of_with_sink.
  all: destruct (decide _) as [->|]; [right; split; [congruence|]; eauto 10|by left].
Qed.

Lemma inv_loop c i l a c' l' : inv c -> c_loops c !! i = Some l -> loop_step c l a = Some (c', l') ->
  inv (with_loops c' (<[i := l']> (c_loops c'))).
Proof.
  intros [Hs Hl Hu Hv Hr Hc] Hi Hstep.
  destruct (loop_step_frame _ _ _ _ _ Hstep) as (Ek & Et & Ec & El & Em & Ed & Eu & Er & Ev).
  pose proof (loop_step_streams _ _ _ _ _ Hstep) as Hst.
  assert (forall n t, c_streams c !! n = Some t -> c_streams c' !! n = Some t) as Hmono.
  { intros n t Hn. destruct Hst as [[-> _]|[-> _]]; [done|]. by apply lookup_snoc_mono. }
  constructor; cbn; rewrite ?El, ?Em, ?Ed, ?Eu, ?Er, ?Ev.
  - intros k s n Hk Hn. change (sink_of c' k = Some s) in Hk.
    destruct (loop_step_sinks _ _ _ _ _ k Hstep) as [E|(-> & m & [(Hp & _ & E)|(Hp & _ & E)])]; rewrite E in Hk.
    + eauto.
    + apply fmap_Some in Hk as (s0 & Hs0 & ->). cbn in *. injection Hn as <-. apply Hmono, (Hl i l m Hi). by rewrite Hp.
    + apply fmap_Some in Hk as (s0 & Hs0 & ->). done.
  - intros j lj n Hj Hn. apply list_lookup_insert_Some in Hj as [(-> & <- & _)|[_ Hj]].
    + rewrite Et. destruct Hst as [[E Hh]|[E Hh]].
      * rewrite E. eauto.
      * rewrite E. rewrite Hh in Hn. injection Hn as <-. by apply list_lookup_middle.
    + eauto.
  - eauto.
  - intros j lj Hj Hn. apply list_lookup_insert_Some in Hj as [(-> & <- & _)|[_ Hj]]; [|eauto].
    rewrite Ec in Hn. rewrite Et. eauto.
  - exact Hr.
  - exact Hc.
Qed.

Lemma client_inv_step c e c' : inv c -> step c e = Some c' -> inv c'.
Proof.
  intros Hinv H. unfold step in H. destruct e as [|r rnd| |ok|i a|k msg].
  - injection H as <-. destruct Hinv as [Hs Hl Hu Hv Hr Hc]. constructor; cbn; auto.
    + intros i l n (l0 & H0 & ->)%lookup_map_cancel Hn. exact (Hl _ _ _ H0 Hn).
    + by intros i l (l0 & H0 & ->)%lookup_map_cancel Hn.
  - destruct Hinv as [Hs Hl Hu Hv Hr Hc].
    destruct r as [tok|], (c_main c) eqn:Em; try done.
    + injection H as <-. constructor; cbn; auto.
      * intros i l n Hi Hn. apply lookup_app_Some in Hi as [Hi|[_ Hi]]; [eauto|].
        apply list_lookup_fmap_Some in Hi as (k & -> & _). done.
      * intros i l Hi Hn. apply lookup_app_Some in Hi as [Hi|[_ Hi]].
        -- apply (Hv i) in Hi as [_ Hi]; done.
        -- apply list_lookup_fmap_Some in Hi as (k & -> & _). by cbn in *.
      * rewrite last_snoc. split; [by exists tok|done].
      * by intros tok' [= ->].
    + destruct (debug.Next (c_bo c) rnd) as [bo d]. injection H as <-. constructor; cbn; auto.
      * intros i l Hi Hn. by apply (Hv i) in Hi as [_ Hi].
      * rewrite last_snoc. split; [done|]. by intros [tok Ht].
      * done.
  - destruct Hinv as [Hs Hl Hu Hv Hr Hc]. destruct (c_main c) eqn:Em; try done. injection H as <-. constructor; cbn; auto.
    + intros i l Hi Hn. by apply (Hv i) in Hi as [_ Hi].
    + rewrite Hr. split; [by intros [tok Ht]|]. intros [tok Ht]. by destruct (c_done c).
    + intros tok Ht. by destruct (c_done c).
  - destruct (c_main c) eqn:Em; try done. destruct (ok && negb (c_done c)); injection H as <-; [done|].
    destruct Hinv as [Hs Hl Hu Hv Hr Hc]. constructor; cbn; auto.
    + intros i l n (l0 & H0 & ->)%lookup_map_cancel Hn. exact (Hl _ _ _ H0 Hn).
    + by intros i l (l0 & H0 & ->)%lookup_map_cancel Hn.
    + rewrite last_snoc. split; [done|]. intros [tok' Ht]. by destruct (c_done c).
    + intros tok' Ht. by destruct (c_done c).
  - destruct (c_loops c !! i) as [l|] eqn:Ei; [|done]. destruct (loop_step c l a) as [[c1 l1]|] eqn:E; [|done].
    injection H as <-. by eapply inv_loop.
  - destruct (sink_of c k) as [s|] eqn:Ek; [|done]. unfold trySend in H. destruct (send s) as [n|] eqn:En; cbn in H; injection H as <-; [|done].
    destruct Hinv as [Hs Hl Hu Hv Hr Hc]. constructor; cbn; auto.
    intros n' tok' msg' [Hin|Hin]%elem_of_app; [eauto|]. apply list_elem_of_singleton in Hin as [= -> -> ->]. eauto.
Qed.
Lemma inv_run es : forall c c', inv c -> run c es = Some c' -> inv c'.
Proof.
  induction es as [|e es IH]; intros c c' Hi H; cbn in H; [by injection H as <-|].
  destruct (step c e) as [c1|] eqn:E; [|done]. eapply IH; [|exact H]. by eapply client_inv_step.
Qed.

(** [C31] the session a runtime claims to be in is the one it is in.  In every interleaving of
    [Run] and the stream goroutines of all its registrations: the last registration state told to
    the health endpoint is true exactly while the heartbeat loop of a session runs; only the
    streams of that session are live, those of earlier ones are cancelled; credentials are
    resolved with its token; and every event that left through a sink carried the token of the
    very session whose stream it was sent on. *)
Theorem one_session d e es c : run (NewClient d e) es = Some c ->
  (last (c_reports c) = Some true <-> exists tok, c_main c = MHeartbeat tok) /\
  (forall i l, c_loops c !! i = Some l -> l_cancelled l = false -> c_main c = MHeartbeat (l_token l)) /\
  (forall tok, c_main c = MHeartbeat tok -> c_resolver c = Some tok) /\
  (forall n tok msg, (n, tok, msg) ∈ c_uplinks c -> c_streams c !! n = Some tok).
Proof.
  intros H. destruct (inv_run _ _ _ (inv_new d e) H) as [_ _ Hu Hv Hr Hc]. split_and!; [done| |done|done].
  intros i l Hi Hn. by apply (Hv i l Hi Hn).
Qed.

(** *** The detach of an earlier session *)

(** A goroutine that left its stream when its session was lost detaches the sink whenever it gets
    to run; by then a later session may have attached its own stream.  The runtime is registered,
    its event stream is open and read, and the events of the engine go nowhere. *)
Definition late_detach : list event :=
  [ERegister (Some "t1") fzero; ELoop 1 (LOpen true); ELoop 1 (LHello true); EHeartbeat false; ELoop 1 LLeave;
   ERegister (Some "t2") fzero; ELoop 3 (LOpen true); ELoop 3 (LHello true); ELoop 1 LDetach; EEmit KEvent "finished"].
Theorem late_detach_silences : exists c,
  run (NewClient false true) late_detach = Some c /\ c_main c = MHeartbeat "t2" /\
  c_loops c !! 3%nat = Some (MkLoop KEvent "t2" (PReading 1) true false) /\
  c_event c = Some (MkSink None "t2") /\ c_uplinks c = [].
Proof. eexists. split; [vm_compute; reflexivity|]. vm_compute. done. Qed.

(** *** With the goroutines joined

    If [Run] waited for the goroutines of a session before it registered again, the sink would
    follow the stream: it is attached exactly while the goroutine of its kind holds the stream. *)
Definition exited (l : loop) : Prop := l_phase l = PExited.
Definition joined (c : Client) (e : event) : Prop :=
  match e with ERegister (Some _) _ => Forall exited (c_loops c) | _ => True end.
Inductive reach_joined (d e : bool) : Client -> Prop :=
| rj_new : reach_joined d e (NewClient d e)
| rj_step c ev c' : reach_joined d e c -> joined c ev -> step c ev = Some c' -> reach_joined d e c'.

Definition reading (l : loop) (n : nat) : Prop := l_phase l = PReading n \/ l_phase l = PDetaching n.
Record jinv (k : kind) (c : Client) : Prop := MkJInv {
  j_unique : forall i j li lj, c_loops c !! i = Some li -> c_loops c !! j = Some lj -> l_kind li = k -> l_kind lj = k ->
    ~ exited li -> ~ exited lj -> i = j;
  j_sink : forall s, sink_of c k = Some s -> forall n, send s = Some n <-> exists i l, c_loops c !! i = Some l /\ l_kind l = k /\ reading l n
}.

Lemma loop_step_reading c l a c' l' : loop_step c l a = Some (c', l') -> l_kind l <> KDeploy ->
  (exited l -> exited l') /\
  ((sink_of c' (l_kind l) = sink_of c (l_kind l) /\ forall n, reading l' n <-> reading l n) \/
   (exists n, l_phase l = PHello n /\ l_phase l' = PReading n /\ sink_of c' (l_kind l) = (fun s => attach s n (l_token l)) <$> sink_of c (l_kind l)) \/
   (exists n, l_phase l = PDetaching n /\ l_phase l' = PSleeping /\ sink_of c' (l_kind l) = detach <$> sink_of c (l_kind l))).
Proof.
  intros H Hk. split.
  { unfold exited. intros Hx. unfold_loops. rewrite Hx in H. repeat case_match; simplify_eq; done. }
  unfold_loops. unfold reading.
  repeat case_match; simplify_eq; try done.
  all: try (right; left; eexists; split_and!; [done|done|]; rewrite sink_of_with_sink; by rewrite decide_True by done).
  all: try (right; right; eexists; split_and!; [done|done|]; rewrite sink_of_with_sink; by rewrite decide_True by done).
  all: left; split; [by match goal with |- sink_of _ ?k = _ => destruct k end|]; intros m; cbn; split; intros [Hm|Hm]; simplify_eq; auto.
Qed.

Lemma reading_not_exited l n : reading l n -> ~ exited l.
Proof. unfold reading, exited. intros [-> | ->]; done. Qed.
(** Goroutines of another kind leave a sink alone. *)
Lemma loop_step_other c l a c' l' k : loop_step c l a = Some (c', l') -> k <> l_kind l -> sink_of c' k = sink_of c k.
Proof. intros H Hk. destruct (loop_step_sinks _ _ _ _ _ k H) as [E|(-> & _)]; done. Qed.

Lemma jinv_loop k c i l a c' l' : k <> KDeploy -> jinv k c -> c_loops c !! i = Some l -> loop_step c l a = Some (c', l') ->
  jinv k (with_loops c' (<[i := l']> (c_loops c'))).
Proof.
  intros Hk [Hu Hs] Hi Hst. destruct (loop_step_frame _ _ _ _ _ Hst) as (Ek & _ & _ & El & _).
  assert (i < length (c_loops c))%nat as Hlt by (by eapply lookup_lt_Some).
  assert (forall j lj, <[i:=l']> (c_loops c) !! j = Some lj -> j = i /\ lj = l' \/ j <> i /\ c_loops c !! j = Some lj) as Hcases.
  { intros j lj Hj. apply list_lookup_insert_Some in Hj as [(-> & <- & _)|[? ?]]; auto. }
  destruct (decide (l_kind l = k)) as [Hkl|Hkl].
  - subst k. destruct (loop_step_reading _ _ _ _ _ Hst Hk) as [Hx Hr]. constructor; cbn; rewrite El.
    + intros j1 j2 l1 l2 H1 H2 K1 K2 X1 X2.
      assert (forall j lj, <[i:=l']> (c_loops c) !! j = Some lj -> ~ exited lj ->
                exists l0, c_loops c !! j = Some l0 /\ ~ exited l0 /\ l_kind l0 = l_kind lj) as Hback.
      { intros j lj Hj Hxj. destruct (Hcases j lj Hj) as [[-> ->]|[? Hj']]; [exists l; rewrite Ek; split_and!; [done|intros Hl; by apply Hxj, Hx|done]|eauto]. }
      destruct (Hback _ _ H1 X1) as (m1 & ? & ? & E1), (Hback _ _ H2 X2) as (m2 & ? & ? & E2).
      eapply (Hu j1 j2 m1 m2); congruence.
    + intros s Hsk n. change (sink_of c' (l_kind l) = Some s) in Hsk.
      destruct Hr as [[E Hiff]|[(m & Hp & Hp' & E)|(m & Hp & Hp' & E)]]; rewrite E in Hsk.
      * rewrite (Hs s Hsk n). split; intros (j & lj & Hj & Hkj & Hrj).
        -- destruct (decide (j = i)) as [->|Hne].
           ++ exists i, l'. rewrite list_lookup_insert_eq by done. split_and!; [done|congruence|]. apply Hiff. congruence.
           ++ exists j, lj. by rewrite list_lookup_insert_ne.
        -- destruct (Hcases j lj Hj) as [[-> ->]|[_ Hj']]; [exists i, l; split_and!; [done|done|by apply Hiff]|eauto 10].
      * apply fmap_Some in Hsk as (s0 & Hs0 & ->). cbn. split.
        -- intros [= <-]. exists i, l'. rewrite list_lookup_insert_eq by done. split_and!; [done|done|by left].
        -- intros (j & lj & Hj & Hkj & Hrj). destruct (Hcases j lj Hj) as [[-> ->]|[Hne Hj']].
           ++ destruct Hrj as [Hrj|Hrj]; congruence.
           ++ destruct Hne. apply (Hu j i lj l Hj' Hi Hkj eq_refl); [by eapply reading_not_exited|unfold exited; by rewrite Hp].
      * apply fmap_Some in Hsk as (s0 & Hs0 & ->). cbn. split; [done|].
        intros (j & lj & Hj & Hkj & Hrj). exfalso. destruct (Hcases j lj Hj) as [[-> ->]|[Hne Hj']].
        -- destruct Hrj as [Hrj|Hrj]; congruence.
        -- destruct Hne. apply (Hu j i lj l Hj' Hi Hkj eq_refl); [by eapply reading_not_exited|unfold exited; by rewrite Hp].
  - constructor; cbn; rewrite El.
    + intros j1 j2 l1 l2 H1 H2 K1 K2 X1 X2.
      destruct (Hcases _ _ H1) as [[-> ->]|[? ?]]; [congruence|]. destruct (Hcases _ _ H2) as [[-> ->]|[? ?]]; [congruence|]. eauto.
    + intros s Hsk n. change (sink_of c' k = Some s) in Hsk. rewrite (loop_step_other _ _ _ _ _ k Hst) in Hsk by congruence.
      rewrite (Hs s Hsk n). split; intros (j & lj & Hj & Hkj & Hrj).
      * exists j, lj. rewrite list_lookup_insert_ne; [done|]. intros <-. congruence.
      * destruct (Hcases j lj Hj) as [[-> ->]|[_ Hj']]; [congruence|eauto 10].
Qed.
(** The sinks and the goroutines as they were, cancellation aside. *)
Lemma jinv_frame k c c' : jinv k c -> sink_of c' k = sink_of c k ->
  (c_loops c' = c_loops c \/ c_loops c' = map cancel (c_loops c)) -> jinv k c'.
Proof.
  intros [Hu Hs] Ek [El|El].
  { constructor; rewrite El; [done|]. by rewrite Ek. }
  constructor; rewrite El.
  - intros i j li lj (l1 & H1 & ->)%lookup_map_cancel (l2 & H2 & ->)%lookup_map_cancel. exact (Hu i j l1 l2 H1 H2).
  - rewrite Ek. intros s Hsk n. rewrite (Hs s Hsk n). split.
    + intros (i & l & Hi & Hk & Hr). exists i, (cancel l). split_and!; [|done|done]. rewrite list_lookup_fmap, Hi. done.
    + intros (i & l & (l0 & Hi & ->)%lookup_map_cancel & Hk & Hr). eauto.
Qed.
Lemma stream_kinds_NoDup c : NoDup (stream_kinds c).
Proof.
  unfold stream_kinds. destruct (c_debug c), (c_event c); cbn; repeat constructor; set_solver.
Qed.
Lemma jinv_registered k c tok : jinv k c -> Forall exited (c_loops c) -> jinv k (registered c tok).
Proof.
  intros [Hu Hs] Hx. rewrite Forall_lookup in Hx.
  assert (forall i l, c_loops (registered c tok) !! i = Some l -> ~ exited l ->
            exists m, i = (length (c_loops c) + m)%nat /\ stream_kinds c !! m = Some (l_kind l) /\ l_phase l = POpening) as Hnew.
  { intros i l Hi Hn. cbn in Hi. apply lookup_app_Some in Hi as [Hi|[Hge Hi]]; [by destruct (Hn (Hx i l Hi))|].
    apply list_lookup_fmap_Some in Hi as (k0 & -> & Hi). exists (i - length (c_loops c))%nat. split_and!; [lia|done|done]. }
  constructor.
  - intros i j li lj Hi Hj Ki Kj Xi Xj. destruct (Hnew i li Hi Xi) as (a & -> & Ha & _), (Hnew j lj Hj Xj) as (b & -> & Hb & _).
    f_equal. eapply NoDup_lookup; [apply (stream_kinds_NoDup c)|exact Ha|]. congruence.
  - intros s Hsk n. change (sink_of c k = Some s) in Hsk. rewrite (Hs s Hsk n). split.
    + intros (i & l & Hi & _ & Hr). exfalso. by apply (reading_not_exited l n Hr), (Hx i).
    + intros (i & l & Hi & _ & Hr). destruct (Hnew i l Hi (reading_not_exited l n Hr)) as (m & _ & _ & Hp).
      destruct Hr as [Hr|Hr]; congruence.
Qed.
Lemma jinv_step k c e c' : k <> KDeploy -> jinv k c -> joined c e -> step c e = Some c' -> jinv k c'.
Proof.
  intros Hk Hj Hjoin H. unfold step in H. destruct e as [|r rnd| |ok|i a|k' msg].
  - injection H as <-. eapply jinv_frame; [exact Hj|by destruct k|by right].
  - destruct r as [tok|], (c_main c); try done; [injection H as <-; by apply jinv_registered|].
    destruct (debug.Next (c_bo c) rnd) as [bo d]. injection H as <-. eapply jinv_frame; [exact Hj|by destruct k|by left].
  - destruct (c_main c); try done. injection H as <-. eapply jinv_frame; [exact Hj|by destruct k|by left].
  - destruct (c_main c); try done. destruct (ok && negb (c_done c)); injection H as <-; [done|].
    eapply jinv_frame; [exact Hj|by destruct k|by right].
  - destruct (c_loops c !! i) as [l|] eqn:Ei; [|done]. destruct (loop_step c l a) as [[c1 l1]|] eqn:E; [|done].
    injection H as <-. by eapply jinv_loop.
  - destruct (sink_of c k') as [s|]; [|done]. destruct (trySend s) as [[n tok]|]; injection H as <-; [|done].
    eapply jinv_frame; [exact Hj|by destruct k|by left].
Qed.
Theorem joined_follows d e c k s : reach_joined d e c -> k <> KDeploy -> sink_of c k = Some s ->
  forall n, send s = Some n <-> exists i l, c_loops c !! i = Some l /\ l_kind l = k /\ reading l n.
Proof.
  intros H Hk. assert (jinv k c) as [_ Hs]; [|exact (Hs s)].
  induction H as [|c ev c' _ IH Hjoin Hstep]; [|by eapply jinv_step].
  constructor; [done|]. intros s' Hs n. split; [|by intros (i & l & Hi & _)].
  destruct k; cbn in Hs; [done|destruct d|destruct e]; by simplify_eq.
Qed.

(** A failed registration waits the next delay of the backoff; a successful one resets it. *)
Lemma registration_backoff c rnd c' : step c (ERegister None rnd) = Some c' ->
  c_main c' = MWaiting (snd (debug.Next (c_bo c) rnd)) /\ c_bo c' = fst (debug.Next (c_bo c) rnd).
Proof. cbn. destruct (c_main c); try done. destruct (debug.Next (c_bo c) rnd). by intros [= <-]. Qed.

Lemma one_session_witness : exists c,
  run (NewClient true true) [ERegister None fzero; EWaited; ERegister (Some "t1") fzero; ELoop 2 (LOpen true); ELoop 2 (LHello true);
      EEmit KEvent "started"; EHeartbeat true; EHeartbeat false] = Some c /\
  last (c_reports c) = Some false /\ c_streams c !! 0%nat = Some "t1" /\ c_uplinks c = [(0%nat, "t1", "started")].
Proof.
  eexists. assert (run (NewClient true true) [ERegister None fzero; EWaited; ERegister (Some "t1") fzero; ELoop 2 (LOpen true); ELoop 2 (LHello true);
      EEmit KEvent "started"; EHeartbeat true; EHeartbeat false] = Some _) as H by (vm_compute; reflexivity).
  split; [exact H|]. destruct (one_session _ _ _ _ H) as (_ & _ & _ & Hu).
  split; [reflexivity|]. split; [|reflexivity]. apply (Hu _ _ "started"). left.
Defined.
(** While a session runs, a connection is resolved with that session's token. *)
Lemma resolves_with_session d e es c tok rpc rid id : run (NewClient d e) es = Some c -> c_main c = MHeartbeat tok ->
  ResolveConnection rpc rid (c_resolver c) id =
  match rpc rid tok id with
  | None => Err (ErrRPC id)
  | Some (t, cfg, cred) => Ok (MkResolved t cfg (if decide (cred = "") then None else Some cred))
  end.
Proof. intros H Hm. destruct (inv_run _ _ _ (inv_new d e) H) as [_ _ _ _ _ Hc]. by rewrite (Hc tok Hm). Qed.
End runtimeclient.
