(* ===== verification/SqlShared.v ===== *)
(** * SQL connections ([engine/nodes/sqlshared])

    Dialects and their placeholders, data source names, the connection with its ping loop, and the
    JSON form of scanned values.  [url.QueryEscape], the rendering of a URL and the driver are
    arguments. *)

From S2P Require Import Prelude Bytes GoStd Float Datagram Execution Value Debug.
Import gostd float value.
Local Open Scope Z_scope.

Module sqlshared.

Definition Dialect := string.
Definition DialectPostgres : Dialect := "postgres".
Definition DialectMySQL : Dialect := "mysql".
Definition DialectMSSQL : Dialect := "mssql".
Definition DialectSQLite : Dialect := "sqlite".
Definition itoa (n : Z) : string := string_of_bytes (FormatInt n).
Definition Placeholder (d : Dialect) (i : Z) : string :=
  if decide (d = DialectMSSQL) then "@p" +:+ itoa i
  else if decide (d = DialectPostgres) then "$" +:+ itoa i
  else "?".

Record Config := MkConfig { Host : string; Port : Z; DatabaseName : string; SSLMode : string; File : string }.
Record Credential := MkCredential { Username : string; Password : string }.

Section dsn.
Context (QueryEscape : string -> string) (sqlserverURL : string -> string -> string -> string -> string).
Definition orElse (s d : string) : string := if decide (s = "") then d else s.
Definition portOr (p d : Z) : Z := if p =? 0 then d else p.
(** [sqlserverURL user password host database]: [url.URL.String] of the parts. *)
Definition dsnFor (connType : Dialect) (cfg : Config) (cred : Credential) : res string (string * Dialect * string) :=
  let user := QueryEscape (Username cred) in
  let pass := QueryEscape (Password cred) in
  let missing := bool_decide (Host cfg = "") || bool_decide (DatabaseName cfg = "") in
  if decide (connType = "" \/ connType = DialectPostgres) then
    if missing then Err "postgres connection config requires host and database" else
    Ok ("pgx", DialectPostgres,
        "postgres://" +:+ user +:+ ":" +:+ pass +:+ "@" +:+ Host cfg +:+ ":" +:+ itoa (portOr (Port cfg) 5432) +:+ "/" +:+
        DatabaseName cfg +:+ "?sslmode=" +:+ orElse (SSLMode cfg) "disable")
  else if decide (connType = DialectMySQL) then
    if missing then Err "mysql connection config requires host and database" else
    Ok ("mysql", DialectMySQL,
        user +:+ ":" +:+ pass +:+ "@tcp(" +:+ Host cfg +:+ ":" +:+ itoa (portOr (Port cfg) 3306) +:+ ")/" +:+ DatabaseName cfg +:+ "?parseTime=true")
  else if decide (connType = DialectMSSQL) then
    if missing then Err "mssql connection config requires host and database" else
    Ok ("sqlserver", DialectMSSQL,
        sqlserverURL (Username cred) (Password cred) (Host cfg +:+ ":" +:+ itoa (portOr (Port cfg) 1433)) (DatabaseName cfg))
  else if decide (connType = DialectSQLite) then
    if decide (File cfg = "") then Err "sqlite connection config requires file" else Ok ("sqlite", DialectSQLite, File cfg)
  else Err "unknown SQL connection type".

(** ** [Connect]

    [info]: the resolved connection, its type, configuration and credential, if it resolves and
    parses; [open]: whether [sql.Open] accepts the driver and data source name.  A turn of the loop:
    the context is done at its top, the ping answers, the context ends during the wait, the jitter. *)
Inductive ConnectError := ErrResolve | ErrDSN (e : string) | ErrOpen | ErrCancelled.
Record Turn := MkTurn { t_cancelled : bool; t_ping : bool; t_done : bool; t_rnd : float64 }.
(** The outcome, if the loop ended, the delays waited, and whether the pool was closed. *)
Record Connected := MkConnected { outcome : option (res ConnectError (string * string * Dialect)); waits : list Z; closed : bool }.
Fixpoint ping_loop (db : string * string * Dialect) (bo : debug.Backoff) (turns : list Turn) : Connected :=
  match turns with
  | [] => MkConnected None [] false
  | t :: rest =>
      if t_cancelled t then MkConnected (Some (Err ErrCancelled)) [] true
      else if t_ping t then MkConnected (Some (Ok db)) [] false
      else
        let '(bo', d) := debug.Next bo (t_rnd t) in
        if t_done t then MkConnected (Some (Err ErrCancelled)) [] true else
        let r := ping_loop db bo' rest in MkConnected (outcome r) (d :: waits r) (closed r)
  end.
Definition Connect (info : option (Dialect * Config * Credential)) (open : string -> string -> bool) (turns : list Turn) : Connected :=
  match info with
  | None => MkConnected (Some (Err ErrResolve)) [] false
  | Some (ty, cfg, cred) =>
      match dsnFor ty cfg cred with
      | Ok (driver, dialect, dsn) =>
          if open driver dsn then ping_loop (driver, dsn, dialect) (debug.NewBackoff 500000000 30000000000 (of_Z 2)) turns
          else MkConnected (Some (Err ErrOpen)) [] false
      | Err e => MkConnected (Some (Err (ErrDSN e))) [] false
      | Panic => MkConnected (Some Panic) [] false
      end
  end.

(** A pool is handed out open, and one that is not handed out is closed. *)
Lemma ping_loop_closes db bo turns r : outcome (ping_loop db bo turns) = Some r ->
  (r = Ok db /\ closed (ping_loop db bo turns) = false) \/ (r = Err ErrCancelled /\ closed (ping_loop db bo turns) = true).
Proof.
  revert bo. induction turns as [|t turns IH]; intros bo; [done|]. cbn.
  destruct (t_cancelled t); [intros [= <-]; by right|]. destruct (t_ping t); [intros [= <-]; by left|].
  destruct (debug.Next bo (t_rnd t)) as [bo' d]. destruct (t_done t); [intros [= <-]; by right|]. cbn. apply IH.
Qed.
(** What a connection speaks is the dialect of its declared type, Postgres when there is none. *)
Lemma Connect_dialect ty cfg cred open turns driver dsn dialect :
  outcome (Connect (Some (ty, cfg, cred)) open turns) = Some (Ok (driver, dsn, dialect)) ->
  dialect = orElse ty DialectPostgres /\ open driver dsn = true /\ dsnFor ty cfg cred = Ok (driver, dialect, dsn).
Proof.
  unfold Connect. destruct (dsnFor ty cfg cred) as [[[drv dia] ds]|e|] eqn:E; [|done|done].
  destruct (open drv ds) eqn:Eo; [|done]. intros H.
  destruct (ping_loop_closes _ _ _ _ H) as [[[= <- <- <-] _]|[? _]]; [|done]. split; [|done].
  unfold dsnFor in E. unfold orElse at 1.
  destruct (decide (ty = "" \/ ty = DialectPostgres)) as [Ht|Hn].
  { destruct (bool_decide (Host cfg = "") || _); simplify_eq. destruct Ht as [-> | ->]; done. }
  rewrite decide_False by tauto.
  destruct (decide (ty = DialectMySQL)) as [->|]; [destruct (bool_decide (Host cfg = "") || _); by simplify_eq|].
  destruct (decide (ty = DialectMSSQL)) as [->|]; [destruct (bool_decide (Host cfg = "") || _); by simplify_eq|].
  destruct (decide (ty = DialectSQLite)) as [->|]; [|done]. destruct (decide (File cfg = "")); by simplify_eq.
Qed.
End dsn.

(** ** Values of rows *)

(** What [Scan] puts into an [any]. *)
Inductive dbval := DTime (t : Z) | DBytes (b : bytes) | DVal (v : any).
Definition NormalizeValue (formatNano : Z -> string) (v : dbval) : any :=
  match v with
  | DTime t => AStr (formatNano t)
  | DBytes b => AStr (string_of_bytes (EncodeToString b))
  | DVal v => v
  end.
End sqlshared.
