(* ===== verification/SqlSink.v ===== *)
(** * The SQL sink ([engine/nodes/sqlsink])

    Writes the rows of a payload with parameterized statements in one transaction.  The database is
    a world: a statement with its arguments changes it or fails, a transaction works on a copy of
    the committed world that [Commit] installs. *)

From S2P Require Import Prelude Bytes GoStd Float Datagram Execution Value SqlShared.
Import gostd datagram execution value sqlshared.
Local Open Scope Z_scope.

Module sqlsink.

Record Config := MkConfig {
  Mode : string; Table : string; Columns : list string; ConflictColumns : list string; WhereColumns : list string;
  Returning : list string; Statement : string; Params : list string
}.
Definition is_nil {A} (l : list A) : bool := match l with [] => true | _ => false end.
Definition New (cfg : Config) : res string Config :=
  if decide (Mode cfg = "insert" \/ Mode cfg = "upsert") then
    if bool_decide (Table cfg = "") || is_nil (Columns cfg) then Err "table and columns are required" else
    if bool_decide (Mode cfg = "upsert") && is_nil (ConflictColumns cfg) then Err "conflictColumns is required" else Ok cfg
  else if decide (Mode cfg = "update") then
    if bool_decide (Table cfg = "") || is_nil (Columns cfg) || is_nil (WhereColumns cfg)
    then Err "table, columns, and whereColumns are required" else Ok cfg
  else if decide (Mode cfg = "delete") then
    if bool_decide (Table cfg = "") || is_nil (WhereColumns cfg) then Err "table and whereColumns are required" else Ok cfg
  else if decide (Mode cfg = "exec") then
    if decide (Statement cfg = "") then Err "statement is required" else Ok cfg
  else Err "unknown mode".

(** ** Rows *)

Abbreviation row := (list (string * any)).
(** [row[col]] *)
Definition field (r : row) (col : string) : any := default ANil (mget r col).
Definition isArrayPayload (v : any) : bool := match v with AArr _ => true | _ => false end.
Definition batchRows (v : any) : list row :=
  match v with
  | AArr l => omap (fun item => match item with AMap m => Some m | _ => None end) l
  | AMap m => [m]
  | _ => []
  end.

(** ** Statements: text and arguments *)

Definition Join (sep : string) (l : list string) : string :=
  match l with [] => "" | x :: l' => foldl (fun acc s => acc +:+ sep +:+ s) x l' end.
(** [n] placeholders from number [i] on. *)
Definition placeholder_at (d : Dialect) (i : nat) : string := Placeholder d (Z.of_nat i + 1).
Definition upsertClause (dialect : Dialect) (conflictColumns columns : list string) : string :=
  if decide (dialect = DialectMySQL) then
    "ON DUPLICATE KEY UPDATE " +:+ Join ", " (map (fun col => col +:+ " = VALUES(" +:+ col +:+ ")") columns)
  else "ON CONFLICT (" +:+ Join ", " conflictColumns +:+ ") DO UPDATE SET " +:+
       Join ", " (map (fun col => col +:+ " = EXCLUDED." +:+ col) columns).
Definition equals (d : Dialect) (offset : nat) (cols : list string) : list string :=
  imap (fun i col => col +:+ " = " +:+ placeholder_at d (offset + i)) cols.
Definition insertText (cfg : Config) (d : Dialect) (conflictClause : string) : string :=
  "INSERT INTO " +:+ Table cfg +:+ " (" +:+ Join ", " (Columns cfg) +:+ ") VALUES (" +:+
  Join ", " (imap (fun i _ => placeholder_at d i) (Columns cfg)) +:+ ")" +:+
  (if decide (conflictClause = "") then "" else " " +:+ conflictClause).
Definition updateText (cfg : Config) (d : Dialect) : string :=
  "UPDATE " +:+ Table cfg +:+ " SET " +:+ Join ", " (equals d 0 (Columns cfg)) +:+
  " WHERE " +:+ Join " AND " (equals d (length (Columns cfg)) (WhereColumns cfg)).
Definition deleteText (cfg : Config) (d : Dialect) : string :=
  "DELETE FROM " +:+ Table cfg +:+ " WHERE " +:+ Join " AND " (equals d 0 (WhereColumns cfg)).

Section db.
Context {W : Type} (ExecContext : string -> list any -> W -> option W)
        (QueryRow : string -> list any -> W -> option (list dbval * W)) (formatNano : Z -> string).

Definition exec (stmt : string) (args : list any) : sres W string unit := fun w =>
  match ExecContext stmt args w with Some w' => (Ok tt, w') | None => (Err "exec", w) end.
(** [result[col] = v], column by column. *)
Definition returned (cols : list string) (vals : list dbval) : row :=
  fold_left (fun m cv => mset m cv.1 (NormalizeValue formatNano cv.2)) (zip cols vals) [].
Definition execWithOptionalReturning (cfg : Config) (stmt : string) (args : list any) : sres W string (option row) :=
  if is_nil (Returning cfg) then _ ← exec stmt args; mret None else fun w =>
  match QueryRow (stmt +:+ " RETURNING " +:+ Join ", " (Returning cfg)) args w with
  | Some (vals, w') => (Ok (Some (returned (Returning cfg) vals)), w')
  | None => (Err "returning", w)
  end.
Definition execInsertLike (cfg : Config) (d : Dialect) (r : row) (conflictClause : string) : sres W string (option row) :=
  execWithOptionalReturning cfg (insertText cfg d conflictClause) (map (field r) (Columns cfg)).
Definition execUpdate (cfg : Config) (d : Dialect) (r : row) : sres W string (option row) :=
  execWithOptionalReturning cfg (updateText cfg d) (map (field r) (Columns cfg) ++ map (field r) (WhereColumns cfg)).
Definition execDelete (cfg : Config) (d : Dialect) (r : row) : sres W string unit :=
  exec (deleteText cfg d) (map (field r) (WhereColumns cfg)).
Definition execStatement (cfg : Config) (r : row) : sres W string unit :=
  exec (Statement cfg) (map (field r) (Params cfg)).
Definition execRow (cfg : Config) (d : Dialect) (r : row) : sres W string (option row) :=
  if decide (Mode cfg = "insert") then execInsertLike cfg d r ""
  else if decide (Mode cfg = "upsert") then execInsertLike cfg d r (upsertClause d (ConflictColumns cfg) (Columns cfg))
  else if decide (Mode cfg = "update") then execUpdate cfg d r
  else if decide (Mode cfg = "delete") then _ ← execDelete cfg d r; mret None
  else if decide (Mode cfg = "exec") then _ ← execStatement cfg r; mret None
  else of_res (Err "unknown mode").

(** The loop over the rows inside the transaction, with what the rows returned. *)
Fixpoint execRows (cfg : Config) (d : Dialect) (rows : list row) : sres W string (list row) :=
  match rows with
  | [] => mret []
  | r :: rest => g ← execRow cfg d r; gs ← execRows cfg d rest; mret (match g with Some m => m :: gs | None => gs end)
  end.

(** ** The node *)

(** [connectOnce]: the result of the first connection attempt is kept. *)
Definition connect (kept : option (res string Dialect)) (attempt : res string Dialect) : res string Dialect :=
  match kept with Some r => r | None => attempt end.
Definition unsupported (cfg : Config) (d : Dialect) : option string :=
  if bool_decide (Mode cfg = "upsert") && bool_decide (d = DialectMSSQL) then Some "upsert is not yet supported for mssql" else
  if negb (is_nil (Returning cfg)) && (bool_decide (d = DialectMSSQL) || bool_decide (d = DialectMySQL)) then Some "returning is not supported"
  else None.
Definition out_value (generated : list row) (v : any) : any :=
  match generated with
  | [g] => if isArrayPayload v then AMaps [g] else AMap g
  | _ => AMaps generated
  end.
(** [begin_ok], [commit_ok]: whether [BeginTx] and [Commit] succeed; the result carries the
    committed world.  A transaction that does not commit is rolled back. *)
Definition Process (cfg : Config) (conn : res string Dialect) (begin_ok commit_ok : bool) (id : string) (now : Z) (inp : dgram) (w : W)
    : res string (list portDgm) * W :=
  match conn with
  | Err e => (Err e, w)
  | Panic => (Panic, w)
  | Ok d =>
      match unsupported cfg d with Some e => (Err e, w) | None =>
      match batchRows (Value (payload inp)) with
      | [] => (Ok [MkPortDatagram "out" inp], w)
      | rows =>
          if negb begin_ok then (Err "beginning transaction", w) else
          match execRows cfg d rows w with
          | (Ok generated, w') =>
              if negb commit_ok then (Err "committing transaction", w) else
              (Ok [MkPortDatagram "out"
                     (if is_nil generated then inp
                      else NewCaused id now inp (MkSource "" "sql-sink" "" "" "") (MkPayload (out_value generated (Value (payload inp))) None))], w')
          | (Err e, _) => (Err e, w)
          | (Panic, _) => (Panic, w)
          end
      end
      end
  end.
End db.

(** ** What a batch does *)

(** The payload fields a mode binds, in the order of the arguments, each with the placeholder of
    its position. *)
Definition bound_fields (cfg : Config) : list string :=
  if decide (Mode cfg = "insert" \/ Mode cfg = "upsert") then Columns cfg
  else if decide (Mode cfg = "update") then Columns cfg ++ WhereColumns cfg
  else if decide (Mode cfg = "delete") then WhereColumns cfg
  else Params cfg.
Definition binding (cfg : Config) (d : Dialect) : list (string * string) :=
  imap (fun j col => (col, placeholder_at d j)) (bound_fields cfg).
Definition eq_text (b : string * string) : string := b.1 +:+ " = " +:+ b.2.
Definition returningClause (cfg : Config) : string :=
  if is_nil (Returning cfg) then "" else " RETURNING " +:+ Join ", " (Returning cfg).
(** The statement of a mode: a function of configuration and dialect, not of any row. *)
Definition statement (cfg : Config) (d : Dialect) : string :=
  let b := binding cfg d in
  let n := length (Columns cfg) in
  let insert := "INSERT INTO " +:+ Table cfg +:+ " (" +:+ Join ", " (Columns cfg) +:+ ") VALUES (" +:+ Join ", " (map snd b) +:+ ")" in
  let returning := returningClause cfg in
  if decide (Mode cfg = "insert") then insert +:+ returning
  else if decide (Mode cfg = "upsert") then insert +:+ " " +:+ upsertClause d (ConflictColumns cfg) (Columns cfg) +:+ returning
  else if decide (Mode cfg = "update") then
    "UPDATE " +:+ Table cfg +:+ " SET " +:+ Join ", " (map eq_text (take n b)) +:+ " WHERE " +:+ Join " AND " (map eq_text (drop n b)) +:+ returning
  else if decide (Mode cfg = "delete") then "DELETE FROM " +:+ Table cfg +:+ " WHERE " +:+ Join " AND " (map eq_text b)
  else Statement cfg.
Definition queries (cfg : Config) : bool :=
  negb (is_nil (Returning cfg)) && bool_decide (Mode cfg = "insert" \/ Mode cfg = "upsert" \/ Mode cfg = "update").

Lemma imap_snd_binding d (l : list string) :
  imap (fun i _ => placeholder_at d i) l = map snd (imap (fun j col => (col, placeholder_at d j)) l).
Proof. symmetry. exact (fmap_imap _ _ _). Qed.
Lemma equals_binding d (l : list string) o : equals d o l = map eq_text (imap (fun j col => (col, placeholder_at d (o + j))) l).
Proof. symmetry. exact (fmap_imap _ _ _). Qed.

Ltac mode_is Hm := repeat first [rewrite decide_True by (rewrite Hm; auto) | rewrite decide_False by (rewrite Hm; naive_solver)].
Lemma statement_insert cfg d : Mode cfg = "insert" -> statement cfg d = insertText cfg d "" +:+ returningClause cfg.
Proof.
  intros Hm. unfold statement, binding, bound_fields. mode_is Hm. unfold insertText. rewrite imap_snd_binding.
  by rewrite ?str_app_assoc.
Qed.
Lemma upsertClause_nonempty d cc cs : upsertClause d cc cs <> "".
Proof. unfold upsertClause. by destruct (decide _). Qed.
Lemma statement_upsert cfg d : Mode cfg = "upsert" ->
  statement cfg d = insertText cfg d (upsertClause d (ConflictColumns cfg) (Columns cfg)) +:+ returningClause cfg.
Proof.
  intros Hm. unfold statement, binding, bound_fields. mode_is Hm. unfold insertText. rewrite imap_snd_binding.
  rewrite (decide_False (P := upsertClause _ _ _ = "")) by apply upsertClause_nonempty. by rewrite ?str_app_assoc.
Qed.
Lemma statement_update cfg d : Mode cfg = "update" -> statement cfg d = updateText cfg d +:+ returningClause cfg.
Proof.
  intros Hm. unfold statement, binding, bound_fields. mode_is Hm. unfold updateText. rewrite !equals_binding, imap_app.
  rewrite take_app_length', drop_app_length' by (by rewrite length_imap). by rewrite ?str_app_assoc.
Qed.
Lemma statement_delete cfg d : Mode cfg = "delete" -> statement cfg d = deleteText cfg d.
Proof.
  intros Hm. unfold statement, binding, bound_fields. mode_is Hm. unfold deleteText. by rewrite equals_binding.
Qed.
Lemma statement_exec cfg d : Mode cfg = "exec" -> statement cfg d = Statement cfg.
Proof. intros Hm. unfold statement. by mode_is Hm. Qed.

Section batch.
Context {W : Type} (ExecContext : string -> list any -> W -> option W)
        (QueryRow : string -> list any -> W -> option (list dbval * W)) (formatNano : Z -> string).
(** One row: the statement with the row's fields as arguments. *)
Definition apply_row (cfg : Config) (d : Dialect) (r : row) (w : W) : option (option row * W) :=
  let args := map (field r) (bound_fields cfg) in
  if queries cfg then '(vals, w') ← QueryRow (statement cfg d) args w; Some (Some (returned formatNano (Returning cfg) vals), w')
  else w' ← ExecContext (statement cfg d) args w; Some (None, w').
Fixpoint apply_rows (cfg : Config) (d : Dialect) (rows : list row) (w : W) : option W :=
  match rows with [] => Some w | r :: rest => '(_, w') ← apply_row cfg d r w; apply_rows cfg d rest w' end.

Abbreviation exec_row := (execRow ExecContext QueryRow formatNano).
(** A database step and the code that makes it. *)
Definition performs (m : sres W string (option row)) (o : option (option row * W)) (w : W) : Prop :=
  match o with Some (g, w') => m w = (Ok g, w') | None => exists e w', m w = (Err e, w') end.
Lemma exec_performs stmt args w :
  performs (_ ← exec ExecContext stmt args; mret None) (w' ← ExecContext stmt args w; Some (None, w')) w.
Proof. unfold performs, exec, mbind, sres_bind, option_bind. destruct (ExecContext stmt args w); [done|]. by eauto. Qed.
Lemma returning_performs cfg stmt text args w : text = stmt +:+ returningClause cfg ->
  performs (execWithOptionalReturning ExecContext QueryRow formatNano cfg stmt args)
    (if negb (is_nil (Returning cfg)) then '(vals, w') ← QueryRow text args w; Some (Some (returned formatNano (Returning cfg) vals), w')
     else w' ← ExecContext text args w; Some (None, w')) w.
Proof.
  intros ->. unfold execWithOptionalReturning, returningClause. destruct (is_nil (Returning cfg)); cbn [negb].
  - rewrite str_app_nil. apply exec_performs.
  - unfold performs, mbind, option_bind. destruct (QueryRow _ args w) as [[vals w']|]; [done|]. by eauto.
Qed.
Lemma queries_mode cfg : (Mode cfg = "insert" \/ Mode cfg = "upsert" \/ Mode cfg = "update") -> queries cfg = negb (is_nil (Returning cfg)).
Proof. intros H. unfold queries. rewrite bool_decide_eq_true_2 by done. apply andb_true_r. Qed.
Lemma not_queries_mode cfg : (Mode cfg = "delete" \/ Mode cfg = "exec") -> queries cfg = false.
Proof. intros H. unfold queries. rewrite bool_decide_eq_false_2; [apply andb_false_r|]. destruct H as [-> | ->]; naive_solver. Qed.

Lemma execRow_performs cfg d r w : New cfg = Ok cfg -> performs (exec_row cfg d r) (apply_row cfg d r w) w.
Proof.
  intros HN. unfold apply_row, execRow.
  destruct (decide (Mode cfg = "insert")) as [Hm|Hm1].
  { rewrite queries_mode by auto. unfold bound_fields. mode_is Hm. by apply returning_performs, statement_insert. }
  destruct (decide (Mode cfg = "upsert")) as [Hm|Hm2].
  { rewrite queries_mode by auto. unfold bound_fields. mode_is Hm. by apply returning_performs, statement_upsert. }
  destruct (decide (Mode cfg = "update")) as [Hm|Hm3].
  { rewrite queries_mode by auto. unfold bound_fields. mode_is Hm. rewrite map_app. by apply returning_performs, statement_update. }
  destruct (decide (Mode cfg = "delete")) as [Hm|Hm4].
  { rewrite not_queries_mode, statement_delete by auto. unfold bound_fields. mode_is Hm. apply exec_performs. }
  destruct (decide (Mode cfg = "exec")) as [Hm|Hm5].
  { rewrite not_queries_mode, statement_exec by auto. unfold bound_fields. mode_is Hm. apply exec_performs. }
  unfold New in HN. rewrite !decide_False in HN by naive_solver. done.
Qed.
Lemma execRows_performs cfg d rows : New cfg = Ok cfg -> forall w,
  match apply_rows cfg d rows w with
  | Some w' => exists gs, execRows ExecContext QueryRow formatNano cfg d rows w = (Ok gs, w')
  | None => exists e w', execRows ExecContext QueryRow formatNano cfg d rows w = (Err e, w')
  end.
Proof.
  intros HN. induction rows as [|r rows IH]; intros w; cbn [apply_rows execRows]; [by exists []|].
  pose proof (execRow_performs cfg d r w HN) as Hr. unfold performs in Hr.
  unfold mbind, option_bind, sres_bind in *.
  destruct (apply_row cfg d r w) as [[g w1]|].
  - rewrite Hr. specialize (IH w1). destruct (apply_rows cfg d rows w1) as [w2|].
    + destruct IH as (gs & ->). eauto.
    + destruct IH as (e & w2 & ->). eauto.
  - destruct Hr as (e & w1 & ->). eauto.
Qed.

(** [C32] a batch is written completely or not at all, by one parameterized statement.  The text
    sent to the database is a function of the configuration and the dialect, whatever the payload
    holds: payload values travel only as arguments, the argument at a position being the field
    whose placeholder has that position's number.  For a payload with rows, the committed database
    is the one in which that statement was applied to every row in order; if a statement, the
    begin or the commit fails, the node returns an error and the database is as before. *)
Theorem sink_all_or_nothing cfg d begin_ok commit_ok id now inp w :
  New cfg = Ok cfg -> unsupported cfg d = None -> batchRows (Value (payload inp)) <> [] ->
  let p := Process ExecContext QueryRow formatNano cfg (Ok d) begin_ok commit_ok id now inp w in
  match apply_rows cfg d (batchRows (Value (payload inp))) w with
  | Some w' => if begin_ok && commit_ok then exists o, p = (Ok [MkPortDatagram "out" o], w') else exists e, p = (Err e, w)
  | None => exists e, p = (Err e, w)
  end.
Proof.
  intros HN Hu Hr p. unfold p, Process. rewrite Hu.
  destruct (batchRows (Value (payload inp))) as [|r0 rows0] eqn:Er; [done|]. rewrite <- Er in *. clear Er r0 rows0.
  set (rows := batchRows (Value (payload inp))) in *.
  pose proof (execRows_performs cfg d rows HN w) as H. destruct begin_ok; cbn [negb andb].
  2: { destruct (apply_rows cfg d rows w); eauto. }
  destruct (apply_rows cfg d rows w) as [w'|].
  - destruct H as (gs & ->). destruct commit_ok; cbn [negb]; eauto.
  - destruct H as (e & w' & ->). eauto.
Qed.
End batch.

(** A toy table: rows of argument lists, keyed by their first argument. *)
Definition toy_exec (stmt : string) (args : list any) (w : list (string * list any)) : option (list (string * list any)) :=
  match args with AStr "bad" :: _ => None | _ => Some (w ++ [(stmt, args)]) end.
Definition toy_query (stmt : string) (args : list any) (w : list (string * list any)) : option (list dbval * list (string * list any)) := None.
Definition demo_cfg : Config := MkConfig "update" "t" ["a"; "b"] [] ["id"] [] "" [].
Definition demo_in : dgram := datagram.New "d" 0 (MkSource "" "" "" "" "")
  (MkPayload (AArr [AMap [("a", AStr "x'; DROP TABLE t; --"); ("id", AInt 1)]; AInt 7; AMap [("a", AStr "y"); ("id", AInt 2)]]) None).
Definition demo_stmt : string := "UPDATE t SET a = $1, b = $2 WHERE id = $3".
Lemma sink_all_or_nothing_witness :
  (exists o, Process toy_exec toy_query (fun _ => "") demo_cfg (Ok DialectPostgres) true true "d2" 1 demo_in [] =
     (Ok [MkPortDatagram "out" o],
      [(demo_stmt, [AStr "x'; DROP TABLE t; --"; ANil; AInt 1]); (demo_stmt, [AStr "y"; ANil; AInt 2])])) /\
  (exists e, Process toy_exec toy_query (fun _ => "") demo_cfg (Ok DialectPostgres) true false "d2" 1 demo_in [] = (Err e, [])).
Proof.
  split.
  - exact (sink_all_or_nothing toy_exec toy_query (fun _ => "") demo_cfg DialectPostgres true true "d2" 1 demo_in []
             ltac:(vm_compute; reflexivity) ltac:(vm_compute; reflexivity) ltac:(vm_compute; discriminate)).
  - exact (sink_all_or_nothing toy_exec toy_query (fun _ => "") demo_cfg DialectPostgres true false "d2" 1 demo_in []
             ltac:(vm_compute; reflexivity) ltac:(vm_compute; reflexivity) ltac:(vm_compute; discriminate)).
Defined.

(** A payload that is neither an object nor an array of them writes nothing and is passed on, in
    mode [exec] too. *)
Lemma exec_needs_an_object cfg (W : Type) ex q f d b c id now inp (w : W) :
  unsupported cfg d = None -> batchRows (Value (payload inp)) = [] ->
  Process ex q f cfg (Ok d) b c id now inp w = (Ok [MkPortDatagram "out" inp], w).
Proof. intros Hu Hr. unfold Process. by rewrite Hu, Hr. Qed.
End sqlsink.
