(* ===== verification/SqlSource.v ===== *)
(** * The SQL source ([engine/nodes/sqlsource])

    Runs a query once or periodically and emits a datagram per row; with an incremental column it
    remembers the last value it saw and asks for greater ones.  The database is an argument: what a
    query text with its arguments returns at the time of a poll. *)

From stdpp Require Import sorting.
From S2P Require Import Prelude Bytes GoStd Float Datagram Execution Value SqlShared.
Import gostd datagram execution value sqlshared.
Local Open Scope Z_scope.

Module sqlsource.

Record Config := MkConfig { Mode : string; Query : string; IntervalMs : Z; IncrementalColumn : string }.
Definition New (cfg : Config) : res string Config :=
  if decide (Query cfg = "") then Err "query is required"
  else if decide (Mode cfg = "once") then Ok cfg
  else if decide (Mode cfg = "periodic") then
    if IntervalMs cfg <=? 0 then Err "intervalMs must be positive" else Ok cfg
  else Err "mode must be once or periodic".

(** [n.watermark]; [ANil] before the first row. *)
Definition queryText (cfg : Config) (d : Dialect) (watermark : any) : string * list any :=
  let c := IncrementalColumn cfg in
  if decide (c = "") then (Query cfg, []) else
  match watermark with
  | ANil => (Query cfg +:+ " ORDER BY " +:+ c +:+ " ASC", [])
  | wm => (Query cfg +:+ " WHERE " +:+ c +:+ " > " +:+ Placeholder d 1 +:+ " ORDER BY " +:+ c +:+ " ASC", [wm])
  end.

(** The rows of a result: scanned values, or an error of [Scan]; and the error of [rows.Err]. *)
Record Result := MkResult { r_cols : list string; r_rows : list (option (list dbval)); r_err : option string }.

Section source.
Context (formatNano : Z -> string) (ids : nat -> string) (clock : nat -> Z).
(** [rec[c] = NormalizeValue(vals[i])], column by column. *)
Definition record (cols : list string) (vals : list dbval) : list (string * any) :=
  fold_left (fun m cv => mset m cv.1 (NormalizeValue formatNano cv.2)) (zip cols vals) [].

(** The node: its watermark and what it emitted, with the outcome of each call of [emit]. *)
Record node := MkNode { watermark : any; emitted : list dgram; emits : list bool }.
Definition advance (cfg : Config) (rec : list (string * any)) (wm : any) : any :=
  if decide (IncrementalColumn cfg = "") then wm else
  match mget rec (IncrementalColumn cfg) with Some v => v | None => wm end.
Definition emit (n : node) (rec : list (string * any)) : res string node :=
  let k := length (emitted n) in
  let d := datagram.New (ids k) (clock k) (MkSource "" "sql-source" "" "" "") (MkPayload (AMap rec) None) in
  match emits n with
  | false :: _ => Err "emit"
  | _ :: rest => Ok (MkNode (watermark n) (emitted n ++ [d]) rest)
  | [] => Ok (MkNode (watermark n) (emitted n ++ [d]) [])
  end.
(** The loop over the rows; the watermark moves before the row is emitted and stays moved. *)
Fixpoint scanRows (cfg : Config) (cols : list string) (rows : list (option (list dbval))) (n : node) : node * res string unit :=
  match rows with
  | [] => (n, Ok tt)
  | None :: _ => (n, Err "scanning row")
  | Some vals :: rest =>
      let rec := record cols vals in
      let n := MkNode (advance cfg rec (watermark n)) (emitted n) (emits n) in
      match emit n rec with
      | Ok n' => scanRows cfg cols rest n'
      | Err e => (n, Err e)
      | Panic => (n, Panic)
      end
  end.
Definition runQuery (cfg : Config) (d : Dialect) (db : string -> list any -> res string Result) (n : node) : node * res string unit :=
  let '(q, args) := queryText cfg d (watermark n) in
  match db q args with
  | Ok r =>
      match scanRows cfg (r_cols r) (r_rows r) n with
      | (n', Ok _) => (n', match r_err r with Some e => Err e | None => Ok tt end)
      | other => other
      end
  | Err e => (n, Err e)
  | Panic => (n, Panic)
  end.
(** [Run] after the connection: one query, then one per tick; [dbs] is the database at each poll.
    The context ends when there are no more. *)
Fixpoint polls (cfg : Config) (d : Dialect) (dbs : list (string -> list any -> res string Result)) (n : node) : node * res string unit :=
  match dbs with
  | [] => (n, Ok tt)
  | db :: rest =>
      match runQuery cfg d db n with
      | (n', Ok _) => if decide (Mode cfg = "once") then (n', Ok tt) else polls cfg d rest n'
      | other => other
      end
  end.
End source.

(** ** Incremental polling *)

Section incremental.
Context (formatNano : Z -> string) (ids : nat -> string) (clock : nat -> Z) (cfg : Config) (d : Dialect)
        (cols : list string) (wf : list dbval -> Prop) (key : list dbval -> Z) (answer : list (list dbval) -> string -> list any -> res string Result).
Abbreviation rowval r := (AMap (record formatNano cols r)).
Definition above (z : Z) (r : list dbval) : bool := z <? key r.
(** What the database promises for a table: the query with the ordering returns its rows, in the
    order of the column; with the condition, those whose column is greater. *)
Context (Hperiodic : Mode cfg = "periodic") (Hcol : IncrementalColumn cfg <> "")
        (Hkey : forall r, wf r -> mget (record formatNano cols r) (IncrementalColumn cfg) = Some (AInt (key r)))
        (Hfull : forall T, answer T (Query cfg +:+ " ORDER BY " +:+ IncrementalColumn cfg +:+ " ASC") [] = Ok (MkResult cols (map Some T) None))
        (Habove : forall T z, answer T (Query cfg +:+ " WHERE " +:+ IncrementalColumn cfg +:+ " > " +:+ Placeholder d 1 +:+ " ORDER BY " +:+ IncrementalColumn cfg +:+ " ASC") [AInt z]
           = Ok (MkResult cols (map Some (List.filter (above z) T)) None)).

Definition values (n : node) : list any := map (fun x => Value (payload x)) (emitted n).
Definition mark (T : list (list dbval)) : any := match last T with Some r => AInt (key r) | None => ANil end.
Lemma scanRows_all rows : Forall wf rows -> forall n, emits n = [] ->
  exists n', scanRows formatNano ids clock cfg cols (map Some rows) n = (n', Ok tt) /\ emits n' = [] /\
    values n' = values n ++ map (fun r => rowval r) rows /\
    watermark n' = match last rows with Some r => AInt (key r) | None => watermark n end.
Proof.
  induction 1 as [|r rows Hr _ IH]; intros n He.
  { exists n. split_and!; [done|done|by rewrite app_nil_r|done]. }
  cbn [map scanRows]. unfold emit. cbn [emits emitted watermark]. rewrite He.
  unfold advance at 1. rewrite decide_False, Hkey by done.
  match goal with |- context [scanRows _ _ _ _ _ _ ?m] => destruct (IH m eq_refl) as (n' & H1 & H2 & H3 & H4) end.
  exists n'. split_and!; [exact H1|done| |].
  - rewrite H3. unfold values. cbn [emitted]. rewrite map_app, <- app_assoc. done.
  - rewrite H4. cbn [watermark]. destruct rows as [|r' rows]; [done|].
    rewrite last_cons_cons. destruct (last (r' :: rows)) eqn:E; [done|by apply last_None in E].
Qed.
(** Tables that grow at the end, their column strictly increasing. *)
Fixpoint growing (T0 : list (list dbval)) (Ts : list (list (list dbval))) : Prop :=
  match Ts with
  | [] => True
  | T :: rest => Forall wf T /\ (exists new, T = T0 ++ new) /\ StronglySorted (fun a b => key a < key b) T /\ growing T rest
  end.
Lemma filter_above T0 r0 new : last T0 = Some r0 -> StronglySorted (fun a b => key a < key b) (T0 ++ new) ->
  List.filter (above (key r0)) (T0 ++ new) = new.
Proof.
  intros Hl Hs. apply last_Some in Hl as [T1 ->]. rewrite <- app_assoc in *.
  induction T1 as [|a T1 IH]; cbn in *.
  - apply StronglySorted_inv in Hs as [_ Hs]. unfold above at 1. rewrite Z.ltb_irrefl.
    induction Hs as [|b new Hb _ IH]; [done|]. cbn. unfold above at 1. apply Z.ltb_lt in Hb. rewrite Hb. by f_equal.
  - apply StronglySorted_inv in Hs as [Hs Ha]. rewrite Forall_forall in Ha.
    assert (key a < key r0) as Hlt by (apply Ha; set_solver).
    unfold above at 1. destruct (Z.ltb_spec (key r0) (key a)); [lia|]. by apply IH.
Qed.
Lemma poll_one T0 T n : Forall wf T -> emits n = [] -> values n = map (fun r => rowval r) T0 -> watermark n = mark T0 ->
  (exists new, T = T0 ++ new) -> StronglySorted (fun a b => key a < key b) T ->
  exists n', runQuery formatNano ids clock cfg d (answer T) n = (n', Ok tt) /\ emits n' = [] /\
    values n' = map (fun r => rowval r) T /\ watermark n' = mark T.
Proof.
  intros HT He Hv Hw [new ->] Hs. apply Forall_app in HT as [_ HT]. unfold runQuery, queryText. rewrite decide_False, Hw by done. unfold mark at 1.
  destruct (last T0) as [r0|] eqn:El.
  - cbv beta iota zeta. assert (mark T0 = AInt (key r0)) as -> by (unfold mark; by rewrite El). rewrite Habove. cbn [r_cols r_rows r_err]. rewrite (filter_above T0 r0 new El Hs).
    destruct (scanRows_all new HT n He) as (n' & -> & H2 & H3 & H4). exists n'. split_and!; [done|done| |].
    + by rewrite H3, Hv, map_app.
    + rewrite H4, Hw. unfold mark. rewrite last_app. destruct (last new); [done|]. by rewrite El.
  - apply last_None in El as ->. cbn [app]. cbv beta iota zeta. rewrite Hfull. cbn [r_cols r_rows r_err].
    destruct (scanRows_all new HT n He) as (n' & -> & H2 & H3 & H4). exists n'. split_and!; [done|done| |].
    + by rewrite H3, Hv.
    + rewrite H4, Hw. unfold mark. by destruct (last new).
Qed.

(** With an incremental column that only grows, every row is emitted exactly once and in order,
    whatever the instants of the polls: after polls of a table that is only appended to, what was
    emitted is the table at the last poll. *)
Theorem incremental_once Ts : growing [] Ts ->
  exists n', polls formatNano ids clock cfg d (map answer Ts) (MkNode ANil [] []) = (n', Ok tt) /\
    values n' = map (fun r => rowval r) (default [] (last Ts)).
Proof.
  assert (forall T0 n, emits n = [] -> values n = map (fun r => rowval r) T0 -> watermark n = mark T0 -> growing T0 Ts ->
    exists n', polls formatNano ids clock cfg d (map answer Ts) n = (n', Ok tt) /\ values n' = map (fun r => rowval r) (default T0 (last Ts))) as H.
  { induction Ts as [|T Ts IH]; intros T0 n He Hv Hw Hg; [by exists n|]. destruct Hg as (HT & Hnew & Hs & Hg).
    destruct (poll_one T0 T n HT He Hv Hw Hnew Hs) as (n1 & H1 & H2 & H3 & H4). cbn [map polls]. rewrite H1.
    rewrite decide_False by congruence. destruct (IH T n1 H2 H3 H4 Hg) as (n2 & -> & H5). exists n2. split; [done|].
    rewrite H5. destruct Ts as [|T' Ts]; [done|]. rewrite last_cons_cons. by destruct (last (T' :: Ts)) eqn:E; [|apply last_None in E]. }
  intros Hg. by apply (H [] (MkNode ANil [] [])).
Qed.
End incremental.

(** *** Witness and limits *)

(** A table with one integer column [id], queried with the text of the tests. *)
Definition id_key (r : list dbval) : Z := match r with DVal (AInt z) :: _ => z | _ => 0 end.
Definition id_cfg : Config := MkConfig "periodic" "SELECT id FROM t" 100 "id".
Definition id_row (z : Z) : list dbval := [DVal (AInt z)].
Definition id_answer (T : list (list dbval)) (q : string) (args : list any) : res string Result :=
  match args with
  | [AInt z] => Ok (MkResult ["id"] (map Some (List.filter (above id_key z) T)) None)
  | [] => Ok (MkResult ["id"] (map Some T) None)
  | _ => Err "arguments"
  end.
Lemma incremental_once_witness : exists n',
  polls (fun _ => "") (fun _ => "") (fun _ => 0) id_cfg DialectPostgres
    (map id_answer [[]; [id_row 1; id_row 3]; [id_row 1; id_row 3]; [id_row 1; id_row 3; id_row 4]]) (MkNode ANil [] []) = (n', Ok tt) /\
  values n' = [AMap [("id", AInt 1)]; AMap [("id", AInt 3)]; AMap [("id", AInt 4)]].
Proof.
  apply (incremental_once (fun _ => "") (fun _ => "") (fun _ => 0) id_cfg DialectPostgres ["id"] (fun r => exists z, r = id_row z) id_key id_answer eq_refl).
  - discriminate.
  - intros r [z ->]. reflexivity.
  - reflexivity.
  - reflexivity.
  - cbn. split_and!; try exact I; try (repeat constructor; cbn; try lia; eauto); first [by exists []|by exists [id_row 1; id_row 3]|by exists [id_row 4]].
Defined.
(** A row inserted later with the value of the watermark is never asked for. *)
Lemma equal_value_missed :
  map (fun x => Value (payload x)) (emitted (fst (polls (fun _ => "") (fun _ => "") (fun _ => 0) id_cfg DialectPostgres
    (map id_answer [[id_row 1; id_row 2]; [id_row 1; id_row 2; id_row 2]]) (MkNode ANil [] [])))) = [AMap [("id", AInt 1)]; AMap [("id", AInt 2)]].
Proof. reflexivity. Qed.
(** The watermark is the normalized value: for a column scanned as bytes the next query compares
    with the base64 text of the last value. *)
Lemma watermark_normalized f ids clock b : watermark (fst (scanRows f ids clock id_cfg ["id"] [Some [DBytes b]] (MkNode ANil [] []))) =
  AStr (string_of_bytes (EncodeToString b)).
Proof. reflexivity. Qed.
(** A row whose emission fails is behind the watermark. *)
Lemma failed_emission_skipped :
  let n := fst (scanRows (fun _ => "") (fun _ => "") (fun _ => 0) id_cfg ["id"] [Some (id_row 5)] (MkNode ANil [] [false])) in
  emitted n = [] /\ watermark n = AInt 5.
Proof. done. Qed.
End sqlsource.
