(* ===== verification/Expr.v ===== *)
(** * Expressions ([engine/expr])

    What the package does around the script engine: recognising expressions in configuration
    values, resolving them through nested values, rendering templates, bounding a run, and the
    function library bound into scripts.  The engine itself is an argument: [EvalCode] takes a source
    text and may change a world (the context stores a script can write).  Texts are byte strings;
    the delimiters and the white space of the patterns are ASCII, so matching bytes and matching
    characters agree. *)

From S2P Require Import Prelude Bytes GoStd Float Datagram Execution Value.
Import gostd float value.
Local Open Scope Z_scope.

Module expr.

(** ** Patterns *)

Definition is_byte (n : nat) (c : Ascii.ascii) : bool := (Ascii.nat_of_ascii c =? n)%nat.
(** [\s]: tab, newline, form feed, carriage return, space. *)
Definition is_space (c : Ascii.ascii) : bool := is_byte 9 c || is_byte 10 c || is_byte 12 c || is_byte 13 c || is_byte 32 c.
Definition is_newline : Ascii.ascii -> bool := is_byte 10.
Definition is_open : Ascii.ascii -> bool := is_byte 123.
Definition is_close : Ascii.ascii -> bool := is_byte 125.

(** [exprPattern]: the text between the prefix and the last two characters. *)
Fixpoint cut_close (s : string) : option string :=
  match s with
  | String c1 (String c2 EmptyString) => if is_close c1 && is_close c2 then Some EmptyString else None
  | String c s' => String c <$> cut_close s'
  | EmptyString => None
  end.
Definition exprPattern (s : string) : option string :=
  match CutPrefix "={{" s with Some r => cut_close r | None => None end.

(** [templatePlaceholder]: two opening braces, white space, the shortest non-empty text without a
    newline that white space and two closing braces follow.  The white space is taken as long as
    possible and given back when the rest does not match.  Each result is the matched text, the
    group, and what follows. *)
Fixpoint close (s : string) : option (string * string) :=
  match s with
  | String c s' =>
      if is_space c then '(m, r) ← close s'; Some (String c m, r)
      else if is_close c then match s' with String c' r => if is_close c' then Some (String c (String c' EmptyString), r) else None | _ => None end
      else None
  | EmptyString => None
  end.
Fixpoint shortest (s : string) : option (string * string * string) :=
  match s with
  | String c s' =>
      if is_newline c then None else
      match close s' with
      | Some (m, r) => Some (String c m, String c EmptyString, r)
      | None => '(m, g, r) ← shortest s'; Some (String c m, String c g, r)
      end
  | EmptyString => None
  end.
Fixpoint spaced (s : string) : option (string * string * string) :=
  match s with
  | String c s' =>
      if is_space c then
        match spaced s' with Some (m, g, r) => Some (String c m, g, r) | None => shortest s end
      else shortest s
  | EmptyString => None
  end.
Definition templatePlaceholder (s : string) : option (string * string * string) :=
  match s with
  | String c1 (String c2 r) =>
      if is_open c1 && is_open c2 then '(m, g, rest) ← spaced r; Some (String c1 (String c2 m), g, rest) else None
  | _ => None
  end.

(** ** Resolution and templates *)

Section eval.
Context {W E : Type} (EvalCode : string -> W -> (E + any) * W) (TrimSpace : string -> string)
        (Marshal : any -> option string) (Sprint : any -> string) (Unmarshal : string -> option any) (bad_literal : E).

Definition Eval (code : string) : sres W E any := fun w =>
  match EvalCode code w with (inr v, w') => (Ok v, w') | (inl e, w') => (Err e, w') end.
Definition isExpressionString (s : string) : option string := TrimSpace <$> exprPattern s.
Definition IsExpression (raw : string) : option string :=
  match Unmarshal raw with Some (AStr s) => isExpressionString s | _ => None end.
Definition ResolveValue (raw : string) : sres W E any :=
  match IsExpression raw with
  | Some code => Eval code
  | None => match Unmarshal raw with Some v => mret v | None => of_res (Err bad_literal) end
  end.
Fixpoint resolveDeepValue (v : any) : sres W E any :=
  match v with
  | AStr s => match isExpressionString s with Some code => Eval code | None => mret v end
  | AMap m =>
      out ← (fix go (m : list (string * any)) : sres W E (list (string * any)) :=
               match m with
               | [] => mret []
               | (k, x) :: m' => y ← resolveDeepValue x; ys ← go m'; mret ((k, y) :: ys)
               end) m;
      mret (AMap out)
  | AArr l =>
      out ← (fix go (l : list any) : sres W E (list any) :=
               match l with [] => mret [] | x :: l' => y ← resolveDeepValue x; ys ← go l'; mret (y :: ys) end) l;
      mret (AArr out)
  | _ => mret v
  end.
Definition ResolveDeep (raw : string) : sres W E any :=
  match Unmarshal raw with Some v => resolveDeepValue v | None => of_res (Err bad_literal) end.

Definition stringify (v : any) : string :=
  match v with
  | ANil => ""
  | AStr s => s
  | _ => match Marshal v with Some b => b | None => Sprint v end
  end.

(** The function [ReplaceAllStringFunc] calls on a match, with [firstErr] and the world. *)
Definition replace_one (m : string) (firstErr : option E) (w : W) : string * option E * W :=
  match firstErr with
  | Some _ => (m, firstErr, w)
  | None =>
      match templatePlaceholder m with
      | Some (_, sub, _) =>
          match EvalCode sub w with
          | (inr v, w') => (stringify v, None, w')
          | (inl e, w') => (m, Some e, w')
          end
      | None => (m, None, w)
      end
  end.
(** [ReplaceAllStringFunc]: leftmost matches, left to right.  Every turn takes at least one byte, so
    the length of the text is enough fuel. *)
Fixpoint replaceAll (fuel : nat) (s : string) (firstErr : option E) (w : W) : string * option E * W :=
  match fuel, s with
  | S fuel, String c s' =>
      match templatePlaceholder s with
      | Some (m, _, rest) =>
          let '(x, firstErr, w) := replace_one m firstErr w in
          let '(y, firstErr, w) := replaceAll fuel rest firstErr w in (x +:+ y, firstErr, w)
      | None => let '(y, firstErr, w) := replaceAll fuel s' firstErr w in (String c y, firstErr, w)
      end
  | _, _ => (s, firstErr, w)
  end.
Definition RenderTemplate (tpl : string) : sres W E string := fun w =>
  let '(result, firstErr, w') := replaceAll (String.length tpl) tpl None w in
  match firstErr with Some e => (Err e, w') | None => (Ok result, w') end.
End eval.

(** ** Templates are spliced *)

(** A template as its author sees it: literal text, and placeholders with the white space around
    their expression. *)
Inductive segment := Lit (s : string) | Code (pre code post : string).
Definition print1 (g : segment) : string :=
  match g with Lit s => s | Code pre code post => "{{" +:+ pre +:+ code +:+ post +:+ "}}" end.
Definition print (gs : list segment) : string := foldr (fun g t => print1 g +:+ t) "" gs.

Fixpoint all (P : Ascii.ascii -> bool) (s : string) : bool :=
  match s with String c s' => P c && all P s' | EmptyString => true end.
Fixpoint ends_plain (s : string) : bool :=
  match s with String c EmptyString => negb (is_space c) | String _ s' => ends_plain s' | EmptyString => false end.
Definition starts_plain (s : string) : bool := match s with String c _ => negb (is_space c) | EmptyString => false end.
Definition segment_ok (g : segment) : bool :=
  match g with
  | Lit s => all (fun c => negb (is_open c)) s
  | Code pre code post =>
      all is_space pre && all is_space post && starts_plain code && ends_plain code &&
      all (fun c => negb (is_close c) && negb (is_newline c)) code
  end.

Lemma close_not_space c : is_close c = true -> is_space c = false.
Proof. unfold is_close, is_space, is_byte. intros ->%Nat.eqb_eq. done. Qed.
Lemma close_spaces post rest : all is_space post = true -> close (post +:+ "}}" +:+ rest) = Some (post +:+ "}}", rest).
Proof.
  induction post as [|c post IH]; intros H; [done|]. apply andb_true_iff in H as [Hc H].
  change (close (String c (post +:+ "}}" +:+ rest)) = Some (String c (post +:+ "}}"), rest)). cbn [close]. by rewrite Hc, IH.
Qed.
Lemma close_code code t : ends_plain code = true -> all (fun c => negb (is_close c) && negb (is_newline c)) code = true ->
  close (code +:+ t) = None.
Proof.
  induction code as [|c code IH]; intros He Ha; [done|]. apply andb_true_iff in Ha as [[Hc _]%andb_true_iff Ha].
  change (close (String c (code +:+ t)) = None). cbn [close]. apply negb_true_iff in Hc. rewrite Hc.
  destruct (is_space c) eqn:Es; [|done]. destruct code as [|c' code]; [cbn in He; by rewrite Es in He|]. by rewrite IH.
Qed.
Lemma shortest_code code post rest : all is_space post = true -> ends_plain code = true ->
  all (fun c => negb (is_close c) && negb (is_newline c)) code = true ->
  shortest (code +:+ post +:+ "}}" +:+ rest) = Some (code +:+ post +:+ "}}", code, rest).
Proof.
  intros Hp. induction code as [|c code IH]; intros He Ha; [done|]. apply andb_true_iff in Ha as [[_ Hn]%andb_true_iff Ha].
  change (shortest (String c (code +:+ post +:+ "}}" +:+ rest)) = Some (String c (code +:+ post +:+ "}}"), String c code, rest)).
  cbn [shortest]. apply negb_true_iff in Hn. rewrite Hn. destruct code as [|c' code].
  - change ("" +:+ ?x) with x. by rewrite close_spaces.
  - rewrite (close_code (String c' code)) by done. by rewrite IH.
Qed.
Lemma placeholder_code pre code post rest : segment_ok (Code pre code post) = true ->
  templatePlaceholder (print1 (Code pre code post) +:+ rest) = Some (print1 (Code pre code post), code, rest).
Proof.
  cbn [segment_ok]. rewrite !andb_true_iff. intros ((((Hpre & Hpost) & Hs) & He) & Ha). unfold print1.
  assert (spaced (pre +:+ code +:+ post +:+ "}}" +:+ rest) = Some (pre +:+ code +:+ post +:+ "}}", code, rest)) as H.
  { induction pre as [|c pre IH].
    - change ("" +:+ ?x) with x. rewrite <- (shortest_code code post rest) by done.
      destruct code as [|c code]; [done|]. cbn in Hs. apply negb_true_iff in Hs.
      change (String c code +:+ ?x) with (String c (code +:+ x)). cbn [spaced]. by rewrite Hs.
    - apply andb_true_iff in Hpre as [Hc Hpre].
      change (spaced (String c (pre +:+ code +:+ post +:+ "}}" +:+ rest)) = Some (String c (pre +:+ code +:+ post +:+ "}}"), code, rest)).
      cbn [spaced]. by rewrite Hc, IH. }
  rewrite !str_app_assoc. change (templatePlaceholder ("{{" +:+ ?x)) with ('(m, g, r) ← spaced x; Some ("{{" +:+ m, g, r)).
  by rewrite H.
Qed.

Section splice.
Context {W E : Type} (EvalCode : string -> W -> (E + any) * W) (Marshal : any -> option string) (Sprint : any -> string).
Abbreviation replace_all := (replaceAll EvalCode Marshal Sprint).
(** The reference: literals verbatim, expressions evaluated left to right and their text put in
    place; the first error ends it. *)
Fixpoint splice (gs : list segment) : sres W E string :=
  match gs with
  | [] => mret ""
  | Lit s :: rest => t ← splice rest; mret (s +:+ t)
  | Code _ code _ :: rest => v ← Eval EvalCode code; t ← splice rest; mret (stringify Marshal Sprint v +:+ t)
  end.

(** After an error nothing is evaluated. *)
Lemma replaceAll_failed e w : forall fuel s, exists y, replace_all fuel s (Some e) w = (y, Some e, w).
Proof.
  induction fuel as [|fuel IH]; intros s; [destruct s; by eexists|]. destruct s as [|c s]; [by eexists|]. cbn [replaceAll].
  destruct (templatePlaceholder (String c s)) as [[[m g] r]|]; cbn [replace_one].
  - destruct (IH r) as (y & ->). by eexists.
  - destruct (IH s) as (y & ->). by eexists.
Qed.
Lemma placeholder_plain c s : is_open c = false -> templatePlaceholder (String c s) = None.
Proof. intros H. cbn. destruct s; [done|]. by rewrite H. Qed.
Lemma replaceAll_literal s t w : all (fun c => negb (is_open c)) s = true -> forall fuel,
  replace_all (String.length s + fuel) (s +:+ t) None w = (let '(y, fe, w') := replace_all fuel t None w in (s +:+ y, fe, w')).
Proof.
  intros Ha fuel. induction s as [|c s IH]; [cbn [String.length plus]; change ("" +:+ ?x) with x; by destruct (replace_all fuel t None w) as [[? ?] ?]|].
  apply andb_true_iff in Ha as [Hc%negb_true_iff Ha].
  change (replace_all (S (String.length s + fuel)) (String c (s +:+ t)) None w = (let '(y, fe, w') := replace_all fuel t None w in (String c (s +:+ y), fe, w'))).
  cbn [replaceAll]. rewrite placeholder_plain, IH by done. by destruct (replace_all fuel t None w) as [[? ?] ?].
Qed.
Lemma str_length_app (s t : string) : String.length (s +:+ t) = (String.length s + String.length t)%nat.
Proof. induction s as [|c s IH]; [done|]. exact (f_equal S IH). Qed.
(** A match is a prefix of the text, and what follows it is the rest. *)
Lemma close_split s m r : close s = Some (m, r) -> s = m +:+ r.
Proof.
  revert m r. induction s as [|c s IH]; intros m r H; [done|]. cbn [close] in H. destruct (is_space c).
  - destruct (close s) as [[m0 r0]|]; [|done]. injection H as <- <-. rewrite (IH m0 r0 eq_refl) at 1. done.
  - destruct (is_close c); [|done]. destruct s as [|c' s]; [done|]. destruct (is_close c'); [|done]. by injection H as <- <-.
Qed.
Lemma shortest_split s m g r : shortest s = Some (m, g, r) -> s = m +:+ r.
Proof.
  revert m g r. induction s as [|c s IH]; intros m g r H; [done|]. cbn [shortest] in H. destruct (is_newline c); [done|].
  destruct (close s) as [[m0 r0]|] eqn:Ec.
  - injection H as <- <- <-. rewrite (close_split _ _ _ Ec) at 1. done.
  - destruct (shortest s) as [[[m0 g0] r0]|]; [|done]. injection H as <- <- <-. rewrite (IH m0 g0 r0 eq_refl) at 1. done.
Qed.
Lemma spaced_split s m g r : spaced s = Some (m, g, r) -> s = m +:+ r.
Proof.
  revert m g r. induction s as [|c s IH]; intros m g r H; [done|]. cbn [spaced] in H. destruct (is_space c); [|by eapply shortest_split].
  destruct (spaced s) as [[[m0 g0] r0]|]; [|by eapply shortest_split]. injection H as <- <- <-. rewrite (IH m0 g0 r0 eq_refl) at 1. done.
Qed.
Lemma placeholder_shorter s m g r : templatePlaceholder s = Some (m, g, r) -> (String.length r < String.length s)%nat.
Proof.
  unfold templatePlaceholder. destruct s as [|c1 [|c2 s]]; [done|done|]. destruct (is_open c1 && is_open c2); [|done].
  destruct (spaced s) as [[[m0 g0] r0]|] eqn:Es; [|done]. intros [= _ _ <-]. apply spaced_split in Es as ->. cbn. rewrite str_length_app. lia.
Qed.
(** More fuel than the length of the text changes nothing. *)
Lemma replaceAll_fuel : forall fuel extra s fe w, (String.length s <= fuel)%nat -> replace_all (fuel + extra) s fe w = replace_all fuel s fe w.
Proof.
  induction fuel as [|fuel IH]; intros extra s fe w Hl.
  { destruct s; [by destruct extra|cbn in Hl; lia]. }
  destruct s as [|c s]; [done|]. cbn [plus replaceAll]. destruct (templatePlaceholder (String c s)) as [[[m g] r]|] eqn:Ep.
  - apply placeholder_shorter in Ep. destruct (replace_one _ _ _ m fe w) as [[x fe'] w']. rewrite IH; [done|]. cbn in *. lia.
  - rewrite IH by (cbn in Hl; lia). done.
Qed.

Lemma replaceAll_splice gs : forallb segment_ok gs = true -> forall fuel w, (String.length (print gs) <= fuel)%nat ->
  match splice gs w with
  | (Ok t, w') => replace_all fuel (print gs) None w = (t, None, w')
  | (Err e, w') => exists y, replace_all fuel (print gs) None w = (y, Some e, w')
  | (Panic, _) => False
  end.
Proof.
  induction gs as [|g gs IH]; intros Hok fuel w Hf; [by destruct fuel|].
  cbn [forallb] in Hok. apply andb_true_iff in Hok as [Hg Hok].
  change (print (g :: gs)) with (print1 g +:+ print gs) in *. rewrite str_length_app in Hf.
  destruct g as [s|pre code post]; cbn [splice].
  - cbn [print1 segment_ok] in *. replace fuel with (String.length s + (fuel - String.length s))%nat by lia.
    rewrite replaceAll_literal by done. specialize (IH Hok (fuel - String.length s)%nat w ltac:(lia)).
    unfold mbind, sres_bind, mret, sres_ret. destruct (splice gs w) as [[t|e|] w'].
    + by rewrite IH.
    + destruct IH as (y & ->). by eexists.
    + done.
  - assert (1 <= String.length (print1 (Code pre code post)))%nat as H1 by (unfold print1; rewrite str_length_app; cbn; lia).
    destruct fuel as [|fuel]; [lia|].
    assert (exists c rest, print1 (Code pre code post) +:+ print gs = String c rest) as (c & rest & Ec) by (by eexists _, _).
    rewrite Ec. cbn [replaceAll]. rewrite <- Ec. rewrite placeholder_code by done.
    unfold replace_one. rewrite <- (str_app_nil (print1 (Code pre code post))), placeholder_code by done.
    unfold mbind, sres_bind, mret, sres_ret, Eval. destruct (EvalCode code w) as [[e|v] w1].
    + destruct (replaceAll_failed e w1 fuel (print gs)) as (y & ->). by eexists.
    + specialize (IH Hok fuel w1). assert (String.length (print gs) <= fuel)%nat as Hl by lia. specialize (IH Hl).
      destruct (splice gs w1) as [[t|e|] w'].
      * by rewrite IH.
      * destruct IH as (y & ->). by eexists.
      * done.
Qed.

(** [C33] rendering a template is splicing it.  For a template made of literal text without opening
    braces and of placeholders whose expressions hold neither closing braces nor newlines,
    [RenderTemplate] returns the literal text with each placeholder replaced by the text of its
    value: expressions are evaluated once each, from left to right, without the white space around
    them; the first error is returned and nothing is evaluated after it, while the writes of the
    expressions before it stay. *)
Theorem RenderTemplate_splices gs w : forallb segment_ok gs = true ->
  RenderTemplate EvalCode Marshal Sprint (print gs) w = splice gs w.
Proof.
  intros Hok. unfold RenderTemplate. pose proof (replaceAll_splice gs Hok (String.length (print gs)) w (le_n _)) as H.
  destruct (splice gs w) as [[t|e|] w'].
  - by rewrite H.
  - destruct H as (y & ->). done.
  - done.
Qed.
End splice.

Definition demo_template : list segment := [Lit "/api/"; Code " " "payload.id" " "; Lit "?q="; Code "" "a b" "  "; Lit " }} end"].
(** An engine that logs what it evaluates and returns the source text. *)
Definition echo (code : string) (log : list string) : (string + any) * list string := (inr (AStr ("<" +:+ code +:+ ">")), log ++ [code]).
Lemma RenderTemplate_splices_witness :
  RenderTemplate echo (fun _ => None) (fun _ => "") "/api/{{ payload.id }}?q={{a b  }} }} end" [] =
  (Ok "/api/<payload.id>?q=<a b> }} end", ["payload.id"; "a b"]).
Proof.
  change "/api/{{ payload.id }}?q={{a b  }} }} end" with (print demo_template).
  rewrite (RenderTemplate_splices echo (fun _ => None) (fun _ => "") demo_template []); reflexivity.
Defined.
(** An expression that holds two closing braces is cut at the first pair. *)
Lemma nested_braces_cut : templatePlaceholder "{{ f({a:{b:1}}) }}" = Some ("{{ f({a:{b:1}}", "f({a:{b:1", ") }}").
Proof. reflexivity. Qed.

(** ** The function library *)

(** [toFloat] takes [float64], [int64] and [int]. *)
Definition toFloat (v : any) : option float64 :=
  match v with AFloat f => Some f | AInt z => Some (of_Z z) | _ => None end.
Fixpoint toFloats (i : Z) (l : list any) : res string (list float64) :=
  match l with
  | [] => Ok []
  | x :: l' => match toFloat x with
               | Some f => fs ← toFloats (i + 1) l'; Ok (f :: fs)
               | None => Err "element is not a number"
               end
  end.
Definition toFloatSlice (v : any) : res string (list float64) :=
  match v with AArr l => toFloats 0 l | _ => Err "expected an array" end.
Definition fsum (xs : list float64) : float64 := fold_left fadd xs fzero.
Definition stats_sum (v : any) : res string float64 := xs ← toFloatSlice v; Ok (fsum xs).
Definition stats_mean (v : any) : res string float64 :=
  xs ← toFloatSlice v;
  match xs with [] => Err "empty array" | _ => Ok (fdiv (fsum xs) (of_Z (zlen xs))) end.
Definition pick (better : float64 -> float64 -> bool) (m : float64) (xs : list float64) : float64 :=
  fold_left (fun m x => if better x m then x else m) xs m.
Definition stats_min (v : any) : res string float64 :=
  xs ← toFloatSlice v; match xs with [] => Err "empty array" | x :: rest => Ok (pick flt x rest) end.
Definition stats_max (v : any) : res string float64 :=
  xs ← toFloatSlice v; match xs with [] => Err "empty array" | x :: rest => Ok (pick (fun a b => flt b a) x rest) end.
Definition stats_stddev (v : any) : res string float64 :=
  xs ← toFloatSlice v;
  if zlen xs <? 2 then Err "needs at least 2 values" else
  match stats_mean v with
  | Ok m => Ok (fsqrt (fdiv (fold_left (fun sq x => fadd sq (fmul (fsub x m) (fsub x m))) xs fzero) (of_Z (zlen xs - 1))))
  | _ => Err "mean"
  end.
(** [sort.Float64s]: NaNs first, then by [<]. *)
Definition is_nan (f : float64) : bool := match f with SpecFloat.S754_nan => true | _ => false end.
Definition float_le (x y : float64) : bool := is_nan x || (negb (is_nan y) && negb (flt y x)).
Fixpoint insert_float (x : float64) (l : list float64) : list float64 :=
  match l with [] => [x] | y :: l' => if float_le x y then x :: l else y :: insert_float x l' end.
Definition sortFloats (l : list float64) : list float64 := foldr insert_float [] l.
Definition stats_percentile (v : any) (p : float64) : res string float64 :=
  xs ← toFloatSlice v;
  match xs with
  | [] => Err "empty array"
  | _ =>
      if flt p fzero || flt (of_Z 100) p then Err "p must be 0..100" else
      let sorted := sortFloats xs in
      match sorted with
      | [x] => Ok x
      | _ =>
          let rank := fmul (fdiv p (of_Z 100)) (of_Z (zlen sorted - 1)) in
          match floor_Z rank, ceil_Z rank with
          | Some lo, Some hi =>
              match sorted !! Z.to_nat lo, sorted !! Z.to_nat hi with
              | Some a, Some b =>
                  if lo =? hi then Ok a else
                  let frac := fsub rank (of_Z lo) in Ok (fadd (fmul a (fsub (of_Z 1) frac)) (fmul b frac))
              | _, _ => Panic
              end
          | _, _ => Panic
          end
      end
  end.

Section conv.
Context (ParseFloat : string -> option float64) (TrimSpace ToLower : string -> string) (Marshal : any -> option string) (Sprint : any -> string)
        (parseRFC3339 : string -> option Z) (formatRFC3339Nano : Z -> string) (digest : string -> string -> bytes)
        (LoadLocation : string -> bool) (formatTime : Z -> string -> string -> string).
Definition conv_toNumber (v : any) : res string float64 :=
  match v with
  | AFloat f => Ok f
  | AStr s => match ParseFloat (TrimSpace s) with Some f => Ok f | None => Err "is not numeric" end
  | ABool b => Ok (of_Z (if b then 1 else 0))
  | _ => Err "cannot convert"
  end.
Definition conv_toString (v : any) : string := stringify Marshal Sprint v.
Definition fnonzero (f : float64) : bool := match f with SpecFloat.S754_zero _ => false | _ => true end.
Definition conv_toBool (v : any) : res string bool :=
  match v with
  | ABool b => Ok b
  | AFloat f => Ok (fnonzero f)
  | AStr s =>
      let t := ToLower (TrimSpace s) in
      if decide (t = "true" \/ t = "1" \/ t = "yes") then Ok true
      else if decide (t = "false" \/ t = "0" \/ t = "no" \/ t = "") then Ok false
      else Err "is not a recognized boolean"
  | _ => Err "cannot convert"
  end.
Definition conv_base64Encode (s : string) : string := string_of_bytes (EncodeToString (bytes_of_string s)).
Definition conv_base64Decode (s : string) : res string string :=
  match DecodeString (bytes_of_string s) with Some b => Ok (string_of_bytes b) | None => Err "base64" end.
Definition conv_epochToISO (epochMs : Z) : string := formatRFC3339Nano (epochMs * 1000000).
Definition conv_isoToEpoch (s : string) : res string Z :=
  match parseRFC3339 s with Some t => Ok (t / 1000000) | None => Err "time" end.
(** [hash.md5], [hash.sha1], [hash.sha256]: the digest in hexadecimal. *)
Definition hex_digit (n : Z) : Z := if n <? 10 then 48 + n else 87 + n.
Definition hex (b : bytes) : string := string_of_bytes (b ≫= fun x => [hex_digit (x / 16); hex_digit (x mod 16)]).
Definition hash_ (algorithm s : string) : string := hex (digest algorithm s).

(** *** Dates *)
Definition dtLayoutTokens : list (string * string) :=
  [("YYYY", "2006"); ("SSS", "000"); ("MM", "01"); ("DD", "02"); ("HH", "15"); ("mm", "04"); ("ss", "05"); ("Z", "Z07:00")].
(** [strings.ReplaceAll] for a non-empty [old]; the length of the text is enough fuel. *)
Fixpoint ReplaceAll (fuel : nat) (s old new : string) : string :=
  match fuel, s with
  | S fuel, String c s' => match CutPrefix old s with
                           | Some r => new +:+ ReplaceAll fuel r old new
                           | None => String c (ReplaceAll fuel s' old new)
                           end
  | _, _ => s
  end.
Definition translateLayout (layout : string) : string :=
  fold_left (fun out t => ReplaceAll (String.length out) out t.1 t.2) dtLayoutTokens layout.
Definition dt_parseISO (s : string) : res string Z := conv_isoToEpoch s.
Definition dt_format (epochMs : Z) (layout tz : string) : res string string :=
  if bool_decide (tz <> "") && negb (LoadLocation tz) then Err "unknown time zone" else
  Ok (formatTime epochMs (translateLayout layout) (if decide (tz = "") then "UTC" else tz)).
Definition dt_addMs (epochMs deltaMs : Z) : Z := s64 (epochMs + deltaMs).
Definition dt_diffMs (a b : Z) : Z := s64 (a - b).

(** A number that the engine hands over as an integer is not convertible. *)
Lemma toNumber_int z : conv_toNumber (AInt z) = Err "cannot convert" /\ conv_toBool (AInt z) = Err "cannot convert".
Proof. done. Qed.
Lemma base64_inverse s : conv_base64Decode (conv_base64Encode s) = Ok s.
Proof.
  unfold conv_base64Decode, conv_base64Encode. rewrite bytes_of_string_of_bytes.
  - rewrite DecodeString_EncodeToString by apply bytes_of_string_ok. by rewrite string_of_bytes_of_string.
  - apply EncodeToString_ok, bytes_of_string_ok.
Qed.
Lemma translateLayout_sample : translateLayout "YYYY-MM-DDTHH:mm:ss.SSSZ" = "2006-01-02T15:04:05.000Z07:00".
Proof. reflexivity. Qed.
End conv.

(** *** The context object of a scope *)
Definition ctx_get (get : option (string -> option any)) (key : string) : option any := g ← get; g key.
Definition ctx_set {W} (set : option (string -> any -> sres W string unit)) (key : string) (v : any) : sres W string unit :=
  match set with Some f => f key v | None => of_res (Err "no writable context bound for this scope") end.

(** ** Facts *)

Lemma fcompare_opp x y c : SpecFloat.SFcompare x y = Some c -> SpecFloat.SFcompare y x = Some (CompOpp c).
Proof.
  destruct x as [s1|s1| |s1 m1 e1], y as [s2|s2| |s2 m2 e2]; cbn; try (destruct s1); try (destruct s2); intros [= <-]; try done.
  all: f_equal; rewrite (Z.compare_antisym e1 e2); destruct (e1 ?= e2)%Z eqn:Ee; cbn; try done.
  all: fold (Pos.compare m1 m2); fold (Pos.compare m2 m1); rewrite (Pos.compare_antisym m1 m2); by destruct (m1 ?= m2)%positive.
Qed.
Lemma fcompare_some x y : is_nan x = false -> is_nan y = false -> exists c, SpecFloat.SFcompare x y = Some c.
Proof. destruct x, y; cbn; try done; intros _ _; repeat case_match; eauto. Qed.
(** What is not below is at least as great, NaN aside. *)
Lemma not_flt_fle x y : is_nan x = false -> is_nan y = false -> flt y x = false -> fle x y = true.
Proof.
  intros Hx Hy H. destruct (fcompare_some x y Hx Hy) as [c Hc]. pose proof (fcompare_opp _ _ _ Hc) as Ho.
  unfold flt, fle, SpecFloat.SFltb, SpecFloat.SFleb in *. rewrite Ho in H. rewrite Hc. by destruct c.
Qed.
Lemma fle_refl x : is_nan x = false -> fle x x = true.
Proof.
  intros H. apply not_flt_fle; [done|done|]. destruct (fcompare_some x x H H) as [c Hc]. pose proof (fcompare_opp _ _ _ Hc) as Ho.
  unfold flt, SpecFloat.SFltb. rewrite Hc in *. by destruct c.
Qed.
Lemma flt_fle x y : flt x y = true -> fle x y = true.
Proof. unfold flt, fle, SpecFloat.SFltb, SpecFloat.SFleb. by destruct (SpecFloat.SFcompare x y) as [[]|]. Qed.
Lemma pick_min xs : forall m, is_nan m = false -> Forall (fun x => is_nan x = false) xs ->
  pick flt m xs ∈ m :: xs /\ Forall (fun x => fle (pick flt m xs) x = true) (m :: xs).
Proof.
  induction xs as [|x xs IH]; intros m Hm Hx.
  { split; [left|]. apply Forall_singleton. by apply fle_refl. }
  apply Forall_cons in Hx as [Hx Hxs]. cbn. destruct (flt x m) eqn:E.
  - destruct (IH x Hx Hxs) as [H1 H2]. split; [set_solver|]. apply Forall_cons. split; [|done].
    apply Forall_cons in H2 as [H2 _]. eapply fle_trans; [exact H2|by apply flt_fle].
  - destruct (IH m Hm Hxs) as [H1 H2]. split; [set_solver|]. apply Forall_cons in H2 as [H2 H3].
    apply Forall_cons; split; [done|]. apply Forall_cons; split; [|done]. eapply fle_trans; [exact H2|by apply not_flt_fle].
Qed.
(** [stats.min] of numbers is one of them and none is smaller. *)
Theorem min_is_least v xs : toFloatSlice v = Ok xs -> xs <> [] -> Forall (fun x => is_nan x = false) xs ->
  exists m, stats_min v = Ok m /\ m ∈ xs /\ Forall (fun x => fle m x = true) xs.
Proof.
  intros Hv Hne Hn. unfold stats_min. rewrite Hv. cbn [mbind res_bind]. destruct xs as [|x xs]; [done|].
  apply Forall_cons in Hn as [Hx Hxs]. destruct (pick_min xs x Hx Hxs) as [H1 H2]. eauto.
Qed.
(** A percentile of NaN passes the range check and indexes out of range. *)
Lemma percentile_nan_panics : stats_percentile (AArr [AInt 1; AInt 2]) SpecFloat.S754_nan = Panic.
Proof. reflexivity. Qed.

(** Values without an expression are returned as they are, and nothing is evaluated. *)
Section literal.
Context {W E : Type} (EvalCode : string -> W -> (E + any) * W) (TrimSpace : string -> string).
Fixpoint literal (v : any) : Prop :=
  match v with
  | AStr s => exprPattern s = None
  | AMap m => (fix go (m : list (string * any)) : Prop := match m with [] => True | (_, x) :: m' => literal x /\ go m' end) m
  | AArr l => (fix go (l : list any) : Prop := match l with [] => True | x :: l' => literal x /\ go l' end) l
  | _ => True
  end.
Lemma resolveDeep_literal : forall v w, literal v -> resolveDeepValue EvalCode TrimSpace v w = (Ok v, w).
Proof.
  fix IH 1. intros v w H. destruct v as [| | | |s|l| | | | |m|]; try done.
  - cbn in *. unfold isExpressionString. by rewrite H.
  - cbn [resolveDeepValue]. match goal with |- ((?F l) ≫= _) w = _ => set (go := F); assert (go l w = (Ok l, w)) as Hgo end.
    { cbn [literal] in H. revert w. induction l as [|x l IHl]; intros w; [done|]. destruct H as [Hx Hl].
      cbn. unfold mbind, sres_bind. rewrite (IH x w Hx). by rewrite (IHl Hl w). }
    unfold mbind, sres_bind. by rewrite Hgo.
  - cbn [resolveDeepValue]. match goal with |- ((?F m) ≫= _) w = _ => set (go := F); assert (go m w = (Ok m, w)) as Hgo end.
    { cbn [literal] in H. revert w. induction m as [|[k x] m IHm]; intros w; [done|]. destruct H as [Hx Hm].
      cbn. unfold mbind, sres_bind. rewrite (IH x w Hx). by rewrite (IHm Hm w). }
    unfold mbind, sres_bind. by rewrite Hgo.
Qed.
End literal.
End expr.
