(* ===== verification/ExecApi.v ===== *)
(** * Browsing, re-running and re-injecting

    The handlers of [controlplane/internal/api/executions.go] and [deadletters.go]: the paged
    lists, the trace of an execution, the re-run of an execution from its start or from a node, its
    cancellation, and the deletion and re-injection of dead letters.  The history is the one the
    registry fills from the event channels ([main.go] attaches the same store to both), commands go
    out through the registry's queues and end in the runtime's [handleEventDownlink], so that the
    theorems follow a datagram from the tracker that recorded it to the call that replays it.  The
    rows a query finds come in an order of the database's choice, which is an argument. *)

From Stdlib Require Import Sorting.Sorted.
From S2P Require Import Prelude Bytes GoStd Datagram Execution Auth ExecHistory Registry FlowStore RuntimeClient.
Import gostd flowstore.
Local Open Scope Z_scope.

Module execapi.

(** ** Queries *)

(** [ORDER BY key DESC] and [ORDER BY key ASC]; rows with equal keys stay in the order found. *)
Section sorted.
Context {A : Type} (before : A -> A -> bool).
Fixpoint insert_row (x : A) (l : list A) : list A :=
  match l with [] => [x] | y :: l' => if before y x then y :: insert_row x l' else x :: y :: l' end.
Definition order_by (l : list A) : list A := foldr insert_row [] l.
End sorted.
Definition newest_first {A} (key : A -> Z) : list A -> list A := order_by (fun y x => key x <? key y).
Definition oldest_first {A} (key : A -> Z) : list A -> list A := order_by (fun y x => key y <? key x).
(** [LIMIT ? OFFSET ?] *)
Definition page {A} (limit offset : Z) (l : list A) : list A := take (Z.to_nat limit) (drop (Z.to_nat offset) l).

Definition ListExecutions (rows : list (string * exechistory.Execution)) (ok : bool) (flowID status : string) (limit offset : Z)
  : res StoreError (list (string * exechistory.Execution * option Z)) :=
  if ok then
    Ok (map (fun x => (x, exechistory.durationMs x.2))
         (page limit offset
           (newest_first (fun x => exechistory.started_at x.2)
             (filter (fun x => exechistory.FlowID_ x.2 = flowID /\ (status = "" \/ exechistory.Status_ x.2 = status)) rows))))
  else Err ErrDB.
Record NodeErrorInfo := MkNodeErrorInfo { Message : string; Code : string; Stack : string }.
Definition nodeError (r : exechistory.ExecutionNodeIO) : option NodeErrorInfo :=
  if decide (exechistory.error_message r = "" /\ exechistory.error_code r = "" /\ exechistory.error_stack r = "") then None
  else Some (MkNodeErrorInfo (exechistory.error_message r) (exechistory.error_code r) (exechistory.error_stack r)).
Definition GetExecutionNodeIO (h : exechistory.DB) (ok : bool) (executionID : string)
  : res StoreError (list (exechistory.ExecutionNodeIO * option NodeErrorInfo)) :=
  if ok then
    Ok (map (fun r => (r, nodeError r))
         (oldest_first exechistory.at_ (filter (fun r => exechistory.execution_id r = executionID) (exechistory.execution_node_io h))))
  else Err ErrDB.
Definition ListDeadLetters (rows : list exechistory.DeadLetter) (ok : bool) (flowID : string) (limit offset : Z)
  : res StoreError (list exechistory.DeadLetter) :=
  if ok then
    Ok (page limit offset (newest_first exechistory.created_at (filter (fun d => exechistory.d_FlowID d = flowID) rows)))
  else Err ErrDB.

(** A parameter that is missing, malformed or out of range leaves the default. *)
Definition Atoi (s : string) : option Z := ParseInt (bytes_of_string s).
Definition parseLimitOffset (limit offset : string) (defaultLimit : Z) : Z * Z :=
  (match Atoi limit with Some n => if 0 <? n then n else defaultLimit | None => defaultLimit end,
   match Atoi offset with Some n => if 0 <=? n then n else 0 | None => 0 end).

(** ** Handlers *)

(** The tables, which the registry writes too. *)
Definition history (w : world) : exechistory.DB := default exechistory.emptyDB (registry.executionStore (reg w)).
Definition set_history (w : world) (h : exechistory.DB) : world := set_reg w (registry.set_history (reg w) (Some h)).

(** The execution or dead letter of a request whose user has a role in the project of its flow. *)
Definition authorizeFlow {A} (w : world) (e : env) (user : auth.User) (found : res string (option A)) (flowOf : A -> string) (min : string)
  : A + Z :=
  match found with
  | Ok None => inr 404
  | Ok (Some x) =>
      match GetFlow (db w) (ok e 0) (flowOf x) with
      | Ok f => match auth.requireProjectRole (accounts w) (ok e 1) user (ProjectID f) min with Some st => inr st | None => inl x end
      | _ => inr 500
      end
  | _ => inr 500
  end.
Definition executionAndAuthorize (w : world) (e : env) (user : auth.User) (id min : string) : exechistory.Execution * option Z + Z :=
  authorizeFlow w e user (exechistory.GetExecution (history w) (ok e 2) id) (fun x => exechistory.FlowID_ x.1) min.
Definition deadLetterAndAuthorize (w : world) (e : env) (user : auth.User) (id min : string) : exechistory.DeadLetter + Z :=
  authorizeFlow w e user (exechistory.GetDeadLetter (history w) (ok e 2) id) exechistory.d_FlowID min.

Definition listExecutions (w : world) (e : env) (user : auth.User) (rows : list (string * exechistory.Execution))
    (flowID status limit offset : string) : list (string * exechistory.Execution * option Z) + Z :=
  match flowAndAuthorize w e user flowID auth.RoleViewer with
  | inr st => inr st
  | inl _ =>
      let '(limit, offset) := parseLimitOffset limit offset 50 in
      match ListExecutions rows (ok e 3) flowID status limit offset with Ok l => inl l | _ => inr 500 end
  end.
Definition getExecution (w : world) (e : env) (user : auth.User) (id : string)
  : exechistory.Execution * option Z * list (exechistory.ExecutionNodeIO * option NodeErrorInfo) + Z :=
  match executionAndAuthorize w e user id auth.RoleViewer with
  | inr st => inr st
  | inl x => match GetExecutionNodeIO (history w) (ok e 3) id with Ok l => inl (x, l) | _ => inr 500 end
  end.
Definition listDeadLetters (w : world) (e : env) (user : auth.User) (rows : list exechistory.DeadLetter) (flowID limit offset : string)
  : list exechistory.DeadLetter + Z :=
  match flowAndAuthorize w e user flowID auth.RoleViewer with
  | inr st => inr st
  | inl _ =>
      let '(limit, offset) := parseLimitOffset limit offset 50 in
      match ListDeadLetters rows (ok e 3) flowID limit offset with Ok l => inl l | _ => inr 500 end
  end.

(** What a re-run replays: the node, the port and the JSON of the datagram. *)
Definition rerunPoint (w : world) (e : env) (id : string) (x : exechistory.Execution) (from nodeID : string) : string * string * string + Z :=
  if decide (from = "start") then inl (exechistory.TriggerNodeID_ x, "out", exechistory.SeedDatagram x)
  else if decide (from = "node") then
    if decide (nodeID = "") then inr 400
    else match exechistory.GetExecutionNodeInput (history w) (ok e 3) id nodeID with
         | Ok (Some (input, p)) => inl (nodeID, p, input)
         | Ok None => inr 400
         | _ => inr 500
         end
  else inr 400.
(** The common end of the three commands: the queues of the runtimes, then [after] and the audit. *)
Definition commanded (w : world) (e : env) (user : auth.User) (commander : bool) (c : registry.command) (after : world -> world)
    (action otype object : string) : world * Z :=
  if negb commander then (w, 400) else
  match registry.sendExecutionCommand (reg w) (order e) (done e) c with
  | (s, Ok _) => (audit (after (set_reg w s)) (ok e 9) (auth.ID user) action otype object "", 202)
  | (s, _) => (set_reg w s, 400)
  end.
Definition rerunExecution (w : world) (e : env) (user : auth.User) (commander : bool) (id : string) (body : option (string * string)) : world * Z :=
  match executionAndAuthorize w e user id auth.RoleOperator with
  | inr st => (w, st)
  | inl (x, _) =>
      match body with
      | None => (w, 400)
      | Some (from, nodeID) =>
          match rerunPoint w e id x from nodeID with
          | inr st => (w, st)
          | inl (n, p, js) =>
              commanded w e user commander (registry.CRunExecution (exechistory.FlowID_ x) from n p js id) (fun w => w)
                "execution.rerun" "execution" id
          end
      end
  end.
Definition cancelExecution (w : world) (e : env) (user : auth.User) (commander : bool) (id : string) : world * Z :=
  match executionAndAuthorize w e user id auth.RoleOperator with
  | inr st => (w, st)
  | inl _ => commanded w e user commander (registry.CCancelExecution id) (fun w => w) "execution.cancel" "execution" id
  end.
Definition deleteDeadLetter (w : world) (e : env) (user : auth.User) (id : string) : world * Z :=
  match deadLetterAndAuthorize w e user id auth.RoleOperator with
  | inr st => (w, st)
  | inl _ =>
      match exechistory.DeleteDeadLetter (history w) (ok e 3) id with
      | (h, Ok _) => (audit (set_history w h) (ok e 9) (auth.ID user) "deadletter.delete" "dead_letter" id "", 204)
      | (_, _) => (w, 500)
      end
  end.
Definition reinjectDeadLetter (w : world) (e : env) (user : auth.User) (commander : bool) (id : string) : world * Z :=
  match deadLetterAndAuthorize w e user id auth.RoleOperator with
  | inr st => (w, st)
  | inl d =>
      commanded w e user commander
        (registry.CReinjectDeadLetter (exechistory.d_FlowID d) (exechistory.d_NodeID d) (exechistory.d_Port d) (exechistory.d_Datagram d))
        (fun w => set_history w (exechistory.MarkDeadLetterReinjected (history w) (ok e 3) (now e) id).1)
        "deadletter.reinject" "dead_letter" id
  end.

(** ** Pages *)

Section order.
Context {A : Type} (before : A -> A -> bool).
Lemma insert_row_perm x l : insert_row before x l ≡ₚ x :: l.
Proof. induction l as [|y l IH]; cbn; [done|]. destruct (before y x); [rewrite IH; constructor|done]. Qed.
Lemma order_by_perm l : order_by before l ≡ₚ l.
Proof. induction l as [|x l IH]; cbn; [done|]. by rewrite insert_row_perm, IH. Qed.
End order.
Lemma order_by_sorted {A} (before : A -> A -> bool) : (forall x y, before x y = false \/ before y x = false) ->
  (forall x y z, before y x = false -> before z y = false -> before z x = false) ->
  forall l, StronglySorted (fun x y => before y x = false) (order_by before l).
Proof.
  intros Has Htr. assert (forall x l, StronglySorted (fun x y => before y x = false) l ->
    StronglySorted (fun x y => before y x = false) (insert_row before x l)) as Hi.
  { intros x l. induction 1 as [|y l Hs IH Hy]; cbn; [repeat constructor|]. destruct (before y x) eqn:E.
    - constructor; [done|]. rewrite insert_row_perm. constructor; [|done]. destruct (Has x y); congruence.
    - constructor; [by constructor|]. constructor; [done|]. eapply Forall_impl; [exact Hy|]. cbn. intros z Hz. by eapply Htr. }
  induction l as [|x l IH]; cbn; [constructor|by apply Hi].
Qed.
Lemma newest_first_sorted {A} (key : A -> Z) l : StronglySorted (fun x y => key y <= key x) (newest_first key l).
Proof.
  assert (StronglySorted (fun x y => (key x <? key y) = false) (newest_first key l)) as Hs
    by (apply (order_by_sorted (fun y x => key x <? key y)); intros; rewrite ?Z.ltb_ge in *; lia).
  induction Hs as [|x k _ IH Hx]; constructor; [done|]. eapply Forall_impl; [exact Hx|]. cbn. intros y ?%Z.ltb_ge. lia.
Qed.

(** Reading on with the offset advanced by the limit gives every row once. *)
Definition pages {A} (n : nat) (limit : Z) (l : list A) : list A := mjoin (map (fun i => page limit (Z.of_nat i * limit) l) (seq 0 n)).
Lemma pages_take {A} n limit (l : list A) : 0 < limit -> pages n limit l = take (n * Z.to_nat limit) l.
Proof.
  intros Hl. induction n as [|n IH]; [done|]. unfold pages in *. rewrite seq_S, map_app, join_app, IH. cbn. rewrite app_nil_r.
  unfold page. replace (Z.to_nat (Z.of_nat n * limit)) with (n * Z.to_nat limit)%nat by lia.
  rewrite <- (take_drop (n * Z.to_nat limit) l) at 3.
  destruct (decide (n * Z.to_nat limit <= length l)%nat).
  - rewrite take_app_ge by (rewrite length_take; lia). f_equal. f_equal. rewrite length_take. lia.
  - rewrite (drop_ge l) by lia. rewrite take_nil, !app_nil_r. rewrite take_take. f_equal. lia.
Qed.
(** The pages of the executions of a flow: together all of them, the newest first. *)
Definition listed {A} (r : res StoreError (list A)) : list A := match r with Ok l => l | _ => [] end.
Theorem execution_pages rows flowID status limit n : 0 < limit -> Z.of_nat (length rows) <= Z.of_nat n * limit ->
  let l := mjoin (map (fun i => listed (ListExecutions rows true flowID status limit (Z.of_nat i * limit))) (seq 0 n)) in
  map fst l ≡ₚ filter (fun x => exechistory.FlowID_ x.2 = flowID /\ (status = "" \/ exechistory.Status_ x.2 = status)) rows /\
  StronglySorted (fun x y => exechistory.started_at y.1.2 <= exechistory.started_at x.1.2) l.
Proof.
  intros Hl Hn l. set (rs := newest_first (fun x => exechistory.started_at x.2)
             (filter (fun x => exechistory.FlowID_ x.2 = flowID /\ (status = "" \/ exechistory.Status_ x.2 = status)) rows)).
  assert (rs ≡ₚ filter (fun x => exechistory.FlowID_ x.2 = flowID /\ (status = "" \/ exechistory.Status_ x.2 = status)) rows) as Hp
    by apply order_by_perm.
  assert (l = map (fun x => (x, exechistory.durationMs x.2)) rs) as ->.
  { transitivity (map (fun x => (x, exechistory.durationMs x.2)) (pages n limit rs)).
    - unfold l, pages. generalize (seq 0 n). induction l0 as [|i js IH]; [done|]. etransitivity; [exact (f_equal2 app eq_refl IH)|]. symmetry. apply map_app.
    - rewrite pages_take by done. f_equal. apply take_ge. rewrite Hp.
      pose proof (length_filter (fun x => exechistory.FlowID_ x.2 = flowID /\ (status = "" \/ exechistory.Status_ x.2 = status)) rows). nia. }
  rewrite map_map. split; [cbn; by rewrite map_id|].
  pose proof (newest_first_sorted (fun x => exechistory.started_at x.2)
    (filter (fun x => exechistory.FlowID_ x.2 = flowID /\ (status = "" \/ exechistory.Status_ x.2 = status)) rows)) as Hs.
  fold rs in Hs. clear Hp. induction Hs as [|x k _ IH Hx]; cbn; [constructor|]. constructor; [done|]. by apply Forall_fmap.
Qed.

(** ** Commands *)

(** Every runtime is among those the registry iterates over, and the connected ones have room. *)
Record reachable (s : registry.Service) (e : env) : Prop := {
  re_ok : registry.registry_ok s;
  re_nodup : NoDup (order e);
  re_all : forall r, is_Some (registry.runtimes s !! r) -> r ∈ order e;
  re_open : registry.eventTargets s (order e) <> [];
  re_room : forall ch q, ch ∈ registry.eventTargets s (order e) -> registry.eventChans s !! ch = Some q -> (length q < registry.eventChanBuffer)%nat;
  re_live : forall i, done e i = false
}.
Lemma command_accepted s e c : reachable s e ->
  exists s', registry.sendExecutionCommand s (order e) (done e) c = (s', Ok tt) /\ registry.executionStore s' = registry.executionStore s.
Proof.
  intros [Hok Hn _ Ho Hr Hd]. destruct (registry.event_targets_ok s (order e) Hok Hn) as [Hnd Hs].
  destruct (registry.send_each_spec id registry.eventChanBuffer "runtime event command queue full" (done e) c
    (registry.eventTargets s (order e)) 0 (registry.eventChans s) Hnd Hs) as [k Hk].
  unfold registry.sendExecutionCommand. rewrite decide_False by done. destruct (registry.send_each _ _ _ _ _ _ _) as [chans a].
  destruct Hk as (_ & _ & [[-> _]|(ch & Hl & [[-> Hx]|(-> & q & Hq & Hc)])]); [by eexists| |].
  - by rewrite Hd in Hx.
  - specialize (Hr ch q (list_elem_of_lookup_2 _ _ _ Hl) Hq). lia.
Qed.
(** A command handler changes the history and the log only when it answers 202. *)
Lemma commanded_refused w e user commander c after action otype object w' st :
  commanded w e user commander c after action otype object = (w', st) -> st <> 202 -> history w' = history w /\ log w' = log w.
Proof.
  unfold commanded. destruct commander; cbn [negb]; [|by intros [= <- <-]].
  destruct (registry.sendExecutionCommand _ _ _ _) as [s [[]|x|]] eqn:E; [by intros [= <- <-]| |];
    intros [= <- <-] _; (split; [|done]); unfold history; cbn; unfold registry.sendExecutionCommand in E; case_decide; simplify_eq; try done;
    destruct (registry.send_each _ _ _ _ _ _ _); simplify_eq; done.
Qed.

(** What becomes of a command at its runtime: the message it arrives as. *)
Definition downlink (c : registry.command) : runtimeclient.EventDownlink :=
  match c with
  | registry.CRunExecution _ from n p js reRunOf => runtimeclient.DRunExecution from n p js reRunOf
  | registry.CCancelExecution id => runtimeclient.DCancelExecution id
  | registry.CReinjectDeadLetter _ n p js => runtimeclient.DReinjectDeadLetter n p js
  end.
(** [c] is put at the end of the queue of every connected runtime; nothing else is sent. *)
Definition queued (s s' : registry.Service) (c : registry.command) : Prop :=
  forall r rt ch, registry.runtimes s !! r = Some rt -> registry.eventCh rt = Some ch ->
  exists q, registry.eventChans s !! ch = Some q /\ registry.eventChans s' !! ch = Some (q ++ [c]).

Lemma commanded_accepted w e user c after action otype object : reachable (reg w) e -> (forall i, ok e i = true) ->
  (forall w, log (after w) = log w /\ registry.eventChans (reg (after w)) = registry.eventChans (reg w)) ->
  exists s', history (set_reg w s') = history w /\
  let '(w', st) := commanded w e user true c after action otype object in
  st = 202 /\ history w' = history (after (set_reg w s')) /\
  log w' = log w ++ [MkAuditCall (auth.ID user) action otype object ""] /\ queued (reg w) (reg w') c.
Proof.
  intros Hr Hok Ha. destruct (command_accepted (reg w) e c Hr) as (s' & Es & Eh). exists s'. split; [unfold history; cbn; by rewrite Eh|].
  unfold commanded. cbn [negb]. rewrite Es. destruct (Ha (set_reg w s')) as [Hl Hc].
  unfold audit. rewrite Hok. split_and!; [done|done|cbn; by rewrite Hl|].
  intros r rt ch Hrt Hch. destruct Hr as [Hro Hn Hall _ _ _].
  destruct (registry.event_targets_ok (reg w) (order e) Hro Hn) as [_ Hs].
  assert (r ∈ order e) as Hin by (apply Hall; eauto).
  destruct (Hs ch) as [q Hq]; [apply list_elem_of_omap; exists r; split; [done|by rewrite Hrt]|].
  exists q. split; [done|]. cbn. rewrite Hc. cbn.
  rewrite (registry.command_reaches_all id (reg w) (order e) (done e) c s' r rt ch Hro Hn Hin Es Hrt Hch). by rewrite Hq.
Qed.

Section replay.
Context {V : Type}.
(** [json.Marshal] of datagrams and of outputs, and [json.Unmarshal] of a datagram at the runtime. *)
Context (Marshal : datagram.Datagram V -> option string) (MarshalList : list (@execution.PortDatagram V) -> option string)
        (Unmarshal : string -> option (datagram.Datagram V)).
Definition marshalDatagram (d : datagram.Datagram V) : string := default "null" (Marshal d).
Definition marshalOutputs (outputs : list (@execution.PortDatagram V)) : string := default "null" (MarshalList outputs).
Notation record_all := (exechistory.record_all marshalDatagram marshalOutputs).

(** The tracker reported an execution, always with the flow, trigger and seed it was started with. *)
Definition begins (e : @execution.SinkEvent V) (id : string) : Prop := e = execution.EvWaiting id \/ e = execution.EvStarted id.
Definition reported (l : list (@execution.SinkEvent V * exechistory.meta)) (id flowID trigger : string) (seed : datagram.Datagram V) : Prop :=
  (exists e m, (e, m) ∈ l /\ begins e id) /\
  forall e m, (e, m) ∈ l -> begins e id ->
    exechistory.m_flow m = flowID /\ exechistory.m_trigger m = trigger /\ exechistory.m_seed m = seed.
(** The row holds what was reported. *)
Definition seeded (flowID trigger : string) (seed : datagram.Datagram V) (x : exechistory.Execution) : Prop :=
  exechistory.FlowID_ x = flowID /\ exechistory.TriggerNodeID_ x = trigger /\ exechistory.SeedDatagram x = marshalDatagram seed.
Lemma recorded_execution rt l id flowID trigger seed : reported l id flowID trigger seed ->
  exists x, exechistory.executions (record_all rt exechistory.emptyDB l) !! id = Some x /\
    seeded flowID trigger seed x.
Proof.
  intros [Hex Hall].
  enough (forall db, (match exechistory.executions db !! id with
            | Some x => seeded flowID trigger seed x
            | None => exists e m, (e, m) ∈ l /\ begins e id end) ->
          exists x, exechistory.executions (record_all rt db l) !! id = Some x /\
    seeded flowID trigger seed x) as H by by apply H.
  clear Hex. induction l as [|[e m] l IH]; intros db Hdb; cbn.
  { destruct (exechistory.executions db !! id); [eauto|]. by destruct Hdb as (? & ? & ?%elem_of_nil & _). }
  apply IH; [intros; eapply Hall; [by right|done]|]. rewrite exechistory.record_event. cbn [fst].
  assert (forall ev status, exechistory.ExecutionID ev <> id -> 
    exechistory.executions (exechistory.upsertExecution db true true rt ev status).1 !! id = exechistory.executions db !! id) as Hother.
  { intros ev status Hne. unfold exechistory.upsertExecution. destruct (exechistory.executions db !! exechistory.ExecutionID ev); cbn; by rewrite lookup_insert_ne. }
  assert (forall ev status, exechistory.ExecutionID ev = id -> exechistory.FlowID ev = flowID -> exechistory.TriggerNodeID ev = trigger ->
    exechistory.SeedDatagramJSON ev = marshalDatagram seed ->
    exists x, exechistory.executions (exechistory.upsertExecution db true true rt ev status).1 !! id = Some x /\
    seeded flowID trigger seed x) as Hsame.
  { intros ev status <- Hf Ht Hs. unfold exechistory.upsertExecution. destruct (exechistory.executions db !! exechistory.ExecutionID ev) as [y|]; cbn;
      rewrite lookup_insert_eq; eexists; (split; [done|]); cbn; [destruct Hdb as (? & _ & _)|]; done. }
  assert (~ begins e id -> match exechistory.executions db !! id with
    | Some x => seeded flowID trigger seed x
    | None => exists e m, (e, m) ∈ l /\ begins e id end) as Hrest.
  { intros Hb. destruct (exechistory.executions db !! id); [done|]. destruct Hdb as (e1 & m1 & [[= <- <-]|Hin]%elem_of_cons & Hb1); [done|eauto]. }
  destruct e as [i|i|i ev|i s r]; cbn [exechistory.message].
  1,2: destruct (decide (i = id)) as [->|Hne];
    [destruct (Hall _ m ltac:(by left) ltac:(by constructor)) as (? & ? & ?); subst;
     edestruct Hsame as (x & -> & Hx); [..|exact Hx]; done
    |rewrite Hother by done; apply Hrest; intros [|]; congruence].
  - cbn. apply Hrest. intros [|]; congruence.
  - cbn. specialize (Hrest ltac:(intros [|]; congruence)). destruct (decide (i = id)) as [->|];
      [rewrite lookup_alter_eq; by destruct (exechistory.executions db !! id)|by rewrite lookup_alter_ne].
Qed.

(** The rows of a node in the trace are its events. *)
Lemma recorded_node rt l id n : (exists ev m, (execution.EvNode id ev, m) ∈ l /\ execution.io_NodeID ev = n) ->
  exists ev m, (execution.EvNode id ev, m) ∈ l /\ execution.io_NodeID ev = n /\
    exechistory.GetExecutionNodeInput (record_all rt exechistory.emptyDB l) true id n = Ok (Some (marshalDatagram (execution.Input ev), execution.io_Port ev)).
Proof.
  intros (ev0 & m0 & Hin0 & Hn0). unfold exechistory.GetExecutionNodeInput. rewrite exechistory.record_all_nodes. cbn [exechistory.execution_node_io exechistory.emptyDB app].
  set (rows := filter _ _).
  assert (forall x, x ∈ rows -> exists ev m, (execution.EvNode id ev, m) ∈ l /\ execution.io_NodeID ev = n /\
    exechistory.input x = marshalDatagram (execution.Input ev) /\ exechistory.port x = execution.io_Port ev) as Hrows.
  { intros x [[Hi Hn] ([e m] & Hx & Hin)%list_elem_of_omap]%list_elem_of_filter. destruct e as [|i|i ev|]; try done.
    unfold exechistory.node_row in Hin. cbn in Hin. injection Hin as <-. cbn in *. subst. exists ev, m. split; [done|]. split; [done|].
    unfold exechistory.NodeEvent. by destruct (execution.io_Err ev). }
  assert (exists x, x ∈ rows) as [x0 Hx0].
  { destruct (exechistory.node_row marshalDatagram marshalOutputs (execution.EvNode id ev0, m0)) as [x|] eqn:E; [|done]. exists x.
    apply list_elem_of_filter. split; [|apply list_elem_of_omap; eauto]. cbn in E. injection E as <-. done. }
  assert (forall rs y, y ∈ rs -> exists x, exechistory.earliest rs = Some x /\ x ∈ rs) as He.
  { clear. induction rs as [|z rs IH]; intros y Hy; [by apply elem_of_nil in Hy|]. cbn. destruct rs as [|z' rs]; [exists z; split; [done|by left]|].
    destruct (IH z' ltac:(by left)) as (x & -> & Hx). destruct (_ <? _); eexists; (split; [done|]); [by right|by left]. }
  destruct (He rows x0 Hx0) as (x & -> & Hx). destruct (Hrows x Hx) as (ev & m & Hin & Hn & Hi & Hp). exists ev, m. split; [done|]. split; [done|].
  cbn. by rewrite Hi, Hp.
Qed.

(** [C34] a re-run replays what was recorded.  Take any history the reports of a runtime's tracker have
    filled, an execution reported in it, a user with the operator role in the project of its flow,
    connected runtimes with room in their queues, and statements that all succeed.  The re-run from the
    start is accepted and every connected runtime gets one command, which it turns into the replay, at the
    output of the original trigger, of the datagram it reads from the recorded text of the original seed; the
    re-run from a node is accepted when the trace has the node, and replays, at the port it arrived
    on, the datagram read from the recorded text of an input of that node.  A text that cannot be read
    is replayed by nobody.  The text is the datagram's JSON, or "null" where it has none, so that what is replayed is the original
    only as far as JSON carries it.  Either way the run names the original execution, the history is as
    before, and the log has one entry more. *)
Theorem rerun_replays rt l w e user id flowID trigger seed f :
  history w = record_all rt exechistory.emptyDB l -> reported l id flowID trigger seed ->
  flows (db w) !! flowID = Some f -> auth.requireProjectRole (accounts w) true user (ProjectID f) auth.RoleOperator = None ->
  reachable (reg w) e -> (forall i, ok e i = true) ->
  let accepted from n call :=
    let '(w', st) := rerunExecution w e user true id (Some (from, n)) in
    st = 202 /\ history w' = history w /\ log w' = log w ++ [MkAuditCall (auth.ID user) "execution.rerun" "execution" id ""] /\
    exists c, queued (reg w) (reg w') c /\ runtimeclient.handleEventDownlink Unmarshal true (downlink c) = call in
  accepted "start" "" ((fun d => runtimeclient.ReplayOutput trigger "out" d id) <$> Unmarshal (marshalDatagram seed)) /\
  (forall n, n <> "" -> (exists ev m, (execution.EvNode id ev, m) ∈ l /\ execution.io_NodeID ev = n) ->
     exists ev m, (execution.EvNode id ev, m) ∈ l /\ execution.io_NodeID ev = n /\
       accepted "node" n ((fun d => runtimeclient.ReplayInput n (execution.io_Port ev) d id) <$> Unmarshal (marshalDatagram (execution.Input ev)))).
Proof.
  intros Hh Hrep Hf Hrole Hreach Hok accepted.
  destruct (recorded_execution rt l id flowID trigger seed Hrep) as (x & Hx & Hxf & Hxt & Hxs).
  assert (executionAndAuthorize w e user id auth.RoleOperator = inl (x, exechistory.durationMs x)) as Ha.
  { unfold executionAndAuthorize, authorizeFlow, exechistory.GetExecution, GetFlow. rewrite !Hok, Hh, Hx. cbn. by rewrite Hxf, Hf, Hrole. }
  assert (forall from n n' p d call, rerunPoint w e id x from n = inl (n', p, marshalDatagram d) ->
    runtimeclient.handleEventDownlink Unmarshal true (runtimeclient.DRunExecution from n' p (marshalDatagram d) id) = call ->
    accepted from n call) as Hacc.
  { intros from n n' p d call Hp Hc. unfold accepted, rerunExecution. rewrite Ha, Hp.
    destruct (commanded_accepted w e user (registry.CRunExecution (exechistory.FlowID_ x) from n' p (marshalDatagram d) id) (fun w => w)
      "execution.rerun" "execution" id Hreach Hok ltac:(done)) as (s' & Hs' & Hcmd).
    destruct (commanded _ _ _ _ _ _ _ _ _) as [w' st]. destruct Hcmd as (-> & Hh' & Hl & Hq). split_and!; [done|congruence|done|]. eauto. }
  split.
  - eapply Hacc; [unfold rerunPoint; cbn; by rewrite Hxt, Hxs|]. cbn. by destruct (Unmarshal _).
  - intros n Hn Hev. destruct (recorded_node rt l id n Hev) as (ev & m & Hin & Hnode & Hinp). exists ev, m. split; [done|]. split; [done|].
    apply (Hacc _ _ n (execution.io_Port ev) (execution.Input ev)); [unfold rerunPoint; cbn; rewrite Hh, Hok, Hinp; by destruct (decide (n = ""))|]. cbn. by destruct (Unmarshal _).
Qed.
End replay.

(** ** Dead letters *)

(** A dead letter that is re-injected: what a runtime reads from the recorded text of the datagram goes
    back to the node and the port it failed at, on every connected runtime, and the letter is marked. *)
Theorem reinject_returns {V} (marshalDatagram : datagram.Datagram V -> string) (Unmarshal : string -> option (datagram.Datagram V))
    h w e user id flowID nodeID port reason d at_ f :
  exechistory.RecordDeadLetter h true id (exechistory.Capture flowID nodeID port reason (marshalDatagram d) at_) = (history w, Ok tt) ->
  flows (db w) !! flowID = Some f -> auth.requireProjectRole (accounts w) true user (ProjectID f) auth.RoleOperator = None ->
  reachable (reg w) e -> (forall i, ok e i = true) ->
  let '(w', st) := reinjectDeadLetter w e user true id in
  st = 202 /\ (exists c, queued (reg w) (reg w') c /\
    runtimeclient.handleEventDownlink Unmarshal true (downlink c) = runtimeclient.Reinject nodeID port <$> Unmarshal (marshalDatagram d)) /\
  exists dl, exechistory.GetDeadLetter (history w') true id = Ok (Some dl) /\ exechistory.reinjected_at dl = Some (FormatRFC3339 (now e)) /\
    exechistory.d_Datagram dl = marshalDatagram d.
Proof.
  unfold exechistory.RecordDeadLetter. intros Hrec Hf Hrole Hreach Hok.
  destruct (bool_decide_reflect (id ∉ map exechistory.d_ID (exechistory.dead_letters h))) as [Hnew|]; [|done]. cbn in Hrec. injection Hrec as Hh.
  set (dl := exechistory.MkDeadLetter id _ _ _ _ _ _ _) in Hh.
  assert (forall l1 (g : exechistory.DeadLetter -> exechistory.DeadLetter), (forall x, exechistory.d_ID (g x) = exechistory.d_ID x) ->
    id ∉ map exechistory.d_ID l1 ->
    List.find (fun d => bool_decide (exechistory.d_ID d = id)) (map g (l1 ++ [dl])) = Some (g dl)) as Hfind.
  { intros l1 g Hg. induction l1 as [|y l1 IH]; cbn; [intros _; rewrite Hg; by rewrite bool_decide_true|].
    intros [Hne Hin]%not_elem_of_cons. rewrite Hg, bool_decide_false by done. by apply IH. }
  assert (deadLetterAndAuthorize w e user id auth.RoleOperator = inl dl) as Ha.
  { unfold deadLetterAndAuthorize, authorizeFlow, exechistory.GetDeadLetter, GetFlow. rewrite !Hok, <- Hh. cbn.
    pose proof (Hfind _ (fun x => x) ltac:(done) Hnew) as Hx. rewrite map_id in Hx. rewrite Hx. cbn. by rewrite Hf, Hrole. }
  unfold reinjectDeadLetter. rewrite Ha.
  match goal with |- context [commanded w e user true ?c ?a ?x ?y ?z] =>
    destruct (commanded_accepted w e user c a x y z Hreach Hok ltac:(done)) as (s' & Hs' & Hcmd) end.
  destruct (commanded _ _ _ _ _ _ _ _ _) as [w' st]. destruct Hcmd as (-> & Hh' & Hl & Hq). split; [done|]. split.
  - eexists. split; [exact Hq|]. cbn. by destruct (Unmarshal _).
  - rewrite Hh', Hs', Hok, <- Hh. unfold exechistory.GetDeadLetter, exechistory.MarkDeadLetterReinjected. cbn.
    match goal with |- context [map ?g (_ ++ [dl])] => rewrite (Hfind _ g); [|intros; by case_decide|done] end.
    rewrite decide_True by done. eexists. split; [reflexivity|]. done.
Qed.

(** ** Examples *)
Module examples.
Definition d0 : datagram.Datagram unit := datagram.New "d0" 0 (datagram.MkSource "" "" "" "" "") (datagram.MkPayload tt None).
Definition d1 : datagram.Datagram unit := datagram.New "d1" 0 (datagram.MkSource "" "" "" "" "") (datagram.MkPayload tt None).
Definition marshal0 (d : datagram.Datagram unit) : string := datagram.ID (datagram.header d).
Definition unmarshal0 (s : string) : option (datagram.Datagram unit) :=
  if decide (s = "d0") then Some d0 else if decide (s = "d1") then Some d1 else None.
Definition m0 : @exechistory.meta unit := exechistory.MkMeta "f" "n1" "manual" "" 5000000 d0.
Definition io : @execution.NodeIO unit := execution.MkNodeIO "n2" "in" 1 0 10 d1 [] (Some (execution.MkNodeError "boom" "" "" "n2" 0)).
Definition trace : list (@execution.SinkEvent unit * exechistory.meta) :=
  [(execution.EvStarted "x1", m0); (execution.EvNode "x1" io, m0); (execution.EvFinished "x1" execution.ExecutionFailed "boom", m0)].
Definition h0 : exechistory.DB := exechistory.record_all marshal0 (fun _ => "[]") "r1" exechistory.emptyDB trace.
Definition ops : list registry.op := [registry.ORegister true true true true 1 "t1" "r1" false "1.0" ""; registry.OOpenEvent "r1" "t1"].
Definition w0 : world :=
  MkWorld (MkDB ∅ {["f" := MkFlow "p" "Press" "{}" None "info" None 0 0]} ∅ ∅) auth.emptyDB
    (registry.run (fun x => x) (registry.NewService None (Some h0)) ops).1 [].
Lemma w0_reachable : reachable (reg w0) flowstore.examples.e0.
Proof.
  assert (registry.runtimes (reg w0) = {["r1" := registry.MkRuntimeState false "1.0" "t1" 1 None (Some 0%nat) 0 0 []]}) as Hr
    by (vm_compute; reflexivity).
  assert (registry.eventTargets (reg w0) ["r1"] = [0%nat]) as Ht by (vm_compute; reflexivity).
  split; [|apply NoDup_singleton| | | |done].
  - apply registry.run_registry_ok; [repeat constructor|apply registry.NewService_ok].
  - intros r. rewrite Hr. intros [x [<- _]%lookup_singleton_Some]. by left.
  - by cbn [flowstore.examples.e0 order]; rewrite Ht.
  - cbn [flowstore.examples.e0 order]. rewrite Ht. intros ch q ->%list_elem_of_singleton.
    replace (registry.eventChans (reg w0) !! 0%nat) with (Some ([] : list registry.command)) by (vm_compute; reflexivity).
    intros [= <-]. cbn. unfold registry.eventChanBuffer. lia.
Qed.

Lemma rerun_replays_witness :
  (rerunExecution w0 flowstore.examples.e0 flowstore.examples.admin true "x1" (Some ("start", ""))).2 = 202 /\
  (rerunExecution w0 flowstore.examples.e0 flowstore.examples.admin true "x1" (Some ("node", "n2"))).2 = 202.
Proof.
  destruct (rerun_replays (Some ∘ marshal0) (fun _ => Some "[]") unmarshal0 "r1" trace w0 flowstore.examples.e0 flowstore.examples.admin "x1" "f" "n1" d0
    (MkFlow "p" "Press" "{}" None "info" None 0 0)) as [Hs Hn].
  - vm_compute. reflexivity.
  - split; [exists (execution.EvStarted "x1"), m0; split; [left|by right]|].
    intros e m He [-> | ->]; unfold trace in He; rewrite !elem_of_cons in He;
      destruct He as [[= ->]|[[=]|[[=]|He%elem_of_nil]]]; done.
  - vm_compute. reflexivity.
  - vm_compute. reflexivity.
  - exact w0_reachable.
  - done.
  - split.
    + destruct (rerunExecution _ _ _ _ _ (Some ("start", ""))) as [w' st]. exact (proj1 Hs).
    + destruct (Hn "n2" ltac:(done)) as (ev & m & _ & _ & Ha); [exists io, m0; split; [right; left|done]|].
      destruct (rerunExecution _ _ _ _ _ (Some ("node", "n2"))) as [w' st]. exact (proj1 Ha).
Defined.

(** A node that handled several datagrams: the re-run from that node replays the first, not the one
    that failed. *)
Definition io1 (i : Z) (d : datagram.Datagram unit) (err : option execution.NodeError) : @execution.NodeIO unit :=
  execution.MkNodeIO "n2" "in" 1 (i * 2000000000) 10 d [] err.
Lemma rerun_takes_first :
  exechistory.GetExecutionNodeInput
    (exechistory.record_all marshal0 (fun _ => "[]") "r1" exechistory.emptyDB
       [(execution.EvStarted "x1", m0); (execution.EvNode "x1" (io1 0 d0 None), m0);
        (execution.EvNode "x1" (io1 1 d1 (Some (execution.MkNodeError "boom" "" "" "n2" 0))), m0)]) true "x1" "n2" = Ok (Some ("d0", "in")).
Proof. vm_compute. reflexivity. Qed.
End examples.
End execapi.
