(* ===== verification/DebugApi.v ===== *)
(** * Debugging from the browser

    The handlers of [controlplane/internal/api/debug.go]: pinned samples, the execution of a single
    node of a draft, the full value of a truncated event, and the WebSocket that relays the events of
    a flow from the hub ([DebugHub]) to a browser.  The relay is a system of handlers beside the hub
    and its runtimes, in any order of their steps. *)

From S2P Require Import Prelude GoStd Datagram Execution Value FlowFile Runner TryCatch Auth Registry FlowStore DebugHub.
Import gostd flowstore.
Local Open Scope Z_scope.

Module debugapi.

(** ** Pins *)

(** The table by its primary key: the JSON of the value and the time. *)
Definition Pins : Type := gmap (string * string * string) (string * Z).
Record DebugPin (V : Type) := MkDebugPin { NodeID : string; Port : string; Value : V; UpdatedAt : Z }.
Arguments MkDebugPin {V}. Arguments NodeID {V}. Arguments Port {V}. Arguments Value {V}. Arguments UpdatedAt {V}.
Section pins.
Context {V : Type} (Marshal : V -> option string) (Unmarshal : string -> option V).
Definition UpsertPin (t : Pins) (ok : bool) (now : Z) (flowID nodeID port : string) (value : V) : Pins * res StoreError (DebugPin V) :=
  match Marshal value with
  | None => (t, Err ErrDB)
  | Some js =>
      if ok then (<[(flowID, nodeID, port) := (js, FormatRFC3339 now)]> t, Ok (MkDebugPin nodeID port value now)) else (t, Err ErrDB)
  end.
Definition DeletePin (t : Pins) (ok : bool) (flowID nodeID port : string) : Pins * res StoreError unit :=
  if ok then (delete (flowID, nodeID, port) t, Ok tt) else (t, Err ErrDB).
(** [ORDER BY node_id, port]: sorted by port, then stably by node. *)
Definition rows_of (t : Pins) (flowID : string) : list (string * string * (string * Z)) :=
  sortBy (fun r => r.1.1) (sortBy (fun r => r.1.2)
    (omap (fun kv => if decide (kv.1.1.1 = flowID) then Some (kv.1.1.2, kv.1.2, kv.2) else None) (map_to_list t))).
Definition scanPin (r : string * string * (string * Z)) : option (DebugPin V) :=
  v ← Unmarshal r.2.1; Some (MkDebugPin r.1.1 r.1.2 v (ParseRFC3339 r.2.2)).
Definition ListPins (t : Pins) (ok : bool) (flowID : string) : res StoreError (list (DebugPin V)) :=
  if ok then match mapM scanPin (rows_of t flowID) with Some l => Ok l | None => Err ErrDB end else Err ErrDB.

(** ** Handlers of pins *)

Definition listPins (w : world) (t : Pins) (e : env) (user : auth.User) (flowID : string) : list (DebugPin V) + Z :=
  match flowAndAuthorize w e user flowID auth.RoleViewer with
  | inr st => inr st
  | inl _ => match ListPins t (ok e 2) flowID with Ok l => inl l | _ => inr 500 end
  end.
Definition upsertPin (w : world) (t : Pins) (e : env) (user : auth.User) (flowID nodeID port : string) (body : option V) : world * Pins * Z :=
  match flowAndAuthorize w e user flowID auth.RoleEditor with
  | inr st => (w, t, st)
  | inl f =>
      match body with
      | None => (w, t, 400)
      | Some v =>
          match UpsertPin t (ok e 2) (now e) flowID nodeID port v with
          | (t', Ok _) => (audit w (ok e 9) (auth.ID user) "debug.pin.set" "flow" flowID (ProjectID f), t', 200)
          | (t', _) => (w, t', 500)
          end
      end
  end.
Definition deletePin (w : world) (t : Pins) (e : env) (user : auth.User) (flowID nodeID port : string) : world * Pins * Z :=
  match flowAndAuthorize w e user flowID auth.RoleEditor with
  | inr st => (w, t, st)
  | inl f =>
      match DeletePin t (ok e 2) flowID nodeID port with
      | (t', Ok _) => (audit w (ok e 9) (auth.ID user) "debug.pin.delete" "flow" flowID (ProjectID f), t', 204)
      | (t', _) => (w, t', 500)
      end
  end.
End pins.

(** ** A single node *)

Section execute.
Context (Parse : string -> option flowfile.FlowFile) (types : flowfile.Registry) (code : string -> string -> value.dgram -> runner.outcome).
Inductive executed := Outputs (l : list value.portDgm) | Failed (e : runner.goerr).
Definition find_node (ff : flowfile.FlowFile) (nodeID : string) : option flowfile.Node :=
  List.find (fun n => bool_decide (flowfile.ID n = nodeID)) (flowfile.Nodes (flowfile.graph ff)).
(** [Panic]: the factory of the node's type panicked. *)
Definition executeNode (w : world) (e : env) (user : auth.User) (flowID nodeID id : string) (body : option value.any) : res Z executed :=
  match flowAndAuthorize w e user flowID auth.RoleEditor with
  | inr st => Err st
  | inl f =>
      match Parse (Content f) with
      | None => Err 400
      | Some ff =>
          match find_node ff nodeID with
          | None => Err 400
          | Some n =>
              match body with
              | None => Err 400
              | Some v =>
                  let inp := datagram.New id (now e) (datagram.MkSource flowID nodeID "" "" "design-time-execute") (datagram.MkPayload v None) in
                  match trycatch.ExecuteNode types code (flowfile.Type_ n) (flowfile.Config n) inp with
                  | Ok rs => Ok (Outputs rs)
                  | Err x => Ok (Failed x)
                  | Panic => Panic
                  end
              end
          end
      end
  end.
End execute.

Definition loadFullDebugEvent (w : world) (h : debughub.Hub) (e : env) (user : auth.User) (flowID eventID : string) : string + Z :=
  match flowAndAuthorize w e user flowID auth.RoleOperator with
  | inr st => inr st
  | inl _ => match debughub.LoadFull h flowID eventID with Some full => inl full | None => inr 404 end
  end.

(** ** The relay *)

Inductive wsMessage :=
| WEvent (id flowID nodeID port direction label : string) (timeUnixMs : Z) (datagramID correlationID causationID quality valueJson : string)
         (truncated : bool) (fullLength : Z)
| WMetrics (flowID fromNode fromPort toNode toPort : string) (delivered dropped : Z).
Definition toWSMessage (item : debughub.Item) : wsMessage :=
  match item with
  | debughub.IEvent e =>
      WEvent (debughub.ID e) (debughub.FlowID e) (debughub.NodeID e) (debughub.Port e) (debughub.Direction e) (debughub.Label e)
        (debughub.TimeUnixMs e) (debughub.DatagramID e) (debughub.CorrelationID e) (debughub.CausationID e) (debughub.Quality e)
        (debughub.ValueJSON e) (debughub.Truncated e) (debughub.FullLength e)
  | debughub.IMetric m =>
      WMetrics (debughub.m_FlowID m) (debughub.FromNode m) (debughub.FromPort m) (debughub.ToNode m) (debughub.ToPort m)
        (debughub.Delivered m) (debughub.Dropped m)
  end.
Definition ws_flow (m : wsMessage) : string := match m with WEvent _ f _ _ _ _ _ _ _ _ _ _ _ _ | WMetrics f _ _ _ _ _ _ => f end.

(** The handler relays; it has left its loop and has [cancel] before it; it has returned. *)
Inductive phase := Relaying | Leaving | Gone.
Record socket := MkSocket { s_flow : string; s_ch : nat; s_phase : phase; s_sent : list wsMessage }.
Definition watching (k : socket) : bool := match s_phase k with Gone => false | _ => true end.
(** [pending]: the sends that goroutines which have released the hub's lock still have to make, each in its order. *)
Record system := MkSystem { api : world; dbg : debughub.world; sockets : list socket; pending : list (list debughub.act) }.

Section relay.
Context (hashToken : string -> string).

(** The checks of [debugWebSocket] before the handshake. *)
Definition ws_authorize (w : world) (e : env) (token flowID : string) : auth.User + Z :=
  if decide (token = "") then inr 401 else
  match auth.ValidateSession hashToken (accounts w) (ok e 0) (ok e 1) (now e) token with
  | Ok user =>
      if decide (flowID = "") then inr 400 else
      match GetFlow (db w) (ok e 2) flowID with
      | Err ErrNoRows => inr 404
      | Ok f =>
          match auth.RequireProjectRole (accounts w) (ok e 3) user (ProjectID f) auth.RoleOperator with
          | Ok _ => inl user
          | _ => inr 403
          end
      | _ => inr 500
      end
  | _ => inr 401
  end.

Inductive wsEvent :=
| WOpen (e : env) (token flowID : string) (accept : bool)   (* a request, and the outcome of the handshake *)
| WTurn (i : nat) (written : bool)                          (* a handler takes an item and writes it *)
| WDone (i : nat)                                           (* the browser is gone *)
| WLeave (i : nat)                                          (* the deferred [cancel] *)
| WSend (j : nat) (arrives : bool)                          (* the next send of a goroutine outside the lock *)
| WConnect (runtimeID : string) (left_ : gset string) | WUplink (u : debughub.uplink) | WDisconnect (runtimeID : string) (handle : nat)
| WApi (w : world).                                         (* another request changes accounts or flows *)

(** The part of an operation under the lock; its sends remain to be made. *)
Definition hub_step (s : system) (o : debughub.op) (socks : list socket) : res unit system :=
  '(d, acts) ← debughub.locked (dbg s) o; Ok (MkSystem (api s) d socks (pending s ++ [acts])).
(** A send that does not arrive: the stream is down and the error is dropped, or another sender
    took the place that [nonBlockingSend] made by dropping the oldest item. *)
Definition miss (w : debughub.world) (a : debughub.act) : debughub.world :=
  match a with
  | debughub.ASend _ _ => w
  | debughub.AItem ch _ =>
      debughub.MkWorld (debughub.hub w) (debughub.sinks w) (alter tail ch (debughub.chans w)) (debughub.next_handle w) (debughub.next_chan w)
  end.
Definition ws_step (s : system) (ev : wsEvent) : res unit system :=
  match ev with
  | WOpen e token flowID accept =>
      match ws_authorize (api s) e token flowID with
      | inr _ => Ok s
      | inl _ =>
          if negb accept then Ok s
          else hub_step s (debughub.OSubscribe flowID) (sockets s ++ [MkSocket flowID (debughub.next_chan (dbg s)) Relaying []])
      end
  | WTurn i written =>
      match sockets s !! i with
      | Some k =>
          match s_phase k, debughub.chans (dbg s) !! s_ch k with
          | Relaying, Some (it :: _) =>
              hub_step s (debughub.OReceive (s_ch k))
                (<[i := if written then MkSocket (s_flow k) (s_ch k) Relaying (s_sent k ++ [toWSMessage it])
                        else MkSocket (s_flow k) (s_ch k) Leaving (s_sent k)]> (sockets s))
          | _, _ => Ok s
          end
      | None => Ok s
      end
  | WDone i =>
      match sockets s !! i with
      | Some k =>
          match s_phase k with
          | Relaying => Ok (MkSystem (api s) (dbg s) (<[i := MkSocket (s_flow k) (s_ch k) Leaving (s_sent k)]> (sockets s)) (pending s))
          | _ => Ok s
          end
      | None => Ok s
      end
  | WLeave i =>
      match sockets s !! i with
      | Some k =>
          match s_phase k with
          | Leaving => hub_step s (debughub.OCancel (s_flow k) (s_ch k)) (<[i := MkSocket (s_flow k) (s_ch k) Gone (s_sent k)]> (sockets s))
          | _ => Ok s
          end
      | None => Ok s
      end
  | WSend j arrives =>
      match pending s !! j with
      | Some (a :: acts) =>
          Ok (MkSystem (api s) (if arrives then debughub.perform (dbg s) a else miss (dbg s) a) (sockets s) (<[j := acts]> (pending s)))
      | _ => Ok s
      end
  | WConnect rid left_ => hub_step s (debughub.OConnect rid left_) (sockets s)
  | WUplink u => hub_step s (debughub.OUplink u) (sockets s)
  | WDisconnect rid hd => hub_step s (debughub.ODisconnect rid hd) (sockets s)
  | WApi w => Ok (MkSystem w (dbg s) (sockets s) (pending s))
  end.
Fixpoint ws_run (s : system) (es : list wsEvent) : res unit system :=
  match es with [] => Ok s | ev :: es' => s' ← ws_step s ev; ws_run s' es' end.
Definition ws_start (w : world) : system := MkSystem w debughub.initWorld [] [].
End relay.

(** ** What one step of the hub does to subscribers, caches and channels *)

Definition item_flow (it : debughub.Item) : string :=
  match it with debughub.IEvent e => debughub.FlowID e | debughub.IMetric m => debughub.m_FlowID m end.
Lemma toWSMessage_flow it : ws_flow (toWSMessage it) = item_flow it.
Proof. by destruct it. Qed.
Definition subs (w : debughub.world) (f : string) : gset nat := debughub.subscribers (debughub.flowStateLocked (debughub.hub w) f).
Definition caches_ok (w : debughub.world) : Prop :=
  forall f, Forall (fun e => debughub.FlowID e = f) (debughub.cache (debughub.flowStateLocked (debughub.hub w) f)).

Lemma pushCache_effect fs ev full fs' : debughub.pushCache fs ev full = Ok fs' ->
  debughub.subscribers fs' = debughub.subscribers fs /\ forall e, e ∈ debughub.cache fs' -> e ∈ debughub.cache fs \/ e = ev.
Proof.
  unfold debughub.pushCache. destruct (_ <=? _)%nat; [destruct (debughub.cacheOrder fs)|]; intros [= <-]; cbn; (split; [done|]);
    intros e [He|He%list_elem_of_singleton]%elem_of_app; auto. left. destruct (debughub.cache fs); [done|by right].
Qed.
Lemma locked_subs w o w' acts : debughub.locked w o = Ok (w', acts) -> forall f, subs w' f =
  match o with
  | debughub.OSubscribe g => if decide (g = f) then {[debughub.next_chan w]} ∪ subs w f else subs w f
  | debughub.OCancel g ch => if decide (g = f) then subs w f ∖ {[ch]} else subs w f
  | _ => subs w f
  end.
Proof.
  unfold subs. destruct o as [rid l|[|e|m]|rid hd|g|g ch|ch]; cbn; intros H f; try (injection H as <- <-; try done).
  - unfold debughub.dispatchEvent in H. destruct (debughub.pushCache _ _ _) as [fs| |] eqn:E; try done. cbn in H. injection H as <- <-. cbn.
    apply pushCache_effect in E as [Hs _]. rewrite debughub.put_flow_state. case_decide as Hd; [rewrite Hs; by destruct Hd|done].
  - cbn. rewrite debughub.put_flow_state. case_decide as Hd; [by destruct Hd|done].
  - cbn. unfold debughub.detachRuntime. by case_decide.
  - cbn. rewrite debughub.put_flow_state. case_decide as Hd; [by destruct Hd|done].
  - destruct (debughub.unsubscribe _ _ _) as [h a] eqn:E. cbn in H. injection H as <- <-. cbn. unfold debughub.unsubscribe in E.
    unfold debughub.flowStateLocked. destruct (debughub.flows _ !! g) as [fs|] eqn:Eg.
    + destruct (decide (ch ∉ debughub.subscribers fs)) as [Hn|Hn].
      * injection E as <- _. case_decide as Hd; [|done]. rewrite <- Hd, Eg. cbn. set_solver.
      * injection E as <- _. cbn. case_decide as Hd; [rewrite <- Hd, lookup_insert_eq, Eg; done|by rewrite lookup_insert_ne].
    + injection E as <- _. case_decide as Hd; [|done]. rewrite <- Hd, Eg. cbn. set_solver.
Qed.
Lemma locked_caches w o w' acts : debughub.locked w o = Ok (w', acts) -> caches_ok w -> caches_ok w'.
Proof.
  intros H Hc f. specialize (Hc f). destruct o as [rid l|[|e|m]|rid hd|g|g ch|ch]; cbn in H; try (injection H as <- <-; try done).
  - unfold debughub.dispatchEvent in H. destruct (debughub.pushCache _ _ _) as [fs| |] eqn:E; try done. cbn in H. injection H as <- <-. cbn.
    apply pushCache_effect in E as [_ He]. rewrite debughub.put_flow_state. case_decide as Hd; [|done]. rewrite Forall_forall in *.
    intros x Hx. destruct (He x Hx) as [Hx' | ->]; [apply Hc; by destruct Hd|done].
  - cbn. rewrite debughub.put_flow_state. case_decide as Hd; [by destruct Hd|done].
  - cbn. unfold debughub.detachRuntime. by case_decide.
  - cbn. rewrite debughub.put_flow_state. case_decide as Hd; [by destruct Hd|done].
  - destruct (debughub.unsubscribe _ _ _) as [h a] eqn:E. cbn in H. injection H as <- <-. cbn. unfold debughub.unsubscribe in E.
    unfold debughub.flowStateLocked in *. destruct (debughub.flows _ !! g) as [fs|] eqn:Eg; [|by injection E as <- _].
    destruct (decide _); injection E as <- _; [done|]. cbn. destruct (decide (g = f)) as [<-|];
      [rewrite lookup_insert_eq; rewrite Eg in Hc; done|by rewrite lookup_insert_ne].
Qed.
(** Items go to subscribers of their own flow. *)
Lemma locked_items w o w' acts : debughub.locked w o = Ok (w', acts) -> caches_ok w ->
  forall ch it, debughub.AItem ch it ∈ acts -> ch ∈ subs w' (item_flow it).
Proof.
  intros H Hc ch it Hin. pose proof (locked_subs w o w' acts H (item_flow it)) as Hs.
  destruct o as [rid l|[|e|m]|rid hd|g|g ch0|ch0]; cbn in H.
  - injection H as <- <-. apply list_elem_of_fmap in Hin as (? & [=] & _).
  - injection H as <- <-. by apply elem_of_nil in Hin.
  - unfold debughub.dispatchEvent in H. destruct (debughub.pushCache _ _ _) as [fs| |] eqn:E; try done. cbn in H. injection H as <- <-.
    apply list_elem_of_fmap in Hin as (x & [= -> ->] & Hx%elem_of_elements). rewrite Hs. cbn. apply pushCache_effect in E as [Ef _]. rewrite Ef in Hx. done.
  - injection H as <- <-. apply list_elem_of_fmap in Hin as (x & [= -> ->] & Hx%elem_of_elements). by rewrite Hs.
  - injection H as <- <-. by apply elem_of_nil in Hin.
  - injection H as <- <-. apply elem_of_app in Hin as [(x & [= -> ->] & Hx)%list_elem_of_fmap|Hin].
    + specialize (Hc g). rewrite Forall_forall in Hc. cbn in Hs |- *. rewrite Hs, (Hc x Hx), decide_True by done. set_solver.
    + destruct (_ =? _); [apply list_elem_of_fmap in Hin as (? & [=] & _)|by apply elem_of_nil in Hin].
  - destruct (debughub.unsubscribe _ _ _) as [h a] eqn:E. cbn in H. injection H as <- <-. unfold debughub.unsubscribe in E.
    destruct (debughub.flows _ !! g) as [fs|]; [destruct (decide _)|]; injection E as <- <-; try by apply elem_of_nil in Hin.
    destruct (_ =? _); [apply list_elem_of_fmap in Hin as (? & [=] & _)|by apply elem_of_nil in Hin].
  - injection H as <- <-. by apply elem_of_nil in Hin.
Qed.
(** A runtime is told to forward a flow only when someone watches it at that moment. *)
Lemma locked_asks w o w' acts : debughub.locked w o = Ok (w', acts) -> debughub.hub_ok (debughub.hub w) (debughub.next_chan w) ->
  forall hd f, debughub.ASend hd (debughub.DSubscribe f) ∈ acts -> exists ch, ch ∈ subs w' f.
Proof.
  intros H Hh hd f Hin. pose proof (locked_subs w o w' acts H f) as Hs.
  destruct o as [rid l|[|e|m]|rid hd0|g|g ch0|ch0]; cbn in H.
  - injection H as <- <-. apply list_elem_of_fmap in Hin as ([g fs] & [= -> ->] & [Hr Hf]%list_elem_of_filter). apply elem_of_map_to_list in Hf.
    cbn in Hr, Hf. rewrite Hs. apply set_choose_L. unfold subs, debughub.flowStateLocked. rewrite Hf. cbn.
    apply debughub.flow_ok_watched; [by eapply Hh|done].
  - injection H as <- <-. by apply elem_of_nil in Hin.
  - unfold debughub.dispatchEvent in H. destruct (debughub.pushCache _ _ _) as [fs| |]; try done. cbn in H. injection H as <- <-.
    by apply (debughub.not_send_item id) in Hin.
  - injection H as <- <-. by apply (debughub.not_send_item id (fun _ => debughub.IMetric m)) in Hin.
  - injection H as <- <-. by apply elem_of_nil in Hin.
  - injection H as <- <-. apply elem_of_app in Hin as [Hin|Hin]; [by apply (debughub.not_send_item (fun _ => debughub.next_chan w) debughub.IEvent) in Hin|].
    destruct (_ =? _); [|by apply elem_of_nil in Hin]. apply debughub.elem_of_sends in Hin as [_ [= ->]].
    rewrite Hs, decide_True by done. exists (debughub.next_chan w). set_solver.
  - destruct (debughub.unsubscribe _ _ _) as [h a] eqn:E. cbn in H. injection H as <- <-. unfold debughub.unsubscribe in E.
    destruct (debughub.flows _ !! g) as [fs|]; [destruct (decide _)|]; injection E as <- <-; try by apply elem_of_nil in Hin.
    destruct (_ =? _); [by apply debughub.elem_of_sends in Hin as [_ ?]|by apply elem_of_nil in Hin].
  - injection H as <- <-. by apply elem_of_nil in Hin.
Qed.

(** ** The relay keeps to the flows that were asked for *)

(** What the sinks of all streams forward. *)
Definition forwarded (w : debughub.world) (f : string) : Prop :=
  exists hd sink, debughub.sinks w !! hd = Some sink /\ f ∈ debughub.subscribed sink.
Definition left_by (o : debughub.op) (f : string) : Prop := match o with debughub.OConnect _ l => f ∈ l | _ => False end.
Lemma locked_forwarded w o w' acts f : debughub.locked w o = Ok (w', acts) -> forwarded w' f -> forwarded w f \/ left_by o f.
Proof.
  intros H (hd & sink & Hl & Hf).
  assert (debughub.sinks w' = debughub.sinks w -> forwarded w f) as Hsame by (intros E; rewrite E in Hl; by exists hd, sink).
  destruct o as [rid l|u|rid hd0|g|g ch0|ch0]; cbn in H.
  - injection H as <- <-. cbn in Hl. apply lookup_insert_Some in Hl as [[_ <-]|[_ Hl]]; [by right|left; by exists hd, sink].
  - destruct (debughub.handleUplink _ _) as [[]| |]; [|done..]. cbn in H. injection H as <- <-. auto.
  - injection H as <- <-. cbn in Hl. apply lookup_alter_Some in Hl as [(-> & s0 & Hl & ->)|[_ Hl]]; left; [by exists hd, s0|by exists hd, sink].
  - injection H as <- <-. auto.
  - destruct (debughub.unsubscribe _ _ _). injection H as <- <-. auto.
  - injection H as <- <-. auto.
Qed.
(** One send, or its failure, leaves the hub alone and adds to channels and sinks only what it carries. *)
Lemma send_effect (b : bool) w a w' : w' = (if b then debughub.perform w a else miss w a) ->
  debughub.hub w' = debughub.hub w /\ debughub.next_chan w' = debughub.next_chan w /\
  (forall ch q, debughub.chans w' !! ch = Some q ->
     exists q0, debughub.chans w !! ch = Some q0 /\ forall it, it ∈ q -> it ∈ q0 \/ a = debughub.AItem ch it) /\
  (forall f, forwarded w' f -> forwarded w f \/ exists hd, a = debughub.ASend hd (debughub.DSubscribe f)).
Proof.
  assert (forall q (it : debughub.Item), it ∈ tail q -> it ∈ q) as Htail by (intros [|x q] it; [done|by right]).
  intros ->. destruct a as [hd d|ch it], b; cbn; (split; [done|]); (split; [done|]); split; eauto.
  - intros f (hd' & sink & Hl & Hf). cbn in Hl. apply lookup_alter_Some in Hl as [(-> & s0 & Hl & ->)|[_ Hl]]; [|left; by exists hd', sink].
    destruct d as [g|g]; cbn in Hf; [apply elem_of_union in Hf as [->%elem_of_singleton|Hf]; [eauto|]|apply elem_of_difference in Hf as [Hf _]];
      left; by exists hd', s0.
  - intros c q Hl. apply lookup_alter_Some in Hl as [(-> & q0 & Hl & ->)|[_ Hl]]; [|by eauto]. exists q0. split; [done|].
    intros x Hx. unfold debughub.nonBlockingSend in Hx. destruct (_ <? _)%nat; apply elem_of_app in Hx as [Hx| ->%list_elem_of_singleton]; auto.
  - intros c q Hl. apply lookup_alter_Some in Hl as [(-> & q0 & Hl & ->)|[_ Hl]]; eauto.
Qed.

(** The sockets that have not cancelled are the subscribers; each has a channel of its own, with items of its flow. *)
Record socks_ok (w : debughub.world) (ks : list socket) : Prop := {
  so_subs : forall f ch, ch ∈ subs w f <-> exists k, k ∈ ks /\ watching k = true /\ s_flow k = f /\ s_ch k = ch;
  so_own : NoDup (map s_ch ks);
  so_old : forall k, k ∈ ks -> (s_ch k < debughub.next_chan w)%nat;
  so_items : forall k q, k ∈ ks -> debughub.chans w !! s_ch k = Some q -> Forall (fun it => item_flow it = s_flow k) q;
  so_sent : forall k, k ∈ ks -> Forall (fun m => ws_flow m = s_flow k) (s_sent k)
}.
(** [kept]: the flows that sinks kept from earlier connections. *)
Record sys_ok (kept : string -> Prop) (s : system) : Prop := {
  sy_hub : debughub.hub_ok (debughub.hub (dbg s)) (debughub.next_chan (dbg s));
  sy_caches : caches_ok (dbg s);
  sy_socks : socks_ok (dbg s) (sockets s);
  sy_items : forall acts ch it, acts ∈ pending s -> debughub.AItem ch it ∈ acts ->
    exists k, k ∈ sockets s /\ s_ch k = ch /\ s_flow k = item_flow it;
  sy_asks : forall acts hd f, acts ∈ pending s -> debughub.ASend hd (debughub.DSubscribe f) ∈ acts -> f ∈ map s_flow (sockets s);
  sy_forwards : forall f, forwarded (dbg s) f -> f ∈ map s_flow (sockets s) \/ kept f
}.

Lemma own_socket ks k k' : NoDup (map s_ch ks) -> k ∈ ks -> k' ∈ ks -> s_ch k = s_ch k' -> k = k'.
Proof.
  intros Hn (i & Hi)%list_elem_of_lookup (j & Hj)%list_elem_of_lookup E.
  assert (i = j) as ->; [|congruence]. eapply (NoDup_lookup _ _ _ (s_ch k) Hn); rewrite list_lookup_fmap; [by rewrite Hi|by rewrite Hj, E].
Qed.
(** The sockets of [ks] are those of [ks'] or their later states. *)
Definition continued (ks ks' : list socket) : Prop :=
  forall k, k ∈ ks -> exists k', k' ∈ ks' /\ s_ch k' = s_ch k /\ s_flow k' = s_flow k.
Lemma continued_flows ks ks' f : continued ks ks' -> f ∈ map s_flow ks -> f ∈ map s_flow ks'.
Proof. intros H (k & -> & Hk)%list_elem_of_fmap. destruct (H k Hk) as (k' & Hk' & _ & <-). by apply list_elem_of_fmap_2. Qed.
Lemma sys_ok_weaken (kept kept' : string -> Prop) s : (forall f, kept f -> kept' f) -> sys_ok kept s -> sys_ok kept' s.
Proof. intros H [H1 H2 H3 H4 H5 H6]. split; try done. intros f [?|?]%H6; auto. Qed.

(** The locked part of an operation: the sends it leaves behind are for the subscribers and flows of that moment. *)
Lemma hub_step_ok kept s o ks : sys_ok kept s -> continued (sockets s) ks ->
  (forall w acts, debughub.locked (dbg s) o = Ok (w, acts) -> socks_ok w ks) ->
  exists s', hub_step s o ks = Ok s' /\ sys_ok (fun f => kept f \/ left_by o f) s' /\ sockets s' = ks.
Proof.
  intros [Hh Hc _ Hpi Hpa Hfw] Hcont Hk. destruct (debughub.locked_hub_ok (dbg s) o Hh) as (w & acts & El & Hh').
  specialize (Hk w acts El). unfold hub_step. rewrite El. cbn. eexists. split; [done|]. split; [|done].
  split; cbn [dbg sockets pending api]; [done|by eapply locked_caches|done|..].
  - intros l ch it [Hl| ->%list_elem_of_singleton]%elem_of_app Hin.
    + destruct (Hpi l ch it Hl Hin) as (k & Hkk & <- & <-). destruct (Hcont k Hkk) as (k' & ? & <- & <-). eauto.
    + pose proof (locked_items _ _ _ _ El Hc _ _ Hin) as (k & ? & _ & ? & ?)%(so_subs _ _ Hk). eauto.
  - intros l hd f [Hl| ->%list_elem_of_singleton]%elem_of_app Hin; [eapply continued_flows; [done|by eapply Hpa]|].
    destruct (locked_asks _ _ _ _ El Hh _ _ Hin) as (ch & (k & Hkk & _ & <- & _)%(so_subs _ _ Hk)). by apply list_elem_of_fmap_2.
  - intros f [[Hf|Hf]%Hfw|Hf]%(locked_forwarded _ _ _ _ _ El); [left; by eapply continued_flows|auto..].
Qed.
Lemma continued_refl ks : continued ks ks.
Proof. intros k Hk. eauto. Qed.
(** Operations that leave subscribers and channels alone. *)
Lemma hub_step_same kept s o : sys_ok kept s -> match o with debughub.OConnect _ _ | debughub.OUplink _ | debughub.ODisconnect _ _ => True | _ => False end ->
  exists s', hub_step s o (sockets s) = Ok s' /\ sys_ok (fun f => kept f \/ left_by o f) s' /\ sockets s' = sockets s.
Proof.
  intros Hs Ho. apply hub_step_ok; [done|apply continued_refl|]. intros w acts H.
  destruct Hs as [_ _ [H1 H2 H3 H4 H5] _ _ _]. pose proof (locked_subs _ _ _ _ H) as Hsub.
  assert (debughub.chans w = debughub.chans (dbg s) /\ debughub.next_chan w = debughub.next_chan (dbg s)) as [Ec En].
  { destruct o as [| u | | | |]; cbn in H; try done; [by injection H as <- <-| |by injection H as <- <-].
    destruct (debughub.handleUplink _ u) as [[]| |]; [|done..]. cbn in H. by injection H as <- <-. }
  split; rewrite ?Ec, ?En; try done. intros f ch. rewrite Hsub, <- H1. by destruct o.
Qed.
(** A socket that moves on keeps its flow and its channel. *)
Lemma elem_of_update ks i (k k' x : socket) : ks !! i = Some k -> NoDup (map s_ch ks) -> s_ch k' = s_ch k ->
  (x ∈ <[i := k']> ks <-> x = k' \/ (x ∈ ks /\ s_ch x <> s_ch k)).
Proof.
  intros Hi Hn Hc. assert (k ∈ ks) as Hk by (by eapply list_elem_of_lookup_2). rewrite !list_elem_of_lookup. split.
  - intros [j Hj]. apply list_lookup_insert_Some in Hj as [(<- & -> & _)|(Hne & Hj)]; [by left|]. right. split; [eauto|].
    intros E. apply Hne. eapply (NoDup_lookup _ _ _ (s_ch k) Hn); rewrite list_lookup_fmap; [by rewrite Hi|by rewrite Hj; cbn; rewrite E].
  - intros [-> |[[j Hj] Hne]]; [exists i; by rewrite list_lookup_insert_eq by (by eapply lookup_lt_Some)|].
    exists j. rewrite list_lookup_insert_ne; [done|]. intros ->. congruence.
Qed.
Lemma update_same {B} (g : socket -> B) ks i (k k' : socket) : ks !! i = Some k -> g k' = g k -> map g (<[i := k']> ks) = map g ks.
Proof. intros Hi Hc. change (g <$> <[i:=k']> ks = g <$> ks). rewrite list_fmap_insert. apply list_insert_id. by rewrite list_lookup_fmap, Hi, Hc. Qed.
Lemma continued_update ks i (k k' : socket) : ks !! i = Some k -> NoDup (map s_ch ks) -> s_ch k' = s_ch k -> s_flow k' = s_flow k ->
  continued ks (<[i := k']> ks).
Proof.
  intros Hi Hn Hc Hf x Hx. setoid_rewrite (fun y => elem_of_update ks i k k' y Hi Hn Hc). destruct (decide (s_ch x = s_ch k)) as [E|E].
  - exists k'. rewrite (own_socket ks x k Hn Hx (list_elem_of_lookup_2 _ _ _ Hi) E). auto.
  - exists x. auto.
Qed.
(** A socket moves on to [k']: it stays subscribed, and what it has sent is of its flow. *)
Lemma socks_ok_update w ks i k k' : socks_ok w ks -> ks !! i = Some k -> s_ch k' = s_ch k -> s_flow k' = s_flow k ->
  watching k' = watching k -> Forall (fun m => ws_flow m = s_flow k) (s_sent k') -> socks_ok w (<[i := k']> ks).
Proof.
  intros [H1 H2 H3 H4 H5] Hk Hc Hf Hw Hsent. assert (k ∈ ks) as Hkin by (by eapply list_elem_of_lookup_2).
  pose proof (fun x => elem_of_update ks i k k' x Hk H2 Hc) as Hel. split.
  - intros f ch. rewrite H1. setoid_rewrite Hel. split.
    + intros (x & Hx & Ho & <- & <-). destruct (decide (s_ch x = s_ch k)) as [Ex|Ex]; [|exists x; auto].
      exists k'. rewrite (own_socket ks x k H2 Hx Hkin Ex) in *. rewrite Hc, Hf, Hw. auto.
    + intros (x & [-> |[Hx _]] & Ho & <- & <-); [exists k; by rewrite <- Hw|eauto].
  - by rewrite (update_same _ _ _ k).
  - intros x [-> |[Hx _]]%Hel; [rewrite Hc; auto|auto].
  - intros x q [-> |[Hx _]]%Hel; [rewrite Hc, Hf|]; auto.
  - intros x [-> |[Hx _]]%Hel; [by rewrite Hf|auto].
Qed.
Lemma subscribe_ok kept s f : sys_ok kept s ->
  let k := MkSocket f (debughub.next_chan (dbg s)) Relaying [] in
  exists s', hub_step s (debughub.OSubscribe f) (sockets s ++ [k]) = Ok s' /\ sys_ok (fun f => kept f \/ False) s' /\ sockets s' = sockets s ++ [k].
Proof.
  intros Hs k. apply (hub_step_ok kept s (debughub.OSubscribe f)); [done|intros x Hx; exists x; set_solver|]. intros w acts H.
  destruct Hs as [_ _ [H1 H2 H3 H4 H5] _ _ _]. pose proof (locked_subs _ _ _ _ H) as Hsub. cbn in H. injection H as <- <-.
  assert (forall x, x ∈ sockets s -> s_ch x <> debughub.next_chan (dbg s)) as Hne by (intros x Hx; specialize (H3 x Hx); lia).
  split.
  - intros g ch. rewrite Hsub. setoid_rewrite elem_of_app. setoid_rewrite list_elem_of_singleton. case_decide as Hd; [destruct Hd|].
    + rewrite elem_of_union, elem_of_singleton, H1. split.
      * intros [-> |(x & ? & ?)]; [eexists; split; [by right|done]|eauto].
      * intros (x & [Hx| ->] & ? & ? & ?); [right; eauto|by left].
    + rewrite H1. split; [intros (x & ? & ?); eauto|]. intros (x & [Hx| ->] & ? & ? & ?); [eauto|done].
  - rewrite map_app. apply NoDup_app. split_and!; [done| |apply NoDup_singleton].
    intros ch (x & -> & Hx)%list_elem_of_fmap. cbn. intros E%list_elem_of_singleton. by apply (Hne x).
  - cbn. intros x [Hx| ->%list_elem_of_singleton]%elem_of_app; [specialize (H3 x Hx); lia|cbn; lia].
  - cbn. intros x q [Hx| ->%list_elem_of_singleton]%elem_of_app.
    + rewrite lookup_insert_ne by (intros E; by apply (Hne x)). by apply H4.
    + cbn. rewrite lookup_insert_eq. by intros [= <-].
  - intros x [Hx| ->%list_elem_of_singleton]%elem_of_app; [by apply H5|constructor].
Qed.
Lemma leave_ok kept s i k : sys_ok kept s -> sockets s !! i = Some k -> s_phase k = Leaving ->
  let ks := <[i := MkSocket (s_flow k) (s_ch k) Gone (s_sent k)]> (sockets s) in
  exists s', hub_step s (debughub.OCancel (s_flow k) (s_ch k)) ks = Ok s' /\ sys_ok (fun f => kept f \/ False) s' /\ sockets s' = ks.
Proof.
  intros Hs Hk Hop ks. pose proof Hs as [_ _ [H1 H2 H3 H4 H5] _ _ _]. assert (k ∈ sockets s) as Hkin by (by eapply list_elem_of_lookup_2).
  set (k' := MkSocket (s_flow k) (s_ch k) Gone (s_sent k)) in *. subst ks. pose proof (fun x => elem_of_update (sockets s) i k k' x Hk H2 eq_refl) as Hel.
  apply (hub_step_ok kept s (debughub.OCancel _ _)); [done|by apply (continued_update _ _ k)|]. intros w acts H. pose proof (locked_subs _ _ _ _ H) as Hsub.
  assert (debughub.chans w = debughub.chans (dbg s) /\ debughub.next_chan w = debughub.next_chan (dbg s)) as [Ec En].
  { cbn in H. destruct (debughub.unsubscribe _ _ _). by injection H as <- <-. }
  split; rewrite ?Ec, ?En.
  - intros f ch. rewrite Hsub. setoid_rewrite Hel. split.
    + case_decide as Hd; [destruct Hd; intros [(x & Hx & Ho & Hf & Hc)%H1 Hne%not_elem_of_singleton]%elem_of_difference
                         |intros (x & Hx & Ho & Hf & Hc)%H1]; exists x; (split; [|done]); right; (split; [done|]).
      * by rewrite Hc.
      * intros Hc'. apply Hd. rewrite <- Hf. f_equal. by apply (own_socket (sockets s)).
    + intros (x & [-> |[Hx Hne]] & Ho & Hf & Hc); [done|]. assert (ch ∈ subs (dbg s) f) as Hin by (apply H1; eauto).
      case_decide; [|done]. apply elem_of_difference. split; [done|]. rewrite elem_of_singleton. congruence.
  - by rewrite (update_same _ _ _ k).
  - intros x [-> |[Hx _]]%Hel; [exact (H3 k Hkin)|by apply H3].
  - intros x q [-> |[Hx _]]%Hel; [by apply (H4 k)|by apply H4].
  - intros x [-> |[Hx _]]%Hel; [by apply (H5 k)|by apply H5].
Qed.
Lemma relay_turn_ok kept s i k it q k' : sys_ok kept s -> sockets s !! i = Some k -> s_phase k = Relaying ->
  debughub.chans (dbg s) !! s_ch k = Some (it :: q) ->
  k' = MkSocket (s_flow k) (s_ch k) Relaying (s_sent k ++ [toWSMessage it]) \/ k' = MkSocket (s_flow k) (s_ch k) Leaving (s_sent k) ->
  exists s', hub_step s (debughub.OReceive (s_ch k)) (<[i := k']> (sockets s)) = Ok s' /\ sys_ok (fun f => kept f \/ False) s' /\
    sockets s' = <[i := k']> (sockets s).
Proof.
  intros Hs Hk Hop Hq Hk'. pose proof Hs as [_ _ Hsk _ _ _]. pose proof Hsk as [H1 H2 H3 H4 H5].
  assert (k ∈ sockets s) as Hkin by (by eapply list_elem_of_lookup_2). pose proof (H4 k _ Hkin Hq) as [Hit Hrest]%Forall_cons.
  assert (s_ch k' = s_ch k /\ s_flow k' = s_flow k /\ watching k' = watching k /\ Forall (fun m => ws_flow m = s_flow k) (s_sent k')) as (Ec & Ef & Ew & Hsent).
  { pose proof (H5 k Hkin). unfold watching. rewrite Hop. destruct Hk' as [-> | ->]; split_and!; try done. cbn. apply Forall_app. split; [done|].
    constructor; [by rewrite toWSMessage_flow|constructor]. }
  apply (hub_step_ok kept s (debughub.OReceive _)); [done|by apply (continued_update _ _ k)|]. intros w acts H. cbn in H. injection H as <- <-.
  destruct (socks_ok_update (dbg s) (sockets s) i k k' Hsk Hk Ec Ef Ew Hsent) as [U1 U2 U3 U4 U5]. split; cbn; try done.
  intros x q' Hx [(_ & q0 & Hq0 & ->)|[_ ?]]%lookup_alter_Some; [|by apply U4]. specialize (U4 x _ Hx Hq0).
  destruct q0; [done|]. by apply Forall_cons in U4 as [_ ?].
Qed.
Lemma relay_send_ok kept s j a acts b : sys_ok kept s -> pending s !! j = Some (a :: acts) ->
  sys_ok kept (MkSystem (api s) (if b : bool then debughub.perform (dbg s) a else miss (dbg s) a) (sockets s) (<[j := acts]> (pending s))).
Proof.
  intros [Hh Hc [H1 H2 H3 H4 H5] Hpi Hpa Hfw] Hj. destruct (send_effect b (dbg s) a _ eq_refl) as (Eh & En & Hch & Hf).
  set (w' := if b then _ else _) in *. assert (a :: acts ∈ pending s) as Hin by (by eapply list_elem_of_lookup_2).
  assert (forall l x, l ∈ <[j := acts]> (pending s) -> x ∈ l -> exists l', l' ∈ pending s /\ x ∈ l') as Hold.
  { intros l x (n & [(<- & <- & _)|(_ & Hn)]%list_lookup_insert_Some)%list_elem_of_lookup Hx; [exists (a :: acts); split; [done|by right]|].
    exists l. split; [by eapply list_elem_of_lookup_2|done]. }
  split; cbn [dbg sockets pending api].
  - by rewrite Eh, En.
  - unfold caches_ok. by rewrite Eh.
  - split; unfold subs; rewrite ?Eh, ?En; try done. intros k q Hk (q0 & Hq0 & Hq)%Hch. apply Forall_forall. intros it [Hit| ->]%Hq.
    + specialize (H4 k q0 Hk Hq0). rewrite Forall_forall in H4. auto.
    + destruct (Hpi _ _ it Hin (list_elem_of_here _ _)) as (k' & Hk' & E & <-). by rewrite (own_socket (sockets s) k k').
  - intros l ch it Hl Hx. destruct (Hold l _ Hl Hx) as (l' & ? & ?). eauto.
  - intros l hd f Hl Hx. destruct (Hold l _ Hl Hx) as (l' & ? & ?). eauto.
  - intros f [?|[hd ->]]%Hf; [auto|]. left. eapply Hpa; [done|]. by left.
Qed.

Section run.
Context (hashToken : string -> string).
Definition keeps (ev : wsEvent) (f : string) : Prop := match ev with WConnect _ l => f ∈ l | _ => False end.
(** A step opens at most one socket, for a user who passed the checks. *)
Definition opened (s : system) (ev : wsEvent) (s' : system) : Prop :=
  map s_flow (sockets s') = map s_flow (sockets s) \/
  exists e tok f user, ev = WOpen e tok f true /\ ws_authorize hashToken (api s) e tok f = inl user /\
    map s_flow (sockets s') = map s_flow (sockets s) ++ [f].
Lemma ws_step_ok kept s ev : sys_ok kept s -> exists s', ws_step hashToken s ev = Ok s' /\ sys_ok (fun f => kept f \/ keeps ev f) s' /\ opened s ev s'.
Proof.
  intros Hs.
  assert (forall s', sys_ok kept s' -> map s_flow (sockets s') = map s_flow (sockets s) ->
    exists s'', Ok s' = Ok (E := unit) s'' /\ sys_ok (fun f => kept f \/ keeps ev f) s'' /\ opened s ev s'') as Hret.
  { intros s' H E. exists s'. split_and!; [done|eapply sys_ok_weaken; [|done]; auto|by left]. }
  pose proof (Hret s Hs eq_refl) as Hsame. pose proof (sy_socks _ _ Hs) as Hsk.
  destruct ev as [e tok f acc|i wr|i|i|j b|rid l|u|rid hd|w]; cbn [ws_step keeps] in *.
  - destruct (ws_authorize hashToken (api s) e tok f) as [user|st] eqn:Ea; [|done]. destruct acc; cbn [negb]; [|done].
    destruct (subscribe_ok kept s f Hs) as (s' & E & Hok & Hk). exists s'. split; [done|]. split; [done|]. right.
    exists e, tok, f, user. rewrite Hk, map_app. done.
  - destruct (sockets s !! i) as [k|] eqn:Ek; [|done]. destruct (s_phase k) eqn:Eo; [|done..].
    destruct (debughub.chans (dbg s) !! s_ch k) as [[|it q]|] eqn:Eq; [done| |done].
    destruct (relay_turn_ok kept s i k it q (if wr then MkSocket (s_flow k) (s_ch k) Relaying (s_sent k ++ [toWSMessage it]) else MkSocket (s_flow k) (s_ch k) Leaving (s_sent k))
      Hs Ek Eo Eq) as (s' & E & Hok & Hk); [destruct wr; auto|]. exists s'. split; [done|]. split; [done|]. left. rewrite Hk. apply (update_same _ _ _ k); [done|by destruct wr].
  - destruct (sockets s !! i) as [k|] eqn:Ek; [|done]. destruct (s_phase k) eqn:Eo; [|done..].
    pose proof (so_own _ _ Hsk) as Hn. apply Hret; [|by apply (update_same _ _ _ k)]. destruct Hs as [H1 H2 _ Hpi Hpa Hfw].
    assert (continued (sockets s) (<[i := MkSocket (s_flow k) (s_ch k) Leaving (s_sent k)]> (sockets s))) as Hcont by (by apply (continued_update _ _ k)).
    split; cbn [dbg sockets pending]; [done|done| | |by rewrite (update_same _ _ _ k)..].
    + apply (socks_ok_update _ _ _ k); try done; [unfold watching; by rewrite Eo|]. exact (so_sent _ _ Hsk k (list_elem_of_lookup_2 _ _ _ Ek)).
    + intros acts ch it Ha Hin. destruct (Hpi acts ch it Ha Hin) as (x & Hx & <- & <-). destruct (Hcont x Hx) as (x' & ? & <- & <-). eauto.
  - destruct (sockets s !! i) as [k|] eqn:Ek; [|done]. destruct (s_phase k) eqn:Eo; [done| |done].
    destruct (leave_ok kept s i k Hs Ek Eo) as (s' & E & Hok & Hk). exists s'. split; [done|]. split; [done|]. left. rewrite Hk. by apply (update_same _ _ _ k).
  - destruct (pending s !! j) as [[|a acts]|] eqn:Ej; [done| |done]. apply Hret; [by apply relay_send_ok|done].
  - destruct (hub_step_same kept s (debughub.OConnect rid l) Hs I) as (s' & E & Hok & Hk). exists s'. split_and!; [done|done|left; by rewrite Hk].
  - destruct (hub_step_same kept s (debughub.OUplink u) Hs I) as (s' & E & Hok & Hk). exists s'. split_and!; [done|done|left; by rewrite Hk].
  - destruct (hub_step_same kept s (debughub.ODisconnect rid hd) Hs I) as (s' & E & Hok & Hk). exists s'. split_and!; [done|done|left; by rewrite Hk].
  - apply Hret; [|done]. by destruct Hs.
Qed.
Lemma ws_run_snoc es : forall s ev, ws_run hashToken s (es ++ [ev]) = (s' ← ws_run hashToken s es; ws_step hashToken s' ev).
Proof.
  induction es as [|x es IH]; intros s ev; cbn; [by destruct (ws_step hashToken s ev)|]. destruct (ws_step hashToken s x); cbn; [apply IH|done..].
Qed.
Lemma ws_start_ok w : sys_ok (fun _ => False) (ws_start w).
Proof.
  split; cbn; [apply debughub.initWorld_inv|intros f; cbn; constructor|split; cbn|..].
  - intros f ch. split; [set_solver|]. by intros (k & ?%elem_of_nil & _).
  - constructor.
  - by intros k ?%elem_of_nil.
  - by intros k q ?%elem_of_nil.
  - by intros k ?%elem_of_nil.
  - by intros l ch it ?%elem_of_nil.
  - by intros l hd f ?%elem_of_nil.
  - by intros f (hd & sink & H & _).
Qed.
(** What the checks are for: the token is that of a session which has not expired, the flow exists, and the
    session's user is a system administrator or has one of the roles from operator upwards in its project. *)
Definition may_watch (w : world) (now_ : Z) (tok flowID : string) : Prop :=
  exists row user f, auth.sessions (accounts w) !! hashToken tok = Some row /\ now_ <= ParseRFC3339 (auth.expires_at row) /\
    auth.users (accounts w) !! auth.user_id row = Some user /\ flows (db w) !! flowID = Some f /\
    (auth.SystemRole user = auth.SystemRoleAdmin \/
     exists r, auth.project_members (accounts w) !! (ProjectID f, auth.ID user) = Some r /\
       r ∈ [auth.RoleOperator; auth.RoleEditor; auth.RoleProjectAdmin]).
Lemma operator_roles r : auth.AtLeast r auth.RoleOperator = true -> r ∈ [auth.RoleOperator; auth.RoleEditor; auth.RoleProjectAdmin].
Proof.
  intros H. destruct (decide (r ∈ [auth.RoleOperator; auth.RoleEditor; auth.RoleProjectAdmin])) as [|Hn]; [done|]. exfalso.
  rewrite !not_elem_of_cons in Hn. destruct Hn as (H1 & H2 & H3 & _). destruct (decide (r = auth.RoleViewer)) as [-> |H0]; [done|].
  assert (auth.roleRank !! r = None) as E by (unfold auth.roleRank; rewrite !lookup_insert_ne by (by apply not_eq_sym); by apply lookup_singleton_ne, not_eq_sym).
  unfold auth.AtLeast, auth.rank in H. by rewrite E in H.
Qed.
Lemma ws_authorize_sound w e tok f user : ws_authorize hashToken w e tok f = inl user -> may_watch w (now e) tok f.
Proof.
  unfold ws_authorize, auth.ValidateSession, auth.GetUser, GetFlow, auth.RequireProjectRole, auth.ProjectRoleOf. case_decide; [done|].
  destruct (ok e 0); [|done]. destruct (auth.sessions _ !! _) as [row|] eqn:Er; [|done]. destruct (Z.ltb_spec (ParseRFC3339 (auth.expires_at row)) (now e)); [done|].
  destruct (ok e 1); [|done]. destruct (auth.users _ !! _) as [u|] eqn:Eu; [|done]. case_decide; [done|].
  destruct (ok e 2); [|done]. destruct (flows _ !! f) as [fl|] eqn:Ef; [|done]. intros H'. exists row, u, fl. split_and!; try done.
  case_decide; [by left|]. right. destruct (ok e 3); [|done]. destruct (auth.project_members _ !! _) as [r|]; [|done].
  destruct (auth.AtLeast r auth.RoleOperator) eqn:Ea; [|done]. exists r. split; [done|by apply operator_roles].
Qed.
(** The request that opened a socket of the flow, and what held when it was handled. *)
Definition admitted (w : world) (es : list wsEvent) (f : string) : Prop :=
  exists es1 es2 e tok s1, es = es1 ++ WOpen e tok f true :: es2 /\
    ws_run hashToken (ws_start w) es1 = Ok s1 /\ may_watch (api s1) (now e) tok f.
Lemma ws_run_ok w es : exists s, ws_run hashToken (ws_start w) es = Ok s /\
  sys_ok (fun f => exists ev, ev ∈ es /\ keeps ev f) s /\ forall f, f ∈ map s_flow (sockets s) -> admitted w es f.
Proof.
  induction es as [|ev es IH] using rev_ind.
  { exists (ws_start w). split; [done|]. split; [|by intros f ?%elem_of_nil]. eapply sys_ok_weaken; [|apply ws_start_ok]. done. }
  destruct IH as (s & E & Hok & Hopen). destruct (ws_step_ok _ s ev Hok) as (s' & E' & Hok' & Hf). exists s'. rewrite ws_run_snoc, E.
  split; [done|]. split.
  { eapply sys_ok_weaken; [|done]. cbn. intros f [(x & ? & ?)|?]; [exists x|exists ev]; set_solver. }
  assert (forall f, f ∈ map s_flow (sockets s) -> admitted w (es ++ [ev]) f) as Hold.
  { intros f Hin. destruct (Hopen f Hin) as (es1 & es2 & e & tok & s1 & -> & H). exists es1, (es2 ++ [ev]), e, tok, s1.
    by rewrite <- app_assoc. }
  destruct Hf as [-> |(e & tok & f & user & -> & Ha & ->)]; [done|]. intros g [Hg| ->%list_elem_of_singleton]%elem_of_app; [auto|].
  exists es, [], e, tok, s. split_and!; [done|done|by eapply ws_authorize_sound].
Qed.

(** [C35] debug data reaches only those who may see it.  In every interleaving of requests, relaying
    handlers, runtimes that connect (their sinks keeping any flows), report and disconnect, changes of
    accounts and flows, and the sends that goroutines make one by one after they have released the hub's
    lock, each of which may also be lost, nothing fails, and: a socket was opened by a request that,
    when it was handled, carried the token of a session which had not expired, of a user who was a system
    administrator or had at least the operator role in the project of an existing flow; every message
    written to it is about its flow; the hub counts as subscribers of a flow exactly the sockets of it that have not cancelled; and a
    runtime's stream forwards only flows for which a request was so admitted, or that its sink kept from an
    earlier connection.  That a runtime forwards exactly the watched flows holds only when sends do not
    overlap and sinks start empty ([forwards_watched_flows], [stale_unsubscribe] and
    [reconnect_forwards_unwatched] of DebugHub). *)
Theorem relay_confined w es : exists s, ws_run hashToken (ws_start w) es = Ok s /\
  (forall k, k ∈ sockets s -> admitted w es (s_flow k)) /\
  (forall k, k ∈ sockets s -> Forall (fun m => ws_flow m = s_flow k) (s_sent k)) /\
  (forall f ch, ch ∈ debughub.subscribers (debughub.flowStateLocked (debughub.hub (dbg s)) f) <->
     exists k, k ∈ sockets s /\ watching k = true /\ s_flow k = f /\ s_ch k = ch) /\
  (forall hd sink f, debughub.sinks (dbg s) !! hd = Some sink -> f ∈ debughub.subscribed sink ->
     admitted w es f \/ exists rid left_, WConnect rid left_ ∈ es /\ f ∈ left_).
Proof.
  destruct (ws_run_ok w es) as (s & E & [_ _ [H1 _ _ _ H5] _ _ Hfw] & Hopen). exists s. split; [done|].
  split; [intros k Hk; by apply Hopen, list_elem_of_fmap_2|]. split; [done|]. split; [exact H1|].
  intros hd sink f Hl Hf. destruct (Hfw f) as [Hin|([] & Hev & Hk)]; [by exists hd, sink|by left; apply Hopen|try done..]. right. eauto.
Qed.
End run.

(** A browser is sent what a runtime reports of its flow; and a send that another goroutine's overtakes
    leaves the runtime silent although a socket is open. *)
Definition operated : world :=
  MkWorld (MkDB ∅ {["f" := MkFlow "p" "Press" "{}" None "info" None 0 0]} ∅ ∅)
    (auth.MkDB {["u" := auth.MkUser "u" "eve" auth.SystemRoleNone "" 0]} {["t" := auth.MkSessionRow "u" 9 0]} {[("p", "u") := auth.RoleOperator]})
    (registry.NewService None None) [].
Definition calm : env := MkEnv (fun _ => true) 0 [] (fun _ => true) (fun _ => false).
Definition reported : debughub.DebugEvent := debughub.MkDebugEvent "e1" "f" "n" "out" "out" "" 0 "" "" "" "" "42".
Definition relays (es : list wsEvent) (sent : list (list wsMessage)) (phases : list phase) (forwards : bool) : Prop :=
  match ws_run id (ws_start operated) es with
  | Ok s => map s_sent (sockets s) = sent /\ map s_phase (sockets s) = phases /\
            (fun k => debughub.trySend k "f") <$> debughub.sinks (dbg s) !! 0%nat = Some forwards
  | _ => False
  end.
Example event_relayed :
  relays [WConnect "rt" ∅; WOpen calm "t" "f" true; WSend 1 true; WUplink (debughub.UEvent reported); WSend 2 true; WTurn 0 true]
    [[toWSMessage (debughub.IEvent (debughub.toEvent reported))]] [Relaying] true.
Proof. vm_compute. done. Qed.
Example overtaken_unsubscribe :
  relays [WConnect "rt" ∅; WOpen calm "t" "f" true; WSend 1 true; WDone 0; WLeave 0; WOpen calm "t" "f" true; WSend 3 true; WSend 2 true]
    [[]; []] [Gone; Relaying] false.
Proof. vm_compute. done. Qed.

(** ** Pins *)

Section pin_laws.
Context {V : Type} (Marshal : V -> option string) (Unmarshal : string -> option V).
Lemma elem_of_rows t flowID n p x : (n, p, x) ∈ rows_of t flowID <-> t !! (flowID, n, p) = Some x.
Proof.
  unfold rows_of. rewrite !sortBy_permutes, list_elem_of_omap. split.
  - intros ([[[f n'] p'] x'] & Hin%elem_of_map_to_list & H). cbn in H. case_decide; [|done]. subst. by injection H as -> -> ->.
  - intros H. exists ((flowID, n, p), x). split; [by apply elem_of_map_to_list|]. cbn. by rewrite decide_True.
Qed.
(** The pins of a flow are listed as they were last set: after any sets and deletions the listing
    succeeds, and shows exactly the pins in the table with the values that were encoded. *)
Theorem pins_listed (ops : list (string * string * string * option V * Z)) flowID :
  (forall v js, Marshal v = Some js -> Unmarshal js = Some v) ->
  let t := fold_left (fun t '(f, n, p, o, now) =>
    match o with Some v => (UpsertPin Marshal t true now f n p v).1 | None => (DeletePin t true f n p).1 end) ops ∅ in
  exists l, ListPins Unmarshal t true flowID = Ok l /\
  forall n p v, (exists u, MkDebugPin n p v u ∈ l) <-> exists js u, t !! (flowID, n, p) = Some (js, u) /\ Marshal v = Some js.
Proof.
  intros HM t.
  assert (forall k js u, t !! k = Some (js, u) -> exists v, Marshal v = Some js) as Hv.
  { unfold t. clear t. induction ops as [|[[[[f n] p] o] now] ops IH] using rev_ind; intros k js u; [done|]. rewrite fold_left_app. cbn.
    set (t := fold_left _ ops ∅) in *. destruct o as [v|]; cbn.
    - unfold UpsertPin. destruct (Marshal v) as [j|] eqn:E; cbn; [|apply IH]. intros [[_ [= -> _]]|[_ ?]]%lookup_insert_Some; eauto.
    - intros [_ ?]%lookup_delete_Some; eauto. }
  assert (forall rs, (forall r, r ∈ rs -> r ∈ rows_of t flowID) -> exists l, mapM (scanPin Unmarshal) rs = Some l) as Hall.
  { induction rs as [|[[n p] [js u]] rs IH]; intros Hr; cbn; [by eexists|]. destruct (Hv (flowID, n, p) js u) as [v Hjs]; [apply elem_of_rows, Hr; by left|].
    assert (scanPin Unmarshal (n, p, (js, u)) = Some (MkDebugPin n p v (ParseRFC3339 u))) as -> by (unfold scanPin; cbn; by rewrite (HM v js Hjs)). cbn. destruct IH as [l ->]; [intros r Hin; apply Hr; by right|]. by eexists. }
  destruct (Hall (rows_of t flowID) ltac:(done)) as [l Hl]. exists l. unfold ListPins. rewrite Hl. split; [done|].
  apply mapM_Some_1 in Hl. intros n p v. split.
  - intros [u Hin]. apply list_elem_of_lookup in Hin as [i Hi]. destruct (Forall2_lookup_r _ _ _ _ _ Hl Hi) as ([[n' p'] [js u']] & Hr & Hs).
    apply list_elem_of_lookup_2, elem_of_rows in Hr. unfold scanPin in Hs. cbn in Hs. destruct (Hv _ _ _ Hr) as [v' Hv'].
    rewrite (HM v' js Hv') in Hs. cbn in Hs. injection Hs as -> -> -> _. eauto.
  - intros (js & u & Hk & Hm). apply elem_of_rows, list_elem_of_lookup in Hk as [i Hi]. destruct (Forall2_lookup_l _ _ _ _ _ Hl Hi) as (pin & Hp & Hs).
    unfold scanPin in Hs. cbn in Hs. rewrite (HM v js Hm) in Hs. cbn in Hs. injection Hs as <-. eexists. by eapply list_elem_of_lookup_2.
Qed.
End pin_laws.

(** A viewer is refused the events of a flow, and is given its pinned values. *)
Definition viewer : auth.User := auth.MkUser "u" "eve" auth.SystemRoleNone "" 0.
Definition viewed : world :=
  MkWorld (MkDB ∅ {["f" := MkFlow "p" "Press" "{}" None "info" None 0 0]} ∅ ∅)
    (auth.MkDB ∅ ∅ {[("p", "u") := auth.RoleViewer]}) (registry.NewService None None) [].
Lemma viewer_reads_pins :
  let e := MkEnv (fun _ => true) 0 [] (fun _ => true) (fun _ => false) in
  loadFullDebugEvent viewed debughub.New e viewer "f" "e1" = inr 403 /\
  listPins Some viewed {[("f", "n", "out") := ("secret", 0)]} e viewer "f" = inl [MkDebugPin "n" "out" "secret" (ParseRFC3339 0)].
Proof. vm_compute. done. Qed.
End debugapi.
