(* ===== verification/VcsExport.v ===== *)
(** * Exporting and importing flows ([controlplane/internal/api/vcs_export.go])

    A bundle carries flows with their connections by reference: the export rewrites the connection
    ids of nodes to references of the bundle and leaves the credentials out; the import puts the ids of
    connections of the target project in their place, matched by name and type or created anew.  The
    JSON of flow files is a parameter, as in [FlowStore]; fresh ids and the outcomes of statements are
    arguments. *)

From S2P Require Import Prelude Bytes GoStd Auth FlowFile Registry FlowStore Vault.
Import gostd.
Local Open Scope Z_scope.

Module vcs.

Definition exportFormatVersion : Z := 1.
Record ExportedConnection := MkExportedConnection { Ref : string; Name : string; Type_ : string; Config : option string; HasCredential : bool }.
Record FlowExportBundle := MkBundle {
  FormatVersion : Z; ExportedAt : Z; ProjectName : string; Flows : list (string * string); Connections : list ExportedConnection
}.
Record ImportResult := MkImportResult {
  ImportedFlows : list string; ConnectionsCreated : list vault.Connection; ConnectionsMatched : list vault.Connection
}.
Definition with_connection (n : flowfile.Node) (c : string) : flowfile.Node :=
  flowfile.MkNode (flowfile.ID n) (flowfile.Type_ n) (flowfile.TypeVersion n) (flowfile.Name n) (flowfile.Disabled n) c
    (flowfile.Config n) (flowfile.errorPolicy n) (flowfile.Overflow n).
Definition with_nodes (ff : flowfile.FlowFile) (ns : list flowfile.Node) : flowfile.FlowFile :=
  flowfile.MkFlowFile (flowfile.FormatVersion ff) (flowfile.Kind ff) (flowfile.ff_ID ff) (flowfile.ff_Name ff) (flowfile.Description ff)
    (flowfile.Mode ff) (flowfile.ff_Disabled ff) (flowfile.runtimeAssignment ff) (flowfile.settings ff) (flowfile.Env ff)
    (flowfile.MkGraph ns (flowfile.Wires (flowfile.graph ff))) (flowfile.layout ff) (flowfile.interface ff).

Section bundle.
Context (Parse : string -> option flowfile.FlowFile) (codec : flowstore.jsonCodec).

(** ** Export *)

(** [refByConnectionID], [bundle.Connections], and the number of queries so far. *)
Record exporting := MkExporting { refs : gmap string string; conns : list ExportedConnection; queries : nat }.
Definition ref_name (i : nat) : string := "ref:" +:+ string_of_bytes (FormatInt (Z.of_nat i)).
Definition exportNode (d : vault.DB) (ok : nat -> bool) (st : exporting) (n : flowfile.Node) : exporting * flowfile.Node :=
  if decide (flowfile.Connection n = "") then (st, n) else
  match refs st !! flowfile.Connection n with
  | Some ref => (st, with_connection n ref)
  | None =>
      match vault.GetConnection d (ok (queries st)) (flowfile.Connection n) with
      | Ok c =>
          let ref := ref_name (length (conns st)) in
          (MkExporting (<[flowfile.Connection n := ref]> (refs st))
             (conns st ++ [MkExportedConnection ref (vault.Name c) (vault.Type_ c) (Some (vault.Config c))
                             (bool_decide (vault.CredentialID c <> None))])
             (S (queries st)), with_connection n ref)
      | _ => (MkExporting (refs st) (conns st) (S (queries st)), with_connection n "")
      end
  end.
Fixpoint exportNodes (d : vault.DB) (ok : nat -> bool) (st : exporting) (ns : list flowfile.Node) : exporting * list flowfile.Node :=
  match ns with
  | [] => (st, [])
  | n :: ns' => let '(st, n') := exportNode d ok st n in let '(st, rest) := exportNodes d ok st ns' in (st, n' :: rest)
  end.
Fixpoint exportFlows (d : vault.DB) (ok : nat -> bool) (st : exporting) (fs : list flowstore.Flow) : res string (exporting * list (string * string)) :=
  match fs with
  | [] => Ok (st, [])
  | f :: fs' =>
      match Parse (flowstore.Content f) with
      | None => Err "api: parsing flow for export"
      | Some ff =>
          let '(st, ns) := exportNodes d ok st (flowfile.Nodes (flowfile.graph ff)) in
          match flowstore.MarshalCanonical codec (with_nodes ff ns) with
          | None => Err "api: serializing flow for export"
          | Some content => '(st, rest) ← exportFlows d ok st fs'; Ok (st, (flowstore.Name f, content) :: rest)
          end
      end
  end.
Definition buildExportBundle (d : vault.DB) (ok : nat -> bool) (now : Z) (projectName : string) (fs : list flowstore.Flow)
  : res string FlowExportBundle :=
  '(st, flows) ← exportFlows d ok (MkExporting ∅ [] 0) fs; Ok (MkBundle exportFormatVersion now projectName flows (conns st)).

(** ** Import *)

(** [byNameType]: of several connections with one name and type, the last listed. *)
Definition byNameType (existing : list vault.Connection) : gmap (string * string) vault.Connection :=
  fold_left (fun m c => <[(vault.Name c, vault.Type_ c) := c]> m) existing ∅.
Record importing := MkImporting { vdb : vault.DB; idByRef : gmap string string; created : list vault.Connection; matched : list vault.Connection }.
(** [ids] and [ok]: the fresh id and the outcome of the k-th insert. *)
Fixpoint importConnections (known : gmap (string * string) vault.Connection) (projectID : string) (ids : nat -> string) (ok : nat -> bool)
    (st : importing) (ecs : list ExportedConnection) : importing * res string unit :=
  match ecs with
  | [] => (st, Ok tt)
  | ec :: ecs' =>
      match known !! (Name ec, Type_ ec) with
      | Some m =>
          importConnections known projectID ids ok
            (MkImporting (vdb st) (<[Ref ec := vault.ID m]> (idByRef st)) (created st) (matched st ++ [m])) ecs'
      | None =>
          let k := length (created st) in
          match vault.CreateConnection (vdb st) (ok k) (ids k) projectID (Name ec) (Type_ ec) (Config ec) None with
          | (d, Ok c) =>
              importConnections known projectID ids ok
                (MkImporting d (<[Ref ec := vault.ID c]> (idByRef st)) (created st ++ [c]) (matched st)) ecs'
          | (d, _) => (MkImporting d (idByRef st) (created st) (matched st), Err "api: creating connection on import")
          end
      end
  end.
Definition remap (m : gmap string string) (n : flowfile.Node) : flowfile.Node :=
  match m !! flowfile.Connection n with Some id => with_connection n id | None => n end.
Fixpoint importFlows (m : gmap string string) (projectID : string) (ids : nat -> string) (ok : nat -> bool) (now : Z) (k : nat)
    (d : flowstore.DB) (fs : list (string * string)) : flowstore.DB * res string (list string) :=
  match fs with
  | [] => (d, Ok [])
  | (name, text) :: fs' =>
      match Parse text with
      | None => (d, Err "api: parsing bundle flow")
      | Some ff =>
          match flowstore.MarshalCanonical codec (with_nodes ff (map (remap m) (flowfile.Nodes (flowfile.graph ff)))) with
          | None => (d, Err "api: serializing bundle flow")
          | Some content =>
              match flowstore.CreateFlow d (ok k) (ids k) now projectID name content with
              | (d, Ok id) => let '(d, r) := importFlows m projectID ids ok now (S k) d fs' in (d, l ← r; Ok (id :: l))
              | (d, _) => (d, Err "api: creating imported flow")
              end
          end
      end
  end.
(** What an import meets: the listing, then the inserts of connections and of flows. *)
Record import_env := MkImportEnv {
  list_ok : bool; conn_ids : nat -> string; conn_ok : nat -> bool; flow_ids : nat -> string; flow_ok : nat -> bool; at_ : Z
}.
Definition importBundle (v : vault.DB) (d : flowstore.DB) (e : import_env) (projectID : string) (b : FlowExportBundle)
  : vault.DB * flowstore.DB * res string ImportResult :=
  match vault.ListConnections v (list_ok e) projectID with
  | Ok existing =>
      match importConnections (byNameType existing) projectID (conn_ids e) (conn_ok e) (MkImporting v ∅ [] []) (Connections b) with
      | (st, Ok _) =>
          let '(d, r) := importFlows (idByRef st) projectID (flow_ids e) (flow_ok e) (at_ e) 0 d (Flows b) in
          (vdb st, d, l ← r; Ok (MkImportResult l (created st) (matched st)))
      | (st, _) => (vdb st, d, Err "api: creating connection on import")
      end
  | _ => (v, d, Err "api: listing target connections")
  end.
End bundle.

(** ** Handlers *)

Section handlers.
Context (Parse : string -> option flowfile.FlowFile) (codec : flowstore.jsonCodec).
Definition exportFlow (w : flowstore.world) (v : vault.DB) (e : flowstore.env) (ok : nat -> bool) (user : auth.User) (flowID : string)
  : flowstore.world * (FlowExportBundle + Z) :=
  match flowstore.flowAndAuthorize w e user flowID auth.RoleViewer with
  | inr st => (w, inr st)
  | inl f =>
      match buildExportBundle Parse codec v ok (flowstore.now e) "" [f] with
      | Ok b => (flowstore.audit w (flowstore.ok e 9) (auth.ID user) "flow.export" "flow" flowID (flowstore.ProjectID f), inl b)
      | _ => (w, inr 500)
      end
  end.
(** [ListFlows]: the flows of a project by name; rows with equal names come in the order of [scan]. *)
Definition ListFlows (d : flowstore.DB) (ok : bool) (scan : list string) (projectID : string) : res flowstore.StoreError (list flowstore.Flow) :=
  if ok then Ok (sortBy flowstore.Name (filter (fun f => flowstore.ProjectID f = projectID) (omap (fun id => flowstore.flows d !! id) scan)))
  else Err flowstore.ErrDB.
Definition exportProject (w : flowstore.world) (v : vault.DB) (e : flowstore.env) (ok : nat -> bool) (scan : list string) (user : auth.User)
    (projectID : string) : flowstore.world * (FlowExportBundle + Z) :=
  match auth.requireProjectRole (flowstore.accounts w) (flowstore.ok e 1) user projectID auth.RoleViewer with
  | Some st => (w, inr st)
  | None =>
      match flowstore.GetProject (flowstore.db w) (flowstore.ok e 2) projectID with
      | Ok p =>
          match ListFlows (flowstore.db w) (flowstore.ok e 3) scan projectID with
          | Ok fs =>
              match buildExportBundle Parse codec v ok (flowstore.now e) (flowstore.p_Name p) fs with
              | Ok b => (flowstore.audit w (flowstore.ok e 9) (auth.ID user) "project.export" "project" projectID projectID, inl b)
              | _ => (w, inr 500)
              end
          | _ => (w, inr 500)
          end
      | _ => (w, inr 404)
      end
  end.
Definition importProject (w : flowstore.world) (v : vault.DB) (e : flowstore.env) (ie : import_env) (user : auth.User) (projectID : string)
    (body : option FlowExportBundle) : flowstore.world * vault.DB * (ImportResult + Z) :=
  match auth.requireProjectRole (flowstore.accounts w) (flowstore.ok e 1) user projectID auth.RoleEditor with
  | Some st => (w, v, inr st)
  | None =>
      match body with
      | None => (w, v, inr 400)
      | Some b =>
          if decide (Flows b = []) then (w, v, inr 400) else
          match importBundle Parse codec v (flowstore.db w) ie projectID b with
          | (v, d, Ok r) =>
              (flowstore.audit (flowstore.set_db w d) (flowstore.ok e 9) (auth.ID user) "project.import" "project" projectID projectID, v, inl r)
          | (v, d, _) => (flowstore.set_db w d, v, inr 500)
          end
      end
  end.
End handlers.

(** ** References *)

Lemma ref_name_inj i j : in_s 64 (Z.of_nat i) -> in_s 64 (Z.of_nat j) -> ref_name i = ref_name j -> i = j.
Proof. unfold ref_name. intros Hi Hj H. cbn in H. injection H as H. apply FormatInt_inj in H; [lia|done..]. Qed.
Lemma ref_name_ne i : ref_name i <> "".
Proof. by unfold ref_name. Qed.

(** What the state of an export says about the connections of the source. *)
Definition exported (i : nat) (c : vault.Connection) : ExportedConnection :=
  MkExportedConnection (ref_name i) (vault.Name c) (vault.Type_ c) (Some (vault.Config c)) (bool_decide (vault.CredentialID c <> None)).
Record exporting_ok (d : vault.DB) (st : exporting) : Prop := {
  eo_ref : forall id ref, refs st !! id = Some ref -> exists i c, ref = ref_name i /\ vault.connections d !! id = Some c /\ conns st !! i = Some (exported i c);
  eo_conns : forall i ec, conns st !! i = Some ec -> exists c, ec = exported i c
}.
(** The reference a node gets. *)
Definition ref_of (st : exporting) (n : flowfile.Node) : string :=
  if decide (flowfile.Connection n = "") then "" else default "" (refs st !! flowfile.Connection n).
(** The nodes of a list whose connections exist have got references. *)
Definition covers (d : vault.DB) (st : exporting) (ns : list flowfile.Node) : Prop :=
  forall n, n ∈ ns -> flowfile.Connection n <> "" -> is_Some (vault.connections d !! flowfile.Connection n) -> is_Some (refs st !! flowfile.Connection n).
Definition grows (st st' : exporting) : Prop := refs st ⊆ refs st' /\ conns st `prefix_of` conns st'.
#[local] Instance grows_preorder : PreOrder grows.
Proof. split; [by intros st; split|]. intros a b c [H1 H2] [H3 H4]. split; by etrans. Qed.

Lemma with_connection_same n : with_connection n (flowfile.Connection n) = n.
Proof. by destruct n. Qed.
Section export.
Context (d : vault.DB) (ok : nat -> bool) (Hok : forall k, ok k = true).
Lemma exportNode_spec st n : exporting_ok d st -> let '(st', n') := exportNode d ok st n in
  exporting_ok d st' /\ grows st st' /\ covers d st' [n] /\ n' = with_connection n (ref_of st' n) /\ (length (conns st') <= S (length (conns st)))%nat.
Proof.
  intros [H1 H2]. unfold exportNode, ref_of, covers. destruct (decide (flowfile.Connection n = "")) as [E|E].
  { split_and!; [done|done|intros x ->%list_elem_of_singleton; done|by rewrite <- E, with_connection_same|lia]. }
  destruct (refs st !! flowfile.Connection n) as [ref|] eqn:Er.
  { split_and!; [done|done|intros x ->%list_elem_of_singleton; by rewrite Er|by rewrite Er|lia]. }
  unfold vault.GetConnection. rewrite Hok. destruct (vault.connections d !! flowfile.Connection n) as [c|] eqn:Ec; cbn.
  - rewrite lookup_insert_eq. split_and!; [split| | |done|rewrite length_app; cbn; lia].
    + cbn. intros id ref [[<- <-]|[Hne Hl]]%lookup_insert_Some.
      * exists (length (conns st)), c. split_and!; [done|done|]. by rewrite lookup_app_r, Nat.sub_diag by lia.
      * destruct (H1 id ref Hl) as (i & c' & -> & Hc & Hi). exists i, c'. split_and!; [done|done|]. by apply lookup_app_l_Some.
    + cbn. intros i ec [Hi|[Hge Hi]]%lookup_app_Some; [by apply H2|]. destruct (i - length (conns st))%nat as [|k] eqn:Ek; [|by destruct k].
      injection Hi as <-. exists c. unfold exported. do 2 f_equal. lia.
    + split; cbn; [by apply insert_subseteq|by apply prefix_app_r].
    + intros x ->%list_elem_of_singleton. rewrite lookup_insert_eq. eauto.
  - rewrite Er. split_and!; [by split|by split|intros x ->%list_elem_of_singleton; rewrite Ec; by intros _ []|done|cbn; lia].
Qed.
Lemma covers_app st a b : covers d st (a ++ b) <-> covers d st a /\ covers d st b.
Proof. unfold covers. setoid_rewrite elem_of_app. naive_solver. Qed.
Lemma covers_grows st st' ns : grows st st' -> covers d st ns -> covers d st' ns.
Proof. intros [Hs _] H n Hn Hne Hc. destruct (H n Hn Hne Hc) as [r Hr]. exists r. by eapply lookup_weaken. Qed.
Lemma ref_of_grows st st' n : exporting_ok d st' -> grows st st' -> covers d st [n] -> ref_of st' n = ref_of st n.
Proof.
  intros [H1 _] [Hs _] Hc. unfold ref_of. case_decide as E; [done|]. destruct (refs st !! flowfile.Connection n) as [r|] eqn:Er.
  { by rewrite (lookup_weaken _ _ _ _ Er Hs). }
  destruct (refs st' !! flowfile.Connection n) as [r|] eqn:Er'; [|done]. destruct (H1 _ _ Er') as (i & c & _ & Hcn & _).
  destruct (Hc n ltac:(by left) E ltac:(eauto)). congruence.
Qed.
Definition rewritten (st : exporting) (ns : list flowfile.Node) : list flowfile.Node := map (fun n => with_connection n (ref_of st n)) ns.
Lemma rewritten_grows st st' ns : exporting_ok d st' -> grows st st' -> covers d st ns -> rewritten st' ns = rewritten st ns.
Proof.
  intros Ho Hg Hc. apply map_ext_in. intros n Hn. f_equal. apply ref_of_grows; [done|done|].
  intros x ->%list_elem_of_singleton. apply Hc. by apply list_elem_of_In.
Qed.
Lemma exportNodes_spec ns : forall st, exporting_ok d st -> let '(st', ns') := exportNodes d ok st ns in
  exporting_ok d st' /\ grows st st' /\ covers d st' ns /\ ns' = rewritten st' ns /\ (length (conns st') <= length (conns st) + length ns)%nat.
Proof.
  induction ns as [|n ns IH]; intros st Ho; cbn [exportNodes].
  { split_and!; [done|done|by intros ? ?%elem_of_nil|done|cbn; lia]. }
  pose proof (exportNode_spec st n Ho) as H1. destruct (exportNode d ok st n) as [st1 n']. destruct H1 as (Ho1 & Hg1 & Hc1 & -> & Hl1).
  specialize (IH st1 Ho1). destruct (exportNodes d ok st1 ns) as [st2 ns']. destruct IH as (Ho2 & Hg2 & Hc2 & -> & Hl2).
  split_and!; [done|by etrans| | |cbn; lia].
  - apply (covers_app st2 [n] ns). split; [by eapply covers_grows|done].
  - cbn. by rewrite (ref_of_grows st1 st2 n).
Qed.
End export.

Section flows.
Context (Parse : string -> option flowfile.FlowFile) (codec : flowstore.jsonCodec).
Definition nodes_of (f : flowstore.Flow) : list flowfile.Node :=
  match Parse (flowstore.Content f) with Some ff => flowfile.Nodes (flowfile.graph ff) | None => [] end.
(** A flow file in canonical order, with other connections at its nodes and their configurations in
    another format. *)
Definition with_config (n : flowfile.Node) (c : string) : flowfile.Node :=
  flowfile.MkNode (flowfile.ID n) (flowfile.Type_ n) (flowfile.TypeVersion n) (flowfile.Name n) (flowfile.Disabled n) (flowfile.Connection n)
    c (flowfile.errorPolicy n) (flowfile.Overflow n).
Definition renode (h : string -> string) (g : flowfile.Node -> string) (n : flowfile.Node) : flowfile.Node :=
  with_config (with_connection n (g n)) (h (flowfile.Config n)).
Definition unsorted (h : string -> string) (ff : flowfile.FlowFile) (g : flowfile.Node -> string) : flowfile.FlowFile :=
  with_nodes ff (map (renode h g) (flowfile.Nodes (flowfile.graph ff))).
Definition reconnected (h : string -> string) (ff : flowfile.FlowFile) (g : flowfile.Node -> string) : flowfile.FlowFile :=
  flowstore.sorted (unsorted h ff g).
(** What is asked of [encoding/json] for a flow: its draft parses, and whatever connections of [named] its
    nodes get, its canonical text reads back as the same file in canonical order, with the configurations of the nodes,
    which are raw JSON, in the format [canon] of the canonical text; and so does that file's own. *)
Definition encodable (canon : string -> string) (named : string -> Prop) (f : flowstore.Flow) : Prop :=
  exists ff, Parse (flowstore.Content f) = Some ff /\
    forall h g, h = id \/ h = canon -> (forall n, named (g n)) ->
      exists text, flowstore.MarshalCanonical codec (unsorted h ff g) = Some text /\
        Parse text = Some (reconnected (canon ∘ h) ff g).
Context (canon : string -> string) (named : string -> Prop) (named_nil : named "") (named_ref : forall i, named (ref_name i)).
(** What the bundle has for a flow. *)
Definition flow_exported (st : exporting) (f : flowstore.Flow) (x : string * string) : Prop :=
  x.1 = flowstore.Name f /\ exists ff, Parse (flowstore.Content f) = Some ff /\
    Parse x.2 = Some (reconnected canon ff (ref_of st)).
Lemma ref_of_named d st n : exporting_ok d st -> named (ref_of st n).
Proof.
  intros [H _]. unfold ref_of. case_decide; [done|]. destruct (refs st !! flowfile.Connection n) as [r|] eqn:E; [|done].
  destruct (H _ _ E) as (i & c & -> & _). apply named_ref.
Qed.
Lemma rewritten_renode st ns : rewritten st ns = map (renode id (ref_of st)) ns.
Proof. apply map_ext. by intros []. Qed.
Lemma exportFlows_spec d ok fs : (forall k, ok k = true) -> Forall (encodable canon named) fs ->
  forall st, exporting_ok d st -> exists st' out, exportFlows Parse codec d ok st fs = Ok (st', out) /\
    exporting_ok d st' /\ grows st st' /\ covers d st' (fs ≫= nodes_of) /\ Forall2 (flow_exported st') fs out /\
    (length (conns st') <= length (conns st) + length (fs ≫= nodes_of))%nat.
Proof.
  intros Hok. induction 1 as [|f fs (ff & Hff & Henc) Hfs IH]; intros st Ho; cbn [exportFlows].
  { eexists _, _. split; [done|]. split_and!; [done|done|by intros ? ?%elem_of_nil|constructor|cbn; lia]. }
  rewrite Hff. pose proof (exportNodes_spec d ok Hok (flowfile.Nodes (flowfile.graph ff)) st Ho) as Hn.
  destruct (exportNodes d ok st _) as [st1 ns]. destruct Hn as (Ho1 & Hg1 & Hc1 & -> & Hl1).
  destruct (Henc id (ref_of st1) ltac:(by left) (fun n => ref_of_named d st1 n Ho1)) as (text & Ht & Hp).
  rewrite rewritten_renode. fold (unsorted id ff (ref_of st1)). rewrite Ht. destruct (IH st1 Ho1) as (st2 & out & -> & Ho2 & Hg2 & Hc2 & Hf2 & Hl2). cbn.
  assert (nodes_of f = flowfile.Nodes (flowfile.graph ff)) as Hnf by (unfold nodes_of; by rewrite Hff).
  eexists _, _. split; [done|]. split_and!; [done|by etrans| | |].
  - apply covers_app. split; [|done]. rewrite Hnf. by eapply covers_grows.
  - constructor; [|done]. split; [done|]. exists ff. split; [done|]. cbn. rewrite Hp. unfold reconnected, unsorted. do 3 f_equal.
    apply map_ext_in. intros n Hin%list_elem_of_In. unfold renode. cbn. do 2 f_equal. symmetry. apply (ref_of_grows d); [done|done|].
    intros y ->%list_elem_of_singleton. by apply Hc1.
  - rewrite length_app, Hnf. lia.
Qed.
End flows.

(** ** The target *)

Lemma byNameType_spec l nt m : byNameType l !! nt = Some m -> m ∈ l /\ (vault.Name m, vault.Type_ m) = nt.
Proof.
  unfold byNameType. revert m. induction l as [|c l IH] using rev_ind; intros m; [done|]. rewrite fold_left_app. cbn.
  intros [[<- <-]|[_ H]]%lookup_insert_Some; [set_solver|]. destruct (IH m H). set_solver.
Qed.
(** The connection [id] of the target stands for an exported one: it is in the target project, has its
    name and type, and is one the project had before or a new one with its configuration and without
    a credential. *)
Definition stands_for (old new : vault.DB) (projectID : string) (ec : ExportedConnection) (id : string) : Prop :=
  exists c, vault.connections new !! id = Some c /\ vault.ProjectID c = projectID /\ vault.Name c = Name ec /\ vault.Type_ c = Type_ ec /\
    (vault.connections old !! id = Some c \/ (vault.Config c = default "" (Config ec) /\ vault.CredentialID c = None)).
Lemma stands_for_grows old a b p ec id : vault.connections a ⊆ vault.connections b -> stands_for old a p ec id -> stands_for old b p ec id.
Proof. intros Hs (c & Hc & H). exists c. split; [by eapply lookup_weaken|done]. Qed.

Section connections.
Context (v : vault.DB) (projectID : string) (ids : nat -> string) (ok : nat -> bool) (known : gmap (string * string) vault.Connection).
Context (Hok : forall k, ok k = true) (Hinj : forall i j, ids i = ids j -> i = j) (Hfresh : forall k, vault.connections v !! ids k = None).
Context (Hknown : forall n t m, known !! (n, t) = Some m ->
  vault.connections v !! vault.ID m = Some m /\ vault.ProjectID m = projectID /\ vault.Name m = n /\ vault.Type_ m = t).
Lemma importConnections_spec ecs : NoDup (map Ref ecs) -> forall st,
  vault.connections v ⊆ vault.connections (vdb st) ->
  (forall k, (length (created st) <= k)%nat -> vault.connections (vdb st) !! ids k = None) ->
  exists st', importConnections known projectID ids ok st ecs = (st', Ok tt) /\
    vault.connections (vdb st) ⊆ vault.connections (vdb st') /\
    (forall ec, ec ∈ ecs -> exists id, idByRef st' !! Ref ec = Some id /\ stands_for v (vdb st') projectID ec id) /\
    (forall r, r ∉ map Ref ecs -> idByRef st' !! r = idByRef st !! r) /\
    (forall i, is_Some (vault.connections (vdb st') !! i) -> is_Some (vault.connections (vdb st) !! i) \/ exists k, i = ids k).
Proof.
  induction ecs as [|ec ecs IH]; intros Hnd st Hsub Hnew; cbn [importConnections].
  { exists st. split_and!; [done|done|by intros ? ?%elem_of_nil|done|auto]. }
  cbn in Hnd. apply NoDup_cons in Hnd as [Hni Hnd].
  enough (exists st1 id, importConnections known projectID ids ok st (ec :: ecs) = importConnections known projectID ids ok st1 ecs /\
    vault.connections (vdb st) ⊆ vault.connections (vdb st1) /\ idByRef st1 = <[Ref ec := id]> (idByRef st) /\
    stands_for v (vdb st1) projectID ec id /\
    (forall k, (length (created st1) <= k)%nat -> vault.connections (vdb st1) !! ids k = None) /\
    (forall i, is_Some (vault.connections (vdb st1) !! i) -> is_Some (vault.connections (vdb st) !! i) \/ exists k, i = ids k))
    as (st1 & id & E & Hs1 & Hi1 & Hst & Hn1 & Hd1).
  { cbn [importConnections] in E. rewrite E. destruct (IH Hnd st1 ltac:(by etrans) Hn1) as (st' & -> & Hs' & Hall & Hrest & Hids).
    exists st'. split_and!; [done|by etrans| | |intros i [Hi|?]%Hids; auto].
    - intros x [-> |Hx]%elem_of_cons; [|by apply Hall]. exists id. rewrite Hrest, Hi1, lookup_insert_eq by done. split; [done|].
      by eapply stands_for_grows.
    - intros r [Hne Hr]%not_elem_of_cons. by rewrite Hrest, Hi1, lookup_insert_ne. }
  cbn [importConnections]. destruct (known !! (Name ec, Type_ ec)) as [m|] eqn:Ek.
  - destruct (Hknown _ _ _ Ek) as (Hm & Hp & Hn & Ht). eexists _, _. split; [done|]. cbn. split_and!; [done|done| |done|auto].
    exists m. split; [by eapply lookup_weaken|]. auto.
  - unfold vault.CreateConnection. rewrite Hok. cbn. rewrite bool_decide_true by (apply Hnew; lia).
    eexists _, _. split; [done|]. cbn. split_and!; [apply insert_subseteq, Hnew; lia|done| | |intros i [<- |]%lookup_insert_is_Some'; eauto].
    + eexists. split; [apply lookup_insert_eq|]. cbn. split_and!; [done|done|done|by right].
    + intros k Hk. rewrite length_app in Hk. cbn in Hk. rewrite lookup_insert_ne; [apply Hnew; lia|]. intros ?%Hinj. lia.
Qed.
End connections.

Section target.
Context (Parse : string -> option flowfile.FlowFile) (codec : flowstore.jsonCodec).
Definition remapping (m : gmap string string) (ff : flowfile.FlowFile) : flowfile.FlowFile :=
  flowstore.sorted (with_nodes ff (map (remap m) (flowfile.Nodes (flowfile.graph ff)))).
Lemma importFlows_spec m p ids ok now fs : (forall k, ok k = true) -> (forall i j, ids i = ids j -> i = j) ->
  Forall (fun x => exists ff text, Parse x.2 = Some ff /\
    flowstore.MarshalCanonical codec (with_nodes ff (map (remap m) (flowfile.Nodes (flowfile.graph ff)))) = Some text /\
    Parse text = Some (remapping m ff)) fs -> forall k d, (forall i, (k <= i)%nat -> flowstore.flows d !! ids i = None) ->
  exists d' l, importFlows Parse codec m p ids ok now k d fs = (d', Ok l) /\ flowstore.flows d ⊆ flowstore.flows d' /\
  Forall2 (fun x id => exists f ff, flowstore.flows d' !! id = Some f /\ flowstore.Name f = x.1 /\ flowstore.ProjectID f = p /\ Parse x.2 = Some ff /\
    Parse (flowstore.Content f) = Some (remapping m ff)) fs l.
Proof.
  intros Hok Hinj. induction 1 as [|[name text] fs (ff & content & Hff & Hc & Hb) _ IH]; intros k d Hfresh; cbn [importFlows]; [by eexists _, _; split_and!|].
  cbn in Hff. rewrite Hff, Hc.
  unfold flowstore.CreateFlow. rewrite Hok, bool_decide_true by (apply Hfresh; lia). cbn.
  match goal with |- context [importFlows _ _ _ _ _ _ _ _ ?d1 _] => destruct (IH (S k) d1) as (d' & l & -> & Hs & Hf) end.
  { cbn. intros i Hi. rewrite lookup_insert_ne; [apply Hfresh; lia|]. intros ?%Hinj. lia. }
  cbn in *. eexists _, _. split; [done|]. split; [etrans; [|exact Hs]; apply insert_subseteq; apply Hfresh; lia|]. constructor; [|done].
  eexists _, ff. split; [eapply lookup_weaken; [apply lookup_insert_eq|exact Hs]|]. cbn. by split_and!.
Qed.
End target.

(** Sorting once or twice makes no difference. *)
Lemma sorted_again ff h : (forall n, flowfile.ID (h n) = flowfile.ID n) ->
  flowstore.sorted (with_nodes (flowstore.sorted ff) (map h (flowfile.Nodes (flowfile.graph (flowstore.sorted ff))))) =
  flowstore.sorted (with_nodes ff (map h (flowfile.Nodes (flowfile.graph ff)))).
Proof.
  intros Hh. unfold flowstore.sorted, with_nodes. cbn -[sortBy map]. rewrite !(sortBy_map flowfile.ID flowfile.ID h) by done.
  rewrite !(sortBy_id flowfile.ev_Name), !(sortBy_id flowfile.w_ID), !(sortBy_id flowfile.ID) by apply sortBy_sorted. done.
Qed.

Lemma remapped m h ff g : remapping m (reconnected h ff g) = reconnected h ff (fun n => default (g n) (m !! g n)).
Proof.
  unfold remapping, reconnected at 1 2. rewrite (sorted_again _ (remap m)) by (intros n; unfold remap; by destruct (m !! flowfile.Connection n)).
  unfold reconnected, unsorted, with_nodes. cbn. do 2 f_equal. f_equal. rewrite map_map. apply map_ext. intros n. unfold remap, renode. cbn. by destruct (m !! g n).
Qed.
(** The canonical text depends on the canonical order only. *)
Lemma MarshalCanonical_sorted codec a b : flowstore.sorted a = flowstore.sorted b -> flowstore.MarshalCanonical codec a = flowstore.MarshalCanonical codec b.
Proof. unfold flowstore.MarshalCanonical. by intros ->. Qed.
Lemma reconnected_idem canon ff g : (forall c, canon (canon c) = canon c) -> reconnected (canon ∘ canon) ff g = reconnected canon ff g.
Proof. intros H. unfold reconnected, unsorted. do 2 f_equal. apply map_ext. intros n. unfold renode. cbn. by rewrite H. Qed.

(** ** Export, then import *)

Section roundtrip.
Context (Parse : string -> option flowfile.FlowFile) (codec : flowstore.jsonCodec).
(** What a node's connection becomes: none where there was none or it had been deleted, otherwise a
    connection of the target project that stands for it. *)
Definition carried (src old new : vault.DB) (projectID : string) (n : flowfile.Node) (id : string) : Prop :=
  match vault.connections src !! flowfile.Connection n with
  | Some c => if decide (flowfile.Connection n = "") then id = "" else
      exists c', vault.connections new !! id = Some c' /\ vault.ProjectID c' = projectID /\ vault.Name c' = vault.Name c /\
        vault.Type_ c' = vault.Type_ c /\
        (vault.connections old !! id = Some c' \/ (vault.Config c' = vault.Config c /\ vault.CredentialID c' = None))
  | None => id = ""
  end.
Lemma carried_ref src st v v' projectID (m : gmap string string) n : exporting_ok src st -> covers src st [n] ->
  (forall ec, ec ∈ conns st -> exists id, m !! Ref ec = Some id /\ stands_for v v' projectID ec id) -> m !! "" = None ->
  carried src v v' projectID n (default (ref_of st n) (m !! ref_of st n)).
Proof.
  intros [Hr _] Hcov Hall Hnil. unfold carried, ref_of. destruct (vault.connections src !! flowfile.Connection n) as [c|] eqn:Ec.
  - destruct (decide (flowfile.Connection n = "")) as [E|E]; [by rewrite Hnil|].
    destruct (Hcov n ltac:(by left) E ltac:(by rewrite Ec)) as [ref Href]. rewrite Href. cbn.
    destruct (Hr _ _ Href) as (i & c' & -> & Hc & Hi). rewrite Ec in Hc. injection Hc as <-.
    destruct (Hall _ (list_elem_of_lookup_2 _ _ _ Hi)) as (id & Hid & Hst). cbn in Hid. rewrite Hid. exact Hst.
  - destruct (decide (flowfile.Connection n = "")) as [E|E]; [by rewrite Hnil|].
    destruct (refs st !! flowfile.Connection n) as [ref|] eqn:Href; [|cbn; by rewrite Hnil].
    destruct (Hr _ _ Href) as (i & c' & _ & Hc & _). congruence.
Qed.
(** The references of an export are distinct, and none is empty. *)
Lemma refs_distinct src st : exporting_ok src st -> Z.of_nat (length (conns st)) < 2 ^ 63 -> NoDup (map Ref (conns st)) /\ "" ∉ map Ref (conns st).
Proof.
  intros [_ Hc] Hn. assert (forall i ec, conns st !! i = Some ec -> in_s 64 (Z.of_nat i)) as Hrange.
  { intros i ec Hi. apply lookup_lt_Some in Hi. unfold in_s. lia. }
  split.
  - apply NoDup_alt. intros i j r Hi Hj. rewrite list_lookup_fmap in Hi, Hj.
    destruct (conns st !! i) as [a|] eqn:Ea; [|done]. destruct (conns st !! j) as [b|] eqn:Eb; [|done].
    destruct (Hc _ _ Ea) as [ca ->], (Hc _ _ Eb) as [cb ->]. cbn in *. apply ref_name_inj; [eauto|eauto|congruence].
  - intros (ec & E & (i & Hi)%list_elem_of_lookup)%list_elem_of_fmap. destruct (Hc _ _ Hi) as [c ->]. by destruct (ref_name_ne i).
Qed.
(** A store keeps its rows by their ids, and an import draws new ones. *)
Record import_ok (v : vault.DB) (d : flowstore.DB) (e : import_env) : Prop := {
  io_keys : forall id c, vault.connections v !! id = Some c -> vault.ID c = id;
  io_oks : list_ok e = true /\ (forall k, conn_ok e k = true) /\ (forall k, flow_ok e k = true);
  io_conn : (forall i j, conn_ids e i = conn_ids e j -> i = j) /\ forall k, vault.connections v !! conn_ids e k = None;
  io_flow : (forall i j, flow_ids e i = flow_ids e j -> i = j) /\ forall k, flowstore.flows d !! flow_ids e k = None
}.

(** The names a node's connection gets on the way: none, a reference, an id of the target. *)
Definition named (v : vault.DB) (e : import_env) (s : string) : Prop :=
  s = "" \/ (exists i, s = ref_name i) \/ is_Some (vault.connections v !! s) \/ exists k, s = conn_ids e k.
Lemma imported_named v v' e p ec id : (forall i, is_Some (vault.connections v' !! i) -> is_Some (vault.connections v !! i) \/ exists k, i = conn_ids e k) ->
  stands_for v v' p ec id -> named v e id.
Proof. intros H (c & Hc & _). destruct (H id ltac:(eauto)); unfold named; auto. Qed.

(** [C36] a bundle carries flows from one project to another.  For flows whose drafts parse and whose
    canonical texts read back as the same file up to the format of the nodes' configurations ([encodable]: this is
    what is asked of [encoding/json], together with that formatting twice is formatting once), and for a
    source and a target whose statements all succeed and whose new ids are new, the export and then the import succeed;
    every imported flow has the name of the original and its content (layout and interface included) in canonical
    order, except that its nodes' configurations are in the canonical format and their connections are others:
    a node's connection is one of the target project with the same name and type, one that was
    there or a new one with the same configuration and without a credential, and it is empty where
    the original had none or one that does not exist. *)
Theorem export_import canon src ok now name fs v d e projectID :
  (forall c, canon (canon c) = canon c) -> (forall k, ok k = true) ->
  Forall (encodable Parse codec canon (named v e)) fs ->
  Z.of_nat (length (fs ≫= nodes_of Parse)) < 2 ^ 63 -> import_ok v d e ->
  exists b, buildExportBundle Parse codec src ok now name fs = Ok b /\
  exists v' d' r, importBundle Parse codec v d e projectID b = (v', d', Ok r) /\
  Forall2 (fun f id => exists f' ff g, flowstore.flows d' !! id = Some f' /\ flowstore.Name f' = flowstore.Name f /\
      flowstore.ProjectID f' = projectID /\ Parse (flowstore.Content f) = Some ff /\
      Parse (flowstore.Content f') = Some (reconnected canon ff g) /\
      forall n, n ∈ flowfile.Nodes (flowfile.graph ff) -> carried src v v' projectID n (g n)) fs (ImportedFlows r).
Proof.
  intros Hcanon Hok Hparse Hlen [Hkeys (Hl & Hck & Hfk) (Hci & Hcf) (Hfi & Hff)].
  destruct (exportFlows_spec Parse codec canon (named v e) ltac:(by left) ltac:(intros i; right; left; eauto) src ok fs Hok Hparse (MkExporting ∅ [] 0))
    as (st & out & E & Hst & _ & Hcov & Hout & Hn).
  { split; cbn; [intros id ref; by rewrite lookup_empty|intros i ec; by rewrite lookup_nil]. }
  unfold buildExportBundle. rewrite E. cbn. eexists. split; [done|]. unfold importBundle, vault.ListConnections. rewrite Hl. cbn.
  set (existing := sortBy vault.Name _). cbn in Hn.
  destruct (refs_distinct src st Hst ltac:(lia)) as [Hnd Hnil].
  destruct (importConnections_spec v projectID (conn_ids e) (conn_ok e) (byNameType existing) Hck Hci) with (ecs := conns st) (st := MkImporting v ∅ [] [])
    as (st' & -> & Hsub & Hall & Hrest & Hids).
  { intros n t m [Hm [= <- <-]]%byNameType_spec. unfold existing in Hm. rewrite sortBy_permutes in Hm.
    apply list_elem_of_filter in Hm as [Hp (id & _ & Hid)%list_elem_of_omap]. split_and!; [|done..]. by rewrite (Hkeys id m Hid). }
  { done. }
  { done. }
  { intros k _. apply Hcf. }
  set (g := fun n => default (ref_of st n) (idByRef st' !! ref_of st n)).
  assert (forall n, named v e (g n)) as Hg.
  { intros n. unfold g. destruct (idByRef st' !! ref_of st n) as [id|] eqn:Eid; cbn.
    - destruct (decide (ref_of st n ∈ map Ref (conns st))) as [(ec & Hec & Hin)%list_elem_of_fmap|Hni].
      + destruct (Hall ec Hin) as (id' & Hid' & Hs). rewrite <- Hec, Eid in Hid'. injection Hid' as <-. by eapply imported_named.
      + rewrite Hrest in Eid by done. cbn in Eid. by rewrite lookup_empty in Eid.
    - apply (ref_of_named (named v e)) with (d := src); [by left|intros i; right; left; eauto|done]. }
  destruct (importFlows_spec Parse codec (idByRef st') projectID (flow_ids e) (flow_ok e) (at_ e) out Hfk Hfi) with (k := 0%nat) (d := d)
    as (d' & l & -> & _ & Hl2).
  { apply Forall_forall. intros x (i & Hi)%list_elem_of_lookup. destruct (Forall2_lookup_r _ _ _ _ _ Hout Hi) as (f & Hf & _ & ff & Hpf & Hpx).
    rewrite Forall_forall in Hparse. destruct (Hparse f (list_elem_of_lookup_2 _ _ _ Hf)) as (ff' & Hff' & Henc).
    rewrite Hff' in Hpf. injection Hpf as ->. destruct (Henc canon g ltac:(by right) Hg) as (text & Ht & Hpt).
    rewrite (reconnected_idem canon ff g Hcanon) in Hpt.
    exists (reconnected canon ff (ref_of st)), text. rewrite Hpx, remapped. split_and!; [done| |done].
    rewrite <- Ht. apply MarshalCanonical_sorted. apply remapped. }
  { intros i _. apply Hff. }
  eexists _, _, _. split; [done|]. cbn. apply Forall2_same_length_lookup. split; [by rewrite (Forall2_length _ _ _ Hout), (Forall2_length _ _ _ Hl2)|].
  intros i f id Hf Hid. destruct (Forall2_lookup_l _ _ _ _ _ Hout Hf) as (x & Hx & Hname & ff & Hpf & Hpx).
  pose proof (Forall2_lookup_lr _ _ _ _ _ _ Hl2 Hx Hid) as (f' & ffx & Hf' & Hnf' & Hpf' & Hpx' & Hcont).
  rewrite Hpx in Hpx'. injection Hpx' as <-.
  exists f', ff, g. split_and!; [done|congruence|done|done| |].
  - by rewrite Hcont, remapped.
  - intros n Hn'. apply carried_ref; [done| |done|rewrite Hrest by done; apply lookup_empty].
    intros y ->%list_elem_of_singleton. apply Hcov. apply list_elem_of_bind. exists f. unfold nodes_of. rewrite Hpf.
    split; [done|by eapply list_elem_of_lookup_2].
Qed.
End roundtrip.

(** ** Examples *)
Module examples.
Definition node (id conn : string) : flowfile.Node := flowfile.MkNode id "sql-sink" 1 "" false conn "{}" None "".
Definition file (ns : list flowfile.Node) : flowfile.FlowFile :=
  flowfile.MkFlowFile 1 "flow" "A" "Press" "" "streaming" false None (flowfile.MkSettings "" false None "" None) [] (flowfile.MkGraph ns []) None None.
(** Texts of flow files that differ only in the connections of three nodes. *)
Definition text_of (ff : flowfile.FlowFile) : string := String.concat "," (map flowfile.Connection (flowfile.Nodes (flowfile.graph ff))).
Definition original : flowfile.FlowFile := file [node "a" "c1"; node "b" ""; node "c" "gone"].
Definition src : vault.DB := vault.MkDB ∅ {["c1" := vault.MkConnection "c1" "p1" "line 1" "postgres" "{host}" (Some "cred")]}.
(** The credential stays behind. *)
Lemma bundle_without_secret :
  (exportNodes src (fun _ => true) (MkExporting ∅ [] 0) (flowfile.Nodes (flowfile.graph original))).1 =
    MkExporting {["c1" := "ref:0"]} [MkExportedConnection "ref:0" "line 1" "postgres" (Some "{host}") true] 2 /\
  map flowfile.Connection (exportNodes src (fun _ => true) (MkExporting ∅ [] 0) (flowfile.Nodes (flowfile.graph original))).2 = ["ref:0"; ""; ""].
Proof. vm_compute. done. Qed.
(** A failed insert leaves the connections of an import that did not happen. *)
Lemma import_not_atomic :
  let b := MkBundle 1 0 "" [("Press", "bad")] [MkExportedConnection "ref:0" "line 1" "postgres" (Some "{host}") true] in
  let e := MkImportEnv true (fun k => "new") (fun _ => true) (fun k => "f") (fun _ => true) 0 in
  let '(v, d, r) := importBundle (fun _ => None) (flowstore.MkCodec unit (fun _ => None) (fun _ => None) (fun _ => None)) (vault.MkDB ∅ ∅) flowstore.emptyDB e "p2" b in
  r = Err "api: parsing bundle flow" /\ is_Some (vault.connections v !! "new").
Proof. vm_compute. split; [done|by eexists]. Qed.
(** A reference that the bundle does not define is kept: it may be the id of any connection. *)
Lemma unknown_ref_kept : remap {["ref:0" := "new"]} (node "a" "c-of-another-project") = node "a" "c-of-another-project".
Proof. reflexivity. Qed.

(** Flow files with one node; the text is its connection and a closing brace.  The configuration is
    printed in one format. *)
Fixpoint dropLast (s : string) : string :=
  match s with String c (String _ _ as r) => String c (dropLast r) | _ => "" end.
Lemma dropLast_brace s : dropLast (s +:+ "}") = s.
Proof. induction s as [|c [|c' s] IH]; [done|done|]. exact (f_equal (String c) IH). Qed.
Definition one (conn : string) : flowfile.FlowFile := file [with_config (node "a" conn) (if decide (conn = "c1") then "{ }" else "{}")].
Definition Parse1 (text : string) : option flowfile.FlowFile := Some (one (dropLast text)).
Definition marshal1 (ff : flowfile.FlowFile) : option string :=
  match flowfile.Nodes (flowfile.graph ff) with [n] => Some (flowfile.Connection n +:+ "}") | _ => None end.
Definition codec1 : flowstore.jsonCodec := flowstore.MkCodec string marshal1 Some (fun s => Some (s +:+ String flowstore.newline "")).
Definition canon1 (c : string) : string := "{}".
Lemma trim_brace s : flowstore.trimNewlines ((s +:+ "}") +:+ String flowstore.newline "") = s +:+ "}".
Proof.
  induction s as [|c s IH]; [done|]. change ((String c s +:+ "}") +:+ ?x) with (String c ((s +:+ "}") +:+ x)). cbn [flowstore.trimNewlines].
  rewrite IH, decide_False; [done|]. intros [H _]. by destruct s.
Qed.
Definition press : flowstore.Flow := flowstore.MkFlow "p1" "Press" "c1}" None "info" None 0 0.
Definition number (prefix : string) (k : nat) : string := prefix +:+ String.concat "" (repeat "i" k).
Lemma number_inj p i j : String.length p = 1%nat -> number p i = number p j -> i = j.
Proof.
  assert (forall k, String.length (number p k) = (String.length p + k)%nat) as H.
  { intros k. unfold number. assert (forall a b, String.length (a +:+ b) = (String.length a + String.length b)%nat) as Happ.
    { intros a b. induction a as [|c a IH]; [done|]. exact (f_equal S IH). }
    rewrite Happ. f_equal. induction k as [|[|k] IH]; [done|done|]. exact (f_equal S IH). }
  intros _ E. apply (f_equal String.length) in E. rewrite !H in E. lia.
Qed.
Definition env1 : import_env := MkImportEnv true (number "n") (fun _ => true) (number "f") (fun _ => true) 0.
Lemma press_encodable : encodable Parse1 codec1 canon1 (named (vault.MkDB ∅ ∅) env1) press.
Proof.
  exists (one "c1"). split; [done|]. intros h g _ Hg. exists (g (with_config (node "a" "c1") "{ }") +:+ "}"). split.
  - unfold flowstore.MarshalCanonical, flowstore.canonicalizeJSON. cbn. by rewrite trim_brace.
  - unfold Parse1. rewrite dropLast_brace. unfold one at 1. rewrite decide_False; [done|].
    intros E. specialize (Hg (with_config (node "a" "c1") "{ }")). rewrite E in Hg.
    destruct Hg as [?|[[i Hi]|[Hs|[k Hk]]]]; [done|done| |done]. cbn in Hs. rewrite lookup_empty in Hs. by destruct Hs.
Qed.
Lemma export_import_witness :
  exists b v d r f, buildExportBundle Parse1 codec1 src (fun _ => true) 0 "" [press] = Ok b /\
    importBundle Parse1 codec1 (vault.MkDB ∅ ∅) flowstore.emptyDB env1 "p2" b = (v, d, Ok r) /\
    flowstore.flows d !! "f" = Some f /\ flowstore.Content f = "n}".
Proof.
  destruct (export_import Parse1 codec1 canon1 src (fun _ => true) 0 "" [press] (vault.MkDB ∅ ∅) flowstore.emptyDB env1 "p2") as (b & Hb & v & d & r & Hi & Hf).
  - done.
  - done.
  - constructor; [|constructor]. exact press_encodable.
  - vm_compute. reflexivity.
  - split; [intros id c; cbn; by rewrite lookup_empty|done| |]; (split; [intros i j; by apply number_inj|intros k; apply lookup_empty]).
  - exists b, v, d, r. vm_compute in Hb. injection Hb as <-. vm_compute in Hi. injection Hi as <- <- <-.
    eexists. split; [vm_compute; reflexivity|]. split; [vm_compute; reflexivity|]. split; vm_compute; reflexivity.
Defined.
End examples.
End vcs.
