(* ===== verification/HttpRequest.v ===== *)
(** * The HTTP request node ([engine/nodes/httprequest])

    One request per datagram: the URL, the query and the headers are templates over the payload, the
    body is the payload, the credentials come from the node's connection and are resolved once.  The
    server, the resolver of connections, JSON texts, the check of a URL and the canonical form of a
    header name are parameters. *)

From S2P Require Import Prelude Bytes GoStd Datagram Execution Value Expr.
Import gostd datagram execution value.
Local Open Scope Z_scope.

Module httprequest.

Record Config := MkConfig {
  Method : string; URL : string; Headers : list (string * string); Query : list (string * string); BodyFrom : string;
  ResponseField : string; AuthType : string; TimeoutMs : Z
}.
(** The setter of the credentials. *)
Inductive setter := NoAuth | BasicAuth (user password : string) | SetHeader (name value : string).
(** [auth]: what [authOnce] has left. *)
Record node := MkNode { cfg : Config; timeout : Z; auth : option (setter + string) }.
Definition New (c : Config) : res string node :=
  _ ← guard_err (bool_decide (URL c <> "")) "http-request: url is required";
  _ ← guard_err (bool_decide (Method c <> "")) "http-request: method is required";
  let t := s64 (TimeoutMs c * 1000000) in
  Ok (MkNode c (if t <=? 0 then 30000000000 else t) None).

(** ** Templates *)

(** The text before the first closing brace, when a second one follows it. *)
Fixpoint until_close (s : string) : option (string * string) :=
  match s with
  | String c s' =>
      if expr.is_close c then match s' with String c' r => if expr.is_close c' then Some ("", r) else None | "" => None end
      else '(a, r) ← until_close s'; Some (String c a, r)
  | "" => None
  end.
Fixpoint trim_left (s : string) : string :=
  match s with String c s' => if expr.is_space c then trim_left s' else s | "" => "" end.
Fixpoint trim_right (s : string) : string :=
  match s with
  | String c s' => match trim_right s' with "" => if expr.is_space c then "" else String c "" | r => String c r end
  | "" => ""
  end.
Fixpoint last_char (s : string) : string := match s with String c "" => String c "" | String _ s' => last_char s' | "" => "" end.
(** [templateToken] at the beginning of a text, with the path it captures and the rest.  A path of
    spaces alone is its last space. *)
Definition templateToken (s : string) : option (string * string) :=
  match s with
  | String o1 (String o2 s') =>
      if expr.is_open o1 && expr.is_open o2 then
        '(a, r) ← until_close s';
        if decide (a = "") then None
        else Some (if decide (trim_left a = "") then last_char a else trim_right (trim_left a), r)
      else None
  | _ => None
  end.
Definition evalPath (root : any) (path : string) : any :=
  if decide (path = "" \/ path = "payload") then root else walk root (splitDots path).

Section node.
Context (Marshal : any -> option string) (Unmarshal : string -> option any) (canonical : string -> string) (validURL : string -> string -> bool).

Definition substitute (payload : any) (path : string) : string :=
  match evalPath payload path with
  | ANil => ""
  | AStr s => s
  | v => default "" (Marshal v)
  end.
Fixpoint render (fuel : nat) (payload : any) (s : string) : string :=
  match fuel, s with
  | S fuel, String c s' =>
      match templateToken s with
      | Some (path, rest) => substitute payload path +:+ render fuel payload rest
      | None => String c (render fuel payload s')
      end
  | _, _ => s
  end.
Definition renderTemplate (tmpl : string) (payload : any) : string := render (String.length tmpl) payload tmpl.

Definition parseResponse (body responseField : string) : any :=
  match Unmarshal body with
  | None => AStr body
  | Some decoded => if decide (responseField = "") then decoded else evalPath decoded responseField
  end.

(** ** Credentials *)

(** What the connection's credential holds, by the type that is read: fields that are absent are "". *)
Record Credential := MkCredential { Username : string; Password : string; Token : string; HeaderName : string; c_Value : string }.
(** [resolve]: the credential of the connection; no error of its own tells it from one that does not parse. *)
Definition setterOf (authType : string) (resolve : option (option Credential)) : setter + string :=
  let credential what (f : Credential -> setter) :=
    match resolve with
    | None => inr ("resolving " +:+ what +:+ " connection")
    | Some None => inr ("parsing " +:+ what +:+ " credential")
    | Some (Some c) => inl (f c)
    end in
  if decide (authType = "" \/ authType = "none") then inl NoAuth
  else if decide (authType = "basic") then credential "basic auth" (fun c => BasicAuth (Username c) (Password c))
  else if decide (authType = "bearer") then credential "bearer auth" (fun c => SetHeader "Authorization" ("Bearer " +:+ Token c))
  else if decide (authType = "apikey") then credential "apikey" (fun c => SetHeader (HeaderName c) (c_Value c))
  else inr "unknown auth type".
Definition resolveAuth (n : node) (resolve : option (option Credential)) : node * (setter + string) :=
  match auth n with
  | Some a => (n, a)
  | None => let a := setterOf (AuthType (cfg n)) resolve in (MkNode (cfg n) (timeout n) (Some a), a)
  end.

(** ** The request *)

Record Request := MkRequest { r_Method : string; r_URL : string; r_Header : gmap string string; r_Body : option string }.
Definition set_header (h : gmap string string) (name v : string) : gmap string string := <[canonical name := v]> h.
Definition basicToken (user password : string) : string :=
  "Basic " +:+ string_of_bytes (EncodeToString (bytes_of_string (user +:+ ":" +:+ password))).
Definition apply_auth (a : setter) (h : gmap string string) : gmap string string :=
  match a with
  | NoAuth => h
  | BasicAuth u p => set_header h "Authorization" (basicToken u p)
  | SetHeader name v => set_header h name v
  end.
Fixpoint Join (sep : string) (l : list string) : string :=
  match l with [] => "" | [x] => x | x :: l' => x +:+ sep +:+ Join sep l' end.
Fixpoint contains_question (s : string) : bool :=
  match s with String c s' => expr.is_byte 63 c || contains_question s' | "" => false end.
(** [Query] and [Headers]: in the order of the iteration over their maps. *)
Definition requestURL (c : Config) (payload : any) : string :=
  let url := renderTemplate (URL c) payload in
  match Query c with
  | [] => url
  | q => url +:+ (if contains_question url then "&" else "?") +:+ Join "&" (map (fun '(k, v) => k +:+ "=" +:+ renderTemplate v payload) q)
  end.
Definition requestBody (c : Config) (payload : any) : res string (option string) :=
  let bodyFrom := if decide (BodyFrom c = "" /\ Method c <> "GET" /\ Method c <> "DELETE") then "payload" else BodyFrom c in
  if decide (bodyFrom = "payload") then
    match Marshal payload with Some b => Ok (Some b) | None => Err "http-request: encoding request body" end
  else Ok None.
Definition buildRequest (c : Config) (a : setter) (payload : any) : res string Request :=
  let url := requestURL c payload in
  body ← requestBody c payload;
  if negb (validURL (Method c) url) then Err "http-request: building request" else
  let h := match body with Some _ => set_header ∅ "Content-Type" "application/json" | None => ∅ end in
  let h := fold_left (fun h '(k, v) => set_header h k (renderTemplate v payload)) (Headers c) h in
  Ok (MkRequest (Method c) url (apply_auth a h) body).

Section process.
(** The world with the server: a status and a body that can be read, or an error. *)
Context {W : Type} (Do : Request -> Z -> W -> option (Z * option string) * W).
Definition Process (n : node) (resolve : option (option Credential)) (id : string) (now : Z) (inp : dgram) (w : W)
  : node * (res string (list portDgm) * W) :=
  match resolveAuth n resolve with
  | (n, inr e) => (n, (Err ("http-request: " +:+ e), w))
  | (n, inl a) =>
      (n, match buildRequest (cfg n) a (Value (payload inp)) with
          | Err e => (Err e, w)
          | Panic => (Panic, w)
          | Ok req =>
              match Do req (timeout n) w with
              | (None, w') => (Err "http-request", w')
              | (Some (_, None), w') => (Err "http-request: reading response", w')
              | (Some (status, Some body), w') =>
                  if 400 <=? status then (Err "http-request: returned an error status", w') else
                  (Ok [MkPortDatagram "out"
                         (NewCaused id now inp (MkSource "" "http-request" "" "" "http")
                            (MkPayload (parseResponse body (ResponseField (cfg n))) None))], w')
              end
          end)
  end.
End process.
End node.

(** ** Templates are spliced *)

(** Templates as [Expr] writes them down: literal text without opening braces; a path without closing braces, not empty, with spaces around
    it but not at its ends. *)
Definition path_ok (g : expr.segment) : bool :=
  match g with
  | expr.Lit s => expr.all (fun c => negb (expr.is_open c)) s
  | expr.Code a p b => expr.all expr.is_space a && expr.all expr.is_space b && expr.all (fun c => negb (expr.is_close c)) p &&
                  expr.starts_plain p && expr.ends_plain p
  end.
Lemma all_app P a b : expr.all P (a +:+ b) = expr.all P a && expr.all P b.
Proof. induction a as [|c a IH]; [done|]. change (P c && expr.all P (a +:+ b) = P c && expr.all P a && expr.all P b). by rewrite IH, andb_assoc. Qed.
Lemma all_weaken (P Q : Ascii.ascii -> bool) s : (forall c, P c = true -> Q c = true) -> expr.all P s = true -> expr.all Q s = true.
Proof. intros H. induction s as [|c s IH]; [done|]. cbn. intros [Hc Hs]%andb_prop. by rewrite (H c Hc), IH. Qed.
Lemma space_not_close c : expr.is_space c = true -> negb (expr.is_close c) = true.
Proof. intros H. destruct (expr.is_close c) eqn:E; [|done]. apply expr.close_not_space in E. congruence. Qed.
Lemma until_close_app a rest : expr.all (fun c => negb (expr.is_close c)) a = true -> until_close (a +:+ "}}" +:+ rest) = Some (a, rest).
Proof.
  induction a as [|c a IH]; [done|]. cbn. intros [Hc Ha]%andb_prop. change (String c a +:+ "}}" +:+ rest) with (String c (a +:+ "}}" +:+ rest)).
  cbn [until_close]. destruct (expr.is_close c); [done|]. by rewrite IH.
Qed.
Lemma trim_left_app a p : expr.all expr.is_space a = true -> expr.starts_plain p = true -> trim_left (a +:+ p) = p.
Proof.
  intros Ha Hp. induction a as [|c a IH].
  - destruct p as [|c p]; [done|]. cbn in *. change ("" +:+ String c p) with (String c p). cbn. by destruct (expr.is_space c).
  - cbn in Ha. apply andb_prop in Ha as [Hc Ha]. change (String c a +:+ p) with (String c (a +:+ p)). cbn. rewrite Hc. by apply IH.
Qed.
Lemma trim_right_space b : expr.all expr.is_space b = true -> trim_right b = "".
Proof. induction b as [|c b IH]; [done|]. cbn. intros [Hc Hb]%andb_prop. by rewrite IH, Hc. Qed.
Lemma trim_right_app p b : expr.ends_plain p = true -> expr.all expr.is_space b = true -> trim_right (p +:+ b) = p.
Proof.
  intros Hp Hb. induction p as [|c p IH]; [done|]. change (String c p +:+ b) with (String c (p +:+ b)). cbn [trim_right].
  destruct p as [|c' p].
  - change ("" +:+ b) with b. rewrite trim_right_space by done. cbn in Hp. by destruct (expr.is_space c).
  - rewrite IH by (cbn in *; done). done.
Qed.
Lemma token_path a p b rest : path_ok (expr.Code a p b) = true -> templateToken ("{{" +:+ (a +:+ p +:+ b) +:+ "}}" +:+ rest) = Some (p, rest).
Proof.
  cbn. intros [[[[Ha Hb]%andb_prop Hp]%andb_prop Hs]%andb_prop He]%andb_prop.
  change ("{{" +:+ (a +:+ p +:+ b) +:+ "}}" +:+ rest) with (String (Ascii.ascii_of_nat 123) (String (Ascii.ascii_of_nat 123) ((a +:+ p +:+ b) +:+ "}}" +:+ rest))). cbn [templateToken].
  rewrite until_close_app; [|rewrite !all_app, Hp; apply (all_weaken _ _ _ space_not_close) in Ha, Hb; by rewrite Ha, Hb]. cbn.
  destruct p as [|c p]; [done|]. rewrite (trim_left_app a (String c p +:+ b)) by done. rewrite trim_right_app by done.
  rewrite decide_False by (by destruct a). by rewrite decide_False.
Qed.
Lemma token_plain c s : expr.is_open c = false -> templateToken (String c s) = None.
Proof. intros H. destruct s; cbn; [done|]. by rewrite H. Qed.

Section spliced.
Context (Marshal : any -> option string) (payload : any).
Lemma render_literal s t : expr.all (fun c => negb (expr.is_open c)) s = true -> forall fuel,
  render Marshal (String.length s + fuel) payload (s +:+ t) = s +:+ render Marshal fuel payload t.
Proof.
  induction s as [|c s IH]; intros Hs fuel; [done|]. cbn in Hs. apply andb_prop in Hs as [Hc Hs].
  change (String c s +:+ t) with (String c (s +:+ t)). cbn [String.length Nat.add render].
  rewrite token_plain by (by destruct (expr.is_open c)). rewrite IH by done. done.
Qed.
(** More fuel than the text is long changes nothing. *)
Lemma until_close_shorter s a r : until_close s = Some (a, r) -> (String.length r < String.length s)%nat.
Proof.
  revert a. induction s as [|c s IH]; intros a; [done|]. cbn. destruct (expr.is_close c).
  - destruct s as [|c' s]; [done|]. destruct (expr.is_close c'); [|done]. intros [= _ <-]. cbn. lia.
  - destruct (until_close s) as [[x y]|]; [|done]. cbn. intros [= _ <-]. specialize (IH x eq_refl). lia.
Qed.
Lemma token_shorter s p r : templateToken s = Some (p, r) -> (String.length r < String.length s)%nat.
Proof.
  unfold templateToken. destruct s as [|a [|b s]]; [done..|]. destruct (_ && _); [|done].
  destruct (until_close s) as [[x y]|] eqn:E; [|done]. cbn. case_decide; [done|]. intros [= _ <-]. apply until_close_shorter in E. cbn. lia.
Qed.
Lemma render_fuel : forall fuel fuel' s, (String.length s <= fuel)%nat -> (String.length s <= fuel')%nat -> render Marshal fuel payload s = render Marshal fuel' payload s.
Proof.
  induction fuel as [|fuel IH]; intros fuel' s H H'; [destruct s; [by destruct fuel'|cbn in H; lia]|].
  destruct s as [|c s]; [by destruct fuel'|]. destruct fuel' as [|fuel']; [cbn in H'; lia|]. cbn [render].
  destruct (templateToken (String c s)) as [[p r]|] eqn:E.
  - apply token_shorter in E. f_equal. apply IH; lia.
  - f_equal. apply IH; cbn in *; lia.
Qed.
(** Rendering a template puts the value of every path in the place of its token, and leaves the
    text around the tokens as it is. *)
Theorem renderTemplate_splices gs : forallb path_ok gs = true ->
  renderTemplate Marshal (expr.print gs) payload =
  foldr (fun g t => match g with expr.Lit s => s | expr.Code _ p _ => substitute Marshal payload p end +:+ t) "" gs.
Proof.
  unfold renderTemplate. induction gs as [|g gs IH]; [done|]. intros [Hg Hgs]%andb_prop. specialize (IH Hgs).
  destruct g as [s|a p b]; cbn [expr.print foldr expr.print1].
  - fold (expr.print gs). rewrite expr.str_length_app, render_literal by exact Hg. by rewrite IH.
  - fold (expr.print gs).
    assert (("{{" +:+ a +:+ p +:+ b +:+ "}}") +:+ expr.print gs = "{{" +:+ (a +:+ p +:+ b) +:+ "}}" +:+ expr.print gs) as E by by rewrite !str_app_assoc.
    rewrite E. clear E. pose proof (token_path a p b (expr.print gs) Hg) as Ht.
    set (t := "{{" +:+ (a +:+ p +:+ b) +:+ "}}" +:+ expr.print gs) in *.
    pose proof (token_shorter t p (expr.print gs) Ht) as Hlen.
    destruct t as [|c t]; [done|]. cbn [String.length render]. rewrite Ht. f_equal. rewrite <- IH. apply render_fuel; cbn in Hlen; lia.
Qed.
End spliced.

(** ** Credentials *)

(** The credentials are resolved with the first datagram and never again: a sequence of calls
    resolves to what the first one did. *)
Theorem auth_resolved_once n r rs : auth n = None ->
  let step n r := (resolveAuth n r).1 in
  forall r', (resolveAuth (fold_left step rs (step n r)) r').2 = setterOf (AuthType (cfg n)) r.
Proof.
  intros Hn step r'. assert (auth (step n r) = Some (setterOf (AuthType (cfg n)) r)) as H by (unfold step, resolveAuth; by rewrite Hn).
  revert H. generalize (step n r). induction rs as [|x rs IH]; intros m H; cbn; [unfold resolveAuth; by rewrite H|].
  apply IH. unfold step, resolveAuth. by rewrite H.
Qed.
(** Whatever the payload and the configured headers are, the credentials are what the request
    carries: they are set last. *)
Theorem auth_not_overridden Marshal canonical validURL c a payload req :
  buildRequest Marshal canonical validURL c a payload = Ok req ->
  match a with
  | NoAuth => True
  | BasicAuth u p => r_Header req !! canonical "Authorization" = Some (basicToken u p)
  | SetHeader name v => r_Header req !! canonical name = Some v
  end.
Proof.
  unfold buildRequest. destruct (requestBody Marshal c payload); [|done..]. cbn. destruct (validURL _ _); [|done]. cbn. intros [= <-]. cbn.
  destruct a; cbn; [done|apply lookup_insert_eq..].
Qed.

(** A failure of the first resolution is answered to every datagram. *)
Lemma auth_failure_sticks Marshal Unmarshal canonical validURL {W} (Do : Request -> Z -> W -> option (Z * option string) * W) n e r id now inp w :
  auth n = Some (inr e) ->
  Process Marshal Unmarshal canonical validURL Do n r id now inp w = (n, (Err ("http-request: " +:+ e), w)).
Proof. intros H. unfold Process, resolveAuth. by rewrite H. Qed.
(** Values are put into the query as they are. *)
Lemma query_not_escaped :
  requestURL (fun _ => None) (MkConfig "GET" "http://h/items" [] [("q", "{{ name }}")] "" "" "" 0) (AMap [("name", AStr "a&admin=1")])
  = "http://h/items?q=a&admin=1".
Proof. vm_compute. reflexivity. Qed.
End httprequest.
