(* ===== verification/Script.v ===== *)
(** * The script node ([engine/nodes/script])

    The script engine is outside; what it runs is a tree of the calls it makes into the node, each
    followed by what the script does with the answer, so that the theorems hold for every script.  An
    exception and the interruption by the timeout or a cancelled context are both ends of such a tree.
    Values in the context store may be shared objects ([CtxStore]). *)

From S2P Require Import Prelude GoStd Datagram Execution Value CtxStore Debug.
Import gostd datagram execution value.
Local Open Scope Z_scope.

Module script.

Definition DefaultTimeout : Z := 2000000000.
Record Config := MkConfig { Code : string; Outputs : list string; TimeoutMs : Z }.

(** [set] of a scope answers with an error, which the engine turns into an exception. *)
Inductive program :=
| PReturn (v : option any)                              (* [None]: undefined or null *)
| PThrow (e : string)
| PEmit (port : string) (v : any) (k : program)
| PConsole (level text : string) (k : program)
| PStateGet (key : string) (k : option ctxstore.hval -> program)
| PStateSet (key : string) (v : ctxstore.hval) (k : option string -> program)
| PFlowGet (key : string) (k : option ctxstore.hval -> program)
| PFlowSet (key : string) (v : ctxstore.hval) (k : option string -> program)
| PGlobalGet (key : string) (k : option ctxstore.hval -> program)
| PGlobalSet (key : string) (v : ctxstore.hval) (k : option string -> program).

Section node.
Context (compile : string -> option program).
Record node := MkNode { cfg : Config; prog : program; outputs : list string; timeout : Z }.
Definition New (c : Config) : res string node :=
  _ ← guard_err (bool_decide (Code c <> "")) "script: code is required";
  let outs := match Outputs c with [] => ["out"] | l => l end in
  match compile (Code c) with
  | None => Err "script: compiling"
  | Some p => let t := s64 (TimeoutMs c * 1000000) in Ok (MkNode c p outs (if t <=? 0 then DefaultTimeout else t))
  end.
Definition OutputPorts (n : node) : list string := outputs n.
End node.

(** What a datagram's handling meets and changes: the store, if one is attached, the debug capture, and
    the datagrams emitted so far. *)
Record world := MkWorld { store : option ctxstore.MemoryStore; sidebar : option debug.capture; results : list portDgm }.

Section process.
(** The node, the datagram, and the ids and times of new datagrams and of console events. *)
Context (flowID nodeID : string) (inp : dgram) (ids eventIDs : nat -> string) (clock : nat -> Z).

Definition emit (w : world) (port : string) (v : any) : world :=
  let k := length (results w) in
  MkWorld (store w) (sidebar w)
    (results w ++ [MkPortDatagram port (NewCaused (ids k) (clock k) inp (MkSource "" nodeID "" "" "") (MkPayload v None))]).
Definition console (w : world) (i : nat) (level text : string) : world :=
  MkWorld (store w) (debug.SidebarEvent (sidebar w) (eventIDs i) (clock i) flowID nodeID ("console." +:+ level) inp (AStr text)) (results w).
Definition set_store (w : world) (s : ctxstore.MemoryStore) : world := MkWorld (Some s) (sidebar w) (results w).
(** [nodeStateObject] *)
Definition stateKey (key : string) : ctxstore.Key := ctxstore.MkKey ctxstore.ScopeNode flowID nodeID key.
Definition state_get (w : world) (key : string) : option ctxstore.hval :=
  match store w with
  | None => None
  | Some s => match ctxstore.Get s (stateKey key) with Ok v => v | _ => None end
  end.
Definition put (w : world) (missing : string) (set : ctxstore.MemoryStore -> res string ctxstore.MemoryStore) : world * option string :=
  match store w with
  | None => (w, Some missing)
  | Some s => match set s with Ok s' => (set_store w s', None) | Err e => (w, Some e) | Panic => (w, Some "panic") end
  end.
Definition state_set (w : world) (key : string) (v : ctxstore.hval) : world * option string :=
  put w "script: no context store attached" (fun s => ctxstore.Set_ s (stateKey key) v).

(** The run of a script; [i] counts console events. *)
Fixpoint run (p : program) (i : nat) (w : world) : world * (option any + string) :=
  match p with
  | PReturn v => (w, inl v)
  | PThrow e => (w, inr e)
  | PEmit port v k => run k i (emit w port v)
  | PConsole level text k => run k (S i) (console w i level text)
  | PStateGet key k => run (k (state_get w key)) i w
  | PStateSet key v k => let '(w, e) := state_set w key v in run (k e) i w
  | PFlowGet key k => run (k (s ← store w; ctxstore.FlowGet s flowID key)) i w
  | PFlowSet key v k => let '(w, e) := put w "expr: no writable context bound for this scope" (fun s => ctxstore.FlowSet s flowID key v) in run (k e) i w
  | PGlobalGet key k => run (k (s ← store w; ctxstore.GlobalGet s key)) i w
  | PGlobalSet key v k => let '(w, e) := put w "expr: no writable context bound for this scope" (fun s => ctxstore.GlobalSet s key v) in run (k e) i w
  end.

(** [Process]: the results, and the store and the capture as the script left them. *)
Definition Process (n : node) (w : world) : world * nodeResult :=
  match run (prog n) 0 (MkWorld (store w) (sidebar w) []) with
  | (w, inr e) => (w, Err ("script: " +:+ e))
  | (w, inl v) =>
      let w := match results w, v with
               | [], Some x => emit w (hd "" (outputs n)) x
               | _, _ => w
               end in
      (w, Ok (results w))
  end.
End process.

(** ** What a script can reach *)

(** The keys of the node, of its flow, and the global ones. *)
Definition own_key (flowID nodeID : string) (k : ctxstore.Key) : Prop :=
  ctxstore.Scope k = ctxstore.ScopeGlobal \/ (ctxstore.KFlowID k = flowID /\ (ctxstore.Scope k = ctxstore.ScopeFlow \/ ctxstore.KNodeID k = nodeID)).
Definition same_elsewhere (flowID nodeID : string) (a b : option ctxstore.MemoryStore) : Prop :=
  match a, b with
  | Some s, Some t => forall k, ~ own_key flowID nodeID k -> t !! k = s !! k
  | None, None => True
  | _, _ => False
  end.
#[local] Instance same_elsewhere_preorder f n : PreOrder (same_elsewhere f n).
Proof.
  split; [by intros [s|]|]. intros [a|] [b|] [c|]; cbn; try done. intros H1 H2 k Hk. by rewrite H2, H1.
Qed.
Lemma Set_elsewhere flowID nodeID s k v s' : own_key flowID nodeID k -> ctxstore.Set_ s k v = Ok s' -> same_elsewhere flowID nodeID (Some s) (Some s').
Proof.
  intros Hk. unfold ctxstore.Set_. destruct (ctxstore.validate k); [|done..]. cbn. intros [= <-] k' Hk'. rewrite lookup_insert_ne; [done|]. by intros ->.
Qed.
Lemma put_elsewhere flowID nodeID w m key v w' e : own_key flowID nodeID key ->
  put w m (fun s => ctxstore.Set_ s key v) = (w', e) -> same_elsewhere flowID nodeID (store w) (store w') /\ results w' = results w.
Proof.
  intros Hk. unfold put. destruct (store w) as [s|] eqn:E; [|intros [= <- <-]; by rewrite E].
  destruct (ctxstore.Set_ s key v) as [s'| |] eqn:Es; intros [= <- <-]; cbn; rewrite ?E; [|done..]. split; [by eapply Set_elsewhere|done].
Qed.

(** Every output is caused by the datagram and is emitted by this node. *)
Definition caused (nodeID : string) (inp : dgram) (p : portDgm) : Prop :=
  CausationID (header (pdDatagram p)) = ID (header inp) /\ CorrelationID (header (pdDatagram p)) = CorrelationID (header inp) /\
  NodeID (source (header (pdDatagram p))) = nodeID.
Lemma run_confined flowID nodeID inp ids eventIDs clock p : forall i w w' r,
  Forall (caused nodeID inp) (results w) -> run flowID nodeID inp ids eventIDs clock p i w = (w', r) ->
  same_elsewhere flowID nodeID (store w) (store w') /\ Forall (caused nodeID inp) (results w').
Proof.
  assert (forall m key v w w' e (k : option string -> program) i w'' r, own_key flowID nodeID key ->
    (forall o i w w' r, Forall (caused nodeID inp) (results w) -> run flowID nodeID inp ids eventIDs clock (k o) i w = (w', r) ->
      same_elsewhere flowID nodeID (store w) (store w') /\ Forall (caused nodeID inp) (results w')) ->
    Forall (caused nodeID inp) (results w) -> put w m (fun s => ctxstore.Set_ s key v) = (w', e) ->
    run flowID nodeID inp ids eventIDs clock (k e) i w' = (w'', r) ->
    same_elsewhere flowID nodeID (store w) (store w'') /\ Forall (caused nodeID inp) (results w'')) as Hput.
  { intros m key v w w' e k i w'' r Hk IH Hw Hp Hr. destruct (put_elsewhere _ _ _ _ _ _ _ _ Hk Hp) as [Hs He].
    destruct (IH e i w' w'' r) as [H1 H2]; [by rewrite He|done|]. split; [by etrans|done]. }
  induction p as [v|e|port v k IH|level text k IH|key k IH|key v k IH|key k IH|key v k IH|key k IH|key v k IH]; intros i w w' r Hw; cbn [run].
  - by intros [= <- <-].
  - by intros [= <- <-].
  - intros H. apply IH in H; [done|]. cbn. apply Forall_app. split; [done|]. by constructor.
  - intros H. apply IH in H; done.
  - intros H. eapply IH; done.
  - unfold state_set. destruct (put _ _ _) as [w1 e] eqn:Ep. intros H. eapply Hput; [|exact IH|done|exact Ep|exact H]. right. cbn. auto.
  - intros H. eapply IH; done.
  - unfold ctxstore.FlowSet. destruct (put _ _ _) as [w1 e] eqn:Ep. intros H. eapply Hput; [|exact IH|done|exact Ep|exact H]. right. cbn. auto.
  - intros H. eapply IH; done.
  - unfold ctxstore.GlobalSet. destruct (put _ _ _) as [w1 e] eqn:Ep. intros H. eapply Hput; [|exact IH|done|exact Ep|exact H]. by left.
Qed.

(** Whatever the script is: it changes no state but its own node's, its flow's and the global one; a
    script that fails emits nothing; and every output of one that does not is caused by the datagram
    it handled. *)
Theorem script_confined flowID nodeID inp ids eventIDs clock n w w' r :
  Process flowID nodeID inp ids eventIDs clock n w = (w', r) ->
  same_elsewhere flowID nodeID (store w) (store w') /\
  match r with Ok out => Forall (caused nodeID inp) out | Err _ => True | Panic => False end.
Proof.
  unfold Process. destruct (run _ _ _ _ _ _ _ _ _) as [w1 o] eqn:E. apply run_confined in E as [Hs Hc]; [|constructor].
  destruct o as [v|e]; [|intros [= <- <-]; done]. destruct (results w1) as [|x l] eqn:Er; [destruct v|]; intros [= <- <-]; cbn; rewrite ?Er; try done.
  split; [done|]. by constructor.
Qed.
(** State that a failing script has written stays written, so that a retry finds it. *)
Lemma failed_state_kept flowID nodeID inp ids eventIDs clock n s key v e :
  flowID <> "" -> nodeID <> "" -> key <> "" -> prog n = PStateSet key v (fun _ => PThrow e) ->
  Process flowID nodeID inp ids eventIDs clock n (MkWorld (Some s) None []) =
    (MkWorld (Some (<[stateKey flowID nodeID key := v]> s)) None [], Err ("script: " +:+ e)).
Proof.
  intros Hf Hn Hk Hp. unfold Process. rewrite Hp. cbn. unfold state_set, put, ctxstore.Set_, ctxstore.validate. cbn.
  rewrite !bool_decide_true by done. done.
Qed.
(** A port that was not declared is not refused. *)
Lemma undeclared_port n inp ids eventIDs clock v : prog n = PEmit "nowhere" v (PReturn None) ->
  exists d, (Process "f" "n" inp ids eventIDs clock n (MkWorld None None [])).2 = Ok [MkPortDatagram "nowhere" d].
Proof. intros Hp. unfold Process. rewrite Hp. cbn. by eexists. Qed.
End script.
