(* ===== verification/Schedule.v ===== *)
(** * The schedule node ([engine/nodes/schedule])

    Time triggers.  The cron parser and its [Next] are outside; the waits of the loops are turns with
    the clock that each one reads. *)

From S2P Require Import Prelude GoStd Datagram Execution Value.
Import gostd datagram execution value.
Local Open Scope Z_scope.

Module schedule.

Record Config := MkConfig { Mode : string; Cron : string; IntervalMs : Z; Payload_ : any }.
Section node.
(** [cronParser.Parse] gives a schedule, here its [Next]; [rfc3339] is the text of an instant in UTC. *)
Context (parse : string -> option (Z -> Z)) (rfc3339 : Z -> string).
Record node := MkNode { cfg : Config; next : Z -> Z }.
Definition New (c : Config) : res string node :=
  if decide (Mode c = "cron") then
    if decide (Cron c = "") then Err "schedule: cron expression is required" else
    match parse (Cron c) with Some f => Ok (MkNode c f) | None => Err "schedule: invalid cron expression" end
  else if decide (Mode c = "interval") then
    if IntervalMs c <=? 0 then Err "schedule: intervalMs must be positive" else Ok (MkNode c (fun t => t))
  else Err "schedule: unknown mode".
Definition trigger (n : node) (id : string) (now firedAt : Z) : dgram :=
  datagram.New id now (MkSource "" "schedule" "" "" "schedule")
    (MkPayload (match Payload_ (cfg n) with ANil => AMap [("firedAt", AStr (rfc3339 firedAt))] | v => v end) None).

(** One turn: the clock at its start, whether the context ends the wait, the clock when the wait is
    over with the id of the datagram, and the outcome of the emission. *)
Record turn := MkTurn { t_now : Z; t_done : bool; t_fired : Z; t_id : string; t_emit : option string }.
(** How a loop ends: it goes on, it returns nil or an error, or it panics. *)
Inductive ending := Waiting | Stopped | Failed (e : string) | Panicked.
(** The instants that were fired, with the datagrams. *)
Fixpoint runCron (n : node) (turns : list turn) : list (Z * dgram) * ending :=
  match turns with
  | [] => ([], Waiting)
  | t :: ts =>
      let at_ := next n (t_now t) in
      if t_done t then ([], Stopped) else
      let d := trigger n (t_id t) (t_fired t) at_ in
      match t_emit t with
      | Some e => ([(at_, d)], Failed e)
      | None => let '(l, e) := runCron n ts in ((at_, d) :: l, e)
      end
  end.
(** The wait of a turn. *)
Definition wait (n : node) (now : Z) : Z := Z.max 0 (next n now - now).
(** The ticks: [time.NewTicker] delivers their instants; those nobody waits for are dropped. *)
Fixpoint ticks (n : node) (turns : list turn) : list (Z * dgram) * ending :=
  match turns with
  | [] => ([], Waiting)
  | t :: ts =>
      if t_done t then ([], Stopped) else
      let d := trigger n (t_id t) (t_fired t) (t_now t) in
      match t_emit t with
      | Some e => ([(t_now t, d)], Failed e)
      | None => let '(l, e) := ticks n ts in ((t_now t, d) :: l, e)
      end
  end.
(** [NewTicker] panics on a period that is not positive. *)
Definition period (n : node) : Z := s64 (IntervalMs (cfg n) * 1000000).
Definition runInterval (n : node) (turns : list turn) : list (Z * dgram) * ending :=
  if period n <=? 0 then ([], Panicked) else ticks n turns.
Definition Run (n : node) (turns : list turn) : list (Z * dgram) * ending :=
  if decide (Mode (cfg n) = "interval") then runInterval n turns else runCron n turns.

(** ** Firings *)

(** The clock does not run backwards, and a wait is not over before the instant it waits for. *)
Fixpoint on_time (n : node) (start : Z) (turns : list turn) : Prop :=
  match turns with
  | [] => True
  | t :: ts => start <= t_now t /\ next n (t_now t) <= t_fired t /\ on_time n (t_fired t) ts
  end.
(** Every instant of the schedule fires at most once and in order: with a schedule that has a next
    instant after every time, and waits that are not cut short, the instants fired are increasing, and
    each is the first instant of the schedule after the clock its turn read. *)
Theorem cron_fires_in_order n start turns : (forall t, t < next n t) -> on_time n start turns ->
  let fired := map fst (runCron n turns).1 in
  (forall i x, fired !! i = Some x -> start < x) /\ forall i j x y, (i < j)%nat -> fired !! i = Some x -> fired !! j = Some y -> x < y.
Proof.
  intros Hnext. revert start. induction turns as [|t ts IH]; intros start; cbn [on_time runCron]; [done|]. intros (Hs & Hf & Ht).
  destruct (IH (t_fired t) Ht) as [H1 H2]. pose proof (Hnext (t_now t)) as Hn. destruct (t_done t); [done|].
  destruct (t_emit t); [|destruct (runCron n ts) as [l e]]; cbn in *.
  - split; [intros [|i] x; cbn; [intros [= <-]; lia|done]|]. intros [|i] [|j] x y; cbn; [lia|done|lia|done].
  - split.
    + intros [|i] x; cbn; [intros [= <-]; lia|]. intros Hx. specialize (H1 _ _ Hx). lia.
    + intros [|i] [|j] x y Hij; cbn; [lia| |lia|].
      * intros [= <-] Hy. specialize (H1 _ _ Hy). lia.
      * intros Hx Hy. eapply H2; [|done..]. lia.
Qed.
(** A cron expression with no instant at all, such as the 30th of February, parses; its [Next] is the
    zero time, which has passed, and the loop fires without a pause. *)
Lemma impossible_schedule_spins n now zero : next n now = zero -> zero <= now -> wait n now = 0.
Proof. unfold wait. lia. Qed.
(** [New] checks the number of milliseconds, not the period: a large one wraps and the node panics. *)
Lemma interval_wraps : exists n, New (MkConfig "interval" "" 9223372036855 ANil) = Ok n /\ Run n [] = ([], Panicked).
Proof. eexists. split; [reflexivity|]. vm_compute. reflexivity. Qed.
(** Periods of up to 106751 days do not. *)
Lemma interval_runs c n turns : New c = Ok n -> Mode c = "interval" -> IntervalMs c <= 9223372036854 -> Run n turns = ticks n turns.
Proof.
  unfold New. intros H E Hle. rewrite E in H. cbn in H. destruct (Z.leb_spec (IntervalMs c) 0); [done|]. injection H as <-.
  unfold Run, runInterval, period. cbn. rewrite decide_True by done. rewrite swrap_id by (unfold in_s; lia). by destruct (Z.leb_spec (IntervalMs c * 1000000) 0); [lia|].
Qed.
End node.
End schedule.
