(* ===== verification/Sockets.v ===== *)
(** * Socket and serial nodes

    [engine/nodes/tcpin], [tcpout], [udpin], [udpout], [serialin], [serialout], [websocketin],
    [websocketout] with the hubs of [tcpshared] and [wsshared]: what the sources make of the bytes they
    read, through [Framing], and what the sinks write.  Connections are numbers; the outcomes of dials,
    reads and writes are arguments.  The shutdown of a WebSocket server is a system of its own, with the
    handlers of its connections in any order. *)

From S2P Require Import Prelude Bytes GoStd Datagram Execution Value Framing.
Import gostd datagram execution value.
Local Open Scope Z_scope.

Module sockets.

(** ** Payloads *)

Definition encode (b : bytes) : any := AStr (string_of_bytes (EncodeToString b)).
Section sinks.
Context (Marshal : any -> option bytes).
(** [payloadBytes]: a text that decodes as base64 is binary. *)
Definition payloadBytes (v : any) : res string bytes :=
  match v with
  | AStr s => match DecodeString (bytes_of_string s) with Some b => Ok b | None => Ok (bytes_of_string s) end
  | _ => match Marshal v with Some b => Ok b | None => Err "json" end
  end.

(** ** Hubs *)

(** The connections of a server, and what each has been sent. *)
Record hub := MkHub { conns : gset nat; written : gmap nat (list bytes) }.
Definition newHub : hub := MkHub ∅ ∅.
Definition Add (h : hub) (c : nat) : hub := MkHub ({[c]} ∪ conns h) (written h).
Definition Remove (h : hub) (c : nat) : hub := MkHub (conns h ∖ {[c]}) (written h).
(** The connections that are left to close. *)
Definition CloseAll (h : hub) : hub * gset nat := (MkHub ∅ (written h), conns h).
Definition send_one (ok : nat -> bool) (data : bytes) (acc : hub * Z) (c : nat) : hub * Z :=
  let '(h, sent) := acc in
  if ok c then (MkHub (conns h) (<[c := default [] (written h !! c) ++ [data]]> (written h)), sent + 1) else (Remove h c, sent).
Definition Broadcast (h : hub) (ok : nat -> bool) (data : bytes) : hub * Z := fold_left (send_one ok data) (elements (conns h)) (h, 0).
(** [HubFor]: one hub per address or path, for the whole process. *)
Definition HubFor (m : gmap string hub) (key : string) : hub := default newHub (m !! key).

(** ** Sinks *)

(** TCP and WebSocket sinks: [a_addr] is the address or the path of a server, [a_host] the target of a
    client (a URL for a WebSocket). *)
Record OutConfig := MkOutConfig { a_Mode : string; a_addr : string; a_host : string; a_port : Z }.
Definition check_endpoint (hasPort : bool) (c : OutConfig) : res string unit :=
  if decide (a_Mode c = "server") then guard_err (bool_decide (a_addr c <> "")) "addr is required for mode server"
  else if decide (a_Mode c = "client") then
    guard_err (bool_decide (a_host c <> "") && (negb hasPort || negb (a_port c =? 0))) "a target is required for mode client"
  else Err "mode must be server or client".
(** A [sync.Once] around the dial: its first outcome, a connection or an error, is kept. *)
Definition once {A} (kept : option (A + string)) (dial : A + string) : A + string := default dial kept.
(** The state of a sink: the outcome of its dial, and the bytes on its connection. *)
Record sink := MkSink { dialled : option (unit + string); stream : list bytes }.
Definition newSink : sink := MkSink None [].
(** Writing to the client connection. *)
Definition client_write (n : sink) (dial : unit + string) (ok : bool) (data : bytes) : sink * res string unit :=
  match once (dialled n) dial with
  | inr e => (MkSink (Some (inr e)) (stream n), Err e)
  | inl _ => if ok then (MkSink (Some (inl tt)) (stream n ++ [data]), Ok tt) else (MkSink (Some (inl tt)) (stream n), Err "writing")
  end.
Definition passed (inp : dgram) (r : res string unit) : nodeResult := match r with Ok _ => Ok [MkPortDatagram "out" inp] | Err e => Err e | Panic => Panic end.
(** [tcp-out] *)
Definition tcpOut (c : OutConfig) (hubs : gmap string hub) (n : sink) (dial : unit + string) (ok : bool) (oks : nat -> bool) (inp : dgram)
  : gmap string hub * sink * nodeResult :=
  match payloadBytes (Value (payload inp)) with
  | Err e => (hubs, n, Err e)
  | Panic => (hubs, n, Panic)
  | Ok data =>
      if decide (a_Mode c = "server") then
        (<[a_addr c := (Broadcast (HubFor hubs (a_addr c)) oks data).1]> hubs, n, Ok [MkPortDatagram "out" inp])
      else let '(n, r) := client_write n dial ok data in (hubs, n, passed inp r)
  end.
(** [websocket-out]: the payload as a text message. *)
Definition websocketOut (c : OutConfig) (hubs : gmap string hub) (n : sink) (dial : unit + string) (ok : bool) (oks : nat -> bool) (inp : dgram)
  : gmap string hub * sink * nodeResult :=
  match Marshal (Value (payload inp)) with
  | None => (hubs, n, Err "websocket-out: encoding payload")
  | Some data =>
      if decide (a_Mode c = "server") then
        (<[a_addr c := (Broadcast (HubFor hubs (a_addr c)) oks data).1]> hubs, n, Ok [MkPortDatagram "out" inp])
      else let '(n, r) := client_write n dial ok data in (hubs, n, passed inp r)
  end.
(** The constructors of the sinks. *)
Definition newTCPOut (c : OutConfig) : res string OutConfig := _ ← check_endpoint true c; Ok c.
Definition newWebsocketOut (c : OutConfig) : res string OutConfig := _ ← check_endpoint false c; Ok c.
Definition newUDPOut (host : string) (port : Z) : res string (string * Z) :=
  _ ← guard_err (bool_decide (host <> "") && negb (port =? 0)) "udp-out: host and port are required"; Ok (host, port).
(** [udp-out] and [serial-out]: the connection first. *)
Definition packetOut (n : sink) (dial : unit + string) (ok : bool) (inp : dgram) : sink * nodeResult :=
  match once (dialled n) dial with
  | inr e => (MkSink (Some (inr e)) (stream n), Err e)
  | inl _ =>
      match payloadBytes (Value (payload inp)) with
      | Err e => (MkSink (Some (inl tt)) (stream n), Err e)
      | Panic => (MkSink (Some (inl tt)) (stream n), Panic)
      | Ok data => let '(n, r) := client_write n dial ok data in (n, passed inp r)
      end
  end.
Definition udpOut : sink -> unit + string -> bool -> dgram -> sink * nodeResult := packetOut.
Definition serialOut : sink -> unit + string -> bool -> dgram -> sink * nodeResult := packetOut.
End sinks.

(** ** Sources *)

(** What a read of a stream returns. *)
Inductive read := RData (b : bytes) | RTimeout | RError.
(** One round of [framing.Run]: the context it sees, the read, and the clock of the idle timeout. *)
Record turn := MkTurn { t_done : bool; t_read : read; t_idle : bool }.
(** A poll that fails when the context has ended returns its error. *)
Definition poll_of (t : turn) : framing.poll :=
  if t_done t then framing.PCancel else
  match t_read t with RData b => framing.PData b (t_idle t) | RTimeout => framing.PData [] (t_idle t) | RError => framing.PErr end.
Section source.
Context (nodeID origin : string) (ids : nat -> string) (clock : nat -> Z).
Definition frameDatagram (k : nat) (f : bytes) : dgram := datagram.New (ids k) (clock k) (MkSource "" nodeID "" "" origin) (MkPayload (encode f) None).
(** [tcp-in] and [serial-in]: [stopped] says whether the context has ended when the loop does. *)
Definition streamRun (cfg : framing.Config) (emit : list bytes -> bytes -> bool) (stopped : bool) (turns : list turn)
  : option (list dgram * option string) :=
  '(frames, st) ← framing.Run emit cfg (map poll_of turns);
  let out := imap frameDatagram frames in
  match st with
  | framing.Running _ => Some (out, None)
  | framing.Cancelled => Some (out, None)
  | framing.PollErr => Some (out, if stopped then None else Some "read")
  | framing.TooLarge => Some (out, if stopped then None else Some "frame too large")
  | framing.FrameErr => Some (out, if stopped then None else Some "emit")
  end.
End source.
Definition newTCPIn (c : OutConfig) (f : framing.Config) : res string (OutConfig * framing.Config) :=
  _ ← check_endpoint true c; _ ← guard_err (framing.Validate f) "tcp-in: framing"; Ok (c, f).
(** [udp-in]: a packet that is longer than the buffer is cut. *)
Record UDPConfig := MkUDPConfig { u_Addr : string; MaxPacketBytes : Z }.
Definition newUDPIn (c : UDPConfig) : res string UDPConfig :=
  _ ← guard_err (bool_decide (u_Addr c <> "")) "udp-in: addr is required";
  Ok (MkUDPConfig (u_Addr c) (if MaxPacketBytes c <=? 0 then 65507 else MaxPacketBytes c)).
Inductive packet := Packet (remote : string) (b : bytes) | PacketErr (done : bool).
Fixpoint udpRun (c : UDPConfig) (ids : nat -> string) (clock : nat -> Z) (emit : nat -> option string) (k : nat) (ps : list packet)
  : list dgram * option string :=
  match ps with
  | [] => ([], None)
  | PacketErr done :: _ => ([], if done then None else Some "udp-in: read")
  | Packet remote b :: ps' =>
      let d := frameDatagram "udp-in" remote ids clock k (take (Z.to_nat (MaxPacketBytes c)) b) in
      match emit k with
      | Some e => ([d], Some e)
      | None => let '(l, e) := udpRun c ids clock emit (S k) ps' in (d :: l, e)
      end
  end.

(** [serial-in] and [serial-out] *)
Inductive Parity := NoParity | OddParity | EvenParity | MarkParity | SpaceParity.
Inductive StopBits := OneStopBit | OnePointFiveStopBits | TwoStopBits.
Record SerialConfig := MkSerialConfig { s_Port : string; BaudRate : Z; DataBits : Z; s_Parity : string; s_StopBits : string }.
Record SerialMode := MkSerialMode { m_BaudRate : Z; m_DataBits : Z; m_Parity : Parity; m_StopBits : StopBits }.
Definition newSerial (c : SerialConfig) : res string SerialConfig :=
  _ ← guard_err (bool_decide (s_Port c <> "")) "serial: port is required";
  Ok (MkSerialConfig (s_Port c) (if BaudRate c <=? 0 then 9600 else BaudRate c) (if DataBits c =? 0 then 8 else DataBits c) (s_Parity c) (s_StopBits c)).
Definition parseParity (p : string) : res string Parity :=
  if decide (p = "" \/ p = "none") then Ok NoParity else if decide (p = "odd") then Ok OddParity else if decide (p = "even") then Ok EvenParity
  else if decide (p = "mark") then Ok MarkParity else if decide (p = "space") then Ok SpaceParity else Err "unknown parity".
Definition parseStopBits (s : string) : res string StopBits :=
  if decide (s = "" \/ s = "1") then Ok OneStopBit else if decide (s = "1.5") then Ok OnePointFiveStopBits
  else if decide (s = "2") then Ok TwoStopBits else Err "unknown stopBits".
Definition modeIn (c : SerialConfig) : res string SerialMode :=
  p ← parseParity (s_Parity c); s ← parseStopBits (s_StopBits c); Ok (MkSerialMode (BaudRate c) (DataBits c) p s).
(** The mode that [serial-out] opens its port with. *)
Definition modeOut (c : SerialConfig) : SerialMode := MkSerialMode (BaudRate c) (DataBits c) NoParity OneStopBit.

(** [websocket-in] *)
Definition newWebsocketIn (c : OutConfig) : res string OutConfig := _ ← check_endpoint false c; Ok c.
Definition decodeMessage (Unmarshal : bytes -> option any) (text : bool) (data : bytes) : any :=
  if text then match Unmarshal data with Some v => v | None => AStr (string_of_bytes data) end else encode data.
Fixpoint readLoop (Unmarshal : bytes -> option any) (origin : string) (ids : nat -> string) (clock : nat -> Z) (emit : nat -> option string) (k : nat)
    (ms : list (option (bool * bytes))) : list dgram * option string :=
  match ms with
  | [] | None :: _ => ([], None)
  | Some (text, data) :: ms' =>
      let d := datagram.New (ids k) (clock k) (MkSource "" "websocket-in" "" "" origin) (MkPayload (decodeMessage Unmarshal text data) None) in
      match emit k with
      | Some e => ([d], Some e)
      | None => let '(l, e) := readLoop Unmarshal origin ids clock emit (S k) ms' in (d :: l, e)
      end
  end.

(** ** From a sink to a source *)

Lemma payloadBytes_encode Marshal b : bytes_ok b -> payloadBytes Marshal (encode b) = Ok b.
Proof.
  intros Hb. unfold payloadBytes, encode. rewrite bytes_of_string_of_bytes by (by apply EncodeToString_ok). by rewrite DecodeString_EncodeToString.
Qed.
Section stream.
Context (Marshal : any -> option bytes) (c : OutConfig) (hubs : gmap string hub) (oks : nat -> bool).
Definition send (n : sink) (inp : dgram) : sink := (tcpOut Marshal c hubs n (inl tt) true oks inp).1.2.
Lemma sends_stream inputs datas : a_Mode c = "client" -> Forall2 (fun inp b => Value (payload inp) = encode b /\ bytes_ok b) inputs datas ->
  forall n, (dialled n = None \/ dialled n = Some (inl tt)) -> stream (fold_left send inputs n) = stream n ++ datas.
Proof.
  intros Hm. induction 1 as [|inp b inputs datas [Hv Hb] _ IH]; intros n Hn; cbn [fold_left]; [by rewrite app_nil_r|].
  assert (send n inp = MkSink (Some (inl tt)) (stream n ++ [b])) as E.
  { unfold send, tcpOut. rewrite Hv, payloadBytes_encode by done. rewrite decide_False by (rewrite Hm; done). unfold client_write, once.
    by destruct Hn as [-> | ->]. }
  rewrite E, IH by (by right). cbn. by rewrite <- app_assoc.
Qed.
End stream.

(** Bytes cross a connection as they are: datagrams that carry encoded frames, sent by [tcp-out] to a
    client connection, arrive at [tcp-in] with the same framing as one datagram per frame, in order and
    with the frame's bytes as payload, however the stream is cut on the way. *)
Theorem socket_roundtrip Marshal c hubs oks fcfg inputs fs chunks nodeID origin ids clock emit :
  a_Mode c = "client" -> framing.Validate fcfg = true -> framing.mode fcfg <> framing.MTimeout -> Forall (framing.frame_ok fcfg) fs ->
  Forall2 (fun inp f => Value (payload inp) = encode (framing.encodeFrame fcfg f) /\ bytes_ok (framing.encodeFrame fcfg f)) inputs fs ->
  concat chunks = concat (stream (fold_left (send Marshal c hubs oks) inputs newSink)) -> zlen (concat chunks) <= framing.maxFrame fcfg ->
  (forall acc f, emit acc f = true) ->
  streamRun nodeID origin ids clock fcfg emit false (map (fun b => MkTurn false (RData b) false) chunks) =
    Some (imap (frameDatagram nodeID origin ids clock) fs, None).
Proof.
  intros Hm Hv Ht Hfs Hin Hc Hl He. unfold streamRun. rewrite map_map. change (map _ chunks) with (framing.received chunks).
  rewrite (framing.framing_roundtrip fcfg Hv emit fs chunks); [done|done|done| |done|done].
  rewrite Hc, (sends_stream Marshal c hubs oks inputs (map (framing.encodeFrame fcfg) fs)); [done|done| |by left].
  clear -Hin. induction Hin; cbn; constructor; done.
Qed.

(** ** Broadcasts *)

Lemma send_one_fold ok data l : NoDup l -> forall h sent,
  let '(h', n) := fold_left (send_one ok data) l (h, sent) in
  n = sent + zlen (filter (fun c => ok c = true) l) /\
  (forall c, c ∈ conns h' <-> c ∈ conns h /\ (c ∈ l -> ok c = true)) /\
  forall c, written h' !! c = if decide (c ∈ l /\ ok c = true) then Some (default [] (written h !! c) ++ [data]) else written h !! c.
Proof.
  induction 1 as [|x l Hx Hl IH]; intros h sent; cbn [fold_left].
  { split_and!; [unfold zlen; cbn; lia| |]; intros c; [set_solver|]. rewrite decide_False; [done|]. by intros [?%elem_of_nil _]. }
  cbn [send_one]. destruct (ok x) eqn:Eo.
  - specialize (IH (MkHub (conns h) (<[x := default [] (written h !! x) ++ [data]]> (written h))) (sent + 1)).
    destruct (fold_left _ l _) as [h' n]. destruct IH as (-> & Hc & Hw). split_and!.
    + rewrite filter_cons_True by done. unfold zlen. cbn. lia.
    + intros c. rewrite Hc. cbn. set_solver.
    + intros c. rewrite Hw. cbn. destruct (decide (c = x)) as [-> |Hne].
      * rewrite lookup_insert_eq, decide_False by tauto. rewrite decide_True by (split; [by left|done]). done.
      * rewrite lookup_insert_ne by done. destruct (decide (c ∈ l /\ ok c = true)) as [[H1 H2]|Hn];
          [rewrite decide_True by (split; [by right|done])|rewrite decide_False by (intros [[|]%elem_of_cons ?]; [done|tauto])]; done.
  - specialize (IH (Remove h x) sent). destruct (fold_left _ l _) as [h' n]. destruct IH as (-> & Hc & Hw). split_and!.
    + by rewrite filter_cons_False by (by rewrite Eo).
    + intros c. rewrite Hc. cbn. rewrite elem_of_difference, elem_of_singleton, elem_of_cons.
      destruct (decide (c = x)) as [-> |]; [split; [tauto|]; intros [_ H]; rewrite (H ltac:(by left)) in Eo; done|tauto].
    + intros c. rewrite Hw. cbn. destruct (decide (c ∈ l /\ ok c = true)) as [[H1 H2]|Hn];
        [rewrite decide_True by (split; [by right|done]); done|rewrite decide_False; [done|]]. intros [[-> |]%elem_of_cons ?]; [congruence|tauto].
Qed.
(** A broadcast reaches every connection of the hub once, or drops it: those whose write succeeds get the
    data and stay, the others leave the hub with nothing, and the number returned is that of the former. *)
Theorem broadcast_reaches h ok data : let '(h', n) := Broadcast h ok data in
  n = zlen (filter (fun c => ok c = true) (elements (conns h))) /\
  (forall c, c ∈ conns h' <-> c ∈ conns h /\ ok c = true) /\
  forall c, written h' !! c = if decide (c ∈ conns h /\ ok c = true) then Some (default [] (written h !! c) ++ [data]) else written h !! c.
Proof.
  unfold Broadcast. pose proof (send_one_fold ok data (elements (conns h)) (NoDup_elements _) h 0) as H.
  destruct (fold_left _ _ _) as [h' n]. destruct H as (-> & Hc & Hw). split_and!; [lia| |].
  - intros c. rewrite Hc, elem_of_elements. tauto.
  - intros c. rewrite Hw. by rewrite (decide_ext (c ∈ elements (conns h) /\ ok c = true) (c ∈ conns h /\ ok c = true)) by (rewrite elem_of_elements; done).
Qed.

(** ** What goes wrong *)

(** A plain text of base64 characters is sent as what it decodes to. *)
Lemma text_taken_for_base64 Marshal : payloadBytes Marshal (AStr "test") = Ok [181; 235; 45].
Proof. vm_compute. reflexivity. Qed.
(** The failure of the first dial is the answer to every datagram. *)
Lemma dial_failure_sticks n e dial ok data : dialled n = Some (inr e) -> client_write n dial ok data = (MkSink (Some (inr e)) (stream n), Err e).
Proof. intros H. unfold client_write, once. by rewrite H. Qed.
(** [serial-out] takes a parity and stop bits and opens its port without them. *)
Lemma serial_out_ignores_parity : modeIn (MkSerialConfig "/dev/ttyS0" 9600 8 "even" "2") = Ok (MkSerialMode 9600 8 EvenParity TwoStopBits) /\
  modeOut (MkSerialConfig "/dev/ttyS0" 9600 8 "even" "2") = MkSerialMode 9600 8 NoParity OneStopBit.
Proof. done. Qed.

(** ** The shutdown of a WebSocket server *)

(** A handler of [runServer]: in the upgrade, in its read loop (on a connection that [CloseAll] has
    closed or not), or done. *)
Inductive handler := HUpgrading | HServing (closed : bool) | HExited.
Inductive phase := Serving | Draining | Returned.
Record server := MkServer { handlers : list handler; run : phase }.
Inductive server_event :=
| SRequest                      (* a request on the registered path *)
| SUpgraded (i : nat) (ok : bool)
| SStop                         (* the context ends: [hub.CloseAll()], then [wg.Wait()] *)
| SPeerCloses (i : nat)
| SReadFails (i : nat)          (* the read of a connection that was closed *)
| SReturn.                      (* [wg.Wait()] returns, and the deferred [unregister] runs *)
Definition close (h : handler) : handler := match h with HServing _ => HServing true | h => h end.
Definition serving (h : handler) : bool := match h with HServing _ => true | _ => false end.
Definition server_step (s : server) (e : server_event) : option server :=
  match e with
  | SRequest => match run s with Returned => None | p => Some (MkServer (handlers s ++ [HUpgrading]) p) end
  | SUpgraded i ok =>
      match handlers s !! i with
      | Some HUpgrading => Some (MkServer (<[i := if ok then HServing false else HExited]> (handlers s)) (run s))
      | _ => None
      end
  | SStop => match run s with Serving => Some (MkServer (map close (handlers s)) Draining) | _ => None end
  | SPeerCloses i => match handlers s !! i with Some (HServing _) => Some (MkServer (<[i := HExited]> (handlers s)) (run s)) | _ => None end
  | SReadFails i => match handlers s !! i with Some (HServing true) => Some (MkServer (<[i := HExited]> (handlers s)) (run s)) | _ => None end
  | SReturn => match run s with Draining => if existsb serving (handlers s) then None else Some (MkServer (handlers s) Returned) | _ => None end
  end.
Fixpoint server_run (s : server) (es : list server_event) : option server :=
  match es with [] => Some s | e :: es' => s' ← server_step s e; server_run s' es' end.

(** Without connections that come in late, a server that is stopped gets to its end: after the read of
    every connection has failed, as it does on a closed connection, it returns. *)
Lemma drain_all l : Forall (fun h => h <> HServing false) l -> forall pre, existsb serving pre = false ->
  exists es, server_run (MkServer (pre ++ l) Draining) es = Some (MkServer (pre ++ map (fun h => match h with HServing _ => HExited | h => h end) l) Draining).
Proof.
  induction 1 as [|h l Hh _ IH]; intros pre Hpre; [by exists []|].
  assert (exists es, server_run (MkServer (pre ++ h :: l) Draining) es =
    Some (MkServer ((pre ++ [match h with HServing _ => HExited | h => h end]) ++ l) Draining)) as [es1 E1].
  { destruct h as [|[|]|]; [exists []|exists [SReadFails (length pre)]|done|exists []]; cbn; rewrite <- ?app_assoc; [done| |done].
    rewrite lookup_app_r, Nat.sub_diag by lia. cbn. by rewrite insert_app_r_alt, Nat.sub_diag by lia. }
  destruct (IH (pre ++ [match h with HServing _ => HExited | h => h end])) as [es2 E2].
  { rewrite existsb_app, Hpre. cbn. destruct h; done. }
  exists (es1 ++ es2). clear -E1 E2. revert E1. generalize (MkServer (pre ++ h :: l) Draining). induction es1 as [|e es IH]; intros s E1; cbn in *.
  - injection E1 as ->. rewrite E2. cbn. by rewrite <- app_assoc.
  - destruct (server_step s e); [|done]. cbn in *. by apply IH.
Qed.
Theorem server_stops s s1 : server_step s SStop = Some s1 -> exists es s2, server_run s1 es = Some s2 /\ run s2 = Returned.
Proof.
  cbn. destruct (run s); [|done..]. intros [= <-]. destruct (drain_all (map close (handlers s))) with (pre := @nil handler) as [es E]; [|done|].
  { apply Forall_map, Forall_true. intros [| |]; done. }
  exists (es ++ [SReturn]). cbn in E. revert E. generalize (MkServer (map close (handlers s)) Draining) as s0. induction es as [|e es IH]; intros s0 E; cbn in *.
  - injection E as ->. cbn. replace (existsb serving _) with false; [by eexists|]. symmetry. rewrite map_map.
    induction (handlers s) as [|[| |] l IHl]; cbn; done.
  - destruct (server_step s0 e); [|done]. cbn in *. by apply IH.
Qed.
(** A client that connects again while the server is draining is accepted, because the path is still
    registered, and its connection is never closed: the server does not return until it goes away. *)
Lemma reconnect_accepted : exists s, server_run (MkServer [] Serving) [SRequest; SUpgraded 0 true; SStop; SReadFails 0; SRequest; SUpgraded 1 true] = Some s /\
  handlers s = [HExited; HServing false] /\ run s = Draining.
Proof. eexists. done. Qed.
Theorem reconnect_blocks_stop i es : forall s s', handlers s !! i = Some (HServing false) -> run s = Draining -> SPeerCloses i ∉ es ->
  server_run s es = Some s' -> handlers s' !! i = Some (HServing false) /\ run s' = Draining.
Proof.
  induction es as [|e es IH]; intros s s' Hi Hr Hp; cbn; [by intros [= <-]|]. apply not_elem_of_cons in Hp as [He Hp].
  destruct (server_step s e) as [s1|] eqn:E; [|done]. cbn. apply IH; [| |done].
  - destruct e as [|j ok| |j|j|]; cbn in E; rewrite ?Hr in E; try done.
    + injection E as <-. cbn. by apply lookup_app_l_Some.
    + destruct (handlers s !! j) as [[| |]|] eqn:Ej; try done. injection E as <-. cbn. rewrite list_lookup_insert_ne by congruence. done.
    + destruct (handlers s !! j) as [[| |]|] eqn:Ej; try done. injection E as <-. cbn. rewrite list_lookup_insert_ne by congruence. done.
    + destruct (handlers s !! j) as [[|[|]|]|] eqn:Ej; try done. injection E as <-. cbn. rewrite list_lookup_insert_ne by congruence. done.
    + destruct (existsb serving (handlers s)); [done|]. by injection E as <-.
  - destruct e as [|j ok| |j|j|]; cbn in E; rewrite ?Hr in E; try done.
    + by injection E as <-.
    + destruct (handlers s !! j) as [[| |]|]; try done. by injection E as <-.
    + destruct (handlers s !! j) as [[| |]|]; try done. by injection E as <-.
    + destruct (handlers s !! j) as [[|[|]|]|]; try done. by injection E as <-.
    + destruct (existsb serving (handlers s)) eqn:Ex; [done|]. exfalso. apply list_elem_of_lookup_2 in Hi.
      assert (existsb serving (handlers s) = true); [|congruence]. apply existsb_exists. exists (HServing false). split; [by apply list_elem_of_In|done].
Qed.
End sockets.
