(* ===== verification/BusNodes.v ===== *)
(** * Nodes of the topic broker

    [engine/nodes/busin], [busout] and [errortrigger] over the broker of [Topics], with [inject] and
    [debuglog].  The sources are loops that receive from their own subscription; a process is the broker
    with the sources that run and the publishers that wait, and its steps are taken in any order. *)

From S2P Require Import Prelude GoStd Datagram Execution Value Bus Topics FlowFile Runner Debug.
Import gostd datagram execution value.
Local Open Scope Z_scope.

Module busnodes.
Import bus topics.

(** ** Configurations *)

Definition DefaultSubscriberCapacity : Z := 256.
Record InConfig := MkInConfig { i_Topic : string; i_Tags : gmap string string; i_Overflow : string }.
Definition newBusIn (c : InConfig) : res string InConfig :=
  _ ← guard_err (bool_decide (i_Topic c <> "")) "bus-in: topic is required"; Ok c.
Definition parseOverflow (spec : string) : OverflowPolicy :=
  if decide (spec = "block") then OverflowBlock
  else if decide (spec = "dropNewest") then OverflowDropNewest else OverflowDropOldest.
Record OutConfig := MkOutConfig { o_Topic : string; o_Tags : gmap string string }.
Definition newBusOut (c : OutConfig) : res string OutConfig :=
  _ ← guard_err (bool_decide (o_Topic c <> "")) "bus-out: topic is required"; Ok c.
Definition newErrorTrigger (flowID : string) : res string string :=
  _ ← guard_err (bool_decide (flowID <> "")) "error-trigger: flowId is required"; Ok flowID.
Definition TriggerKind : string := "error".

(** A source, by its configuration, and what it subscribes to. *)
Inductive node := NBusIn (c : InConfig) | NErrorTrigger (flowID : string).
Definition pattern_of (n : node) : string := match n with NBusIn c => i_Topic c | NErrorTrigger f => runner.ErrorFlowTopic f end.
Definition tags_of (n : node) : gmap string string := match n with NBusIn c => i_Tags c | NErrorTrigger _ => ∅ end.
Definition wire_of (n : node) : WireConfig :=
  MkWireConfig DefaultSubscriberCapacity (match n with NBusIn c => parseOverflow (i_Overflow c) | NErrorTrigger _ => OverflowDropOldest end) 0.
(** What a source makes of a datagram it receives: bus-in passes it on, the trigger starts a new chain. *)
Definition outgoing (n : node) (id : string) (now : Z) (d : dgram) : dgram :=
  match n with
  | NBusIn _ => d
  | NErrorTrigger _ => datagram.New id now (MkSource "" "error-trigger" "" "" "error-flow") (payload d)
  end.

Section process.
Context (zeroD : dgram) (Clone : dgram -> dgram).

(** A source with its subscription, what it received and what it emitted, and how its [Run] ended. *)
Record source := MkSrc { src_node : node; src_sub : nat; since : nat; got : list dgram; emitted : list dgram; ended : option (option string) }.
(** [sending]: the publishers inside [Publish], with the subscriptions of their snapshot that they have yet
    to serve.  [published]: every publication so far, by its publisher.  [delivered]: the sends that have
    returned, in order: the subscription, the publisher and the datagram. *)
Record system := MkSys {
  broker : Broker (W := Wire (D := dgram));
  sources : list source;
  sending : gmap nat (dgram * list subscription);
  published : list (nat * (string * gmap string string * dgram));
  delivered : list (nat * (nat * dgram))
}.
Definition idle : system := MkSys NewBroker [] ∅ [] [].

(** The beginning of [Run]. *)
Definition start (s : system) (n : node) : system :=
  let '(b, a) := Subscribe (H := wire_mailbox zeroD) (broker s) (pattern_of n) (tags_of n) (wire_of n) in
  MkSys b (sources s ++ [MkSrc n a (length (published s)) [] [] None]) (sending s) (published s) (delivered s).

(** [defer cancel()] with the return of [Run]. *)
Definition finish (s : system) (i : nat) (src : source) (b : Broker) (e : option string) : system :=
  MkSys (cancel (H := wire_mailbox zeroD) b (src_sub src))
    (<[i := MkSrc (src_node src) (src_sub src) (since src) (got src) (emitted src) (Some e)]> (sources s)) (sending s) (published s) (delivered s).
(** One turn of the loop of source [i]: a receive, and the emission with its outcome. *)
Definition turn (s : system) (i : nat) (ctxErr : bool) (id : string) (now : Z) (emitErr : option string) : system :=
  match sources s !! i with
  | Some src =>
      match ended src, wires (broker s) !! src_sub src with
      | None, Some w =>
          let '(w', o) := Receive zeroD ctxErr w in
          let b := MkBroker (subs (broker s)) (<[src_sub src := w']> (wires (broker s))) in
          match o with
          | RGot d =>
              let src' := MkSrc (src_node src) (src_sub src) (since src) (got src ++ [d])
                            (emitted src ++ [outgoing (src_node src) id now d]) None in
              match emitErr with
              | Some e => finish s i src' b (Some e)
              | None => MkSys b (<[i := src']> (sources s)) (sending s) (published s) (delivered s)
              end
          | RBlock | RPanic => s
          | RClosed | RCtx => finish s i src b None
          end
      | _, _ => s
      end
  | None => s
  end.

(** [Publish] under its lock: the snapshot of the subscriptions that match.  A publisher is a node, which
    publishes one datagram after the other. *)
Definition publish (s : system) (p : nat) (topic : string) (tg : gmap string string) (d : dgram) : system :=
  match sending s !! p with
  | Some _ => s
  | None =>
      MkSys (broker s) (sources s)
        (match snapshot (broker s) topic tg with [] => sending s | ms => <[p := (d, ms)]> (sending s) end)
        (published s ++ [(p, (topic, tg, d))]) (delivered s)
  end.
(** [Publish] after its lock: one send.  The order of the snapshot is that of Go's iteration, so that any of
    the subscriptions left may be the next; a send that would block leaves everything as it is and is
    tried again. *)
Definition send (s : system) (p k : nat) (ctxErr : bool) : system :=
  match sending s !! p with
  | Some (d, ms) =>
      match ms !! k with
      | Some sub =>
          match wires (broker s) !! wire sub with
          | Some w =>
              let '(w', o) := Send zeroD ctxErr w (Clone d) in
              match o with
              | SBlock => s
              | _ =>
                  MkSys (MkBroker (subs (broker s)) (<[wire sub := w']> (wires (broker s)))) (sources s)
                    (match delete k ms with [] => delete p (sending s) | rest => <[p := (d, rest)]> (sending s) end)
                    (published s) (delivered s ++ [(wire sub, (p, d))])
              end
          | None => s
          end
      | None => s
      end
  | None => s
  end.

Inductive event :=
| EStart (n : node)
| ETurn (i : nat) (ctxErr : bool) (id : string) (now : Z) (emitErr : option string)
| EPublish (p : nat) (topic : string) (tg : gmap string string) (d : dgram)
| ESend (p k : nat) (ctxErr : bool).
Definition step (s : system) (e : event) : system :=
  match e with
  | EStart n => start s n
  | ETurn i ctxErr id now emitErr => turn s i ctxErr id now emitErr
  | EPublish p topic tg d => publish s p topic tg d
  | ESend p k ctxErr => send s p k ctxErr
  end.
Definition steps (evs : list event) : system := fold_left step evs idle.

(** [Process] of bus-out, node [p]: it publishes, and its result, [None] while the publication goes on. *)
Definition busOut (s : system) (p : nat) (c : OutConfig) (inp : dgram) : system := publish s p (o_Topic c) (o_Tags c) inp.
Definition busOutResult (s : system) (p : nat) (inp : dgram) : option nodeResult :=
  match sending s !! p with None => Some (Ok [MkPortDatagram "out" inp]) | Some _ => None end.

(** ** What a source emits *)

(** The publications of [p] a source should see: those since it subscribed that match it, in order; what
    was delivered to it, by [p] and by all; and what [p] has yet to deliver to it. *)
Definition concerns (n : node) (x : string * gmap string string * dgram) : bool :=
  matchTopic (pattern_of n) x.1.1 && tagsMatch (tags_of n) x.1.2.
Definition matching (s : system) (src : source) (p : nat) : list dgram :=
  map (fun x => Clone x.2.2) (filter (fun x => x.1 = p /\ concerns (src_node src) x.2 = true) (drop (since src) (published s))).
Definition arrived (s : system) (src : source) : list dgram :=
  map (fun x => Clone x.2.2) (filter (fun x => x.1 = src_sub src) (delivered s)).
Definition arrived_from (s : system) (src : source) (p : nat) : list dgram :=
  map (fun x => Clone x.2.2) (filter (fun x => x.1 = src_sub src /\ x.2.1 = p) (delivered s)).
Definition coming (s : system) (src : source) (p : nat) : list dgram :=
  match sending s !! p with
  | Some (d, ms) => if decide (src_sub src ∈ map wire ms) then [Clone d] else []
  | None => []
  end.

(** The sends of a wire's history. *)
Definition sent (xs : list (op (D := dgram))) : list dgram := omap (fun x => match x with OSend _ d => Some d | _ => None end) xs.
Abbreviation run := (run zeroD).
(** A running source: its subscription stands, its wire has the history of the deliveries, of which
    it has received what it got, and of every publisher's publications that match it has those that are not
    on their way. *)
Definition open_op (x : op (D := dgram)) : Prop := match x with OSend _ _ | OReceive _ => True | _ => False end.
Definition src_ok (s : system) (src : source) : Prop := exists xs,
  subs (broker s) !! src_sub src = Some (MkSub (pattern_of (src_node src)) (tags_of (src_node src)) (src_sub src)) /\
  wires (broker s) !! src_sub src = Some (bus.wire (run (wire_of (src_node src)) xs)) /\
  sent xs = arrived s src /\ received (run (wire_of (src_node src)) xs) = got src /\ (since src <= length (published s))%nat /\
  Forall open_op xs /\ forall p, arrived_from s src p ++ coming s src p = matching s src p.
(** Bus-in emits what it gets; the trigger emits, for each datagram it gets, a new one that begins its own chain, with that payload. *)
Definition relayed (src : source) : Prop :=
  match src_node src with
  | NBusIn _ => emitted src = got src
  | NErrorTrigger _ =>
      Forall2 (fun g e => exists id now, e = datagram.New id now (MkSource "" "error-trigger" "" "" "error-flow") (payload g)) (got src) (emitted src)
  end.
Record sys_ok (s : system) : Prop := MkSysOk {
  so_broker : broker_ok (H := wire_mailbox zeroD) (broker s);
  so_subs : NoDup (map src_sub (sources s)) /\ Forall (fun src => (src_sub src < length (wires (broker s)))%nat) (sources s);
  so_sending : map_Forall (fun _ x => x.2 <> [] /\ NoDup (map wire x.2) /\ Forall (fun sub => (wire sub < length (wires (broker s)))%nat) x.2) (sending s);
  so_delivered : Forall (fun x => (x.1 < length (wires (broker s)))%nat) (delivered s);
  so_sources : Forall (fun src => ended src = None -> src_ok s src) (sources s);
  so_relayed : Forall relayed (sources s)
}.

Lemma busrun_snoc c xs x : run c (xs ++ [x]) = run_op zeroD (run c xs) x.
Proof. unfold bus.run. by rewrite fold_left_app. Qed.
Lemma sent_snoc xs x : sent (xs ++ [x]) = sent xs ++ match x with OSend _ d => [d] | _ => [] end.
Proof. unfold sent. rewrite omap_app. by destruct x. Qed.
Lemma received_send r ctxErr d :
  received (run_op zeroD r (OSend ctxErr d)) = received r /\ bus.wire (run_op zeroD r (OSend ctxErr d)) = fst (Send zeroD ctxErr (bus.wire r) d).
Proof.
  cbn. destruct (Send zeroD ctxErr (bus.wire r) d) as [w' o]. split; [|done].
  unfold received. cbn. rewrite omap_app. etransitivity; [|apply app_nil_r]. f_equal. unfold evicts.
  destruct o; cbn; [|done..]. destruct (full _); [|done]. by destruct (hd_error _).
Qed.
Lemma received_receive r ctxErr w' o : Receive zeroD ctxErr (bus.wire r) = (w', o) ->
  let r' := run_op zeroD r (OReceive ctxErr) in
  bus.wire r' = w' /\ received r' = received r ++ match o with RGot d => [d] | _ => [] end.
Proof.
  intros E. cbn. rewrite E. cbn. split; [done|]. unfold received. cbn.
  destruct o; rewrite ?app_nil_r; try done. by rewrite omap_app.
Qed.

(** ** Publishing *)

Lemma coming_publish s p topic tg d src q : sending s !! p = None ->
  (src_sub src ∈ map wire (snapshot (broker s) topic tg) <-> concerns (src_node src) (topic, tg, d) = true) ->
  coming (publish s p topic tg d) src q = coming s src q ++ if decide (p = q /\ concerns (src_node src) (topic, tg, d) = true) then [Clone d] else [].
Proof.
  intros Hp Hin. unfold publish, coming. rewrite Hp. cbn [sending].
  destruct (snapshot (broker s) topic tg) as [|m ms] eqn:E.
  - rewrite decide_False; [by rewrite app_nil_r|]. intros [_ Hc%Hin]. by apply elem_of_nil in Hc.
  - destruct (decide (p = q)) as [-> |Hne].
    2:{ rewrite lookup_insert_ne by done. rewrite (decide_False (P := _ /\ _)) by (by intros [-> _]). by rewrite app_nil_r. }
    rewrite lookup_insert_eq, Hp. cbn [app]. destruct (concerns (src_node src) (topic, tg, d)); [by rewrite !decide_True by naive_solver|by rewrite !decide_False by naive_solver].
Qed.
Lemma matching_publish s p topic tg d src q : sending s !! p = None -> (since src <= length (published s))%nat ->
  matching (publish s p topic tg d) src q =
  matching s src q ++ if decide (p = q /\ concerns (src_node src) (topic, tg, d) = true) then [Clone d] else [].
Proof.
  intros Hp Hl. unfold publish, matching. rewrite Hp. cbn [published]. rewrite drop_app_le, filter_app, map_app by done. f_equal.
  rewrite filter_cons. cbn. by case_decide.
Qed.
Lemma publish_ok s p topic tg d : sys_ok s -> sys_ok (publish s p topic tg d).
Proof.
  intros Hs. pose proof Hs as [Hb Hsu Hse Hde Hso Hrl]. destruct (sending s !! p) eqn:Hp; [unfold publish; by rewrite Hp|].
  pose proof (fun src q => matching_publish s p topic tg d src q Hp) as Hm.
  pose proof (fun src q => coming_publish s p topic tg d src q Hp) as Hc.
  unfold publish in *. rewrite Hp in *. split; cbn; try done.
  - destruct (snapshot (broker s) topic tg) as [|m ms] eqn:E; [done|]. apply map_Forall_insert_2; [|done]. cbn [snd]. rewrite <- E.
    split_and!; [by rewrite E|by apply (snapshot_wire (H := wire_mailbox zeroD))|]. apply Forall_forall. intros x Hx.
    unfold snapshot in Hx. apply list_elem_of_filter in Hx as [_ ([a y] & -> & Hy%elem_of_map_to_list)%list_elem_of_fmap].
    cbn. by destruct (bo_wire _ Hb a y Hy) as [-> ?].
  - eapply Forall_impl; [exact Hso|]. intros src Hok He. destruct (Hok He) as (xs & H1 & H2 & H3 & H4 & H5 & H6 & H7).
    exists xs. split_and!; try done; [cbn; rewrite length_app; lia|]. intros q.
    rewrite Hm by done. rewrite Hc by apply (snapshot_elem (H := wire_mailbox zeroD) _ topic tg _ _ Hb H1). rewrite app_assoc. f_equal. apply H7.
Qed.

(** A send to subscription [a0]: it is the next delivery there, and changes nothing elsewhere. *)
Lemma send_ok s p k ctxErr : sys_ok s -> sys_ok (send s p k ctxErr).
Proof.
  intros Hs. unfold send. destruct (sending s !! p) as [[d ms]|] eqn:Hp; [|done]. destruct (ms !! k) as [sub|] eqn:Hk; [|done].
  destruct (wires (broker s) !! wire sub) as [w|] eqn:Hw; [|done]. destruct (Send zeroD ctxErr w (Clone d)) as [w' o] eqn:E.
  destruct Hs as [[Hb Hbk] [Hsu Hsl] Hse Hde Hso Hrl]. destruct (Hse p _ Hp) as (_ & Hnd & Hlt). cbn [snd] in *.
  pose proof (delete_Permutation _ _ _ Hk) as Hperm.
  assert (wire sub ∉ map wire (delete k ms)) as Hnot by (rewrite Hperm in Hnd; cbn in Hnd; by apply NoDup_cons in Hnd as []).
  assert (wire_ok w') as Hok' by (pose proof (mb_send_ok (Mailbox := wire_mailbox zeroD) ctxErr w (Clone d) (Forall_lookup_1 _ _ _ _ Hbk Hw)) as H; cbn in H; by rewrite E in H).
  set (sending' := match delete k ms with [] => delete p (sending s) | rest => <[p := (d, rest)]> (sending s) end).
  assert (forall src q, coming (MkSys (broker s) [] sending' [] []) src q = if decide (p = q /\ src_sub src = wire sub) then [] else coming s src q) as Hcom.
  { intros src q. unfold coming. cbn [sending]. destruct (decide (p = q)) as [<- |Hne].
    - assert (sending' !! p = if decide (delete k ms = []) then None else Some (d, delete k ms)) as ->.
      { unfold sending'. destruct (delete k ms); [by rewrite lookup_delete_eq|by rewrite lookup_insert_eq]. }
      rewrite Hp. destruct (decide (src_sub src = wire sub)) as [Es|Es].
      + rewrite (decide_True (P := _ /\ _)) by done. case_decide; [done|]. by rewrite Es, decide_False.
      + rewrite (decide_False (P := _ /\ _)) by naive_solver.
        assert (src_sub src ∈ map wire ms <-> src_sub src ∈ map wire (delete k ms)) as Hiff by (rewrite Hperm at 1; cbn; set_solver).
        destruct (decide (delete k ms = [])) as [En|_].
        * rewrite decide_False; [done|]. rewrite Hiff, En. apply not_elem_of_nil.
        * destruct (decide (src_sub src ∈ map wire (delete k ms))); [by rewrite decide_True by tauto|by rewrite decide_False by tauto].
    - rewrite (decide_False (P := _ /\ _)) by naive_solver. unfold sending'. destruct (delete k ms); [by rewrite lookup_delete_ne|by rewrite lookup_insert_ne]. }
  assert (sys_ok (MkSys (MkBroker (subs (broker s)) (<[wire sub := w']> (wires (broker s)))) (sources s) sending' (published s) (delivered s ++ [(wire sub, (p, d))]))); [|by destruct o].
  split; cbn; rewrite ?length_insert; try done.
  - split; cbn; rewrite ?length_insert; [done|by apply Forall_insert].
  - unfold sending'. destruct (delete k ms) as [|m rest] eqn:Ed; [by apply map_Forall_delete|]. apply map_Forall_insert_2; [|done].
    cbn [snd]. rewrite Hperm in Hnd, Hlt. split_and!; [done|by apply NoDup_cons in Hnd as []|by apply Forall_cons in Hlt as []].
  - apply Forall_app_2; [done|]. apply Forall_singleton. by eapply lookup_lt_Some.
  - eapply Forall_impl; [exact Hso|]. intros src Hok He. destruct (Hok He) as (xs & H1 & H2 & H3 & H4 & H5 & H6 & H7).
    assert (forall q, coming (MkSys (MkBroker (subs (broker s)) (<[wire sub := w']> (wires (broker s)))) (sources s) sending' (published s) (delivered s ++ [(wire sub, (p, d))])) src q
      = if decide (p = q /\ src_sub src = wire sub) then [] else coming s src q) as Hcom' by exact (Hcom src).
    unfold src_ok. setoid_rewrite Hcom'. unfold arrived, arrived_from, matching in *. cbn [delivered published broker subs wires].
    setoid_rewrite filter_app. setoid_rewrite map_app. setoid_rewrite filter_cons. cbn [filter list_filter map].
    destruct (decide (src_sub src = wire sub)) as [Es|Es].
    + rewrite Es in *. rewrite Hw in H2. injection H2 as ->.
      destruct (received_send (run (wire_of (src_node src)) xs) ctxErr (Clone d)) as [Hr1 Hr2]. rewrite E in Hr2.
      exists (xs ++ [OSend ctxErr (Clone d)]). rewrite busrun_snoc, sent_snoc, H3, Hr1, Hr2.
      rewrite list_lookup_insert_eq by by eapply lookup_lt_Some. cbn [fst]. rewrite decide_True by done. split_and!; try done.
      * apply Forall_app_2; [done|by repeat constructor].
      * intros q. specialize (H7 q). unfold coming in H7. destruct (decide (p = q)) as [<- |Hne].
        -- rewrite !decide_True by done. cbn. rewrite app_nil_r. rewrite Hp, Es, decide_True in H7 by (apply list_elem_of_fmap; exists sub; split; [done|by eapply list_elem_of_lookup_2]).
           exact H7.
        -- rewrite !decide_False by naive_solver. rewrite app_nil_r. rewrite <- H7. unfold coming. by rewrite Es.
    + exists xs. rewrite list_lookup_insert_ne by congruence. cbn [fst]. rewrite decide_False by congruence. rewrite app_nil_r.
      split_and!; try done. intros q. rewrite !decide_False by (cbn; naive_solver). rewrite app_nil_r. apply H7.
Qed.

Lemma start_ok s n : sys_ok s -> sys_ok (start s n).
Proof.
  intros [Hb [Hsu Hsl] Hse Hde Hso Hrl]. unfold start. cbn.
  pose proof (Subscribe_ok (H := wire_mailbox zeroD) (broker s) (pattern_of n) (tags_of n) (wire_of n) Hb) as Hb'.
  split; cbn; rewrite ?length_app; cbn; [exact Hb'| | | | |].
  - rewrite map_app, Forall_app. cbn. split_and!.
    + apply NoDup_app. split_and!; [done| |apply NoDup_singleton].
      intros a (src & -> & Hin)%list_elem_of_fmap E%list_elem_of_singleton.
      pose proof (proj1 (Forall_forall _ _) Hsl src Hin). cbn in *. lia.
    + eapply Forall_impl; [exact Hsl|]. cbn. intros. lia.
    + apply Forall_singleton. cbn. lia.
  - eapply map_Forall_impl; [exact Hse|]. cbn. intros p x (? & ? & Hlt). split_and!; [done..|]. eapply Forall_impl; [exact Hlt|]. cbn. intros. lia.
  - eapply Forall_impl; [exact Hde|]. cbn. intros. lia.
  - apply Forall_app. split.
    + apply Forall_forall. intros src Hin Hend.
      pose proof (proj1 (Forall_forall _ _) Hsl src Hin) as Hlt. cbn in Hlt.
      destruct (proj1 (Forall_forall _ _) Hso src Hin Hend) as (xs & H1 & H2 & H3 & H4 & H5 & H6 & H7).
      exists xs. cbn. rewrite lookup_insert_ne by lia. rewrite lookup_app_l by done. done.
    + apply Forall_singleton. intros _. exists []. cbn.
      rewrite lookup_insert_eq, lookup_app_r, Nat.sub_diag by lia.
      assert (forall P `{forall x, Decision (P x)}, (forall x, P x -> x.1 = length (wires (broker s))) -> filter P (delivered s) = []) as Hnil.
      { intros P ? HP. clear -Hde HP. induction Hde as [|x l Hx _ IH]; [done|]. rewrite filter_cons_False; [done|]. intros Hx'%HP. lia. }
      unfold arrived, arrived_from, matching, coming. cbn. rewrite drop_all. cbn. split_and!; try done; [by rewrite Hnil|].
      intros p. rewrite Hnil by naive_solver. cbn. destruct (sending s !! p) as [[d ms]|] eqn:Hp; [|done]. rewrite decide_False; [done|].
      intros (x & E & Hx)%list_elem_of_fmap. destruct (Hse p _ Hp) as (_ & _ & Hlt). rewrite Forall_forall in Hlt. specialize (Hlt x Hx). cbn in Hlt. lia.
  - apply Forall_app. split; [done|]. apply Forall_singleton. destruct n; [done|constructor].
Qed.

(** A step that concerns one source only. *)
Lemma local_ok s i src src' b : sys_ok s -> sources s !! i = Some src ->
  src_sub src' = src_sub src -> broker_ok (H := wire_mailbox zeroD) b ->
  length (wires b) = length (wires (broker s)) ->
  (forall a, a <> src_sub src -> subs b !! a = subs (broker s) !! a /\ wires b !! a = wires (broker s) !! a) ->
  relayed src' -> (ended src' = None -> src_ok (MkSys b [] (sending s) (published s) (delivered s)) src') ->
  sys_ok (MkSys b (<[i := src']> (sources s)) (sending s) (published s) (delivered s)).
Proof.
  intros [Hb0 [Hsu Hsl] Hse Hde Hso Hrl] Hi Hsub Hb Hlen Hne Hr Hok.
  split; cbn; rewrite ?Hlen; [done| |done|done| |by apply Forall_insert].
  - rewrite list_fmap_insert, Hsub. rewrite list_insert_id by by rewrite list_lookup_fmap, Hi.
    split; [done|]. apply Forall_insert; [done|]. rewrite Hsub. eapply Forall_lookup_1 in Hsl; [exact Hsl|done].
  - apply Forall_lookup. intros j x Hj. apply list_lookup_insert_Some in Hj as [(-> & -> & _) | [Hij Hj]].
    + intros He. destruct (Hok He) as (xs & ?). by exists xs.
    + intros He. destruct (Forall_lookup_1 _ _ _ _ Hso Hj He) as (xs & H1 & H2 & H3).
      destruct (Hne (src_sub x)) as [E1 E2].
      { intros E. apply Hij. eapply NoDup_lookup; [exact Hsu| |]; rewrite list_lookup_fmap; [by rewrite Hi|by rewrite Hj; cbn; f_equal]. }
      exists xs. cbn. rewrite E1, E2. done.
Qed.

Lemma receive_broker s a w ctxErr w' o : sys_ok s -> wires (broker s) !! a = Some w -> Receive zeroD ctxErr w = (w', o) ->
  let b := MkBroker (subs (broker s)) (<[a := w']> (wires (broker s))) in
  broker_ok (H := wire_mailbox zeroD) b /\ length (wires b) = length (wires (broker s)) /\
  forall a', a' <> a -> subs b !! a' = subs (broker s) !! a' /\ wires b !! a' = wires (broker s) !! a'.
Proof.
  intros [[Hb Hbk] _ _ _ _ _] Ha E. cbv zeta.
  destruct (Receive_refines zeroD _ _ _ _ (Forall_lookup_1 _ _ _ _ Hbk Ha) E) as (Hok & Hc & _).
  split_and!; cbn.
  - split; cbn; [|by apply Forall_insert]. eapply map_Forall_impl; [exact Hb|]. cbn. intros ? ? [? ?]. by rewrite length_insert.
  - apply length_insert.
  - intros a' Hne. by rewrite list_lookup_insert_ne.
Qed.
Lemma finish_ok s i src src0 b e : sys_ok s -> sources s !! i = Some src0 -> src_sub src = src_sub src0 -> relayed src ->
  broker_ok (H := wire_mailbox zeroD) b -> length (wires b) = length (wires (broker s)) ->
  (forall a, a <> src_sub src0 -> subs b !! a = subs (broker s) !! a /\ wires b !! a = wires (broker s) !! a) ->
  sys_ok (finish s i src b e).
Proof.
  intros Hs Hi Hsub Hr Hb Hl Hne. unfold finish. apply (local_ok s i src0); try done; cbn.
  - by apply (cancel_ok (H := wire_mailbox zeroD)).
  - by rewrite length_alter.
  - intros a Ha. rewrite Hsub, lookup_delete_ne, list_lookup_alter_ne by done. by apply Hne.
Qed.
Lemma turn_ok s i ctxErr id now emitErr : sys_ok s -> sys_ok (turn s i ctxErr id now emitErr).
Proof.
  intros Hs. unfold turn. destruct (sources s !! i) as [src|] eqn:Hi; [|done].
  destruct (ended src) eqn:He; [done|]. destruct (wires (broker s) !! src_sub src) as [w|] eqn:Hw; [|done].
  destruct (Receive zeroD ctxErr w) as [w' o] eqn:E.
  destruct (receive_broker s _ _ _ _ _ Hs Hw E) as (Hb & Hl & Hne).
  pose proof (Forall_lookup_1 _ _ _ _ (so_relayed s Hs) Hi) as Hr.
  destruct o as [d| | | |]; try done; [|by apply (finish_ok s i src src)..].
  assert (relayed (MkSrc (src_node src) (src_sub src) (since src) (got src ++ [d]) (emitted src ++ [outgoing (src_node src) id now d]) None)) as Hr'.
  { unfold relayed in *. cbn. destruct (src_node src); [by rewrite Hr|]. apply Forall2_app; [done|]. constructor; [by eexists _, _|constructor]. }
  destruct emitErr as [e|]; [by apply (finish_ok s i _ src)|].
  apply (local_ok s i src); try done. intros _.
  destruct (Forall_lookup_1 _ _ _ _ (so_sources s Hs) Hi He) as (xs & H1 & H2 & H3 & H4 & H5 & H6 & H7).
  assert (w = bus.wire (run (wire_of (src_node src)) xs)) as -> by congruence.
  destruct (received_receive _ _ _ _ E) as [Hr1 Hr2].
  exists (xs ++ [OReceive ctxErr]). cbn [src_node src_sub since got broker subs wires].
  rewrite busrun_snoc, sent_snoc, app_nil_r, Hr1, Hr2, H4. split_and!; try done.
  - by rewrite list_lookup_insert_eq by by eapply lookup_lt_Some.
  - apply Forall_app_2; [done|by repeat constructor].
Qed.
Lemma steps_ok evs : sys_ok (steps evs).
Proof.
  unfold steps. assert (sys_ok idle) as H0.
  { split; cbn; try done. split; [constructor|done]. }
  revert H0. generalize idle. induction evs as [|e evs IH]; intros s Hs; cbn; [done|]. apply IH.
  destruct e; cbn; [by apply start_ok|by apply turn_ok|by apply publish_ok|by apply send_ok].
Qed.

(** On an open wire that drops the oldest, every send is accepted, and none is evicted before the wire
    has accepted more than it holds. *)
Lemma drop_oldest_accepts c xs : Overflow c = OverflowDropOldest -> 0 < Capacity c -> Forall open_op xs ->
  let r := run c xs in
  accepted r = sent xs /\ closed (bus.wire r) = false /\ (evicted r <> [] -> Capacity c < zlen (accepted r)).
Proof.
  intros Hp Hc Hopen. cbv zeta. induction xs as [|x xs IH] using rev_ind; [by cbn|].
  apply Forall_app in Hopen as [Ho Hx]. apply Forall_cons in Hx as [Hx _]. destruct (IH Ho) as (Ha & Hcl & He).
  rewrite busrun_snoc, sent_snoc. pose proof (run_ok zeroD c xs) as [Hok Hcfg Hord _ _ _ _ _].
  assert (cfg (bus.wire (run c xs)) = c) as Hcfg'.
  { rewrite Hcfg. unfold NewWire. destruct (Z.leb_spec (Capacity c) 0); [lia|]. rewrite Hp. by destruct c. }
  destruct x as [ctxErr d| |ctxErr|]; try done.
  - cbn. unfold Send. rewrite Hcl, Hcfg', Hp. destruct (full (bus.wire (run c xs))) eqn:Ef; cbn.
    + rewrite Ha. split_and!; [done|done|]. intros _. unfold full in Ef. rewrite Hcfg' in Ef. apply Z.leb_le in Ef.
      rewrite <- Ha, Hord. unfold zlen. rewrite !length_app, length_queue. cbn. lia.
    + rewrite Ha. split_and!; [done|done|]. unfold evicted, evicts. cbn. rewrite Ef, app_nil_r. intros Hev.
      pose proof (He Hev) as Hlt. unfold zlen in *. rewrite <- Ha, length_app. cbn. lia.
  - cbn. unfold Receive. rewrite app_nil_r. unfold evicted in *.
    destruct (waitLocked _ _); [| |]; cbn; [done| |done].
    destruct (count _ =? 0)%nat; cbn; [done|]. destruct (buf _ !! head _); cbn; [|done].
    rewrite omap_app, app_nil_r. done.
Qed.

(** [C25] Any interleaving of flows that start, publish and receive, in which [Publish] takes its
    snapshot under the lock and then sends to one subscription after the other, and a full subscriber with the
    policy "block" holds its publishers up.  For a source that is running with the default overflow
    policy: of every publisher's publications since it subscribed that match it, it has been
    delivered all but at most the one that this publisher is still sending, in the
    order of that publisher; it has taken from the deliveries, in their order, everything except what is in its
    queue and what was evicted for newer ones, which is counted; nothing is evicted while no more than the queue's capacity has
    been delivered; and it has emitted exactly what it got: bus-in the datagram itself, the error trigger a new
    datagram, the first of its own chain, with that payload. *)
Theorem bus_in_order evs i src : sources (steps evs) !! i = Some src -> ended src = None ->
  Overflow (wire_of (src_node src)) = OverflowDropOldest ->
  exists w departed, wires (broker (steps evs)) !! src_sub src = Some w /\
    (forall p, arrived_from (steps evs) src p ++ coming (steps evs) src p = matching (steps evs) src p) /\
    arrived (steps evs) src = map snd departed ++ queue zeroD w /\
    got src = omap (fun p => match p with (Received, d) => Some d | (Evicted, _) => None end) departed /\ relayed src /\
    Dropped (metrics w) = u64 (zlen (omap (fun p => match p with (Evicted, d) => Some d | (Received, _) => None end) departed)) /\
    (zlen (arrived (steps evs) src) <= DefaultSubscriberCapacity -> got src ++ queue zeroD w = arrived (steps evs) src).
Proof.
  intros Hi He Hp. pose proof (steps_ok evs) as Hs.
  destruct (Forall_lookup_1 _ _ _ _ (so_sources _ Hs) Hi He) as (xs & _ & Hw & Hsent & Hgot & _ & Hopen & Hmatch).
  destruct (drop_oldest_accepts _ _ Hp eq_refl Hopen) as (Ha & _ & Hev).
  pose proof (run_ok zeroD (wire_of (src_node src)) xs) as [_ _ Hord _ _ _ _ Hdr].
  unfold counted in Hdr. rewrite Hp in Hdr.
  exists (bus.wire (run (wire_of (src_node src)) xs)), (departed (run (wire_of (src_node src)) xs)).
  rewrite <- Hsent, <- Ha. split_and!; try done.
  - by apply (Forall_lookup_1 _ _ _ _ (so_relayed _ Hs) Hi).
  - intros Hle. rewrite <- Hgot, Hord. f_equal. symmetry. apply departed_received.
    destruct (decide (evicted (run (wire_of (src_node src)) xs) = [])) as [|Hne]; [done|].
    pose proof (Hev Hne) as Hlt. cbn in Hlt. lia.
Qed.

(** ** Error flows *)

(** A publication from its snapshot to its last send, by node [p] alone. *)
Definition publishNow (s : system) (p : nat) (topic : string) (tg : gmap string string) (d : dgram) : system :=
  Nat.iter (length (snapshot (broker s) topic tg)) (fun s => send s p 0 false) (publish s p topic tg d).
(** The publications among the calls a runner makes. *)
Definition publish_errors (p : nat) (s : system) (fx : list runner.effect) : system :=
  fold_left (fun s x => match x with runner.FErrorFlow topic d => publishNow s p topic ∅ d | _ => s end) fx s.
(** A handler flow takes an error: its trigger, source [i], receives it, and the next node handles what
    the trigger emits. *)
Definition error_round (r : runner.nodeRunner) (port : string) (invoke : Z -> runner.outcome) (s : system) (i : nat)
    (id : string) (now : Z) (env : runner.Env) : system :=
  let s' := turn s i false id now None in
  match sources s' !! i ≫= (fun src => last (emitted src)) with
  | Some d => publish_errors 0 s' (runner.processOne r env port d invoke (fun _ => false))
  | None => s'
  end.
(** The trigger of flow [f] runs, alone, and has one error to handle after [n] others. *)
Definition handling (f : string) (s : system) (n : nat) : Prop := sys_ok s /\ sending s = ∅ /\ exists src w,
  sources s = [src] /\ src_node src = NErrorTrigger f /\ ended src = None /\ length (emitted src) = n /\
  subs (broker s) = {[src_sub src := MkSub (runner.ErrorFlowTopic f) ∅ (src_sub src)]} /\
  wires (broker s) !! src_sub src = Some w /\ length (queue zeroD w) = 1%nat.
Lemma match_loop_refl i l t : (forall j, l !! j = t !! (i + j)%nat) -> match_loop i l t = true.
Proof.
  revert i. induction l as [|p l IH]; intros i H; cbn; [done|]. destruct (decide (p = "#")); [done|].
  pose proof (H 0%nat) as H0. rewrite Nat.add_0_r in H0. cbn in H0. rewrite <- H0.
  rewrite decide_False by naive_solver. apply IH. intros j. etransitivity; [exact (H (S j))|]. f_equal. lia.
Qed.
Lemma matchTopic_refl t : matchTopic t t = true.
Proof. unfold matchTopic. rewrite match_loop_refl by done. by rewrite Nat.eqb_refl, orb_true_r. Qed.
Lemma unhandled_published r env port d invoke f : runner.errorPolicy r = None -> runner.errorFlowTarget r = Some f -> f <> "" ->
  Expired (header d) (runner.nowAt env) = false -> runner.fails invoke 1 ->
  forall s, exists d', publish_errors 0 s (runner.processOne r env port d invoke (fun _ => false)) = publishNow s 0 (runner.ErrorFlowTopic f) ∅ d'.
Proof.
  intros Hp Ht Hf Hx [e He] s. unfold runner.processOne, runner.dropExpired. rewrite Hx.
  unfold runner.handle, runner.policy. rewrite Hp. cbn -[publishNow runner.invokeWithRecover].
  change (Z.to_nat 0) with 0%nat. cbn -[publishNow runner.invokeWithRecover runner.policy]. rewrite He. unfold runner.policy. rewrite Hp. cbn -[publishNow].
  unfold runner.applyTerminalPolicy. do 3 rewrite decide_False by done. unfold runner.reportNode.
  rewrite (decide_True (P := _ \/ _)) by by left. rewrite (decide_True (P := "fail" = "fail")) by done. rewrite Ht, (decide_False (P := f = "")) by done. cbn -[publishNow]. by eexists.
Qed.

(** With the trigger as the only subscriber, a publication to its topic is one send, which it accepts. *)
Lemma publish_to_trigger p f s src w d : sys_ok s -> sending s = ∅ -> sources s = [src] -> src_node src = NErrorTrigger f -> ended src = None ->
  subs (broker s) = {[src_sub src := MkSub (runner.ErrorFlowTopic f) ∅ (src_sub src)]} ->
  wires (broker s) !! src_sub src = Some w -> queue zeroD w = [] ->
  handling f (publishNow s p (runner.ErrorFlowTopic f) ∅ d) (length (emitted src)).
Proof.
  intros Hs Hse Hsrc Hnode Hend Hsubs Hw Hq.
  assert (sources s !! 0%nat = Some src) as Hi by by rewrite Hsrc.
  destruct (Forall_lookup_1 _ _ _ _ (so_sources _ Hs) Hi Hend) as (xs & _ & Hwx & _ & _ & _ & Hopen & _).
  assert (w = bus.wire (run (wire_of (src_node src)) xs)) as Ew by congruence.
  destruct (drop_oldest_accepts (wire_of (src_node src)) xs) as (_ & Hcl & _); [by rewrite Hnode|done|done|].
  rewrite <- Ew in Hcl. pose proof (Forall_lookup_1 _ _ _ _ (bo_ok _ (so_broker _ Hs)) Hw) as Hok.
  assert (snapshot (broker s) (runner.ErrorFlowTopic f) ∅ = [MkSub (runner.ErrorFlowTopic f) ∅ (src_sub src)]) as Hsnap.
  { unfold snapshot. rewrite Hsubs, map_to_list_singleton. cbn. rewrite decide_True; [done|]. unfold sub_matches. cbn. by rewrite matchTopic_refl. }
  unfold publishNow. rewrite Hsnap. unfold Nat.iter. cbn [length nat_rect].
  split; [by apply send_ok, publish_ok|]. unfold publish. rewrite Hse, lookup_empty, Hsnap. unfold send. cbn [sending broker].
  rewrite lookup_insert_eq. cbn [lookup list_lookup wire]. rewrite Hw. destruct (Send zeroD false w (Clone d)) as [w2 o] eqn:E.
  destruct (Send_refines zeroD _ _ _ _ _ Hok E) as (_ & _ & _ & ev & Hsp). unfold spec_send in Hsp. rewrite Hcl, Hq in Hsp. cbn -[Nat.ltb] in Hsp.
  destruct (Nat.ltb_spec 0 (length (buf w))) as [_|Hlt]; [|pose proof (ok_pos _ Hok); lia].
  injection Hsp as Hq2 Hev Ho. rewrite <- Ho. cbn [delete list_delete sending]. rewrite delete_insert_eq. split; [apply delete_empty|].
  exists src, w2. cbn. split_and!; try done; [|by rewrite <- Hq2]. by rewrite list_lookup_insert_eq by by eapply lookup_lt_Some.
Qed.
Lemma handling_round r port invoke f n s id now env : runner.errorPolicy r = None -> runner.errorFlowTarget r = Some f -> f <> "" ->
  runner.fails invoke 1 -> handling f s n -> handling f (error_round r port invoke s 0 id now env) (S n).
Proof.
  intros Hp Ht Hf Hfail (Hs & Hse & src & w & Hsrc & Hnode & Hend & Hem & Hsubs & Hw & Hq).
  assert (sources s !! 0%nat = Some src) as Hi by by rewrite Hsrc.
  pose proof (Forall_lookup_1 _ _ _ _ (bo_ok _ (so_broker _ Hs)) Hw) as Hok.
  pose proof (turn_ok s 0 false id now None Hs) as Hs1. unfold error_round.
  destruct (Receive zeroD false w) as [w1 o] eqn:E.
  destruct (Receive_refines zeroD _ _ _ _ Hok E) as (_ & _ & _ & _ & Hsp).
  destruct (queue zeroD w) as [|x [|]] eqn:Eq; try done. cbn in Hsp. injection Hsp as Hq1 Ho. subst o.
  set (src' := MkSrc (src_node src) (src_sub src) (since src) (got src ++ [x]) (emitted src ++ [outgoing (src_node src) id now x]) None).
  set (s1 := MkSys (MkBroker (subs (broker s)) (<[src_sub src := w1]> (wires (broker s)))) [src'] (sending s) (published s) (delivered s)).
  assert (turn s 0 false id now None = s1) as Et by (unfold turn; rewrite Hi, Hend, Hw, E, Hsrc; done).
  rewrite Et in Hs1 |- *. cbn [s1 sources mbind option_bind emitted]. change ([src'] !! 0%nat) with (Some src').
  cbn [mbind option_bind emitted src']. unfold mbind, option_bind. rewrite last_snoc.
  destruct (unhandled_published r env port (outgoing (src_node src) id now x) invoke f Hp Ht Hf ltac:(by rewrite Hnode) Hfail s1) as [d' ->].
  replace (S n) with (length (emitted src')) by (cbn; rewrite length_app, Hem; cbn; lia).
  apply (publish_to_trigger 0 f s1 src' w1); try done. cbn. by rewrite list_lookup_insert_eq by by eapply lookup_lt_Some.
Qed.
(** A handler flow that is the target of its own unhandled errors, as the flow a project names for all
    its flows is, never comes to rest once it fails: for every number of rounds there is another error
    to handle. *)
Theorem handler_feeds_itself r port invoke f d0 n ids clock env : runner.errorPolicy r = None -> runner.errorFlowTarget r = Some f -> f <> "" ->
  runner.fails invoke 1 ->
  let s0 := publishNow (steps [EStart (NErrorTrigger f)]) 1 (runner.ErrorFlowTopic f) ∅ d0 in
  handling f (fold_left (fun s k => error_round r port invoke s 0 (ids k) (clock k) (env k)) (seq 0 n) s0) n.
Proof.
  intros Hp Ht Hf Hfail. cbv zeta. induction n as [|n IH].
  - cbn [seq fold_left]. eapply (publish_to_trigger 1 f _ (MkSrc (NErrorTrigger f) 0 0 [] [] None)); [apply steps_ok|done..].
  - rewrite seq_S, fold_left_app. cbn [fold_left]. by apply handling_round.
Qed.
End process.

(** ** Limits of the broker nodes *)

(** The prefix of error topics is not reserved: a subscription to everything takes the errors of all
    flows too, and nothing keeps a bus-out node from publishing to a flow's error topic. *)
Lemma errors_seen_by_all f flt : matchTopic "#" (runner.ErrorFlowTopic f) = true /\
  newBusOut (MkOutConfig (runner.ErrorFlowTopic f) flt) = Ok (MkOutConfig (runner.ErrorFlowTopic f) flt).
Proof. split; [done|]. unfold newBusOut, runner.ErrorFlowTopic. by case_decide. Qed.

(** A subscriber with the blocking policy that does not receive stops the publisher: once its queue is
    full, the send does nothing and the [Process] of bus-out does not return. *)
Definition slowDemo (zeroD : dgram) : system :=
  fold_left (fun s _ => publishNow zeroD (fun d => d) s 0 "t" ∅ zeroD) (seq 0 256) (steps zeroD (fun d => d) [EStart (NBusIn (MkInConfig "t" ∅ "block"))]).
Lemma block_stops_publisher : let d := datagram.New "1" 0 (MkSource "" "" "" "" "") (MkPayload ANil None) in
  let s := busOut (slowDemo d) 0 (MkOutConfig "t" ∅) d in
  busOutResult (slowDemo d) 0 d = Some (Ok [MkPortDatagram "out" d]) /\ send d (fun d => d) s 0 0 false = s /\ busOutResult s 0 d = None.
Proof. split_and!; vm_compute; reflexivity. Qed.
(** Publications of two nodes may overlap: of two subscribers, each may get them in another order. *)
Definition overlapDemo (d1 d2 : dgram) : system :=
  steps d1 (fun d => d) [EStart (NBusIn (MkInConfig "t" ∅ "")); EStart (NBusIn (MkInConfig "t" ∅ "")); EPublish 1 "t" ∅ d1; EPublish 2 "t" ∅ d2;
    ESend 1 0 false; ESend 2 1 false; ESend 1 0 false; ESend 2 0 false; ETurn 0 false "" 0 None; ETurn 0 false "" 0 None; ETurn 1 false "" 0 None; ETurn 1 false "" 0 None].

(** ** Inject *)

Record InjectConfig := MkInjectConfig { InjectPayload : any; InitialDelayMs : Z; RepeatMs : Z }.
(** How [Run] ends: it goes on, it returns nil or an error, or it panics. *)
Inductive ending := Waiting | Stopped | Failed (e : string) | Panicked.
(** A turn of the ticker's loop: whether the context ends it, else the clock and id of the datagram and
    the outcome of its emission. *)
Record itick := MkITick { it_done : bool; it_id : string; it_now : Z; it_emit : option string }.
Definition fireInject (c : InjectConfig) (id : string) (now : Z) : dgram :=
  datagram.New id now (MkSource "inject" "" "" "" "") (MkPayload (InjectPayload c) None).
Fixpoint injectLoop (c : InjectConfig) (ticks : list itick) : list dgram * ending :=
  match ticks with
  | [] => ([], Waiting)
  | t :: ts =>
      if it_done t then ([], Stopped) else
      let d := fireInject c (it_id t) (it_now t) in
      match it_emit t with
      | Some e => ([d], Failed e)
      | None => let '(l, e) := injectLoop c ts in (d :: l, e)
      end
  end.
(** [first]: the wait before the first emission, and that emission. *)
Definition injectRun (c : InjectConfig) (first : itick) (ticks : list itick) : list dgram * ending :=
  if (0 <? InitialDelayMs c) && it_done first then ([], Stopped) else
  let d := fireInject c (it_id first) (it_now first) in
  match it_emit first with
  | Some e => ([d], Failed e)
  | None =>
      if RepeatMs c <=? 0 then ([d], Stopped)
      else if s64 (RepeatMs c * 1000000) <=? 0 then ([d], Panicked)
      else let '(l, e) := injectLoop c ticks in (d :: l, e)
  end.

(** ** Debug log *)

Record LogConfig := MkLogConfig { Label : string; Expression : string; Console : bool }.
Definition evalExpression (root : any) (path : string) : any := fieldValue root path.
(** The debug capture of the node and the lines on the console: label, correlation, quality, value. *)
Record logState := MkLogState { sidebar : option debug.capture; lines : list (string * string * string * any) }.
Definition debugLog (c : LogConfig) (flowID nodeID : string) (s : logState) (id : string) (now : Z) (inp : dgram) : logState * nodeResult :=
  let v := evalExpression (Value (payload inp)) (Expression c) in
  (MkLogState (debug.SidebarEvent (sidebar s) id now flowID nodeID (Label c) inp v)
     (if Console c then lines s ++ [(Label c, CorrelationID (header inp), quality (header inp), v)] else lines s),
   Ok []).
Definition logAll (c : LogConfig) (flowID nodeID : string) (s : logState) (ins : list (string * Z * dgram)) : logState :=
  fold_left (fun s x => (debugLog c flowID nodeID s x.1.1 x.1.2 x.2).1) ins s.
Lemma debugLog_step c flowID nodeID cap0 ls id now d : Console c = true -> exists cap,
  (debugLog c flowID nodeID (MkLogState (Some cap0) ls) id now d).1 =
    MkLogState (Some cap) (ls ++ [(Label c, CorrelationID (header d), quality (header d), fieldValue (Value (payload d)) (Expression c))]) /\
  exists e, debug.ring cap = debug.push (debug.ring cap0) e /\ debug.evValue e = fieldValue (Value (payload d)) (Expression c).
Proof.
  intros Hc. unfold debugLog. rewrite Hc. cbn. eexists. split; [reflexivity|]. unfold debug.forward.
  destruct (debug.allow _ _) as [l ok]. by eexists.
Qed.
(** The sidebar shows the selected value of the last datagrams, in order, whatever the rate limit drops
    on the way to the browser, and the console every one. *)
Theorem debug_log_shows c flowID nodeID size lim ins : Console c = true ->
  let s := logAll c flowID nodeID (MkLogState (Some (debug.MkCapture (debug.newRingBuffer size) lim [])) []) ins in
  let vals := map (fun x => fieldValue (Value (payload x.2)) (Expression c)) ins in
  (exists cap, sidebar s = Some cap /\
    map debug.evValue (debug.snapshot (debug.ring cap)) = debug.lastn (Z.to_nat (if size <=? 0 then 50 else size)) vals) /\
  map snd (lines s) = vals.
Proof.
  intros Hc. cbv zeta.
  assert (forall ins cap0 ls, exists cap, logAll c flowID nodeID (MkLogState (Some cap0) ls) ins =
      MkLogState (Some cap) (ls ++ map (fun x => (Label c, CorrelationID (header x.2), quality (header x.2), fieldValue (Value (payload x.2)) (Expression c))) ins) /\
      exists evs, debug.ring cap = fold_left debug.push evs (debug.ring cap0) /\
        map debug.evValue evs = map (fun x => fieldValue (Value (payload x.2)) (Expression c)) ins) as Hg.
  { clear ins. induction ins as [|[[id now] d] ins IH]; intros cap0 ls.
    - exists cap0. cbn. rewrite app_nil_r. split; [done|]. by exists [].
    - destruct (debugLog_step c flowID nodeID cap0 ls id now d Hc) as (cap' & E' & e & He & Hv).
      destruct (IH cap' (ls ++ [(Label c, CorrelationID (header d), quality (header d), fieldValue (Value (payload d)) (Expression c))]))
        as (cap & E & evs & H1 & H2).
      exists cap. change (logAll _ _ _ _ (_ :: ins)) with (logAll c flowID nodeID (debugLog c flowID nodeID (MkLogState (Some cap0) ls) id now d).1 ins).
      rewrite E', E, <- app_assoc. split; [done|]. exists (e :: evs). cbn. by rewrite <- He, <- H2, Hv. }
  destruct (Hg ins (debug.MkCapture (debug.newRingBuffer size) lim []) []) as (cap & -> & evs & H1 & H2). cbn in H1 |- *. split.
  - exists cap. split; [done|]. destruct (debug.ring_snapshot size evs) as [Hs _]. rewrite H1. etransitivity; [apply (f_equal (map debug.evValue)), Hs|].
    unfold debug.lastn. rewrite <- H2, length_map. apply fmap_drop.
  - rewrite map_map. by apply map_ext.
Qed.

(** ** Witnesses *)

Module examples.
Definition d1 : dgram := datagram.New "1" 0 (MkSource "" "a" "" "" "") (MkPayload (AInt 1) None).
Definition d2 : dgram := datagram.New "2" 0 (MkSource "" "a" "" "" "") (MkPayload (AInt 2) None).
(** Two publications that match and one that does not, by two nodes; the source has received one, and
    the second is still being sent. *)
Definition evs : list event :=
  [EStart (NBusIn (MkInConfig "plant/+" ∅ "")); EPublish 1 "plant/a" ∅ d1; EPublish 2 "office/a" ∅ d1; ESend 1 0 false; ETurn 0 false "" 0 None;
   EPublish 1 "plant/b" ∅ d2; EPublish 2 "plant/c" ∅ d1; ESend 1 0 false].
Lemma bus_in_order_witness : exists src w, sources (steps d1 (fun d => d) evs) !! 0%nat = Some src /\
  wires (broker (steps d1 (fun d => d) evs)) !! src_sub src = Some w /\ emitted src = [d1] /\ queue d1 w = [d2] /\
  coming (fun d => d) (steps d1 (fun d => d) evs) src 2 = matching (fun d => d) (steps d1 (fun d => d) evs) src 2.
Proof.
  destruct (bus_in_order d1 (fun d => d) evs 0 (MkSrc (NBusIn (MkInConfig "plant/+" ∅ "")) 0 0 [d1] [d1] None))
    as (w & dep & Hw & Hm & _ & _ & _ & _ & Hall).
  - vm_compute. reflexivity.
  - reflexivity.
  - reflexivity.
  - eexists _, w. split; [vm_compute; reflexivity|]. split; [exact Hw|]. split; [reflexivity|]. split; [|exact (Hm 2%nat)].
    assert ([d1] ++ queue d1 w = [d1; d2]) as E; [|injection E as E'; exact E'].
    etransitivity; [apply Hall; vm_compute; discriminate|]. vm_compute. reflexivity.
Defined.
(** Publications of two nodes may overlap, so that two subscribers get them in different orders. *)
Lemma overlapping_publications : map emitted (sources (overlapDemo d1 d2)) = [[d2; d1]; [d1; d2]].
Proof. vm_compute. reflexivity. Qed.
End examples.
End busnodes.
