(* ===== verification/Messaging.v ===== *)
(** * Messaging nodes: MQTT, Kafka, Redis

    [engine/nodes/mqttin], [mqttout], [kafkain], [kafkaout], [redissource], [redissink] and the packages
    they share.  The clients are outside: what they answer is an argument of every operation, and the
    theorems that depend on a server state what its documentation promises as a hypothesis on the
    answers. *)

From S2P Require Import Prelude Bytes GoStd Datagram Execution Value Expr HttpRequest.
Import gostd datagram execution value.
Local Open Scope Z_scope.

Module messaging.

(** ** Connections *)

(** A resolved connection: its configuration, if it parses, and its credential, if there is one and it
    parses. *)
Record connInfo (C K : Type) := MkInfo { ci_config : option C; ci_cred : option (option K) }.
Arguments MkInfo {C K}.
Arguments ci_config {C K}.
Arguments ci_cred {C K}.
(** [flow.ResolveConnection] and the two [json.Unmarshal]s, with [check] between them. *)
Definition resolve {C K : Type} (info : option (connInfo C K)) (check : C -> bool) (zero : K) : res string (C * K) :=
  match info with
  | None => Err "resolving the connection"
  | Some i =>
      match ci_config i with
      | None => Err "parsing connection config"
      | Some c =>
          if check c then
            match ci_cred i with
            | None => Ok (c, zero)
            | Some (Some k) => Ok (c, k)
            | Some None => Err "parsing credential"
            end
          else Err "connection config is incomplete"
      end
  end.
(** An attempt to connect: whether the context is done before it, whether it succeeds, and whether the
    context is done during the wait after it. *)
Record attempt := MkAttempt { at_done : bool; at_ok : bool; at_cancelled : bool }.
(** The loop of [Connect]; [None] while it goes on. *)
Fixpoint connectLoop (l : list attempt) : option (unit + string) :=
  match l with
  | [] => None
  | a :: l' =>
      if at_done a then Some (inr "context canceled")
      else if at_ok a then Some (inl tt)
      else if at_cancelled a then Some (inr "context canceled") else connectLoop l'
  end.
(** A node that connects at most once: [sync.Once] keeps the first outcome. *)
Definition once {A} (kept : option (A + string)) (fresh : A + string) : A + string := default fresh kept.
Definition passed (inp : dgram) (r : res string unit) : nodeResult := match r with Ok _ => Ok [MkPortDatagram "out" inp] | Err e => Err e | Panic => Panic end.

(** ** MQTT *)

Record BrokerConfig := MkBrokerConfig { BrokerURL : string; ClientIDPrefix : string }.
Record Login := MkLogin { Username : string; Password : string }.
(** The options of the client. *)
Record clientOptions := MkClientOptions { op_broker : string; op_clientID : string; op_login : option Login }.
Definition mqttOptions (info : option (connInfo BrokerConfig Login)) (suffix : string) : res string clientOptions :=
  '(b, cred) ← resolve info (fun b => bool_decide (BrokerURL b <> "")) (MkLogin "" "");
  let prefix := if decide (ClientIDPrefix b = "") then "datapipe" else ClientIDPrefix b in
  Ok (MkClientOptions (BrokerURL b) (prefix +:+ "-" +:+ suffix) (if decide (Username cred = "") then None else Some cred)).
Definition mqttConnect (info : option (connInfo BrokerConfig Login)) (suffix : string) (l : list attempt) : option (clientOptions + string) :=
  match mqttOptions info suffix with
  | Ok o => match connectLoop l with Some (inl _) => Some (inl o) | Some (inr e) => Some (inr e) | None => None end
  | Err e => Some (inr e)
  | Panic => None
  end.

Definition InboxCapacity : nat := 256.
Record MqttConfig := MkMqttConfig { q_Topic : string; q_QoS : Z; q_Retain : bool }.
Definition newMqtt (c : MqttConfig) : res string MqttConfig :=
  _ ← guard_err (bool_decide (q_Topic c <> "")) "topic is required";
  _ ← guard_err (negb ((q_QoS c <? 0) || (2 <? q_QoS c))) "qos must be 0, 1, or 2"; Ok c.
Definition newMqttIn : MqttConfig -> res string MqttConfig := newMqtt.
Definition newMqttOut : MqttConfig -> res string MqttConfig := newMqtt.

Section mqtt.
Context (Marshal : any -> option string) (Unmarshal : string -> option any).

Definition decodePayload (raw : string) : any := default (AStr raw) (Unmarshal raw).
Definition encodePayload (v : any) : res string string :=
  match v with AStr s => Ok s | _ => match Marshal v with Some b => Ok b | None => Err "json" end end.

(** The channel between the client's callback and the loop, what was emitted, and how [Run] ended. *)
Record mqttIn := MkMqttIn { inbox : list (string * string); sent : list dgram; over : option (option string) }.
Inductive mqttEvent :=
| MArrive (topic body : string)                                       (* the callback *)
| MTake (id : string) (now : Z) (emitErr : option string)             (* [case msg := <-msgs] *)
| MDone.                                                              (* [case <-ctx.Done()] *)
Definition messageDatagram (id : string) (now : Z) (m : string * string) : dgram :=
  let d := datagram.New id now (MkSource "" "mqtt-in" "" "" m.1) (MkPayload (decodePayload m.2) None) in
  let h := header d in
  MkDatagram (MkHeader (ID h) (CorrelationID h) (CausationID h) (Timestamp h) (SourceTimestamp h)
                (source h) (SchemaRef h) (ContentType h) (quality h) (Priority h) (TTLMillis h) (Some {["topic" := m.1]}))
             (payload d) (trace d).
Definition mqttStep (n : mqttIn) (e : mqttEvent) : mqttIn :=
  match e with
  | MArrive t b => if (length (inbox n) <? InboxCapacity)%nat then MkMqttIn (inbox n ++ [(t, b)]) (sent n) (over n) else n
  | MTake id now emitErr =>
      match over n, inbox n with
      | None, m :: rest => MkMqttIn rest (sent n ++ [messageDatagram id now m]) (match emitErr with Some e => Some (Some e) | None => None end)
      | _, _ => n
      end
  | MDone => match over n with None => MkMqttIn (inbox n) (sent n) (Some None) | Some _ => n end
  end.
Definition mqttRun (evs : list mqttEvent) : mqttIn := fold_left mqttStep evs (MkMqttIn [] [] None).

(** [Process] of mqtt-out: [conn] is what [connectOnce] has left; [ack]: the publish is not acknowledged in
    time, fails or succeeds. *)
Inductive ack := AckTimeout | AckErr | AckOk.
Record mqttOut := MkMqttOut { out_conn : option (clientOptions + string); out_published : list (string * Z * bool * string) }.
Definition renderTemplate (tmpl : string) (v : any) : string := httprequest.renderTemplate Marshal tmpl v.
Definition mqttProcess (c : MqttConfig) (n : mqttOut) (dial : clientOptions + string) (a : ack) (inp : dgram) : mqttOut * nodeResult :=
  match once (out_conn n) dial with
  | inr e => (MkMqttOut (Some (inr e)) (out_published n), Err ("mqtt-out: " +:+ e))
  | inl o =>
      let n := MkMqttOut (Some (inl o)) (out_published n) in
      let topic := renderTemplate (q_Topic c) (Value (payload inp)) in
      match encodePayload (Value (payload inp)) with
      | Ok b =>
          let n := MkMqttOut (out_conn n) (out_published n ++ [(topic, q_QoS c, q_Retain c, b)]) in
          (n, passed inp (match a with AckOk => Ok tt | AckTimeout => Err "mqtt-out: publish timed out" | AckErr => Err "mqtt-out: publish" end))
      | Err e => (n, Err ("mqtt-out: encoding payload: " +:+ e))
      | Panic => (n, Panic)
      end
  end.
End mqtt.

(** ** MQTT: what is relayed *)

Section mqtt_props.
Context (Marshal : any -> option string) (Unmarshal : string -> option any).
Abbreviation mqttRun := (mqttRun Unmarshal).
Abbreviation decodePayload := (decodePayload Unmarshal).

Definition arrived (evs : list mqttEvent) : list (string * string) := omap (fun e => match e with MArrive t b => Some (t, b) | _ => None end) evs.
Definition message_of (d : dgram) (m : string * string) : Prop := exists id now, d = messageDatagram Unmarshal id now m.
(** Whatever the interleaving of the callback and the loop, the node emits messages in the order of
    arrival, each once; those that are missing found the channel full. *)
Theorem mqtt_in_order evs : let n := mqttRun evs in
  exists taken, sublist (taken ++ inbox n) (arrived evs) /\ Forall2 message_of (sent n) taken /\
    (length (inbox n) <= InboxCapacity)%nat /\ ((length (arrived evs) <= InboxCapacity)%nat -> taken ++ inbox n = arrived evs).
Proof.
  cbv zeta. unfold messaging.mqttRun. induction evs as [|e evs (taken & H1 & H2 & H3 & H4)] using rev_ind.
  - exists []. cbn. split_and!; try done. unfold InboxCapacity. lia.
  - rewrite fold_left_app. cbn [fold_left]. unfold arrived in *. rewrite omap_app. set (n := fold_left _ evs _) in *.
    destruct e as [t b|id now emitErr|]; cbn -[Nat.ltb InboxCapacity].
    + destruct (Nat.ltb_spec (length (inbox n)) InboxCapacity).
      * exists taken. cbn [inbox sent]. rewrite (app_assoc taken). split_and!; [by apply sublist_app|done|rewrite length_app; cbn [length]; lia|].
        rewrite length_app. cbn [length]. intros Hl. by rewrite H4 by lia.
      * exists taken. split_and!; [by apply sublist_inserts_r|done|done|]. rewrite length_app. cbn [length]. intros Hl. exfalso.
        apply sublist_length in H1. rewrite length_app in H1. lia.
    + rewrite app_nil_r. destruct (over n); [by exists taken|]. destruct (inbox n) as [|m rest] eqn:Ei; [exists taken; by rewrite Ei|].
      exists (taken ++ [m]). cbn. rewrite <- app_assoc. cbn in H3. split_and!; [done| |lia|done].
      apply Forall2_app; [done|]. constructor; [by exists id, now|constructor].
    + rewrite app_nil_r. exists taken. by destruct (over n).
Qed.
(** What finds the channel full is the newest message, not the oldest. *)
Theorem mqtt_drops_newest msgs : inbox (mqttRun (map (fun m => MArrive m.1 m.2) msgs)) = take InboxCapacity msgs.
Proof.
  unfold messaging.mqttRun. induction msgs as [|[t b] msgs IH] using rev_ind; [done|]. rewrite map_app, fold_left_app. cbn -[Nat.ltb InboxCapacity].
  rewrite IH, length_take. destruct (Nat.ltb_spec (InboxCapacity `min` length msgs) InboxCapacity).
  - cbn [inbox]. rewrite (take_ge msgs), take_ge by (rewrite ?length_app; cbn [length]; lia). done.
  - rewrite IH, take_app_le by lia. done.
Qed.

(** Values whose text reads back as the same value; a text that is no JSON. *)
Definition relayable (v : any) : Prop :=
  match v with AStr s => Unmarshal s = None | _ => exists b, Marshal v = Some b /\ Unmarshal b = Some v end.
Lemma encode_decode v : relayable v -> exists b, encodePayload Marshal v = Ok b /\ decodePayload b = v.
Proof.
  unfold messaging.decodePayload, relayable, encodePayload. intros Hv.
  destruct v as [| | | |t| | | | | | |]; try (destruct Hv as (raw & -> & Hb); exists raw; by rewrite Hb). exists t. by rewrite Hv.
Qed.
Definition publishAll (c : MqttConfig) (o : clientOptions) (ins : list dgram) : mqttOut :=
  fold_left (fun n d => (mqttProcess Marshal c n (inl o) AckOk d).1) ins (MkMqttOut None []).
Lemma publishAll_snoc c o ins d : publishAll c o (ins ++ [d]) = (mqttProcess Marshal c (publishAll c o ins) (inl o) AckOk d).1.
Proof. unfold publishAll. by rewrite fold_left_app. Qed.
Lemma publishAll_conn c o ins : once (out_conn (publishAll c o ins)) (inl o) = inl o.
Proof.
  induction ins as [|d ins IH] using rev_ind; [done|]. rewrite publishAll_snoc. unfold mqttProcess. rewrite IH.
  by destruct (encodePayload _ _).
Qed.
(** From one flow to another through a broker that delivers what it acknowledged, in order: the values
    that mqtt-in emits are those that mqtt-out was given, as long as the channel holds them. *)
Theorem mqtt_relays c o ins ids clock : Forall (fun d => relayable (Value (payload d))) ins -> (length ins <= InboxCapacity)%nat ->
  let msgs := map (fun p => (p.1.1.1, p.2)) (out_published (publishAll c o ins)) in
  map (fun d => Value (payload d))
    (sent (mqttRun (map (fun m => MArrive m.1 m.2) msgs ++ map (fun k => MTake (ids k) (clock k) None) (seq 0 (length ins))))) =
  map (fun d => Value (payload d)) ins.
Proof.
  intros Hr Hl. cbv zeta.
  assert (Forall2 (fun d p => decodePayload p.2 = Value (payload d)) ins (out_published (publishAll c o ins))) as Hp.
  { clear Hl. induction ins as [|d ins IH] using rev_ind; [constructor|]. apply Forall_app in Hr as [Hr Hd].
    apply Forall_cons in Hd as [Hd _]. specialize (IH Hr). destruct (encode_decode _ Hd) as (b & Hb & Hdec).
    rewrite publishAll_snoc. unfold mqttProcess. rewrite publishAll_conn, Hb. cbn [fst out_published].
    apply Forall2_app; [done|]. by repeat constructor. }
  unfold messaging.mqttRun. rewrite fold_left_app. change (fold_left (mqttStep Unmarshal) (map _ (map _ _)) _) with
    (mqttRun (map (fun m => MArrive m.1 m.2) (map (fun p : string * Z * bool * string => (p.1.1.1, p.2)) (out_published (publishAll c o ins))))).
  pose proof (mqtt_drops_newest (map (fun p => (p.1.1.1, p.2)) (out_published (publishAll c o ins)))) as Hin.
  rewrite take_ge in Hin by (rewrite length_map, <- (Forall2_length _ _ _ Hp); done).
  assert (forall msgs, sent (mqttRun (map (fun m => MArrive m.1 m.2) msgs)) = [] /\ over (mqttRun (map (fun m => MArrive m.1 m.2) msgs)) = None) as Hs.
  { clear. intros msgs. unfold messaging.mqttRun. induction msgs as [|m msgs IH] using rev_ind; [done|].
    rewrite map_app, fold_left_app. cbn -[Nat.ltb InboxCapacity]. by case_match. }
  destruct (Hs (map (fun p => (p.1.1.1, p.2)) (out_published (publishAll c o ins)))) as [Hs1 Hs2].
  destruct (mqttRun (map _ (map _ _))) as [ib st ov]. cbn in *. subst.
  assert (forall n k l st, length l = n -> map (fun d => Value (payload d))
     (sent (fold_left (mqttStep Unmarshal) (map (fun k => MTake (ids k) (clock k) None) (seq k n)) (MkMqttIn l st None))) =
     map (fun d => Value (payload d)) st ++ map (fun m => decodePayload m.2) l) as Htake.
  { clear. induction n as [|n IH]; intros k l st E; destruct l as [|m l]; try done; cbn; [by rewrite app_nil_r|].
    rewrite IH by (cbn in E; lia). rewrite map_app, <- app_assoc. done. }
  rewrite Htake by (rewrite length_map; symmetry; by eapply Forall2_length). cbn. rewrite map_map. clear -Hp.
  induction Hp as [|d p l l' H _ IH]; [done|]. cbn [map]. f_equal; [exact H|exact IH].
Qed.
(** A text that is also JSON does not arrive as the text. *)
Lemma json_text_changes s v : Unmarshal s = Some v -> v <> AStr s -> exists b, encodePayload Marshal (AStr s) = Ok b /\ decodePayload b <> AStr s.
Proof. intros Hu Hv. exists s. split; [done|]. unfold messaging.decodePayload. by rewrite Hu. Qed.
End mqtt_props.

(** ** Kafka *)

Record KafkaConn := MkKafkaConn { Brokers : list string; k_TLS : bool }.
Record dialer := MkDialer { d_tls : bool; d_sasl : option Login }.
Definition kafkaResolve (info : option (connInfo KafkaConn Login)) : res string (list string * dialer) :=
  '(c, cred) ← resolve info (fun c => bool_decide (Brokers c <> [])) (MkLogin "" "");
  Ok (Brokers c, MkDialer (k_TLS c) (if decide (Username cred = "") then None else Some cred)).

Record KafkaInConfig := MkKafkaInConfig { k_Topic : string; k_GroupID : string; k_StartOffset : string; k_ValueFormat : string }.
Definition newKafkaIn (c : KafkaInConfig) : res string KafkaInConfig :=
  _ ← guard_err (bool_decide (k_Topic c <> "")) "kafka-in: topic is required";
  _ ← guard_err (bool_decide (k_GroupID c <> "")) "kafka-in: groupID is required";
  let off := if decide (k_StartOffset c = "") then "latest" else k_StartOffset c in
  _ ← guard_err (bool_decide (off = "earliest" \/ off = "latest")) "kafka-in: startOffset";
  let fmt := if decide (k_ValueFormat c = "") then "json" else k_ValueFormat c in
  _ ← guard_err (bool_decide (fmt = "json" \/ fmt = "string" \/ fmt = "binary")) "kafka-in: valueFormat";
  Ok (MkKafkaInConfig (k_Topic c) (k_GroupID c) off fmt).
Record kmessage := MkKMessage { km_topic : string; km_key : string; km_value : string; km_headers : list (string * string) }.

Section kafka.
Context (Marshal : any -> option string) (Unmarshal : string -> option any).
Definition decodeValue (c : KafkaInConfig) (raw : string) : res string any :=
  if decide (k_ValueFormat c = "string") then Ok (AStr raw)
  else if decide (k_ValueFormat c = "binary") then Ok (AStr (string_of_bytes (EncodeToString (bytes_of_string raw))))
  else match Unmarshal raw with Some v => Ok v | None => Err "decoding JSON value" end.
Definition kafkaTags (m : kmessage) : gmap string string :=
  let t : gmap string string := {["kafka.topic" := km_topic m]} in
  let t := if decide (km_key m = "") then t else <["kafka.key" := km_key m]> t in
  fold_left (fun t h => <[h.1 := h.2]> t) (km_headers m) t.
Definition with_tags (d : dgram) (t : gmap string string) : dgram :=
  let h := header d in
  MkDatagram (MkHeader (ID h) (CorrelationID h) (CausationID h) (Timestamp h) (SourceTimestamp h)
                (source h) (SchemaRef h) (ContentType h) (quality h) (Priority h) (TTLMillis h) (Some t)) (payload d) (trace d).
(** What a read gives: a message, the end of the context, or an error. *)
Inductive kread := KMsg (m : kmessage) (id : string) (now : Z) (emitErr : option string) | KDone | KErr.
Fixpoint kafkaRun (c : KafkaInConfig) (reads : list kread) : list dgram * option (option string) :=
  match reads with
  | [] => ([], None)
  | KDone :: _ => ([], Some None)
  | KErr :: _ => ([], Some (Some "kafka-in: reading message"))
  | KMsg m id now emitErr :: rest =>
      match decodeValue c (km_value m) with
      | Ok v =>
          let d := with_tags (datagram.New id now (MkSource "" "kafka-in" "" "" "") (MkPayload v None)) (kafkaTags m) in
          match emitErr with
          | Some e => ([d], Some (Some e))
          | None => let '(l, e) := kafkaRun c rest in (d :: l, e)
          end
      | Err e => ([], Some (Some ("kafka-in: " +:+ e)))
      | Panic => ([], Some (Some "kafka-in"))
      end
  end.

Record KafkaOutConfig := MkKafkaOutConfig { ko_Topic : string; ko_KeyField : string }.
Definition newKafkaOut (c : KafkaOutConfig) : res string KafkaOutConfig :=
  _ ← guard_err (bool_decide (ko_Topic c <> "")) "kafka-out: topic is required"; Ok c.
Definition messageKey (c : KafkaOutConfig) (v : any) : string :=
  if decide (ko_KeyField c = "") then "" else
  match v with AMap m => match mget m (ko_KeyField c) with Some (AStr k) => k | _ => "" end | _ => "" end.
Record kafkaOut := MkKafkaOut { ko_conn : option ((list string * dialer) + string); ko_written : list kmessage }.
Definition kafkaConnect (n : kafkaOut) (info : option (connInfo KafkaConn Login)) : (list string * dialer) + string :=
  once (ko_conn n) (match kafkaResolve info with Ok r => inl r | Err e => inr e | Panic => inr "" end).
Definition kafkaProcess (c : KafkaOutConfig) (n : kafkaOut) (info : option (connInfo KafkaConn Login)) (ok : bool) (inp : dgram) : kafkaOut * nodeResult :=
  match kafkaConnect n info with
  | inr e => (MkKafkaOut (Some (inr e)) (ko_written n), Err ("kafka-out: " +:+ e))
  | inl w =>
      let n := MkKafkaOut (Some (inl w)) (ko_written n) in
      match Marshal (Value (payload inp)) with
      | None => (n, Err "kafka-out: encoding payload")
      | Some value =>
          if ok then (MkKafkaOut (ko_conn n) (ko_written n ++ [MkKMessage (ko_Topic c) (messageKey c (Value (payload inp))) value []]), Ok [MkPortDatagram "out" inp])
          else (n, Err "kafka-out: writing message")
      end
  end.
End kafka.

Section kafka_props.
Context (Marshal : any -> option string) (Unmarshal : string -> option any).
Definition readable (v : any) : Prop := exists b, Marshal v = Some b /\ Unmarshal b = Some v.
(** What kafka-out writes kafka-in reads: the same values in the same order, with the topic, and the key
    when there is one, as tags. *)
Theorem kafka_relays co ci info r ins ids clock : kafkaResolve info = Ok r -> k_ValueFormat ci = "json" ->
  Forall (fun d => readable (Value (payload d))) ins ->
  let w := fold_left (fun n d => (kafkaProcess Marshal co n info true d).1) ins (MkKafkaOut None []) in
  let reads := imap (fun i m => KMsg m (ids i) (clock i) None) (ko_written w) in
  let out := (kafkaRun Unmarshal ci reads).1 in
  map (fun d => Value (payload d)) out = map (fun d => Value (payload d)) ins /\
  map (fun d => default ∅ (Tags (header d))) out =
    map (fun d => let k := messageKey co (Value (payload d)) in
           (if decide (k = "") then ∅ else {["kafka.key" := k]}) ∪ {["kafka.topic" := ko_Topic co]}) ins.
Proof.
  intros Hi Hf Hr. cbv zeta.
  assert (forall ins0 n, Forall (fun d => readable (Value (payload d))) ins0 -> kafkaConnect n info = inl r -> exists l,
    ko_written (fold_left (fun n d => (kafkaProcess Marshal co n info true d).1) ins0 n) = ko_written n ++ l /\
    Forall2 (fun d m => Unmarshal (km_value m) = Some (Value (payload d)) /\ km_topic m = ko_Topic co /\
      km_key m = messageKey co (Value (payload d)) /\ km_headers m = []) ins0 l) as Hw.
  { induction ins0 as [|d ins0 IH]; intros n Hn Hc; cbn [fold_left].
    - exists []. by rewrite app_nil_r.
    - apply Forall_cons in Hn as [(b & Hb & Hu) Hn].
      assert ((kafkaProcess Marshal co n info true d).1 =
        MkKafkaOut (Some (inl r)) (ko_written n ++ [MkKMessage (ko_Topic co) (messageKey co (Value (payload d))) b []])) as E
        by (unfold kafkaProcess; rewrite Hc, Hb; done).
      rewrite E. edestruct (IH (MkKafkaOut (Some (inl r)) (ko_written n ++ [MkKMessage (ko_Topic co) (messageKey co (Value (payload d))) b []])))
        as (l & Hl & H2); [done|done|].
      rewrite Hl. cbn [ko_written]. rewrite <- app_assoc. eexists. split; [reflexivity|]. constructor; [done|exact H2]. }
  destruct (Hw ins (MkKafkaOut None [])) as (l & E & H2); [done|unfold kafkaConnect, once; cbn; by rewrite Hi|]. rewrite E. cbn [ko_written app].
  clear -Hf H2. revert ids clock. induction H2 as [|d m ins l (Hu & Ht & Hk & Hh) _ IH]; intros ids clock; [done|]. cbn.
  unfold decodeValue. rewrite Hf, decide_False, decide_False, Hu by done. specialize (IH (ids ∘ S) (clock ∘ S)).
  destruct (kafkaRun Unmarshal ci _) as [out e]. cbn in IH |- *. destruct IH as [IH1 IH2]. split; [by f_equal|].
  f_equal; [|done]. unfold kafkaTags. rewrite Hh, Ht, Hk. cbn. destruct (decide (messageKey co (Value (payload d)) = "")).
  - by rewrite (left_id_L ∅ (∪)).
  - by rewrite insert_union_singleton_l.
Qed.
(** One message whose value does not parse ends the source: nothing after it is emitted. *)
Lemma bad_message_ends c m id now emitErr rest : k_ValueFormat c = "json" -> Unmarshal (km_value m) = None ->
  exists e, kafkaRun Unmarshal c (KMsg m id now emitErr :: rest) = ([], Some (Some e)).
Proof. intros Hf Hu. cbn. unfold decodeValue. rewrite Hf, decide_False, decide_False, Hu by done. eauto. Qed.
(** Headers of a message replace the tags of the node. *)
Lemma header_replaces_topic m v : km_headers m = [("kafka.topic", v)] -> kafkaTags m !! "kafka.topic" = Some v.
Proof. intros E. unfold kafkaTags. rewrite E. cbn. apply lookup_insert_eq. Qed.
End kafka_props.

(** ** Redis *)

Record RedisConn := MkRedisConn { r_Host : string; r_Port : Z; r_DB : Z }.
Record redisOptions := MkRedisOptions { ro_addr : string; ro_login : Login; ro_db : Z }.
Definition redisOptions_of (info : option (connInfo RedisConn Login)) : res string redisOptions :=
  '(c, cred) ← resolve info (fun c => bool_decide (r_Host c <> "")) (MkLogin "" "");
  let port := if r_Port c =? 0 then 6379 else r_Port c in
  Ok (MkRedisOptions (r_Host c +:+ ":" +:+ string_of_bytes (FormatInt port)) cred (r_DB c)).
Definition redisConnect (info : option (connInfo RedisConn Login)) (l : list attempt) : option (redisOptions + string) :=
  match redisOptions_of info with
  | Ok o => match connectLoop l with Some (inl _) => Some (inl o) | Some (inr e) => Some (inr e) | None => None end
  | Err e => Some (inr e)
  | Panic => None
  end.

Record RedisConfig := MkRedisConfig { rs_Mode : string; rs_Key : string; rs_KeyPattern : string; rs_IntervalMs : Z; rs_Channel : string; rs_StreamKey : string }.
Definition newRedisSource (c : RedisConfig) : res string RedisConfig :=
  if decide (rs_Mode c = "poll") then
    _ ← guard_err (bool_decide (rs_Key c <> "" \/ rs_KeyPattern c <> "")) "redis-source: key or keyPattern is required";
    _ ← guard_err (0 <? rs_IntervalMs c) "redis-source: intervalMs must be positive"; Ok c
  else if decide (rs_Mode c = "subscribe") then
    _ ← guard_err (bool_decide (rs_Channel c <> "")) "redis-source: channel is required"; Ok c
  else if decide (rs_Mode c = "stream") then
    _ ← guard_err (bool_decide (rs_StreamKey c <> "")) "redis-source: streamKey is required"; Ok c
  else Err "redis-source: mode must be poll, subscribe or stream".

(** An entry of a stream: its id and its fields. *)
Abbreviation entry := (string * any)%type.
Section redis_source.
(** The id and the clock of the [k]-th datagram, and the outcome of its emission. *)
Context (ids : nat -> string) (clock : nat -> Z) (emit : nat -> option string).
Definition redisDatagram (k : nat) (v : any) : dgram := datagram.New (ids k) (clock k) (MkSource "" "redis-source" "" "" "") (MkPayload v None).
(** The answer of a GET: no such key, an error, or the value. *)
Inductive gotten := GNil | GErr | GVal (v : string).
(** What was emitted, with the outcome. *)
Definition emission (out : list dgram) (v : any) : list dgram * option string :=
  (out ++ [redisDatagram (length out) v], emit (length out)).
Definition pollKey (get : string -> gotten) (out : list dgram) (key : string) : list dgram * option string :=
  match get key with
  | GNil => (out, None)
  | GErr => (out, Some ("redis-source: GET " +:+ key))
  | GVal v => emission out (AMap [("key", AStr key); ("value", AStr v)])
  end.
Fixpoint pollKeys (get : string -> gotten) (out : list dgram) (keys : list string) : list dgram * option string :=
  match keys with
  | [] => (out, None)
  | k :: ks => match pollKey get out k with (out, Some e) => (out, Some e) | (out, None) => pollKeys get out ks end
  end.
(** The pages of a SCAN, until the cursor is 0; [None] is an error. *)
Fixpoint pollPattern (get : string -> gotten) (out : list dgram) (pages : list (option (list string * Z))) : list dgram * option string :=
  match pages with
  | [] => (out, None)
  | None :: _ => (out, Some "redis-source: SCAN")
  | Some (keys, next) :: rest =>
      match pollKeys get out keys with
      | (out, Some e) => (out, Some e)
      | (out, None) => if next =? 0 then (out, None) else pollPattern get out rest
      end
  end.
(** A poll: what GET answers at the time, and the pages of the scan. *)
Record rpoll := MkRPoll { rp_done : bool; rp_get : string -> gotten; rp_pages : list (option (list string * Z)) }.
Definition poll (c : RedisConfig) (p : rpoll) (out : list dgram) : list dgram * option string :=
  if decide (rs_KeyPattern c = "") then pollKey (rp_get p) out (rs_Key c) else pollPattern (rp_get p) out (rp_pages p).
(** [runPoll] after its first poll: a tick, or the end of the context. *)
Fixpoint pollTicks (c : RedisConfig) (out : list dgram) (ticks : list rpoll) : list dgram * option (option string) :=
  match ticks with
  | [] => (out, None)
  | t :: ts =>
      if rp_done t then (out, Some None) else
      match poll c t out with (out, Some e) => (out, Some (Some e)) | (out, None) => pollTicks c out ts end
  end.
(** [time.NewTicker] comes first: a period that wraps around panics ([None] in front). *)
Definition runPoll (c : RedisConfig) (first : rpoll) (ticks : list rpoll) : option (list dgram * option (option string)) :=
  if s64 (rs_IntervalMs c * 1000000) <=? 0 then None else
  Some (match poll c first [] with (out, Some e) => (out, Some (Some e)) | (out, None) => pollTicks c out ticks end).
(** [runSubscribe]: messages of the channel, its end, or the end of the context. *)
Inductive pubsub := PMsg (channel body : string) | PClosed | PDone.
Fixpoint runSubscribe (out : list dgram) (evs : list pubsub) : list dgram * option (option string) :=
  match evs with
  | [] => (out, None)
  | PMsg ch b :: rest =>
      match emission out (AMap [("channel", AStr ch); ("payload", AStr b)]) with
      | (out, Some e) => (out, Some (Some e))
      | (out, None) => runSubscribe out rest
      end
  | _ :: _ => (out, Some None)
  end.

(** [runStream]; [x_answer] is what XREAD gives for the last id. *)
Inductive xanswer := XNil | XErr (ctxDone : bool) | XEntries (l : list entry).
Record xturn := MkXTurn { x_done : bool; x_answer : string -> xanswer }.
Fixpoint emitEntries (lastID : string) (out : list dgram) (l : list entry) : string * list dgram * option string :=
  match l with
  | [] => (lastID, out, None)
  | (id, v) :: l' =>
      match emission out (AMap [("id", AStr id); ("values", v)]) with
      | (out, Some e) => (id, out, Some e)
      | (out, None) => emitEntries id out l'
      end
  end.
Fixpoint streamLoop (lastID : string) (out : list dgram) (turns : list xturn) : string * list dgram * option (option string) :=
  match turns with
  | [] => (lastID, out, None)
  | t :: ts =>
      if x_done t then (lastID, out, Some None) else
      match x_answer t lastID with
      | XNil => streamLoop lastID out ts
      | XErr done => (lastID, out, Some (if done : bool then None else Some "redis-source: XREAD"))
      | XEntries l =>
          match emitEntries lastID out l with
          | (id, out, Some e) => (id, out, Some (Some e))
          | (id, out, None) => streamLoop id out ts
          end
      end
  end.
Definition runStream (turns : list xturn) : string * list dgram * option (option string) := streamLoop "$" [] turns.
End redis_source.

Record RedisSinkConfig := MkRedisSinkConfig { rk_Mode : string; rk_Key : string; rk_ValueField : string; rk_TTLMs : Z; rk_Channel : string; rk_StreamKey : string }.
Definition newRedisSink (c : RedisSinkConfig) : res string RedisSinkConfig :=
  if decide (rk_Mode c = "set") then _ ← guard_err (bool_decide (rk_Key c <> "")) "redis-sink: key is required"; Ok c
  else if decide (rk_Mode c = "publish") then _ ← guard_err (bool_decide (rk_Channel c <> "")) "redis-sink: channel is required"; Ok c
  else if decide (rk_Mode c = "streamAdd") then _ ← guard_err (bool_decide (rk_StreamKey c <> "")) "redis-sink: streamKey is required"; Ok c
  else Err "redis-sink: mode must be set, publish or streamAdd".
(** The command that is sent. *)
Inductive command := CSet (key value : string) (ttl : Z) | CPublish (channel body : string) | CXAdd (stream : string) (fields : list (string * any)).
Section redis_sink.
Context (Marshal : any -> option string) (sprint : any -> string).
Definition stringValue (c : RedisSinkConfig) (inp : dgram) : string :=
  let v := match Value (payload inp) with
           | AMap m => if decide (rk_ValueField c = "") then AMap m else default ANil (mget m (rk_ValueField c))
           | v => v
           end in
  match v with AStr s => s | _ => match Marshal v with Some b => b | None => sprint v end end.
Definition doSet (c : RedisSinkConfig) (inp : dgram) : command :=
  let key := match Value (payload inp) with
             | AMap m => match mget m "key" with Some (AStr s) => if decide (rk_Key c = "") then s else rk_Key c | _ => rk_Key c end
             | _ => rk_Key c
             end in
  CSet key (stringValue c inp) (if 0 <? rk_TTLMs c then s64 (rk_TTLMs c * 1000000) else 0).
(** The command for a datagram; [None] for a mode that [New] does not let through. *)
Definition redisCommand (c : RedisSinkConfig) (inp : dgram) : res string (option command) :=
  if decide (rk_Mode c = "set") then Ok (Some (doSet c inp))
  else if decide (rk_Mode c = "publish") then Ok (Some (CPublish (rk_Channel c) (stringValue c inp)))
  else if decide (rk_Mode c = "streamAdd") then
    match Value (payload inp) with AMap m => Ok (Some (CXAdd (rk_StreamKey c) m)) | _ => Err "redis-sink: streamAdd requires an object payload" end
  else Ok None.
Record redisSink := MkRedisSink { rk_conn : option (redisOptions + string); rk_done : list command }.
Definition redisProcess (c : RedisSinkConfig) (n : redisSink) (dial : redisOptions + string) (ok : bool) (inp : dgram) : redisSink * nodeResult :=
  match once (rk_conn n) dial with
  | inr e => (MkRedisSink (Some (inr e)) (rk_done n), Err ("redis-sink: " +:+ e))
  | inl o =>
      let n := MkRedisSink (Some (inl o)) (rk_done n) in
      match redisCommand c inp with
      | Ok (Some cmd) => if ok then (MkRedisSink (rk_conn n) (rk_done n ++ [cmd]), Ok [MkPortDatagram "out" inp]) else (n, Err "redis-sink")
      | Ok None => (n, Ok [MkPortDatagram "out" inp])
      | Err e => (n, Err e)
      | Panic => (n, Panic)
      end
  end.
End redis_sink.

(** ** Redis streams *)

Section stream.
Context (ids : nat -> string) (clock : nat -> Z) (emit : nat -> option string).
(** The stream in the end, oldest entry first. *)
Context (log : list entry).

Definition entryValue (e : entry) : any := AMap [("id", AStr e.1); ("values", e.2)].
Definition vals (out : list dgram) : list any := map (fun d => Value (payload d)) out.
Definition answer_of (l : list entry) : xanswer := match l with [] => XNil | _ => XEntries (take 100 l) end.
(** XREAD, of a call that begins with [a] entries in the stream and ends with [b]: after an id, the
    first entries that follow it; after "$", the entries that were added during the call. *)
Definition serves (t : xturn) : Prop := x_done t = false -> exists a b,
  x_answer t "$" = answer_of (drop a (take b log)) /\
  forall k e, log !! k = Some e -> x_answer t e.1 = answer_of (drop (S k) (take b log)).

Lemma emitEntries_spec l : forall lastID out id out' err, emitEntries ids clock emit lastID out l = (id, out', err) ->
  exists n, vals out' = vals out ++ map entryValue (take n l) /\ (err = None -> n = length l) /\
    if decide (n = 0%nat) then id = lastID else exists e, l !! pred n = Some e /\ id = e.1.
Proof.
  induction l as [|[i v] l IH]; intros lastID out id out' err; cbn.
  - intros [= <- <- <-]. exists 0%nat. by rewrite app_nil_r.
  - unfold emission. destruct (emit (length out)) as [e|].
    + intros [= <- <- <-]. exists 1%nat. unfold vals. rewrite map_app. split_and!; [done|done|]. by exists (i, v).
    + intros H. destruct (IH _ _ _ _ _ H) as (n & Hv & He & Hi). exists (S n). split_and!.
      * rewrite Hv. unfold vals. rewrite map_app, <- app_assoc. done.
      * intros E. by rewrite (He E).
      * destruct (decide (n = 0%nat)) as [-> |Hn]; cbn; [by exists (i, v)|]. destruct n; [done|]. exact Hi.
Qed.

(** Where the reader stands: nothing read yet, or at entry [k] with everything from [m] on emitted. *)
Definition at_entry (lastID : string) (out : list dgram) : Prop :=
  (lastID = "$" /\ out = []) \/
  exists m k e, log !! k = Some e /\ lastID = e.1 /\ (m <= k)%nat /\ vals out = map entryValue (drop m (take (S k) log)).
Lemma answer_prefix j b : take 100 (drop j (take b log)) `prefix_of` drop j log.
Proof.
  etransitivity; [exists (drop 100 (drop j (take b log))); symmetry; apply take_drop|].
  rewrite <- (take_drop b log) at 2. rewrite drop_app. by eexists.
Qed.
(** Emitting the first [n] entries of an answer. *)
Lemma segment_grows m j n b e : (m <= j)%nat -> (j <= length log)%nat -> n <> 0%nat ->
  take 100 (drop j (take b log)) !! pred n = Some e ->
  log !! (j + pred n)%nat = Some e /\
  drop m (take j log) ++ take n (take 100 (drop j (take b log))) = drop m (take (S (j + pred n)) log).
Proof.
  intros Hm Hj Hn He. destruct (answer_prefix j b) as [r Hr]. set (l := take 100 (drop j (take b log))) in *. split.
  - rewrite <- lookup_drop, Hr. by apply lookup_app_l_Some.
  - apply lookup_lt_Some in He.
    assert (log = (take j log ++ take n l) ++ (drop n l ++ r)) as E.
    { rewrite <- app_assoc, (app_assoc (take n l)), take_drop, <- Hr. symmetry. apply take_drop. }
    rewrite E at 2. rewrite take_app_length' by (rewrite length_app, !length_take; lia).
    rewrite drop_app_le by (rewrite length_take; lia). done.
Qed.
Lemma answer_steps t lastID out l id out' err : serves t -> x_done t = false -> at_entry lastID out -> x_answer t lastID = XEntries l ->
  emitEntries ids clock emit lastID out l = (id, out', err) -> at_entry id out'.
Proof.
  intros Hs Hd Hat Hx Hem. destruct (Hs Hd) as (a & b & H0 & Hk).
  destruct (emitEntries_spec _ _ _ _ _ _ Hem) as (n & Hv & _ & Hid).
  assert (exists m j, (m <= j <= length log)%nat /\ vals out = map entryValue (drop m (take j log)) /\ l = take 100 (drop j (take b log))) as (m & j & [Hm Hj] & Ho & Hl).
  { destruct Hat as [[-> ->] | (m & k & e & He & -> & Hmk & Ho)].
    - rewrite H0 in Hx. destruct (drop a (take b log)) as [|e0 l0] eqn:E; [done|]. injection Hx as <-.
      assert (a < length log)%nat.
      { assert (length (drop a (take b log)) <> 0%nat) as Hl by (by rewrite E). rewrite length_drop, length_take in Hl. lia. }
      exists a, a. rewrite E. split_and!; [lia|lia| |done]. rewrite drop_ge; [done|]. rewrite length_take. lia.
    - rewrite (Hk k e He) in Hx. destruct (drop (S k) (take b log)) as [|e0 l0] eqn:E; [done|]. injection Hx as <-.
      exists m, (S k). rewrite E. apply lookup_lt_Some in He. split_and!; [lia|lia|done|done]. }
  destruct (decide (n = 0%nat)) as [-> |Hn].
  - subst id. destruct Hat as [[-> ->] | (m' & k & e & He & -> & Hmk & Ho')].
    + left. split; [done|]. by destruct out'.
    + right. exists m', k, e. rewrite Hv, app_nil_r. done.
  - destruct Hid as (e & He & ->). subst l. destruct (segment_grows m j n b e Hm Hj Hn He) as [H1 H2].
    right. exists m, (j + pred n)%nat, e. split_and!; [done|done|lia|]. by rewrite Hv, Ho, <- map_app, H2.
Qed.
(** Whatever the timing of the calls, and wherever an emission fails: once the source has read an entry it
    misses none, repeats none and keeps their order; what it has emitted is a segment of the stream. *)
Theorem stream_contiguous turns : Forall serves turns ->
  exists m n, vals (runStream ids clock emit turns).1.2 = map entryValue (take n (drop m log)).
Proof.
  intros Hs. unfold runStream.
  assert (forall lastID out, at_entry lastID out -> at_entry (streamLoop ids clock emit lastID out turns).1.1 (streamLoop ids clock emit lastID out turns).1.2) as Hg.
  { induction Hs as [|t turns Ht _ IH]; intros lastID out Hat; cbn; [done|].
    destruct (x_done t) eqn:Hd; [done|]. destruct (x_answer t lastID) as [| |l] eqn:Hx; [by apply IH|done|].
    destruct (emitEntries ids clock emit lastID out l) as [[id out'] err] eqn:Hem.
    pose proof (answer_steps t lastID out l id out' err Ht Hd Hat Hx Hem) as Hat'. destruct err; [done|by apply IH]. }
  destruct (Hg "$" [] ltac:(by left)) as [[_ ->] | (m & k & e & _ & _ & Hmk & ->)].
  - by exists 0%nat, 0%nat.
  - exists m, (S k - m)%nat. do 2 f_equal. rewrite take_drop_commute. do 2 f_equal. lia.
Qed.
End stream.

(** Until then entries are missed: "$" is passed again after a call that timed out, and an entry that is
    added between the two calls is in neither answer. *)
Definition gapDemo : list xturn :=
  [MkXTurn false (fun _ => XNil); MkXTurn false (fun id => if decide (id = "$" \/ id = "1-0") then XEntries [("2-0", ANil)] else XNil)].
Lemma entry_between_reads_lost (ids : nat -> string) (clock : nat -> Z) :
  Forall (serves [("1-0", ANil); ("2-0", ANil)]) gapDemo /\
  vals (runStream ids clock (fun _ => None) gapDemo).1.2 = [entryValue ("2-0", ANil)].
Proof.
  split; [|done]. repeat constructor; intros _.
  - exists 0%nat, 0%nat. split; [done|]. by intros [|[|]] e.
  - exists 1%nat, 2%nat. split; [done|]. by intros [|[|]] e [= <-].
Qed.

(** The key of a SET is the configured text for every datagram, whatever it holds: there is no template,
    and the payload's own key is never used. *)
Lemma set_key_literal Marshal sprint c c' inp : newRedisSink c = Ok c' -> rk_Mode c = "set" ->
  exists v ttl, redisCommand Marshal sprint c' inp = Ok (Some (CSet (rk_Key c) v ttl)).
Proof.
  unfold newRedisSink. intros H Hm. rewrite Hm, decide_True in H by done.
  destruct (bool_decide_reflect (rk_Key c <> "")) as [Hk|]; cbn in H; [|done]. injection H as <-.
  unfold redisCommand. rewrite Hm, decide_True by done. unfold doSet. do 2 eexists. do 3 f_equal.
  destruct (Value (payload inp)); try done. destruct (mget _ _) as [[]|]; try done. by rewrite decide_False.
Qed.
End messaging.
