(* ===== verification/DataStores.v ===== *)
(** * Document and object stores, OPC UA

    [engine/nodes/mongosource], [mongosink], [s3source], [s3sink], [opcuasource], [opcuasink] and the
    packages they share.  A bucket is a map from keys to contents, on which the operations of the
    client act or fail; the answers of the other servers are arguments. *)

From S2P Require Import Prelude Bytes GoStd Float Datagram Execution Value Expr Messaging.
Import gostd float datagram execution value.
Local Open Scope Z_scope.

Module datastores.
Import messaging.

(** ** MongoDB *)

Record MongoConn := MkMongoConn { g_Host : string; g_Port : Z; g_Database : string; g_AuthSource : string }.
(** The parts of the URI. *)
Record mongoURI := MkMongoURI { u_host : string; u_authSource : option string; u_login : option Login; u_database : string }.
Definition mongoURI_of (info : option (connInfo MongoConn Login)) : res string mongoURI :=
  '(c, cred) ← resolve info (fun c => bool_decide (g_Host c <> "" /\ g_Database c <> "")) (MkLogin "" "");
  let port := if g_Port c =? 0 then 27017 else g_Port c in
  Ok (MkMongoURI (g_Host c +:+ ":" +:+ string_of_bytes (FormatInt port)) (if decide (g_AuthSource c = "") then None else Some (g_AuthSource c))
        (if decide (Username cred = "") then None else Some cred) (g_Database c)).
(** [opened]: what [mongo.Connect] answers. *)
Definition mongoConnect (info : option (connInfo MongoConn Login)) (opened : bool) (l : list attempt) : option (mongoURI + string) :=
  match mongoURI_of info with
  | Ok u =>
      if opened then match connectLoop l with Some (inl _) => Some (inl u) | Some (inr e) => Some (inr e) | None => None end
      else Some (inr "mongoshared: opening connection")
  | Err e => Some (inr e)
  | Panic => None
  end.

(** What a decoded document holds: [BForeign] is any other type of the driver, such as an ordered
    document or a decimal; [BPlain] a value JSON has. *)
Inductive bson :=
| BObjectID (hex : string)
| BDateTime (t : Z)
| BTime (t : Z)
| BBinary (b : bytes)
| BM (m : list (string * bson))
| BMap (m : list (string * bson))
| BA (l : list bson)
| BArr (l : list bson)
| BPlain (v : any)
| BForeign (kind : string).
Section normalize.
Context (rfc3339nano : Z -> string).
Fixpoint NormalizeValue (v : bson) : bson :=
  match v with
  | BObjectID h => BPlain (AStr h)
  | BDateTime t | BTime t => BPlain (AStr (rfc3339nano t))
  | BBinary b => BPlain (AStr (string_of_bytes (EncodeToString b)))
  | BM m | BMap m => BMap (map (fun kv => (kv.1, NormalizeValue kv.2)) m)
  | BA l | BArr l => BArr (map NormalizeValue l)
  | BPlain _ | BForeign _ => v
  end.
End normalize.
(** A value the datagram's JSON can carry. *)
Fixpoint plain (v : bson) : bool :=
  match v with
  | BMap m => forallb (fun kv => plain kv.2) m
  | BArr l => forallb plain l
  | BPlain _ => true
  | _ => false
  end.
(** A value without types the function does not know. *)
Fixpoint known (v : bson) : bool :=
  match v with
  | BM m | BMap m => forallb (fun kv => known kv.2) m
  | BA l | BArr l => forallb known l
  | BForeign _ => false
  | _ => true
  end.
Fixpoint bson_rect' (P : bson -> Prop) (HM : forall m, Forall (fun kv => P kv.2) m -> P (BM m) /\ P (BMap m))
    (HA : forall l, Forall P l -> P (BA l) /\ P (BArr l)) (H0 : forall v, match v with BM _ | BMap _ | BA _ | BArr _ => True | _ => P v end) (v : bson) : P v :=
  let recm := fix recm (m : list (string * bson)) : Forall (fun kv => P kv.2) m :=
    match m with [] => Forall_nil_2 _ | kv :: m' => Forall_cons_2 _ _ _ (bson_rect' P HM HA H0 kv.2) (recm m') end in
  let recl := fix recl (l : list bson) : Forall P l :=
    match l with [] => Forall_nil_2 _ | v :: l' => Forall_cons_2 _ _ _ (bson_rect' P HM HA H0 v) (recl l') end in
  match v with
  | BM m => proj1 (HM m (recm m)) | BMap m => proj2 (HM m (recm m))
  | BA l => proj1 (HA l (recl l)) | BArr l => proj2 (HA l (recl l))
  | BObjectID h => H0 (BObjectID h) | BDateTime t => H0 (BDateTime t) | BTime t => H0 (BTime t) | BBinary b => H0 (BBinary b)
  | BPlain v => H0 (BPlain v) | BForeign k => H0 (BForeign k)
  end.
(** Every document of the types that are known becomes a value that JSON can carry, and normalizing it
    again changes nothing; a value of another type anywhere in it survives. *)
Theorem normalize_plain rfc v : plain (NormalizeValue rfc v) = known v /\ NormalizeValue rfc (NormalizeValue rfc v) = NormalizeValue rfc v.
Proof.
  revert v. apply bson_rect'; [intros m IH|intros l IH|intros v; by destruct v].
  - assert (forallb (fun kv => plain kv.2) (map (fun kv => (kv.1, NormalizeValue rfc kv.2)) m) = forallb (fun kv => known kv.2) m /\
      map (fun kv => (kv.1, NormalizeValue rfc kv.2)) (map (fun kv => (kv.1, NormalizeValue rfc kv.2)) m) = map (fun kv => (kv.1, NormalizeValue rfc kv.2)) m) as [H1 H2].
    { induction IH as [|[k x] m [E1 E2] _ [IH1 IH2]]; [done|]. cbn in *. by rewrite E1, E2, IH1, IH2. }
    cbn. by rewrite H1, H2.
  - assert (forallb plain (map (NormalizeValue rfc) l) = forallb known l /\ map (NormalizeValue rfc) (map (NormalizeValue rfc) l) = map (NormalizeValue rfc) l) as [H1 H2].
    { induction IH as [|x l [E1 E2] _ [IH1 IH2]]; [done|]. cbn in *. by rewrite E1, E2, IH1, IH2. }
    cbn. by rewrite H1, H2.
Qed.

Record MongoSourceConfig := MkMongoSourceConfig { ms_Mode : string; ms_Collection : string; ms_Operation : string; ms_Filter : string; ms_Pipeline : list string; ms_IntervalMs : Z }.
Definition newMongoSource (c : MongoSourceConfig) : res string MongoSourceConfig :=
  _ ← guard_err (bool_decide (ms_Collection c <> "")) "mongo-source: collection is required";
  _ ← (if decide (ms_Mode c = "once") then Ok tt
       else if decide (ms_Mode c = "periodic") then guard_err (0 <? ms_IntervalMs c) "mongo-source: intervalMs must be positive"
       else Err "mongo-source: mode must be once or periodic");
  let op := if decide (ms_Operation c = "") then "find" else ms_Operation c in
  _ ← guard_err (bool_decide (op = "find" \/ op = "aggregate")) "mongo-source: operation must be find or aggregate";
  Ok (MkMongoSourceConfig (ms_Mode c) (ms_Collection c) op (ms_Filter c) (ms_Pipeline c) (ms_IntervalMs c)).

Section mongo_source.
(** [bson.UnmarshalExtJSON] on a document; the text of an instant; ids, clock and outcome of each emission. *)
Context (UnmarshalExtJSON : string -> option (list (string * bson))) (rfc3339nano : Z -> string).
Context (ids : nat -> string) (clock : nat -> Z) (emit : nat -> option string).
Definition decodeFilter (raw : string) : res string (list (string * bson)) :=
  if decide (raw = "") then Ok [] else match UnmarshalExtJSON raw with Some m => Ok m | None => Err "mongo-source: parsing filter" end.
(** What is sent to the server: a filter, or the stages of a pipeline. *)
Inductive mquery := QFind (filter : list (string * bson)) | QAggregate (stages : list (list (string * bson))).
Definition query_of (c : MongoSourceConfig) : res string mquery :=
  if decide (ms_Operation c = "aggregate") then
    stages ← res_mapM (fun s => match UnmarshalExtJSON s with Some m => Ok m | None => Err "mongo-source: parsing pipeline stage" end) (ms_Pipeline c);
    Ok (QAggregate stages)
  else f ← decodeFilter (ms_Filter c); Ok (QFind f).
(** The server's answer: the documents of the cursor, [None] for one that does not decode, and the error
    the cursor ends with, if any. *)
Record cursor := MkCursor { cu_docs : list (option (list (string * bson))); cu_err : option string }.
Fixpoint emitDocs (toAny : bson -> any) (out : list dgram) (docs : list (option (list (string * bson)))) : list dgram * option string :=
  match docs with
  | [] => (out, None)
  | None :: _ => (out, Some "mongo-source: decoding document")
  | Some doc :: rest =>
      let k := length out in
      let d := datagram.New (ids k) (clock k) (MkSource "" "mongo-source" "" "" "") (MkPayload (toAny (NormalizeValue rfc3339nano (BM doc))) None) in
      match emit k with
      | Some e => (out ++ [d], Some e)
      | None => emitDocs toAny (out ++ [d]) rest
      end
  end.
Definition runQuery (toAny : bson -> any) (c : MongoSourceConfig) (server : mquery -> option cursor) (out : list dgram) : list dgram * option string :=
  match query_of c with
  | Ok q =>
      match server q with
      | None => (out, Some "mongo-source: query")
      | Some cu => match emitDocs toAny out (cu_docs cu) with (out, Some e) => (out, Some e) | (out, None) => (out, cu_err cu) end
      end
  | Err e => (out, Some e)
  | Panic => (out, Some "")
  end.
Fixpoint mongoTicks (toAny : bson -> any) (c : MongoSourceConfig) (out : list dgram) (ticks : list (option (mquery -> option cursor))) : list dgram * option (option string) :=
  match ticks with
  | [] => (out, None)
  | None :: _ => (out, Some None)
  | Some server :: ts => match runQuery toAny c server out with (out, Some e) => (out, Some (Some e)) | (out, None) => mongoTicks toAny c out ts end
  end.
(** [None]: [NewTicker] panics on a period that wraps around. *)
Definition mongoRun (toAny : bson -> any) (c : MongoSourceConfig) (first : mquery -> option cursor) (ticks : list (option (mquery -> option cursor)))
  : option (list dgram * option (option string)) :=
  match runQuery toAny c first [] with
  | (out, Some e) => Some (out, Some (Some e))
  | (out, None) =>
      if decide (ms_Mode c = "once") then Some (out, Some None)
      else if s64 (ms_IntervalMs c * 1000000) <=? 0 then None else Some (mongoTicks toAny c out ticks)
  end.
End mongo_source.

Record MongoSinkConfig := MkMongoSinkConfig { mk_Mode : string; mk_Collection : string; mk_FilterFields : list string }.
Definition newMongoSink (c : MongoSinkConfig) : res string MongoSinkConfig :=
  _ ← guard_err (bool_decide (mk_Collection c <> "")) "mongo-sink: collection is required";
  if decide (mk_Mode c = "insert") then Ok c
  else if decide (mk_Mode c = "update" \/ mk_Mode c = "upsert") then
    _ ← guard_err (bool_decide (mk_FilterFields c <> [])) "mongo-sink: filterFields is required"; Ok c
  else Err "mongo-sink: mode must be insert, update or upsert".
Abbreviation doc := (list (string * any)).
Inductive mwrite := WInsert (d : doc) | WUpdate (flt upd : doc) (upsert : bool).
Definition contains (fields : list string) (name : string) : bool := bool_decide (name ∈ fields).
Definition batchDocs (v : any) : list doc :=
  match v with
  | AArr l => omap (fun x => match x with AMap m => Some m | _ => None end) l
  | AMap m => [m]
  | _ => []
  end.
Definition write_of (c : MongoSinkConfig) (d : doc) : res string mwrite :=
  if decide (mk_Mode c = "insert") then Ok (WInsert d)
  else if decide (mk_Mode c = "update" \/ mk_Mode c = "upsert") then
    Ok (WUpdate (filter (fun kv => contains (mk_FilterFields c) kv.1 = true) d) (filter (fun kv => contains (mk_FilterFields c) kv.1 = false) d)
          (bool_decide (mk_Mode c = "upsert")))
  else Err "unknown mode".
(** The writes that reached the collection; [accept] is the server's answer to the [k]-th. *)
Fixpoint writeDocs (c : MongoSinkConfig) (accept : nat -> bool) (done : list mwrite) (docs : list doc) : list mwrite * res string unit :=
  match docs with
  | [] => (done, Ok tt)
  | d :: ds =>
      match write_of c d with
      | Ok w => if accept (length done) then writeDocs c accept (done ++ [w]) ds else (done, Err "mongo-sink")
      | Err e => (done, Err e)
      | Panic => (done, Panic)
      end
  end.
Record mongoSink := MkMongoSink { mk_conn : option (mongoURI + string); mk_done : list mwrite }.
Definition mongoProcess (c : MongoSinkConfig) (n : mongoSink) (dial : mongoURI + string) (accept : nat -> bool) (inp : dgram) : mongoSink * nodeResult :=
  match once (mk_conn n) dial with
  | inr e => (MkMongoSink (Some (inr e)) (mk_done n), Err ("mongo-sink: " +:+ e))
  | inl u =>
      let '(done, r) := writeDocs c accept (mk_done n) (batchDocs (Value (payload inp))) in
      (MkMongoSink (Some (inl u)) done, passed inp r)
  end.

(** An update takes every field of the document to exactly one place: the filter or the changes. *)
Theorem update_partition c d flt upd up : write_of c d = Ok (WUpdate flt upd up) ->
  flt ++ upd ≡ₚ d /\ Forall (fun kv => kv.1 ∈ mk_FilterFields c) flt /\ Forall (fun kv => kv.1 ∉ mk_FilterFields c) upd.
Proof.
  unfold write_of. destruct (decide (mk_Mode c = "insert")); [done|].
  destruct (decide (mk_Mode c = "update" \/ mk_Mode c = "upsert")); [|done]. intros [= <- <- _]. split_and!.
  - clear. induction d as [|kv d IH]; [done|]. destruct (contains (mk_FilterFields c) kv.1) eqn:E.
    + rewrite filter_cons_True, filter_cons_False by (done || by rewrite E). by constructor.
    + rewrite filter_cons_False, filter_cons_True by (done || by rewrite E). rewrite <- Permutation_middle. by constructor.
  - apply Forall_forall. intros kv [Hc _]%list_elem_of_filter. by apply bool_decide_eq_true in Hc.
  - apply Forall_forall. intros kv [Hc _]%list_elem_of_filter. by apply bool_decide_eq_false in Hc.
Qed.
(** A batch is written document by document: the writes are those of its objects in order up to the first
    that is refused, and the node succeeds exactly if none is. *)
Theorem mongo_writes_prefix c accept done docs : (forall d, is_ok (write_of c d) = true) -> exists k,
  writeDocs c accept done docs = (done ++ omap (fun d => match write_of c d with Ok w => Some w | _ => None end) (take k docs), if decide (k = length docs) then Ok tt else Err "mongo-sink") /\
  (k <= length docs)%nat /\ (forall i, (i < k)%nat -> accept (length done + i)%nat = true) /\ (k <> length docs -> accept (length done + k)%nat = false).
Proof.
  intros Hw. revert done. induction docs as [|d ds IH]; intros done; cbn [writeDocs].
  - exists 0%nat. cbn. rewrite app_nil_r. split_and!; [done|lia|intros; lia|done].
  - pose proof (Hw d) as Hd. destruct (write_of c d) as [w|e|] eqn:E; try done.
    destruct (accept (length done)) eqn:Ea.
    + destruct (IH (done ++ [w])) as (k & H1 & H2 & H3 & H4). exists (S k). rewrite H1, length_app in *. cbn -[decide]. rewrite E, <- app_assoc. cbn -[decide].
      split_and!.
      * f_equal. repeat case_decide; try done; exfalso; lia.
      * lia.
      * intros [|i] Hi; [by rewrite Nat.add_0_r|]. replace (length done + S i)%nat with (length done + 1 + i)%nat by lia. apply H3. lia.
      * intros Hk. replace (length done + S k)%nat with (length done + 1 + k)%nat by lia. apply H4. lia.
    + exists 0%nat. cbn. rewrite app_nil_r, Nat.add_0_r. split_and!; [done|lia|intros; lia|done].
Qed.
(** So a batch that fails in the middle is written twice in part when it is retried. *)
Lemma retried_batch_duplicates : let d := datagram.New "1" 0 (MkSource "" "" "" "" "") (MkPayload (AArr [AMap [("a", AInt 1)]; AMap [("a", AInt 2)]]) None) in
  let c := MkMongoSinkConfig "insert" "t" [] in let u := inl (MkMongoURI "" None None "") in
  let '(n1, r1) := mongoProcess c (MkMongoSink None []) u (fun k => (k <? 1)%nat) d in
  let '(n2, r2) := mongoProcess c n1 u (fun _ => true) d in
  is_ok r1 = false /\ is_ok r2 = true /\ mk_done n2 = map WInsert [[("a", AInt 1)]; [("a", AInt 1)]; [("a", AInt 2)]].
Proof. by vm_compute. Qed.

(** ** S3 *)

Record S3Conn := MkS3Conn { s_Region : string; s_Bucket : string; s_Endpoint : string; s_PathStyle : bool }.
Record AccessKey := MkAccessKey { AccessKeyID : string; SecretAccessKey : string }.
Record s3Client := MkS3Client { cl_region : string; cl_bucket : string; cl_endpoint : option string; cl_pathStyle : bool; cl_key : option AccessKey }.
(** [loaded]: what [LoadDefaultConfig] answers. *)
Definition s3Connect (info : option (connInfo S3Conn AccessKey)) (loaded : bool) : res string s3Client :=
  '(c, cred) ← resolve info (fun c => bool_decide (s_Bucket c <> "")) (MkAccessKey "" "");
  let region := if decide (s_Region c = "") then "us-east-1" else s_Region c in
  _ ← guard_err loaded "s3shared: loading AWS config";
  Ok (MkS3Client region (s_Bucket c) (if decide (s_Endpoint c = "") then None else Some (s_Endpoint c)) (s_PathStyle c)
        (if decide (AccessKeyID cred = "") then None else Some cred)).

Record S3Config := MkS3Config { s3_Mode : string; s3_Prefix : string; s3_Format : string; s3_IntervalMs : Z; s3_PostAction : string; s3_MoveToPrefix : string }.
Definition newS3Source (c : S3Config) : res string S3Config :=
  _ ← (if decide (s3_Mode c = "once") then Ok tt
       else if decide (s3_Mode c = "periodic") then guard_err (0 <? s3_IntervalMs c) "s3-source: intervalMs must be positive"
       else Err "s3-source: mode must be once or periodic");
  _ ← guard_err (bool_decide (s3_Format c ∈ ["csv"; "tsv"; "json"; "jsonl"; "xml"; "xlsx"; "raw"])) "s3-source: unknown format";
  _ ← guard_err (negb (bool_decide (s3_PostAction c = "move" /\ s3_MoveToPrefix c = ""))) "s3-source: moveToPrefix is required"; Ok c.

(** The bucket, the node's [seen], the keys it has processed in order, and what it emitted. *)
Record s3World := MkS3World { bucket : gmap string bytes; seen : gset string; handled : list string; s3_out : list dgram }.
Section s3_source.
(** [recordformat.ParseRecords] with the node's options; ids, clock and outcome of each emission; whether
    GET, COPY and DELETE of a key succeed. *)
Context (parse : bytes -> res string (list any)) (ids : nat -> string) (clock : nat -> Z) (emit : nat -> option string) (get copy del : string -> bool).
Fixpoint emitRecords (key : string) (out : list dgram) (vs : list any) : list dgram * option string :=
  match vs with
  | [] => (out, None)
  | v :: vs' =>
      let k := length out in
      let d := datagram.New (ids k) (clock k) (MkSource "" "s3-source" "" "" key) (MkPayload v None) in
      match emit k with Some e => (out ++ [d], Some e) | None => emitRecords key (out ++ [d]) vs' end
  end.
Definition deleteObject (b : gmap string bytes) (key : string) : gmap string bytes * option string :=
  if del key then (delete key b, None) else (b, Some "DeleteObject").
Definition applyPostAction (c : S3Config) (b : gmap string bytes) (key : string) : gmap string bytes * option string :=
  if decide (s3_PostAction c = "" \/ s3_PostAction c = "keep") then (b, None)
  else if decide (s3_PostAction c = "delete") then deleteObject b key
  else if decide (s3_PostAction c = "move") then
    match b !! key with
    | Some v => if copy key then deleteObject (<[s3_MoveToPrefix c +:+ key := v]> b) key else (b, Some "copying")
    | None => (b, Some "copying")
    end
  else (b, Some "unknown postAction").
Definition processObject (c : S3Config) (w : s3World) (key : string) : s3World * option string :=
  match (if get key then bucket w !! key else None) with
  | None => (w, Some "s3-source: getting object")
  | Some raw =>
      match parse raw with
      | Ok vs =>
          let '(out, e) := emitRecords key (s3_out w) vs in
          let w := MkS3World (bucket w) (seen w) (handled w) out in
          match e with
          | Some e => (w, Some e)
          | None => let '(b, e) := applyPostAction c (bucket w) key in (MkS3World b (seen w) (handled w ++ [key]) (s3_out w), e)
          end
      | Err e => (w, Some ("s3-source: parsing object: " +:+ e))
      | Panic => (w, Some "panic")
      end
  end.
(** The objects of a page. *)
Fixpoint scanKeys (c : S3Config) (w : s3World) (keys : list string) : s3World * option string :=
  match keys with
  | [] => (w, None)
  | k :: ks =>
      if decide (k ∈ seen w) then scanKeys c w ks else
      let w := MkS3World (bucket w) ({[k]} ∪ seen w) (handled w) (s3_out w) in
      match processObject c w k with (w, Some e) => (w, Some e) | (w, None) => scanKeys c w ks end
  end.
(** The pages of a listing, each with whether it is truncated; [None] is an error. *)
Fixpoint scan (c : S3Config) (w : s3World) (pages : list (option (list string * bool))) : s3World * option string :=
  match pages with
  | [] => (w, None)
  | None :: _ => (w, Some "s3-source: listing objects")
  | Some (keys, truncated) :: rest =>
      match scanKeys c w keys with
      | (w, Some e) => (w, Some e)
      | (w, None) => if truncated : bool then scan c w rest else (w, None)
      end
  end.
Fixpoint s3Ticks (c : S3Config) (w : s3World) (ticks : list (option (list (option (list string * bool))))) : s3World * option (option string) :=
  match ticks with
  | [] => (w, None)
  | None :: _ => (w, Some None)
  | Some pages :: ts => match scan c w pages with (w, Some e) => (w, Some (Some e)) | (w, None) => s3Ticks c w ts end
  end.
Definition s3Run (c : S3Config) (w : s3World) (first : list (option (list string * bool))) (ticks : list (option (list (option (list string * bool)))))
  : option (s3World * option (option string)) :=
  match scan c w first with
  | (w, Some e) => Some (w, Some (Some e))
  | (w, None) =>
      if decide (s3_Mode c = "once") then Some (w, Some None)
      else if s64 (s3_IntervalMs c * 1000000) <=? 0 then None else Some (s3Ticks c w ticks)
  end.

(** *** Each key once *)

Record s3_ok (w : s3World) : Prop := MkS3Ok { sk_once : NoDup (handled w); sk_seen : Forall (.∈ seen w) (handled w) }.
Lemma processObject_ok c w k w' e : s3_ok w -> k ∈ seen w -> k ∉ handled w -> processObject c w k = (w', e) ->
  s3_ok w' /\ seen w' = seen w /\ (e = None -> handled w' = handled w ++ [k]).
Proof.
  intros [Ho Hs] Hk Hn. unfold processObject. destruct (if get k then bucket w !! k else None) as [raw|]; [|by intros [= <- <-]].
  destruct (parse raw) as [vs|e0|]; [|by intros [= <- <-]..]. destruct (emitRecords k (s3_out w) vs) as [out [e0|]]; [by intros [= <- <-]|].
  cbn. destruct (applyPostAction c (bucket w) k) as [b e1]. intros [= <- <-]. split_and!; try done. split; cbn.
  - apply NoDup_app. split_and!; [done|by intros x Hx ->%list_elem_of_singleton|apply NoDup_singleton].
  - apply Forall_app. split; [done|]. by apply Forall_singleton.
Qed.
Lemma scanKeys_ok c keys : forall w w' e, s3_ok w -> scanKeys c w keys = (w', e) ->
  s3_ok w' /\ seen w ⊆ seen w' /\ (e = None -> Forall (.∈ seen w') keys /\
    exists ks, handled w' = handled w ++ ks /\ seen w' = seen w ∪ list_to_set ks /\ Forall (.∈ keys) ks).
Proof.
  induction keys as [|k keys IH]; intros w w' e Hok; cbn [scanKeys].
  - intros [= <- <-]. split_and!; [done|done|]. intros _. split; [constructor|]. exists []. rewrite app_nil_r. split_and!; [done|set_solver|done].
  - destruct (decide (k ∈ seen w)) as [Hin|Hin].
    + intros E. destruct (IH _ _ _ Hok E) as (H1 & H2 & H3). split_and!; [done|done|]. intros He. destruct (H3 He) as (H4 & ks & H5 & H6 & H7).
      split; [constructor; [set_solver|done]|]. exists ks. split_and!; [done|done|]. eapply Forall_impl; [exact H7|]. intros x Hx. by right.
    + set (w0 := MkS3World (bucket w) ({[k]} ∪ seen w) (handled w) (s3_out w)).
      assert (s3_ok w0 /\ k ∈ seen w0 /\ k ∉ handled w0) as (W1 & W2 & W3).
      { destruct Hok as [Ho Hs]. split_and!; [split; cbn; [done|]; eapply Forall_impl; [exact Hs|]; set_solver|set_solver|].
        intros Hx. rewrite Forall_forall in Hs. by apply Hin, Hs. }
      destruct (processObject c w0 k) as [w1 [e1|]] eqn:E.
      * intros [= <- <-]. destruct (processObject_ok c w0 k _ _ W1 W2 W3 E) as (H1 & H2 & _).
        split_and!; [done|rewrite H2; cbn; set_solver|done].
      * intros E2. destruct (processObject_ok c w0 k _ _ W1 W2 W3 E) as (H1 & H2 & H3).
        destruct (IH _ _ _ H1 E2) as (G1 & G2 & G3). rewrite H2 in G2. cbn in G2. split_and!; [done|set_solver|]. intros He.
        destruct (G3 He) as (G4 & ks & G5 & G6 & G7). split; [constructor; [set_solver|done]|]. exists (k :: ks). rewrite G5, H3 by done. cbn.
        rewrite <- app_assoc. split_and!; [done|rewrite G6, H2; cbn; set_solver|]. constructor; [by left|]. eapply Forall_impl; [exact G7|]. intros x Hx. by right.
Qed.

(** The keys of a listing: its pages up to the first that is not truncated. *)
Fixpoint listed (pages : list (option (list string * bool))) : list string :=
  match pages with
  | Some (keys, truncated) :: rest => keys ++ if truncated : bool then listed rest else []
  | _ => []
  end.
(** What the node has seen it has processed. *)
Definition settled (w : s3World) : Prop := s3_ok w /\ seen w = list_to_set (handled w).
Lemma scan_ok c pages : forall w w' e, settled w -> scan c w pages = (w', e) ->
  s3_ok w' /\ (e = None -> settled w' /\ handled w `prefix_of` handled w' /\ Forall (.∈ handled w') (listed pages)).
Proof.
  induction pages as [|[[keys tr]|] pages IH]; intros w w' e [Hok Hs]; cbn [scan listed].
  - intros [= <- <-]. split; [done|]. intros _. split_and!; [done|done|constructor].
  - destruct (scanKeys c w keys) as [w1 [e1|]] eqn:E; destruct (scanKeys_ok c keys _ _ _ Hok E) as (H1 & H2 & H3); [by intros [= <- <-]|].
    destruct (H3 eq_refl) as (H4 & ks & H5 & H6 & _).
    assert (settled w1) as Hs1. { split; [done|]. rewrite H6, H5, Hs, list_to_set_app_L. done. }
    assert (Forall (.∈ handled w1) keys) as Hk. { destruct Hs1 as [_ Hs1]. rewrite Hs1 in H4. eapply Forall_impl; [exact H4|]. intros x. cbn. set_solver. }
    destruct tr.
    + intros E2. destruct (IH _ _ _ Hs1 E2) as (G1 & G2). split; [done|]. intros He. destruct (G2 He) as (G3 & G4 & G5).
      split_and!; [done|etransitivity; [|exact G4]; rewrite H5; by eexists|]. apply Forall_app. split; [|done].
      destruct G4 as [k ->]. eapply Forall_impl; [exact Hk|]. intros x Hx. apply elem_of_app. by left.
    + intros [= <- <-]. split; [done|]. intros _. split_and!; [done|rewrite H5; by eexists|]. by rewrite app_nil_r.
  - intros [= <- <-]. done.
Qed.
(** Over any number of listings the node processes no key twice, and as long as it runs it has processed
    every key that was listed. *)
Theorem s3_each_once c ticks w r : forall w0, settled w0 -> s3Ticks c w0 ticks = (w, r) ->
  NoDup (handled w) /\
  (r = None -> handled w0 `prefix_of` handled w /\ Forall (fun t => Forall (.∈ handled w) (default [] (listed <$> t))) ticks).
Proof.
  induction ticks as [|[pages|] ticks IH]; intros w0 Hs; cbn [s3Ticks].
  - intros [= <- <-]. split; [apply Hs|]. intros _. split; [done|constructor].
  - destruct (scan c w0 pages) as [w1 [e1|]] eqn:E; destruct (scan_ok c pages _ _ _ Hs E) as [H1 H2].
    + intros [= <- <-]. split; [apply H1|done].
    + destruct (H2 eq_refl) as (H3 & H4 & H5). intros E2. destruct (IH _ H3 E2) as [G1 G2]. split; [done|]. intros Hr.
      destruct (G2 Hr) as [G3 G4]. split; [by etransitivity|]. constructor; [|done]. cbn. destruct G3 as [k ->].
      eapply Forall_impl; [exact H5|]. intros x Hx. apply elem_of_app. by left.
  - intros [= <- <-]. split; [apply Hs|done].
Qed.
End s3_source.

(** *** A target under the prefix *)

(** A scan whose listing is one page with the keys of the bucket under the prefix; every operation
    succeeds. *)
Definition scanAll (parse : bytes -> res string (list any)) (ids : nat -> string) (clock : nat -> Z) (c : S3Config) (w : s3World) : s3World * option string :=
  scan parse ids clock (fun _ => None) (fun _ => true) (fun _ => true) (fun _ => true) c w
    [Some (filter (fun k => String.prefix (s3_Prefix c) k = true) (elements (dom (bucket w))), false)].
Fixpoint moved (m : string) (n : nat) (k : string) : string := match n with O => k | S n => m +:+ moved m n k end.
Lemma moved_length m n k : m <> "" -> (n + String.length k <= String.length (moved m n k))%nat.
Proof.
  intros Hm. assert (forall a b, String.length (a +:+ b) = (String.length a + String.length b)%nat) as Hl.
  { intros a b. induction a as [|x a IH]; [done|]. change (S (String.length (a +:+ b)) = S (String.length a + String.length b)). by rewrite IH. }
  induction n as [|n IH]; cbn; [lia|]. rewrite Hl. destruct m; [done|]. cbn. lia.
Qed.
Lemma moved_ne m i j k : m <> "" -> (i < j)%nat -> moved m i k <> moved m j k.
Proof.
  intros Hm Hij. assert (forall j0 k0, (0 < j0)%nat -> k0 <> moved m j0 k0) as H0.
  { intros j0 k0 Hj E. pose proof (moved_length m j0 k0 Hm) as Hl. rewrite <- E in Hl. lia. }
  assert (moved m j k = moved m (j - i) (moved m i k)) as ->; [|apply H0; lia].
  assert (forall a b, moved m (a + b) k = moved m a (moved m b k)) as Ha by (intros a b; induction a; cbn; congruence).
  rewrite <- Ha. f_equal. lia.
Qed.
Lemma prefix_app p a b : String.prefix p a = true -> String.prefix p (a +:+ b) = true.
Proof.
  revert a. induction p as [|x p IH]; intros [|y a]; [by destruct b| |done|]; [by cbv [String.append]; destruct b|].
  change (String y a +:+ b) with (String y (a +:+ b)). cbn. destruct (Ascii.ascii_dec x y); [apply IH|done].
Qed.
Lemma emitRecords_ok ids clock key : forall vs out, (emitRecords ids clock (fun _ => None) key out vs).2 = None.
Proof. induction vs as [|v vs IH]; intros out; cbn; [done|apply IH]. Qed.
(** When objects are moved to a prefix that is itself under the prefix of the listing, the node finds
    them again under their new keys: with every scan it processes the object once more and moves it one
    level deeper, without end. *)
Theorem move_under_prefix parse ids clock c k v vs n : s3_PostAction c = "move" -> s3_MoveToPrefix c <> "" ->
  String.prefix (s3_Prefix c) (s3_MoveToPrefix c) = true -> String.prefix (s3_Prefix c) k = true -> parse v = Ok vs ->
  let w := Nat.iter n (fun w => (scanAll parse ids clock c w).1) (MkS3World {[k := v]} ∅ [] []) in
  bucket w = {[moved (s3_MoveToPrefix c) n k := v]} /\ handled w = map (fun i => moved (s3_MoveToPrefix c) i k) (seq 0 n).
Proof.
  intros Hp Hm Hpm Hpk Hv. cbv zeta. set (m := s3_MoveToPrefix c) in *.
  set (F := fun w => (scanAll parse ids clock c w).1). set (w0 := MkS3World {[k := v]} ∅ [] []).
  assert (bucket (Nat.iter n F w0) = {[moved m n k := v]} /\ handled (Nat.iter n F w0) = map (fun i => moved m i k) (seq 0 n) /\
    seen (Nat.iter n F w0) = list_to_set (map (fun i => moved m i k) (seq 0 n))) as (H1 & H2 & _); [|done].
  induction n as [|n (IH1 & IH2 & IH3)]; [done|]. change (Nat.iter (S n) F w0) with (F (Nat.iter n F w0)).
  set (w := Nat.iter n F w0) in *. unfold F. rewrite seq_S, map_app, list_to_set_app_L. cbn [map Nat.add].
  assert (String.prefix (s3_Prefix c) (moved m n k) = true) as Hpre by (destruct n; cbn; [done|by apply prefix_app]).
  assert (moved m n k ∉ seen w) as Hns.
  { rewrite IH3, elem_of_list_to_set. intros (i & E & Hi%elem_of_seq)%list_elem_of_fmap. by apply (moved_ne m i n k Hm); [lia|]. }
  unfold scanAll. rewrite IH1, dom_singleton_L, elements_singleton, filter_cons_True by done. cbn [scan scanKeys filter].
  rewrite decide_False by done. unfold processObject. cbn [bucket seen handled s3_out]. rewrite IH1, lookup_singleton_eq, Hv.
  pose proof (emitRecords_ok ids clock (moved m n k) vs (s3_out w)) as He. destruct (emitRecords _ _ _ _ (s3_out w) vs) as [out e]. cbn in He. subst e.
  cbn [bucket seen handled s3_out]. unfold applyPostAction. rewrite Hp.
  do 2 rewrite decide_False by (done || by intros [?|?]). rewrite decide_True, lookup_singleton_eq by done. unfold deleteObject. cbn.
  rewrite IH2, IH3. cbn. split_and!; [|done|set_solver].
  rewrite delete_insert_ne; [by rewrite delete_singleton_eq|]. apply (moved_ne m n (S n) k Hm). lia.
Qed.

(** ** S3 sink *)

Record S3SinkConfig := MkS3SinkConfig { ss_Key : string; ss_Format : string; ss_ContentType : string }.
Definition newS3Sink (c : S3SinkConfig) : res string S3SinkConfig :=
  _ ← guard_err (bool_decide (ss_Key c <> "")) "s3-sink: key is required";
  let fmt := if decide (ss_Format c = "") then "json" else ss_Format c in
  _ ← guard_err (bool_decide (fmt = "json" \/ fmt = "raw")) "s3-sink: format must be json or raw";
  Ok (MkS3SinkConfig (ss_Key c) fmt (ss_ContentType c)).
Definition replace (s old new : string) : string := expr.ReplaceAll (String.length s) s old new.
Section s3_sink.
Context (Marshal : any -> option bytes) (sprint : any -> string).
Definition encodeBody (c : S3SinkConfig) (v : any) : res string bytes :=
  if decide (ss_Format c = "raw") then match v with AStr s => Ok (bytes_of_string s) | _ => Err "format raw requires a string payload" end
  else match Marshal v with Some b => Ok b | None => Err "json" end.
(** The fields are met in the order of the map, which is not fixed: here that of the list. *)
Definition resolveKey (c : S3SinkConfig) (now : Z) (v : any) : string :=
  let key := replace (ss_Key c) "{{ timestamp }}" (string_of_bytes (FormatInt now)) in
  match v with
  | AMap m => fold_left (fun key f => replace key ("{{ " +:+ f.1 +:+ " }}") (sprint f.2)) m key
  | _ => key
  end.
Record s3Sink := MkS3Sink { ss_conn : option (s3Client + string); ss_bucket : gmap string bytes }.
Definition s3Process (c : S3SinkConfig) (n : s3Sink) (dial : s3Client + string) (ok : bool) (now : Z) (inp : dgram) : s3Sink * nodeResult :=
  match once (ss_conn n) dial with
  | inr e => (MkS3Sink (Some (inr e)) (ss_bucket n), Err ("s3-sink: " +:+ e))
  | inl cl =>
      let n := MkS3Sink (Some (inl cl)) (ss_bucket n) in
      match encodeBody c (Value (payload inp)) with
      | Ok body =>
          if ok then (MkS3Sink (ss_conn n) (<[resolveKey c now (Value (payload inp)) := body]> (ss_bucket n)), Ok [MkPortDatagram "out" inp])
          else (n, Err "s3-sink: putting object")
      | Err e => (n, Err ("s3-sink: " +:+ e))
      | Panic => (n, Panic)
      end
  end.
End s3_sink.
(** A value that contains another field's placeholder makes the key depend on the order of the map. *)
Lemma key_depends_on_order : let c := MkS3SinkConfig "{{ a }}" "json" "" in
  let sprint v := match v with AStr s => s | _ => "" end in
  let a := ("a", AStr "{{ b }}") in let b := ("b", AStr "x") in
  resolveKey sprint c 0 (AMap [a; b]) = "x" /\ resolveKey sprint c 0 (AMap [b; a]) = "{{ b }}".
Proof. by vm_compute. Qed.

(** ** OPC UA *)

Record OpcConn := MkOpcConn { oc_Endpoint : string; oc_Policy : string; oc_SecMode : string; oc_Auth : string; oc_Cert : string; oc_KeyFile : string }.
Inductive opcOption := OPolicy (p : string) | OMode (m : string) | OCert (f : string) | OKey (f : string) | OAnonymous | OUser (l : Login).
Definition orDefault (s def : string) : string := if decide (s = "") then def else s.
Definition opcOptions (info : option (connInfo OpcConn Login)) : res string (string * list opcOption) :=
  '(c, cred) ← resolve info (fun c => bool_decide (oc_Endpoint c <> "")) (MkLogin "" "");
  let opts := [OPolicy (orDefault (oc_Policy c) "None"); OMode (orDefault (oc_SecMode c) "None")]
    ++ (if decide (oc_Cert c = "") then [] else [OCert (oc_Cert c)]) ++ (if decide (oc_KeyFile c = "") then [] else [OKey (oc_KeyFile c)]) in
  if decide (orDefault (oc_Auth c) "anonymous" = "anonymous") then Ok (oc_Endpoint c, opts ++ [OAnonymous])
  else if decide (orDefault (oc_Auth c) "anonymous" = "username") then Ok (oc_Endpoint c, opts ++ [OUser cred])
  else Err "opcuashared: unknown auth".
(** [created], [connected]: what [NewClient] and [Connect] of the client answer. *)
Definition opcConnect (info : option (connInfo OpcConn Login)) (created connected : bool) : res string (string * list opcOption) :=
  o ← opcOptions info;
  _ ← guard_err created "opcuashared: creating client";
  _ ← guard_err connected "opcuashared: connecting"; Ok o.
(** A status code is a [uint32]. *)
Definition QualityOf (code : Z) : Quality :=
  let sev := Z.shiftr (u32 code) 30 in
  if sev =? 0 then QualityGood else if sev =? 1 then QualityUncertain else QualityBad.

Record NodeRef := MkNodeRef { nr_Name : string; nr_NodeID : string; nr_Deadband : float64 }.
Record OpcSourceConfig := MkOpcSourceConfig { os_Mode : string; os_Nodes : list NodeRef; os_PublishingIntervalMs : Z; os_SamplingIntervalMs : Z; os_IntervalMs : Z }.
Section opc.
Context {NID : Type} (ParseNodeID : string -> option NID).
Record opcSource := MkOpcSource { os_cfg : OpcSourceConfig; os_parsed : list (NodeRef * NID) }.
Definition parseNode (nr : NodeRef) : res string (NodeRef * NID) :=
  _ ← guard_err (negb (bool_decide (nr_Name nr = "" \/ nr_NodeID nr = ""))) "opcua-source: name and nodeId are required";
  match ParseNodeID (nr_NodeID nr) with Some id => Ok (nr, id) | None => Err "opcua-source: invalid nodeId" end.
Definition newOpcSource (c : OpcSourceConfig) : res string opcSource :=
  _ ← guard_err (bool_decide (os_Nodes c <> [])) "opcua-source: at least one node is required";
  ps ← res_mapM parseNode (os_Nodes c);
  if decide (os_Mode c = "subscribe") then Ok (MkOpcSource c ps)
  else if decide (os_Mode c = "polled") then _ ← guard_err (0 <? os_IntervalMs c) "opcua-source: intervalMs must be positive"; Ok (MkOpcSource c ps)
  else Err "opcua-source: mode must be subscribe or polled".

(** A value the server reports, with its status. *)
Record dataValue := MkDataValue { dv_value : option any; dv_status : Z }.
Context (ids : nat -> string) (clock : nat -> Z) (emit : nat -> option string).
Definition valueDatagram (k : nat) (name : string) (dv : dataValue) : dgram :=
  let d := datagram.New (ids k) (clock k) (MkSource "" "opcua-source" "" "" "") (MkPayload (default ANil (dv_value dv)) None) in
  let h := header d in
  MkDatagram (MkHeader (ID h) (CorrelationID h) (CausationID h) (Timestamp h) (SourceTimestamp h)
                (source h) (SchemaRef h) (ContentType h) (QualityOf (dv_status dv)) (Priority h) (TTLMillis h) (Some {["opcua.node" := name]}))
             (payload d) (trace d).
(** The results of a read, [i] being the index of the first; a result without a node panics. *)
Fixpoint emitResults (n : opcSource) (i : nat) (out : list dgram) (rs : list dataValue) : list dgram * res string unit :=
  match rs with
  | [] => (out, Ok tt)
  | dv :: rs' =>
      match os_parsed n !! i with
      | None => (out, Panic)
      | Some (nr, _) =>
          let k := length out in
          let out := out ++ [valueDatagram k (nr_Name nr) dv] in
          match emit k with Some e => (out, Err e) | None => emitResults n (S i) out rs' end
      end
  end.
(** A poll: the results, or an error. *)
Definition opcPoll (n : opcSource) (out : list dgram) (answer : option (list dataValue)) : list dgram * res string unit :=
  match answer with None => (out, Err "opcua-source: read") | Some rs => emitResults n 0 out rs end.
(** [None] ends the context. *)
Fixpoint opcTicks (n : opcSource) (out : list dgram) (ticks : list (option (option (list dataValue)))) : list dgram * option (res string unit) :=
  match ticks with
  | [] => (out, None)
  | None :: _ => (out, Some (Ok tt))
  | Some a :: ts => match opcPoll n out a with (out, Ok _) => opcTicks n out ts | (out, r) => (out, Some r) end
  end.
Definition runPolled (n : opcSource) (first : option (list dataValue)) (ticks : list (option (option (list dataValue)))) : list dgram * option (res string unit) :=
  match opcPoll n [] first with
  | (out, Ok _) => if s64 (os_IntervalMs (os_cfg n) * 1000000) <=? 0 then (out, Some Panic) else opcTicks n out ticks
  | (out, r) => (out, Some r)
  end.

(** A monitored item: its node, the handle it is asked under, the sampling interval and the deadband. *)
Record itemRequest := MkItemRequest { ir_node : NID; ir_handle : Z; ir_sampling : option Z; ir_deadband : option float64 }.
Definition requests (n : opcSource) : list itemRequest :=
  imap (fun i p => MkItemRequest p.2 (u32 (Z.of_nat i + 1))
    (let s := s64 (os_SamplingIntervalMs (os_cfg n) * 1000000) in if 0 <? s then Some (Z.quot s 1000000) else None)
    (if flt (of_Z 0) (nr_Deadband p.1) then Some (nr_Deadband p.1) else None)) (os_parsed n).
Definition handleToName (n : opcSource) : gmap Z string :=
  fold_left (fun m x => <[x.1 := x.2]> m) (imap (fun i p => (u32 (Z.of_nat i + 1), nr_Name p.1)) (os_parsed n)) ∅.
Definition publishing (c : OpcSourceConfig) : Z := let p := s64 (os_PublishingIntervalMs c * 1000000) in if p <=? 0 then 1000000000 else p.
(** A notification: the end of the channel or of the context, an error or another kind, or changes. *)
Inductive notification := NClosed | NDone | NOther | NChanges (items : list (Z * dataValue)).
Fixpoint emitItems (names : gmap Z string) (out : list dgram) (items : list (Z * dataValue)) : list dgram * option string :=
  match items with
  | [] => (out, None)
  | (h, dv) :: rest =>
      match names !! h with
      | None => emitItems names out rest
      | Some name =>
          let k := length out in
          let out := out ++ [valueDatagram k name dv] in
          match emit k with Some e => (out, Some e) | None => emitItems names out rest end
      end
  end.
Fixpoint runNotifications (names : gmap Z string) (out : list dgram) (l : list notification) : list dgram * option (option string) :=
  match l with
  | [] => (out, None)
  | NClosed :: _ | NDone :: _ => (out, Some None)
  | NOther :: rest => runNotifications names out rest
  | NChanges items :: rest => match emitItems names out items with (out, Some e) => (out, Some (Some e)) | (out, None) => runNotifications names out rest end
  end.
(** [subscribed], [monitored]: what [Subscribe] and [Monitor] answer. *)
Definition runOpcSubscribe (n : opcSource) (subscribed monitored : bool) (l : list notification) : list dgram * option (option string) :=
  if negb subscribed then ([], Some (Some "opcua-source: subscribing"))
  else if negb monitored then ([], Some (Some "opcua-source: creating monitored items"))
  else runNotifications (handleToName n) [] l.

(** A value reported for the item that was requested for a node is emitted under the name of that node. *)
Theorem handles_name_nodes n i p : (Z.of_nat (length (os_parsed n)) < 2 ^ 32)%Z -> os_parsed n !! i = Some p ->
  exists r, requests n !! i = Some r /\ ir_node r = p.2 /\ handleToName n !! ir_handle r = Some (nr_Name p.1).
Proof.
  intros Hlen Hi. unfold requests. rewrite list_lookup_imap, Hi. eexists. split; [reflexivity|]. split; [done|]. cbn.
  unfold handleToName.
  assert (forall (l : list (NodeRef * NID)) base (m : gmap Z string), (Z.of_nat base + Z.of_nat (length l) < 2 ^ 32)%Z -> forall j q, l !! j = Some q ->
    fold_left (fun m x => <[x.1 := x.2]> m) (imap (fun i p => (u32 (Z.of_nat (base + i) + 1), nr_Name p.1)) l) m !! u32 (Z.of_nat (base + j) + 1) = Some (nr_Name q.1)) as Hg.
  { clear. intros l. induction l as [|a l IH] using rev_ind; intros base m Hb j q Hj; [done|].
    rewrite length_app in Hb. cbn in Hb. rewrite imap_app, fold_left_app. cbn.
    rewrite Nat.add_0_r. apply lookup_app_Some in Hj as [Hj|[Hj1 Hj2]].
    - rewrite lookup_insert_ne; [apply IH; [lia|done]|]. apply lookup_lt_Some in Hj.
      unfold uwrap. rewrite !Z.mod_small by lia. lia.
    - destruct (j - length l)%nat eqn:E; [|done]. cbn in Hj2. injection Hj2 as <-. replace j with (length l) by lia.
      apply lookup_insert_eq. }
  apply (Hg (os_parsed n) 0%nat ∅ ltac:(lia) i p Hi).
Qed.
(** A poll labels its values by position: as many values as nodes are emitted in order, each under the
    name of its node and with the quality of its status; a server that answers with more makes it panic. *)
Theorem poll_labels n out rs : (forall k, emit k = None) ->
  let '(out', r) := opcPoll n out (Some rs) in
  map (fun d => (Tags (header d), quality (header d), Value (payload d))) out' =
    map (fun d => (Tags (header d), quality (header d), Value (payload d))) out ++
    zip_with (fun p dv => (Some {["opcua.node" := nr_Name p.1]}, QualityOf (dv_status dv), default ANil (dv_value dv))) (os_parsed n) rs /\
  (r = Ok tt <-> (length rs <= length (os_parsed n))%nat).
Proof.
  intros He. unfold opcPoll.
  assert (forall rs i out, let '(out', r) := emitResults n i out rs in
    map (fun d => (Tags (header d), quality (header d), Value (payload d))) out' =
      map (fun d => (Tags (header d), quality (header d), Value (payload d))) out ++
      zip_with (fun p dv => (Some {["opcua.node" := nr_Name p.1]}, QualityOf (dv_status dv), default ANil (dv_value dv))) (drop i (os_parsed n)) rs /\
    (r = Ok tt <-> (length rs <= length (drop i (os_parsed n)))%nat)) as Hg.
  { clear rs out. induction rs as [|dv rs IH]; intros i out; cbn [emitResults].
    - rewrite zip_with_nil_r, app_nil_r. split; [done|]. cbn. split; [lia|done].
    - destruct (os_parsed n !! i) as [[nr id]|] eqn:E.
      + rewrite He. specialize (IH (S i) (out ++ [valueDatagram (length out) (nr_Name nr) dv])).
        destruct (emitResults n (S i) _ rs) as [out' r]. destruct IH as [IH1 IH2]. rewrite IH1, (drop_S _ _ _ E). cbn.
        rewrite map_app, <- app_assoc. split; [done|]. rewrite IH2. lia.
      + apply lookup_ge_None in E. rewrite drop_ge by done. cbn. rewrite app_nil_r. split; [done|]. split; [done|lia]. }
  specialize (Hg rs 0%nat out). by rewrite drop_0 in Hg.
Qed.
End opc.

Record OpcSinkConfig := MkOpcSinkConfig { ok_Mode : string; ok_NodeID : string; ok_ValueField : string; ok_ObjectNodeID : string; ok_MethodNodeID : string; ok_ArgsField : string }.
Definition fieldOrWhole (v : any) (field : string) : any :=
  if decide (field = "") then v else match v with AMap m => default ANil (mget m field) | _ => v end.
Section opc_sink.
(** [NewVariant]: [None] for a value without an OPC UA type. *)
Context {NID VAR : Type} (ParseNodeID : string -> option NID) (NewVariant : any -> option VAR) (variantValue : VAR -> any).
Inductive opcTarget := TWrite (node : NID) | TCall (object method : NID).
Definition parseID (what s : string) : res string NID :=
  match ParseNodeID s with Some id => Ok id | None => Err ("opcua-sink: invalid " +:+ what) end.
Definition newOpcSink (c : OpcSinkConfig) : res string opcTarget :=
  if decide (ok_Mode c = "write") then
    _ ← guard_err (bool_decide (ok_NodeID c <> "")) "opcua-sink: nodeId is required";
    id ← parseID "nodeId" (ok_NodeID c); Ok (TWrite id)
  else if decide (ok_Mode c = "call") then
    _ ← guard_err (bool_decide (ok_ObjectNodeID c <> "" /\ ok_MethodNodeID c <> "")) "opcua-sink: objectNodeId and methodNodeId are required";
    o ← parseID "objectNodeId" (ok_ObjectNodeID c); m ← parseID "methodNodeId" (ok_MethodNodeID c); Ok (TCall o m)
  else Err "opcua-sink: mode must be write or call".
Inductive opcRequest := RWrite (node : NID) (v : VAR) | RCall (object method : NID) (args : list VAR).
(** The status codes of a write; the status and the outputs of a call; [None] is an error. *)
Definition processWrite (c : OpcSinkConfig) (node : NID) (server : opcRequest -> option (list Z)) (inp : dgram) : nodeResult :=
  match NewVariant (fieldOrWhole (Value (payload inp)) (ok_ValueField c)) with
  | None => Err "opcua-sink: encoding value"
  | Some v =>
      match server (RWrite node v) with
      | None => Err "opcua-sink: write"
      | Some rs => match rs with s :: _ => if s =? 0 then Ok [MkPortDatagram "out" inp] else Err "opcua-sink: write failed" | [] => Ok [MkPortDatagram "out" inp] end
      end
  end.
Definition callArgs (c : OpcSinkConfig) (v : any) : res string (list VAR) :=
  res_mapM (fun x => match NewVariant x with Some y => Ok y | None => Err "opcua-sink: encoding arg" end)
    (match fieldOrWhole v (ok_ArgsField c) with AArr l => l | _ => [] end).
Definition processCall (c : OpcSinkConfig) (object method : NID) (server : opcRequest -> option (Z * list VAR)) (id : string) (now : Z) (inp : dgram) : nodeResult :=
  args ← callArgs c (Value (payload inp));
  match server (RCall object method args) with
  | None => Err "opcua-sink: call"
  | Some (s, outs) =>
      if s =? 0 then Ok [MkPortDatagram "out" (NewCaused id now inp (MkSource "" "opcua-sink" "" "" "") (MkPayload (AArr (map variantValue outs)) None))]
      else Err "opcua-sink: call failed"
  end.
(** [Process]; [kept] is what [connectOnce] has left. *)
Definition opcProcess (c : OpcSinkConfig) (t : opcTarget) (kept : option ((string * list opcOption) + string)) (dial : (string * list opcOption) + string)
    (writes : opcRequest -> option (list Z)) (calls : opcRequest -> option (Z * list VAR)) (id : string) (now : Z) (inp : dgram)
  : option ((string * list opcOption) + string) * nodeResult :=
  match once kept dial with
  | inr e => (Some (inr e), Err ("opcua-sink: " +:+ e))
  | inl o => (Some (inl o), match t with TWrite n => processWrite c n writes inp | TCall ob m => processCall c ob m calls id now inp end)
  end.
(** Arguments that are no array are dropped, and the method is called without any. *)
Lemma call_drops_arguments c v : (forall l, fieldOrWhole v (ok_ArgsField c) <> AArr l) -> callArgs c v = Ok [].
Proof. intros H. unfold callArgs. destruct (fieldOrWhole v (ok_ArgsField c)) eqn:E; try done. by destruct (H l). Qed.
End opc_sink.
(** The severity of a status decides the quality: the two high bits. *)
Lemma quality_of_severity code : 0 <= code < 2 ^ 32 ->
  QualityOf code = if code <? 2 ^ 30 then QualityGood else if code <? 2 ^ 31 then QualityUncertain else QualityBad.
Proof.
  intros H. unfold QualityOf. rewrite uwrap_id by done. rewrite Z.shiftr_div_pow2 by lia.
  pose proof (Z.div_mod code (2 ^ 30) ltac:(lia)). pose proof (Z.mod_pos_bound code (2 ^ 30) ltac:(lia)).
  destruct (Z.ltb_spec code (2 ^ 30)), (Z.ltb_spec code (2 ^ 31)), (Z.eqb_spec (code / 2 ^ 30) 0), (Z.eqb_spec (code / 2 ^ 30) 1); try done; exfalso; nia.
Qed.
End datastores.
