(* ===== verification/Routes.v ===== *)
(** * The route table ([controlplane/internal/api/server.go])

    [Handlers.Routes] with the part of [http.ServeMux] it uses: patterns of a method and segments, each a
    literal or a wildcard.  A request is its method and the segments of its cleaned path.  The handlers
    are names here; their behaviour is the subject of the other files. *)

From S2P Require Import Prelude GoStd Auth.
Import gostd.
Local Open Scope Z_scope.

Module routes.

Inductive segment := L (text : string) | W (name : string).
Record route := R { r_method : string; r_path : list segment; r_handler : string }.
Definition protectedRoutes : list route :=
  [R "POST" [L "auth"; L "logout"] "logout";
   R "GET" [L "auth"; L "me"] "me";
   R "GET" [L "users"] "listUsers";
   R "POST" [L "users"] "createUser";
   R "GET" [L "projects"] "listProjects";
   R "POST" [L "projects"] "createProject";
   R "GET" [L "projects"; W "projectId"] "getProject";
   R "PATCH" [L "projects"; W "projectId"] "updateProject";
   R "DELETE" [L "projects"; W "projectId"] "deleteProject";
   R "PUT" [L "projects"; W "projectId"; L "members"; W "userId"] "setProjectMember";
   R "DELETE" [L "projects"; W "projectId"; L "members"; W "userId"] "removeProjectMember";
   R "GET" [L "projects"; W "projectId"; L "flows"] "listFlows";
   R "POST" [L "projects"; W "projectId"; L "flows"] "createFlow";
   R "GET" [L "flows"; W "flowId"] "getFlow";
   R "PATCH" [L "flows"; W "flowId"] "updateFlow";
   R "DELETE" [L "flows"; W "flowId"] "deleteFlow";
   R "POST" [L "flows"; W "flowId"; L "deploy"] "deployFlow";
   R "PATCH" [L "flows"; W "flowId"; L "log-level"] "setFlowLogLevel";
   R "GET" [L "flows"; W "flowId"; L "versions"] "listFlowVersions";
   R "GET" [L "flows"; W "flowId"; L "versions"; W "version"] "getFlowVersion";
   R "POST" [L "flows"; W "flowId"; L "versions"; W "version"; L "rollback"] "rollbackFlow";
   R "GET" [L "flows"; W "flowId"; L "export"] "exportFlow";
   R "GET" [L "projects"; W "projectId"; L "export"] "exportProject";
   R "POST" [L "projects"; W "projectId"; L "import"] "importProject";
   R "GET" [L "projects"; W "projectId"; L "profiles"] "listEnvProfiles";
   R "POST" [L "projects"; W "projectId"; L "profiles"] "createEnvProfile";
   R "PATCH" [L "profiles"; W "profileId"] "updateEnvProfile";
   R "DELETE" [L "profiles"; W "profileId"] "deleteEnvProfile";
   R "GET" [L "projects"; W "projectId"; L "connections"] "listConnections";
   R "POST" [L "projects"; W "projectId"; L "connections"] "createConnection";
   R "PATCH" [L "connections"; W "connectionId"] "updateConnection";
   R "DELETE" [L "connections"; W "connectionId"] "deleteConnection";
   R "POST" [L "connections"; W "connectionId"; L "test"] "testConnection";
   R "POST" [L "connections"; W "connectionId"; L "secsgem-browse"] "secsgemBrowse";
   R "GET" [L "projects"; W "projectId"; L "credentials"] "listCredentials";
   R "POST" [L "projects"; W "projectId"; L "credentials"] "createCredential";
   R "DELETE" [L "credentials"; W "credentialId"] "deleteCredential";
   R "GET" [L "runtimes"] "listRuntimes";
   R "PATCH" [L "runtimes"; W "runtimeId"] "updateRuntime";
   R "GET" [L "runtime-groups"] "listRuntimeGroups";
   R "POST" [L "runtime-groups"] "createRuntimeGroup";
   R "DELETE" [L "runtime-groups"; W "name"] "deleteRuntimeGroup";
   R "GET" [L "runtime-enroll-tokens"] "listEnrollTokens";
   R "POST" [L "runtime-enroll-tokens"] "createEnrollToken";
   R "DELETE" [L "runtime-enroll-tokens"; W "tokenId"] "deleteEnrollToken";
   R "GET" [L "audit-log"] "listAuditLog";
   R "GET" [L "node-types"] "listNodeTypes";
   R "GET" [L "alert-rules"] "listAlertRules";
   R "POST" [L "alert-rules"] "createAlertRule";
   R "DELETE" [L "alert-rules"; W "ruleId"] "deleteAlertRule";
   R "GET" [L "alerts"] "listAlerts";
   R "GET" [L "backup"] "exportBackup";
   R "POST" [L "backup"; L "restore"] "restoreBackup";
   R "POST" [L "flows"; W "flowId"; L "nodes"; W "nodeId"; L "execute"] "executeNode";
   R "POST" [L "flows"; W "flowId"; L "nodes"; W "nodeId"; L "preview"] "previewNode";
   R "GET" [L "flows"; W "flowId"; L "debug"; L "pins"] "listPins";
   R "PUT" [L "flows"; W "flowId"; L "nodes"; W "nodeId"; L "pins"; W "port"] "upsertPin";
   R "DELETE" [L "flows"; W "flowId"; L "nodes"; W "nodeId"; L "pins"; W "port"] "deletePin";
   R "GET" [L "flows"; W "flowId"; L "debug"; L "events"; W "eventId"] "loadFullDebugEvent";
   R "GET" [L "flows"; W "flowId"; L "executions"] "listExecutions";
   R "GET" [L "executions"; W "executionId"] "getExecution";
   R "POST" [L "executions"; W "executionId"; L "rerun"] "rerunExecution";
   R "POST" [L "executions"; W "executionId"; L "cancel"] "cancelExecution";
   R "GET" [L "flows"; W "flowId"; L "dead-letters"] "listDeadLetters";
   R "DELETE" [L "dead-letters"; W "deadLetterId"] "deleteDeadLetter";
   R "POST" [L "dead-letters"; W "deadLetterId"; L "reinject"] "reinjectDeadLetter"].

(** ** ServeMux *)

(** A pattern for GET also serves HEAD. *)
Definition serves_method (m req : string) : bool := bool_decide (m = req \/ (m = "GET" /\ req = "HEAD")).
(** The values of the wildcards, when the segments match; a wildcard takes one non-empty segment. *)
Fixpoint match_path (p : list segment) (path : list string) : option (list (string * string)) :=
  match p, path with
  | [], [] => Some []
  | L t :: p, s :: path => if decide (t = s) then match_path p path else None
  | W n :: p, s :: path => if decide (s = "") then None else args ← match_path p path; Some ((n, s) :: args)
  | _, _ => None
  end.
Definition matches (r : route) (m : string) (path : list string) : option (list (string * string)) :=
  if serves_method (r_method r) m then match_path (r_path r) path else None.
Inductive answer := Served (handler : string) (args : list (string * string)) | MethodNotAllowed | NotFound | Unauthorized.
Fixpoint find_route (rs : list route) (m : string) (path : list string) : option (string * list (string * string)) :=
  match rs with
  | [] => None
  | r :: rs => match matches r m path with Some args => Some (r_handler r, args) | None => find_route rs m path end
  end.
Definition ServeMux (rs : list route) (m : string) (path : list string) : answer :=
  match find_route rs m path with
  | Some (h, args) => Served h args
  | None => if existsb (fun r => bool_decide (is_Some (match_path (r_path r) path))) rs then MethodNotAllowed else NotFound
  end.

(** [Routes]: two routes of the outer mux, everything else through the middleware. *)
Definition openRoutes : list route := [R "POST" [L "auth"; L "login"] "login"; R "GET" [L "ws"; L "debug"] "debugWebSocket"].
Section routes.
Context (hashToken : string -> string).
Definition Routes (db : auth.DB) (ok1 ok2 : bool) (now : Z) (authorization m : string) (path : list string) : option auth.User * answer :=
  match find_route openRoutes m path with
  | Some (h, args) => (None, Served h args)
  | None =>
      match auth.Middleware hashToken db ok1 ok2 now authorization with
      | None => (None, Unauthorized)
      | Some u => (Some u, ServeMux protectedRoutes m path)
      end
  end.

(** ** No two routes claim a request *)

Fixpoint apart (p q : list segment) : bool :=
  match p, q with
  | L a :: p, L b :: q => bool_decide (a <> b) || apart p q
  | _ :: p, _ :: q => apart p q
  | [], [] => false
  | _, _ => true
  end.
(** Methods for which no request is served by both. *)
Definition methods_apart (a b : string) : bool := bool_decide (a <> b /\ a <> "HEAD" /\ b <> "HEAD").
Definition routes_apart (r s : route) : bool := methods_apart (r_method r) (r_method s) || apart (r_path r) (r_path s).
Fixpoint pairwise (f : route -> route -> bool) (rs : list route) : bool :=
  match rs with [] => true | r :: rs => forallb (f r) rs && pairwise f rs end.
Lemma apart_sound p : forall q path, apart p q = true -> is_Some (match_path p path) -> match_path q path = None.
Proof.
  induction p as [|[a|a] p IH]; intros [|[b|b] q] [|s path] Ha Hm; cbn in *; try done; try (by destruct Hm).
  - destruct (decide (a = s)) as [<- |]; [|by destruct Hm]. destruct (decide (b = a)) as [-> |]; [|done].
    apply orb_true_iff in Ha as [Ha|Ha]; [by apply bool_decide_eq_true in Ha|by apply IH].
  - destruct (decide (a = s)); [|by destruct Hm]. destruct (decide (s = "")); [done|]. by rewrite (IH q path Ha Hm).
  - destruct (decide (s = "")); [by destruct Hm|]. destruct (match_path p path) eqn:E; [|by destruct Hm].
    destruct (decide (b = s)); [|done]. apply IH; [done|]. by rewrite E.
  - destruct (decide (s = "")); [done|]. destruct (match_path p path) eqn:E; [|by destruct Hm].
    rewrite (IH q path Ha); [done|]. by rewrite E.
Qed.
Lemma routes_apart_sound r s m path : routes_apart r s = true -> is_Some (matches r m path) -> matches s m path = None.
Proof.
  unfold routes_apart, matches. intros [H|H]%orb_true_iff Hm.
  - apply bool_decide_eq_true in H as (H1 & H2 & H3). unfold serves_method in *.
    case_bool_decide; [|by destruct Hm]. case_bool_decide; [|done]. exfalso. naive_solver congruence.
  - destruct (serves_method (r_method r) m); [|by destruct Hm]. destruct (serves_method (r_method s) m); [|done]. by eapply apart_sound.
Qed.
Lemma find_unique rs m path r args : pairwise routes_apart rs = true -> r ∈ rs -> matches r m path = Some args ->
  find_route rs m path = Some (r_handler r, args).
Proof.
  induction rs as [|r0 rs IH]; intros Hp Hin Hm; [by apply elem_of_nil in Hin|]. cbn in Hp |- *. apply andb_true_iff in Hp as [H0 Hp].
  apply elem_of_cons in Hin as [-> |Hin]; [by rewrite Hm|].
  destruct (matches r0 m path) as [args0|] eqn:E; [|by apply IH].
  rewrite forallb_forall in H0. specialize (H0 r (proj1 (list_elem_of_In _ _) Hin)).
  rewrite (routes_apart_sound r0 r m path H0) in Hm by by rewrite E. done.
Qed.

(** The path of a route with values for its wildcards. *)
Fixpoint fill (p : list segment) (args : list string) : list string :=
  match p, args with
  | L t :: p, _ => t :: fill p args
  | W _ :: p, a :: args => a :: fill p args
  | _, _ => []
  end.
Definition wildcards (p : list segment) : list string := omap (fun s => match s with W n => Some n | L _ => None end) p.
Lemma match_fill p : forall args, length args = length (wildcards p) -> Forall (fun a => a <> "") args ->
  match_path p (fill p args) = Some (zip (wildcards p) args).
Proof.
  induction p as [|[t|n] p IH]; intros args Hl Ha.
  - by destruct args.
  - cbn. rewrite decide_True by done. by apply IH.
  - change (wildcards (W n :: p)) with (n :: wildcards p) in *. destruct args as [|a args]; [done|].
    apply Forall_cons in Ha as [H1 H2]. injection Hl as Hl. cbn. rewrite decide_False by done. by rewrite IH.
Qed.
(** Every route is reached, and nothing but a session opens it: for each pattern of the table and all
    values of its wildcards, the request goes to the pattern's handler with exactly those values when the
    middleware finds a user, and is refused otherwise. *)
Theorem routes_reached r db ok1 ok2 now authorization args : r ∈ protectedRoutes ->
  length args = length (wildcards (r_path r)) -> Forall (fun a => a <> "") args ->
  Routes db ok1 ok2 now authorization (r_method r) (fill (r_path r) args) =
  match auth.Middleware hashToken db ok1 ok2 now authorization with
  | Some u => (Some u, Served (r_handler r) (zip (wildcards (r_path r)) args))
  | None => (None, Unauthorized)
  end.
Proof.
  intros Hin Hl Ha. assert (matches r (r_method r) (fill (r_path r) args) = Some (zip (wildcards (r_path r)) args)) as Hm.
  { unfold matches, serves_method. rewrite bool_decide_true by by left. by apply match_fill. }
  assert (find_route openRoutes (r_method r) (fill (r_path r) args) = None) as Ho.
  { assert (forallb (fun r => forallb (routes_apart r) openRoutes) protectedRoutes = true) as Hall by (vm_compute; reflexivity).
    rewrite forallb_forall in Hall. specialize (Hall r (proj1 (list_elem_of_In _ _) Hin)).
    cbn [openRoutes forallb] in Hall. apply andb_true_iff in Hall as [H1 [H2 _]%andb_true_iff]. cbn [openRoutes find_route].
    rewrite (routes_apart_sound _ _ _ _ H1), (routes_apart_sound _ _ _ _ H2) by by rewrite Hm. done. }
  unfold Routes. rewrite Ho. destruct (auth.Middleware _ _ _ _ _ _) as [u|]; [|done]. unfold ServeMux.
  rewrite (find_unique protectedRoutes _ _ r _ ltac:(vm_compute; reflexivity) Hin Hm). done.
Qed.
(** Whatever is asked for, only the login and the debug WebSocket, which checks a token of its own, are
    served without a user. *)
Theorem served_only_with_session db ok1 ok2 now authorization m path u h args :
  Routes db ok1 ok2 now authorization m path = (u, Served h args) ->
  (u = None /\ (h = "login" \/ h = "debugWebSocket") /\ args = []) \/
  (exists user, u = Some user /\ auth.Middleware hashToken db ok1 ok2 now authorization = Some user /\ h ∈ map r_handler protectedRoutes).
Proof.
  unfold Routes. destruct (find_route openRoutes m path) as [[h0 args0]|] eqn:E.
  - intros [= <- <- <-]. left. cbn in E. unfold matches in E. destruct (serves_method "POST" m), (serves_method "GET" m); cbn in E;
      repeat (case_match; simplify_eq; try (by auto)).
  - destruct (auth.Middleware _ _ _ _ _ _) as [user|]; [|done]. intros [= <- H]. right. exists user. split_and!; [done|done|].
    unfold ServeMux in H. destruct (find_route protectedRoutes m path) as [[h0 args0]|] eqn:F; [|by repeat case_match]. injection H as <- <-.
    clear -F. induction protectedRoutes as [|r rs IH]; [done|]. cbn in F |- *. destruct (matches r m path); [simplify_eq; by left|right; by apply IH].
Qed.
End routes.
End routes.
