(* ===== verification/Metrics.v ===== *)
(** * Metrics of a deployment ([engine/internal/obsmetrics], and the snapshots of [flow/graph.go])

    The counters of a node as the runner drives them, the snapshot of a deployment, the periodic samples
    of its wires, and the text a scraper reads.  The text of a float is a parameter. *)

From S2P Require Import Prelude Bytes GoStd Float Datagram Execution Value Bus FlowFile Runner Debug Deploy Expr.
Import gostd float datagram execution value.
Local Open Scope Z_scope.

Module metrics.

(** ** Node counters *)

Record NodeMetrics := MkNodeMetrics { Processed : Z; Errors : Z; Retries : Z; Processing : debug.procHistogram }.
Definition newNodeMetrics : NodeMetrics := MkNodeMetrics 0 0 0 debug.newProcHistogram.
Record MetricsSnapshot := MkMetricsSnapshot { s_Processed : Z; s_Errors : Z; s_Retries : Z; s_Processing : debug.HistogramSnapshot }.
Definition Snapshot (m : NodeMetrics) : MetricsSnapshot :=
  MkMetricsSnapshot (Processed m) (Errors m) (Retries m) (debug.Snapshot (Processing m)).
(** What a call of the runner does to the counters; [us]: the processing time it measures. *)
Definition count (us : Z) (m : NodeMetrics) (x : runner.effect) : NodeMetrics :=
  match x with
  | runner.FCount runner.Processed => MkNodeMetrics (u64 (Processed m + 1)) (Errors m) (Retries m) (Processing m)
  | runner.FCount runner.Errors => MkNodeMetrics (Processed m) (u64 (Errors m + 1)) (Retries m) (Processing m)
  | runner.FCount runner.Retries => MkNodeMetrics (Processed m) (Errors m) (u64 (Retries m + 1)) (Processing m)
  | runner.FObserve => MkNodeMetrics (Processed m) (Errors m) (Retries m) (debug.Observe (Processing m) us)
  | _ => m
  end.
Definition counted (us : Z) (m : NodeMetrics) (fx : list runner.effect) : NodeMetrics := fold_left (count us) fx m.

Definition observed (fx : list runner.effect) : nat := length (omap (fun x => match x with runner.FObserve => Some tt | _ => None end) fx).
Lemma observed_app l k : observed (l ++ k) = (observed l + observed k)%nat.
Proof. unfold observed. by rewrite omap_app, length_app. Qed.
Lemma report_quiet r env inp port k outs ne oe : observed (runner.reportNode r env inp port k outs ne oe) = 0%nat /\
  runner.countOf runner.Processed (runner.reportNode r env inp port k outs ne oe) = 0%nat.
Proof. unfold runner.reportNode. repeat case_match; done. Qed.
Lemma dispatch_quiet r rs : observed (runner.dispatch r rs) = 0%nat /\ runner.countOf runner.Processed (runner.dispatch r rs) = 0%nat.
Proof.
  unfold runner.dispatch. induction rs as [|x rs IH]; [done|]. cbn [flat_map]. rewrite observed_app, runner.countOf_app.
  case_decide; cbn; apply IH.
Qed.
Lemma terminal_quiet r env pol port k inp ne : observed (runner.applyTerminalPolicy r env pol port k inp ne) = 0%nat /\
  runner.countOf runner.Processed (runner.applyTerminalPolicy r env pol port k inp ne) = 0%nat.
Proof.
  unfold runner.applyTerminalPolicy, runner.storeForward.
  repeat first [case_decide | case_match]; rewrite ?observed_app, ?runner.countOf_app;
    try (apply report_quiet); cbn -[runner.reportNode]; try apply report_quiet.
Qed.
(** The runner observes a processing time exactly when it counts a processed datagram. *)
Definition balanced (fx : list runner.effect) : Prop := observed fx = runner.countOf runner.Processed fx.
Lemma balanced_cons x l : (match x with runner.FObserve | runner.FCount runner.Processed => False | _ => True end) -> balanced l -> balanced (x :: l).
Proof. unfold balanced. intros Hx Hl. destruct x as [[]| | | | | | | | |]; done. Qed.
Lemma quiet_balanced fx : observed fx = 0%nat /\ runner.countOf runner.Processed fx = 0%nat -> balanced fx.
Proof. unfold balanced. intros [-> ->]. done. Qed.
Lemma handle_observes r env port inp invoke cancelled : balanced (runner.handle r env port inp invoke cancelled).
Proof.
  unfold runner.handle. generalize (Z.to_nat (runner.retryMax (runner.policy r))) as fuel, 1 as k.
  assert (forall k rs, balanced ([runner.FCount runner.Processed; runner.FObserve] ++ runner.dispatch r rs ++ runner.reportNode r env inp port k rs None "")) as Hok.
  { intros k rs. unfold balanced. rewrite !observed_app, !runner.countOf_app.
    destruct (dispatch_quiet r rs) as [-> ->], (report_quiet r env inp port k rs None "") as [-> ->]. done. }
  induction fuel as [|fuel IH]; intros k; cbn [runner.handle_loop]; destruct (runner.invokeWithRecover (invoke k)) as [rs|e]; try apply Hok;
    apply balanced_cons; try done; (case_decide; [|apply quiet_balanced, terminal_quiet]); (destruct (_ <=? _); [|apply quiet_balanced, report_quiet]);
    apply balanced_cons; try done; (destruct (flowfile.Retry _); [|done]); apply balanced_cons; try done; (destruct (cancelled k); [done|]); [done|apply IH].
Qed.

(** The counters after calls that processed [p] and observed [q] more. *)
Lemma counted_spec us fx : forall m p q, Processed m = u64 p -> debug.count (Processing m) = u64 q ->
  Processed (counted us m fx) = u64 (p + Z.of_nat (runner.countOf runner.Processed fx)) /\
  debug.count (Processing (counted us m fx)) = u64 (q + Z.of_nat (observed fx)).
Proof.
  assert (forall z, u64 (u64 z + 1) = u64 (z + 1)) as Hu by (intros z; unfold uwrap; by rewrite Zplus_mod_idemp_l).
  induction fx as [|x fx IH]; intros m p q Hp Hq; [by rewrite !Z.add_0_r|].
  change (counted us m (x :: fx)) with (counted us (count us m x) fx).
  destruct x as [[]| | | | | | | | |]; cbn [count]; try (by apply IH).
  - destruct (IH (MkNodeMetrics (u64 (Processed m + 1)) (Errors m) (Retries m) (Processing m)) (p + 1) q) as [E1 E2]; [cbn; by rewrite Hp, Hu|done|].
    rewrite E1, E2. split; f_equal. change (runner.countOf runner.Processed (_ :: fx)) with (S (runner.countOf runner.Processed fx)). lia.
  - destruct (IH (MkNodeMetrics (Processed m) (Errors m) (Retries m) (debug.Observe (Processing m) us)) p (q + 1)) as [E1 E2]; [done|cbn; by rewrite Hq, Hu|].
    rewrite E1, E2. split; f_equal. change (observed (_ :: fx)) with (S (observed fx)). lia.
Qed.
(** A handled datagram: the runner's call, and the time it took. *)
Record handling := MkHandling { h_env : runner.Env; h_port : string; h_inp : dgram; h_invoke : Z -> runner.outcome; h_cancelled : Z -> bool; h_us : Z }.
Definition afterHandling (r : runner.nodeRunner) (m : NodeMetrics) (h : handling) : NodeMetrics :=
  counted (h_us h) m (runner.handle r (h_env h) (h_port h) (h_inp h) (h_invoke h) (h_cancelled h)).
(** Whatever a node handles, the histogram's count that is exported equals its processed counter, and the
    counter wraps around as the number of datagrams that were processed. *)
Theorem count_is_processed r hs : let s := Snapshot (fold_left (afterHandling r) hs newNodeMetrics) in
  s_Processed s = debug.Count (s_Processing s) /\
  s_Processed s = u64 (foldr Z.add 0 (map (fun h => Z.of_nat (runner.countOf runner.Processed
    (runner.handle r (h_env h) (h_port h) (h_inp h) (h_invoke h) (h_cancelled h)))) hs)).
Proof.
  cbv zeta. cbn.
  assert (forall hs m p, Processed m = u64 p -> debug.count (Processing m) = u64 p ->
    let m' := fold_left (afterHandling r) hs m in
    let n := foldr Z.add 0 (map (fun h => Z.of_nat (runner.countOf runner.Processed (runner.handle r (h_env h) (h_port h) (h_inp h) (h_invoke h) (h_cancelled h)))) hs) in
    Processed m' = u64 (p + n) /\ debug.count (Processing m') = u64 (p + n)) as Hg.
  { clear hs. induction hs as [|h hs IH]; intros m p Hp Hq; cbn; [by rewrite Z.add_0_r|].
    pose proof (handle_observes r (h_env h) (h_port h) (h_inp h) (h_invoke h) (h_cancelled h)) as Hb. unfold balanced in Hb.
    destruct (counted_spec (h_us h) (runner.handle r (h_env h) (h_port h) (h_inp h) (h_invoke h) (h_cancelled h)) m p p Hp Hq) as [E1 E2].
    rewrite Hb in E2. rewrite Z.add_assoc. by apply IH. }
  destruct (Hg hs newNodeMetrics 0 eq_refl eq_refl) as [E1 E2]. rewrite E1, E2, Z.add_0_l. done.
Qed.

(** ** Snapshots of a deployment *)

Record NodeStats := MkNodeStats { Running : bool; StartCount : Z; ns_Metrics : MetricsSnapshot }.
Record WireStats := MkWireStats { FromNode : string; FromPort : string; ToNode : string; ToPort : string; ws_Depth : Z; ws_Capacity : Z; ws_Metrics : bus.Metrics }.
Record DeploymentMetrics := MkDeploymentMetrics { FlowID : string; Nodes : gmap string NodeStats; Wires : list WireStats }.
Section deployment.
(** The metrics object of each running node. *)
Context (nodeMetrics : string -> NodeMetrics).
Abbreviation Deployment := (deploy.Deployment (V := any)).
Definition statsOf (id : string) (rn : deploy.runningNode) : NodeStats := MkNodeStats true (deploy.startCount rn) (Snapshot (nodeMetrics id)).
Definition NodeStats_ (g : Deployment) (id : string) : option NodeStats := rn ← deploy.nodes g !! id; Some (statsOf id rn).
(** The inbox a wire of the flow leads to. *)
Definition inboxOf (g : Deployment) (w : flowfile.Wire) : option (bus.Wire (D := dgram)) :=
  a ← deploy.inboxes g !! deploy.endpoint (flowfile.To w); deploy.store g !! a.
Definition wireStats (g : Deployment) (w : flowfile.Wire) : option WireStats :=
  b ← inboxOf g w;
  Some (MkWireStats (flowfile.ep_Node (flowfile.From w)) (flowfile.ep_Port (flowfile.From w)) (flowfile.ep_Node (flowfile.To w)) (flowfile.ep_Port (flowfile.To w))
          (Z.of_nat (bus.Depth b)) (Z.of_nat (bus.WireCapacity b)) (bus.metrics b)).
Definition MetricsSnapshot_ (g : Deployment) : DeploymentMetrics :=
  MkDeploymentMetrics (deploy.flowID g) (map_imap (fun id rn => Some (statsOf id rn)) (deploy.nodes g)) (omap (wireStats g) (deploy.g_wires g)).
(** What [reportWireMetrics] sends to the debug sink: the ends of a wire and its two counters. *)
Definition reportWireMetrics (g : Deployment) : list (flowfile.Wire * bus.Metrics) :=
  omap (fun w => b ← inboxOf g w; Some (w, bus.metrics b)) (deploy.g_wires g).

(** The counters are those of the inbox, not of the wire: wires that lead to the same port report the same
    depth and the same totals, each as if all of it had come over it. *)
Theorem fan_in_reported_per_wire g w1 w2 s1 s2 : flowfile.To w1 = flowfile.To w2 -> wireStats g w1 = Some s1 -> wireStats g w2 = Some s2 ->
  ws_Depth s1 = ws_Depth s2 /\ ws_Capacity s1 = ws_Capacity s2 /\ ws_Metrics s1 = ws_Metrics s2.
Proof.
  unfold wireStats, inboxOf. intros E. rewrite E. intros (b & Hb & [= <-])%bind_Some (b' & Hb' & [= <-])%bind_Some. cbn.
  assert (b = b') as -> by congruence. done.
Qed.
(** Every running node is in the snapshot, and no other. *)
Lemma snapshot_nodes g id : Nodes (MetricsSnapshot_ g) !! id = NodeStats_ g id.
Proof. unfold MetricsSnapshot_, NodeStats_. cbn. rewrite map_lookup_imap. by destruct (deploy.nodes g !! id). Qed.
End deployment.

(** ** The text *)

Definition backslash : Ascii.ascii := Ascii.ascii_of_nat 92.
Definition dquote : Ascii.ascii := Ascii.ascii_of_nat 34.
Definition newline : Ascii.ascii := Ascii.ascii_of_nat 10.
Definition one (c : Ascii.ascii) : string := String c "".
Definition q : string := one dquote.
Definition replaceAll (s old new : string) : string := expr.ReplaceAll (String.length s) s old new.
Definition escape (s : string) : string :=
  let s := replaceAll s (one backslash) (one backslash +:+ one backslash) in
  let s := replaceAll s (one dquote) (one backslash +:+ one dquote) in
  replaceAll s (one newline) (one backslash +:+ "n").
(** A byte under [%q]; bytes beyond ASCII are taken to be parts of printable characters. *)
Definition hexDigit (n : nat) : Ascii.ascii := Ascii.ascii_of_nat (if (n <? 10)%nat then 48 + n else 87 + n).
Definition quoteChar (c : Ascii.ascii) : string :=
  let n := Ascii.nat_of_ascii c in
  if decide (c = dquote \/ c = backslash) then String backslash (one c)
  else if (32 <=? n)%nat && negb (n =? 127)%nat then one c
  else match n with
       | 7 => one backslash +:+ "a" | 8 => one backslash +:+ "b" | 9 => one backslash +:+ "t" | 10 => one backslash +:+ "n"
       | 11 => one backslash +:+ "v" | 12 => one backslash +:+ "f" | 13 => one backslash +:+ "r"
       | _ => one backslash +:+ "x" +:+ one (hexDigit (n / 16)) +:+ one (hexDigit (n mod 16))
       end%nat.
Fixpoint quoteChars (s : string) : string := match s with "" => "" | String c s => quoteChar c +:+ quoteChars s end.
Definition Quote (s : string) : string := q +:+ quoteChars s +:+ q.
Fixpoint joinComma (l : list string) : string := match l with [] => "" | [s] => s | s :: l => s +:+ "," +:+ joinComma l end.
Definition labels (ls : list (string * string)) : string := joinComma (map (fun l => l.1 +:+ "=" +:+ Quote (escape l.2)) ls).
Definition nodeLabels (flowID nodeID : string) : string := labels [("flow", flowID); ("node", nodeID)].
Definition wireLabels (flowID : string) (w : WireStats) : string :=
  labels [("flow", flowID); ("from_node", FromNode w); ("from_port", FromPort w); ("to_node", ToNode w); ("to_port", ToPort w)].

Section text.
(** [strconv.FormatFloat]; the order [sort.Slice] gives to wires, which it leaves open for equal keys. *)
Context (formatFloat : float64 -> string) (sortWires : list WireStats -> list WireStats).
Definition formatInt (z : Z) : string := string_of_bytes (FormatInt z).
Definition line (s : string) : string := s +:+ one newline.
Definition sample (name ls v : string) : string := line (name +:+ "{" +:+ ls +:+ "} " +:+ v).
Definition header_ (name help typ : string) : list string := [line ("# HELP " +:+ name +:+ " " +:+ help); line ("# TYPE " +:+ name +:+ " " +:+ typ)].
Record RuntimeInfo := MkRuntimeInfo { RuntimeID : string; CPUPercent : float64; MemoryBytes : Z }.
Definition writeRuntimeGauges (rt : RuntimeInfo) : list string :=
  let rl := labels [("runtime", RuntimeID rt)] in
  header_ "datapipe_runtime_cpu_percent" "Runtime process CPU usage percent, sampled since the last Heartbeat." "gauge"
  ++ [sample "datapipe_runtime_cpu_percent" rl (formatFloat (CPUPercent rt))]
  ++ header_ "datapipe_runtime_memory_bytes" "Runtime process memory usage in bytes." "gauge"
  ++ [sample "datapipe_runtime_memory_bytes" rl (formatInt (MemoryBytes rt))].
Definition sortedKeys (m : gmap string NodeStats) : list string := sortBy (fun k => k) (elements (dom m)).
(** The nodes in order, with their statistics. *)
Definition sortedNodes (dm : DeploymentMetrics) : list (string * MetricsSnapshot) :=
  omap (fun id => n ← Nodes dm !! id; Some (id, ns_Metrics n)) (sortedKeys (Nodes dm)).
Definition nodeCounter (dm : DeploymentMetrics) (name help : string) (f : MetricsSnapshot -> Z) : list string :=
  header_ name help "counter" ++ map (fun n => sample name (nodeLabels (FlowID dm) n.1) (formatInt (f n.2))) (sortedNodes dm).
Definition durations : string := "datapipe_node_processing_duration_seconds".
Definition nodeHistogram (flowID : string) (n : string * MetricsSnapshot) : list string :=
  let h := s_Processing n.2 in let nl := nodeLabels flowID n.1 in
  zip_with (fun bound c => sample (durations +:+ "_bucket") (nl +:+ ",le=" +:+ q +:+ formatFloat (fdiv bound (of_Z 1000)) +:+ q) (formatInt c))
    (debug.BucketBounds h) (debug.BucketCounts h)
  ++ [sample (durations +:+ "_bucket") (nl +:+ ",le=" +:+ q +:+ "+Inf" +:+ q) (formatInt (debug.Count h));
      sample (durations +:+ "_sum") nl (formatFloat (fdiv (of_Z (debug.SumUs h)) (of_Z 1000000)));
      sample (durations +:+ "_count") nl (formatInt (debug.Count h))].
Definition writeNodeMetrics (dm : DeploymentMetrics) : list string :=
  nodeCounter dm "datapipe_node_processed_total" "Datagrams successfully processed by this node." s_Processed
  ++ nodeCounter dm "datapipe_node_errors_total" "Node invocations that ended in an error." s_Errors
  ++ nodeCounter dm "datapipe_node_retries_total" ("Retry attempts made under an " +:+ q +:+ "onError: retry" +:+ q +:+ " policy.") s_Retries
  ++ header_ durations "Per-invocation processing time." "histogram" ++ flat_map (nodeHistogram (FlowID dm)) (sortedNodes dm).
Definition wireSeries (dm : DeploymentMetrics) (name help typ : string) (f : WireStats -> Z) : list string :=
  header_ name help typ ++ map (fun w => sample name (wireLabels (FlowID dm) w) (formatInt (f w))) (sortWires (Wires dm)).
Definition writeWireMetrics (dm : DeploymentMetrics) : list string :=
  wireSeries dm "datapipe_wire_queue_depth" "Current number of datagrams buffered on this wire." "gauge" ws_Depth
  ++ wireSeries dm "datapipe_wire_queue_capacity" "Configured bounded-queue size for this wire (BUS-110)." "gauge" ws_Capacity
  ++ wireSeries dm "datapipe_wire_delivered_total" "Datagrams delivered across this wire." "counter" (fun w => bus.Delivered (ws_Metrics w))
  ++ wireSeries dm "datapipe_wire_dropped_total" "Datagrams dropped by this wire's overflow policy (BUS-110)." "counter" (fun w => bus.Dropped (ws_Metrics w)).
Definition FormatPrometheus (dm : DeploymentMetrics) (rt : RuntimeInfo) : string :=
  foldr String.append "" (writeRuntimeGauges rt ++ writeNodeMetrics dm ++ writeWireMetrics dm).
End text.

(** ** What a scraper reads *)

(** The value of a label in the exposition format, after its opening quote: backslash escapes a backslash,
    a quote or an [n]. *)
Fixpoint readValue (s : string) : option (string * string) :=
  match s with
  | "" => None
  | String c s =>
      if decide (c = dquote) then Some ("", s)
      else if decide (c = backslash) then
        match s with
        | "" => None
        | String d s =>
            if decide (d = backslash \/ d = dquote) then '(v, r) ← readValue s; Some (String d v, r)
            else if decide (d = Ascii.ascii_of_nat 110) then '(v, r) ← readValue s; Some (String newline v, r)
            else None
        end
      else '(v, r) ← readValue s; Some (String c v, r)
  end.
(** A text without control characters. *)
Fixpoint tame (s : string) : bool :=
  match s with "" => true | String c s => let n := Ascii.nat_of_ascii c in ((32 <=? n)%nat && negb (n =? 127)%nat) && tame s end.
(** Read back, a quoted text is the text: quoting alone is the escaping of the format. *)
Lemma readValue_quote s r : tame s = true -> readValue (quoteChars s +:+ q +:+ r) = Some (s, r).
Proof.
  induction s as [|c s IH]; intros Ht.
  - change (quoteChars "" +:+ q +:+ r) with (String dquote r). cbn. by rewrite decide_True.
  - cbn [tame] in Ht. apply andb_true_iff in Ht as [Hc Ht]. specialize (IH Ht). cbn [quoteChars]. rewrite str_app_assoc.
    unfold quoteChar. destruct (decide (c = dquote \/ c = backslash)) as [Hd|Hd].
    + change (String backslash (one c) +:+ (quoteChars s +:+ q +:+ r)) with (String backslash (String c (quoteChars s +:+ q +:+ r))).
      cbn [readValue]. rewrite (decide_False (P := backslash = dquote)), (decide_True (P := backslash = backslash)) by done.
      rewrite (decide_True (P := c = backslash \/ c = dquote)) by tauto. by rewrite IH.
    + rewrite Hc. change (one c +:+ (quoteChars s +:+ q +:+ r)) with (String c (quoteChars s +:+ q +:+ r)).
      cbn [readValue]. rewrite !decide_False by tauto. by rewrite IH.
Qed.
(** [escape] byte by byte. *)
Fixpoint escapeChars (s : string) : string :=
  match s with
  | "" => ""
  | String c s => (if decide (c = backslash \/ c = dquote) then String backslash (one c)
                   else if decide (c = newline) then String backslash "n" else one c) +:+ escapeChars s
  end.
Fixpoint substChar (x : Ascii.ascii) (new s : string) : string :=
  match s with "" => "" | String c s => (if decide (c = x) then new else one c) +:+ substChar x new s end.
Lemma replaceAll_char x new s : replaceAll s (one x) new = substChar x new s.
Proof.
  unfold replaceAll, one. induction s as [|c s IH]; [done|]. cbn -[decide String.append].
  destruct (decide (x = c)) as [<- |Hne].
  - rewrite decide_True by done. by rewrite IH.
  - rewrite decide_False by congruence. rewrite IH. done.
Qed.
Lemma substChar_app x new a b : substChar x new (a +:+ b) = substChar x new a +:+ substChar x new b.
Proof.
  induction a as [|c a IH]; [done|]. change (String c a +:+ b) with (String c (a +:+ b)). cbn [substChar]. by rewrite IH, str_app_assoc.
Qed.
Lemma escape_chars s : escape s = escapeChars s.
Proof.
  unfold escape. cbv zeta. rewrite !replaceAll_char. induction s as [|c s IH]; [done|]. cbn [substChar escapeChars].
  rewrite !substChar_app, IH. f_equal.
  destruct (decide (c = backslash)) as [-> |H1]; [done|]. destruct (decide (c = dquote)) as [-> |H2]; [by vm_compute|].
  rewrite (decide_False (P := c = backslash \/ c = dquote)) by tauto. cbn [one substChar].
  rewrite (decide_False (P := c = dquote)) by done. rewrite str_app_nil. cbn [one substChar].
  rewrite str_app_nil. by destruct (decide (c = newline)).
Qed.
Fixpoint clean (s : string) : bool :=
  match s with "" => true | String c s => (((32 <=? Ascii.nat_of_ascii c)%nat && negb (Ascii.nat_of_ascii c =? 127)%nat) || bool_decide (c = newline)) && clean s end.
Fixpoint special (s : string) : bool :=
  match s with "" => false | String c s => bool_decide (c = backslash \/ c = dquote \/ c = newline) || special s end.
Lemma tame_app a b : tame (a +:+ b) = tame a && tame b.
Proof. induction a as [|c a IH]; [done|]. change (String c a +:+ b) with (String c (a +:+ b)). cbn [tame]. by rewrite IH, andb_assoc. Qed.
Lemma escape_tame s : clean s = true -> tame (escape s) = true.
Proof.
  rewrite escape_chars. induction s as [|c s IH]; [done|]. cbn [clean escapeChars]. intros [Hc Hs]%andb_true_iff. rewrite tame_app, IH by done.
  rewrite andb_true_r. destruct (decide (c = backslash \/ c = dquote)) as [[-> | ->]|]; [done..|].
  destruct (decide (c = newline)) as [-> |Hn]; [done|]. apply orb_true_iff in Hc as [Hc|Hc]; [|by apply bool_decide_eq_true in Hc].
  cbn [one tame]. by rewrite Hc.
Qed.
Lemma text_length_app (a b : string) : String.length (a +:+ b) = (String.length a + String.length b)%nat.
Proof. induction a as [|c a IH]; [done|]. change (S (String.length (a +:+ b)) = S (String.length a + String.length b)). by rewrite IH. Qed.
Lemma escape_longer s : (String.length s + (if special s then 1 else 0) <= String.length (escape s))%nat.
Proof.
  rewrite escape_chars. induction s as [|c s IH]; [done|]. cbn [special escapeChars]. rewrite text_length_app.
  case_bool_decide as Hb; cbn [orb].
  - destruct (decide (c = backslash \/ c = dquote)); [|rewrite decide_True by tauto]; cbn; destruct (special s); lia.
  - rewrite !decide_False by tauto. cbn. lia.
Qed.
(** What is scraped as the value of a label: the value with the escapes of [escape] still in it, because
    the text is escaped twice.  It is the value exactly when there was nothing to escape. *)
Theorem label_scraped v r : clean v = true ->
  readValue (quoteChars (escape v) +:+ q +:+ r) = Some (escape v, r) /\ (escape v = v <-> special v = false).
Proof.
  intros Hc. split; [by apply readValue_quote, escape_tame|]. split.
  - intros E. pose proof (escape_longer v) as H. rewrite E in H. destruct (special v); [lia|done].
  - rewrite escape_chars. clear Hc. induction v as [|c v IH]; [done|]. cbn [special escapeChars]. intros [Hb Hs]%orb_false_iff.
    apply bool_decide_eq_false in Hb. rewrite !decide_False by tauto. rewrite IH by done. done.
Qed.
End metrics.
