(* ===== verification/ConnTest.v ===== *)
(** * Connection tests ([controlplane/internal/conntest])

    The check behind the editor's button: for each type of connection, what is probed, given the
    configuration and the credential as they parse and what the probed system answers.  The theorems
    compare what the test probes with what the nodes of the engine connect to. *)

From S2P Require Import Prelude Bytes GoStd Float Datagram Execution Value Modbus SecsGemShared SqlShared Messaging DataStores.
Import gostd.
Local Open Scope Z_scope.

Module conntest.
Import messaging datastores.

Record Result := MkResult { OK : bool; Message : string }.
Definition fail (m : string) : Result := MkResult false m.
Definition connected : Result := MkResult true "connected successfully".
(** What a probe ends with: an error, or success. *)
Definition probed (e : option string) : Result := match e with Some m => fail m | None => connected end.
(** The two [json.Unmarshal]s with the check between them. *)
Definition with_config {C K} (i : connInfo C K) (zero : K) (check : C -> option string) (f : C -> K -> Result) : Result :=
  match ci_config i with
  | None => fail "invalid config"
  | Some c =>
      match check c with
      | Some m => fail m
      | None => match ci_cred i with None => f c zero | Some (Some k) => f c k | Some None => fail "invalid credential" end
      end
  end.
Definition require (ok : bool) (m : string) : option string := if ok then None else Some m.
Lemma with_config_ok {C K} (i : connInfo C K) zero check chk (f : C -> K -> Result) :
  (forall c, check c = None <-> chk c = true) ->
  OK (with_config i zero check f) = true <-> exists c k, resolve (Some i) chk zero = Ok (c, k) /\ OK (f c k) = true.
Proof.
  intros Hc. unfold with_config, resolve. destruct (ci_config i) as [c|]; [|split; [done|intros (c & k & E & _); done]].
  specialize (Hc c). destruct (check c) as [m|] eqn:E.
  - destruct (chk c); [discriminate (proj2 Hc eq_refl)|]. split; [done|]. by intros (? & ? & ? & _).
  - rewrite (proj1 Hc eq_refl). destruct (ci_cred i) as [[k|]|].
    + split; [intros H; by exists c, k|]. by intros (? & ? & [= <- <-] & H).
    + split; [done|]. by intros (? & ? & ? & _).
    + split; [intros H; by exists c, zero|]. by intros (? & ? & [= <- <-] & H).
Qed.
Lemma require_none b m : require b m = None <-> b = true.
Proof. unfold require. by destruct b. Qed.

(** [Test]: which probe a type of connection gets; the results are those of the probes below. *)
Definition Test (connType : string) (sql mqtt mongo redis kafka s3 modbus opcua secsgem : Result) : Result :=
  if decide (connType ∈ ["postgres"; "mysql"; "mssql"; "sqlite"]) then sql
  else if decide (connType = "mqtt") then mqtt
  else if decide (connType = "mongodb") then mongo
  else if decide (connType = "redis") then redis
  else if decide (connType = "kafka") then kafka
  else if decide (connType = "s3") then s3
  else if decide (connType = "modbus") then modbus
  else if decide (connType = "opcua") then opcua
  else if decide (connType = "secsgem") then secsgem
  else MkResult true "no live test available for this connection type; config was accepted as-is".
(** A text between double quotes. *)
Definition dq (s : string) : string := String (Ascii.ascii_of_nat 34) (s +:+ String (Ascii.ascii_of_nat 34) "").

Section tests.
Context (QueryEscape : string -> string) (sqlserverURL : string -> string -> string -> string -> string).

Definition testSQL (connType : string) (i : connInfo sqlshared.Config sqlshared.Credential) (open ping : string -> string -> option string) : Result :=
  with_config i (sqlshared.MkCredential "" "") (fun _ => None) (fun cfg cred =>
    match sqlshared.dsnFor QueryEscape sqlserverURL connType cfg cred with
    | Ok (driver, _, dsn) => match open driver dsn with Some m => fail m | None => probed (ping driver dsn) end
    | Err e => fail e
    | Panic => fail ""
    end).
Definition testMQTT (suffix : string) (i : connInfo BrokerConfig Login) (connect : clientOptions -> option string) : Result :=
  with_config i (MkLogin "" "") (fun c => require (bool_decide (BrokerURL c <> "")) "brokerUrl is required") (fun c cred =>
    probed (connect (MkClientOptions (BrokerURL c) ("datapipe-conntest-" +:+ suffix) (if decide (Username cred = "") then None else Some cred)))).
(** The address, and the login with its database. *)
Definition testMongo (i : connInfo MongoConn Login) (connect ping : string * option (Login * string) -> option string) : Result :=
  with_config i (MkLogin "" "") (fun c => require (bool_decide (g_Host c <> "" /\ g_Database c <> "")) "host and database are required") (fun c cred =>
    let port := if g_Port c =? 0 then 27017 else g_Port c in
    let t := (g_Host c +:+ ":" +:+ string_of_bytes (FormatInt port), if decide (Username cred = "") then None else Some (cred, g_AuthSource c)) in
    match connect t with Some m => fail m | None => probed (ping t) end).
Definition testRedis (i : connInfo RedisConn Login) (ping : redisOptions -> option string) : Result :=
  with_config i (MkLogin "" "") (fun c => require (bool_decide (r_Host c <> "")) "host is required") (fun c cred =>
    let port := if r_Port c =? 0 then 6379 else r_Port c in
    probed (ping (MkRedisOptions (r_Host c +:+ ":" +:+ string_of_bytes (FormatInt port)) cred (r_DB c)))).
(** The credential is not looked at: a plain dialer to the first broker. *)
Definition testKafka (i : connInfo KafkaConn Login) (dial brokers : string -> option string) : Result :=
  match ci_config i with
  | None => fail "invalid config"
  | Some c =>
      match Brokers c with
      | [] => fail "at least one broker is required"
      | b :: _ => match dial b with Some m => fail m | None => probed (brokers b) end
      end
  end.
Definition testS3 (i : connInfo S3Conn AccessKey) (load : option string) (headBucket : s3Client -> option string) : Result :=
  with_config i (MkAccessKey "" "") (fun c => require (bool_decide (s_Bucket c <> "")) "bucket is required") (fun c cred =>
    let region := if decide (s_Region c = "") then "us-east-1" else s_Region c in
    match load with
    | Some m => fail m
    | None => probed (headBucket (MkS3Client region (s_Bucket c) (if decide (s_Endpoint c = "") then None else Some (s_Endpoint c)) (s_PathStyle c)
                (if decide (AccessKeyID cred = "") then None else Some cred)))
    end).
Definition testModbus (i : connInfo modbusshared.Config unit) (connect : string * Z -> option string) : Result :=
  match ci_config i with
  | None => fail "invalid config"
  | Some c =>
      if decide (modbusshared.Mode c <> "tcp") then MkResult true "no live test available for serial (RTU) connections; config was accepted as-is"
      else if bool_decide (modbusshared.Host (modbusshared.TCP c) = "") || (modbusshared.TPort (modbusshared.TCP c) =? 0) then fail "tcp.host and tcp.port are required"
      else probed (connect (modbusshared.Host (modbusshared.TCP c), modbusshared.TPort (modbusshared.TCP c)))
  end.
Definition testOPCUA (i : connInfo OpcConn Login) (create connect : string * list opcOption -> option string) : Result :=
  with_config i (MkLogin "" "") (fun c => require (bool_decide (oc_Endpoint c <> "")) "endpoint is required") (fun c cred =>
    let opts := [OPolicy (orDefault (oc_Policy c) "None"); OMode (orDefault (oc_SecMode c) "None"); if decide (oc_Auth c = "username") then OUser cred else OAnonymous] in
    match create (oc_Endpoint c, opts) with Some m => fail m | None => probed (connect (oc_Endpoint c, opts)) end).
(** [dial] and [areYouThere]: the error, or the equipment's model and revision. *)
Definition testSECSGEM (i : connInfo secsgemshared.Config unit) (quoted : string -> string) (dial : string * Z * secsgemshared.Timers -> option string)
    (areYouThere : string * string -> string + (string * string)) : Result :=
  match ci_config i with
  | None => fail "invalid config"
  | Some c =>
      if secsgemshared.Port_ c =? 0 then fail "port is required"
      else if decide (secsgemshared.Mode c <> "active") then MkResult true ("no live test available for mode " +:+ dq "passive" +:+ " connections (the equipment dials in, not the control plane); config was accepted as-is")
      else if decide (secsgemshared.Host_ c = "") then fail ("host is required for mode " +:+ dq "active")
      else
        let t := secsgemshared.HSMSTimers c in
        let timers := secsgemshared.MkTimers (secsgemshared.T3 t) (secsgemshared.T5 t) 10000000000 (secsgemshared.T7 t) (secsgemshared.T8 t) (secsgemshared.Linktest t) in
        match dial (secsgemshared.Addr c, u16 (secsgemshared.SessionID c), timers) with
        | Some m => fail m
        | None =>
            match areYouThere (secsgemshared.Identity c) with
            | inl m => fail ("HSMS Select succeeded but Are-You-There (S1F1) failed: " +:+ m)
            | inr (mdln, rev) => MkResult true ("connected, selected, and equipment responded (model " +:+ quoted mdln +:+ ", software revision " +:+ quoted rev +:+ ")")
            end
        end
  end.
End tests.

(** ** The test and the nodes *)

(** For MQTT, Redis, MongoDB and S3 the test succeeds exactly when a node with the connection would get as
    far as connecting, and the system answers to the same address, login and options the node uses. *)
Theorem test_is_what_nodes_use :
  (forall i sfx sfx' connect, OK (testMQTT sfx i connect) = true <->
     exists o, mqttOptions (Some i) sfx' = Ok o /\ connect (MkClientOptions (op_broker o) ("datapipe-conntest-" +:+ sfx) (op_login o)) = None) /\
  (forall i ping, OK (testRedis i ping) = true <-> exists o, redisOptions_of (Some i) = Ok o /\ ping o = None) /\
  (forall i connect ping, OK (testMongo i connect ping) = true <-> exists u, mongoURI_of (Some i) = Ok u /\
     let t := (u_host u, (fun l => (l, default "" (u_authSource u))) <$> u_login u) in connect t = None /\ ping t = None) /\
  (forall i head, OK (testS3 i None head) = true <-> exists cl, s3Connect (Some i) true = Ok cl /\ head cl = None).
Proof.
  assert (forall e, OK (probed e) = true <-> e = None) as Hp by (intros [m|]; done).
  split_and!.
  - intros i sfx sfx' connect. unfold testMQTT, mqttOptions. rewrite (with_config_ok i _ _ (fun c => bool_decide (BrokerURL c <> ""))) by (intros; apply require_none).
    split.
    + intros (c & k & -> & H%Hp). eexists. by split.
    + intros (o & H & Hc). destruct (resolve _ _ _) as [[c k]|e|]; try done. cbn in H. injection H as <-. exists c, k. split; [done|]. by apply Hp.
  - intros i ping. unfold testRedis, redisOptions_of. rewrite (with_config_ok i _ _ (fun c => bool_decide (r_Host c <> ""))) by (intros; apply require_none).
    split.
    + intros (c & k & -> & H%Hp). eexists. by split.
    + intros (o & H & Hc). destruct (resolve _ _ _) as [[c k]|e|]; try done. cbn in H. injection H as <-. exists c, k. split; [done|]. by apply Hp.
  - intros i connect ping. unfold testMongo, mongoURI_of. rewrite (with_config_ok i _ _ (fun c => bool_decide (g_Host c <> "" /\ g_Database c <> ""))) by (intros; apply require_none).
    assert (forall c (k : Login), (fun l => (l, default "" (if decide (g_AuthSource c = "") then None else Some (g_AuthSource c)))) <$> (if decide (Username k = "") then None else Some k) =
      if decide (Username k = "") then None else Some (k, g_AuthSource c)) as E.
    { intros c k. destruct (decide (Username k = "")); [done|]. cbn. by destruct (decide (g_AuthSource c = "")) as [-> |]. }
    split.
    + intros (c & k & -> & H). eexists. split; [reflexivity|]. cbn [u_host u_authSource u_login]. rewrite E.
      destruct (connect _); [done|]. by apply Hp in H.
    + intros (u & H & Hc). destruct (resolve _ _ _) as [[c k]|e|]; try done. cbn in H. injection H as <-. cbn [u_host u_authSource u_login] in Hc. rewrite E in Hc.
      destruct Hc as [H1 H2]. exists c, k. split; [done|]. rewrite H1. by apply Hp.
  - intros i head. unfold testS3, s3Connect. rewrite (with_config_ok i _ _ (fun c => bool_decide (s_Bucket c <> ""))) by (intros; apply require_none).
    split.
    + intros (c & k & -> & H%Hp). eexists. by split.
    + intros (o & H & Hc). destruct (resolve _ _ _) as [[c k]|e|]; try done. cbn in H. injection H as <-. exists c, k. split; [done|]. by apply Hp.
Qed.
(** For SQL too: the driver and the data source name are those of the nodes. *)
Theorem sql_test_is_what_nodes_use QueryEscape sqlserverURL ty i open ping : OK (testSQL QueryEscape sqlserverURL ty i open ping) = true <->
  exists cfg cred driver dialect dsn, resolve (Some i) (fun _ => true) (sqlshared.MkCredential "" "") = Ok (cfg, cred) /\
    sqlshared.dsnFor QueryEscape sqlserverURL ty cfg cred = Ok (driver, dialect, dsn) /\ open driver dsn = None /\ ping driver dsn = None.
Proof.
  unfold testSQL. rewrite (with_config_ok i _ _ (fun _ => true)) by done. split.
  - intros (c & k & -> & H). destruct (sqlshared.dsnFor _ _ ty c k) as [[[driver dialect] dsn]|e|] eqn:E; try done.
    destruct (open driver dsn) eqn:Eo; [done|]. destruct (ping driver dsn) eqn:Ep; [done|]. by exists c, k, driver, dialect, dsn.
  - intros (c & k & driver & dialect & dsn & -> & E & Eo & Ep). exists c, k. split; [done|]. by rewrite E, Eo, Ep.
Qed.
(** The Kafka test does not use what the nodes use: neither the credential nor the TLS setting has any
    influence on it, so it cannot tell a wrong password, and it dials a TLS broker in plain text. *)
Theorem kafka_test_ignores_login c c' k k' dial brokers : hd_error (Brokers c) = hd_error (Brokers c') ->
  testKafka (MkInfo (Some c) k) dial brokers = testKafka (MkInfo (Some c') k') dial brokers.
Proof. unfold testKafka. cbn. destruct (Brokers c) as [|b bs], (Brokers c') as [|b' bs']; cbn; intros H; try done. by injection H as ->. Qed.
(** The OPC UA test accepts a kind of authentication the nodes refuse, and leaves out certificates. *)
Lemma opcua_test_accepts_unknown_auth : exists c, OK (testOPCUA (MkInfo (Some c) None) (fun _ => None) (fun _ => None)) = true /\
  is_ok (opcOptions (Some (MkInfo (Some c) None))) = false.
Proof. exists (MkOpcConn "opc.tcp://host:4840" "" "" "certificate" "" ""). by vm_compute. Qed.
(** A Modbus configuration with a mode that no node accepts passes as a serial one. *)
Lemma modbus_test_accepts_any_mode c connect : modbusshared.Mode c <> "tcp" -> modbusshared.Mode c <> "rtu" ->
  OK (testModbus (MkInfo (Some c) None) connect) = true /\ is_ok (modbusshared.Validate c) = false.
Proof.
  intros H1 H2. unfold testModbus, modbusshared.Validate. cbn [ci_config]. rewrite decide_True by done. split; [done|].
  by rewrite !decide_False.
Qed.
End conntest.
