(* ===== verification/Preview.v ===== *)
(** * The palette of the editor and samples of a source

    [ListNodeTypes] with its handler ([engine/flow/registry.go], [nodetypes.go]); [PreviewSource] ([engine/flow/preview.go]) with the values that the context of a node carries
    ([connection.go], [ctxstorectx.go], [resolvedenvctx.go], [debugctx.go]), and the handler
    [previewNode] ([controlplane/internal/api/preview_handler.go]).  A source is a program that acts step by
    step and may look, at each step, whether its context is done. *)

From stdpp Require Import sorting.
From S2P Require Import Prelude GoStd Datagram Execution Value FlowFile Runner Auth Registry FlowStore DebugHub DebugApi Messaging DataStores.
Import gostd datagram execution value.
Local Open Scope Z_scope.

#[local] Instance NodeKind_eq_dec_preview : EqDecision flowfile.NodeKind.
Proof. solve_decision. Defined.

Module preview.

(** ** The palette *)

Definition ListNodeTypes (reg : flowfile.Registry) : list (string * flowfile.NodeTypeInfo) :=
  sortBy fst (map (prod_map id flowfile.info) (map_to_list reg)).
Record NodeType := MkNodeType {
  n_Type : string; n_DisplayName : string; n_Category : string; n_Description : string; n_Kind : string;
  n_Inputs : list string; n_Outputs : list string; n_ConfigSchema : string
}.
Definition toNodeType (n : string * flowfile.NodeTypeInfo) : NodeType :=
  MkNodeType n.1 (flowfile.DisplayName n.2) (flowfile.Category n.2) (flowfile.nt_Description n.2)
    (if decide (flowfile.nt_Kind n.2 = flowfile.KindSource) then "source" else "processor")
    (flowfile.Inputs n.2) (flowfile.nt_Outputs n.2) (flowfile.ConfigSchema n.2).
Definition listNodeTypes (reg : flowfile.Registry) : list NodeType := map toNodeType (ListNodeTypes reg).
(** The palette shows every registered type once, in the order of the names, with what it was registered
    with. *)
Theorem palette_complete reg :
  StronglySorted (key_le n_Type) (listNodeTypes reg) /\ NoDup (map n_Type (listNodeTypes reg)) /\
  forall t, t ∈ listNodeTypes reg <-> exists ty r, reg !! ty = Some r /\ t = toNodeType (ty, flowfile.info r).
Proof.
  assert (listNodeTypes reg = sortBy n_Type (map toNodeType (map (prod_map id flowfile.info) (map_to_list reg)))) as E.
  { unfold listNodeTypes, ListNodeTypes. symmetry. by apply sortBy_map. }
  split_and!.
  - rewrite E. apply sortBy_sorted.
  - assert (map n_Type (listNodeTypes reg) ≡ₚ (map_to_list reg).*1) as ->; [|apply NoDup_fst_map_to_list].
    rewrite E. unfold fmap, list_fmap. rewrite sortBy_permutes, !map_map. done.
  - intros t. rewrite E, sortBy_permutes, map_map, list_elem_of_fmap. split.
    + intros ([ty r] & -> & H%elem_of_map_to_list). by exists ty, r.
    + intros (ty & r & H & ->). exists (ty, r). split; [done|]. by apply elem_of_map_to_list.
Qed.

(** ** What a context carries *)

Record ConnectionInfo := MkConnectionInfo { Type_ : string; Config : string; CredentialJSON : option string }.
Definition ConnectionResolver := string -> res string ConnectionInfo.
Definition NoopConnectionResolver : ConnectionResolver := fun _ => Err "flow: connection resolver not configured".
(** The values under the four keys; a store is an address, the debug context its flow and node. *)
Record ctx := MkCtx {
  cx_connection : option (ConnectionResolver * string); cx_store : option nat; cx_env : option (gmap string string); cx_debug : option (string * string)
}.
(** The context of a request of the control plane has none of them. *)
Definition Background : ctx := MkCtx None None None None.
Definition WithConnection (c : ctx) (r : ConnectionResolver) (connectionID : string) : ctx :=
  MkCtx (Some (r, connectionID)) (cx_store c) (cx_env c) (cx_debug c).
Definition WithContextStore (c : ctx) (store : nat) : ctx := MkCtx (cx_connection c) (Some store) (cx_env c) (cx_debug c).
Definition WithResolvedEnv (c : ctx) (env : gmap string string) : ctx := MkCtx (cx_connection c) (cx_store c) (Some env) (cx_debug c).
Definition withDebugContext (c : ctx) (flowID nodeID : string) : ctx := MkCtx (cx_connection c) (cx_store c) (cx_env c) (Some (flowID, nodeID)).
Definition ContextStore (c : ctx) : option nat := cx_store c.
Definition ResolvedEnv (c : ctx) : option (gmap string string) := cx_env c.
Definition CurrentIDs (c : ctx) : string * string := default ("", "") (cx_debug c).
Definition ResolveConnection (c : ctx) : res string ConnectionInfo :=
  match cx_connection c with
  | None => Err "flow: no connection context (node not started under a Deployment)"
  | Some (r, id) => if decide (id = "") then Err "flow: this node has no connection configured" else r id
  end.
(** The context [startNode] gives a node. *)
Definition nodeCtx (c : ctx) (r : ConnectionResolver) (store : nat) (env : gmap string string) (flowID : string) (n : flowfile.Node) : ctx :=
  WithResolvedEnv (WithContextStore (WithConnection (withDebugContext c flowID (flowfile.ID n)) r (flowfile.Connection n)) store) env.

(** ** The preview *)

Definition DefaultPreviewMaxRecords : Z := 10.
Definition DefaultPreviewTimeout : Z := 10000000000.
Inductive runErr := ECanceled | EDeadlineExceeded | EOther (msg : string).
(** What a source does next: emit, return, panic, or wait for something else. *)
Inductive act := AEmit (port : string) (d : dgram) | AReturn (e : option runErr) | APanic (v : string) | AWait.

Section run.
(** The code of a source, which sees whether its context is done. *)
Context {St : Type} (next : St -> bool -> act * St).

(** [src.Run] with the callback of the preview, under a context that is done from step [k] on if [ended k]:
    the time is up, or the caller has gone.  [None]: still running. *)
Fixpoint collect (maxRecords : Z) (ended : nat -> bool) (fuel k : nat) (cancelled : bool) (st : St) (collected : list portDgm)
  : option (list portDgm * option runErr) :=
  match fuel with
  | O => None
  | S fuel =>
      let stop := cancelled || ended k in
      match next st stop with
      | (AEmit port d, st) =>
          let collected := collected ++ [MkPortDatagram port d] in
          let full := maxRecords <=? Z.of_nat (length collected) in
          collect maxRecords ended fuel (S k) (stop || full) st collected
      | (AWait, st) => collect maxRecords ended fuel (S k) stop st collected
      | (AReturn e, _) => Some (collected, e)
      | (APanic v, _) => Some (collected, Some (EOther ("flow: node type panicked during preview: " +:+ v)))
      end
  end.
Definition answer (r : list portDgm * option runErr) : res string (list portDgm) :=
  match r with
  | ([], Some (EOther m)) => Err m
  | (l, _) => Ok l
  end.
End run.

Section preview_source.
Context {St : Type} (next : St -> bool -> act * St) (types : flowfile.Registry)
        (start : string -> string -> ctx -> St).
(** [ended timeout k]: the context with this timeout is done at step [k].  [None]: the call has not returned. *)
Definition PreviewSource (c : ctx) (nodeType config : string) (maxRecords timeout : Z) (ended : Z -> nat -> bool) (fuel : nat)
  : option (res string (list portDgm)) :=
  match flowfile.Lookup types nodeType with
  | None => Some (Err "flow: unknown node type")
  | Some (info, factory) =>
      if decide (flowfile.nt_Kind info <> flowfile.KindSource) then Some (Err "flow: node type is not a Source; preview only applies to sources (MAP-110)")
      else match factory config with
           | Err e => Some (Err ("flow: configuring node: " +:+ e))
           | Panic => Some Panic
           | Ok instance =>
               if flowfile.isSource instance then
                 let maxRecords := if maxRecords <=? 0 then DefaultPreviewMaxRecords else maxRecords in
                 let timeout := if timeout <=? 0 then DefaultPreviewTimeout else timeout in
                 answer <$> collect next maxRecords (ended timeout) fuel 0 false (start nodeType config c) []
               else Some (Err "flow: node type factory did not return a Source")
           end
  end.

Definition previewNode (Parse : string -> option flowfile.FlowFile) (w : flowstore.world) (e : flowstore.env) (user : auth.User)
    (flowID nodeID : string) (ended : Z -> nat -> bool) (fuel : nat) : option (res Z (list portDgm)) :=
  match flowstore.flowAndAuthorize w e user flowID auth.RoleEditor with
  | inr st => Some (Err st)
  | inl f =>
      match Parse (flowstore.Content f) with
      | None => Some (Err 400)
      | Some ff =>
          match debugapi.find_node ff nodeID with
          | None => Some (Err 400)
          | Some n =>
              match PreviewSource Background (flowfile.Type_ n) (flowfile.Config n) DefaultPreviewMaxRecords DefaultPreviewTimeout ended fuel with
              | None => None
              | Some (Ok l) => Some (Ok l)
              | Some (Err _) => Some (Err 400)
              | Some Panic => Some Panic
              end
          end
      end
  end.
End preview_source.

(** ** The sample *)

Section sample.
Context {St : Type} (next : St -> bool -> act * St).
(** What the source emits in [n] steps when it is left alone, and whether it has ended. *)
Fixpoint undisturbed (n : nat) (st : St) : list portDgm * bool :=
  match n with
  | O => ([], false)
  | S n =>
      match next st false with
      | (AEmit port d, st) => let '(l, b) := undisturbed n st in (MkPortDatagram port d :: l, b)
      | (AWait, st) => undisturbed n st
      | _ => ([], true)
      end
  end.
Lemma collect_step maxRecords ended fuel k cancelled st got : collect next maxRecords ended (S fuel) k cancelled st got =
  match next st (cancelled || ended k) with
  | (AEmit port d, st) => collect next maxRecords ended fuel (S k)
      ((cancelled || ended k) || (maxRecords <=? Z.of_nat (length (got ++ [MkPortDatagram port d])))) st (got ++ [MkPortDatagram port d])
  | (AWait, st) => collect next maxRecords ended fuel (S k) (cancelled || ended k) st got
  | (AReturn e, _) => Some (got, e)
  | (APanic v, _) => Some (got, Some (EOther ("flow: node type panicked during preview: " +:+ v)))
  end.
Proof. done. Qed.
(** The source returns once its context is done. *)
Hypothesis stops : forall st, exists e st', next st true = (AReturn e, st').
Lemma collect_stopped maxRecords ended fuel k cancelled st got : cancelled || ended k = true ->
  exists e, collect next maxRecords ended (S fuel) k cancelled st got = Some (got, e).
Proof. intros E. cbn. rewrite E. destruct (stops st) as (e & st' & ->). by exists e. Qed.
Lemma collect_sample maxRecords ended n : forall k st got, Z.of_nat (length got) < maxRecords ->
  ended (k + n)%nat = true \/ maxRecords <= Z.of_nat (length got + length (undisturbed n st).1) \/ (undisturbed n st).2 = true ->
  exists m e, (m <= n)%nat /\
    collect next maxRecords ended (S n) k false st got = Some (got ++ take (Z.to_nat maxRecords - length got) (undisturbed m st).1, e) /\
    ((forall i, (i <= n)%nat -> ended (k + i)%nat = false) -> m = n).
Proof.
  induction n as [|n IH]; intros k st got Hl Hend.
  { destruct Hend as [He|[He|He]]; [|cbn in He; lia|done]. rewrite Nat.add_0_r in He.
    destruct (collect_stopped maxRecords ended 0 k false st got He) as [e ->]. exists 0%nat, e. split_and!; [done|by cbn; rewrite take_nil, app_nil_r|done]. }
  destruct (ended k) eqn:Ek.
  { destruct (collect_stopped maxRecords ended (S n) k false st got Ek) as [e ->]. exists 0%nat, e. split_and!; [lia|by cbn; rewrite take_nil, app_nil_r|].
    intros H. specialize (H 0%nat ltac:(lia)). rewrite Nat.add_0_r in H. congruence. }
  rewrite <- Nat.add_succ_comm in Hend.
  assert (forall m, (forall i, (i <= S n)%nat -> ended (k + i)%nat = false) -> ((forall i, (i <= n)%nat -> ended (S k + i)%nat = false) -> m = n) -> S m = S n) as Hm.
  { intros m H Hi. f_equal. apply Hi. intros i Hin. rewrite Nat.add_succ_comm. apply H. lia. }
  cbn [undisturbed] in Hend. rewrite collect_step, Ek. cbn [orb]. destruct (next st false) as [[port d|e|v|] st'] eqn:En.
  - destruct (undisturbed n st') as [l b] eqn:Eu. cbn [fst snd length] in Hend.
    destruct (maxRecords <=? Z.of_nat (length (got ++ [MkPortDatagram port d]))) eqn:Ef; rewrite length_app in Ef; cbn [length] in Ef.
    + apply Z.leb_le in Ef. destruct (collect_stopped maxRecords ended n (S k) true st' (got ++ [MkPortDatagram port d]) eq_refl) as [e ->].
      exists (S n), e. split_and!; [done| |done]. cbn [undisturbed]. rewrite En, Eu. cbn [fst].
      replace (Z.to_nat maxRecords - length got)%nat with 1%nat by lia. done.
    + apply Z.leb_gt in Ef. destruct (IH (S k) st' (got ++ [MkPortDatagram port d])) as (m & e & H1 & -> & H3).
      * rewrite length_app. cbn. lia.
      * rewrite Eu, length_app. cbn [fst snd length]. destruct Hend as [?|[?|?]]; [by left|right; left; lia|by right; right].
      * exists (S m), e. split_and!; [lia| |by intros; apply Hm]. cbn [undisturbed]. rewrite En. destruct (undisturbed m st') as [l' b']. cbn [fst].
        rewrite <- app_assoc, length_app. cbn [length app]. replace (Z.to_nat maxRecords - length got)%nat with (S (Z.to_nat maxRecords - (length got + 1)))%nat by lia. done.
  - exists (S n), e. split_and!; [done| |done]. cbn [undisturbed]. rewrite En; cbn [fst]; by rewrite take_nil, app_nil_r.
  - eexists (S n), _. split_and!; [done| |done]. cbn [undisturbed]. rewrite En; cbn [fst]; by rewrite take_nil, app_nil_r.
  - destruct (IH (S k) st' got Hl Hend) as (m & e & H1 & -> & H3). exists (S m), e. split_and!; [lia| |by intros; apply Hm].
    cbn [undisturbed]. by rewrite En.
Qed.
(** With a source that returns once its context is done, a preview ends as soon as the context has ended, the
    source has, or enough was emitted; it returns the first records the source emits, at most [maxRecords], and
    exactly those when the time is not up before. *)
Theorem preview_sample maxRecords ended n st : 0 < maxRecords ->
  ended n = true \/ maxRecords <= Z.of_nat (length (undisturbed n st).1) \/ (undisturbed n st).2 = true ->
  exists m e, (m <= n)%nat /\ collect next maxRecords ended (S n) 0 false st [] = Some (take (Z.to_nat maxRecords) (undisturbed m st).1, e) /\
    ((forall i, (i <= n)%nat -> ended i = false) -> m = n).
Proof.
  intros Hm Hend. destruct (collect_sample maxRecords ended n 0 st []) as (m & e & H1 & H2 & H3); [done|done|].
  exists m, e. by rewrite Nat.sub_0_r in H2.
Qed.
End sample.

(** A source that does not look at its context between two emissions, as those that emit the records of a
    file or of an object, is not stopped: the callback never fails, so all records are returned, whatever the
    limit and the timeout. *)
Definition batch (l : list dgram) (_ : bool) : act * list dgram := match l with [] => (AReturn None, []) | d :: l => (AEmit "out" d, l) end.
Lemma collect_batch maxRecords ended l : forall k cancelled got,
  collect batch maxRecords ended (S (length l)) k cancelled l got = Some (got ++ map (MkPortDatagram "out") l, None).
Proof.
  induction l as [|d l IH]; intros k cancelled got; [by cbn; rewrite app_nil_r|]. cbn [length]. rewrite collect_step. cbn [batch]. rewrite IH.
  by rewrite <- app_assoc.
Qed.
Lemma emitRecords_count ids clock key vs : forall out, length (datastores.emitRecords ids clock (fun _ => None) key out vs).1 = (length out + length vs)%nat.
Proof. induction vs as [|v vs IH]; intros out; cbn; [lia|]. rewrite IH, length_app. cbn. lia. Qed.
Theorem preview_exceeds_limit maxRecords ended ids clock key vs :
  let ds := (datastores.emitRecords ids clock (fun _ => None) key [] vs).1 in
  length ds = length vs /\ collect batch maxRecords ended (S (length vs)) 0 false ds [] = Some (map (MkPortDatagram "out") ds, None).
Proof.
  cbv zeta. pose proof (emitRecords_count ids clock key vs []) as E. cbn in E. split; [done|]. rewrite <- E. apply (collect_batch _ _ _ 0 false []).
Qed.
(** A source that never looks at its context keeps the preview waiting for ever: the timeout ends the context,
    not the wait. *)
Lemma preview_may_hang maxRecords ended fuel cancelled k got :
  collect (fun (st : unit) (_ : bool) => (AWait, st)) maxRecords ended fuel k cancelled tt got = None.
Proof. revert k cancelled. induction fuel as [|fuel IH]; intros k cancelled; [done|apply IH]. Qed.

(** ** Connections *)

(** A node that was started by a deployment finds in its context what the deployment put there. *)
Lemma node_context c r store env flowID n :
  let cx := nodeCtx c r store env flowID n in
  ResolveConnection cx = (if decide (flowfile.Connection n = "") then Err "flow: this node has no connection configured" else r (flowfile.Connection n)) /\
  ContextStore cx = Some store /\ ResolvedEnv cx = Some env /\ CurrentIDs cx = (flowID, flowfile.ID n).
Proof. done. Qed.
(** No source that needs its connection can be previewed from the editor: the handler calls with a context
    that has no connection, so a source that returns the error of [ResolveConnection], as the MQTT, Kafka,
    Redis, MongoDB, S3, SQL, OPC UA, Modbus and SECS/GEM sources do, gets the answer 400. *)
Theorem preview_has_no_connection {St} (next : St -> bool -> act * St) types start Parse w e user flowID nodeID ended fuel :
  (forall ty cfg r, types !! ty = Some r -> flowfile.factory r cfg <> Panic) ->
  (forall ty cfg c m stop, ResolveConnection c = Err m -> exists m' st', next (start ty cfg c) stop = (AReturn (Some (EOther m')), st')) ->
  exists st, previewNode next types start Parse w e user flowID nodeID ended (S fuel) = Some (Err st).
Proof.
  intros Hf Hn. unfold previewNode. destruct (flowstore.flowAndAuthorize _ _ _ _ _) as [f|st]; [|by eexists].
  destruct (Parse _) as [ff|]; [|by eexists]. destruct (debugapi.find_node _ _) as [n|]; [|by eexists].
  assert (exists m, PreviewSource next types start Background (flowfile.Type_ n) (flowfile.Config n) DefaultPreviewMaxRecords DefaultPreviewTimeout ended (S fuel) = Some (Err m)) as [m ->]; [|by eexists].
  unfold PreviewSource, flowfile.Lookup. destruct (types !! flowfile.Type_ n) as [r|] eqn:Er; cbn [mbind option_bind]; [|by eexists].
  destruct (decide _); [by eexists|]. destruct (flowfile.factory r _) as [i|m|] eqn:Ef; [|by eexists|by destruct (Hf _ _ _ Er Ef)].
  destruct (flowfile.isSource i); [|by eexists]. cbn [collect].
  edestruct Hn as (m' & st' & ->); [reflexivity|]. by eexists.
Qed.

Module examples.
(** A source that resolves its connection and emits a datagram per step until its context is done. *)
Definition sampleDgram : dgram := New "d" 0 (MkSource "" "" "" "" "") (MkPayload ANil None).
Definition next (st : option string) (stop : bool) : act * option string :=
  match st with
  | Some m => (AReturn (Some (EOther m)), st)
  | None => if stop then (AReturn (Some ECanceled), st) else (AEmit "out" sampleDgram, st)
  end.
Definition start (_ _ : string) (c : ctx) : option string := match ResolveConnection c with Err m => Some m | _ => None end.
Definition types : flowfile.Registry :=
  {["t" := flowfile.MkRegistration (flowfile.MkNodeTypeInfo flowfile.KindSource [] ["out"] false "" "" "" "")
             (fun _ => Ok (flowfile.MkInstance true false false None))]}.
Definition r : ConnectionResolver := fun _ => Ok (MkConnectionInfo "mqtt" "{}" None).
Example with_connection :
  PreviewSource next types start (WithConnection Background r "c1") "t" "{}" 3 0 (fun _ _ => false) 10 = Some (Ok (replicate 3 (MkPortDatagram "out" sampleDgram))) /\
  PreviewSource next types start Background "t" "{}" 3 0 (fun _ _ => false) 10 = Some (Err "flow: no connection context (node not started under a Deployment)").
Proof. by vm_compute. Qed.
End examples.
End preview.
