(* ===== verification/AuditApi.v ===== *)
(** * Reading the audit log and the list of runtimes

    The handlers [listAuditLog] and [listRuntimes] of [controlplane/internal/api/auditlog.go] and
    [runtimes.go], over AuditLog, Auth and Registry. *)

From S2P Require Import Prelude GoStd Auth Registry AuditLog.
Import gostd.
Local Open Scope Z_scope.

Module auditapi.
Section handlers.
Context (parse : string -> option audit.json) (parseNano : string -> option Z) (renum : string -> string).
(** [projectID]: the query parameter, empty when it is not given. *)
Definition listAuditLog (db : auth.DB) (t : list audit.row) (ok1 ok2 : bool) (user : auth.User) (projectID : string) : res Z (list audit.Entry) :=
  let list := match audit.List_ parse parseNano renum t ok2 projectID with Ok l => Ok l | Err _ => Err 500 | Panic => Panic end in
  if decide (auth.SystemRole user <> auth.SystemRoleAdmin) then
    if decide (projectID = "") then Err 403
    else match auth.requireProjectRole db ok1 user projectID auth.RoleProjectAdmin with Some st => Err st | None => list end
  else list.
Definition listRuntimes (s : registry.Service) (order : list string) (oks : string -> bool) : list registry.RuntimeSnapshot :=
  registry.ListRuntimes s order oks.

Lemma scanEntry_project r x : audit.scanEntry parse parseNano renum r = Ok x -> audit.ProjectID x = default "" (audit.project_id r) /\ audit.ID x = audit.id r /\ audit.Seq x = audit.seq r.
Proof.
  unfold audit.scanEntry. destruct (parseNano _); [|done]. destruct (audit.unmarshal _ _ _); [|done]. destruct (audit.unmarshal _ _ _); [|done].
  by intros [= <-].
Qed.
(** Whoever reads entries is a system administrator, or has the role of a project administrator in the
    project that was asked for; then the answer is the entries of this project, all of them, newest first. *)
Theorem audit_read_scoped db t ok1 ok2 user projectID l : listAuditLog db t ok1 ok2 user projectID = Ok l ->
  (auth.SystemRole user = auth.SystemRoleAdmin \/
   projectID <> "" /\ exists role, auth.project_members db !! (projectID, auth.ID user) = Some role /\ auth.AtLeast role auth.RoleProjectAdmin = true) /\
  Forall2 (fun r x => audit.ID x = audit.id r /\ audit.Seq x = audit.seq r /\ audit.ProjectID x = default "" (audit.project_id r))
    (filter (fun r => projectID = "" \/ audit.project_id r = Some projectID) (reverse (audit.by_seq t))) l /\
  (projectID <> "" -> Forall (fun x => audit.ProjectID x = projectID) l).
Proof.
  intros H. assert (audit.List_ parse parseNano renum t ok2 projectID = Ok l /\
    (auth.SystemRole user = auth.SystemRoleAdmin \/ projectID <> "" /\ exists role, auth.project_members db !! (projectID, auth.ID user) = Some role /\ auth.AtLeast role auth.RoleProjectAdmin = true)) as [Hl Hr].
  { unfold listAuditLog in H. cbv zeta in H. destruct (decide (auth.SystemRole user <> auth.SystemRoleAdmin)) as [Hs|Hs].
    - destruct (decide (projectID = "")) as [|Hp]; [done|]. unfold auth.requireProjectRole, auth.RequireProjectRole, auth.ProjectRoleOf in H.
      rewrite decide_False in H by done. destruct ok1; [|done]. destruct (auth.project_members db !! _) as [role|] eqn:Em; [|done].
      destruct (auth.AtLeast role _) eqn:Ea; [|done]. split; [by destruct (audit.List_ _ _ _ _ _ _) as [l'|?|]; simplify_eq|]. right. split; [done|]. by exists role.
    - split; [by destruct (audit.List_ _ _ _ _ _ _) as [l'|?|]; simplify_eq|]. left. by apply dec_stable. }
  assert (Forall2 (fun r x => audit.ID x = audit.id r /\ audit.Seq x = audit.seq r /\ audit.ProjectID x = default "" (audit.project_id r))
    (filter (fun r => projectID = "" \/ audit.project_id r = Some projectID) (reverse (audit.by_seq t))) l) as Hf.
  { unfold audit.List_ in Hl. destruct ok2; [|done]. revert Hl. generalize (filter (fun r => projectID = "" \/ audit.project_id r = Some projectID) (reverse (audit.by_seq t))).
    intros rows. revert l H. clear Hr. intros l _. revert l. induction rows as [|r rows IH]; intros l; cbn; [intros [= <-]; constructor|].
    destruct (audit.scanEntry _ _ _ r) as [x|?|] eqn:Ex; [|done..]. cbn. destruct (res_mapM _ rows) as [xs|?|]; [|done..]. cbn. intros [= <-].
    apply scanEntry_project in Ex as (E1 & E2 & E3). constructor; [done|by apply IH]. }
  split_and!; [done|done|]. intros Hp. eapply Forall_impl; [|intros x Hx; exact Hx]. apply Forall_forall. intros x Hx.
  apply list_elem_of_lookup in Hx as [i Hi]. destruct (Forall2_lookup_r _ _ _ _ _ Hf Hi) as (r & Hr' & _ & _ & ->).
  apply list_elem_of_lookup_2, list_elem_of_filter in Hr' as [[?| ->] _]; [done|]. done.
Qed.
End handlers.
End auditapi.
